(* ===== verification/_CoqProject ===== *)
-Q . S2P
Prelude.v
KeyCodec.v
FastVarInt.v
DocKvUtil.v
HybridTime.v
DocHybridTime.v
HybridClock.v
Mvcc.v
ValueType.v
Intents.v
KeyBytes.v
Uuid.v
PrimitiveValue.v
VarInt.v
Decimal.v
PrimitiveValueKeys.v
DocKey.v
SubDocKey.v
ValueEncoding.v
LockEntry.v
LockManager.v
LockKeys.v
IntentsDb.v
FastMem.v
MonoTime.v
Value.v
CompactionFilter.v
CompactionKeys.v
Compaction.v
Quorum.v
LeaderElection.v
ConsensusMeta.v
RaftElection.v
RetryableRequests.v
ConsensusQueue.v
LeaderLease.v
RaftProtocol.v
ReplicaLog.v
RaftLog.v
