(* ===== verification/Prelude.v ===== *)
(** * A verification of the frescoDB (YugaByte DB) storage and consensus core

    frescoDB stores tables as tablets. Each tablet is replicated by Raft
    ([src/yb/consensus]); each replica keeps its data as records of RocksDB
    whose keys encode documents, paths inside documents and times
    ([src/yb/docdb]); hybrid clocks ([src/yb/server], [src/yb/common]) give the
    times; and each tablet tracks the operations in flight to know at which time
    it may be read ([src/yb/tablet]). This library models the parts where the
    correctness of the whole is decided: the encodings that make the order of
    bytes the order of keys, the locks and intents that isolate writes, the
    compaction that drops history, the clocks and the safe time, and the
    elections, the queues, the leases and the log of Raft. The definitions
    follow the C++ functions, with their names, statement by statement, and are
    executable; the last section of each file has its main theorems.

    ** Conventions

    A [Status] or [Result<T>] is [Result] (below), by its code without the
    message. A failing [CHECK] or [LOG(FATAL)] is [Fatal], undefined behaviour
    is [Undefined], both values of [Outcome]; [DCHECK] and [LOG(DFATAL)] take the
    parameter [release], and theorems hold for debug and release builds unless
    they name one. Bytes are numbers from 0 to 255 ([bytes] is [list Z]),
    machine integers are [Z] with their wrap-around written out ([u8], [u32],
    [u64], [s32], [s64]), times are integers in the unit of the code. A method
    that changes an object returns the new object; a mutex makes a method one
    step; where threads share memory without one ([HybridClock], [LockEntry],
    [LeaderElection]) each access is a step of a transition relation. Code that
    is not in the repository (boost, OpenSSL, the log, the clock of the host) is
    a parameter; what is relied on is stated in a class ([BoostUuid],
    [OpenSSLBN], [ComparableNumber], [Clock]) with an instance that shows it can
    hold.

    ** Encodings: [src/yb/util], [src/yb/docdb], [src/yb/common]

    [KeyCodec] is the interface: an encoding that is decoded in front of any
    bytes and ordered bytewise, closed under pairs and terminated groups. It is
    implemented bottom up. [FastVarInt] has the variable-length integers,
    [DocKvUtil] escaped strings and fixed-width numbers, [Uuid], [VarInt] and
    [Decimal] the comparable forms of those types, [HybridTime] and
    [DocHybridTime] times and times at the end of keys, [ValueType] and
    [KeyBytes] the tags and the buffers, [PrimitiveValue] and
    [PrimitiveValueKeys] the tagged values inside keys, [DocKey] the keys of
    documents and [SubDocKey] the keys of RocksDB. At each level there is a round
    trip (also of the decoders that only skip or split), and a theorem that the
    bytes of two keys compare as the keys do, with newer times first, for the
    values for which they do: not for NaN and negative zero, UUIDs of unknown
    versions and the ids of transactions and tables.
    [ValueEncoding] and [Value] have the right-hand sides with their TTLs and
    control fields; [FastMem] and [MonoTime] the memory comparisons and the
    durations underneath.

    ** Writes: [src/yb/docdb]

    [LockEntry] has one lock: a word of counters changed by compare-and-swap. Its
    threads, if they are fewer than [2 ^ 16], refine an atomic lock, exclude each
    other and lose no wake-up; their accesses are in one order, which the code
    does not ask of the hardware.
    [LockManager] locks batches of keys one after the other: conflicting
    batches exclude each other, and there is no deadlock. [LockKeys] determines
    the keys of an operation: operations on nested documents conflict. [Intents]
    and [IntentsDb] have the intents of transactions: which of them conflict,
    that a write stores intents for every prefix, that conflicts are found by
    the scan of the intents, and that applying a transaction makes its intents
    regular records and leaves nothing behind. [CompactionFilter],
    [CompactionKeys] and [Compaction] have the filter of compactions, what it
    computes from bytes, and that reads at and after the history cutoff see the
    same values before and after, together with the records of other files; the
    merge records of TTLs, and TTLs on values with others below them, are in the
    filter but not in these theorems.

    ** Time: [src/yb/server], [src/yb/tablet]

    [HybridClock] has the clocks; the times they give increase strictly, also
    when threads race. [Mvcc] has the operations in flight: on a leader a safe time
    is never overtaken by a later operation, and a leader that follows the protocol meets
    no failing check.

    ** Consensus: [src/yb/consensus]

    [Quorum] has configurations and majorities, [LeaderElection] the counting of
    votes on many threads, [ConsensusMeta] the term and vote on disk, and
    [RaftElection] the replica as far as it votes, starts elections and becomes
    leader. Its [system] is all replicas with any loss, delay, repetition and
    restart: no term has two leaders. [RetryableRequests] keeps repeated writes
    of clients from being written twice. [ConsensusQueue] is what a leader knows
    of its peers: its watermarks are what majorities have followed.
    [LeaderLease] composes elections, queues and leases: no two replicas hold the
    lease of the same hybrid time, unless the lease of an old leader is revoked,
    which can go wrong ([lease_revoked_early]).

    [RaftProtocol] is Raft without the code: nodes with logs, a log for each term
    that has a leader, votes and acknowledgements. Logs that share an operation
    agree up to it, a leader has all that was committed before, and committed
    operations stay committed, for any system of majorities. [ReplicaLog] is a
    replica with its log: the pending operations, adding, aborting and committing
    them, the requests that a follower handles and the rounds that a leader
    appends, and starting again from disk. [RaftLog] puts the replicas of a
    tablet together with their elections, the queues of their leaders and the
    messages between them. Its [log_step] is each operation of the code, the loss
    of messages and restarts. Every run of it is a run of the protocol
    ([raft_log_refines]), so that all replicas apply the same operations in the
    same order ([raft_state_machine_safety]) and leaders have what was applied
    ([raft_leader_completeness]). [log_system] supposes some things of what
    surrounds the code. Between a leader and a follower there is one message at a
    time, a request or the response to it. Writes to the log are done when the
    call is. Building a request and becoming leader are one step, the latter with
    a new queue. A queue is used while its replica is in the term of the queue,
    and what it tells of majorities is taken up in that term. The configuration
    does not change, the indexes of operations fit 63 bits, operations are read
    from the cache, and elections that wait for a commit ([pending_commit]) are
    not started. The last section of [ReplicaLog] shows what the code allows
    where some of this does not hold.
    ** Bounds and fuel

    Recursion is structural or on a measure wherever the code loops over data.
    Decoders that loop over the rest of a slice take a step for each byte of the
    slice as fuel. [decode_key], which recurs into nested values, returns [None]
    when it has none left, and [primitive_value_decode_terminates] shows that it
    never does; the loops over the components of a key end with [Incomplete],
    which the code does not return there, and the theorems on them (round trips,
    prefixes, locks) show their results for every key. Loops over the concurrent steps of
    other threads are steps of a relation, with a measure that decreases where
    the code must come to an end ([lock_manager_no_deadlock],
    [election_run_correct]). Limits of the code (the size of a varint, the width
    of a counter, the depth of a path) are kept as they are.

    ** Not modelled

    The fork of PostgreSQL ([src/postgres]) and the forks of RocksDB
    ([src/yb/rocksdb], [src/yb/rocksutil]) are systems of their own; of RocksDB
    only the order of keys, the batch of a write and the calls of the compaction
    filter appear here. The query layers ([src/yb/yql], [src/yb/common] beyond
    times and keys), the client, the master, the tablet server, CDC, the RPC
    system, the file system layer and the tools are protocol handling, I/O and
    plumbing around these parts and have no definitions here. Of consensus, the
    write-ahead log on disk, the memory of the log cache, remote bootstrap,
    changes of the configuration by clients and the timers of failure detection
    are left out; of the
    tablet, the coordinator and the participant of transactions; of DocDB, the
    read path over iterators and the operations of the query languages. Message
    texts, metrics, traces and logging have no effect on what is modelled. *)

From stdpp Require Export base list list_numbers numbers strings gmap sorting.
From Stdlib Require Export ZArith Lia.

#[export] Set Default Goal Selector "!".

(** ** Status codes, results and outcomes

    A C++ [Status]/[Result<T>] is [Result]: the message text is not modelled,
    only the code.  A failing [CHECK] or [LOG(FATAL)] terminates the process;
    [Outcome] has one value for that and one for undefined behaviour. *)

Inductive StatusCode : Type :=
| Corruption | RuntimeError | InvalidArgument | IllegalState | NotFound
| NotSupported | Aborted | AlreadyPresent | ServiceUnavailable | TryAgain
| Expired | LeaderNotReadyToServe | LeaderHasNoLease | InternalError
| Incomplete | TimedOut.

#[export] Instance StatusCode_eq_dec : EqDecision StatusCode.
Proof. solve_decision. Defined.

Inductive Result (A : Type) : Type :=
| Ok (a : A)
| Error (c : StatusCode).
Arguments Ok {A} a.
Arguments Error {A} c.

Inductive Outcome (A : Type) : Type :=
| Done (a : A)
| Fatal
| Undefined.
Arguments Done {A} a.
Arguments Fatal {A}.
Arguments Undefined {A}.

#[export] Instance result_ret : MRet Result := @Ok.
#[export] Instance result_bind : MBind Result := λ A B f r,
  match r with Ok a => f a | Error c => Error c end.
#[export] Instance outcome_ret : MRet Outcome := @Done.
#[export] Instance outcome_bind : MBind Outcome := λ A B f r,
  match r with Done a => f a | Fatal => Fatal | Undefined => Undefined end.

(** A function that may fail with a status and may also crash or run into
    undefined behaviour: [x ⇐ m; k] is [VERIFY_RESULT]/[RETURN_NOT_OK]. *)
Definition or_bind {A B} (m : Outcome (Result A)) (k : A → Outcome (Result B))
    : Outcome (Result B) :=
  match m with
  | Done (Ok a) => k a
  | Done (Error c) => Done (Error c)
  | Fatal => Fatal
  | Undefined => Undefined
  end.

Declare Scope yb_scope.
Delimit Scope yb_scope with yb.
Notation "x ⇐ m ; k" := (or_bind m (λ x, k))
  (at level 20, m at level 100, k at level 200, right associativity,
   format "x  ⇐  m ;  '/' k") : yb_scope.
Notation "' x ⇐ m ; k" := (or_bind m (λ x, k))
  (at level 20, x pattern, m at level 100, k at level 200, right associativity,
   format "' x  ⇐  m ;  '/' k") : yb_scope.
Open Scope yb_scope.

(** Recursion that is not structural has fuel, and [None] is that it ran out:
    [x ⇚ m; k] is [x ⇐ m; k] there. *)
Definition fuel_bind {A B} (m : option (Outcome (Result A))) (k : A → option (Outcome (Result B)))
    : option (Outcome (Result B)) :=
  match m with
  | Some (Done (Ok a)) => k a
  | Some (Done (Error c)) => Some (Done (Error c))
  | Some Fatal => Some Fatal
  | Some Undefined => Some Undefined
  | None => None
  end.
Notation "' x ⇚ m ; k" := (fuel_bind m (λ x, k))
  (at level 20, x pattern, m at level 100, k at level 200, right associativity,
   format "' x  ⇚  m ;  '/' k") : yb_scope.

(** The result of a recursion that has fuel enough. *)
Definition finished {A} (m : option (Outcome A)) : Outcome A := default Undefined m.

Lemma fuel_bind_Ok {A B} (m : option (Outcome (Result A))) (k : A → option (Outcome (Result B))) b :
  fuel_bind m k = Some (Done (Ok b)) → ∃ a, m = Some (Done (Ok a)) ∧ k a = Some (Done (Ok b)).
Proof. destruct m as [[[]| |]|]; try done. eauto. Qed.

Lemma fuel_bind_is_Some {A B} (m : option (Outcome (Result A))) (k : A → option (Outcome (Result B))) :
  is_Some m → (∀ a, m = Some (Done (Ok a)) → is_Some (k a)) → is_Some (fuel_bind m k).
Proof. intros [[[a|c]| |] ->] Hk; cbn; eauto. Qed.

(** [CHECK(b)]: the process dies when [b] is false. *)
Definition CHECK (b : bool) : Outcome unit := if b then Done tt else Fatal.

(** [DCHECK] and [LOG(DFATAL)] end the process in debug builds only. *)
Definition DCHECK (release b : bool) : Outcome unit := if release then Done tt else CHECK b.
Definition LOG_DFATAL (release : bool) : Outcome unit := if release then Done tt else Fatal.

Lemma result_bind_Ok {A B} (r : Result A) (f : A → Result B) b :
  r ≫= f = Ok b → ∃ a, r = Ok a ∧ f a = Ok b.
Proof. destruct r; simpl; [eauto | discriminate]. Qed.

Lemma outcome_bind_Done {A B} (r : Outcome A) (f : A → Outcome B) b :
  r ≫= f = Done b → ∃ a, r = Done a ∧ f a = Done b.
Proof. destruct r; simpl; [eauto | discriminate | discriminate]. Qed.

Lemma CHECK_Done b u : CHECK b = Done u → b = true.
Proof. by destruct b. Qed.

(** Peels a chain of monadic binds that is known to have succeeded. *)
Ltac inv_outcome :=
  repeat match goal with
  | H : _ ≫= _ = Done _ |- _ =>
      apply outcome_bind_Done in H as (? & ? & H)
  | H : CHECK _ = Done _ |- _ => apply CHECK_Done in H
  | H : _ ≫= _ = Ok _ |- _ => apply result_bind_Ok in H as (? & ? & H)
  end.

(** ** Machine integers: [uintN_t] is a [Z] in [0, 2^N), [intN_t] one in
    [-2^(N-1), 2^(N-1)); casts and arithmetic wrap explicitly. *)

Section machine_integers.
Local Open Scope Z_scope.

Definition wrap (w x : Z) : Z := x mod 2 ^ w.
Definition u8 (x : Z) : Z := wrap 8 x.
Definition u16 (x : Z) : Z := wrap 16 x.
Definition u32 (x : Z) : Z := wrap 32 x.
Definition u64 (x : Z) : Z := wrap 64 x.

Definition signed (w x : Z) : Z :=
  let y := wrap w x in if y <? 2 ^ (w - 1) then y else y - 2 ^ w.
Definition s32 (x : Z) : Z := signed 32 x.
Definition s64 (x : Z) : Z := signed 64 x.

Definition is_u (w x : Z) : Prop := 0 <= x < 2 ^ w.
Definition is_s (w x : Z) : Prop := - 2 ^ (w - 1) <= x < 2 ^ (w - 1).

(** [__builtin_clz] on a 32-bit argument; the code never passes 0. *)
Definition clz32 (x : Z) : Z := 31 - Z.log2 x.

End machine_integers.

Abbreviation bytes := (list Z).
Abbreviation byte_ok := (is_u 8).
Abbreviation bytes_ok := (Forall (is_u 8)).

Section machine_integer_lemmas.
Local Open Scope Z_scope.

Lemma pow2_pos w : 0 <= w -> 0 < 2 ^ w.
Proof. intros. apply Z.pow_pos_nonneg; lia. Qed.

Lemma wrap_small w x : is_u w x -> wrap w x = x.
Proof. apply Z.mod_small. Qed.

Lemma wrap_range w x : 0 <= w -> is_u w (wrap w x).
Proof. intros Hw. apply Z.mod_pos_bound, pow2_pos, Hw. Qed.

Lemma signed_small w x : 0 < w -> is_s w x -> signed w x = x.
Proof.
  intros Hw [H1 H2]. unfold signed, wrap.
  assert (2 ^ w = 2 * 2 ^ (w - 1)) as E
    by (rewrite <- Z.pow_succ_r by lia; f_equal; lia).
  destruct (Z.ltb_spec x 0) as [Hx|Hx].
  - replace (x mod 2 ^ w) with (x + 2 ^ w).
    + destruct (Z.ltb_spec (x + 2 ^ w) (2 ^ (w - 1))); lia.
    + apply Z.mod_unique with (q := -1); lia.
  - rewrite Z.mod_small by lia.
    destruct (Z.ltb_spec x (2 ^ (w - 1))); lia.
Qed.

Lemma signed_wrap w x : 0 < w -> signed w (wrap w x) = signed w x.
Proof.
  intros Hw. unfold signed, wrap. rewrite Z.mod_mod; [done|].
  pose proof (pow2_pos w). lia.
Qed.

Lemma signed_range w x : 0 < w -> is_s w (signed w x).
Proof.
  intros Hw. unfold signed, is_s.
  pose proof (wrap_range w x ltac:(lia)) as [H1 H2]. unfold is_u in *.
  assert (2 ^ w = 2 * 2 ^ (w - 1)) as E
    by (rewrite <- Z.pow_succ_r by lia; f_equal; lia).
  destruct (Z.ltb_spec (wrap w x) (2 ^ (w - 1))); lia.
Qed.

(** [~x] on a [w]-bit unsigned value. *)
Lemma wrap_lnot w x : 0 <= w -> is_u w x -> wrap w (Z.lnot x) = 2 ^ w - 1 - x.
Proof.
  intros Hw [H1 H2]. unfold wrap, Z.lnot.
  symmetry. apply Z.mod_unique with (q := -1); lia.
Qed.

Lemma land_mask w x : 0 <= w -> Z.land x (2 ^ w - 1) = x mod 2 ^ w.
Proof.
  intros Hw. rewrite <- Z.land_ones by lia. f_equal.
  rewrite Z.ones_equiv. lia.
Qed.

(** Disjoint [|] is [+]. *)
Lemma lor_add_disjoint k a b :
  0 <= k -> 0 <= b < 2 ^ k -> Z.lor (a * 2 ^ k) b = a * 2 ^ k + b.
Proof.
  intros Hk Hb. pose proof (Z.add_lor_land (a * 2 ^ k) b).
  enough (Z.land (a * 2 ^ k) b = 0) by lia.
  destruct (decide (b = 0)) as [->|Hb0]; [apply Z.land_0_r|].
  rewrite <- Z.shiftl_mul_pow2 by lia. apply Z.bits_inj'. intros n Hn.
  rewrite Z.land_spec, Z.bits_0. destruct (Z.ltb_spec n k).
  - by rewrite Z.shiftl_spec_low.
  - rewrite (Z.bits_above_log2 b n); [apply andb_false_r | lia |].
    apply Z.log2_lt_pow2; [lia|]. pose proof (Z.pow_le_mono_r 2 k n). lia.
Qed.

End machine_integer_lemmas.

(** ** Byte strings: big-endian numbers and the lexicographic order *)

Section byte_strings.
Local Open Scope Z_scope.

(** The [n] low-order bytes of [v], most significant first
    ([BigEndian::Store16/32/64]). *)
Fixpoint be_bytes (n : nat) (v : Z) : bytes :=
  match n with
  | O => []
  | S n' => u8 (Z.shiftr v (8 * Z.of_nat n')) :: be_bytes n' v
  end.

(** The number a big-endian byte string denotes ([BigEndian::Load*]). *)
Definition be_value (l : bytes) : Z := foldl (λ acc b, acc * 256 + b) 0 l.

(** [Slice::compare]: [memcmp] on the common length, then the length. *)
Fixpoint bytes_compare (a b : bytes) : comparison :=
  match a, b with
  | [], [] => Eq
  | [], _ :: _ => Lt
  | _ :: _, [] => Gt
  | x :: a', y :: b' =>
      match x ?= y with Eq => bytes_compare a' b' | c => c end
  end.

(** [Slice::starts_with]. *)
Fixpoint starts_with (s x : bytes) : bool :=
  match x, s with
  | [], _ => true
  | b :: x', c :: s' => (b =? c) && starts_with s' x'
  | _ :: _, [] => false
  end.

End byte_strings.

Section byte_string_lemmas.
Local Open Scope Z_scope.

Lemma be_bytes_length n v : length (be_bytes n v) = n.
Proof. induction n; simpl; congruence. Qed.

Lemma be_bytes_ok n v : bytes_ok (be_bytes n v).
Proof. induction n; simpl; constructor; [apply wrap_range; lia | done]. Qed.

Lemma be_value_acc l acc :
  foldl (λ acc b, acc * 256 + b) acc l = acc * 2 ^ (8 * Z.of_nat (length l)) + be_value l.
Proof.
  unfold be_value. revert acc. induction l as [|b l IH]; intros acc.
  { simpl. lia. }
  cbn [foldl length]. rewrite (IH (acc * 256 + b)), (IH (0 * 256 + b)).
  replace (8 * Z.of_nat (S (length l))) with (8 + 8 * Z.of_nat (length l)) by lia.
  rewrite Z.pow_add_r by lia. change (2 ^ 8) with 256. ring.
Qed.

Lemma be_value_cons b l :
  be_value (b :: l) = b * 2 ^ (8 * Z.of_nat (length l)) + be_value l.
Proof. unfold be_value at 1. cbn [foldl]. rewrite be_value_acc. ring. Qed.

Lemma be_value_app l1 l2 :
  be_value (l1 ++ l2) = be_value l1 * 2 ^ (8 * Z.of_nat (length l2)) + be_value l2.
Proof. unfold be_value at 1. rewrite foldl_app, be_value_acc. done. Qed.

Lemma be_value_range l :
  bytes_ok l -> 0 <= be_value l < 2 ^ (8 * Z.of_nat (length l)).
Proof.
  induction 1 as [|b l Hb Hl IH]; [done|].
  rewrite be_value_cons. cbn [length]. unfold is_u in Hb.
  replace (8 * Z.of_nat (S (length l))) with (8 + 8 * Z.of_nat (length l)) by lia.
  rewrite Z.pow_add_r by lia. nia.
Qed.

Lemma be_value_be_bytes n v :
  be_value (be_bytes n v) = v mod 2 ^ (8 * Z.of_nat n).
Proof.
  induction n as [|n IH]; [by rewrite Z.mod_1_r|].
  cbn [be_bytes]. rewrite be_value_cons, be_bytes_length, IH.
  replace (8 * Z.of_nat (S n)) with (8 * Z.of_nat n + 8) by lia.
  unfold u8, wrap. rewrite Z.shiftr_div_pow2 by lia.
  rewrite Z.pow_add_r, Z.rem_mul_r by lia. ring.
Qed.

Lemma be_bytes_mod n v : be_bytes n (v mod 2 ^ (8 * Z.of_nat n)) = be_bytes n v.
Proof.
  assert (∀ m, (m <= n)%nat ->
    be_bytes m (v mod 2 ^ (8 * Z.of_nat n)) = be_bytes m v) as H; [|by apply H].
  induction m as [|m IH]; intros Hm; [done|]. cbn [be_bytes].
  rewrite IH by lia. f_equal. unfold u8, wrap.
  rewrite <- !Z.land_ones by lia. apply Z.bits_inj'. intros k Hk.
  rewrite !Z.land_spec, !Z.shiftr_spec, Z.land_spec by lia.
  destruct (decide (k < 8)).
  - rewrite (Z.ones_spec_low (8 * Z.of_nat n)) by lia. by rewrite andb_true_r.
  - by rewrite (Z.ones_spec_high 8), !andb_false_r by lia.
Qed.

Lemma be_bytes_be_value l : bytes_ok l -> be_bytes (length l) (be_value l) = l.
Proof.
  induction 1 as [|b l Hb Hl IH]; [done|]. cbn [length be_bytes].
  pose proof (be_value_range _ Hl) as Hr. unfold is_u in Hb.
  rewrite be_value_cons. f_equal.
  - rewrite Z.shiftr_div_pow2 by lia.
    rewrite Z.div_add_l, Z.div_small, Z.add_0_r by lia. by apply wrap_small.
  - rewrite <- (be_bytes_mod (length l)).
    rewrite Z.add_comm, Z_mod_plus_full, be_bytes_mod. done.
Qed.

Lemma be_bytes_app n m v :
  be_bytes (n + m) v = be_bytes n (Z.shiftr v (8 * Z.of_nat m)) ++ be_bytes m v.
Proof.
  induction n as [|n IH]; [done|]. cbn [be_bytes Nat.add app]. rewrite IH.
  f_equal. rewrite Z.shiftr_shiftr by lia. do 2 f_equal. lia.
Qed.

Lemma bytes_compare_refl a : bytes_compare a a = Eq.
Proof. induction a; simpl; [done|]. by rewrite Z.compare_refl. Qed.

Lemma bytes_compare_eq a b : bytes_compare a b = Eq <-> a = b.
Proof.
  split; [|intros ->; apply bytes_compare_refl].
  revert b. induction a as [|x a IH]; intros [|y b]; simpl; try done.
  destruct (Z.compare_spec x y) as [->|?|?]; try done. intros ->%IH; done.
Qed.

Lemma bytes_compare_antisym a b : bytes_compare b a = CompOpp (bytes_compare a b).
Proof.
  revert b. induction a as [|x a IH]; intros [|y b]; simpl; try done.
  rewrite (Z.compare_antisym x y). destruct (x ?= y); simpl; auto.
Qed.

Lemma bytes_compare_app_l p a b : bytes_compare (p ++ a) (p ++ b) = bytes_compare a b.
Proof. induction p; simpl; [done|]. by rewrite Z.compare_refl. Qed.

(** Two strings that already differ within their common length compare the
    same whatever follows them. *)
Lemma bytes_compare_same_length a b r1 r2 :
  length a = length b -> bytes_compare a b ≠ Eq ->
  bytes_compare (a ++ r1) (b ++ r2) = bytes_compare a b.
Proof.
  revert b. induction a as [|x a IH]; intros [|y b]; simpl; try done.
  intros [= Hl]. destruct (x ?= y); auto.
Qed.

(** Equal-length strings compare as the numbers they denote. *)
Lemma bytes_compare_be a b :
  length a = length b -> bytes_ok a -> bytes_ok b ->
  bytes_compare a b = (be_value a ?= be_value b).
Proof.
  revert b. induction a as [|x a IH]; intros [|y b] Hl Ha Hb; try done.
  injection Hl as Hl. inversion_clear Ha as [|?? Hx Ha']. inversion_clear Hb as [|?? Hy Hb'].
  rewrite !be_value_cons, Hl. cbn [bytes_compare]. rewrite IH by done.
  pose proof (be_value_range _ Ha') as Hra. pose proof (be_value_range _ Hb') as Hrb.
  rewrite Hl in Hra. set (P := 2 ^ _) in *.
  destruct (Z.compare_spec x y) as [->|Hlt|Hgt].
  - by rewrite Z.add_compare_mono_l.
  - symmetry. apply Z.compare_lt_iff. nia.
  - symmetry. apply Z.compare_gt_iff. nia.
Qed.

Lemma bytes_compare_trans a b c :
  bytes_compare a b ≠ Gt -> bytes_compare b c ≠ Gt -> bytes_compare a c ≠ Gt.
Proof.
  revert b c. induction a as [|x a IH]; intros [|y b] [|z c] Hab Hbc; simpl in *; try done.
  destruct (Z.compare_spec x y) as [->|?|?], (Z.compare_spec y z) as [->|?|?]; try done;
    rewrite ?Z.compare_refl, ?(proj2 (Z.compare_lt_iff _ _)) by lia; eauto.
Qed.

(** The lexicographic order as a total order on byte strings. *)
Definition bytes_le (a b : bytes) : Prop := bytes_compare a b ≠ Gt.
Definition bytes_lt (a b : bytes) : Prop := bytes_compare a b = Lt.

#[export] Instance bytes_le_dec : RelDecision bytes_le.
Proof.
  intros a b. unfold bytes_le.
  destruct (bytes_compare a b); [by left|by left|right]. intros Hc. by apply Hc.
Defined.

#[export] Instance bytes_le_trans : Transitive bytes_le.
Proof. intros a b c. apply bytes_compare_trans. Qed.

#[export] Instance bytes_le_total : Total bytes_le.
Proof.
  intros a b. unfold bytes_le. rewrite (bytes_compare_antisym a b).
  destruct (bytes_compare a b); simpl; auto; left; done.
Qed.

#[export] Instance bytes_le_antisym : AntiSymm (=) bytes_le.
Proof.
  intros a b. unfold bytes_le. rewrite (bytes_compare_antisym a b), <- bytes_compare_eq.
  by destruct (bytes_compare a b).
Qed.

Lemma bytes_lt_le a b : bytes_lt a b <-> bytes_le a b /\ a ≠ b.
Proof.
  unfold bytes_lt, bytes_le. rewrite <- bytes_compare_eq. destruct (bytes_compare a b); naive_solver.
Qed.

Lemma bytes_lt_irrefl a : ¬ bytes_lt a a.
Proof. unfold bytes_lt. by rewrite bytes_compare_refl. Qed.

#[export] Instance bytes_lt_trans : Transitive bytes_lt.
Proof.
  intros a b c Hab Hbc. apply bytes_lt_le. split.
  - transitivity b; by apply bytes_lt_le.
  - intros ->. unfold bytes_lt in *. rewrite bytes_compare_antisym, Hab in Hbc. done.
Qed.

Lemma bytes_lt_ge a b : ¬ bytes_lt a b -> bytes_le b a.
Proof.
  unfold bytes_lt, bytes_le. rewrite (bytes_compare_antisym a b). by destruct (bytes_compare a b).
Qed.

(** A non-empty list of strings has a largest one. *)
Lemma bytes_maximal (l : list bytes) : l ≠ [] -> ∃ m, m ∈ l /\ ∀ x, x ∈ l -> ¬ bytes_lt m x.
Proof.
  induction l as [|a l IH]; [done|]. intros _. destruct (decide (l = [])) as [->|Hne].
  - exists a. split; [by left|]. intros x ->%list_elem_of_singleton. apply bytes_lt_irrefl.
  - destruct (IH Hne) as (m & Hm & Hmax). destruct (decide (bytes_le a m)) as [Hle|Hgt].
    + exists m. split; [by right|]. intros x [->|?]%elem_of_cons; [|auto].
      intros Hlt. unfold bytes_lt, bytes_le in *. rewrite bytes_compare_antisym, Hlt in Hle. done.
    + exists a. split; [by left|]. intros x [->|Hx]%elem_of_cons; [apply bytes_lt_irrefl|].
      intros Hlt. apply (Hmax x Hx). transitivity a; [|done].
      unfold bytes_lt, bytes_le in *. rewrite bytes_compare_antisym.
      destruct (bytes_compare a m); [by destruct Hgt|by destruct Hgt|done].
Qed.

End byte_string_lemmas.

(** Elements of a sorted list, by position. *)
Lemma StronglySorted_lookup {A} (R : relation A) (l : list A) i j x y :
  StronglySorted R l -> l !! i = Some x -> l !! j = Some y -> (i < j)%nat -> R x y.
Proof.
  intros Hs. revert i j. induction Hs as [|a l Hs IH Hall]; intros i j Hx Hy Hij; [done|].
  destruct i as [|i], j as [|j]; simplify_eq/=; [lia| |lia|].
  - rewrite Forall_forall in Hall. apply Hall. by eapply list_elem_of_lookup_2.
  - apply (IH i j); [done..|lia].
Qed.

(** A property of a byte, by evaluation. *)
Lemma byte_forall (P : Z → bool) :
  forallb P (seqZ 0 256) = true → ∀ x, (0 <= x < 256)%Z → P x = true.
Proof.
  intros Hall x Hx. rewrite forallb_forall in Hall. apply Hall.
  apply list_elem_of_In, elem_of_seqZ. lia.
Qed.

(** ** Automation for byte strings *)

Create HintDb yb_bytes.
#[export] Hint Resolve be_bytes_ok wrap_range : yb_bytes.

(** Splits a concatenation and closes the parts with the lemmas at hand. *)
Ltac solve_bytes :=
  repeat match goal with
  | |- Forall _ (_ ++ _) => apply Forall_app; split
  | |- Forall _ (_ :: _) => apply Forall_cons; split
  | |- Forall _ [] => apply Forall_nil; exact I
  end; eauto with yb_bytes.
