(* ===== verification/KeyCodec.v ===== *)
(** * What a key component promises to the keys built from it

    DocDB keys are concatenations of self-delimiting components that RocksDB
    compares bytewise.  [KeyCodec] states what every component encoding must
    provide: bytes, a decoder that inverts it in front of any suffix, and an
    order on the encodings that is decided before the suffix.  The
    combinators below (pairs and terminated groups) compose codecs the way
    [DocKeyEncoder] and [ConsumePrimitiveValuesFromKey] do. *)

From S2P Require Import Prelude.
Local Open Scope Z_scope.

Class KeyCodec {A : Type} (valid : A → Prop) (cmp : A → A → comparison)
    (enc : A → bytes) (dec : bytes → Result (A * bytes)) : Prop := {
  kc_ok a : valid a → bytes_ok (enc a);
  kc_roundtrip a rest : valid a → bytes_ok rest → dec (enc a ++ rest) = Ok (a, rest);
  kc_order a b r1 r2 : valid a → valid b → a ≠ b →
    bytes_compare (enc a ++ r1) (enc b ++ r2) = cmp a b
}.

Section codec_facts.
Context {A : Type} {valid : A → Prop} {cmp : A → A → comparison}
  {enc : A → bytes} {dec : bytes → Result (A * bytes)} `{!KeyCodec valid cmp enc dec}.

Lemma kc_inj a b : valid a → valid b → enc a = enc b → a = b.
Proof using All.
  intros Ha Hb E.
  pose proof (kc_roundtrip a [] Ha ltac:(constructor)) as Ra.
  pose proof (kc_roundtrip b [] Hb ltac:(constructor)) as Rb.
  rewrite E in Ra. congruence.
Qed.

Lemma kc_cmp_neq a b : valid a → valid b → a ≠ b → cmp a b ≠ Eq.
Proof using All.
  intros Ha Hb Hne E. apply Hne, kc_inj; [done..|].
  rewrite <- (kc_order a b [] []), !app_nil_r in E by done.
  by apply bytes_compare_eq.
Qed.

(** A codec of some values is one of fewer. *)
Lemma codec_weaken (valid' : A → Prop) :
  (∀ a, valid' a → valid a) → KeyCodec valid' cmp enc dec.
Proof using All.
  intros Hv. split.
  - intros a Ha. by apply kc_ok, Hv.
  - intros a rest Ha Hr. by apply kc_roundtrip; [apply Hv|].
  - intros a b r1 r2 Ha Hb Hne. by apply kc_order; [apply Hv..|].
Qed.

End codec_facts.

(** ** Pairs *)

Definition pair_compare {A B} (cmpA : A → A → comparison) (cmpB : B → B → comparison)
    (x y : A * B) : comparison :=
  match cmpA x.1 y.1 with Eq => cmpB x.2 y.2 | c => c end.

Section pair_codec.
Context {A B : Type} `{EqDecision A}.
Context {validA cmpA encA decA} `{KA : !@KeyCodec A validA cmpA encA decA}.
Context {validB cmpB encB decB} `{KB : !@KeyCodec B validB cmpB encB decB}.

(** [cmpA] must be reflexive for equal first components to be skipped. *)
Hypothesis cmpA_refl : ∀ a, validA a → cmpA a a = Eq.

Lemma pair_codec :
  KeyCodec (λ x, validA x.1 ∧ validB x.2) (pair_compare cmpA cmpB)
    (λ x, encA x.1 ++ encB x.2)
    (λ s, '(a, s) ← decA s; '(b, s) ← decB s; Ok ((a, b), s)).
Proof using All.
  split.
  - intros [a b] [Ha Hb]. apply Forall_app. split; [by eapply kc_ok | by eapply (kc_ok (enc:=encB))].
  - intros [a b] rest [Ha Hb] Hr. simpl in *. rewrite <- app_assoc.
    rewrite (kc_roundtrip a) by (done || (apply Forall_app; split; [by eapply (kc_ok (enc:=encB))|done])).
    simpl. by rewrite (kc_roundtrip b).
  - intros [a1 b1] [a2 b2] r1 r2 [Ha1 Hb1] [Ha2 Hb2] Hne. simpl in *.
    unfold pair_compare. simpl. rewrite <- !app_assoc.
    destruct (decide (a1 = a2)) as [->|Hna].
    + rewrite bytes_compare_app_l, cmpA_refl by done.
      rewrite (kc_order b1 b2); [done..|]. congruence.
    + rewrite (kc_order a1 a2) by done.
      pose proof (kc_cmp_neq a1 a2 Ha1 Ha2 Hna) as Hc. by destruct (cmpA a1 a2).
Qed.
End pair_codec.

(** ** Groups: components up to an end marker

    [ascending] groups end with a marker below every first byte of a component
    (a prefix sorts first), descending ones with a marker above. *)

Fixpoint group_compare {A} (asc : bool) (cmp : A → A → comparison) (l1 l2 : list A)
    : comparison :=
  match l1, l2 with
  | [], [] => Eq
  | [], _ :: _ => if asc then Lt else Gt
  | _ :: _, [] => if asc then Gt else Lt
  | a :: l1', b :: l2' => match cmp a b with Eq => group_compare asc cmp l1' l2' | c => c end
  end.

Definition group_encode {A} (end_marker : Z) (enc : A → bytes) (l : list A) : bytes :=
  concat (enc <$> l) ++ [end_marker].

Section group_codec.
Context {A : Type} `{EqDecision A}.
Context {valid cmp enc dec} `{K : !@KeyCodec A valid cmp enc dec}.
Context (asc : bool) (end_marker : Z).
Hypothesis cmp_refl : ∀ a, valid a → cmp a a = Eq.
Hypothesis marker_ok : byte_ok end_marker.
Hypothesis first_byte : ∀ a, valid a → ∃ b tl, enc a = b :: tl ∧
  if asc then end_marker < b else b < end_marker.

Lemma group_encode_cons a l : group_encode end_marker enc (a :: l) =
  enc a ++ group_encode end_marker enc l.
Proof using. unfold group_encode. cbn [fmap list_fmap concat]. by rewrite <- app_assoc. Qed.

Lemma group_encode_ok l : Forall valid l → bytes_ok (group_encode end_marker enc l).
Proof using K marker_ok.
  induction 1 as [|a l Ha Hl IH]; [by apply Forall_singleton|].
  rewrite group_encode_cons. apply Forall_app. split; [by eapply kc_ok | done].
Qed.

Lemma group_compare_nil_l a r1 r2 :
  valid a → bytes_compare (end_marker :: r1) (enc a ++ r2) = if asc then Lt else Gt.
Proof using first_byte.
  intros Ha. destruct (first_byte a Ha) as (b & tl & -> & Hb). cbn [app bytes_compare].
  destruct asc; destruct (Z.compare_spec end_marker b); lia || done.
Qed.

Lemma group_order l1 l2 r1 r2 :
  Forall valid l1 → Forall valid l2 → l1 ≠ l2 →
  bytes_compare (group_encode end_marker enc l1 ++ r1) (group_encode end_marker enc l2 ++ r2)
  = group_compare asc cmp l1 l2.
Proof using All.
  intros H1. revert l2. induction H1 as [|a l1 Ha Hl1 IH]; intros [|b l2] H2 Hne; [done| | |].
  - inversion_clear H2. rewrite group_encode_cons, <- app_assoc. by apply group_compare_nil_l.
  - rewrite group_encode_cons, <- app_assoc, bytes_compare_antisym.
    unfold group_encode at 1. simpl app. rewrite group_compare_nil_l by done.
    by destruct asc.
  - inversion_clear H2 as [|?? Hb Hl2]. rewrite !group_encode_cons, <- !app_assoc.
    cbn [group_compare]. destruct (decide (a = b)) as [->|Hna].
    + rewrite bytes_compare_app_l, cmp_refl by done. apply IH; congruence.
    + rewrite (kc_order a b) by done.
      pose proof (kc_cmp_neq a b Ha Hb Hna). by destruct (cmp a b).
Qed.

Lemma group_compare_neq l1 l2 :
  Forall valid l1 → Forall valid l2 → l1 ≠ l2 → group_compare asc cmp l1 l2 ≠ Eq.
Proof using K EqDecision0 cmp_refl.
  clear first_byte. intros H1. revert l2. induction H1 as [|a l1 Ha Hl1 IH]; intros [|b l2] H2 Hne; [done| | |];
    [by destruct asc..|].
  inversion_clear H2 as [|?? Hb Hl2]. cbn [group_compare]. destruct (decide (a = b)) as [->|Hna].
  - rewrite cmp_refl by done. apply IH; congruence.
  - pose proof (kc_cmp_neq a b Ha Hb Hna). by destruct (cmp a b).
Qed.

End group_codec.
