(* ===== verification/FastVarInt.v ===== *)
(** * Variable-length integers ([src/yb/util/fast_varint.cc], [fast_varint.h])

    The order-preserving encodings every DocDB key is made of.  The encoders
    and decoders are translated statement by statement; [fast_decode] keeps
    the unaligned 64-bit load of the release build, which also reads the bytes
    in memory before the slice. *)

From S2P Require Import Prelude.
Local Open Scope Z_scope.

(** ** Lengths *)

(** The [while (v != 0) { v >>= 7; n += 1; }] loops.  A 64-bit [v] is 0 after
    ten shifts by 7, so the fuel of 10 used below is never exhausted
    ([varint_length_loop_spec]). *)
Fixpoint varint_length_loop (fuel : nat) (v n : Z) : Z :=
  match fuel with
  | O => n
  | S fuel' => if v =? 0 then n else varint_length_loop fuel' (Z.shiftr v 7) (n + 1)
  end.

Definition SignedPositiveVarIntLength (v : Z) : Z :=
  varint_length_loop 10 (Z.shiftr v 6) 1.

Definition UnsignedVarIntLength (v : Z) : Z :=
  varint_length_loop 10 (Z.shiftr v 7) 1.

(** ** Signed encoding *)

(** [for (; i < n; ++i) dest[i] = uv >> (8 * (n - 1 - i));] *)
Definition store_tail (uv n i : Z) : bytes :=
  (λ j, u8 (Z.shiftr uv (8 * (n - 1 - j)))) <$> seqZ i (n - i).

(** The encoding of the magnitude [uv], before negative numbers are
    complemented. *)
Definition encode_magnitude (uv n : Z) : bytes :=
  if n =? 10 then [0xff; 0xc0] ++ store_tail uv n 2
  else if n =? 9 then [0xff; u8 (Z.lor 0x80 (Z.shiftr uv 56))] ++ store_tail uv n 2
  else u8 (Z.lor (Z.lnot (Z.shiftl 1 (8 - n) - 1)) (Z.shiftr uv (8 * (n - 1))))
       :: store_tail uv n 1.

Definition FastEncodeSignedVarInt (v : Z) : bytes :=
  let negative := v <? 0 in
  let uv := u64 v in
  let uv := if negative then u64 (1 + u64 (Z.lnot uv)) else uv in
  let n := SignedPositiveVarIntLength uv in
  let dest := encode_magnitude uv n in
  if negative then (λ b, u8 (Z.lnot b)) <$> dest else dest.

Definition FastAppendSignedVarIntToStr (v : Z) (dest : bytes) : bytes :=
  dest ++ FastEncodeSignedVarInt v.

Definition FastEncodeSignedVarIntToStr (v : Z) : bytes :=
  FastAppendSignedVarIntToStr v [].

(** [-v] is computed in [int64_t]. *)
Definition FastEncodeDescendingSignedVarInt (v : Z) (dest : bytes) : bytes :=
  dest ++ FastEncodeSignedVarInt (s64 (- v)).

(** ** Signed decoding *)

Definition kVarIntMasks : list Z :=
  [ 0;
    0x3f;
    0x1fff;
    0xfffff;
    0x7ffffff;
    0x3ffffffff;
    0x1ffffffffff;
    0xffffffffffff;
    0x7fffffffffffff;
    0x3fffffffffffffff;
    0xffffffffffffffff ].

(** The part of the decoder before the payload is read: the all-ones/zero word
    [negative] and the encoded length. *)
Definition decode_header (src : bytes) : Z * Z :=
  let b0 := default 0 (src !! 0%nat) in
  let b1 := if decide (1 < length src)%nat then default 0 (src !! 1%nat) else 0 in
  let header := u16 (Z.lor (Z.shiftl b0 8) b1) in
  let negative := if Z.land header 0x8000 =? 0 then u64 (-1) else 0 in
  let header := u16 (Z.lxor header negative) in
  (negative, clz32 (Z.lor (Z.land (Z.lnot header) 0x7fff) 0x20) - 16).

Definition finish_decode (temp mask negative : Z) : Z :=
  s64 (Z.lor (Z.land temp mask) (Z.land (u64 (Z.lnot mask)) negative) - negative).

(** The sanitizer build: bytes [max(src - 8 + n_bytes, src) .. src + n_bytes)
    are accumulated one at a time. *)
Definition FastDecodeSignedVarInt (src : bytes) : Result (Z * Z) :=
  if decide (length src = 0%nat) then Error Corruption
  else
    let '(negative, n_bytes) := decode_header src in
    if Z.of_nat (length src) <? n_bytes then Error Corruption
    else
      let mask := default 0 (kVarIntMasks !! Z.to_nat n_bytes) in
      let window := drop (Z.to_nat n_bytes - 8) (take (Z.to_nat n_bytes) src) in
      let temp := foldl (λ temp b, u64 (Z.lor (Z.shiftl temp 8) b)) 0 window in
      Ok (finish_decode temp mask negative, n_bytes).

(** The release build: one big-endian 64-bit load that ends at
    [src + n_bytes], so for short encodings it starts in the memory [before]
    the slice. *)
Definition FastDecodeSignedVarInt_release (before src : bytes) : Result (Z * Z) :=
  if decide (length src = 0%nat) then Error Corruption
  else
    let '(negative, n_bytes) := decode_header src in
    if Z.of_nat (length src) <? n_bytes then Error Corruption
    else
      let mask := default 0 (kVarIntMasks !! Z.to_nat n_bytes) in
      let memory := before ++ src in
      let load := take 8 (drop (length before + Z.to_nat n_bytes - 8) memory) in
      Ok (finish_decode (be_value load) mask negative, n_bytes).

Definition FastDecodeSignedVarInt_slice (slice : bytes) : Result (Z * bytes) :=
  temp ← FastDecodeSignedVarInt slice;
  Ok (temp.1, drop (Z.to_nat temp.2) slice).

Definition FastDecodeDescendingSignedVarInt (slice : bytes) : Result (Z * bytes) :=
  temp ← FastDecodeSignedVarInt slice;
  Ok (s64 (- temp.1), drop (Z.to_nat temp.2) slice).

(** ** Unsigned encoding *)

Definition FastEncodeUnsignedVarInt (v : Z) : bytes :=
  let n := UnsignedVarIntLength v in
  if n =? 10 then [0xff; 0x80] ++ store_tail v n 2
  else if n =? 9 then [0xff; u8 (Z.shiftr v 56)] ++ store_tail v n 2
  else u8 (Z.lor (Z.lnot (Z.shiftl 1 (9 - n) - 1)) (Z.shiftr v (8 * (n - 1))))
       :: store_tail v n 1.

Definition FastAppendUnsignedVarIntToStr (v : Z) (dest : bytes) : bytes :=
  dest ++ FastEncodeUnsignedVarInt v.

Definition MakeUnsignedVarIntSize : list Z :=
  (λ i, clz32 (Z.lxor (Z.shiftl i 1) 0x1ff) - 23 + 1) <$> seqZ 0 0x100.

Definition kUnsignedVarIntSize (b : Z) : Z :=
  default 0 (MakeUnsignedVarIntSize !! Z.to_nat b).

(** [for (; i < n_bytes; ++i) result = (result << 8) | src[i];] *)
Definition load_loop (result : Z) (src : bytes) (i n_bytes : Z) : Z :=
  foldl (λ result b, u64 (Z.lor (Z.shiftl result 8) b)) result
        (drop (Z.to_nat i) (take (Z.to_nat n_bytes) src)).

Definition FastDecodeUnsignedVarInt (src : bytes) : Result (Z * Z) :=
  match src with
  | [] => Error Corruption
  | first_byte :: _ =>
      let src_size := Z.of_nat (length src) in
      let n_bytes := kUnsignedVarIntSize first_byte in
      if src_size <? n_bytes then Error Corruption
      else if n_bytes =? 1 then Ok (Z.land first_byte 0x7f, 1)
      else if n_bytes =? 9 then
        let src1 := default 0 (src !! 1%nat) in
        if negb (Z.land src1 0x80 =? 0) then
          if src_size <? 10 then Error Corruption
          else Ok (load_loop (Z.land src1 0x3f) src 2 10, 10)
        else Ok (load_loop 0 src 0 9, 9)
      else
        Ok (load_loop (Z.land first_byte (Z.shiftl 1 (8 - n_bytes) - 1)) src 1 n_bytes,
            n_bytes)
  end.

Definition FastDecodeUnsignedVarInt_slice (slice : bytes) : Result (Z * bytes) :=
  temp ← FastDecodeUnsignedVarInt slice;
  Ok (temp.1, drop (Z.to_nat temp.2) slice).

(** The overload for a slice that must be consumed whole.  Its last statement
    is [return Status::OK()]: the value is dropped and the [Result(Status&&)]
    constructor runs [CHECK(!status_.ok())]. *)
Definition FastDecodeUnsignedVarInt_whole (slice : bytes) : Outcome (Result Z) :=
  match FastDecodeUnsignedVarInt_slice slice with
  | Error c => Done (Error c)
  | Ok (_, s) => if decide (length s ≠ 0%nat) then Done (Error Corruption) else Fatal
  end.

(** ** Lengths: lemmas *)

Lemma shiftr_lt_pow2 v k m : 0 <= k -> 0 <= m -> v < 2 ^ (k + m) -> Z.shiftr v k < 2 ^ m.
Proof.
  intros Hk Hm Hv. rewrite Z.shiftr_div_pow2 by lia.
  apply Z.div_lt_upper_bound; [by apply pow2_pos|].
  by rewrite <- Z.pow_add_r.
Qed.

Lemma shiftr_ge_pow2 v k m : 0 <= k -> 0 <= m -> 2 ^ m <= Z.shiftr v k -> 2 ^ (k + m) <= v.
Proof.
  intros Hk Hm. rewrite Z.shiftr_div_pow2, Z.pow_add_r by lia. intros Hv.
  pose proof (Z.mul_div_le v (2 ^ k) (pow2_pos k Hk)).
  pose proof (pow2_pos k Hk). nia.
Qed.

Lemma varint_length_loop_spec fuel v n :
  0 <= v < 2 ^ (7 * Z.of_nat fuel) ->
  let r := varint_length_loop fuel v n in
  n <= r <= n + Z.of_nat fuel /\ v < 2 ^ (7 * (r - n)) /\
  (n < r -> 2 ^ (7 * (r - n - 1)) <= v).
Proof.
  revert v n. induction fuel as [|fuel IH]; intros v n Hv; cbn [varint_length_loop].
  { simpl in *. replace (7 * (n - n)) with 0 by lia. lia. }
  destruct (Z.eqb_spec v 0) as [->|Hv0].
  { replace (7 * (n - n)) with 0 by lia. lia. }
  assert (0 <= Z.shiftr v 7 < 2 ^ (7 * Z.of_nat fuel)) as Hs.
  { split; [apply Z.shiftr_nonneg; lia|]. apply shiftr_lt_pow2; [lia..|].
    replace (7 + 7 * Z.of_nat fuel) with (7 * Z.of_nat (S fuel)) by lia. lia. }
  destruct (IH _ (n + 1) Hs) as (Hr & Hlt & Hge).
  set (r := varint_length_loop fuel _ _) in *. simpl. split; [lia|]. split.
  - rewrite Z.shiftr_div_pow2 in Hlt by lia.
    replace (7 * (r - n)) with (7 + 7 * (r - (n + 1))) by lia.
    rewrite Z.pow_add_r by lia.
    pose proof (Z.mul_succ_div_gt v (2 ^ 7) ltac:(done)). lia.
  - intros _. destruct (decide (n + 1 < r)) as [Hlt'|].
    + replace (7 * (r - n - 1)) with (7 + 7 * (r - (n + 1) - 1)) by lia.
      apply shiftr_ge_pow2; [lia..|]. by apply Hge.
    + replace (7 * (r - n - 1)) with 0 by lia. lia.
Qed.

(** The length of the signed encoding is the least [n] for which the
    magnitude fits the [7 n - 1] payload bits. *)
Lemma SignedPositiveVarIntLength_spec v :
  is_u 64 v ->
  let n := SignedPositiveVarIntLength v in
  1 <= n <= 10 /\ v < 2 ^ (7 * n - 1) /\ (1 < n -> 2 ^ (7 * n - 8) <= v).
Proof.
  intros [Hv0 Hv]. unfold SignedPositiveVarIntLength.
  assert (0 <= Z.shiftr v 6 < 2 ^ 58) as Hs.
  { split; [by apply Z.shiftr_nonneg|]. by apply shiftr_lt_pow2. }
  destruct (varint_length_loop_spec 10 (Z.shiftr v 6) 1) as (Hr & Hlt & Hge).
  { split; [lia|]. change (7 * Z.of_nat 10) with 70.
    pose proof (Z.pow_le_mono_r 2 58 70). lia. }
  set (r := varint_length_loop _ _ _) in *.
  assert (r <= 10) as Hr10.
  { destruct (decide (r <= 10)); [done|]. exfalso.
    assert (r = 11) as E by lia. specialize (Hge ltac:(lia)). rewrite E in Hge.
    change (2 ^ (7 * (11 - 1 - 1))) with (2 ^ 63) in Hge.
    pose proof (Z.pow_lt_mono_r 2 58 63). lia. }
  simpl. split; [lia|]. split.
  - replace (7 * r - 1) with (6 + 7 * (r - 1)) by lia.
    rewrite Z.shiftr_div_pow2 in Hlt by lia. rewrite Z.pow_add_r by lia.
    pose proof (Z.mul_succ_div_gt v (2 ^ 6) ltac:(done)). lia.
  - intros Hn. replace (7 * r - 8) with (6 + 7 * (r - 1 - 1)) by lia.
    apply shiftr_ge_pow2; [lia..|]. by apply Hge.
Qed.

Lemma UnsignedVarIntLength_spec v :
  is_u 64 v ->
  let n := UnsignedVarIntLength v in
  1 <= n <= 10 /\ v < 2 ^ (7 * n) /\ (1 < n -> 2 ^ (7 * n - 7) <= v).
Proof.
  intros [Hv0 Hv]. unfold UnsignedVarIntLength.
  assert (0 <= Z.shiftr v 7 < 2 ^ 57) as Hs.
  { split; [by apply Z.shiftr_nonneg|]. by apply shiftr_lt_pow2. }
  destruct (varint_length_loop_spec 10 (Z.shiftr v 7) 1) as (Hr & Hlt & Hge).
  { split; [lia|]. change (7 * Z.of_nat 10) with 70.
    pose proof (Z.pow_le_mono_r 2 57 70). lia. }
  set (r := varint_length_loop _ _ _) in *.
  assert (r <= 10) as Hr10.
  { destruct (decide (r <= 10)); [done|]. exfalso.
    assert (r = 11) as E by lia. specialize (Hge ltac:(lia)). rewrite E in Hge.
    change (2 ^ (7 * (11 - 1 - 1))) with (2 ^ 63) in Hge.
    pose proof (Z.pow_lt_mono_r 2 57 63). lia. }
  simpl. split; [lia|]. split.
  - replace (7 * r) with (7 + 7 * (r - 1)) by lia.
    rewrite Z.shiftr_div_pow2 in Hlt by lia. rewrite Z.pow_add_r by lia.
    pose proof (Z.mul_succ_div_gt v (2 ^ 7) ltac:(done)). lia.
  - intros Hn. replace (7 * r - 7) with (7 + 7 * (r - 1 - 1)) by lia.
    apply shiftr_ge_pow2; [lia..|]. by apply Hge.
Qed.

(** ** Closed forms of the encodings *)

Lemma store_tail_be uv n i :
  0 <= i <= n -> store_tail uv n i = be_bytes (Z.to_nat (n - i)) uv.
Proof.
  intros Hi. unfold store_tail. remember (Z.to_nat (n - i)) as m eqn:Em.
  revert i Hi Em. induction m as [|m IH]; intros i Hi Em.
  { by replace (n - i) with 0 by lia. }
  rewrite seqZ_cons by lia. cbn [fmap list_fmap be_bytes]. f_equal.
  - do 3 f_equal. lia.
  - rewrite <- (IH (i + 1)) by lia. do 2 f_equal; lia.
Qed.

(** The first byte of a short encoding: [8 - k] one bits, then [x]. *)
Lemma header_byte k x :
  0 <= k <= 8 -> 0 <= x < 2 ^ k ->
  u8 (Z.lor (Z.lnot (Z.shiftl 1 k - 1)) x) = 2 ^ 8 - 2 ^ k + x.
Proof.
  intros Hk Hx. rewrite Z.shiftl_mul_pow2 by lia.
  replace (Z.lnot (1 * 2 ^ k - 1)) with (-1 * 2 ^ k) by (unfold Z.lnot; lia).
  rewrite lor_add_disjoint by lia. unfold u8, wrap.
  pose proof (Z.pow_le_mono_r 2 k 8). symmetry.
  apply Z.mod_unique with (q := -1); lia.
Qed.

Lemma be_bytes_add_high n v q :
  be_bytes n (q * 2 ^ (8 * Z.of_nat n) + v) = be_bytes n v.
Proof.
  rewrite <- be_bytes_mod, Z.add_comm, Z_mod_plus_full. apply be_bytes_mod.
Qed.

Lemma encode_magnitude_be uv n :
  1 <= n <= 10 -> 0 <= uv < 2 ^ (7 * n - 1) -> uv < 2 ^ 64 ->
  encode_magnitude uv n = be_bytes (Z.to_nat n) (2 ^ (8 * n) - 2 ^ (7 * n) + uv).
Proof.
  intros Hn Huv H64. unfold encode_magnitude.
  destruct (Z.eqb_spec n 10) as [->|H10]; [|destruct (Z.eqb_spec n 9) as [->|H9]].
  - rewrite store_tail_be by lia. change (Z.to_nat 10) with (1 + (1 + 8))%nat.
    rewrite (be_bytes_app 1 (1 + 8)), (be_bytes_app 1 8).
    change (2 ^ (8 * 10) - 2 ^ (7 * 10)) with (0xffc0 * 2 ^ (8 * Z.of_nat 8)).
    rewrite be_bytes_add_high. rewrite app_assoc. f_equal. simpl be_bytes.
    rewrite !Z.shiftr_div_pow2 by lia. cbn in *. unfold u8, wrap.
    f_equal; [|f_equal]; Z.div_mod_to_equations; lia.
  - rewrite store_tail_be by lia. change (Z.to_nat 9) with (1 + (1 + 7))%nat.
    rewrite (be_bytes_app 1 (1 + 7)), (be_bytes_app 1 7).
    change (2 ^ (8 * 9) - 2 ^ (7 * 9)) with (0xff80 * 2 ^ (8 * Z.of_nat 7)).
    rewrite be_bytes_add_high. rewrite app_assoc. f_equal. simpl be_bytes.
    rewrite !Z.shiftr_div_pow2 by lia.
    change 0x80 with (2 * 2 ^ 6). rewrite lor_add_disjoint.
    2: lia. 2: { cbn in *. Z.div_mod_to_equations; lia. }
    cbn in *. unfold u8, wrap. f_equal; [|f_equal]; Z.div_mod_to_equations; lia.
  - rewrite store_tail_be by lia.
    replace (Z.to_nat n) with (S (Z.to_nat (n - 1))) by lia. cbn [be_bytes].
    replace (2 ^ (8 * n) - 2 ^ (7 * n))
      with ((2 ^ 8 - 2 ^ (8 - n)) * 2 ^ (8 * Z.of_nat (Z.to_nat (n - 1)))).
    2: { rewrite Z.mul_sub_distr_r, <- !Z.pow_add_r by lia. do 2 f_equal; lia. }
    rewrite be_bytes_add_high. f_equal. rewrite !Z2Nat.id by lia.
    rewrite header_byte.
    + rewrite !Z.shiftr_div_pow2, Z.div_add_l by (try apply Z.pow_nonzero; lia).
      symmetry. apply wrap_small. split.
      * pose proof (Z.pow_le_mono_r 2 (8 - n) 8).
        assert (0 <= uv / 2 ^ (8 * (n - 1))) by (apply Z.div_pos; lia || apply pow2_pos; lia).
        lia.
      * enough (uv / 2 ^ (8 * (n - 1)) < 2 ^ (8 - n)) by lia.
        apply Z.div_lt_upper_bound; [apply pow2_pos; lia|].
        rewrite <- Z.pow_add_r by lia. replace (8 * (n - 1) + (8 - n)) with (7 * n) by lia.
        pose proof (Z.pow_le_mono_r 2 (7 * n - 1) (7 * n)). lia.
    + lia.
    + split; [apply Z.shiftr_nonneg; lia|]. apply shiftr_lt_pow2; [lia..|].
      pose proof (Z.pow_le_mono_r 2 (7 * n - 1) (8 * (n - 1) + (8 - n))). lia.
Qed.

Lemma complement_be_bytes n x :
  0 <= x < 2 ^ (8 * Z.of_nat n) ->
  (λ b, u8 (Z.lnot b)) <$> be_bytes n x = be_bytes n (2 ^ (8 * Z.of_nat n) - 1 - x).
Proof.
  intros Hx. rewrite <- wrap_lnot by (unfold is_u; lia). unfold wrap.
  rewrite be_bytes_mod. clear Hx. induction n as [|n IH]; [done|].
  cbn [be_bytes fmap list_fmap]. f_equal; [|done].
  rewrite <- Z.lnot_shiftr by lia.
  set (y := Z.shiftr x _). unfold u8, wrap, Z.lnot.
  change (2 ^ 8) with 256. Z.div_mod_to_equations; lia.
Qed.

(** The whole signed encoding as one big-endian number: [n] one bits, a zero
    and the magnitude; complemented for negative numbers. *)
Lemma FastEncodeSignedVarInt_be v :
  is_s 64 v ->
  let m := Z.abs v in
  let n := SignedPositiveVarIntLength m in
  FastEncodeSignedVarInt v =
  be_bytes (Z.to_nat n)
    (if v <? 0 then 2 ^ (7 * n) - 1 - m else 2 ^ (8 * n) - 2 ^ (7 * n) + m).
Proof.
  intros [Hv1 Hv2] m n. unfold FastEncodeSignedVarInt.
  assert ((if v <? 0 then u64 (1 + u64 (Z.lnot (u64 v))) else u64 v) = m) as ->.
  { unfold m, u64, wrap, Z.lnot. cbn in *. destruct (Z.ltb_spec v 0); Z.div_mod_to_equations; lia. }
  fold n. assert (is_u 64 m) as Hm by (unfold m, is_u; cbn in *; lia).
  destruct (SignedPositiveVarIntLength_spec m Hm) as (Hn & Hlt & _). fold n in Hn, Hlt.
  unfold is_u in Hm. rewrite encode_magnitude_be by lia.
  destruct (Z.ltb_spec v 0); [|done].
  assert (2 ^ (7 * n - 1) <= 2 ^ (7 * n) <= 2 ^ (8 * n)) as [H7 H8].
  { split; apply Z.pow_le_mono_r; lia. }
  assert (2 ^ (7 * n) = 2 * 2 ^ (7 * n - 1)) as E
    by (rewrite <- Z.pow_succ_r by lia; f_equal; lia).
  rewrite complement_be_bytes; rewrite Z2Nat.id by lia; [f_equal; lia | lia].
Qed.

(** ** Order preservation *)

(** A shorter big-endian string against a longer one: if the shorter differs
    from the prefix of the longer of its length, that decides. *)
Lemma be_bytes_compare_prefix n k A B r1 r2 :
  is_u (8 * Z.of_nat n) A -> is_u (8 * Z.of_nat (n + k)) B ->
  A ≠ Z.shiftr B (8 * Z.of_nat k) ->
  bytes_compare (be_bytes n A ++ r1) (be_bytes (n + k) B ++ r2) =
  (A ?= Z.shiftr B (8 * Z.of_nat k)).
Proof.
  intros HA [HB1 HB2] Hne. rewrite be_bytes_app, <- app_assoc.
  assert (is_u (8 * Z.of_nat n) (Z.shiftr B (8 * Z.of_nat k))) as HB.
  { split; [by apply Z.shiftr_nonneg|]. apply shiftr_lt_pow2; [lia..|].
    replace (8 * Z.of_nat k + 8 * Z.of_nat n) with (8 * Z.of_nat (n + k)) by lia. done. }
  assert (bytes_compare (be_bytes n A) (be_bytes n (Z.shiftr B (8 * Z.of_nat k)))
          = (A ?= Z.shiftr B (8 * Z.of_nat k))) as E.
  { rewrite bytes_compare_be by (rewrite ?be_bytes_length; auto using be_bytes_ok).
    rewrite !be_value_be_bytes. by rewrite !Z.mod_small. }
  rewrite bytes_compare_same_length; [done | by rewrite !be_bytes_length |].
  rewrite E. by intros ?%Z.compare_eq.
Qed.

(** The number the signed encoding denotes. *)
Definition varint_code (v n : Z) : Z :=
  if v <? 0 then 2 ^ (7 * n) - 1 - Z.abs v else 2 ^ (8 * n) - 2 ^ (7 * n) + Z.abs v.

Definition varint_len (v : Z) : Z := SignedPositiveVarIntLength (Z.abs v).

Lemma varint_len_spec v :
  is_s 64 v ->
  1 <= varint_len v <= 10 /\ Z.abs v < 2 ^ (7 * varint_len v - 1) /\
  (1 < varint_len v -> 2 ^ (7 * varint_len v - 8) <= Z.abs v).
Proof.
  intros [H1 H2]. apply SignedPositiveVarIntLength_spec. unfold is_u. cbn in *. lia.
Qed.

(** Splits [1 <= n <= 10] into ten concrete cases. *)
Ltac enum10 n :=
  let H := fresh in
  assert (n = 1 \/ n = 2 \/ n = 3 \/ n = 4 \/ n = 5 \/ n = 6 \/ n = 7 \/ n = 8 \/
          n = 9 \/ n = 10) as H by lia;
  destruct H as [H|[H|[H|[H|[H|[H|[H|[H|[H|H]]]]]]]]]; rewrite ?H in *; clear H.

Lemma varint_code_range v :
  is_s 64 v -> is_u (8 * varint_len v) (varint_code v (varint_len v)).
Proof.
  intros Hv. destruct (varint_len_spec v Hv) as (Hn & Hlt & _).
  unfold is_u, varint_code. generalize dependent (varint_len v). intros n Hn Hlt.
  destruct (Z.ltb_spec v 0); enum10 n; cbn in *; lia.
Qed.

(** The encoding of the smaller number is below the same-length prefix of the
    other one. *)
Lemma varint_code_lt v w :
  is_s 64 v -> is_s 64 w -> v < w -> varint_len v <= varint_len w ->
  varint_code v (varint_len v) <
  Z.shiftr (varint_code w (varint_len w)) (8 * (varint_len w - varint_len v)).
Proof.
  intros Hv Hw Hlt Hle.
  destruct (varint_len_spec v Hv) as (Hnv & Hv1 & Hv2).
  destruct (varint_len_spec w Hw) as (Hnw & Hw1 & Hw2).
  unfold varint_code. generalize dependent (varint_len v). intros n Hle Hnv Hv1 Hv2.
  generalize dependent (varint_len w). intros m Hle Hnw Hw1 Hw2.
  rewrite Z.shiftr_div_pow2 by lia.
  apply Z.le_succ_l, Z.div_le_lower_bound; [apply pow2_pos; lia|].
  destruct (Z.ltb_spec v 0), (Z.ltb_spec w 0); try lia;
    enum10 n; enum10 m; try lia; cbn in *; lia.
Qed.

Lemma varint_code_gt v w :
  is_s 64 v -> is_s 64 w -> v < w -> varint_len w <= varint_len v ->
  Z.shiftr (varint_code v (varint_len v)) (8 * (varint_len v - varint_len w)) <
  varint_code w (varint_len w).
Proof.
  intros Hv Hw Hlt Hle.
  destruct (varint_len_spec v Hv) as (Hnv & Hv1 & Hv2).
  destruct (varint_len_spec w Hw) as (Hnw & Hw1 & Hw2).
  unfold varint_code. generalize dependent (varint_len v). intros n Hle Hnv Hv1 Hv2.
  generalize dependent (varint_len w). intros m Hle Hnw Hw1 Hw2.
  rewrite Z.shiftr_div_pow2 by lia.
  apply Z.div_lt_upper_bound; [apply pow2_pos; lia|].
  destruct (Z.ltb_spec v 0), (Z.ltb_spec w 0); try lia;
    enum10 n; enum10 m; try lia; cbn in *; lia.
Qed.

Lemma FastEncodeSignedVarInt_code v :
  is_s 64 v ->
  FastEncodeSignedVarInt v = be_bytes (Z.to_nat (varint_len v)) (varint_code v (varint_len v)).
Proof. intros Hv. by rewrite FastEncodeSignedVarInt_be. Qed.

Lemma signed_varint_lt v w r1 r2 :
  is_s 64 v -> is_s 64 w -> v < w ->
  bytes_compare (FastEncodeSignedVarInt v ++ r1) (FastEncodeSignedVarInt w ++ r2) = Lt.
Proof.
  intros Hv Hw Hlt. rewrite !FastEncodeSignedVarInt_code by done.
  pose proof (varint_code_range v Hv) as Rv. pose proof (varint_code_range w Hw) as Rw.
  destruct (varint_len_spec v Hv) as (Hnv & _). destruct (varint_len_spec w Hw) as (Hnw & _).
  destruct (decide (varint_len v <= varint_len w)) as [Hle|Hle].
  - pose proof (varint_code_lt v w Hv Hw Hlt Hle) as HH.
    replace (varint_len w - varint_len v)
      with (Z.of_nat (Z.to_nat (varint_len w - varint_len v))) in HH by lia.
    replace (Z.to_nat (varint_len w))
      with (Z.to_nat (varint_len v) + Z.to_nat (varint_len w - varint_len v))%nat by lia.
    rewrite be_bytes_compare_prefix.
    + by apply Z.compare_lt_iff.
    + by rewrite Z2Nat.id by lia.
    + by replace (Z.of_nat _) with (varint_len w) by lia.
    + lia.
  - pose proof (varint_code_gt v w Hv Hw Hlt ltac:(lia)) as HH.
    replace (varint_len v - varint_len w)
      with (Z.of_nat (Z.to_nat (varint_len v - varint_len w))) in HH by lia.
    replace (Z.to_nat (varint_len v))
      with (Z.to_nat (varint_len w) + Z.to_nat (varint_len v - varint_len w))%nat by lia.
    rewrite bytes_compare_antisym, be_bytes_compare_prefix.
    + replace (_ ?= _) with Gt; [done|]. symmetry. by apply Z.compare_gt_iff.
    + by rewrite Z2Nat.id by lia.
    + by replace (Z.of_nat _) with (varint_len v) by lia.
    + lia.
Qed.

(** ** Decoding *)

(** Accumulating bytes with [(t << 8) | b] in 64 bits keeps the low 64 bits
    of the big-endian number. *)
Lemma load_bytes acc l :
  0 <= acc -> bytes_ok l ->
  foldl (λ temp b, u64 (Z.lor (Z.shiftl temp 8) b)) (u64 acc) l =
  u64 (acc * 2 ^ (8 * Z.of_nat (length l)) + be_value l).
Proof.
  intros Hacc Hl. revert acc Hacc. induction Hl as [|b l Hb Hl IH]; intros acc Hacc.
  { simpl. f_equal. rewrite Z.mul_1_r. unfold be_value. simpl. lia. }
  cbn [foldl]. unfold is_u in Hb.
  assert (u64 (Z.lor (Z.shiftl (u64 acc) 8) b) = u64 (acc * 256 + b)) as ->.
  { rewrite Z.shiftl_mul_pow2, lor_add_disjoint by lia. unfold u64, wrap.
    change (2 ^ 8) with 256. rewrite <- (Z.add_mod_idemp_l (acc * 256)) by done.
    rewrite <- (Z.add_mod_idemp_l (_ * 256)) by done. by rewrite Z.mul_mod_idemp_l. }
  rewrite IH by lia. f_equal. rewrite be_value_cons. cbn [length].
  replace (8 * Z.of_nat (S (length l))) with (8 + 8 * Z.of_nat (length l)) by lia.
  rewrite Z.pow_add_r by lia. ring.
Qed.

Lemma load_bytes_0 l :
  bytes_ok l -> (length l <= 8)%nat ->
  foldl (λ temp b, u64 (Z.lor (Z.shiftl temp 8) b)) 0 l = be_value l.
Proof.
  intros Hl H8. pose proof (load_bytes 0 l ltac:(lia) Hl) as E.
  change (u64 0) with 0 in E. rewrite E, Z.mul_0_l, Z.add_0_l.
  apply wrap_small. pose proof (be_value_range l Hl).
  pose proof (Z.pow_le_mono_r 2 (8 * Z.of_nat (length l)) 64). unfold is_u. lia.
Qed.

(** Counting the leading ones of a positive header. *)
Lemma header_length h n :
  1 <= n <= 10 -> 2 ^ 16 - 2 ^ (16 - n) <= h < 2 ^ 16 ->
  (n < 10 -> h < 2 ^ 16 - 2 ^ (15 - n)) ->
  clz32 (Z.lor (Z.land (Z.lnot h) 0x7fff) 0x20) - 16 = n.
Proof.
  intros Hn [Hlo Hhi] Hup. unfold clz32.
  change 0x7fff with (2 ^ 15 - 1). rewrite land_mask by lia.
  assert (Z.lnot h mod 2 ^ 15 = 2 ^ 16 - 1 - h) as ->.
  { symmetry. apply Z.mod_unique with (q := -2).
    - left. pose proof (Z.pow_le_mono_r 2 (16 - n) 15). lia.
    - unfold Z.lnot. cbn. lia. }
  rewrite Z.log2_lor by lia. change (Z.log2 0x20) with 5.
  destruct (decide (n = 10)) as [->|].
  - assert (Z.log2 (2 ^ 16 - 1 - h) < 6); [|lia].
    destruct (decide (2 ^ 16 - 1 - h = 0)) as [->|]; [done|].
    apply Z.log2_lt_pow2; cbn in *; lia.
  - rewrite (Z.log2_unique _ (15 - n)); [lia | lia |].
    replace (Z.succ (15 - n)) with (16 - n) by lia. lia.
Qed.

(** The two bytes the decoder looks at. *)
Definition header_of (src : bytes) : Z :=
  u16 (Z.lor (Z.shiftl (default 0 (src !! 0%nat)) 8)
             (if decide (1 < length src)%nat then default 0 (src !! 1%nat) else 0)).

Lemma header_of_spec src :
  bytes_ok src -> (0 < length src)%nat ->
  ∃ b1, is_u 8 b1 /\ header_of src = default 0 (src !! 0%nat) * 256 + b1 /\
        is_u 16 (header_of src) /\ ((1 < length src)%nat -> src !! 1%nat = Some b1).
Proof.
  intros Hsrc Hlen. destruct src as [|b0 src]; [simpl in *; lia|].
  inversion_clear Hsrc as [|?? Hb0 Hs]. unfold header_of. simpl.
  set (b1 := if decide _ then _ else 0).
  assert (is_u 8 b1) as Hb1.
  { subst b1. case_decide as Hd; [|done]. destruct src as [|b1 src]; [simpl in *; lia|].
    by inversion_clear Hs. }
  exists b1. split; [done|]. unfold is_u in *.
  rewrite Z.shiftl_mul_pow2, lor_add_disjoint by lia.
  unfold u16. rewrite wrap_small by (unfold is_u; cbn in *; lia).
  split; [done|]. split; [cbn in *; lia|].
  intros H1. subst b1. destruct src as [|b1 src]; [simpl in *; lia|].
  by rewrite decide_True by (simpl; lia).
Qed.

Lemma be_bytes_lookup n v i :
  (i < n)%nat -> be_bytes n v !! i = Some (u8 (Z.shiftr v (8 * (Z.of_nat n - 1 - Z.of_nat i)))).
Proof.
  revert i. induction n as [|n IH]; intros i Hi; [lia|]. cbn [be_bytes].
  destruct i as [|i]; simpl lookup.
  - do 3 f_equal. lia.
  - rewrite IH by lia. do 3 f_equal. lia.
Qed.

(** The header of an encoded number brackets its leading bits. *)
Lemma header_of_encoding n X rest :
  1 <= n -> is_u (8 * n) X -> bytes_ok rest ->
  let h := header_of (be_bytes (Z.to_nat n) X ++ rest) in
  is_u 16 h /\
  (n = 1 -> X * 256 <= h < X * 256 + 256) /\
  (2 <= n -> h = X / 2 ^ (8 * (n - 2))).
Proof.
  intros Hn [HX1 HX2] Hr h.
  destruct (header_of_spec (be_bytes (Z.to_nat n) X ++ rest)) as (b1 & Hb1 & Hh & H16 & Hl).
  { apply Forall_app; auto using be_bytes_ok. }
  { rewrite length_app, be_bytes_length. lia. }
  fold h in Hh, H16. split; [done|]. unfold is_u in *.
  rewrite lookup_app_l, be_bytes_lookup in Hh by (rewrite ?be_bytes_length; lia).
  simpl in Hh. rewrite Z2Nat.id in Hh by lia. split.
  - intros ->. rewrite Hh. change (8 * (1 - 1 - Z.of_nat 0)) with 0. rewrite Z.shiftr_0_r.
    unfold u8. rewrite wrap_small by done. lia.
  - intros Hn2. rewrite Hh.
    rewrite lookup_app_l, be_bytes_lookup in Hl
      by (rewrite ?length_app, ?be_bytes_length; lia).
    specialize (Hl ltac:(rewrite length_app, be_bytes_length; lia)).
    injection Hl as Hl. rewrite <- Hl, Z2Nat.id by lia.
    replace (8 * (n - 1 - Z.of_nat 1)) with (8 * (n - 2)) by lia.
    replace (8 * (n - 1 - Z.of_nat 0)) with (8 * (n - 2) + 8) by lia.
    rewrite <- Z.shiftr_shiftr, !Z.shiftr_div_pow2 by lia.
    set (q := X / 2 ^ (8 * (n - 2))).
    assert (0 <= q < 2 ^ 16) as Hq.
    { split; [apply Z.div_pos; [lia | apply pow2_pos; lia]|].
      apply Z.div_lt_upper_bound; [apply pow2_pos; lia|].
      rewrite <- Z.pow_add_r by lia. by replace (8 * (n - 2) + 16) with (8 * n) by lia. }
    unfold u8, wrap. cbn in *. Z.div_mod_to_equations; lia.
Qed.

Definition varint_negative (v : Z) : Z := if v <? 0 then 2 ^ 64 - 1 else 0.

Lemma decode_header_encoded v rest :
  is_s 64 v -> bytes_ok rest ->
  decode_header (FastEncodeSignedVarInt v ++ rest) = (varint_negative v, varint_len v).
Proof.
  intros Hv Hr. rewrite FastEncodeSignedVarInt_code by done.
  destruct (varint_len_spec v Hv) as (Hn & Hlt & _).
  pose proof (varint_code_range v Hv) as HX.
  destruct (header_of_encoding (varint_len v) (varint_code v (varint_len v)) rest)
    as (H16 & H1 & H2); [lia | done | done |].
  unfold decode_header. fold (header_of (be_bytes (Z.to_nat (varint_len v))
    (varint_code v (varint_len v)) ++ rest)).
  set (h := header_of _) in *. clearbody h.
  assert (∀ g, is_u 16 g -> (Z.land g 0x8000 =? 0) = (g <? 2 ^ 15)) as Htop.
  { intros g [Hg1 Hg2]. replace (Z.land g 0x8000) with (Z.land (Z.shiftr g 15) 1 * 2 ^ 15).
    - change 1 with (2 ^ 1 - 1) at 1. rewrite land_mask, Z.shiftr_div_pow2 by lia.
      cbn in *. destruct (Z.eqb_spec (g / 32768 mod 2 * 32768) 0),
        (Z.ltb_spec g 32768); Z.div_mod_to_equations; lia.
    - rewrite <- Z.shiftl_mul_pow2 by lia. change 0x8000 with (Z.shiftl 1 15).
      rewrite Z.shiftl_land, <- Z.ldiff_ones_r by lia.
      apply Z.bits_inj'. intros i Hi. rewrite !Z.land_spec, Z.ldiff_spec.
      destruct (decide (i < 15)).
      + by rewrite (Z.shiftl_spec_low 1), !andb_false_r by lia.
      + by rewrite Z.ones_spec_high, andb_true_r by lia. }
  rewrite Htop by done. clear Htop.
  unfold varint_negative, varint_code in *. unfold is_u in H16.
  generalize dependent (varint_len v). intros n Hn Hlt HX H1 H2.
  destruct (Z.ltb_spec v 0) as [Hneg|Hpos].
  - assert (2 ^ (16 - n) - 1 >= h /\ (n < 10 -> h > 2 ^ (15 - n) - 1)) as [Hh1 Hh2].
    { destruct (decide (n = 1)) as [->|]; [specialize (H1 eq_refl); cbn in *; lia|].
      specialize (H2 ltac:(lia)). clear H1 HX. enum10 n; try lia; cbn in *;
        Z.div_mod_to_equations; lia. }
    assert (h < 2 ^ 15) as Hh15 by (pose proof (Z.pow_le_mono_r 2 (16 - n) 15); lia).
    destruct (Z.ltb_spec h (2 ^ 15)); [|lia]. f_equal.
    assert (u16 (Z.lxor h (u64 (-1))) = 2 ^ 16 - 1 - h) as ->.
    { change (u64 (-1)) with (Z.ones 64). unfold u16, wrap.
      rewrite <- Z.land_ones by lia. rewrite <- (wrap_lnot 16 h) by (unfold is_u; lia).
      unfold wrap. rewrite <- (Z.land_ones (Z.lnot h)) by lia.
      apply Z.bits_inj'. intros i Hi. rewrite !Z.land_spec, Z.lxor_spec, Z.lnot_spec by lia.
      destruct (decide (i < 16)).
      - by rewrite (Z.ones_spec_low 64), xorb_true_r by lia.
      - by rewrite (Z.ones_spec_high 16), !andb_false_r by lia. }
    apply header_length; lia.
  - assert (2 ^ 16 - 2 ^ (16 - n) <= h /\ (n < 10 -> h < 2 ^ 16 - 2 ^ (15 - n))) as [Hh1 Hh2].
    { destruct (decide (n = 1)) as [->|]; [specialize (H1 eq_refl); cbn in *; lia|].
      specialize (H2 ltac:(lia)). clear H1 HX. enum10 n; try lia; cbn in *;
        Z.div_mod_to_equations; lia. }
    assert (2 ^ 15 <= h) as Hh15 by (pose proof (Z.pow_le_mono_r 2 (16 - n) 15); lia).
    destruct (Z.ltb_spec h (2 ^ 15)); [lia|]. f_equal.
    rewrite Z.lxor_0_r. unfold u16. rewrite wrap_small by (unfold is_u; lia).
    apply header_length; lia.
Qed.

(** Number of payload bits of an [n]-byte encoding. *)
Definition payload_bits (n : Z) : Z := Z.min (7 * n - 1) 64.

Ltac eval_payload_bits :=
  match goal with
  | |- context [payload_bits ?c] =>
      let r := eval vm_compute in (payload_bits c) in change (payload_bits c) with r in *
  end.

Lemma kVarIntMasks_lookup n :
  1 <= n <= 10 -> kVarIntMasks !! Z.to_nat n = Some (2 ^ payload_bits n - 1).
Proof. intros Hn. enum10 n; reflexivity. Qed.

Lemma be_value_suffix p w k :
  0 <= k <= 8 * Z.of_nat (length w) -> be_value (p ++ w) mod 2 ^ k = be_value w mod 2 ^ k.
Proof.
  intros Hk. rewrite be_value_app.
  replace (8 * Z.of_nat (length w)) with (8 * Z.of_nat (length w) - k + k) by lia.
  rewrite Z.pow_add_r, Z.mul_assoc, Z.add_comm by lia. apply Z_mod_plus_full.
Qed.

Lemma finish_decode_low temp temp' k negative :
  0 <= k -> temp mod 2 ^ k = temp' mod 2 ^ k ->
  finish_decode temp (2 ^ k - 1) negative = finish_decode temp' (2 ^ k - 1) negative.
Proof. intros Hk E. unfold finish_decode. by rewrite !land_mask, E. Qed.

Lemma finish_decode_code v :
  is_s 64 v ->
  let n := varint_len v in
  finish_decode (varint_code v n) (2 ^ payload_bits n - 1) (varint_negative v) = v.
Proof.
  intros Hv n. destruct (varint_len_spec v Hv) as (Hn & Hlt & _). fold n in Hn, Hlt.
  unfold finish_decode. rewrite land_mask by (unfold payload_bits; lia).
  set (k := payload_bits n). assert (0 <= k <= 64) as Hk by (subst k; unfold payload_bits; lia).
  assert (varint_code v n mod 2 ^ k = if v <? 0 then 2 ^ k - 1 - Z.abs v else Z.abs v) as ->.
  { subst k. clearbody n. unfold varint_code, is_s in *.
    destruct (Z.ltb_spec v 0); enum10 n; eval_payload_bits; Z.div_mod_to_equations; lia. }
  assert (Z.abs v < 2 ^ k) as Hvk.
  { subst k. clearbody n. unfold is_s in *. enum10 n; eval_payload_bits; lia. }
  unfold varint_negative. destruct (Z.ltb_spec v 0) as [Hneg|Hpos].
  - change (2 ^ 64 - 1) with (Z.ones 64) at 1. rewrite Z.land_ones by lia.
    assert (u64 (Z.lnot (2 ^ k - 1)) mod 2 ^ 64 = (2 ^ (64 - k) - 1) * 2 ^ k) as ->.
    { unfold u64, wrap. rewrite Z.mod_mod by done.
      rewrite Z.mul_sub_distr_r, <- Z.pow_add_r by lia.
      replace (64 - k + k) with 64 by lia. symmetry.
      pose proof (pow2_pos k ltac:(lia)). pose proof (Z.pow_le_mono_r 2 k 64).
      apply Z.mod_unique with (q := -1); unfold Z.lnot; lia. }
    rewrite Z.lor_comm, lor_add_disjoint by lia.
    rewrite Z.mul_sub_distr_r, <- Z.pow_add_r by lia.
    replace (64 - k + k) with 64 by lia. unfold s64.
    rewrite <- (signed_small 64 v) at 2 by done. f_equal. lia.
  - rewrite Z.land_0_r, Z.lor_0_r, Z.sub_0_r. unfold s64.
    rewrite <- (signed_small 64 v) at 2 by done. f_equal. lia.
Qed.

Lemma decode_header_range src : 1 <= (decode_header src).2 <= 10.
Proof.
  unfold decode_header. simpl. set (h := u16 (Z.lxor _ _)). unfold clz32.
  change 0x7fff with (2 ^ 15 - 1). rewrite land_mask by lia.
  pose proof (Z.mod_pos_bound (Z.lnot h) (2 ^ 15) ltac:(done)) as Hm.
  rewrite Z.log2_lor by (done || lia). change (Z.log2 0x20) with 5.
  enough (Z.log2 (Z.lnot h mod 2 ^ 15) < 15) by lia.
  destruct (decide (Z.lnot h mod 2 ^ 15 = 0)) as [->|]; [done|].
  apply Z.log2_lt_pow2; lia.
Qed.

Lemma release_equiv before src :
  bytes_ok src -> (8 <= length before)%nat ->
  FastDecodeSignedVarInt_release before src = FastDecodeSignedVarInt src.
Proof.
  intros Hs Hb. unfold FastDecodeSignedVarInt_release, FastDecodeSignedVarInt.
  case_decide as Hl0; [done|].
  pose proof (decode_header_range src) as Hn.
  destruct (decode_header src) as [negative n]. simpl in Hn.
  destruct (Z.ltb_spec (Z.of_nat (length src)) n) as [|Hlen]; [done|].
  rewrite kVarIntMasks_lookup by done. simpl default. do 2 f_equal.
  set (w := drop (Z.to_nat n - 8) (take (Z.to_nat n) src)).
  assert (length w = Nat.min (Z.to_nat n) 8) as Hw.
  { subst w. rewrite length_drop, length_take. lia. }
  rewrite load_bytes_0 by (try lia; by apply Forall_drop, Forall_take).
  apply finish_decode_low; [unfold payload_bits; lia|].
  rewrite <- (be_value_suffix (take (Z.to_nat n - 8) (take (Z.to_nat n) src)) w)
    by (unfold payload_bits; lia).
  subst w. rewrite take_drop.
  rewrite <- (be_value_suffix before (take (Z.to_nat n) src))
    by (rewrite length_take; unfold payload_bits; lia).
  rewrite <- (be_value_suffix (take (length before + Z.to_nat n - 8) (before ++ src)))
    by (rewrite length_take, length_drop, length_app; unfold payload_bits; lia).
  do 2 f_equal. rewrite <- (take_app_add' before src (length before)) by done.
  rewrite <- (take_drop (length before + Z.to_nat n - 8)
    (take (length before + Z.to_nat n) (before ++ src))).
  rewrite take_take, skipn_firstn_comm. f_equal; f_equal; lia.
Qed.

Lemma signed_varint_roundtrip v rest :
  is_s 64 v -> bytes_ok rest ->
  FastDecodeSignedVarInt (FastEncodeSignedVarInt v ++ rest) = Ok (v, varint_len v).
Proof.
  intros Hv Hr. unfold FastDecodeSignedVarInt.
  destruct (varint_len_spec v Hv) as (Hn & _).
  assert (length (FastEncodeSignedVarInt v) = Z.to_nat (varint_len v)) as Hl.
  { by rewrite FastEncodeSignedVarInt_code, be_bytes_length. }
  rewrite decide_False by (rewrite length_app; lia).
  rewrite decode_header_encoded by done.
  destruct (Z.ltb_spec (Z.of_nat (length (FastEncodeSignedVarInt v ++ rest))) (varint_len v))
    as [Hc|_]; [rewrite length_app in Hc; lia|].
  rewrite kVarIntMasks_lookup by done. simpl default. do 2 f_equal.
  rewrite take_app_length' by done.
  set (w := drop _ _).
  assert (length w = Nat.min (Z.to_nat (varint_len v)) 8) as Hw
    by (subst w; rewrite length_drop; lia).
  assert (bytes_ok (FastEncodeSignedVarInt v)) as Hok
    by (rewrite FastEncodeSignedVarInt_code by done; apply be_bytes_ok).
  rewrite load_bytes_0 by (try lia; by apply Forall_drop).
  rewrite <- finish_decode_code by done.
  apply finish_decode_low; [unfold payload_bits; lia|].
  rewrite <- (be_value_suffix (take (Z.to_nat (varint_len v) - 8) (FastEncodeSignedVarInt v)) w)
    by (unfold payload_bits; lia).
  subst w. rewrite take_drop, FastEncodeSignedVarInt_code, be_value_be_bytes by done.
  rewrite Z2Nat.id by lia.
  rewrite (Z.mod_small _ (2 ^ (8 * varint_len v))) by (by apply varint_code_range). done.
Qed.

(** ** Unsigned round trip *)

(** The size table, by ranges of the first byte. *)
Lemma kUnsignedVarIntSize_spec b n :
  1 <= n <= 8 -> 2 ^ 8 - 2 ^ (9 - n) <= b < 2 ^ 8 - 2 ^ (8 - n) -> kUnsignedVarIntSize b = n.
Proof.
  assert (forallb (λ m, forallb (λ c,
    implb ((2 ^ 8 - 2 ^ (9 - m) <=? c) && (c <? 2 ^ 8 - 2 ^ (8 - m)))
          (kUnsignedVarIntSize c =? m)) (seqZ 0 256)) (seqZ 1 8) = true) as H
    by (vm_compute; reflexivity).
  intros Hn Hb. rewrite forallb_forall in H.
  specialize (H n). rewrite <- list_elem_of_In, elem_of_seqZ in H.
  specialize (H ltac:(lia)). cbv beta in H. rewrite forallb_forall in H.
  specialize (H b). rewrite <- list_elem_of_In, elem_of_seqZ in H.
  pose proof (Z.pow_le_mono_r 2 (9 - n) 8). pose proof (pow2_pos (8 - n)).
  specialize (H ltac:(lia)). cbv beta in H.
  destruct (Z.leb_spec (2 ^ 8 - 2 ^ (9 - n)) b), (Z.ltb_spec b (2 ^ 8 - 2 ^ (8 - n)));
    simpl in H; lia.
Qed.

Lemma load_loop_spec acc l1 l2 rest i n :
  is_u 64 acc -> bytes_ok l2 ->
  i = Z.of_nat (length l1) -> n = Z.of_nat (length l1 + length l2) ->
  load_loop acc (l1 ++ l2 ++ rest) i n =
  u64 (acc * 2 ^ (8 * Z.of_nat (length l2)) + be_value l2).
Proof.
  intros Hacc Hl -> ->. unfold load_loop. rewrite !Nat2Z.id.
  rewrite take_app_add, take_app_length, drop_app_length.
  rewrite <- (wrap_small 64 acc) at 1 by done. destruct Hacc. by apply load_bytes.
Qed.

Lemma unsigned_split_small v n :
  1 <= n <= 8 -> 0 <= v < 2 ^ (7 * n) ->
  0 <= v / 2 ^ (8 * (n - 1)) < 2 ^ (8 - n) /\
  v = v / 2 ^ (8 * (n - 1)) * 2 ^ (8 * (n - 1)) + v mod 2 ^ (8 * (n - 1)).
Proof.
  intros Hn Hv. pose proof (pow2_pos (8 * (n - 1)) ltac:(lia)). repeat split.
  - apply Z.div_pos; lia.
  - apply Z.div_lt_upper_bound; [done|]. rewrite <- Z.pow_add_r by lia.
    replace (8 * (n - 1) + (8 - n)) with (7 * n) by lia. lia.
  - rewrite (Z.div_mod v (2 ^ (8 * (n - 1)))) at 1 by lia. ring.
Qed.

(** Round trip of the encodings of at most eight bytes. *)
Lemma unsigned_roundtrip_small v n rest :
  1 <= n <= 8 -> 0 <= v < 2 ^ (7 * n) -> bytes_ok rest ->
  FastDecodeUnsignedVarInt
    ((u8 (Z.lor (Z.lnot (Z.shiftl 1 (9 - n) - 1)) (Z.shiftr v (8 * (n - 1))))
       :: store_tail v n 1) ++ rest) = Ok (v, n).
Proof.
  intros Hn Hv Hr. destruct (unsigned_split_small v n Hn Hv) as (Hq & Ev).
  assert (2 * 2 ^ (8 - n) = 2 ^ (9 - n)) as E9
    by (rewrite <- Z.pow_succ_r by lia; f_equal; lia).
  rewrite header_byte by (rewrite ?Z.shiftr_div_pow2 by lia; lia).
  rewrite Z.shiftr_div_pow2 by lia. rewrite store_tail_be by lia.
  set (q := v / _) in *. cbn [app FastDecodeUnsignedVarInt].
  rewrite (kUnsignedVarIntSize_spec _ n) by (split; lia).
  set (tl := be_bytes _ v). assert (length tl = Z.to_nat (n - 1)) as Htl by apply be_bytes_length.
  destruct (Z.ltb_spec (Z.of_nat (length (2 ^ 8 - 2 ^ (9 - n) + q :: tl ++ rest))) n) as [Hc|_].
  { cbn [length] in Hc. rewrite length_app in Hc. lia. }
  destruct (Z.eqb_spec n 1) as [->|H1].
  { do 2 f_equal. change 0x7f with (2 ^ 7 - 1). rewrite land_mask by lia.
    change (2 ^ 8 - 2 ^ (9 - 1) + q) with (0 + q).
    rewrite Z.mod_small by lia. change (2 ^ (8 * (1 - 1))) with 1 in *.
    rewrite Z.mod_1_r in Ev. lia. }
  destruct (Z.eqb_spec n 9) as [|_]; [lia|]. do 2 f_equal.
  rewrite Z.shiftl_mul_pow2, Z.mul_1_l, land_mask by lia.
  replace ((2 ^ 8 - 2 ^ (9 - n) + q) mod 2 ^ (8 - n)) with q.
  2: { apply Z.mod_unique with (q := 2 ^ n - 2); [lia|].
       rewrite Z.mul_sub_distr_l, <- Z.pow_add_r by lia.
       replace (8 - n + n) with 8 by lia. lia. }
  change (_ :: tl ++ rest) with ([2 ^ 8 - 2 ^ (9 - n) + q] ++ tl ++ rest).
  pose proof (Z.pow_le_mono_r 2 (8 - n) 64). pose proof (Z.pow_le_mono_r 2 (7 * n) 64).
  rewrite load_loop_spec
    by (unfold is_u; try apply be_bytes_ok; rewrite ?Htl; cbn [length]; lia).
  rewrite Htl. subst tl. rewrite be_value_be_bytes, Z2Nat.id by lia.
  rewrite <- Ev. apply wrap_small. unfold is_u. lia.
Qed.

Lemma unsigned_varint_roundtrip v rest :
  is_u 64 v -> bytes_ok rest ->
  FastDecodeUnsignedVarInt (FastEncodeUnsignedVarInt v ++ rest) =
  Ok (v, UnsignedVarIntLength v).
Proof.
  intros Hv Hr. destruct (UnsignedVarIntLength_spec v Hv) as (Hn & Hlt & Hge).
  unfold FastEncodeUnsignedVarInt. set (n := UnsignedVarIntLength v) in *. clearbody n.
  destruct Hv as [Hv0 Hv64].
  destruct (Z.eqb_spec n 10) as [->|H10]; [|destruct (Z.eqb_spec n 9) as [->|H9]].
  - rewrite store_tail_be by lia. change (Z.to_nat (10 - 2)) with 8%nat.
    rewrite <- app_assoc. cbn [app FastDecodeUnsignedVarInt length].
    change (kUnsignedVarIntSize 255) with 9.
    rewrite length_app, be_bytes_length.
    destruct (Z.ltb_spec (Z.of_nat (S (S (8 + length rest)))) 9); [lia|].
    simpl (default 0 _).
    change (Z.land 128 128 =? 0) with false. cbn [negb].
    destruct (Z.ltb_spec (Z.of_nat (S (S (8 + length rest)))) 10); [lia|].
    change (Z.land 128 63) with 0. do 2 f_equal.
    change (255 :: 128 :: be_bytes 8 v ++ rest) with ([255; 128] ++ be_bytes 8 v ++ rest).
    rewrite load_loop_spec by (try apply be_bytes_ok; rewrite ?be_bytes_length; done).
    rewrite be_value_be_bytes, Z.mul_0_l, Z.add_0_l. unfold u64, wrap.
    change (8 * Z.of_nat 8) with 64. rewrite Z.mod_mod, Z.mod_small by lia. done.
  - rewrite store_tail_be by lia. change (Z.to_nat (9 - 2)) with 7%nat.
    rewrite <- app_assoc. cbn [app FastDecodeUnsignedVarInt length].
    change (kUnsignedVarIntSize 255) with 9.
    rewrite length_app, be_bytes_length.
    destruct (Z.ltb_spec (Z.of_nat (S (S (7 + length rest)))) 9); [lia|].
    simpl (default 0 _). rewrite Z.shiftr_div_pow2 by lia.
    assert (0 <= v / 2 ^ 56 < 2 ^ 7) as Hq by (Z.div_mod_to_equations; lia).
    unfold u8. rewrite wrap_small by (unfold is_u; lia).
    replace (Z.land (v / 2 ^ 56) 128) with 0.
    2: { symmetry. apply Z.bits_inj'. intros i Hi. rewrite Z.land_spec, Z.bits_0.
         change 128 with (Z.shiftl 1 7). destruct (decide (i < 7)).
         - by rewrite Z.shiftl_spec_low, andb_false_r by lia.
         - rewrite <- (Z.mod_small (v / 2 ^ 56) (2 ^ 7)) by lia.
           by rewrite Z.mod_pow2_bits_high by lia. }
    cbn [Z.eqb negb]. do 2 f_equal.
    change (255 :: v / 2 ^ 56 :: be_bytes 7 v ++ rest)
      with ([] ++ ([255; v / 2 ^ 56] ++ be_bytes 7 v) ++ rest).
    rewrite load_loop_spec; [| done | | done | by rewrite length_app, be_bytes_length].
    2: { apply Forall_app; split; [|apply be_bytes_ok].
         repeat constructor; unfold is_u; lia. }
    rewrite be_value_app, be_bytes_length, be_value_be_bytes, !be_value_cons.
    cbn [length]. change (be_value []) with 0. unfold u64, wrap.
    Z.div_mod_to_equations; lia.
  - apply unsigned_roundtrip_small; [lia | lia | done].
Qed.

(** ** Interface lemmas used by the key encodings *)

Lemma FastEncodeSignedVarInt_ok v : is_s 64 v -> bytes_ok (FastEncodeSignedVarInt v).
Proof. intros Hv. rewrite FastEncodeSignedVarInt_code by done. apply be_bytes_ok. Qed.

Lemma FastEncodeSignedVarInt_length v :
  is_s 64 v -> length (FastEncodeSignedVarInt v) = Z.to_nat (varint_len v).
Proof. intros Hv. by rewrite FastEncodeSignedVarInt_code, be_bytes_length. Qed.

Lemma signed_varint_compare v w r1 r2 :
  is_s 64 v -> is_s 64 w -> v ≠ w ->
  bytes_compare (FastEncodeSignedVarInt v ++ r1) (FastEncodeSignedVarInt w ++ r2) = (v ?= w).
Proof.
  intros Hv Hw Hne. destruct (Z.compare_spec v w) as [|Hlt|Hgt]; [done| |].
  - by apply signed_varint_lt.
  - by rewrite bytes_compare_antisym, signed_varint_lt.
Qed.

Lemma signed_varint_roundtrip_slice v rest :
  is_s 64 v -> bytes_ok rest ->
  FastDecodeSignedVarInt_slice (FastEncodeSignedVarInt v ++ rest) = Ok (v, rest).
Proof.
  intros Hv Hr. unfold FastDecodeSignedVarInt_slice.
  rewrite signed_varint_roundtrip by done. simpl.
  by rewrite <- FastEncodeSignedVarInt_length, drop_app_length.
Qed.

Lemma descending_varint_roundtrip v rest :
  is_s 64 v -> v ≠ - 2 ^ 63 -> bytes_ok rest ->
  FastDecodeDescendingSignedVarInt (FastEncodeDescendingSignedVarInt v [] ++ rest) = Ok (v, rest).
Proof.
  intros Hv Hmin Hr. unfold FastDecodeDescendingSignedVarInt, FastEncodeDescendingSignedVarInt.
  unfold is_s in Hv. change (2 ^ (64 - 1)) with (2 ^ 63) in Hv.
  unfold s64. rewrite (signed_small 64 (- v)) by (unfold is_s; lia). simpl app.
  assert (is_s 64 (- v)) as Hv' by (unfold is_s; lia).
  rewrite signed_varint_roundtrip by done. simpl.
  rewrite <- FastEncodeSignedVarInt_length, drop_app_length by done.
  rewrite Z.opp_involutive, signed_small by (unfold is_s; lia). done.
Qed.

Lemma unsigned_varint_length v :
  is_u 64 v -> length (FastEncodeUnsignedVarInt v) = Z.to_nat (UnsignedVarIntLength v).
Proof.
  intros Hv. destruct (UnsignedVarIntLength_spec v Hv) as (Hn & _).
  unfold FastEncodeUnsignedVarInt. set (n := UnsignedVarIntLength v) in *.
  destruct (Z.eqb_spec n 10); [|destruct (Z.eqb_spec n 9)];
    rewrite ?length_app; cbn [length]; rewrite store_tail_be, be_bytes_length by lia; lia.
Qed.

Lemma unsigned_varint_roundtrip_slice v rest :
  is_u 64 v -> bytes_ok rest ->
  FastDecodeUnsignedVarInt_slice (FastEncodeUnsignedVarInt v ++ rest) = Ok (v, rest).
Proof.
  intros Hv Hr. unfold FastDecodeUnsignedVarInt_slice.
  rewrite unsigned_varint_roundtrip by done. simpl.
  by rewrite <- unsigned_varint_length, drop_app_length.
Qed.

(** ** Properties *)

(** RocksDB orders keys bytewise; the signed varint encoding preserves the
    numeric order under that order, whatever bytes follow either encoding in
    the key (so it is also prefix-free). *)
Theorem signed_varint_order_preserving v w r1 r2 :
  is_s 64 v -> is_s 64 w -> v ≠ w ->
  bytes_compare (FastEncodeSignedVarInt v ++ r1) (FastEncodeSignedVarInt w ++ r2) = (v ?= w).
Proof. apply signed_varint_compare. Qed.

Lemma signed_varint_order_preserving_witness :
  bytes_compare (FastEncodeSignedVarInt (-64) ++ [9]) (FastEncodeSignedVarInt 63 ++ []) = Lt.
Proof.
  apply (signed_varint_order_preserving (-64) 63 [9] []); vm_compute; intuition discriminate.
Defined.

(** The release-build decoder inverts the encoder for every [int64_t],
    returning the encoded length, whatever memory precedes the slice and
    whatever bytes follow the encoding. *)
Theorem signed_varint_release_roundtrip v before rest :
  is_s 64 v -> bytes_ok rest -> (8 <= length before)%nat ->
  FastDecodeSignedVarInt_release before (FastEncodeSignedVarInt v ++ rest) =
  Ok (v, Z.of_nat (length (FastEncodeSignedVarInt v))).
Proof.
  intros Hv Hr Hb. pose proof (FastEncodeSignedVarInt_ok v Hv).
  destruct (varint_len_spec v Hv) as (Hn & _).
  rewrite release_equiv, signed_varint_roundtrip by (done || by apply Forall_app).
  by rewrite FastEncodeSignedVarInt_length, Z2Nat.id by (done || lia).
Qed.

Lemma signed_varint_release_roundtrip_witness :
  FastDecodeSignedVarInt_release [1; 2; 3; 4; 5; 6; 7; 8] (FastEncodeSignedVarInt (- 2 ^ 63) ++ [5])
  = Ok (- 2 ^ 63, 10).
Proof.
  apply (signed_varint_release_roundtrip (- 2 ^ 63) [1; 2; 3; 4; 5; 6; 7; 8] [5]);
    [vm_compute; intuition discriminate | repeat constructor; vm_compute; intuition discriminate
    | vm_compute; repeat constructor].
Defined.

(** On every input, well-formed or not, the release decoder (one unaligned
    64-bit load that may start before the slice) and the byte-by-byte decoder
    of the sanitizer builds return the same result: the bytes before the slice
    never influence it. *)
Theorem varint_release_decoder_equiv before src :
  bytes_ok src -> (8 <= length before)%nat ->
  FastDecodeSignedVarInt_release before src = FastDecodeSignedVarInt src.
Proof. apply release_equiv. Qed.

Lemma varint_release_decoder_equiv_witness :
  FastDecodeSignedVarInt_release [255; 255; 255; 255; 255; 255; 255; 255] [193; 7; 1]
  = FastDecodeSignedVarInt [193; 7; 1].
Proof.
  apply varint_release_decoder_equiv;
    [repeat constructor; vm_compute; intuition discriminate | vm_compute; repeat constructor].
Defined.

(** The unsigned decoder inverts the unsigned encoder for every
    [uint64_t] and consumes exactly the encoded bytes. *)
Theorem unsigned_varint_slice_roundtrip v rest :
  is_u 64 v -> bytes_ok rest ->
  FastDecodeUnsignedVarInt_slice (FastAppendUnsignedVarIntToStr v [] ++ rest) = Ok (v, rest).
Proof. apply unsigned_varint_roundtrip_slice. Qed.

Lemma unsigned_varint_slice_roundtrip_witness :
  FastDecodeUnsignedVarInt_slice (FastAppendUnsignedVarIntToStr (2 ^ 64 - 1) [] ++ [3])
  = Ok (2 ^ 64 - 1, [3]).
Proof.
  apply unsigned_varint_slice_roundtrip;
    [vm_compute; intuition discriminate | repeat constructor; vm_compute; intuition discriminate].
Defined.

(** The whole-slice overload of the unsigned decoder aborts the process on
    every correctly encoded number (it returns [Status::OK()] where a value is
    expected). *)
Theorem unsigned_varint_whole_slice_aborts v :
  is_u 64 v -> FastDecodeUnsignedVarInt_whole (FastEncodeUnsignedVarInt v) = Fatal.
Proof.
  intros Hv. unfold FastDecodeUnsignedVarInt_whole.
  rewrite <- (app_nil_r (FastEncodeUnsignedVarInt v)).
  by rewrite unsigned_varint_roundtrip_slice by (done || constructor).
Qed.

Lemma unsigned_varint_whole_slice_aborts_witness :
  FastDecodeUnsignedVarInt_whole (FastEncodeUnsignedVarInt 300) = Fatal.
Proof. apply (unsigned_varint_whole_slice_aborts 300); vm_compute; intuition discriminate. Defined.
