(* ===== verification/DocKvUtil.v ===== *)
(** * Key building blocks ([src/yb/docdb/doc_kv_util.cc], [doc_kv_util.h],
    [src/yb/util/kv_util.h])

    Strings inside keys are escaped and terminated so that they can be followed
    by more components; fixed-width integers are stored big-endian with the
    sign bit flipped.  The C++ templates over [END_OF_STRING] ([\0] or [\xff])
    are functions of that byte. *)

From S2P Require Import Prelude KeyCodec FastVarInt.
Local Open Scope Z_scope.

(** ** Strings *)

(** [s.find('\0') == string::npos] *)
Definition no_zero (s : bytes) : bool := forallb (λ c, negb (c =? 0)) s.

Definition AppendEncodedStrToKey (END_OF_STRING : Z) (s dest : bytes) : bytes :=
  if (END_OF_STRING =? 0) && no_zero s then dest ++ s
  else
    foldl (λ dest c,
      if c =? 0 then dest ++ [END_OF_STRING] ++ [u8 (Z.lxor END_OF_STRING 1)]
      else dest ++ [u8 (Z.lxor END_OF_STRING c)]) dest s.

Definition AppendZeroEncodedStrToKey := AppendEncodedStrToKey 0x00.
Definition AppendComplementZeroEncodedStrToKey := AppendEncodedStrToKey 0xff.

Definition TerminateEncodedKeyStr (A : Z) (dest : bytes) : bytes := (dest ++ [A]) ++ [A].
Definition TerminateZeroEncodedKeyStr := TerminateEncodedKeyStr 0x00.
Definition TerminateComplementZeroEncodedKeyStr := TerminateEncodedKeyStr 0xff.

Definition ZeroEncodeAndAppendStrToKey (s dest : bytes) : bytes :=
  TerminateZeroEncodedKeyStr (AppendZeroEncodedStrToKey s dest).

Definition ComplementZeroEncodeAndAppendStrToKey (s dest : bytes) : bytes :=
  TerminateComplementZeroEncodedKeyStr (AppendComplementZeroEncodedStrToKey s dest).

Definition ZeroEncodeStr (s : bytes) : bytes := ZeroEncodeAndAppendStrToKey s [].

(** The [while (p != end)] loop: [p] is what is left of the slice, [result]
    the string being built.  An input that ends without a terminator decodes
    successfully. *)
Fixpoint DecodeEncodedStr (END_OF_STRING : Z) (p result : bytes) : Result (bytes * bytes) :=
  let END_OF_STRING_ESCAPE := u8 (Z.lxor END_OF_STRING 1) in
  match p with
  | [] => Ok (result, [])
  | c :: p1 =>
      if c =? END_OF_STRING then
        match p1 with
        | [] => Error Corruption
        | c2 :: p2 =>
            if c2 =? END_OF_STRING then Ok (result, p2)
            else if c2 =? END_OF_STRING_ESCAPE then
              DecodeEncodedStr END_OF_STRING p2 (result ++ [Z.lxor END_OF_STRING END_OF_STRING])
            else Error Corruption
        end
      else DecodeEncodedStr END_OF_STRING p1 (result ++ [u8 (Z.lxor c END_OF_STRING)])
  end.

Definition DecodeComplementZeroEncodedStr (slice result : bytes) : Result (bytes * bytes) :=
  DecodeEncodedStr 0xff slice result.

Definition DecodeZeroEncodedStr (slice result : bytes) : Result (bytes * bytes) :=
  DecodeEncodedStr 0x00 slice result.

(** The overload that decodes a whole string or dies. *)
Definition DecodeZeroEncodedStr_whole (encoded_str : bytes) : Outcome bytes :=
  match DecodeZeroEncodedStr encoded_str [] with
  | Error _ => Fatal
  | Ok (result, slice) => if decide (slice = []) then Done result else Fatal
  end.

(** ** Fixed-width integers *)

Definition kInt64SignBitFlipMask : Z := 0x8000000000000000.
Definition kInt32SignBitFlipMask : Z := 0x80000000.

Definition AppendUInt16ToKey (val : Z) (dest : bytes) : bytes := dest ++ be_bytes 2 val.
Definition AppendUInt32ToKey (val : Z) (dest : bytes) : bytes := dest ++ be_bytes 4 val.
Definition AppendBigEndianUInt32 (u : Z) (dest : bytes) : bytes := dest ++ be_bytes 4 u.
Definition AppendBigEndianUInt64 (u : Z) (dest : bytes) : bytes := dest ++ be_bytes 8 u.

Definition AppendInt32ToKey (val : Z) (dest : bytes) : bytes :=
  dest ++ be_bytes 4 (Z.lxor (u32 val) kInt32SignBitFlipMask).

Definition AppendInt64ToKey (val : Z) (dest : bytes) : bytes :=
  dest ++ be_bytes 8 (Z.lxor (u64 val) kInt64SignBitFlipMask).

(** Floating-point values are their IEEE bit patterns. *)
Definition AppendFloatToKey (v : Z) (descending : bool) (dest : bytes) : bytes :=
  let v := if negb (Z.shiftr v 31 =? 0) then u32 (Z.lnot v)
           else Z.lxor v kInt32SignBitFlipMask in
  let v := if descending then u32 (Z.lnot v) else v in
  dest ++ be_bytes 4 v.

Definition AppendDoubleToKey (v : Z) (descending : bool) (dest : bytes) : bytes :=
  let v := if negb (Z.shiftr v 63 =? 0) then u64 (Z.lnot v)
           else Z.lxor v kInt64SignBitFlipMask in
  let v := if descending then u64 (Z.lnot v) else v in
  dest ++ be_bytes 8 v.

(** [BigEndian::Load32(slice.data())]: reads the first four bytes. *)
Definition Load16 (slice : bytes) : Z := be_value (take 2 slice).
Definition Load32 (slice : bytes) : Z := be_value (take 4 slice).
Definition Load64 (slice : bytes) : Z := be_value (take 8 slice).

(** [v ^ mask] is a [uint32_t] converted to [int64_t]: not sign-extended. *)
Definition DecodeInt32FromKey (slice : bytes) : Z :=
  Z.lxor (Load32 slice) kInt32SignBitFlipMask.

Definition DecodeInt64FromKey (slice : bytes) : Z :=
  s64 (Z.lxor (Load64 slice) kInt64SignBitFlipMask).

Definition DecodeDoubleFromKey (slice : bytes) (descending : bool) : Z :=
  let v := Load64 slice in
  let v := if descending then u64 (Z.lnot v) else v in
  if negb (Z.shiftr v 63 =? 0) then Z.lxor v kInt64SignBitFlipMask else u64 (Z.lnot v).

Definition DecodeFloatFromKey (slice : bytes) (descending : bool) : Z :=
  let v := Load32 slice in
  let v := if descending then u32 (Z.lnot v) else v in
  if negb (Z.shiftr v 31 =? 0) then Z.lxor v kInt32SignBitFlipMask else u32 (Z.lnot v).

(** ** Escaped strings: lemmas *)

(** What one character becomes. *)
Definition escape (e c : Z) : bytes :=
  if c =? 0 then [e; u8 (Z.lxor e 1)] else [u8 (Z.lxor e c)].

Definition escape_str (e : Z) (s : bytes) : bytes := concat (escape e <$> s).

Lemma foldl_escape e s dest :
  foldl (λ dest c,
      if c =? 0 then dest ++ [e] ++ [u8 (Z.lxor e 1)] else dest ++ [u8 (Z.lxor e c)]) dest s
  = dest ++ escape_str e s.
Proof.
  revert dest. induction s as [|c s IH]; intros dest; [by rewrite app_nil_r|].
  cbn [foldl]. rewrite IH. unfold escape_str. cbn [fmap list_fmap concat]. unfold escape at 2.
  destruct (c =? 0); by rewrite <- app_assoc.
Qed.

Lemma escape_str_no_zero s : bytes_ok s -> no_zero s = true -> escape_str 0 s = s.
Proof.
  induction 1 as [|c s Hc Hs IH]; [done|]. simpl. intros [Hc0 Hz]%andb_prop.
  unfold escape_str. cbn [fmap list_fmap concat]. unfold escape at 1.
  destruct (c =? 0); [done|]. unfold u8. rewrite Z.lxor_0_l, wrap_small by done.
  cbn [app]. f_equal. by apply IH.
Qed.

(** The fast path for strings without zeros computes the same bytes. *)
Lemma AppendEncodedStrToKey_escape e s dest :
  bytes_ok s -> AppendEncodedStrToKey e s dest = dest ++ escape_str e s.
Proof.
  intros Hs. unfold AppendEncodedStrToKey.
  destruct (Z.eqb_spec e 0) as [->|He]; simpl; [|apply foldl_escape].
  destruct (no_zero s) eqn:Hz; [|apply foldl_escape].
  by rewrite escape_str_no_zero.
Qed.

Lemma ZeroEncodeAndAppendStrToKey_escape s dest :
  bytes_ok s -> ZeroEncodeAndAppendStrToKey s dest = dest ++ escape_str 0 s ++ [0; 0].
Proof.
  intros Hs. unfold ZeroEncodeAndAppendStrToKey, TerminateZeroEncodedKeyStr,
    TerminateEncodedKeyStr, AppendZeroEncodedStrToKey.
  rewrite AppendEncodedStrToKey_escape by done. by rewrite <- !app_assoc.
Qed.

Lemma ComplementZeroEncodeAndAppendStrToKey_escape s dest :
  bytes_ok s ->
  ComplementZeroEncodeAndAppendStrToKey s dest = dest ++ escape_str 255 s ++ [255; 255].
Proof.
  intros Hs. unfold ComplementZeroEncodeAndAppendStrToKey,
    TerminateComplementZeroEncodedKeyStr, TerminateEncodedKeyStr,
    AppendComplementZeroEncodedStrToKey.
  rewrite AppendEncodedStrToKey_escape by done. by rewrite <- !app_assoc.
Qed.

Lemma lxor_255 c : byte_ok c -> Z.lxor 255 c = 255 - c.
Proof.
  intros Hc. change 255 with (Z.ones 8) at 1. rewrite Z.lxor_comm.
  replace (255 - c) with (2 ^ 8 - 1 - c) by lia. rewrite <- wrap_lnot by (lia || done).
  unfold wrap. rewrite <- Z.land_ones by lia. apply Z.bits_inj'. intros i Hi.
  rewrite Z.land_spec, Z.lxor_spec, Z.lnot_spec by lia.
  destruct (decide (i < 8)).
  - by rewrite Z.ones_spec_low, xorb_true_r, andb_true_r by lia.
  - rewrite Z.ones_spec_high, xorb_false_r, andb_false_r by lia.
    rewrite <- (Z.mod_small c (2 ^ 8)) by done. by rewrite Z.mod_pow2_bits_high by lia.
Qed.

(** [e ^ c] for the two escape bytes in use. *)
Definition flip (e c : Z) : Z := if e =? 0 then c else 255 - c.

Lemma lxor_flip e c : e = 0 \/ e = 255 -> byte_ok c -> u8 (Z.lxor e c) = flip e c.
Proof.
  intros [->| ->] Hc; unfold flip; simpl (_ =? _); cbv iota; unfold u8.
  - by rewrite Z.lxor_0_l, wrap_small.
  - rewrite lxor_255 by done. apply wrap_small. unfold is_u in *. lia.
Qed.

Lemma decode_escape_str e s rest result :
  e = 0 \/ e = 255 -> bytes_ok s ->
  DecodeEncodedStr e (escape_str e s ++ [e; e] ++ rest) result = Ok (result ++ s, rest).
Proof.
  intros He Hs. revert result. induction Hs as [|c s Hc Hs IH]; intros result.
  { simpl. by rewrite Z.eqb_refl, app_nil_r. }
  unfold escape_str. cbn [fmap list_fmap concat]. fold (escape_str e s).
  rewrite <- app_assoc. unfold escape. destruct (Z.eqb_spec c 0) as [->|Hc0].
  - cbn [app DecodeEncodedStr]. rewrite Z.eqb_refl.
    destruct He as [->| ->].
    + change (u8 (Z.lxor 0 1)) with 1. simpl (_ =? _). cbv iota.
      change (Z.lxor 0 0) with 0. cbn [app] in IH.
      rewrite IH, <- app_assoc. done.
    + change (u8 (Z.lxor 255 1)) with 254. simpl (_ =? _). cbv iota.
      change (Z.lxor 255 255) with 0. cbn [app] in IH.
      rewrite IH, <- app_assoc. done.
  - cbn [app DecodeEncodedStr]. rewrite lxor_flip by done.
    assert ((flip e c =? e) = false) as ->.
    { unfold flip, is_u in *. destruct He as [->| ->]; simpl (_ =? _); cbv iota; lia. }
    cbn [app] in IH. rewrite IH, <- app_assoc. do 2 f_equal.
    rewrite Z.lxor_comm, lxor_flip.
    + unfold flip. destruct He as [->| ->]; simpl (_ =? _); cbv iota; simpl; do 2 f_equal; lia.
    + done.
    + unfold flip, is_u in *. destruct He as [->| ->]; simpl (_ =? _); cbv iota; lia.
Qed.

(** Escaped, terminated strings compare like the strings (ascending) or in the
    opposite order (descending), whatever follows them. *)
Lemma compare_escape_zero s1 s2 r1 r2 :
  bytes_ok s1 -> bytes_ok s2 -> s1 ≠ s2 ->
  bytes_compare (escape_str 0 s1 ++ [0; 0] ++ r1) (escape_str 0 s2 ++ [0; 0] ++ r2)
  = bytes_compare s1 s2.
Proof.
  intros H1. revert s2. induction H1 as [|c1 s1 Hc1 Hs1 IH]; intros [|c2 s2] H2 Hne; [done| | |].
  - inversion_clear H2 as [|?? Hc2 Hs2]. unfold escape_str. cbn [fmap list_fmap concat].
    unfold escape at 1. destruct (Z.eqb_spec c2 0) as [->|]; [reflexivity|].
    rewrite lxor_flip by auto. cbn [app bytes_compare flip Z.eqb]. unfold is_u in Hc2.
    destruct (Z.compare_spec 0 c2); [lia|done|lia].
  - unfold escape_str. cbn [fmap list_fmap concat].
    unfold escape at 1. destruct (Z.eqb_spec c1 0) as [->|]; [reflexivity|].
    rewrite lxor_flip by auto. cbn [app bytes_compare flip Z.eqb]. unfold is_u in Hc1.
    destruct (Z.compare_spec c1 0); [lia|lia|done].
  - inversion_clear H2 as [|?? Hc2 Hs2].
    assert (∀ c s r, byte_ok c -> escape_str 0 (c :: s) ++ r =
      (if c =? 0 then [0; 1] else [c]) ++ escape_str 0 s ++ r) as E.
    { intros c s r Hc. unfold escape_str. cbn [fmap list_fmap concat].
      unfold escape at 1. destruct (c =? 0); [done|]. by rewrite lxor_flip by auto. }
    rewrite !E by done. cbn [bytes_compare]. destruct (Z.compare_spec c1 c2) as [->|Hlt|Hgt].
    + rewrite bytes_compare_app_l. apply IH; [done|]. congruence.
    + destruct (Z.eqb_spec c1 0) as [->|], (Z.eqb_spec c2 0) as [->|];
        unfold is_u in *; try lia; cbn [app bytes_compare].
      * by apply Z.compare_lt_iff in Hlt as ->.
      * by apply Z.compare_lt_iff in Hlt as ->.
    + destruct (Z.eqb_spec c1 0) as [->|], (Z.eqb_spec c2 0) as [->|];
        unfold is_u in *; try lia; cbn [app bytes_compare].
      * by apply Z.compare_gt_iff in Hgt as ->.
      * by apply Z.compare_gt_iff in Hgt as ->.
Qed.

Lemma compare_escape_complement s1 s2 r1 r2 :
  bytes_ok s1 -> bytes_ok s2 -> s1 ≠ s2 ->
  bytes_compare (escape_str 255 s1 ++ [255; 255] ++ r1) (escape_str 255 s2 ++ [255; 255] ++ r2)
  = bytes_compare s2 s1.
Proof.
  intros H1. revert s2. induction H1 as [|c1 s1 Hc1 Hs1 IH]; intros [|c2 s2] H2 Hne; [done| | |].
  - inversion_clear H2 as [|?? Hc2 Hs2]. unfold escape_str. cbn [fmap list_fmap concat].
    unfold escape at 1. destruct (Z.eqb_spec c2 0) as [->|]; [reflexivity|].
    rewrite lxor_flip by auto. cbn [app bytes_compare flip Z.eqb]. unfold is_u in Hc2.
    destruct (Z.compare_spec 255 (255 - c2)); [lia|lia|done].
  - unfold escape_str. cbn [fmap list_fmap concat].
    unfold escape at 1. destruct (Z.eqb_spec c1 0) as [->|]; [reflexivity|].
    rewrite lxor_flip by auto. cbn [app bytes_compare flip Z.eqb]. unfold is_u in Hc1.
    destruct (Z.compare_spec (255 - c1) 255); [lia|done|lia].
  - inversion_clear H2 as [|?? Hc2 Hs2].
    assert (∀ c s r, byte_ok c -> escape_str 255 (c :: s) ++ r =
      (if c =? 0 then [255; 254] else [255 - c]) ++ escape_str 255 s ++ r) as E.
    { intros c s r Hc. unfold escape_str. cbn [fmap list_fmap concat].
      unfold escape at 1. destruct (c =? 0); [done|]. by rewrite lxor_flip by auto. }
    rewrite !E by done. cbn [bytes_compare]. destruct (Z.compare_spec c2 c1) as [->|Hlt|Hgt].
    + rewrite bytes_compare_app_l. apply IH; [done|]. congruence.
    + destruct (Z.eqb_spec c1 0) as [->|], (Z.eqb_spec c2 0) as [->|];
        unfold is_u in *; try lia; cbn [app bytes_compare].
      * destruct (Z.compare_spec (255 - c1) 255); [lia|done|lia].
      * destruct (Z.compare_spec (255 - c1) (255 - c2)); [lia|done|lia].
    + destruct (Z.eqb_spec c1 0) as [->|], (Z.eqb_spec c2 0) as [->|];
        unfold is_u in *; try lia; cbn [app bytes_compare].
      * destruct (Z.compare_spec 255 (255 - c2)); [lia|lia|done].
      * destruct (Z.compare_spec (255 - c1) (255 - c2)); [lia|lia|done].
Qed.

Lemma escape_str_ok e s : e = 0 \/ e = 255 -> bytes_ok s -> bytes_ok (escape_str e s).
Proof.
  intros He. induction 1 as [|c s Hc Hs IH]; [constructor|].
  unfold escape_str. cbn [fmap list_fmap concat]. apply Forall_app. split; [|done].
  unfold escape. destruct (c =? 0); repeat constructor;
    try (apply wrap_range; lia); destruct He as [->| ->]; done.
Qed.

(** ** Integers: lemmas *)

(** Flipping the sign bit of a two's-complement number adds [2^(w-1)]. *)
Lemma lxor_sign_bit w v :
  0 < w -> is_s w v -> Z.lxor (wrap w v) (2 ^ (w - 1)) = v + 2 ^ (w - 1).
Proof.
  intros Hw [Hv1 Hv2].
  assert (2 ^ w = 2 * 2 ^ (w - 1)) as E
    by (rewrite <- Z.pow_succ_r by lia; f_equal; lia).
  assert (∀ z, 0 <= z < 2 ^ (w - 1) -> Z.lxor z (2 ^ (w - 1)) = z + 2 ^ (w - 1)) as D.
  { intros z Hz. symmetry. apply Z.add_nocarry_lxor.
    pose proof (lor_add_disjoint (w - 1) 1 z ltac:(lia) Hz) as L.
    pose proof (Z.add_lor_land (1 * 2 ^ (w - 1)) z).
    rewrite Z.mul_1_l in *. rewrite Z.land_comm. lia. }
  unfold wrap. destruct (Z.ltb_spec v 0).
  - replace (v mod 2 ^ w) with ((v + 2 ^ (w - 1)) + 2 ^ (w - 1)).
    2: { apply Z.mod_unique with (q := -1); lia. }
    rewrite <- D by lia. rewrite Z.lxor_assoc, Z.lxor_nilpotent, Z.lxor_0_r. done.
  - rewrite Z.mod_small by lia. apply D. lia.
Qed.

Lemma be_bytes_order n A B r1 r2 :
  is_u (8 * Z.of_nat n) A -> is_u (8 * Z.of_nat n) B -> A ≠ B ->
  bytes_compare (be_bytes n A ++ r1) (be_bytes n B ++ r2) = (A ?= B).
Proof.
  intros HA HB Hne. pose proof (be_bytes_compare_prefix n 0 A B r1 r2) as H.
  rewrite Nat.add_0_r in H. change (8 * Z.of_nat 0) with 0 in H.
  rewrite Z.shiftr_0_r in H. by apply H.
Qed.

Lemma be_value_take n v rest :
  is_u (8 * Z.of_nat n) v -> be_value (take n (be_bytes n v ++ rest)) = v.
Proof.
  intros Hv. rewrite take_app_length' by (by rewrite be_bytes_length).
  rewrite be_value_be_bytes. by apply Z.mod_small.
Qed.

(** [Z.lxor] of a biased [w]-bit number with the sign mask removes the bias. *)
Lemma unbias w v :
  0 < w -> is_s w v -> signed w (Z.lxor (v + 2 ^ (w - 1)) (2 ^ (w - 1))) = v.
Proof.
  intros Hw Hv. rewrite <- lxor_sign_bit by done.
  rewrite Z.lxor_assoc, Z.lxor_nilpotent, Z.lxor_0_r, signed_wrap by done.
  by apply signed_small.
Qed.

Lemma AppendInt64ToKey_be v dest :
  is_s 64 v -> AppendInt64ToKey v dest = dest ++ be_bytes 8 (v + 2 ^ 63).
Proof.
  intros Hv. unfold AppendInt64ToKey, u64, kInt64SignBitFlipMask.
  change 0x8000000000000000 with (2 ^ (64 - 1)). by rewrite lxor_sign_bit.
Qed.

Lemma AppendInt32ToKey_be v dest :
  is_s 32 v -> AppendInt32ToKey v dest = dest ++ be_bytes 4 (v + 2 ^ 31).
Proof.
  intros Hv. unfold AppendInt32ToKey, u32, kInt32SignBitFlipMask.
  change 0x80000000 with (2 ^ (32 - 1)). by rewrite lxor_sign_bit.
Qed.

Lemma DecodeInt64FromKey_roundtrip v rest :
  is_s 64 v -> DecodeInt64FromKey (AppendInt64ToKey v [] ++ rest) = v.
Proof.
  intros Hv. rewrite AppendInt64ToKey_be by done. unfold DecodeInt64FromKey, Load64.
  cbn [app]. rewrite be_value_take.
  - unfold kInt64SignBitFlipMask, s64. change 0x8000000000000000 with (2 ^ (64 - 1)).
    by apply unbias.
  - unfold is_u, is_s in *. change (8 * Z.of_nat 8) with 64. lia.
Qed.

(** [~x] reverses the order of two's-complement numbers. *)
Lemma lnot_is_s w v : is_s w v -> is_s w (Z.lnot v).
Proof. unfold is_s, Z.lnot. lia. Qed.

(** The unsigned number whose bytes represent a float in a key. *)
Definition float_code (w v : Z) : Z :=
  if v <? 2 ^ (w - 1) then v + 2 ^ (w - 1) else 2 ^ w - 1 - v.

Lemma float_code_spec w v :
  0 < w -> is_u w v ->
  (if negb (Z.shiftr v (w - 1) =? 0) then wrap w (Z.lnot v) else Z.lxor v (2 ^ (w - 1)))
  = float_code w v.
Proof.
  intros Hw Hv. pose proof Hv as [Hv1 Hv2].
  assert (2 ^ w = 2 * 2 ^ (w - 1)) as E
    by (rewrite <- Z.pow_succ_r by lia; f_equal; lia).
  unfold float_code. rewrite Z.shiftr_div_pow2 by lia.
  destruct (Z.ltb_spec v (2 ^ (w - 1))).
  - rewrite Z.div_small by lia. simpl.
    rewrite <- (wrap_small w v) at 1 by done. apply lxor_sign_bit; [done|].
    unfold is_s. lia.
  - assert (v / 2 ^ (w - 1) = 1) as -> by (symmetry; apply Z.div_unique with (r := v - 2 ^ (w - 1)); lia).
    simpl. apply wrap_lnot; [lia|done].
Qed.

Lemma float_code_range w v : 0 < w -> is_u w v -> is_u w (float_code w v).
Proof.
  intros Hw [Hv1 Hv2].
  assert (2 ^ w = 2 * 2 ^ (w - 1)) as E
    by (rewrite <- Z.pow_succ_r by lia; f_equal; lia).
  unfold float_code, is_u. destruct (Z.ltb_spec v (2 ^ (w - 1))); lia.
Qed.

(** Decoding inverts the transformation on every bit pattern. *)
Lemma float_uncode_spec w v :
  0 < w -> is_u w v ->
  let c := float_code w v in
  (if negb (Z.shiftr c (w - 1) =? 0) then Z.lxor c (2 ^ (w - 1)) else wrap w (Z.lnot c)) = v.
Proof.
  intros Hw Hv c. pose proof (float_code_range w v Hw Hv) as Hc. fold c in Hc.
  pose proof Hv as [Hv1 Hv2].
  assert (2 ^ w = 2 * 2 ^ (w - 1)) as E
    by (rewrite <- Z.pow_succ_r by lia; f_equal; lia).
  rewrite Z.shiftr_div_pow2 by lia. subst c. unfold float_code in *.
  destruct (Z.ltb_spec v (2 ^ (w - 1))).
  - assert ((v + 2 ^ (w - 1)) / 2 ^ (w - 1) = 1) as -> by (symmetry; apply Z.div_unique with (r := v); lia).
    simpl. rewrite <- lxor_sign_bit by (unfold is_s; lia).
    rewrite Z.lxor_assoc, Z.lxor_nilpotent, Z.lxor_0_r. by apply wrap_small.
  - rewrite Z.div_small by lia. simpl. rewrite wrap_lnot by (unfold is_u; lia). lia.
Qed.

Lemma AppendDoubleToKey_be v desc dest :
  is_u 64 v ->
  AppendDoubleToKey v desc dest =
  dest ++ be_bytes 8 (if desc then 2 ^ 64 - 1 - float_code 64 v else float_code 64 v).
Proof.
  intros Hv. unfold AppendDoubleToKey, kInt64SignBitFlipMask, u64.
  change 0x8000000000000000 with (2 ^ (64 - 1)). change 63 with (64 - 1).
  rewrite float_code_spec by done. pose proof (float_code_range 64 v ltac:(done) Hv).
  destruct desc; [|done]. by rewrite wrap_lnot.
Qed.

Lemma AppendFloatToKey_be v desc dest :
  is_u 32 v ->
  AppendFloatToKey v desc dest =
  dest ++ be_bytes 4 (if desc then 2 ^ 32 - 1 - float_code 32 v else float_code 32 v).
Proof.
  intros Hv. unfold AppendFloatToKey, kInt32SignBitFlipMask, u32.
  change 0x80000000 with (2 ^ (32 - 1)). change 31 with (32 - 1).
  rewrite float_code_spec by done. pose proof (float_code_range 32 v ltac:(done) Hv).
  destruct desc; [|done]. by rewrite wrap_lnot.
Qed.

Lemma double_key_roundtrip v desc rest :
  is_u 64 v -> DecodeDoubleFromKey (AppendDoubleToKey v desc [] ++ rest) desc = v.
Proof.
  intros Hv. rewrite AppendDoubleToKey_be by done. unfold DecodeDoubleFromKey, Load64.
  pose proof (float_code_range 64 v ltac:(done) Hv) as Hc. cbn [app].
  rewrite be_value_take by (unfold is_u in *; destruct desc; lia).
  pose proof (float_uncode_spec 64 v ltac:(done) Hv) as Hu. cbv zeta in Hu.
  change (64 - 1) with 63 in Hu. unfold kInt64SignBitFlipMask, u64.
  destruct desc; [|exact Hu].
  rewrite wrap_lnot by (unfold is_u in *; lia).
  replace (2 ^ 64 - 1 - (2 ^ 64 - 1 - float_code 64 v)) with (float_code 64 v) by lia.
  exact Hu.
Qed.

Lemma float_key_roundtrip v desc rest :
  is_u 32 v -> DecodeFloatFromKey (AppendFloatToKey v desc [] ++ rest) desc = v.
Proof.
  intros Hv. rewrite AppendFloatToKey_be by done. unfold DecodeFloatFromKey, Load32.
  pose proof (float_code_range 32 v ltac:(done) Hv) as Hc. cbn [app].
  rewrite be_value_take by (unfold is_u in *; destruct desc; lia).
  pose proof (float_uncode_spec 32 v ltac:(done) Hv) as Hu. cbv zeta in Hu.
  change (32 - 1) with 31 in Hu. unfold kInt32SignBitFlipMask, u32.
  destruct desc; [|exact Hu].
  rewrite wrap_lnot by (unfold is_u in *; lia).
  replace (2 ^ 32 - 1 - (2 ^ 32 - 1 - float_code 32 v)) with (float_code 32 v) by lia.
  exact Hu.
Qed.

(** ** Strings as key components *)

#[export] Instance zero_str_codec :
  KeyCodec bytes_ok bytes_compare (λ s, ZeroEncodeAndAppendStrToKey s [])
    (λ p, DecodeZeroEncodedStr p []).
Proof.
  split.
  - intros s Hs. rewrite ZeroEncodeAndAppendStrToKey_escape by done.
    cbn [app]. apply Forall_app; split; [apply escape_str_ok; auto | by repeat constructor].
  - intros s rest Hs _. rewrite ZeroEncodeAndAppendStrToKey_escape by done.
    cbn [app]. rewrite <- app_assoc. apply (decode_escape_str 0 s rest []); auto.
  - intros s1 s2 r1 r2 H1 H2 Hne. rewrite !ZeroEncodeAndAppendStrToKey_escape by done.
    cbn [app]. rewrite <- !app_assoc. by apply compare_escape_zero.
Qed.

#[export] Instance complement_str_codec :
  KeyCodec bytes_ok (λ a b, bytes_compare b a)
    (λ s, ComplementZeroEncodeAndAppendStrToKey s [])
    (λ p, DecodeComplementZeroEncodedStr p []).
Proof.
  split.
  - intros s Hs. rewrite ComplementZeroEncodeAndAppendStrToKey_escape by done.
    cbn [app]. apply Forall_app; split; [apply escape_str_ok; auto | by repeat constructor].
  - intros s rest Hs _. rewrite ComplementZeroEncodeAndAppendStrToKey_escape by done.
    cbn [app]. rewrite <- app_assoc. apply (decode_escape_str 255 s rest []); auto.
  - intros s1 s2 r1 r2 H1 H2 Hne. rewrite !ComplementZeroEncodeAndAppendStrToKey_escape by done.
    cbn [app]. rewrite <- !app_assoc. by apply compare_escape_complement.
Qed.

(** ** Properties *)

(** The zero-escaped form of a string decodes to the string and leaves
    what follows it; two different strings compare bytewise like their escaped
    forms, whatever follows either; and decoding exactly the escaped form never
    reaches the fatal branches. *)
Theorem zero_encoded_str_correct s1 s2 r1 r2 :
  bytes_ok s1 -> bytes_ok s2 -> s1 ≠ s2 ->
  DecodeZeroEncodedStr (ZeroEncodeStr s1 ++ r1) [] = Ok (s1, r1) /\
  bytes_compare (ZeroEncodeStr s1 ++ r1) (ZeroEncodeStr s2 ++ r2) = bytes_compare s1 s2 /\
  DecodeZeroEncodedStr_whole (ZeroEncodeStr s1) = Done s1.
Proof.
  intros H1 H2 Hne.
  assert (∀ r, DecodeZeroEncodedStr (ZeroEncodeStr s1 ++ r) [] = Ok (s1, r)) as R.
  { intros r. unfold ZeroEncodeStr. rewrite ZeroEncodeAndAppendStrToKey_escape by done.
    cbn [app]. rewrite <- app_assoc. apply (decode_escape_str 0 s1 r []); auto. }
  split; [apply R|]. split.
  - by apply (kc_order (KeyCodec:=zero_str_codec)).
  - unfold DecodeZeroEncodedStr_whole. specialize (R []). rewrite app_nil_r in R. by rewrite R.
Qed.

Lemma zero_encoded_str_correct_witness :
  bytes_compare (ZeroEncodeStr [97; 0] ++ [255]) (ZeroEncodeStr [97] ++ [7]) = Gt.
Proof.
  apply (zero_encoded_str_correct [97; 0] [97] [255] [7]);
    [repeat constructor; vm_compute; intuition discriminate
    | repeat constructor; vm_compute; intuition discriminate | discriminate].
Defined.

(** The complemented form used for descending columns round-trips and
    sorts in the opposite order of the strings. *)
Theorem complement_encoded_str_correct s1 s2 r1 r2 :
  bytes_ok s1 -> bytes_ok s2 -> s1 ≠ s2 ->
  DecodeComplementZeroEncodedStr (ComplementZeroEncodeAndAppendStrToKey s1 [] ++ r1) []
    = Ok (s1, r1) /\
  bytes_compare (ComplementZeroEncodeAndAppendStrToKey s1 [] ++ r1)
                (ComplementZeroEncodeAndAppendStrToKey s2 [] ++ r2) = bytes_compare s2 s1.
Proof.
  intros H1 H2 Hne. split.
  - rewrite ComplementZeroEncodeAndAppendStrToKey_escape by done.
    cbn [app]. rewrite <- app_assoc. apply (decode_escape_str 255 s1 r1 []); auto.
  - by apply (kc_order (KeyCodec:=complement_str_codec)).
Qed.

Lemma complement_encoded_str_correct_witness :
  bytes_compare (ComplementZeroEncodeAndAppendStrToKey [97; 0] [] ++ [255])
                (ComplementZeroEncodeAndAppendStrToKey [97] [] ++ [7]) = Lt.
Proof.
  apply (complement_encoded_str_correct [97; 0] [97] [255] [7]);
    [repeat constructor; vm_compute; intuition discriminate
    | repeat constructor; vm_compute; intuition discriminate | discriminate].
Defined.
