(* ===== verification/HybridTime.v ===== *)
(** * Hybrid times ([src/yb/common/hybrid_time.h], [hybrid_time.cc])

    A [HybridTime] is one [uint64_t]: microseconds shifted left by 12 bits plus
    a logical component.  It is modelled as that number; arithmetic wraps at
    64 bits as in the code. *)

From S2P Require Import Prelude.
Local Open Scope Z_scope.

Abbreviation HybridTime := Z.

Definition kMinHybridTimeValue : Z := 0.
Definition kMaxHybridTimeValue : Z := 2 ^ 64 - 1.
Definition kInitialHybridTimeValue : Z := kMinHybridTimeValue + 1.
Definition kInvalidHybridTimeValue : Z := kMaxHybridTimeValue - 1.

Definition kBitsForLogicalComponent : Z := 12.
Definition kLogicalBitMask : Z := Z.shiftl 1 kBitsForLogicalComponent - 1.

Definition kMin : HybridTime := kMinHybridTimeValue.
Definition kMax : HybridTime := kMaxHybridTimeValue.
Definition kInitial : HybridTime := kInitialHybridTimeValue.
Definition kInvalid : HybridTime := kInvalidHybridTimeValue.

(** [HybridTime(MicrosTime micros, LogicalTimeComponent logical_value)] *)
Definition FromMicrosecondsAndLogicalValue (micros logical_value : Z) : HybridTime :=
  u64 (u64 (Z.shiftl micros kBitsForLogicalComponent) + logical_value).

Definition FromMicros (micros : Z) : HybridTime := FromMicrosecondsAndLogicalValue micros 0.

Definition Decremented (v : HybridTime) : HybridTime := if v =? 0 then v else v - 1.

Definition Incremented (v : HybridTime) : HybridTime :=
  if kInvalidHybridTimeValue <=? v then v else v + 1.

Definition is_special (v : HybridTime) : bool :=
  (v =? kMinHybridTimeValue) || (v =? kMaxHybridTimeValue) || (v =? kInvalidHybridTimeValue).

Definition AddMicroseconds (v : HybridTime) (micros : Z) : HybridTime :=
  if is_special v then v else u64 (v + u64 (Z.shiftl micros kBitsForLogicalComponent)).

Definition kMicrosecondsPerMillisecond : Z := 1000.

Definition AddMilliseconds (v : HybridTime) (millis : Z) : HybridTime :=
  AddMicroseconds v (u64 (millis * kMicrosecondsPerMillisecond)).

Definition GetPhysicalValueMicros (v : HybridTime) : Z := Z.shiftr v kBitsForLogicalComponent.

Definition PhysicalDiff (v other : HybridTime) : Z :=
  s64 (u64 (GetPhysicalValueMicros v - GetPhysicalValueMicros other)).

Definition GetLogicalValue (v : HybridTime) : Z := u32 (Z.land v kLogicalBitMask).

Definition is_valid (v : HybridTime) : bool := negb (v =? kInvalidHybridTimeValue).

Definition MakeAtLeast (v rhs : HybridTime) : HybridTime :=
  if is_valid rhs then (if is_valid v then Z.max v rhs else rhs) else v.

Definition MakeAtMost (v rhs : HybridTime) : HybridTime :=
  if is_valid rhs then (if is_valid v then Z.min v rhs else rhs) else v.

Definition kMaxHybridTimePhysicalMicros : Z :=
  Z.shiftr kMaxHybridTimeValue kBitsForLogicalComponent.

Definition CompareTo (v other : HybridTime) : Z :=
  if v <? other then -1 else if v >? other then 1 else 0.

(** ** Lemmas *)

Abbreviation ht_ok := (is_u 64).

Lemma GetPhysicalValueMicros_div v : GetPhysicalValueMicros v = v / 4096.
Proof.
  unfold GetPhysicalValueMicros, kBitsForLogicalComponent. by rewrite Z.shiftr_div_pow2.
Qed.

Lemma GetLogicalValue_mod v : GetLogicalValue v = v mod 4096.
Proof.
  unfold GetLogicalValue, kLogicalBitMask, kBitsForLogicalComponent.
  change (Z.shiftl 1 12 - 1) with (2 ^ 12 - 1). rewrite land_mask by lia.
  change (2 ^ 12) with 4096. apply wrap_small.
  pose proof (Z.mod_pos_bound v 4096). unfold is_u. lia.
Qed.

Lemma FromMicrosecondsAndLogicalValue_small micros logical :
  0 <= micros < 2 ^ 52 -> 0 <= logical < 4096 ->
  FromMicrosecondsAndLogicalValue micros logical = micros * 4096 + logical.
Proof.
  intros Hm Hl. unfold FromMicrosecondsAndLogicalValue, kBitsForLogicalComponent, u64.
  rewrite Z.shiftl_mul_pow2 by lia. change (2 ^ 12) with 4096.
  rewrite (wrap_small 64 (micros * 4096)) by (unfold is_u; lia).
  apply wrap_small. unfold is_u. lia.
Qed.

Lemma ht_split v :
  ht_ok v -> v = GetPhysicalValueMicros v * 4096 + GetLogicalValue v /\
  0 <= GetPhysicalValueMicros v < 2 ^ 52 /\ 0 <= GetLogicalValue v < 4096.
Proof.
  intros [H1 H2]. rewrite GetPhysicalValueMicros_div, GetLogicalValue_mod.
  Z.div_mod_to_equations; lia.
Qed.

Lemma FromMicrosecondsAndLogicalValue_split v :
  ht_ok v ->
  FromMicrosecondsAndLogicalValue (GetPhysicalValueMicros v) (GetLogicalValue v) = v.
Proof.
  intros Hv. destruct (ht_split v Hv) as (E & Hp & Hl).
  by rewrite FromMicrosecondsAndLogicalValue_small.
Qed.
