(* ===== verification/DocHybridTime.v ===== *)
(** * Hybrid times inside keys ([src/yb/common/doc_hybrid_time.cc],
    [doc_hybrid_time.h])

    Every DocDB key ends with a [DocHybridTime]: generation, physical time
    relative to the YugaByte epoch, logical time and write id, as descending
    varints, with the encoded size in the low five bits of the last byte so
    that it can also be decoded from the end. *)

From S2P Require Import Prelude FastVarInt HybridTime.
Local Open Scope Z_scope.

Definition kMaxWriteId : Z := 2 ^ 32 - 1.
Definition kMaxBytesPerEncodedHybridTime : Z := 30.
Definition kYugaByteMicrosecondEpoch : Z := 1500000000 * 1000000.
Definition kNumBitsForHybridTimeSize : Z := 5.
Definition kHybridTimeSizeMask : Z := Z.shiftl 1 kNumBitsForHybridTimeSize - 1.

Record DocHybridTime : Type := mkDocHybridTime {
  hybrid_time : HybridTime;
  write_id : Z
}.

#[export] Instance DocHybridTime_eq_dec : EqDecision DocHybridTime.
Proof. solve_decision. Defined.

Definition CompareUsingLessThan (a b : Z) : Z :=
  if a <? b then -1 else if b <? a then 1 else 0.

Definition CompareTo (t other : DocHybridTime) : Z :=
  let ht_cmp := HybridTime.CompareTo (hybrid_time t) (hybrid_time other) in
  if negb (ht_cmp =? 0) then ht_cmp
  else CompareUsingLessThan (write_id t) (write_id other).

(** [out[-1] = f(out[-1])] *)
Definition update_last (f : Z -> Z) (out : bytes) : bytes :=
  take (length out - 1) out ++ [f (default 0 (last out))].

Definition EncodedInDocDbFormat (t : DocHybridTime) : bytes :=
  let out := FastEncodeDescendingSignedVarInt 0 [] in
  let out := FastEncodeDescendingSignedVarInt
    (s64 (u64 (GetPhysicalValueMicros (hybrid_time t) - kYugaByteMicrosecondEpoch))) out in
  let out := FastEncodeDescendingSignedVarInt (GetLogicalValue (hybrid_time t)) out in
  let out := FastEncodeDescendingSignedVarInt
    (Z.shiftl (write_id t + 1) kNumBitsForHybridTimeSize) out in
  let encoded_size := u8 (Z.of_nat (length out)) in
  update_last (λ last_byte,
    u8 (Z.lor (Z.land last_byte (Z.lnot kHybridTimeSizeMask)) encoded_size)) out.

Definition AppendEncodedInDocDbFormat (t : DocHybridTime) (dest : bytes) : bytes :=
  dest ++ EncodedInDocDbFormat t.

Definition DecodeFrom (slice : bytes) : Result (DocHybridTime * bytes) :=
  let previous_size := length slice in
  '(_, s) ← FastDecodeDescendingSignedVarInt slice;
  '(micros, s) ← FastDecodeDescendingSignedVarInt s;
  let decoded_micros := s64 (kYugaByteMicrosecondEpoch + micros) in
  '(decoded_logical, s) ← FastDecodeDescendingSignedVarInt s;
  let ht := FromMicrosecondsAndLogicalValue (u64 decoded_micros) (u32 decoded_logical) in
  '(decoded_shifted_write_id, s) ← FastDecodeDescendingSignedVarInt s;
  if decoded_shifted_write_id <? 0 then Error Corruption
  else
    let wid := u32 (Z.shiftr decoded_shifted_write_id kNumBitsForHybridTimeSize - 1) in
    let bytes_decoded := (previous_size - length s)%nat in
    let size_at_the_end :=
      Z.land (default 0 (slice !! (bytes_decoded - 1)%nat)) kHybridTimeSizeMask in
    if negb (size_at_the_end =? Z.of_nat bytes_decoded) then Error Corruption
    else Ok (mkDocHybridTime ht wid, s).

Definition FullyDecodeFrom (encoded : bytes) : Result DocHybridTime :=
  '(t, s) ← DecodeFrom encoded;
  if decide (s = []) then Ok t else Error Corruption.

Definition GetEncodedSize (encoded_key : bytes) : Z :=
  if decide (encoded_key = []) then 0
  else Z.land (default 0 (last encoded_key)) kHybridTimeSizeMask.

Definition CheckEncodedSize (encoded_ht_size encoded_key_size : Z) : Result unit :=
  if encoded_key_size =? 0 then Error RuntimeError
  else if negb (1 <=? encoded_ht_size) then Error Corruption
  else if negb (encoded_ht_size <=? kMaxBytesPerEncodedHybridTime) then Error Corruption
  else if negb (encoded_ht_size <? encoded_key_size) then Error Corruption
  else Ok tt.

Definition CheckAndGetEncodedSize (encoded_key : bytes) : Result Z :=
  let encoded_ht_size := GetEncodedSize encoded_key in
  _ ← CheckEncodedSize encoded_ht_size (Z.of_nat (length encoded_key));
  Ok encoded_ht_size.

(** Returns the time and the key without it. *)
Definition DecodeFromEnd (encoded_key_with_ht_at_end : bytes) : Result (DocHybridTime * bytes) :=
  encoded_size ← CheckAndGetEncodedSize encoded_key_with_ht_at_end;
  let k := (length encoded_key_with_ht_at_end - Z.to_nat encoded_size)%nat in
  result ← FullyDecodeFrom (drop k encoded_key_with_ht_at_end);
  Ok (result, take k encoded_key_with_ht_at_end).

(** ** Lemmas *)

#[global] Arguments EncodedInDocDbFormat : simpl never.
#[global] Arguments DecodeFrom : simpl never.

Definition dht_ok (t : DocHybridTime) : Prop := ht_ok (hybrid_time t) /\ is_u 32 (write_id t).

(** Clearing the low five one bits of the last byte and storing [sz] there
    subtracts [31 - sz] from the number. *)
Lemma update_last_be n X sz :
  0 <= X -> X mod 32 = 31 -> 0 <= sz < 32 ->
  update_last (λ b, u8 (Z.lor (Z.land b (Z.lnot kHybridTimeSizeMask)) sz)) (be_bytes (S n) X)
  = be_bytes (S n) (X - 31 + sz).
Proof.
  intros HX0 HX Hsz.
  assert (∀ Y, be_bytes (S n) Y = be_bytes n (Y / 256) ++ [Y mod 256]) as E.
  { intros Y. replace (S n) with (n + 1)%nat by lia. rewrite be_bytes_app.
    change (8 * Z.of_nat 1) with 8. rewrite Z.shiftr_div_pow2 by lia. simpl.
    change (8 * 0) with 0. by rewrite Z.shiftr_0_r. }
  unfold update_last. rewrite (E X), last_snoc, length_app, be_bytes_length. simpl length.
  replace (n + 1 - 1)%nat with n by lia.
  rewrite take_app_length' by (by rewrite be_bytes_length). rewrite (E (X - 31 + sz)).
  assert (X - 31 + sz = 32 * (X / 32) + sz) as EX by (Z.div_mod_to_equations; lia).
  f_equal.
  - f_equal. Z.div_mod_to_equations; lia.
  - f_equal. simpl. unfold kHybridTimeSizeMask, kNumBitsForHybridTimeSize.
    change (Z.shiftl 1 5 - 1) with (2 ^ 5 - 1).
    assert (Z.land (X mod 256) (Z.lnot (2 ^ 5 - 1)) = (X mod 256 / 2 ^ 5) * 2 ^ 5) as ->.
    { change (2 ^ 5 - 1) with (Z.ones 5). rewrite <- Z.ldiff_land, Z.ldiff_ones_r by lia.
      by rewrite Z.shiftl_mul_pow2, Z.shiftr_div_pow2 by lia. }
    rewrite lor_add_disjoint by lia. unfold u8, wrap. change (2 ^ 5) with 32.
    change (2 ^ 8) with 256. Z.div_mod_to_equations; lia.
Qed.

Lemma varint_len_unique v n :
  is_s 64 v -> 1 <= n -> Z.abs v < 2 ^ (7 * n - 1) -> (1 < n -> 2 ^ (7 * n - 8) <= Z.abs v) ->
  varint_len v = n.
Proof.
  intros Hv Hn Hlt Hge. destruct (varint_len_spec v Hv) as (Hm & Hlt' & Hge').
  destruct (Z.lt_trichotomy (varint_len v) n) as [H|[H|H]]; [|done|].
  - specialize (Hge ltac:(lia)).
    pose proof (Z.pow_le_mono_r 2 (7 * varint_len v - 1) (7 * n - 8)). lia.
  - specialize (Hge' ltac:(lia)).
    pose proof (Z.pow_le_mono_r 2 (7 * n - 1) (7 * varint_len v - 8)). lia.
Qed.

(** The write-id varint with the size stored in its low bits is itself a
    varint: that of [-(32 (w + 1) + 31 - size)]. *)
Lemma write_id_varint w sz :
  0 <= w < 2 ^ 32 -> 0 <= sz < 32 ->
  ∃ n, varint_len (- (32 * (w + 1))) = Z.of_nat (S n) /\
  varint_len (- (32 * (w + 1) + (31 - sz))) = Z.of_nat (S n) /\
  update_last (λ b, u8 (Z.lor (Z.land b (Z.lnot kHybridTimeSizeMask)) sz))
    (FastEncodeSignedVarInt (- (32 * (w + 1)))) =
  FastEncodeSignedVarInt (- (32 * (w + 1) + (31 - sz))).
Proof.
  intros Hw Hsz. assert (is_s 64 (- (32 * (w + 1)))) as H1 by (unfold is_s; lia).
  assert (is_s 64 (- (32 * (w + 1) + (31 - sz)))) as H2 by (unfold is_s; lia).
  destruct (varint_len_spec _ H1) as (Hn & Hlt & Hge).
  set (n := varint_len (- (32 * (w + 1)))) in *.
  assert (varint_len (- (32 * (w + 1) + (31 - sz))) = n) as En.
  { apply varint_len_unique; [done | lia | |].
    - assert (2 ^ (7 * n - 1) = 32 * 2 ^ (7 * n - 6)) as E
        by (change 32 with (2 ^ 5) at 1; rewrite <- Z.pow_add_r by lia; f_equal; lia).
      lia.
    - intros H. specialize (Hge H). lia. }
  exists (Z.to_nat (n - 1)). replace (Z.of_nat (S (Z.to_nat (n - 1)))) with n by lia.
  split; [done|]. split; [done|].
  rewrite !FastEncodeSignedVarInt_code by done. fold n. rewrite En.
  replace (Z.to_nat n) with (S (Z.to_nat (n - 1))) by lia.
  pose proof (varint_code_range _ H1) as [HX _]. fold n in HX.
  unfold varint_code in *.
  destruct (Z.ltb_spec (- (32 * (w + 1))) 0); [|lia].
  destruct (Z.ltb_spec (- (32 * (w + 1) + (31 - sz))) 0); [|lia].
  rewrite update_last_be; [f_equal; lia | lia | | done].
  assert (2 ^ (7 * n) = 32 * 2 ^ (7 * n - 5)) as E
    by (change 32 with (2 ^ 5) at 1; rewrite <- Z.pow_add_r by lia; f_equal; lia).
  rewrite E. replace (Z.abs _) with (32 * (w + 1)) by lia.
  Z.div_mod_to_equations; lia.
Qed.

Lemma varint_len_le v k :
  is_s 64 v -> 1 <= k -> Z.abs v < 2 ^ (7 * k - 1) -> varint_len v <= k.
Proof.
  intros Hv Hk Hlt. destruct (varint_len_spec v Hv) as (Hm & _ & Hge).
  destruct (decide (varint_len v <= k)); [done|]. specialize (Hge ltac:(lia)).
  pose proof (Z.pow_le_mono_r 2 (7 * k - 1) (7 * varint_len v - 8)). lia.
Qed.

Lemma update_last_app f p l : l ≠ [] -> update_last f (p ++ l) = p ++ update_last f l.
Proof.
  intros Hl. unfold update_last. rewrite last_app.
  destruct (last l) as [x|] eqn:E; [|by apply last_None in E].
  rewrite length_app, take_app_ge by (destruct l; simpl; [done|lia]).
  rewrite <- app_assoc. do 3 f_equal. destruct l; [done|simpl; lia].
Qed.

(** The three leading fields, as signed varints. *)
Definition dht_micros (t : DocHybridTime) : Z :=
  GetPhysicalValueMicros (hybrid_time t) - kYugaByteMicrosecondEpoch.

Definition dht_prefix (t : DocHybridTime) : bytes :=
  FastEncodeSignedVarInt 0 ++ FastEncodeSignedVarInt (- dht_micros t) ++
  FastEncodeSignedVarInt (- GetLogicalValue (hybrid_time t)).

Definition dht_size (t : DocHybridTime) : Z :=
  1 + varint_len (- dht_micros t) + varint_len (- GetLogicalValue (hybrid_time t)) +
  varint_len (- (32 * (write_id t + 1))).

Lemma dht_fields t :
  dht_ok t ->
  0 <= GetPhysicalValueMicros (hybrid_time t) < 2 ^ 52 /\
  0 <= GetLogicalValue (hybrid_time t) < 4096 /\ 0 <= write_id t < 2 ^ 32 /\
  is_s 64 (- dht_micros t) /\ is_s 64 (- GetLogicalValue (hybrid_time t)) /\
  is_s 64 (- (32 * (write_id t + 1))).
Proof.
  intros [Hht Hw]. destruct (ht_split _ Hht) as (_ & Hp & Hl).
  unfold dht_micros, kYugaByteMicrosecondEpoch, is_s, is_u in *. lia.
Qed.

Lemma dht_size_range t : dht_ok t -> 4 <= dht_size t <= 17.
Proof.
  intros Ht. destruct (dht_fields t Ht) as (Hp & Hl & Hw & H1 & H2 & H3).
  unfold dht_size. destruct (varint_len_spec _ H1) as (? & _).
  destruct (varint_len_spec _ H2) as (? & _). destruct (varint_len_spec _ H3) as (? & _).
  assert (varint_len (- dht_micros t) <= 8).
  { apply varint_len_le; [done|lia|].
    unfold dht_micros, kYugaByteMicrosecondEpoch in *. cbn. lia. }
  assert (varint_len (- GetLogicalValue (hybrid_time t)) <= 2).
  { apply varint_len_le; [done|lia|]. cbn. lia. }
  assert (varint_len (- (32 * (write_id t + 1))) <= 6).
  { apply varint_len_le; [done|lia|]. cbn. lia. }
  lia.
Qed.

Lemma dht_prefix_length t :
  dht_ok t ->
  Z.of_nat (length (dht_prefix t)) =
  1 + varint_len (- dht_micros t) + varint_len (- GetLogicalValue (hybrid_time t)).
Proof.
  intros Ht. destruct (dht_fields t Ht) as (_ & _ & _ & H1 & H2 & _).
  destruct (varint_len_spec _ H1) as (? & _). destruct (varint_len_spec _ H2) as (? & _).
  unfold dht_prefix. rewrite !length_app, !FastEncodeSignedVarInt_length by done.
  change (Z.to_nat (varint_len 0)) with 1%nat. lia.
Qed.

(** The write-id field, with the size in its low bits. *)
Definition dht_tail (t : DocHybridTime) : Z := 32 * (write_id t + 1) + (31 - dht_size t).

Lemma EncodedInDocDbFormat_fields t :
  dht_ok t ->
  EncodedInDocDbFormat t = dht_prefix t ++ FastEncodeSignedVarInt (- dht_tail t).
Proof.
  intros Ht. destruct (dht_fields t Ht) as (Hp & Hl & Hw & H1 & H2 & H3).
  pose proof (dht_size_range t Ht) as Hsz.
  unfold EncodedInDocDbFormat, FastEncodeDescendingSignedVarInt.
  assert (s64 (u64 (GetPhysicalValueMicros (hybrid_time t) - kYugaByteMicrosecondEpoch))
          = dht_micros t) as ->.
  { unfold s64, u64. rewrite signed_wrap by done. apply signed_small; [done|].
    unfold dht_micros, is_s, kYugaByteMicrosecondEpoch in *. lia. }
  unfold kNumBitsForHybridTimeSize. rewrite Z.shiftl_mul_pow2 by lia.
  replace ((write_id t + 1) * 2 ^ 5) with (32 * (write_id t + 1)) by lia.
  unfold s64. rewrite !(signed_small 64) by (done || lia).
  rewrite app_nil_l, <- !app_assoc.
  replace (FastEncodeSignedVarInt (- 0)) with (FastEncodeSignedVarInt 0) by done.
  rewrite (app_assoc _ _ (_ ++ FastEncodeSignedVarInt (- (32 * _)))).
  rewrite (app_assoc _ (FastEncodeSignedVarInt (- GetLogicalValue _))).
  rewrite <- (app_assoc (FastEncodeSignedVarInt 0)). fold (dht_prefix t).
  assert (Z.of_nat (length (dht_prefix t ++ FastEncodeSignedVarInt (- (32 * (write_id t + 1)))))
          = dht_size t) as Elen.
  { rewrite length_app, Nat2Z.inj_add, dht_prefix_length by done.
    rewrite FastEncodeSignedVarInt_length by done.
    destruct (varint_len_spec _ H3) as (? & _). unfold dht_size. lia. }
  rewrite Elen. unfold u8 at 2. rewrite (wrap_small 8 (dht_size t)) by (unfold is_u; lia).
  destruct (write_id_varint (write_id t) (dht_size t)) as (n & En & _ & Eupd); [lia|lia|].
  rewrite update_last_app, Eupd; [done|].
  intros Hnil. apply (f_equal length) in Hnil.
  rewrite FastEncodeSignedVarInt_length, En in Hnil by done. simpl in Hnil. lia.
Qed.

Lemma dht_tail_range t :
  dht_ok t -> is_s 64 (- dht_tail t) /\ 0 < dht_tail t /\
  varint_len (- dht_tail t) = varint_len (- (32 * (write_id t + 1))) /\
  dht_tail t / 32 = write_id t + 1.
Proof.
  intros Ht. destruct (dht_fields t Ht) as (Hp & Hl & Hw & H1 & H2 & H3).
  pose proof (dht_size_range t Ht) as Hsz. unfold dht_tail.
  destruct (write_id_varint (write_id t) (dht_size t)) as (n & En & En' & _); [lia|lia|].
  repeat split; [unfold is_s; lia | unfold is_s; lia | lia | congruence |].
  Z.div_mod_to_equations; lia.
Qed.

Lemma dht_encoded_length t :
  dht_ok t -> Z.of_nat (length (EncodedInDocDbFormat t)) = dht_size t.
Proof.
  intros Ht. rewrite EncodedInDocDbFormat_fields by done.
  destruct (dht_tail_range t Ht) as (Hs & _ & El & _).
  rewrite length_app, Nat2Z.inj_add, dht_prefix_length by done.
  rewrite FastEncodeSignedVarInt_length, El by done.
  destruct (dht_fields t Ht) as (_ & _ & _ & _ & _ & H3).
  destruct (varint_len_spec _ H3) as (? & _). unfold dht_size. lia.
Qed.

Lemma dht_prefix_ok t : dht_ok t -> bytes_ok (dht_prefix t).
Proof.
  intros Ht. destruct (dht_fields t Ht) as (_ & _ & _ & H1 & H2 & _).
  assert (is_s 64 0) by (unfold is_s; lia).
  unfold dht_prefix. rewrite !Forall_app. auto using FastEncodeSignedVarInt_ok.
Qed.

Lemma dht_encoded_ok t : dht_ok t -> bytes_ok (EncodedInDocDbFormat t).
Proof.
  intros Ht. rewrite EncodedInDocDbFormat_fields by done.
  destruct (dht_tail_range t Ht) as (Hs & _).
  apply Forall_app. auto using dht_prefix_ok, FastEncodeSignedVarInt_ok.
Qed.

(** The last byte carries the encoded size. *)
Lemma dht_last_byte t :
  dht_ok t ->
  ∃ b, last (EncodedInDocDbFormat t) = Some b /\ Z.land b kHybridTimeSizeMask = dht_size t.
Proof.
  intros Ht. rewrite EncodedInDocDbFormat_fields by done.
  destruct (dht_tail_range t Ht) as (Hs & Hpos & El & _).
  pose proof (dht_size_range t Ht) as Hsz. destruct (varint_len_spec _ Hs) as (Hn & _).
  rewrite FastEncodeSignedVarInt_code by done.
  replace (Z.to_nat (varint_len (- dht_tail t)))
    with (Z.to_nat (varint_len (- dht_tail t) - 1) + 1)%nat by lia.
  rewrite be_bytes_app, app_assoc. simpl (be_bytes 1 _). rewrite last_snoc.
  eexists. split; [done|]. unfold kHybridTimeSizeMask, kNumBitsForHybridTimeSize.
  change (Z.shiftl 1 5 - 1) with (2 ^ 5 - 1). rewrite land_mask by lia.
  change (8 * 0) with 0. rewrite Z.shiftr_0_r. unfold varint_code.
  destruct (Z.ltb_spec (- dht_tail t) 0); [|lia].
  replace (Z.abs _) with (dht_tail t) by lia. unfold dht_tail.
  set (n := varint_len _) in *.
  assert (2 ^ (7 * n) = 32 * 2 ^ (7 * n - 5)) as ->
    by (change 32 with (2 ^ 5) at 1; rewrite <- Z.pow_add_r by lia; f_equal; lia).
  unfold u8, wrap. change (2 ^ 8) with 256. change (2 ^ 5) with 32.
  Z.div_mod_to_equations; lia.
Qed.

Lemma descending_decode v rest :
  is_s 64 (- v) -> is_s 64 v -> bytes_ok rest ->
  FastDecodeDescendingSignedVarInt (FastEncodeSignedVarInt (- v) ++ rest) = Ok (v, rest).
Proof.
  intros Hn Hv Hr. rewrite <- (descending_varint_roundtrip v rest); [|done| |done].
  - unfold FastEncodeDescendingSignedVarInt, s64. by rewrite signed_small, app_nil_l.
  - unfold is_s in *. lia.
Qed.

Lemma DecodeFrom_EncodedInDocDbFormat t rest :
  dht_ok t -> bytes_ok rest -> DecodeFrom (EncodedInDocDbFormat t ++ rest) = Ok (t, rest).
Proof.
  intros Ht Hr. destruct (dht_fields t Ht) as (Hp & Hl & Hw & H1 & H2 & H3).
  destruct (dht_tail_range t Ht) as (Hs & Hpos & _ & Ew).
  destruct (dht_last_byte t Ht) as (b & Eb & Emask).
  pose proof (dht_encoded_length t Ht) as Elen. pose proof (dht_size_range t Ht) as Hsz.
  unfold DecodeFrom.
  assert (length (EncodedInDocDbFormat t ++ rest) - length rest
          = length (EncodedInDocDbFormat t))%nat as Econs by (rewrite length_app; lia).
  assert ((EncodedInDocDbFormat t ++ rest) !! (length (EncodedInDocDbFormat t) - 1)%nat
          = Some b) as Elook.
  { rewrite lookup_app_l by lia.
    replace (_ - 1)%nat with (pred (length (EncodedInDocDbFormat t))) by lia.
    by rewrite <- last_lookup. }
  assert (bytes_ok (FastEncodeSignedVarInt (- dht_tail t) ++ rest)) as R1
    by (apply Forall_app; auto using FastEncodeSignedVarInt_ok).
  assert (bytes_ok (FastEncodeSignedVarInt (- GetLogicalValue (hybrid_time t)) ++
            FastEncodeSignedVarInt (- dht_tail t) ++ rest)) as R2
    by (apply Forall_app; auto using FastEncodeSignedVarInt_ok).
  assert (bytes_ok (FastEncodeSignedVarInt (- dht_micros t) ++
            FastEncodeSignedVarInt (- GetLogicalValue (hybrid_time t)) ++
            FastEncodeSignedVarInt (- dht_tail t) ++ rest)) as R3
    by (apply Forall_app; auto using FastEncodeSignedVarInt_ok).
  assert (is_s 64 (dht_micros t)) as H1'
    by (unfold dht_micros, kYugaByteMicrosecondEpoch, is_s; lia).
  assert (is_s 64 (GetLogicalValue (hybrid_time t))) as H2' by (unfold is_s; lia).
  assert (is_s 64 (dht_tail t)) as Hs' by (unfold dht_tail, is_s; lia).
  assert (FastDecodeDescendingSignedVarInt (EncodedInDocDbFormat t ++ rest) = Ok (0,
            FastEncodeSignedVarInt (- dht_micros t) ++
            FastEncodeSignedVarInt (- GetLogicalValue (hybrid_time t)) ++
            FastEncodeSignedVarInt (- dht_tail t) ++ rest)) as ->.
  { rewrite (EncodedInDocDbFormat_fields t Ht). unfold dht_prefix. rewrite <- !app_assoc.
    apply (descending_decode 0); [unfold is_s; lia | unfold is_s; lia | done]. }
  cbn [mbind result_bind].
  rewrite descending_decode by done. cbn [mbind result_bind].
  rewrite descending_decode by done. cbn [mbind result_bind].
  rewrite descending_decode by done. cbn [mbind result_bind].
  destruct (Z.ltb_spec (dht_tail t) 0); [lia|].
  rewrite Econs, Elook. cbn [default from_option id]. rewrite Emask, Elen, Z.eqb_refl. cbn [negb].
  transitivity (Ok (mkDocHybridTime (hybrid_time t) (write_id t), rest)); [|by destruct t].
  do 3 f_equal.
  - unfold dht_micros.
    replace (kYugaByteMicrosecondEpoch + _)
      with (GetPhysicalValueMicros (hybrid_time t)) by lia.
    unfold s64, u64, u32. rewrite signed_small, !wrap_small by (done || (unfold is_s, is_u; lia)).
    apply FromMicrosecondsAndLogicalValue_split, Ht.
  - unfold kNumBitsForHybridTimeSize. rewrite Z.shiftr_div_pow2 by lia.
    change (2 ^ 5) with 32. rewrite Ew. unfold u32. rewrite wrap_small; [lia|unfold is_u; lia].
Qed.

Lemma CheckAndGetEncodedSize_app key t :
  dht_ok t -> key ≠ [] ->
  CheckAndGetEncodedSize (key ++ EncodedInDocDbFormat t) = Ok (dht_size t).
Proof.
  intros Ht Hk. destruct (dht_last_byte t Ht) as (b & Eb & Emask).
  pose proof (dht_encoded_length t Ht) as Elen. pose proof (dht_size_range t Ht) as Hsz.
  assert (0 < length key)%nat by (destruct key; [done|simpl; lia]).
  assert (GetEncodedSize (key ++ EncodedInDocDbFormat t) = dht_size t) as Eg.
  { unfold GetEncodedSize. rewrite decide_False.
    - by rewrite last_app, Eb.
    - intros [? ?]%app_nil. done. }
  unfold CheckAndGetEncodedSize, CheckEncodedSize. rewrite Eg, length_app, Nat2Z.inj_add, Elen.
  unfold kMaxBytesPerEncodedHybridTime.
  destruct (Z.eqb_spec (Z.of_nat (length key) + dht_size t) 0); [lia|].
  destruct (Z.leb_spec 1 (dht_size t)); [|lia].
  destruct (Z.leb_spec (dht_size t) 30); [|lia].
  destruct (Z.ltb_spec (dht_size t) (Z.of_nat (length key) + dht_size t)); [|lia]. done.
Qed.

Lemma DecodeFromEnd_EncodedInDocDbFormat t key :
  dht_ok t -> key ≠ [] ->
  DecodeFromEnd (key ++ EncodedInDocDbFormat t) = Ok (t, key).
Proof.
  intros Ht Hk. pose proof (dht_encoded_length t Ht) as Elen.
  pose proof (dht_size_range t Ht) as Hsz.
  unfold DecodeFromEnd. rewrite CheckAndGetEncodedSize_app by done.
  cbn [mbind result_bind]. rewrite length_app.
  replace (_ + _ - _)%nat with (length key) by lia.
  rewrite drop_app_length, take_app_length. unfold FullyDecodeFrom.
  rewrite <- (app_nil_r (EncodedInDocDbFormat t)), DecodeFrom_EncodedInDocDbFormat by done.
  done.
Qed.

Lemma FullyDecodeFrom_EncodedInDocDbFormat t :
  dht_ok t -> FullyDecodeFrom (EncodedInDocDbFormat t) = Ok t.
Proof.
  intros Ht. unfold FullyDecodeFrom.
  rewrite <- (app_nil_r (EncodedInDocDbFormat t)), DecodeFrom_EncodedInDocDbFormat by done. done.
Qed.

(** The order of times, and that of the four encoded fields. *)
Definition dht_compare (a b : DocHybridTime) : comparison :=
  match hybrid_time a ?= hybrid_time b with
  | Eq => write_id a ?= write_id b
  | c => c
  end.

Lemma CompareTo_spec a b :
  CompareTo a b = match dht_compare a b with Lt => -1 | Eq => 0 | Gt => 1 end.
Proof.
  unfold CompareTo, HybridTime.CompareTo, dht_compare, CompareUsingLessThan.
  repeat (case_match; try done); repeat match goal with
  | H : (_ <? _) = true |- _ => apply Z.ltb_lt in H
  | H : (_ <? _) = false |- _ => apply Z.ltb_ge in H
  | H : (_ ?= _) = Eq |- _ => apply Z.compare_eq in H
  | H : (_ ?= _) = Lt |- _ => apply -> Z.compare_lt_iff in H
  | H : (_ ?= _) = Gt |- _ => apply -> Z.compare_gt_iff in H
  | H : negb _ = true |- _ => apply negb_true_iff in H
  | H : negb _ = false |- _ => apply negb_false_iff in H
  | H : (_ =? _) = true |- _ => apply Z.eqb_eq in H
  | H : (_ =? _) = false |- _ => apply Z.eqb_neq in H
  end; try lia; try done.
Qed.

Lemma dht_order_aux a b r1 r2 :
  dht_ok a -> dht_ok b -> a ≠ b ->
  bytes_compare (EncodedInDocDbFormat a ++ r1) (EncodedInDocDbFormat b ++ r2) =
  CompOpp (dht_compare a b).
Proof.
  intros Ha Hb Hne. rewrite !EncodedInDocDbFormat_fields by done. unfold dht_prefix.
  rewrite <- !app_assoc, bytes_compare_app_l.
  destruct (dht_fields a Ha) as (Hpa & Hla & Hwa & H1a & H2a & _).
  destruct (dht_fields b Hb) as (Hpb & Hlb & Hwb & H1b & H2b & _).
  destruct (dht_tail_range a Ha) as (Hsa & _ & _ & Ea).
  destruct (dht_tail_range b Hb) as (Hsb & _ & _ & Eb).
  destruct (ht_split _ (proj1 Ha)) as (Eha & _). destruct (ht_split _ (proj1 Hb)) as (Ehb & _).
  assert (∀ x y, (- x ?= - y) = CompOpp (x ?= y)) as Eopp
    by (intros; rewrite Z.compare_opp, <- Z.compare_antisym; f_equal; lia).
  unfold dht_compare.
  destruct (decide (dht_micros a = dht_micros b)) as [Em|Em].
  - rewrite Em, bytes_compare_app_l. unfold dht_micros in Em.
    destruct (decide (GetLogicalValue (hybrid_time a) = GetLogicalValue (hybrid_time b))) as [El|El].
    + rewrite El, bytes_compare_app_l.
      assert (hybrid_time a = hybrid_time b) as Eh by lia. rewrite Eh, Z.compare_refl.
      assert (write_id a ≠ write_id b)
        by (intros Ew; apply Hne; destruct a, b; simpl in *; congruence).
      assert (dht_tail a / 32 ≠ dht_tail b / 32) as Hd by lia.
      rewrite signed_varint_compare by (done || (intros ?; apply Hd; f_equal; lia)).
      rewrite Eopp. f_equal.
      pose proof (Z.div_mod (dht_tail a) 32 ltac:(done)).
      pose proof (Z.div_mod (dht_tail b) 32 ltac:(done)).
      pose proof (Z.mod_pos_bound (dht_tail a) 32 ltac:(lia)).
      pose proof (Z.mod_pos_bound (dht_tail b) 32 ltac:(lia)).
      destruct (Z.compare_spec (write_id a) (write_id b)); [done| |];
        [apply Z.compare_lt_iff | apply Z.compare_gt_iff]; lia.
    + rewrite signed_varint_compare by (done || lia). rewrite Eopp. f_equal.
      destruct (Z.compare_spec (hybrid_time a) (hybrid_time b)); [lia| |];
        [apply Z.compare_lt_iff | apply Z.compare_gt_iff]; lia.
  - rewrite signed_varint_compare by (done || lia). rewrite Eopp. f_equal.
    unfold dht_micros in *.
    destruct (Z.compare_spec (hybrid_time a) (hybrid_time b)) as [E| |];
      [rewrite E in *; lia| |];
      [apply Z.compare_lt_iff | apply Z.compare_gt_iff]; lia.
Qed.

(** ** Properties *)

(** A [DocHybridTime] appended to a key is read back from the front of the
    slice by [DecodeFrom], with exactly the rest of the slice left over, and
    from the end of the key by [DecodeFromEnd], which strips exactly the
    encoded time from the (non-empty) key. *)
Theorem doc_hybrid_time_roundtrip (t : DocHybridTime) (key rest : bytes) :
  dht_ok t -> key ≠ [] -> bytes_ok rest ->
  DecodeFrom (EncodedInDocDbFormat t ++ rest) = Ok (t, rest) /\
  DecodeFromEnd (AppendEncodedInDocDbFormat t key) = Ok (t, key).
Proof.
  split; [by apply DecodeFrom_EncodedInDocDbFormat|].
  by apply DecodeFromEnd_EncodedInDocDbFormat.
Qed.

Definition dht_sample : DocHybridTime := mkDocHybridTime (1600000000000000 * 4096 + 7) 3.

Lemma doc_hybrid_time_roundtrip_witness :
  DecodeFrom (EncodedInDocDbFormat dht_sample ++ [1]) = Ok (dht_sample, [1]) /\
  DecodeFromEnd (AppendEncodedInDocDbFormat dht_sample [72]) = Ok (dht_sample, [72]).
Proof.
  apply (doc_hybrid_time_roundtrip dht_sample [72] [1]);
    [vm_compute; intuition discriminate | done | repeat constructor; vm_compute; intuition discriminate].
Defined.

(** C37: encoded times sort in the reverse order of [CompareTo], whatever
    follows them in the key: a forward scan meets the latest write first. *)
Theorem doc_hybrid_time_order (a b : DocHybridTime) (r1 r2 : bytes) :
  dht_ok a -> dht_ok b ->
  (CompareTo a b < 0 ->
   bytes_compare (EncodedInDocDbFormat a ++ r1) (EncodedInDocDbFormat b ++ r2) = Gt) /\
  (CompareTo a b > 0 ->
   bytes_compare (EncodedInDocDbFormat a ++ r1) (EncodedInDocDbFormat b ++ r2) = Lt) /\
  (CompareTo a b = 0 <-> EncodedInDocDbFormat a = EncodedInDocDbFormat b).
Proof.
  intros Ha Hb. rewrite CompareTo_spec.
  destruct (decide (a = b)) as [<-|Hne].
  - unfold dht_compare. rewrite !Z.compare_refl. repeat split; lia || done.
  - pose proof (dht_order_aux a b r1 r2 Ha Hb Hne) as E.
    pose proof (dht_order_aux a b [] [] Ha Hb Hne) as E0. rewrite !app_nil_r in E0.
    destruct (dht_compare a b) eqn:Ec; cbn [CompOpp] in *; repeat split; try lia; try done.
    + intros _. by apply bytes_compare_eq.
    + intros Eq. rewrite Eq, bytes_compare_refl in E0. done.
    + intros Eq. rewrite Eq, bytes_compare_refl in E0. done.
Qed.

Lemma doc_hybrid_time_order_witness :
  bytes_compare (EncodedInDocDbFormat dht_sample ++ [255])
    (EncodedInDocDbFormat (mkDocHybridTime (1600000000000000 * 4096 + 7) 4)) = Gt.
Proof.
  rewrite <- (app_nil_r (EncodedInDocDbFormat (mkDocHybridTime _ _))).
  apply (doc_hybrid_time_order dht_sample (mkDocHybridTime (1600000000000000 * 4096 + 7) 4));
    vm_compute; intuition discriminate.
Defined.

(** Every encoded time takes between 4 and 17 bytes, well within the
    [kMaxBytesPerEncodedHybridTime] buffer and the five size bits. *)
Theorem doc_hybrid_time_size_bound (t : DocHybridTime) :
  dht_ok t ->
  4 <= Z.of_nat (length (EncodedInDocDbFormat t)) <= 17 /\
  GetEncodedSize (EncodedInDocDbFormat t) = Z.of_nat (length (EncodedInDocDbFormat t)) /\
  bytes_ok (EncodedInDocDbFormat t).
Proof.
  intros Ht. rewrite dht_encoded_length by done. split; [by apply dht_size_range|].
  split; [|by apply dht_encoded_ok].
  destruct (dht_last_byte t Ht) as (b & Eb & Em). unfold GetEncodedSize. rewrite Eb.
  rewrite decide_False; [done|]. intros E. by rewrite E in Eb.
Qed.

Lemma doc_hybrid_time_size_bound_witness :
  4 <= Z.of_nat (length (EncodedInDocDbFormat (mkDocHybridTime (2 ^ 64 - 1) kMaxWriteId))) <= 17.
Proof.
  apply (doc_hybrid_time_size_bound (mkDocHybridTime (2 ^ 64 - 1) kMaxWriteId)).
  vm_compute; intuition discriminate.
Defined.
