(* ===== verification/HybridClock.v ===== *)
(** * Clocks ([src/yb/server/clock.h], [hybrid_clock.cc], [logical_clock.cc],
    [src/yb/util/physical_time.cc])

    The physical clocks, the hybrid clock (with its compare-and-swap loops as
    steps of concurrent threads) and the logical clock, and the interface
    [Clock] both implement. *)

From S2P Require Import Prelude HybridTime.
Local Open Scope Z_scope.

(** ** Physical clocks *)

Record PhysicalTime : Type := mkPhysicalTime { time_point : Z; max_error : Z }.

(** The run-time flags the clocks read. *)
Record ClockFlags : Type := mkClockFlags {
  FLAGS_max_clock_sync_error_usec : Z;
  FLAGS_disable_clock_sync_error : bool;
  FLAGS_max_clock_skew_usec : Z
}.

Definition CheckClockSyncError (fl : ClockFlags) (time : PhysicalTime) : Result PhysicalTime :=
  if negb (FLAGS_disable_clock_sync_error fl)
     && (FLAGS_max_clock_sync_error_usec fl <? max_error time)
  then Error ServiceUnavailable
  else Ok time.

(** [WallClockImpl::Now], given what [GetCurrentTimeMicros] returned. *)
Definition WallClock_Now (fl : ClockFlags) (current_time_micros : Z) : Result PhysicalTime :=
  CheckClockSyncError fl (mkPhysicalTime (u64 current_time_micros) (FLAGS_max_clock_skew_usec fl)).

Definition MaxGlobalTime (fl : ClockFlags) (time : PhysicalTime) : Z :=
  u64 (time_point time + FLAGS_max_clock_skew_usec fl).

(** The part of [struct timex] that is read. *)
Record timex : Type := mkTimex { tx_status : Z; tv_sec : Z; tv_usec : Z; tx_maxerror : Z }.

Definition TIME_OK : Z := 0.
Definition TIME_ERROR : Z := 5.
Definition STA_NANO : Z := 0x2000.

Definition CallAdjTime (fl : ClockFlags) (rc : Z) : Result unit :=
  if rc =? TIME_OK then Ok tt
  else if rc =? -1 then Error ServiceUnavailable
  else if rc =? TIME_ERROR then
    if FLAGS_disable_clock_sync_error fl then Ok tt else Error ServiceUnavailable
  else Ok tt.

(** [AdjTimeClockImpl::Now], given the result of [ntp_adjtime]. *)
Definition AdjTimeClock_Now (fl : ClockFlags) (rc : Z) (tx : timex) : Result PhysicalTime :=
  _ ← CallAdjTime fl rc;
  let usec := if negb (Z.land (tx_status tx) STA_NANO =? 0)
              then Z.quot (tv_usec tx) 1000 else tv_usec tx in
  CheckClockSyncError fl
    (mkPhysicalTime (u64 (u64 (tv_sec tx * 1000000) + usec)) (u64 (tx_maxerror tx))).

(** ** The hybrid clock *)

Record HybridClockComponents : Type := mkComponents { last_usec : Z; logical : Z }.

#[export] Instance HybridClockComponents_eq_dec : EqDecision HybridClockComponents.
Proof. solve_decision. Defined.

Definition components_lt (a b : HybridClockComponents) : bool :=
  (last_usec a <? last_usec b) || ((last_usec a =? last_usec b) && (logical a <? logical b)).

Definition components_init : HybridClockComponents := mkComponents 0 0.

Definition HandleLogicalComponentOverflow (c : HybridClockComponents)
    : Outcome HybridClockComponents :=
  if kLogicalBitMask <? logical c then
    if Z.shiftl 1 kBitsForLogicalComponent <? logical c then Fatal
    else Done (mkComponents
                 (u64 (last_usec c + Z.shiftr (logical c) kBitsForLogicalComponent))
                 (Z.land (logical c) kLogicalBitMask))
  else Done c.

(** What one successful compare-and-swap of each loop installs, and what the
    call then returns. *)
Definition now_fast (now : PhysicalTime) : HybridClockComponents * (HybridTime * Z) :=
  (mkComponents (time_point now) 1, (FromMicros (time_point now), max_error now)).

Definition now_slow (now : PhysicalTime) (cur : HybridClockComponents)
    : Outcome (HybridClockComponents * (HybridTime * Z)) :=
  new ← HandleLogicalComponentOverflow (mkComponents (last_usec cur) (u32 (logical cur + 1)));
  Done (new,
        (Decremented (FromMicrosecondsAndLogicalValue (last_usec new) (logical new)),
         u64 (last_usec new - (time_point now - max_error now)))).

Definition update_components (to_update : HybridTime) : Outcome HybridClockComponents :=
  HandleLogicalComponentOverflow
    (mkComponents (GetPhysicalValueMicros to_update) (u32 (GetLogicalValue to_update + 1))).

(** The calls, run without interference. *)
Definition NowWithError (reading : Result PhysicalTime) (cur : HybridClockComponents)
    : Outcome (HybridClockComponents * (HybridTime * Z)) :=
  match reading with
  | Error _ => Fatal
  | Ok now =>
      if last_usec cur <? time_point now then Done (now_fast now)
      else now_slow now cur
  end.

Definition Update (to_update : HybridTime) (cur : HybridClockComponents)
    : Outcome HybridClockComponents :=
  if negb (is_valid to_update) then Done cur
  else
    new ← update_components to_update;
    Done (if components_lt cur new then new else cur).

(** [NowRange], the physical clock's [MaxGlobalTime] given. *)
Definition NowRange (max_global_time : PhysicalTime -> Z) (reading : Result PhysicalTime)
    (cur : HybridClockComponents) : Outcome (HybridClockComponents * (HybridTime * HybridTime)) :=
  '(new, (now, error)) ← NowWithError reading cur;
  Done (new, (now,
    FromMicros (max_global_time (mkPhysicalTime (GetPhysicalValueMicros now) error)))).

(** [ClockBase::Now]: the first component of [NowRange]. *)
Definition Now (fl : ClockFlags) (reading : Result PhysicalTime) (cur : HybridClockComponents)
    : Outcome (HybridClockComponents * HybridTime) :=
  '(new, (now, _)) ← NowRange (MaxGlobalTime fl) reading cur;
  Done (new, now).

Definition kNanosecondsPerMicrosecond : Z := 1000.

Definition GetPhysicalValueNanos (ht : HybridTime) : Outcome Z :=
  let micros := Z.shiftr ht kBitsForLogicalComponent in
  _ ← CHECK (micros <=? (2 ^ 64 - 1) / kNanosecondsPerMicrosecond);
  Done (u64 (micros * kNanosecondsPerMicrosecond)).

Definition AddPhysicalTimeToHybridTime (original : HybridTime) (to_add_micros : Z) : HybridTime :=
  FromMicrosecondsAndLogicalValue
    (u64 (GetPhysicalValueMicros original + to_add_micros)) (GetLogicalValue original).

Definition CompareHybridClocksToDelta (begin end_ : HybridTime) (delta_ns : Z) : Outcome Z :=
  if HybridTime.CompareTo end_ begin <? 0 then Done (-1)
  else
    begin_nanos ← GetPhysicalValueNanos begin;
    end_nanos ← GetPhysicalValueNanos end_;
    let delta_nanos := u64 delta_ns in
    let diff := u64 (end_nanos - begin_nanos) in
    Done (if delta_nanos <? diff then 1
          else if diff =? delta_nanos then
            if GetLogicalValue begin <? GetLogicalValue end_ then 1
            else if GetLogicalValue end_ <? GetLogicalValue begin then -1
            else 0
          else -1).

(** ** The logical clock *)

Definition LogicalClock_NowRange (now_ : Z) : HybridTime * HybridTime * Z :=
  let v := u64 (now_ + 1) in (v, v, v).

Definition LogicalClock_Update (to_update : HybridTime) (now_ : Z) : Z :=
  if is_valid to_update then Z.max now_ to_update else now_.

Definition CreateStartingAt (hybrid_time : HybridTime) : Z := u64 (hybrid_time - 1).

(** ** The interface

    [next s] is the smallest time the clock may still hand out. [now] takes
    the physical reading of the call. The laws are the two assumptions stated
    in [clock.h]: times increase strictly, and [update] never sets the clock
    back; [update t] also pushes it past [t]. *)

Class Clock (S R : Type) := {
  clock_now : R -> S -> Outcome (S * HybridTime);
  clock_update : HybridTime -> S -> Outcome S;
  clock_next : S -> Z;
  clock_ok : S -> Prop;
  reading_ok : R -> Prop;
  clock_now_law : ∀ r s, clock_ok s -> reading_ok r -> ∃ s' t,
    clock_now r s = Done (s', t) /\ clock_next s <= t < clock_next s' /\ is_u 64 t /\
    (clock_next s' < 2 ^ 64 - 4096 -> clock_ok s');
  clock_update_law : ∀ t s, clock_ok s -> is_u 64 t -> t < kInvalidHybridTimeValue -> ∃ s',
    clock_update t s = Done s' /\ clock_next s <= clock_next s' /\ t < clock_next s' /\
    clock_next s' <= Z.max (clock_next s) (t + 1) /\
    (clock_next s' < 2 ^ 64 - 4096 -> clock_ok s')
}.

(** ** Lemmas *)

(** The number of times handed out so far, and the next time to hand out. *)
Definition components_value (c : HybridClockComponents) : Z := last_usec c * 4096 + logical c.

Definition components_ok (c : HybridClockComponents) : Prop :=
  0 <= last_usec c < 2 ^ 64 /\ 0 <= logical c < 4096.

Lemma HandleLogicalComponentOverflow_spec c :
  0 <= last_usec c < 2 ^ 64 - 1 -> 0 <= logical c <= 4096 ->
  ∃ c', HandleLogicalComponentOverflow c = Done c' /\ components_ok c' /\
        components_value c' = components_value c.
Proof.
  destruct c as [u l]. simpl. intros Hu Hl.
  unfold HandleLogicalComponentOverflow, components_value, components_ok. cbn [last_usec logical].
  change kLogicalBitMask with 4095. change (Z.shiftl 1 kBitsForLogicalComponent) with 4096.
  destruct (Z.ltb_spec 4095 l).
  - assert (l = 4096) as -> by lia. change (4096 <? 4096) with false.
    change (Z.shiftr 4096 kBitsForLogicalComponent) with 1. change (Z.land 4096 4095) with 0.
    eexists. split; [done|]. cbn [last_usec logical]. unfold u64.
    rewrite wrap_small by (unfold is_u; lia). lia.
  - eexists. split; [done|]. cbn [last_usec logical]. lia.
Qed.

Lemma components_lt_value a b :
  components_ok a -> components_ok b ->
  components_lt a b = true <-> components_value a < components_value b.
Proof.
  intros Ha Hb. unfold components_lt, components_value, components_ok in *.
  rewrite orb_true_iff, andb_true_iff, !Z.ltb_lt, Z.eqb_eq. nia.
Qed.

Lemma now_fast_spec now :
  0 <= time_point now < 2 ^ 52 ->
  components_ok (now_fast now).1 /\
  components_value (now_fast now).1 = time_point now * 4096 + 1 /\
  (now_fast now).2.1 = time_point now * 4096.
Proof.
  intros Hn. unfold now_fast, components_ok, components_value, FromMicros. simpl.
  rewrite FromMicrosecondsAndLogicalValue_small by lia. lia.
Qed.

Lemma now_slow_spec now cur :
  components_ok cur -> components_value cur < 2 ^ 64 - 1 ->
  ∃ new err, now_slow now cur = Done (new, (components_value cur, err)) /\ components_ok new /\
    components_value new = components_value cur + 1.
Proof.
  intros [Hu Hl] Hv. unfold components_value in Hv.
  destruct (HandleLogicalComponentOverflow_spec
              (mkComponents (last_usec cur) (u32 (logical cur + 1)))) as (new & E & Hok & Hval).
  { simpl. lia. }
  { simpl. unfold u32. rewrite wrap_small by (unfold is_u; lia). lia. }
  unfold now_slow. rewrite E. cbn [mbind outcome_bind]. do 2 eexists.
  unfold components_value at 2 in Hval. cbn [last_usec logical] in Hval.
  unfold u32 in Hval. rewrite wrap_small in Hval by (unfold is_u; lia).
  assert (components_value new = components_value cur + 1) as Hnew
    by (unfold components_value at 2; lia).
  split; [|done]. do 3 f_equal. unfold components_ok in Hok. unfold components_value in Hnew.
  rewrite FromMicrosecondsAndLogicalValue_small by lia.
  unfold Decremented, components_value. destruct (Z.eqb_spec (last_usec new * 4096 + logical new) 0); lia.
Qed.

Lemma update_components_spec t :
  is_u 64 t ->
  ∃ c, update_components t = Done c /\ components_ok c /\ components_value c = t + 1.
Proof.
  intros Ht. destruct (ht_split t Ht) as (E & Hp & Hl).
  destruct (HandleLogicalComponentOverflow_spec
    (mkComponents (GetPhysicalValueMicros t) (u32 (GetLogicalValue t + 1)))) as (c & Ec & Hok & Hv).
  { simpl. lia. }
  { simpl. unfold u32. rewrite wrap_small by (unfold is_u; lia). lia. }
  exists c. split; [done|]. split; [done|]. rewrite Hv. unfold components_value. simpl.
  unfold u32. rewrite wrap_small by (unfold is_u; lia). lia.
Qed.

Lemma fast_value_lt now cur :
  components_ok cur -> last_usec cur < time_point now ->
  components_value cur < time_point now * 4096.
Proof. unfold components_ok, components_value. nia. Qed.

(** The physical readings for which nothing wraps: before the year 2112. *)
Definition hybrid_reading_ok (r : Result PhysicalTime) : Prop :=
  match r with Ok now => 0 <= time_point now < 2 ^ 52 - 1 | Error _ => False end.

Definition hybrid_clock_ok (c : HybridClockComponents) : Prop :=
  components_ok c /\ components_value c < 2 ^ 64 - 4096.

#[export] Program Instance HybridClock_Clock (fl : ClockFlags)
    : Clock HybridClockComponents (Result PhysicalTime) := {
  clock_now := Now fl;
  clock_update := Update;
  clock_next := components_value;
  clock_ok := hybrid_clock_ok;
  reading_ok := hybrid_reading_ok
}.
Next Obligation.
  intros fl [now|] s [Hok Hv] Hr; [|done]. simpl in Hr. unfold Now, NowRange. simpl.
  destruct (Z.ltb_spec (last_usec s) (time_point now)) as [Hlt|Hge].
  - destruct (now_fast_spec now) as (Hok' & Hval & Ht); [lia|].
    pose proof (fast_value_lt now s Hok Hlt).
    exists (now_fast now).1, (now_fast now).2.1. split; [done|].
    rewrite Ht, Hval. unfold hybrid_clock_ok, is_u. rewrite Hval.
    destruct Hok. unfold components_value in * |-.
    split_and!; [unfold components_value; lia | lia..|]. intros ?. split; [done|lia].
  - destruct (now_slow_spec now s Hok) as (new & err & E & Hok' & Hval); [lia|].
    rewrite E. simpl. exists new, (components_value s). unfold hybrid_clock_ok, is_u.
    rewrite Hval. destruct Hok. unfold components_value in *.
    split_and!; [done|lia..|]. intros ?. split; [done|lia].
Qed.
Next Obligation.
  intros fl t s [Hok Hv] Ht Hinv. simpl. unfold Update, is_valid.
  destruct (Z.eqb_spec t kInvalidHybridTimeValue); [lia|]. simpl.
  destruct (update_components_spec t Ht) as (c & Ec & Hc & Hcv). rewrite Ec. simpl.
  eexists. split; [done|]. pose proof (components_lt_value s c Hok Hc) as Hlt.
  unfold hybrid_clock_ok.
  destruct (components_lt s c); [assert (components_value s < components_value c) by by apply Hlt
    | assert (¬ components_value s < components_value c) by (intros H; by apply Hlt in H)];
    repeat split; try done; try apply Hok; try apply Hc; lia.
Qed.

#[export] Program Instance LogicalClock_Clock : Clock Z unit := {
  clock_now _ s := Done ((LogicalClock_NowRange s).2, (LogicalClock_NowRange s).1.1);
  clock_update t s := Done (LogicalClock_Update t s);
  clock_next s := s + 1;
  clock_ok s := 0 <= s < 2 ^ 64 - 1;
  reading_ok _ := True
}.
Next Obligation.
  intros [] s Hs _. simpl. do 2 eexists. split; [done|].
  unfold u64. rewrite wrap_small by (unfold is_u; lia). unfold is_u. lia.
Qed.
Next Obligation.
  intros t s Hs Ht Hinv. simpl. eexists. split; [done|].
  unfold LogicalClock_Update, is_valid.
  destruct (Z.eqb_spec t kInvalidHybridTimeValue); [lia|]. simpl. unfold is_u in Ht. lia.
Qed.

(** ** Concurrent callers

    [Now] and [Update] are compare-and-swap loops on one shared word. Each
    thread is at one of the program points below; a step is one access to
    [components_] (the load, or one [compare_exchange_weak], which may also
    fail spuriously), or the exit of a loop. [returned] lists the results of
    [Now] in the order of the successful exchanges. *)
Module Concurrent.

Inductive pc : Type :=
| Idle
| InFastLoop (now : PhysicalTime) (current : HybridClockComponents)
| InSlowLoop (now : PhysicalTime) (current : HybridClockComponents)
| InUpdate (new current : HybridClockComponents)
| Unsynchronized
| Crashed.

Record conf : Type := mkConf {
  components : HybridClockComponents;
  threads : gmap nat pc;
  returned : list HybridTime
}.

Inductive thread_step : HybridClockComponents -> pc ->
                        HybridClockComponents -> pc -> option HybridTime -> Prop :=
| now_begin c now :
    0 <= time_point now -> thread_step c Idle c (InFastLoop now c) None
| now_unsynchronized c :
    thread_step c Idle c Unsynchronized None
| fast_success c now :
    last_usec c < time_point now ->
    thread_step c (InFastLoop now c) (now_fast now).1 Idle (Some (now_fast now).2.1)
| fast_fail c cur now :
    last_usec cur < time_point now ->
    thread_step c (InFastLoop now cur) c (InFastLoop now c) None
| fast_exit c cur now :
    ¬ last_usec cur < time_point now ->
    thread_step c (InFastLoop now cur) c (InSlowLoop now cur) None
| slow_success c now new ht err :
    now_slow now c = Done (new, (ht, err)) ->
    thread_step c (InSlowLoop now c) new Idle (Some ht)
| slow_fail c cur now r :
    now_slow now cur = Done r ->
    thread_step c (InSlowLoop now cur) c (InSlowLoop now c) None
| slow_fatal c cur now :
    now_slow now cur = Fatal ->
    thread_step c (InSlowLoop now cur) c Crashed None
| update_invalid c :
    thread_step c Idle c Idle None
| update_begin c t new :
    is_u 64 t -> is_valid t = true -> update_components t = Done new ->
    thread_step c Idle c (InUpdate new c) None
| update_fatal c t :
    is_u 64 t -> is_valid t = true -> update_components t = Fatal ->
    thread_step c Idle c Crashed None
| update_success c new :
    components_lt c new = true -> thread_step c (InUpdate new c) new Idle None
| update_fail c cur new :
    components_lt cur new = true ->
    thread_step c (InUpdate new cur) c (InUpdate new c) None
| update_exit c cur new :
    components_lt cur new = false -> thread_step c (InUpdate new cur) c Idle None.

(** One thread moves; the clock stays below the last representable time. *)
Inductive step (s : conf) : conf -> Prop :=
| step_thread i p c' p' res :
    threads s !! i = Some p ->
    thread_step (components s) p c' p' res ->
    components_value c' < 2 ^ 64 - 1 ->
    step s (mkConf c' (<[i := p']> (threads s)) (returned s ++ option_list res)).

Definition initial (s : conf) : Prop :=
  components s = components_init /\ returned s = [] /\ map_Forall (λ _ p, p = Idle) (threads s).

(** *** Invariant *)

Definition pc_ok (c : HybridClockComponents) (p : pc) : Prop :=
  match p with
  | Idle | Unsynchronized => True
  | InFastLoop now cur =>
      0 <= time_point now /\ components_ok cur /\ components_value cur <= components_value c
  | InSlowLoop _ cur => components_ok cur /\ components_value cur <= components_value c
  | InUpdate new cur =>
      components_ok new /\ components_ok cur /\ components_value cur <= components_value c
  | Crashed => False
  end.

Record conf_ok (s : conf) : Prop := {
  ok_components : components_ok (components s);
  ok_value : components_value (components s) < 2 ^ 64 - 1;
  ok_threads : map_Forall (λ _, pc_ok (components s)) (threads s);
  ok_sorted : StronglySorted Z.lt (returned s);
  ok_bound : Forall (λ t, 0 <= t < components_value (components s)) (returned s)
}.

Lemma pc_ok_mono c c' p :
  components_value c <= components_value c' -> pc_ok c p -> pc_ok c' p.
Proof. destruct p; simpl; intuition lia. Qed.

(** What a step does to the shared word and what it hands out. *)
Lemma thread_step_ok c p c' p' res :
  components_ok c -> components_value c < 2 ^ 64 - 1 -> pc_ok c p ->
  thread_step c p c' p' res -> components_value c' < 2 ^ 64 - 1 ->
  components_ok c' /\ components_value c <= components_value c' /\ pc_ok c' p' /\
  match res with
  | Some t => components_value c <= t < components_value c'
  | None => True
  end.
Proof.
  intros Hc Hv Hp Hstep Hv'. destruct Hstep; simpl in Hp.
  all: try (split_and!; [done|lia|simpl; intuition lia|done]).
  - destruct Hp as (Hnow & Hc2 & _).
    assert (time_point now < 2 ^ 52) by (unfold components_value in Hv'; simpl in Hv'; lia).
    destruct (now_fast_spec now) as (Hok & Hval & Ht); [lia|].
    pose proof (fast_value_lt now c Hc H). rewrite Hval, Ht. split_and!; [done|lia|done|lia|lia].
  - destruct (now_slow_spec now c Hc Hv) as (n & e & E & Hok & Hval).
    rewrite E in H. simplify_eq. split_and!; [done|lia|done|lia|lia].
  - destruct Hp as [Hcur Hle].
    destruct (now_slow_spec now cur Hcur ltac:(lia)) as (n & e & E & _). congruence.
  - destruct (update_components_spec t H) as (n & E & Hok & _).
    rewrite E in H1. simplify_eq. split_and!; [done|lia|simpl; intuition lia|done].
  - destruct (update_components_spec t H) as (n & E & _). congruence.
  - destruct Hp as (Hnew & _ & _). apply components_lt_value in H; [|done..].
    split_and!; [done|lia|done|done].
Qed.

Lemma StronglySorted_snoc (l : list Z) (x : Z) :
  StronglySorted Z.lt l -> Forall (λ y, y < x) l -> StronglySorted Z.lt (l ++ [x]).
Proof.
  induction 1 as [|a l Hs IH Ha]; intros Hx; [repeat constructor|].
  apply Forall_cons in Hx as [Hax Hx]. simpl. constructor; [auto|].
  apply Forall_app. auto.
Qed.

Lemma step_ok s s' : conf_ok s -> step s s' -> conf_ok s'.
Proof.
  intros [Hc Hv Ht Hs Hb] [i p c' p' res Hi Hstep Hv'].
  destruct (thread_step_ok _ _ _ _ _ Hc Hv (Ht _ _ Hi) Hstep Hv') as (Hc' & Hle & Hp' & Hres).
  assert (Forall (λ t, 0 <= t < components_value c') (returned s)) as Hb'
    by (eapply Forall_impl; [exact Hb|]; simpl; intros; lia).
  constructor; simpl; [done | done | | |].
  - apply map_Forall_insert_2; [done|]. intros j q Hj. eapply pc_ok_mono, Ht; done.
  - destruct res as [t|]; simpl; [|by rewrite app_nil_r].
    apply StronglySorted_snoc; [done|]. eapply Forall_impl; [exact Hb|]. simpl. intros; lia.
  - destruct res as [t|]; simpl; [|by rewrite app_nil_r].
    apply Forall_app. split; [done|]. apply Forall_singleton.
    destruct Hc. unfold components_value in *. lia.
Qed.

Lemma reachable_ok s s' : conf_ok s -> rtc step s s' -> conf_ok s'.
Proof. induction 2; eauto using step_ok. Qed.

Lemma initial_ok s : initial s -> conf_ok s.
Proof.
  intros (Hc & Hr & Ht). constructor; rewrite ?Hc, ?Hr.
  - unfold components_ok. simpl. lia.
  - done.
  - intros i p Hi. by rewrite (Ht i p Hi).
  - constructor.
  - constructor.
Qed.

(** *** Properties *)

(** C15: whatever the interleaving of concurrent [Now] and [Update] calls and
    their failed exchanges, the times handed out are strictly increasing in
    the order of the exchanges that produced them, as long as the clock has not
    come to the last time there is, and no thread ever reaches
    the fatal error of the logical-component overflow. *)
Theorem concurrent_now_strictly_increasing (s s' : conf) :
  initial s -> rtc step s s' ->
  StronglySorted Z.lt (returned s') /\ map_Forall (λ _ p, p ≠ Crashed) (threads s').
Proof.
  intros Hi Hr. destruct (reachable_ok s s' (initial_ok s Hi) Hr) as [_ _ Ht Hs _].
  split; [done|]. intros i p Hp ->. exact (Ht _ _ Hp).
Qed.

Definition two_threads : conf := mkConf components_init {[ 0%nat := Idle; 1%nat := Idle ]} [].

(** Two callers read the same microsecond: one wins the exchange, the other
    fails it and falls through to the second loop. *)
Lemma concurrent_now_strictly_increasing_witness :
  ∃ s', rtc step two_threads s' /\ StronglySorted Z.lt (returned s') /\
        returned s' = [20480; 20481].
Proof.
  set (now := mkPhysicalTime 5 0).
  assert (initial two_threads) as Hi.
  { split_and!; [done|done|]. unfold two_threads. simpl.
    apply map_Forall_insert_2; [done|]. apply map_Forall_insert_2; [done|]. apply map_Forall_empty. }
  eexists (mkConf _ _ [20480; 20481]).
  assert (rtc step two_threads (mkConf (mkComponents 5 2)
    (<[1%nat := Idle]> (<[1%nat := InSlowLoop now (mkComponents 5 1)]>
      (<[1%nat := InFastLoop now (mkComponents 5 1)]> (<[0%nat := Idle]>
        (<[1%nat := InFastLoop now components_init]>
          (<[0%nat := InFastLoop now components_init]> (threads two_threads)))))))
    [20480; 20481])) as Hr.
  { eapply rtc_l; [eapply (step_thread _ 0); [done|by apply (now_begin _ now)|done]|].
    eapply rtc_l; [eapply (step_thread _ 1); [done|by apply (now_begin _ now)|done]|].
    eapply rtc_l; [eapply (step_thread _ 0); [done|by apply fast_success|done]|].
    eapply rtc_l; [eapply (step_thread _ 1); [done|by apply fast_fail|done]|].
    eapply rtc_l; [eapply (step_thread _ 1); [done|by apply fast_exit|done]|].
    eapply rtc_l; [eapply (step_thread _ 1); [done|by apply (slow_success _ _ (mkComponents 5 2) 20481 0)|done]|].
    apply rtc_refl. }
  split; [exact Hr|]. split; [|done].
  exact (proj1 (concurrent_now_strictly_increasing _ _ Hi Hr)).
Defined.

End Concurrent.

(** ** Properties of single calls *)

(** After [Update(t)] the next [Now()] returns a time above [t] and above
    every time handed out before; neither call hits a fatal error. Physical
    readings and times are assumed to leave room below [2^64]. *)
Theorem now_after_update (fl : ClockFlags) (c : HybridClockComponents) (t : HybridTime)
    (reading : Result PhysicalTime) :
  hybrid_clock_ok c -> 0 <= t < 2 ^ 64 - 4097 -> hybrid_reading_ok reading ->
  ∃ c' c'' ht, Update t c = Done c' /\ Now fl reading c' = Done (c'', ht) /\
    t < ht /\ components_value c <= ht < components_value c''.
Proof.
  intros Hc Ht Hr.
  destruct (clock_update_law (Clock := HybridClock_Clock fl) t c Hc) as (c' & Eu & H1 & H2 & H3 & H4).
  { unfold is_u. lia. }
  { change kInvalidHybridTimeValue with (2 ^ 64 - 2). lia. }
  destruct Hc as [Hok Hv]. simpl in *.
  destruct (clock_now_law (Clock := HybridClock_Clock fl) reading c' (H4 ltac:(lia)) Hr)
    as (c'' & ht & En & H5 & _). simpl in *.
  exists c', c'', ht. split_and!; try done; lia.
Qed.

Lemma now_after_update_witness :
  ∃ c' c'' ht, Update 30000 (mkComponents 5 4095) = Done c' /\
    Now (mkClockFlags 0 true 50000) (Ok (mkPhysicalTime 6 0)) c' = Done (c'', ht) /\
    30000 < ht /\ components_value (mkComponents 5 4095) <= ht < components_value c''.
Proof.
  apply (now_after_update (mkClockFlags 0 true 50000) (mkComponents 5 4095) 30000
           (Ok (mkPhysicalTime 6 0))); vm_compute; intuition discriminate.
Defined.

(** The bound on [t] is needed: [Update(HybridTime::kMax)] overflows the
    physical component and the clock restarts from zero. *)
Lemma update_kMax_resets_clock (fl : ClockFlags) :
  ∃ c, Update kMax components_init = Done c /\
       ∃ c', Now fl (Ok (mkPhysicalTime 1600000000000000 0)) c = Done (c', kMin).
Proof. eexists. split; [reflexivity|]. eexists. reflexivity. Qed.

(** With the wall clock and a non-zero skew bound, the upper end of
    [NowRange] is strictly above its lower end, also when the lower end comes
    from the logical counter and not from the physical clock. *)
Theorem now_range_nonempty (fl : ClockFlags) (c c' : HybridClockComponents)
    (reading : Result PhysicalTime) (now max_global : HybridTime) :
  hybrid_clock_ok c -> hybrid_reading_ok reading ->
  0 < FLAGS_max_clock_skew_usec fl < 2 ^ 32 ->
  components_value c < 2 ^ 63 -> (∀ p, reading = Ok p -> time_point p < 2 ^ 51) ->
  NowRange (MaxGlobalTime fl) reading c = Done (c', (now, max_global)) ->
  now < max_global.
Proof.
  intros [Hc Hv] Hr Hskew Hv' Hr' E. destruct reading as [p|]; [|done].
  specialize (Hr' p eq_refl). simpl in Hr. unfold NowRange in E.
  assert (∃ err c2, NowWithError (Ok p) c = Done (c2, (now, err)) /\ 0 <= now <= 2 ^ 63 /\
    max_global = FromMicros (MaxGlobalTime fl (mkPhysicalTime (GetPhysicalValueMicros now) err)))
    as (err & c2 & En & Hnow & ->).
  { simpl in E |- *. destruct (Z.ltb_spec (last_usec c) (time_point p)).
    - destruct (now_fast_spec p) as (_ & _ & Ht); [lia|]. simpl in E, Ht. simplify_eq.
      do 2 eexists. split; [done|]. rewrite Ht. split; [lia|done].
    - destruct (now_slow_spec p c Hc) as (new & e & Es & _ & _); [lia|].
      rewrite Es in *. simpl in E. simplify_eq.
      do 2 eexists. split; [done|]. split; [|done]. destruct Hc. unfold components_value in *. lia. }
  destruct (ht_split now) as (Esplit & Hp & Hl); [unfold is_u; lia|].
  unfold MaxGlobalTime, FromMicros. cbn [time_point]. unfold u64.
  rewrite GetPhysicalValueMicros_div in *.
  rewrite (wrap_small 64) by (unfold is_u; Z.div_mod_to_equations; lia).
  rewrite FromMicrosecondsAndLogicalValue_small by (Z.div_mod_to_equations; lia). lia.
Qed.

Lemma now_range_nonempty_witness : 40000 < 207220736.
Proof.
  refine (now_range_nonempty (mkClockFlags 0 true 50582) (mkComponents 9 3136)
            (mkComponents 9 3137) (Ok (mkPhysicalTime 9 50582)) 40000 207220736 _ _ _ _ _ _);
    [vm_compute; intuition discriminate | vm_compute; intuition discriminate
    | vm_compute; intuition discriminate | reflexivity | |].
  - intros p [= <-]. reflexivity.
  - vm_compute. reflexivity.
Defined.

(** Comparing the distance of two hybrid times with a delta of whole
    microseconds is comparing the later one with the earlier one moved by the
    delta, logical components included; the sanity check on nanoseconds never
    fails. *)
Theorem compare_clocks_to_delta_correct (begin end_ : HybridTime) (micros : Z) :
  ht_ok begin -> ht_ok end_ -> 0 <= micros -> GetPhysicalValueMicros begin + micros < 2 ^ 52 ->
  CompareHybridClocksToDelta begin end_ (micros * 1000) =
  Done (HybridTime.CompareTo end_ (AddPhysicalTimeToHybridTime begin micros)).
Proof.
  intros Hb He Hm Hsum. destruct (ht_split begin Hb) as (Eb & Hpb & Hlb).
  destruct (ht_split end_ He) as (Ee & Hpe & Hle).
  unfold AddPhysicalTimeToHybridTime, u64. rewrite (wrap_small 64) by (unfold is_u; lia).
  rewrite FromMicrosecondsAndLogicalValue_small by lia.
  assert (∀ t, ht_ok t -> GetPhysicalValueNanos t = Done (GetPhysicalValueMicros t * 1000)) as Hn.
  { intros t Ht. destruct (ht_split t Ht) as (_ & Hp & _). unfold GetPhysicalValueNanos.
    fold (GetPhysicalValueMicros t). unfold kNanosecondsPerMicrosecond.
    change ((2 ^ 64 - 1) / 1000) with 18446744073709551.
    destruct (Z.leb_spec (GetPhysicalValueMicros t) 18446744073709551); [|lia]. simpl.
    unfold u64. by rewrite wrap_small by (unfold is_u; lia). }
  unfold CompareHybridClocksToDelta, HybridTime.CompareTo. rewrite !Hn by done. simpl.
  generalize dependent (GetPhysicalValueMicros begin). generalize dependent (GetLogicalValue begin).
  generalize dependent (GetPhysicalValueMicros end_). generalize dependent (GetLogicalValue end_).
  intros le Hle pe Ee Hpe lb Hlb pb Eb Hpb Hsum. subst. clear Hn Hb He.
  unfold u64. rewrite (wrap_small 64 (micros * 1000)) by (unfold is_u; lia).
  destruct (Z.ltb_spec (pe * 4096 + le) (pb * 4096 + lb)).
  - simpl. destruct (Z.ltb_spec (pe * 4096 + le) ((pb + micros) * 4096 + lb)); [done|lia].
  - rewrite (wrap_small 64) by (unfold is_u; nia).
    rewrite Z.gtb_ltb. destruct (Z.ltb_spec (pb * 4096 + lb) (pe * 4096 + le)); simpl;
      repeat case_match; try done; lia.
Qed.

Lemma compare_clocks_to_delta_correct_witness :
  CompareHybridClocksToDelta 40960 81923 (10 * 1000) =
  Done (HybridTime.CompareTo 81923 (AddPhysicalTimeToHybridTime 40960 10)).
Proof. apply compare_clocks_to_delta_correct; vm_compute; intuition discriminate. Defined.
