(* ===== verification/Mvcc.v ===== *)
(** * Tracking of in-flight operations and safe time ([src/yb/tablet/mvcc.cc],
    [mvcc.h])

    [MvccManager] keeps the times of the operations that are being replicated
    and computes the time at which it is safe to read. The clock is any
    implementation of the interface [Clock]; the mutex makes each method one
    step. A method that waits on the condition variable evaluates its
    predicate again after every wake-up; since everything before the wait is
    idempotent this is running the method again, so a method returns [None]
    for "still waiting". A timed-out wait returns [kInvalid] without any
    further effect. *)

From S2P Require Import Prelude HybridTime HybridClock.
Local Open Scope Z_scope.

Inductive SafeTimeSource : Type :=
| kUnknown | kNow | kNextInQueue | kHybridTimeLease | kPropagated | kLastReplicated.

Record SafeTimeWithSource : Type := mkSafeTime { safe_time : HybridTime; source : SafeTimeSource }.

(** [std::priority_queue] with [std::greater]: a sorted list. *)
Fixpoint pq_push (x : HybridTime) (l : list HybridTime) : list HybridTime :=
  match l with
  | [] => [x]
  | y :: l' => if x <=? y then x :: l else y :: pq_push x l'
  end.

(** [std::lower_bound] on the sorted [queue_]: the elements before it and
    from it on. *)
Fixpoint lower_bound_split (queue : list HybridTime) (v : HybridTime)
    : list HybridTime * list HybridTime :=
  match queue with
  | [] => ([], [])
  | q :: qs =>
      if q <? v then let '(before, from) := lower_bound_split qs v in (q :: before, from)
      else ([], queue)
  end.

Section Manager.
Context {S R : Type} `{Clock S R}.

(** [NDEBUG]: release build. *)
Context (release : bool).

Record MvccManager : Type := mkMvcc {
  clock_ : S;
  queue_ : list HybridTime;
  aborted_ : list HybridTime;
  last_replicated_ : HybridTime;
  propagated_safe_time_ : HybridTime;
  max_ht_lease_seen_ : HybridTime;
  max_safe_time_returned_with_lease_ : SafeTimeWithSource;
  max_safe_time_returned_without_lease_ : SafeTimeWithSource;
  max_safe_time_returned_for_follower_ : SafeTimeWithSource
}.

Definition new_MvccManager (clock : S) : MvccManager :=
  mkMvcc clock [] [] kMin kMin kMin
    (mkSafeTime kMin kUnknown) (mkSafeTime kMin kUnknown) (mkSafeTime kMin kUnknown).

Definition set_clock (m : MvccManager) (c : S) : MvccManager :=
  mkMvcc c (queue_ m) (aborted_ m) (last_replicated_ m) (propagated_safe_time_ m)
    (max_ht_lease_seen_ m) (max_safe_time_returned_with_lease_ m)
    (max_safe_time_returned_without_lease_ m) (max_safe_time_returned_for_follower_ m).

Definition set_queues (m : MvccManager) (q a : list HybridTime) : MvccManager :=
  mkMvcc (clock_ m) q a (last_replicated_ m) (propagated_safe_time_ m)
    (max_ht_lease_seen_ m) (max_safe_time_returned_with_lease_ m)
    (max_safe_time_returned_without_lease_ m) (max_safe_time_returned_for_follower_ m).

Definition set_last_replicated (m : MvccManager) (ht : HybridTime) : MvccManager :=
  mkMvcc (clock_ m) (queue_ m) (aborted_ m) ht (propagated_safe_time_ m)
    (max_ht_lease_seen_ m) (max_safe_time_returned_with_lease_ m)
    (max_safe_time_returned_without_lease_ m) (max_safe_time_returned_for_follower_ m).

Definition set_propagated (m : MvccManager) (ht : HybridTime) : MvccManager :=
  mkMvcc (clock_ m) (queue_ m) (aborted_ m) (last_replicated_ m) ht
    (max_ht_lease_seen_ m) (max_safe_time_returned_with_lease_ m)
    (max_safe_time_returned_without_lease_ m) (max_safe_time_returned_for_follower_ m).

Definition set_lease_seen (m : MvccManager) (ht : HybridTime) : MvccManager :=
  mkMvcc (clock_ m) (queue_ m) (aborted_ m) (last_replicated_ m) (propagated_safe_time_ m)
    ht (max_safe_time_returned_with_lease_ m)
    (max_safe_time_returned_without_lease_ m) (max_safe_time_returned_for_follower_ m).

Definition set_returned (m : MvccManager) (has_lease : bool) (t : SafeTimeWithSource)
    : MvccManager :=
  mkMvcc (clock_ m) (queue_ m) (aborted_ m) (last_replicated_ m) (propagated_safe_time_ m)
    (max_ht_lease_seen_ m)
    (if has_lease then t else max_safe_time_returned_with_lease_ m)
    (if has_lease then max_safe_time_returned_without_lease_ m else t)
    (max_safe_time_returned_for_follower_ m).

Definition set_returned_for_follower (m : MvccManager) (t : SafeTimeWithSource) : MvccManager :=
  mkMvcc (clock_ m) (queue_ m) (aborted_ m) (last_replicated_ m) (propagated_safe_time_ m)
    (max_ht_lease_seen_ m) (max_safe_time_returned_with_lease_ m)
    (max_safe_time_returned_without_lease_ m) t.

(** The loop of [PopFront]. *)
Fixpoint pop_aborted (aborted queue : list HybridTime)
    : Outcome (list HybridTime * list HybridTime) :=
  match aborted with
  | [] => Done (queue, [])
  | top :: rest =>
      match queue with
      | [] => Undefined
      | front :: queue' =>
          if negb (front =? top) then
            _ ← CHECK (front <? top); Done (queue, aborted)
          else pop_aborted rest queue'
      end
  end.

Definition PopFront (m : MvccManager) : Outcome MvccManager :=
  let queue := tail (queue_ m) in
  _ ← CHECK (length (aborted_ m) <=? length queue)%nat;
  '(q, a) ← pop_aborted (aborted_ m) queue;
  Done (set_queues m q a).

Definition Replicated (ht : HybridTime) (m : MvccManager) : Outcome MvccManager :=
  match queue_ m with
  | [] => Fatal
  | front :: _ =>
      _ ← CHECK (front =? ht);
      m' ← PopFront m;
      Done (set_last_replicated m' ht)
  end.

Definition Aborted (ht : HybridTime) (m : MvccManager) : Outcome MvccManager :=
  match queue_ m with
  | [] => Fatal
  | front :: _ =>
      if front =? ht then PopFront m
      else Done (set_queues m (queue_ m) (pq_push ht (aborted_ m)))
  end.

(** The loop that pops an aborted tail off the queue; [aborted_.top()] on an
    empty heap is undefined behaviour. *)
Fixpoint pop_tail (aborted from : list HybridTime) : Outcome (list HybridTime * list HybridTime) :=
  match from with
  | [] => Done (aborted, [])
  | it :: from' =>
      match aborted with
      | [] => Undefined
      | top :: rest => if it =? top then pop_tail rest from' else Done (aborted, from)
      end
  end.

Definition last_ht_in_queue (queue : list HybridTime) : HybridTime := default kMin (last queue).

(** [AddPending]: the time given to the operation, and the new state.
    [r] is the clock's physical reading. *)
Definition AddPending (ht : HybridTime) (r : R) (m : MvccManager)
    : Outcome (MvccManager * HybridTime) :=
  let is_follower_side := is_valid ht in
  '(m, ht) ← (if is_follower_side then Done (m, ht)
              else '(c, t) ← clock_now r (clock_ m); Done (set_clock m c, t));
  m ← (match queue_ m, aborted_ m with
       | _ :: _, top :: _ =>
           if ht <=? last_ht_in_queue (queue_ m) then
             let '(before, from) := lower_bound_split (queue_ m) top in
             match from with
             | [] => Fatal
             | _ =>
                 '(aborted, rest) ← pop_tail (aborted_ m) from;
                 Done (set_queues m (before ++ rest) aborted)
             end
           else Done m
       | _, _ => Done m
       end);
  let sanity_check_lower_bound :=
    Z.max (safe_time (max_safe_time_returned_with_lease_ m))
      (Z.max (safe_time (max_safe_time_returned_without_lease_ m))
        (Z.max (safe_time (max_safe_time_returned_for_follower_ m))
          (Z.max (last_replicated_ m) (last_ht_in_queue (queue_ m))))) in
  ht ← (if negb (bool_decide (queue_ m = [])) && (ht <=? sanity_check_lower_bound) then
          let ht' :=
            if release && negb is_follower_side && is_valid sanity_check_lower_bound
               && negb (sanity_check_lower_bound =? kMax)
            then Incremented sanity_check_lower_bound else ht in
          if ht' <=? sanity_check_lower_bound then Fatal else Done ht'
        else Done ht);
  Done (set_queues m (queue_ m ++ [ht]) (aborted_ m), ht).

Definition SetLastReplicated (ht : HybridTime) (m : MvccManager) : MvccManager :=
  set_last_replicated m ht.

Definition SetPropagatedSafeTimeOnFollower (ht : HybridTime) (m : MvccManager) : MvccManager :=
  if propagated_safe_time_ m <=? ht then set_propagated m ht else m.

(** The predicate of [DoGetSafeTime]: the candidate, its source and the clock
    after the possible reading. *)
Definition safe_time_candidate (min_allowed : HybridTime) (has_lease : bool) (r : R)
    (m : MvccManager) : Outcome (S * SafeTimeWithSource) :=
  '(c, result, src) ←
    (match queue_ m with
     | [] => '(c, t) ← clock_now r (clock_ m);
             _ ← CHECK (min_allowed <=? t); Done (c, t, kNow)
     | front :: _ => Done (clock_ m, Decremented front, kNextInQueue)
     end);
  let '(result, src) :=
    if has_lease && (max_ht_lease_seen_ m <? result)
    then (max_ht_lease_seen_ m, kHybridTimeLease) else (result, src) in
  Done (c, mkSafeTime (Z.max result (last_replicated_ m)) src).

Definition DoGetSafeTime (min_allowed ht_lease : HybridTime) (r : R) (m : MvccManager)
    : Outcome (MvccManager * option HybridTime) :=
  _ ← CHECK (is_valid ht_lease);
  _ ← CHECK (min_allowed <=? ht_lease);
  let has_lease := GetPhysicalValueMicros ht_lease <? kMaxHybridTimePhysicalMicros in
  let m := if has_lease then set_lease_seen m (Z.max ht_lease (max_ht_lease_seen_ m)) else m in
  '(c, result) ← safe_time_candidate min_allowed has_lease r m;
  let m := set_clock m c in
  if min_allowed <=? safe_time result then
    let enforced_min_time :=
      safe_time (if has_lease then max_safe_time_returned_with_lease_ m
                 else max_safe_time_returned_without_lease_ m) in
    _ ← CHECK (enforced_min_time <=? safe_time result);
    Done (set_returned m has_lease result, Some (safe_time result))
  else Done (m, None).

Definition SafeTime (min_allowed ht_lease : HybridTime) (r : R) (m : MvccManager)
    : Outcome (MvccManager * option HybridTime) :=
  DoGetSafeTime min_allowed ht_lease r m.

Definition UpdatePropagatedSafeTimeOnLeader (ht_lease : HybridTime) (r : R) (m : MvccManager)
    : Outcome (MvccManager * bool) :=
  '(m, t) ← DoGetSafeTime kMin ht_lease r m;
  match t with
  | None => Done (m, false)
  | Some ht =>
      if release then
        Done (if ht <? propagated_safe_time_ m then m else set_propagated m ht, true)
      else
        _ ← CHECK (propagated_safe_time_ m <=? ht);
        Done (set_propagated m ht, true)
  end.

Definition SafeTimeForFollower (min_allowed : HybridTime) (m : MvccManager)
    : Outcome (MvccManager * option HybridTime) :=
  let result :=
    if last_replicated_ m <? propagated_safe_time_ m
    then mkSafeTime (propagated_safe_time_ m) kPropagated
    else mkSafeTime (last_replicated_ m) kLastReplicated in
  if min_allowed <=? safe_time result then
    _ ← CHECK (safe_time (max_safe_time_returned_for_follower_ m) <=? safe_time result);
    Done (set_returned_for_follower m result, Some (safe_time result))
  else Done (m, None).

Definition LastReplicatedHybridTime (m : MvccManager) : HybridTime := last_replicated_ m.

End Manager.

Arguments MvccManager : clear implicits.

(** ** Lemmas on the queues *)

Lemma pq_push_elem x y l : y ∈ pq_push x l ↔ y = x ∨ y ∈ l.
Proof.
  induction l as [|z l IH]; simpl; [set_solver|]. case_match; set_solver.
Qed.

Lemma pq_push_sorted x l :
  x ∉ l -> StronglySorted Z.lt l -> StronglySorted Z.lt (pq_push x l).
Proof.
  intros Hx Hs. induction Hs as [|y l Hs IH Hy]; simpl; [repeat constructor|].
  rewrite elem_of_cons in Hx. destruct (Z.leb_spec x y).
  - assert (x < y) by (assert (x ≠ y) by (intros ->; tauto); lia).
    constructor; [by constructor|]. constructor; [done|].
    eapply Forall_impl; [exact Hy|]. simpl. intros; lia.
  - constructor; [apply IH; tauto|]. apply Forall_forall. intros z Hz%pq_push_elem.
    destruct Hz as [->|Hz]; [lia|]. rewrite Forall_forall in Hy. auto.
Qed.

Lemma sorted_subset_length (a q : list Z) :
  StronglySorted Z.lt a -> a ⊆ q -> (length a <= length q)%nat.
Proof.
  intros Ha Hs. apply submseteq_length, NoDup_submseteq; [|done].
  induction Ha as [|x l Hl IH Hx]; constructor; [|apply IH; set_solver].
  intros Hin. rewrite Forall_forall in Hx. specialize (Hx x Hin). lia.
Qed.

(** In-flight operations: sorted times, and a sorted heap of aborted ones
    among those behind the front. *)
Definition queues_ok (q a : list HybridTime) : Prop :=
  StronglySorted Z.lt q /\ StronglySorted Z.lt a /\ a ⊆ tail q.

Lemma pop_aborted_spec a q :
  StronglySorted Z.lt q -> StronglySorted Z.lt a -> a ⊆ q ->
  ∃ q' a', pop_aborted a q = Done (q', a') /\ queues_ok q' a' /\
           q' `suffix_of` q /\ ∀ x, x ∈ q -> x ∉ a -> x ∈ q'.
Proof.
  intros Hq. revert a. induction Hq as [|f q Hq IH Hf]; intros a Ha Hsub.
  - destruct a as [|x a]; [|set_solver]. exists [], []. unfold queues_ok.
    split_and!; done.
  - destruct a as [|top a].
    { exists (f :: q), []. unfold queues_ok. split_and!; try done; [by constructor|set_solver]. }
    apply StronglySorted_inv in Ha as [Ha Htop]. rewrite Forall_forall in Hf, Htop.
    assert (∀ x, x ∈ a -> top < x) as Hta by done.
    assert (top ∈ f :: q) as Hin by set_solver.
    apply elem_of_cons in Hin. simpl. destruct (Z.eqb_spec f top) as [->|Hne]; simpl.
    + destruct (IH a) as (q' & a' & E & Hok & Hsuf & Hlive); [done| |].
      { intros x Hx. specialize (Hsub x ltac:(set_solver)). apply elem_of_cons in Hsub as [->|?]; [|done].
        specialize (Hta top Hx). lia. }
      exists q', a'. split_and!; try done; [apply Hok..|by apply suffix_cons_r|].
      intros x Hx Hxa. apply Hlive; set_solver.
    + destruct Hin as [->|Hin]; [done|]. pose proof (Hf top Hin) as Hlt.
      destruct (Z.ltb_spec f top); [|lia]. simpl.
      exists (f :: q), (top :: a). split_and!; try done.
      split_and!; [by constructor; [|apply Forall_forall]..|]. simpl.
      intros x Hx. specialize (Hsub x Hx). apply elem_of_cons in Hsub as [->|?]; [|done].
      apply elem_of_cons in Hx as [->|Hx]; [done|]. specialize (Hta f Hx). lia.
Qed.

Lemma queues_ok_tail f q a :
  queues_ok (f :: q) a -> StronglySorted Z.lt q /\ StronglySorted Z.lt a /\ a ⊆ q.
Proof. intros (Hq & Ha & Hs). apply StronglySorted_inv in Hq as [Hq _]. done. Qed.

Lemma sorted_front f q : StronglySorted Z.lt (f :: q) -> ∀ x, x ∈ q -> f < x.
Proof. intros Hs x Hx. apply StronglySorted_inv in Hs as [_ Hf]. rewrite Forall_forall in Hf. auto. Qed.

(** ** The leader *)
Section Leader.
Context {S R : Type} `{Clock S R}.
Context (release : bool).

Implicit Types m : MvccManager S.

Lemma PopFront_ok m f q :
  queue_ m = f :: q -> queues_ok (queue_ m) (aborted_ m) ->
  ∃ q' a', PopFront m = Done (set_queues m q' a') /\ queues_ok q' a' /\ q' `suffix_of` q /\
           ∀ x, x ∈ q -> x ∉ aborted_ m -> x ∈ q'.
Proof.
  intros Eq Hok. rewrite Eq in Hok. destruct (queues_ok_tail _ _ _ Hok) as (Hq & Ha & Hsub).
  destruct (pop_aborted_spec (aborted_ m) q Hq Ha Hsub) as (q' & a' & E & Hok' & Hsuf & Hlive).
  exists q', a'. unfold PopFront. rewrite Eq. cbn [tail].
  pose proof (sorted_subset_length _ _ Ha Hsub).
  destruct (Nat.leb_spec (length (aborted_ m)) (length q)); [|lia]. simpl. by rewrite E.
Qed.

(** Every time the manager has let out is below the clock and below every
    operation in flight. *)
Definition below m (t : HybridTime) : Prop :=
  0 <= t < clock_next (clock_ m) /\ ∀ q, q ∈ queue_ m -> t < q.

Record leader_inv m : Prop := {
  li_clock : clock_ok (clock_ m);
  li_queues : queues_ok (queue_ m) (aborted_ m);
  li_queue_next : ∀ q, q ∈ queue_ m -> 0 < q < clock_next (clock_ m);
  li_last_replicated : below m (last_replicated_ m);
  li_propagated : below m (propagated_safe_time_ m);
  li_with_lease : below m (safe_time (max_safe_time_returned_with_lease_ m));
  li_without_lease : below m (safe_time (max_safe_time_returned_without_lease_ m));
  li_follower : below m (safe_time (max_safe_time_returned_for_follower_ m));
  li_lease : safe_time (max_safe_time_returned_with_lease_ m) <=
             Z.max (max_ht_lease_seen_ m) (last_replicated_ m);
  li_propagated_lease : propagated_safe_time_ m <=
                        safe_time (max_safe_time_returned_with_lease_ m);
  li_follower_bound : safe_time (max_safe_time_returned_for_follower_ m) <=
                      Z.max (propagated_safe_time_ m) (last_replicated_ m)
}.

(** The methods a leader calls, with their arguments. *)
Inductive leader_op : Type :=
| OpAddPending
| OpReplicated (ht : HybridTime)
| OpAborted (ht : HybridTime)
| OpSafeTime (min_allowed ht_lease : HybridTime)
| OpUpdatePropagatedSafeTime (ht_lease : HybridTime)
| OpSafeTimeForFollower (min_allowed : HybridTime).

(** The time returned to the caller, if any. *)
Definition run (op : leader_op) (r : R) m : Outcome (MvccManager S * option HybridTime) :=
  match op with
  | OpAddPending => '(m', t) ← AddPending release kInvalid r m; Done (m', Some t)
  | OpReplicated ht => m' ← Replicated ht m; Done (m', None)
  | OpAborted ht => m' ← Aborted ht m; Done (m', None)
  | OpSafeTime min_allowed ht_lease => SafeTime min_allowed ht_lease r m
  | OpUpdatePropagatedSafeTime ht_lease =>
      '(m', _) ← UpdatePropagatedSafeTimeOnLeader release ht_lease r m; Done (m', None)
  | OpSafeTimeForFollower min_allowed => SafeTimeForFollower min_allowed m
  end.

(** What the callers guarantee, as documented in [mvcc.h]: operations are
    replicated in order, only operations in flight are aborted, once each,
    and read requests ask for a time that is not in the future and within
    the lease. *)
Definition allowed m (op : leader_op) : Prop :=
  match op with
  | OpAddPending => True
  | OpReplicated ht => head (queue_ m) = Some ht
  | OpAborted ht => ht ∈ queue_ m /\ ht ∉ aborted_ m
  | OpSafeTime min_allowed ht_lease =>
      is_valid ht_lease = true /\ 0 <= min_allowed <= ht_lease /\
      min_allowed <= clock_next (clock_ m)
  | OpUpdatePropagatedSafeTime ht_lease =>
      is_valid ht_lease = true /\ 0 <= ht_lease /\
      GetPhysicalValueMicros ht_lease < kMaxHybridTimePhysicalMicros
  | OpSafeTimeForFollower min_allowed => True
  end.

Lemma below_mono m m' t :
  clock_next (clock_ m) <= clock_next (clock_ m') ->
  (∀ q, q ∈ queue_ m' -> q ∈ queue_ m ∨ clock_next (clock_ m) <= q) ->
  below m t -> below m' t.
Proof.
  intros Hc Hq [Ht Hb]. split; [lia|]. intros q Hin.
  destruct (Hq q Hin) as [?|?]; [auto|lia].
Qed.

Lemma allowed_pop m q' a' :
  leader_inv m -> queues_ok q' a' -> q' ⊆ queue_ m -> leader_inv (set_queues m q' a').
Proof.
  intros [] Hok Hsub. unfold below in *. constructor; unfold below; simpl; auto;
    intuition eauto.
Qed.

Lemma leader_inv_clock m c :
  leader_inv m -> clock_next (clock_ m) <= clock_next c -> clock_ok c -> leader_inv (set_clock m c).
Proof.
  intros [] Hc Hok. unfold below in *. constructor; unfold below; simpl; auto;
    try (intuition lia). intros q Hq. specialize (li_queue_next0 q Hq). lia.
Qed.

Lemma leader_inv_lease m l :
  leader_inv m -> max_ht_lease_seen_ m <= l -> leader_inv (set_lease_seen m l).
Proof. intros [] Hl. constructor; simpl; auto. lia. Qed.

Lemma Replicated_ok m ht q :
  leader_inv m -> queue_ m = ht :: q ->
  ∃ m', Replicated ht m = Done m' /\ leader_inv m' /\ clock_ m' = clock_ m /\
        queue_ m' ⊆ queue_ m /\ last_replicated_ m' = ht.
Proof.
  intros Hinv Eq. destruct (PopFront_ok m ht q Eq (li_queues _ Hinv)) as (q' & a' & E & Hok & Hsuf & _).
  assert (q' ⊆ q) as Hsub by (destruct Hsuf as [k ->]; set_solver).
  assert (q' ⊆ queue_ m) as Hsub' by (rewrite Eq; set_solver).
  pose proof (allowed_pop m q' a' Hinv Hok Hsub') as Hinv'.
  assert (∀ x, x ∈ q' -> ht < x) as Hlt.
  { intros x Hx. destruct (li_queues _ Hinv) as (Hs & _). rewrite Eq in Hs. eapply sorted_front; eauto. }
  destruct (li_last_replicated _ Hinv) as [_ Hlr]. specialize (Hlr ht ltac:(rewrite Eq; set_solver)).
  pose proof (li_queue_next _ Hinv ht ltac:(rewrite Eq; set_solver)) as Hn.
  eexists. unfold Replicated. rewrite Eq, E, Z.eqb_refl. simpl. split; [done|].
  split; [|by simpl; rewrite <- Eq]. destruct Hinv'. simpl in *.
  constructor; simpl; auto; [|lia..]. split; [simpl; lia|done].
Qed.

Lemma Aborted_ok m ht :
  leader_inv m -> ht ∈ queue_ m -> ht ∉ aborted_ m ->
  ∃ m', Aborted ht m = Done m' /\ leader_inv m' /\ clock_ m' = clock_ m /\
        queue_ m' ⊆ queue_ m.
Proof.
  intros Hinv Hin Hna. unfold Aborted. destruct (queue_ m) as [|f q] eqn:Eq; [set_solver|].
  destruct (Z.eqb_spec f ht) as [->|Hne].
  - destruct (PopFront_ok m ht q Eq (li_queues _ Hinv)) as (q' & a' & E & Hok & Hsuf & _).
    assert (q' ⊆ ht :: q) as Hsub by (destruct Hsuf as [k ->]; set_solver).
    eexists. split; [done|]. split; [|done]. apply allowed_pop; [done..|by rewrite Eq].
  - eexists. split; [done|]. split; [|done]. apply allowed_pop; [done| |by rewrite Eq].
    pose proof (li_queues _ Hinv) as Hq. rewrite Eq in Hq. destruct Hq as (Hs & Ha & Hsub).
    split_and!; [done|by apply pq_push_sorted|]. simpl in *. intros x Hx%pq_push_elem.
    set_solver.
Qed.

Lemma safe_time_candidate_ok m min_allowed has_lease r :
  leader_inv m -> reading_ok r -> min_allowed <= clock_next (clock_ m) ->
  ∃ c t src, safe_time_candidate min_allowed has_lease r m = Done (c, mkSafeTime t src) /\
    clock_next (clock_ m) <= clock_next c /\ below (set_clock m c) t /\
    safe_time (if has_lease then max_safe_time_returned_with_lease_ m
               else max_safe_time_returned_without_lease_ m) <= t /\
    (has_lease = true -> t <= Z.max (max_ht_lease_seen_ m) (last_replicated_ m)) /\
    last_replicated_ m <= t.
Proof.
  intros Hinv Hr Hmin. destruct Hinv. unfold below in *. unfold safe_time_candidate.
  destruct (queue_ m) as [|f q] eqn:Eq.
  - destruct (clock_now_law r (clock_ m) li_clock0 Hr) as (c & t & E & Hct & Ht64 & _).
    rewrite E. simpl. destruct (Z.leb_spec min_allowed t); [|lia]. simpl.
    exists c. destruct has_lease; simpl; [destruct (Z.ltb_spec (max_ht_lease_seen_ m) t)|];
      do 2 eexists; (split; [reflexivity|]); rewrite Eq;
      split_and!; try lia; set_solver.
  - simpl. exists (clock_ m).
    assert (Decremented f = f - 1) as ->.
    { unfold Decremented. pose proof (li_queue_next0 f ltac:(set_solver)).
      destruct (Z.eqb_spec f 0); lia. }
    assert (∀ x, x ∈ f :: q -> f <= x) as Hfront.
    { intros x [->|Hx]%elem_of_cons; [lia|]. destruct li_queues0 as (Hs & _).
      pose proof (sorted_front _ _ Hs x Hx). lia. }
    pose proof (li_queue_next0 f ltac:(set_solver)).
    destruct li_last_replicated0 as [? Hl1]. specialize (Hl1 f ltac:(set_solver)).
    destruct li_with_lease0 as [? Hl2]. specialize (Hl2 f ltac:(set_solver)).
    destruct li_without_lease0 as [? Hl3]. specialize (Hl3 f ltac:(set_solver)).
    destruct has_lease; simpl; [destruct (Z.ltb_spec (max_ht_lease_seen_ m) (f - 1))|];
      do 2 eexists; (split; [reflexivity|]); rewrite Eq;
      split_and!; try lia; intros x Hx; specialize (Hfront x Hx); lia.
Qed.

Lemma DoGetSafeTime_ok m min_allowed ht_lease r :
  leader_inv m -> reading_ok r -> is_valid ht_lease = true -> min_allowed <= ht_lease ->
  min_allowed <= clock_next (clock_ m) ->
  ∃ m' res, DoGetSafeTime min_allowed ht_lease r m = Done (m', res) /\
    (clock_ok (clock_ m') -> leader_inv m') /\
    clock_next (clock_ m) <= clock_next (clock_ m') /\ queue_ m' = queue_ m /\
    propagated_safe_time_ m' = propagated_safe_time_ m /\
    (min_allowed <= last_replicated_ m -> is_Some res) /\
    ∀ t, res = Some t -> below m' t /\ min_allowed <= t /\
      (GetPhysicalValueMicros ht_lease < kMaxHybridTimePhysicalMicros ->
       safe_time (max_safe_time_returned_with_lease_ m) <= t /\
       safe_time (max_safe_time_returned_with_lease_ m') = t).
Proof.
  intros Hinv Hr Hv Hle Hmin. unfold DoGetSafeTime. rewrite Hv. simpl.
  destruct (Z.leb_spec min_allowed ht_lease); [|lia]. simpl.
  destruct (Z.ltb_spec (GetPhysicalValueMicros ht_lease) kMaxHybridTimePhysicalMicros) as [Hl|Hl].
  - pose proof (leader_inv_lease m (Z.max ht_lease (max_ht_lease_seen_ m)) Hinv ltac:(lia)) as Hinv1.
    destruct (safe_time_candidate_ok _ min_allowed true r Hinv1 Hr Hmin)
      as (c & t & src & E & Hc & Hb & Henf & Hlease & Hlr). simpl in *. rewrite E. simpl.
    specialize (Hlease eq_refl). destruct (Z.leb_spec min_allowed t).
    + destruct (Z.leb_spec (safe_time (max_safe_time_returned_with_lease_ m)) t); [|lia]. simpl.
      do 2 eexists. split; [reflexivity|]. simpl. split_and!; try done; [|by intros; simplify_eq].
      intros Hok. destruct (leader_inv_clock _ c Hinv1 Hc Hok). simpl in *.
      constructor; simpl; auto; lia.
    + do 2 eexists. split; [reflexivity|]. simpl. split_and!; try done; [|lia].
      intros Hok. by apply (leader_inv_clock _ c Hinv1).
  - destruct (safe_time_candidate_ok _ min_allowed false r Hinv Hr Hmin)
      as (c & t & src & E & Hc & Hb & Henf & _ & Hlr). simpl in *. rewrite E. simpl.
    destruct (Z.leb_spec min_allowed t).
    + destruct (Z.leb_spec (safe_time (max_safe_time_returned_without_lease_ m)) t); [|lia]. simpl.
      do 2 eexists. split; [reflexivity|]. simpl.
      split_and!; try done; [|by intros; simplify_eq; split_and!; [..|lia]].
      intros Hok. destruct (leader_inv_clock _ c Hinv Hc Hok). simpl in *.
      constructor; simpl; auto; lia.
    + do 2 eexists. split; [reflexivity|]. simpl. split_and!; try done; [|lia].
      intros Hok. by apply (leader_inv_clock _ c Hinv).
Qed.

Lemma sorted_snoc (q : list HybridTime) (t : HybridTime) :
  StronglySorted Z.lt q -> (∀ x, x ∈ q -> x < t) -> StronglySorted Z.lt (q ++ [t]).
Proof. intros Hs Hq. apply Concurrent.StronglySorted_snoc; [done|]. by apply Forall_forall. Qed.

Lemma last_in_queue_bound (q : list HybridTime) (b : Z) :
  (∀ x, x ∈ q -> x < b) -> 0 < b -> last_ht_in_queue q < b.
Proof.
  intros Hq Hb. unfold last_ht_in_queue. destruct (last q) as [x|] eqn:E; [|done].
  apply Hq. by apply last_Some_elem_of.
Qed.

(** On the leader the new time comes from the clock, above everything seen. *)
Lemma AddPending_ok m r :
  leader_inv m -> reading_ok r ->
  ∃ m' t, AddPending release kInvalid r m = Done (m', t) /\
    (clock_ok (clock_ m') -> leader_inv m') /\ queue_ m' = queue_ m ++ [t] /\
    clock_next (clock_ m) <= t < clock_next (clock_ m').
Proof.
  intros Hinv Hr. destruct (clock_now_law r (clock_ m) (li_clock _ Hinv) Hr) as (c & t & E & Hct & Ht64 & _).
  assert (∀ x, x ∈ queue_ m -> x < t) as Hqt.
  { intros x Hx. pose proof (li_queue_next _ Hinv x Hx). lia. }
  assert (0 < t) as Hpos.
  { destruct (li_last_replicated _ Hinv). unfold is_u in Ht64. lia. }
  pose proof (last_in_queue_bound _ t Hqt Hpos) as Hlast.
  unfold AddPending. change (is_valid kInvalid) with false. cbn [negb]. rewrite E.
  cbn [mbind outcome_bind queue_ aborted_ set_clock].
  assert (match queue_ m, aborted_ m with
          | _ :: _, top :: _ =>
              if t <=? last_ht_in_queue (queue_ m) then
                let '(before, from) := lower_bound_split (queue_ m) top in
                match from with
                | [] => Fatal
                | _ => '(aborted, rest) ← pop_tail (aborted_ m) from;
                       Done (set_queues (set_clock m c) (before ++ rest) aborted)
                end
              else Done (set_clock m c)
          | _, _ => Done (set_clock m c)
          end = Done (set_clock m c)) as ->.
  { destruct (Z.leb_spec t (last_ht_in_queue (queue_ m))); [lia|]. by repeat case_match. }
  cbn [mbind outcome_bind queue_ aborted_ set_clock max_safe_time_returned_with_lease_
       max_safe_time_returned_without_lease_ max_safe_time_returned_for_follower_ last_replicated_].
  destruct (li_last_replicated _ Hinv), (li_with_lease _ Hinv), (li_without_lease _ Hinv),
    (li_follower _ Hinv).
  match goal with |- context [t <=? ?b] => destruct (Z.leb_spec t b) as [?|_]; [lia|] end.
  rewrite andb_false_r. cbn [mbind outcome_bind].
  do 2 eexists. split; [reflexivity|]. split_and!; [|done|lia|simpl; lia].
  intros Hok. destruct (leader_inv_clock m c Hinv ltac:(lia) Hok).
  assert (∀ s, below (set_clock m c) s -> s < t ->
    below (set_queues (set_clock m c) (queue_ m ++ [t]) (aborted_ m)) s) as Hbelow.
  { intros s [Hs1 Hs2] Hst. split; [done|]. intros x [Hx|Hx]%elem_of_app; [auto|set_solver]. }
  constructor; simpl; auto; try (apply Hbelow; [done|lia]).
  - destruct li_queues0 as (Hs & Ha & Hsub). split_and!; [by apply sorted_snoc|done|].
    simpl in *. destruct (queue_ m); set_solver.
  - intros x [Hx|Hx]%elem_of_app; [apply (li_queue_next0 x Hx)|]. set_solver by lia.
  - apply Hbelow; [done|]. destruct (li_propagated _ Hinv). lia.
Qed.

Lemma UpdatePropagated_ok m ht_lease r :
  leader_inv m -> reading_ok r -> is_valid ht_lease = true -> 0 <= ht_lease ->
  GetPhysicalValueMicros ht_lease < kMaxHybridTimePhysicalMicros ->
  ∃ m', UpdatePropagatedSafeTimeOnLeader release ht_lease r m = Done (m', true) /\
    (clock_ok (clock_ m') -> leader_inv m') /\
    clock_next (clock_ m) <= clock_next (clock_ m') /\ queue_ m' = queue_ m.
Proof.
  intros Hinv Hr Hv H0 Hl. destruct (li_last_replicated _ Hinv) as [Hlr _].
  assert (kMin <= clock_next (clock_ m) /\ kMin <= last_replicated_ m) as [Hk1 Hk2]
    by (unfold kMin, kMinHybridTimeValue; lia).
  destruct (DoGetSafeTime_ok m kMin ht_lease r Hinv Hr Hv H0 Hk1) as
    (m1 & res & E & Hinv1 & Hc & Hq & Hp & Hsome & Ht).
  destruct (Hsome Hk2) as [t ->]. destruct (Ht t eq_refl) as (Hb & _ & Hw).
  destruct (Hw Hl) as [Hw1 Hw2]. pose proof (li_propagated_lease _ Hinv).
  assert (clock_ok (clock_ m1) -> leader_inv (set_propagated m1 t)) as Hinv2.
  { intros Hok. destruct (Hinv1 Hok). constructor; simpl; auto; lia. }
  unfold UpdatePropagatedSafeTimeOnLeader. rewrite E. simpl.
  destruct release.
  - destruct (Z.ltb_spec t (propagated_safe_time_ m1)); [lia|]. by exists (set_propagated m1 t).
  - destruct (Z.leb_spec (propagated_safe_time_ m1) t); [|lia]. by exists (set_propagated m1 t).
Qed.

Lemma SafeTimeForFollower_ok m min_allowed :
  leader_inv m ->
  ∃ m' res, SafeTimeForFollower min_allowed m = Done (m', res) /\ leader_inv m' /\
    clock_ m' = clock_ m /\ queue_ m' = queue_ m /\
    ∀ t, res = Some t -> below m' t /\ min_allowed <= t.
Proof.
  intros Hinv. pose proof (li_follower_bound _ Hinv) as Hbound. unfold SafeTimeForFollower.
  assert (∀ t src, below m t -> t = Z.max (propagated_safe_time_ m) (last_replicated_ m) ->
    leader_inv (set_returned_for_follower m (mkSafeTime t src))) as Hset.
  { intros t src Hb ->. destruct Hinv. constructor; simpl; auto; lia. }
  destruct (Z.ltb_spec (last_replicated_ m) (propagated_safe_time_ m)); simpl.
  - destruct (Z.leb_spec min_allowed (propagated_safe_time_ m)); [|by do 2 eexists].
    match goal with |- context [CHECK ?b] => destruct b eqn:Eb end; [|apply Z.leb_gt in Eb; lia].
    do 2 eexists. split; [reflexivity|]. pose proof (li_propagated _ Hinv) as Hb.
    split_and!; [apply Hset; [done|lia]|done..|]. by intros t [= <-].
  - destruct (Z.leb_spec min_allowed (last_replicated_ m)); [|by do 2 eexists].
    match goal with |- context [CHECK ?b] => destruct b eqn:Eb end; [|apply Z.leb_gt in Eb; lia].
    do 2 eexists. split; [reflexivity|]. pose proof (li_last_replicated _ Hinv) as Hb.
    split_and!; [apply Hset; [done|lia]|done..|]. by intros t [= <-].
Qed.

(** One step of the leader: it succeeds, keeps the invariant as long as the
    clock has room, and lets new operations in only above the clock. *)
Lemma run_ok m op r :
  leader_inv m -> allowed m op -> reading_ok r ->
  ∃ m' res, run op r m = Done (m', res) /\
    (clock_ok (clock_ m') -> leader_inv m') /\
    clock_next (clock_ m) <= clock_next (clock_ m') /\
    (∀ q, q ∈ queue_ m' -> q ∈ queue_ m ∨ clock_next (clock_ m) <= q) /\
    (op = OpAddPending -> ∃ t, res = Some t /\ clock_next (clock_ m) <= t) /\
    (op ≠ OpAddPending -> ∀ t, res = Some t -> below m' t).
Proof.
  intros Hinv Hop Hr. destruct op as [|ht|ht|mn l|l|mn]; simpl in Hop; unfold run.
  - destruct (AddPending_ok m r Hinv Hr) as (m' & t & -> & Hinv' & Hq & Ht). simpl.
    do 2 eexists. split; [done|]. split_and!; [done|lia| |intros _; exists t; split; [done|lia]|done].
    rewrite Hq. set_solver by lia.
  - destruct (queue_ m) as [|f q] eqn:Eq; [done|]. injection Hop as ->.
    destruct (Replicated_ok m ht q Hinv Eq) as (m' & -> & Hinv' & Hc & Hq & _). simpl.
    do 2 eexists. split; [done|]. rewrite Eq in Hq. rewrite Hc. split_and!; try done. set_solver.
  - destruct Hop as [Hin Hna].
    destruct (Aborted_ok m ht Hinv Hin Hna) as (m' & -> & Hinv' & Hc & Hq). simpl.
    do 2 eexists. split; [done|]. rewrite Hc. split_and!; try done. set_solver.
  - destruct Hop as (Hv & [_ Hle] & Hmin).
    destruct (DoGetSafeTime_ok m mn l r Hinv Hr Hv Hle Hmin)
      as (m' & res & E & Hinv' & Hc & Hq & _ & _ & Ht).
    do 2 eexists. split; [done|]. rewrite Hq. split_and!; try done; [set_solver|].
    intros _ t Hres. by apply Ht.
  - destruct Hop as (Hv & H0 & Hl).
    destruct (UpdatePropagated_ok m l r Hinv Hr Hv H0 Hl) as (m' & -> & Hinv' & Hc & Hq). simpl.
    do 2 eexists. split; [done|]. rewrite Hq. split_and!; try done. set_solver.
  - destruct (SafeTimeForFollower_ok m mn Hinv) as (m' & res & E & Hinv' & Hc & Hq & Ht).
    do 2 eexists. split; [done|]. rewrite Hc, Hq. split_and!; try done; [set_solver|].
    intros _ t Hres. by apply Ht.
Qed.

(** Steps of a leader whose clock has room. *)
Inductive leader_step m : MvccManager S -> Prop :=
| leader_step_run op r m' res :
    allowed m op -> reading_ok r -> run op r m = Done (m', res) -> clock_ok (clock_ m') ->
    leader_step m m'.

Lemma leader_step_ok m m' :
  leader_inv m -> leader_step m m' ->
  leader_inv m' /\ ∀ t, below m t -> below m' t.
Proof.
  intros Hinv [op r m2 res Hop Hr E Hok].
  destruct (run_ok m op r Hinv Hop Hr) as (m3 & res' & E' & Hinv' & Hc & Hq & _).
  rewrite E in E'. simplify_eq. split; [auto|]. intros t. by apply below_mono.
Qed.

Lemma leader_steps_ok m m' :
  leader_inv m -> rtc leader_step m m' ->
  leader_inv m' /\ ∀ t, below m t -> below m' t.
Proof.
  intros Hinv Hs. induction Hs as [m|m m1 m' H1 _ IH]; [done|].
  destruct (leader_step_ok _ _ Hinv H1) as [Hinv1 Hb]. destruct (IH Hinv1) as [? Hb'].
  split; [done|]. auto.
Qed.

Lemma new_MvccManager_inv c :
  clock_ok c -> 0 < clock_next c -> leader_inv (new_MvccManager c).
Proof.
  intros Hc H0. assert (below (new_MvccManager c) kMin) as Hb.
  { split; [simpl; unfold kMin, kMinHybridTimeValue; lia|]. simpl. set_solver. }
  constructor; simpl; auto; try (unfold kMin, kMinHybridTimeValue; lia).
  - split_and!; [constructor|constructor|set_solver].
  - set_solver.
Qed.

(** ** Followers: overwriting an aborted tail *)

Lemma lower_bound_split_app before x rest :
  StronglySorted Z.lt (before ++ x :: rest) ->
  lower_bound_split (before ++ x :: rest) x = (before, x :: rest).
Proof.
  induction before as [|b before IH]; simpl; intros Hs.
  - by rewrite Z.ltb_irrefl.
  - pose proof (sorted_front _ _ Hs x ltac:(set_solver)) as Hlt.
    apply StronglySorted_inv in Hs as [Hs _].
    destruct (Z.ltb_spec b x); [|lia]. by rewrite IH.
Qed.

Lemma pop_tail_app (block after : list HybridTime) :
  pop_tail block (block ++ after) = match after with [] => Done ([], []) | _ => Undefined end.
Proof. induction block as [|b block IH]; simpl; [by destruct after|]. by rewrite Z.eqb_refl. Qed.

Lemma lower_bound_split_eq queue v before from :
  lower_bound_split queue v = (before, from) -> queue = before ++ from.
Proof.
  revert before. induction queue as [|q qs IH]; simpl; intros before; [by intros [= <- <-]|].
  destruct (q <? v); [|by intros [= <- <-]]. destruct (lower_bound_split qs v) as [b f].
  intros [= <- <-]. simpl. f_equal. by apply IH.
Qed.

(** The loop reads the top of the empty heap only past the whole block. *)
Lemma pop_tail_undefined (aborted from : list HybridTime) :
  pop_tail aborted from = Undefined -> ∃ after, after ≠ [] /\ from = aborted ++ after.
Proof.
  revert aborted. induction from as [|it from IH]; intros [|top rest]; simpl; try done; [by exists (it :: from)|].
  destruct (Z.eqb_spec it top) as [->|]; [|done]. intros (after & ? & ->)%IH. by exists after.
Qed.

Lemma AddPending_follower_undefined m ht r :
  is_valid ht = true -> AddPending release ht r m = Undefined ->
  ht <= last_ht_in_queue (queue_ m) /\ aborted_ m ≠ [] /\
  ∃ before after, after ≠ [] /\ queue_ m = before ++ aborted_ m ++ after.
Proof.
  intros Hv E. unfold AddPending in E. rewrite Hv in E. cbn [mbind outcome_bind negb] in E.
  assert (∀ m1, (ht1 ← (if negb (bool_decide (queue_ m1 = [])) &&
        (ht <=? Z.max (safe_time (max_safe_time_returned_with_lease_ m1))
          (Z.max (safe_time (max_safe_time_returned_without_lease_ m1))
            (Z.max (safe_time (max_safe_time_returned_for_follower_ m1))
              (Z.max (last_replicated_ m1) (last_ht_in_queue (queue_ m1))))))
      then if ht <=? Z.max (safe_time (max_safe_time_returned_with_lease_ m1))
          (Z.max (safe_time (max_safe_time_returned_without_lease_ m1))
            (Z.max (safe_time (max_safe_time_returned_for_follower_ m1))
              (Z.max (last_replicated_ m1) (last_ht_in_queue (queue_ m1))))) then Fatal else Done ht
      else Done ht); Done (set_queues m1 (queue_ m1 ++ [ht1]) (aborted_ m1), ht1)) ≠ Undefined) as Hend
    by (intros m1; by repeat case_match).
  rewrite andb_false_r in E. cbn [andb] in E. destruct (queue_ m) as [|f q] eqn:Eq; [by destruct (Hend m)|].
  destruct (aborted_ m) as [|top block] eqn:Ea; [by destruct (Hend m)|].
  destruct (Z.leb_spec ht (last_ht_in_queue (f :: q))) as [Hle|]; [|by destruct (Hend m)]. split; [done|]. split; [done|].
  destruct (lower_bound_split (f :: q) top) as [before from] eqn:El. destruct from as [|x from]; [done|].
  destruct (pop_tail (top :: block) (x :: from)) as [[a rest]| |] eqn:Ep; [|done|].
  - by destruct (Hend (set_queues m (before ++ rest) a)).
  - apply pop_tail_undefined in Ep as (after & Hne & Ep). apply lower_bound_split_eq in El. rewrite Ep in El. by exists before, after.
Qed.

(** The part of [AddPending] that drops aborted operations, on a follower. *)
Lemma AddPending_follower_unfold m ht r before top block after :
  is_valid ht = true -> aborted_ m = top :: block ->
  queue_ m = before ++ (top :: block) ++ after -> StronglySorted Z.lt (queue_ m) ->
  ht <= last_ht_in_queue (queue_ m) ->
  AddPending release ht r m =
  match after with
  | [] =>
      let m1 := set_queues m before [] in
      let lb := Z.max (safe_time (max_safe_time_returned_with_lease_ m))
        (Z.max (safe_time (max_safe_time_returned_without_lease_ m))
          (Z.max (safe_time (max_safe_time_returned_for_follower_ m))
            (Z.max (last_replicated_ m) (last_ht_in_queue before)))) in
      if negb (bool_decide (before = [])) && (ht <=? lb) then Fatal
      else Done (set_queues m (before ++ [ht]) [], ht)
  | _ => Undefined
  end.
Proof.
  intros Hv Ha Hq Hs Hle. unfold AddPending. rewrite Hv. cbn [mbind outcome_bind].
  rewrite Ha. destruct (queue_ m) as [|f q] eqn:Eq; [by destruct before|].
  destruct (Z.leb_spec ht (last_ht_in_queue (f :: q))); [|lia].
  rewrite Hq in Hs |- *. change ((top :: block) ++ after) with (top :: (block ++ after)) in *.
  rewrite (lower_bound_split_app _ _ _ Hs).
  change (top :: (block ++ after)) with ((top :: block) ++ after). rewrite pop_tail_app.
  destruct after as [|a after]; [|done]. cbn [mbind outcome_bind].
  rewrite app_nil_r. simpl. rewrite andb_false_r. simpl.
  destruct (bool_decide (before = [])); simpl; [done|].
  by match goal with |- context [ht <=? ?b] => destruct (ht <=? b) end.
Qed.

End Leader.

(** ** Properties *)



(** C14: on a leader, where operations get their times from the clock, the
    safe time is final. Once [SafeTime] has returned [t], every
    operation in flight in any later state has a time above [t], and every
    operation added later gets a time above [t]; so what a read at [t] sees
    never changes. The returned time also respects the caller's lower bound. *)
Theorem mvcc_safe_time_final {S R} `{Clock S R} (release : bool) (c : S)
    (m0 m1 m2 : MvccManager S) (min_allowed ht_lease t : HybridTime) (r r' : R) :
  clock_ok c -> 0 < clock_next c ->
  rtc (leader_step release) (new_MvccManager c) m0 ->
  allowed m0 (OpSafeTime min_allowed ht_lease) -> reading_ok r ->
  SafeTime min_allowed ht_lease r m0 = Done (m1, Some t) -> clock_ok (clock_ m1) ->
  rtc (leader_step release) m1 m2 -> reading_ok r' ->
  min_allowed <= t /\ (∀ q, q ∈ queue_ m2 -> t < q) /\
  ∃ m3 ht, AddPending release kInvalid r' m2 = Done (m3, ht) /\ t < ht.
Proof.
  intros Hc H0 Hs (Hv & [_ Hle] & Hmin) Hr E Hok1 Hs2 Hr'.
  destruct (leader_steps_ok release _ m0 (new_MvccManager_inv c Hc H0) Hs) as [Hinv0 _].
  destruct (DoGetSafeTime_ok m0 min_allowed ht_lease r Hinv0 Hr Hv Hle Hmin)
    as (m1' & res & E' & Hinv1 & _ & _ & _ & _ & Ht).
  unfold SafeTime in E. rewrite E' in E. simplify_eq.
  destruct (Ht t eq_refl) as (Hb & Hmin' & _).
  destruct (leader_steps_ok release m1 m2 (Hinv1 Hok1) Hs2) as [Hinv2 Hb2].
  destruct (Hb2 t Hb) as [Htc Hq]. split; [done|]. split; [done|].
  destruct (AddPending_ok release m2 r' Hinv2 Hr') as (m3 & ht & E3 & _ & _ & Hht).
  exists m3, ht. split; [done|]. lia.
Qed.

Lemma mvcc_safe_time_final_witness :
  20 <= 21 /\ (∀ q, q ∈ [] -> 21 < q) /\
  ∃ m3 ht, AddPending true kInvalid () (set_returned (set_lease_seen (new_MvccManager 21) 4096) true
    (mkSafeTime 21 kNow)) = Done (m3, ht) /\ 21 < ht.
Proof.
  apply (mvcc_safe_time_final (S := Z) (R := unit) true 20 (new_MvccManager 20)
    (set_returned (set_lease_seen (new_MvccManager 21) 4096) true (mkSafeTime 21 kNow))
    (set_returned (set_lease_seen (new_MvccManager 21) 4096) true (mkSafeTime 21 kNow))
    20 4096 21 () ()).
  - simpl. lia.
  - simpl. lia.
  - apply rtc_refl.
  - simpl. split; [reflexivity|]. lia.
  - done.
  - vm_compute. reflexivity.
  - simpl. lia.
  - apply rtc_refl.
  - done.
Defined.

(** On a follower, a new operation whose time is not above the queue
    replaces the aborted tail of the queue: exactly the aborted operations
    are dropped, provided the new time is above every time already exposed
    or there is no other operation left in flight. *)
Theorem mvcc_overwrites_aborted_tail {S R} `{Clock S R} (release : bool) (m : MvccManager S)
    (ht : HybridTime) (r : R) (live : list HybridTime) :
  is_valid ht = true -> aborted_ m ≠ [] -> queue_ m = live ++ aborted_ m ->
  StronglySorted Z.lt (queue_ m) -> ht <= last_ht_in_queue (queue_ m) ->
  (live = [] ∨ (last_ht_in_queue live < ht /\ last_replicated_ m < ht /\
     safe_time (max_safe_time_returned_with_lease_ m) < ht /\
     safe_time (max_safe_time_returned_without_lease_ m) < ht /\
     safe_time (max_safe_time_returned_for_follower_ m) < ht)) ->
  AddPending release ht r m = Done (set_queues m (live ++ [ht]) [], ht).
Proof.
  intros Hv Ha Hq Hs Hle Hbound. destruct (aborted_ m) as [|top block] eqn:Ea; [done|].
  rewrite (AddPending_follower_unfold release m ht r live top block []); try done;
    [|by rewrite app_nil_r].
  destruct Hbound as [->|Hb]; [done|]. case_bool_decide; [done|]. simpl.
  match goal with |- context [ht <=? ?b] => destruct (Z.leb_spec ht b); [lia|done] end.
Qed.

Lemma mvcc_overwrites_aborted_tail_witness :
  AddPending true 4 () (set_queues (new_MvccManager 9) [3; 5; 6] [5; 6]) =
  Done (set_queues (new_MvccManager 9) [3; 4] [], 4).
Proof.
  apply (mvcc_overwrites_aborted_tail (S := Z) (R := unit) true
    (set_queues (new_MvccManager 9) [3; 5; 6] [5; 6]) 4 () [3]);
    [reflexivity | done | reflexivity | repeat constructor | done |].
  right. repeat split.
Defined.

(** C40: on a follower, [AddPending] reads the top of an empty heap exactly when
    the new time is not above the queue and the aborted operations are
    neighbours in the queue with operations after them: the loop that drops the
    block goes on to the operation after it when the heap is empty. *)
Theorem mvcc_aborted_middle_undefined {S R} `{Clock S R} (release : bool) (m : MvccManager S)
    (ht : HybridTime) (r : R) :
  is_valid ht = true -> StronglySorted Z.lt (queue_ m) ->
  AddPending release ht r m = Undefined <->
  ht <= last_ht_in_queue (queue_ m) /\ aborted_ m ≠ [] /\
  ∃ before after, after ≠ [] /\ queue_ m = before ++ aborted_ m ++ after.
Proof.
  intros Hv Hs. split; [by apply AddPending_follower_undefined|].
  intros (Hle & Ha & before & after & Hafter & Hq). destruct (aborted_ m) as [|top block] eqn:Ea; [done|].
  rewrite (AddPending_follower_unfold release m ht r before top block after) by done.
  by destruct after.
Qed.

(** The second of three operations aborted, and the first and third of four. *)
Lemma mvcc_aborted_middle_undefined_witness :
  AddPending true 3 () (set_queues (new_MvccManager 9) [1; 2; 3] [2]) = Undefined /\
  AddPending true 3 () (set_queues (new_MvccManager 9) [1; 2; 3; 4] [1; 3]) ≠ Undefined.
Proof.
  split.
  - apply (mvcc_aborted_middle_undefined (S := Z) (R := unit) true
      (set_queues (new_MvccManager 9) [1; 2; 3] [2]) 3 ()); [reflexivity | repeat constructor |].
    split; [done|]. split; [done|]. by exists [1], [3].
  - vm_compute. discriminate.
Defined.
