(* ===== verification/ValueType.v ===== *)
(** * Value type tags ([src/yb/docdb/value_type.h])

    The one-byte tags that start every component of a DocDB key or value,
    their classification, and the intent types. *)

From S2P Require Import Prelude.
Local Open Scope Z_scope.

Inductive ValueType : Type :=
| kLowest | kObsoleteIntentPrefix | kIntentTypeSet | kObsoleteIntentTypeSet
| kObsoleteIntentType | kGroupEnd | kHybridTime | kNull | kCounter | kSSForward
| kSSReverse | kRedisSet | kRedisList | kRedisTS | kRedisSortedSet | kInetaddress
| kInetaddressDescending | kJsonb | kFrozen | kFrozenDescending | kArray | kVarInt
| kFloat | kDouble | kDecimal | kFalse | kUInt16Hash | kInt32 | kInt64 | kSystemColumnId
| kColumnId | kDoubleDescending | kFloatDescending | kUInt32 | kString | kTrue
| kTombstone | kArrayIndex | kUuid | kUuidDescending | kStringDescending
| kInt64Descending | kTimestampDescending | kDecimalDescending | kInt32Descending
| kVarIntDescending | kUInt32Descending | kTrueDescending | kFalseDescending
| kMergeFlags | kTimestamp | kTtl | kUserTimestamp | kWriteId | kTransactionId | kTableId
| kObject | kNullDescending | kGroupEndDescending | kHighest | kInvalid | kMaxByte.

#[export] Instance ValueType_eq_dec : EqDecision ValueType.
Proof. solve_decision. Defined.

(** [ValueTypeAsChar], as an unsigned byte. *)
Definition ValueTypeAsChar (t : ValueType) : Z :=
  match t with
  | kLowest => 0 | kObsoleteIntentPrefix => 10 | kIntentTypeSet => 13
  | kObsoleteIntentTypeSet => 15 | kObsoleteIntentType => 20 | kGroupEnd => 33
  | kHybridTime => 35 | kNull => 36 | kCounter => 37 | kSSForward => 38 | kSSReverse => 39
  | kRedisSet => 40 | kRedisList => 41 | kRedisTS => 43 | kRedisSortedSet => 44
  | kInetaddress => 45 | kInetaddressDescending => 46 | kJsonb => 50 | kFrozen => 60
  | kFrozenDescending => 62 | kArray => 65 | kVarInt => 66 | kFloat => 67 | kDouble => 68
  | kDecimal => 69 | kFalse => 70 | kUInt16Hash => 71 | kInt32 => 72 | kInt64 => 73
  | kSystemColumnId => 74 | kColumnId => 75 | kDoubleDescending => 76
  | kFloatDescending => 77 | kUInt32 => 79 | kString => 83 | kTrue => 84 | kTombstone => 88
  | kArrayIndex => 91 | kUuid => 95 | kUuidDescending => 96 | kStringDescending => 97
  | kInt64Descending => 98 | kTimestampDescending => 99 | kDecimalDescending => 100
  | kInt32Descending => 101 | kVarIntDescending => 102 | kUInt32Descending => 103
  | kTrueDescending => 104 | kFalseDescending => 105 | kMergeFlags => 107
  | kTimestamp => 115 | kTtl => 116 | kUserTimestamp => 117 | kWriteId => 119
  | kTransactionId => 120 | kTableId => 121 | kObject => 123 | kNullDescending => 124
  | kGroupEndDescending => 125 | kHighest => 126 | kInvalid => 127 | kMaxByte => 255
  end.

Definition kValueTypeList : list ValueType :=
  [kLowest; kObsoleteIntentPrefix; kIntentTypeSet; kObsoleteIntentTypeSet;
   kObsoleteIntentType; kGroupEnd; kHybridTime; kNull; kCounter; kSSForward; kSSReverse;
   kRedisSet; kRedisList; kRedisTS; kRedisSortedSet; kInetaddress; kInetaddressDescending;
   kJsonb; kFrozen; kFrozenDescending; kArray; kVarInt; kFloat; kDouble; kDecimal; kFalse;
   kUInt16Hash; kInt32; kInt64; kSystemColumnId; kColumnId; kDoubleDescending;
   kFloatDescending; kUInt32; kString; kTrue; kTombstone; kArrayIndex; kUuid;
   kUuidDescending; kStringDescending; kInt64Descending; kTimestampDescending;
   kDecimalDescending; kInt32Descending; kVarIntDescending; kUInt32Descending;
   kTrueDescending; kFalseDescending; kMergeFlags; kTimestamp; kTtl; kUserTimestamp;
   kWriteId; kTransactionId; kTableId; kObject; kNullDescending; kGroupEndDescending;
   kHighest; kInvalid; kMaxByte].

(** [static_cast<ValueType>] of a byte; [None] for a byte that names no
    enumerator, which no [switch] has a case for. *)
Definition DecodeValueType (value_type_byte : Z) : option ValueType :=
  list_find (λ t, ValueTypeAsChar t = value_type_byte) kValueTypeList ≫= λ p, Some p.2.

(** [DecodeValueType] and [ConsumeValueType] of a slice. *)
Definition ConsumeValueType (slice : bytes) : option ValueType * bytes :=
  match slice with
  | [] => (Some kInvalid, [])
  | b :: rest => (DecodeValueType b, rest)
  end.

Definition is_one_of (t : ValueType) (l : list ValueType) : bool := bool_decide (t ∈ l).

Definition IsObjectType (value_type : ValueType) : bool :=
  is_one_of value_type
    [kRedisTS; kObject; kRedisSet; kRedisSortedSet; kSSForward; kSSReverse; kRedisList].

Definition IsCollectionType (value_type : ValueType) : bool :=
  IsObjectType value_type || is_one_of value_type [kArray].

Definition kMinPrimitiveValueType : ValueType := kNull.
Definition kMaxPrimitiveValueType : ValueType := kNullDescending.

Definition IsPrimitiveValueType (value_type : ValueType) : bool :=
  (ValueTypeAsChar kMinPrimitiveValueType <=? ValueTypeAsChar value_type)
  && (ValueTypeAsChar value_type <=? ValueTypeAsChar kMaxPrimitiveValueType)
  && negb (IsCollectionType value_type) && negb (is_one_of value_type [kTombstone]).

Definition IsSpecialValueType (value_type : ValueType) : bool :=
  is_one_of value_type [kLowest; kHighest].

Definition IsPrimitiveOrSpecialValueType (value_type : ValueType) : bool :=
  IsPrimitiveValueType value_type || IsSpecialValueType value_type.

Definition IsMergeRecord (value : bytes) : bool :=
  bool_decide ((ConsumeValueType value).1 = Some kMergeFlags).

(** ** Intent types *)

Definition kWeakIntentFlag : Z := 0.
Definition kStrongIntentFlag : Z := 2.
Definition kReadIntentFlag : Z := 0.
Definition kWriteIntentFlag : Z := 1.

Inductive IntentType : Type := kWeakRead | kWeakWrite | kStrongRead | kStrongWrite.

#[export] Instance IntentType_eq_dec : EqDecision IntentType.
Proof. solve_decision. Defined.

Definition intent_to_underlying (t : IntentType) : Z :=
  match t with
  | kWeakRead => Z.lor kWeakIntentFlag kReadIntentFlag
  | kWeakWrite => Z.lor kWeakIntentFlag kWriteIntentFlag
  | kStrongRead => Z.lor kStrongIntentFlag kReadIntentFlag
  | kStrongWrite => Z.lor kStrongIntentFlag kWriteIntentFlag
  end.

Definition kIntentTypeList : list IntentType := [kWeakRead; kWeakWrite; kStrongRead; kStrongWrite].
Definition kIntentTypeMapSize : Z := 4.

(** ** Lemmas *)

Lemma DecodeValueType_AsChar t : DecodeValueType (ValueTypeAsChar t) = Some t.
Proof. by destruct t. Qed.

Lemma ValueTypeAsChar_inj : Inj (=) (=) ValueTypeAsChar.
Proof.
  intros a b E. apply (f_equal DecodeValueType) in E. rewrite !DecodeValueType_AsChar in E.
  congruence.
Qed.

Lemma ValueTypeAsChar_byte t : byte_ok (ValueTypeAsChar t).
Proof. destruct t; unfold is_u; simpl; lia. Qed.
