(* ===== verification/Intents.v ===== *)
(** * Intents ([src/yb/docdb/intent.cc], [intent.h], the intent helpers of
    [docdb.cc] and [shared_lock_manager.cc], [common/transaction.cc])

    Sets of intent types, their conflicts, and the decoding of intent keys
    and values. *)

From S2P Require Import Prelude DocKvUtil HybridTime FastVarInt DocHybridTime ValueType.
Local Open Scope Z_scope.

(** ** Sets of intent types: [EnumBitSet<IntentType>], a [std::bitset<4>] *)

Abbreviation IntentTypeSet := Z.

Definition new_IntentTypeSet (value : Z) : IntentTypeSet := value mod 2 ^ kIntentTypeMapSize.

Definition Test (s : IntentTypeSet) (t : IntentType) : bool := Z.testbit s (intent_to_underlying t).

Definition Set_ (s : IntentTypeSet) (t : IntentType) : IntentTypeSet :=
  Z.lor s (Z.shiftl 1 (intent_to_underlying t)).

Definition IntentTypeSet_of (l : list IntentType) : IntentTypeSet := foldl Set_ 0 l.

(** Iteration: the members in the order of the enumeration. *)
Definition members (s : IntentTypeSet) : list IntentType := filter (λ t, Test s t) kIntentTypeList.

Definition set_ok (s : IntentTypeSet) : Prop := 0 <= s < 16.

(** ** Conflicts *)

Definition IntentTypesConflict (lhs rhs : IntentType) : bool :=
  let lhs_value := intent_to_underlying lhs in
  let rhs_value := intent_to_underlying rhs in
  (negb (Z.land lhs_value kStrongIntentFlag =? 0) || negb (Z.land rhs_value kStrongIntentFlag =? 0))
  && negb (Z.land lhs_value kWriteIntentFlag =? Z.land rhs_value kWriteIntentFlag).

Definition IntentTypeSetsConflict (lhs rhs : IntentTypeSet) : bool :=
  existsb (λ intent1, existsb (λ intent2, IntentTypesConflict intent1 intent2) (members rhs))
    (members lhs).

(** ** Strong and weak intents *)

Inductive IsolationLevel : Type :=
| SNAPSHOT_ISOLATION | SERIALIZABLE_ISOLATION | NON_TRANSACTIONAL.

Inductive OperationKind : Type := kRead | kWrite.

Definition StrongToWeak (inp : IntentTypeSet) : IntentTypeSet :=
  new_IntentTypeSet (Z.shiftr inp kStrongIntentFlag).

Definition WeakToStrong (inp : IntentTypeSet) : IntentTypeSet :=
  new_IntentTypeSet (Z.shiftl inp kStrongIntentFlag).

Definition AllStrongIntents : IntentTypeSet := IntentTypeSet_of [kStrongRead; kStrongWrite].

(** [LOG(DFATAL)] dies in a debug build only. *)
Definition GetStrongIntentTypeSet (release : bool) (level : IsolationLevel)
    (operation_kind : OperationKind) : Outcome IntentTypeSet :=
  match level with
  | SNAPSHOT_ISOLATION => Done (IntentTypeSet_of [kStrongRead; kStrongWrite])
  | SERIALIZABLE_ISOLATION =>
      match operation_kind with
      | kRead => Done (IntentTypeSet_of [kStrongRead])
      | kWrite => Done (IntentTypeSet_of [kStrongWrite])
      end
  | NON_TRANSACTIONAL => if release then Done 0 else Fatal
  end.

Definition HasStrong (inp : IntentTypeSet) : bool := negb (Z.land inp AllStrongIntents =? 0).

(** ** Obsolete formats *)

Definition ObsoleteIntentTypeToSet (release : bool) (obsolete_intent_type : Z)
    : Outcome IntentTypeSet :=
  if obsolete_intent_type =? Z.lor (Z.lor 1 2) 4 then
    Done (IntentTypeSet_of [kStrongRead; kStrongWrite])
  else if obsolete_intent_type =? Z.lor (Z.lor 0 2) 4 then
    Done (IntentTypeSet_of [kWeakRead; kWeakWrite])
  else if release then Done 0 else Fatal.

Definition ObsoleteIntentTypeSetToNew (obsolete_intent_type_set : Z) : IntentTypeSet :=
  foldl (λ result idx,
    if negb (Z.land obsolete_intent_type_set (Z.shiftl 1 idx) =? 0)
    then Z.lor result (Z.shiftl 1 (Z.land (Z.lor (Z.shiftr idx 1) (Z.shiftl idx 1)) 3))
    else result) 0 [0; 1; 2; 3].

Definition IntentValueType (ch : Z) : bool :=
  (ch =? ValueTypeAsChar kIntentTypeSet) || (ch =? ValueTypeAsChar kObsoleteIntentTypeSet)
  || (ch =? ValueTypeAsChar kObsoleteIntentType).

(** ** Intent keys *)

Record DecodedIntentKey : Type := mkDecodedIntentKey {
  intent_prefix : bytes;
  intent_types : IntentTypeSet;
  doc_ht : DocHybridTime
}.

Definition byte_at (s : bytes) (i : nat) : Z := default 0 (s !! i).

(** Errors are values of [Result] inside [Outcome], for the debug-build
    crash on an unknown obsolete intent type. *)
Definition DecodeIntentKey (release : bool) (encoded_intent_key : bytes)
    : Outcome (Result DecodedIntentKey) :=
  match CheckAndGetEncodedSize encoded_intent_key with
  | Error c => Done (Error c)
  | Ok doc_ht_size =>
      if Z.of_nat (length encoded_intent_key) <? doc_ht_size + 3 then Done (Error Corruption)
      else
        let n := (length encoded_intent_key - Z.to_nat (doc_ht_size + 3))%nat in
        let prefix_end := drop n encoded_intent_key in
        match FullyDecodeFrom (drop 3 prefix_end) with
        | Error c => Done (Error c)
        | Ok ht =>
            if negb (byte_at prefix_end 2 =? ValueTypeAsChar kHybridTime)
            then Done (Error Corruption)
            else
              let finish types :=
                Done (Ok (mkDecodedIntentKey (take n encoded_intent_key) types ht)) in
              if negb (byte_at prefix_end 0 =? ValueTypeAsChar kIntentTypeSet) then
                if byte_at prefix_end 0 =? ValueTypeAsChar kObsoleteIntentType then
                  types ← ObsoleteIntentTypeToSet release (byte_at prefix_end 1); finish types
                else if byte_at prefix_end 0 =? ValueTypeAsChar kObsoleteIntentTypeSet then
                  finish (ObsoleteIntentTypeSetToNew (byte_at prefix_end 1))
                else Done (Error Corruption)
              else finish (new_IntentTypeSet (byte_at prefix_end 1))
        end
  end.

(** ** Intent values *)

Definition TransactionId_static_size : nat := 16.

(** [DoDecodeTransactionId] *)
Definition DoDecodeTransactionId (slice : bytes) (check_exact_size : bool) : Result bytes :=
  if (if check_exact_size then negb (length slice =? TransactionId_static_size)%nat
      else (length slice <? TransactionId_static_size)%nat)
  then Error Corruption
  else Ok (take TransactionId_static_size slice).

Definition DecodeTransactionId (slice : bytes) : Result (bytes * bytes) :=
  id ← DoDecodeTransactionId slice false;
  Ok (id, drop TransactionId_static_size slice).

Definition DecodeTransactionIdFromIntentValue (intent_value : bytes) : Result (bytes * bytes) :=
  match intent_value with
  | [] => Error Corruption
  | b :: rest =>
      if negb (b =? ValueTypeAsChar kTransactionId) then Error Corruption
      else DecodeTransactionId rest
  end.

(** [Slice::consume_byte(char)]; on an empty slice it reads past the end. *)
Definition consume_byte (s : bytes) (c : Z) : Outcome (Result bytes) :=
  match s with
  | b :: rest => Done (if b =? c then Ok rest else Error Corruption)
  | [] => Undefined
  end.

(** The write id and the body. Dropping more bytes than there are is
    undefined ([Slice::remove_prefix]). *)
Definition DecodeIntentValue (encoded_intent_value transaction_id_slice : bytes)
    : Outcome (Result (Z * bytes)) :=
  intent_value ⇐ consume_byte encoded_intent_value (ValueTypeAsChar kTransactionId);
  if negb (starts_with intent_value transaction_id_slice) then Done (Error Corruption)
  else if (length intent_value <? TransactionId_static_size)%nat then Undefined
  else
    intent_value ⇐ consume_byte (drop TransactionId_static_size intent_value)
                     (ValueTypeAsChar kWriteId);
    if (length intent_value <? 4)%nat then Done (Error Corruption)
    else Done (Ok (Load32 intent_value, drop 4 intent_value)).

(** ** Lemmas *)

(** A property of pairs of sets, by evaluation. *)
Lemma set_pairs_check (P : IntentTypeSet -> IntentTypeSet -> bool) :
  forallb (λ a, forallb (P a) (seqZ 0 16)) (seqZ 0 16) = true ->
  ∀ a b, set_ok a -> set_ok b -> P a b = true.
Proof.
  intros Hall a b Ha Hb. rewrite forallb_forall in Hall.
  assert (∀ x, set_ok x -> In x (seqZ 0 16)) as Hin.
  { intros x Hx. apply list_elem_of_In, elem_of_seqZ. unfold set_ok in Hx. lia. }
  specialize (Hall a (Hin a Ha)). rewrite forallb_forall in Hall. auto.
Qed.

Lemma elem_of_members s t : t ∈ members s <-> Test s t = true.
Proof.
  unfold members. rewrite list_elem_of_filter. split; [by intros [?%Is_true_true _]|].
  intros Ht. split; [by apply Is_true_true|]. destruct t; set_solver.
Qed.

(** What the names of the types say. *)
Definition intent_writes (t : IntentType) : bool :=
  match t with kWeakWrite | kStrongWrite => true | kWeakRead | kStrongRead => false end.
Definition intent_strong (t : IntentType) : bool :=
  match t with kStrongRead | kStrongWrite => true | kWeakRead | kWeakWrite => false end.

Lemma IntentTypesConflict_spec x y :
  IntentTypesConflict x y = true <-> intent_writes x ≠ intent_writes y /\ (intent_strong x = true \/ intent_strong y = true).
Proof. destruct x, y; vm_compute; intuition discriminate. Qed.

Lemma IntentTypeSetsConflict_spec a b :
  IntentTypeSetsConflict a b = true <->
  ∃ x y, Test a x = true /\ Test b y = true /\ intent_writes x ≠ intent_writes y /\ (intent_strong x = true \/ intent_strong y = true).
Proof.
  unfold IntentTypeSetsConflict. rewrite existsb_exists. split.
  - intros (x & Hx & (y & Hy & Hc)%existsb_exists). rewrite <- list_elem_of_In, elem_of_members in Hx, Hy.
    exists x, y. by rewrite <- IntentTypesConflict_spec.
  - intros (x & y & Hx & Hy & Hc). exists x. rewrite <- list_elem_of_In, elem_of_members. split; [done|].
    apply existsb_exists. exists y. rewrite <- list_elem_of_In, elem_of_members. by rewrite IntentTypesConflict_spec.
Qed.

Lemma IntentTypesConflict_sym a b : IntentTypesConflict a b = IntentTypesConflict b a.
Proof. by destruct a, b. Qed.

(** The stored form of an intent key. *)
Definition encode_intent_key (prefix : bytes) (types : IntentTypeSet) (ht : DocHybridTime) : bytes :=
  prefix ++ [ValueTypeAsChar kIntentTypeSet; types; ValueTypeAsChar kHybridTime] ++
  EncodedInDocDbFormat ht.

(** ** Properties *)

(** C32: two sets of intent types conflict exactly when one has a type that
    reads and the other a type that writes, one of the two being strong. So the
    conflicts of operations of transactions are those of snapshot isolation
    with everything and those of serializable reads with serializable writes;
    and the weak intents that an operation takes on what is above its key
    conflict with strong intents there exactly when its strong intents would. *)
Theorem intent_conflicts_correct (a b : IntentTypeSet) :
  (IntentTypeSetsConflict a b = true <->
   ∃ x y, Test a x = true /\ Test b y = true /\ intent_writes x ≠ intent_writes y /\ (intent_strong x = true \/ intent_strong y = true)) /\
  (∀ release l l' op op', GetStrongIntentTypeSet release l op = Done a -> GetStrongIntentTypeSet release l' op' = Done b ->
   l ≠ NON_TRANSACTIONAL -> l' ≠ NON_TRANSACTIONAL ->
   IntentTypeSetsConflict a b = false <-> l = SERIALIZABLE_ISOLATION /\ l' = SERIALIZABLE_ISOLATION /\ op = op') /\
  (set_ok a -> set_ok b -> Z.land a AllStrongIntents = a -> Z.land b AllStrongIntents = b ->
   HasStrong (StrongToWeak b) = false /\
   IntentTypeSetsConflict a (StrongToWeak b) = IntentTypeSetsConflict a b).
Proof.
  split; [apply IntentTypeSetsConflict_spec|]. split.
  - intros release l l' op op' Ea Eb Hl Hl'. destruct l, l', op, op'; try done; injection Ea as <-; injection Eb as <-;
      vm_compute; split; intuition discriminate.
  - intros Ha Hb H1 H2. pose proof (set_pairs_check (λ a b,
      implb ((Z.land a AllStrongIntents =? a) && (Z.land b AllStrongIntents =? b))
        (negb (HasStrong (StrongToWeak b)) &&
         eqb (IntentTypeSetsConflict a (StrongToWeak b)) (IntentTypeSetsConflict a b)))
      ltac:(vm_compute; reflexivity) a b Ha Hb) as Hc. cbv beta in Hc.
    apply Z.eqb_eq in H1, H2. rewrite H1, H2 in Hc.
    apply andb_true_iff in Hc as [?%negb_true_iff ?%eqb_prop]. done.
Qed.

(** The strong read of a serializable transaction and the weak write that
    another one takes above the key it writes. *)
Lemma intent_conflicts_correct_witness :
  IntentTypeSetsConflict 4 (StrongToWeak 8) = true /\ HasStrong (StrongToWeak 8) = false /\
  IntentTypeSetsConflict (StrongToWeak 4) (StrongToWeak 8) = false.
Proof.
  destruct (intent_conflicts_correct 4 8) as (Hc & _ & Hw).
  destruct Hw as [H1 H2]; [vm_compute; intuition discriminate..|reflexivity|reflexivity|].
  rewrite H2. split; [|split; [exact H1|vm_compute; reflexivity]].
  apply Hc. exists kStrongRead, kStrongWrite. repeat split; [discriminate|by left].
Defined.

(** An intent key decodes to the key, the intent types and the time it
    was written with. *)
Theorem intent_key_roundtrip (release : bool) (prefix : bytes) (types : IntentTypeSet)
    (ht : DocHybridTime) :
  set_ok types -> dht_ok ht ->
  DecodeIntentKey release (encode_intent_key prefix types ht) =
  Done (Ok (mkDecodedIntentKey prefix types ht)).
Proof.
  intros Hs Ht. pose proof (dht_encoded_length ht Ht) as Elen.
  pose proof (dht_size_range ht Ht) as Hsz. unfold DecodeIntentKey, encode_intent_key.
  rewrite app_assoc, CheckAndGetEncodedSize_app by (done || by destruct prefix).
  rewrite <- app_assoc, length_app. cbn [app length].
  destruct (Z.ltb_spec (Z.of_nat (length prefix + S (S (S (length (EncodedInDocDbFormat ht))))))
    (dht_size ht + 3)); [lia|]. cbv zeta.
  replace (_ - _)%nat with (length prefix) by lia.
  rewrite drop_app_length, take_app_length. rewrite !skipn_cons, skipn_O.
  rewrite FullyDecodeFrom_EncodedInDocDbFormat by done. cbn [byte_at lookup list_lookup].
  unfold byte_at. simpl default. rewrite !Z.eqb_refl. simpl.
  do 4 f_equal. apply Z.mod_small. exact Hs.
Qed.

Lemma intent_key_roundtrip_witness :
  DecodeIntentKey true (encode_intent_key [72; 33] 12 dht_sample) =
  Done (Ok (mkDecodedIntentKey [72; 33] 12 dht_sample)).
Proof. apply intent_key_roundtrip; vm_compute; intuition discriminate. Defined.
