(* ===== verification/KeyBytes.v ===== *)
(** * Key buffers ([src/yb/docdb/key_bytes.h], [key_bytes.cc])

    [KeyBytes] wraps the string a key is built in; every operation appends to
    it or edits its end. *)

From S2P Require Import Prelude FastVarInt DocKvUtil HybridTime DocHybridTime ValueType Intents.
Local Open Scope Z_scope.

Definition AppendValueType (value_type : ValueType) (data : bytes) : bytes :=
  data ++ [ValueTypeAsChar value_type].

Definition AppendValueTypeBeforeGroupEnd (value_type : ValueType) (data : bytes) : bytes :=
  match last data with
  | Some c =>
      if c =? ValueTypeAsChar kGroupEnd then
        take (length data - 1) data ++ [ValueTypeAsChar value_type; ValueTypeAsChar kGroupEnd]
      else AppendValueType kGroupEnd (AppendValueType value_type data)
  | None => AppendValueType kGroupEnd (AppendValueType value_type data)
  end.

Definition AppendRawBytes (raw_bytes data : bytes) : bytes := data ++ raw_bytes.

Definition AppendString (raw_string data : bytes) : bytes :=
  ZeroEncodeAndAppendStrToKey raw_string data.

Definition AppendDescendingString (raw_string data : bytes) : bytes :=
  ComplementZeroEncodeAndAppendStrToKey raw_string data.

Definition flip_bits (s : bytes) : bytes := (λ c, u8 (Z.lnot c)) <$> s.

Definition AppendDecimal (encoded_decimal_str data : bytes) : bytes := data ++ encoded_decimal_str.

(** [encoded_decimal_str[0]] of an empty [std::string] is the terminating 0. *)
Definition AppendDecimalDescending (encoded_decimal_str data : bytes) : bytes :=
  let c0 := default 0 (head encoded_decimal_str) in
  if c0 =? 128 then data ++ [c0] else data ++ flip_bits encoded_decimal_str.

Definition AppendVarInt (encoded_varint_str data : bytes) : bytes := data ++ encoded_varint_str.

Definition AppendVarIntDescending (encoded_varint_str data : bytes) : bytes :=
  let c0 := default 0 (head encoded_varint_str) in
  if c0 =? 128 then data ++ [c0] else data ++ flip_bits encoded_varint_str.

Definition AppendInt64 (x : Z) (data : bytes) : bytes := AppendInt64ToKey x data.
Definition AppendInt32 (x : Z) (data : bytes) : bytes := AppendInt32ToKey x data.
Definition AppendUInt32 (x : Z) (data : bytes) : bytes := AppendUInt32ToKey x data.
Definition AppendDescendingUInt32 (x : Z) (data : bytes) : bytes :=
  AppendUInt32ToKey (u32 (Z.lnot (s32 x))) data.
Definition AppendIntentTypeSet (intent_type_set : IntentTypeSet) (data : bytes) : bytes :=
  data ++ [u8 intent_type_set].
Definition AppendDescendingInt64 (x : Z) (data : bytes) : bytes := AppendInt64ToKey (Z.lnot x) data.
Definition AppendDescendingInt32 (x : Z) (data : bytes) : bytes := AppendInt32ToKey (Z.lnot x) data.
Definition AppendUInt16 (x : Z) (data : bytes) : bytes := AppendUInt16ToKey (u16 x) data.

Definition AppendHybridTimeForSeek (hybrid_time : HybridTime) (data : bytes) : bytes :=
  AppendEncodedInDocDbFormat (mkDocHybridTime hybrid_time kMaxWriteId) data.

Definition AppendHybridTime (hybrid_time : DocHybridTime) (data : bytes) : bytes :=
  AppendEncodedInDocDbFormat hybrid_time data.

Definition AppendColumnId (column_id : Z) (data : bytes) : bytes :=
  FastAppendSignedVarIntToStr column_id data.

Definition AppendDescendingFloat (x : Z) (data : bytes) : bytes := AppendFloatToKey x true data.
Definition AppendFloat (x : Z) (data : bytes) : bytes := AppendFloatToKey x false data.
Definition AppendDescendingDouble (x : Z) (data : bytes) : bytes := AppendDoubleToKey x true data.
Definition AppendDouble (x : Z) (data : bytes) : bytes := AppendDoubleToKey x false data.

Definition RemoveValueTypeSuffix (value_type : ValueType) (data : bytes) : Outcome bytes :=
  match last data with
  | None => Fatal
  | Some c => _ ← CHECK (c =? ValueTypeAsChar value_type); Done (take (length data - 1) data)
  end.

(** [AppendDocHybridTime] of [key_bytes.cc]. *)
Definition AppendDocHybridTime (doc_ht : DocHybridTime) (key : bytes) : bytes :=
  AppendEncodedInDocDbFormat doc_ht (AppendValueType kHybridTime key).

Definition ReplaceLastHybridTimeForSeek (hybrid_time : HybridTime) (data : bytes) : Result bytes :=
  encoded_ht_size ← CheckAndGetEncodedSize data;
  Ok (AppendHybridTimeForSeek hybrid_time (take (length data - Z.to_nat encoded_ht_size) data)).

(** ** Checks on whole keys ([doc_kv_util.cc]) *)

Definition CheckHybridTimeSizeAndValueType (key : bytes) : Result Z :=
  ht_byte_size ← CheckAndGetEncodedSize key;
  let offset := (length key - Z.to_nat ht_byte_size - 1)%nat in
  if bool_decide (DecodeValueType (default 0 (key !! offset)) = Some kHybridTime)
  then Ok ht_byte_size else Error Corruption.

(** [KeyBytes::OnlyLacksHybridTimeFrom] *)
Definition OnlyLacksHybridTimeFrom (data other_slice : bytes) : Result bool :=
  if decide (other_slice = []) then Error Corruption
  else
    other_encoded_ht_size ← CheckHybridTimeSizeAndValueType other_slice;
    Ok ((Z.of_nat (length data) + other_encoded_ht_size + 1 =? Z.of_nat (length other_slice))
        && starts_with other_slice data).

(** ** Lemmas *)

Lemma starts_with_app s x : starts_with (x ++ s) x = true.
Proof. induction x; simpl; [by destruct s|]. by rewrite Z.eqb_refl. Qed.

Lemma starts_with_take s x : starts_with s x = true -> take (length x) s = x.
Proof.
  revert s. induction x as [|b x IH]; intros [|c s]; try done.
  cbn [starts_with length take]. intros [->%Z.eqb_eq Hs]%andb_true_iff. by rewrite IH.
Qed.

(** A key with the hybrid time suffix, as stored in RocksDB. *)
Lemma AppendDocHybridTime_app doc_ht key :
  AppendDocHybridTime doc_ht key =
  key ++ ValueTypeAsChar kHybridTime :: EncodedInDocDbFormat doc_ht.
Proof.
  unfold AppendDocHybridTime, AppendEncodedInDocDbFormat, AppendValueType.
  by rewrite <- app_assoc.
Qed.

Lemma CheckHybridTimeSizeAndValueType_app doc_ht key :
  dht_ok doc_ht ->
  CheckHybridTimeSizeAndValueType (AppendDocHybridTime doc_ht key) = Ok (dht_size doc_ht).
Proof.
  intros Ht. pose proof (dht_encoded_length doc_ht Ht) as Elen.
  pose proof (dht_size_range doc_ht Ht) as Hsz.
  unfold CheckHybridTimeSizeAndValueType, AppendDocHybridTime, AppendEncodedInDocDbFormat.
  rewrite CheckAndGetEncodedSize_app; [|done|unfold AppendValueType; by destruct key].
  cbn [mbind result_bind]. rewrite length_app.
  unfold AppendValueType. rewrite length_app. simpl (length [_]).
  replace (_ - _ - 1)%nat with (length key) by lia.
  rewrite <- app_assoc, lookup_app_r by lia. rewrite Nat.sub_diag.
  reflexivity.
Qed.

(** ** Properties *)

(** A stored key is recognised as "this key plus a hybrid time" exactly
    when it is: every key extended by a well-formed time is accepted, and an
    accepted key consists of this key, the time's tag and the time's bytes. *)
Theorem only_lacks_hybrid_time_correct (key other : bytes) (doc_ht : DocHybridTime) :
  dht_ok doc_ht ->
  OnlyLacksHybridTimeFrom key (AppendDocHybridTime doc_ht key) = Ok true /\
  (OnlyLacksHybridTimeFrom key other = Ok true ->
   ∃ size, CheckHybridTimeSizeAndValueType other = Ok size /\
     take (length key) other = key /\
     Z.of_nat (length other) = Z.of_nat (length key) + 1 + size).
Proof.
  intros Ht. pose proof (dht_encoded_length doc_ht Ht) as Elen. split.
  - unfold OnlyLacksHybridTimeFrom. rewrite decide_False.
    + rewrite CheckHybridTimeSizeAndValueType_app by done. cbn [mbind result_bind].
      rewrite AppendDocHybridTime_app, starts_with_app, length_app. cbn [length].
      destruct (Z.eqb_spec (Z.of_nat (length key) + dht_size doc_ht + 1)
        (Z.of_nat (length key + S (length (EncodedInDocDbFormat doc_ht))))); [done|lia].
    + rewrite AppendDocHybridTime_app. by destruct key.
  - unfold OnlyLacksHybridTimeFrom. case_decide; [done|]. intros E.
    apply result_bind_Ok in E as (size & E & [= [Hl Hs]%andb_true_iff]).
    apply Z.eqb_eq in Hl. exists size. split_and!; [done|by apply starts_with_take|lia].
Qed.

Lemma only_lacks_hybrid_time_correct_witness :
  OnlyLacksHybridTimeFrom [72; 1] (AppendDocHybridTime dht_sample [72; 1]) = Ok true.
Proof.
  apply (only_lacks_hybrid_time_correct [72; 1] [] dht_sample).
  vm_compute. intuition discriminate.
Defined.

(** The key used to seek to the state at [hybrid_time] sorts before every
    version of the key at or before that time, and after every later version;
    replacing the time at the end of a key gives the same seek key. *)
Theorem seek_key_correct (key : bytes) (hybrid_time : HybridTime) (v : DocHybridTime) (rest : bytes) :
  ht_ok hybrid_time -> dht_ok v -> key ≠ [] ->
  ReplaceLastHybridTimeForSeek hybrid_time (AppendHybridTime v key) =
    Ok (AppendHybridTimeForSeek hybrid_time key) /\
  (DocHybridTime.hybrid_time v <= hybrid_time ->
   bytes_compare (AppendHybridTimeForSeek hybrid_time key) (AppendHybridTime v key ++ rest) ≠ Gt) /\
  (hybrid_time < DocHybridTime.hybrid_time v ->
   bytes_compare (AppendHybridTimeForSeek hybrid_time key) (AppendHybridTime v key ++ rest) = Gt).
Proof.
  intros Hht Hv Hk. set (s := mkDocHybridTime hybrid_time kMaxWriteId).
  assert (dht_ok s) as Hs by (split; [done|vm_compute; intuition discriminate]).
  unfold AppendHybridTimeForSeek, AppendHybridTime, AppendEncodedInDocDbFormat. fold s.
  split; [|rewrite <- app_assoc, bytes_compare_app_l].
  - unfold ReplaceLastHybridTimeForSeek. rewrite CheckAndGetEncodedSize_app by done.
    cbn [mbind result_bind]. pose proof (dht_encoded_length v Hv) as Elen.
    pose proof (dht_size_range v Hv) as Hsz. rewrite length_app.
    replace (_ - _)%nat with (length key) by lia. by rewrite take_app_length.
  - destruct (decide (s = v)) as [<-|Hne].
    { split; [|intros Hlt; exfalso; exact (Z.lt_irrefl _ Hlt)]. intros _.
      rewrite <- (app_nil_r (EncodedInDocDbFormat s)) at 1. rewrite bytes_compare_app_l.
      by destruct rest. }
    rewrite <- (app_nil_r (EncodedInDocDbFormat s)).
    rewrite dht_order_aux by done. unfold dht_compare. cbn [DocHybridTime.hybrid_time write_id s].
    destruct (Z.compare_spec hybrid_time (DocHybridTime.hybrid_time v)) as [E|E|E]; cbn [CompOpp];
      (split; [|lia || done]); [|lia|done].
    intros _. destruct Hv as [_ Hw]. unfold is_u in Hw. unfold kMaxWriteId.
    destruct (Z.compare_spec (2 ^ 32 - 1) (write_id v)); cbn [CompOpp]; [done|lia|done].
Qed.

Lemma seek_key_correct_witness :
  bytes_compare (AppendHybridTimeForSeek (1600000000000000 * 4096 + 6) [72])
    (AppendHybridTime dht_sample [72] ++ [1]) = Gt.
Proof.
  apply (seek_key_correct [72] (1600000000000000 * 4096 + 6) dht_sample [1]);
    [vm_compute; intuition discriminate | vm_compute; intuition discriminate | done | reflexivity].
Defined.
