(* ===== verification/Uuid.v ===== *)
(** * UUIDs ([src/yb/util/uuid.cc], [uuid.h])

    The comparable encoding of UUIDs, the custom comparator and the time UUID
    helpers. A UUID is the list of its 16 bytes; [boost::uuids::uuid::version]
    is a parameter with its documented behaviour. *)

From S2P Require Import Prelude.
Local Open Scope Z_scope.

Definition kUuidSize : nat := 16.
Definition kUuidMsbSize : nat := 8.
Definition kGregorianOffsetMillis : Z := -12219292800000.
Definition kMillisPerHundredNanos : Z := 10000.

(** [data[i]] *)
Definition data (u : bytes) (i : nat) : Z := default 0 (u !! i).

(** The version nibble of RFC 4122. *)
Definition version_nibble (u : bytes) : Z := Z.shiftr (data u 6) 4.

(** [boost::uuids::uuid::version()]: the nibble for the known versions 1 to 5,
    [version_unknown], which is -1, otherwise. *)
Class BoostUuid := {
  version : bytes -> Z;
  version_time_based : Z;
  version_unknown : Z;
  version_time_based_law : version_time_based = 1;
  version_unknown_law : version_unknown = -1;
  version_law u : version u =
    if decide (1 <= version_nibble u <= 5) then version_nibble u else version_unknown
}.

Section Uuid.
Context `{BoostUuid}.

Definition ToTimestampBytes (u : bytes) : bytes :=
  [data u 6; data u 7; data u 4; data u 5; data u 0; data u 1; data u 2; data u 3].

Definition FromTimestampBytes (input : bytes) : bytes :=
  [data input 4; data input 5; data input 6; data input 7;
   data input 2; data input 3; data input 0; data input 1].

(** [(uint8_t)(((x & 0x0F) << 4) | ((y & 0xF0) >> 4))] *)
Definition shift_nibbles (x y : Z) : Z :=
  u8 (Z.lor (Z.shiftl (Z.land x 0x0F) 4) (Z.shiftr (Z.land y 0xF0) 4)).

Definition ToVersionFirstBytes (u : bytes) : bytes :=
  [u8 (Z.lor (Z.land (data u 6) 0xF0) (Z.shiftr (Z.land (data u 0) 0xF0) 4));
   shift_nibbles (data u 0) (data u 1); shift_nibbles (data u 1) (data u 2);
   shift_nibbles (data u 2) (data u 3); shift_nibbles (data u 3) (data u 4);
   shift_nibbles (data u 4) (data u 5);
   u8 (Z.lor (Z.shiftl (Z.land (data u 5) 0x0F) 4) (Z.land (data u 6) 0x0F));
   data u 7].

Definition FromVersionFirstBytes (input : bytes) : bytes :=
  [shift_nibbles (data input 0) (data input 1); shift_nibbles (data input 1) (data input 2);
   shift_nibbles (data input 2) (data input 3); shift_nibbles (data input 3) (data input 4);
   shift_nibbles (data input 4) (data input 5); shift_nibbles (data input 5) (data input 6);
   u8 (Z.lor (Z.land (data input 0) 0xF0) (Z.land (data input 6) 0x0F));
   data input 7].

Definition EncodeToComparable (u : bytes) : bytes :=
  (if version u =? version_time_based then ToTimestampBytes u else ToVersionFirstBytes u)
  ++ drop kUuidMsbSize u.

Definition DecodeFromComparableSlice (slice : bytes) (size_hint : nat) : Result bytes :=
  let expected_size := if (size_hint =? 0)%nat then length slice else size_hint in
  if (length slice <? expected_size)%nat then Error InvalidArgument
  else if negb (expected_size =? kUuidSize)%nat then Error InvalidArgument
  else
    let msb := if Z.land (data slice 0) 0xF0 =? 0x10
               then FromTimestampBytes slice else FromVersionFirstBytes slice in
    Ok (msb ++ take (kUuidSize - kUuidMsbSize) (drop kUuidMsbSize slice)).

Definition DecodeFromComparable (bytes : bytes) : Result (list Z) :=
  DecodeFromComparableSlice bytes 0.

Definition FromSlice (slice : bytes) (size_hint : nat) : Result bytes :=
  let expected_size := if (size_hint =? 0)%nat then length slice else size_hint in
  if (length slice <? expected_size)%nat then Error InvalidArgument
  else if negb (expected_size =? kUuidSize)%nat then Error InvalidArgument
  else Ok (take kUuidSize slice).

(** One comparison loop: [Some] when it returns. *)
Fixpoint compare_loop (idx : list nat) (a b : bytes) : option bool :=
  match idx with
  | [] => None
  | i :: idx' =>
      if data a i <? data b i then Some true
      else if data b i <? data a i then Some false
      else compare_loop idx' a b
  end.

(** [operator<] *)
Definition uuid_lt (a b : bytes) : bool :=
  if version a <? version b then true
  else if version b <? version a then false
  else
    let msb := if version a =? version_time_based
               then [6; 7; 4; 5; 0; 1; 2; 3]%nat else [0; 1; 2; 3; 4; 5; 6; 7]%nat in
    match compare_loop msb a b with
    | Some r => r
    | None => default false (compare_loop [8; 9; 10; 11; 12; 13; 14; 15]%nat a b)
    end.

Definition IsTimeUuid (u : bytes) : Result unit :=
  if version u =? version_time_based then Ok tt else Error InvalidArgument.

Definition FromTimestamp (ts_hnanos : Z) : bytes :=
  let ts_bytes := be_bytes 8 (u64 ts_hnanos) in
  FromTimestampBytes
    (u8 (Z.lor (Z.land (data ts_bytes 0) 0x0F) 0x10) :: drop 1 ts_bytes).

Definition MaxFromUnixTimestamp (timestamp_ms : Z) : bytes :=
  let ts_hnanos := s64 ((timestamp_ms + 1 - kGregorianOffsetMillis) * kMillisPerHundredNanos - 1) in
  FromTimestamp ts_hnanos ++ repeat 0xFF 8.

Definition MinFromUnixTimestamp (timestamp_ms : Z) : bytes :=
  let timestamp := s64 ((timestamp_ms - kGregorianOffsetMillis) * kMillisPerHundredNanos) in
  FromTimestamp timestamp ++ repeat 0x00 8.

Definition ToUnixTimestamp (u : bytes) : Result Z :=
  _ ← IsTimeUuid u;
  let output := ToTimestampBytes u in
  let output := Z.land (data output 0) 0x0f :: drop 1 output in
  let timestamp_ms := foldl (λ acc b, Z.lor (Z.shiftl acc 8) (Z.land b 0xff)) 0 output in
  Ok (Z.quot timestamp_ms kMillisPerHundredNanos + kGregorianOffsetMillis).

(** ** Lemmas *)

Definition uuid_ok (u : bytes) : Prop := length u = 16%nat /\ bytes_ok u.

(** Versions for which [operator<] sees the nibble that is encoded first. *)
Definition version_ok (u : bytes) : Prop := version_nibble u <= 5.

(** Exposes the 16 bytes of a UUID. *)
Ltac uuid_bytes u Hu :=
  let Hl := fresh in
  destruct Hu as [Hl Hu];
  do 16 (destruct u as [|? u]; [discriminate Hl|]);
  destruct u; [|discriminate Hl]; clear Hl;
  rewrite !Forall_cons in Hu; destruct_and!; unfold is_u in *;
  change (2 ^ 8) with 256 in *.

Lemma land_0F x : Z.land x 0x0F = x mod 16.
Proof. change 0x0F with (Z.ones 4). rewrite Z.land_ones by lia. done. Qed.

Lemma land_F0 x : 0 <= x < 256 -> Z.land x 0xF0 = 16 * (x / 16).
Proof.
  intros Hx. apply Z.eqb_eq.
  by apply (byte_forall (λ x, Z.land x 0xF0 =? 16 * (x / 16))).
Qed.

Lemma mul16_div x : 16 * x / 16 = x.
Proof. rewrite Z.mul_comm, Z.div_mul; lia. Qed.

Lemma shift_nibbles_spec x y :
  0 <= x < 256 -> 0 <= y < 256 -> shift_nibbles x y = 16 * (x mod 16) + y / 16.
Proof.
  intros Hx Hy. unfold shift_nibbles. rewrite land_0F, land_F0 by done.
  rewrite Z.shiftl_mul_pow2, Z.shiftr_div_pow2 by lia. change (2 ^ 4) with 16.
  replace (16 * (y / 16) / 16) with (y / 16) by (rewrite Z.mul_comm, Z.div_mul; lia).
  change 16 with (2 ^ 4) at 2. rewrite lor_add_disjoint by (change (2 ^ 4) with 16; Z.div_mod_to_equations; lia).
  unfold u8. rewrite wrap_small; [change (2 ^ 4) with 16; lia|].
  unfold is_u. change (2 ^ 4) with 16. change (2 ^ 8) with 256. Z.div_mod_to_equations; lia.
Qed.

Lemma hi_lo_spec x y :
  0 <= x < 256 -> 0 <= y < 16 -> u8 (Z.lor (16 * (x / 16)) y) = 16 * (x / 16) + y.
Proof.
  intros Hx Hy. replace (16 * (x / 16)) with (x / 16 * 2 ^ 4) by (change (2 ^ 4) with 16; lia).
  rewrite lor_add_disjoint by (change (2 ^ 4) with 16; lia).
  unfold u8. rewrite wrap_small; [done|]. unfold is_u. change (2 ^ 8) with 256.
  change (2 ^ 4) with 16. Z.div_mod_to_equations; lia.
Qed.

Lemma version_time_based_iff u :
  (version u =? version_time_based) = (version_nibble u =? 1).
Proof.
  rewrite version_law, version_time_based_law, version_unknown_law.
  case_decide; [done|]. destruct (Z.eqb_spec (version_nibble u) 1); [lia|done].
Qed.

(** The version-first bytes as arithmetic on nibbles. *)
Lemma ToVersionFirstBytes_spec u :
  uuid_ok u ->
  ToVersionFirstBytes u =
  [16 * (data u 6 / 16) + data u 0 / 16; 16 * (data u 0 mod 16) + data u 1 / 16;
   16 * (data u 1 mod 16) + data u 2 / 16; 16 * (data u 2 mod 16) + data u 3 / 16;
   16 * (data u 3 mod 16) + data u 4 / 16; 16 * (data u 4 mod 16) + data u 5 / 16;
   16 * (data u 5 mod 16) + data u 6 mod 16; data u 7].
Proof.
  intros Hu. uuid_bytes u Hu. unfold ToVersionFirstBytes, data. simpl default.
  rewrite !shift_nibbles_spec by done. rewrite !land_F0 by done.
  rewrite !Z.shiftr_div_pow2 by lia. change (2 ^ 4) with 16.
  rewrite !mul16_div.
  rewrite hi_lo_spec by (done || (Z.div_mod_to_equations; lia)).
  rewrite !land_0F, Z.shiftl_mul_pow2 by lia.
  rewrite lor_add_disjoint by (change (2 ^ 4) with 16; lia || (Z.div_mod_to_equations; lia)).
  change (2 ^ 4) with 16. unfold u8. rewrite wrap_small.
  - by rewrite (Z.mul_comm (_ mod 16) 16).
  - unfold is_u. change (2 ^ 8) with 256. Z.div_mod_to_equations; lia.
Qed.

Lemma EncodeToComparable_length u : uuid_ok u -> length (EncodeToComparable u) = 16%nat.
Proof.
  intros [Hl _]. unfold EncodeToComparable. rewrite length_app, length_drop, Hl.
  by destruct (_ =? _).
Qed.

Lemma EncodeToComparable_ok u : uuid_ok u -> bytes_ok (EncodeToComparable u).
Proof.
  intros Hu. unfold EncodeToComparable. pose proof (ToVersionFirstBytes_spec u Hu) as E.
  destruct (version u =? _); [|rewrite E]; clear E; uuid_bytes u Hu;
    unfold ToTimestampBytes, data; simpl; repeat constructor;
    unfold is_u; change (2 ^ 8) with 256; Z.div_mod_to_equations; lia.
Qed.

Lemma uuid_comparable_roundtrip u :
  uuid_ok u -> DecodeFromComparable (EncodeToComparable u) = Ok u.
Proof.
  intros Hu. pose proof (EncodeToComparable_length u Hu) as Hl.
  unfold DecodeFromComparable, DecodeFromComparableSlice.
  change ((0 =? 0)%nat) with true. cbn iota. rewrite Hl. change (16 <? 16)%nat with false.
  cbn [negb Nat.eqb kUuidSize]. f_equal.
  unfold EncodeToComparable. rewrite version_time_based_iff.
  pose proof (ToVersionFirstBytes_spec u Hu) as E. clear Hl.
  destruct (Z.eqb_spec (version_nibble u) 1) as [Hv|Hv]; unfold version_nibble in Hv;
    rewrite Z.shiftr_div_pow2 in Hv by lia; change (2 ^ 4) with 16 in Hv.
  - clear E. uuid_bytes u Hu. unfold ToTimestampBytes, FromTimestampBytes, data in *. simpl in *.
    rewrite land_F0, Hv by done. done.
  - rewrite E. clear E. uuid_bytes u Hu. unfold FromVersionFirstBytes, data in *. simpl in *.
    rewrite land_F0 by (Z.div_mod_to_equations; lia).
    match goal with |- context [if ?c then _ else _] => destruct c eqn:Ec end.
    { exfalso. apply Z.eqb_eq in Ec. Z.div_mod_to_equations; lia. }
    rewrite !shift_nibbles_spec by (Z.div_mod_to_equations; lia).
    rewrite land_0F.
    rewrite hi_lo_spec by (Z.div_mod_to_equations; lia).
    do 7 (apply (f_equal2 cons); [Z.div_mod_to_equations; lia|]). done.
Qed.

Lemma compare_loop_spec idx a b :
  compare_loop idx a b =
  match bytes_compare (data a <$> idx) (data b <$> idx) with
  | Lt => Some true | Gt => Some false | Eq => None
  end.
Proof.
  induction idx as [|i idx IH]; [done|]. simpl.
  destruct (Z.compare_spec (data a i) (data b i)) as [E|E|E];
    destruct (Z.ltb_spec (data a i) (data b i)); destruct (Z.ltb_spec (data b i) (data a i));
    try lia; done.
Qed.

Lemma bytes_compare_app_length a b a' b' :
  length a = length b ->
  bytes_compare (a ++ a') (b ++ b') =
  match bytes_compare a b with Eq => bytes_compare a' b' | c => c end.
Proof.
  revert b. induction a as [|x a IH]; intros [|y b]; simpl; try done.
  intros [= Hl]. destruct (x ?= y); auto.
Qed.

Lemma lsb_bytes u : uuid_ok u -> data u <$> [8; 9; 10; 11; 12; 13; 14; 15]%nat = drop 8 u.
Proof. intros Hu. by uuid_bytes u Hu. Qed.

(** With equal versions, moving the version nibble to the front keeps the
    order of the leading bytes. *)
Lemma version_first_compare a b :
  uuid_ok a -> uuid_ok b -> version_nibble a = version_nibble b ->
  bytes_compare (ToVersionFirstBytes a) (ToVersionFirstBytes b) =
  bytes_compare (data a <$> seq 0 8) (data b <$> seq 0 8).
Proof.
  intros Ha Hb Hv. unfold version_nibble in Hv. rewrite !Z.shiftr_div_pow2 in Hv by lia.
  change (2 ^ 4) with 16 in Hv.
  rewrite !ToVersionFirstBytes_spec by done. uuid_bytes a Ha. uuid_bytes b Hb.
  unfold data in *. simpl fmap. simpl default in *.
  rewrite !bytes_compare_be by (first [reflexivity | repeat constructor; unfold is_u;
    change (2 ^ 8) with 256; Z.div_mod_to_equations; lia]).
  unfold be_value. simpl foldl.
  match goal with |- (?x ?= ?y) = (?z ?= ?t) =>
    destruct (Z.compare_spec z t) as [Hc|Hc|Hc];
    [apply Z.compare_eq_iff | apply Z.compare_lt_iff | apply Z.compare_gt_iff] end;
  Z.div_mod_to_equations; lia.
Qed.

Lemma version_nibble_range u : uuid_ok u -> 0 <= version_nibble u < 16.
Proof.
  intros Hu. unfold version_nibble. rewrite Z.shiftr_div_pow2 by lia.
  uuid_bytes u Hu. unfold data. simpl. change (2 ^ 4) with 16. Z.div_mod_to_equations; lia.
Qed.

(** Both encodings start with the version nibble. *)
Lemma EncodeToComparable_head u :
  uuid_ok u -> ∃ x tl, EncodeToComparable u = x :: tl /\ x / 16 = version_nibble u.
Proof.
  intros Hu. unfold EncodeToComparable, version_nibble. rewrite Z.shiftr_div_pow2 by lia.
  change (2 ^ 4) with 16. destruct (version u =? _).
  - unfold ToTimestampBytes. by do 2 eexists.
  - rewrite ToVersionFirstBytes_spec by done. do 2 eexists. split; [done|].
    uuid_bytes u Hu. unfold data. simpl. Z.div_mod_to_equations; lia.
Qed.

Lemma version_compare a b :
  uuid_ok a -> uuid_ok b -> version_ok a -> version_ok b ->
  (version a ?= version b) = (version_nibble a ?= version_nibble b).
Proof.
  intros Ha Hb Va Vb. pose proof (version_nibble_range a Ha). pose proof (version_nibble_range b Hb).
  unfold version_ok in *. rewrite !version_law, version_unknown_law.
  destruct (Z.compare_spec (version_nibble a) (version_nibble b));
    [apply Z.compare_eq_iff | apply Z.compare_lt_iff | apply Z.compare_gt_iff];
    repeat case_decide; lia.
Qed.

(** [operator<] is the order of the encodings. *)
Lemma uuid_lt_spec a b :
  uuid_ok a -> uuid_ok b -> version_ok a -> version_ok b ->
  uuid_lt a b = true <-> bytes_compare (EncodeToComparable a) (EncodeToComparable b) = Lt.
Proof.
  intros Ha Hb Va Vb. unfold uuid_lt. pose proof (version_compare a b Ha Hb Va Vb) as Hv.
  destruct (EncodeToComparable_head a Ha) as (x & ta & Ea & Hx).
  destruct (EncodeToComparable_head b Hb) as (y & tb & Eb & Hy).
  destruct (Z.ltb_spec (version a) (version b)) as [Hlt|Hge].
  { apply Z.compare_lt_iff in Hlt as Hc. rewrite Hv in Hc. apply -> Z.compare_lt_iff in Hc.
    rewrite Ea, Eb. cbn [bytes_compare].
    destruct (Z.compare_spec x y) as [->| |]; [lia|done|]. exfalso. Z.div_mod_to_equations; lia. }
  destruct (Z.ltb_spec (version b) (version a)) as [Hlt|Hge'].
  { apply Z.compare_gt_iff in Hlt as Hc. rewrite Hv in Hc. apply -> Z.compare_gt_iff in Hc.
    rewrite Ea, Eb. cbn [bytes_compare].
    destruct (Z.compare_spec x y) as [->| |]; [lia| |done]. exfalso. Z.div_mod_to_equations; lia. }
  assert (version a = version b) as Ev by lia.
  assert (version_nibble a = version_nibble b) as En.
  { rewrite Ev, Z.compare_refl in Hv. by apply Z.compare_eq. }
  clear Ea Eb. unfold EncodeToComparable. rewrite Ev, compare_loop_spec.
  rewrite (compare_loop_spec [8; 9; 10; 11; 12; 13; 14; 15]%nat), !lsb_bytes by done.
  rewrite bytes_compare_app_length by by destruct (version b =? _).
  assert (bytes_compare
    (data a <$> (if version b =? version_time_based
                 then [6; 7; 4; 5; 0; 1; 2; 3]%nat else [0; 1; 2; 3; 4; 5; 6; 7]%nat))
    (data b <$> (if version b =? version_time_based
                 then [6; 7; 4; 5; 0; 1; 2; 3]%nat else [0; 1; 2; 3; 4; 5; 6; 7]%nat)) =
    bytes_compare
      (if version b =? version_time_based then ToTimestampBytes a else ToVersionFirstBytes a)
      (if version b =? version_time_based then ToTimestampBytes b else ToVersionFirstBytes b)) as ->.
  { destruct (version b =? version_time_based); [done|]. by rewrite version_first_compare. }
  destruct (bytes_compare _ _); [|done..].
  change kUuidMsbSize with 8%nat. by destruct (bytes_compare (drop 8 a) (drop 8 b)).
Qed.

(** ** Time UUIDs *)

(** The 60-bit timestamp of a time UUID. *)
Definition uuid_hnanos (u : bytes) : Z := be_value (ToTimestampBytes u) mod 2 ^ 60.

Lemma fold_bytes (l : bytes) acc :
  bytes_ok l ->
  foldl (λ acc b, Z.lor (Z.shiftl acc 8) (Z.land b 0xff)) acc l =
  foldl (λ acc b, acc * 256 + b) acc l.
Proof.
  intros Hl. revert acc. induction Hl as [|b l Hb _ IH]; intros acc; [done|]. simpl.
  rewrite IH. f_equal. change 0xff with (Z.ones 8). rewrite Z.land_ones by lia.
  unfold is_u in Hb. rewrite Z.mod_small by done. rewrite Z.shiftl_mul_pow2 by lia.
  by rewrite lor_add_disjoint by lia.
Qed.

Lemma ToUnixTimestamp_spec u :
  uuid_ok u -> version_nibble u = 1 ->
  ToUnixTimestamp u = Ok (uuid_hnanos u / kMillisPerHundredNanos + kGregorianOffsetMillis).
Proof.
  intros Hu Hv. unfold ToUnixTimestamp, IsTimeUuid. rewrite version_time_based_iff, Hv.
  change (1 =? 1) with true. cbn [mbind result_bind]. rewrite fold_bytes.
  - f_equal. unfold uuid_hnanos, version_nibble in *. rewrite Z.shiftr_div_pow2 in Hv by lia.
    change (2 ^ 4) with 16 in Hv. uuid_bytes u Hu. unfold ToTimestampBytes, data in *.
    simpl default in *. rewrite land_0F. unfold be_value. simpl foldl.
    match type of Hv with ?d / 16 = 1 =>
      assert (d mod 16 = d - 16 /\ 16 <= d < 32) as [-> Hd] by (Z.div_mod_to_equations; lia) end.
    rewrite Z.quot_div_nonneg by (done || lia). do 2 f_equal.
    apply (Z.mod_unique _ _ 1); [left|]; lia.
  - uuid_bytes u Hu. unfold ToTimestampBytes, data. simpl. rewrite land_0F.
    repeat constructor; unfold is_u; change (2 ^ 8) with 256; Z.div_mod_to_equations; lia.
Qed.

Lemma land_lor_version b : 0 <= b < 16 -> u8 (Z.lor (Z.land b 0x0F) 0x10) = 16 + b.
Proof.
  intros Hb.
  pose proof (byte_forall (λ b, implb (b <? 16) (u8 (Z.lor (Z.land b 0x0F) 0x10) =? 16 + b))
                eq_refl b ltac:(lia)) as Hi. cbv beta in Hi.
  destruct (Z.ltb_spec b 16); [|lia]. by apply Z.eqb_eq.
Qed.

Lemma ToTimestampBytes_From x lsb :
  length x = 8%nat -> ToTimestampBytes (FromTimestampBytes x ++ lsb) = x.
Proof. intros Hl. do 8 (destruct x as [|? x]; [done|]). by destruct x. Qed.

(** Setting the version bits adds [2^60] to a 60-bit timestamp. *)
Lemma timestamp_bytes ts :
  0 <= ts < 2 ^ 60 ->
  u8 (Z.lor (Z.land (data (be_bytes 8 (u64 ts)) 0) 0x0F) 0x10) :: drop 1 (be_bytes 8 (u64 ts))
  = be_bytes 8 (2 ^ 60 + ts).
Proof.
  intros Hts. unfold u64. rewrite (wrap_small 64) by (unfold is_u; lia).
  change (be_bytes 8 ts) with (be_bytes (1 + 7) ts).
  change (be_bytes 8 (2 ^ 60 + ts)) with (be_bytes (1 + 7) (2 ^ 60 + ts)).
  rewrite !be_bytes_app. change (8 * Z.of_nat 7) with 56. rewrite !Z.shiftr_div_pow2 by lia.
  rewrite <- (be_bytes_mod 7 (2 ^ 60 + ts)). change (8 * Z.of_nat 7) with 56.
  replace ((2 ^ 60 + ts) mod 2 ^ 56) with (ts mod 2 ^ 56)
    by (change (2 ^ 60) with (16 * 2 ^ 56); rewrite Z.add_comm, Z_mod_plus_full; done).
  change 56 with (8 * Z.of_nat 7) at 4. rewrite (be_bytes_mod 7 ts).
  replace ((2 ^ 60 + ts) / 2 ^ 56) with (16 + ts / 2 ^ 56)
    by (change (2 ^ 60) with (16 * 2 ^ 56); rewrite Z.div_add_l; lia).
  assert (0 <= ts / 2 ^ 56 < 16) as Hq.
  { change (2 ^ 60) with (16 * 2 ^ 56) in Hts. change (2 ^ 56) with 72057594037927936 in *.
    Z.div_mod_to_equations; lia. }
  change (be_bytes 1 (ts / 2 ^ 56)) with [u8 (Z.shiftr (ts / 2 ^ 56) 0)].
  change (be_bytes 1 (16 + ts / 2 ^ 56)) with [u8 (Z.shiftr (16 + ts / 2 ^ 56) 0)].
  rewrite !Z.shiftr_0_r. cbn [app drop]. f_equal. unfold data. cbn [lookup list_lookup default].
  simpl default. unfold u8 at 2. rewrite wrap_small by (unfold is_u; change (2 ^ 8) with 256; lia).
  rewrite land_lor_version by done. unfold u8. by rewrite wrap_small by (unfold is_u; lia).
Qed.

(** A time UUID built from a timestamp: its bytes in comparison order. *)
Lemma FromTimestamp_spec ts lsb u :
  0 <= ts < 2 ^ 60 -> length lsb = 8%nat -> bytes_ok lsb -> u = FromTimestamp ts ++ lsb ->
  uuid_ok u /\ version_nibble u = 1 /\ uuid_hnanos u = ts /\
  ToTimestampBytes u = be_bytes 8 (2 ^ 60 + ts) /\ drop 8 u = lsb.
Proof.
  intros Hts Hl Hok ->. unfold FromTimestamp. rewrite timestamp_bytes by done.
  pose proof (be_bytes_length 8 (2 ^ 60 + ts)) as Hb.
  pose proof (be_bytes_ok 8 (2 ^ 60 + ts)) as Hbok.
  assert (be_value (be_bytes 8 (2 ^ 60 + ts)) = 2 ^ 60 + ts) as Ev.
  { rewrite be_value_be_bytes. change (8 * Z.of_nat 8) with 64. apply Z.mod_small. lia. }
  set (x := be_bytes 8 (2 ^ 60 + ts)) in *. clearbody x.
  assert (version_nibble (FromTimestampBytes x ++ lsb) = 1) as Hn.
  { unfold version_nibble. rewrite Z.shiftr_div_pow2 by lia. change (2 ^ 4) with 16.
    do 8 (destruct x as [|? x]; [done|]). destruct x; [|done]. unfold data, be_value in *.
    simpl in *. rewrite !Forall_cons in Hbok. unfold is_u in Hbok. change (2 ^ 8) with 256 in Hbok.
    destruct_and!. symmetry. change (data _ 0) with z. apply (Z.div_unique _ _ _ (z - 16)); [left|]; lia. }
  split_and!.
  - split; [by rewrite length_app, Hl|]. apply Forall_app. split; [|done].
    do 8 (destruct x as [|? x]; [done|]). destruct x; [|done].
    rewrite !Forall_cons in Hbok. unfold FromTimestampBytes, data. simpl.
    rewrite !Forall_cons. tauto.
  - done.
  - unfold uuid_hnanos. rewrite ToTimestampBytes_From, Ev by done.
    symmetry. apply (Z.mod_unique _ _ 1); [left|]; lia.
  - by apply ToTimestampBytes_From.
  - done.
Qed.

Lemma zeros_le (l : bytes) n :
  bytes_ok l -> length l = n -> bytes_compare (repeat 0 n) l ≠ Gt.
Proof.
  intros Hl. revert n. induction Hl as [|b l Hb Hl IH]; intros [|n]; try done.
  intros [= Hn]. unfold is_u in Hb. cbn [repeat bytes_compare].
  destruct (Z.compare_spec 0 b); [by apply IH|done|lia].
Qed.

Lemma ones_ge (l : bytes) n :
  bytes_ok l -> length l = n -> bytes_compare l (repeat 255 n) ≠ Gt.
Proof.
  intros Hl. revert n. induction Hl as [|b l Hb Hl IH]; intros [|n]; try done.
  intros [= Hn]. unfold is_u in Hb. change (2 ^ 8) with 256 in Hb. cbn [repeat bytes_compare].
  destruct (Z.compare_spec b 255); [by apply IH|done|lia].
Qed.

(** Time UUIDs compare by timestamp, then by the remaining bytes. *)
Lemma time_uuid_not_lt a b :
  uuid_ok a -> uuid_ok b -> version_nibble a = 1 -> version_nibble b = 1 ->
  (uuid_hnanos b < uuid_hnanos a ∨
   uuid_hnanos b = uuid_hnanos a /\ bytes_compare (drop 8 b) (drop 8 a) ≠ Gt) ->
  uuid_lt a b = false.
Proof.
  intros Ha Hb Va Vb Hle. destruct (uuid_lt a b) eqn:E; [|done]. exfalso.
  apply uuid_lt_spec in E; [|done|done|unfold version_ok; lia..].
  unfold EncodeToComparable in E. rewrite !version_time_based_iff, Va, Vb in E.
  change (1 =? 1) with true in E. cbn iota in E.
  rewrite bytes_compare_app_length in E by done.
  assert (∀ u, uuid_ok u -> version_nibble u = 1 ->
    bytes_ok (ToTimestampBytes u) /\ be_value (ToTimestampBytes u) = 2 ^ 60 + uuid_hnanos u) as Hval.
  { intros u Hu Vu. unfold uuid_hnanos, version_nibble in *. rewrite Z.shiftr_div_pow2 in Vu by lia.
    change (2 ^ 4) with 16 in Vu. uuid_bytes u Hu. unfold ToTimestampBytes, data in *. simpl in *.
    unfold be_value. simpl foldl. split.
    - repeat constructor; unfold is_u; change (2 ^ 8) with 256; lia.
    - match type of Vu with ?d / 16 = 1 => assert (16 <= d < 32) by (Z.div_mod_to_equations; lia) end.
      match goal with |- ?v = 2 ^ 60 + ?w mod _ =>
        assert (v - 2 ^ 60 = w mod 2 ^ 60); [apply (Z.mod_unique _ _ 1); [left|]|]; lia end. }
  destruct (Hval a Ha Va) as [Oa Ea]. destruct (Hval b Hb Vb) as [Ob Eb].
  rewrite (bytes_compare_be (ToTimestampBytes a) (ToTimestampBytes b)), Ea, Eb in E by done.
  destruct Hle as [Hlt|[Heq Hlsb]].
  - assert (2 ^ 60 + uuid_hnanos a ?= 2 ^ 60 + uuid_hnanos b = Gt) as Hc
      by (apply Z.compare_gt_iff; lia). by rewrite Hc in E.
  - rewrite Heq, Z.compare_refl in E. change kUuidMsbSize with 8%nat in E.
    rewrite bytes_compare_antisym in E. destruct (bytes_compare (drop 8 b) (drop 8 a)); done.
Qed.

(** The milliseconds whose timestamps fit in 60 bits: the years 1582 to 5236. *)
Definition unix_ms_ok (ms : Z) : Prop :=
  0 <= ms - kGregorianOffsetMillis /\ (ms + 1 - kGregorianOffsetMillis) * kMillisPerHundredNanos <= 2 ^ 60.

(** ** Properties *)

(** The comparable encoding of a UUID decodes to the same UUID and, for
    the versions RFC 4122 defines, sorts bytewise exactly as [operator<]. *)
Theorem uuid_comparable_correct (a b : bytes) :
  uuid_ok a -> uuid_ok b ->
  DecodeFromComparable (EncodeToComparable a) = Ok a /\
  (version_ok a -> version_ok b ->
   (uuid_lt a b = true <-> bytes_compare (EncodeToComparable a) (EncodeToComparable b) = Lt)).
Proof.
  intros Ha Hb. split; [by apply uuid_comparable_roundtrip|]. intros. by apply uuid_lt_spec.
Qed.

(** [MinFromUnixTimestamp] and [MaxFromUnixTimestamp] bracket all time
    UUIDs of the given millisecond, and have that millisecond themselves. *)
Theorem time_uuid_bounds (ms : Z) (u : bytes) :
  unix_ms_ok ms -> uuid_ok u -> ToUnixTimestamp u = Ok ms ->
  ToUnixTimestamp (MinFromUnixTimestamp ms) = Ok ms /\
  ToUnixTimestamp (MaxFromUnixTimestamp ms) = Ok ms /\
  uuid_lt u (MinFromUnixTimestamp ms) = false /\ uuid_lt (MaxFromUnixTimestamp ms) u = false.
Proof.
  intros [Hlo Hhi] Hu E. unfold kMillisPerHundredNanos, kGregorianOffsetMillis in Hlo, Hhi.
  assert (version_nibble u = 1) as Hv.
  { unfold ToUnixTimestamp, IsTimeUuid in E. rewrite version_time_based_iff in E.
    by destruct (Z.eqb_spec (version_nibble u) 1). }
  rewrite ToUnixTimestamp_spec in E by done. injection E as E.
  unfold kMillisPerHundredNanos, kGregorianOffsetMillis in E.
  set (lo := (ms - kGregorianOffsetMillis) * kMillisPerHundredNanos).
  set (hi := (ms + 1 - kGregorianOffsetMillis) * kMillisPerHundredNanos - 1).
  assert (lo = (ms + 12219292800000) * 10000 /\ hi = (ms + 12219292800001) * 10000 - 1) as [Elo Ehi]
    by (unfold lo, hi, kGregorianOffsetMillis, kMillisPerHundredNanos; lia).
  assert (MinFromUnixTimestamp ms = FromTimestamp lo ++ repeat 0 8) as Emin.
  { unfold MinFromUnixTimestamp. fold lo. unfold s64. rewrite signed_small; [done|done|].
    unfold is_s. lia. }
  assert (MaxFromUnixTimestamp ms = FromTimestamp hi ++ repeat 255 8) as Emax.
  { unfold MaxFromUnixTimestamp. fold hi. unfold s64. rewrite signed_small; [done|done|].
    unfold is_s. lia. }
  destruct (FromTimestamp_spec lo (repeat 0 8) _ ltac:(lia) eq_refl ltac:(by repeat constructor) Emin)
    as (Ho1 & Hv1 & Hn1 & _ & Hd1).
  destruct (FromTimestamp_spec hi (repeat 255 8) _ ltac:(lia) eq_refl ltac:(by repeat constructor) Emax)
    as (Ho2 & Hv2 & Hn2 & _ & Hd2).
  assert (length (drop 8 u) = 8%nat) as Hl by (destruct Hu as [Hl _]; by rewrite length_drop, Hl).
  assert (bytes_ok (drop 8 u)) as Hok by (apply Forall_drop, Hu).
  rewrite !ToUnixTimestamp_spec, Hn1, Hn2 by done.
  unfold kMillisPerHundredNanos, kGregorianOffsetMillis. split_and!.
  - f_equal. rewrite Elo, Z.div_mul; lia.
  - f_equal. Z.div_mod_to_equations; lia.
  - apply time_uuid_not_lt; [done..|]. rewrite Hn1, Hd1.
    destruct (decide (lo = uuid_hnanos u)); [right; split; [done|by apply zeros_le]|left].
    Z.div_mod_to_equations; lia.
  - apply time_uuid_not_lt; [done..|]. rewrite Hn2, Hd2.
    destruct (decide (hi = uuid_hnanos u)); [right; split; [done|by apply ones_ge]|left].
    Z.div_mod_to_equations; lia.
Qed.

End Uuid.

(** Boost's [version], for concrete evaluation. *)
#[export] Instance boost_uuid : BoostUuid := {
  version u := if decide (1 <= version_nibble u <= 5) then version_nibble u else -1;
  version_time_based := 1;
  version_unknown := -1;
  version_time_based_law := eq_refl;
  version_unknown_law := eq_refl;
  version_law u := eq_refl
}.

(** A version 1 and a version 4 UUID. *)
Definition time_uuid_sample : bytes := [1; 2; 3; 4; 5; 6; 0x1a; 8; 0x90; 10; 11; 12; 13; 14; 15; 16].
Definition random_uuid_sample : bytes := [0; 2; 3; 4; 5; 6; 0x4a; 8; 0x90; 10; 11; 12; 13; 14; 15; 16].

Lemma uuid_comparable_correct_witness :
  DecodeFromComparable (EncodeToComparable time_uuid_sample) = Ok time_uuid_sample /\
  (version_ok time_uuid_sample -> version_ok random_uuid_sample ->
   (uuid_lt time_uuid_sample random_uuid_sample = true <->
    bytes_compare (EncodeToComparable time_uuid_sample) (EncodeToComparable random_uuid_sample) = Lt)).
Proof.
  apply (uuid_comparable_correct time_uuid_sample random_uuid_sample);
    (split; [reflexivity|repeat constructor; vm_compute; intuition discriminate]).
Defined.

Lemma time_uuid_bounds_witness :
  ∃ ms, ToUnixTimestamp time_uuid_sample = Ok ms /\
        uuid_lt time_uuid_sample (MinFromUnixTimestamp ms) = false.
Proof.
  eexists. split; [vm_compute; reflexivity|].
  eapply (time_uuid_bounds _ time_uuid_sample).
  - vm_compute. intuition discriminate.
  - split; [reflexivity|]. repeat constructor; vm_compute; intuition discriminate.
  - vm_compute. reflexivity.
Defined.

(** For a version nibble above 5 the two orders disagree: [operator<]
    treats the version as -1 while the encoding sorts it after version 5. *)
Theorem uuid_unknown_version_order_mismatch :
  ∃ a b, uuid_ok a /\ uuid_ok b /\ uuid_lt a b = true /\
         bytes_compare (EncodeToComparable a) (EncodeToComparable b) = Gt.
Proof.
  exists [1; 2; 3; 4; 5; 6; 0x7a; 8; 0x90; 10; 11; 12; 13; 14; 15; 16], random_uuid_sample.
  split; [|split; [|split; reflexivity]];
    (split; [reflexivity|repeat constructor; vm_compute; intuition discriminate]).
Qed.
