(* ===== verification/PrimitiveValue.v ===== *)
(** * Primitive values ([src/yb/docdb/primitive_value.cc], [primitive_value.h])

    The tagged values that keys and values are made of: their encoding in
    keys, its decoder, equality and comparison. Decimals and varints are kept
    as comparable strings; what their codecs promise is the interface
    [ComparableNumber]. *)

From S2P Require Import Prelude KeyCodec FastVarInt DocKvUtil HybridTime DocHybridTime.
From S2P Require Import ValueType Intents KeyBytes Uuid.
Local Open Scope Z_scope.

(** ** Arbitrary-precision numbers as comparable strings

    What [PrimitiveValue] relies on of [util::Decimal] and [util::VarInt]: for
    the valid (canonical) numbers, decoding inverts encoding in front of any
    bytes, encodings sort like the numbers, and flipping all bits of an
    encoding (except for zero) gives the encoding of a number whose negation
    is encoded like the original, in the reverse order. *)
Class ComparableNumber (N : Type) := {
  num_valid : N -> Prop;
  num_encode : N -> bytes;
  num_decode : bytes -> Result (N * nat);
  num_negate : N -> N;
  num_compare : N -> N -> comparison;
  num_encode_ok n : num_valid n -> bytes_ok (num_encode n);
  num_roundtrip n rest : num_valid n -> bytes_ok rest ->
    num_decode (num_encode n ++ rest) = Ok (n, length (num_encode n));
  num_order a b r1 r2 : num_valid a -> num_valid b -> num_encode a ≠ num_encode b ->
    bytes_compare (num_encode a ++ r1) (num_encode b ++ r2) = num_compare a b;
  num_flip n : num_valid n ->
    ∃ m, num_valid m /\ AppendVarIntDescending (num_encode n) [] = num_encode m /\
         num_encode (num_negate m) = num_encode n;
  num_flip_order a b r1 r2 : num_valid a -> num_valid b -> num_encode a ≠ num_encode b ->
    bytes_compare (AppendVarIntDescending (num_encode a) [] ++ r1)
      (AppendVarIntDescending (num_encode b) [] ++ r2) = num_compare b a
}.

(** ** Data *)

(** The members of the union; which one is alive is determined by [type_]. *)
Inductive Payload : Type :=
| no_val
| str_val_ (s : bytes)
| json_val_ (s : bytes)
| int32_val_ (v : Z)
| uint32_val_ (v : Z)
| int64_val_ (v : Z)
| uint16_val_ (v : Z)
| float_val_ (bits : Z)
| double_val_ (bits : Z)
| decimal_val_ (s : bytes)
| varint_val_ (s : bytes)
| timestamp_val_ (v : Z)
| inetaddress_val_ (s : bytes)
| uuid_val_ (u : bytes)
| hybrid_time_val_ (t : DocHybridTime)
| column_id_val_ (v : Z).

Inductive PrimitiveValue : Type :=
| mkPV (type_ : ValueType) (val_ : Payload)
| mkFrozen (descending : bool) (frozen_val_ : list PrimitiveValue).

Definition type_of (pv : PrimitiveValue) : ValueType :=
  match pv with
  | mkPV t _ => t
  | mkFrozen descending _ => if descending then kFrozenDescending else kFrozen
  end.

#[export] Instance Payload_eq_dec : EqDecision Payload.
Proof. solve_decision. Defined.

(** The order of the enumerators, [kMaxByte] being the [char] -1. *)
Definition value_type_underlying (t : ValueType) : Z :=
  if decide (t = kMaxByte) then -1 else ValueTypeAsChar t.

(** *** Factories *)
Inductive SortOrder : Type := kAscending | kDescending.

Definition sorted_type (asc desc : ValueType) (o : SortOrder) : ValueType :=
  match o with kAscending => asc | kDescending => desc end.

Definition pv_String (s : bytes) (o : SortOrder) := mkPV (sorted_type kString kStringDescending o) (str_val_ s).
Definition pv_Int64 (v : Z) (o : SortOrder) := mkPV (sorted_type kInt64 kInt64Descending o) (int64_val_ v).
Definition pv_Timestamp (v : Z) (o : SortOrder) :=
  mkPV (sorted_type kTimestamp kTimestampDescending o) (timestamp_val_ v).
Definition pv_Inetaddress (s : bytes) (o : SortOrder) :=
  mkPV (sorted_type kInetaddress kInetaddressDescending o) (inetaddress_val_ s).
Definition pv_Uuid (u : bytes) (o : SortOrder) := mkPV (sorted_type kUuid kUuidDescending o) (uuid_val_ u).
Definition pv_Double (d : Z) (o : SortOrder) := mkPV (sorted_type kDouble kDoubleDescending o) (double_val_ d).
Definition pv_Float (f : Z) (o : SortOrder) := mkPV (sorted_type kFloat kFloatDescending o) (float_val_ f).
Definition pv_Decimal (s : bytes) (o : SortOrder) :=
  mkPV (sorted_type kDecimal kDecimalDescending o) (decimal_val_ s).
Definition pv_VarInt (s : bytes) (o : SortOrder) :=
  mkPV (sorted_type kVarInt kVarIntDescending o) (varint_val_ s).
Definition pv_Int32 (v : Z) (o : SortOrder) := mkPV (sorted_type kInt32 kInt32Descending o) (int32_val_ v).
Definition pv_UInt32 (v : Z) (o : SortOrder) := mkPV (sorted_type kUInt32 kUInt32Descending o) (uint32_val_ v).
Definition pv_ArrayIndex (index : Z) := mkPV kArrayIndex (int64_val_ index).
Definition pv_UInt16Hash (hash : Z) := mkPV kUInt16Hash (uint16_val_ hash).
Definition pv_ColumnId (column_id : Z) := mkPV kColumnId (column_id_val_ column_id).
Definition pv_SystemColumnId (column_id : Z) := mkPV kSystemColumnId (column_id_val_ column_id).
Definition pv_TransactionId (u : bytes) := mkPV kTransactionId (uuid_val_ u).
Definition pv_TableId (u : bytes) := mkPV kTableId (uuid_val_ u).
Definition pv_HybridTime (t : DocHybridTime) := mkPV kHybridTime (hybrid_time_val_ t).
Definition pv_Jsonb (s : bytes) := mkPV kJsonb (json_val_ s).

(** ** Encoding in keys *)

(** The [switch] of [AppendToKey] for the scalar types. A type that reads
    another union member than the one alive is undefined; a type that is not
    primitive ends in [FATAL_INVALID_ENUM_VALUE]. *)
Definition append_scalar (release : bool) `{BoostUuid} (type_ : ValueType) (val_ : Payload)
    (key_bytes : bytes) : Outcome bytes :=
  match type_ with
  | kLowest | kHighest | kMaxByte | kNullDescending | kNull | kCounter | kSSForward | kSSReverse
  | kFalse | kTrue | kFalseDescending | kTrueDescending => Done key_bytes
  | kString => match val_ with str_val_ s => Done (AppendString s key_bytes) | _ => Undefined end
  | kStringDescending =>
      match val_ with str_val_ s => Done (AppendDescendingString s key_bytes) | _ => Undefined end
  | kInt64 => match val_ with int64_val_ v => Done (AppendInt64 v key_bytes) | _ => Undefined end
  | kInt32 | kWriteId =>
      match val_ with int32_val_ v => Done (AppendInt32 v key_bytes) | _ => Undefined end
  | kUInt32 => match val_ with uint32_val_ v => Done (AppendUInt32 v key_bytes) | _ => Undefined end
  | kUInt32Descending =>
      match val_ with uint32_val_ v => Done (AppendDescendingUInt32 v key_bytes) | _ => Undefined end
  | kInt32Descending =>
      match val_ with int32_val_ v => Done (AppendDescendingInt32 v key_bytes) | _ => Undefined end
  | kInt64Descending =>
      match val_ with int64_val_ v => Done (AppendDescendingInt64 v key_bytes) | _ => Undefined end
  | kDouble => match val_ with double_val_ d => Done (AppendDouble d key_bytes) | _ => Undefined end
  | kDoubleDescending =>
      match val_ with double_val_ d => Done (AppendDescendingDouble d key_bytes) | _ => Undefined end
  | kFloat => match val_ with float_val_ f => Done (AppendFloat f key_bytes) | _ => Undefined end
  | kFloatDescending =>
      match val_ with float_val_ f => Done (AppendDescendingFloat f key_bytes) | _ => Undefined end
  | kDecimal => match val_ with decimal_val_ s => Done (AppendDecimal s key_bytes) | _ => Undefined end
  | kDecimalDescending =>
      match val_ with decimal_val_ s => Done (AppendDecimalDescending s key_bytes) | _ => Undefined end
  | kVarInt => match val_ with varint_val_ s => Done (AppendVarInt s key_bytes) | _ => Undefined end
  | kVarIntDescending =>
      match val_ with varint_val_ s => Done (AppendVarIntDescending s key_bytes) | _ => Undefined end
  | kTimestamp => match val_ with timestamp_val_ v => Done (AppendInt64 v key_bytes) | _ => Undefined end
  | kTimestampDescending =>
      match val_ with timestamp_val_ v => Done (AppendDescendingInt64 v key_bytes) | _ => Undefined end
  | kInetaddress =>
      match val_ with inetaddress_val_ s => Done (AppendString s key_bytes) | _ => Undefined end
  | kInetaddressDescending =>
      match val_ with inetaddress_val_ s => Done (AppendDescendingString s key_bytes) | _ => Undefined end
  | kTransactionId | kTableId | kUuid =>
      match val_ with
      | uuid_val_ u => Done (AppendString (EncodeToComparable u) key_bytes)
      | _ => Undefined
      end
  | kUuidDescending =>
      match val_ with
      | uuid_val_ u => Done (AppendDescendingString (EncodeToComparable u) key_bytes)
      | _ => Undefined
      end
  | kArrayIndex => match val_ with int64_val_ v => Done (AppendInt64 v key_bytes) | _ => Undefined end
  | kHybridTime =>
      match val_ with
      | hybrid_time_val_ t => Done (AppendEncodedInDocDbFormat t key_bytes)
      | _ => Undefined
      end
  | kUInt16Hash => match val_ with uint16_val_ v => Done (AppendUInt16 v key_bytes) | _ => Undefined end
  | kColumnId | kSystemColumnId =>
      match val_ with column_id_val_ v => Done (AppendColumnId v key_bytes) | _ => Undefined end
  | kObsoleteIntentType =>
      match val_ with
      | uint16_val_ v =>
          types ← ObsoleteIntentTypeToSet release (u8 v); Done (AppendIntentTypeSet types key_bytes)
      | _ => Undefined
      end
  | kObsoleteIntentTypeSet =>
      match val_ with
      | uint16_val_ v => Done (AppendIntentTypeSet (ObsoleteIntentTypeSetToNew (u8 v)) key_bytes)
      | _ => Undefined
      end
  | kIntentTypeSet =>
      match val_ with
      | uint16_val_ v => Done (AppendIntentTypeSet (new_IntentTypeSet v) key_bytes)
      | _ => Undefined
      end
  | kFrozen | kFrozenDescending => Undefined
  | kArray | kMergeFlags | kGroupEnd | kGroupEndDescending | kInvalid | kJsonb | kObject
  | kObsoleteIntentPrefix | kRedisList | kRedisSet | kRedisSortedSet | kRedisTS | kTombstone
  | kTtl | kUserTimestamp => Fatal
  end.

Definition frozen_type (descending : bool) : ValueType :=
  if descending then kFrozenDescending else kFrozen.

Definition frozen_end_marker (descending : bool) : ValueType :=
  if descending then kGroupEndDescending else kGroupEnd.

Fixpoint AppendToKey (release : bool) `{BoostUuid} (pv : PrimitiveValue) (key_bytes : bytes)
    : Outcome bytes :=
  match pv with
  | mkPV type_ val_ => append_scalar release type_ val_ (AppendValueType type_ key_bytes)
  | mkFrozen descending frozen_val_ =>
      key_bytes ← (fix append_all l (key_bytes : bytes) : Outcome bytes :=
          match l with
          | [] => Done key_bytes
          | pv :: l' => kb ← AppendToKey release pv key_bytes; append_all l' kb
          end) frozen_val_ (AppendValueType (frozen_type descending) key_bytes);
      Done (AppendValueType (frozen_end_marker descending) key_bytes)
  end.

(** ** Decoding from keys *)

(** [ColumnId::FromInt64] *)
Definition ColumnId_FromInt64 (value : Z) : Result Z :=
  if (2 ^ 31 - 1 <? value) || (value <? 0) then Error Corruption else Ok value.

(** [InetAddress::FromBytes] *)
Definition InetAddress_FromBytes (s : bytes) : Result bytes :=
  if (length s =? 4)%nat || (length s =? 16)%nat then Ok s else Error InvalidArgument.

(** [BigEndian::Load] of a fixed-width number, after the size check. *)
Definition take_fixed (n : nat) (slice : bytes) : Result (bytes * bytes) :=
  if (length slice <? n)%nat then Error Corruption else Ok (take n slice, drop n slice).

Section decode.
Context `{BoostUuid} {D V : Type} `{ComparableNumber D} `{ComparableNumber V}.

(** The value left in [*out], or the dummy type when [out] is null. *)
Definition out_value (out : bool) (pv : PrimitiveValue) : PrimitiveValue :=
  if out then pv else mkPV kNull no_val.

(** The [switch] of [DecodeKey] for the scalar types, after the tag, in three
    groups of cases: numbers, addresses and identifiers, floating point. *)
Definition decode_number (out : bool) (value_type : ValueType) (slice : bytes)
    : Outcome (Result (PrimitiveValue * bytes)) :=
  let ret (val_ : Payload) (rest : bytes) := Done (Ok (out_value out (mkPV value_type val_), rest)) in
  match value_type with
  | kDecimalDescending | kDecimal =>
      '(d, n) ⇐ Done (num_decode (N := D) slice);
      let d := if decide (value_type = kDecimalDescending) then num_negate d else d in
      ret (decimal_val_ (num_encode d)) (drop n slice)
  | kVarIntDescending | kVarInt =>
      '(v, n) ⇐ Done (num_decode (N := V) slice);
      let v := if decide (value_type = kVarIntDescending) then num_negate v else v in
      ret (varint_val_ (num_encode v)) (drop n slice)
  | kInt32Descending | kInt32 | kWriteId =>
      '(b, rest) ⇐ Done (take_fixed 4 slice);
      let v := s32 (Z.lxor (Load32 b) kInt32SignBitFlipMask) in
      ret (int32_val_ (if decide (value_type = kInt32Descending) then Z.lnot v else v)) rest
  | kUInt32Descending | kUInt32 =>
      '(b, rest) ⇐ Done (take_fixed 4 slice);
      let v := Load32 b in
      ret (uint32_val_ (if decide (value_type = kUInt32Descending) then u32 (Z.lnot v) else v)) rest
  | kInt64Descending | kInt64 | kArrayIndex =>
      '(b, rest) ⇐ Done (take_fixed 8 slice);
      let v := DecodeInt64FromKey b in
      ret (int64_val_ (if decide (value_type = kInt64Descending) then Z.lnot v else v)) rest
  | kUInt16Hash => '(b, rest) ⇐ Done (take_fixed 2 slice); ret (uint16_val_ (Load16 b)) rest
  | kTimestampDescending | kTimestamp =>
      '(b, rest) ⇐ Done (take_fixed 8 slice);
      let v := DecodeInt64FromKey b in
      ret (timestamp_val_ (if decide (value_type = kTimestampDescending) then Z.lnot v else v)) rest
  | _ => Done (Error Corruption)
  end.

Definition decode_identifier (out : bool) (value_type : ValueType) (slice : bytes)
    : Outcome (Result (PrimitiveValue * bytes)) :=
  let ret (val_ : Payload) (rest : bytes) := Done (Ok (out_value out (mkPV value_type val_), rest)) in
  match value_type with
  | kInetaddress =>
      '(s, rest) ⇐ Done (DecodeZeroEncodedStr slice []);
      if out then a ⇐ Done (InetAddress_FromBytes s); ret (inetaddress_val_ a) rest
      else ret no_val rest
  | kInetaddressDescending =>
      '(s, rest) ⇐ Done (DecodeComplementZeroEncodedStr slice []);
      if out then a ⇐ Done (InetAddress_FromBytes s); ret (inetaddress_val_ a) rest
      else ret no_val rest
  | kTransactionId | kTableId | kUuid =>
      '(s, rest) ⇐ Done (DecodeZeroEncodedStr slice []);
      if out then u ⇐ Done (DecodeFromComparable s); ret (uuid_val_ u) rest
      else ret no_val rest
  | kUuidDescending =>
      '(s, rest) ⇐ Done (DecodeComplementZeroEncodedStr slice []);
      if out then u ⇐ Done (DecodeFromComparable s); ret (uuid_val_ u) rest
      else ret no_val rest
  | kColumnId | kSystemColumnId =>
      '(v, rest) ⇐ Done (FastDecodeSignedVarInt_slice slice);
      c ⇐ Done (ColumnId_FromInt64 v); ret (column_id_val_ c) rest
  | kHybridTime => '(t, rest) ⇐ Done (DocHybridTime.DecodeFrom slice); ret (hybrid_time_val_ t) rest
  | kIntentTypeSet | kObsoleteIntentTypeSet | kObsoleteIntentType =>
      match slice with
      | b :: rest => ret (uint16_val_ b) rest
      | [] => Undefined
      end
  | _ => Done (Error Corruption)
  end.

Definition decode_floating (out : bool) (value_type : ValueType) (slice : bytes)
    : Outcome (Result (PrimitiveValue * bytes)) :=
  let ret (val_ : Payload) (rest : bytes) := Done (Ok (out_value out (mkPV value_type val_), rest)) in
  match value_type with
  | kFloatDescending | kFloat =>
      '(b, rest) ⇐ Done (take_fixed 4 slice);
      ret (float_val_ (DecodeFloatFromKey b (bool_decide (value_type = kFloatDescending)))) rest
  | kDoubleDescending | kDouble =>
      '(b, rest) ⇐ Done (take_fixed 8 slice);
      ret (double_val_ (DecodeDoubleFromKey b (bool_decide (value_type = kDoubleDescending)))) rest
  | _ => Done (Error Corruption)
  end.

Definition decode_scalar (out : bool) (value_type : ValueType) (slice : bytes)
    : Outcome (Result (PrimitiveValue * bytes)) :=
  let ret (val_ : Payload) (rest : bytes) := Done (Ok (out_value out (mkPV value_type val_), rest)) in
  match value_type with
  | kNullDescending | kNull | kCounter | kSSForward | kSSReverse | kFalse | kTrue
  | kFalseDescending | kTrueDescending | kHighest | kLowest => ret no_val slice
  | kStringDescending =>
      '(s, rest) ⇐ Done (DecodeComplementZeroEncodedStr slice []); ret (str_val_ s) rest
  | kString => '(s, rest) ⇐ Done (DecodeZeroEncodedStr slice []); ret (str_val_ s) rest
  | kDecimalDescending | kDecimal | kVarIntDescending | kVarInt | kInt32Descending | kInt32 | kWriteId
  | kUInt32Descending | kUInt32 | kInt64Descending | kInt64 | kArrayIndex | kUInt16Hash
  | kTimestampDescending | kTimestamp => decode_number out value_type slice
  | kInetaddress | kInetaddressDescending | kTransactionId | kTableId | kUuid | kUuidDescending
  | kColumnId | kSystemColumnId | kHybridTime | kIntentTypeSet | kObsoleteIntentTypeSet
  | kObsoleteIntentType => decode_identifier out value_type slice
  | kFloatDescending | kFloat | kDoubleDescending | kDouble => decode_floating out value_type slice
  | kFrozen | kFrozenDescending | kMaxByte | kArray | kMergeFlags | kGroupEnd | kGroupEndDescending
  | kInvalid | kJsonb | kObject | kObsoleteIntentPrefix | kRedisList | kRedisSet | kRedisSortedSet
  | kRedisTS | kTombstone | kTtl | kUserTimestamp => Done (Error Corruption)
  end.

(** The loop over the elements of a frozen value, given the decoder of one
    element. *)
Fixpoint decode_frozen (decode : bytes -> option (Outcome (Result (PrimitiveValue * bytes))))
    (end_marker : ValueType) (fuel : nat) (slice : bytes) (acc : list PrimitiveValue)
    : option (Outcome (Result (list PrimitiveValue * bytes))) :=
  match fuel with
  | O => None
  | S fuel' =>
      match slice with
      | [] => Some (Done (Error Corruption))
      | b :: rest =>
          if b =? ValueTypeAsChar end_marker then Some (Done (Ok (acc, rest)))
          else
            '(pv, rest) ⇚ decode slice;
            decode_frozen decode end_marker fuel' rest (acc ++ [pv])
      end
  end.

(** [DecodeKey]; the recursion on nested frozen values is bounded by [fuel],
    [None] marking that it ran out. *)
Fixpoint decode_key (fuel : nat) (out : bool) (slice : bytes)
    : option (Outcome (Result (PrimitiveValue * bytes))) :=
  match fuel with
  | O => None
  | S fuel' =>
      match slice with
      | [] => Some (Done (Error Corruption))
      | b :: rest =>
          match DecodeValueType b with
          | None => Some (Done (Error Corruption))
          | Some kFrozenDescending =>
              '(l, rest) ⇚ decode_frozen (decode_key fuel' out) kGroupEndDescending fuel' rest [];
              Some (Done (Ok (out_value out (mkFrozen true l), rest)))
          | Some kFrozen =>
              '(l, rest) ⇚ decode_frozen (decode_key fuel' out) kGroupEnd fuel' rest [];
              Some (Done (Ok (out_value out (mkFrozen false l), rest)))
          | Some value_type => Some (decode_scalar out value_type rest)
          end
      end
  end.

(** A step for each byte is enough. *)
Definition DecodeKey (out : bool) (slice : bytes) : Outcome (Result (PrimitiveValue * bytes)) :=
  finished (decode_key (S (length slice)) out slice).

End decode.

(** ** Equality and comparison *)

(** IEEE 754 comparison on bit patterns: [inf] is the pattern of infinity. *)
Definition ieee_nan (w inf bits : Z) : bool := inf <? bits mod 2 ^ (w - 1).
Definition ieee_value (w bits : Z) : Z :=
  if bits <? 2 ^ (w - 1) then bits else - (bits - 2 ^ (w - 1)).
Definition ieee_lt (w inf a b : Z) : bool :=
  negb (ieee_nan w inf a) && negb (ieee_nan w inf b) && (ieee_value w a <? ieee_value w b).
Definition ieee_eq (w inf a b : Z) : bool :=
  negb (ieee_nan w inf a) && negb (ieee_nan w inf b) && (ieee_value w a =? ieee_value w b).

Definition double_inf : Z := 0x7FF0000000000000.
Definition float_inf : Z := 0x7F800000.

(** [CompareUsingLessThan] for any [operator<]. *)
Definition compare_using {A} (lt : A -> A -> bool) (a b : A) : Z :=
  if lt a b then -1 else if lt b a then 1 else 0.

(** The sign of [std::string::compare]. *)
Definition str_compare (a b : bytes) : Z :=
  match bytes_compare a b with Lt => -1 | Eq => 0 | Gt => 1 end.

Definition inet_lt (a b : bytes) : bool := bool_decide (bytes_compare a b = Lt).

(** [switch] of [operator==], both sides having type [type_]. *)
Definition scalar_eq (type_ : ValueType) (a b : Payload) : Outcome bool :=
  match type_ with
  | kNullDescending | kNull | kCounter | kFalse | kFalseDescending | kSSForward | kSSReverse
  | kTrue | kTrueDescending | kLowest | kHighest | kMaxByte => Done true
  | kStringDescending | kString =>
      match a, b with str_val_ x, str_val_ y => Done (bool_decide (x = y)) | _, _ => Undefined end
  | kInt32Descending | kWriteId | kInt32 =>
      match a, b with int32_val_ x, int32_val_ y => Done (x =? y) | _, _ => Undefined end
  | kUInt32Descending | kUInt32 =>
      match a, b with uint32_val_ x, uint32_val_ y => Done (x =? y) | _, _ => Undefined end
  | kInt64Descending | kInt64 | kArrayIndex =>
      match a, b with int64_val_ x, int64_val_ y => Done (x =? y) | _, _ => Undefined end
  | kFloatDescending | kFloat =>
      match a, b with
      | float_val_ x, float_val_ y =>
          Done ((ieee_nan 32 float_inf x && ieee_nan 32 float_inf y) || ieee_eq 32 float_inf x y)
      | _, _ => Undefined
      end
  | kDoubleDescending | kDouble =>
      match a, b with
      | double_val_ x, double_val_ y =>
          Done ((ieee_nan 64 double_inf x && ieee_nan 64 double_inf y) || ieee_eq 64 double_inf x y)
      | _, _ => Undefined
      end
  | kDecimalDescending | kDecimal =>
      match a, b with decimal_val_ x, decimal_val_ y => Done (bool_decide (x = y)) | _, _ => Undefined end
  | kVarIntDescending | kVarInt =>
      match a, b with varint_val_ x, varint_val_ y => Done (bool_decide (x = y)) | _, _ => Undefined end
  | kIntentTypeSet | kObsoleteIntentTypeSet | kObsoleteIntentType | kUInt16Hash =>
      match a, b with uint16_val_ x, uint16_val_ y => Done (x =? y) | _, _ => Undefined end
  | kTimestampDescending | kTimestamp =>
      match a, b with timestamp_val_ x, timestamp_val_ y => Done (x =? y) | _, _ => Undefined end
  | kInetaddressDescending | kInetaddress =>
      match a, b with
      | inetaddress_val_ x, inetaddress_val_ y => Done (bool_decide (x = y))
      | _, _ => Undefined
      end
  | kTransactionId | kTableId | kUuidDescending | kUuid =>
      match a, b with uuid_val_ x, uuid_val_ y => Done (bool_decide (x = y)) | _, _ => Undefined end
  | kColumnId | kSystemColumnId =>
      match a, b with column_id_val_ x, column_id_val_ y => Done (x =? y) | _, _ => Undefined end
  | kHybridTime =>
      match a, b with
      | hybrid_time_val_ x, hybrid_time_val_ y => Done (DocHybridTime.CompareTo x y =? 0)
      | _, _ => Undefined
      end
  | kFrozen | kFrozenDescending => Undefined
  | kArray | kMergeFlags | kGroupEnd | kGroupEndDescending | kInvalid | kJsonb | kObject
  | kObsoleteIntentPrefix | kRedisList | kRedisSet | kRedisSortedSet | kRedisTS | kTombstone
  | kTtl | kUserTimestamp => Fatal
  end.

(** [operator==]; [std::vector]s are equal when they have the same length and
    equal elements. *)
Fixpoint pv_eq (a b : PrimitiveValue) : Outcome bool :=
  if negb (bool_decide (type_of a = type_of b)) then Done false
  else
    match a, b with
    | mkPV t x, mkPV _ y => scalar_eq t x y
    | mkFrozen _ l1, mkFrozen _ l2 =>
        if negb (length l1 =? length l2)%nat then Done false
        else
          (fix all_eq (l1 l2 : list PrimitiveValue) : Outcome bool :=
             match l1, l2 with
             | x :: l1', y :: l2' =>
                 e ← pv_eq x y;
                 if e : bool then all_eq l1' l2' else Done false
             | _, _ => Done true
             end) l1 l2
    | _, _ => Undefined
    end.

(** [switch] of [CompareTo], both sides having type [type_]. *)
Definition scalar_compare `{BoostUuid} (type_ : ValueType) (a b : Payload) : Outcome Z :=
  match type_ with
  | kNullDescending | kNull | kCounter | kSSForward | kSSReverse | kFalse | kTrue
  | kFalseDescending | kTrueDescending | kLowest | kHighest | kMaxByte => Done 0
  | kStringDescending =>
      match a, b with str_val_ x, str_val_ y => Done (str_compare y x) | _, _ => Undefined end
  | kString =>
      match a, b with str_val_ x, str_val_ y => Done (str_compare x y) | _, _ => Undefined end
  | kInt64Descending =>
      match a, b with int64_val_ x, int64_val_ y => Done (compare_using Z.ltb y x) | _, _ => Undefined end
  | kInt32Descending =>
      match a, b with int32_val_ x, int32_val_ y => Done (compare_using Z.ltb y x) | _, _ => Undefined end
  | kInt32 | kWriteId =>
      match a, b with int32_val_ x, int32_val_ y => Done (compare_using Z.ltb x y) | _, _ => Undefined end
  | kUInt32Descending =>
      match a, b with uint32_val_ x, uint32_val_ y => Done (compare_using Z.ltb y x) | _, _ => Undefined end
  | kUInt32 =>
      match a, b with uint32_val_ x, uint32_val_ y => Done (compare_using Z.ltb x y) | _, _ => Undefined end
  | kInt64 | kArrayIndex =>
      match a, b with int64_val_ x, int64_val_ y => Done (compare_using Z.ltb x y) | _, _ => Undefined end
  | kDoubleDescending =>
      match a, b with
      | double_val_ x, double_val_ y => Done (compare_using (ieee_lt 64 double_inf) y x)
      | _, _ => Undefined
      end
  | kDouble =>
      match a, b with
      | double_val_ x, double_val_ y => Done (compare_using (ieee_lt 64 double_inf) x y)
      | _, _ => Undefined
      end
  | kFloatDescending =>
      match a, b with
      | float_val_ x, float_val_ y => Done (compare_using (ieee_lt 32 float_inf) y x)
      | _, _ => Undefined
      end
  | kFloat =>
      match a, b with
      | float_val_ x, float_val_ y => Done (compare_using (ieee_lt 32 float_inf) x y)
      | _, _ => Undefined
      end
  | kDecimalDescending =>
      match a, b with decimal_val_ x, decimal_val_ y => Done (str_compare y x) | _, _ => Undefined end
  | kDecimal =>
      match a, b with decimal_val_ x, decimal_val_ y => Done (str_compare x y) | _, _ => Undefined end
  | kVarIntDescending =>
      match a, b with varint_val_ x, varint_val_ y => Done (str_compare y x) | _, _ => Undefined end
  | kVarInt =>
      match a, b with varint_val_ x, varint_val_ y => Done (str_compare x y) | _, _ => Undefined end
  | kIntentTypeSet | kObsoleteIntentTypeSet | kObsoleteIntentType | kUInt16Hash =>
      match a, b with uint16_val_ x, uint16_val_ y => Done (compare_using Z.ltb x y) | _, _ => Undefined end
  | kTimestampDescending =>
      match a, b with timestamp_val_ x, timestamp_val_ y => Done (compare_using Z.ltb y x) | _, _ => Undefined end
  | kTimestamp =>
      match a, b with timestamp_val_ x, timestamp_val_ y => Done (compare_using Z.ltb x y) | _, _ => Undefined end
  | kInetaddress =>
      match a, b with
      | inetaddress_val_ x, inetaddress_val_ y => Done (compare_using inet_lt x y)
      | _, _ => Undefined
      end
  | kInetaddressDescending =>
      match a, b with
      | inetaddress_val_ x, inetaddress_val_ y => Done (compare_using inet_lt y x)
      | _, _ => Undefined
      end
  | kTransactionId | kTableId | kUuidDescending =>
      match a, b with uuid_val_ x, uuid_val_ y => Done (compare_using uuid_lt y x) | _, _ => Undefined end
  | kUuid =>
      match a, b with uuid_val_ x, uuid_val_ y => Done (compare_using uuid_lt x y) | _, _ => Undefined end
  | kColumnId | kSystemColumnId =>
      match a, b with
      | column_id_val_ x, column_id_val_ y => Done (compare_using Z.ltb x y)
      | _, _ => Undefined
      end
  | kHybridTime =>
      match a, b with
      | hybrid_time_val_ x, hybrid_time_val_ y => Done (- DocHybridTime.CompareTo x y)
      | _, _ => Undefined
      end
  | kFrozen | kFrozenDescending => Undefined
  | kArray | kMergeFlags | kGroupEnd | kGroupEndDescending | kInvalid | kJsonb | kObject
  | kObsoleteIntentPrefix | kRedisList | kRedisSet | kRedisSortedSet | kRedisTS | kTombstone
  | kTtl | kUserTimestamp => Fatal
  end.

Fixpoint CompareTo `{BoostUuid} (a b : PrimitiveValue) : Outcome Z :=
  let result := compare_using Z.ltb (value_type_underlying (type_of a))
                  (value_type_underlying (type_of b)) in
  if negb (result =? 0) then Done result
  else
    match a, b with
    | mkPV t x, mkPV _ y => scalar_compare t x y
    | mkFrozen descending l1, mkFrozen _ l2 =>
        r ← (fix elements (l1 l2 : list PrimitiveValue) : Outcome Z :=
               match l1, l2 with
               | x :: l1', y :: l2' =>
                   r ← CompareTo x y;
                   if negb (r =? 0) then Done r else elements l1' l2'
               | _, _ => Done 0
               end) l1 l2;
        if negb (r =? 0) then Done r
        else
          let n1 := Z.of_nat (length l1) in
          let n2 := Z.of_nat (length l2) in
          Done (if (descending : bool) then compare_using Z.ltb n2 n1 else compare_using Z.ltb n1 n2)
    | _, _ => Undefined
    end.
