(* ===== verification/VarInt.v ===== *)
(** * Arbitrary-precision integers ([src/yb/util/varint.cc])

    [VarInt]: the order-preserving encoding of unbounded integers (with
    reserved leading bits for [Decimal]) and the two's complement encoding.
    The arithmetic is OpenSSL's; [OpenSSLBN] states what is used of it. *)

From S2P Require Import Prelude FastVarInt KeyBytes PrimitiveValue.
Local Open Scope Z_scope.

(** ** OpenSSL's [BIGNUM], identified with the integer it stands for

    [BN_bn2bin] writes the absolute value big-endian without leading zeros,
    [BN_bin2bn] reads one, [BN_num_bits] is the number of significant bits,
    [BN_get_word] is all ones when the absolute value does not fit a word,
    and a zero has no sign. *)
Class OpenSSLBN := {
  BN_num_bits : Z -> Z;
  BN_bn2bin : Z -> bytes;
  BN_bin2bn : bytes -> Z;
  BN_get_word : Z -> Z;
  BN_set_negative : Z -> bool -> Z;
  BN_num_bits_law n : BN_num_bits n = if n =? 0 then 0 else Z.log2 (Z.abs n) + 1;
  BN_bn2bin_law n : BN_bn2bin n = be_bytes (Z.to_nat ((BN_num_bits n + 7) / 8)) (Z.abs n);
  BN_bin2bn_law s : BN_bin2bn s = be_value s;
  BN_get_word_law n : BN_get_word n = Z.min (Z.abs n) (2 ^ 64 - 1);
  BN_set_negative_law n b : BN_set_negative n b = if b then - Z.abs n else Z.abs n
}.

Definition BN_is_zero (n : Z) : bool := n =? 0.
Definition BN_is_negative (n : Z) : bool := n <? 0.

Section varint.
Context `{OpenSSLBN}.

(** ** The operations *)

Definition FlipBits (data : bytes) : bytes := (λ b, u8 (Z.lnot b)) <$> data.

Definition ToInt64 (impl_ : Z) : Result Z :=
  let value := BN_get_word impl_ in
  let negative := BN_is_negative impl_ in
  let bound := if negative then - 2 ^ 63 else 2 ^ 63 - 1 in
  if u64 bound <? value then Error InvalidArgument
  else Ok (s64 (if negative then u64 (- value) else value)).

Definition VarInt_CompareTo (a b : Z) : Z :=
  match a ?= b with Lt => -1 | Eq => 0 | Gt => 1 end.

Definition Negate (impl_ : Z) : Z := BN_set_negative impl_ (negb (BN_is_negative impl_)).

Definition Sign (impl_ : Z) : Z :=
  if BN_is_zero impl_ then 0 else if BN_is_negative impl_ then -1 else 1.

(** *** Comparable encoding *)

(** [while (num_ones > 8)] and the merge into the last byte of the header;
    [data] is what is left from [idx]. The header never reaches past the end
    of the string ([fill_ones_be]). *)
Fixpoint fill_ones (num_ones : Z) (data : bytes) : bytes :=
  match data with
  | [] => []
  | b :: tl =>
      if 8 <? num_ones then 0xff :: fill_ones (num_ones - 8) tl
      else Z.lor b (Z.lxor 0xff (Z.shiftl 1 (8 - num_ones) - 1)) :: tl
  end.

(** [data[0] &= mask] and [buffer[0] |= mask]. *)
Definition update_head (f : Z -> Z) (data : bytes) : bytes :=
  match data with [] => [] | b :: tl => f b :: tl end.

Definition VarInt_EncodeToComparable (num_reserved_bits : Z) (impl_ : Z) : bytes :=
  if BN_is_zero impl_ then [Z.shiftr 0x80 num_reserved_bits]
  else
    let num_bits := BN_num_bits impl_ in
    let total_num_bits := num_bits + 1 + num_reserved_bits in
    let num_bytes := (total_num_bits + 6) / 7 in
    let rounding_padding := num_bytes * 7 - total_num_bits in
    let header_length := 1 + num_bytes + rounding_padding in
    let words_count := (num_bits + header_length + 8 - 1) / 8 in
    let offset := words_count - (num_bits + 8 - 1) / 8 in
    let data := replicate (Z.to_nat offset) 0 ++ BN_bn2bin impl_ in
    let data := fill_ones (num_bytes + num_reserved_bits) data in
    let data := if BN_is_negative impl_ then FlipBits data else data in
    if negb (num_reserved_bits =? 0)
    then update_head (λ b, Z.land b (Z.shiftl 1 (8 - num_reserved_bits) - 1)) data
    else data.

(** [while (buffer[idx] == 0xff)]: what is left of the buffer and the number
    of ones skipped. *)
Fixpoint skip_ones (buffer : bytes) (num_ones : Z) : Result (bytes * Z) :=
  match buffer with
  | b :: tl =>
      if b =? 0xff then
        match tl with
        | [] => Error Corruption
        | _ :: _ => skip_ones tl (num_ones + 8)
        end
      else Ok (buffer, num_ones)
  | [] => Error Corruption
  end.

(** [while (buffer[idx] & temp)]; [temp] has eight values before it is 0. *)
Fixpoint clear_ones (n : nat) (temp b num_ones : Z) : Z * Z :=
  match n with
  | O => (b, num_ones)
  | S n' =>
      if Z.land b temp =? 0 then (b, num_ones)
      else clear_ones n' (Z.shiftr temp 1) (Z.lxor b temp) (num_ones + 1)
  end.

(** The reserved bits have been set, so at least [num_reserved_bits] ones are
    counted. *)
Definition VarInt_DecodeFromComparable (num_reserved_bits : Z) (slice : bytes) : Result (Z * nat) :=
  match slice with
  | [] => Error Corruption
  | first :: _ =>
      let negative := Z.land first (Z.shiftr 0x80 num_reserved_bits) =? 0 in
      let buffer := if negative then FlipBits slice else slice in
      let buffer :=
        if negb (num_reserved_bits =? 0)
        then update_head (λ b, Z.lor b (u8 (Z.lnot (Z.shiftl 1 (8 - num_reserved_bits) - 1)))) buffer
        else buffer in
      '(remaining, num_ones) ← skip_ones buffer 0;
      let idx := (length buffer - length remaining)%nat in
      match remaining with
      | [] => Error Corruption
      | b :: tl =>
          let '(b, num_ones) := clear_ones 8 0x80 b num_ones in
          let num_ones := num_ones - num_reserved_bits in
          if Z.of_nat (length slice) <? num_ones then Error Corruption
          else
            let v := BN_bin2bn (take (Z.to_nat num_ones - idx) (b :: tl)) in
            Ok (if negative then BN_set_negative v true else v, Z.to_nat num_ones)
      end
  end.

(** *** Two's complement *)

(** [while (--back >= data && *back == from) *back = to; *back += delta], on
    the reversed string; the pointer always stops inside it. *)
Fixpoint carry_back (from to delta : Z) (rev_data : bytes) : bytes :=
  match rev_data with
  | [] => []
  | b :: tl => if b =? from then to :: carry_back from to delta tl else u8 (b + delta) :: tl
  end.

(** [back > data] after the loop: it stopped before the first byte. *)
Definition stopped_after_first (from : Z) (data : bytes) : bool :=
  negb (forallb (λ b, b =? from) (tail data)).

Definition EncodeToTwosComplement (impl_ : Z) : bytes :=
  if BN_is_zero impl_ then [0]
  else
    let num_bits := BN_num_bits impl_ in
    let offset := if num_bits mod 8 =? 0 then 1%nat else 0%nat in
    let data := replicate offset 0 ++ BN_bn2bin impl_ in
    if BN_is_negative impl_ then
      let flipped := FlipBits data in
      let result := reverse (carry_back 0xff 0 1 (reverse flipped)) in
      if (offset =? 1)%nat && stopped_after_first 0xff flipped
         && negb (Z.land (default 0 (result !! 1%nat)) 0x80 =? 0)
      then drop 1 result
      else result
    else data.

Definition DecodeFromTwosComplement (input : bytes) : Result Z :=
  match input with
  | [] => Error Corruption
  | first :: _ =>
      let negative := negb (Z.land first 0x80 =? 0) in
      if negb negative then Ok (BN_bin2bn input)
      else
        let data := FlipBits (reverse (carry_back 0 0xff (-1) (reverse input))) in
        Ok (BN_set_negative (BN_bin2bn data) true)
  end.

(** ** Bytes and numbers *)

Lemma be_bytes_cons n q x :
  byte_ok q -> 0 <= x < 2 ^ (8 * Z.of_nat n) ->
  be_bytes (S n) (q * 2 ^ (8 * Z.of_nat n) + x) = q :: be_bytes n x.
Proof.
  intros Hq Hx. cbn [be_bytes]. f_equal.
  - rewrite Z.shiftr_div_pow2 by lia. rewrite Z.div_add_l, Z.div_small, Z.add_0_r by lia.
    by apply wrap_small.
  - rewrite <- (be_bytes_mod n (_ + x)), Z.add_comm, Z_mod_plus_full, be_bytes_mod. done.
Qed.

(** Every [n + 1]-byte number is of that form. *)
Lemma be_bytes_split n v :
  0 <= v < 2 ^ (8 * Z.of_nat (S n)) ->
  ∃ q x, v = q * 2 ^ (8 * Z.of_nat n) + x /\ byte_ok q /\ 0 <= x < 2 ^ (8 * Z.of_nat n).
Proof.
  intros Hv. exists (v / 2 ^ (8 * Z.of_nat n)), (v mod 2 ^ (8 * Z.of_nat n)).
  pose proof (pow2_pos (8 * Z.of_nat n) ltac:(lia)) as Hp.
  split; [rewrite Z.mul_comm; by apply Z.div_mod; lia|].
  split; [|by apply Z.mod_pos_bound].
  replace (8 * Z.of_nat (S n)) with (8 + 8 * Z.of_nat n) in Hv by lia.
  rewrite Z.pow_add_r in Hv by lia.
  split; [apply Z.div_pos; lia|]. apply Z.div_lt_upper_bound; lia.
Qed.

Lemma pow_S8 n : 2 ^ (8 * Z.of_nat (S n)) = 256 * 2 ^ (8 * Z.of_nat n).
Proof.
  replace (8 * Z.of_nat (S n)) with (8 + 8 * Z.of_nat n) by lia. by rewrite Z.pow_add_r by lia.
Qed.

Lemma FlipBits_be n v :
  0 <= v < 2 ^ (8 * Z.of_nat n) ->
  FlipBits (be_bytes n v) = be_bytes n (2 ^ (8 * Z.of_nat n) - 1 - v).
Proof.
  revert v. induction n as [|n IH]; intros v Hv; [done|].
  destruct (be_bytes_split n v Hv) as (q & x & -> & Hq & Hx).
  rewrite pow_S8, be_bytes_cons by done.
  replace (256 * 2 ^ (8 * Z.of_nat n) - 1 - (q * 2 ^ (8 * Z.of_nat n) + x))
    with ((255 - q) * 2 ^ (8 * Z.of_nat n) + (2 ^ (8 * Z.of_nat n) - 1 - x)) by lia.
  unfold is_u in Hq. rewrite be_bytes_cons by (unfold is_u; lia).
  unfold FlipBits in *. rewrite fmap_cons, IH by done. f_equal.
  unfold u8. by rewrite wrap_lnot by done.
Qed.

(** A byte whose top [k] bits are zero, or become ones, or are cut off. *)
Lemma byte_header k q :
  0 <= k <= 8 -> 0 <= q < 2 ^ (8 - k) ->
  Z.lor q (Z.lxor 0xff (Z.shiftl 1 (8 - k) - 1)) = 256 - 2 ^ (8 - k) + q.
Proof.
  intros Hk Hq.
  assert (2 ^ (8 - k) <= 256) by (change 256 with (2 ^ 8); apply Z.pow_le_mono_r; lia).
  assert (k ∈ seqZ 0 9) as Hin by (apply elem_of_seqZ; lia).
  assert (forallb (λ k, forallb (λ q, (2 ^ (8 - k) <=? q) ||
    (Z.lor q (Z.lxor 0xff (Z.shiftl 1 (8 - k) - 1)) =? 256 - 2 ^ (8 - k) + q)) (seqZ 0 256))
    (seqZ 0 9) = true) as Hall by (vm_compute; reflexivity).
  rewrite forallb_forall in Hall. specialize (Hall k (proj1 (list_elem_of_In _ _) Hin)).
  pose proof (byte_forall _ Hall q ltac:(lia)) as Hb. apply orb_true_iff in Hb as [Hb|Hb]; lia.
Qed.

Lemma fill_ones_be n k v :
  0 < k <= 8 * Z.of_nat n -> 0 <= v < 2 ^ (8 * Z.of_nat n - k) ->
  fill_ones k (be_bytes n v) = be_bytes n (2 ^ (8 * Z.of_nat n) - 2 ^ (8 * Z.of_nat n - k) + v).
Proof.
  revert k v. induction n as [|n IH]; intros k v Hk Hv; [lia|].
  pose proof (pow2_pos (8 * Z.of_nat n) ltac:(lia)) as Hp.
  assert (0 <= v < 2 ^ (8 * Z.of_nat (S n))) as Hv'.
  { pose proof (Z.pow_le_mono_r 2 (8 * Z.of_nat (S n) - k) (8 * Z.of_nat (S n))). lia. }
  destruct (be_bytes_split n v Hv') as (q & x & -> & Hq & Hx). unfold is_u in Hq.
  rewrite be_bytes_cons by done. cbn [fill_ones]. rewrite pow_S8.
  destruct (Z.ltb_spec 8 k).
  - replace (8 * Z.of_nat (S n) - k) with (8 * Z.of_nat n - (k - 8)) in * by lia.
    pose proof (Z.pow_le_mono_r 2 (8 * Z.of_nat n - (k - 8)) (8 * Z.of_nat n)) as Hm.
    assert (q = 0) as -> by nia. rewrite Z.mul_0_l, Z.add_0_l in *.
    rewrite IH by lia.
    pose proof (pow2_pos (8 * Z.of_nat n - (k - 8)) ltac:(lia)).
    rewrite <- be_bytes_cons by (unfold is_u; lia). f_equal. lia.
  - replace (8 * Z.of_nat (S n) - k) with ((8 - k) + 8 * Z.of_nat n) in * by lia.
    rewrite Z.pow_add_r in * by lia. pose proof (pow2_pos (8 - k) ltac:(lia)).
    assert (2 ^ (8 - k) <= 2 ^ 8) by (apply Z.pow_le_mono_r; lia).
    assert (q < 2 ^ (8 - k)) by nia.
    rewrite byte_header by lia. rewrite <- be_bytes_cons by (unfold is_u; lia). f_equal. lia.
Qed.

Lemma update_head_land n r v :
  0 < r <= 8 -> 0 <= v < 2 ^ (8 * Z.of_nat (S n)) ->
  update_head (λ b, Z.land b (Z.shiftl 1 (8 - r) - 1)) (be_bytes (S n) v) =
  be_bytes (S n) (v mod 2 ^ (8 * Z.of_nat (S n) - r)).
Proof.
  intros Hr Hv. destruct (be_bytes_split n v Hv) as (q & x & -> & Hq & Hx). unfold is_u in Hq.
  rewrite be_bytes_cons by done. cbn [update_head].
  rewrite Z.shiftl_mul_pow2, Z.mul_1_l, land_mask by lia.
  replace (8 * Z.of_nat (S n) - r) with (8 * Z.of_nat n + (8 - r)) by lia.
  pose proof (pow2_pos (8 - r) ltac:(lia)). pose proof (pow2_pos (8 * Z.of_nat n) ltac:(lia)).
  assert (2 ^ (8 - r) <= 2 ^ 8) by (apply Z.pow_le_mono_r; lia).
  pose proof (Z.mod_pos_bound q (2 ^ (8 - r)) ltac:(lia)).
  rewrite Z.pow_add_r, Z.rem_mul_r, Z.div_add_l, (Z.div_small x), Z.add_0_r by lia.
  rewrite (Z.add_comm (_ * _) x), Z_mod_plus_full, (Z.mod_small x) by lia.
  rewrite Z.add_comm, (Z.mul_comm (2 ^ (8 * _))), be_bytes_cons by (unfold is_u; lia). done.
Qed.

Lemma replicate_be k m x :
  0 <= x < 2 ^ (8 * Z.of_nat m) -> replicate k 0 ++ be_bytes m x = be_bytes (k + m) x.
Proof.
  intros Hx. induction k as [|k IH]; [done|]. cbn [replicate app Nat.add].
  rewrite IH. pose proof (be_bytes_cons (k + m) 0 x ltac:(by split)) as E.
  rewrite Z.mul_0_l, Z.add_0_l in E. symmetry. apply E.
  pose proof (Z.pow_le_mono_r 2 (8 * Z.of_nat m) (8 * Z.of_nat (k + m))). lia.
Qed.

(** ** The comparable encoding as a number

    With [r] reserved bits the encoding of [v] has [vlen r v] bytes and is
    the number [vcode r v] of [8 * vlen - r] bits: a sign, the length in unary
    and the absolute value, complemented for negative numbers. *)
Definition vlen (r v : Z) : Z :=
  if v =? 0 then 1 else (Z.log2 (Z.abs v) + 1 + 1 + r + 6) / 7.

Definition vcode (r v n : Z) : Z :=
  if v <? 0 then 2 ^ (7 * n - r) - 1 - Z.abs v
  else 2 ^ (8 * n - r) - 2 ^ (7 * n - r) + Z.abs v.

Lemma vlen_spec r v : 0 <= r <= 6 -> 1 <= vlen r v /\ Z.abs v < 2 ^ (7 * vlen r v - r - 1).
Proof.
  intros Hr. unfold vlen. destruct (Z.eqb_spec v 0) as [->|Hv].
  - split; [lia|]. apply pow2_pos. lia.
  - pose proof (Z.log2_nonneg (Z.abs v)). set (l := Z.log2 (Z.abs v)) in *.
    assert (l + 2 + r <= 7 * ((l + 1 + 1 + r + 6) / 7)) by (Z.div_mod_to_equations; lia).
    split; [Z.div_mod_to_equations; lia|].
    pose proof (Z.log2_spec (Z.abs v) ltac:(lia)) as [_ Hu]. fold l in Hu.
    pose proof (Z.pow_le_mono_r 2 (Z.succ l) (7 * ((l + 1 + 1 + r + 6) / 7) - r - 1)). lia.
Qed.

Lemma vlen_mono r v w : 0 <= r <= 6 -> Z.abs v <= Z.abs w -> vlen r v <= vlen r w.
Proof.
  intros Hr Hle. pose proof (vlen_spec r w Hr) as [Hw _]. unfold vlen in *.
  destruct (Z.eqb_spec v 0); [done|]. destruct (Z.eqb_spec w 0); [lia|].
  pose proof (Z.log2_le_mono _ _ Hle). apply Z.div_le_mono; lia.
Qed.

(** The powers of two around [n] bytes with [r] reserved bits. *)
Lemma vcode_pows r n :
  0 <= r <= 6 -> 1 <= n ->
  2 ^ (7 * n - r) = 2 * 2 ^ (7 * n - r - 1) /\ 0 < 2 ^ (7 * n - r - 1) /\
  2 * 2 ^ (7 * n - r) <= 2 ^ (8 * n - r) /\ 2 ^ (8 * n) = 2 ^ r * 2 ^ (8 * n - r) /\ 0 < 2 ^ r.
Proof.
  intros Hr Hn. split; [rewrite <- Z.pow_succ_r by lia; f_equal; lia|].
  split; [apply pow2_pos; lia|]. split.
  - rewrite <- Z.pow_succ_r by lia. apply Z.pow_le_mono_r; lia.
  - split; [rewrite <- Z.pow_add_r by lia; f_equal; lia|apply pow2_pos; lia].
Qed.

Lemma vcode_range r v : 0 <= r <= 6 -> 0 <= vcode r v (vlen r v) < 2 ^ (8 * vlen r v - r).
Proof.
  intros Hr. destruct (vlen_spec r v Hr) as [Hn Ha].
  destruct (vcode_pows r _ Hr Hn) as (E1 & P1 & P2 & _). unfold vcode.
  destruct (Z.ltb_spec v 0); lia.
Qed.

Lemma vcode_is_u r v : 0 <= r <= 6 -> is_u (8 * vlen r v) (vcode r v (vlen r v)).
Proof.
  intros Hr. pose proof (vcode_range r v Hr). destruct (vlen_spec r v Hr) as [Hn _].
  pose proof (Z.pow_le_mono_r 2 (8 * vlen r v - r) (8 * vlen r v)). unfold is_u. lia.
Qed.

(** The buffer before the number is complemented and the reserved bits are
    cut off. *)
Lemma encode_header r v :
  0 <= r <= 6 -> v ≠ 0 ->
  let n := vlen r v in
  let num_bits := BN_num_bits v in
  let total_num_bits := num_bits + 1 + r in
  let num_bytes := (total_num_bits + 6) / 7 in
  let words_count := (num_bits + (1 + num_bytes + (num_bytes * 7 - total_num_bits)) + 8 - 1) / 8 in
  fill_ones (num_bytes + r)
    (replicate (Z.to_nat (words_count - (num_bits + 8 - 1) / 8)) 0 ++ BN_bn2bin v) =
  be_bytes (Z.to_nat n) (2 ^ (8 * n) - 2 ^ (7 * n - r) + Z.abs v).
Proof.
  intros Hr Hv n num_bits total num_bytes words. destruct (vlen_spec r v Hr) as [Hn Ha]. fold n in Hn, Ha.
  assert (num_bits = Z.log2 (Z.abs v) + 1) as Eb.
  { unfold num_bits. rewrite BN_num_bits_law. by destruct (Z.eqb_spec v 0). }
  assert (num_bytes = n) as En.
  { unfold num_bytes, total, n, vlen. rewrite Eb. destruct (Z.eqb_spec v 0); [done|]. f_equal. }
  pose proof (Z.log2_nonneg (Z.abs v)).
  pose proof (Z.log2_spec (Z.abs v) ltac:(lia)) as [_ Hu].
  assert (total <= 7 * n) as Ht by (rewrite <- En; unfold num_bytes; Z.div_mod_to_equations; lia).
  assert (words = n) as Ew.
  { unfold words. rewrite En. symmetry. apply (Z.div_unique _ _ _ (7 - r)); unfold total; lia. }
  assert (0 <= (num_bits + 8 - 1) / 8 <= n) as Hm by (unfold total in Ht; Z.div_mod_to_equations; lia).
  rewrite BN_bn2bin_law. fold num_bits. replace (num_bits + 8 - 1) with (num_bits + 7) in * by lia.
  assert (Z.abs v < 2 ^ (8 * ((num_bits + 7) / 8))) as Hb.
  { pose proof (Z.pow_le_mono_r 2 (Z.succ (Z.log2 (Z.abs v))) (8 * ((num_bits + 7) / 8))) as Hp.
    assert (num_bits <= 8 * ((num_bits + 7) / 8)) by (Z.div_mod_to_equations; lia). lia. }
  rewrite replicate_be by (rewrite Z2Nat.id by lia; lia).
  rewrite Ew, En, <- Z2Nat.inj_add by lia. replace (n - _ + _) with n by lia.
  rewrite fill_ones_be; rewrite ?Z2Nat.id by lia;
    replace (8 * n - (n + r)) with (7 * n - r) by lia; [done|lia|].
  destruct (vcode_pows r n Hr Hn) as (E1 & P1 & _). lia.
Qed.

Lemma VarInt_encode_code r v :
  0 <= r <= 6 ->
  VarInt_EncodeToComparable r v = be_bytes (Z.to_nat (vlen r v)) (vcode r v (vlen r v)).
Proof.
  intros Hr. unfold VarInt_EncodeToComparable, BN_is_zero.
  destruct (Z.eqb_spec v 0) as [->|Hv].
  { assert (r = 0 \/ r = 1 \/ r = 2 \/ r = 3 \/ r = 4 \/ r = 5 \/ r = 6)
      as [->|[->|[->|[->|[->|[->| ->]]]]]] by lia; reflexivity. }
  pose proof (encode_header r v Hr Hv) as E. cbv zeta in E |- *. rewrite E. clear E.
  destruct (vlen_spec r v Hr) as [Hn Ha]. pose proof (vcode_range r v Hr) as Hc.
  unfold vcode in *. set (n := vlen r v) in *.
  destruct (vcode_pows r n Hr Hn) as (E1 & P1 & P2 & E2 & P3).
  assert (2 ^ (8 * n - r) <= 2 ^ (8 * n)) by nia.
  unfold BN_is_negative.
  assert ((if v <? 0 then FlipBits (be_bytes (Z.to_nat n) (2 ^ (8 * n) - 2 ^ (7 * n - r) + Z.abs v))
    else be_bytes (Z.to_nat n) (2 ^ (8 * n) - 2 ^ (7 * n - r) + Z.abs v)) =
    be_bytes (Z.to_nat n) (if v <? 0 then 2 ^ (7 * n - r) - 1 - Z.abs v
      else 2 ^ (8 * n) - 2 ^ (7 * n - r) + Z.abs v)) as ->.
  { destruct (Z.ltb_spec v 0); [|done]. rewrite FlipBits_be; rewrite Z2Nat.id by lia; [f_equal|]; lia. }
  destruct (Z.eqb_spec r 0) as [->|Hr0]; cbn [negb].
  { by rewrite !Z.sub_0_r. }
  destruct (Z.to_nat n) as [|m] eqn:Em; [lia|].
  assert (Z.of_nat (S m) = n) as Em' by lia.
  rewrite update_head_land; rewrite ?Em'; [|lia|destruct (v <? 0); lia].
  f_equal. symmetry. destruct (v <? 0).
  - rewrite Z.mod_small by lia. done.
  - apply (Z.mod_unique _ _ (2 ^ r - 1)); [lia|]. nia.
Qed.

(** ** Order *)

Lemma vcode_lt_short r v w :
  0 <= r <= 6 -> v < w -> vlen r v <= vlen r w ->
  (vcode r v (vlen r v) + 1) * 2 ^ (8 * (vlen r w - vlen r v)) <= vcode r w (vlen r w).
Proof.
  intros Hr Hlt Hle. destruct (vlen_spec r v Hr) as [Hnv Hv], (vlen_spec r w Hr) as [Hnw Hw].
  pose proof (vlen_mono r w v Hr) as Hmono. unfold vcode.
  set (n := vlen r v) in *. set (m := vlen r w) in *. clearbody n m.
  destruct (vcode_pows r n Hr Hnv) as (E1 & P1 & P2 & _).
  destruct (vcode_pows r m Hr Hnw) as (F1 & Q1 & Q2 & _).
  pose proof (pow2_pos (8 * (m - n)) ltac:(lia)) as HD.
  assert (2 ^ (8 * m - r) = 2 ^ (8 * n - r) * 2 ^ (8 * (m - n))) as ED
    by (rewrite <- Z.pow_add_r by lia; f_equal; lia).
  destruct (decide (n = m)) as [->|Hne].
  { rewrite Z.sub_diag. change (2 ^ (8 * 0)) with 1. destruct (Z.ltb_spec v 0), (Z.ltb_spec w 0); lia. }
  destruct (Z.ltb_spec v 0), (Z.ltb_spec w 0); [lia| |lia|].
  - assert ((2 ^ (7 * n - r) - 1 - Z.abs v + 1) * 2 ^ (8 * (m - n))
      <= 2 ^ (7 * n - r) * 2 ^ (8 * (m - n))) by (apply Z.mul_le_mono_nonneg_r; lia).
    assert (2 * 2 ^ (7 * n - r) * 2 ^ (8 * (m - n)) <= 2 ^ (8 * n - r) * 2 ^ (8 * (m - n)))
      by (apply Z.mul_le_mono_nonneg_r; lia). lia.
  - assert ((2 ^ (8 * n - r) - 2 ^ (7 * n - r) + Z.abs v + 1) * 2 ^ (8 * (m - n))
      <= (2 ^ (8 * n - r) - 2 ^ (7 * n - r - 1)) * 2 ^ (8 * (m - n)))
      by (apply Z.mul_le_mono_nonneg_r; lia).
    assert (2 ^ (7 * m - r) <= 2 ^ (7 * n - r - 1) * 2 ^ (8 * (m - n))).
    { rewrite <- Z.pow_add_r by lia. apply Z.pow_le_mono_r; lia. }
    lia.
Qed.

Lemma vcode_lt_long r v w :
  0 <= r <= 6 -> v < w -> vlen r w <= vlen r v ->
  vcode r v (vlen r v) < vcode r w (vlen r w) * 2 ^ (8 * (vlen r v - vlen r w)).
Proof.
  intros Hr Hlt Hle. destruct (vlen_spec r v Hr) as [Hnv Hv], (vlen_spec r w Hr) as [Hnw Hw].
  pose proof (vlen_mono r v w Hr) as Hmono. unfold vcode.
  set (n := vlen r v) in *. set (m := vlen r w) in *. clearbody n m.
  destruct (vcode_pows r n Hr Hnv) as (E1 & P1 & P2 & _).
  destruct (vcode_pows r m Hr Hnw) as (F1 & Q1 & Q2 & _).
  pose proof (pow2_pos (8 * (n - m)) ltac:(lia)) as HD.
  assert (2 ^ (8 * n - r) = 2 ^ (8 * m - r) * 2 ^ (8 * (n - m))) as ED
    by (rewrite <- Z.pow_add_r by lia; f_equal; lia).
  destruct (decide (n = m)) as [->|Hne].
  { rewrite Z.sub_diag. change (2 ^ (8 * 0)) with 1. destruct (Z.ltb_spec v 0), (Z.ltb_spec w 0); lia. }
  destruct (Z.ltb_spec v 0), (Z.ltb_spec w 0); [| |lia|lia].
  - assert (2 ^ (7 * m - r - 1) * 2 ^ (8 * (n - m))
      <= (2 ^ (7 * m - r) - 1 - Z.abs w) * 2 ^ (8 * (n - m))) by (apply Z.mul_le_mono_nonneg_r; lia).
    assert (2 ^ (7 * n - r) <= 2 ^ (7 * m - r - 1) * 2 ^ (8 * (n - m))).
    { rewrite <- Z.pow_add_r by lia. apply Z.pow_le_mono_r; lia. }
    lia.
  - assert (2 ^ (7 * m - r) * 2 ^ (8 * (n - m))
      <= (2 ^ (8 * m - r) - 2 ^ (7 * m - r) + Z.abs w) * 2 ^ (8 * (n - m)))
      by (apply Z.mul_le_mono_nonneg_r; lia).
    assert (2 * 2 ^ (7 * m - r) * 2 ^ (8 * (n - m)) <= 2 ^ (8 * m - r) * 2 ^ (8 * (n - m)))
      by (apply Z.mul_le_mono_nonneg_r; lia).
    assert ((2 ^ (8 * m - r) - 2 * 2 ^ (7 * m - r)) * 2 ^ (8 * (n - m)) >= 0) by nia.
    nia.
Qed.

Lemma varint_lt r v w r1 r2 :
  0 <= r <= 6 -> v < w ->
  bytes_compare (VarInt_EncodeToComparable r v ++ r1) (VarInt_EncodeToComparable r w ++ r2) = Lt.
Proof.
  intros Hr Hlt. rewrite !VarInt_encode_code by done.
  pose proof (vcode_is_u r v Hr) as Uv. pose proof (vcode_is_u r w Hr) as Uw.
  destruct (vlen_spec r v Hr) as [Hnv _], (vlen_spec r w Hr) as [Hnw _].
  destruct (Z.le_ge_cases (vlen r v) (vlen r w)) as [Hle|Hle].
  - pose proof (vcode_lt_short r v w Hr Hlt Hle) as HH.
    set (k := vlen r w - vlen r v) in *.
    replace (Z.to_nat (vlen r w)) with (Z.to_nat (vlen r v) + Z.to_nat k)%nat by lia.
    assert (vcode r v (vlen r v) < Z.shiftr (vcode r w (vlen r w)) (8 * Z.of_nat (Z.to_nat k))) as Hs.
    { rewrite Z2Nat.id, Z.shiftr_div_pow2 by lia.
      apply Z.le_succ_l, Z.div_le_lower_bound; [apply pow2_pos; lia|lia]. }
    rewrite be_bytes_compare_prefix; [by apply Z.compare_lt_iff| | |lia].
    + by rewrite Z2Nat.id by lia.
    + replace (8 * Z.of_nat (Z.to_nat (vlen r v) + Z.to_nat k)) with (8 * vlen r w) by lia. done.
  - pose proof (vcode_lt_long r v w Hr Hlt Hle) as HH.
    set (k := vlen r v - vlen r w) in *.
    replace (Z.to_nat (vlen r v)) with (Z.to_nat (vlen r w) + Z.to_nat k)%nat by lia.
    assert (Z.shiftr (vcode r v (vlen r v)) (8 * Z.of_nat (Z.to_nat k)) < vcode r w (vlen r w)) as Hs.
    { rewrite Z2Nat.id, Z.shiftr_div_pow2 by lia.
      apply Z.div_lt_upper_bound; [apply pow2_pos; lia|lia]. }
    rewrite bytes_compare_antisym, be_bytes_compare_prefix; [| | |lia].
    + rewrite (proj2 (Z.compare_gt_iff _ _)) by lia. done.
    + by rewrite Z2Nat.id by lia.
    + replace (8 * Z.of_nat (Z.to_nat (vlen r w) + Z.to_nat k)) with (8 * vlen r v) by lia. done.
Qed.

Lemma varint_compare r v w r1 r2 :
  0 <= r <= 6 -> v ≠ w ->
  bytes_compare (VarInt_EncodeToComparable r v ++ r1) (VarInt_EncodeToComparable r w ++ r2) = (v ?= w).
Proof.
  intros Hr Hne. destruct (Z.compare_spec v w); [done|by apply varint_lt|].
  by rewrite bytes_compare_antisym, varint_lt.
Qed.

(** ** Round trip *)

(** Facts about the bits of one byte, by evaluation. *)
Lemma byte_bits (P : Z -> Z -> bool) :
  forallb (λ k, forallb (P k) (seqZ 0 256)) (seqZ 0 8) = true ->
  ∀ k q, 0 <= k < 8 -> 0 <= q < 256 -> P k q = true.
Proof.
  intros Hall k q Hk Hq. rewrite forallb_forall in Hall.
  apply byte_forall; [|done]. apply Hall, list_elem_of_In, elem_of_seqZ. lia.
Qed.

Lemma byte_set_top r q :
  0 <= r < 8 -> 0 <= q < 256 ->
  Z.lor q (u8 (Z.lnot (Z.shiftl 1 (8 - r) - 1))) = 256 - 2 ^ (8 - r) + q mod 2 ^ (8 - r).
Proof.
  intros Hr Hq. apply Z.eqb_eq. revert r q Hr Hq. apply byte_bits. vm_compute. reflexivity.
Qed.

Lemma byte_clear_ones k q a :
  0 <= k < 8 -> 0 <= q < 2 ^ (7 - k) -> clear_ones 8 0x80 (256 - 2 ^ (8 - k) + q) a = (q, a + k).
Proof.
  intros Hk Hq. assert (∀ n temp b a, clear_ones n temp b a = ((clear_ones n temp b 0).1, a + (clear_ones n temp b 0).2)) as Hacc.
  { clear. induction n as [|n IH]; intros temp b a; simpl; [f_equal; lia|].
    destruct (_ =? 0); simpl; [f_equal; lia|]. rewrite IH, (IH _ _ 1). simpl. f_equal. lia. }
  assert (2 ^ (7 - k) <= 2 ^ 7) by (apply Z.pow_le_mono_r; lia).
  rewrite Hacc.
  pose proof (byte_bits (λ k q, (2 ^ (7 - k) <=? q) ||
    (((clear_ones 8 0x80 (256 - 2 ^ (8 - k) + q) 0).1 =? q) &&
     ((clear_ones 8 0x80 (256 - 2 ^ (8 - k) + q) 0).2 =? k))) ltac:(vm_compute; reflexivity)
    k q Hk ltac:(change (2 ^ 7) with 128 in *; lia)) as Hb. cbv beta in Hb.
  apply orb_true_iff in Hb as [Hb|[E1 E2]%andb_prop]; [lia|].
  apply Z.eqb_eq in E1, E2. by rewrite E1, E2.
Qed.

Lemma byte_sign r q :
  0 <= r <= 6 -> 0 <= q < 2 ^ (8 - r) ->
  (Z.land q (Z.shiftr 0x80 r) =? 0) = (q <? 2 ^ (7 - r)).
Proof.
  intros Hr Hq. assert (2 ^ (8 - r) <= 2 ^ 8) by (apply Z.pow_le_mono_r; lia). change (2 ^ 8) with 256 in *.
  pose proof (byte_bits (λ r q, (2 ^ (8 - r) <=? q) ||
    eqb (Z.land q (Z.shiftr 0x80 r) =? 0) (q <? 2 ^ (7 - r))) ltac:(vm_compute; reflexivity)
    r q ltac:(lia) ltac:(lia)) as Hb. cbv beta in Hb.
  apply orb_true_iff in Hb as [Hb|Hb]; [lia|]. by apply eqb_prop in Hb.
Qed.

Lemma update_head_lor n r v rest :
  0 <= r < 8 -> 0 <= v < 2 ^ (8 * Z.of_nat (S n)) ->
  update_head (λ b, Z.lor b (u8 (Z.lnot (Z.shiftl 1 (8 - r) - 1)))) (be_bytes (S n) v ++ rest) =
  be_bytes (S n) (2 ^ (8 * Z.of_nat (S n)) - 2 ^ (8 * Z.of_nat (S n) - r)
                  + v mod 2 ^ (8 * Z.of_nat (S n) - r)) ++ rest.
Proof.
  intros Hr Hv. destruct (be_bytes_split n v Hv) as (q & x & -> & Hq & Hx). unfold is_u in Hq.
  rewrite be_bytes_cons by done. cbn [app update_head]. rewrite byte_set_top by done.
  pose proof (pow2_pos (8 - r) ltac:(lia)). pose proof (pow2_pos (8 * Z.of_nat n) ltac:(lia)).
  assert (2 ^ (8 - r) <= 2 ^ 8) by (apply Z.pow_le_mono_r; lia).
  pose proof (Z.mod_pos_bound q (2 ^ (8 - r)) ltac:(lia)).
  rewrite pow_S8. replace (8 * Z.of_nat (S n) - r) with (8 * Z.of_nat n + (8 - r)) by lia.
  rewrite Z.pow_add_r, Z.rem_mul_r, Z.div_add_l, (Z.div_small x), Z.add_0_r by lia.
  rewrite (Z.add_comm (q * _) x), Z_mod_plus_full, (Z.mod_small x) by lia.
  rewrite app_comm_cons, <- be_bytes_cons by (unfold is_u; lia). do 2 f_equal. lia.
Qed.

Lemma skip_ones_be n k v rest a :
  0 <= k < 8 * Z.of_nat n -> 0 <= v < 2 ^ (8 * Z.of_nat n - k - 1) ->
  ∃ m k', (m <= n)%nat /\ k = 8 * (Z.of_nat n - Z.of_nat (S m)) + k' /\ 0 <= k' < 8 /\
    0 <= v < 2 ^ (8 * Z.of_nat (S m) - k' - 1) /\ (S m <= n)%nat /\
    skip_ones (be_bytes n (2 ^ (8 * Z.of_nat n) - 2 ^ (8 * Z.of_nat n - k) + v) ++ rest) a =
    Ok (be_bytes (S m) (2 ^ (8 * Z.of_nat (S m)) - 2 ^ (8 * Z.of_nat (S m) - k') + v) ++ rest,
        a + 8 * (Z.of_nat n - Z.of_nat (S m))).
Proof.
  revert k a. induction n as [|n IH]; intros k a Hk Hv; [lia|].
  pose proof (pow2_pos (8 * Z.of_nat n) ltac:(lia)) as Hp.
  destruct (Z.le_gt_cases 8 k) as [Hk8|Hk8].
  - replace (8 * Z.of_nat (S n) - k) with (8 * Z.of_nat n - (k - 8)) in * by lia.
    destruct (IH (k - 8) (a + 8)) as (m & k' & Hm & Ek & Hk' & Hv' & Hm' & E); [lia|done|].
    exists m, k'. repeat split; try lia. 
    pose proof (pow2_pos (8 * Z.of_nat n - (k - 8)) ltac:(lia)).
    pose proof (Z.pow_le_mono_r 2 (8 * Z.of_nat n - (k - 8)) (8 * Z.of_nat n)).
    pose proof (Z.pow_le_mono_r 2 (8 * Z.of_nat n - (k - 8) - 1) (8 * Z.of_nat n - (k - 8))).
    assert (v < 2 ^ (8 * Z.of_nat n - (k - 8))) by lia.
    rewrite pow_S8.
    replace (256 * 2 ^ (8 * Z.of_nat n) - 2 ^ (8 * Z.of_nat n - (k - 8)) + v)
      with (255 * 2 ^ (8 * Z.of_nat n) + (2 ^ (8 * Z.of_nat n) - 2 ^ (8 * Z.of_nat n - (k - 8)) + v)) by lia.
    rewrite be_bytes_cons by (unfold is_u; lia). cbn [app skip_ones]. change (255 =? 255) with true.
    cbv iota. destruct n as [|n']; [lia|].
    cbn [be_bytes app] in E |- *. rewrite E. do 2 f_equal. lia.
  - exists n, k. repeat split; try lia. rewrite Z.sub_diag, Z.mul_0_r, Z.add_0_r.
    replace (8 * Z.of_nat (S n) - k) with ((8 - k) + 8 * Z.of_nat n) in * by lia.
    replace ((8 - k) + 8 * Z.of_nat n - 1) with ((7 - k) + 8 * Z.of_nat n) in Hv by lia.
    set (X := 2 ^ _ - 2 ^ _ + v).
    assert (0 <= X < 2 ^ (8 * Z.of_nat (S n)) /\ X < 255 * 2 ^ (8 * Z.of_nat n)) as [HX HX255].
    { unfold X. rewrite pow_S8. rewrite Z.pow_add_r in * by lia.
      assert (2 ^ (8 - k) = 2 * 2 ^ (7 - k)) as E by (rewrite <- Z.pow_succ_r by lia; f_equal; lia).
      pose proof (pow2_pos (7 - k) ltac:(lia)).
      assert (2 ^ (7 - k) <= 2 ^ 7) by (apply Z.pow_le_mono_r; lia). change (2 ^ 7) with 128 in *.
      rewrite E. set (A := 2 ^ (7 - k)) in *. set (P := 2 ^ (8 * Z.of_nat n)) in *.
      assert (A * P <= 128 * P) by (apply Z.mul_le_mono_nonneg_r; lia). nia. }
    destruct (be_bytes_split n X HX) as (q & x & EX & Hq & Hx). rewrite EX in *.
    rewrite be_bytes_cons by done. cbn [app skip_ones].
    destruct (Z.eqb_spec q 255); [subst q; lia|done].
Qed.

Lemma FlipBits_app a b : FlipBits (a ++ b) = FlipBits a ++ FlipBits b.
Proof. apply fmap_app. Qed.

(** The first byte of an encoding shows the sign. *)
Lemma vcode_first r v rest :
  0 <= r <= 6 ->
  ∃ q tl, be_bytes (Z.to_nat (vlen r v)) (vcode r v (vlen r v)) ++ rest = q :: tl /\
    (Z.land q (Z.shiftr 0x80 r) =? 0) = (v <? 0).
Proof.
  intros Hr. destruct (vlen_spec r v Hr) as [Hn Ha]. pose proof (vcode_range r v Hr) as Hc.
  destruct (vcode_pows r _ Hr Hn) as (E1 & P1 & P2 & _).
  destruct (Z.to_nat (vlen r v)) as [|m] eqn:Em; [lia|].
  replace (vlen r v) with (Z.of_nat (S m)) in * by lia.
  pose proof (pow2_pos (8 * Z.of_nat m) ltac:(lia)) as Hp.
  assert (2 ^ (8 * Z.of_nat (S m) - r) = 2 ^ (8 - r) * 2 ^ (8 * Z.of_nat m)) as E8
    by (rewrite <- Z.pow_add_r by lia; f_equal; lia).
  assert (2 ^ (8 - r) = 2 * 2 ^ (7 - r)) as E7 by (rewrite <- Z.pow_succ_r by lia; f_equal; lia).
  assert (2 ^ (8 - r) <= 2 ^ 8) by (apply Z.pow_le_mono_r; lia).
  destruct (be_bytes_split m (vcode r v (Z.of_nat (S m)))) as (q & x & E & Hq & Hx).
  { split; [lia|]. pose proof (Z.pow_le_mono_r 2 (8 * Z.of_nat (S m) - r) (8 * Z.of_nat (S m))). lia. }
  assert (q < 2 ^ (8 - r)) by nia.
  exists q, (be_bytes m x ++ rest). rewrite E, be_bytes_cons by done. split; [done|].
  unfold is_u in Hq. rewrite byte_sign by lia. unfold vcode in E.
  destruct (Z.ltb_spec v 0), (Z.ltb_spec q (2 ^ (7 - r))); try done; exfalso; nia.
Qed.

(** The buffer [DecodeFromComparable] scans. *)
Lemma decode_buffer r v rest :
  0 <= r <= 6 ->
  let n := vlen r v in
  let slice := be_bytes (Z.to_nat n) (vcode r v n) ++ rest in
  let buffer := if v <? 0 then FlipBits slice else slice in
  (if negb (r =? 0)
   then update_head (λ b, Z.lor b (u8 (Z.lnot (Z.shiftl 1 (8 - r) - 1)))) buffer
   else buffer) =
  be_bytes (Z.to_nat n) (2 ^ (8 * n) - 2 ^ (7 * n - r) + Z.abs v)
  ++ (if v <? 0 then FlipBits rest else rest).
Proof.
  intros Hr n slice buffer. destruct (vlen_spec r v Hr) as [Hn Ha]. fold n in Hn, Ha.
  pose proof (vcode_range r v Hr) as Hc. pose proof (vcode_is_u r v Hr) as Hu.
  fold n in Hc, Hu. destruct (vcode_pows r _ Hr Hn) as (E1 & P1 & P2 & E2 & P3).
  unfold is_u in Hu.
  assert (buffer = be_bytes (Z.to_nat n) (if v <? 0 then 2 ^ (8 * n) - 1 - vcode r v n else vcode r v n)
    ++ (if v <? 0 then FlipBits rest else rest)) as ->.
  { unfold buffer, slice. destruct (v <? 0); [|done].
    rewrite FlipBits_app, FlipBits_be; rewrite Z2Nat.id by lia; done. }
  destruct (Z.eqb_spec r 0) as [->|Hr0]; cbn [negb].
  { do 2 f_equal. unfold vcode. rewrite !Z.sub_0_r. destruct (v <? 0); lia. }
  destruct (Z.to_nat n) as [|m] eqn:Em; [lia|]. assert (Z.of_nat (S m) = n) as Em' by lia.
  rewrite update_head_lor; rewrite ?Em'; [|lia|destruct (v <? 0); lia].
  do 2 f_equal. unfold vcode in *. destruct (Z.ltb_spec v 0).
  - rewrite <- (Z.mod_unique _ (2 ^ (8 * n - r)) (2 ^ r - 1) (2 ^ (8 * n - r) - 2 ^ (7 * n - r) + Z.abs v));
      [lia|lia|nia].
  - rewrite Z.mod_small by lia. lia.
Qed.

(** Clearing the ones of the last header byte leaves the number. *)
Lemma clear_header m k v rest a :
  0 <= k < 8 -> 0 <= v < 2 ^ (8 * Z.of_nat (S m) - k - 1) ->
  ∃ b tl b', be_bytes (S m) (2 ^ (8 * Z.of_nat (S m)) - 2 ^ (8 * Z.of_nat (S m) - k) + v) ++ rest
      = b :: tl /\
    clear_ones 8 0x80 b a = (b', a + k) /\ b' :: tl = be_bytes (S m) v ++ rest.
Proof.
  intros Hk Hv. assert (0 <= v < 2 ^ (8 * Z.of_nat (S m))) as Hv8.
  { split; [lia|]. pose proof (Z.pow_le_mono_r 2 (8 * Z.of_nat (S m) - k - 1) (8 * Z.of_nat (S m))). lia. }
  destruct (be_bytes_split m v Hv8) as (q & x & -> & Hq & Hx). unfold is_u in Hq.
  replace (8 * Z.of_nat (S m) - k) with ((8 - k) + 8 * Z.of_nat m) by lia.
  replace (8 * Z.of_nat (S m) - k - 1) with ((7 - k) + 8 * Z.of_nat m) in Hv by lia.
  pose proof (pow2_pos (8 * Z.of_nat m) ltac:(lia)) as Hp.
  rewrite Z.pow_add_r, pow_S8 in * by lia.
  assert (q < 2 ^ (7 - k)) as Hq7 by nia.
  assert (2 ^ (8 - k) = 2 * 2 ^ (7 - k)) as E7 by (rewrite <- Z.pow_succ_r by lia; f_equal; lia).
  assert (2 ^ (7 - k) <= 2 ^ 7) as P7 by (apply Z.pow_le_mono_r; lia). change (2 ^ 7) with 128 in P7.
  exists (256 - 2 ^ (8 - k) + q), (be_bytes m x ++ rest), q. rewrite byte_clear_ones by lia.
  split; [|split; [done|by rewrite be_bytes_cons by done]].
  rewrite app_comm_cons, <- be_bytes_cons by (unfold is_u; lia). do 2 f_equal. lia.
Qed.

Lemma varint_roundtrip r v rest :
  0 <= r <= 6 ->
  VarInt_DecodeFromComparable r (VarInt_EncodeToComparable r v ++ rest) =
  Ok (v, length (VarInt_EncodeToComparable r v)).
Proof.
  intros Hr. rewrite VarInt_encode_code by done. unfold VarInt_DecodeFromComparable.
  destruct (vcode_first r v rest Hr) as (first & tl & Es & Eneg).
  pose proof (decode_buffer r v rest Hr) as EB. cbv zeta in EB.
  destruct (vlen_spec r v Hr) as [Hn Ha].
  assert (length (first :: tl) = (Z.to_nat (vlen r v) + length rest)%nat) as Hlen
    by (rewrite <- Es, length_app, be_bytes_length; done).
  rewrite be_bytes_length. rewrite Es in *. rewrite Eneg, Hlen. cbv zeta. rewrite EB. clear EB.
  set (n := vlen r v) in *. set (rest' := if v <? 0 then _ else _).
  assert (length rest' = length rest) as Hrest
    by (unfold rest'; destruct (v <? 0); [apply length_fmap|done]).
  destruct (skip_ones_be (Z.to_nat n) (n + r) (Z.abs v) rest' 0)
    as (m & k' & Hm & Ek & Hk' & Hv & Hm' & E).
  { rewrite Z2Nat.id by lia. lia. }
  { rewrite Z2Nat.id by lia. replace (8 * n - (n + r) - 1) with (7 * n - r - 1) by lia. lia. }
  rewrite Z2Nat.id in * by lia. replace (8 * n - (n + r)) with (7 * n - r) in E by lia.
  rewrite E. cbn [mbind result_bind]. rewrite !length_app, !be_bytes_length, Hrest.
  destruct (clear_header m k' (Z.abs v) rest' (0 + 8 * (n - Z.of_nat (S m))) Hk' Hv)
    as (b & tl' & b' & -> & -> & ->).
  replace (0 + 8 * (n - Z.of_nat (S m)) + k' - r) with n by lia.
  destruct (Z.ltb_spec (Z.of_nat (Z.to_nat n + length rest)) n); [lia|].
  replace (Z.to_nat n - (Z.to_nat n + length rest - (S m + length rest)))%nat with (S m) by lia.
  rewrite take_app_length' by (by rewrite be_bytes_length).
  rewrite BN_bin2bn_law, be_value_be_bytes, BN_set_negative_law, Z.mod_small.
  - destruct (Z.ltb_spec v 0); do 2 f_equal; lia.
  - pose proof (Z.pow_le_mono_r 2 (8 * Z.of_nat (S m) - k' - 1) (8 * Z.of_nat (S m))). lia.
Qed.

(** ** What [PrimitiveValue] relies on *)

Lemma Negate_opp v : Negate v = - v.
Proof.
  unfold Negate, BN_is_negative. rewrite BN_set_negative_law. destruct (Z.ltb_spec v 0); simpl; lia.
Qed.

Lemma vlen_opp r v : vlen r (- v) = vlen r v.
Proof. unfold vlen. rewrite Z.abs_opp. by destruct (Z.eqb_spec v 0), (Z.eqb_spec (- v) 0); try lia. Qed.

(** The first byte is 128 for zero only. *)
Lemma varint_head v :
  ∃ q tl, VarInt_EncodeToComparable 0 v = q :: tl /\ (q =? 128) = (v =? 0).
Proof.
  destruct (Z.eqb_spec v 0) as [->|Hv]; [by exists 128, []|].
  rewrite VarInt_encode_code by lia. destruct (vlen_spec 0 v ltac:(lia)) as [Hn Ha].
  pose proof (vcode_is_u 0 v ltac:(lia)) as Hu.
  destruct (Z.to_nat (vlen 0 v)) as [|m] eqn:Em; [lia|].
  replace (vlen 0 v) with (Z.of_nat (S m)) in * by lia.
  destruct (vcode_pows 0 (Z.of_nat (S m)) ltac:(lia) Hn) as (E1 & P1 & P2 & _).
  destruct (be_bytes_split m _ Hu) as (q & x & E & Hq & Hx).
  exists q, (be_bytes m x). rewrite E, be_bytes_cons by done. split; [done|].
  pose proof (pow2_pos (8 * Z.of_nat m) ltac:(lia)) as Hp. unfold is_u, vcode in *.
  rewrite !Z.sub_0_r in *. rewrite pow_S8 in *.
  apply Z.eqb_neq. intros ->. destruct (Z.ltb_spec v 0); [lia|].
  destruct m as [|m]; [simpl in *; lia|].
  assert (4 * 2 ^ (7 * Z.of_nat (S (S m))) <= 256 * 2 ^ (8 * Z.of_nat (S m))); [|lia].
  change 256 with (2 ^ 8). change 4 with (2 ^ 2). rewrite <- !Z.pow_add_r by lia.
  apply Z.pow_le_mono_r; lia.
Qed.

Lemma varint_flip v :
  AppendVarIntDescending (VarInt_EncodeToComparable 0 v) [] = VarInt_EncodeToComparable 0 (Negate v).
Proof.
  rewrite Negate_opp. unfold AppendVarIntDescending.
  destruct (varint_head v) as (q & tl & E & Hq). rewrite E.
  change (default 0 (head (q :: tl))) with q. cbv zeta. rewrite Hq.
  destruct (Z.eqb_spec v 0) as [->|Hv].
  { cbn in E. injection E as <- <-. reflexivity. }
  rewrite <- E, !VarInt_encode_code, vlen_opp by lia.
  change (flip_bits ?x) with (FlipBits x). rewrite app_nil_l.
  destruct (vlen_spec 0 v ltac:(lia)) as [Hn _]. pose proof (vcode_is_u 0 v ltac:(lia)) as Hu.
  rewrite FlipBits_be; rewrite Z2Nat.id by lia; [|done].
  f_equal. unfold vcode. rewrite !Z.sub_0_r. destruct (Z.ltb_spec v 0), (Z.ltb_spec (- v) 0); lia.
Qed.

#[export, refine] Instance VarInt_number : ComparableNumber Z := {
  num_valid _ := True;
  num_encode := VarInt_EncodeToComparable 0;
  num_decode := VarInt_DecodeFromComparable 0;
  num_negate := Negate;
  num_compare := Z.compare
}.
Proof.
  - intros n _. rewrite VarInt_encode_code by lia. apply be_bytes_ok.
  - intros n rest _ _. by apply varint_roundtrip.
  - intros a b r1 r2 _ _ Hne. apply varint_compare; [lia|congruence].
  - intros n _. exists (Negate n). split; [done|]. split; [apply varint_flip|].
    rewrite !Negate_opp. f_equal. lia.
  - intros a b r1 r2 _ _ Hne. rewrite !varint_flip, !Negate_opp, varint_compare.
    + apply Z.compare_opp.
    + lia.
    + intros E. apply Hne. f_equal. lia.
Defined.

(** ** Two's complement *)

(** The number a two's complement string stands for. *)
Definition twos_value (s : bytes) : Z := signed (8 * Z.of_nat (length s)) (be_value s).

Lemma be_value_snoc l b : be_value (l ++ [b]) = be_value l * 256 + b.
Proof. rewrite be_value_app. unfold be_value at 2. simpl. change (2 ^ _) with 256. lia. Qed.

(** Adding or subtracting one with carry. *)
Lemma carry_back_spec (from to delta : Z) l :
  (from = 255 /\ to = 0 /\ delta = 1) \/ (from = 0 /\ to = 255 /\ delta = -1) ->
  bytes_ok l -> Exists (λ b, b ≠ from) l ->
  length (carry_back from to delta (reverse l)) = length l /\
  bytes_ok (carry_back from to delta (reverse l)) /\
  be_value (reverse (carry_back from to delta (reverse l))) = be_value l + delta.
Proof.
  intros Hd. induction l as [|b l IH] using rev_ind; intros Hok Hex; [by inversion Hex|].
  rewrite reverse_snoc. cbn [carry_back]. apply Forall_app in Hok as [Hl Hb].
  rewrite Forall_singleton in Hb.
  unfold is_u in Hb. rewrite length_app. cbn [length].
  destruct (Z.eqb_spec b from) as [->|Hne].
  - apply Exists_app in Hex as [Hex|Hex]; [|by inversion Hex as [?? Hx|?? Hx]; [|inversion Hx]].
    destruct (IH Hl Hex) as (L & O & V). cbn [length]. split; [lia|].
    split; [constructor; [unfold is_u; lia|done]|].
    rewrite reverse_cons, !be_value_snoc, V. lia.
  - assert (0 <= b + delta < 256) by (destruct Hd as [(-> & -> & ->)|(-> & -> & ->)]; lia).
    assert (u8 (b + delta) = b + delta) as -> by (apply wrap_small; done).
    cbn [length]. rewrite length_reverse. split; [lia|]. split.
    + constructor; [done|]. by apply Forall_reverse.
    + rewrite reverse_cons, reverse_involutive, !be_value_snoc. lia.
Qed.

Lemma FlipBits_ok l : bytes_ok (FlipBits l).
Proof. apply Forall_fmap, Forall_true. intros. apply wrap_range. lia. Qed.

Lemma FlipBits_value l :
  bytes_ok l -> be_value (FlipBits l) = 2 ^ (8 * Z.of_nat (length l)) - 1 - be_value l.
Proof.
  intros Hl. pose proof (be_value_range l Hl).
  rewrite <- (be_bytes_be_value l Hl) at 1. rewrite FlipBits_be, be_value_be_bytes by done.
  apply Z.mod_small. lia.
Qed.

Lemma top_bit b l :
  bytes_ok (b :: l) ->
  (Z.land b 0x80 =? 0) = (be_value (b :: l) <? 2 ^ (8 * Z.of_nat (length (b :: l)) - 1)).
Proof.
  intros Hok. inversion_clear Hok as [|?? Hb Hl]. pose proof (be_value_range l Hl) as Hr.
  unfold is_u in Hb. change 0x80 with (Z.shiftr 0x80 0). rewrite byte_sign by (simpl; lia).
  rewrite be_value_cons. cbn [length].
  replace (8 * Z.of_nat (S (length l)) - 1) with (7 + 8 * Z.of_nat (length l)) by lia.
  rewrite Z.pow_add_r by lia. change (2 ^ (7 - 0)) with 128. change (2 ^ 7) with 128.
  destruct (Z.ltb_spec b 128), (Z.ltb_spec (b * 2 ^ (8 * Z.of_nat (length l)) + be_value l)
    (128 * 2 ^ (8 * Z.of_nat (length l)))); nia || done.
Qed.

Lemma twos_value_eq s :
  bytes_ok s ->
  twos_value s = if be_value s <? 2 ^ (8 * Z.of_nat (length s) - 1) then be_value s
                 else be_value s - 2 ^ (8 * Z.of_nat (length s)).
Proof. intros Hs. unfold twos_value, signed. by rewrite wrap_small by (by apply be_value_range). Qed.

Lemma DecodeFromTwosComplement_spec s :
  bytes_ok s -> s ≠ [] -> DecodeFromTwosComplement s = Ok (twos_value s).
Proof.
  intros Hs Hne. rewrite twos_value_eq by done. destruct s as [|b l]; [done|].
  unfold DecodeFromTwosComplement. rewrite (top_bit b l), negb_involutive by done.
  destruct (Z.ltb_spec (be_value (b :: l)) (2 ^ (8 * Z.of_nat (length (b :: l)) - 1))) as [|Hge].
  { by rewrite BN_bin2bn_law. }
  assert (Exists (λ b, b ≠ 0) (b :: l)) as Hex.
  { apply Exists_cons_hd. intros ->. inversion_clear Hs as [|?? _ Hl].
    pose proof (be_value_range l Hl). rewrite be_value_cons in Hge. cbn [length] in Hge.
    pose proof (Z.pow_le_mono_r 2 (8 * Z.of_nat (length l)) (8 * Z.of_nat (S (length l)) - 1)). lia. }
  destruct (carry_back_spec 0 255 (-1) (b :: l) ltac:(auto) Hs Hex) as (L & O & V).
  pose proof (be_value_range _ Hs).
  rewrite BN_set_negative_law, BN_bin2bn_law, FlipBits_value by (by apply Forall_reverse).
  rewrite V, length_reverse, L. f_equal. lia.
Qed.

Lemma all_ones_value l : bytes_ok l -> ¬ Exists (λ b, b ≠ 255) l ->
  be_value l = 2 ^ (8 * Z.of_nat (length l)) - 1.
Proof.
  induction 1 as [|b l Hb Hl IH]; intros Hex; [done|].
  rewrite Exists_cons in Hex. rewrite be_value_cons, IH by tauto. cbn [length]. rewrite pow_S8.
  assert (b = 255) as -> by (destruct (decide (b = 255)); [done|tauto]). lia.
Qed.

(** The magnitude, with a leading zero byte when its top bit is set. *)
Lemma magnitude_bytes v :
  v ≠ 0 ->
  let num_bits := BN_num_bits v in
  let offset := if num_bits mod 8 =? 0 then 1%nat else 0%nat in
  ∃ m, replicate offset 0 ++ BN_bn2bin v = be_bytes (offset + S m) (Z.abs v) /\
    Z.abs v < 2 ^ (8 * Z.of_nat (S m)) /\ Z.abs v < 2 ^ (8 * Z.of_nat (offset + S m) - 1).
Proof.
  intros Hv num_bits offset. assert (num_bits = Z.log2 (Z.abs v) + 1) as Eb.
  { unfold num_bits. rewrite BN_num_bits_law. by destruct (Z.eqb_spec v 0). }
  pose proof (Z.log2_nonneg (Z.abs v)). pose proof (Z.log2_spec (Z.abs v) ltac:(lia)) as [_ Hu].
  assert (1 <= (num_bits + 7) / 8) by (Z.div_mod_to_equations; lia).
  exists (Z.to_nat ((num_bits + 7) / 8) - 1)%nat.
  replace (S (Z.to_nat ((num_bits + 7) / 8) - 1)) with (Z.to_nat ((num_bits + 7) / 8)) by lia.
  assert (Z.abs v < 2 ^ (8 * Z.of_nat (Z.to_nat ((num_bits + 7) / 8)))) as H8.
  { pose proof (Z.pow_le_mono_r 2 (Z.succ (Z.log2 (Z.abs v))) (8 * ((num_bits + 7) / 8))) as Hp.
    assert (num_bits <= 8 * ((num_bits + 7) / 8)) by (Z.div_mod_to_equations; lia).
    rewrite Z2Nat.id by lia. lia. }
  split; [|split; [done|]].
  - rewrite BN_bn2bin_law. fold num_bits. apply replicate_be. lia.
  - eapply Z.lt_le_trans; [exact Hu|]. apply Z.pow_le_mono_r; [lia|].
    rewrite Nat2Z.inj_add, Z2Nat.id by lia. unfold offset.
    destruct (Z.eqb_spec (num_bits mod 8) 0); Z.div_mod_to_equations; lia.
Qed.

Lemma twos_value_be n x :
  0 <= x < 2 ^ (8 * Z.of_nat n) ->
  twos_value (be_bytes n x) =
  if x <? 2 ^ (8 * Z.of_nat n - 1) then x else x - 2 ^ (8 * Z.of_nat n).
Proof.
  intros Hx. rewrite twos_value_eq by apply be_bytes_ok.
  rewrite be_value_be_bytes, be_bytes_length, Z.mod_small by done. done.
Qed.

(** The increment of the complement. *)
Lemma negate_bytes n a :
  0 < a < 2 ^ (8 * Z.of_nat n) ->
  reverse (carry_back 0xff 0 1 (reverse (FlipBits (be_bytes n a)))) =
  be_bytes n (2 ^ (8 * Z.of_nat n) - a).
Proof.
  intros Ha. assert (be_value (FlipBits (be_bytes n a)) = 2 ^ (8 * Z.of_nat n) - 1 - a) as EV.
  { rewrite FlipBits_value, be_value_be_bytes, be_bytes_length, Z.mod_small by (lia || apply be_bytes_ok).
    done. }
  assert (length (FlipBits (be_bytes n a)) = n) as EL by (unfold FlipBits; by rewrite length_fmap, be_bytes_length).
  assert (Exists (λ b, b ≠ 255) (FlipBits (be_bytes n a))) as Hex.
  { destruct (decide (Exists (λ b, b ≠ 255) (FlipBits (be_bytes n a)))) as [|Hn]; [done|].
    apply all_ones_value in Hn; [|apply FlipBits_ok]. rewrite EV, EL in Hn. lia. }
  destruct (carry_back_spec 255 0 1 (FlipBits (be_bytes n a)) ltac:(auto) (FlipBits_ok _) Hex) as (L & O & V).
  rewrite EL in L. rewrite EV in V.
  rewrite <- (be_bytes_be_value (reverse (carry_back 255 0 1 _))) by (by apply Forall_reverse).
  rewrite length_reverse, L, V. f_equal. lia.
Qed.

Lemma EncodeToTwosComplement_spec v :
  bytes_ok (EncodeToTwosComplement v) /\ EncodeToTwosComplement v ≠ [] /\
  twos_value (EncodeToTwosComplement v) = v.
Proof.
  unfold EncodeToTwosComplement, BN_is_zero, BN_is_negative.
  destruct (Z.eqb_spec v 0) as [->|Hv]; [by repeat constructor|].
  destruct (magnitude_bytes v Hv) as (m & E & H8 & H7). cbv zeta in *.
  set (offset := if _ =? 0 then 1%nat else 0%nat) in *. rewrite E.
  assert (offset = 0 \/ offset = 1)%nat as Ho by (unfold offset; destruct (_ =? 0); auto).
  clearbody offset. replace (offset + S m)%nat with (S (offset + m)) in * by lia.
  pose proof (pow_S8 (offset + m)) as E8. pose proof (pow2_pos (8 * Z.of_nat (offset + m)) ltac:(lia)).
  assert (2 ^ (8 * Z.of_nat (S (offset + m))) = 2 * 2 ^ (8 * Z.of_nat (S (offset + m)) - 1)) as E2
    by (rewrite <- Z.pow_succ_r by lia; f_equal; lia).
  destruct (Z.ltb_spec v 0) as [Hneg|Hpos].
  2: { split; [apply be_bytes_ok|]. split; [done|]. rewrite twos_value_be by lia.
       destruct (Z.ltb_spec (Z.abs v) (2 ^ (8 * Z.of_nat (S (offset + m)) - 1))); lia. }
  rewrite negate_bytes by lia. destruct (_ && _ && _) eqn:Eerase.
  - apply andb_prop in Eerase as [[->%Nat.eqb_eq _]%andb_prop Ebit].
    cbn [Nat.add] in *. replace (2 ^ (8 * Z.of_nat (S (S m))) - Z.abs v)
      with (255 * 2 ^ (8 * Z.of_nat (S m)) + (2 ^ (8 * Z.of_nat (S m)) - Z.abs v)) in * by lia.
    rewrite be_bytes_cons in * by (unfold is_u; lia).
    rewrite skipn_cons, skipn_O.
    split; [apply be_bytes_ok|]. split; [done|].
    rewrite twos_value_be by lia. set (y := 2 ^ (8 * Z.of_nat (S m)) - Z.abs v) in *.
    pose proof (be_bytes_ok (S m) y) as Hok. pose proof (be_value_be_bytes (S m) y) as Hval.
    pose proof (be_bytes_length (S m) y) as Hlen. rewrite Z.mod_small in Hval by lia.
    destruct (be_bytes (S m) y) as [|b l]; [done|].
    change (default 0 ((255 :: b :: l) !! 1%nat)) with b in Ebit.
    rewrite (top_bit b l), Hval, Hlen in Ebit by done.
    destruct (y <? _); [done|lia].
  - split; [apply be_bytes_ok|]. split; [done|]. rewrite twos_value_be by lia.
    destruct (Z.ltb_spec (2 ^ (8 * Z.of_nat (S (offset + m))) - Z.abs v)
      (2 ^ (8 * Z.of_nat (S (offset + m)) - 1))); lia.
Qed.

(** [ToInt64] succeeds exactly on the numbers an [int64_t] can hold. *)
Lemma ToInt64_spec v :
  ToInt64 v = if decide (is_s 64 v) then Ok v else Error InvalidArgument.
Proof.
  unfold ToInt64, BN_is_negative, s64, u64, is_s. rewrite BN_get_word_law.
  assert (wrap 64 (if v <? 0 then - 2 ^ 63 else 2 ^ 63 - 1) =
    if v <? 0 then 2 ^ 63 else 2 ^ 63 - 1) as -> by (by destruct (v <? 0)).
  case_decide as Hd; change (2 ^ (64 - 1)) with (2 ^ 63) in Hd.
  - rewrite Z.min_l by lia. destruct (Z.ltb_spec v 0).
    + destruct (Z.ltb_spec (2 ^ 63) (Z.abs v)); [lia|]. f_equal.
      rewrite signed_wrap by lia. rewrite signed_small by (unfold is_s; lia). lia.
    + destruct (Z.ltb_spec (2 ^ 63 - 1) (Z.abs v)); [lia|]. f_equal.
      rewrite signed_small by (unfold is_s; lia). lia.
  - destruct (Z.ltb_spec v 0), (Z.min_spec (Z.abs v) (2 ^ 64 - 1)) as [[? ->]|[? ->]];
      match goal with |- context [?a <? ?b] => destruct (Z.ltb_spec a b) end; lia || done.
Qed.

End varint.

(** ** OpenSSL's behaviour is satisfiable *)

#[export, refine] Instance bn_model : OpenSSLBN := {
  BN_num_bits n := if n =? 0 then 0 else Z.log2 (Z.abs n) + 1;
  BN_bn2bin n := be_bytes (Z.to_nat (((if n =? 0 then 0 else Z.log2 (Z.abs n) + 1) + 7) / 8)) (Z.abs n);
  BN_bin2bn := be_value;
  BN_get_word n := Z.min (Z.abs n) (2 ^ 64 - 1);
  BN_set_negative n b := if b then - Z.abs n else Z.abs n
}.
Proof. all: done. Defined.

(** ** Properties *)

(** C36: [VarInt::EncodeToComparable] represents integers of any size, with any
    number of reserved bits up to six: the decoder inverts it in front of any
    bytes and reports the number of bytes used, and encodings sort bytewise
    like the numbers whatever follows them. *)
Theorem varint_comparable_correct `{OpenSSLBN} r v w r1 r2 :
  0 <= r <= 6 -> v ≠ w ->
  VarInt_DecodeFromComparable r (VarInt_EncodeToComparable r v ++ r1) =
    Ok (v, length (VarInt_EncodeToComparable r v)) /\
  bytes_compare (VarInt_EncodeToComparable r v ++ r1) (VarInt_EncodeToComparable r w ++ r2) = (v ?= w).
Proof. intros Hr Hne. split; [by apply varint_roundtrip|by apply varint_compare]. Qed.

Lemma varint_comparable_correct_witness :
  bytes_compare (VarInt_EncodeToComparable 2 (- 10 ^ 40) ++ [255])
    (VarInt_EncodeToComparable 2 (10 ^ 30) ++ []) = Lt.
Proof. apply (varint_comparable_correct 2 (- 10 ^ 40) (10 ^ 30) [255] []); [lia|discriminate]. Defined.

(** The two's complement encoding denotes the number, and
    [DecodeFromTwosComplement] reads any non-empty string as the two's
    complement number it is; in particular it inverts the encoder. *)
Theorem varint_twos_complement_correct `{OpenSSLBN} v s :
  bytes_ok s -> s ≠ [] ->
  DecodeFromTwosComplement s = Ok (signed (8 * Z.of_nat (length s)) (be_value s)) /\
  DecodeFromTwosComplement (EncodeToTwosComplement v) = Ok v.
Proof.
  intros Hs Hne. split; [by apply DecodeFromTwosComplement_spec|].
  destruct (EncodeToTwosComplement_spec v) as (Hok & Hnil & Hv).
  rewrite DecodeFromTwosComplement_spec by done. by rewrite Hv.
Qed.

Lemma varint_twos_complement_correct_witness :
  DecodeFromTwosComplement [255; 127] = Ok (-129) /\
  DecodeFromTwosComplement (EncodeToTwosComplement (- 2 ^ 71)) = Ok (- 2 ^ 71).
Proof.
  apply (varint_twos_complement_correct (- 2 ^ 71) [255; 127]); [|discriminate].
  repeat constructor; vm_compute; intuition discriminate.
Defined.
