(* ===== verification/Decimal.v ===== *)
(** * Arbitrary-precision decimals ([src/yb/util/decimal.cc])

    [Decimal]: a sign, a [VarInt] exponent and decimal digits, standing for
    [+- 10^exponent * 0.d1d2...]: canonical form, comparison and the
    order-preserving encoding. *)

From S2P Require Import Prelude KeyBytes PrimitiveValue VarInt.
Local Open Scope Z_scope.

Record Decimal := mkDecimal { digits_ : list Z; exponent_ : Z; is_positive_ : bool }.

#[export] Instance Decimal_eq_dec : EqDecision Decimal.
Proof. solve_decision. Defined.

(** ** Canonical form *)

Definition clear : Decimal := mkDecimal [] 0 true.

Definition is_canonical (d : Decimal) : bool :=
  match digits_ d with
  | [] => is_positive_ d && (exponent_ d =? 0)
  | front :: _ => negb (front =? 0) && negb (default 0 (last (digits_ d)) =? 0)
  end.

(** [num_zeros]: the leading zero digits. *)
Fixpoint leading_zeros (digits : list Z) : nat :=
  match digits with 0 :: l => S (leading_zeros l) | _ => 0%nat end.

(** [while (!digits_.empty() && digits_.back() == 0) digits_.pop_back()] *)
Fixpoint pop_zeros (rev_digits : list Z) : list Z :=
  match rev_digits with 0 :: l => pop_zeros l | _ => rev_digits end.

Definition strip_back (digits : list Z) : list Z := reverse (pop_zeros (reverse digits)).

(** The digits are shifted to the front over the leading zeros and zeros are
    shifted in at the back, which are then popped. *)
Definition make_canonical (d : Decimal) : Decimal :=
  if is_canonical d then d
  else
    let num_zeros := leading_zeros (digits_ d) in
    let exponent := exponent_ d - Z.of_nat num_zeros in
    let digits := strip_back (drop num_zeros (digits_ d) ++ replicate num_zeros 0) in
    match digits with
    | [] => clear
    | _ :: _ => mkDecimal digits exponent (is_positive_ d)
    end.

(** The constructor from components. *)
Definition new_Decimal (digits : list Z) (exponent : Z) (is_positive : bool) : Decimal :=
  make_canonical (mkDecimal digits exponent is_positive).

Definition Decimal_Negate (d : Decimal) : Decimal :=
  mkDecimal (digits_ d) (exponent_ d) (negb (is_positive_ d)).

(** [operator-()] *)
Definition Decimal_opp (d : Decimal) : Decimal :=
  new_Decimal (digits_ d) (exponent_ d) (negb (is_positive_ d)).

Definition is_integer (d : Decimal) : bool :=
  match digits_ d with [] => true | _ => Z.of_nat (length (digits_ d)) <=? exponent_ d end.

Definition IsIdenticalTo (a b : Decimal) : bool :=
  eqb (is_positive_ a) (is_positive_ b) && (exponent_ a =? exponent_ b)
  && bool_decide (digits_ a = digits_ b).

(** ** Comparison *)

(** The first difference of the common digits. *)
Fixpoint first_difference (a b : list Z) : Z :=
  match a, b with
  | x :: a', y :: b' => let comp := x - y in if negb (comp =? 0) then comp else first_difference a' b'
  | _, _ => 0
  end.

(** The loop over the common digits, then the sizes, as [int]. *)
Definition compare_digits (a b : list Z) : Z :=
  let comp := first_difference a b in
  if negb (comp =? 0) then comp else s32 (Z.of_nat (length a)) - s32 (Z.of_nat (length b)).

Definition Decimal_CompareTo (a b : Decimal) : Z :=
  if negb (eqb (is_positive_ a) (is_positive_ b))
  then Z.b2z (is_positive_ a) - Z.b2z (is_positive_ b)
  else
    let signed_by comp := if is_positive_ a then comp else - comp in
    let empty (l : list Z) := bool_decide (l = []) in
    if empty (digits_ a) || empty (digits_ b) then
      let comp := Z.b2z (empty (digits_ a)) - Z.b2z (empty (digits_ b)) in
      if is_positive_ a then - comp else comp
    else
      let comp := VarInt_CompareTo (exponent_ a) (exponent_ b) in
      if negb (comp =? 0) then signed_by comp
      else signed_by (compare_digits (digits_ a) (digits_ b)).

(** ** The comparable encoding *)

(** Two digits a byte; the low bit says whether another byte follows. *)
Fixpoint EncodeToDigitPairs (digits : list Z) : bytes :=
  match digits with
  | [] => []
  | [a] => [u8 (u8 (a * 10) * 2)]
  | a :: b :: rest =>
      match rest with
      | [] => [u8 (u8 (a * 10 + b) * 2)]
      | _ :: _ => u8 ((a * 10 + b) * 2 + 1) :: EncodeToDigitPairs rest
      end
  end.

Definition Decimal_EncodeToComparable `{OpenSSLBN} (d : Decimal) : bytes :=
  match digits_ d with
  | [] => [128]
  | _ :: _ =>
      let exponent := VarInt_EncodeToComparable 2 (exponent_ d) in
      let mantissa := EncodeToDigitPairs (digits_ d) in
      let output := update_head (λ b, Z.lor b 0xc0) (exponent ++ mantissa) in
      if is_positive_ d then output else FlipBits output
  end.

(** The loop of [DecodeFromDigitPairs]: the digits and the bytes used. *)
Fixpoint decode_pairs (slice : bytes) : option (list Z * nat) :=
  match slice with
  | [] => None
  | byte :: rest =>
      let half := byte / 2 in
      let pair := [half / 10; half mod 10] in
      if Z.land byte 1 =? 0 then Some (pair, 1%nat)
      else '(l, n) ← decode_pairs rest; Some (pair ++ l, S n)
  end.

Definition DecodeFromDigitPairs (slice : bytes) : Result (list Z * nat) :=
  match decode_pairs slice with
  | None => Error Corruption
  | Some (digits, num_decoded_bytes) => Ok (strip_back digits, num_decoded_bytes)
  end.

Definition Decimal_DecodeFromComparable `{OpenSSLBN} (slice : bytes) : Result (Decimal * nat) :=
  match slice with
  | [] => Error Corruption
  | first :: _ =>
      if first =? 128 then Ok (clear, 1%nat)
      else
        let is_positive := 128 <=? first in
        let encoded := if is_positive then slice else FlipBits slice in
        '(exponent, num_exponent_bytes) ← VarInt_DecodeFromComparable 2 encoded;
        '(digits, num_mantissa_bytes) ← DecodeFromDigitPairs (drop num_exponent_bytes encoded);
        Ok (mkDecimal digits exponent is_positive, (num_exponent_bytes + num_mantissa_bytes)%nat)
  end.

(** ** Lemmas *)

Definition digit_ok (x : Z) : Prop := 0 <= x <= 9.

(** The decimals the class maintains. *)
Definition decimal_valid (d : Decimal) : Prop :=
  Forall digit_ok (digits_ d) /\ is_canonical d = true /\ Z.of_nat (length (digits_ d)) < 2 ^ 31.

(** *** Digit lists *)

(** The digits without trailing zeros. *)
Definition no_trailing_zero (l : list Z) : Prop := last l ≠ Some 0.

Lemma no_trailing_zero_tail a l : l ≠ [] -> no_trailing_zero (a :: l) -> no_trailing_zero l.
Proof. unfold no_trailing_zero. by destruct l. Qed.

Lemma strip_back_app l n : no_trailing_zero l -> strip_back (l ++ replicate n 0) = l.
Proof.
  intros Hl. unfold strip_back. rewrite reverse_app, reverse_replicate.
  assert (∀ n x, pop_zeros (replicate n 0 ++ x) = pop_zeros x) as -> by (by clear; induction n).
  unfold no_trailing_zero in Hl.
  destruct l as [|x l _] using rev_ind; [done|]. rewrite last_snoc in Hl.
  rewrite reverse_snoc. cbn [pop_zeros]. destruct x; [done|..];
    by rewrite reverse_cons, reverse_involutive.
Qed.

(** Lexicographic comparison of digits is the comparison of the lists as
    strings. *)
Lemma compare_digits_loop a b :
  ((let comp := first_difference a b in
    if negb (comp =? 0) then comp else Z.of_nat (length a) - Z.of_nat (length b)) ?= 0)
  = bytes_compare a b.
Proof.
  cbv zeta. revert b. induction a as [|x a IH]; intros [|y b]; try done.
  cbn [first_difference bytes_compare length]. destruct (Z.eqb_spec (x - y) 0) as [E|E]; cbn [negb].
  - assert (x = y) as -> by lia. rewrite Z.compare_refl, <- IH. destruct (negb _); [done|].
    f_equal. lia.
  - destruct (Z.eqb_spec (x - y) 0); [lia|]. cbn [negb]. destruct (Z.compare_spec x y); [lia|..].
    + apply Z.compare_lt_iff. lia.
    + apply Z.compare_gt_iff. lia.
Qed.

Lemma compare_digits_sign a b :
  Z.of_nat (length a) < 2 ^ 31 -> Z.of_nat (length b) < 2 ^ 31 ->
  (compare_digits a b ?= 0) = bytes_compare a b.
Proof.
  intros Ha Hb. rewrite <- compare_digits_loop. unfold compare_digits, s32.
  by rewrite !signed_small by (unfold is_s; lia).
Qed.

Lemma pair_small a b : digit_ok a -> digit_ok b -> 0 <= (a * 10 + b) * 2 + 1 < 2 ^ 8.
Proof. unfold digit_ok. lia. Qed.

Lemma EncodeToDigitPairs_cons a b l :
  digit_ok a -> digit_ok b ->
  EncodeToDigitPairs (a :: b :: l) =
  match l with [] => [(a * 10 + b) * 2] | _ => (a * 10 + b) * 2 + 1 :: EncodeToDigitPairs l end.
Proof.
  intros Ha Hb. pose proof (pair_small a b Ha Hb). unfold digit_ok in *.
  destruct l; cbn [EncodeToDigitPairs]; unfold u8;
    rewrite ?(wrap_small 8 (a * 10 + b)), wrap_small by (unfold is_u; lia); done.
Qed.

Lemma EncodeToDigitPairs_one a : digit_ok a -> EncodeToDigitPairs [a] = [a * 10 * 2].
Proof.
  intros Ha. unfold digit_ok in *. cbn [EncodeToDigitPairs]. unfold u8.
  rewrite (wrap_small 8 (a * 10)), wrap_small by (unfold is_u; lia). done.
Qed.

(** Induction on digits two at a time. *)
Lemma pairs_ind (P : list Z -> Prop) :
  P [] -> (∀ a, P [a]) -> (∀ a b l, P l -> P (a :: b :: l)) -> ∀ l, P l.
Proof.
  intros H0 H1 H2. fix IH 1. intros [|a [|b l]]; [done|apply H1|apply H2, IH].
Qed.

Lemma EncodeToDigitPairs_ok l : Forall digit_ok l -> bytes_ok (EncodeToDigitPairs l).
Proof.
  induction l as [|a|a b l IH] using pairs_ind; intros Hl; [constructor|..].
  - inversion_clear Hl as [|?? Ha _]. rewrite EncodeToDigitPairs_one by done.
    apply Forall_singleton. unfold digit_ok, is_u in *. lia.
  - inversion_clear Hl as [|?? Ha Hl']. inversion_clear Hl' as [|?? Hb Hl].
    rewrite EncodeToDigitPairs_cons by done. unfold digit_ok in *.
    destruct l; [apply Forall_singleton|constructor; [|by apply IH]]; unfold is_u; lia.
Qed.

Lemma byte_even x : 0 <= x -> (Z.land (x * 2) 1 =? 0) = true /\ x * 2 / 2 = x.
Proof.
  intros Hx. change 1 with (2 ^ 1 - 1). rewrite land_mask by lia. rewrite Z.mod_mul by lia.
  rewrite Z.div_mul by lia. done.
Qed.

Lemma byte_odd x : 0 <= x -> (Z.land (x * 2 + 1) 1 =? 0) = false /\ (x * 2 + 1) / 2 = x.
Proof.
  intros Hx. change 1 with (2 ^ 1 - 1) at 2. rewrite land_mask by lia.
  rewrite Z.add_comm, Z_mod_plus_full, Z.div_add by lia. done.
Qed.

(** Decoding gives the digits back, padded to an even number. *)
Lemma decode_pairs_encode l rest :
  Forall digit_ok l -> l ≠ [] ->
  ∃ n, decode_pairs (EncodeToDigitPairs l ++ rest) =
    Some (l ++ replicate n 0, length (EncodeToDigitPairs l)).
Proof.
  intros Hl Hne. induction l as [|a|a b l IH] using pairs_ind; [done|..].
  - inversion_clear Hl as [|?? Ha _]. unfold digit_ok in *. rewrite EncodeToDigitPairs_one by done.
    exists 1%nat. destruct (byte_even (a * 10) ltac:(lia)) as [E1 E2]. cbn [app decode_pairs length].
    rewrite E1, E2, Z.div_mul, Z.mod_mul by lia. done.
  - inversion_clear Hl as [|?? Ha Hl']. inversion_clear Hl' as [|?? Hb Hl]. unfold digit_ok in *.
    assert ((a * 10 + b) / 10 = a /\ (a * 10 + b) mod 10 = b) as [Ed Em]
      by (split; Z.div_mod_to_equations; lia).
    rewrite EncodeToDigitPairs_cons by done. destruct l as [|c l].
    + exists 0%nat. destruct (byte_even (a * 10 + b) ltac:(lia)) as [E1 E2].
      cbn [app decode_pairs length]. by rewrite E1, E2, Ed, Em.
    + destruct (byte_odd (a * 10 + b) ltac:(lia)) as [E1 E2].
      destruct (IH Hl ltac:(done)) as [n En]. exists n.
      cbn [app length]. cbn [decode_pairs]. rewrite E1, E2, Ed, Em, En. done.
Qed.

(** The first byte of a mantissa: two digits (the second one missing or not
    zero unless more follow) and whether more follow. *)
Inductive first_pair : list Z -> Z -> Z -> list Z -> Prop :=
| first_pair_one a : first_pair [a] a 0 []
| first_pair_two a b rest : (rest = [] -> b ≠ 0) -> first_pair (a :: b :: rest) a b rest.

Lemma first_pair_exists l :
  Forall digit_ok l -> no_trailing_zero l -> l ≠ [] ->
  ∃ a b rest, first_pair l a b rest /\ digit_ok a /\ digit_ok b /\
    Forall digit_ok rest /\ no_trailing_zero rest /\ (length rest < length l)%nat /\
    EncodeToDigitPairs l =
    (a * 10 + b) * 2 + (if decide (rest = []) then 0 else 1) :: EncodeToDigitPairs rest.
Proof.
  intros Hl Hz Hne. destruct l as [|a [|b l]]; [done|..].
  - inversion_clear Hl as [|?? Ha _]. exists a, 0, []. rewrite EncodeToDigitPairs_one by done.
    repeat split; try done; [constructor|unfold digit_ok in *; lia..|simpl; lia|].
    rewrite decide_True by done. f_equal. lia.
  - inversion_clear Hl as [|?? Ha Hl']. inversion_clear Hl' as [|?? Hb Hl].
    exists a, b, l. rewrite EncodeToDigitPairs_cons by done.
    split; [constructor; intros ->; unfold no_trailing_zero in Hz; simpl in Hz; congruence|].
    repeat split; try done; [unfold digit_ok in *; lia..| |simpl; lia|].
    + destruct l; [done|]. by do 2 (apply no_trailing_zero_tail in Hz; [|done]).
    + destruct l; [|by rewrite decide_False]. rewrite decide_True by done. f_equal. lia.
Qed.

Lemma first_pair_inj l1 l2 a b rest : first_pair l1 a b rest -> first_pair l2 a b rest -> l1 = l2.
Proof. intros [] H2; inversion H2; subst; try done; tauto. Qed.

(** Comparing digits through their first pairs. *)
Lemma first_pair_compare l1 l2 a1 b1 rest1 a2 b2 rest2 :
  first_pair l1 a1 b1 rest1 -> first_pair l2 a2 b2 rest2 -> digit_ok b1 -> digit_ok b2 ->
  bytes_compare l1 l2 =
  match a1 ?= a2 with
  | Eq => match b1 ?= b2 with Eq => bytes_compare rest1 rest2 | c => c end
  | c => c
  end.
Proof.
  unfold digit_ok. intros [a|a b rest Hb] H2 D1 D2; destruct H2 as [a'|a' b' rest' Hb'];
    cbn [bytes_compare]; destruct (a ?= a'); try done.
  - destruct (Z.compare_spec 0 b') as [<-|?|?]; [|done|lia]. destruct rest'; [|done]. tauto.
  - destruct (Z.compare_spec b 0) as [->|?|?]; [|lia|done]. destruct rest; [|done]. tauto.
Qed.

(** The mantissas of two numbers sort like their digits. *)
Lemma digit_pairs_order l1 l2 r1 r2 :
  Forall digit_ok l1 -> Forall digit_ok l2 -> no_trailing_zero l1 -> no_trailing_zero l2 ->
  l1 ≠ [] -> l2 ≠ [] -> l1 ≠ l2 ->
  bytes_compare (EncodeToDigitPairs l1 ++ r1) (EncodeToDigitPairs l2 ++ r2) = bytes_compare l1 l2.
Proof.
  remember (length l1) as n eqn:En. revert l1 l2 En. induction (lt_wf n) as [n _ IH].
  intros l1 l2 -> O1 O2 Z1 Z2 N1 N2 Hne.
  destruct (first_pair_exists l1 O1 Z1 N1) as (a1 & b1 & t1 & F1 & A1 & B1 & T1 & U1 & L1 & ->).
  destruct (first_pair_exists l2 O2 Z2 N2) as (a2 & b2 & t2 & F2 & A2 & B2 & T2 & U2 & L2 & ->).
  rewrite (first_pair_compare l1 l2 a1 b1 t1 a2 b2 t2) by done. cbn [app bytes_compare].
  unfold digit_ok in *. set (f1 := if decide (t1 = []) then 0 else 1).
  set (f2 := if decide (t2 = []) then 0 else 1).
  assert (0 <= f1 <= 1 /\ 0 <= f2 <= 1) as [? ?] by (unfold f1, f2; repeat case_decide; lia).
  destruct (Z.compare_spec a1 a2) as [->|Ha|Ha];
    [|rewrite (proj2 (Z.compare_lt_iff _ _)) by lia; done
     |rewrite (proj2 (Z.compare_gt_iff _ _)) by lia; done].
  destruct (Z.compare_spec b1 b2) as [->|Hb|Hb];
    [|rewrite (proj2 (Z.compare_lt_iff _ _)) by lia; done
     |rewrite (proj2 (Z.compare_gt_iff _ _)) by lia; done].
  rewrite Z.add_compare_mono_l. unfold f1, f2. repeat case_decide; subst; try done.
  - by destruct Hne; apply (first_pair_inj _ _ a2 b2 []).
  - by destruct t2.
  - by destruct t1.
  - apply (IH (length t1)); try done. intros ->. by apply Hne, (first_pair_inj _ _ a2 b2 t2).
Qed.

(** *** Strings that differ before either ends *)

Inductive decided : bytes -> bytes -> comparison -> Prop :=
| decided_here x y a b : x ≠ y -> decided (x :: a) (y :: b) (x ?= y)
| decided_later x a b c : decided a b c -> decided (x :: a) (x :: b) c.

Lemma decided_compare a b c r1 r2 : decided a b c -> bytes_compare (a ++ r1) (b ++ r2) = c.
Proof.
  induction 1 as [x y a b Hne|x a b c _ IH]; cbn [app bytes_compare].
  - destruct (Z.compare_spec x y); [done|..]; done.
  - by rewrite Z.compare_refl.
Qed.

(** What compares the same whatever follows is decided. *)
Lemma compare_decided a b c :
  c ≠ Eq -> (∀ r1 r2, bytes_compare (a ++ r1) (b ++ r2) = c) -> decided a b c.
Proof.
  intros Hc. revert b. induction a as [|x a IH]; intros b Hall.
  - destruct Hc. rewrite <- (Hall b []), app_nil_r, app_nil_l. by rewrite bytes_compare_refl.
  - destruct b as [|y b].
    { destruct Hc. rewrite <- (Hall [] (x :: a)), app_nil_r, app_nil_l. by rewrite bytes_compare_refl. }
    destruct (decide (x = y)) as [->|Hne].
    + constructor. apply IH. intros r1 r2. rewrite <- (Hall r1 r2). cbn [app bytes_compare].
      by rewrite Z.compare_refl.
    + rewrite <- (Hall [] []). cbn [app bytes_compare].
      destruct (Z.compare_spec x y) as [|Hlt|Hgt]; [done| |].
      * rewrite <- (proj2 (Z.compare_lt_iff x y) Hlt). by constructor.
      * rewrite <- (proj2 (Z.compare_gt_iff x y) Hgt). by constructor.
Qed.

Lemma flip_byte x : byte_ok x -> u8 (Z.lnot x) = 255 - x.
Proof. intros Hx. unfold u8. by rewrite wrap_lnot by done. Qed.

Lemma decided_flip a b c :
  bytes_ok a -> bytes_ok b -> decided a b c -> decided (FlipBits a) (FlipBits b) (CompOpp c).
Proof.
  intros Ha Hb Hd. induction Hd as [x y a b Hne|x a b c _ IH]; unfold FlipBits in *;
    rewrite !fmap_cons; inversion_clear Ha as [|?? Hx Ha']; inversion_clear Hb as [|?? Hy Hb'].
  - rewrite !flip_byte by done. rewrite <- Z.compare_antisym.
    replace (y ?= x) with (255 - x ?= 255 - y).
    + constructor. lia.
    + destruct (Z.compare_spec y x); [subst; apply Z.compare_refl|..];
        [apply Z.compare_lt_iff|apply Z.compare_gt_iff]; lia.
  - constructor. auto.
Qed.

Section comparable.
Context `{OpenSSLBN}.

(** *** The encoding of a positive number *)

Definition magnitude (d : Decimal) : bytes :=
  update_head (λ b, Z.lor b 0xc0) (VarInt_EncodeToComparable 2 (exponent_ d))
  ++ EncodeToDigitPairs (digits_ d).

(** The exponent leaves the two reserved bits free. *)
Lemma exponent_head e :
  ∃ q tl, VarInt_EncodeToComparable 2 e = q :: tl /\ 0 <= q < 64 /\ bytes_ok tl.
Proof.
  rewrite VarInt_encode_code by lia. destruct (vlen_spec 2 e ltac:(lia)) as [Hn _].
  pose proof (vcode_range 2 e ltac:(lia)) as Hr. pose proof (vcode_is_u 2 e ltac:(lia)) as Hu.
  destruct (Z.to_nat (vlen 2 e)) as [|m] eqn:Em; [lia|].
  replace (vlen 2 e) with (Z.of_nat (S m)) in * by lia.
  destruct (be_bytes_split m _ Hu) as (q & x & E & Hq & Hx). rewrite E, be_bytes_cons by done.
  exists q, (be_bytes m x). split; [done|]. split; [|apply be_bytes_ok].
  pose proof (pow2_pos (8 * Z.of_nat m) ltac:(lia)). unfold is_u in Hq.
  replace (8 * Z.of_nat (S m) - 2) with (6 + 8 * Z.of_nat m) in Hr by lia.
  rewrite Z.pow_add_r in Hr by lia. change (2 ^ 6) with 64 in Hr. nia.
Qed.

Lemma lor_c0 q : 0 <= q < 64 -> Z.lor q 0xc0 = 192 + q.
Proof.
  intros Hq. pose proof (byte_forall (λ q, (64 <=? q) || (Z.lor q 0xc0 =? 192 + q)) eq_refl q
    ltac:(lia)) as Hb. cbv beta in Hb. apply orb_true_iff in Hb as [Hb|Hb]; lia.
Qed.

Lemma magnitude_head d :
  ∃ q tl, magnitude d = 192 + q :: tl /\ 0 <= q < 64 /\
    VarInt_EncodeToComparable 2 (exponent_ d) ++ EncodeToDigitPairs (digits_ d) = q :: tl.
Proof.
  unfold magnitude. destruct (exponent_head (exponent_ d)) as (q & tl & -> & Hq & _).
  exists q, (tl ++ EncodeToDigitPairs (digits_ d)). cbn [update_head app]. by rewrite lor_c0.
Qed.

Lemma magnitude_ok d : Forall digit_ok (digits_ d) -> bytes_ok (magnitude d).
Proof.
  intros Hd. unfold magnitude. destruct (exponent_head (exponent_ d)) as (q & tl & -> & Hq & Ht).
  cbn [update_head]. rewrite lor_c0 by done. cbn [app]. constructor; [unfold is_u; lia|].
  apply Forall_app. auto using EncodeToDigitPairs_ok.
Qed.

Lemma Decimal_encode_magnitude d :
  Decimal_EncodeToComparable d =
  if decide (digits_ d = []) then [128]
  else if is_positive_ d then magnitude d else FlipBits (magnitude d).
Proof.
  unfold Decimal_EncodeToComparable, magnitude.
  destruct (exponent_head (exponent_ d)) as (q & tl & -> & _).
  by destruct (digits_ d) as [|a l].
Qed.

Definition decimal_parts (d : Decimal) : Prop :=
  Forall digit_ok (digits_ d) /\ no_trailing_zero (digits_ d) /\ digits_ d ≠ [].

Lemma decimal_valid_parts d : decimal_valid d -> digits_ d ≠ [] -> decimal_parts d.
Proof.
  intros (Hd & Hc & _) Hne. repeat split; try done. unfold is_canonical in Hc.
  destruct (digits_ d) as [|a l] eqn:E; [done|].
  apply andb_prop in Hc as [_ Hl]. unfold no_trailing_zero. by intros E0; rewrite E0 in Hl.
Qed.

Lemma decimal_valid_zero d : decimal_valid d -> digits_ d = [] -> d = clear.
Proof.
  intros (_ & Hc & _) E. destruct d as [ds e p]. simpl in *. subst ds. unfold is_canonical in Hc.
  simpl in Hc. apply andb_prop in Hc as [Hp He%Z.eqb_eq]. by destruct p; subst.
Qed.

(** The order of two magnitudes: exponents first, then digits. *)
Definition magnitude_compare (a b : Decimal) : comparison :=
  match exponent_ a ?= exponent_ b with
  | Eq => bytes_compare (digits_ a) (digits_ b)
  | c => c
  end.

Lemma magnitude_order a b r1 r2 :
  decimal_parts a -> decimal_parts b -> (exponent_ a, digits_ a) ≠ (exponent_ b, digits_ b) ->
  bytes_compare (magnitude a ++ r1) (magnitude b ++ r2) = magnitude_compare a b.
Proof.
  intros (Oa & Za & Na) (Ob & Zb & Nb) Hne. unfold magnitude_compare.
  destruct (magnitude_head a) as (qa & ta & Ea & Qa & Fa).
  destruct (magnitude_head b) as (qb & tb & Eb & Qb & Fb).
  assert (bytes_compare (magnitude a ++ r1) (magnitude b ++ r2) =
    bytes_compare ((VarInt_EncodeToComparable 2 (exponent_ a) ++ EncodeToDigitPairs (digits_ a)) ++ r1)
      ((VarInt_EncodeToComparable 2 (exponent_ b) ++ EncodeToDigitPairs (digits_ b)) ++ r2)) as ->.
  { rewrite Ea, Eb, Fa, Fb. cbn [app bytes_compare]. by rewrite Z.add_compare_mono_l. }
  rewrite <- !app_assoc. destruct (decide (exponent_ a = exponent_ b)) as [E|Hexp].
  - rewrite E, Z.compare_refl, bytes_compare_app_l. apply digit_pairs_order; try done. congruence.
  - rewrite varint_compare by (done || lia). by destruct (Z.compare_spec (exponent_ a) (exponent_ b)).
Qed.

Lemma magnitude_decided a b :
  decimal_parts a -> decimal_parts b -> (exponent_ a, digits_ a) ≠ (exponent_ b, digits_ b) ->
  decided (magnitude a) (magnitude b) (magnitude_compare a b).
Proof.
  intros Ha Hb Hne. apply compare_decided.
  - unfold magnitude_compare. destruct (Z.compare_spec (exponent_ a) (exponent_ b)) as [E| |]; try done.
    intros ?%bytes_compare_eq. congruence.
  - intros r1 r2. by apply magnitude_order.
Qed.

(** *** Signs *)

(** -1, 0 or 1. *)
Definition decimal_sign (d : Decimal) : Z :=
  if decide (digits_ d = []) then 0 else if is_positive_ d then 1 else -1.

Lemma encode_head d :
  Forall digit_ok (digits_ d) ->
  ∃ h tl, Decimal_EncodeToComparable d = h :: tl /\
    (decimal_sign d = -1 /\ h < 64 \/ decimal_sign d = 0 /\ h = 128 \/ decimal_sign d = 1 /\ 192 <= h).
Proof.
  intros Hd. rewrite Decimal_encode_magnitude. unfold decimal_sign.
  destruct (magnitude_head d) as (q & tl & E & Hq & _).
  case_decide; [exists 128, []; auto|]. destruct (is_positive_ d).
  - exists (192 + q), tl. split; [done|]. right. right. split; [done|lia].
  - exists (255 - (192 + q)), (FlipBits tl). rewrite E. unfold FlipBits. rewrite fmap_cons.
    rewrite flip_byte by (unfold is_u; lia). split; [done|]. left. split; [done|lia].
Qed.

(** [CompareTo] compares the signs, then the magnitudes. *)
Lemma CompareTo_signs a b :
  decimal_valid a -> decimal_valid b ->
  (Decimal_CompareTo a b ?= 0) =
  match decimal_sign a ?= decimal_sign b with
  | Eq => if decide (digits_ a = []) then Eq
          else if is_positive_ a then magnitude_compare a b else CompOpp (magnitude_compare a b)
  | c => c
  end.
Proof.
  intros Ha Hb. unfold Decimal_CompareTo, decimal_sign, magnitude_compare, VarInt_CompareTo.
  destruct (decide (digits_ a = [])) as [Ea|Ea].
  { rewrite (decimal_valid_zero a Ha Ea). simpl. destruct (decide (digits_ b = [])) as [Eb|Eb].
    - by rewrite (decimal_valid_zero b Hb Eb).
    - destruct (is_positive_ b); [|done]. simpl. by rewrite bool_decide_eq_false_2. }
  destruct (decide (digits_ b = [])) as [Eb|Eb].
  { rewrite (decimal_valid_zero b Hb Eb). simpl. destruct (is_positive_ a); [|done]. simpl.
    by rewrite bool_decide_eq_false_2. }
  rewrite !bool_decide_eq_false_2 by done. cbn [orb].
  destruct (is_positive_ a), (is_positive_ b); try done; cbn [eqb negb];
    destruct (Z.compare_spec (exponent_ a) (exponent_ b)); try done.
  - apply compare_digits_sign; apply Ha || apply Hb.
  - rewrite <- compare_digits_sign by (apply Ha || apply Hb). destruct (compare_digits _ _); done.
Qed.

Lemma decimal_sign_parts d : decimal_sign d ≠ 0 -> digits_ d ≠ [].
Proof. unfold decimal_sign. by case_decide. Qed.

(** Encodings are decided by [CompareTo]. *)
Lemma decimal_decided a b :
  decimal_valid a -> decimal_valid b -> a ≠ b ->
  decided (Decimal_EncodeToComparable a) (Decimal_EncodeToComparable b) (Decimal_CompareTo a b ?= 0).
Proof.
  intros Ha Hb Hne. rewrite CompareTo_signs by done.
  destruct (encode_head a (proj1 Ha)) as (ha & ta & Ea & Sa).
  destruct (encode_head b (proj1 Hb)) as (hb & tb & Eb & Sb).
  destruct (Z.compare_spec (decimal_sign a) (decimal_sign b)) as [E|Hlt|Hgt].
  - unfold decimal_sign in E. rewrite !Decimal_encode_magnitude.
    destruct (decide (digits_ a = [])) as [Na|Na], (decide (digits_ b = [])) as [Nb|Nb];
      [|by destruct (is_positive_ b)|by destruct (is_positive_ a)|].
    { destruct Hne. by rewrite (decimal_valid_zero a Ha Na), (decimal_valid_zero b Hb Nb). }
    assert (decided (magnitude a) (magnitude b) (magnitude_compare a b)) as Hd.
    { apply magnitude_decided; [by apply decimal_valid_parts..|].
      intros Epair. apply Hne. destruct a as [? ? pa], b as [? ? pb]. simpl in *.
      by destruct pa, pb; simplify_eq. }
    destruct (is_positive_ a), (is_positive_ b); try done.
    apply decided_flip; [apply magnitude_ok, Ha|apply magnitude_ok, Hb|done].
  - rewrite Ea, Eb. rewrite <- (proj2 (Z.compare_lt_iff ha hb)) by lia. constructor. lia.
  - rewrite Ea, Eb. rewrite <- (proj2 (Z.compare_gt_iff ha hb)) by lia. constructor. lia.
Qed.

(** *** Round trip *)

(** The reserved bits do not matter to the decoder of the exponent. *)
Lemma decode_reserved b s :
  byte_ok b -> bytes_ok s ->
  VarInt_DecodeFromComparable 2 (Z.lor b 0xc0 :: s) = VarInt_DecodeFromComparable 2 (b :: s).
Proof.
  intros Hb Hs. unfold VarInt_DecodeFromComparable, FlipBits. rewrite !fmap_cons. cbn [update_head negb].
  change (negb (2 =? 0)) with true. change (Z.shiftr 128 2) with 32.
  change (u8 (Z.lnot (Z.shiftl 1 (8 - 2) - 1))) with 192. cbv iota.
  pose proof (byte_forall (λ b, (Z.land (Z.lor b 192) 32 =? Z.land b 32)
    && (Z.lor (Z.lor b 192) 192 =? Z.lor b 192)
    && (Z.lor (u8 (Z.lnot (Z.lor b 192))) 192 =? Z.lor (u8 (Z.lnot b)) 192)) eq_refl b Hb) as E.
  cbv beta in E. apply andb_prop in E as [[->%Z.eqb_eq E1%Z.eqb_eq]%andb_prop E2%Z.eqb_eq].
  destruct (Z.land b 32 =? 0); cbn [update_head]; rewrite ?E1, ?E2; reflexivity.
Qed.

Lemma decode_magnitude d rest :
  decimal_parts d -> bytes_ok rest ->
  ('(exponent, num_exponent_bytes) ← VarInt_DecodeFromComparable 2 (magnitude d ++ rest);
   '(digits, num_mantissa_bytes) ← DecodeFromDigitPairs (drop num_exponent_bytes (magnitude d ++ rest));
   Ok (mkDecimal digits exponent (is_positive_ d), (num_exponent_bytes + num_mantissa_bytes)%nat)) =
  Ok (d, length (magnitude d)).
Proof.
  intros (Hd & Hz & Hne) Hr. unfold magnitude.
  pose proof (varint_roundtrip 2 (exponent_ d) (EncodeToDigitPairs (digits_ d) ++ rest) ltac:(lia)) as E.
  destruct (exponent_head (exponent_ d)) as (q & tl & Eq & Hq & Ht). rewrite Eq in *.
  cbn [update_head app] in *. rewrite decode_reserved.
  2: { unfold is_u. lia. }
  2: { rewrite <- app_assoc. repeat (apply Forall_app; split); auto using EncodeToDigitPairs_ok. }
  rewrite <- app_assoc. rewrite E. cbn [mbind result_bind length].
  rewrite skipn_cons, drop_app_length.
  destruct (decode_pairs_encode (digits_ d) rest Hd Hne) as [n En].
  unfold DecodeFromDigitPairs. rewrite En. cbn [mbind result_bind].
  rewrite strip_back_app by done. rewrite length_app. by destruct d.
Qed.

Lemma FlipBits_involutive s : bytes_ok s -> FlipBits (FlipBits s) = s.
Proof.
  intros Hs. unfold FlipBits. rewrite <- list_fmap_compose. rewrite <- (list_fmap_id s) at 2.
  apply list_fmap_ext. intros i x Hx. simpl.
  assert (byte_ok x) as Hb by (eapply Forall_lookup_1; eauto). unfold is_u in Hb.
  rewrite !flip_byte by (rewrite ?flip_byte; unfold is_u; lia). unfold id. lia.
Qed.

Lemma decimal_roundtrip d rest :
  decimal_valid d -> bytes_ok rest ->
  Decimal_DecodeFromComparable (Decimal_EncodeToComparable d ++ rest) =
  Ok (d, length (Decimal_EncodeToComparable d)).
Proof.
  intros Hd Hr. rewrite Decimal_encode_magnitude. case_decide as Hz.
  { by rewrite (decimal_valid_zero d Hd Hz). }
  pose proof (decimal_valid_parts d Hd Hz) as Hp. pose proof (magnitude_ok d (proj1 Hd)) as Hok.
  destruct (magnitude_head d) as (q & tl & E & Hq & _). unfold Decimal_DecodeFromComparable.
  destruct (is_positive_ d) eqn:Epos.
  - pose proof (decode_magnitude d rest Hp Hr) as R. rewrite Epos, E in *. cbn [app] in *.
    destruct (Z.eqb_spec (192 + q) 128); [lia|]. destruct (Z.leb_spec 128 (192 + q)); [|lia].
    exact R.
  - pose proof (decode_magnitude d (FlipBits rest) Hp (FlipBits_ok rest)) as R.
    rewrite Epos in R. replace (magnitude d ++ FlipBits rest)
      with (FlipBits (FlipBits (magnitude d) ++ rest)) in R
      by (rewrite FlipBits_app, FlipBits_involutive by done; done).
    rewrite <- (length_fmap (λ b, u8 (Z.lnot b)) (magnitude d)) in R.
    fold (FlipBits (magnitude d)) in R.
    assert (FlipBits (magnitude d) = 255 - (192 + q) :: FlipBits tl) as EF.
    { rewrite E. unfold FlipBits. rewrite fmap_cons, flip_byte by (unfold is_u; lia). done. }
    rewrite EF in *. cbn [app] in *.
    destruct (Z.eqb_spec (255 - (192 + q)) 128); [lia|].
    destruct (Z.leb_spec 128 (255 - (192 + q))); [lia|]. exact R.
Qed.

(** ** What [PrimitiveValue] relies on *)

(** The canonical negation. *)
Definition decimal_negation (d : Decimal) : Decimal :=
  if decide (digits_ d = []) then d else Decimal_Negate d.

Lemma decimal_negation_valid d : decimal_valid d -> decimal_valid (decimal_negation d).
Proof.
  intros [Hd Hc]. unfold decimal_negation. case_decide; [done|]. split; [done|].
  unfold is_canonical in *. simpl. by destruct (digits_ d).
Qed.

Lemma decimal_flip d :
  decimal_valid d ->
  AppendVarIntDescending (Decimal_EncodeToComparable d) [] =
  Decimal_EncodeToComparable (decimal_negation d).
Proof.
  intros Hd. unfold AppendVarIntDescending. destruct (encode_head d (proj1 Hd)) as (h & tl & E & Hs).
  pose proof (magnitude_ok d (proj1 Hd)) as Hok.
  rewrite E at 1. change (default 0 (head (h :: tl))) with h. cbv zeta.
  change (flip_bits ?x) with (FlipBits x). unfold decimal_sign in Hs.
  rewrite !Decimal_encode_magnitude in *. unfold decimal_negation.
  destruct (decide (digits_ d = [])) as [Hz|Hz].
  { injection E as <- <-. simpl. by rewrite decide_True. }
  cbn [Decimal_Negate digits_ is_positive_]. rewrite decide_False by done.
  change (magnitude (Decimal_Negate d)) with (magnitude d).
  destruct (is_positive_ d); (destruct (Z.eqb_spec h 128); [lia|]); cbn [negb app]; [done|].
  by rewrite FlipBits_involutive.
Qed.

Lemma magnitude_compare_opp a b : magnitude_compare b a = CompOpp (magnitude_compare a b).
Proof.
  unfold magnitude_compare. rewrite (Z.compare_antisym (exponent_ a)).
  destruct (exponent_ a ?= exponent_ b); [|done..]. apply bytes_compare_antisym.
Qed.

Lemma CompareTo_negation a b :
  decimal_valid a -> decimal_valid b ->
  (Decimal_CompareTo (decimal_negation a) (decimal_negation b) ?= 0) = (Decimal_CompareTo b a ?= 0).
Proof.
  intros Ha Hb. rewrite !CompareTo_signs by auto using decimal_negation_valid.
  unfold decimal_negation, decimal_sign.
  destruct (decide (digits_ a = [])) as [Ea|Ea], (decide (digits_ b = [])) as [Eb|Eb];
    rewrite ?(decide_True _ _ Ea), ?(decide_True _ _ Eb); cbn [Decimal_Negate digits_ is_positive_];
    rewrite ?decide_False by done; rewrite ?decide_True by done;
    destruct (is_positive_ a), (is_positive_ b); try done; cbn [negb];
    change (magnitude_compare (Decimal_Negate a) (Decimal_Negate b)) with (magnitude_compare a b);
    cbn; by rewrite (magnitude_compare_opp a b), ?CompOpp_involutive.
Qed.

#[export, refine] Instance Decimal_number : ComparableNumber Decimal := {
  num_valid := decimal_valid;
  num_encode := Decimal_EncodeToComparable;
  num_decode := Decimal_DecodeFromComparable;
  num_negate := Decimal_Negate;
  num_compare a b := Decimal_CompareTo a b ?= 0
}.
Proof.
  - intros d Hd. rewrite Decimal_encode_magnitude. pose proof (magnitude_ok d (proj1 Hd)).
    case_decide; [by apply Forall_singleton|]. destruct (is_positive_ d); [done|apply FlipBits_ok].
  - intros d rest Hd Hr. by apply decimal_roundtrip.
  - intros a b r1 r2 Ha Hb Hne. apply decided_compare, decimal_decided; congruence.
  - intros d Hd. exists (decimal_negation d). split; [by apply decimal_negation_valid|].
    split; [by apply decimal_flip|]. rewrite !Decimal_encode_magnitude. unfold decimal_negation.
    destruct (decide (digits_ d = [])) as [Hz|Hz].
    + simpl. by rewrite Hz.
    + simpl. rewrite negb_involutive. by rewrite decide_False.
  - intros a b r1 r2 Ha Hb Hne. rewrite !decimal_flip, <- CompareTo_negation by done.
    apply decided_compare, decimal_decided; [by apply decimal_negation_valid..|].
    unfold decimal_negation, Decimal_Negate. intros E. apply Hne. destruct a as [da ea pa], b as [db eb pb].
    repeat case_decide; simpl in *; simplify_eq; try done; by destruct pa, pb.
Defined.

End comparable.

(** ** Numeric value *)

(** The digits as a number. *)
Definition mantissa (l : list Z) : Z := foldl (λ acc x, acc * 10 + x) 0 l.

(** The value times [10 ^ k], for [k] large enough that it is an integer. *)
Definition scaled (k : Z) (d : Decimal) : Z :=
  (if is_positive_ d then 1 else -1)
  * (mantissa (digits_ d) * 10 ^ (k + exponent_ d - Z.of_nat (length (digits_ d)))).

Definition scale_ok (k : Z) (d : Decimal) : Prop :=
  0 <= k + exponent_ d - Z.of_nat (length (digits_ d)).

Lemma mantissa_acc l acc :
  foldl (λ acc x, acc * 10 + x) acc l = acc * 10 ^ Z.of_nat (length l) + mantissa l.
Proof.
  unfold mantissa. revert acc. induction l as [|x l IH]; intros acc; [simpl; lia|].
  cbn [foldl length]. rewrite (IH (acc * 10 + x)), (IH (0 * 10 + x)), Nat2Z.inj_succ, Z.pow_succ_r by lia.
  ring.
Qed.

Lemma mantissa_cons x l : mantissa (x :: l) = x * 10 ^ Z.of_nat (length l) + mantissa l.
Proof. unfold mantissa at 1. cbn [foldl]. rewrite mantissa_acc. ring. Qed.

Lemma mantissa_app l1 l2 :
  mantissa (l1 ++ l2) = mantissa l1 * 10 ^ Z.of_nat (length l2) + mantissa l2.
Proof. unfold mantissa at 1. by rewrite foldl_app, mantissa_acc. Qed.

Lemma pow10_pos n : 0 <= n -> 0 < 10 ^ n.
Proof. intros. apply Z.pow_pos_nonneg; lia. Qed.

Lemma mantissa_range l : Forall digit_ok l -> 0 <= mantissa l < 10 ^ Z.of_nat (length l).
Proof.
  induction 1 as [|x l Hx Hl IH]; [done|]. rewrite mantissa_cons. cbn [length].
  rewrite Nat2Z.inj_succ, Z.pow_succ_r by lia. unfold digit_ok in Hx. nia.
Qed.

Lemma mantissa_pos l : Forall digit_ok l -> no_trailing_zero l -> l ≠ [] -> 0 < mantissa l.
Proof.
  intros Hl Hz Hne. destruct l as [|x l _] using rev_ind; [done|].
  unfold no_trailing_zero in Hz. rewrite last_snoc in Hz.
  apply Forall_app in Hl as [Hl Hx]. rewrite Forall_singleton in Hx. unfold digit_ok in Hx.
  rewrite mantissa_app. pose proof (mantissa_range l Hl).
  change (mantissa [x]) with (0 * 10 + x). cbn [length].
  pose proof (pow10_pos (Z.of_nat 1) ltac:(lia)). assert (x ≠ 0) by congruence. nia.
Qed.

(** A number whose digits stand for [0.d1d2...] of [10^x]. *)
Definition fraction (x : Z) (l : list Z) : Z := mantissa l * 10 ^ (x - Z.of_nat (length l)).

Lemma fraction_cons x a l :
  Z.of_nat (length (a :: l)) <= x -> fraction x (a :: l) = a * 10 ^ (x - 1) + fraction (x - 1) l.
Proof.
  intros Hx. cbn [length] in Hx. rewrite Nat2Z.inj_succ in Hx. unfold fraction.
  rewrite mantissa_cons. cbn [length]. rewrite Nat2Z.inj_succ.
  replace (10 ^ (x - 1)) with (10 ^ Z.of_nat (length l) * 10 ^ (x - 1 - Z.of_nat (length l)))
    by (rewrite <- Z.pow_add_r by lia; f_equal; lia).
  replace (x - Z.succ (Z.of_nat (length l))) with (x - 1 - Z.of_nat (length l)) by lia. ring.
Qed.

Lemma fraction_range x l :
  Forall digit_ok l -> Z.of_nat (length l) <= x -> 0 <= fraction x l < 10 ^ x.
Proof.
  intros Hl Hx. pose proof (mantissa_range l Hl) as Hm. unfold fraction.
  pose proof (pow10_pos (x - Z.of_nat (length l)) ltac:(lia)).
  replace (10 ^ x) with (10 ^ Z.of_nat (length l) * 10 ^ (x - Z.of_nat (length l)))
    by (rewrite <- Z.pow_add_r by lia; f_equal; lia). nia.
Qed.

Lemma fraction_pos x l :
  Forall digit_ok l -> no_trailing_zero l -> l ≠ [] -> Z.of_nat (length l) <= x -> 0 < fraction x l.
Proof.
  intros Hl Hz Hne Hx. pose proof (mantissa_pos l Hl Hz Hne). unfold fraction.
  pose proof (pow10_pos (x - Z.of_nat (length l)) ltac:(lia)). nia.
Qed.

(** Fractions without trailing zeros compare like their digits. *)
Lemma fraction_compare x l1 l2 :
  Forall digit_ok l1 -> Forall digit_ok l2 -> no_trailing_zero l1 -> no_trailing_zero l2 ->
  Z.of_nat (length l1) <= x -> Z.of_nat (length l2) <= x ->
  (fraction x l1 ?= fraction x l2) = bytes_compare l1 l2.
Proof.
  intros O1. revert x l2. induction O1 as [|a l1 Ha O1 IH]; intros x [|b l2] O2 Z1 Z2 L1 L2.
  - apply Z.compare_refl.
  - apply Z.compare_lt_iff. change (fraction x []) with 0. by apply fraction_pos.
  - apply Z.compare_gt_iff. change (fraction x []) with 0. apply fraction_pos; [by constructor|done..].
  - inversion_clear O2 as [|?? Hb O2']. cbn [bytes_compare].
    rewrite !fraction_cons by done. cbn [length] in L1, L2. rewrite Nat2Z.inj_succ in L1, L2.
    pose proof (fraction_range (x - 1) l1 O1 ltac:(lia)).
    pose proof (fraction_range (x - 1) l2 O2' ltac:(lia)).
    pose proof (pow10_pos (x - 1) ltac:(lia)). unfold digit_ok in *.
    destruct (Z.compare_spec a b) as [->|Hlt|Hgt].
    + rewrite Z.add_compare_mono_l. apply IH; try lia; [done|..].
      * destruct l1; [done|]. by apply no_trailing_zero_tail in Z1.
      * destruct l2; [done|]. by apply no_trailing_zero_tail in Z2.
    + apply Z.compare_lt_iff. nia.
    + apply Z.compare_gt_iff. nia.
Qed.

Lemma scaled_fraction k d :
  scaled k d = (if is_positive_ d then 1 else -1) * fraction (k + exponent_ d) (digits_ d).
Proof. done. Qed.

(** A canonical number lies between the powers of ten its exponent names. *)
Lemma fraction_lower x l :
  Forall digit_ok l -> head l ≠ Some 0 -> l ≠ [] -> Z.of_nat (length l) <= x ->
  10 ^ (x - 1) <= fraction x l.
Proof.
  intros Hl Hh Hne Hx. destruct l as [|a l]; [done|]. rewrite fraction_cons by done.
  inversion_clear Hl as [|?? Ha Hl']. cbn [length] in Hx. rewrite Nat2Z.inj_succ in Hx.
  pose proof (fraction_range (x - 1) l Hl' ltac:(lia)). pose proof (pow10_pos (x - 1) ltac:(lia)).
  unfold digit_ok in Ha. assert (a ≠ 0) by (by intros ->). nia.
Qed.

Lemma decimal_valid_head d : decimal_valid d -> digits_ d ≠ [] -> head (digits_ d) ≠ Some 0.
Proof.
  intros (_ & Hc & _) Hne. unfold is_canonical in Hc. destruct (digits_ d); [done|].
  apply andb_prop in Hc as [Hc _]. simpl. intros [= ->]. done.
Qed.

Lemma magnitude_compare_value k a b :
  decimal_valid a -> decimal_valid b -> digits_ a ≠ [] -> digits_ b ≠ [] ->
  scale_ok k a -> scale_ok k b ->
  (fraction (k + exponent_ a) (digits_ a) ?= fraction (k + exponent_ b) (digits_ b)) =
  magnitude_compare a b.
Proof.
  intros Ha Hb Na Nb Ka Kb. unfold scale_ok, magnitude_compare in *.
  destruct (decimal_valid_parts a Ha Na) as (Oa & Za & _).
  destruct (decimal_valid_parts b Hb Nb) as (Ob & Zb & _).
  pose proof (fraction_range (k + exponent_ a) _ Oa ltac:(lia)).
  pose proof (fraction_range (k + exponent_ b) _ Ob ltac:(lia)).
  pose proof (fraction_lower (k + exponent_ a) _ Oa (decimal_valid_head a Ha Na) Na ltac:(lia)).
  pose proof (fraction_lower (k + exponent_ b) _ Ob (decimal_valid_head b Hb Nb) Nb ltac:(lia)).
  destruct (Z.compare_spec (exponent_ a) (exponent_ b)) as [E|Hlt|Hgt].
  - rewrite E in *. apply fraction_compare; done || lia.
  - apply Z.compare_lt_iff.
    pose proof (Z.pow_le_mono_r 10 (k + exponent_ a) (k + exponent_ b - 1)). lia.
  - apply Z.compare_gt_iff.
    pose proof (Z.pow_le_mono_r 10 (k + exponent_ b) (k + exponent_ a - 1)). lia.
Qed.

Lemma compare_numeric k a b :
  decimal_valid a -> decimal_valid b -> scale_ok k a -> scale_ok k b ->
  (Decimal_CompareTo a b ?= 0) = (scaled k a ?= scaled k b).
Proof.
  intros Ha Hb Ka Kb. rewrite CompareTo_signs by done. rewrite !scaled_fraction. unfold decimal_sign.
  destruct (decide (digits_ a = [])) as [Na|Na].
  { rewrite Na. change (fraction (k + exponent_ a) []) with 0. rewrite Z.mul_0_r.
    destruct (decide (digits_ b = [])) as [Nb|Nb]; [by rewrite Nb, Z.mul_0_r|].
    destruct (decimal_valid_parts b Hb Nb) as (Ob & Zb & _). unfold scale_ok in *.
    pose proof (fraction_pos (k + exponent_ b) _ Ob Zb Nb ltac:(lia)).
    destruct (is_positive_ b); symmetry; [apply Z.compare_lt_iff|apply Z.compare_gt_iff]; lia. }
  destruct (decimal_valid_parts a Ha Na) as (Oa & Za & _).
  pose proof (fraction_pos (k + exponent_ a) _ Oa Za Na ltac:(unfold scale_ok in *; lia)).
  destruct (decide (digits_ b = [])) as [Nb|Nb].
  { rewrite Nb. change (fraction (k + exponent_ b) []) with 0. rewrite Z.mul_0_r.
    destruct (is_positive_ a); symmetry; [apply Z.compare_gt_iff|apply Z.compare_lt_iff]; lia. }
  destruct (decimal_valid_parts b Hb Nb) as (Ob & Zb & _).
  pose proof (fraction_pos (k + exponent_ b) _ Ob Zb Nb ltac:(unfold scale_ok in *; lia)).
  pose proof (magnitude_compare_value k a b Ha Hb Na Nb Ka Kb) as E.
  destruct (is_positive_ a), (is_positive_ b); cbn.
  - rewrite !Z.mul_1_l. done.
  - symmetry. apply Z.compare_gt_iff. lia.
  - symmetry. apply Z.compare_lt_iff. lia.
  - rewrite <- E, <- Z.compare_antisym.
    match goal with |- (?x ?= ?y) = _ => replace (-1 * y) with (- y) by lia; replace (-1 * x) with (- x) by lia end.
    apply Z.compare_opp || (symmetry; apply Z.compare_opp).
Qed.

(** *** Canonicalisation *)

Lemma leading_zeros_split l :
  l = replicate (leading_zeros l) 0 ++ drop (leading_zeros l) l /\
  head (drop (leading_zeros l) l) ≠ Some 0.
Proof.
  induction l as [|x l [IH1 IH2]]; [done|].
  destruct x; cbn [leading_zeros replicate app]; try (by rewrite skipn_O).
  rewrite skipn_cons. split; [by f_equal|done].
Qed.

Lemma strip_back_split l :
  ∃ n, l = strip_back l ++ replicate n 0 /\ no_trailing_zero (strip_back l).
Proof.
  induction l as [|x l IH] using rev_ind; [by exists 0%nat|].
  destruct (decide (x = 0)) as [->|Hx].
  - destruct IH as (n & E & Hz). exists (S n). unfold strip_back in *. rewrite reverse_snoc.
    cbn [pop_zeros]. split; [|done]. rewrite E at 1. rewrite replicate_S_end. by rewrite <- app_assoc.
  - exists 0%nat. rewrite app_nil_r. unfold strip_back. rewrite reverse_snoc.
    assert (pop_zeros (x :: reverse l) = x :: reverse l) as -> by (by destruct x).
    rewrite reverse_cons, reverse_involutive. split; [done|].
    unfold no_trailing_zero. rewrite last_snoc. congruence.
Qed.

Lemma mantissa_zeros n l : mantissa (replicate n 0 ++ l) = mantissa l.
Proof. induction n as [|n IH]; [done|]. cbn [replicate app]. by rewrite mantissa_cons, IH. Qed.

Lemma mantissa_pad l n : mantissa (l ++ replicate n 0) = mantissa l * 10 ^ Z.of_nat n.
Proof.
  rewrite mantissa_app, length_replicate. pose proof (mantissa_zeros n []) as E.
  rewrite app_nil_r in E. rewrite E. change (mantissa []) with 0. lia.
Qed.

(** The digits left by [make_canonical]. *)
Lemma canonical_digits l :
  let nz := leading_zeros l in
  let m := strip_back (drop nz l ++ replicate nz 0) in
  ∃ n, l = replicate nz 0 ++ m ++ replicate n 0 /\ no_trailing_zero m /\ head m ≠ Some 0.
Proof.
  intros nz m. destruct (leading_zeros_split l) as [E1 H1]. fold nz in E1, H1.
  destruct (strip_back_split (drop nz l)) as (n & E2 & H2).
  assert (m = strip_back (drop nz l)) as Em.
  { unfold m. rewrite E2 at 1. rewrite <- app_assoc, <- replicate_add. by apply strip_back_app. }
  exists n. rewrite Em. split; [by rewrite <- E2|]. split; [done|].
  rewrite E2 in H1. destruct (strip_back (drop nz l)); [done|exact H1].
Qed.

Lemma make_canonical_correct k d :
  Forall digit_ok (digits_ d) -> Z.of_nat (length (digits_ d)) < 2 ^ 31 -> 0 <= k -> scale_ok k d ->
  decimal_valid (make_canonical d) /\ scale_ok k (make_canonical d) /\
  scaled k (make_canonical d) = scaled k d.
Proof.
  intros Hd Hlen Hk Ks. unfold make_canonical. destruct (is_canonical d) eqn:Ec; [by repeat split|].
  destruct (canonical_digits (digits_ d)) as (n & E & Hz & Hh). cbv zeta in *.
  set (nz := leading_zeros (digits_ d)) in *. set (m := strip_back _) in *.
  assert (Forall digit_ok m) as Hm.
  { rewrite E in Hd. apply Forall_app in Hd as [_ Hd]. by apply Forall_app in Hd as [Hd _]. }
  assert (Z.of_nat (length (digits_ d)) = Z.of_nat nz + Z.of_nat (length m) + Z.of_nat n) as El.
  { rewrite E at 1. rewrite !length_app, !length_replicate. lia. }
  assert (mantissa (digits_ d) = mantissa m * 10 ^ Z.of_nat n) as Emant.
  { rewrite E at 1. by rewrite mantissa_zeros, mantissa_pad. }
  unfold scaled, scale_ok in *. rewrite Emant.
  destruct m as [|a l] eqn:Em.
  - repeat split; try done; simpl; [lia|]. by destruct (is_positive_ d).
  - split.
    + split; [done|]. split; [|cbn [digits_]; lia].
      unfold is_canonical. cbn [digits_]. apply andb_true_intro. split.
      * destruct (Z.eqb_spec a 0); [by subst|done].
      * unfold no_trailing_zero in Hz. destruct (last (a :: l)) as [z|] eqn:El2; [|by apply last_None in El2].
        simpl. destruct (Z.eqb_spec z 0); [by subst|done].
    + cbn [digits_ exponent_ is_positive_]. split; [lia|]. f_equal. rewrite <- Z.mul_assoc. f_equal.
      rewrite <- Z.pow_add_r by lia. f_equal. lia.
Qed.

(** ** Addition *)

(** The loop over the digits from the last to the first; a carry is added to
    the digit before. *)
Fixpoint add_digits (a b : list Z) : list Z * Z :=
  match a, b with
  | x :: a', y :: b' =>
      let '(l, carry) := add_digits a' b' in
      let s := x + carry + y in
      if 9 <? s then (s - 10 :: l, 1) else (s :: l, 0)
  | _, _ => ([], 0)
  end.

(** Subtraction; a borrow is added to the digit of [other1] before. *)
Fixpoint sub_digits (a b : list Z) : list Z * Z :=
  match a, b with
  | x :: a', y :: b' =>
      let '(l, borrow) := sub_digits a' b' in
      let y := y + borrow in
      if y <=? x then (x - y :: l, 0) else (x + 10 - y :: l, 1)
  | _, _ => ([], 0)
  end.

(** Leading zeros up to [max_exponent]; [CHECK_RESULT] kills the process when
    the difference does not fit an [int64_t]. *)
Definition raise_exponent `{OpenSSLBN} (max_exponent : Z) (d : Decimal) : Outcome Decimal :=
  if exponent_ d <? max_exponent then
    match ToInt64 (max_exponent - exponent_ d) with
    | Ok increase =>
        Done (mkDecimal (replicate (Z.to_nat increase) 0 ++ digits_ d) max_exponent (is_positive_ d))
    | Error _ => Fatal
    end
  else Done d.

(** Trailing zeros up to [n] digits. The number of them is kept in an [int],
    which the loop compares as a [size_t]. *)
Definition pad_digits (n : nat) (l : list Z) : list Z :=
  if (length l <? n)%nat then
    let increase := signed 32 (Z.of_nat n - Z.of_nat (length l)) in
    l ++ replicate (Z.to_nat (wrap 64 increase)) 0
  else l.

(** Adding the mantissas of two numbers of the same exponent and length. *)
Definition add_mantissas (decimal other1 : Decimal) : Outcome Decimal :=
  if eqb (is_positive_ decimal) (is_positive_ other1) then
    let '(l, carry) := add_digits (digits_ decimal) (digits_ other1) in
    Done (if carry =? 0 then mkDecimal l (exponent_ decimal) (is_positive_ decimal)
          else mkDecimal (1 :: l) (exponent_ decimal + 1) (is_positive_ decimal))
  else
    let comp := first_difference (digits_ decimal) (digits_ other1) in
    let '(a, b, is_positive) :=
      if comp <? 0 then (digits_ other1, digits_ decimal, negb (is_positive_ decimal))
      else (digits_ decimal, digits_ other1, is_positive_ decimal) in
    let '(l, borrow) := sub_digits a b in
    if borrow =? 0 then Done (mkDecimal l (exponent_ decimal) is_positive) else Undefined.

(** [operator+] *)
Definition Decimal_plus `{OpenSSLBN} (a b : Decimal) : Outcome Decimal :=
  let decimal := new_Decimal (digits_ a) (exponent_ a) (is_positive_ a) in
  let other1 := new_Decimal (digits_ b) (exponent_ b) (is_positive_ b) in
  let max_exponent := Z.max (exponent_ other1) (exponent_ decimal) in
  decimal ← raise_exponent max_exponent decimal;
  other1 ← raise_exponent max_exponent other1;
  let max_digits := Nat.max (length (digits_ decimal)) (length (digits_ other1)) in
  let decimal := mkDecimal (pad_digits max_digits (digits_ decimal)) (exponent_ decimal)
                   (is_positive_ decimal) in
  let other1 := mkDecimal (pad_digits max_digits (digits_ other1)) (exponent_ other1)
                  (is_positive_ other1) in
  d ← add_mantissas decimal other1;
  Done (make_canonical d).

(** *** Correctness *)

Lemma add_digits_spec a b l carry :
  Forall digit_ok a -> Forall digit_ok b -> length a = length b -> add_digits a b = (l, carry) ->
  Forall digit_ok l /\ length l = length a /\ (carry = 0 \/ carry = 1) /\
  carry * 10 ^ Z.of_nat (length a) + mantissa l = mantissa a + mantissa b.
Proof.
  intros Ha. revert b l carry. induction Ha as [|x a Hx Ha IH]; intros [|y b] l carry Hb Hlen E; try done.
  { simpl in E. simplify_eq. auto. }
  inversion_clear Hb as [|?? Hy Hb']. injection Hlen as Hlen. cbn [add_digits] in E.
  destruct (add_digits a b) as [l' c'] eqn:E'. destruct (IH b l' c' Hb' Hlen E') as (Hl & Hll & Hc & Hm).
  cbn [length]. rewrite Nat2Z.inj_succ, Z.pow_succ_r, !mantissa_cons, <- Hlen by lia.
  unfold digit_ok in *.
  destruct (Z.ltb_spec 9 (x + c' + y)); simplify_eq; rewrite mantissa_cons, Hll; cbn [length];
    (split; [constructor; [lia|done]|]); (split; [lia|]); (split; [lia|]); nia.
Qed.

Lemma sub_digits_spec a b l borrow :
  Forall digit_ok a -> Forall digit_ok b -> length a = length b -> sub_digits a b = (l, borrow) ->
  Forall digit_ok l /\ length l = length a /\ (borrow = 0 \/ borrow = 1) /\
  mantissa l - borrow * 10 ^ Z.of_nat (length a) = mantissa a - mantissa b.
Proof.
  intros Ha. revert b l borrow. induction Ha as [|x a Hx Ha IH]; intros [|y b] l borrow Hb Hlen E; try done.
  { simpl in E. simplify_eq. auto. }
  inversion_clear Hb as [|?? Hy Hb']. injection Hlen as Hlen. cbn [sub_digits] in E.
  destruct (sub_digits a b) as [l' c'] eqn:E'. destruct (IH b l' c' Hb' Hlen E') as (Hl & Hll & Hc & Hm).
  cbn [length]. rewrite Nat2Z.inj_succ, Z.pow_succ_r, !mantissa_cons, <- Hlen by lia.
  unfold digit_ok in *.
  destruct (Z.leb_spec (y + c') x); simplify_eq; rewrite mantissa_cons, Hll; cbn [length];
    (split; [constructor; [lia|done]|]); (split; [lia|]); (split; [lia|]); nia.
Qed.

Lemma first_difference_mantissa a b :
  Forall digit_ok a -> Forall digit_ok b -> length a = length b ->
  (first_difference a b ?= 0) = (mantissa a ?= mantissa b).
Proof.
  intros Ha. revert b. induction Ha as [|x a Hx Ha IH]; intros [|y b] Hb Hlen; try done.
  inversion_clear Hb as [|?? Hy Hb']. injection Hlen as Hlen. cbn [first_difference].
  rewrite !mantissa_cons, <- Hlen. pose proof (mantissa_range a Ha). pose proof (mantissa_range b Hb').
  rewrite <- Hlen in *. pose proof (pow10_pos (Z.of_nat (length a)) ltac:(lia)).
  destruct (Z.eqb_spec (x - y) 0) as [E|E]; cbn [negb].
  - assert (x = y) as -> by lia. rewrite Z.add_compare_mono_l. by apply IH.
  - destruct (Z.compare_spec (x - y) 0); [lia|..]; symmetry;
      [apply Z.compare_lt_iff|apply Z.compare_gt_iff]; nia.
Qed.

(** The value of digits under a sign, the exponent cancelling the length. *)
Lemma add_mantissas_correct a b :
  Forall digit_ok (digits_ a) -> Forall digit_ok (digits_ b) ->
  length (digits_ a) = length (digits_ b) -> exponent_ a = exponent_ b ->
  ∃ d, add_mantissas a b = Done d /\ Forall digit_ok (digits_ d) /\
    (length (digits_ d) <= S (length (digits_ a)))%nat /\
    exponent_ d - Z.of_nat (length (digits_ d)) = exponent_ a - Z.of_nat (length (digits_ a)) /\
    (if is_positive_ d then 1 else -1) * mantissa (digits_ d) =
    (if is_positive_ a then 1 else -1) * mantissa (digits_ a)
    + (if is_positive_ b then 1 else -1) * mantissa (digits_ b).
Proof.
  intros Ha Hb Hlen Hexp. unfold add_mantissas. destruct (eqb _ _) eqn:Es.
  - apply eqb_prop in Es. destruct (add_digits _ _) as [l carry] eqn:E.
    destruct (add_digits_spec _ _ _ _ Ha Hb Hlen E) as (Hl & Hll & Hc & Hm).
    eexists. split; [reflexivity|]. rewrite <- Es.
    destruct (Z.eqb_spec carry 0) as [->|Hc0]; cbn [digits_ exponent_ is_positive_ length].
    + split; [done|]. split; [lia|]. split; [lia|]. destruct (is_positive_ a); lia.
    + assert (carry = 1) as -> by lia. split; [constructor; [unfold digit_ok; lia|done]|].
      split; [lia|]. split; [lia|]. rewrite mantissa_cons, Hll. destruct (is_positive_ a); lia.
  - apply eqb_false_iff in Es. pose proof (first_difference_mantissa _ _ Ha Hb Hlen) as Hf.
    destruct (Z.ltb_spec (first_difference (digits_ a) (digits_ b)) 0) as [Hlt|Hge].
    + rewrite (proj2 (Z.compare_lt_iff _ _) Hlt) in Hf.
      symmetry in Hf. rewrite Z.compare_lt_iff in Hf.
      destruct (sub_digits (digits_ b) (digits_ a)) as [l borrow] eqn:E.
      destruct (sub_digits_spec _ _ _ _ Hb Ha (eq_sym Hlen) E) as (Hl & Hll & Hc & Hm).
      pose proof (mantissa_range l Hl) as Hr. rewrite Hll in Hr.
      assert (borrow = 0) as -> by (destruct Hc; [done|subst; lia]).
      eexists. split; [reflexivity|]. cbn [digits_ exponent_ is_positive_].
      split; [done|]. split; [lia|]. split; [lia|]. destruct (is_positive_ a), (is_positive_ b); cbn [negb]; try done; lia.
    + assert (mantissa (digits_ b) <= mantissa (digits_ a)).
      { apply Z.compare_ge_iff. rewrite <- Hf. by apply Z.compare_ge_iff. }
      destruct (sub_digits (digits_ a) (digits_ b)) as [l borrow] eqn:E.
      destruct (sub_digits_spec _ _ _ _ Ha Hb Hlen E) as (Hl & Hll & Hc & Hm).
      pose proof (mantissa_range l Hl) as Hr. rewrite Hll in Hr.
      assert (borrow = 0) as -> by (destruct Hc; [done|subst; lia]).
      eexists. split; [reflexivity|]. cbn [digits_ exponent_ is_positive_].
      split; [done|]. split; [lia|]. split; [lia|]. destruct (is_positive_ a), (is_positive_ b); try done; lia.
Qed.

Lemma new_Decimal_valid d :
  decimal_valid d -> new_Decimal (digits_ d) (exponent_ d) (is_positive_ d) = d.
Proof. intros (_ & Hc & _). unfold new_Decimal, make_canonical. destruct d. simpl in *. by rewrite Hc. Qed.

Lemma raise_exponent_correct `{OpenSSLBN} m d :
  Forall digit_ok (digits_ d) -> exponent_ d <= m -> m - exponent_ d < 2 ^ 63 ->
  ∃ d', raise_exponent m d = Done d' /\ Forall digit_ok (digits_ d') /\ exponent_ d' = m /\
    is_positive_ d' = is_positive_ d /\ mantissa (digits_ d') = mantissa (digits_ d) /\
    Z.of_nat (length (digits_ d')) = Z.of_nat (length (digits_ d)) + (m - exponent_ d).
Proof.
  intros Hd Hm Hfit. unfold raise_exponent. destruct (Z.ltb_spec (exponent_ d) m).
  - rewrite ToInt64_spec, decide_True by (unfold is_s; lia). eexists. split; [reflexivity|].
    cbn [digits_ exponent_ is_positive_]. rewrite mantissa_zeros, length_app, length_replicate.
    repeat split; try done; [|lia]. apply Forall_app. split; [|done].
    apply Forall_replicate. unfold digit_ok. lia.
  - eexists. split; [reflexivity|]. repeat split; try done; lia.
Qed.

Lemma pad_digits_correct n l :
  Forall digit_ok l -> (length l <= n)%nat -> Z.of_nat n < 2 ^ 31 ->
  Forall digit_ok (pad_digits n l) /\ length (pad_digits n l) = n /\
  mantissa (pad_digits n l) = mantissa l * 10 ^ (Z.of_nat n - Z.of_nat (length l)).
Proof.
  intros Hl Hn Hfit. unfold pad_digits. destruct (Nat.ltb_spec (length l) n).
  - cbv zeta. rewrite signed_small, wrap_small by (unfold is_s, is_u; lia).
    rewrite mantissa_pad, length_app, length_replicate. repeat split.
    + apply Forall_app. split; [done|]. apply Forall_replicate. unfold digit_ok. lia.
    + lia.
    + do 2 f_equal. lia.
  - replace (Z.of_nat n - Z.of_nat (length l)) with 0 by lia. repeat split; [done|lia|lia].
Qed.

Lemma Decimal_plus_aux `{OpenSSLBN} k a b :
  decimal_valid a -> decimal_valid b ->
  Z.abs (exponent_ a - exponent_ b) + Z.of_nat (length (digits_ a)) + Z.of_nat (length (digits_ b))
    < 2 ^ 31 - 1 ->
  0 <= k -> scale_ok k a -> scale_ok k b ->
  ∃ d, Decimal_plus a b = Done d /\ decimal_valid d /\ scaled k d = scaled k a + scaled k b.
Proof.
  intros Ha Hb Hfit Hk Ka Kb. unfold Decimal_plus. rewrite !new_Decimal_valid by done.
  set (m := Z.max (exponent_ b) (exponent_ a)).
  destruct (raise_exponent_correct m a (proj1 Ha) ltac:(lia) ltac:(lia)) as (a' & -> & Oa & Ea & Pa & Ma & La).
  destruct (raise_exponent_correct m b (proj1 Hb) ltac:(lia) ltac:(lia)) as (b' & -> & Ob & Eb & Pb & Mb & Lb).
  cbn [mbind outcome_bind]. cbv zeta.
  set (n := Nat.max (length (digits_ a')) (length (digits_ b'))).
  destruct (pad_digits_correct n (digits_ a') Oa ltac:(lia) ltac:(lia)) as (Oa2 & La2 & Ma2).
  destruct (pad_digits_correct n (digits_ b') Ob ltac:(lia) ltac:(lia)) as (Ob2 & Lb2 & Mb2).
  edestruct (add_mantissas_correct (mkDecimal (pad_digits n (digits_ a')) (exponent_ a') (is_positive_ a'))
    (mkDecimal (pad_digits n (digits_ b')) (exponent_ b') (is_positive_ b')))
    as (d & -> & Od & Ld & Ed & Md); cbn [digits_ exponent_ is_positive_] in *; [done..|congruence|congruence|].
  cbn [mbind outcome_bind]. unfold scale_ok in *.
  destruct (make_canonical_correct k d Od) as (Vd & _ & Sd); [lia|done|unfold scale_ok; lia|].
  eexists. split; [reflexivity|]. split; [done|]. rewrite Sd. unfold scaled.
  rewrite Z.mul_assoc, Md, Pa, Pb, Ma2, Mb2, Ma, Mb, La, Lb.
  replace (k + exponent_ d - Z.of_nat (length (digits_ d))) with (k + m - Z.of_nat n) by lia.
  replace (10 ^ (k + exponent_ a - Z.of_nat (length (digits_ a))))
    with (10 ^ (Z.of_nat n - (Z.of_nat (length (digits_ a)) + (m - exponent_ a))) * 10 ^ (k + m - Z.of_nat n))
    by (rewrite <- Z.pow_add_r by lia; f_equal; lia).
  replace (10 ^ (k + exponent_ b - Z.of_nat (length (digits_ b))))
    with (10 ^ (Z.of_nat n - (Z.of_nat (length (digits_ b)) + (m - exponent_ b))) * 10 ^ (k + m - Z.of_nat n))
    by (rewrite <- Z.pow_add_r by lia; f_equal; lia).
  ring.
Qed.

(** ** Properties *)

(** C35: the comparable encoding of a canonical decimal decodes to it, in
    front of any bytes, and two different canonical decimals sort bytewise
    like their numeric values (scaled to integers by a power of ten),
    whatever follows the encodings. *)
Theorem decimal_comparable_correct `{OpenSSLBN} k a b r1 r2 :
  decimal_valid a -> decimal_valid b -> a ≠ b -> scale_ok k a -> scale_ok k b -> bytes_ok r1 ->
  Decimal_DecodeFromComparable (Decimal_EncodeToComparable a ++ r1) =
    Ok (a, length (Decimal_EncodeToComparable a)) /\
  bytes_compare (Decimal_EncodeToComparable a ++ r1) (Decimal_EncodeToComparable b ++ r2) =
    (scaled k a ?= scaled k b).
Proof.
  intros Ha Hb Hne Ka Kb Hr. split; [by apply decimal_roundtrip|].
  rewrite <- compare_numeric by done. by apply decided_compare, decimal_decided.
Qed.

(** -0.0004372 and 23.4, from the comment in [decimal.h]. *)
Definition decimal_small : Decimal := mkDecimal [4; 3; 7; 2] (-3) false.
Definition decimal_large : Decimal := mkDecimal [2; 3; 4] 2 true.

Lemma decimal_comparable_correct_witness :
  Decimal_DecodeFromComparable (Decimal_EncodeToComparable decimal_small ++ [7]) =
    Ok (decimal_small, length (Decimal_EncodeToComparable decimal_small)) /\
  bytes_compare (Decimal_EncodeToComparable decimal_small ++ [7])
    (Decimal_EncodeToComparable decimal_large ++ []) = (-4372 ?= 234000000).
Proof.
  apply (decimal_comparable_correct 7 decimal_small decimal_large [7] []);
    [split; [repeat constructor; unfold digit_ok; lia|split; reflexivity]
    |split; [repeat constructor; unfold digit_ok; lia|split; reflexivity]
    |discriminate|vm_compute; discriminate|vm_compute; discriminate|].
  repeat constructor; vm_compute; intuition discriminate.
Defined.

(** [operator+] adds: as long as the aligned digits can be counted in an
    [int], the sum is canonical and its value is the sum of the values; no
    digit underflows and no CHECK fails. *)
Theorem decimal_plus_correct `{OpenSSLBN} k a b :
  decimal_valid a -> decimal_valid b ->
  Z.abs (exponent_ a - exponent_ b) + Z.of_nat (length (digits_ a)) + Z.of_nat (length (digits_ b))
    < 2 ^ 31 - 1 ->
  0 <= k -> scale_ok k a -> scale_ok k b ->
  ∃ d, Decimal_plus a b = Done d /\ decimal_valid d /\ scaled k d = scaled k a + scaled k b.
Proof. apply Decimal_plus_aux. Qed.

Lemma decimal_plus_correct_witness :
  ∃ d, Decimal_plus decimal_small decimal_large = Done d /\ decimal_valid d /\
    scaled 7 d = -4372 + 234000000.
Proof.
  apply (decimal_plus_correct 7 decimal_small decimal_large);
    [split; [repeat constructor; unfold digit_ok; lia|split; reflexivity]
    |split; [repeat constructor; unfold digit_ok; lia|split; reflexivity]
    |vm_compute; reflexivity|lia|vm_compute; discriminate|vm_compute; discriminate].
Defined.

(** A decoder accepts digits that are not canonical. *)
Lemma decode_not_canonical :
  ∃ d n, Decimal_DecodeFromComparable (Decimal_EncodeToComparable (mkDecimal [0; 1] 0 true)) = Ok (d, n) /\
    is_canonical d = false.
Proof. do 2 eexists. split; vm_compute; reflexivity. Qed.
