(* ===== verification/PrimitiveValueKeys.v ===== *)
(** * Primitive values in keys: round trip and order

    The key encoding of a primitive value is self-delimiting, decodes to the
    value, and sorts bytewise like [CompareTo]; it implements [KeyCodec]. *)

From S2P Require Import Prelude KeyCodec FastVarInt DocKvUtil HybridTime DocHybridTime.
From S2P Require Import ValueType Intents KeyBytes Uuid PrimitiveValue VarInt.
Local Open Scope Z_scope.

(** ** Every append operation appends *)

Lemma AppendEncodedStrToKey_app e s dest :
  AppendEncodedStrToKey e s dest = dest ++ AppendEncodedStrToKey e s [].
Proof.
  unfold AppendEncodedStrToKey. destruct (_ && _); [done|].
  by rewrite (foldl_escape e s dest), (foldl_escape e s []).
Qed.

Lemma AppendString_app s kb : AppendString s kb = kb ++ AppendString s [].
Proof.
  unfold AppendString, ZeroEncodeAndAppendStrToKey, TerminateZeroEncodedKeyStr,
    TerminateEncodedKeyStr, AppendZeroEncodedStrToKey.
  rewrite (AppendEncodedStrToKey_app _ s kb). by rewrite <- !app_assoc.
Qed.

Lemma AppendDescendingString_app s kb :
  AppendDescendingString s kb = kb ++ AppendDescendingString s [].
Proof.
  unfold AppendDescendingString, ComplementZeroEncodeAndAppendStrToKey,
    TerminateComplementZeroEncodedKeyStr, TerminateEncodedKeyStr,
    AppendComplementZeroEncodedStrToKey.
  rewrite (AppendEncodedStrToKey_app _ s kb). by rewrite <- !app_assoc.
Qed.

Lemma AppendVarIntDescending_app s kb :
  AppendVarIntDescending s kb = kb ++ AppendVarIntDescending s [].
Proof. unfold AppendVarIntDescending. by destruct (_ =? _). Qed.

Lemma AppendDecimalDescending_VarInt s kb :
  AppendDecimalDescending s kb = AppendVarIntDescending s kb.
Proof. done. Qed.

Section keys.
Context `{BoostUuid} {D V : Type} `{CD : ComparableNumber D} `{CV : ComparableNumber V}.
Context (release : bool).

Lemma append_scalar_app t v kb :
  append_scalar release t v kb = (e ← append_scalar release t v []; Done (kb ++ e)).
Proof.
  destruct t, v; simpl; try reflexivity; rewrite ?app_nil_r; try reflexivity;
    try (by rewrite AppendString_app); try (by rewrite AppendDescendingString_app);
    try (by rewrite AppendVarIntDescending_app);
    try (by rewrite !AppendDecimalDescending_VarInt, AppendVarIntDescending_app).
  by destruct (ObsoleteIntentTypeToSet _ _).
Qed.

(** An induction principle that sees the elements of frozen values. *)
Lemma PrimitiveValue_nested_ind (Q : PrimitiveValue -> Prop) :
  (∀ t v, Q (mkPV t v)) -> (∀ d l, Forall Q l -> Q (mkFrozen d l)) -> ∀ pv, Q pv.
Proof.
  intros Hs Hf. fix IH 1. intros [t v|d l]; [apply Hs|]. apply Hf.
  induction l as [|pv l IHl]; constructor; [apply IH|apply IHl].
Qed.

(** The encoding as a function. *)
Definition scalar_encoding (t : ValueType) (v : Payload) : bytes :=
  match append_scalar release t v [] with Done e => e | _ => [] end.

Fixpoint key_encoding (pv : PrimitiveValue) : bytes :=
  match pv with
  | mkPV t v => ValueTypeAsChar t :: scalar_encoding t v
  | mkFrozen d l =>
      ValueTypeAsChar (frozen_type d) ::
      group_encode (ValueTypeAsChar (frozen_end_marker d)) key_encoding l
  end.

(** Values that can be stored in a key and read back. *)
Definition scalar_ok (t : ValueType) (v : Payload) : Prop :=
  match t, v with
  | (kNullDescending | kNull | kCounter | kSSForward | kSSReverse | kFalse | kTrue
    | kFalseDescending | kTrueDescending | kHighest | kLowest), no_val => True
  | (kString | kStringDescending), str_val_ s => bytes_ok s
  | (kInt64 | kInt64Descending | kArrayIndex), int64_val_ v => is_s 64 v
  | (kInt32 | kInt32Descending | kWriteId), int32_val_ v => is_s 32 v
  | (kUInt32 | kUInt32Descending), uint32_val_ v => is_u 32 v
  | (kDouble | kDoubleDescending), double_val_ d => is_u 64 d
  | (kFloat | kFloatDescending), float_val_ f => is_u 32 f
  | (kDecimal | kDecimalDescending), decimal_val_ s => ∃ d : D, num_valid d /\ s = num_encode d
  | (kVarInt | kVarIntDescending), varint_val_ s => ∃ n : V, num_valid n /\ s = num_encode n
  | (kTimestamp | kTimestampDescending), timestamp_val_ v => is_s 64 v
  | (kInetaddress | kInetaddressDescending), inetaddress_val_ s =>
      bytes_ok s /\ (length s = 4%nat ∨ length s = 16%nat)
  | (kTransactionId | kTableId | kUuid | kUuidDescending), uuid_val_ u => uuid_ok u
  | kHybridTime, hybrid_time_val_ t => dht_ok t
  | kUInt16Hash, uint16_val_ v => is_u 16 v
  | (kColumnId | kSystemColumnId), column_id_val_ v => 0 <= v < 2 ^ 31
  | kIntentTypeSet, uint16_val_ v => 0 <= v < 16
  | _, _ => False
  end.

Inductive pv_ok : PrimitiveValue -> Prop :=
| pv_ok_scalar t v : scalar_ok t v -> pv_ok (mkPV t v)
| pv_ok_frozen d l : Forall pv_ok l -> pv_ok (mkFrozen d l).

Lemma take_fixed_app n a rest :
  length a = n -> take_fixed n (a ++ rest) = Ok (a, rest).
Proof.
  intros <-. unfold take_fixed. rewrite length_app.
  destruct (Nat.ltb_spec (length a + length rest) (length a)); [lia|].
  by rewrite take_app_length, drop_app_length.
Qed.

Lemma Load32_be v : is_u 32 v -> Load32 (be_bytes 4 v) = v.
Proof. intros Hv. unfold Load32. rewrite <- (app_nil_r (be_bytes 4 v)). by apply be_value_take. Qed.

Lemma Load16_be v : is_u 16 v -> Load16 (be_bytes 2 v) = v.
Proof. intros Hv. unfold Load16. rewrite <- (app_nil_r (be_bytes 2 v)). by apply be_value_take. Qed.

Lemma decode_int64_fixed v rest :
  is_s 64 v ->
  ∃ b, take_fixed 8 (AppendInt64ToKey v [] ++ rest) = Ok (b, rest) /\ DecodeInt64FromKey b = v.
Proof.
  intros Hv. exists (AppendInt64ToKey v []). split.
  - apply take_fixed_app. rewrite AppendInt64ToKey_be by done.
    by rewrite app_nil_l, be_bytes_length.
  - rewrite <- (app_nil_r (AppendInt64ToKey v [])). by apply DecodeInt64FromKey_roundtrip.
Qed.

Lemma decode_int32_fixed v rest :
  is_s 32 v ->
  ∃ b, take_fixed 4 (AppendInt32ToKey v [] ++ rest) = Ok (b, rest) /\
       s32 (Z.lxor (Load32 b) kInt32SignBitFlipMask) = v.
Proof.
  intros Hv. exists (AppendInt32ToKey v []). rewrite AppendInt32ToKey_be by done.
  rewrite app_nil_l. split; [apply take_fixed_app, be_bytes_length|].
  unfold is_s in Hv. rewrite Load32_be by (unfold is_u; lia). unfold s32, kInt32SignBitFlipMask.
  change 0x80000000 with (2 ^ (32 - 1)). change (v + 2 ^ 31) with (v + 2 ^ (32 - 1)).
  by apply unbias.
Qed.

Lemma descending_uint32 x : is_u 32 x -> u32 (Z.lnot (s32 x)) = 2 ^ 32 - 1 - x.
Proof.
  intros Hx. unfold s32, signed. rewrite wrap_small by done. unfold is_u in Hx.
  unfold u32, wrap, Z.lnot. change (32 - 1) with 31.
  destruct (Z.ltb_spec x (2 ^ 31)); symmetry.
  - apply (Z.mod_unique _ _ (-1)); lia.
  - apply (Z.mod_unique _ _ 0); lia.
Qed.

Lemma num_flip_decode {N} `{ComparableNumber N} (n : N) rest :
  num_valid n -> bytes_ok rest ->
  ∃ m k, num_decode (AppendVarIntDescending (num_encode n) [] ++ rest) = Ok (m, k) /\
    num_encode (num_negate m) = num_encode n /\
    drop k (AppendVarIntDescending (num_encode n) [] ++ rest) = rest.
Proof.
  intros Hn Hr. destruct (num_flip n Hn) as (m & Hm & -> & E). exists m, (length (num_encode m)).
  split; [by apply num_roundtrip|]. by rewrite drop_app_length.
Qed.

Lemma decode_str rest s :
  bytes_ok s -> bytes_ok rest ->
  DecodeZeroEncodedStr (AppendString s [] ++ rest) [] = Ok (s, rest).
Proof. intros Hs Hr. exact (kc_roundtrip (KeyCodec := zero_str_codec) s rest Hs Hr). Qed.

Lemma decode_complement_str rest s :
  bytes_ok s -> bytes_ok rest ->
  DecodeComplementZeroEncodedStr (AppendDescendingString s [] ++ rest) [] = Ok (s, rest).
Proof. intros Hs Hr. exact (kc_roundtrip (KeyCodec := complement_str_codec) s rest Hs Hr). Qed.

Lemma InetAddress_FromBytes_ok s :
  length s = 4%nat ∨ length s = 16%nat -> InetAddress_FromBytes s = Ok s.
Proof. unfold InetAddress_FromBytes. by intros [->| ->]. Qed.

Lemma decode_double_fixed v desc rest :
  is_u 64 v ->
  ∃ b, take_fixed 8 (AppendDoubleToKey v desc [] ++ rest) = Ok (b, rest) /\
       DecodeDoubleFromKey b desc = v.
Proof.
  intros Hv. exists (AppendDoubleToKey v desc []). split.
  - apply take_fixed_app. rewrite AppendDoubleToKey_be by done.
    by rewrite app_nil_l, be_bytes_length.
  - rewrite <- (app_nil_r (AppendDoubleToKey v desc [])). by apply double_key_roundtrip.
Qed.

Lemma decode_float_fixed v desc rest :
  is_u 32 v ->
  ∃ b, take_fixed 4 (AppendFloatToKey v desc [] ++ rest) = Ok (b, rest) /\
       DecodeFloatFromKey b desc = v.
Proof.
  intros Hv. exists (AppendFloatToKey v desc []). split.
  - apply take_fixed_app. rewrite AppendFloatToKey_be by done.
    by rewrite app_nil_l, be_bytes_length.
  - rewrite <- (app_nil_r (AppendFloatToKey v desc [])). by apply float_key_roundtrip.
Qed.

Lemma decode_uint32_fixed v rest :
  is_u 32 v ->
  ∃ b, take_fixed 4 (AppendUInt32ToKey v [] ++ rest) = Ok (b, rest) /\ Load32 b = v.
Proof.
  intros Hv. exists (be_bytes 4 v). unfold AppendUInt32ToKey. rewrite app_nil_l.
  split; [apply take_fixed_app, be_bytes_length|by apply Load32_be].
Qed.

Lemma decode_uint16_fixed v rest :
  is_u 16 v ->
  ∃ b, take_fixed 2 (AppendUInt16 v [] ++ rest) = Ok (b, rest) /\ Load16 b = v.
Proof.
  intros Hv. exists (be_bytes 2 v). unfold AppendUInt16, AppendUInt16ToKey, u16.
  rewrite app_nil_l, wrap_small by done.
  split; [apply take_fixed_app, be_bytes_length|by apply Load16_be].
Qed.

Lemma decode_column_id v rest :
  0 <= v < 2 ^ 31 -> bytes_ok rest ->
  FastDecodeSignedVarInt_slice (AppendColumnId v [] ++ rest) = Ok (v, rest) /\
  ColumnId_FromInt64 v = Ok v.
Proof.
  intros Hv Hr. split.
  - apply signed_varint_roundtrip_slice; [unfold is_s; lia|done].
  - unfold ColumnId_FromInt64.
    destruct (Z.ltb_spec (2 ^ 31 - 1) v); [lia|]. by destruct (Z.ltb_spec v 0); [lia|].
Qed.

(** Reduces a goal about a decoder with the equation of its scalar. *)
Ltac decode_with lem :=
  let b := fresh "b" in let E1 := fresh "E" in let E2 := fresh "E" in
  destruct lem as (b & E1 & E2); rewrite E1; cbn [or_bind]; rewrite E2; cbn;
  rewrite ?Z.lnot_involutive; reflexivity.

Lemma decode_scalar_roundtrip out t v rest :
  scalar_ok t v -> bytes_ok rest ->
  decode_scalar (D := D) (V := V) out t (scalar_encoding t v ++ rest) =
  Done (Ok (out_value out (mkPV t v), rest)).
Proof.
  intros Hok Hr. destruct t, v; try contradiction; unfold scalar_encoding; cbn [append_scalar];
    unfold AppendInt64, AppendInt32, AppendUInt32, AppendDouble, AppendDescendingDouble, AppendFloat, AppendDescendingFloat,
      AppendDescendingInt64, AppendDescendingInt32, decode_scalar, decode_number, decode_identifier,
      decode_floating; cbn [scalar_ok] in Hok; try reflexivity;
    try (rewrite decode_str by done; reflexivity);
    try (rewrite decode_complement_str by done; reflexivity);
    try (decode_with (decode_int64_fixed _ rest Hok));
    try (decode_with (decode_int32_fixed _ rest Hok));
    try (decode_with (decode_int64_fixed _ rest (lnot_is_s _ _ Hok)));
    try (decode_with (decode_int32_fixed _ rest (lnot_is_s _ _ Hok)));
    try (decode_with (decode_uint32_fixed _ rest Hok));
    try (decode_with (decode_uint16_fixed _ rest Hok));
    rewrite ?(bool_decide_eq_true_2 _ eq_refl); rewrite ?bool_decide_eq_false_2 by discriminate;
    try (decode_with (decode_double_fixed _ true rest Hok));
    try (decode_with (decode_double_fixed _ false rest Hok));
    try (decode_with (decode_float_fixed _ true rest Hok));
    try (decode_with (decode_float_fixed _ false rest Hok));
    try (destruct Hok as [Hok Hlen]; rewrite ?decode_str, ?decode_complement_str by done;
         cbn [or_bind]; destruct out; [|done]; by rewrite InetAddress_FromBytes_ok);
    try (pose proof (EncodeToComparable_ok _ Hok);
         rewrite ?decode_str, ?decode_complement_str by done;
         cbn [or_bind]; destruct out; [|done]; by rewrite uuid_comparable_roundtrip);
    try (destruct (decode_column_id _ rest Hok Hr) as [-> E]; cbn [or_bind]; by rewrite E);
    try (destruct Hok as (n & Hn & ->); unfold AppendVarInt, AppendDecimal; rewrite app_nil_l;
         rewrite num_roundtrip by done; cbn; by rewrite drop_app_length);
    try (destruct Hok as (n & Hn & ->);
         destruct (num_flip_decode n rest Hn Hr) as (m & k & E1 & E2 & E3);
         rewrite ?AppendDecimalDescending_VarInt, E1; cbn [or_bind];
         rewrite E3, decide_True by done; by rewrite E2).
  - cbn. do 6 f_equal. unfold new_IntentTypeSet, u8. rewrite Z.mod_small by done.
    apply wrap_small. unfold is_u. lia.
  - unfold AppendEncodedInDocDbFormat. by rewrite app_nil_l, DecodeFrom_EncodedInDocDbFormat.
  - unfold AppendDescendingUInt32. rewrite descending_uint32 by done. unfold is_u in Hok.
    destruct (decode_uint32_fixed (2 ^ 32 - 1 - v) rest) as (b & -> & E); [unfold is_u; lia|].
    cbn [or_bind]. rewrite E. cbn. do 6 f_equal. unfold u32, wrap, Z.lnot.
    symmetry. apply (Z.mod_unique _ _ (-1)); lia.
Qed.

(** ** Nested values *)

(** A type that a scalar in a key can have. *)
Lemma scalar_ok_tag t v :
  scalar_ok t v ->
  t ≠ kFrozen /\ t ≠ kFrozenDescending /\ t ≠ kGroupEnd /\ t ≠ kGroupEndDescending /\ t ≠ kMaxByte.
Proof. intros Hok. destruct t; simpl in Hok; try done; by destruct v. Qed.

Lemma append_scalar_ok t v kb :
  scalar_ok t v -> append_scalar release t v kb = Done (kb ++ scalar_encoding t v).
Proof.
  intros Hok. rewrite append_scalar_app. unfold scalar_encoding.
  enough (∃ e, append_scalar release t v [] = Done e) as [e ->] by done.
  destruct t, v; try contradiction; cbn [append_scalar]; by eexists.
Qed.

Lemma key_encoding_cons pv : ∃ e, key_encoding pv = ValueTypeAsChar (type_of pv) :: e.
Proof. destruct pv as [t v|[] l]; by eexists. Qed.

Lemma AppendToKey_encoding pv kb :
  pv_ok pv -> AppendToKey release pv kb = Done (kb ++ key_encoding pv).
Proof.
  revert kb. induction pv as [t v|d l IH] using PrimitiveValue_nested_ind; intros kb Hok.
  - inversion_clear Hok as [?? Hs|]. cbn [AppendToKey]. rewrite append_scalar_ok by done.
    unfold AppendValueType. by rewrite <- app_assoc.
  - inversion_clear Hok as [|?? Hl]. cbn [AppendToKey key_encoding].
    unfold AppendValueType. unfold group_encode.
    rewrite (cons_middle _ kb (concat _ ++ _)), app_assoc.
    generalize (kb ++ [ValueTypeAsChar (frozen_type d)]). intros k.
    induction IH as [|pv l IHpv IHl IH2] in k, Hl |- *; [done|].
    inversion_clear Hl as [|?? Hpv Hl']. rewrite (IHpv _ Hpv).
    cbn [mbind outcome_bind]. rewrite (IH2 Hl'). cbn [fmap list_fmap concat].
    by rewrite <- !app_assoc.
Qed.

Lemma num_flip_ok {N} `{ComparableNumber N} (n : N) :
  num_valid n -> bytes_ok (AppendVarIntDescending (num_encode n) []).
Proof. intros Hn. destruct (num_flip n Hn) as (m & Hm & -> & _). by apply num_encode_ok. Qed.

Lemma scalar_encoding_ok t v : scalar_ok t v -> bytes_ok (scalar_encoding t v).
Proof.
  intros Hok. destruct t, v; try contradiction; unfold scalar_encoding; cbn [append_scalar];
    cbn [scalar_ok] in Hok; try (by constructor); try (by apply be_bytes_ok);
    try (exact (kc_ok (KeyCodec := zero_str_codec) _ Hok));
    try (exact (kc_ok (KeyCodec := complement_str_codec) _ Hok));
    try (exact (kc_ok (KeyCodec := zero_str_codec) _ (proj1 Hok)));
    try (exact (kc_ok (KeyCodec := complement_str_codec) _ (proj1 Hok)));
    try (exact (kc_ok (KeyCodec := zero_str_codec) _ (EncodeToComparable_ok _ Hok)));
    try (exact (kc_ok (KeyCodec := complement_str_codec) _ (EncodeToComparable_ok _ Hok)));
    try (destruct Hok as (n & Hn & ->); by apply num_encode_ok);
    try (destruct Hok as (n & Hn & ->); by apply num_flip_ok).
  - apply Forall_singleton, wrap_range. lia.
  - by apply dht_encoded_ok.
  - apply FastEncodeSignedVarInt_ok. unfold is_s. lia.
  - apply FastEncodeSignedVarInt_ok. unfold is_s. lia.
Qed.

Lemma key_encoding_ok pv : pv_ok pv -> bytes_ok (key_encoding pv).
Proof.
  induction pv as [t v|d l IH] using PrimitiveValue_nested_ind; intros Hok; inversion_clear Hok;
    cbn [key_encoding]; constructor; auto using ValueTypeAsChar_byte, scalar_encoding_ok.
  unfold group_encode. apply Forall_app. split.
  - apply Forall_concat, Forall_fmap. rewrite Forall_forall in *.
    intros pv Hpv. simpl. auto.
  - apply Forall_singleton, ValueTypeAsChar_byte.
Qed.

Lemma key_encoding_not_marker pv d :
  pv_ok pv -> ValueTypeAsChar (type_of pv) ≠ ValueTypeAsChar (frozen_end_marker d).
Proof.
  intros Hok E%ValueTypeAsChar_inj. destruct Hok as [t v Hs|d' l _]; simpl in E.
  - destruct (scalar_ok_tag _ _ Hs) as (? & ? & ? & ? & ?). by destruct d.
  - by destruct d, d'.
Qed.

Lemma decode_frozen_encoding out d l rest fuel inner acc :
  Forall pv_ok l ->
  Forall (λ pv, ∀ rest, bytes_ok rest ->
    inner (key_encoding pv ++ rest) = Some (Done (Ok (out_value out pv, rest)))) l ->
  bytes_ok rest -> (length l < fuel)%nat ->
  decode_frozen inner (frozen_end_marker d) fuel
    (group_encode (ValueTypeAsChar (frozen_end_marker d)) key_encoding l ++ rest) acc =
  Some (Done (Ok (acc ++ (out_value out <$> l), rest))).
Proof.
  intros Hok Hin Hr. revert fuel acc.
  induction Hin as [|pv l Hpv Hl IH]; intros [|fuel] acc Hf; try (simpl in Hf; lia).
  { simpl. by rewrite Z.eqb_refl, app_nil_r. }
  inversion_clear Hok as [|?? Opv Ol]. rewrite group_encode_cons, <- app_assoc.
  destruct (key_encoding_cons pv) as [e Ee]. cbn [decode_frozen]. rewrite Ee. cbn [app].
  destruct (Z.eqb_spec (ValueTypeAsChar (type_of pv)) (ValueTypeAsChar (frozen_end_marker d))) as [E|_].
  { by destruct (key_encoding_not_marker pv d Opv). }
  rewrite app_comm_cons, <- Ee, Hpv.
  - cbn [fuel_bind]. rewrite IH by (done || simpl in Hf; lia). by rewrite <- app_assoc.
  - apply Forall_app. split; [|done]. unfold group_encode. apply Forall_app. split.
    + apply Forall_concat, Forall_fmap. eapply Forall_impl; [exact Ol|]. apply key_encoding_ok.
    + apply Forall_singleton, ValueTypeAsChar_byte.
Qed.

Lemma group_encode_length m l :
  (length l < length (group_encode m key_encoding l))%nat /\
  Forall (λ pv, (length (key_encoding pv) < length (group_encode m key_encoding l))%nat) l.
Proof.
  induction l as [|pv l [IH1 IH2]]; [split; [simpl; lia|done]|].
  rewrite group_encode_cons, length_app. destruct (key_encoding_cons pv) as [e Ee].
  assert (0 < length (key_encoding pv))%nat by (rewrite Ee; simpl; lia). cbn [length].
  split; [lia|]. constructor; [lia|]. eapply Forall_impl; [exact IH2|]. simpl. lia.
Qed.

Lemma out_value_frozen out d l :
  out_value out (mkFrozen d (out_value out <$> l)) = out_value out (mkFrozen d l).
Proof. destruct out; [|done]. simpl. f_equal. apply list_fmap_id. Qed.

Lemma decode_key_encoding out pv rest fuel :
  pv_ok pv -> bytes_ok rest -> (length (key_encoding pv) <= fuel)%nat ->
  decode_key (D := D) (V := V) fuel out (key_encoding pv ++ rest) =
  Some (Done (Ok (out_value out pv, rest))).
Proof.
  intros Hok. revert rest fuel.
  induction pv as [t v|d l IH] using PrimitiveValue_nested_ind; intros rest [|fuel] Hr Hf;
    try (simpl in Hf; lia); inversion_clear Hok as [?? Hs|?? Hl];
    cbn [key_encoding decode_key app]; rewrite DecodeValueType_AsChar.
  - destruct (scalar_ok_tag _ _ Hs) as (? & ? & _). rewrite decode_scalar_roundtrip by done.
    by destruct t.
  - cbn [key_encoding length] in Hf.
    destruct (group_encode_length (ValueTypeAsChar (frozen_end_marker d)) l) as [G1 G2].
    assert (decode_frozen (decode_key (D := D) (V := V) fuel out) (frozen_end_marker d) fuel
      (group_encode (ValueTypeAsChar (frozen_end_marker d)) key_encoding l ++ rest) [] =
      Some (Done (Ok (out_value out <$> l, rest)))) as E.
    { apply (decode_frozen_encoding out d l rest fuel _ []); [done| |done|lia].
      apply Forall_forall. intros pv Hpv r Hr'. rewrite Forall_forall in IH, Hl, G2.
      apply IH; auto. specialize (G2 pv Hpv). simpl in G2. lia. }
    destruct d; cbn [frozen_type frozen_end_marker] in *; rewrite E; cbn [fuel_bind];
      by rewrite out_value_frozen.
Qed.


(** ** The decoder terminates

    Every decoder leaves at most what it was given, and [decode_key] consumes
    the tag; so the length of the slice bounds the recursion. *)

Lemma DecodeEncodedStr_shrinks e n p result s rest :
  (length p <= n)%nat -> DecodeEncodedStr e p result = Ok (s, rest) ->
  (length rest <= length p)%nat.
Proof.
  revert p result. induction n as [|n IH]; intros [|c p] result Hn E; simpl in Hn; try lia;
    simpl in E; [by simplify_eq..|]. simpl.
  destruct (c =? e).
  - destruct p as [|c2 p]; [done|]. simpl in *. destruct (c2 =? e); [simplify_eq; lia|].
    destruct (c2 =? _); [|done]. apply IH in E; lia.
  - apply IH in E; lia.
Qed.

Lemma FastDecodeSigned_shrinks s v rest :
  FastDecodeSignedVarInt_slice s = Ok (v, rest) -> (length rest <= length s)%nat.
Proof.
  unfold FastDecodeSignedVarInt_slice. intros E. inv_outcome. simplify_eq.
  rewrite length_drop. lia.
Qed.

Lemma FastDecodeDescending_shrinks s v rest :
  FastDecodeDescendingSignedVarInt s = Ok (v, rest) -> (length rest <= length s)%nat.
Proof.
  unfold FastDecodeDescendingSignedVarInt. intros E. inv_outcome. simplify_eq.
  rewrite length_drop. lia.
Qed.

Lemma DecodeFrom_shrinks s t rest :
  DocHybridTime.DecodeFrom s = Ok (t, rest) -> (length rest <= length s)%nat.
Proof.
  unfold DocHybridTime.DecodeFrom. intros E.
  repeat (apply result_bind_Ok in E as ([? ?] & ?%FastDecodeDescending_shrinks & E); cbv beta iota in E).
  cbv zeta in E. repeat (case_match; try discriminate). simplify_eq. lia.
Qed.

Lemma take_fixed_shrinks n s b rest : take_fixed n s = Ok (b, rest) -> (length rest <= length s)%nat.
Proof.
  unfold take_fixed. destruct (_ <? _)%nat; [done|]. intros. simplify_eq. rewrite length_drop. lia.
Qed.

Lemma or_bind_Ok {A B} (m : Outcome (Result A)) (k : A -> Outcome (Result B)) b :
  or_bind m k = Done (Ok b) -> ∃ a, m = Done (Ok a) /\ k a = Done (Ok b).
Proof. destruct m as [[]| |]; try done. eauto. Qed.

Lemma decode_scalar_shrinks out t s pv rest :
  decode_scalar (D := D) (V := V) out t s = Done (Ok (pv, rest)) -> (length rest <= length s)%nat.
Proof.
  destruct t; unfold decode_scalar, decode_number, decode_identifier, decode_floating; cbv zeta; intros E; try discriminate;
    try (by simplify_eq);
    try (apply or_bind_Ok in E as ([? ?] & E0 & E); injection E0 as E0);
    try (apply take_fixed_shrinks in E0; by simplify_eq);
    try (apply DecodeFrom_shrinks in E0; by simplify_eq);
    try (simplify_eq; rewrite length_drop; lia);
    try (eapply DecodeEncodedStr_shrinks in E0; [|reflexivity];
         destruct out; [apply or_bind_Ok in E as (? & ? & E)|]; by simplify_eq);
    try (eapply DecodeEncodedStr_shrinks in E0; [|reflexivity]; by simplify_eq);
    try (destruct s; [done|]; simplify_eq; simpl; lia);
    apply FastDecodeSigned_shrinks in E0; apply or_bind_Ok in E as (? & ? & E); by simplify_eq.
Qed.

Lemma decode_frozen_shrinks inner m fuel s acc l rest :
  (∀ s pv rest, inner s = Some (Done (Ok (pv, rest))) -> (length rest <= length s)%nat) ->
  decode_frozen inner m fuel s acc = Some (Done (Ok (l, rest))) -> (length rest <= length s)%nat.
Proof.
  intros Hin. revert s acc. induction fuel as [|fuel IH]; intros [|b s] acc; try done.
  cbn [decode_frozen]. destruct (b =? _); [intros; simplify_eq; simpl; lia|].
  intros ([pv r] & E1%Hin & E2%IH)%fuel_bind_Ok. lia.
Qed.

Lemma decode_key_shrinks fuel out s pv rest :
  decode_key (D := D) (V := V) fuel out s = Some (Done (Ok (pv, rest))) -> (length rest < length s)%nat.
Proof.
  revert s pv rest. induction fuel as [|fuel IH]; intros [|b s] pv rest; try done.
  cbn [decode_key]. intros E. simpl.
  assert (∀ m acc l r, decode_frozen (decode_key (D := D) (V := V) fuel out) m fuel s acc
      = Some (Done (Ok (l, r))) -> (length r <= length s)%nat) as Hf.
  { intros m acc l r. apply decode_frozen_shrinks. intros s' pv' r' ?%IH. lia. }
  destruct (DecodeValueType b) as [[]|]; try done;
    try (apply (inj Some) in E; apply decode_scalar_shrinks in E; lia);
    apply fuel_bind_Ok in E as ([l r] & E0%Hf & E); simplify_eq; lia.
Qed.

Lemma DecodeKey_shrinks out s pv rest :
  DecodeKey (D := D) (V := V) out s = Done (Ok (pv, rest)) -> (length rest < length s)%nat.
Proof.
  unfold DecodeKey, finished. destruct (decode_key _ _ _) as [r|] eqn:E; [|done]. cbn. intros ->.
  by apply decode_key_shrinks in E.
Qed.

(** A loop over elements that each consume a byte has fuel enough, whatever is
    in the slice. *)
Lemma decode_frozen_total inner m fuel s acc :
  (∀ s', (length s' <= length s)%nat -> is_Some (inner s')) ->
  (∀ s pv rest, inner s = Some (Done (Ok (pv, rest))) -> (length rest < length s)%nat) ->
  (length s < fuel)%nat -> is_Some (decode_frozen inner m fuel s acc).
Proof.
  intros Ht Hin. revert s acc Ht. induction fuel as [|fuel IH]; intros [|b s] acc Ht Hf; try lia; [by eexists|].
  cbn [decode_frozen]. destruct (b =? _); [by eexists|]. apply fuel_bind_is_Some; [by apply Ht|].
  intros [pv r] E%Hin. simpl in *. apply IH; [|lia]. intros s' Hs'. apply Ht. lia.
Qed.

Lemma decode_key_total fuel out s :
  (length s < fuel)%nat -> is_Some (decode_key (D := D) (V := V) fuel out s).
Proof.
  revert s. induction fuel as [|fuel IH]; intros [|b s] Hf; try lia; [by eexists|]. simpl in Hf. cbn [decode_key].
  assert (∀ m acc, is_Some (decode_frozen (decode_key (D := D) (V := V) fuel out) m fuel s acc)) as Hl.
  { intros m acc. apply decode_frozen_total; [|apply decode_key_shrinks|lia]. intros s' Hs'. apply IH. lia. }
  destruct (DecodeValueType b) as [[]|]; try (by eexists);
    apply fuel_bind_is_Some; [apply Hl|intros [] _; by eexists|apply Hl|intros [] _; by eexists].
Qed.

Lemma decode_frozen_fuel inner1 inner2 m f1 f2 s acc :
  (∀ s', (length s' <= length s)%nat -> inner1 s' = inner2 s') ->
  (∀ s pv rest, inner1 s = Some (Done (Ok (pv, rest))) -> (length rest < length s)%nat) ->
  (length s < f1)%nat -> (length s < f2)%nat ->
  decode_frozen inner1 m f1 s acc = decode_frozen inner2 m f2 s acc.
Proof.
  revert f2 s acc. induction f1 as [|f1 IH]; intros [|f2] [|b s] acc Heq Hin H1 H2; try lia;
    [done|].
  cbn [decode_frozen]. destruct (b =? _); [done|]. rewrite <- Heq by done.
  destruct (inner1 (b :: s)) as [[[[pv r]|]| |]|] eqn:E; try done. cbn [fuel_bind].
  apply Hin in E. simpl in *. apply IH; try lia; [|done]. intros s' Hs'. apply Heq. lia.
Qed.

Lemma decode_key_fuel f1 f2 out s :
  (length s < f1)%nat -> (length s < f2)%nat ->
  decode_key (D := D) (V := V) f1 out s = decode_key (D := D) (V := V) f2 out s.
Proof.
  revert f2 s. induction f1 as [|f1 IH]; intros [|f2] [|b s] H1 H2; try lia; [done|].
  simpl in H1, H2. cbn [decode_key].
  assert (∀ m acc, decode_frozen (decode_key (D := D) (V := V) f1 out) m f1 s acc =
    decode_frozen (decode_key (D := D) (V := V) f2 out) m f2 s acc) as E.
  { intros m acc. apply decode_frozen_fuel; [|apply decode_key_shrinks|lia..].
    intros s' Hs'. apply IH; lia. }
  destruct (DecodeValueType b) as [[]|]; try done; by rewrite E.
Qed.

Lemma decode_key_enough fuel out s :
  (length s < fuel)%nat -> decode_key (D := D) (V := V) fuel out s = Some (DecodeKey (D := D) (V := V) out s).
Proof.
  intros Hf. unfold DecodeKey. rewrite (decode_key_fuel fuel (S (length s))) by lia.
  by destruct (decode_key_total (S (length s)) out s) as [r ->]; [lia|].
Qed.

(** ** Order *)

(** Values on which [CompareTo] and the bytewise order of the encodings
    agree: no NaN, no negative zero, UUIDs of a version boost knows, and
    neither transaction nor table ids (which compare like descending UUIDs
    but are encoded like ascending ones). *)
Definition scalar_ordered (t : ValueType) (v : Payload) : Prop :=
  match t, v with
  | (kDouble | kDoubleDescending), double_val_ d => ieee_nan 64 double_inf d = false /\ d ≠ 2 ^ 63
  | (kFloat | kFloatDescending), float_val_ f => ieee_nan 32 float_inf f = false /\ f ≠ 2 ^ 31
  | (kUuid | kUuidDescending), uuid_val_ u => version_ok u
  | (kTransactionId | kTableId), _ => False
  | _, _ => True
  end.

Definition inside_frozen (descending : bool) (pv : PrimitiveValue) : Prop :=
  if descending then ValueTypeAsChar (type_of pv) < ValueTypeAsChar kGroupEndDescending
  else ValueTypeAsChar kGroupEnd < ValueTypeAsChar (type_of pv).

Inductive pv_ordered : PrimitiveValue -> Prop :=
| pv_ordered_scalar t v : scalar_ok t v -> scalar_ordered t v -> pv_ordered (mkPV t v)
| pv_ordered_frozen d l :
    Forall pv_ordered l -> Forall (inside_frozen d) l -> pv_ordered (mkFrozen d l).

Lemma pv_ordered_ok pv : pv_ordered pv -> pv_ok pv.
Proof.
  induction pv as [t v|d l IH] using PrimitiveValue_nested_ind; intros Ho; inversion_clear Ho;
    constructor; [done|]. rewrite Forall_forall in *. auto.
Qed.

Lemma compare_using_Z a b : (compare_using Z.ltb a b ?= 0) = (a ?= b).
Proof.
  unfold compare_using. destruct (Z.ltb_spec a b); [symmetry; by apply Z.compare_lt_iff|].
  destruct (Z.ltb_spec b a); symmetry; [by apply Z.compare_gt_iff|]. apply Z.compare_eq_iff. lia.
Qed.

Lemma str_compare_sign a b : (str_compare a b ?= 0) = bytes_compare a b.
Proof. unfold str_compare. by destruct (bytes_compare a b). Qed.

(** A [compare_using] whose [operator<] is the bytewise order of some keys. *)
Lemma compare_using_bytes {A} (lt : A -> A -> bool) (f : A -> bytes) a b :
  (lt a b = true <-> bytes_compare (f a) (f b) = Lt) ->
  (lt b a = true <-> bytes_compare (f b) (f a) = Lt) ->
  (compare_using lt a b ?= 0) = bytes_compare (f a) (f b).
Proof.
  intros H1 H2. unfold compare_using. rewrite (bytes_compare_antisym (f a)) in H2.
  destruct (lt a b); [by rewrite (proj1 H1)|]. destruct (lt b a).
  - specialize (proj1 H2 eq_refl). by destruct (bytes_compare (f a) (f b)).
  - destruct (bytes_compare (f a) (f b)); [done|..]; [by specialize (proj2 H1 eq_refl)|by specialize (proj2 H2 eq_refl)].
Qed.

Lemma int64_key_order v w r1 r2 :
  is_s 64 v -> is_s 64 w -> v ≠ w ->
  bytes_compare (AppendInt64ToKey v [] ++ r1) (AppendInt64ToKey w [] ++ r2) = (v ?= w).
Proof.
  intros Hv Hw Hne. rewrite !AppendInt64ToKey_be by done. unfold is_s in *.
  cbn [app]. rewrite be_bytes_order by (unfold is_u; lia).
  rewrite !(Z.add_comm _ (2 ^ 63)). apply Z.add_compare_mono_l.
Qed.

Lemma int32_key_order v w r1 r2 :
  is_s 32 v -> is_s 32 w -> v ≠ w ->
  bytes_compare (AppendInt32ToKey v [] ++ r1) (AppendInt32ToKey w [] ++ r2) = (v ?= w).
Proof.
  intros Hv Hw Hne. rewrite !AppendInt32ToKey_be by done. unfold is_s in *.
  cbn [app]. rewrite be_bytes_order by (unfold is_u; lia).
  rewrite !(Z.add_comm _ (2 ^ 31)). apply Z.add_compare_mono_l.
Qed.

Lemma lnot_compare v w : (Z.lnot v ?= Z.lnot w) = (w ?= v).
Proof.
  unfold Z.lnot. destruct (Z.compare_spec w v); [subst; apply Z.compare_refl|..];
    [apply Z.compare_lt_iff|apply Z.compare_gt_iff]; lia.
Qed.

Lemma sub_compare c v w : (c - v ?= c - w) = (w ?= v).
Proof.
  destruct (Z.compare_spec w v); [subst; apply Z.compare_refl|..];
    [apply Z.compare_lt_iff|apply Z.compare_gt_iff]; lia.
Qed.

(** The code of a float orders like its value. *)
Lemma float_code_compare w a b :
  0 < w -> is_u w a -> is_u w b -> a ≠ 2 ^ (w - 1) -> b ≠ 2 ^ (w - 1) ->
  (float_code w a ?= float_code w b) = (ieee_value w a ?= ieee_value w b).
Proof.
  intros Hw Ha Hb Na Nb. unfold is_u in *.
  assert (2 ^ w = 2 * 2 ^ (w - 1)) as E
    by (rewrite <- Z.pow_succ_r by lia; f_equal; lia).
  unfold float_code, ieee_value.
  destruct (Z.ltb_spec a (2 ^ (w - 1))), (Z.ltb_spec b (2 ^ (w - 1)));
    match goal with |- _ = (?x ?= ?y) => destruct (Z.compare_spec x y) end;
    (apply Z.compare_eq_iff || apply Z.compare_lt_iff || apply Z.compare_gt_iff); lia.
Qed.

Lemma ieee_compare w inf a b :
  ieee_nan w inf a = false -> ieee_nan w inf b = false ->
  (compare_using (ieee_lt w inf) a b ?= 0) = (ieee_value w a ?= ieee_value w b).
Proof.
  intros Ha Hb. rewrite <- (compare_using_Z (ieee_value w a)).
  unfold compare_using, ieee_lt. by rewrite Ha, Hb.
Qed.

Lemma float_code_inj w a b : 0 < w -> is_u w a -> is_u w b -> float_code w a = float_code w b -> a = b.
Proof.
  intros Hw Ha Hb E. rewrite <- (float_uncode_spec w a Hw Ha), <- (float_uncode_spec w b Hw Hb).
  cbv zeta. by rewrite E.
Qed.

Lemma double_key_order desc a b r1 r2 :
  is_u 64 a -> is_u 64 b -> a ≠ b ->
  bytes_compare (AppendDoubleToKey a desc [] ++ r1) (AppendDoubleToKey b desc [] ++ r2) =
  if desc then float_code 64 b ?= float_code 64 a else float_code 64 a ?= float_code 64 b.
Proof.
  intros Ha Hb Hne. rewrite !AppendDoubleToKey_be by done. cbn [app].
  pose proof (float_code_range 64 a ltac:(done) Ha). pose proof (float_code_range 64 b ltac:(done) Hb).
  assert (float_code 64 a ≠ float_code 64 b) by (intros ?%float_code_inj; done).
  unfold is_u in *. destruct desc; rewrite be_bytes_order by (unfold is_u; lia); [|done].
  apply sub_compare.
Qed.

Lemma float_key_order desc a b r1 r2 :
  is_u 32 a -> is_u 32 b -> a ≠ b ->
  bytes_compare (AppendFloatToKey a desc [] ++ r1) (AppendFloatToKey b desc [] ++ r2) =
  if desc then float_code 32 b ?= float_code 32 a else float_code 32 a ?= float_code 32 b.
Proof.
  intros Ha Hb Hne. rewrite !AppendFloatToKey_be by done. cbn [app].
  pose proof (float_code_range 32 a ltac:(done) Ha). pose proof (float_code_range 32 b ltac:(done) Hb).
  assert (float_code 32 a ≠ float_code 32 b) by (intros ?%float_code_inj; done).
  unfold is_u in *. destruct desc; rewrite be_bytes_order by (unfold is_u; lia); [|done].
  apply sub_compare.
Qed.

Lemma num_compare_bytes {N} `{ComparableNumber N} (a b : N) :
  num_valid a -> num_valid b -> num_encode a ≠ num_encode b ->
  num_compare a b = bytes_compare (num_encode a) (num_encode b).
Proof. intros. by rewrite <- (num_order a b [] []), !app_nil_r. Qed.

Lemma num_key_order {N} `{ComparableNumber N} (a b : N) r1 r2 :
  num_valid a -> num_valid b -> num_encode a ≠ num_encode b ->
  bytes_compare (num_encode a ++ r1) (num_encode b ++ r2) = bytes_compare (num_encode a) (num_encode b).
Proof. intros. by rewrite num_order, num_compare_bytes. Qed.

Lemma num_flip_key_order {N} `{ComparableNumber N} (a b : N) r1 r2 :
  num_valid a -> num_valid b -> num_encode a ≠ num_encode b ->
  bytes_compare (AppendVarIntDescending (num_encode a) [] ++ r1)
    (AppendVarIntDescending (num_encode b) [] ++ r2) = bytes_compare (num_encode b) (num_encode a).
Proof. intros. by rewrite num_flip_order, num_compare_bytes. Qed.

Lemma str_key_order a b r1 r2 :
  bytes_ok a -> bytes_ok b -> a ≠ b ->
  bytes_compare (AppendString a [] ++ r1) (AppendString b [] ++ r2) = bytes_compare a b.
Proof. apply (kc_order (KeyCodec := zero_str_codec)). Qed.

Lemma complement_str_key_order a b r1 r2 :
  bytes_ok a -> bytes_ok b -> a ≠ b ->
  bytes_compare (AppendDescendingString a [] ++ r1) (AppendDescendingString b [] ++ r2) =
  bytes_compare b a.
Proof. apply (kc_order (KeyCodec := complement_str_codec)). Qed.

Lemma inet_compare a b : (compare_using inet_lt a b ?= 0) = bytes_compare a b.
Proof. apply (compare_using_bytes inet_lt id); unfold inet_lt; by rewrite bool_decide_eq_true. Qed.

Lemma uuid_compare a b :
  uuid_ok a -> uuid_ok b -> version_ok a -> version_ok b ->
  (compare_using uuid_lt a b ?= 0) = bytes_compare (EncodeToComparable a) (EncodeToComparable b).
Proof. intros. apply (compare_using_bytes uuid_lt); by apply uuid_lt_spec. Qed.

Lemma EncodeToComparable_inj a b :
  uuid_ok a -> uuid_ok b -> a ≠ b -> EncodeToComparable a ≠ EncodeToComparable b.
Proof.
  intros Ha Hb Hne E. apply Hne. pose proof (uuid_comparable_roundtrip a Ha) as Ra.
  rewrite E, uuid_comparable_roundtrip in Ra by done. congruence.
Qed.

Lemma int64_descending_order v w r1 r2 :
  is_s 64 v -> is_s 64 w -> v ≠ w ->
  bytes_compare (AppendInt64ToKey (Z.lnot v) [] ++ r1) (AppendInt64ToKey (Z.lnot w) [] ++ r2) =
  (w ?= v).
Proof.
  intros. rewrite int64_key_order; [apply lnot_compare|by apply lnot_is_s..|].
  unfold Z.lnot. lia.
Qed.

Lemma int32_descending_order v w r1 r2 :
  is_s 32 v -> is_s 32 w -> v ≠ w ->
  bytes_compare (AppendInt32ToKey (Z.lnot v) [] ++ r1) (AppendInt32ToKey (Z.lnot w) [] ++ r2) =
  (w ?= v).
Proof.
  intros. rewrite int32_key_order; [apply lnot_compare|by apply lnot_is_s..|].
  unfold Z.lnot. lia.
Qed.

Lemma uint32_descending_order v w r1 r2 :
  is_u 32 v -> is_u 32 w -> v ≠ w ->
  bytes_compare (AppendDescendingUInt32 v [] ++ r1) (AppendDescendingUInt32 w [] ++ r2) = (w ?= v).
Proof.
  intros Hv Hw Hne. unfold AppendDescendingUInt32. rewrite !descending_uint32 by done.
  unfold AppendUInt32ToKey, is_u in *. cbn [app].
  rewrite be_bytes_order by (unfold is_u; lia). apply sub_compare.
Qed.

Lemma double_order desc a b r1 r2 :
  is_u 64 a -> is_u 64 b -> ieee_nan 64 double_inf a = false /\ a ≠ 2 ^ 63 ->
  ieee_nan 64 double_inf b = false /\ b ≠ 2 ^ 63 -> a ≠ b ->
  bytes_compare (AppendDoubleToKey a desc [] ++ r1) (AppendDoubleToKey b desc [] ++ r2) =
  (compare_using (ieee_lt 64 double_inf) (if desc then b else a) (if desc then a else b) ?= 0).
Proof.
  intros Ha Hb [Na Za] [Nb Zb] Hne. rewrite double_key_order by done.
  destruct desc; by rewrite ieee_compare, float_code_compare.
Qed.

Lemma float_order desc a b r1 r2 :
  is_u 32 a -> is_u 32 b -> ieee_nan 32 float_inf a = false /\ a ≠ 2 ^ 31 ->
  ieee_nan 32 float_inf b = false /\ b ≠ 2 ^ 31 -> a ≠ b ->
  bytes_compare (AppendFloatToKey a desc [] ++ r1) (AppendFloatToKey b desc [] ++ r2) =
  (compare_using (ieee_lt 32 float_inf) (if desc then b else a) (if desc then a else b) ?= 0).
Proof.
  intros Ha Hb [Na Za] [Nb Zb] Hne. rewrite float_key_order by done.
  destruct desc; by rewrite ieee_compare, float_code_compare.
Qed.

Lemma uuid_key_order a b r1 r2 :
  uuid_ok a -> uuid_ok b -> version_ok a -> version_ok b -> a ≠ b ->
  bytes_compare (AppendString (EncodeToComparable a) [] ++ r1)
    (AppendString (EncodeToComparable b) [] ++ r2) = (compare_using uuid_lt a b ?= 0).
Proof.
  intros. rewrite uuid_compare by done.
  apply str_key_order; auto using EncodeToComparable_ok, EncodeToComparable_inj.
Qed.

Lemma uuid_descending_order a b r1 r2 :
  uuid_ok a -> uuid_ok b -> version_ok a -> version_ok b -> a ≠ b ->
  bytes_compare (AppendDescendingString (EncodeToComparable a) [] ++ r1)
    (AppendDescendingString (EncodeToComparable b) [] ++ r2) = (compare_using uuid_lt b a ?= 0).
Proof.
  intros. rewrite uuid_compare by done.
  apply complement_str_key_order; auto using EncodeToComparable_ok, EncodeToComparable_inj.
Qed.

Lemma hybrid_time_key_order a b r1 r2 :
  dht_ok a -> dht_ok b -> a ≠ b ->
  bytes_compare (AppendEncodedInDocDbFormat a [] ++ r1) (AppendEncodedInDocDbFormat b [] ++ r2) =
  (- DocHybridTime.CompareTo a b ?= 0).
Proof.
  intros Ha Hb Hne. unfold AppendEncodedInDocDbFormat. rewrite !app_nil_l.
  rewrite dht_order_aux, CompareTo_spec by done. by destruct (dht_compare a b).
Qed.

Lemma column_id_order v w r1 r2 :
  0 <= v < 2 ^ 31 -> 0 <= w < 2 ^ 31 -> v ≠ w ->
  bytes_compare (AppendColumnId v [] ++ r1) (AppendColumnId w [] ++ r2) = (v ?= w).
Proof. intros. apply signed_varint_compare; unfold is_s; lia. Qed.

Lemma intent_set_order v w r1 r2 :
  0 <= v < 16 -> 0 <= w < 16 -> v ≠ w ->
  bytes_compare (AppendIntentTypeSet (new_IntentTypeSet v) [] ++ r1)
    (AppendIntentTypeSet (new_IntentTypeSet w) [] ++ r2) = (v ?= w).
Proof.
  intros. unfold AppendIntentTypeSet, new_IntentTypeSet, u8.
  rewrite !Z.mod_small, !wrap_small by (unfold is_u; lia || done). cbn [app bytes_compare].
  destruct (Z.compare_spec v w); done.
Qed.

Lemma uint16_order v w r1 r2 :
  is_u 16 v -> is_u 16 w -> v ≠ w ->
  bytes_compare (AppendUInt16 v [] ++ r1) (AppendUInt16 w [] ++ r2) = (v ?= w).
Proof.
  intros. unfold AppendUInt16, AppendUInt16ToKey, u16. rewrite !wrap_small by done.
  cbn [app]. by rewrite be_bytes_order.
Qed.

Lemma uint32_order v w r1 r2 :
  is_u 32 v -> is_u 32 w -> v ≠ w ->
  bytes_compare (AppendUInt32 v [] ++ r1) (AppendUInt32 w [] ++ r2) = (v ?= w).
Proof. intros. unfold AppendUInt32, AppendUInt32ToKey. cbn [app]. by rewrite be_bytes_order. Qed.

Lemma scalar_order t v w r1 r2 :
  scalar_ok t v -> scalar_ordered t v -> scalar_ok t w -> scalar_ordered t w -> v ≠ w ->
  ∃ z, scalar_compare t v w = Done z /\
    bytes_compare (scalar_encoding t v ++ r1) (scalar_encoding t w ++ r2) = (z ?= 0).
Proof.
  intros Hv Ov Hw Ow Hne.
  destruct t, v; try contradiction; destruct w; try contradiction; try (by destruct Hne);
    cbn [scalar_ok scalar_ordered] in *; unfold scalar_encoding; cbn [append_scalar scalar_compare];
    (eexists; split; [reflexivity|]);
    match type of Hne with ?c ?x ≠ ?c ?y =>
      assert (x ≠ y) by (intros ->; by apply Hne); clear Hne end;
    unfold AppendInt64, AppendInt32, AppendDescendingInt64, AppendDescendingInt32, AppendDouble,
      AppendDescendingDouble, AppendFloat, AppendDescendingFloat, AppendDecimal, AppendVarInt;
    rewrite ?app_nil_l, ?AppendDecimalDescending_VarInt, ?str_compare_sign, ?compare_using_Z, ?inet_compare;
    first
    [ rewrite int64_key_order by assumption; reflexivity
    | rewrite int32_key_order by assumption; reflexivity
    | rewrite uint32_order by assumption; reflexivity
    | rewrite uint16_order by assumption; reflexivity
    | rewrite int64_descending_order by assumption; reflexivity
    | rewrite int32_descending_order by assumption; reflexivity
    | rewrite uint32_descending_order by assumption; reflexivity
    | rewrite str_key_order by (assumption || apply Hv || apply Hw); reflexivity
    | rewrite complement_str_key_order by (assumption || apply Hv || apply Hw); reflexivity
    | destruct Hv as (? & ? & ->), Hw as (? & ? & ->); rewrite num_key_order by assumption; reflexivity
    | destruct Hv as (? & ? & ->), Hw as (? & ? & ->); rewrite num_flip_key_order by assumption; reflexivity
    | rewrite (double_order false) by assumption; reflexivity
    | rewrite (double_order true) by assumption; reflexivity
    | rewrite (float_order false) by assumption; reflexivity
    | rewrite (float_order true) by assumption; reflexivity
    | rewrite uuid_key_order by assumption; reflexivity
    | rewrite uuid_descending_order by assumption; reflexivity
    | rewrite hybrid_time_key_order by assumption; reflexivity
    | rewrite column_id_order by assumption; reflexivity
    | rewrite intent_set_order by assumption; reflexivity ].
Qed.

Lemma compare_using_refl {A} (lt : A -> A -> bool) a : lt a a = false -> compare_using lt a a = 0.
Proof. unfold compare_using. by intros ->. Qed.

Lemma scalar_compare_refl t v :
  scalar_ok t v -> scalar_ordered t v -> scalar_compare t v v = Done 0.
Proof.
  intros Hv Ov. destruct t, v; try contradiction; cbn [scalar_ok scalar_ordered scalar_compare] in *;
    try reflexivity; f_equal; try (apply compare_using_refl, Z.ltb_irrefl);
    try (unfold str_compare; by rewrite bytes_compare_refl);
    try (apply compare_using_refl; unfold inet_lt; by rewrite bytes_compare_refl);
    try (apply compare_using_refl; unfold ieee_lt; rewrite Z.ltb_irrefl; apply andb_false_r).
  - rewrite CompareTo_spec. unfold dht_compare. by rewrite !Z.compare_refl.
  - apply compare_using_refl, not_true_iff_false.
    rewrite uuid_lt_spec, bytes_compare_refl by done. done.
  - apply compare_using_refl, not_true_iff_false.
    rewrite uuid_lt_spec, bytes_compare_refl by done. done.
Qed.

(** *** Nested values *)

#[export] Instance PrimitiveValue_eq_dec : EqDecision PrimitiveValue.
Proof.
  refine (fix go (x y : PrimitiveValue) : Decision (x = y) :=
    match x, y with
    | mkPV t v, mkPV t' v' => cast_if_and (decide (t = t')) (decide (v = v'))
    | mkFrozen d l, mkFrozen d' l' =>
        let _ : EqDecision PrimitiveValue := go in
        cast_if_and (decide (d = d')) (decide (l = l'))
    | _, _ => right _
    end); abstract congruence.
Defined.

(** The sign of [CompareTo]. *)
Definition pv_compare (a b : PrimitiveValue) : comparison :=
  match CompareTo a b with Done z => z ?= 0 | _ => Eq end.

Lemma value_type_underlying_ok pv :
  pv_ordered pv -> value_type_underlying (type_of pv) = ValueTypeAsChar (type_of pv).
Proof.
  intros Ho. unfold value_type_underlying. rewrite decide_False; [done|]. intros E.
  destruct Ho as [t v Hs _|[] l _ _]; try discriminate.
  by destruct (scalar_ok_tag _ _ Hs) as (_ & _ & _ & _ & ?).
Qed.

(** Different tags decide. *)
Lemma CompareTo_tag a b :
  pv_ordered a -> pv_ordered b -> type_of a ≠ type_of b ->
  ∃ z, CompareTo a b = Done z /\
    (z ?= 0) = (ValueTypeAsChar (type_of a) ?= ValueTypeAsChar (type_of b)).
Proof.
  intros Ha Hb Hne. exists (compare_using Z.ltb (ValueTypeAsChar (type_of a)) (ValueTypeAsChar (type_of b))).
  rewrite compare_using_Z. split; [|done].
  assert (compare_using Z.ltb (ValueTypeAsChar (type_of a)) (ValueTypeAsChar (type_of b)) ≠ 0) as Hz.
  { intros E. apply Hne, ValueTypeAsChar_inj, Z.compare_eq_iff.
    by rewrite <- compare_using_Z, E. }
  apply Z.eqb_neq in Hz. rewrite <- !value_type_underlying_ok in * by done.
  by destruct a; cbn [CompareTo]; rewrite Hz.
Qed.

Lemma CompareTo_same t a b :
  CompareTo (mkPV t a) (mkPV t b) = scalar_compare t a b.
Proof. cbn [CompareTo type_of]. by rewrite compare_using_refl by apply Z.ltb_irrefl. Qed.

(** The element loop of [CompareTo]. *)
Fixpoint compare_elements (l1 l2 : list PrimitiveValue) : Outcome Z :=
  match l1, l2 with
  | x :: l1', y :: l2' =>
      r ← CompareTo x y; if negb (r =? 0) then Done r else compare_elements l1' l2'
  | _, _ => Done 0
  end.

Lemma CompareTo_frozen d l1 l2 :
  CompareTo (mkFrozen d l1) (mkFrozen d l2) =
  (r ← compare_elements l1 l2;
   if negb (r =? 0) then Done r
   else Done (if d : bool then compare_using Z.ltb (Z.of_nat (length l2)) (Z.of_nat (length l1))
              else compare_using Z.ltb (Z.of_nat (length l1)) (Z.of_nat (length l2)))).
Proof. cbn [CompareTo type_of]. by rewrite compare_using_refl by apply Z.ltb_irrefl. Qed.

Lemma compare_elements_group asc l1 l2 :
  (∀ x y, x ∈ l1 -> y ∈ l2 -> ∃ z, CompareTo x y = Done z) ->
  ∃ r, compare_elements l1 l2 = Done r /\
    group_compare asc pv_compare l1 l2 =
    if r =? 0
    then if asc then Z.of_nat (length l1) ?= Z.of_nat (length l2)
         else Z.of_nat (length l2) ?= Z.of_nat (length l1)
    else r ?= 0.
Proof.
  revert l2. induction l1 as [|x l1 IH]; intros [|y l2] Htot; [by destruct asc; exists 0..|].
  destruct (Htot x y) as [z Hz]; [constructor..|].
  cbn [compare_elements group_compare]. unfold pv_compare at 1. rewrite Hz.
  cbn [mbind outcome_bind]. destruct (Z.eqb_spec z 0) as [->|Hz0]; cbn [negb].
  - destruct (IH l2) as (r & -> & E); [intros; apply Htot; by constructor|].
    exists r. split; [done|]. change (0 ?= 0) with Eq. cbv iota. rewrite E.
    destruct (r =? 0); [|done]. cbn [length]. destruct asc; by rewrite !Nat2Z.inj_compare.
  - exists z. split; [done|]. rewrite (proj2 (Z.eqb_neq z 0)) by done.
    by destruct (Z.compare_spec z 0).
Qed.

Lemma CompareTo_frozen_group d l1 l2 :
  (∀ x y, x ∈ l1 -> y ∈ l2 -> ∃ z, CompareTo x y = Done z) ->
  ∃ z, CompareTo (mkFrozen d l1) (mkFrozen d l2) = Done z /\
    (z ?= 0) = group_compare (negb d) pv_compare l1 l2.
Proof.
  intros Htot. destruct (compare_elements_group (negb d) l1 l2 Htot) as (r & Er & ->).
  rewrite CompareTo_frozen, Er. cbn [mbind outcome_bind].
  destruct (Z.eqb_spec r 0) as [->|Hr]; cbn [negb]; eexists; (split; [reflexivity|]); [|done].
  destruct d; apply compare_using_Z.
Qed.

Lemma pv_ordered_same_type a b :
  pv_ordered a -> pv_ordered b -> type_of a = type_of b ->
  (∃ t v w, a = mkPV t v /\ b = mkPV t w /\
     scalar_ok t v /\ scalar_ordered t v /\ scalar_ok t w /\ scalar_ordered t w) \/
  (∃ d l1 l2, a = mkFrozen d l1 /\ b = mkFrozen d l2 /\ Forall pv_ordered l1 /\
     Forall (inside_frozen d) l1 /\ Forall pv_ordered l2 /\ Forall (inside_frozen d) l2).
Proof.
  intros [t v Hv Ov|d l Hl Il] [t' v' Hv' Ov'|d' l' Hl' Il'] E; simpl in E.
  - subst t'. left. by exists t, v, v'.
  - destruct (scalar_ok_tag _ _ Hv) as (? & ? & _). by destruct d'.
  - destruct (scalar_ok_tag _ _ Hv') as (? & ? & _). by destruct d.
  - right. exists d, l, l'. by destruct d, d'.
Qed.

Lemma CompareTo_total a b :
  pv_ordered a -> pv_ordered b -> ∃ z, CompareTo a b = Done z.
Proof.
  revert b. induction a as [t v|d l IH] using PrimitiveValue_nested_ind; intros b Ha Hb.
  - destruct (decide (type_of (mkPV t v) = type_of b)) as [E|Hne];
      [|destruct (CompareTo_tag _ _ Ha Hb Hne) as (z & ? & _); eauto].
    destruct (pv_ordered_same_type _ _ Ha Hb E) as [(t' & v' & w & ? & -> & ? & ? & ? & ?)
      |(? & ? & ? & ? & _)]; simplify_eq.
    rewrite CompareTo_same. destruct (decide (v' = w)) as [->|Hne].
    + exists 0. by apply scalar_compare_refl.
    + destruct (scalar_order t' v' w [] []) as (z & ? & _); eauto.
  - destruct (decide (type_of (mkFrozen d l) = type_of b)) as [E|Hne];
      [|destruct (CompareTo_tag _ _ Ha Hb Hne) as (z & ? & _); eauto].
    destruct (pv_ordered_same_type _ _ Ha Hb E) as [(? & ? & ? & ? & _)
      |(d' & l1 & l2 & ? & -> & O1 & _ & O2 & _)]; simplify_eq.
    destruct (CompareTo_frozen_group d' l1 l2) as (z & ? & _); [|eauto].
    rewrite Forall_forall in IH, O1, O2. auto.
Qed.

Lemma compare_elements_refl l :
  (∀ x, x ∈ l -> CompareTo x x = Done 0) -> compare_elements l l = Done 0.
Proof.
  induction l as [|x l IH]; intros Hr; [done|]. cbn [compare_elements].
  rewrite Hr by constructor. cbn. apply IH. intros. apply Hr. by constructor.
Qed.

Lemma CompareTo_refl a : pv_ordered a -> CompareTo a a = Done 0.
Proof.
  induction a as [t v|d l IH] using PrimitiveValue_nested_ind; intros Ha; inversion_clear Ha.
  - rewrite CompareTo_same. by apply scalar_compare_refl.
  - rewrite CompareTo_frozen, compare_elements_refl.
    + cbn. rewrite compare_using_refl by apply Z.ltb_irrefl. by destruct d.
    + rewrite Forall_forall in *. auto.
Qed.

(** The order is proved by induction on the nesting depth, with the group
    codec at each level. *)
Fixpoint depth (pv : PrimitiveValue) : nat :=
  match pv with
  | mkPV _ _ => 0%nat
  | mkFrozen _ l => S (list_max (depth <$> l))
  end.

Definition decode_pv (s : bytes) : Result (PrimitiveValue * bytes) :=
  match DecodeKey (D := D) (V := V) true s with Done r => r | _ => Error Corruption end.

Lemma DecodeKey_encoding out pv rest :
  pv_ok pv -> bytes_ok rest ->
  DecodeKey (D := D) (V := V) out (key_encoding pv ++ rest) = Done (Ok (out_value out pv, rest)).
Proof. intros. unfold DecodeKey. rewrite decode_key_encoding; [done..|]. rewrite length_app. lia. Qed.

Lemma depth_elements n d l : (depth (mkFrozen d l) < S n)%nat -> Forall (λ pv, (depth pv < n)%nat) l.
Proof.
  intros Hd. change (S (list_max (depth <$> l)) < S n)%nat in Hd. apply Nat.succ_lt_mono in Hd.
  induction l as [|pv l IH]; [done|].
  change (Nat.max (depth pv) (list_max (depth <$> l)) < n)%nat in Hd.
  constructor; [lia|]. apply IH. lia.
Qed.

Lemma frozen_order d valid
    (K : KeyCodec (λ pv, valid pv /\ inside_frozen d pv) pv_compare key_encoding decode_pv) l1 l2 r1 r2 :
  (∀ a, valid a /\ inside_frozen d a -> pv_compare a a = Eq) ->
  Forall (λ pv, valid pv /\ inside_frozen d pv) l1 ->
  Forall (λ pv, valid pv /\ inside_frozen d pv) l2 -> l1 ≠ l2 ->
  bytes_compare
    (group_encode (ValueTypeAsChar (frozen_end_marker d)) key_encoding l1 ++ r1)
    (group_encode (ValueTypeAsChar (frozen_end_marker d)) key_encoding l2 ++ r2) =
  group_compare (negb d) pv_compare l1 l2.
Proof.
  intros Hrefl. apply (group_order (K := K)); [done| |].
  - apply ValueTypeAsChar_byte.
  - intros a [_ Ha]. destruct (key_encoding_cons a) as [e ->]. do 2 eexists. split; [done|].
    by destruct d.
Qed.

Lemma pv_codec_depth n :
  KeyCodec (λ pv, pv_ordered pv /\ (depth pv < n)%nat) pv_compare key_encoding decode_pv.
Proof.
  induction n as [|n IH]; split; try (by intros; lia);
    try (intros a [Ha _]; by apply key_encoding_ok, pv_ordered_ok);
    try (intros a rest [Ha _] Hr; unfold decode_pv;
         by rewrite DecodeKey_encoding by (done || by apply pv_ordered_ok)).
  intros a b r1 r2 [Ha Da] [Hb Db] Hne.
  destruct (decide (type_of a = type_of b)) as [E|Ht].
  - destruct (pv_ordered_same_type _ _ Ha Hb E)
      as [(t & v & w & -> & -> & ? & ? & ? & ?)|(d & l1 & l2 & -> & -> & O1 & I1 & O2 & I2)].
    + destruct (scalar_order t v w r1 r2) as (z & Ez & E2); [done..|congruence|].
      unfold pv_compare. rewrite CompareTo_same, Ez. cbn [key_encoding app bytes_compare].
      by rewrite Z.compare_refl.
    + unfold pv_compare. destruct (CompareTo_frozen_group d l1 l2) as (z & -> & ->).
      { intros x y Hx Hy. rewrite Forall_forall in O1, O2. apply CompareTo_total; auto. }
      cbn [key_encoding app bytes_compare]. rewrite Z.compare_refl.
      apply depth_elements in Da, Db.
      apply (frozen_order d (λ pv, pv_ordered pv /\ (depth pv < n)%nat)
        (codec_weaken _ (λ a Ha, proj1 Ha)));
        [intros a [[Ha' _] _]; unfold pv_compare; by rewrite CompareTo_refl| | |congruence];
        rewrite Forall_forall in *; auto.
  - destruct (CompareTo_tag a b Ha Hb Ht) as (z & Ez & E2). unfold pv_compare. rewrite Ez, E2.
    destruct (key_encoding_cons a) as [ea ->], (key_encoding_cons b) as [eb ->].
    cbn [app bytes_compare].
    destruct (Z.compare_spec (ValueTypeAsChar (type_of a)) (ValueTypeAsChar (type_of b))) as [E| |];
      [|done..]. by apply ValueTypeAsChar_inj in E.
Qed.

#[export] Instance pv_codec : KeyCodec pv_ordered pv_compare key_encoding decode_pv.
Proof.
  split.
  - intros a Ha. by apply key_encoding_ok, pv_ordered_ok.
  - intros a rest Ha Hr. unfold decode_pv.
    by rewrite DecodeKey_encoding by (done || by apply pv_ordered_ok).
  - intros a b r1 r2 Ha Hb Hne.
    apply (kc_order (KeyCodec := pv_codec_depth (S (Nat.max (depth a) (depth b)))));
      [split; [done|lia]..|done].
Qed.

End keys.

(** ** Properties *)

(** C30: every primitive value that can be stored in a key (nested frozen
    values included) is appended to the key by [AppendToKey], and [DecodeKey]
    reads it back from the front of any slice, with and without an output. *)
Theorem primitive_value_key_roundtrip `{BoostUuid} {D V : Type}
    `{CD : ComparableNumber D} `{CV : ComparableNumber V} release pv kb rest :
  pv_ok (D := D) (V := V) pv -> bytes_ok rest ->
  ∃ enc, AppendToKey release pv kb = Done (kb ++ enc) /\ bytes_ok enc /\
    DecodeKey (D := D) (V := V) true (enc ++ rest) = Done (Ok (pv, rest)) /\
    DecodeKey (D := D) (V := V) false (enc ++ rest) = Done (Ok (mkPV kNull no_val, rest)).
Proof.
  intros Hok Hr. exists (key_encoding release pv).
  split; [by apply (AppendToKey_encoding (D := D) (V := V))|].
  split; [by apply (key_encoding_ok (D := D) (V := V))|].
  split; by rewrite (DecodeKey_encoding (D := D) (V := V)).
Qed.

(** A frozen tuple of an ascending string, a descending integer and a
    descending frozen tuple that holds a varint. *)
Definition pv_sample : PrimitiveValue :=
  mkFrozen false
    [pv_String [97; 0; 98] kAscending; pv_Int64 (-5) kDescending;
     mkFrozen true [pv_VarInt (VarInt_EncodeToComparable 0 (10 ^ 30)) kDescending]].

Lemma primitive_value_key_roundtrip_witness :
  ∃ enc, AppendToKey true pv_sample [71] = Done ([71] ++ enc) /\ bytes_ok enc /\
    DecodeKey (D := Z) (V := Z) true (enc ++ [33]) = Done (Ok (pv_sample, [33])) /\
    DecodeKey (D := Z) (V := Z) false (enc ++ [33]) = Done (Ok (mkPV kNull no_val, [33])).
Proof.
  apply (primitive_value_key_roundtrip (D := Z) (V := Z) true pv_sample [71] [33]).
  - repeat constructor; try (vm_compute; intuition discriminate). by exists (10 ^ 30).
  - repeat constructor; vm_compute; intuition discriminate.
Defined.

(** C29: two different primitive values (no NaN or negative zero, UUIDs of a
    known version, no transaction or table ids, and in frozen values only
    elements that sort after the end of the value) compare by [CompareTo] the way
    RocksDB compares the keys they are encoded in, whatever follows them; in
    particular [CompareTo] neither crashes nor calls them equal. *)
Theorem primitive_value_key_order `{BoostUuid} {D V : Type}
    `{CD : ComparableNumber D} `{CV : ComparableNumber V} release a b r1 r2 :
  pv_ordered (D := D) (V := V) a -> pv_ordered (D := D) (V := V) b -> a ≠ b ->
  ∃ ea eb z, AppendToKey release a [] = Done ea /\ AppendToKey release b [] = Done eb /\
    CompareTo a b = Done z /\ z ≠ 0 /\ bytes_compare (ea ++ r1) (eb ++ r2) = (z ?= 0).
Proof.
  intros Ha Hb Hne. destruct (CompareTo_total (D := D) (V := V) release a b Ha Hb) as [z Hz].
  exists (key_encoding release a), (key_encoding release b), z.
  split; [by rewrite (AppendToKey_encoding (D := D) (V := V)) by by apply pv_ordered_ok|].
  split; [by rewrite (AppendToKey_encoding (D := D) (V := V)) by by apply pv_ordered_ok|].
  split; [done|]. pose proof (pv_codec (D := D) (V := V) release) as K. split.
  - intros ->. apply (kc_cmp_neq (KeyCodec0 := K) a b Ha Hb Hne). unfold pv_compare. by rewrite Hz.
  - rewrite (kc_order (KeyCodec := K)) by done. unfold pv_compare. by rewrite Hz.
Qed.

Lemma primitive_value_key_order_witness :
  ∃ ea eb z, AppendToKey true pv_sample [] = Done ea /\
    AppendToKey true (mkFrozen false [pv_String [97] kAscending]) [] = Done eb /\
    CompareTo pv_sample (mkFrozen false [pv_String [97] kAscending]) = Done z /\ z ≠ 0 /\
    bytes_compare (ea ++ [1]) (eb ++ [2]) = (z ?= 0).
Proof.
  apply (primitive_value_key_order (D := Z) (V := Z) true pv_sample
    (mkFrozen false [pv_String [97] kAscending]) [1] [2]); [| |discriminate].
  - repeat constructor; try (vm_compute; intuition discriminate). by exists (10 ^ 30).
  - repeat constructor; vm_compute; intuition discriminate.
Defined.

(** A decoder that succeeds leaves less than it was given. *)
Definition consumes (slice : bytes) (r : Outcome (Result (PrimitiveValue * bytes))) : Prop :=
  ∀ pv rest, r = Done (Ok (pv, rest)) -> (length rest < length slice)%nat.

(** C31: [DecodeKey] terminates on every slice, malformed ones included: the
    recursion on nested frozen values and the loops over their elements end
    within a step for each byte of the slice, with the result that [DecodeKey]
    has for any larger number of steps; and a value that is decoded consumes at
    least a byte. *)
Theorem primitive_value_decode_terminates `{BoostUuid} {D V : Type}
    `{CD : ComparableNumber D} `{CV : ComparableNumber V} fuel out slice :
  (length slice < fuel)%nat ->
  decode_key (D := D) (V := V) fuel out slice = Some (DecodeKey (D := D) (V := V) out slice) /\
  consumes slice (DecodeKey (D := D) (V := V) out slice).
Proof.
  intros Hf. split; [by apply decode_key_enough|]. intros pv rest. apply DecodeKey_shrinks.
Qed.

(** Nested frozen values, and a group that does not end. *)
Lemma primitive_value_decode_terminates_witness :
  decode_key (D := Z) (V := Z) 1000 true [60; 60; 60; 33; 36; 33; 33; 5] =
  Some (Done (Ok (mkFrozen false [mkFrozen false [mkFrozen false []; mkPV kNull no_val]], [5]))) /\
  decode_key (D := Z) (V := Z) 1000 true [60; 60; 60; 36] = Some (Done (Error Corruption)) /\
  decode_key (D := Z) (V := Z) 2 true [60; 60; 60; 36] = None.
Proof.
  split; [|split; [|vm_compute; reflexivity]].
  - destruct (primitive_value_decode_terminates (D := Z) (V := Z) 1000 true
      [60; 60; 60; 33; 36; 33; 33; 5]) as [-> _]; [vm_compute; lia|]. vm_compute. reflexivity.
  - destruct (primitive_value_decode_terminates (D := Z) (V := Z) 1000 true
      [60; 60; 60; 36]) as [-> _]; [vm_compute; lia|]. vm_compute. reflexivity.
Defined.

(** Table ids are encoded like ascending UUIDs but [CompareTo] falls through
    to the comparison of descending ones. *)
Lemma table_id_order_mismatch :
  ∃ ea eb, AppendToKey true (pv_TableId time_uuid_sample) [] = Done ea /\
    AppendToKey true (pv_TableId random_uuid_sample) [] = Done eb /\
    bytes_compare ea eb = Lt /\
    CompareTo (pv_TableId time_uuid_sample) (pv_TableId random_uuid_sample) = Done 1.
Proof. do 2 eexists. repeat split; vm_compute; reflexivity. Qed.
