(* ===== verification/DocKey.v ===== *)
(** * Document keys ([src/yb/docdb/doc_key.cc], [doc_key.h])

    The keys of documents: an optional co-located table id, an optional hash
    with its group of hashed components, and a group of range components; the
    encoder, the decoders and the comparison. *)

From S2P Require Import Prelude KeyCodec FastVarInt DocKvUtil HybridTime DocHybridTime.
From S2P Require Import ValueType Intents KeyBytes Uuid PrimitiveValue VarInt PrimitiveValueKeys.
Local Open Scope Z_scope.

(** ** Data *)

Record DocKey : Type := mkDocKey {
  cotable_id_ : bytes;
  hash_present_ : bool;
  hash_ : Z;
  hashed_group_ : list PrimitiveValue;
  range_group_ : list PrimitiveValue
}.

#[export] Instance DocKey_eq_dec : EqDecision DocKey.
Proof. solve_decision. Defined.

Inductive DocKeyPart : Type := WHOLE_DOC_KEY | HASHED_PART_ONLY.

Definition nil_uuid : bytes := repeat 0 16.

Definition IsNil (u : bytes) : bool := forallb (Z.eqb 0) u.

(** [Clear]; the co-located table id stays. *)
Definition Clear (key : DocKey) : DocKey := mkDocKey (cotable_id_ key) false 0xdead [] [].

(** The constructors without a schema. The hash of a key without one is not
    initialised; it is never read. *)
Definition DocKey_range (range_components : list PrimitiveValue) : DocKey :=
  mkDocKey nil_uuid false 0xdead [] range_components.

Definition DocKey_hashed (hash : Z) (hashed_components range_components : list PrimitiveValue) : DocKey :=
  mkDocKey nil_uuid true hash hashed_components range_components.

Definition DocKey_empty (key : DocKey) : bool :=
  negb (hash_present_ key) && bool_decide (range_group_ key = []).

Definition ClearRangeComponents_key (key : DocKey) : DocKey :=
  mkDocKey (cotable_id_ key) (hash_present_ key) (hash_ key) (hashed_group_ key) [].

(** [range_group_.resize]: new elements are null. *)
Definition ResizeRangeComponents (key : DocKey) (new_size : nat) : DocKey :=
  mkDocKey (cotable_id_ key) (hash_present_ key) (hash_ key) (hashed_group_ key)
    (take new_size (range_group_ key) ++
     replicate (new_size - length (range_group_ key)) (mkPV kNull no_val)).

Definition AddRangeComponent (key : DocKey) (val : PrimitiveValue) : DocKey :=
  mkDocKey (cotable_id_ key) (hash_present_ key) (hash_ key) (hashed_group_ key)
    (range_group_ key ++ [val]).

(** [range_group_[idx] = val] *)
Definition SetRangeComponent (key : DocKey) (val : PrimitiveValue) (idx : nat) : Outcome DocKey :=
  if (idx <? length (range_group_ key))%nat then
    Done (mkDocKey (cotable_id_ key) (hash_present_ key) (hash_ key) (hashed_group_ key)
            (<[idx := val]> (range_group_ key)))
  else Undefined.

(** ** Encoding *)

Section encode.
Context (release : bool) `{BoostUuid}.

Fixpoint append_items (doc_key_items : list PrimitiveValue) (result : bytes) : Outcome bytes :=
  match doc_key_items with
  | [] => Done result
  | item :: rest => result ← AppendToKey release item result; append_items rest result
  end.

Definition AppendDocKeyItems (doc_key_items : list PrimitiveValue) (result : bytes) : Outcome bytes :=
  result ← append_items doc_key_items result;
  Done (AppendValueType kGroupEnd result).

(** [DocKeyEncoder::CotableId] *)
Definition append_cotable_id (cotable_id out : bytes) : bytes :=
  if negb (IsNil cotable_id)
  then AppendRawBytes (EncodeToComparable cotable_id) (AppendValueType kTableId out)
  else out.

(** [DocKeyEncoderAfterCotableIdStep::Hash] *)
Definition append_hash (hash_present : bool) (hash : Z) (hashed_group : list PrimitiveValue)
    (out : bytes) : Outcome bytes :=
  if hash_present then AppendDocKeyItems hashed_group (AppendUInt16 hash (AppendValueType kUInt16Hash out))
  else Done out.

Definition AppendTo (key : DocKey) (out : bytes) : Outcome bytes :=
  out ← append_hash (hash_present_ key) (hash_ key) (hashed_group_ key)
          (append_cotable_id (cotable_id_ key) out);
  AppendDocKeyItems (range_group_ key) out.

Definition Encode (key : DocKey) : Outcome bytes := AppendTo key [].

(** [FromRedisKey] and [EncodedFromRedisKey] *)
Definition FromRedisKey (hash : Z) (key : bytes) : DocKey :=
  DocKey_hashed hash [pv_String key kAscending] [].

Definition EncodedFromRedisKey (hash : Z) (key : bytes) : bytes :=
  AppendValueType kGroupEnd (AppendValueType kGroupEnd
    (AppendString key (AppendValueType kString (AppendUInt16 hash (AppendValueType kUInt16Hash []))))).

End encode.

(** ** Decoding *)

(** [IsPrimitiveValueType(static_cast<ValueType>(b))]: the range of the
    enumeration is tested on the byte, which need not name an enumerator. *)
Definition primitive_byte (b : Z) : bool :=
  (ValueTypeAsChar kMinPrimitiveValueType <=? b) && (b <=? ValueTypeAsChar kMaxPrimitiveValueType)
  && match DecodeValueType b with
     | Some t => negb (IsCollectionType t) && negb (is_one_of t [kTombstone])
     | None => true
     end.

Definition special_byte (b : Z) : bool :=
  (b =? ValueTypeAsChar kLowest) || (b =? ValueTypeAsChar kHighest).

(** Whether a component follows, and the slice, without the group end. *)
Definition HasPrimitiveValue (allow_special : bool) (slice : bytes) : Result (bool * bytes) :=
  match slice with
  | [] => Error Corruption
  | b :: rest =>
      if b =? ValueTypeAsChar kGroupEnd then Ok (false, rest)
      else if primitive_byte b then Ok (true, slice)
      else if allow_special && special_byte b then Ok (true, slice)
      else Error Corruption
  end.

Section decode.
Context `{BoostUuid} {D V : Type} `{ComparableNumber D} `{ComparableNumber V}.

(** The template [ConsumePrimitiveValuesFromKey], for the callback that
    consumes one value. *)
Fixpoint consume_values {A : Type} (callback : bytes -> Outcome (Result (A * bytes)))
    (allow_special : bool) (fuel : nat) (slice : bytes) (result : list A)
    : Outcome (Result (list A * bytes)) :=
  match fuel with
  | O => Done (Error Incomplete)
  | S fuel' =>
      '(more, slice) ⇐ Done (HasPrimitiveValue allow_special slice);
      if (more : bool) then
        '(a, slice) ⇐ callback slice;
        consume_values callback allow_special fuel' slice (result ++ [a])
      else Done (Ok (result, slice))
  end.

Definition ConsumePrimitiveValuesFromKey {A : Type} (callback : bytes -> Outcome (Result (A * bytes)))
    (allow_special : bool) (slice : bytes) : Outcome (Result (list A * bytes)) :=
  consume_values callback allow_special (S (length slice)) slice [].

(** The callbacks: the value itself, or the bytes of it. *)
Definition decode_value : bytes -> Outcome (Result (PrimitiveValue * bytes)) :=
  DecodeKey (D := D) (V := V) true.

Definition decode_slice (slice : bytes) : Outcome (Result (bytes * bytes)) :=
  '(_, rest) ⇐ DecodeKey (D := D) (V := V) false slice;
  Done (Ok (take (length slice - length rest) slice, rest)).

(** One component; [false] at the group end, which is consumed. *)
Definition ConsumePrimitiveValueFromKey (slice : bytes) : Outcome (Result (bool * bytes)) :=
  '(more, slice) ⇐ Done (HasPrimitiveValue false slice);
  if (more : bool) then
    '(_, slice) ⇐ DecodeKey (D := D) (V := V) false slice; Done (Ok (true, slice))
  else Done (Ok (false, slice)).

(** [DocKeyDecoder::DecodeCotableId], with an output. *)
Definition DecodeCotableId (input : bytes) : Result (option bytes * bytes) :=
  match input with
  | b :: rest =>
      if negb (b =? ValueTypeAsChar kTableId) then Ok (None, input)
      else if (length rest <? kUuidSize)%nat then Error Corruption
      else uuid ← DecodeFromComparableSlice (take kUuidSize rest) 0; Ok (Some uuid, drop kUuidSize rest)
  | [] => Ok (None, [])
  end.

(** [DocKeyDecoder::DecodeHashCode] *)
Definition DecodeHashCode (allow_special : bool) (input : bytes) : Result (option Z * bytes) :=
  match input with
  | [] => Ok (None, [])
  | b :: rest =>
      let good_value_type := primitive_byte b || (allow_special && special_byte b) in
      if negb good_value_type && negb (b =? ValueTypeAsChar kGroupEnd) then Error Corruption
      else if negb (b =? ValueTypeAsChar kUInt16Hash) then Ok (None, input)
      else if (length input <? 3)%nat then Error Corruption
      else Ok (Some (Load16 (take 2 rest)), drop 2 rest)
  end.

(** [DocKey::DoDecode]: what the callback receives, and the rest. *)
Record decoded {A B : Type} : Type := mkDecoded {
  d_cotable_id : option bytes;
  d_hash : option Z;
  d_hashed_group : list A;
  d_range_group : list B;
  d_range_start : nat;       (* bytes before the range group *)
  d_rest : bytes
}.
#[global] Arguments decoded : clear implicits.

Definition DoDecode {A B : Type} (hashed : bytes -> Outcome (Result (A * bytes)))
    (range : bytes -> Outcome (Result (B * bytes))) (part_to_decode : DocKeyPart)
    (allow_special : bool) (slice : bytes) : Outcome (Result (decoded A B)) :=
  '(cotable_id, input) ⇐ Done (DecodeCotableId slice);
  '(hash, input) ⇐ Done (DecodeHashCode allow_special input);
  '(hashed_group, input) ⇐
    match hash with
    | Some _ => ConsumePrimitiveValuesFromKey hashed allow_special input
    | None => Done (Ok ([], input))
    end;
  let start := (length slice - length input)%nat in
  match part_to_decode with
  | HASHED_PART_ONLY => Done (Ok (mkDecoded _ _ cotable_id hash hashed_group [] start input))
  | WHOLE_DOC_KEY =>
      if decide (input = []) then Done (Ok (mkDecoded _ _ cotable_id hash hashed_group [] start []))
      else
        '(range_group, input) ⇐ ConsumePrimitiveValuesFromKey range allow_special input;
        Done (Ok (mkDecoded _ _ cotable_id hash hashed_group range_group start input))
  end.

(** [DecodeFrom] into the object [key]; the bytes left. *)
Definition DocKey_DecodeFrom (key : DocKey) (part_to_decode : DocKeyPart) (allow_special : bool)
    (slice : bytes) : Outcome (Result (DocKey * bytes)) :=
  let key := Clear key in
  d ⇐ DoDecode decode_value decode_value part_to_decode allow_special slice;
  Done (Ok (mkDocKey (default (cotable_id_ key) (d_cotable_id d))
              (if d_hash d is Some _ then true else false)
              (default (hash_ key) (d_hash d)) (d_hashed_group d) (d_range_group d), d_rest d)).

Definition DocKey_FullyDecodeFrom (key : DocKey) (slice : bytes) : Outcome (Result DocKey) :=
  match DocKey_DecodeFrom key WHOLE_DOC_KEY false slice with
  | Done (Ok (key, [])) => Done (Ok key)
  | Done (Ok (_, _ :: _)) => Done (Error InvalidArgument)
  | Done (Error c) => Done (Error (match slice with [] => c | _ :: _ => InvalidArgument end))
  | Fatal => Fatal
  | Undefined => Undefined
  end.

(** [DocKey::PartiallyDecode]: the slices of the range group and the rest. *)
Definition DocKey_PartiallyDecode (slice : bytes) : Outcome (Result (list bytes * bytes)) :=
  d ⇐ DoDecode decode_slice decode_slice WHOLE_DOC_KEY false slice;
  Done (Ok (d_range_group d, d_rest d)).

Definition EncodedSize (part : DocKeyPart) (allow_special : bool) (slice : bytes)
    : Outcome (Result nat) :=
  d ⇐ DoDecode decode_slice decode_slice part allow_special slice;
  Done (Ok (length slice - length (d_rest d))%nat).

(** [HashedComponentsExtractor::Transform]: the part of a key its Bloom filter
    is built from; a malformed key is fatal. *)
Definition Transform (key : bytes) : Outcome bytes :=
  match EncodedSize HASHED_PART_ONLY false key with
  | Done (Ok size) => Done (take size key)
  | Done (Error _) => Fatal
  | Fatal => Fatal
  | Undefined => Undefined
  end.

(** The size of the part before the range group and of the whole key. When
    there is no range group to decode, the start is a null pointer and the
    difference is undefined. *)
Definition EncodedSizes (allow_special : bool) (slice : bytes) : Outcome (Result (nat * nat)) :=
  d ⇐ DoDecode decode_slice decode_slice WHOLE_DOC_KEY allow_special slice;
  if (d_range_start d =? length slice)%nat then Undefined
  else Done (Ok (d_range_start d, length slice - length (d_rest d))%nat).

(** The hash of a key without one is an uninitialised variable. *)
Definition DecodeHash (slice : bytes) : Outcome (Result Z) :=
  '(_, input) ⇐ Done (DecodeCotableId slice);
  '(hash, _) ⇐ Done (DecodeHashCode false input);
  match hash with Some h => Done (Ok h) | None => Undefined end.

(** *** Stepwise decoding ([DocKeyDecoder]) *)

(** Two comparisons with different tags, both required, never hold. *)
Definition DecodePrimitiveValue (allow_special : bool) (input : bytes)
    : Outcome (Result (PrimitiveValue * bytes)) :=
  match input with
  | b :: rest =>
      if allow_special && ((b =? ValueTypeAsChar kLowest) && (b =? ValueTypeAsChar kHighest))
      then Done (Ok (mkPV kNull no_val, rest))
      else DecodeKey (D := D) (V := V) false input
  | [] => DecodeKey (D := D) (V := V) false input
  end.

Definition ConsumeGroupEnd (input : bytes) : Result bytes :=
  match input with
  | b :: rest => if b =? ValueTypeAsChar kGroupEnd then Ok rest else Error Corruption
  | [] => Error Corruption
  end.

Definition GroupEnded (input : bytes) : bool :=
  match input with b :: _ => b =? ValueTypeAsChar kGroupEnd | [] => true end.

Definition DecodeToRangeGroup (input : bytes) : Outcome (Result bytes) :=
  '(_, input) ⇐ Done (DecodeCotableId input);
  '(hash, input) ⇐ Done (DecodeHashCode false input);
  match hash with
  | Some _ =>
      '(_, input) ⇐ ConsumePrimitiveValuesFromKey (DecodePrimitiveValue false) false input;
      Done (Ok input)
  | None => Done (Ok input)
  end.

(** [ClearRangeComponents] of an encoded key; whether it changed the key. *)
Definition ClearRangeComponents (allow_special : bool) (str : bytes) : Outcome (Result (bool * bytes)) :=
  prefix_size ⇐ EncodedSize HASHED_PART_ONLY allow_special str;
  let group_end := ValueTypeAsChar kGroupEnd in
  if (length str =? prefix_size + 1)%nat && bool_decide (str !! prefix_size = Some group_end)
  then Done (Ok (false, str))
  else if (prefix_size <? length str)%nat then Done (Ok (true, take prefix_size str ++ [group_end]))
  else Done (Ok (true, str ++ [group_end])).

(** The loop of [HashedComponentsEqual] on encoded keys. *)
Fixpoint equal_components (fuel : nat) (lhs rhs : bytes) : Outcome (Result bool) :=
  match fuel with
  | O => Done (Error Incomplete)
  | S fuel' =>
      if GroupEnded lhs then Done (Ok (GroupEnded rhs))
      else if GroupEnded rhs || negb (bool_decide (head rhs = head lhs)) then Done (Ok false)
      else if negb (primitive_byte (default 0 (head lhs)) || special_byte (default 0 (head lhs)))
      then Done (Ok false)
      else
        '(_, lhs') ⇐ DecodePrimitiveValue true lhs;
        '(_, rhs') ⇐ DecodePrimitiveValue true rhs;
        let consumed := (length lhs - length lhs')%nat in
        if negb (consumed =? length rhs - length rhs')%nat
           || negb (bool_decide (take consumed lhs = take consumed rhs))
        then Done (Ok false)
        else equal_components fuel' lhs' rhs'
  end.

Definition HashedComponentsEqual (lhs rhs : bytes) : Outcome (Result bool) :=
  '(_, l) ⇐ Done (DecodeCotableId lhs);
  '(_, r) ⇐ Done (DecodeCotableId rhs);
  '(hash, l) ⇐ Done (DecodeHashCode true l);
  '(_, r) ⇐ Done (DecodeHashCode true r);
  let consumed := (length lhs - length l)%nat in
  if negb (consumed =? length rhs - length r)%nat
     || negb (bool_decide (take consumed lhs = take consumed rhs)) then Done (Ok false)
  else
    match hash with
    | None => Done (Ok true)
    | Some _ => equal_components (S (length l)) l r
    end.

(** [DocKeyBelongsTo], for the co-located table id of the schema. *)
Definition DocKeyBelongsTo (doc_key cotable_id : bytes) : bool :=
  let has_table_id := bool_decide (head doc_key = Some (ValueTypeAsChar kTableId)) in
  if IsNil cotable_id then negb has_table_id
  else if negb has_table_id then false
  else starts_with (drop 1 doc_key) (EncodeToComparable cotable_id).

End decode.

(** ** Equality and comparison *)

(** [operator==] of two [std::vector<PrimitiveValue>]. *)
Fixpoint all_eq (a b : list PrimitiveValue) : Outcome bool :=
  match a, b with
  | x :: a', y :: b' => e ← pv_eq x y; if (e : bool) then all_eq a' b' else Done false
  | _, _ => Done true
  end.

Definition vector_eq (a b : list PrimitiveValue) : Outcome bool :=
  if negb (length a =? length b)%nat then Done false else all_eq a b.

(** [DocKey::HashedComponentsEqual] *)
Definition hashed_components_eq (a b : DocKey) : Outcome bool :=
  if negb (eqb (hash_present_ a) (hash_present_ b)) then Done false
  else if negb (hash_present_ a) then Done true
  else if negb (hash_ a =? hash_ b) then Done false
  else vector_eq (hashed_group_ a) (hashed_group_ b).

Definition DocKey_eq (a b : DocKey) : Outcome bool :=
  if negb (bool_decide (cotable_id_ a = cotable_id_ b)) then Done false
  else
    e ← hashed_components_eq a b;
    if (e : bool) then vector_eq (range_group_ a) (range_group_ b) else Done false.

(** [CompareVectors] of [util/compare_util.h] *)
Fixpoint CompareVectors `{BoostUuid} (a b : list PrimitiveValue) : Outcome Z :=
  match a, b with
  | [], [] => Done 0
  | [], _ :: _ => Done (-1)
  | _ :: _, [] => Done 1
  | x :: a', y :: b' =>
      result ← CompareTo x y; if negb (result =? 0) then Done result else CompareVectors a' b'
  end.

(** [CompareTo]; a debug build dies when one key has a hash and the other
    has none. *)
Definition DocKey_CompareTo (release : bool) `{BoostUuid} (a b : DocKey) : Outcome Z :=
  let result := compare_using uuid_lt (cotable_id_ a) (cotable_id_ b) in
  if negb (result =? 0) then Done result
  else
    _ ← (if release then Done tt else CHECK (eqb (hash_present_ a) (hash_present_ b)));
    let result := if hash_present_ a then compare_using Z.ltb (hash_ a) (hash_ b) else 0 in
    if negb (result =? 0) then Done result
    else
      result ← CompareVectors (hashed_group_ a) (hashed_group_ b);
      if negb (result =? 0) then Done result else CompareVectors (range_group_ a) (range_group_ b).

(** ** Lemmas *)

Section keys.
Context `{BoostUuid} {D V : Type} `{CD : ComparableNumber D} `{CV : ComparableNumber V}.
Context (release : bool).

Abbreviation pv_enc := (key_encoding release).
Abbreviation group_enc := (group_encode (ValueTypeAsChar kGroupEnd) pv_enc).

(** A component of a stored key. *)
Definition component_ok (pv : PrimitiveValue) : Prop :=
  pv_ok (D := D) (V := V) pv /\ primitive_byte (ValueTypeAsChar (type_of pv)) = true.

Definition cotable_encoding (u : bytes) : bytes :=
  if IsNil u then [] else ValueTypeAsChar kTableId :: EncodeToComparable u.

Definition hash_encoding (key : DocKey) : bytes :=
  if hash_present_ key then ValueTypeAsChar kUInt16Hash :: be_bytes 2 (hash_ key) ++ group_enc (hashed_group_ key)
  else [].

Definition dockey_encoding (key : DocKey) : bytes :=
  cotable_encoding (cotable_id_ key) ++ hash_encoding key ++ group_enc (range_group_ key).

(** Keys that are read back as they were written: without a hash the first
    range component is not taken for one, nor for a table id. *)
Record dockey_ok (key : DocKey) : Prop := {
  dk_cotable : uuid_ok (cotable_id_ key);
  dk_hash : if hash_present_ key then is_u 16 (hash_ key)
            else hash_ key = 0xdead /\ hashed_group_ key = [];
  dk_hashed : Forall component_ok (hashed_group_ key);
  dk_range : Forall component_ok (range_group_ key);
  dk_first : hash_present_ key = false -> ∀ pv, head (range_group_ key) = Some pv ->
    type_of pv ≠ kUInt16Hash /\ (IsNil (cotable_id_ key) = true -> type_of pv ≠ kTableId)
}.

Lemma append_items_encoding l out :
  Forall (pv_ok (D := D) (V := V)) l -> append_items release l out = Done (out ++ concat (pv_enc <$> l)).
Proof.
  intros Hl. revert out. induction Hl as [|pv l Hpv _ IH]; intros out; cbn [append_items].
  - cbn. by rewrite app_nil_r.
  - rewrite (AppendToKey_encoding (D := D) (V := V)) by done. cbn [mbind outcome_bind].
    rewrite IH. cbn [fmap list_fmap concat]. by rewrite <- app_assoc.
Qed.

Lemma AppendDocKeyItems_encoding l out :
  Forall component_ok l -> AppendDocKeyItems release l out = Done (out ++ group_enc l).
Proof.
  intros Hl. unfold AppendDocKeyItems.
  rewrite append_items_encoding by (eapply Forall_impl; [exact Hl|]; by intros ? []).
  unfold AppendValueType, group_encode. cbn [mbind outcome_bind]. by rewrite <- app_assoc.
Qed.

Lemma AppendUInt16_be h out : is_u 16 h -> AppendUInt16 h out = out ++ be_bytes 2 h.
Proof. intros Hh. unfold AppendUInt16, AppendUInt16ToKey, u16. by rewrite wrap_small. Qed.

Lemma AppendTo_encoding key out :
  dockey_ok key -> AppendTo release key out = Done (out ++ dockey_encoding key).
Proof.
  intros []. unfold AppendTo, append_hash, append_cotable_id, dockey_encoding, cotable_encoding, hash_encoding.
  assert ((if negb (IsNil (cotable_id_ key))
    then AppendRawBytes (EncodeToComparable (cotable_id_ key)) (AppendValueType kTableId out) else out) =
    out ++ (if IsNil (cotable_id_ key) then [] else ValueTypeAsChar kTableId :: EncodeToComparable (cotable_id_ key)))
    as ->.
  { destruct (IsNil _); cbn [negb]; [by rewrite app_nil_r|].
    unfold AppendRawBytes, AppendValueType. by rewrite <- app_assoc. }
  destruct (hash_present_ key).
  - unfold AppendValueType. rewrite AppendUInt16_be, AppendDocKeyItems_encoding by done.
    cbn [mbind outcome_bind]. rewrite AppendDocKeyItems_encoding by done. f_equal.
    rewrite <- !app_assoc. cbn [app]. by rewrite <- !app_assoc.
  - cbn [mbind outcome_bind]. rewrite AppendDocKeyItems_encoding by done. f_equal.
    by rewrite <- !app_assoc.
Qed.

Lemma group_enc_ok l : Forall component_ok l -> bytes_ok (group_enc l).
Proof.
  intros Hl. unfold group_encode. apply Forall_app. split; [|apply Forall_singleton, ValueTypeAsChar_byte].
  apply Forall_concat, Forall_fmap. eapply Forall_impl; [exact Hl|].
  intros pv [Hpv _]. by apply (key_encoding_ok (D := D) (V := V)).
Qed.

Lemma dockey_encoding_ok key : dockey_ok key -> bytes_ok (dockey_encoding key).
Proof.
  intros []. unfold dockey_encoding, cotable_encoding, hash_encoding. apply Forall_app. split.
  - destruct (IsNil _); constructor; [apply ValueTypeAsChar_byte|by apply EncodeToComparable_ok].
  - apply Forall_app. split; [|by apply group_enc_ok]. destruct (hash_present_ key); constructor;
      [apply ValueTypeAsChar_byte|apply Forall_app; split; [apply be_bytes_ok|by apply group_enc_ok]].
Qed.

(** *** Groups *)

Lemma primitive_not_end t : primitive_byte (ValueTypeAsChar t) = true -> ValueTypeAsChar kGroupEnd < ValueTypeAsChar t.
Proof. by destruct t. Qed.

(** A callback that consumes the encoding of a component. *)
Definition consumes_component {A} (callback : bytes -> Outcome (Result (A * bytes)))
    (f : PrimitiveValue -> A) : Prop :=
  ∀ pv rest, component_ok pv -> bytes_ok rest -> callback (pv_enc pv ++ rest) = Done (Ok (f pv, rest)).

Lemma consume_values_group {A} callback (f : PrimitiveValue -> A) allow l rest fuel acc :
  consumes_component callback f -> Forall component_ok l -> bytes_ok rest -> (length l < fuel)%nat ->
  consume_values callback allow fuel (group_enc l ++ rest) acc = Done (Ok (acc ++ (f <$> l), rest)).
Proof.
  intros Hcb Hl Hr. revert fuel acc.
  induction Hl as [|pv l Hpv Hl IH]; intros [|fuel] acc Hf; try (simpl in Hf; lia).
  { simpl. by rewrite app_nil_r. }
  rewrite group_encode_cons, <- app_assoc. destruct (key_encoding_cons release pv) as [e Ee].
  pose proof (proj2 Hpv) as Hb. pose proof (primitive_not_end _ Hb) as Hne.
  cbn [consume_values]. rewrite Ee. cbn [app HasPrimitiveValue].
  rewrite (proj2 (Z.eqb_neq _ _)) by lia. rewrite Hb. cbn [or_bind].
  rewrite app_comm_cons, <- Ee, Hcb; [|done|apply Forall_app; split; [by apply group_enc_ok|done]].
  cbn [or_bind]. rewrite IH by (done || simpl in Hf; lia). by rewrite <- app_assoc.
Qed.

Lemma ConsumePrimitiveValues_group {A} callback (f : PrimitiveValue -> A) allow l rest :
  consumes_component callback f -> Forall component_ok l -> bytes_ok rest ->
  ConsumePrimitiveValuesFromKey callback allow (group_enc l ++ rest) = Done (Ok (f <$> l, rest)).
Proof.
  intros Hcb Hl Hr. unfold ConsumePrimitiveValuesFromKey.
  rewrite (consume_values_group callback f); [done..|]. rewrite length_app.
  destruct (group_encode_length release (ValueTypeAsChar kGroupEnd) l) as [Hlen _]. lia.
Qed.

Lemma decode_value_consumes : consumes_component (decode_value (D := D) (V := V)) id.
Proof. intros pv rest [Hpv _] Hr. unfold decode_value. by rewrite (DecodeKey_encoding (D := D) (V := V)). Qed.

Lemma decode_slice_consumes : consumes_component (decode_slice (D := D) (V := V)) pv_enc.
Proof.
  intros pv rest [Hpv _] Hr. unfold decode_slice. rewrite (DecodeKey_encoding (D := D) (V := V)) by done.
  cbn [or_bind]. rewrite length_app, Nat.add_sub, take_app_length. done.
Qed.

(** *** The decoder reads what the encoder writes *)

Lemma group_enc_cons l : ∃ b tl, group_enc l = b :: tl /\
  match l with pv :: _ => b = ValueTypeAsChar (type_of pv) | [] => b = ValueTypeAsChar kGroupEnd end.
Proof.
  destruct l as [|pv l]; [by do 2 eexists|]. rewrite group_encode_cons.
  destruct (key_encoding_cons release pv) as [e ->]. by do 2 eexists.
Qed.

Lemma DecodeCotableId_encoding u rest :
  uuid_ok u -> (IsNil u = true -> head rest ≠ Some (ValueTypeAsChar kTableId)) ->
  DecodeCotableId (cotable_encoding u ++ rest) = Ok (if IsNil u then None else Some u, rest).
Proof.
  intros Hu Hnil. unfold cotable_encoding. destruct (IsNil u).
  - cbn [app]. unfold DecodeCotableId. destruct rest as [|b rest]; [done|].
    rewrite (proj2 (Z.eqb_neq _ _)); [done|]. intros ->. by apply Hnil.
  - cbn [app DecodeCotableId]. rewrite Z.eqb_refl. cbn [negb].
    pose proof (EncodeToComparable_length u Hu) as Hl.
    rewrite length_app, Hl. change (16 + length rest <? kUuidSize)%nat with (16 + length rest <? 16)%nat.
    rewrite (proj2 (Nat.ltb_ge _ _)) by lia. change kUuidSize with 16%nat.
    rewrite <- Hl, take_app_length, drop_app_length. pose proof (uuid_comparable_roundtrip u Hu) as E.
    unfold DecodeFromComparable in E. by rewrite E.
Qed.

Lemma Load16_take h rest : is_u 16 h -> Load16 (take 2 (be_bytes 2 h ++ rest)) = h.
Proof. intros Hh. change 2%nat with (length (be_bytes 2 h)) at 1. rewrite take_app_length. by apply Load16_be. Qed.

Lemma DecodeHashCode_hash allow h rest :
  is_u 16 h ->
  DecodeHashCode allow (ValueTypeAsChar kUInt16Hash :: be_bytes 2 h ++ rest) = Ok (Some h, rest).
Proof.
  intros Hh. unfold DecodeHashCode. change (primitive_byte (ValueTypeAsChar kUInt16Hash)) with true.
  cbn [orb negb andb]. rewrite Z.eqb_refl. cbn [negb]. rewrite Load16_take by done. done.
Qed.

Lemma DecodeHashCode_group allow l rest :
  Forall component_ok l -> (∀ pv, head l = Some pv -> type_of pv ≠ kUInt16Hash) ->
  DecodeHashCode allow (group_enc l ++ rest) = Ok (None, group_enc l ++ rest).
Proof.
  intros Hl Hne. destruct (group_enc_cons l) as (b & tl & -> & Hb). cbn [app DecodeHashCode].
  destruct l as [|pv l]; subst b.
  - change (primitive_byte (ValueTypeAsChar kGroupEnd)) with false. cbn [orb]. rewrite Z.eqb_refl.
    by rewrite andb_false_r.
  - apply Forall_cons in Hl as [[_ Hp] _]. rewrite Hp. cbn [orb negb andb].
    rewrite (proj2 (Z.eqb_neq _ _)); [done|]. intros E%ValueTypeAsChar_inj. by apply (Hne pv).
Qed.

(** The bytes before the range group. *)
Definition hashed_part (key : DocKey) : bytes := cotable_encoding (cotable_id_ key) ++ hash_encoding key.

Lemma dockey_encoding_parts key : dockey_encoding key = hashed_part key ++ group_enc (range_group_ key).
Proof. unfold dockey_encoding, hashed_part. by rewrite <- app_assoc. Qed.

Lemma decode_cotable_part key rest :
  dockey_ok key ->
  DecodeCotableId (hashed_part key ++ group_enc (range_group_ key) ++ rest) =
  Ok (if IsNil (cotable_id_ key) then None else Some (cotable_id_ key),
      hash_encoding key ++ group_enc (range_group_ key) ++ rest).
Proof.
  intros []. unfold hashed_part. rewrite <- app_assoc. apply DecodeCotableId_encoding; [done|].
  intros Hn. unfold hash_encoding. destruct (hash_present_ key) eqn:Hh; [done|]. cbn [app].
  destruct (group_enc_cons (range_group_ key)) as (b & tl & E & Hb). rewrite E. cbn [app head].
  destruct (range_group_ key) as [|pv l]; [by subst b|]. subst b. intros [= E']. apply (ValueTypeAsChar_inj _ kTableId) in E'.
  by apply (proj2 (dk_first0 eq_refl pv eq_refl) Hn).
Qed.

Lemma decode_hash_part {A} hashed (f : PrimitiveValue -> A) allow key rest :
  consumes_component hashed f -> dockey_ok key -> bytes_ok rest ->
  ∃ input, DecodeHashCode allow (hash_encoding key ++ group_enc (range_group_ key) ++ rest) =
      Ok (if hash_present_ key then Some (hash_ key) else None, input) /\
    (if hash_present_ key then ConsumePrimitiveValuesFromKey hashed allow input else Done (Ok ([], input))) =
      Done (Ok (f <$> hashed_group_ key, group_enc (range_group_ key) ++ rest)).
Proof.
  intros Hf [] Hr. unfold hash_encoding. destruct (hash_present_ key) eqn:Hh; eexists; split.
  - cbn [app]. rewrite <- app_assoc. by apply DecodeHashCode_hash.
  - apply ConsumePrimitiveValues_group; [done..|]. apply Forall_app. split; [by apply group_enc_ok|done].
  - cbn [app]. apply DecodeHashCode_group; [done|]. intros pv Hpv. by apply (dk_first0 eq_refl).
  - by rewrite (proj2 dk_hash0).
Qed.

Lemma DoDecode_encoding {A B} hashed range (f : PrimitiveValue -> A) (g : PrimitiveValue -> B)
    part allow key rest :
  consumes_component hashed f -> consumes_component range g -> dockey_ok key -> bytes_ok rest ->
  DoDecode hashed range part allow (dockey_encoding key ++ rest) =
  Done (Ok (mkDecoded _ _ (if IsNil (cotable_id_ key) then None else Some (cotable_id_ key))
    (if hash_present_ key then Some (hash_ key) else None) (f <$> hashed_group_ key)
    (match part with WHOLE_DOC_KEY => g <$> range_group_ key | HASHED_PART_ONLY => [] end)
    (length (hashed_part key))
    (match part with WHOLE_DOC_KEY => rest | HASHED_PART_ONLY => group_enc (range_group_ key) ++ rest end))).
Proof.
  intros Hf Hg Hok Hr. unfold DoDecode. rewrite dockey_encoding_parts, <- app_assoc.
  rewrite decode_cotable_part by done. cbn [or_bind].
  destruct (decode_hash_part hashed f allow key rest Hf Hok Hr) as (input & -> & E). cbn [or_bind].
  assert ((length (hashed_part key ++ group_enc (range_group_ key) ++ rest)
    - length (group_enc (range_group_ key) ++ rest) = length (hashed_part key))%nat) as Hlen
    by (rewrite !length_app; lia).
  assert (group_enc (range_group_ key) ++ rest ≠ []) as Hne
    by (destruct (group_enc_cons (range_group_ key)) as (b & tl & -> & _); done).
  destruct (hash_present_ key); rewrite E; cbn [or_bind]; rewrite Hlen; (destruct part; [|done]);
    rewrite decide_False, (ConsumePrimitiveValues_group range g) by (done || apply Hok); done.
Qed.

(** *** Order *)

Record dockey_ordered (key : DocKey) : Prop := {
  do_ok : dockey_ok key;
  do_version : version_ok (cotable_id_ key);
  do_hashed : Forall (pv_ordered (D := D) (V := V)) (hashed_group_ key);
  do_range : Forall (pv_ordered (D := D) (V := V)) (range_group_ key)
}.

(** A component above the byte that ends its group. *)
Definition marked_ordered (end_marker : Z) (pv : PrimitiveValue) : Prop :=
  pv_ordered (D := D) (V := V) pv /\ end_marker < ValueTypeAsChar (type_of pv).

Abbreviation component_ordered := (marked_ordered (ValueTypeAsChar kGroupEnd)).

Lemma components_ordered l :
  Forall component_ok l -> Forall (pv_ordered (D := D) (V := V)) l -> Forall component_ordered l.
Proof.
  rewrite !Forall_forall. intros H1 H2 x Hx. split; [by apply H2|]. by apply primitive_not_end, H1.
Qed.

#[local] Instance marked_codec end_marker :
  KeyCodec (marked_ordered end_marker) pv_compare pv_enc (decode_pv (D := D) (V := V)).
Proof. apply (codec_weaken (KeyCodec0 := pv_codec (D := D) (V := V) release)). by intros a []. Qed.

Lemma marked_compare_refl end_marker a : marked_ordered end_marker a -> pv_compare a a = Eq.
Proof. intros [Ha _]. unfold pv_compare. by rewrite (CompareTo_refl (D := D) (V := V)). Qed.

Lemma CompareVectors_group l1 l2 :
  Forall (pv_ordered (D := D) (V := V)) l1 -> Forall (pv_ordered (D := D) (V := V)) l2 ->
  ∃ z, CompareVectors l1 l2 = Done z /\ (z ?= 0) = group_compare true pv_compare l1 l2.
Proof.
  intros H1. revert l2. induction H1 as [|x l1 Hx _ IH]; intros [|y l2] H2; [by eexists..|].
  apply Forall_cons in H2 as [Hy H2]. cbn [CompareVectors group_compare]. unfold pv_compare at 1.
  destruct (CompareTo_total (D := D) (V := V) release x y Hx Hy) as [z ->]. cbn [mbind outcome_bind].
  destruct (Z.eqb_spec z 0) as [->|Hz]; cbn [negb]; [by apply IH|].
  exists z. split; [done|]. by destruct (Z.compare_spec z 0).
Qed.

Lemma CompareVectors_order end_marker l1 l2 r1 r2 :
  byte_ok end_marker ->
  Forall (marked_ordered end_marker) l1 -> Forall (marked_ordered end_marker) l2 -> l1 ≠ l2 ->
  ∃ z, CompareVectors l1 l2 = Done z /\ z ≠ 0 /\
    bytes_compare (group_encode end_marker pv_enc l1 ++ r1) (group_encode end_marker pv_enc l2 ++ r2) = (z ?= 0).
Proof.
  intros Hm H1 H2 Hne. destruct (CompareVectors_group l1 l2) as (z & Ez & Hz);
    [eapply Forall_impl; [done|]; by intros ? []..|].
  exists z. split; [done|].
  pose proof (group_compare_neq (K := marked_codec end_marker) true (marked_compare_refl end_marker) l1 l2 H1 H2 Hne).
  split; [by intros ->|]. rewrite Hz.
  apply (group_order (K := marked_codec end_marker) true); [apply marked_compare_refl|done| |done..].
  intros a [_ Hb]. destruct (key_encoding_cons release a) as [e ->]. by do 2 eexists.
Qed.

Lemma CompareVectors_refl l : Forall (pv_ordered (D := D) (V := V)) l -> CompareVectors l l = Done 0.
Proof.
  induction 1 as [|x l Hx _ IH]; [done|]. cbn [CompareVectors].
  by rewrite (CompareTo_refl (D := D) (V := V)).
Qed.

(** Keys of one table: both have a table id or none, both a hash or none. *)
Definition same_shape (a b : DocKey) : Prop :=
  IsNil (cotable_id_ a) = IsNil (cotable_id_ b) /\ hash_present_ a = hash_present_ b.

Lemma IsNil_eq u : uuid_ok u -> IsNil u = true -> u = nil_uuid.
Proof.
  intros [Hl _] Hn. unfold nil_uuid. rewrite <- Hl. clear Hl. induction u as [|b u IH]; [done|].
  cbn [IsNil forallb] in Hn. apply andb_prop in Hn as [<-%Z.eqb_eq Hn]. simpl. f_equal. by apply IH.
Qed.

(** Different ids decide the order. *)
Lemma cotable_order a b r1 r2 :
  dockey_ordered a -> dockey_ordered b -> same_shape a b -> cotable_id_ a ≠ cotable_id_ b ->
  compare_using uuid_lt (cotable_id_ a) (cotable_id_ b) ≠ 0 /\
  bytes_compare (cotable_encoding (cotable_id_ a) ++ r1) (cotable_encoding (cotable_id_ b) ++ r2) =
  (compare_using uuid_lt (cotable_id_ a) (cotable_id_ b) ?= 0).
Proof.
  intros [Ha Va _ _] [Hb Vb _ _] [Hnil _] Hne. destruct Ha as [Ua _ _ _ _], Hb as [Ub _ _ _ _].
  pose proof (EncodeToComparable_inj _ _ Ua Ub Hne) as Hei. rewrite uuid_compare by done.
  unfold cotable_encoding. destruct (IsNil (cotable_id_ a)) eqn:Na.
  { apply IsNil_eq in Na; [|done]. symmetry in Hnil. apply IsNil_eq in Hnil; [|done]. congruence. }
  rewrite <- Hnil. cbn [app bytes_compare]. rewrite Z.compare_refl.
  assert (bytes_compare (EncodeToComparable (cotable_id_ a)) (EncodeToComparable (cotable_id_ b)) ≠ Eq) as Hc
    by (by rewrite bytes_compare_eq).
  split.
  - intros E. rewrite <- uuid_compare, E in Hc by done. done.
  - by rewrite bytes_compare_same_length by (done || by rewrite !EncodeToComparable_length).
Qed.

Lemma hash_bytes_order x y r1 r2 :
  is_u 16 x -> is_u 16 y -> x ≠ y ->
  bytes_compare (be_bytes 2 x ++ r1) (be_bytes 2 y ++ r2) = (x ?= y).
Proof.
  intros Hx Hy Hne.
  assert (bytes_compare (be_bytes 2 x) (be_bytes 2 y) = (x ?= y)) as E.
  { rewrite bytes_compare_be by (done || apply be_bytes_ok).
    rewrite !be_value_be_bytes. unfold is_u in *. change (2 ^ (8 * Z.of_nat 2)) with (2 ^ 16).
    by rewrite !Z.mod_small by lia. }
  rewrite bytes_compare_same_length; [done|done|]. rewrite E. intros ?%Z.compare_eq. done.
Qed.

Lemma dockey_components a :
  dockey_ordered a -> Forall component_ordered (hashed_group_ a) /\ Forall component_ordered (range_group_ a).
Proof. intros [Ok _ Hg Hr]. split; apply components_ordered; done || apply Ok. Qed.

(** The two groups, after equal hashes. *)
Definition compare_groups (a b : DocKey) : Outcome Z :=
  result ← CompareVectors (hashed_group_ a) (hashed_group_ b);
  if negb (result =? 0) then Done result else CompareVectors (range_group_ a) (range_group_ b).

Lemma compare_groups_order a b r1 r2 :
  dockey_ordered a -> dockey_ordered b ->
  (hashed_group_ a, range_group_ a) ≠ (hashed_group_ b, range_group_ b) ->
  ∃ z, compare_groups a b = Done z /\ z ≠ 0 /\
    bytes_compare (group_enc (hashed_group_ a) ++ group_enc (range_group_ a) ++ r1)
      (group_enc (hashed_group_ b) ++ group_enc (range_group_ b) ++ r2) = (z ?= 0).
Proof.
  intros Ha Hb Hne. destruct (dockey_components a Ha) as [Ca Ra], (dockey_components b Hb) as [Cb Rb].
  unfold compare_groups. destruct (decide (hashed_group_ a = hashed_group_ b)) as [E|Hg].
  - rewrite E, CompareVectors_refl by apply Hb. cbn [mbind outcome_bind Z.eqb negb].
    rewrite bytes_compare_app_l. apply CompareVectors_order; [apply ValueTypeAsChar_byte|done..|congruence].
  - destruct (CompareVectors_order _ _ _ (group_enc (range_group_ a) ++ r1)
      (group_enc (range_group_ b) ++ r2) (ValueTypeAsChar_byte _) Ca Cb Hg) as (z & -> & Hz & E).
    cbn [mbind outcome_bind]. rewrite (proj2 (Z.eqb_neq _ _) Hz). eauto.
Qed.

Lemma bytes_compare_same b s1 s2 : bytes_compare (b :: s1) (b :: s2) = bytes_compare s1 s2.
Proof. apply (bytes_compare_app_l [b]). Qed.

Lemma doc_key_order_aux a b r1 r2 :
  dockey_ordered a -> dockey_ordered b -> same_shape a b -> a ≠ b ->
  ∃ z, DocKey_CompareTo release a b = Done z /\ z ≠ 0 /\
    bytes_compare (dockey_encoding a ++ r1) (dockey_encoding b ++ r2) = (z ?= 0).
Proof.
  intros Ha Hb Hs Hne. unfold DocKey_CompareTo, dockey_encoding. rewrite <- !app_assoc.
  destruct (decide (cotable_id_ a = cotable_id_ b)) as [Ec|Hc].
  2:{ destruct (cotable_order a b (hash_encoding a ++ group_enc (range_group_ a) ++ r1)
        (hash_encoding b ++ group_enc (range_group_ b) ++ r2) Ha Hb Hs Hc) as [Hz E].
      rewrite (proj2 (Z.eqb_neq _ _) Hz). eauto. }
  assert (compare_using uuid_lt (cotable_id_ a) (cotable_id_ b) = 0) as ->.
  { destruct (do_ok b Hb) as [Ub _ _ _ _]. pose proof (do_version b Hb).
    pose proof (uuid_compare (cotable_id_ b) (cotable_id_ b) Ub Ub ltac:(done) ltac:(done)) as E.
    rewrite Ec. rewrite bytes_compare_refl in E. by apply Z.compare_eq in E. }
  rewrite Ec, bytes_compare_app_l. cbn [Z.eqb negb]. destruct Hs as [_ Hh]. rewrite Hh, eqb_reflx.
  replace (if release then Done tt else CHECK true) with (Done tt) by (by destruct release).
  cbn [mbind outcome_bind]. fold (compare_groups a b). unfold hash_encoding. rewrite Hh.
  pose proof (dk_hash a (do_ok a Ha)) as Ka. pose proof (dk_hash b (do_ok b Hb)) as Kb. rewrite Hh in Ka.
  destruct a as [ca pa ha ga ra], b as [cb pb hb gb rb].
  cbn [cotable_id_ hash_present_ hash_ hashed_group_ range_group_] in *. subst ca pa. destruct pb.
  - rewrite <- !app_comm_cons, bytes_compare_same, <- !app_assoc. destruct (decide (ha = hb)) as [->|Hhash].
    + rewrite bytes_compare_app_l, compare_using_refl by apply Z.ltb_irrefl. cbn [Z.eqb negb].
      apply (compare_groups_order (mkDocKey cb true hb ga ra) (mkDocKey cb true hb gb rb)); [done..|].
      simpl. congruence.
    + rewrite hash_bytes_order by done. exists (compare_using Z.ltb ha hb). rewrite compare_using_Z.
      assert (compare_using Z.ltb ha hb ≠ 0) as Hz.
      { intros E. apply Hhash, Z.compare_eq_iff. by rewrite <- compare_using_Z, E. }
      by rewrite (proj2 (Z.eqb_neq _ _) Hz).
  - destruct Ka as [-> ->], Kb as [-> ->]. cbn [app Z.eqb negb].
    destruct (compare_groups_order (mkDocKey cb false 0xdead [] ra) (mkDocKey cb false 0xdead [] rb) r1 r2)
      as (z & Ez & Hz & E); [done..|simpl; congruence|]. exists z. split; [done|]. split; [done|].
    cbn [hashed_group_ range_group_] in E. by rewrite bytes_compare_app_l in E.
Qed.

(** *** Fuel *)

Lemma consume_values_fuel {A} (callback : bytes -> Outcome (Result (A * bytes))) allow f1 f2 s acc :
  (∀ s a rest, callback s = Done (Ok (a, rest)) -> (length rest < length s)%nat) ->
  (length s < f1)%nat -> (length s < f2)%nat ->
  consume_values callback allow f1 s acc = consume_values callback allow f2 s acc.
Proof.
  intros Hcb. revert f2 s acc. induction f1 as [|f1 IH]; intros [|f2] s acc H1 H2; try lia.
  cbn [consume_values]. unfold HasPrimitiveValue. destruct s as [|b s]; [done|].
  destruct (b =? _); [done|]. destruct (primitive_byte b); cbn [or_bind].
  - destruct (callback (b :: s)) as [[[a r]|]| |] eqn:E; try done. cbn [or_bind].
    apply Hcb in E. simpl in *. apply IH; lia.
  - destruct (allow && special_byte b); cbn [or_bind]; [|done].
    destruct (callback (b :: s)) as [[[a r]|]| |] eqn:E; try done. cbn [or_bind].
    apply Hcb in E. simpl in *. apply IH; lia.
Qed.

Lemma decode_value_shrinks s pv rest :
  decode_value (D := D) (V := V) s = Done (Ok (pv, rest)) -> (length rest < length s)%nat.
Proof. apply DecodeKey_shrinks. Qed.

Lemma consume_values_shrinks {A} (callback : bytes -> Outcome (Result (A * bytes))) allow fuel s acc l rest :
  (∀ s a rest, callback s = Done (Ok (a, rest)) -> (length rest < length s)%nat) ->
  consume_values callback allow fuel s acc = Done (Ok (l, rest)) -> (length rest < length s)%nat.
Proof.
  intros Hcb. revert s acc. induction fuel as [|fuel IH]; intros s acc; [done|].
  cbn [consume_values]. intros ([more s'] & E1 & E2)%or_bind_Ok. unfold HasPrimitiveValue in E1.
  destruct s as [|b s]; [done|]. destruct (b =? _); [simplify_eq/=; lia|].
  assert (more = true /\ s' = b :: s) as [-> ->].
  { destruct (primitive_byte b), (allow && special_byte b); by simplify_eq. }
  apply or_bind_Ok in E2 as ([a r] & E & E2). apply Hcb in E. apply IH in E2. lia.
Qed.

(** *** Sizes and prefixes *)

Lemma DocKey_DecodeFrom_encoding old allow key rest :
  cotable_id_ old = nil_uuid -> dockey_ok key -> bytes_ok rest ->
  DocKey_DecodeFrom (D := D) (V := V) old WHOLE_DOC_KEY allow (dockey_encoding key ++ rest) =
  Done (Ok (key, rest)).
Proof.
  intros Ho Hok Hr. unfold DocKey_DecodeFrom.
  rewrite (DoDecode_encoding _ _ id id) by (done || apply decode_value_consumes). cbn [or_bind].
  destruct key as [c p h g r]; destruct Hok as [Uc Hh _ _ _].
  cbn [d_cotable_id d_hash d_hashed_group d_range_group d_rest Clear cotable_id_ hash_present_ hash_
       hashed_group_ range_group_] in *. rewrite !list_fmap_id, Ho.
  assert (default nil_uuid (if IsNil c then None else Some c) = c) as ->.
  { destruct (IsNil c) eqn:E; [|done]. by rewrite (IsNil_eq c). }
  destruct p; [done|]. by destruct Hh as [-> ->].
Qed.

Lemma EncodedSize_encoding part allow key rest :
  dockey_ok key -> bytes_ok rest ->
  EncodedSize (D := D) (V := V) part allow (dockey_encoding key ++ rest) =
  Done (Ok (match part with
            | WHOLE_DOC_KEY => length (dockey_encoding key)
            | HASHED_PART_ONLY => length (hashed_part key)
            end)).
Proof.
  intros Hok Hr. unfold EncodedSize.
  rewrite (DoDecode_encoding _ _ pv_enc pv_enc) by (done || apply decode_slice_consumes). cbn [or_bind d_rest].
  rewrite dockey_encoding_parts. destruct part; do 2 f_equal; rewrite !length_app; lia.
Qed.

Lemma group_enc_length_pos l : (0 < length (group_enc l))%nat.
Proof. destruct (group_enc_cons l) as (b & tl & -> & _). simpl. lia. Qed.

Lemma EncodedSizes_encoding allow key rest :
  dockey_ok key -> bytes_ok rest ->
  EncodedSizes (D := D) (V := V) allow (dockey_encoding key ++ rest) =
  Done (Ok (length (hashed_part key), length (dockey_encoding key))).
Proof.
  intros Hok Hr. unfold EncodedSizes.
  rewrite (DoDecode_encoding _ _ pv_enc pv_enc) by (done || apply decode_slice_consumes).
  cbn [or_bind d_rest d_range_start]. rewrite dockey_encoding_parts, !length_app.
  pose proof (group_enc_length_pos (range_group_ key)).
  rewrite (proj2 (Nat.eqb_neq _ _)) by lia. do 3 f_equal. lia.
Qed.

Lemma ClearRangeComponents_encoding allow key rest :
  dockey_ok key -> bytes_ok rest ->
  ClearRangeComponents (D := D) (V := V) allow (dockey_encoding key ++ rest) =
  Done (Ok (negb (bool_decide (range_group_ key = [] /\ rest = [])),
            dockey_encoding (ClearRangeComponents_key key))).
Proof.
  intros Hok Hr. unfold ClearRangeComponents. rewrite EncodedSize_encoding by done. cbn [or_bind].
  rewrite !dockey_encoding_parts. change (hashed_part (ClearRangeComponents_key key)) with (hashed_part key).
  cbn [ClearRangeComponents_key range_group_]. rewrite <- app_assoc.
  pose proof (group_enc_length_pos (range_group_ key)) as Hpos.
  rewrite take_app_length, lookup_app_r, Nat.sub_diag, !length_app by lia.
  rewrite (proj2 (Nat.ltb_lt _ _)) by lia. destruct (range_group_ key) as [|pv l] eqn:Er.
  - destruct rest; cbn; [|rewrite (proj2 (Nat.eqb_neq _ _)) by (simpl; lia); done].
    by rewrite (proj2 (Nat.eqb_eq _ _)) by lia.
  - rewrite (bool_decide_eq_false_2 (_ /\ _)) by (by intros []). destruct (group_enc_cons (pv :: l)) as (b & tl & E & Hb).
    rewrite E. cbn [app lookup list_lookup]. rewrite (bool_decide_eq_false_2 (Some b = _)); [by rewrite andb_false_r|].
    pose proof (dk_range key Hok) as Hg. rewrite Er in Hg. apply Forall_cons in Hg as [[_ Hp] _].
    apply primitive_not_end in Hp. rewrite <- Hb in Hp. intros E'. assert (b = ValueTypeAsChar kGroupEnd) by congruence. lia.
Qed.

(** *** Equality of the hashed parts of encoded keys *)

Lemma component_enc_inj a b r1 r2 :
  component_ok a -> component_ok b -> bytes_ok r1 -> bytes_ok r2 ->
  pv_enc a ++ r1 = pv_enc b ++ r2 -> a = b.
Proof.
  intros Ha Hb H1 H2 E. pose proof (decode_value_consumes a r1 Ha H1) as D1.
  pose proof (decode_value_consumes b r2 Hb H2) as D2. rewrite E, D2 in D1. unfold id in D1. congruence.
Qed.

Lemma DecodePrimitiveValue_encoding allow pv rest :
  component_ok pv -> bytes_ok rest ->
  ∃ v, DecodePrimitiveValue (D := D) (V := V) allow (pv_enc pv ++ rest) = Done (Ok (v, rest)).
Proof.
  intros [Hpv Hb] Hr. pose proof (DecodeKey_encoding (D := D) (V := V) release false pv rest Hpv Hr) as E.
  destruct (key_encoding_cons release pv) as [e Ee]. rewrite Ee in E |- *. cbn [app] in E |- *.
  unfold DecodePrimitiveValue. replace (allow && _) with false; [by eexists|].
  destruct allow; [|done]. cbn [andb]. symmetry. by destruct (type_of pv).
Qed.

Lemma component_head pv s :
  component_ok pv ->
  GroupEnded (pv_enc pv ++ s) = false /\ head (pv_enc pv ++ s) = Some (ValueTypeAsChar (type_of pv)).
Proof.
  intros [_ N%primitive_not_end]. destruct (key_encoding_cons release pv) as [e ->].
  split; [|done]. unfold GroupEnded. cbn [app]. apply Z.eqb_neq. lia.
Qed.

Lemma component_take x y s :
  component_ok x -> component_ok y -> x ≠ y ->
  negb (length (pv_enc x) =? length (pv_enc y))%nat
  || negb (bool_decide (pv_enc x = take (length (pv_enc x)) (pv_enc y ++ s))) = true.
Proof.
  intros Hx Hy Hne. destruct (Nat.eqb_spec (length (pv_enc x)) (length (pv_enc y))) as [El|]; cbn [negb orb]; [|done].
  rewrite El, take_app_length, bool_decide_eq_false_2; [done|].
  intros E. apply Hne, (component_enc_inj x y [] []); [done..|constructor|constructor|by rewrite E].
Qed.

Lemma equal_components_encoding l1 l2 r1 r2 fuel :
  Forall component_ok l1 -> Forall component_ok l2 -> bytes_ok r1 -> bytes_ok r2 -> (length l1 < fuel)%nat ->
  equal_components (D := D) (V := V) fuel (group_enc l1 ++ r1) (group_enc l2 ++ r2) =
  Done (Ok (bool_decide (l1 = l2))).
Proof.
  intros H1. revert l2 fuel.
  induction H1 as [|x l1 Hx H1 IH]; intros l2 [|fuel] H2 B1 B2 Hf; try (simpl in Hf; lia); cbn [equal_components].
  { destruct l2 as [|y l2]; [done|]. apply Forall_cons in H2 as [Hy _].
    rewrite (group_encode_cons _ y), <- app_assoc. cbn [group_encode fmap list_fmap concat app GroupEnded]. by rewrite Z.eqb_refl, (proj1 (component_head y _ Hy)). }
  rewrite group_encode_cons, <- app_assoc. destruct (component_head x (group_enc l1 ++ r1) Hx) as [-> ->].
  change (default 0 (Some (ValueTypeAsChar (type_of x)))) with (ValueTypeAsChar (type_of x)).
  rewrite (proj2 Hx). cbn [orb negb]. destruct l2 as [|y l2]; [done|]. apply Forall_cons in H2 as [Hy H2].
  rewrite group_encode_cons, <- app_assoc. destruct (component_head y (group_enc l2 ++ r2) Hy) as [-> ->].
  cbn [orb]. case_bool_decide as Ht; cbn [negb].
  2:{ rewrite bool_decide_eq_false_2; [done|]. intros [= -> _]. done. }
  assert (bytes_ok (group_enc l1 ++ r1)) as O1 by (apply Forall_app; split; [by apply group_enc_ok|done]).
  assert (bytes_ok (group_enc l2 ++ r2)) as O2 by (apply Forall_app; split; [by apply group_enc_ok|done]).
  destruct (DecodePrimitiveValue_encoding true x _ Hx O1) as [vx ->].
  destruct (DecodePrimitiveValue_encoding true y _ Hy O2) as [vy ->]. cbn [or_bind].
  rewrite !(length_app (pv_enc _)), !Nat.add_sub, take_app_length.
  destruct (decide (x = y)) as [->|Hne].
  - rewrite Nat.eqb_refl, take_app_length, bool_decide_eq_true_2 by done. cbn [orb negb].
    rewrite IH by (done || simpl in Hf; lia). do 2 f_equal. apply bool_decide_ext. split; congruence.
  - rewrite component_take by done. by rewrite (bool_decide_eq_false_2 (x :: l1 = _)) by congruence.
Qed.

(** The table id and the hash code, and what follows them. *)
Definition head_part (key : DocKey) : bytes :=
  cotable_encoding (cotable_id_ key) ++
  (if hash_present_ key then ValueTypeAsChar kUInt16Hash :: be_bytes 2 (hash_ key) else []).

Definition tail_part (key : DocKey) : bytes :=
  (if hash_present_ key then group_enc (hashed_group_ key) else []) ++ group_enc (range_group_ key).

Lemma dockey_encoding_head key : dockey_encoding key = head_part key ++ tail_part key.
Proof.
  unfold dockey_encoding, head_part, tail_part, hash_encoding.
  destruct (hash_present_ key); rewrite <- ?app_assoc; [|done]. cbn [app]. by rewrite <- app_assoc.
Qed.

Lemma decode_head allow key rest :
  dockey_ok key -> bytes_ok rest ->
  ∃ u mid, DecodeCotableId (dockey_encoding key ++ rest) = Ok (u, mid) /\
    DecodeHashCode allow mid = Ok (if hash_present_ key then Some (hash_ key) else None, tail_part key ++ rest).
Proof.
  intros Hok Hr. rewrite dockey_encoding_parts, <- app_assoc. do 2 eexists. rewrite decode_cotable_part by done.
  split; [done|]. unfold hash_encoding, tail_part. pose proof (dk_hash key Hok). pose proof (dk_first key Hok) as Hf.
  destruct (hash_present_ key); cbn [app]; rewrite <- ?app_assoc.
  - by apply DecodeHashCode_hash.
  - apply DecodeHashCode_group; [apply Hok|]. intros pv Hpv. by apply (Hf eq_refl).
Qed.

Lemma cotable_encoding_length u : uuid_ok u -> length (cotable_encoding u) = if IsNil u then 0%nat else 17%nat.
Proof.
  intros Hu. unfold cotable_encoding. destruct (IsNil u); [done|]. cbn [length].
  by rewrite EncodeToComparable_length.
Qed.

Lemma head_part_inj a b :
  dockey_ok a -> dockey_ok b -> head_part a = head_part b ->
  cotable_id_ a = cotable_id_ b /\ hash_present_ a = hash_present_ b /\ hash_ a = hash_ b.
Proof.
  intros Ha Hb E. pose proof (dk_hash a Ha) as Ka. pose proof (dk_hash b Hb) as Kb.
  pose proof (dk_cotable a Ha) as Ua. pose proof (dk_cotable b Hb) as Ub.
  pose proof (f_equal length E) as El. unfold head_part in *. rewrite !length_app, !cotable_encoding_length in El by done.
  assert (IsNil (cotable_id_ a) = IsNil (cotable_id_ b) /\ hash_present_ a = hash_present_ b) as [En Eh].
  { destruct (IsNil (cotable_id_ a)), (IsNil (cotable_id_ b)), (hash_present_ a), (hash_present_ b);
      cbn in El; done || lia. }
  rewrite Eh in *. apply app_inj_1 in E as [Ec Et]; [|rewrite !cotable_encoding_length by done; by rewrite En].
  split; [|split; [done|]].
  - unfold cotable_encoding in Ec. rewrite En in Ec. destruct (IsNil (cotable_id_ b)) eqn:Nb.
    + by rewrite (IsNil_eq (cotable_id_ a)), (IsNil_eq (cotable_id_ b)).
    + destruct (decide (cotable_id_ a = cotable_id_ b)) as [|Hne]; [done|].
      exfalso. apply (EncodeToComparable_inj _ _ Ua Ub Hne). congruence.
  - destruct (hash_present_ b); [|by destruct Ka as [-> _], Kb as [-> _]].
    assert (be_bytes 2 (hash_ a) = be_bytes 2 (hash_ b)) as Eb by congruence.
    by rewrite <- (Load16_be (hash_ a)), Eb, Load16_be.
Qed.

Lemma HashedComponentsEqual_encoding a b r1 r2 :
  dockey_ok a -> dockey_ok b -> bytes_ok r1 -> bytes_ok r2 ->
  HashedComponentsEqual (D := D) (V := V) (dockey_encoding a ++ r1) (dockey_encoding b ++ r2) =
  Done (Ok (bool_decide ((cotable_id_ a, hash_present_ a, hash_ a, hashed_group_ a) =
                         (cotable_id_ b, hash_present_ b, hash_ b, hashed_group_ b)))).
Proof.
  intros Ha Hb H1 H2. unfold HashedComponentsEqual.
  destruct (decode_head true a r1 Ha H1) as (ua & ma & -> & Ea). cbn [or_bind].
  destruct (decode_head true b r2 Hb H2) as (ub & mb & -> & Eb). cbn [or_bind].
  rewrite Ea, Eb. cbn [or_bind]. rewrite !dockey_encoding_head, <- !app_assoc.
  rewrite !(length_app (head_part _)), !Nat.add_sub, take_app_length.
  destruct (Nat.eqb_spec (length (head_part a)) (length (head_part b))) as [El|Hl]; cbn [negb orb].
  2:{ rewrite bool_decide_eq_false_2; [done|]. intros [= E1 E2 E3 _]. apply Hl.
      unfold head_part. by rewrite E1, E2, E3. }
  rewrite El, take_app_length. case_bool_decide as Eh; cbn [negb].
  2:{ rewrite bool_decide_eq_false_2; [done|]. intros [= E1 E2 E3 _]. apply Eh.
      unfold head_part. by rewrite E1, E2, E3. }
  apply head_part_inj in Eh as (E1 & E2 & E3); [|done..].
  pose proof (dk_hash a Ha) as Ka. pose proof (dk_hash b Hb) as Kb. unfold tail_part. rewrite E2 in *.
  destruct (hash_present_ b) eqn:Hp.
  - rewrite <- !app_assoc, equal_components_encoding.
    + do 2 f_equal. apply bool_decide_ext. split; [congruence|]. by intros [= ? ? ?].
    + apply Ha.
    + apply Hb.
    + apply Forall_app. split; [apply group_enc_ok, Ha|done].
    + apply Forall_app. split; [apply group_enc_ok, Hb|done].
    + rewrite length_app. destruct (group_encode_length release (ValueTypeAsChar kGroupEnd) (hashed_group_ a)). lia.
  - rewrite bool_decide_eq_true_2; [done|]. destruct Ka as [_ ->], Kb as [_ ->]. congruence.
Qed.

Lemma Transform_encoding key rest :
  dockey_ok key -> bytes_ok rest ->
  Transform (D := D) (V := V) (dockey_encoding key ++ rest) = Done (hashed_part key).
Proof.
  intros Hok Hr. unfold Transform. rewrite EncodedSize_encoding by done.
  by rewrite dockey_encoding_parts, <- app_assoc, take_app_length.
Qed.

Lemma hashed_part_eq a b :
  dockey_ok a -> dockey_ok b ->
  hashed_part a = hashed_part b <->
  (cotable_id_ a, hash_present_ a, hash_ a, hashed_group_ a) = (cotable_id_ b, hash_present_ b, hash_ b, hashed_group_ b).
Proof.
  intros Ha Hb. split; [|intros [= E1 E2 E3 E4]; unfold hashed_part, hash_encoding; by rewrite E1, E2, E3, E4].
  intros E. set (key := mkDocKey (cotable_id_ a) (hash_present_ a) (hash_ a) (hashed_group_ a)).
  set (key' := mkDocKey (cotable_id_ b) (hash_present_ b) (hash_ b) (hashed_group_ b)).
  assert (dockey_ok (key [])) as O1 by (destruct Ha; by constructor).
  assert (dockey_ok (key' [])) as O2 by (destruct Hb; by constructor).
  assert (dockey_encoding (key []) = dockey_encoding (key' [])) as E'.
  { rewrite !dockey_encoding_parts. by change (hashed_part a ++ group_enc [] = hashed_part b ++ group_enc []); rewrite E. }
  pose proof (DocKey_DecodeFrom_encoding (DocKey_range []) false (key []) [] eq_refl O1 ltac:(constructor)) as D1.
  pose proof (DocKey_DecodeFrom_encoding (DocKey_range []) false (key' []) [] eq_refl O2 ltac:(constructor)) as D2.
  rewrite E', D2 in D1. subst key key'. congruence.
Qed.

End keys.

(** ** Properties *)

(** The encoding of Redis keys that skips the key object is the encoding of
    the key object. *)
Theorem EncodedFromRedisKey_agrees `{BoostUuid} release hash key :
  Encode release (FromRedisKey hash key) = Done (EncodedFromRedisKey hash key).
Proof. done. Qed.

(** C28: a document key is read back from its encoding exactly as it was
    written, in front of any bytes, by [DecodeFrom] into a fresh key and by
    [FullyDecodeFrom] when nothing follows; [FullyDecodeFrom] refuses the
    encoding when something does. *)
Theorem doc_key_roundtrip `{BoostUuid} {D V : Type}
    `{CD : ComparableNumber D} `{CV : ComparableNumber V} release old allow key out rest :
  cotable_id_ old = nil_uuid -> dockey_ok (D := D) (V := V) key -> bytes_ok rest ->
  ∃ enc, AppendTo release key out = Done (out ++ enc) /\
    DocKey_DecodeFrom (D := D) (V := V) old WHOLE_DOC_KEY allow (enc ++ rest) = Done (Ok (key, rest)) /\
    DocKey_FullyDecodeFrom (D := D) (V := V) old (enc ++ rest) =
      Done (match rest with [] => Ok key | _ :: _ => Error InvalidArgument end).
Proof.
  intros Ho Hok Hr. exists (dockey_encoding release key). split; [by apply (AppendTo_encoding (D := D) (V := V))|].
  unfold DocKey_FullyDecodeFrom. rewrite !DocKey_DecodeFrom_encoding by done. split; [done|]. by destruct rest.
Qed.

(** A key of a co-located table with a hash and components of both groups. *)
Definition dockey_sample : DocKey :=
  mkDocKey (repeat 7 16) true 0x1234 [pv_String [97; 0] kAscending; pv_Int64 5 kAscending] [pv_sample].

Lemma dockey_sample_ordered : dockey_ordered (D := Z) (V := Z) dockey_sample.
Proof.
  repeat constructor; try (vm_compute; intuition discriminate); by exists (10 ^ 30).
Qed.

Lemma doc_key_roundtrip_witness :
  ∃ enc, AppendTo true dockey_sample [1] = Done ([1] ++ enc) /\
    DocKey_DecodeFrom (D := Z) (V := Z) (DocKey_range []) WHOLE_DOC_KEY false (enc ++ [33]) =
      Done (Ok (dockey_sample, [33])) /\
    DocKey_FullyDecodeFrom (D := Z) (V := Z) (DocKey_range []) (enc ++ [33]) = Done (Error InvalidArgument).
Proof.
  apply (doc_key_roundtrip (D := Z) (V := Z) true (DocKey_range []) false dockey_sample [1] [33]);
    [done|apply dockey_sample_ordered|repeat constructor; vm_compute; intuition discriminate].
Defined.

(** Two different document keys of one table compare by [CompareTo] the
    way RocksDB compares their encodings, whatever follows them; in particular
    [CompareTo] never calls them equal. *)
Theorem doc_key_order `{BoostUuid} {D V : Type}
    `{CD : ComparableNumber D} `{CV : ComparableNumber V} release a b r1 r2 :
  dockey_ordered (D := D) (V := V) a -> dockey_ordered (D := D) (V := V) b -> same_shape a b -> a ≠ b ->
  ∃ ea eb z, Encode release a = Done ea /\ Encode release b = Done eb /\
    DocKey_CompareTo release a b = Done z /\ z ≠ 0 /\ bytes_compare (ea ++ r1) (eb ++ r2) = (z ?= 0).
Proof.
  intros Ha Hb Hs Hne. destruct (doc_key_order_aux (D := D) (V := V) release a b r1 r2 Ha Hb Hs Hne) as (z & E).
  exists (dockey_encoding release a), (dockey_encoding release b), z. unfold Encode.
  rewrite !(AppendTo_encoding (D := D) (V := V)) by by apply do_ok. done.
Qed.

Lemma doc_key_order_witness :
  ∃ ea eb z, Encode false dockey_sample = Done ea /\
    Encode false (AddRangeComponent dockey_sample pv_sample) = Done eb /\
    DocKey_CompareTo false dockey_sample (AddRangeComponent dockey_sample pv_sample) = Done z /\ z ≠ 0 /\
    bytes_compare (ea ++ [255]) (eb ++ [0]) = (z ?= 0).
Proof.
  apply (doc_key_order (D := Z) (V := Z) false dockey_sample (AddRangeComponent dockey_sample pv_sample) [255] [0]);
    [apply dockey_sample_ordered| |by split|].
  2:{ intros E%(f_equal (length ∘ range_group_)). by vm_compute in E. }
  repeat constructor; try (vm_compute; intuition discriminate); by exists (10 ^ 30).
Defined.

(** On an encoded document key, in front of any bytes, [EncodedSize] and
    [EncodedSizes] give the sizes of the part before the range group and of
    the whole key, and [ClearRangeComponents] leaves the encoding of the key
    without its range components, reporting whether it changed anything. *)
Theorem doc_key_sizes `{BoostUuid} {D V : Type}
    `{CD : ComparableNumber D} `{CV : ComparableNumber V} release allow key rest :
  dockey_ok (D := D) (V := V) key -> bytes_ok rest ->
  ∃ prefix group cleared, Encode release key = Done (prefix ++ group) /\
    Encode release (ClearRangeComponents_key key) = Done cleared /\
    let str := (prefix ++ group) ++ rest in
    EncodedSize (D := D) (V := V) HASHED_PART_ONLY allow str = Done (Ok (length prefix)) /\
    EncodedSize (D := D) (V := V) WHOLE_DOC_KEY allow str = Done (Ok (length (prefix ++ group))) /\
    EncodedSizes (D := D) (V := V) allow str = Done (Ok (length prefix, length (prefix ++ group))) /\
    ClearRangeComponents (D := D) (V := V) allow str =
      Done (Ok (negb (bool_decide (range_group_ key = [] /\ rest = [])), cleared)).
Proof.
  intros Hok Hr. exists (hashed_part release key), (group_encode (ValueTypeAsChar kGroupEnd) (key_encoding release)
    (range_group_ key)), (dockey_encoding release (ClearRangeComponents_key key)).
  rewrite <- dockey_encoding_parts. unfold Encode. split; [by rewrite (AppendTo_encoding (D := D) (V := V))|].
  split; [rewrite (AppendTo_encoding (D := D) (V := V)); [done|destruct Hok; by constructor]|]. cbv zeta.
  rewrite !EncodedSize_encoding, EncodedSizes_encoding, ClearRangeComponents_encoding by done. done.
Qed.

Lemma doc_key_sizes_witness :
  ∃ prefix group cleared, Encode true dockey_sample = Done (prefix ++ group) /\
    Encode true (ClearRangeComponents_key dockey_sample) = Done cleared /\
    let str := (prefix ++ group) ++ [] in
    EncodedSize (D := Z) (V := Z) HASHED_PART_ONLY false str = Done (Ok (length prefix)) /\
    EncodedSize (D := Z) (V := Z) WHOLE_DOC_KEY false str = Done (Ok (length (prefix ++ group))) /\
    EncodedSizes (D := Z) (V := Z) false str = Done (Ok (length prefix, length (prefix ++ group))) /\
    ClearRangeComponents (D := Z) (V := Z) false str = Done (Ok (true, cleared)).
Proof.
  apply (doc_key_sizes (D := Z) (V := Z) true false dockey_sample []); [apply dockey_sample_ordered|constructor].
Defined.

(** [HashedComponentsEqual] on two encoded document keys, whatever follows
    them, tells whether the keys agree on the table id, the hash and the hashed
    components; [Transform], the key of the Bloom filter, is equal for exactly
    the same keys. *)
Theorem doc_key_hashed_equal `{BoostUuid} {D V : Type}
    `{CD : ComparableNumber D} `{CV : ComparableNumber V} release a b r1 r2 :
  dockey_ok (D := D) (V := V) a -> dockey_ok (D := D) (V := V) b -> bytes_ok r1 -> bytes_ok r2 ->
  ∃ ea eb ta tb same, Encode release a = Done ea /\ Encode release b = Done eb /\
    HashedComponentsEqual (D := D) (V := V) (ea ++ r1) (eb ++ r2) = Done (Ok same) /\
    Transform (D := D) (V := V) (ea ++ r1) = Done ta /\ Transform (D := D) (V := V) (eb ++ r2) = Done tb /\
    (same = true <-> (cotable_id_ a, hash_present_ a, hash_ a, hashed_group_ a) =
                     (cotable_id_ b, hash_present_ b, hash_ b, hashed_group_ b)) /\
    (same = true <-> ta = tb).
Proof.
  intros Ha Hb H1 H2. exists (dockey_encoding release a), (dockey_encoding release b),
    (hashed_part release a), (hashed_part release b). eexists. unfold Encode.
  rewrite !(AppendTo_encoding (D := D) (V := V)), HashedComponentsEqual_encoding, !Transform_encoding by done.
  do 5 (split; [done|]). split; [apply bool_decide_eq_true|].
  rewrite (hashed_part_eq (D := D) (V := V)) by done. apply bool_decide_eq_true.
Qed.

Lemma doc_key_hashed_equal_witness :
  ∃ ea eb ta tb same, Encode true dockey_sample = Done ea /\
    Encode true (AddRangeComponent dockey_sample pv_sample) = Done eb /\
    HashedComponentsEqual (D := Z) (V := Z) (ea ++ [1]) (eb ++ []) = Done (Ok same) /\
    Transform (D := Z) (V := Z) (ea ++ [1]) = Done ta /\ Transform (D := Z) (V := Z) (eb ++ []) = Done tb /\
    (same = true <->
      (repeat 7 16, true, 0x1234, [pv_String [97; 0] kAscending; pv_Int64 5 kAscending]) =
      (repeat 7 16, true, 0x1234, [pv_String [97; 0] kAscending; pv_Int64 5 kAscending])) /\
    (same = true <-> ta = tb).
Proof.
  refine (doc_key_hashed_equal (D := Z) (V := Z) true dockey_sample
    (AddRangeComponent dockey_sample pv_sample) [1] [] _ _ _ _);
    [apply dockey_sample_ordered| |repeat constructor; vm_compute; intuition discriminate|constructor].
  repeat constructor; try (vm_compute; intuition discriminate); by exists (10 ^ 30).
Defined.

(** ** Behaviours worth knowing *)

(** [Clear] keeps the table id: decoding a key without one into an object that
    had one leaves the old id. *)
Theorem decode_keeps_stale_cotable_id :
  ∃ old slice key, DocKey_DecodeFrom (D := Z) (V := Z) old WHOLE_DOC_KEY false slice = Done (Ok (key, [])) /\
    DocKey_FullyDecodeFrom (D := Z) (V := Z) (DocKey_range []) slice = Done (Ok (DocKey_range [])) /\
    IsNil (cotable_id_ key) = false.
Proof. exists dockey_sample, [33]. eexists. split; [reflexivity|]. by split. Qed.

(** A key with a table id and a key without one: the id alone decides
    [CompareTo], the tag of what follows decides the bytes. *)
Theorem cotable_order_mismatch :
  ∃ a b ea eb, dockey_ordered (D := Z) (V := Z) a /\ dockey_ordered (D := Z) (V := Z) b /\
    Encode true a = Done ea /\ Encode true b = Done eb /\
    DocKey_CompareTo true a b = Done (-1) /\ bytes_compare ea eb = Gt.
Proof.
  exists (DocKey_range [mkPV kNullDescending no_val]), (mkDocKey (repeat 1 16) false 0xdead [] []).
  do 2 eexists. split; [|split; [|by vm_compute]];
    repeat constructor; try (vm_compute; intuition discriminate).
  all: by simplify_eq/=.
Qed.
