(* ===== verification/SubDocKey.v ===== *)
(** * Keys of sub-documents ([src/yb/docdb/doc_key.cc], [doc_key.h])

    The keys stored in RocksDB: a document key, a path of sub-keys inside the
    document, and the time of the write.  The encoder, the decoders, the
    comparison, the prefixes that are locked, and the keys that seek past a
    sub-document. *)

From S2P Require Import Prelude KeyCodec FastVarInt DocKvUtil HybridTime DocHybridTime.
From S2P Require Import ValueType Intents KeyBytes Uuid PrimitiveValue VarInt PrimitiveValueKeys DocKey.
Local Open Scope Z_scope.

(** ** Data *)

Record SubDocKey : Type := mkSubDocKey {
  doc_key_ : DocKey;
  doc_ht_ : DocHybridTime;
  subkeys_ : list PrimitiveValue
}.

(** [DocHybridTime::kInvalid], which stands for an omitted time. *)
Definition invalid_doc_ht : DocHybridTime := mkDocHybridTime HybridTime.kInvalid kMaxWriteId.

Definition has_hybrid_time (key : SubDocKey) : bool := is_valid (hybrid_time (doc_ht_ key)).

Definition num_subkeys (key : SubDocKey) : nat := length (subkeys_ key).

Definition remove_hybrid_time (key : SubDocKey) : SubDocKey :=
  mkSubDocKey (doc_key_ key) invalid_doc_ht (subkeys_ key).

(** [pop_back]; empty, the vector is only tested in a debug build. *)
Definition RemoveLastSubKey (release : bool) (key : SubDocKey) : Outcome SubDocKey :=
  match subkeys_ key with
  | [] => if release then Undefined else Fatal
  | _ :: _ => Done (mkSubDocKey (doc_key_ key) (doc_ht_ key) (take (num_subkeys key - 1) (subkeys_ key)))
  end.

Definition KeepPrefix (num_sub_keys_to_keep : nat) (key : SubDocKey) : SubDocKey :=
  if (num_sub_keys_to_keep <? num_subkeys key)%nat
  then mkSubDocKey (doc_key_ key) (doc_ht_ key) (take num_sub_keys_to_keep (subkeys_ key))
  else key.

Definition SubDocKey_Clear (key : SubDocKey) : SubDocKey :=
  mkSubDocKey (Clear (doc_key_ key)) invalid_doc_ht [].

(** ** Encoding *)

Section encode.
Context (release : bool) `{BoostUuid}.

Definition DoEncode (include_hybrid_time : bool) (key : SubDocKey) : Outcome bytes :=
  key_bytes ← Encode release (doc_key_ key);
  key_bytes ← append_items release (subkeys_ key) key_bytes;
  Done (if has_hybrid_time key && include_hybrid_time then AppendDocHybridTime (doc_ht_ key) key_bytes
        else key_bytes).

Definition SubDocKey_Encode : SubDocKey -> Outcome bytes := DoEncode true.
Definition EncodeWithoutHt : SubDocKey -> Outcome bytes := DoEncode false.

(** Keys that sort after every key of the sub-document, or after every key
    whose document key starts with the components of this one. *)
Definition AdvanceOutOfSubDoc (key : SubDocKey) : Outcome bytes :=
  subdoc_key_no_ts ← EncodeWithoutHt key;
  Done (AppendValueType kMaxByte subdoc_key_no_ts).

Definition AdvanceOutOfDocKeyPrefix (key : SubDocKey) : Outcome bytes :=
  doc_key_encoded ← Encode release (doc_key_ key);
  doc_key_encoded ← RemoveValueTypeSuffix kGroupEnd doc_key_encoded;
  Done (AppendValueType kMaxByte doc_key_encoded).

End encode.

(** ** Decoding *)

Section decode.
Context `{BoostUuid} {D V : Type} `{ComparableNumber D} `{ComparableNumber V}.

(** [DecodeSubkey]; [out] tells whether the callback wants the value. *)
Definition DecodeSubkey (out : bool) (slice : bytes) : Outcome (Result (option PrimitiveValue * bytes)) :=
  match slice with
  | b :: _ =>
      if negb (b =? ValueTypeAsChar kHybridTime) then
        '(pv, rest) ⇐ DecodeKey (D := D) (V := V) out slice; Done (Ok (Some pv, rest))
      else Done (Ok (None, slice))
  | [] => Done (Ok (None, []))
  end.

Fixpoint decode_subkeys (fuel : nat) (out : bool) (slice : bytes) (subkeys : list PrimitiveValue)
    : Outcome (Result (list PrimitiveValue * bytes)) :=
  match fuel with
  | O => Done (Error Incomplete)
  | S fuel' =>
      '(subkey, slice) ⇐ DecodeSubkey out slice;
      match subkey with
      | Some pv => decode_subkeys fuel' out slice (subkeys ++ [pv])
      | None => Done (Ok (subkeys, slice))
      end
  end.

(** What the callback of [SubDocKey::DoDecode] receives, and the rest. *)
Record sub_decoded {K : Type} : Type := mkSubDecoded {
  sd_doc_key : K;
  sd_subkeys : list PrimitiveValue;
  sd_doc_ht : DocHybridTime;
  sd_doc_ht_slice : option bytes;
  sd_rest : bytes
}.
#[global] Arguments sub_decoded : clear implicits.

Definition SubDocKey_DoDecode {K : Type} (release : bool)
    (decode_doc_key : bytes -> Outcome (Result (K * bytes)))
    (out require_hybrid_time : bool) (slice : bytes) : Outcome (Result (sub_decoded K)) :=
  '(doc_key, slice) ⇐ decode_doc_key slice;
  '(subkeys, slice) ⇐ decode_subkeys (S (length slice)) out slice [];
  match slice with
  | [] =>
      if negb require_hybrid_time then Done (Ok (mkSubDecoded _ doc_key subkeys invalid_doc_ht None []))
      else Done (Error Corruption)
  | b :: slice =>
      _ ← (if release then Done tt else CHECK (b =? ValueTypeAsChar kHybridTime));
      '(doc_ht, rest) ⇐ Done (DocHybridTime.DecodeFrom slice);
      Done (Ok (mkSubDecoded _ doc_key subkeys doc_ht (Some (take (length slice - length rest) slice)) rest))
  end.

(** [DecodeFrom] into the object [key]; the bytes left. *)
Definition SubDocKey_DecodeFrom (release : bool) (key : SubDocKey) (require_hybrid_time : bool)
    (slice : bytes) : Outcome (Result (SubDocKey * bytes)) :=
  let key := SubDocKey_Clear key in
  d ⇐ SubDocKey_DoDecode release (DocKey_DecodeFrom (D := D) (V := V) (doc_key_ key) WHOLE_DOC_KEY false)
        true require_hybrid_time slice;
  Done (Ok (mkSubDocKey (sd_doc_key d) (sd_doc_ht d) (sd_subkeys d), sd_rest d)).

(** [FullyDecodeFrom]: the key, if there is no error. Which of two error codes
    is returned depends on how far a failing decoder got. *)
Definition SubDocKey_FullyDecodeFrom (release : bool) (key : SubDocKey) (require_hybrid_time : bool)
    (slice : bytes) : Outcome (option SubDocKey) :=
  match SubDocKey_DecodeFrom release key require_hybrid_time slice with
  | Done (Ok (key, [])) => Done (Some key)
  | Done (Ok (_, _ :: _)) => Done None
  | Done (Error _) => Done None
  | Fatal => Fatal
  | Undefined => Undefined
  end.

(** [PartiallyDecode]: the slices of the range group and of the time. *)
Definition SubDocKey_PartiallyDecode (release : bool) (slice : bytes)
    : Outcome (Result (list bytes * bytes)) :=
  d ⇐ SubDocKey_DoDecode release (DocKey_PartiallyDecode (D := D) (V := V)) false true slice;
  Done (Ok (sd_doc_key d ++ (if sd_doc_ht_slice d is Some s then [s] else []), sd_rest d)).

(** *** Prefixes *)

(** The loop over the range group; [size] bytes there were at first. *)
Fixpoint range_prefixes (fuel size : nat) (slice : bytes) (out : list nat)
    : Outcome (Result (list nat * bytes)) :=
  match fuel with
  | O => Done (Error Incomplete)
  | S fuel' =>
      '(more, slice) ⇐ ConsumePrimitiveValueFromKey (D := D) (V := V) slice;
      if (more : bool) then range_prefixes fuel' size slice (out ++ [size - length slice]%nat)
      else Done (Ok (out, slice))
  end.

(** The loop over the sub-keys. *)
Fixpoint subkey_prefixes (fuel size : nat) (slice : bytes) (out : list nat)
    : Outcome (Result (list nat)) :=
  match fuel with
  | O => Done (Error Incomplete)
  | S fuel' =>
      '(subkey, slice) ⇐ DecodeSubkey false slice;
      match subkey with
      | Some _ => subkey_prefixes fuel' size slice (out ++ [size - length slice]%nat)
      | None => Done (Ok out)
      end
  end.

(** [++out->back()], after the test of the byte there. *)
Definition include_group_end (key : bytes) (out : list nat) : Outcome (Result (list nat)) :=
  match last out with
  | None => Done (Ok out)
  | Some back =>
      match key !! back with
      | None => Undefined
      | Some b =>
          if negb (b =? ValueTypeAsChar kGroupEnd) then Done (Error Corruption)
          else Done (Ok (take (length out - 1) out ++ [S back]))
      end
  end.

(** [out] is empty in every caller. *)
Definition DecodePrefixLengths (key : bytes) : Outcome (Result (list nat)) :=
  hashed_part_size ⇐ EncodedSize (D := D) (V := V) HASHED_PART_ONLY false key;
  let slice := drop hashed_part_size key in
  let out := if negb (hashed_part_size =? 0)%nat then [hashed_part_size] else [] in
  '(out, slice) ⇐ range_prefixes (S (length slice)) (length key) slice out;
  out ⇐ include_group_end key out;
  subkey_prefixes (S (length slice)) (length key) slice out.

Definition DecodeDocKeyAndSubKeyEnds (key : bytes) (out : list nat) : Outcome (Result (list nat)) :=
  match last out with
  | None =>
      doc_key_size ⇐ EncodedSize (D := D) (V := V) WHOLE_DOC_KEY false key;
      subkey_prefixes (S (length key)) (length key) (drop doc_key_size key) [doc_key_size]
  | Some back =>
      if (length key <? back)%nat then Undefined
      else subkey_prefixes (S (length key)) (length key) (drop back key) out
  end.

End decode.

(** ** Equality and comparison *)

Definition SubDocKey_eq (a b : SubDocKey) : Outcome bool :=
  e ← DocKey_eq (doc_key_ a) (doc_key_ b);
  if (e : bool) then
    if bool_decide (doc_ht_ a = doc_ht_ b) then vector_eq (subkeys_ a) (subkeys_ b)
    else Done false
  else Done false.

(** [StartsWith]; [all_eq] stops, like [std::mismatch], at the end of the
    first vector, here the shorter one. *)
Definition StartsWith (key prefix : SubDocKey) : Outcome bool :=
  e ← DocKey_eq (doc_key_ key) (doc_key_ prefix);
  if (e : bool)
     && (negb (has_hybrid_time prefix)
         || (bool_decide (doc_ht_ key = doc_ht_ prefix)
             && (num_subkeys prefix =? num_subkeys key)%nat))
     && (num_subkeys prefix <=? num_subkeys key)%nat
  then all_eq (subkeys_ prefix) (subkeys_ key)
  else Done false.

Definition CompareToIgnoreHt (release : bool) `{BoostUuid} (a b : SubDocKey) : Outcome Z :=
  result ← DocKey_CompareTo release (doc_key_ a) (doc_key_ b);
  if negb (result =? 0) then Done result else CompareVectors (subkeys_ a) (subkeys_ b).

Definition SubDocKey_CompareTo (release : bool) `{BoostUuid} (a b : SubDocKey) : Outcome Z :=
  result ← CompareToIgnoreHt release a b;
  if negb (result =? 0) then Done result
  else Done (- DocHybridTime.CompareTo (doc_ht_ a) (doc_ht_ b)).

(** ** Lemmas *)

Section keys.
Context `{BoostUuid} {D V : Type} `{CD : ComparableNumber D} `{CV : ComparableNumber V}.
Context (release : bool).

Abbreviation pv_enc := (key_encoding release).
Abbreviation dockey_enc := (dockey_encoding release).
Abbreviation ht_tag := (ValueTypeAsChar kHybridTime).

Definition subkey_ok (pv : PrimitiveValue) : Prop := pv_ok (D := D) (V := V) pv /\ type_of pv ≠ kHybridTime.

Record subdockey_ok (key : SubDocKey) : Prop := {
  sdk_doc_key : dockey_ok (D := D) (V := V) (doc_key_ key);
  sdk_subkeys : Forall subkey_ok (subkeys_ key);
  sdk_ht : if has_hybrid_time key then dht_ok (doc_ht_ key) else doc_ht_ key = invalid_doc_ht
}.

Definition ht_encoding (key : SubDocKey) : bytes :=
  if has_hybrid_time key then ht_tag :: EncodedInDocDbFormat (doc_ht_ key) else [].

Definition subkeys_encoding (l : list PrimitiveValue) : bytes := concat (pv_enc <$> l).

(** The key without its time. *)
Definition path_encoding (key : SubDocKey) : bytes :=
  dockey_enc (doc_key_ key) ++ subkeys_encoding (subkeys_ key).

Lemma subkeys_ok l : Forall subkey_ok l -> Forall (pv_ok (D := D) (V := V)) l.
Proof. intros Hl. eapply Forall_impl; [exact Hl|]. by intros ? []. Qed.

Lemma subkeys_encoding_app l1 l2 : subkeys_encoding (l1 ++ l2) = subkeys_encoding l1 ++ subkeys_encoding l2.
Proof. unfold subkeys_encoding. by rewrite fmap_app, concat_app. Qed.

Lemma subkeys_encoding_ok l : Forall subkey_ok l -> bytes_ok (subkeys_encoding l).
Proof.
  intros Hl. apply Forall_concat, Forall_fmap. eapply Forall_impl; [exact Hl|].
  intros pv [Hpv _]. by apply (key_encoding_ok (D := D) (V := V)).
Qed.

Lemma ht_encoding_ok key : subdockey_ok key -> bytes_ok (ht_encoding key).
Proof.
  intros [_ _ Hh]. unfold ht_encoding. destruct (has_hybrid_time key); [|constructor].
  constructor; [apply ValueTypeAsChar_byte|by apply dht_encoded_ok].
Qed.

Lemma DoEncode_encoding include key :
  dockey_ok (D := D) (V := V) (doc_key_ key) -> Forall subkey_ok (subkeys_ key) ->
  DoEncode release include key = Done (path_encoding key ++ (if (include : bool) then ht_encoding key else [])).
Proof.
  intros Hd Hs. unfold DoEncode, Encode, path_encoding, ht_encoding.
  rewrite (AppendTo_encoding (D := D) (V := V)) by done. cbn [mbind outcome_bind app].
  rewrite (append_items_encoding (D := D) (V := V)) by by apply subkeys_ok.
  cbn [mbind outcome_bind]. unfold AppendDocHybridTime, AppendValueType, AppendEncodedInDocDbFormat.
  destruct (has_hybrid_time key), include; cbn [andb]; rewrite ?app_nil_r, <- ?app_assoc; done.
Qed.

(** *** Decoding *)

Definition at_time (rest : bytes) : Prop := rest = [] \/ head rest = Some ht_tag.

Lemma DecodeSubkey_encoding out pv rest :
  subkey_ok pv -> bytes_ok rest ->
  DecodeSubkey (D := D) (V := V) out (pv_enc pv ++ rest) = Done (Ok (Some (out_value out pv), rest)).
Proof.
  intros [Hpv Ht] Hr. pose proof (DecodeKey_encoding (D := D) (V := V) release out pv rest Hpv Hr) as E.
  destruct (key_encoding_cons release pv) as [e Ee]. rewrite Ee in E |- *. cbn [app DecodeSubkey] in E |- *.
  rewrite (proj2 (Z.eqb_neq _ _)) by (intros Et; by apply Ht, ValueTypeAsChar_inj). cbn [negb]. by rewrite E.
Qed.

Lemma DecodeSubkey_end out rest : at_time rest -> DecodeSubkey (D := D) (V := V) out rest = Done (Ok (None, rest)).
Proof. intros [->|E]; [done|]. destruct rest as [|b rest]; [done|]. cbn in E. by injection E as ->. Qed.

Lemma subkeys_length l : (length l <= length (subkeys_encoding l))%nat.
Proof.
  induction l as [|pv l IH]; [done|]. unfold subkeys_encoding in *. cbn [fmap list_fmap concat].
  rewrite length_app. destruct (key_encoding_cons release pv) as [e ->]. simpl. lia.
Qed.

Lemma decode_subkeys_encoding out l rest fuel acc :
  Forall subkey_ok l -> bytes_ok rest -> at_time rest -> (length l < fuel)%nat ->
  decode_subkeys (D := D) (V := V) fuel out (subkeys_encoding l ++ rest) acc =
  Done (Ok (acc ++ (out_value out <$> l), rest)).
Proof.
  intros Hl Hr Ht. revert fuel acc.
  induction Hl as [|pv l Hpv Hl IH]; intros [|fuel] acc Hf; try (simpl in Hf; lia); cbn [decode_subkeys].
  { unfold subkeys_encoding. cbn [fmap list_fmap concat app]. rewrite DecodeSubkey_end by done.
    cbn [or_bind]. by rewrite app_nil_r. }
  unfold subkeys_encoding. cbn [fmap list_fmap concat]. rewrite <- app_assoc. fold (subkeys_encoding l).
  rewrite DecodeSubkey_encoding; [|done|apply Forall_app; split; [by apply subkeys_encoding_ok|done]].
  cbn [or_bind]. rewrite IH by (simpl in Hf; lia). by rewrite <- app_assoc.
Qed.

Lemma at_time_encoding key rest : (has_hybrid_time key = false -> rest = []) -> at_time (ht_encoding key ++ rest).
Proof. intros Hr. unfold ht_encoding. destruct (has_hybrid_time key); [by right|]. left. by apply Hr. Qed.

Lemma SubDocKey_DoDecode_encoding {K} decode_doc_key (k : K) out require key rest :
  subdockey_ok key -> bytes_ok rest -> (has_hybrid_time key = false -> rest = [] /\ require = false) ->
  (∀ rest, bytes_ok rest -> decode_doc_key (dockey_enc (doc_key_ key) ++ rest) = Done (Ok (k, rest))) ->
  SubDocKey_DoDecode (D := D) (V := V) release decode_doc_key out require
    ((path_encoding key ++ ht_encoding key) ++ rest) =
  Done (Ok (mkSubDecoded _ k (out_value out <$> subkeys_ key) (doc_ht_ key)
    (if has_hybrid_time key then Some (EncodedInDocDbFormat (doc_ht_ key)) else None) rest)).
Proof.
  intros Hok Hr Hn Hk. pose proof (ht_encoding_ok key Hok) as Oh. destruct Hok as [Hd Hs Hh].
  assert (bytes_ok (ht_encoding key ++ rest)) as Or by (by apply Forall_app).
  unfold SubDocKey_DoDecode, path_encoding. rewrite <- !app_assoc, Hk; cbn [or_bind].
  2:{ apply Forall_app; split; [by apply subkeys_encoding_ok|done]. }
  pose proof (subkeys_length (subkeys_ key)).
  rewrite decode_subkeys_encoding; [|done|done|apply at_time_encoding; intros E; by apply Hn|rewrite length_app; lia].
  cbn [or_bind app]. clear Or Oh. unfold ht_encoding. destruct (has_hybrid_time key).
  - cbn [app]. rewrite Z.eqb_refl. replace (if release then Done tt else CHECK true) with (Done tt) by (by destruct release).
    cbn [mbind outcome_bind]. rewrite DecodeFrom_EncodedInDocDbFormat by done. cbn [or_bind].
    by rewrite length_app, Nat.add_sub, take_app_length.
  - destruct (Hn eq_refl) as [-> ->]. by rewrite Hh.
Qed.

Lemma SubDocKey_DecodeFrom_encoding old require key rest :
  cotable_id_ (doc_key_ old) = nil_uuid -> subdockey_ok key -> bytes_ok rest ->
  (has_hybrid_time key = false -> rest = [] /\ require = false) ->
  SubDocKey_DecodeFrom (D := D) (V := V) release old require ((path_encoding key ++ ht_encoding key) ++ rest) =
  Done (Ok (key, rest)).
Proof.
  intros Ho Hok Hr Hn. unfold SubDocKey_DecodeFrom.
  rewrite (SubDocKey_DoDecode_encoding _ (doc_key_ key)); [|done..|].
  - cbn [or_bind sd_doc_key sd_doc_ht sd_subkeys sd_rest]. destruct key. by rewrite list_fmap_id.
  - intros r' Hr'. apply DocKey_DecodeFrom_encoding; [done|apply Hok|done].
Qed.

(** *** Prefixes *)

(** [p] followed by one, two, ... components of [l]. *)
Fixpoint extensions (p : bytes) (l : list PrimitiveValue) : list bytes :=
  match l with [] => [] | pv :: l' => (p ++ pv_enc pv) :: extensions (p ++ pv_enc pv) l' end.

(** With the group end after the last one. *)
Definition close_last (l : list bytes) : list bytes :=
  match last l with
  | None => []
  | Some x => take (length l - 1) l ++ [x ++ [ValueTypeAsChar kGroupEnd]]
  end.

(** The prefixes before the end of the range group: the part with the hash,
    if there is one, and it with more and more range components. *)
Definition open_prefixes (key : DocKey) : list bytes :=
  (if decide (hashed_part release key = []) then [] else [hashed_part release key]) ++
  extensions (hashed_part release key) (range_group_ key).

Definition key_prefixes (key : SubDocKey) : list bytes :=
  close_last (open_prefixes (doc_key_ key)) ++ extensions (dockey_enc (doc_key_ key)) (subkeys_ key).

Lemma elem_of_extensions x p l :
  x ∈ extensions p l <-> ∃ l1, l1 ≠ [] /\ l1 `prefix_of` l /\ x = p ++ subkeys_encoding l1.
Proof.
  revert p. induction l as [|pv l IH]; intros p; cbn [extensions].
  - split; [by intros ?%elem_of_nil|]. intros (l1 & Hne & ->%prefix_nil_inv & _). done.
  - rewrite elem_of_cons, IH. split.
    + intros [->|(l1 & Hne & Hp & ->)].
      * exists [pv]. split; [done|]. split; [by apply prefix_cons, prefix_nil|].
        unfold subkeys_encoding. cbn. by rewrite app_nil_r.
      * exists (pv :: l1). split; [done|]. split; [by apply prefix_cons|].
        unfold subkeys_encoding. cbn [fmap list_fmap concat]. by rewrite <- app_assoc.
    + intros ([|x' l1] & Hne & Hp & ->); [done|]. apply prefix_cons_inv_1 in Hp as Ex.
      apply prefix_cons_inv_2 in Hp. subst x'. unfold subkeys_encoding. cbn [fmap list_fmap concat].
      destruct l1 as [|y l1]; [left; cbn; by rewrite app_nil_r|]. right.
      exists (y :: l1). split; [done|]. split; [done|]. by rewrite <- app_assoc.
Qed.

Lemma last_extensions p l : l ≠ [] -> last (extensions p l) = Some (p ++ subkeys_encoding l).
Proof.
  revert p. induction l as [|pv [|pv' l] IH]; intros p Hne; [done| |].
  - cbn. unfold subkeys_encoding. cbn. by rewrite app_nil_r.
  - cbn [extensions]. rewrite last_cons_cons. change (last (extensions (p ++ pv_enc pv) (pv' :: l)) =
      Some (p ++ subkeys_encoding (pv :: pv' :: l))). rewrite IH by done.
    unfold subkeys_encoding. cbn [fmap list_fmap concat]. by rewrite <- app_assoc.
Qed.

Lemma last_open_prefixes key :
  last (open_prefixes key) = if decide (open_prefixes key = []) then None
    else Some (hashed_part release key ++ subkeys_encoding (range_group_ key)).
Proof.
  unfold open_prefixes. destruct (range_group_ key) as [|pv l].
  - unfold subkeys_encoding. cbn. rewrite !app_nil_r. by destruct (decide (hashed_part release key = [])).
  - rewrite (decide_False (P := _ ++ _ = [])) by (by intros [_ ?]%app_nil).
    rewrite last_app, last_extensions by done. done.
Qed.

Lemma ConsumePrimitiveValue_encoding pv rest :
  component_ok (D := D) (V := V) pv -> bytes_ok rest ->
  ConsumePrimitiveValueFromKey (D := D) (V := V) (pv_enc pv ++ rest) = Done (Ok (true, rest)).
Proof.
  intros [Hpv Hb] Hr. unfold ConsumePrimitiveValueFromKey.
  assert (HasPrimitiveValue false (pv_enc pv ++ rest) = Ok (true, pv_enc pv ++ rest)) as ->.
  { pose proof (primitive_not_end _ Hb). destruct (key_encoding_cons release pv) as [e ->]. cbn [app HasPrimitiveValue].
    by rewrite (proj2 (Z.eqb_neq _ _)), Hb by lia. }
  cbn [or_bind]. by rewrite (DecodeKey_encoding (D := D) (V := V)).
Qed.

Lemma range_prefixes_encoding p l rest fuel out :
  Forall (component_ok (D := D) (V := V)) l -> bytes_ok rest -> (length l < fuel)%nat ->
  range_prefixes (D := D) (V := V) fuel
    (length (p ++ group_encode (ValueTypeAsChar kGroupEnd) pv_enc l ++ rest))
    (group_encode (ValueTypeAsChar kGroupEnd) pv_enc l ++ rest) out =
  Done (Ok (out ++ (length <$> extensions p l), rest)).
Proof.
  intros Hl Hr. revert p fuel out.
  induction Hl as [|pv l Hpv Hl IH]; intros p [|fuel] out Hf; try (simpl in Hf; lia); cbn [range_prefixes].
  { cbn. by rewrite app_nil_r. }
  rewrite group_encode_cons, <- app_assoc.
  rewrite ConsumePrimitiveValue_encoding; [|done|apply Forall_app; split; [by apply (group_enc_ok (D := D) (V := V))|done]].
  cbn [or_bind]. rewrite app_assoc, IH by (simpl in Hf; lia).
  cbn [extensions fmap list_fmap]. rewrite <- app_assoc. cbn [app].
  do 5 f_equal. rewrite !length_app. lia.
Qed.

Lemma subkey_prefixes_encoding p l rest fuel out :
  Forall subkey_ok l -> bytes_ok rest -> at_time rest -> (length l < fuel)%nat ->
  subkey_prefixes (D := D) (V := V) fuel (length (p ++ subkeys_encoding l ++ rest))
    (subkeys_encoding l ++ rest) out = Done (Ok (out ++ (length <$> extensions p l))).
Proof.
  intros Hl Hr Ht. revert p fuel out.
  induction Hl as [|pv l Hpv Hl IH]; intros p [|fuel] out Hf; try (simpl in Hf; lia); cbn [subkey_prefixes].
  { unfold subkeys_encoding. cbn [fmap list_fmap concat app]. rewrite DecodeSubkey_end by done.
    cbn. by rewrite app_nil_r. }
  assert (subkeys_encoding (pv :: l) = pv_enc pv ++ subkeys_encoding l) as -> by done.
  rewrite <- app_assoc. rewrite DecodeSubkey_encoding;
    [|done|apply Forall_app; split; [by apply subkeys_encoding_ok|done]].
  cbn [or_bind]. rewrite app_assoc, IH by (simpl in Hf; lia).
  cbn [extensions fmap list_fmap]. rewrite <- app_assoc. cbn [app].
  do 5 f_equal. rewrite !length_app. lia.
Qed.

Lemma include_group_end_encoding key rest :
  include_group_end (dockey_enc key ++ rest) (length <$> open_prefixes key) =
  Done (Ok (length <$> close_last (open_prefixes key))).
Proof.
  unfold include_group_end, close_last. rewrite fmap_last, last_open_prefixes.
  destruct (decide (open_prefixes key = [])) as [->|Hne]; [done|]. cbn [fmap option_fmap option_map].
  rewrite dockey_encoding_parts. unfold group_encode. rewrite <- !app_assoc, (app_assoc (hashed_part _ _)).
  fold (subkeys_encoding (range_group_ key)). rewrite lookup_app_r, Nat.sub_diag by lia. cbn [app lookup list_lookup].
  rewrite Z.eqb_refl. cbn [negb]. do 2 f_equal. rewrite fmap_app, fmap_take, length_fmap. cbn.
  do 2 f_equal. rewrite !length_app. simpl. lia.
Qed.

Lemma hashed_prefix_lengths key :
  (if negb (length (hashed_part release key) =? 0)%nat then [length (hashed_part release key)] else []) ++
  (length <$> extensions (hashed_part release key) (range_group_ key)) = length <$> open_prefixes key.
Proof.
  unfold open_prefixes. rewrite fmap_app. f_equal.
  destruct (decide (hashed_part release key = [])) as [->|Hne]; [done|].
  rewrite (proj2 (Nat.eqb_neq _ _)); [done|]. by destruct (hashed_part release key).
Qed.

Lemma DecodePrefixLengths_encoding key rest :
  subdockey_ok key -> bytes_ok rest -> at_time rest ->
  DecodePrefixLengths (D := D) (V := V) (path_encoding key ++ rest) = Done (Ok (length <$> key_prefixes key)).
Proof.
  intros [Hd Hs _] Hr Ht. unfold DecodePrefixLengths, path_encoding. rewrite <- app_assoc.
  assert (bytes_ok (subkeys_encoding (subkeys_ key) ++ rest)) as Os
    by (apply Forall_app; split; [by apply subkeys_encoding_ok|done]).
  rewrite EncodedSize_encoding by done. cbn [or_bind].
  set (tl := subkeys_encoding (subkeys_ key) ++ rest) in *. set (d := doc_key_ key) in *.
  set (g := group_encode (ValueTypeAsChar kGroupEnd) pv_enc (range_group_ d)).
  assert (dockey_enc d ++ tl = hashed_part release d ++ g ++ tl) as Ek
    by (by rewrite dockey_encoding_parts, <- app_assoc).
  assert (drop (length (hashed_part release d)) (dockey_enc d ++ tl) = g ++ tl) as ->
    by (by rewrite Ek, drop_app_length).
  rewrite Ek at 1. unfold g at 2 3. rewrite range_prefixes_encoding; [|apply Hd|done|].
  2:{ unfold g. rewrite length_app.
      destruct (group_encode_length release (ValueTypeAsChar kGroupEnd) (range_group_ d)). lia. }
  cbn [or_bind]. rewrite hashed_prefix_lengths, include_group_end_encoding. cbn [or_bind].
  unfold tl. rewrite subkey_prefixes_encoding; [|done..|].
  - by rewrite <- fmap_app.
  - rewrite length_app. pose proof (subkeys_length (subkeys_ key)). lia.
Qed.

Lemma extensions_app p l1 l2 :
  extensions p (l1 ++ l2) = extensions p l1 ++ extensions (p ++ subkeys_encoding l1) l2.
Proof.
  revert p. induction l1 as [|pv l1 IH]; intros p; cbn [extensions app].
  - unfold subkeys_encoding. cbn. by rewrite app_nil_r.
  - rewrite IH. unfold subkeys_encoding. cbn [fmap list_fmap concat]. by rewrite <- app_assoc.
Qed.

Lemma length_extensions p l : length (extensions p l) = length l.
Proof. revert p. induction l as [|pv l IH]; intros p; [done|]. cbn. by rewrite IH. Qed.

(** The document key and the document key with more and more sub-keys. *)
Definition key_ends (key : SubDocKey) : list bytes :=
  dockey_enc (doc_key_ key) :: extensions (dockey_enc (doc_key_ key)) (subkeys_ key).

Lemma last_key_ends p l : last (p :: extensions p l) = Some (p ++ subkeys_encoding l).
Proof.
  destruct l as [|pv l]; [unfold subkeys_encoding; cbn; by rewrite app_nil_r|].
  by rewrite <- (last_extensions p (pv :: l)).
Qed.

Lemma DecodeDocKeyAndSubKeyEnds_encoding key l1 l2 rest :
  subdockey_ok key -> bytes_ok rest -> at_time rest -> subkeys_ key = l1 ++ l2 ->
  DecodeDocKeyAndSubKeyEnds (D := D) (V := V) (path_encoding key ++ rest) [] =
    Done (Ok (length <$> key_ends key)) /\
  DecodeDocKeyAndSubKeyEnds (D := D) (V := V) (path_encoding key ++ rest)
    (length <$> dockey_enc (doc_key_ key) :: extensions (dockey_enc (doc_key_ key)) l1) =
    Done (Ok (length <$> key_ends key)).
Proof.
  intros [Hd Hs _] Hr Ht E. unfold DecodeDocKeyAndSubKeyEnds, path_encoding, key_ends. rewrite <- app_assoc.
  assert (bytes_ok (subkeys_encoding (subkeys_ key) ++ rest)) as Os
    by (apply Forall_app; split; [by apply subkeys_encoding_ok|done]).
  pose proof (subkeys_length (subkeys_ key)) as Hlen. split.
  - cbn [last]. rewrite EncodedSize_encoding by done. cbn [or_bind]. rewrite drop_app_length.
    by rewrite subkey_prefixes_encoding by (done || rewrite !length_app; lia).
  - rewrite fmap_last, last_key_ends. cbn [fmap option_fmap option_map].
    rewrite E in *. apply Forall_app in Hs as [_ Hs].
    assert (dockey_enc (doc_key_ key) ++ subkeys_encoding (l1 ++ l2) ++ rest =
      (dockey_enc (doc_key_ key) ++ subkeys_encoding l1) ++ subkeys_encoding l2 ++ rest) as ->
      by (by rewrite subkeys_encoding_app, <- !app_assoc).
    rewrite (proj2 (Nat.ltb_ge _ _)), drop_app_length by (rewrite !length_app; lia).
    rewrite subkey_prefixes_encoding; [|done..|pose proof (subkeys_length l2); rewrite !length_app; lia].
    rewrite extensions_app. cbn [fmap list_fmap app]. by rewrite fmap_app.
Qed.

(** *** Order *)

Definition subkey_ordered : PrimitiveValue -> Prop := marked_ordered (D := D) (V := V) ht_tag.

Record subdockey_ordered (key : SubDocKey) : Prop := {
  sdo_doc_key : dockey_ordered (D := D) (V := V) (doc_key_ key);
  sdo_subkeys : Forall subkey_ordered (subkeys_ key);
  sdo_has_ht : has_hybrid_time key = true;
  sdo_ht : dht_ok (doc_ht_ key)
}.

Lemma subdockey_ordered_ok key : subdockey_ordered key -> subdockey_ok key.
Proof.
  intros [[Hd _ _ _] Hs Hh Ht]. split; [done| |by rewrite Hh].
  eapply Forall_impl; [exact Hs|]. intros pv [Ho Hm]. split; [by apply pv_ordered_ok|].
  intros E. rewrite E in Hm. lia.
Qed.

Lemma DocKey_CompareTo_refl a : dockey_ordered (D := D) (V := V) a -> DocKey_CompareTo release a a = Done 0.
Proof.
  intros [Ok Hv Hg Hr]. unfold DocKey_CompareTo.
  pose proof (uuid_compare (cotable_id_ a) (cotable_id_ a) (dk_cotable _ Ok) (dk_cotable _ Ok) Hv Hv) as E.
  rewrite bytes_compare_refl in E. apply Z.compare_eq in E. rewrite E, eqb_reflx. cbn [Z.eqb negb].
  replace (if release then Done tt else CHECK true) with (Done tt) by (by destruct release).
  cbn [mbind outcome_bind]. rewrite compare_using_refl by apply Z.ltb_irrefl.
  replace (if hash_present_ a then 0 else 0) with 0 by (by destruct (hash_present_ a)). cbn [Z.eqb negb].
  by rewrite !(CompareVectors_refl (D := D) (V := V)).
Qed.

Lemma subdockey_encoding_group key :
  has_hybrid_time key = true ->
  path_encoding key ++ ht_encoding key =
  dockey_enc (doc_key_ key) ++ group_encode ht_tag pv_enc (subkeys_ key) ++ EncodedInDocDbFormat (doc_ht_ key).
Proof.
  intros Hh. unfold path_encoding, ht_encoding, group_encode, subkeys_encoding. rewrite Hh, <- !app_assoc. done.
Qed.

Lemma dht_compare_sign a b : (- DocHybridTime.CompareTo a b ?= 0) = CompOpp (dht_compare a b).
Proof. rewrite CompareTo_spec. by destruct (dht_compare a b). Qed.

Lemma dht_compare_neq a b : a ≠ b -> dht_compare a b ≠ Eq.
Proof.
  intros Hne E. apply Hne. unfold dht_compare in E. destruct (hybrid_time a ?= hybrid_time b) eqn:Eh; try done.
  apply Z.compare_eq in Eh, E. destruct a, b; simpl in *; congruence.
Qed.

Lemma subdoc_key_order_aux a b r1 r2 :
  subdockey_ordered a -> subdockey_ordered b -> same_shape (doc_key_ a) (doc_key_ b) -> a ≠ b ->
  ∃ z, SubDocKey_CompareTo release a b = Done z /\ z ≠ 0 /\
    bytes_compare ((path_encoding a ++ ht_encoding a) ++ r1) ((path_encoding b ++ ht_encoding b) ++ r2) = (z ?= 0).
Proof.
  intros [Da Sa Ha Ta] [Db Sb Hb Tb] Hs Hne. rewrite !subdockey_encoding_group, <- !app_assoc by done.
  unfold SubDocKey_CompareTo, CompareToIgnoreHt. destruct a as [da ta sa], b as [db tb sb].
  cbn [doc_key_ doc_ht_ subkeys_] in *. destruct (decide (da = db)) as [->|Hd].
  2:{ destruct (doc_key_order_aux (D := D) (V := V) release da db
        (group_encode ht_tag pv_enc sa ++ EncodedInDocDbFormat ta ++ r1)
        (group_encode ht_tag pv_enc sb ++ EncodedInDocDbFormat tb ++ r2)) as (z & -> & Hz & ->); [done..|].
      cbn [mbind outcome_bind]. rewrite (proj2 (Z.eqb_neq _ _) Hz). cbn [negb mbind outcome_bind].
      rewrite (proj2 (Z.eqb_neq _ _) Hz). eauto. }
  rewrite DocKey_CompareTo_refl, bytes_compare_app_l by done. cbn [mbind outcome_bind Z.eqb negb].
  destruct (decide (sa = sb)) as [->|Hsub].
  2:{ destruct (CompareVectors_order (D := D) (V := V) release ht_tag sa sb (EncodedInDocDbFormat ta ++ r1)
        (EncodedInDocDbFormat tb ++ r2)) as (z & -> & Hz & ->); [apply ValueTypeAsChar_byte|done..|].
      cbn [mbind outcome_bind]. rewrite (proj2 (Z.eqb_neq _ _) Hz). eauto. }
  rewrite (CompareVectors_refl (D := D) (V := V)) by (eapply Forall_impl; [exact Sb|]; by intros ? []).
  cbn [mbind outcome_bind Z.eqb negb]. rewrite bytes_compare_app_l.
  assert (ta ≠ tb) as Hht by congruence. eexists. split; [done|].
  pose proof (dht_compare_sign ta tb) as E. pose proof (dht_compare_neq ta tb Hht) as Hc. split.
  - intros Ez. rewrite Ez in E. by destruct (dht_compare ta tb).
  - by rewrite E, dht_order_aux.
Qed.

(** *** Equality *)

Lemma eqb_decide {A : Type} `{EqDecision A} (f : Z -> A) x y :
  (f x = f y -> x = y) -> (x =? y) = bool_decide (f x = f y).
Proof. intros Hf. case_bool_decide as E; [apply Z.eqb_eq; by apply Hf|]. apply Z.eqb_neq. congruence. Qed.

Lemma ieee_eq_decide {A : Type} `{EqDecision A} (f : Z -> A) w inf x y :
  (f x = f y -> x = y) -> 0 < w -> is_u w x -> is_u w y -> x ≠ 2 ^ (w - 1) -> y ≠ 2 ^ (w - 1) ->
  ieee_nan w inf x = false -> ieee_nan w inf y = false ->
  ieee_nan w inf x && ieee_nan w inf y || ieee_eq w inf x y = bool_decide (f x = f y).
Proof.
  intros Hf Hw Hx Hy Nx Ny Fx Fy. unfold ieee_eq. rewrite Fx, Fy. cbn [andb orb negb].
  rewrite <- (eqb_decide f) by done. unfold ieee_value, is_u in *.
  assert (2 ^ w = 2 * 2 ^ (w - 1)) by (rewrite <- Z.pow_succ_r by lia; f_equal; lia).
  destruct (Z.ltb_spec x (2 ^ (w - 1))), (Z.ltb_spec y (2 ^ (w - 1)));
    destruct (Z.eqb_spec x y); try done; apply Z.eqb_eq || apply Z.eqb_neq; lia.
Qed.

Lemma scalar_eq_spec t x y :
  scalar_ok (D := D) (V := V) t x -> scalar_ordered t x ->
  scalar_ok (D := D) (V := V) t y -> scalar_ordered t y ->
  scalar_eq t x y = Done (bool_decide (x = y)).
Proof.
  intros Ox Sx Oy Sy. destruct t, x; try contradiction; destruct y; try contradiction;
    cbn [scalar_ok scalar_ordered scalar_eq] in *; try reflexivity; f_equal;
    try (apply bool_decide_ext; split; congruence);
    try (match goal with |- _ = bool_decide (?f _ = _) => apply (eqb_decide f); congruence end);
    try (match goal with |- _ = bool_decide (?f _ = _) =>
           apply (ieee_eq_decide f); [congruence|done|done|done|apply Sx|apply Sy|apply Sx|apply Sy] end).
  rewrite CompareTo_spec. case_bool_decide as E.
  - injection E as ->. unfold dht_compare. by rewrite !Z.compare_refl.
  - pose proof (dht_compare_neq t t0 ltac:(congruence)). by destruct (dht_compare t t0).
Qed.

Lemma all_eq_spec l1 l2 :
  Forall (λ x, ∀ y, pv_ordered (D := D) (V := V) y -> pv_eq x y = Done (bool_decide (x = y))) l1 ->
  Forall (pv_ordered (D := D) (V := V)) l2 -> (length l1 <= length l2)%nat ->
  all_eq l1 l2 = Done (bool_decide (l1 `prefix_of` l2)).
Proof.
  intros H1. revert l2. induction H1 as [|x l1 Hx _ IH]; intros [|y l2] H2 Hl; try (simpl in Hl; lia); cbn [all_eq].
  - by rewrite bool_decide_eq_true_2 by apply prefix_nil.
  - by rewrite bool_decide_eq_true_2 by apply prefix_nil.
  - apply Forall_cons in H2 as [Hy H2]. rewrite Hx by done. cbn [mbind outcome_bind].
    destruct (decide (x = y)) as [->|Hne].
    + rewrite bool_decide_eq_true_2, IH by (done || simpl in Hl; lia). f_equal. apply bool_decide_ext.
      split; [apply prefix_cons|apply prefix_cons_inv_2].
    + rewrite !bool_decide_eq_false_2; [done|intros E%prefix_cons_inv_1; congruence|done].
Qed.

Lemma prefix_same_length {A} (l1 l2 : list A) : length l1 = length l2 -> l1 `prefix_of` l2 -> l1 = l2.
Proof. intros Hl [k ->]. rewrite length_app in Hl. destruct k; [by rewrite app_nil_r|simpl in Hl; lia]. Qed.

Lemma pv_eq_spec a b :
  pv_ordered (D := D) (V := V) a -> pv_ordered (D := D) (V := V) b -> pv_eq a b = Done (bool_decide (a = b)).
Proof.
  revert b. induction a as [t x|d l1 IH] using PrimitiveValue_nested_ind; intros b Ha Hb.
  - destruct b as [t' y|d' l2]; cbn [pv_eq type_of].
    + case_bool_decide as Et; cbn [negb]; [|by rewrite bool_decide_eq_false_2 by congruence].
      subst t'. inversion_clear Ha. inversion_clear Hb. rewrite scalar_eq_spec by done. f_equal.
      apply bool_decide_ext. split; congruence.
    + case_bool_decide as Et; cbn [negb]; [|by rewrite bool_decide_eq_false_2 by congruence].
      inversion_clear Ha as [?? Hs|]. destruct (scalar_ok_tag _ _ Hs) as (? & ? & _). by destruct d'.
  - inversion_clear Ha as [|?? Hl _]. destruct b as [t' y|d' l2].
    + cbn [pv_eq type_of]. case_bool_decide as Et; cbn [negb]; [|by rewrite bool_decide_eq_false_2 by congruence].
      inversion_clear Hb as [?? Hs|]. destruct (scalar_ok_tag _ _ Hs) as (? & ? & _). by destruct d.
    + inversion_clear Hb as [|?? Hl' _].
      change (pv_eq (mkFrozen d l1) (mkFrozen d' l2)) with
        (if negb (bool_decide (frozen_type d = frozen_type d')) then Done false
         else if negb (length l1 =? length l2)%nat then Done false else all_eq l1 l2).
      case_bool_decide as Ed; cbn [negb]; [|by rewrite bool_decide_eq_false_2 by congruence].
      assert (d = d') as -> by (by destruct d, d').
      destruct (Nat.eqb_spec (length l1) (length l2)) as [El|]; cbn [negb];
        [|by rewrite bool_decide_eq_false_2 by congruence].
      rewrite all_eq_spec; [|rewrite Forall_forall in *; auto|done|lia]. f_equal. apply bool_decide_ext.
      split; [by intros ->%prefix_same_length|by intros [= ->]].
Qed.

Lemma all_eq_prefix l1 l2 :
  Forall (pv_ordered (D := D) (V := V)) l1 -> Forall (pv_ordered (D := D) (V := V)) l2 ->
  (length l1 <= length l2)%nat -> all_eq l1 l2 = Done (bool_decide (l1 `prefix_of` l2)).
Proof.
  intros H1. apply all_eq_spec. eapply Forall_impl; [exact H1|]. intros x Hx y Hy. by apply pv_eq_spec.
Qed.

Lemma vector_eq_spec l1 l2 :
  Forall (pv_ordered (D := D) (V := V)) l1 -> Forall (pv_ordered (D := D) (V := V)) l2 ->
  vector_eq l1 l2 = Done (bool_decide (l1 = l2)).
Proof.
  intros H1 H2. unfold vector_eq. destruct (Nat.eqb_spec (length l1) (length l2)) as [El|]; cbn [negb];
    [|by rewrite bool_decide_eq_false_2 by congruence].
  rewrite all_eq_prefix by (done || lia). f_equal. apply bool_decide_ext.
  split; [by apply prefix_same_length|by intros ->].
Qed.

Lemma DocKey_eq_spec a b :
  dockey_ordered (D := D) (V := V) a -> dockey_ordered (D := D) (V := V) b ->
  DocKey_eq a b = Done (bool_decide (a = b)).
Proof.
  intros [Oa _ Ga Ra] [Ob _ Gb Rb]. pose proof (dk_hash _ Oa) as Ka. pose proof (dk_hash _ Ob) as Kb.
  unfold DocKey_eq, hashed_components_eq. rewrite !vector_eq_spec by done. clear Oa Ob.
  destruct a as [ca pa ha ga ra], b as [cb pb hb gb rb].
  cbn [cotable_id_ hash_present_ hash_ hashed_group_ range_group_] in *.
  case_bool_decide as Ec; cbn [negb]; [|by rewrite bool_decide_eq_false_2 by congruence]. subst cb.
  destruct (eqb pa pb) eqn:Ep; cbn [negb mbind outcome_bind].
  2:{ rewrite bool_decide_eq_false_2; [done|]. intros [= -> _ _ _]. by rewrite eqb_reflx in Ep. }
  apply eqb_prop in Ep as ->. destruct pb; cbn [negb mbind outcome_bind].
  - destruct (Z.eqb_spec ha hb) as [->|Hh]; cbn [negb mbind outcome_bind];
      [|by rewrite bool_decide_eq_false_2 by congruence].
    case_bool_decide as Eg; [|by rewrite bool_decide_eq_false_2 by congruence]. subst gb.
    f_equal. apply bool_decide_ext. split; congruence.
  - destruct Ka as [-> ->], Kb as [-> ->]. f_equal. apply bool_decide_ext. split; congruence.
Qed.

(** What a prefix without a time has to be comparable. *)
Record path_ordered (key : SubDocKey) : Prop := {
  po_doc_key : dockey_ordered (D := D) (V := V) (doc_key_ key);
  po_subkeys : Forall subkey_ordered (subkeys_ key)
}.

Lemma subkeys_pv_ordered l : Forall subkey_ordered l -> Forall (pv_ordered (D := D) (V := V)) l.
Proof. intros Hl. eapply Forall_impl; [exact Hl|]. by intros ? []. Qed.

Lemma StartsWith_spec key prefix :
  path_ordered key -> path_ordered prefix -> has_hybrid_time prefix = false ->
  StartsWith key prefix =
  Done (bool_decide (doc_key_ key = doc_key_ prefix /\ subkeys_ prefix `prefix_of` subkeys_ key)).
Proof.
  intros [Dk Sk] [Dp Sp] Hp. unfold StartsWith. rewrite DocKey_eq_spec, Hp by done. cbn [mbind outcome_bind negb orb].
  rewrite andb_true_r. unfold num_subkeys.
  case_bool_decide as Ed; cbn [andb]; [|by rewrite bool_decide_eq_false_2 by (by intros [? _])].
  destruct (Nat.leb_spec (length (subkeys_ prefix)) (length (subkeys_ key))) as [Hl|Hl].
  - rewrite all_eq_prefix by (done || by apply subkeys_pv_ordered). f_equal. apply bool_decide_ext. tauto.
  - rewrite bool_decide_eq_false_2; [done|]. intros [_ Hl'%prefix_length]. lia.
Qed.

(** *** Seeking past a sub-document *)

(** Sub-keys are read off the bytes: a prefix of the bytes is a prefix of the
    path, up to the byte that follows it. *)
Lemma subkeys_prefix end_marker l1 l2 tl rest :
  Forall (pv_ok (D := D) (V := V)) l1 -> Forall (pv_ok (D := D) (V := V)) l2 ->
  Forall (λ pv, ValueTypeAsChar (type_of pv) ≠ end_marker) l1 ->
  bytes_ok tl -> bytes_ok rest -> (rest = [] \/ head rest = Some end_marker) ->
  subkeys_encoding l1 ++ tl = subkeys_encoding l2 ++ rest ->
  ∃ l3, l2 = l1 ++ l3 /\ tl = subkeys_encoding l3 ++ rest.
Proof.
  intros H1. revert l2. induction H1 as [|x l1 Hx H1 IH]; intros l2 H2 M1 Ot Or Hr E; [by exists l2|].
  apply Forall_cons in M1 as [Mx M1].
  assert (subkeys_encoding (x :: l1) = pv_enc x ++ subkeys_encoding l1) as Ex by done.
  assert (bytes_ok (subkeys_encoding l1 ++ tl)) as O1.
  { apply Forall_app. split; [|done]. apply Forall_concat, Forall_fmap. eapply Forall_impl; [exact H1|].
    intros pv Hpv. by apply (key_encoding_ok (D := D) (V := V)). }
  rewrite Ex, <- app_assoc in E. destruct H2 as [|y l2 Hy H2].
  - exfalso. destruct (key_encoding_cons release x) as [e Ee]. rewrite Ee in E.
    destruct Hr as [->|Hr]; [done|]. destruct rest as [|b rest]; [done|]. injection Hr as ->. cbn in E. congruence.
  - assert (subkeys_encoding (y :: l2) = pv_enc y ++ subkeys_encoding l2) as Ey by done.
    assert (bytes_ok (subkeys_encoding l2 ++ rest)) as O2.
    { apply Forall_app. split; [|done]. apply Forall_concat, Forall_fmap. eapply Forall_impl; [exact H2|].
      intros pv Hpv. by apply (key_encoding_ok (D := D) (V := V)). }
    rewrite Ey, <- app_assoc in E.
    pose proof (DecodeKey_encoding (D := D) (V := V) release true x _ Hx O1) as D1.
    pose proof (DecodeKey_encoding (D := D) (V := V) release true y _ Hy O2) as D2.
    rewrite E, D2 in D1. injection D1 as -> E'. destruct (IH l2) as (l3 & -> & ->); [done..|]. by exists l3.
Qed.

(** A key compares with an extension of [p] the way it does with [p], unless
    [p] is one of its prefixes. *)
Lemma bytes_compare_extend k p tl :
  ~ p `prefix_of` k -> bytes_compare k (p ++ tl) = bytes_compare k p.
Proof.
  revert k. induction p as [|b p IH]; intros k Hn; [by destruct Hn; apply prefix_nil|].
  destruct k as [|c k]; [done|]. cbn [app bytes_compare]. destruct (Z.compare_spec c b) as [->| |]; [|done..].
  apply IH. intros Hp. by apply Hn, prefix_cons.
Qed.

Lemma bytes_compare_below_max p b tl : b < 255 -> bytes_compare (p ++ b :: tl) (p ++ [255]) = Lt.
Proof. intros Hb. rewrite bytes_compare_app_l. cbn. by rewrite (proj2 (Z.compare_lt_iff _ _) Hb). Qed.

Lemma tag_below_max pv : pv_ok (D := D) (V := V) pv -> ValueTypeAsChar (type_of pv) < 255.
Proof.
  intros [t v Hs|[] l _]; try done. cbn [type_of]. destruct (scalar_ok_tag _ _ Hs) as (_ & _ & _ & _ & ?). by destruct t.
Qed.

Lemma subkey_ordered_ok l : Forall subkey_ordered l -> Forall subkey_ok l.
Proof.
  intros Hl. eapply Forall_impl; [exact Hl|]. intros pv [Ho Hm]. split; [by apply pv_ordered_ok|].
  intros E. rewrite E in Hm. lia.
Qed.

Lemma stored_bytes_ok key : subdockey_ok key -> bytes_ok (path_encoding key ++ ht_encoding key).
Proof.
  intros Hok. apply Forall_app. split; [|by apply ht_encoding_ok]. destruct Hok as [Hd Hs _].
  apply Forall_app. split; [by apply (dockey_encoding_ok (D := D) (V := V))|by apply subkeys_encoding_ok].
Qed.

Lemma path_prefix key p :
  subdockey_ok key -> dockey_ok (D := D) (V := V) (doc_key_ p) -> Forall subkey_ok (subkeys_ p) ->
  path_encoding p `prefix_of` path_encoding key ++ ht_encoding key ->
  doc_key_ key = doc_key_ p /\ subkeys_ p `prefix_of` subkeys_ key.
Proof.
  intros Hok Hd Hs [tl E]. pose proof (stored_bytes_ok key Hok) as Ob. rewrite E in Ob.
  apply Forall_app in Ob as [_ Ot]. pose proof (ht_encoding_ok key Hok) as Oh. destruct Hok as [Hd' Hs' _].
  unfold path_encoding in E. rewrite <- !app_assoc in E.
  assert (bytes_ok (subkeys_encoding (subkeys_ key) ++ ht_encoding key)) as O1
    by (apply Forall_app; split; [by apply subkeys_encoding_ok|done]).
  assert (bytes_ok (subkeys_encoding (subkeys_ p) ++ tl)) as O2
    by (apply Forall_app; split; [by apply subkeys_encoding_ok|done]).
  pose proof (DocKey_DecodeFrom_encoding release (DocKey_range []) false (doc_key_ key) _ eq_refl Hd' O1) as D1.
  pose proof (DocKey_DecodeFrom_encoding release (DocKey_range []) false (doc_key_ p) _ eq_refl Hd O2) as D2.
  rewrite E, D2 in D1. injection D1 as Ed Es.
  split; [done|]. destruct (subkeys_prefix ht_tag (subkeys_ p) (subkeys_ key) tl (ht_encoding key)) as (l3 & -> & _);
    [by apply subkeys_ok..| |done|done| |done|by apply prefix_app_r].
  - eapply Forall_impl; [exact Hs|]. intros pv [_ Ht] Et. by apply Ht, ValueTypeAsChar_inj.
  - unfold ht_encoding. destruct (has_hybrid_time key); [by right|by left].
Qed.

Lemma path_extends key p :
  subdockey_ok key -> has_hybrid_time key = true -> doc_key_ key = doc_key_ p ->
  subkeys_ p `prefix_of` subkeys_ key ->
  ∃ b tl, path_encoding key ++ ht_encoding key = path_encoding p ++ b :: tl /\ b < 255.
Proof.
  intros [_ Hs _] Hh Ed [l3 Es]. unfold path_encoding, ht_encoding.
  rewrite Ed, Es, Hh, subkeys_encoding_app in *. rewrite (app_assoc (dockey_enc _)), <- (app_assoc (_ ++ _)).
  destruct l3 as [|pv l3]; [exists ht_tag; eexists; by split|]. apply Forall_app in Hs as [_ [[Hpv _] _]%Forall_cons].
  assert (subkeys_encoding (pv :: l3) = pv_enc pv ++ subkeys_encoding l3) as -> by done.
  destruct (key_encoding_cons release pv) as [e ->]. do 2 eexists. split; [done|]. by apply tag_below_max.
Qed.

(** Being in the range from [p] to [p ++ 255] is having [p] as a prefix. *)
Lemma prefix_range k p (inside : Prop) :
  (inside -> ∃ b tl, k = p ++ b :: tl /\ b < 255) -> (p `prefix_of` k -> inside) ->
  inside <-> bytes_le p k /\ bytes_lt k (p ++ [255]).
Proof.
  intros H1 H2. split.
  - intros (b & tl & -> & Hb)%H1. split; [|by apply bytes_compare_below_max].
    unfold bytes_le. rewrite <- (app_nil_r p) at 1. by rewrite bytes_compare_app_l.
  - intros [Hle Hlt]. apply H2. destruct (decide (p `prefix_of` k)) as [|Hn]; [done|]. exfalso.
    unfold bytes_lt, bytes_le in *. rewrite bytes_compare_extend in Hlt by done.
    by rewrite bytes_compare_antisym, Hlt in Hle.
Qed.

(** The document key without its last group end. *)
Definition open_encoding (key : DocKey) : bytes :=
  hashed_part release key ++ subkeys_encoding (range_group_ key).

Lemma open_encoding_end key : dockey_enc key = open_encoding key ++ [ValueTypeAsChar kGroupEnd].
Proof. rewrite dockey_encoding_parts. unfold open_encoding, group_encode. by rewrite <- app_assoc. Qed.

(** Keys that agree with [p] and may have more range components. *)
Definition extends_key (key p : DocKey) : Prop :=
  (cotable_id_ key, hash_present_ key, hash_ key, hashed_group_ key) =
  (cotable_id_ p, hash_present_ p, hash_ p, hashed_group_ p) /\ range_group_ p `prefix_of` range_group_ key.

Lemma components_pv_ok l : Forall (component_ok (D := D) (V := V)) l -> Forall (pv_ok (D := D) (V := V)) l.
Proof. intros Hl. eapply Forall_impl; [exact Hl|]. by intros ? []. Qed.

Lemma hashed_part_prefix a b x y :
  dockey_ok (D := D) (V := V) a -> dockey_ok (D := D) (V := V) b -> same_shape a b ->
  bytes_ok x -> bytes_ok y -> hashed_part release a ++ x = hashed_part release b ++ y ->
  (cotable_id_ a, hash_present_ a, hash_ a, hashed_group_ a) =
  (cotable_id_ b, hash_present_ b, hash_ b, hashed_group_ b) /\ x = y.
Proof.
  intros Ha Hb [Hn Hp] Ox Oy E. pose proof (dk_cotable a Ha) as Ua. pose proof (dk_cotable b Hb) as Ub.
  assert (∀ k : DocKey, hashed_part release k = head_part k ++
    (if hash_present_ k then group_encode (ValueTypeAsChar kGroupEnd) pv_enc (hashed_group_ k) else [])) as Eh.
  { intros k. unfold hashed_part, head_part, hash_encoding. rewrite <- app_assoc. f_equal. by destruct (hash_present_ k). }
  rewrite !Eh, <- !app_assoc in E. apply app_inj_1 in E as [E1 E2].
  2:{ unfold head_part. rewrite !length_app, !cotable_encoding_length, Hn, Hp by done.
      by destruct (hash_present_ b). }
  apply (head_part_inj (D := D) (V := V)) in E1 as (Ec & _ & Ehash); [|done..].
  pose proof (dk_hash a Ha) as Ka. pose proof (dk_hash b Hb) as Kb. rewrite Hp in *. destruct (hash_present_ b).
  - pose proof (ConsumePrimitiveValues_group release _ _ false (hashed_group_ a) x (decode_value_consumes release) (dk_hashed a Ha) Ox) as D1.
    pose proof (ConsumePrimitiveValues_group release _ _ false (hashed_group_ b) y (decode_value_consumes release) (dk_hashed b Hb) Oy) as D2.
    rewrite E2, D2, !list_fmap_id in D1. split; congruence.
  - destruct Ka as [_ ->], Kb as [_ ->]. split; [congruence|done].
Qed.

Lemma open_prefix key p :
  subdockey_ok key -> dockey_ok (D := D) (V := V) p -> same_shape (doc_key_ key) p ->
  open_encoding p `prefix_of` path_encoding key ++ ht_encoding key -> extends_key (doc_key_ key) p.
Proof.
  intros Hok Hp Hs [tl E]. pose proof (stored_bytes_ok key Hok) as Ob. destruct Hok as [Hd _ _].
  unfold path_encoding in E, Ob. rewrite open_encoding_end in E, Ob.
  unfold open_encoding in E, Ob. rewrite <- !app_assoc in E, Ob.
  rewrite <- (app_assoc (hashed_part release p)) in E. rewrite E in Ob.
  set (rest := [ValueTypeAsChar kGroupEnd] ++ subkeys_encoding (subkeys_ key) ++ ht_encoding key) in *.
  assert (bytes_ok (subkeys_encoding (range_group_ (doc_key_ key)) ++ rest)) as O1.
  { rewrite <- E in Ob. by apply Forall_app in Ob as [_ ?]. }
  apply Forall_app in Ob as [_ Ob]. apply hashed_part_prefix in E as [Ehd E]; [|done..].
  apply Forall_app in Ob as [_ Ot], O1 as [_ Or]. split; [done|].
  destruct (subkeys_prefix (ValueTypeAsChar kGroupEnd) (range_group_ p) (range_group_ (doc_key_ key)) tl rest)
    as (l3 & -> & _); [by apply components_pv_ok, dk_range..| |done|done|by right|done|by apply prefix_app_r].
  eapply Forall_impl; [apply (dk_range p Hp)|]. intros pv [_ Hm%primitive_not_end]. lia.
Qed.

Lemma open_extends key p :
  subdockey_ok key -> extends_key (doc_key_ key) p ->
  ∃ b tl, path_encoding key ++ ht_encoding key = open_encoding p ++ b :: tl /\ b < 255.
Proof.
  intros [Hd _ _] [[= E1 E2 E3 E4] [l3 Er]]. unfold path_encoding. rewrite open_encoding_end.
  pose proof (dk_range _ Hd) as Hr. unfold open_encoding, hashed_part, hash_encoding. rewrite E1, E2, E3, E4, Er in *.
  rewrite subkeys_encoding_app, <- !app_assoc. do 2 rewrite (app_assoc (cotable_encoding _)).
  rewrite (app_assoc _ (subkeys_encoding (range_group_ p))).
  destruct l3 as [|pv l3]; [exists (ValueTypeAsChar kGroupEnd); eexists; by split|].
  apply Forall_app in Hr as [_ [[Hpv _] _]%Forall_cons].
  assert (subkeys_encoding (pv :: l3) = pv_enc pv ++ subkeys_encoding l3) as -> by done.
  destruct (key_encoding_cons release pv) as [e ->]. do 2 eexists. split; [by rewrite <- !app_assoc|]. by apply tag_below_max.
Qed.

(** *** The prefixes are prefixes *)

Lemma take_prefixes (path : bytes) l :
  Forall (λ x, x `prefix_of` path) l -> ((λ n, take n path) <$> (length <$> l)) = l.
Proof.
  induction 1 as [|x l [tl Hx] _ IH]; [done|]. cbn [fmap list_fmap]. f_equal; [|done].
  by rewrite Hx, take_app_length.
Qed.

Lemma extensions_prefix p l path :
  p ++ subkeys_encoding l `prefix_of` path -> Forall (λ x, x `prefix_of` path) (extensions p l).
Proof.
  intros Hp. apply Forall_forall. intros x (l1 & _ & [l2 ->] & ->)%elem_of_extensions.
  rewrite subkeys_encoding_app, app_assoc in Hp. etrans; [|exact Hp]. by apply prefix_app_r.
Qed.

Lemma key_ends_prefix key : Forall (λ x, x `prefix_of` path_encoding key) (key_ends key).
Proof. constructor; [by apply prefix_app_r|]. by apply extensions_prefix. Qed.

Lemma open_prefixes_prefix key : Forall (λ x, x `prefix_of` open_encoding key) (open_prefixes key).
Proof.
  apply Forall_app. split; [|by apply extensions_prefix]. destruct (decide _); constructor; [|constructor].
  by apply prefix_app_r.
Qed.

Lemma close_last_prefix key : Forall (λ x, x `prefix_of` dockey_enc key) (close_last (open_prefixes key)).
Proof.
  unfold close_last. rewrite last_open_prefixes. destruct (decide _); [constructor|].
  rewrite open_encoding_end. apply Forall_app. split; [|by apply Forall_singleton].
  apply Forall_take. eapply Forall_impl; [apply open_prefixes_prefix|]. intros x Hx. by apply prefix_app_r.
Qed.

Lemma key_prefixes_prefix key : Forall (λ x, x `prefix_of` path_encoding key) (key_prefixes key).
Proof.
  apply Forall_app. split; [|by apply extensions_prefix].
  eapply Forall_impl; [apply close_last_prefix|]. intros x Hx. by apply prefix_app_r.
Qed.

End keys.

(** ** Properties *)

(** C20: a sub-document key is read back from its encoding exactly as it was
    written: with its time in front of any bytes, and without a time when no
    time is required and nothing follows. *)
Theorem subdoc_key_roundtrip `{BoostUuid} {D V : Type}
    `{CD : ComparableNumber D} `{CV : ComparableNumber V} release old require key rest :
  cotable_id_ (doc_key_ old) = nil_uuid -> subdockey_ok (D := D) (V := V) key -> bytes_ok rest ->
  (has_hybrid_time key = false -> rest = [] /\ require = false) ->
  ∃ enc, SubDocKey_Encode release key = Done enc /\
    SubDocKey_DecodeFrom (D := D) (V := V) release old require (enc ++ rest) = Done (Ok (key, rest)) /\
    SubDocKey_FullyDecodeFrom (D := D) (V := V) release old require (enc ++ rest) =
      Done (match rest with [] => Some key | _ :: _ => None end).
Proof.
  intros Ho Hok Hr Hn. exists (path_encoding release key ++ ht_encoding key).
  split; [by apply (DoEncode_encoding (D := D) (V := V) release true); apply Hok|].
  unfold SubDocKey_FullyDecodeFrom. rewrite !SubDocKey_DecodeFrom_encoding by done. split; [done|]. by destruct rest.
Qed.

Definition subdockey_sample : SubDocKey :=
  mkSubDocKey dockey_sample (mkDocHybridTime (1600000000000000 * 4096 + 7) 3)
    [mkPV kColumnId (column_id_val_ 11); pv_String [97] kAscending].

Lemma subdockey_sample_ordered : subdockey_ordered (D := Z) (V := Z) subdockey_sample.
Proof.
  split; [apply dockey_sample_ordered|repeat constructor; vm_compute; intuition discriminate|done|].
  repeat constructor; vm_compute; intuition discriminate.
Qed.

Lemma subdoc_key_roundtrip_witness :
  ∃ enc, SubDocKey_Encode true subdockey_sample = Done enc /\
    SubDocKey_DecodeFrom (D := Z) (V := Z) true (mkSubDocKey (DocKey_range []) invalid_doc_ht []) true (enc ++ [5]) =
      Done (Ok (subdockey_sample, [5])) /\
    SubDocKey_FullyDecodeFrom (D := Z) (V := Z) true (mkSubDocKey (DocKey_range []) invalid_doc_ht []) true
      (enc ++ [5]) = Done None.
Proof.
  apply (subdoc_key_roundtrip (D := Z) (V := Z) true (mkSubDocKey (DocKey_range []) invalid_doc_ht []) true
    subdockey_sample [5]);
    [done|apply subdockey_ordered_ok, subdockey_sample_ordered|repeat constructor; vm_compute; intuition discriminate|].
  by vm_compute.
Defined.

(** C10: two different stored keys of one table, whose values are in the order
    of their encodings (no NaN or negative zero, UUIDs of a known version, no
    transaction or table ids, and in frozen values only elements that sort
    after the end of the value), compare by [CompareTo] the way RocksDB compares
    their encodings: by document, then by sub-keys with shorter paths first,
    then the latest write first. *)
Theorem subdoc_key_order `{BoostUuid} {D V : Type}
    `{CD : ComparableNumber D} `{CV : ComparableNumber V} release a b r1 r2 :
  subdockey_ordered (D := D) (V := V) a -> subdockey_ordered (D := D) (V := V) b ->
  same_shape (doc_key_ a) (doc_key_ b) -> a ≠ b ->
  ∃ ea eb z, SubDocKey_Encode release a = Done ea /\ SubDocKey_Encode release b = Done eb /\
    SubDocKey_CompareTo release a b = Done z /\ z ≠ 0 /\ bytes_compare (ea ++ r1) (eb ++ r2) = (z ?= 0).
Proof.
  intros Ha Hb Hs Hne. destruct (subdoc_key_order_aux release a b r1 r2 Ha Hb Hs Hne) as (z & E).
  exists (path_encoding release a ++ ht_encoding a), (path_encoding release b ++ ht_encoding b), z.
  apply subdockey_ordered_ok in Ha, Hb.
  split; [by apply (DoEncode_encoding (D := D) (V := V) release true); apply Ha|].
  split; [by apply (DoEncode_encoding (D := D) (V := V) release true); apply Hb|done].
Qed.

(** The document itself, written at the same time. *)
Definition subdockey_parent : SubDocKey := KeepPrefix 0 subdockey_sample.

Lemma subdockey_parent_ordered : subdockey_ordered (D := Z) (V := Z) subdockey_parent.
Proof.
  split; [apply dockey_sample_ordered|constructor|done|].
  repeat constructor; vm_compute; intuition discriminate.
Qed.

Lemma subdoc_key_order_witness :
  ∃ ea eb z, SubDocKey_Encode true subdockey_sample = Done ea /\ SubDocKey_Encode true subdockey_parent = Done eb /\
    SubDocKey_CompareTo true subdockey_sample subdockey_parent = Done z /\ z ≠ 0 /\
    bytes_compare (ea ++ []) (eb ++ [255]) = (z ?= 0).
Proof.
  apply (subdoc_key_order (D := Z) (V := Z) true subdockey_sample subdockey_parent [] [255]);
    [apply subdockey_sample_ordered|apply subdockey_parent_ordered|by split|].
  intros E%(f_equal num_subkeys). by vm_compute in E.
Defined.

(** C21: [DecodePrefixLengths] finds, in the bytes of a key with or without its
    time, exactly the prefixes of its path: the part with the hash, it with
    more and more range components (the last closed by the group end), and the
    document key with more and more sub-keys; [DecodeDocKeyAndSubKeyEnds] finds
    the document key and its sub-keys, from the start or from any partial
    result. *)
Theorem key_prefixes_correct `{BoostUuid} {D V : Type}
    `{CD : ComparableNumber D} `{CV : ComparableNumber V} release key l1 l2 (with_time : bool) :
  subdockey_ok (D := D) (V := V) key -> subkeys_ key = l1 ++ l2 ->
  ∃ path slice lengths ends, EncodeWithoutHt release key = Done path /\
    DoEncode release with_time key = Done slice /\
    DecodePrefixLengths (D := D) (V := V) slice = Done (Ok lengths) /\
    ((λ n, take n path) <$> lengths) = key_prefixes release key /\
    DecodeDocKeyAndSubKeyEnds (D := D) (V := V) slice [] = Done (Ok ends) /\
    DecodeDocKeyAndSubKeyEnds (D := D) (V := V) slice (take (S (length l1)) ends) = Done (Ok ends) /\
    ((λ n, take n path) <$> ends) = key_ends release key.
Proof.
  intros Hok El. set (rest := if with_time then ht_encoding key else []).
  assert (bytes_ok rest) as Or by (unfold rest; destruct with_time; [by apply (ht_encoding_ok (D := D) (V := V))|constructor]).
  assert (at_time rest) as Ht.
  { unfold rest. destruct with_time; [|by left]. rewrite <- (app_nil_r (ht_encoding key)). by apply at_time_encoding. }
  exists (path_encoding release key), (path_encoding release key ++ rest),
    (length <$> key_prefixes release key), (length <$> key_ends release key).
  split; [unfold EncodeWithoutHt; rewrite (DoEncode_encoding (D := D) (V := V)), ?app_nil_r by apply Hok; done|].
  split; [apply (DoEncode_encoding (D := D) (V := V)); apply Hok|].
  split; [by apply DecodePrefixLengths_encoding|]. split; [apply take_prefixes, key_prefixes_prefix|].
  destruct (DecodeDocKeyAndSubKeyEnds_encoding release key l1 l2 rest Hok Or Ht El) as [-> E2].
  split; [done|]. split; [|apply take_prefixes, key_ends_prefix].
  etrans; [|exact E2]. f_equal. rewrite <- fmap_take. f_equal. unfold key_ends. cbn [take]. f_equal.
  rewrite El, extensions_app. apply take_app_length'. by rewrite length_extensions.
Qed.

Lemma key_prefixes_correct_witness :
  ∃ path slice lengths ends, EncodeWithoutHt true subdockey_sample = Done path /\
    DoEncode true true subdockey_sample = Done slice /\
    DecodePrefixLengths (D := Z) (V := Z) slice = Done (Ok lengths) /\
    ((λ n, take n path) <$> lengths) = key_prefixes true subdockey_sample /\
    DecodeDocKeyAndSubKeyEnds (D := Z) (V := Z) slice [] = Done (Ok ends) /\
    DecodeDocKeyAndSubKeyEnds (D := Z) (V := Z) slice (take 2 ends) = Done (Ok ends) /\
    ((λ n, take n path) <$> ends) = key_ends true subdockey_sample.
Proof.
  apply (key_prefixes_correct (D := Z) (V := Z) true subdockey_sample [mkPV kColumnId (column_id_val_ 11)]
    [pv_String [97] kAscending] true); [apply subdockey_ordered_ok, subdockey_sample_ordered|done].
Defined.

(** The keys of a sub-document, those for which [StartsWith] holds, are
    exactly the stored keys from its path up to [AdvanceOutOfSubDoc]. *)
Theorem advance_out_of_sub_doc `{BoostUuid} {D V : Type}
    `{CD : ComparableNumber D} `{CV : ComparableNumber V} release key p :
  subdockey_ordered (D := D) (V := V) key -> path_ordered (D := D) (V := V) p ->
  ∃ ek start past inside, SubDocKey_Encode release key = Done ek /\ EncodeWithoutHt release p = Done start /\
    AdvanceOutOfSubDoc release p = Done past /\ StartsWith key (remove_hybrid_time p) = Done inside /\
    (inside = true <-> bytes_le start ek /\ bytes_lt ek past).
Proof.
  intros Hk [Dp Sp]. pose proof (subdockey_ordered_ok key Hk) as Ok. pose proof Hk as [Dk Sk Hh _].
  pose proof (do_ok _ Dp) as Op. pose proof (subkey_ordered_ok _ Sp) as Os.
  exists (path_encoding release key ++ ht_encoding key), (path_encoding release p), (path_encoding release p ++ [255]).
  eexists. split; [apply (DoEncode_encoding (D := D) (V := V) release true); apply Ok|].
  unfold AdvanceOutOfSubDoc, EncodeWithoutHt. rewrite (DoEncode_encoding (D := D) (V := V)), app_nil_r by done.
  do 2 (split; [done|]). split; [by apply (StartsWith_spec (D := D) (V := V) key (remove_hybrid_time p))|].
  rewrite bool_decide_eq_true. apply prefix_range.
  - intros [E1 E2]. by apply (path_extends (D := D) (V := V)).
  - intros Hp. by apply (path_prefix (D := D) (V := V) release).
Qed.

Lemma advance_out_of_sub_doc_witness :
  ∃ ek start past inside, SubDocKey_Encode true subdockey_sample = Done ek /\
    EncodeWithoutHt true subdockey_parent = Done start /\ AdvanceOutOfSubDoc true subdockey_parent = Done past /\
    StartsWith subdockey_sample (remove_hybrid_time subdockey_parent) = Done inside /\
    (inside = true <-> bytes_le start ek /\ bytes_lt ek past).
Proof.
  apply (advance_out_of_sub_doc (D := Z) (V := Z) true subdockey_sample subdockey_parent);
    [apply subdockey_sample_ordered|split; [apply dockey_sample_ordered|constructor]].
Defined.

(** The stored keys whose document key agrees with a given one on the table
    id, the hash and the hashed components and starts with its range components
    are exactly the keys of the table from its open encoding up to
    [AdvanceOutOfDocKeyPrefix]. *)
Theorem advance_out_of_doc_key_prefix `{BoostUuid} {D V : Type}
    `{CD : ComparableNumber D} `{CV : ComparableNumber V} release key p :
  subdockey_ok (D := D) (V := V) key -> dockey_ok (D := D) (V := V) (doc_key_ p) ->
  same_shape (doc_key_ key) (doc_key_ p) ->
  ∃ ek start past, SubDocKey_Encode release key = Done ek /\
    Encode release (doc_key_ p) = Done (start ++ [ValueTypeAsChar kGroupEnd]) /\
    AdvanceOutOfDocKeyPrefix release p = Done past /\
    (extends_key (doc_key_ key) (doc_key_ p) <-> bytes_le start ek /\ bytes_lt ek past).
Proof.
  intros Hk Hp Hs. exists (path_encoding release key ++ ht_encoding key), (open_encoding release (doc_key_ p)),
    (open_encoding release (doc_key_ p) ++ [255]).
  split; [apply (DoEncode_encoding (D := D) (V := V) release true); apply Hk|].
  unfold AdvanceOutOfDocKeyPrefix, Encode. rewrite (AppendTo_encoding (D := D) (V := V)) by done.
  rewrite app_nil_l, open_encoding_end. split; [done|]. cbn [mbind outcome_bind].
  unfold RemoveValueTypeSuffix. rewrite last_snoc, Z.eqb_refl. cbn [CHECK mbind outcome_bind].
  rewrite length_app, Nat.add_sub, take_app_length. split; [done|]. apply prefix_range.
  - intros E. by apply (open_extends (D := D) (V := V)).
  - intros E. by apply (open_prefix (D := D) (V := V) release).
Qed.

Lemma advance_out_of_doc_key_prefix_witness :
  ∃ ek start past, SubDocKey_Encode true subdockey_sample = Done ek /\
    Encode true (ClearRangeComponents_key dockey_sample) = Done (start ++ [33]) /\
    AdvanceOutOfDocKeyPrefix true (mkSubDocKey (ClearRangeComponents_key dockey_sample) invalid_doc_ht []) = Done past /\
    (extends_key dockey_sample (ClearRangeComponents_key dockey_sample) <-> bytes_le start ek /\ bytes_lt ek past).
Proof.
  apply (advance_out_of_doc_key_prefix (D := Z) (V := Z) true subdockey_sample
    (mkSubDocKey (ClearRangeComponents_key dockey_sample) invalid_doc_ht []));
    [apply subdockey_ordered_ok, subdockey_sample_ordered| |by split].
  destruct (do_ok _ dockey_sample_ordered). by constructor.
Defined.
