(* ===== verification/ValueEncoding.v ===== *)
(** * Primitive values in RocksDB values ([src/yb/docdb/primitive_value.cc])

    [ToValue] and [DecodeFromValue]: the encoding of a primitive value on the
    right-hand side of a RocksDB record, which need not be self-delimiting or
    ordered. *)

From S2P Require Import Prelude KeyCodec FastVarInt DocKvUtil HybridTime DocHybridTime.
From S2P Require Import ValueType Intents KeyBytes Uuid PrimitiveValue VarInt.
From S2P Require Import PrimitiveValueKeys.
Local Open Scope Z_scope.

Definition kCompleteJsonb : Z := 1.

(** The [switch] of [ToValue] for the scalar types. Floating point values are
    written through the integer member of the union they share. *)
Definition to_value_scalar `{BoostUuid} (type_ : ValueType) (val_ : Payload) (result : bytes)
    : Outcome bytes :=
  match type_ with
  | kNullDescending | kNull | kCounter | kSSForward | kSSReverse | kFalse | kTrue
  | kFalseDescending | kTrueDescending | kTombstone | kObject | kArray | kRedisTS | kRedisList
  | kRedisSortedSet | kRedisSet => Done result
  | kStringDescending | kString =>
      match val_ with str_val_ s => Done (result ++ s) | _ => Undefined end
  | kInt32Descending | kInt32 | kWriteId =>
      match val_ with int32_val_ v => Done (AppendBigEndianUInt32 (u32 v) result) | _ => Undefined end
  | kUInt32Descending | kUInt32 =>
      match val_ with uint32_val_ v => Done (AppendBigEndianUInt32 v result) | _ => Undefined end
  | kInt64Descending | kInt64 =>
      match val_ with int64_val_ v => Done (AppendBigEndianUInt64 (u64 v) result) | _ => Undefined end
  | kArrayIndex => Fatal
  | kDoubleDescending | kDouble =>
      match val_ with double_val_ d => Done (AppendBigEndianUInt64 d result) | _ => Undefined end
  | kFloatDescending | kFloat =>
      match val_ with float_val_ f => Done (AppendBigEndianUInt32 f result) | _ => Undefined end
  | kDecimalDescending | kDecimal =>
      match val_ with decimal_val_ s => Done (result ++ s) | _ => Undefined end
  | kVarIntDescending | kVarInt =>
      match val_ with varint_val_ s => Done (result ++ s) | _ => Undefined end
  | kTimestampDescending | kTimestamp =>
      match val_ with timestamp_val_ v => Done (AppendBigEndianUInt64 (u64 v) result) | _ => Undefined end
  | kInetaddressDescending | kInetaddress =>
      match val_ with inetaddress_val_ s => Done (result ++ s) | _ => Undefined end
  | kJsonb =>
      match val_ with
      | json_val_ s => Done (AppendBigEndianUInt64 kCompleteJsonb result ++ s)
      | _ => Undefined
      end
  | kUuidDescending | kTransactionId | kTableId | kUuid =>
      match val_ with uuid_val_ u => Done (result ++ EncodeToComparable u) | _ => Undefined end
  | kFrozen | kFrozenDescending => Undefined
  | kUInt16Hash | kIntentTypeSet | kObsoleteIntentTypeSet | kObsoleteIntentType | kMergeFlags
  | kGroupEnd | kGroupEndDescending | kObsoleteIntentPrefix | kTtl | kUserTimestamp | kColumnId
  | kSystemColumnId | kHybridTime | kInvalid | kLowest | kHighest | kMaxByte => Fatal
  end.

(** The elements of a frozen value are encoded as keys even in values, so a
    frozen value is what [AppendToKey] makes of it. *)
Fixpoint append_elements (release : bool) `{BoostUuid} (l : list PrimitiveValue) (key : bytes)
    : Outcome bytes :=
  match l with
  | [] => Done key
  | pv :: l' => key ← AppendToKey release pv key; append_elements release l' key
  end.

Definition ToValue (release : bool) `{BoostUuid} (pv : PrimitiveValue) : Outcome bytes :=
  match pv with
  | mkPV type_ val_ => to_value_scalar type_ val_ [ValueTypeAsChar type_]
  | mkFrozen descending frozen_val_ =>
      key ← append_elements release frozen_val_ [ValueTypeAsChar (frozen_type descending)];
      Done (AppendValueType (frozen_end_marker descending) key)
  end.

(** ** Decoding *)

Section decode_value.
Context `{BoostUuid} {D V : Type} `{ComparableNumber D} `{ComparableNumber V}.

(** A value of fixed size. *)
Definition exactly (n : nat) (slice : bytes) : Result bytes :=
  if (length slice =? n)%nat then Ok slice else Error Corruption.

Definition decode_value_scalar (value_type : ValueType) (slice : bytes)
    : Outcome (Result PrimitiveValue) :=
  let ret (val_ : Payload) := Done (Ok (mkPV value_type val_)) in
  match value_type with
  | kNullDescending | kNull | kCounter | kSSForward | kSSReverse | kFalse | kTrue
  | kFalseDescending | kTrueDescending | kObject | kArray | kRedisList | kRedisSet | kRedisTS
  | kRedisSortedSet | kTombstone => ret no_val
  | kString => ret (str_val_ slice)
  | kInt32 | kInt32Descending | kWriteId =>
      s ⇐ Done (exactly 4 slice); ret (int32_val_ (s32 (Load32 s)))
  | kFloatDescending | kFloat => s ⇐ Done (exactly 4 slice); ret (float_val_ (Load32 s))
  | kUInt32 | kUInt32Descending => s ⇐ Done (exactly 4 slice); ret (uint32_val_ (Load32 s))
  | kInt64 | kInt64Descending | kArrayIndex =>
      s ⇐ Done (exactly 8 slice); ret (int64_val_ (s64 (Load64 s)))
  | kDoubleDescending | kDouble => s ⇐ Done (exactly 8 slice); ret (double_val_ (Load64 s))
  | kDecimal =>
      '(d, _) ⇐ Done (num_decode (N := D) slice); ret (decimal_val_ (num_encode d))
  | kVarInt =>
      '(v, _) ⇐ Done (num_decode (N := V) slice); ret (varint_val_ (num_encode v))
  | kTimestamp => s ⇐ Done (exactly 8 slice); ret (timestamp_val_ (s64 (Load64 s)))
  | kJsonb =>
      if (length slice <? 8)%nat then Done (Error Corruption)
      else ret (json_val_ (drop 8 slice))
  | kInetaddress =>
      if negb (length slice =? 4)%nat && negb (length slice =? 16)%nat then Done (Error Corruption)
      else a ⇐ Done (InetAddress_FromBytes slice); ret (inetaddress_val_ a)
  | kTransactionId | kTableId | kUuid =>
      s ⇐ Done (exactly 16 slice);
      u ⇐ Done (DecodeFromComparableSlice s 0); ret (uuid_val_ u)
  | kFrozen | kFrozenDescending => Undefined
  | kIntentTypeSet | kObsoleteIntentTypeSet | kObsoleteIntentType | kGroupEnd | kGroupEndDescending
  | kObsoleteIntentPrefix | kUInt16Hash | kInvalid | kMergeFlags | kTtl | kUserTimestamp | kColumnId
  | kSystemColumnId | kHybridTime | kStringDescending | kInetaddressDescending | kDecimalDescending
  | kVarIntDescending | kUuidDescending | kTimestampDescending | kLowest | kHighest | kMaxByte =>
      Done (Error Corruption)
  end.

(** A first byte that names no enumerator ends in [FATAL_INVALID_ENUM_VALUE].
    Each element consumes at least a byte, so the loop over the elements needs
    no more steps than the slice has bytes. *)
Definition DecodeFromValue (rocksdb_slice : bytes) : Outcome (Result PrimitiveValue) :=
  match rocksdb_slice with
  | [] => Done (Error Corruption)
  | b :: slice =>
      match DecodeValueType b with
      | None => Fatal
      | Some kFrozenDescending =>
          '(l, _) ⇐ finished (decode_frozen (Some ∘ DecodeKey (D := D) (V := V) true) kGroupEndDescending
                      (S (length slice)) slice []);
          Done (Ok (mkFrozen true l))
      | Some kFrozen =>
          '(l, _) ⇐ finished (decode_frozen (Some ∘ DecodeKey (D := D) (V := V) true) kGroupEnd
                      (S (length slice)) slice []);
          Done (Ok (mkFrozen false l))
      | Some value_type => decode_value_scalar value_type slice
      end
  end.

End decode_value.

(** ** Lemmas *)

Section value_lemmas.
Context `{BoostUuid} {D V : Type} `{CD : ComparableNumber D} `{CV : ComparableNumber V}.
Context (release : bool).

(** Values that can be written and read back. *)
Definition scalar_value_ok (t : ValueType) (v : Payload) : Prop :=
  match t, v with
  | (kNullDescending | kNull | kCounter | kSSForward | kSSReverse | kFalse | kTrue
    | kFalseDescending | kTrueDescending | kObject | kArray | kRedisList | kRedisSet | kRedisTS
    | kRedisSortedSet | kTombstone), no_val => True
  | kString, str_val_ _ => True
  | kJsonb, json_val_ _ => True
  | (kInt64 | kInt64Descending), int64_val_ v => is_s 64 v
  | (kInt32 | kInt32Descending | kWriteId), int32_val_ v => is_s 32 v
  | (kUInt32 | kUInt32Descending), uint32_val_ v => is_u 32 v
  | (kDouble | kDoubleDescending), double_val_ d => is_u 64 d
  | (kFloat | kFloatDescending), float_val_ f => is_u 32 f
  | kDecimal, decimal_val_ s => ∃ d : D, num_valid d /\ s = num_encode d
  | kVarInt, varint_val_ s => ∃ n : V, num_valid n /\ s = num_encode n
  | kTimestamp, timestamp_val_ v => is_s 64 v
  | kInetaddress, inetaddress_val_ s => length s = 4%nat \/ length s = 16%nat
  | (kTransactionId | kTableId | kUuid), uuid_val_ u => uuid_ok u
  | _, _ => False
  end.

Definition value_ok (pv : PrimitiveValue) : Prop :=
  match pv with
  | mkPV t v => scalar_value_ok t v
  | mkFrozen _ l => Forall (pv_ok (D := D) (V := V)) l
  end.

Lemma append_elements_encoding l key :
  Forall (pv_ok (D := D) (V := V)) l ->
  append_elements release l key = Done (key ++ concat (key_encoding release <$> l)).
Proof.
  intros Hl. revert key. induction Hl as [|pv l Hpv Hl IH]; intros key; cbn [append_elements].
  - by rewrite app_nil_r.
  - rewrite (AppendToKey_encoding (D := D) (V := V)) by done. cbn [mbind outcome_bind].
    rewrite IH. cbn [fmap list_fmap concat]. by rewrite <- app_assoc.
Qed.

Lemma exactly_be n v : exactly n (be_bytes n v) = Ok (be_bytes n v).
Proof. unfold exactly. by rewrite be_bytes_length, Nat.eqb_refl. Qed.

Lemma Load64_be v : is_u 64 v -> Load64 (be_bytes 8 v) = v.
Proof. intros Hv. unfold Load64. rewrite <- (app_nil_r (be_bytes 8 v)). by apply be_value_take. Qed.

Lemma Load32_signed v : is_s 32 v -> s32 (Load32 (be_bytes 4 (u32 v))) = v.
Proof.
  intros Hv. unfold s32, u32. rewrite Load32_be by (apply wrap_range; lia).
  rewrite signed_wrap by lia. by apply signed_small.
Qed.

Lemma Load64_signed v : is_s 64 v -> s64 (Load64 (be_bytes 8 (u64 v))) = v.
Proof.
  intros Hv. unfold s64, u64. rewrite Load64_be by (apply wrap_range; lia).
  rewrite signed_wrap by lia. by apply signed_small.
Qed.

Lemma scalar_value_roundtrip t v :
  scalar_value_ok t v ->
  ∃ e, to_value_scalar t v [ValueTypeAsChar t] = Done (ValueTypeAsChar t :: e) /\
    decode_value_scalar (D := D) (V := V) t e = Done (Ok (mkPV t v)).
Proof.
  intros Hok. destruct t, v; try contradiction; cbn [scalar_value_ok] in Hok;
    unfold to_value_scalar, AppendBigEndianUInt32, AppendBigEndianUInt64; (eexists; split; [reflexivity|]);
    unfold decode_value_scalar; cbn [app]; rewrite ?exactly_be; cbn [or_bind];
    rewrite ?Load32_signed, ?Load64_signed, ?Load32_be, ?Load64_be by done; try reflexivity;
    try (destruct Hok as (n & Hn & ->); rewrite <- (app_nil_r (num_encode n));
         rewrite num_roundtrip by (done || constructor); cbn [or_bind]; by rewrite app_nil_r);
    try (destruct Hok as [Hl|Hl]; unfold InetAddress_FromBytes; rewrite Hl; reflexivity);
    unfold exactly; rewrite (EncodeToComparable_length _ Hok); change (16 =? 16)%nat with true;
    cbn [or_bind]; change (DecodeFromComparableSlice ?x 0) with (DecodeFromComparable x);
    by rewrite uuid_comparable_roundtrip.
Qed.

Lemma scalar_value_not_frozen t v :
  scalar_value_ok t v -> t ≠ kFrozen /\ t ≠ kFrozenDescending.
Proof. intros Hok. destruct t; simpl in Hok; try done; by destruct v. Qed.

Lemma frozen_value_roundtrip d l :
  Forall (pv_ok (D := D) (V := V)) l ->
  let s := group_encode (ValueTypeAsChar (frozen_end_marker d)) (key_encoding release) l in
  decode_frozen (Some ∘ DecodeKey (D := D) (V := V) true) (frozen_end_marker d) (S (length s)) s [] =
  Some (Done (Ok (l, []))).
Proof.
  intros Hl s. pose proof (decode_frozen_encoding (D := D) (V := V) release true d l []
    (S (length s)) (Some ∘ DecodeKey (D := D) (V := V) true) [] Hl) as E.
  rewrite app_nil_r in E. fold s in E. rewrite E; [| |by constructor|].
  - cbn [app]. do 4 f_equal. apply list_fmap_id.
  - eapply Forall_impl; [exact Hl|]. intros pv Hpv rest Hr. cbn [compose]. f_equal.
    by apply (DecodeKey_encoding (D := D) (V := V)).
  - destruct (group_encode_length release (ValueTypeAsChar (frozen_end_marker d)) l) as [Hn _].
    fold s in Hn. lia.
Qed.

Lemma value_roundtrip_aux pv :
  value_ok pv ->
  ∃ e, ToValue release pv = Done e /\ DecodeFromValue (D := D) (V := V) e = Done (Ok pv).
Proof.
  destruct pv as [t v|d l]; intros Hok; cbn [value_ok] in Hok.
  - destruct (scalar_value_roundtrip t v Hok) as (e & E1 & E2).
    exists (ValueTypeAsChar t :: e). split; [done|]. cbn [DecodeFromValue].
    rewrite DecodeValueType_AsChar, <- E2. destruct (scalar_value_not_frozen t v Hok). by destruct t.
  - exists (ValueTypeAsChar (frozen_type d) ::
      group_encode (ValueTypeAsChar (frozen_end_marker d)) (key_encoding release) l).
    unfold ToValue. rewrite append_elements_encoding by done. split; [done|].
    cbn [DecodeFromValue]. rewrite DecodeValueType_AsChar.
    pose proof (frozen_value_roundtrip d l Hok) as E. cbv zeta in E.
    destruct d; cbn [frozen_type frozen_end_marker] in *; by rewrite E.
Qed.

End value_lemmas.

(** ** Properties *)

(** A primitive value of a type that values may have (frozen values of
    any key elements included) is decoded by [DecodeFromValue] from what
    [ToValue] writes. *)
Theorem value_encoding_roundtrip `{BoostUuid} {D V : Type}
    `{CD : ComparableNumber D} `{CV : ComparableNumber V} release pv :
  value_ok (D := D) (V := V) pv ->
  ∃ e, ToValue release pv = Done e /\ DecodeFromValue (D := D) (V := V) e = Done (Ok pv).
Proof. apply value_roundtrip_aux. Qed.

Lemma value_encoding_roundtrip_witness :
  ∃ e, ToValue true (mkPV kTimestamp (timestamp_val_ (-1))) = Done e /\
    DecodeFromValue (D := Z) (V := Z) e = Done (Ok (mkPV kTimestamp (timestamp_val_ (-1)))).
Proof.
  apply (value_encoding_roundtrip (D := Z) (V := Z) true (mkPV kTimestamp (timestamp_val_ (-1)))).
  vm_compute. intuition discriminate.
Defined.

(** A descending string is written to a value but refused when it is read. *)
Lemma descending_string_value_not_readable :
  ∃ e, ToValue true (pv_String [97] kDescending) = Done e /\
    DecodeFromValue (D := Z) (V := Z) e = Done (Error Corruption).
Proof. eexists. split; reflexivity. Qed.

(** A stored byte that names no value type kills the process. *)
Lemma unknown_value_type_is_fatal : DecodeFromValue (D := Z) (V := Z) [1] = Fatal.
Proof. reflexivity. Qed.
