(* ===== verification/LockEntry.v ===== *)
(** * One entry of the lock manager
    ([src/yb/docdb/shared_lock_manager.cc], [LockedBatchEntry])

    The word [num_holding] packs one 16-bit counter per intent type. Threads
    change it by compare-and-swap and sleep on a condition variable while a
    conflicting counter is not zero. The model is a transition system in
    which a thread does one access to shared memory at a time; accesses are
    sequentially consistent. *)

From S2P Require Import Prelude ValueType Intents.
Local Open Scope Z_scope.

(** ** Tables *)

Definition kIntentTypeBits : Z := 16.
Definition kSingleIntentMask : Z := u64 (u64 (Z.shiftl 1 kIntentTypeBits) - 1).
Definition kIntentTypeSetMapSize : Z := Z.shiftl 1 kIntentTypeMapSize.

Definition IntentTypeMask (intent_type : IntentType) : Z :=
  u64 (Z.shiftl kSingleIntentMask (intent_to_underlying intent_type * kIntentTypeBits)).

Definition conflicts_of (idx : IntentTypeSet) : Z :=
  foldl (λ result intent_type,
    foldl (λ result other_intent_type,
      if IntentTypesConflict intent_type other_intent_type
      then Z.lor result (IntentTypeMask other_intent_type) else result)
    result kIntentTypeList) 0 (members idx).

Definition GenerateConflicts : list Z := conflicts_of <$> seqZ 0 kIntentTypeSetMapSize.

Definition combine_mask (single_intent_mask : Z) (idx : IntentTypeSet) : Z :=
  foldl (λ result intent_type,
    Z.lor result (u64 (Z.shiftl single_intent_mask (intent_to_underlying intent_type * kIntentTypeBits))))
  0 (members idx).

Definition GenerateByMask (single_intent_mask : Z) : list Z :=
  combine_mask single_intent_mask <$> seqZ 0 kIntentTypeSetMapSize.

Definition kIntentTypeSetAdd : list Z := GenerateByMask 1.
Definition kIntentTypeSetMask : list Z := GenerateByMask kSingleIntentMask.
Definition kIntentTypeSetConflicts : list Z := GenerateConflicts.

(** [table[set.ToUIntPtr()]]; a set of four flags is always in range. *)
Definition table_at (table : list Z) (idx : IntentTypeSet) : Z := default 0 (table !! Z.to_nat idx).

(** ** Shared state and threads *)

Record LockedBatchEntry : Type := mkEntry {
  num_holding : Z;
  num_waiters : Z;
  mutex : option nat      (* the thread that holds it *)
}.

(** The arguments of [Lock]; [has_deadline] is
    [deadline != CoarseTimePoint::max()]. *)
Record request : Type := mkRequest { lock_type : IntentTypeSet; has_deadline : bool }.

(** Where a thread is. *)
Inductive pc : Type :=
| Idle
| LockLoop (r : request) (old_value : Z)              (* top of the loop, line 189 *)
| LockRegistered (r : request)                        (* counted in num_waiters, line 200 *)
| LockMutex (r : request)                             (* mutex taken, line 201 *)
| LockChecked (r : request) (old_value : Z)           (* num_holding read, line 202 *)
| LockWaiting (r : request) (old_value : Z)           (* asleep on cond_var *)
| LockWoken (r : request) (old_value : Z) (timeout : bool)    (* retaking the mutex *)
| LockExit (r : request) (old_value : Z) (timeout : bool)     (* mutex held, end of the scope *)
| LockLeaving (r : request) (old_value : Z) (timeout : bool)  (* mutex released, still counted *)
| Held (lock_types : IntentTypeSet)                   (* Lock returned true *)
| UnlockLoop (lock_types : IntentTypeSet) (old_state : Z)     (* line 222 *)
| UnlockReleased (lock_types : IntentTypeSet) (new_state : Z) (* line 228 *)
| UnlockBarrier (lock_types : IntentTypeSet)          (* line 248 *)
| UnlockMutex (lock_types : IntentTypeSet)            (* mutex held as a barrier *)
| UnlockNotify (lock_types : IntentTypeSet).          (* line 251 *)

(** What the scheduler, the caller and the condition variable decide. *)
Inductive choice : Type :=
| CallLock (r : request)
| CallUnlock
| Next
| WeakCasFails
| SpuriousWakeup
| DeadlinePassed.

Definition has_conflict (state : Z) (r : request) : bool :=
  negb (Z.land state (table_at kIntentTypeSetConflicts (lock_type r)) =? 0).

(** The loop over [lock_types] that looks for a counter that became 0. *)
Definition has_zero (new_state : Z) (lock_types : IntentTypeSet) : bool :=
  existsb (λ intent_type, Z.land new_state (IntentTypeMask intent_type) =? 0) (members lock_types).

Definition set_holding (e : LockedBatchEntry) (v : Z) := mkEntry v (num_waiters e) (mutex e).
Definition set_waiters (e : LockedBatchEntry) (v : Z) := mkEntry (num_holding e) v (mutex e).
Definition set_mutex (e : LockedBatchEntry) (o : option nat) := mkEntry (num_holding e) (num_waiters e) o.

(** One access of thread [i]; the last component says that it called
    [notify_all]. [None]: the thread cannot move that way. *)
Definition thread_step (i : nat) (c : choice) (e : LockedBatchEntry) (p : pc)
    : option (LockedBatchEntry * pc * bool) :=
  match c, p with
  | CallLock r, Idle => Some (e, LockLoop r (num_holding e), false)
  | CallUnlock, Held lock_types => Some (e, UnlockLoop lock_types (num_holding e), false)
  | Next, LockLoop r old_value =>
      if has_conflict old_value r
      then Some (set_waiters e (u64 (num_waiters e + 1)), LockRegistered r, false)
      else if num_holding e =? old_value
      then Some (set_holding e (u64 (old_value + table_at kIntentTypeSetAdd (lock_type r))),
                 Held (lock_type r), false)
      else Some (e, LockLoop r (num_holding e), false)
  | WeakCasFails, LockLoop r old_value =>
      if has_conflict old_value r then None else Some (e, LockLoop r (num_holding e), false)
  | Next, LockRegistered r =>
      match mutex e with
      | None => Some (set_mutex e (Some i), LockMutex r, false)
      | Some _ => None
      end
  | Next, LockMutex r => Some (e, LockChecked r (num_holding e), false)
  | Next, LockChecked r old_value =>
      if has_conflict old_value r
      then Some (set_mutex e None, LockWaiting r old_value, false)
      else Some (e, LockExit r old_value false, false)
  | SpuriousWakeup, LockWaiting r old_value => Some (e, LockWoken r old_value false, false)
  | DeadlinePassed, LockWaiting r old_value =>
      if has_deadline r then Some (e, LockWoken r old_value true, false) else None
  | Next, LockWoken r old_value timeout =>
      match mutex e with
      | None => Some (set_mutex e (Some i), LockExit r old_value timeout, false)
      | Some _ => None
      end
  | Next, LockExit r old_value timeout =>
      Some (set_mutex e None, LockLeaving r old_value timeout, false)
  | Next, LockLeaving r old_value timeout =>
      Some (set_waiters e (u64 (num_waiters e - 1)),
            if timeout then Idle else LockLoop r old_value, false)
  | Next, UnlockLoop lock_types old_state =>
      if num_holding e =? old_state then
        let new_state := u64 (old_state - table_at kIntentTypeSetAdd lock_types) in
        Some (set_holding e new_state, UnlockReleased lock_types new_state, false)
      else Some (e, UnlockLoop lock_types (num_holding e), false)
  | WeakCasFails, UnlockLoop lock_types old_state =>
      Some (e, UnlockLoop lock_types (num_holding e), false)
  | Next, UnlockReleased lock_types new_state =>
      if num_waiters e =? 0 then Some (e, Idle, false)
      else if has_zero new_state lock_types then Some (e, UnlockBarrier lock_types, false)
      else Some (e, Idle, false)
  | Next, UnlockBarrier lock_types =>
      match mutex e with
      | None => Some (set_mutex e (Some i), UnlockMutex lock_types, false)
      | Some _ => None
      end
  | Next, UnlockMutex lock_types => Some (set_mutex e None, UnlockNotify lock_types, false)
  | Next, UnlockNotify lock_types => Some (e, Idle, true)
  | _, _ => None
  end.

(** [notify_all] *)
Definition wake (p : pc) : pc :=
  match p with
  | LockWaiting r old_value => LockWoken r old_value false
  | _ => p
  end.

Definition next_threads (notify : bool) (i : nat) (q : pc) (l : list pc) : list pc :=
  if notify then wake <$> <[i := q]> l else <[i := q]> l.

Record conf : Type := mkConf { entry : LockedBatchEntry; threads : list pc }.

Definition step_thread (i : nat) (c : choice) (s : conf) : option conf :=
  p ← threads s !! i;
  '(e, q, notify) ← thread_step i c (entry s) p;
  Some (mkConf e (next_threads notify i q (threads s))).

Definition choice_ok (c : choice) : Prop :=
  match c with CallLock r => set_ok (lock_type r) | _ => True end.

Definition step (s s' : conf) : Prop := ∃ i c, choice_ok c /\ step_thread i c s = Some s'.

(** A new entry and [n] threads. *)
Definition initial (n : nat) : conf := mkConf (mkEntry 0 0 None) (replicate n Idle).

Definition reachable (n : nat) (s : conf) : Prop := rtc step (initial n) s.

(** A run of scheduled steps. *)
Fixpoint run (schedule : list (nat * choice)) (s : conf) : option conf :=
  match schedule with
  | [] => Some s
  | (i, c) :: rest => s' ← step_thread i c s; run rest s'
  end.

(** ** What the threads hold *)

(** The locks a thread has acquired and not yet released. *)
Definition holds (p : pc) : option IntentTypeSet :=
  match p with
  | Held T | UnlockLoop T _ => Some T
  | _ => None
  end.

(** Counted in [num_waiters]. *)
Definition registered (p : pc) : bool :=
  match p with
  | LockRegistered _ | LockMutex _ | LockChecked _ _ | LockWaiting _ _ | LockWoken _ _ _
  | LockExit _ _ _ | LockLeaving _ _ _ => true
  | _ => false
  end.

Definition owns_mutex (p : pc) : bool :=
  match p with LockMutex _ | LockChecked _ _ | LockExit _ _ _ | UnlockMutex _ => true | _ => false end.

(** On its way to [notify_all]: released a counter to 0 and not yet past the
    barrier, or past it. *)
Definition before_barrier (p : pc) : bool :=
  match p with
  | UnlockReleased T new_state => has_zero new_state T
  | UnlockBarrier _ => true
  | _ => false
  end.

Definition notifying (p : pc) : bool :=
  before_barrier p || match p with UnlockMutex _ | UnlockNotify _ => true | _ => false end.

(** ** Lemmas *)

(** *** Sums over the threads *)

Definition total (f : pc -> Z) (l : list pc) : Z := foldr (λ p acc, f p + acc) 0 l.

Lemma total_insert f l i p q :
  l !! i = Some p -> total f (<[i := q]> l) = total f l - f p + f q.
Proof.
  revert i. induction l as [|x l IH]; intros [|i] Hi; simplify_eq/=; [lia|].
  rewrite (IH i Hi). lia.
Qed.

Lemma total_fmap f g l : (∀ p, f (g p) = f p) -> total f (g <$> l) = total f l.
Proof. intros Hg. induction l as [|x l IH]; csimpl; [done|]. by rewrite Hg, IH. Qed.

Lemma total_bool_range f l : 0 <= total (λ p, Z.b2z (f p)) l <= Z.of_nat (length l).
Proof. induction l as [|x l IH]; simpl; [lia|]. destruct (f x); simpl; lia. Qed.

Lemma total_bool_pos f l i p :
  l !! i = Some p -> f p = true -> 0 < total (λ p, Z.b2z (f p)) l.
Proof.
  revert i. induction l as [|x l IH]; intros [|i] Hi Hp; simplify_eq/=;
    pose proof (total_bool_range f l); [rewrite Hp; simpl; lia|].
  specialize (IH i Hi Hp). destruct (f x); simpl; lia.
Qed.

Lemma total_zero f l : total f l ≠ 0 -> ∃ i p, l !! i = Some p /\ f p ≠ 0.
Proof.
  induction l as [|x l IH]; simpl; [done|]. intros Ht.
  destruct (decide (f x = 0)) as [E|E]; [|by exists 0%nat, x].
  destruct IH as (i & p & ? & ?); [lia|]. by exists (S i), p.
Qed.

(** *** Packed counters *)

Definition pack (c : IntentType -> Z) : Z :=
  c kWeakRead + c kWeakWrite * 2 ^ 16 + c kStrongRead * 2 ^ 32 + c kStrongWrite * 2 ^ 48.

Definition counters_ok (c : IntentType -> Z) : Prop := ∀ t, 0 <= c t < 2 ^ 16.

Lemma pack_range c : counters_ok c -> is_u 64 (pack c).
Proof.
  intros Hc. unfold pack, is_u.
  pose proof (Hc kWeakRead). pose proof (Hc kWeakWrite). pose proof (Hc kStrongRead).
  pose proof (Hc kStrongWrite). lia.
Qed.

Lemma total_pack f l : total (λ p, pack (f p)) l = pack (λ t, total (λ p, f p t) l).
Proof. induction l as [|x l IH]; simpl; [done|]. rewrite IH. unfold pack. lia. Qed.

Lemma land_shifted_mask v k : 0 <= k -> Z.land v (Z.shiftl (2 ^ 16 - 1) k) = ((v / 2 ^ k) mod 2 ^ 16) * 2 ^ k.
Proof.
  intros Hk. rewrite <- land_mask by lia. rewrite <- Z.shiftr_div_pow2, <- Z.shiftl_mul_pow2 by done.
  apply Z.bits_inj'. intros n Hn. rewrite Z.land_spec, !Z.shiftl_spec, Z.land_spec by done.
  destruct (Z.ltb_spec n k).
  - by rewrite !(Z.testbit_neg_r _ (n - k)), !andb_false_r by lia.
  - rewrite Z.shiftr_spec by lia. by replace (n - k + k) with n by lia.
Qed.

(** The counter of a type is 0 exactly when its 16 bits are. *)
Lemma pack_mask c t : counters_ok c -> (Z.land (pack c) (IntentTypeMask t) = 0 <-> c t = 0).
Proof.
  intros Hc. pose proof (Hc kWeakRead). pose proof (Hc kWeakWrite). pose proof (Hc kStrongRead).
  pose proof (Hc kStrongWrite).
  replace (IntentTypeMask t) with (Z.shiftl (2 ^ 16 - 1) (16 * intent_to_underlying t))
    by (by destruct t).
  rewrite land_shifted_mask by (destruct t; vm_compute; discriminate). unfold pack.
  destruct t; [change (16 * _) with 0|change (16 * _) with 16|change (16 * _) with 32
    |change (16 * _) with 48]; Z.div_mod_to_equations; lia.
Qed.

(** *** Tables *)

Lemma set_ok_index T : set_ok T -> T ∈ seqZ 0 16.
Proof. intros HT. apply elem_of_seqZ. unfold set_ok in HT. lia. Qed.

Lemma table_add T :
  set_ok T -> table_at kIntentTypeSetAdd T = pack (λ t, Z.b2z (Test T t)).
Proof.
  intros HT%set_ok_index. revert T HT. apply Forall_forall.
  repeat (constructor; [reflexivity|]). constructor.
Qed.

Lemma table_conflicts T : set_ok T -> table_at kIntentTypeSetConflicts T = conflicts_of T.
Proof.
  intros HT%set_ok_index. revert T HT. apply Forall_forall.
  repeat (constructor; [reflexivity|]). constructor.
Qed.

Lemma land_foldl_lor {A} (P : A -> bool) (f : A -> Z) v l acc :
  Z.land v (foldl (λ r x, if P x then Z.lor r (f x) else r) acc l) = 0 <->
  Z.land v acc = 0 /\ ∀ x, x ∈ l -> P x = true -> Z.land v (f x) = 0.
Proof.
  revert acc. induction l as [|x l IH]; intros acc; simpl.
  - split; [|tauto]. intros ?. split; [done|]. intros x Hx. by apply elem_of_nil in Hx.
  - rewrite IH. setoid_rewrite elem_of_cons. destruct (P x) eqn:Hx.
    + rewrite Z.land_lor_distr_r, Z.lor_eq_0_iff. naive_solver.
    + naive_solver congruence.
Qed.

Lemma land_conflicts_of v T :
  Z.land v (conflicts_of T) = 0 <->
  ∀ t o, t ∈ members T -> IntentTypesConflict t o = true -> Z.land v (IntentTypeMask o) = 0.
Proof.
  unfold conflicts_of.
  assert (∀ l acc, Z.land v (foldl (λ r t, foldl (λ r o, if IntentTypesConflict t o
      then Z.lor r (IntentTypeMask o) else r) r kIntentTypeList) acc l) = 0 <->
    Z.land v acc = 0 /\
    ∀ t o, t ∈ l -> IntentTypesConflict t o = true -> Z.land v (IntentTypeMask o) = 0) as Hl.
  { induction l as [|t l IH]; intros acc; cbn [foldl].
    - split; [|tauto]. intros ?. split; [done|]. intros t o Ht. by apply elem_of_nil in Ht.
    - rewrite IH, land_foldl_lor.
      assert (∀ o, o ∈ kIntentTypeList) as Hall by (intros []; set_solver). split.
      + intros [[Ha Ht] Hl]. split; [done|]. intros t' o [->|Hin]%elem_of_cons Ho; [exact (Ht o (Hall o) Ho)|exact (Hl t' o Hin Ho)].
      + intros [Ha Ht]. split; [split; [done|]|].
        * intros o _ Ho. exact (Ht t o (list_elem_of_here _ _) Ho).
        * intros t' o Hin Ho. exact (Ht t' o (list_elem_of_further _ _ _ Hin) Ho). }
  rewrite Hl, Z.land_0_r. tauto.
Qed.

(** A request conflicts with packed counters exactly when it conflicts with a
    type whose counter is not 0. *)
Lemma has_conflict_pack c r :
  counters_ok c -> set_ok (lock_type r) ->
  (has_conflict (pack c) r = false <->
   ∀ t o, Test (lock_type r) t = true -> IntentTypesConflict t o = true -> c o = 0).
Proof.
  intros Hc Hr. unfold has_conflict. rewrite table_conflicts by done.
  rewrite negb_false_iff, Z.eqb_eq, land_conflicts_of.
  setoid_rewrite elem_of_members. setoid_rewrite pack_mask; done.
Qed.

Lemma has_zero_pack c T :
  counters_ok c -> (has_zero (pack c) T = true <-> ∃ t, Test T t = true /\ c t = 0).
Proof.
  intros Hc. unfold has_zero. rewrite existsb_exists. setoid_rewrite <- list_elem_of_In.
  setoid_rewrite elem_of_members. setoid_rewrite Z.eqb_eq. setoid_rewrite pack_mask; done.
Qed.

Lemma IntentTypeSetsConflict_true a b :
  IntentTypeSetsConflict a b = true <->
  ∃ t o, Test a t = true /\ Test b o = true /\ IntentTypesConflict t o = true.
Proof.
  unfold IntentTypeSetsConflict. rewrite existsb_exists. setoid_rewrite existsb_exists.
  setoid_rewrite <- list_elem_of_In. setoid_rewrite elem_of_members. naive_solver.
Qed.

Lemma IntentTypeSetsConflict_sym a b : IntentTypeSetsConflict a b = IntentTypeSetsConflict b a.
Proof.
  apply eq_true_iff_eq. rewrite !IntentTypeSetsConflict_true.
  setoid_rewrite IntentTypesConflict_sym at 1. naive_solver.
Qed.

(** *** The effect of one step *)

Ltac step_cases H :=
  unfold thread_step in H;
  repeat match type of H with
         | context [match ?x with _ => _ end] => let E := fresh "E" in destruct x eqn:E
         end; simplify_eq/=.

(** Either nothing changes for the lock, or it is taken or released by a
    successful compare-and-swap. *)
Variant lock_effect (e e' : LockedBatchEntry) (p q : pc) : Prop :=
| effect_none :
    num_holding e' = num_holding e -> holds q = holds p -> lock_effect e e' p q
| effect_acquire r :
    p = LockLoop r (num_holding e) -> q = Held (lock_type r) -> has_conflict (num_holding e) r = false ->
    num_holding e' = u64 (num_holding e + table_at kIntentTypeSetAdd (lock_type r)) ->
    lock_effect e e' p q
| effect_release T :
    p = UnlockLoop T (num_holding e) -> q = UnlockReleased T (num_holding e') ->
    num_holding e' = u64 (num_holding e - table_at kIntentTypeSetAdd T) -> lock_effect e e' p q.

Lemma thread_step_lock i c e p e' q n :
  thread_step i c e p = Some (e', q, n) -> lock_effect e e' p q.
Proof.
  intros H. step_cases H; try (by constructor 1).
  - apply Z.eqb_eq in E2 as <-. by eapply effect_acquire.
  - apply Z.eqb_eq in E1 as <-. by eapply effect_release.
Qed.

Lemma thread_step_waiters i c e p e' q n :
  is_u 64 (num_waiters e) -> thread_step i c e p = Some (e', q, n) ->
  num_waiters e' = u64 (num_waiters e - Z.b2z (registered p) + Z.b2z (registered q)).
Proof.
  intros Hw H. unfold u64. step_cases H; simpl;
    first [ by rewrite ?Z.sub_0_r, ?Z.add_0_r, ?Z.sub_add, wrap_small | unfold u64; do 2 f_equal; lia ].
Qed.

Variant mutex_effect (i : nat) (e e' : LockedBatchEntry) (p q : pc) : Prop :=
| mutex_none : mutex e' = mutex e -> owns_mutex q = owns_mutex p -> mutex_effect i e e' p q
| mutex_take :
    mutex e = None -> mutex e' = Some i -> owns_mutex q = true -> mutex_effect i e e' p q
| mutex_release :
    mutex e' = None -> owns_mutex p = true -> owns_mutex q = false -> mutex_effect i e e' p q.

Lemma thread_step_mutex i c e p e' q n :
  thread_step i c e p = Some (e', q, n) -> mutex_effect i e e' p q.
Proof.
  intros H. step_cases H; first [by constructor 1 | by constructor 2 | by constructor 3].
Qed.

Lemma thread_step_notify i c e p e' q n :
  thread_step i c e p = Some (e', q, n) ->
  n = true -> e' = e /\ q = Idle /\ ∃ T, p = UnlockNotify T.
Proof. intros H Hn. step_cases H; eauto. Qed.

Lemma step_thread_inv i c s s' :
  step_thread i c s = Some s' ->
  ∃ p q n, threads s !! i = Some p /\ thread_step i c (entry s) p = Some (entry s', q, n) /\
    threads s' = next_threads n i q (threads s).
Proof.
  unfold step_thread. intros H. destruct (threads s !! i) as [p|] eqn:Hp; [|done]. simpl in H.
  destruct (thread_step _ _ _ _) as [[[e q] n]|] eqn:Hs; [|done]. simplify_eq/=. eauto 10.
Qed.

Lemma total_next f n i q l p :
  (∀ x, f (wake x) = f x) -> l !! i = Some p ->
  total f (next_threads n i q l) = total f l - f p + f q.
Proof.
  intros Hf Hp. unfold next_threads. destruct n; rewrite ?total_fmap by done; by apply total_insert.
Qed.

Lemma length_next n i q l : length (next_threads n i q l) = length l.
Proof. unfold next_threads. destruct n; by rewrite ?length_fmap, length_insert. Qed.

Lemma next_lookup n i q l p j x :
  l !! i = Some p -> next_threads n i q l !! j = Some x ->
  j = i /\ x = (if n then wake q else q) \/
  j ≠ i /\ ∃ y, l !! j = Some y /\ x = (if n then wake y else y).
Proof.
  intros Hp Hx. unfold next_threads in Hx. destruct (decide (j = i)) as [->|Hne].
  - left. split; [done|]. destruct n; rewrite ?list_lookup_fmap, list_lookup_insert_eq in Hx
      by (by eapply lookup_lt_Some); by simplify_eq/=.
  - right. split; [done|]. destruct n; rewrite ?list_lookup_fmap, list_lookup_insert_ne in Hx by done.
    + apply fmap_Some in Hx as (y & ? & ->). eauto.
    + eauto.
Qed.

Lemma next_lookup_ne n i q l j y :
  j ≠ i -> l !! j = Some y -> next_threads n i q l !! j = Some (if n then wake y else y).
Proof.
  intros Hne Hy. unfold next_threads.
  destruct n; rewrite ?list_lookup_fmap, list_lookup_insert_ne, Hy; done.
Qed.

Lemma next_lookup_eq n i q l p :
  l !! i = Some p -> next_threads n i q l !! i = Some (if n then wake q else q).
Proof.
  intros Hp. unfold next_threads.
  destruct n; rewrite ?list_lookup_fmap, list_lookup_insert_eq; eauto using lookup_lt_Some.
Qed.

(** *** Invariant *)

Definition pc_types_ok (p : pc) : Prop :=
  match p with
  | Idle => True
  | LockLoop r _ | LockRegistered r | LockMutex r | LockChecked r _ | LockWaiting r _
  | LockWoken r _ _ | LockExit r _ _ | LockLeaving r _ _ => set_ok (lock_type r)
  | Held T | UnlockLoop T _ | UnlockReleased T _ | UnlockBarrier T | UnlockMutex T
  | UnlockNotify T => set_ok T
  end.

Definition holds_type (t : IntentType) (p : pc) : bool :=
  match holds p with Some T => Test T t | None => false end.

Definition count (l : list pc) (t : IntentType) : Z := total (λ p, Z.b2z (holds_type t p)) l.

(** What a request that found a conflict relies on before it sleeps, and
    while it sleeps. *)
Definition will_wake (s : conf) (p : pc) : Prop :=
  match p with
  | LockChecked r old_value =>
      has_conflict old_value r = true ->
      has_conflict (num_holding (entry s)) r = true \/
      ∃ j q, threads s !! j = Some q /\ before_barrier q = true
  | LockWaiting r _ =>
      has_conflict (num_holding (entry s)) r = true \/
      ∃ j q, threads s !! j = Some q /\ notifying q = true
  | _ => True
  end.

Record conf_ok (s : conf) : Prop := {
  ok_types : ∀ i p, threads s !! i = Some p -> pc_types_ok p;
  ok_holding : num_holding (entry s) = pack (count (threads s));
  ok_waiters : num_waiters (entry s) = total (λ p, Z.b2z (registered p)) (threads s);
  ok_mutex : ∀ i p, threads s !! i = Some p -> owns_mutex p = true <-> mutex (entry s) = Some i;
  ok_wake : ∀ i p, threads s !! i = Some p -> will_wake s p
}.

Lemma count_ok l : Z.of_nat (length l) < 2 ^ 16 -> counters_ok (count l).
Proof. intros Hl t. unfold count. pose proof (total_bool_range (holds_type t) l). lia. Qed.

Lemma holds_wake p : holds (wake p) = holds p.
Proof. by destruct p. Qed.

Lemma registered_wake p : registered (wake p) = registered p.
Proof. by destruct p. Qed.

Lemma owns_mutex_wake p : owns_mutex (wake p) = owns_mutex p.
Proof. by destruct p. Qed.

Lemma count_next n i q l p t :
  l !! i = Some p ->
  count (next_threads n i q l) t = count l t - Z.b2z (holds_type t p) + Z.b2z (holds_type t q).
Proof.
  intros Hp. unfold count. apply (total_next (λ p, Z.b2z (holds_type t p))); [|done].
  intros x. unfold holds_type. by rewrite holds_wake.
Qed.

Lemma thread_step_types i c e p e' q n :
  choice_ok c -> pc_types_ok p -> thread_step i c e p = Some (e', q, n) -> pc_types_ok q.
Proof. intros Hc Hp H. step_cases H; done. Qed.

Section step.
Context (i : nat) (c : choice) (s s' : conf) (p q : pc) (n : bool).
Context (Hok : conf_ok s) (Hlen : Z.of_nat (length (threads s)) < 2 ^ 16) (Hc : choice_ok c).
Context (Hp : threads s !! i = Some p).
Context (Hs : thread_step i c (entry s) p = Some (entry s', q, n)).
Context (Ht : threads s' = next_threads n i q (threads s)).

Lemma step_types j x : threads s' !! j = Some x -> pc_types_ok x.
Proof using Hok Hc Hp Hs Ht.
  rewrite Ht. intros [[-> ->]|(Hne & y & Hy & ->)]%(next_lookup _ _ _ _ p); [| |done].
  - pose proof (thread_step_types _ _ _ _ _ _ _ Hc (ok_types s Hok _ _ Hp) Hs).
    destruct n; [by destruct q|done].
  - pose proof (ok_types s Hok _ _ Hy). destruct n; [by destruct y|done].
Qed.

Lemma step_counters : counters_ok (count (threads s')).
Proof using Hlen Ht. apply count_ok. rewrite Ht, length_next. done. Qed.

Lemma step_holding : num_holding (entry s') = pack (count (threads s')).
Proof using Hok Hlen Hp Hs Ht.
  pose proof (ok_holding s Hok) as Hh. pose proof (ok_types s Hok _ _ Hp) as Hty.
  pose proof step_counters as Hc'. pose proof (pack_range _ Hc') as Hr.
  assert (∀ t, count (threads s') t = count (threads s) t - Z.b2z (holds_type t p) + Z.b2z (holds_type t q))
    as Hct by (intros t; rewrite Ht; by apply count_next).
  destruct (thread_step_lock _ _ _ _ _ _ _ Hs) as [E Eh|r -> -> _ E|T -> -> E].
  - rewrite E, Hh. unfold pack. rewrite !Hct. unfold holds_type. rewrite Eh. lia.
  - rewrite E, Hh, table_add by done. unfold u64. rewrite wrap_small.
    + unfold pack. rewrite !Hct. unfold holds_type. simpl. lia.
    + revert Hr. unfold pack. rewrite !Hct. unfold holds_type, is_u. simpl. lia.
  - rewrite E, Hh, table_add by done. unfold u64. rewrite wrap_small.
    + unfold pack. rewrite !Hct. unfold holds_type. simpl. lia.
    + revert Hr. unfold pack. rewrite !Hct. unfold holds_type, is_u. simpl. lia.
Qed.

Lemma step_waiters : num_waiters (entry s') = total (λ p, Z.b2z (registered p)) (threads s').
Proof using Hok Hlen Hp Hs Ht.
  pose proof (ok_waiters s Hok) as Hw. pose proof (total_bool_range registered (threads s)).
  pose proof (total_bool_range registered (threads s')) as Hr. rewrite Ht, length_next in Hr.
  assert (is_u 64 (num_waiters (entry s))) as Hu by (unfold is_u; lia).
  rewrite (thread_step_waiters _ _ _ _ _ _ _ Hu Hs), Hw.
  rewrite Ht. rewrite (total_next _ _ _ _ _ p) in * by (done || by intros []).
  apply wrap_small. unfold is_u. lia.
Qed.

Lemma step_mutex j x : threads s' !! j = Some x -> owns_mutex x = true <-> mutex (entry s') = Some j.
Proof using Hok Hp Hs Ht.
  rewrite Ht. pose proof (ok_mutex s Hok _ _ Hp) as Hi.
  intros [[-> ->]|(Hne & y & Hy & ->)]%(next_lookup _ _ _ _ p); [| |done].
  - replace (owns_mutex (if n then wake q else q)) with (owns_mutex q) by (by destruct n; rewrite ?owns_mutex_wake).
    destruct (thread_step_mutex _ _ _ _ _ _ _ Hs) as [E1 E2|E1 E2 E3|E1 E2 E3]; rewrite ?E1, ?E2, ?E3; naive_solver.
  - pose proof (ok_mutex s Hok _ _ Hy) as Hj.
    replace (owns_mutex (if n then wake y else y)) with (owns_mutex y) by (by destruct n; rewrite ?owns_mutex_wake).
    destruct (thread_step_mutex _ _ _ _ _ _ _ Hs) as [E1 E2|E1 E2 E3|E1 E2 E3].
    + by rewrite E1.
    + rewrite E2, Hj, E1. split; congruence.
    + apply Hi in E2. rewrite E1, Hj, E2. split; congruence.
Qed.

(** A conflict disappears only when a thread takes a counter to 0, and that
    thread is then before the barrier. *)
Lemma step_conflict r :
  set_ok (lock_type r) -> has_conflict (num_holding (entry s)) r = true ->
  has_conflict (num_holding (entry s')) r = true \/ before_barrier q = true.
Proof using Hok Hlen Hp Hs Ht.
  intros Hr Hconf. pose proof step_holding as Hh'. pose proof step_counters as Hc'.
  assert (∀ t, count (threads s') t = count (threads s) t - Z.b2z (holds_type t p) + Z.b2z (holds_type t q))
    as Hct by (intros t; rewrite Ht; by apply count_next).
  destruct (has_conflict (num_holding (entry s')) r) eqn:Hn; [by left|right].
  rewrite Hh', has_conflict_pack in Hn by done. rewrite (ok_holding s Hok) in Hconf.
  apply not_false_iff_true in Hconf. rewrite has_conflict_pack in Hconf by (done || by apply count_ok).
  destruct (thread_step_lock _ _ _ _ _ _ _ Hs) as [E Eh|r' -> -> _ E|T -> -> E].
  - destruct Hconf. intros t o Ht' Ho. specialize (Hn t o Ht' Ho). rewrite Hct in Hn.
    unfold holds_type in Hn. rewrite Eh in Hn. lia.
  - destruct Hconf. intros t o Ht' Ho. specialize (Hn t o Ht' Ho). rewrite Hct in Hn.
    pose proof (count_ok _ Hlen o). unfold holds_type in Hn. simpl in Hn. destruct (Test _ _); simpl in Hn; lia.
  - simpl. rewrite Hh'. apply has_zero_pack; [done|].
    destruct (has_zero (pack (count (threads s'))) T) eqn:Hz; [by apply has_zero_pack in Hz|].
    destruct Hconf. intros t o Ht' Ho. specialize (Hn t o Ht' Ho). pose proof (Hct o) as Hco.
    unfold holds_type in Hco. simpl in Hco. destruct (Test T o) eqn:HT; simpl in Hco; [|lia].
    apply not_true_iff_false in Hz. destruct Hz. apply has_zero_pack; eauto.
Qed.

(** A thread before the barrier stays there while another one is registered,
    until the mutex is free. *)
Lemma step_before_barrier j y :
  threads s !! j = Some y -> j ≠ i -> registered y = true -> before_barrier p = true ->
  before_barrier q = true \/ mutex (entry s) = None /\ notifying q = true.
Proof using Hok Hs.
  intros Hy Hne Hreg Hb. pose proof (total_bool_pos registered _ _ _ Hy Hreg) as Hw.
  rewrite <- (ok_waiters s Hok) in Hw. clear Hp Ht Hc. step_cases Hs; try done; try congruence; auto.
  apply Z.eqb_eq in E1. lia.
Qed.

Lemma step_notifying j y :
  threads s !! j = Some y -> j ≠ i -> registered y = true -> notifying p = true ->
  notifying q = true \/ n = true.
Proof using Hok Hs.
  intros Hy Hne Hreg Hb. pose proof (total_bool_pos registered _ _ _ Hy Hreg) as Hw.
  rewrite <- (ok_waiters s Hok) in Hw. unfold notifying in *. clear Hp Ht Hc.
  step_cases Hs; try done; rewrite ?orb_false_r in *; try congruence; auto.
  apply Z.eqb_eq in E1. lia.
Qed.

(** The other threads keep their places. *)
Lemma step_others (f : pc -> bool) :
  (∀ x, f (wake x) = f x) -> (∃ j y, threads s !! j = Some y /\ f y = true) ->
  f p = false \/ f q = true -> ∃ j y, threads s' !! j = Some y /\ f y = true.
Proof using Hp Hs Ht.
  intros Hf (j & y & Hy & Hfy) Hpq. rewrite Ht. destruct (decide (j = i)) as [->|Hne].
  - assert (p = y) as -> by congruence. destruct Hpq as [?|Hq]; [congruence|].
    eexists i, _. split; [by eapply next_lookup_eq|]. destruct n; by rewrite ?Hf.
  - eexists j, _. split; [by apply next_lookup_ne|]. destruct n; by rewrite ?Hf.
Qed.

Lemma step_wake_self : will_wake s' (if n then wake q else q).
Proof using Hok Hp Hs Ht.
  pose proof (ok_wake s Hok _ _ Hp) as Hw.
  assert (∀ r v, p = LockChecked r v -> q = LockWaiting r v -> will_wake s' q) as Hsleep.
  { intros r v Ep Eq. rewrite Ep in Hw. rewrite Eq.
    assert (has_conflict v r = true) as Hv by (pose proof Hs as H; rewrite Ep, Eq in H; clear -H; by step_cases H).
    destruct (thread_step_lock _ _ _ _ _ _ _ Hs) as [E _|? ?|? ?]; [|congruence..].
    simpl. rewrite E. destruct (Hw Hv) as [?|Hex]; [by left|right].
    edestruct (step_others before_barrier) as (j & y & ? & Hy); [by intros []|done|left; by rewrite Ep|].
    exists j, y. unfold notifying. by rewrite Hy. }
  destruct n eqn:En.
  - by destruct (thread_step_notify _ _ _ _ _ _ _ Hs eq_refl) as (_ & -> & _).
  - pose proof Hs as H. clear Hc. step_cases H; try done; eauto; intros Hv; left; congruence.
Qed.

Lemma step_wake_other j y :
  threads s !! j = Some y -> j ≠ i -> will_wake s' (if n then wake y else y).
Proof using Hok Hlen Hp Hs Ht.
  intros Hy Hne. pose proof (ok_wake s Hok _ _ Hy) as Hw. pose proof (ok_types s Hok _ _ Hy) as Hr.
  assert (before_barrier q = true -> ∃ k z, threads s' !! k = Some z /\ before_barrier z = true) as Hq.
  { intros Hb. exists i, (if n then wake q else q). rewrite Ht. split; [by eapply next_lookup_eq|].
    by destruct n, q. }
  destruct y; try (by destruct n).
  - replace (if n then _ else _) with (LockChecked r old_value) by (by destruct n). intros Hv.
    destruct (Hw Hv) as [Hconf|Hex].
    + destruct (step_conflict r Hr Hconf); auto.
    + right. apply step_others; [by intros []|done|].
      destruct (before_barrier p) eqn:Hb; [right|by left].
      destruct (step_before_barrier _ _ Hy Hne eq_refl Hb) as [?|[Hm _]]; [done|].
      pose proof (proj1 (ok_mutex s Hok _ _ Hy) eq_refl). congruence.
  - destruct (bool_dec n true) as [En|En]; [by rewrite En|].
    rewrite (not_true_is_false _ En). destruct Hw as [Hconf|Hex].
    + destruct (step_conflict r Hr Hconf) as [?|Hb]; [by left|right].
      destruct (Hq Hb) as (k & z & ? & Hz). exists k, z. unfold notifying. by rewrite Hz.
    + right. apply step_others; [by intros []|done|].
      destruct (notifying p) eqn:Hb; [right|by left].
      by destruct (step_notifying _ _ Hy Hne eq_refl Hb).
Qed.

Lemma entry_step_ok : conf_ok s'.
Proof using Hok Hlen Hc Hp Hs Ht.
  split; [apply step_types|apply step_holding|apply step_waiters|apply step_mutex|].
  intros j x Hx. rewrite Ht in Hx.
  apply (next_lookup _ _ _ _ p) in Hx as [[-> ->]|(Hne & y & Hy & ->)]; [| |done].
  - apply step_wake_self.
  - by apply (step_wake_other j).
Qed.

End step.

Lemma entry_initial_ok n : conf_ok (initial n).
Proof.
  assert (∀ i p, threads (initial n) !! i = Some p -> p = Idle) as Hi
    by (intros i p [? ?]%lookup_replicate; done).
  assert (∀ f, f Idle = 0 -> total f (threads (initial n)) = 0) as H0
    by (intros f Hf; clear Hi; simpl; induction n as [|n IH]; simpl; rewrite ?Hf; [done|exact IH]).
  split; intros; try (by apply Hi in H as ->).
  - unfold pack, count. by rewrite !H0.
  - by rewrite H0.
Qed.

Lemma entry_reachable_ok n s :
  Z.of_nat n < 2 ^ 16 -> reachable n s -> conf_ok s /\ length (threads s) = n.
Proof.
  intros Hn Hr. apply (rtc_ind_r (R := step) (λ s, conf_ok s /\ length (threads s) = n) (initial n)); [| |done].
  - split; [apply entry_initial_ok|]. apply length_replicate.
  - intros s1 s2 _ (i & c & Hc & Hs) [Hok Hl]. apply step_thread_inv in Hs as (p & q & b & Hp & Hs & Ht).
    split; [|by rewrite Ht, length_next]. eapply entry_step_ok; eauto. by rewrite Hl.
Qed.

(** ** Refinement of an atomic lock

    The abstract lock is the list of what every thread holds. Acquiring is
    one atomic step, possible when no other holder conflicts. *)

Definition abstract (s : conf) : list (option IntentTypeSet) := holds <$> threads s.

Inductive abstract_step (l : list (option IntentTypeSet)) : list (option IntentTypeSet) -> Prop :=
| abstract_acquire i T :
    l !! i = Some None ->
    (∀ j T', l !! j = Some (Some T') -> IntentTypeSetsConflict T T' = false) ->
    abstract_step l (<[i := Some T]> l)
| abstract_release i T :
    l !! i = Some (Some T) -> abstract_step l (<[i := None]> l).

Definition exclusive (l : list (option IntentTypeSet)) : Prop :=
  ∀ i j a b, i ≠ j -> l !! i = Some (Some a) -> l !! j = Some (Some b) ->
  IntentTypeSetsConflict a b = false.

Lemma abstract_step_exclusive l l' : abstract_step l l' -> exclusive l -> exclusive l'.
Proof.
  intros Hs Hl. destruct Hs as [k T Hk Hfree|k T Hk]; intros i j a b Hne Hi Hj;
    apply list_lookup_insert_Some in Hi as [(-> & ? & _)|[? Hi]];
    apply list_lookup_insert_Some in Hj as [(-> & ? & _)|[? Hj]]; simplify_eq; eauto.
  rewrite IntentTypeSetsConflict_sym. eauto.
Qed.

Lemma abstract_next n i q l p :
  l !! i = Some p -> holds <$> next_threads n i q l = <[i := holds q]> (holds <$> l).
Proof.
  intros Hp. unfold next_threads. rewrite <- list_fmap_insert. destruct n; [|done].
  rewrite <- list_fmap_compose. apply list_fmap_ext. intros k x _. apply holds_wake.
Qed.

(** The counters tell whom a thread holds the lock with. *)
Lemma no_conflict_holders s r j q T :
  conf_ok s -> Z.of_nat (length (threads s)) < 2 ^ 16 -> set_ok (lock_type r) ->
  has_conflict (num_holding (entry s)) r = false ->
  threads s !! j = Some q -> holds q = Some T -> IntentTypeSetsConflict (lock_type r) T = false.
Proof.
  intros Hok Hlen Hr Hf Hq HT. rewrite (ok_holding s Hok) in Hf.
  rewrite has_conflict_pack in Hf by (done || by apply count_ok).
  apply not_true_iff_false. rewrite IntentTypeSetsConflict_true. intros (t & o & Ht & Ho & Hc).
  specialize (Hf t o Ht Hc). pose proof (total_bool_pos (holds_type o) _ _ _ Hq) as Hpos.
  unfold count in Hf. unfold holds_type in Hpos at 1. rewrite HT in Hpos. specialize (Hpos Ho). lia.
Qed.

Lemma conflict_holder s r :
  conf_ok s -> Z.of_nat (length (threads s)) < 2 ^ 16 -> set_ok (lock_type r) ->
  has_conflict (num_holding (entry s)) r = true ->
  ∃ j q T, threads s !! j = Some q /\ holds q = Some T /\ IntentTypeSetsConflict (lock_type r) T = true.
Proof.
  intros Hok Hlen Hr Hc. rewrite (ok_holding s Hok) in Hc.
  destruct (existsb (λ q, match holds q with Some T => IntentTypeSetsConflict (lock_type r) T
    | None => false end) (threads s)) eqn:He.
  - apply existsb_exists in He as (q & Hq & HT). apply list_elem_of_In, list_elem_of_lookup in Hq as [j Hq].
    destruct (holds q) as [T|] eqn:Eh; [|done]. eauto 10.
  - apply not_false_iff_true in Hc. destruct Hc. apply has_conflict_pack; [by apply count_ok|done|].
    intros t o Ht Ho. destruct (decide (count (threads s) o = 0)) as [?|Hne]; [done|].
    apply total_zero in Hne as (j & q & Hq & Hh). apply not_true_iff_false in He. destruct He.
    apply existsb_exists. exists q. split; [apply list_elem_of_In; by eapply list_elem_of_lookup_2|].
    unfold holds_type in Hh. destruct (holds q) as [T|]; [|done].
    apply IntentTypeSetsConflict_true. exists t, o. by destruct (Test T o).
Qed.

Lemma step_refines s s' :
  conf_ok s -> Z.of_nat (length (threads s)) < 2 ^ 16 -> step s s' ->
  abstract s' = abstract s \/ abstract_step (abstract s) (abstract s').
Proof.
  intros Hok Hlen (i & c & Hc & Hs). apply step_thread_inv in Hs as (p & q & n & Hp & Hs & Ht).
  unfold abstract. rewrite Ht, (abstract_next _ _ _ _ _ Hp).
  pose proof (ok_types s Hok _ _ Hp) as Hty.
  assert ((holds <$> threads s) !! i = Some (holds p)) as Hi by (by rewrite list_lookup_fmap, Hp).
  destruct (thread_step_lock _ _ _ _ _ _ _ Hs) as [E Eh|r -> -> Hf E|T -> -> E].
  - left. rewrite Eh. by apply list_insert_id.
  - right. constructor; [done|]. intros j T' Hj. rewrite list_lookup_fmap in Hj.
    apply fmap_Some in Hj as (x & Hx & Hxt). by eapply no_conflict_holders.
  - right. by econstructor.
Qed.

Lemma reachable_exclusive n s : Z.of_nat n < 2 ^ 16 -> reachable n s -> exclusive (abstract s).
Proof.
  intros Hn Hr.
  apply (rtc_ind_r (R := step) (λ s, reachable n s -> exclusive (abstract s)) (initial n)); [| |done|done].
  - intros _ i j a b _ Hi _. apply list_lookup_fmap_Some in Hi as (x & ? & Hx).
    apply lookup_replicate in Hx as [-> _]. done.
  - intros s1 s2 Hr1 Hs IH _. specialize (IH Hr1). destruct (entry_reachable_ok _ _ Hn Hr1) as [Hok Hl].
    destruct (step_refines s1 s2 Hok ltac:(lia) Hs) as [->|Ha]; [done|].
    by eapply abstract_step_exclusive.
Qed.

Lemma run_reachable schedule n s s' :
  Forall (λ ic, choice_ok ic.2) schedule -> reachable n s -> run schedule s = Some s' -> reachable n s'.
Proof.
  intros Hs. revert s. induction Hs as [|[i c] rest Hc _ IH]; intros s Hr Hrun; simplify_eq/=; [done|].
  destruct (step_thread i c s) as [s1|] eqn:E; [|done]. simpl in Hrun. apply (IH s1); [|done].
  eapply rtc_r; [done|]. by exists i, c.
Qed.

(** 65536 holders of a weak read overflow into the counter of weak writes,
    and a strong write no longer sees them. *)
Lemma counter_overflow :
  let word := u64 (u64 (65535 * table_at kIntentTypeSetAdd (IntentTypeSet_of [kWeakRead]))
                   + table_at kIntentTypeSetAdd (IntentTypeSet_of [kWeakRead])) in
  word = table_at kIntentTypeSetAdd (IntentTypeSet_of [kWeakWrite]) /\
  has_conflict word (mkRequest (IntentTypeSet_of [kStrongWrite]) false) = false.
Proof. by vm_compute. Qed.

(** ** Properties *)

(** Thread 0 takes a strong write lock; thread 1 asks for a weak read, finds
    the conflict and goes to sleep. *)
Definition sample_schedule : list (nat * choice) :=
  let write := mkRequest (IntentTypeSet_of [kStrongWrite]) false in
  let read := mkRequest (IntentTypeSet_of [kWeakRead]) true in
  [(0, CallLock write); (0, WeakCasFails); (0, Next); (1, CallLock read); (1, Next); (1, Next);
   (1, Next); (1, Next)]%nat.

Definition sample_conf : conf := default (initial 3) (run sample_schedule (initial 3)).

Lemma sample_reachable : reachable 3 sample_conf.
Proof.
  apply (run_reachable sample_schedule 3 (initial 3)); [|apply rtc_refl|reflexivity].
  repeat constructor; vm_compute; intuition discriminate.
Qed.

(** In every interleaving of fewer than 65536 threads that call [Lock] and
    [Unlock] on an entry, with deadlines, spurious failures and spurious
    wakeups, two threads never hold conflicting intent types at the same
    time, the counters in [num_holding] are the numbers of holders of each
    intent type and [num_waiters] is the number of registered waiters. *)
Theorem lock_entry_mutual_exclusion n s :
  Z.of_nat n < 2 ^ 16 -> reachable n s ->
  (∀ i j p q a b, i ≠ j -> threads s !! i = Some p -> threads s !! j = Some q ->
     holds p = Some a -> holds q = Some b -> IntentTypeSetsConflict a b = false) /\
  num_holding (entry s) = pack (count (threads s)) /\
  num_waiters (entry s) = total (λ p, Z.b2z (registered p)) (threads s).
Proof.
  intros Hn Hr. destruct (entry_reachable_ok n s Hn Hr) as [Hok _].
  split; [|split; [apply (ok_holding s Hok)|apply (ok_waiters s Hok)]].
  intros i j p q a b Hne Hp Hq Ha Hb. eapply (reachable_exclusive n s Hn Hr i j); [done|..];
    unfold abstract; rewrite list_lookup_fmap, ?Hp, ?Hq; simpl; congruence.
Qed.

Lemma lock_entry_mutual_exclusion_witness :
  (∀ i j p q a b, i ≠ j -> threads sample_conf !! i = Some p -> threads sample_conf !! j = Some q ->
     holds p = Some a -> holds q = Some b -> IntentTypeSetsConflict a b = false) /\
  num_holding (entry sample_conf) = 2 ^ 48 /\ num_waiters (entry sample_conf) = 1.
Proof. apply (lock_entry_mutual_exclusion 3 sample_conf); [lia|apply sample_reachable]. Defined.



(** C25: with fewer than [2 ^ 16] threads, and if they see each other's writes in
    one order, no wakeup is lost: when a thread sleeps on the condition variable
    and no thread is on its way to [notify_all], some thread still holds an
    intent type that conflicts with the request of the sleeper. The acquire and
    release orders that the code asks for promise less than one order. *)
Theorem lock_entry_no_lost_wakeup n s i r v :
  Z.of_nat n < 2 ^ 16 -> reachable n s -> threads s !! i = Some (LockWaiting r v) ->
  (∀ j q, threads s !! j = Some q -> notifying q = false) ->
  ∃ j q T, threads s !! j = Some q /\ holds q = Some T /\
    IntentTypeSetsConflict (lock_type r) T = true.
Proof.
  intros Hn Hr Hi Hno. destruct (entry_reachable_ok n s Hn Hr) as [Hok Hl].
  apply conflict_holder; [done|by rewrite Hl|apply (ok_types s Hok _ _ Hi)|].
  destruct (ok_wake s Hok _ _ Hi) as [?|(j & q & Hq & Hb)]; [done|].
  rewrite (Hno j q Hq) in Hb. done.
Qed.

Lemma lock_entry_no_lost_wakeup_witness :
  ∃ j q T, threads sample_conf !! j = Some q /\ holds q = Some T /\
    IntentTypeSetsConflict (IntentTypeSet_of [kWeakRead]) T = true.
Proof.
  apply (lock_entry_no_lost_wakeup 3 sample_conf 1
    (mkRequest (IntentTypeSet_of [kWeakRead]) true) (2 ^ 48));
    [lia|apply sample_reachable|reflexivity|].
  intros [|[|[|j]]] q Hq; vm_compute in Hq; by simplify_eq.
Defined.
