(* ===== verification/LockManager.v ===== *)
(** * The lock manager
    ([src/yb/docdb/shared_lock_manager.cc], [SharedLockManager::Impl];
    [lock_batch.cc]; [ApplyIntent] and [FilterKeysToLock] of [docdb.cc])

    Batches of keys are sorted, merged and locked one key at a time. Lock
    entries are found by key, counted and recycled under a global mutex. The
    entries themselves are the atomic locks that [LockEntry] refines. *)

From S2P Require Import Prelude ValueType Intents LockEntry.
Local Open Scope Z_scope.

(** ** Batches *)

(** A key is the slice of its [RefCntPrefix]; [locked] points to an entry of
    [lock_entries_]. *)
Record LockBatchEntry : Type := mkLockBatchEntry {
  key : bytes;
  intent_types : IntentTypeSet;
  locked : option nat
}.

Abbreviation LockBatchEntries := (list LockBatchEntry).

(** The loop that drops group ends from the back of a key. *)
Fixpoint drop_group_ends (rev_key : bytes) : bytes :=
  match rev_key with
  | b :: rest => if b =? ValueTypeAsChar kGroupEnd then drop_group_ends rest else rev_key
  | [] => []
  end.

Definition ApplyIntent (k : bytes) (types : IntentTypeSet) (keys_locked : LockBatchEntries)
    : Result LockBatchEntries :=
  match k with
  | [] => Ok (keys_locked ++ [mkLockBatchEntry [] types None])
  | first :: rest =>
      if first =? ValueTypeAsChar kGroupEnd then
        match rest with
        | [] => Ok (keys_locked ++ [mkLockBatchEntry [] types None])
        | _ :: _ => Error Corruption
        end
      else Ok (keys_locked ++ [mkLockBatchEntry (reverse (drop_group_ends (reverse k))) types None])
  end.

(** [std::sort] by key. *)
Definition key_le (x y : LockBatchEntry) : Prop := bytes_le (key x) (key y).

#[export] Instance key_le_dec : RelDecision key_le.
Proof. intros x y. unfold key_le. apply _. Defined.

(** The loop with the write position [w]: entries with the key of [w] are
    merged into it. *)
Fixpoint merge_equal (w : LockBatchEntry) (l : LockBatchEntries) : LockBatchEntries :=
  match l with
  | [] => [w]
  | x :: l' =>
      if bool_decide (key x = key w)
      then merge_equal (mkLockBatchEntry (key w) (Z.lor (intent_types w) (intent_types x)) (locked w)) l'
      else w :: merge_equal x l'
  end.

Definition merge_sorted (l : LockBatchEntries) : LockBatchEntries :=
  match l with [] => [] | w :: l' => merge_equal w l' end.

Definition FilterKeysToLock (keys_locked : LockBatchEntries) : LockBatchEntries :=
  merge_sorted (merge_sort key_le keys_locked).

(** ** Entries *)

(** The members guarded by [global_mutex_]. An entry is its [ref_count]; the
    back of [free_lock_entries_] is the head of the list. *)
Record Impl : Type := mkImpl {
  locks_ : gmap bytes nat;
  lock_entries_ : list Z;
  free_lock_entries_ : list nat
}.

Definition new_Impl : Impl := mkImpl ∅ [] [].

(** [locks_[key]], filled when it is null. *)
Definition find_entry (m : Impl) (k : bytes) : Impl * nat :=
  match locks_ m !! k with
  | Some value => (m, value)
  | None =>
      match free_lock_entries_ m with
      | value :: free => (mkImpl (<[k := value]> (locks_ m)) (lock_entries_ m) free, value)
      | [] =>
          let value := length (lock_entries_ m) in
          (mkImpl (<[k := value]> (locks_ m)) (lock_entries_ m ++ [0]) [], value)
      end
  end.

Definition reserve_one (m : Impl) (x : LockBatchEntry) : Impl * LockBatchEntry :=
  let '(m, value) := find_entry m (key x) in
  (mkImpl (locks_ m) (alter (λ r, u64 (r + 1)) value (lock_entries_ m)) (free_lock_entries_ m),
   mkLockBatchEntry (key x) (intent_types x) (Some value)).

Fixpoint Reserve (m : Impl) (key_to_intent_type : LockBatchEntries) : Impl * LockBatchEntries :=
  match key_to_intent_type with
  | [] => (m, [])
  | x :: rest =>
      let '(m, x) := reserve_one m x in
      let '(m, rest) := Reserve m rest in (m, x :: rest)
  end.

(** Dereferencing a null or dangling [locked] is undefined. *)
Definition cleanup_one (m : Impl) (x : LockBatchEntry) : Outcome Impl :=
  match locked x with
  | None => Undefined
  | Some value =>
      match lock_entries_ m !! value with
      | None => Undefined
      | Some ref_count =>
          let ref_count := u64 (ref_count - 1) in
          let entries := <[value := ref_count]> (lock_entries_ m) in
          Done (if ref_count =? 0
                then mkImpl (delete (key x) (locks_ m)) entries (value :: free_lock_entries_ m)
                else mkImpl (locks_ m) entries (free_lock_entries_ m))
      end
  end.

Fixpoint Cleanup (m : Impl) (key_to_intent_type : LockBatchEntries) : Outcome Impl :=
  match key_to_intent_type with
  | [] => Done m
  | x :: rest => m ← cleanup_one m x; Cleanup m rest
  end.

(** ** Clients

    [Lock] and [Unlock] of the manager, one access to shared state a step:
    the position is the number of entries of the batch that are held. *)

Inductive client : Type :=
| Outside
| Locking (batch : LockBatchEntries) (pos : nat)    (* in the loop of Lock *)
| Locked (batch : LockBatchEntries)                 (* Lock returned true *)
| Releasing (batch : LockBatchEntries) (pos : nat). (* rolling back after a timeout, or in Unlock *)

Record conf : Type := mkConf { impl : Impl; clients : list client }.

Definition held (c : client) : LockBatchEntries :=
  match c with
  | Outside => []
  | Locking batch pos | Releasing batch pos => take pos batch
  | Locked batch => batch
  end.

Definition reserved (c : client) : LockBatchEntries :=
  match c with
  | Outside => []
  | Locking batch _ | Releasing batch _ | Locked batch => batch
  end.

(** Whether the entry [x] points to can be locked: no client holds it with
    conflicting intent types (the step [abstract_acquire] of [LockEntry]). *)
Definition available (cs : list client) (x : LockBatchEntry) : bool :=
  forallb (λ c, forallb (λ y,
    negb (bool_decide (locked y = locked x)) || negb (IntentTypeSetsConflict (intent_types x) (intent_types y)))
  (held c)) cs.

Inductive action : Type :=
| CallLock (batch : LockBatchEntries)
| Acquire
| Return
| DeadlinePassed
| CallUnlock
| Release.

Definition client_step (a : action) (s : conf) (c : client) : option (Impl * client) :=
  match a, c with
  | CallLock batch, Outside =>
      let '(m, batch) := Reserve (impl s) batch in Some (m, Locking batch 0)
  | Acquire, Locking batch pos =>
      match batch !! pos with
      | Some x => if available (clients s) x then Some (impl s, Locking batch (S pos)) else None
      | None => None
      end
  | Return, Locking batch pos =>
      if (pos =? length batch)%nat then Some (impl s, Locked batch) else None
  | DeadlinePassed, Locking batch pos =>
      if (pos <? length batch)%nat then Some (impl s, Releasing batch pos) else None
  | CallUnlock, Locked batch => Some (impl s, Releasing batch (length batch))
  | Release, Releasing batch (S pos) => Some (impl s, Releasing batch pos)
  | Release, Releasing batch 0 =>
      match Cleanup (impl s) batch with Done m => Some (m, Outside) | _ => None end
  | _, _ => None
  end.

Definition step_client (i : nat) (a : action) (s : conf) : option conf :=
  c ← clients s !! i;
  '(m, c) ← client_step a s c;
  Some (mkConf m (<[i := c]> (clients s))).

(** Batches come from [FilterKeysToLock]; there are fewer than 2^64
    outstanding references. *)
Definition references (s : conf) : LockBatchEntries := concat (reserved <$> clients s).

Definition action_ok (a : action) : Prop :=
  match a with CallLock batch => ∃ l, batch = FilterKeysToLock l | _ => True end.

Definition step (s s' : conf) : Prop :=
  ∃ i a, action_ok a /\ step_client i a s = Some s' /\ Z.of_nat (length (references s')) < 2 ^ 64.

Definition initial (n : nat) : conf := mkConf new_Impl (replicate n Outside).

Definition reachable (n : nat) (s : conf) : Prop := rtc step (initial n) s.

(** ** Lemmas *)

(** *** References to entries *)

Definition refers (v : nat) (x : LockBatchEntry) : Prop := locked x = Some v.

#[export] Instance refers_dec v x : Decision (refers v x).
Proof. unfold refers. apply _. Defined.

Definition ref_total (v : nat) (refs : LockBatchEntries) : Z := Z.of_nat (length (filter (refers v) refs)).

(** The entries agree with the references, except that the entry of the key
    [hole] is being handed out. *)
Record impl_ok_but (hole : option bytes) (m : Impl) (refs : LockBatchEntries) : Prop := {
  ok_refs : ∀ x, x ∈ refs -> ∃ v, locked x = Some v /\ locks_ m !! key x = Some v;
  ok_used : ∀ k v, locks_ m !! k = Some v ->
    ∃ r, lock_entries_ m !! v = Some r /\ (hole ≠ Some k -> 0 < r);
  ok_inj : ∀ k k' v, locks_ m !! k = Some v -> locks_ m !! k' = Some v -> k = k';
  ok_count : ∀ v r, lock_entries_ m !! v = Some r -> r = ref_total v refs;
  ok_nodup : NoDup (free_lock_entries_ m);
  ok_free : ∀ v, v ∈ free_lock_entries_ m ->
    lock_entries_ m !! v = Some 0 /\ ∀ k, locks_ m !! k ≠ Some v;
  ok_kept : ∀ v, lock_entries_ m !! v = Some 0 ->
    v ∈ free_lock_entries_ m \/ ∃ k, hole = Some k /\ locks_ m !! k = Some v
}.

Definition impl_ok : Impl -> LockBatchEntries -> Prop := impl_ok_but None.

#[export] Instance ref_total_proper v : Proper ((≡ₚ) ==> (=)) (ref_total v).
Proof. intros l l' Hl. unfold ref_total. by rewrite Hl. Qed.

#[export] Instance impl_ok_but_proper hole m : Proper ((≡ₚ) ==> iff) (impl_ok_but hole m).
Proof.
  assert (∀ l l', l ≡ₚ l' -> impl_ok_but hole m l -> impl_ok_but hole m l') as Hp.
  { intros l l' Hl []. split; try done; [setoid_rewrite <- Hl|]; eauto.
    intros v r Hr. rewrite <- Hl. eauto. }
  intros l l' Hl. split; by apply Hp.
Qed.

Lemma ref_total_cons v x refs :
  ref_total v (x :: refs) = ref_total v refs + (if decide (refers v x) then 1 else 0).
Proof. unfold ref_total. rewrite filter_cons. case_decide; simpl; lia. Qed.

Lemma ref_total_bound v refs : 0 <= ref_total v refs <= Z.of_nat (length refs).
Proof. unfold ref_total. pose proof (length_filter (refers v) refs). lia. Qed.

Lemma ref_total_pos v x refs : x ∈ refs -> refers v x -> 0 < ref_total v refs.
Proof.
  intros Hx Hv. apply elem_of_Permutation in Hx as [refs' ->]. rewrite ref_total_cons.
  pose proof (ref_total_bound v refs'). case_decide; [lia|done].
Qed.

(** An entry nobody refers to does not count references. *)
Lemma ref_total_fresh m v refs hole :
  impl_ok_but hole m refs -> (∀ k, locks_ m !! k ≠ Some v) -> ref_total v refs = 0.
Proof.
  intros Hok Hv. pose proof (ref_total_bound v refs).
  destruct (decide (ref_total v refs = 0)) as [?|Hne]; [done|].
  unfold ref_total in *. destruct (filter (refers v) refs) as [|x l] eqn:E; [done|].
  assert (x ∈ filter (refers v) refs) as [Hx Hin]%list_elem_of_filter by (rewrite E; left).
  destruct (ok_refs _ _ _ Hok x Hin) as (w & Hw & Hk). unfold refers in Hx. simplify_eq. by apply Hv in Hk.
Qed.

(** Giving an unused entry to a key. *)
Lemma install_ok m refs k v entries free :
  impl_ok m refs -> locks_ m !! k = None -> (∀ k', locks_ m !! k' ≠ Some v) ->
  entries !! v = Some 0 -> (∀ w, w ≠ v -> entries !! w = lock_entries_ m !! w) ->
  NoDup free -> (∀ w, w ∈ free <-> w ≠ v /\ w ∈ free_lock_entries_ m) ->
  impl_ok_but (Some k) (mkImpl (<[k := v]> (locks_ m)) entries free) refs.
Proof.
  intros Hok Hk Hnew Hv0 Hsame Hnd Hfree. pose proof Hok as [].
  assert (∀ k' w, locks_ m !! k' = Some w -> w ≠ v) as Hother by (intros k' w Hk' ->; by apply Hnew in Hk').
  split; simpl.
  - intros x Hx. destruct (ok_refs0 x Hx) as (w & ? & Hw). exists w. split; [done|].
    rewrite lookup_insert_ne; [done|]. intros ->. congruence.
  - intros k' w Hk'. apply lookup_insert_Some in Hk' as [[<- <-]|[Hne Hk']]; [by exists 0|].
    destruct (ok_used0 _ _ Hk') as (r & Hr & Hpos). exists r.
    rewrite Hsame by eauto. split; [done|]. intros _. by apply Hpos.
  - intros k1 k2 w H1 H2. apply lookup_insert_Some in H1 as [[<- <-]|[? H1]];
      apply lookup_insert_Some in H2 as [[<- ?]|[? H2]]; simplify_eq; eauto; naive_solver.
  - intros w r Hr. destruct (decide (w = v)) as [->|Hne]; [|rewrite Hsame in Hr by done; by apply ok_count0].
    simplify_eq. symmetry. by eapply ref_total_fresh.
  - done.
  - intros w [Hne Hw]%Hfree. rewrite Hsame by done. destruct (ok_free0 w Hw) as [? Hk'].
    split; [done|]. intros k' Hl. apply lookup_insert_Some in Hl as [[<- <-]|[? Hl]]; [done|by apply Hk' in Hl].
  - intros w Hw. destruct (decide (w = v)) as [->|Hne].
    + right. exists k. split; [done|]. apply lookup_insert_eq.
    + rewrite Hsame in Hw by done. destruct (ok_kept0 w Hw) as [?|(? & ? & _)]; [|done].
      left. by apply Hfree.
Qed.

Lemma find_entry_ok m refs k m' v :
  impl_ok m refs -> find_entry m k = (m', v) ->
  impl_ok_but (Some k) m' refs /\ locks_ m' !! k = Some v.
Proof.
  intros Hok. unfold find_entry. destruct (locks_ m !! k) as [w|] eqn:Hk; [intros [= <- <-]|].
  { split; [|done]. destruct Hok. split; try done.
    - intros k' v' Hk'. destruct (ok_used0 k' v' Hk') as (r & ? & Hr). eauto.
    - intros v' Hv'. destruct (ok_kept0 v' Hv') as [?|(? & ? & _)]; [by left|done]. }
  destruct (free_lock_entries_ m) as [|w free] eqn:Hfree; intros [= <- <-];
    (split; [apply install_ok; try done|apply lookup_insert_eq]).
  - intros k' Hk'. destruct (ok_used _ _ _ Hok _ _ Hk') as (r & Hr & _). apply lookup_lt_Some in Hr. lia.
  - by apply list_lookup_middle.
  - intros w Hw. destruct (decide (w < length (lock_entries_ m))%nat).
    + by apply lookup_app_l.
    + rewrite !lookup_ge_None_2; [done|lia|]. rewrite length_app. simpl. lia.
  - constructor.
  - intros w. rewrite Hfree. set_solver.
  - apply (ok_free _ _ _ Hok). rewrite Hfree. by left.
  - apply (ok_free _ _ _ Hok). rewrite Hfree. by left.
  - pose proof (ok_nodup _ _ _ Hok) as Hnd. rewrite Hfree in Hnd. by apply NoDup_cons in Hnd as [].
  - intros u. rewrite Hfree, elem_of_cons. pose proof (ok_nodup _ _ _ Hok) as Hnd.
    rewrite Hfree in Hnd. apply NoDup_cons in Hnd as [? _]. naive_solver.
Qed.

Lemma reserve_one_ok m refs x m' x' :
  impl_ok m refs -> Z.of_nat (S (length refs)) < 2 ^ 64 -> reserve_one m x = (m', x') ->
  impl_ok m' (x' :: refs).
Proof.
  intros Hok Hlen. unfold reserve_one. destruct (find_entry m (key x)) as [m1 v] eqn:Hf.
  destruct (find_entry_ok _ _ _ _ _ Hok Hf) as [[] Hk]. intros [= <- <-].
  destruct (ok_used0 _ _ Hk) as (r & Hr & _). pose proof (ok_count0 _ _ Hr) as Hc.
  pose proof (ref_total_bound v refs) as Hb.
  assert (alter (λ r, u64 (r + 1)) v (lock_entries_ m1) !! v = Some (r + 1)) as Hv.
  { rewrite list_lookup_alter_eq, Hr. simpl. unfold u64. rewrite wrap_small; [done|unfold is_u; lia]. }
  assert (∀ w, w ≠ v -> alter (λ r, u64 (r + 1)) v (lock_entries_ m1) !! w = lock_entries_ m1 !! w) as Hne
    by (intros w ?; by apply list_lookup_alter_ne).
  split; simpl.
  - intros y [->|Hy]%elem_of_cons; [by exists v|by apply ok_refs0].
  - intros k w Hk'. destruct (decide (w = v)) as [->|?].
    + exists (r + 1). split; [done|]. lia.
    + rewrite Hne by done. destruct (ok_used0 _ _ Hk') as (r' & ? & Hpos). exists r'. split; [done|].
      intros _. apply Hpos. intros [= <-]. congruence.
  - done.
  - intros w r' Hw. rewrite ref_total_cons. unfold refers. simpl. destruct (decide (w = v)) as [->|?].
    + rewrite Hv in Hw. rewrite decide_True by done. simplify_eq. lia.
    + rewrite Hne in Hw by done. rewrite decide_False by congruence. rewrite (ok_count0 _ _ Hw). lia.
  - done.
  - intros w Hw. destruct (ok_free0 w Hw) as [Hz Hw']. split; [|done].
    rewrite Hne; [done|]. intros ->. by apply Hw' in Hk.
  - intros w Hw. destruct (decide (w = v)) as [->|?]; [rewrite Hv in Hw; simplify_eq; lia|].
    rewrite Hne in Hw by done. destruct (ok_kept0 w Hw) as [?|(k & [= <-] & ?)]; [by left|congruence].
Qed.

Lemma Reserve_ok m refs l m' l' :
  impl_ok m refs -> Z.of_nat (length l + length refs) < 2 ^ 64 -> Reserve m l = (m', l') ->
  impl_ok m' (l' ++ refs).
Proof.
  revert m refs m' l'. induction l as [|x l IH]; intros m refs m' l' Hok Hlen; simpl.
  { by intros [= <- <-]. }
  destruct (reserve_one m x) as [m1 x1] eqn:Hx. destruct (Reserve m1 l) as [m2 l2] eqn:Hl.
  intros [= <- <-]. simpl in Hlen.
  pose proof (reserve_one_ok _ _ _ _ _ Hok ltac:(lia) Hx) as Hok1.
  pose proof (IH _ _ _ _ Hok1 ltac:(simpl; lia) Hl) as Hok2.
  simpl. by rewrite Permutation_middle.
Qed.

Lemma Reserve_keys m l m' l' : Reserve m l = (m', l') -> key <$> l' = key <$> l.
Proof.
  revert m m' l'. induction l as [|x l IH]; intros m m' l'; simpl; [by intros [= <- <-]|].
  unfold reserve_one. destruct (find_entry m (key x)) as [m1 v]. destruct (Reserve _ l) as [m2 l2] eqn:Hl.
  intros [= <- <-]. csimpl. f_equal. by eapply IH.
Qed.

Lemma cleanup_one_ok m refs x :
  impl_ok m (x :: refs) -> Z.of_nat (S (length refs)) < 2 ^ 64 ->
  ∃ m', cleanup_one m x = Done m' /\ impl_ok m' refs.
Proof.
  intros [] Hlen. destruct (ok_refs0 x ltac:(by left)) as (v & Hv & Hk).
  destruct (ok_used0 _ _ Hk) as (r & Hr & Hpos). specialize (Hpos ltac:(done)).
  pose proof (ok_count0 _ _ Hr) as Hc. rewrite ref_total_cons, decide_True in Hc by done.
  pose proof (ref_total_bound v refs) as Hb.
  unfold cleanup_one. rewrite Hv, Hr. eexists. split; [reflexivity|].
  unfold u64. rewrite (wrap_small 64 (r - 1)) by (unfold is_u; lia).
  set (entries := <[v := r - 1]> (lock_entries_ m)).
  assert (entries !! v = Some (r - 1)) as Hev by (apply list_lookup_insert_eq; by eapply lookup_lt_Some).
  assert (∀ w, w ≠ v -> entries !! w = lock_entries_ m !! w) as Hne by (intros w ?; by apply list_lookup_insert_ne).
  assert (∀ w r', entries !! w = Some r' -> r' = ref_total w refs) as Hcount.
  { intros w r' Hw. destruct (decide (w = v)) as [->|?]; [simplify_eq; lia|].
    rewrite Hne in Hw by done. rewrite (ok_count0 _ _ Hw), ref_total_cons.
    rewrite decide_False by (unfold refers; congruence). lia. }
  destruct (Z.eqb_spec (r - 1) 0) as [Hz|Hz]; split; simpl; try done.
  - intros y Hy. destruct (ok_refs0 y ltac:(by right)) as (w & Hw & Hkw). exists w. split; [done|].
    rewrite lookup_delete_ne; [done|]. intros E. rewrite <- E in Hkw. simplify_eq.
    pose proof (ref_total_pos v y refs Hy Hw). lia.
  - intros k w Hk'. apply lookup_delete_Some in Hk' as [Hnk Hk']. rewrite Hne; [by apply ok_used0|].
    intros ->. by apply Hnk, (ok_inj0 _ _ v).
  - intros k1 k2 w H1 H2. apply lookup_delete_Some in H1 as [_ H1], H2 as [_ H2]. eauto.
  - constructor; [|done]. intros Hin. destruct (ok_free0 v Hin) as [_ Hf]. by apply Hf in Hk.
  - intros w [->|Hw]%elem_of_cons.
    + rewrite Hev, Hz. split; [done|]. intros k Hk'. apply lookup_delete_Some in Hk' as [Hnk Hk'].
      by apply Hnk, (ok_inj0 _ _ v).
    + destruct (ok_free0 w Hw) as [? Hf]. rewrite Hne by (intros ->; by apply Hf in Hk). split; [done|].
      intros k Hk'. apply lookup_delete_Some in Hk' as [_ Hk']. by apply Hf in Hk'.
  - intros w Hw. destruct (decide (w = v)) as [->|?]; [left; by left|].
    rewrite Hne in Hw by done. destruct (ok_kept0 w Hw) as [?|(? & ? & _)]; [left; by right|done].
  - intros y Hy. apply ok_refs0. by right.
  - intros k w Hk'. destruct (decide (w = v)) as [->|?].
    + exists (r - 1). split; [done|]. lia.
    + rewrite Hne by done. by apply ok_used0.
  - intros w Hw. destruct (ok_free0 w Hw) as [? Hf]. rewrite Hne by (intros ->; by apply Hf in Hk). done.
  - intros w Hw. destruct (decide (w = v)) as [->|?]; [simplify_eq; lia|].
    rewrite Hne in Hw by done. by apply ok_kept0.
Qed.

Lemma Cleanup_ok m refs l :
  impl_ok m (l ++ refs) -> Z.of_nat (length l + length refs) < 2 ^ 64 ->
  ∃ m', Cleanup m l = Done m' /\ impl_ok m' refs.
Proof.
  revert m. induction l as [|x l IH]; intros m Hok Hlen; simpl in *; [by exists m|].
  destruct (cleanup_one_ok m (l ++ refs) x) as (m1 & -> & Hok1); [done|rewrite length_app; lia|].
  apply (IH m1); [done|lia].
Qed.

(** *** Sorting and merging *)

Definition key_lt (x y : LockBatchEntry) : Prop := bytes_lt (key x) (key y).

(** Somebody asks for the intent type [t] on the key [k]. *)
Definition wanted (l : LockBatchEntries) (k : bytes) (t : IntentType) : Prop :=
  ∃ x, x ∈ l /\ key x = k /\ Test (intent_types x) t = true.

#[export] Instance key_le_trans : Transitive key_le.
Proof. intros x y z. unfold key_le. apply bytes_le_trans. Qed.

#[export] Instance key_le_total : Total key_le.
Proof. intros x y. apply bytes_le_total. Qed.

Lemma wanted_cons x l k t :
  wanted (x :: l) k t <-> key x = k /\ Test (intent_types x) t = true \/ wanted l k t.
Proof. unfold wanted. setoid_rewrite elem_of_cons. naive_solver. Qed.

Lemma merge_equal_spec w l :
  StronglySorted key_le (w :: l) ->
  StronglySorted key_lt (merge_equal w l) /\
  (∀ y, y ∈ merge_equal w l -> key_le w y) /\
  (∀ k t, wanted (merge_equal w l) k t <-> wanted (w :: l) k t).
Proof.
  revert w. induction l as [|x l IH]; intros w Hs; cbn [merge_equal].
  { split; [by repeat constructor|]. split; [|done].
    intros y ->%list_elem_of_singleton. unfold key_le, bytes_le. by rewrite bytes_compare_refl. }
  apply StronglySorted_inv in Hs as [Hs Hw]. apply Forall_cons in Hw as [Hwx Hw].
  apply StronglySorted_inv in Hs as [Hs Hx]. case_bool_decide as Hk.
  - set (w' := mkLockBatchEntry _ _ _).
    destruct (IH w') as (Hs' & Hle & Hwant); [by constructor|]. split; [done|]. split; [done|].
    intros k t. rewrite Hwant, !wanted_cons. unfold w', Test. cbn [key intent_types].
    rewrite Z.lor_spec, orb_true_iff. naive_solver.
  - destruct (IH x) as (Hs' & Hle & Hwant); [by constructor|].
    assert (∀ y, y ∈ merge_equal x l -> key_lt w y) as Hlt.
    { intros y Hy. pose proof (Hle y Hy) as Hxy. unfold key_lt. apply bytes_lt_le. split.
      - transitivity (key x); done.
      - intros E. apply Hk. unfold key_le in *. rewrite <- E in Hxy. by apply (anti_symm bytes_le). }
    split; [constructor; [done|by apply Forall_forall]|]. split.
    + intros y [->|Hy]%elem_of_cons.
      * unfold key_le, bytes_le. by rewrite bytes_compare_refl.
      * apply bytes_lt_le. by apply Hlt.
    + intros k t. rewrite !(wanted_cons w), Hwant. done.
Qed.

Lemma merge_sorted_spec l :
  StronglySorted key_le l ->
  StronglySorted key_lt (merge_sorted l) /\ ∀ k t, wanted (merge_sorted l) k t <-> wanted l k t.
Proof.
  destruct l as [|w l]; intros Hs; [split; [constructor|done]|].
  destruct (merge_equal_spec w l Hs) as (? & _ & ?). done.
Qed.

Lemma FilterKeysToLock_sorted l : StronglySorted key_lt (FilterKeysToLock l).
Proof. apply merge_sorted_spec, StronglySorted_merge_sort; apply _. Qed.

(** *** Clients *)

Definition client_ok (c : client) : Prop :=
  StronglySorted key_lt (reserved c) /\
  match c with Locking batch pos | Releasing batch pos => (pos <= length batch)%nat | _ => True end.

(** No two clients hold an entry with conflicting intent types. *)
Definition entries_exclusive (cs : list client) : Prop :=
  ∀ i j c d x y, i ≠ j -> cs !! i = Some c -> cs !! j = Some d -> x ∈ held c -> y ∈ held d ->
  locked x = locked y -> IntentTypeSetsConflict (intent_types x) (intent_types y) = false.

Record conf_ok (s : conf) : Prop := {
  conf_impl : impl_ok (impl s) (references s);
  conf_clients : ∀ i c, clients s !! i = Some c -> client_ok c;
  conf_exclusive : entries_exclusive (clients s);
  conf_size : Z.of_nat (length (references s)) < 2 ^ 64
}.

Definition other_references (cs : list client) (i : nat) : LockBatchEntries :=
  concat (reserved <$> (take i cs ++ drop (S i) cs)).

Lemma concat_Permutation {A} (l l' : list (list A)) : l ≡ₚ l' -> concat l ≡ₚ concat l'.
Proof.
  induction 1 as [|a l l' _ IH|a b l|l l' l'' _ IH _ IH']; simpl; [done| | |by etrans].
  - by rewrite IH.
  - rewrite !(assoc_L (++)). by rewrite (Permutation_app_comm b a).
Qed.

Lemma references_middle cs i c :
  concat (reserved <$> (take i cs ++ c :: drop (S i) cs)) ≡ₚ reserved c ++ other_references cs i.
Proof.
  unfold other_references. rewrite <- concat_cons. apply concat_Permutation.
  rewrite <- Permutation_middle. done.
Qed.

Lemma references_split cs i c :
  cs !! i = Some c -> concat (reserved <$> cs) ≡ₚ reserved c ++ other_references cs i.
Proof. intros Hc. rewrite <- references_middle. by rewrite take_drop_middle. Qed.

Lemma references_insert cs i c d :
  cs !! i = Some c -> concat (reserved <$> <[i := d]> cs) ≡ₚ reserved d ++ other_references cs i.
Proof.
  intros Hc. rewrite <- references_middle. rewrite insert_take_drop; [done|]. by eapply lookup_lt_Some.
Qed.

Lemma sorted_keys l l' :
  key <$> l' = key <$> l -> StronglySorted key_lt l -> StronglySorted key_lt l'.
Proof.
  intros Hk Hs. assert (StronglySorted bytes_lt (key <$> l')) as Hl.
  { rewrite Hk. by eapply StronglySorted_fmap, Hs. }
  clear -Hl. induction l' as [|x l' IH]; [constructor|]. rewrite fmap_cons in Hl.
  apply StronglySorted_inv in Hl as [Hs Hx]. constructor; [by apply IH|].
  by rewrite Forall_fmap in Hx.
Qed.

Lemma available_spec cs x :
  available cs x = true <->
  ∀ j d y, cs !! j = Some d -> y ∈ held d -> locked y = locked x ->
    IntentTypeSetsConflict (intent_types x) (intent_types y) = false.
Proof.
  unfold available. rewrite <- Is_true_true, forallb_True, Forall_forall.
  setoid_rewrite forallb_True. setoid_rewrite Forall_forall. split.
  - intros H j d y Hd Hy E. specialize (H d (list_elem_of_lookup_2 _ _ _ Hd) y Hy).
    rewrite (bool_decide_eq_true_2 _ E) in H. by apply negb_true_iff, Is_true_true.
  - intros H d [j Hd]%list_elem_of_lookup y Hy. case_bool_decide as E; [|done].
    by rewrite (H j d y Hd Hy E).
Qed.

Lemma exclusive_insert cs i c d :
  cs !! i = Some c -> entries_exclusive cs ->
  (∀ x, x ∈ held d -> x ∈ held c \/ available cs x = true) ->
  entries_exclusive (<[i := d]> cs).
Proof.
  intros Hc He Hd. assert (∀ x j e y, j ≠ i -> cs !! j = Some e -> x ∈ held d -> y ∈ held e ->
    locked x = locked y -> IntentTypeSetsConflict (intent_types x) (intent_types y) = false) as Hone.
  { intros x j e y Hj Hje Hx Hy E. destruct (Hd x Hx) as [Hx'|Ha]; [by eapply (He i j)|].
    rewrite available_spec in Ha. by eapply Ha. }
  intros a b ca cb x y Hab Ha Hb Hx Hy E.
  apply list_lookup_insert_Some in Ha as [(-> & <- & _)|[Hia Ha]];
    apply list_lookup_insert_Some in Hb as [(-> & <- & _)|[Hib Hb]]; [done|by eauto| |by eauto].
  rewrite IntentTypeSetsConflict_sym. by eapply Hone.
Qed.

(** What a step does to the batch of the client. *)
Lemma client_step_ok a s c m d i :
  action_ok a -> conf_ok s -> clients s !! i = Some c -> client_step a s c = Some (m, d) ->
  Z.of_nat (length (reserved d ++ other_references (clients s) i)) < 2 ^ 64 ->
  impl_ok m (reserved d ++ other_references (clients s) i) /\ client_ok d /\
  (∀ x, x ∈ held d -> x ∈ held c \/ available (clients s) x = true).
Proof.
  intros Ha [Himpl Hcl Hex Hsz] Hc Hs Hlen. specialize (Hcl _ _ Hc) as [Hsorted Hpos].
  unfold references in *. rewrite (references_split _ _ _ Hc) in Himpl, Hsz.
  unfold client_step in Hs. unfold client_ok.
  destruct a as [batch| | | | |], c as [|b pos|b|b [|pos]]; try done; simpl in *.
  - destruct Ha as [l ->]. destruct (Reserve _ _) as [m1 b] eqn:Hr. simplify_eq/=.
    pose proof (Reserve_keys _ _ _ _ Hr) as Hk. pose proof (f_equal length Hk) as El.
    rewrite !length_fmap in El. rewrite length_app in Hlen.
    split; [eapply Reserve_ok; [done| |done]; lia|]. split; [|by intros x Hx%elem_of_nil].
    split; [|lia]. eapply sorted_keys; [done|]. apply FilterKeysToLock_sorted.
  - destruct (b !! pos) as [x|] eqn:Hx; [|done]. destruct (available _ x) eqn:Hav; [|done].
    simplify_eq/=. apply lookup_lt_Some in Hx as Hlt. split; [done|]. split; [split; [done|lia]|].
    intros y Hy. rewrite (take_S_r _ _ _ Hx) in Hy. apply elem_of_app in Hy as [?|Hy]; [by left|].
    apply list_elem_of_singleton in Hy as ->. by right.
  - destruct (Nat.eqb_spec pos (length b)) as [->|]; [|done]. simplify_eq/=. rewrite firstn_all. auto.
  - destruct (Nat.ltb_spec pos (length b)); [|done]. simplify_eq/=. auto.
  - simplify_eq/=. rewrite firstn_all. auto.
  - rewrite length_app in Hsz. destruct (Cleanup_ok _ _ _ Himpl ltac:(lia)) as (m1 & E & Hok).
    rewrite E in Hs. simplify_eq/=. split; [done|]. split; [|by intros x Hx%elem_of_nil].
    split; [constructor|done].
  - simplify_eq/=. split; [done|]. split; [split; [done|lia]|]. intros x Hx. left.
    apply elem_of_take in Hx as (k & ? & ?). apply elem_of_take. exists k. split; [done|lia].
Qed.

Lemma manager_step_ok s s' : conf_ok s -> step s s' -> conf_ok s'.
Proof.
  intros Hok (i & a & Ha & Hs & Hlen). unfold step_client in Hs.
  destruct (clients s !! i) as [c|] eqn:Hc; [|done]. simpl in Hs.
  destruct (client_step a s c) as [[m d]|] eqn:Hst; [|done]. simplify_eq/=.
  unfold references in Hlen. simpl in Hlen. pose proof Hlen as Hlen'.
  rewrite (references_insert _ _ _ _ Hc) in Hlen.
  destruct (client_step_ok _ _ _ _ _ _ Ha Hok Hc Hst Hlen) as (Himpl & Hd & Hheld).
  split; simpl.
  - unfold references. simpl. by rewrite (references_insert _ _ _ _ Hc).
  - intros j e He. apply list_lookup_insert_Some in He as [(-> & <- & _)|[_ He]]; [done|].
    by apply (conf_clients s Hok j).
  - apply (exclusive_insert _ _ c); [done|apply (conf_exclusive s Hok)|done].
  - done.
Qed.

Lemma manager_initial_ok n : conf_ok (initial n).
Proof.
  assert (references (initial n) = []) as E.
  { unfold references. simpl. induction n; simpl; [done|]. done. }
  split.
  - rewrite E. split; simpl; first [by intros; set_solver | constructor].
  - intros i c [-> _]%lookup_replicate. split; [constructor|done].
  - intros i j c d x y _ Hc _ Hx. apply lookup_replicate in Hc as [-> _]. by apply elem_of_nil in Hx.
  - rewrite E. simpl. lia.
Qed.

Lemma manager_reachable_ok n s : reachable n s -> conf_ok s.
Proof.
  intros Hr. apply (rtc_ind_r (R := step) conf_ok (initial n)); [apply manager_initial_ok| |done].
  intros s1 s2 _ Hs Hok. by eapply manager_step_ok.
Qed.

(** *** Lock order *)

(** The key a client waits for. *)
Definition waits_for (cs : list client) (c : client) : option bytes :=
  match c with
  | Locking batch pos =>
      x ← batch !! pos; if available cs x then None else Some (key x)
  | _ => None
  end.

(** A client that can go on: it can take its next lock or return, it has all
    its locks, or it is releasing them. *)
Definition runnable (cs : list client) (c : client) : bool :=
  match c with
  | Outside => false
  | Locking batch pos =>
      match batch !! pos with Some x => available cs x | None => true end
  | Locked _ | Releasing _ _ => true
  end.

Lemma held_reserved c x : x ∈ held c -> x ∈ reserved c.
Proof. destruct c; simpl; [done| |done|]; apply subseteq_take. Qed.

Lemma elem_of_references s j c x : clients s !! j = Some c -> x ∈ reserved c -> x ∈ references s.
Proof.
  intros Hc Hx. unfold references. rewrite (references_split _ _ _ Hc). set_solver.
Qed.

Lemma same_entry s i j c d x y :
  conf_ok s -> clients s !! i = Some c -> clients s !! j = Some d -> x ∈ reserved c -> y ∈ reserved d ->
  locked x = locked y <-> key x = key y.
Proof.
  intros Hok Hc Hd Hx Hy. pose proof (conf_impl s Hok) as Himpl.
  destruct (ok_refs _ _ _ Himpl x) as (v & Hv & Hkx); [exact (elem_of_references _ _ _ _ Hc Hx)|].
  destruct (ok_refs _ _ _ Himpl y) as (w & Hw & Hky); [exact (elem_of_references _ _ _ _ Hd Hy)|].
  rewrite Hv, Hw. split; [|congruence]. intros [= ->]. by eapply (ok_inj _ _ _ Himpl).
Qed.

(** A waiting client waits for somebody who can go on or who waits for a
    larger key. *)
Lemma waits_for_larger s i c k :
  conf_ok s -> clients s !! i = Some c -> waits_for (clients s) c = Some k ->
  ∃ j d, clients s !! j = Some d /\
    (runnable (clients s) d = true \/ ∃ k', waits_for (clients s) d = Some k' /\ bytes_lt k k').
Proof.
  intros Hok Hc Hw. destruct c as [|b pos| |]; try done. simpl in Hw.
  destruct (b !! pos) as [x|] eqn:Hx; [|done]. simpl in Hw.
  destruct (available (clients s) x) eqn:Ha; [done|]. simplify_eq.
  assert (¬ (∀ j d y, clients s !! j = Some d -> y ∈ held d -> locked y = locked x ->
    IntentTypeSetsConflict (intent_types x) (intent_types y) = false)) as Hn
    by (rewrite <- available_spec; congruence).
  destruct (decide (Exists (λ d, Exists (λ y, locked y = locked x) (held d)) (clients s))) as [He|He].
  2:{ destruct Hn. intros j d y Hd Hy E. destruct He. apply Exists_exists. exists d.
      split; [by eapply list_elem_of_lookup_2|]. apply Exists_exists. eauto. }
  apply Exists_exists in He as (d & Hd & He). apply list_elem_of_lookup in Hd as [j Hd].
  apply Exists_exists in He as (y & Hy & Ey). exists j, d. split; [done|].
  assert (key y = key x) as Hk.
  { eapply same_entry; [done|exact Hd|exact Hc|by apply held_reserved| |done].
    by eapply list_elem_of_lookup_2. }
  destruct d as [|b' pos'|b'|b' pos']; try (by left); [by apply elem_of_nil in Hy|].
  simpl. destruct (b' !! pos') as [z|] eqn:Hz; [|by left]. simpl.
  destruct (available (clients s) z); [by left|right]. exists (key z). split; [done|].
  simpl in Hy. apply elem_of_take in Hy as (n & Hn' & Hlt). rewrite <- Hk.
  destruct (conf_clients s Hok _ _ Hd) as [Hs _]. exact (StronglySorted_lookup _ _ _ _ _ _ Hs Hn' Hz Hlt).
Qed.

Lemma waiting_or_runnable cs c :
  match c with Outside => False | _ => True end -> waits_for cs c = None -> runnable cs c = true.
Proof.
  destruct c as [|b pos| |]; simpl; try done. destruct (b !! pos); simpl; [|done].
  by destruct (available _ _).
Qed.

Lemma no_deadlock s i b pos :
  conf_ok s -> clients s !! i = Some (Locking b pos) ->
  ∃ j d, clients s !! j = Some d /\ runnable (clients s) d = true.
Proof.
  intros Hok Hi. destruct (waits_for (clients s) (Locking b pos)) as [k|] eqn:Hw.
  2:{ exists i, (Locking b pos). split; [done|]. by apply waiting_or_runnable. }
  set (ks := omap (waits_for (clients s)) (clients s)).
  assert (k ∈ ks) as Hk.
  { apply list_elem_of_omap. eexists. split; [by eapply list_elem_of_lookup_2|done]. }
  destruct (bytes_maximal ks) as (m & Hm & Hmax); [intros E; rewrite E in Hk; by apply elem_of_nil in Hk|].
  apply list_elem_of_omap in Hm as (c & Hc & Hcm). apply list_elem_of_lookup in Hc as [j Hc].
  destruct (waits_for_larger s j c m Hok Hc Hcm) as (j' & d & Hd & [Hr|(k' & Hk' & Hlt)]); [eauto|].
  destruct (Hmax k'); [|done]. apply list_elem_of_omap. exists d. split; [by eapply list_elem_of_lookup_2|done].
Qed.

Lemma runnable_step s i c :
  conf_ok s -> clients s !! i = Some c -> runnable (clients s) c = true ->
  ∃ a s', (a = Acquire \/ a = Return \/ a = CallUnlock \/ a = Release) /\ step_client i a s = Some s'.
Proof.
  intros Hok Hc Hr. unfold step_client. rewrite Hc. simpl.
  destruct (conf_clients s Hok _ _ Hc) as [_ Hpos]. destruct c as [|b pos|b|b pos]; [done| | |].
  - simpl in Hr. destruct (b !! pos) as [x|] eqn:Hx.
    + exists Acquire. eexists. split; [auto|]. simpl. by rewrite Hx, Hr.
    + exists Return. eexists. split; [auto|]. simpl. apply lookup_ge_None in Hx.
      assert (pos = length b) as -> by lia. by rewrite Nat.eqb_refl.
  - exists CallUnlock. eexists. split; [auto|done].
  - exists Release. destruct pos as [|pos]; simpl; [|eauto 10].
    pose proof (conf_impl s Hok) as Himpl. pose proof (conf_size s Hok) as Hsz. unfold references in *.
    rewrite (references_split _ _ _ Hc) in Himpl, Hsz. rewrite length_app in Hsz.
    cbn [reserved] in Himpl, Hsz. destruct (Cleanup_ok _ _ _ Himpl) as (m & -> & _); [lia|]. eauto 10.
Qed.

(** ** Properties *)

Fixpoint run (schedule : list (nat * action)) (s : conf) : option conf :=
  match schedule with
  | [] => Some s
  | (i, a) :: rest => s' ← step_client i a s; run rest s'
  end.

(** Two batches that share the key [2]: the first client gets it, the second
    one waits. *)
Definition sample_batch (l : bytes) (t : IntentType) : LockBatchEntries :=
  FilterKeysToLock ((λ b : Z, mkLockBatchEntry [b] (IntentTypeSet_of [t]) None) <$> l).

Definition sample_schedule : list (nat * action) :=
  [(0%nat, CallLock (sample_batch [3; 2; 3] kStrongWrite)); (1%nat, CallLock (sample_batch [2; 1] kStrongRead));
   (0%nat, Acquire); (1%nat, Acquire)].

Definition sample_conf : conf := default (initial 2) (run sample_schedule (initial 2)).

Lemma manager_run_reachable n schedule s s' :
  Forall (λ ia, action_ok ia.2) schedule -> reachable n s -> run schedule s = Some s' ->
  (∀ k s'', run (take k schedule) s = Some s'' -> Z.of_nat (length (references s'')) < 2 ^ 64) ->
  reachable n s'.
Proof.
  intros Hs. revert s. induction Hs as [|[i a] rest Ha _ IH]; intros s Hr Hrun Hsz; simplify_eq/=; [done|].
  destruct (step_client i a s) as [s1|] eqn:E; [|done]. simpl in Hrun. apply (IH s1); [|done|].
  - eapply rtc_r; [done|]. exists i, a. split; [done|]. split; [done|].
    apply (Hsz 1%nat). simpl. rewrite E. by destruct rest.
  - intros k s'' Hk. apply (Hsz (S k)). simpl. by rewrite E.
Qed.

Lemma manager_sample_reachable : reachable 2 sample_conf.
Proof.
  apply (manager_run_reachable 2 sample_schedule (initial 2)); [|apply rtc_refl|vm_compute; reflexivity|].
  - unfold sample_schedule, sample_batch. repeat constructor; by eexists.
  - intros k s Hs. do 4 (destruct k as [|k]; [vm_compute in Hs; simplify_eq; vm_compute; reflexivity|]).
    rewrite take_ge in Hs by (vm_compute; lia). vm_compute in Hs. simplify_eq. vm_compute. reflexivity.
Qed.

(** C16: in every reachable state of any number of clients that lock and unlock
    batches made by [FilterKeysToLock], two clients never hold conflicting
    intent types on the same key, although entries are created, shared and
    recycled: a key has one entry as long as somebody refers to it. An entry is
    the atomic lock that [LockEntry] refines for fewer than [2 ^ 16] threads. *)
Theorem lock_manager_exclusion n s i j c d x y :
  reachable n s -> i ≠ j -> clients s !! i = Some c -> clients s !! j = Some d ->
  x ∈ held c -> y ∈ held d -> key x = key y ->
  IntentTypeSetsConflict (intent_types x) (intent_types y) = false /\ locked x = locked y.
Proof.
  intros Hr Hne Hc Hd Hx Hy Hk. pose proof (manager_reachable_ok n s Hr) as Hok.
  assert (locked x = locked y) as E by (apply (same_entry s i j c d); auto using held_reserved).
  split; [|done]. by eapply (conf_exclusive s Hok i j).
Qed.

(** The second client lets go of the key [1] and the first one of [2]: both
    hold it for reading. *)
Definition shared_schedule : list (nat * action) :=
  [(0%nat, CallLock (sample_batch [3; 2; 3] kStrongRead)); (1%nat, CallLock (sample_batch [2; 1] kStrongRead));
   (0%nat, Acquire); (1%nat, Acquire); (1%nat, Acquire)].

Definition shared_conf : conf := default (initial 2) (run shared_schedule (initial 2)).

Lemma lock_manager_exclusion_witness :
  ∃ x y, key x = [2] /\ key y = [2] /\
    IntentTypeSetsConflict (intent_types x) (intent_types y) = false /\ locked x = locked y.
Proof.
  assert (reachable 2 shared_conf) as Hr.
  { apply (manager_run_reachable 2 shared_schedule (initial 2)); [|apply rtc_refl|vm_compute; reflexivity|].
    - unfold shared_schedule, sample_batch. repeat constructor; by eexists.
    - intros k s Hs. do 5 (destruct k as [|k]; [vm_compute in Hs; simplify_eq; vm_compute; reflexivity|]).
      rewrite take_ge in Hs by (vm_compute; lia). vm_compute in Hs. simplify_eq. vm_compute. reflexivity. }
  do 2 eexists. split; [|split; [|eapply (lock_manager_exclusion 2 shared_conf 0 1)]];
    [| |exact Hr|done|vm_compute; reflexivity|vm_compute; reflexivity|left|right; left|];
    reflexivity.
Defined.

(** C17: batches cannot deadlock: whenever a client is inside [Lock], some
    client can take its next lock, return, start or continue to release,
    without any deadline passing. *)
Theorem lock_manager_no_deadlock n s i b pos :
  reachable n s -> clients s !! i = Some (Locking b pos) ->
  ∃ j a s', (a = Acquire \/ a = Return \/ a = CallUnlock \/ a = Release) /\
    step_client j a s = Some s'.
Proof.
  intros Hr Hi. pose proof (manager_reachable_ok n s Hr) as Hok.
  destruct (no_deadlock s i b pos Hok Hi) as (j & d & Hd & Hrun). exists j. by eapply runnable_step.
Qed.

Lemma lock_manager_no_deadlock_witness :
  ∃ j a s', (a = Acquire \/ a = Return \/ a = CallUnlock \/ a = Release) /\
    step_client j a sample_conf = Some s'.
Proof.
  eapply (lock_manager_no_deadlock 2 sample_conf 1); [apply manager_sample_reachable|vm_compute; reflexivity].
Defined.

(** The reference counts are exact: every entry counts the outstanding
    references to it, a key is mapped exactly while it is referred to, and
    when no client is inside the manager the map is empty and every entry is
    in the free list, once. *)
Theorem lock_manager_accounting n s :
  reachable n s ->
  (∀ v r, lock_entries_ (impl s) !! v = Some r -> r = ref_total v (references s)) /\
  (∀ k, is_Some (locks_ (impl s) !! k) <-> ∃ x, x ∈ references s /\ key x = k) /\
  NoDup (free_lock_entries_ (impl s)) /\
  (∀ v, v ∈ free_lock_entries_ (impl s) <-> lock_entries_ (impl s) !! v = Some 0).
Proof.
  intros Hr. destruct (conf_impl s (manager_reachable_ok n s Hr)).
  split; [done|]. split; [|split; [done|]].
  - intros k. split.
    + intros [v Hv]. destruct (ok_used0 k v Hv) as (r & Hr' & Hpos). specialize (Hpos ltac:(done)).
      rewrite (ok_count0 v r Hr') in Hpos. unfold ref_total in Hpos.
      destruct (filter (refers v) (references s)) as [|x l] eqn:E; [done|].
      assert (x ∈ filter (refers v) (references s)) as [Hx Hin]%list_elem_of_filter by (rewrite E; left).
      exists x. split; [done|]. destruct (ok_refs0 x Hin) as (w & Hw & Hk). unfold refers in Hx.
      simplify_eq. by apply (ok_inj0 _ _ v).
    + intros (x & Hx & <-). destruct (ok_refs0 x Hx) as (v & _ & ->). by eexists.
  - intros v. split; [intros Hv; by apply ok_free0|]. intros Hv. by destruct (ok_kept0 v Hv) as [?|(? & ? & _)].
Qed.

Lemma lock_manager_accounting_witness :
  (∀ v r, lock_entries_ (impl sample_conf) !! v = Some r -> r = ref_total v (references sample_conf)) /\
  (∀ k, is_Some (locks_ (impl sample_conf) !! k) <-> ∃ x, x ∈ references sample_conf /\ key x = k) /\
  NoDup (free_lock_entries_ (impl sample_conf)) /\
  (∀ v, v ∈ free_lock_entries_ (impl sample_conf) <-> lock_entries_ (impl sample_conf) !! v = Some 0).
Proof. apply (lock_manager_accounting 2 sample_conf), manager_sample_reachable. Defined.

(** Whatever order [std::sort] leaves equal keys in, the batch has every
    key once, in strictly increasing order, with the union of the intent
    types asked for it. *)
Theorem filter_keys_to_lock_correct l sorted :
  sorted ≡ₚ l -> Sorted key_le sorted ->
  StronglySorted key_lt (merge_sorted sorted) /\
  (∀ k t, wanted (merge_sorted sorted) k t <-> wanted l k t) /\
  StronglySorted key_lt (FilterKeysToLock l) /\
  (∀ k t, wanted (FilterKeysToLock l) k t <-> wanted l k t).
Proof.
  intros Hp Hs. assert (∀ l', l' ≡ₚ l -> ∀ k t, wanted l' k t <-> wanted l k t) as Hw
    by (intros l' Hl k t; unfold wanted; by setoid_rewrite Hl).
  destruct (merge_sorted_spec sorted) as [H1 H2]; [apply Sorted_StronglySorted; [apply _|done]|].
  split; [done|]. split; [intros; by rewrite H2, Hw|]. split; [apply FilterKeysToLock_sorted|].
  intros k t. unfold FilterKeysToLock. destruct (merge_sorted_spec (merge_sort key_le l)) as [_ ->].
  - apply StronglySorted_merge_sort; apply _.
  - apply Hw, merge_sort_Permutation.
Qed.

Lemma filter_keys_to_lock_correct_witness :
  let l := [mkLockBatchEntry [2] 1 None; mkLockBatchEntry [1] 4 None; mkLockBatchEntry [2] 8 None] in
  merge_sorted (merge_sort key_le l) = [mkLockBatchEntry [1] 4 None; mkLockBatchEntry [2] 9 None] /\
  StronglySorted key_lt (FilterKeysToLock l).
Proof.
  intros l. split; [vm_compute; reflexivity|].
  apply (filter_keys_to_lock_correct l (merge_sort key_le l)).
  - apply merge_sort_Permutation.
  - apply Sorted_merge_sort. apply _.
Defined.
