(* ===== verification/LockKeys.v ===== *)
(** * The keys a write locks
    ([src/yb/docdb/docdb.cc]: [DetermineKeysToLock], [EnumerateIntents],
    [PrepareDocWriteOperation])

    Every document path an operation touches is locked with strong intents and
    every prefix of it with weak ones, so that operations on nested documents
    meet in the lock manager. *)

From S2P Require Import Prelude KeyCodec FastVarInt DocKvUtil HybridTime DocHybridTime.
From S2P Require Import ValueType Intents KeyBytes Uuid PrimitiveValue VarInt PrimitiveValueKeys DocKey SubDocKey.
From S2P Require Import LockManager.
Local Open Scope Z_scope.

(** ** Operations *)

(** What [DetermineKeysToLock] asks a [DocOperation]: [GetDocPaths(kLock)] and
    [RequireReadSnapshot]. *)
Record DocOperation : Type := mkDocOperation {
  GetDocPaths : Result (list bytes * IsolationLevel);
  RequireReadSnapshot : bool
}.

Record KeyValuePairPB : Type := mkKeyValuePairPB { kv_key : bytes; kv_value : bytes }.

Inductive IntentStrength : Type := kWeak | kStrong.

Record DetermineKeysToLockResult : Type := mkDetermineKeysToLockResult {
  lock_batch : LockBatchEntries;
  need_read_snapshot : bool
}.

#[export] Instance IsolationLevel_eq_dec : EqDecision IsolationLevel.
Proof. solve_decision. Defined.

Section determine.
Context (release : bool) `{BoostUuid} {D V : Type} `{ComparableNumber D} `{ComparableNumber V}.

(** ** Enumerating the intents of a key

    The callback changes a state of type [St], or fails and leaves it. *)

Section enumerate.
Context {St : Type} (functor : IntentStrength -> bytes -> bytes -> St -> Result St).

Fixpoint enumerate_subkeys (fuel : nat) (encoded_key_buffer key value : bytes) (s : St)
    : Outcome (Result St) :=
  match fuel with
  | O => Done (Error Incomplete)
  | S fuel' =>
      match DecodeSubkey (D := D) (V := V) false key with
      | Done (Ok (Some _, rest)) =>
          s ⇐ Done (functor kWeak [] encoded_key_buffer s);
          enumerate_subkeys fuel' (encoded_key_buffer ++ take (length key - length rest) key) rest value s
      | Done (Ok (None, _)) => Done (functor kStrong value encoded_key_buffer s)
      | Done (Error _) => Fatal
      | Fatal => Fatal
      | Undefined => Undefined
      end
  end.

(** The status of the weak intent on the empty key is ignored. *)
Definition EnumerateIntents_key (key value : bytes) (s : St) : Outcome (Result St) :=
  match EncodedSize (D := D) (V := V) WHOLE_DOC_KEY false key with
  | Done (Ok key_size) =>
      let s :=
        if (1 <? length key)%nat
        then match functor kWeak [] (AppendValueType kGroupEnd []) s with Ok s' => s' | Error _ => s end
        else s in
      enumerate_subkeys (S (length key)) (take key_size key) (drop key_size key) value s
  | Done (Error _) => Fatal
  | Fatal => Fatal
  | Undefined => Undefined
  end.

Fixpoint EnumerateIntents (kv_pairs : list KeyValuePairPB) (s : St) : Outcome (Result St) :=
  match kv_pairs with
  | [] => Done (Ok s)
  | kv_pair :: rest =>
      _ ← CHECK (negb (bool_decide (kv_key kv_pair = [])));
      _ ← CHECK (negb (bool_decide (kv_value kv_pair = [])));
      s ⇐ EnumerateIntents_key (kv_key kv_pair) (kv_value kv_pair) s;
      EnumerateIntents rest s
  end.

End enumerate.

(** ** The keys to lock *)

Fixpoint apply_prefixes (doc_path : bytes) (types : IntentTypeSet) (key_prefix_lengths : list nat)
    (batch : LockBatchEntries) : Result LockBatchEntries :=
  match key_prefix_lengths with
  | [] => Ok batch
  | n :: rest => batch ← ApplyIntent (take n doc_path) types batch; apply_prefixes doc_path types rest batch
  end.

(** The body of the loop over the paths of an operation. *)
Definition lock_path (transactional_table : bool) (strong_intent_types : IntentTypeSet) (doc_path : bytes)
    (batch : LockBatchEntries) : Outcome (Result LockBatchEntries) :=
  key_prefix_lengths ⇐ DecodePrefixLengths (D := D) (V := V) doc_path;
  if decide (key_prefix_lengths = []) then Done (Error Corruption)
  else
    let weak := StrongToWeak strong_intent_types in
    batch ⇐ Done (if (0 <? length doc_path)%nat && transactional_table then ApplyIntent [] weak batch else Ok batch);
    batch ⇐ Done (apply_prefixes doc_path weak
                    (take (length key_prefix_lengths - 1) key_prefix_lengths) batch);
    Done (ApplyIntent doc_path strong_intent_types batch).

Fixpoint lock_paths (transactional_table : bool) (strong_intent_types : IntentTypeSet) (doc_paths : list bytes)
    (batch : LockBatchEntries) : Outcome (Result LockBatchEntries) :=
  match doc_paths with
  | [] => Done (Ok batch)
  | doc_path :: rest =>
      batch ⇐ lock_path transactional_table strong_intent_types doc_path batch;
      lock_paths transactional_table strong_intent_types rest batch
  end.

(** The intent types of an operation whose own level is [op_level]. *)
Definition strong_types (isolation_level op_level : IsolationLevel) (operation_kind : OperationKind)
    (require_read_snapshot : bool) : Outcome IntentTypeSet :=
  let level := if decide (isolation_level = NON_TRANSACTIONAL) then op_level else isolation_level in
  types ← GetStrongIntentTypeSet release level operation_kind;
  Done (match isolation_level, operation_kind, require_read_snapshot with
        | SERIALIZABLE_ISOLATION, kWrite, true => IntentTypeSet_of [kStrongRead; kStrongWrite]
        | _, _, _ => types
        end).

Fixpoint lock_operations (isolation_level : IsolationLevel) (operation_kind : OperationKind)
    (transactional_table : bool) (doc_write_ops : list DocOperation) (r : DetermineKeysToLockResult)
    : Outcome (Result DetermineKeysToLockResult) :=
  match doc_write_ops with
  | [] => Done (Ok r)
  | doc_op :: rest =>
      '(doc_paths, op_level) ⇐ Done (GetDocPaths doc_op);
      types ← strong_types isolation_level op_level operation_kind (RequireReadSnapshot doc_op);
      batch ⇐ lock_paths transactional_table types doc_paths (lock_batch r);
      lock_operations isolation_level operation_kind transactional_table rest
        (mkDetermineKeysToLockResult batch (RequireReadSnapshot doc_op || need_read_snapshot r))
  end.

Definition read_functor (strength : IntentStrength) (value key : bytes) (batch : LockBatchEntries)
    : Result LockBatchEntries :=
  ApplyIntent key
    (match strength with kStrong => IntentTypeSet_of [kStrongRead] | kWeak => IntentTypeSet_of [kWeakRead] end) batch.

Definition DetermineKeysToLock (doc_write_ops : list DocOperation) (read_pairs : list KeyValuePairPB)
    (isolation_level : IsolationLevel) (operation_kind : OperationKind) (transactional_table : bool)
    : Outcome (Result DetermineKeysToLockResult) :=
  r ⇐ lock_operations isolation_level operation_kind transactional_table doc_write_ops
        (mkDetermineKeysToLockResult [] false);
  batch ⇐ EnumerateIntents read_functor read_pairs (lock_batch r);
  Done (Ok (mkDetermineKeysToLockResult batch (need_read_snapshot r))).

(** [PrepareDocWriteOperation] up to the call of the lock manager: the batch it
    locks, and whether a read snapshot is needed. *)
Definition PrepareDocWriteOperation (doc_write_ops : list DocOperation) (read_pairs : list KeyValuePairPB)
    (isolation_level : IsolationLevel) (operation_kind : OperationKind) (transactional_table : bool)
    : Outcome (Result DetermineKeysToLockResult) :=
  r ⇐ DetermineKeysToLock doc_write_ops read_pairs isolation_level operation_kind transactional_table;
  if decide (lock_batch r = []) then Done (Error Corruption)
  else Done (Ok (mkDetermineKeysToLockResult (FilterKeysToLock (lock_batch r)) (need_read_snapshot r))).

End determine.

(** ** Lemmas *)

(** The key of a lock: the path without the group ends at its end. *)
Definition strip (k : bytes) : bytes := reverse (drop_group_ends (reverse k)).

Lemma strip_group_end k : strip (k ++ [ValueTypeAsChar kGroupEnd]) = strip k.
Proof. unfold strip. rewrite reverse_snoc. cbn [drop_group_ends]. by rewrite Z.eqb_refl. Qed.

Lemma ApplyIntent_strip k types batch :
  head k ≠ Some (ValueTypeAsChar kGroupEnd) ->
  ApplyIntent k types batch = Ok (batch ++ [mkLockBatchEntry (strip k) types None]).
Proof.
  intros Hh. destruct k as [|b k]; [done|]. cbn [ApplyIntent]. cbn [head] in Hh.
  rewrite (proj2 (Z.eqb_neq _ _)); [done|]. intros ->. by apply Hh.
Qed.

(** Batches only grow. *)
Lemma ApplyIntent_grows k types batch batch' :
  ApplyIntent k types batch = Ok batch' -> batch `prefix_of` batch'.
Proof.
  intros E. destruct k as [|b [|c k]]; cbn [ApplyIntent] in E; repeat case_match; simplify_eq; by apply prefix_app_r.
Qed.

Lemma apply_prefixes_grows path types l batch batch' :
  apply_prefixes path types l batch = Ok batch' -> batch `prefix_of` batch'.
Proof.
  revert batch. induction l as [|n l IH]; intros batch E; cbn [apply_prefixes] in E; [by simplify_eq|].
  apply result_bind_Ok in E as (b & E1%ApplyIntent_grows & E2%IH). by etrans.
Qed.

Section locks.
Context (release : bool) `{BoostUuid} {D V : Type} `{CD : ComparableNumber D} `{CV : ComparableNumber V}.

Abbreviation pv_enc := (key_encoding release).
Abbreviation path_enc := (path_encoding release).
Abbreviation Lock_path := (lock_path (D := D) (V := V)).
Abbreviation Lock_paths := (lock_paths (D := D) (V := V)).

Lemma lock_path_grows tr types path batch batch' :
  Lock_path tr types path batch = Done (Ok batch') -> batch `prefix_of` batch'.
Proof.
  unfold lock_path. intros (lens & _ & E)%or_bind_Ok. destruct (decide (lens = [])); [done|].
  apply or_bind_Ok in E as (b1 & E1 & E). apply or_bind_Ok in E as (b2 & E2 & E). simplify_eq.
  etrans; [|etrans; [eapply apply_prefixes_grows; exact E2|eapply ApplyIntent_grows; exact E]].
  destruct (_ && tr); simplify_eq/=; [by apply prefix_app_r|done].
Qed.

Lemma lock_paths_grows tr types paths batch batch' :
  Lock_paths tr types paths batch = Done (Ok batch') -> batch `prefix_of` batch'.
Proof.
  revert batch. induction paths as [|p paths IH]; intros batch E; cbn [lock_paths] in E; [by simplify_eq|].
  apply or_bind_Ok in E as (b & E1%lock_path_grows & E2%IH). by etrans.
Qed.

Lemma read_functor_grows strength value k batch batch' :
  read_functor strength value k batch = Ok batch' -> batch `prefix_of` batch'.
Proof. apply ApplyIntent_grows. Qed.

Lemma lock_operations_grows iso kind tr ops r r' :
  lock_operations release (D := D) (V := V) iso kind tr ops r = Done (Ok r') ->
  lock_batch r `prefix_of` lock_batch r'.
Proof.
  revert r. induction ops as [|op ops IH]; intros r E; cbn [lock_operations] in E; [by simplify_eq|].
  apply or_bind_Ok in E as ([paths level] & _ & E).
  destruct (strong_types release iso level kind (RequireReadSnapshot op)) as [types| |]; try done.
  cbn [mbind outcome_bind] in E. apply or_bind_Ok in E as (b & E1%lock_paths_grows & E2%IH). by etrans.
Qed.

Lemma enumerate_subkeys_grows fuel buffer k value batch batch' :
  enumerate_subkeys (D := D) (V := V) read_functor fuel buffer k value batch = Done (Ok batch') ->
  batch `prefix_of` batch'.
Proof.
  revert buffer k batch. induction fuel as [|fuel IH]; intros buffer k batch E; [done|]. cbn [enumerate_subkeys] in E.
  destruct (DecodeSubkey _ k) as [[[[pv|] rest]|]| |]; try done.
  - apply or_bind_Ok in E as (b & E1 & E2%IH). injection E1 as E1%read_functor_grows. by etrans.
  - injection E as E. by apply read_functor_grows in E.
Qed.

Lemma EnumerateIntents_grows pairs batch batch' :
  EnumerateIntents (D := D) (V := V) read_functor pairs batch = Done (Ok batch') -> batch `prefix_of` batch'.
Proof.
  revert batch. induction pairs as [|kv pairs IH]; intros batch E; cbn [EnumerateIntents] in E; [by simplify_eq|].
  destruct (negb (bool_decide (kv_key kv = []))), (negb (bool_decide (kv_value kv = []))); try done.
  cbn [CHECK mbind outcome_bind] in E. apply or_bind_Ok in E as (b & E1 & E2%IH). etrans; [|exact E2].
  unfold EnumerateIntents_key in E1. destruct (EncodedSize _ _ _) as [[n|]| |]; try done.
  apply enumerate_subkeys_grows in E1. etrans; [|exact E1]. destruct (1 <? _)%nat; [|done].
  destruct (read_functor _ _ _ _) as [b0|] eqn:Eb; [|done]. by apply read_functor_grows in Eb.
Qed.

(** *** The keys enumerated for a path *)

(** The proper prefixes of [buffer] followed by the sub-keys [l]. *)
Fixpoint parents (buffer : bytes) (l : list PrimitiveValue) : list bytes :=
  match l with [] => [] | pv :: l' => buffer :: parents (buffer ++ pv_enc pv) l' end.

(** The paths of the weak intents for a key: the empty key, the document and
    the sub-documents above it. *)
Definition weak_paths (k : SubDocKey) : list bytes :=
  (if (1 <? length (path_enc k))%nat then [[ValueTypeAsChar kGroupEnd]] else []) ++
  parents (dockey_encoding release (doc_key_ k)) (subkeys_ k).

Definition pair_of (kv : SubDocKey * bytes) : KeyValuePairPB := mkKeyValuePairPB (path_enc kv.1) kv.2.

Definition pair_ok (kv : SubDocKey * bytes) : Prop := subdockey_ok (D := D) (V := V) kv.1 /\ kv.2 ≠ [].

Lemma path_not_empty k : path_enc k ≠ [].
Proof.
  unfold path_encoding. rewrite open_encoding_end. intros [E _]%app_nil. by apply app_nil in E as [_ ?].
Qed.

(** A callback that accepts the weak intents sees those of the path, then the
    strong one. *)
Section visits.
Context {St : Type} (functor : IntentStrength -> bytes -> bytes -> St -> Result St) (weak : bytes -> St -> St).

Abbreviation visit := (foldl (λ s p, weak p s)).

Lemma enumerate_subkeys_visits fuel buffer l value s :
  Forall (subkey_ok (D := D) (V := V)) l -> (length l < fuel)%nat ->
  (∀ p s, p ∈ parents buffer l -> functor kWeak [] p s = Ok (weak p s)) ->
  enumerate_subkeys (D := D) (V := V) functor fuel buffer (subkeys_encoding release l) value s =
  Done (functor kStrong value (buffer ++ subkeys_encoding release l) (visit s (parents buffer l))).
Proof.
  intros Hl. revert fuel buffer s.
  induction Hl as [|pv l Hpv Hl IH]; intros [|fuel] buffer s Hf Hw; try (simpl in Hf; lia); cbn [enumerate_subkeys].
  { unfold subkeys_encoding. cbn [fmap list_fmap concat DecodeSubkey]. by rewrite app_nil_r. }
  assert (subkeys_encoding release (pv :: l) = pv_enc pv ++ subkeys_encoding release l) as -> by done.
  rewrite DecodeSubkey_encoding by (done || by apply (subkeys_encoding_ok (D := D) (V := V))).
  rewrite Hw by (by left). cbn [or_bind].
  rewrite length_app, Nat.add_sub, take_app_length, IH; [|simpl in Hf; lia|intros; apply Hw; by right].
  by rewrite <- app_assoc.
Qed.

Lemma EnumerateIntents_key_visits k value s :
  subdockey_ok (D := D) (V := V) k ->
  (∀ p s, p ∈ weak_paths k -> functor kWeak [] p s = Ok (weak p s)) ->
  EnumerateIntents_key (D := D) (V := V) functor (path_enc k) value s =
  Done (functor kStrong value (path_enc k) (visit s (weak_paths k))).
Proof.
  intros [Hd Hs _] Hw. unfold EnumerateIntents_key. unfold path_encoding at 1.
  rewrite EncodedSize_encoding by (done || by apply (subkeys_encoding_ok (D := D) (V := V))).
  assert (take (length (dockey_encoding release (doc_key_ k))) (path_enc k) = dockey_encoding release (doc_key_ k)) as ->
    by apply take_app_length.
  assert (drop (length (dockey_encoding release (doc_key_ k))) (path_enc k) = subkeys_encoding release (subkeys_ k)) as ->
    by apply drop_app_length.
  rewrite enumerate_subkeys_visits; [|done| |].
  - unfold weak_paths in *. destruct (1 <? length (path_enc k))%nat; [|done].
    change (AppendValueType kGroupEnd []) with [ValueTypeAsChar kGroupEnd]. by rewrite Hw by (by left).
  - unfold path_encoding. rewrite length_app. pose proof (subkeys_length release (subkeys_ k)). lia.
  - intros p s' Hp. apply Hw, elem_of_app. by right.
Qed.

End visits.

(** *** The entries of a path *)

Definition entry (k : bytes) (types : IntentTypeSet) : LockBatchEntry := mkLockBatchEntry (strip k) types None.

Definition path_entries (tr : bool) (strong : IntentTypeSet) (k : SubDocKey) : LockBatchEntries :=
  let prefixes := key_prefixes release k in
  (if tr then [entry [] (StrongToWeak strong)] else []) ++
  ((λ p, entry p (StrongToWeak strong)) <$> take (length prefixes - 1) prefixes) ++ [entry (path_enc k) strong].

(** A document key with any component at all. *)
Definition nonempty_key (k : DocKey) : Prop := open_prefixes release k ≠ [].

Lemma dockey_head k :
  dockey_ok (D := D) (V := V) k -> nonempty_key k -> ∃ b tl, dockey_encoding release k = b :: tl /\ b ≠ ValueTypeAsChar kGroupEnd.
Proof.
  intros Hok Hne. unfold nonempty_key, open_prefixes in Hne. rewrite dockey_encoding_parts.
  destruct (decide (hashed_part release k = [])) as [E|Hh].
  - rewrite E. cbn [app]. pose proof (dk_range _ Hok) as Hr. destruct (range_group_ k) as [|pv l]; [done|].
    rewrite group_encode_cons. destruct (key_encoding_cons release pv) as [e ->]. do 2 eexists. split; [done|].
    apply Forall_cons in Hr as [[_ Hb%primitive_not_end] _]. lia.
  - unfold hashed_part, cotable_encoding, hash_encoding in *.
    destruct (IsNil (cotable_id_ k)); [destruct (hash_present_ k)|]; try done; by do 2 eexists.
Qed.

Lemma path_prefix_head k p :
  dockey_ok (D := D) (V := V) (doc_key_ k) -> nonempty_key (doc_key_ k) -> p `prefix_of` path_enc k ->
  head p ≠ Some (ValueTypeAsChar kGroupEnd).
Proof.
  intros Hok Hne [tl E]. destruct (dockey_head _ Hok Hne) as (b & tl' & Ed & Hb). unfold path_encoding in E.
  rewrite Ed in E. destruct p as [|c p]; [done|]. injection E as -> _. intros [= ->]. done.
Qed.

Lemma apply_prefixes_spec path types l batch :
  Forall (λ p, p `prefix_of` path /\ head p ≠ Some (ValueTypeAsChar kGroupEnd)) l ->
  apply_prefixes path types (length <$> l) batch = Ok (batch ++ ((λ p, entry p types) <$> l)).
Proof.
  intros Hl. revert batch. induction Hl as [|p l [[tl Hp] Hh] Hl IH]; intros batch; cbn [apply_prefixes fmap list_fmap].
  - by rewrite app_nil_r.
  - rewrite Hp at 1. rewrite take_app_length, ApplyIntent_strip by done. cbn [mbind result_bind].
    rewrite IH. by rewrite <- app_assoc.
Qed.

Lemma key_prefixes_nonempty k : nonempty_key (doc_key_ k) -> key_prefixes release k ≠ [].
Proof.
  unfold nonempty_key, key_prefixes, close_last. intros Hne [E _]%app_nil.
  rewrite last_open_prefixes, decide_False in E by done. by apply app_nil in E as [_ ?].
Qed.

Lemma lock_path_encoding tr strong k batch :
  subdockey_ok (D := D) (V := V) k -> nonempty_key (doc_key_ k) ->
  Lock_path tr strong (path_enc k) batch = Done (Ok (batch ++ path_entries tr strong k)).
Proof.
  intros Hok Hne. unfold lock_path. pose proof (key_prefixes_nonempty k Hne) as Hk.
  pose proof (DecodePrefixLengths_encoding (D := D) (V := V) release k [] Hok ltac:(constructor) ltac:(by left)) as E.
  rewrite app_nil_r in E. rewrite E. cbn [or_bind].
  rewrite decide_False by (by intros ?%fmap_nil_inv). destruct Hok as [Hd _ _].
  destruct (dockey_head _ Hd Hne) as (b & tl & Eb & _).
  assert ((0 <? length (path_enc k))%nat = true) as -> by (unfold path_encoding; by rewrite Eb).
  assert (∀ p, p `prefix_of` path_enc k -> head p ≠ Some (ValueTypeAsChar kGroupEnd)) as Hhead
    by (intros p; by apply path_prefix_head).
  rewrite length_fmap, <- fmap_take. cbn [andb].
  assert ((if tr then ApplyIntent [] (StrongToWeak strong) batch else Ok batch) =
    Ok (batch ++ if tr then [entry [] (StrongToWeak strong)] else [])) as ->.
  { destruct tr; [done|]. by rewrite app_nil_r. }
  cbn [or_bind]. rewrite apply_prefixes_spec.
  - cbn [or_bind]. rewrite ApplyIntent_strip by by apply Hhead. unfold path_entries.
    do 2 f_equal. by rewrite <- !app_assoc.
  - apply Forall_take. eapply Forall_impl; [apply key_prefixes_prefix|]. intros p Hp. split; [done|]. by apply Hhead.
Qed.

(** *** Ancestors *)

(** The path of [a] leads to the path of [b]: a document, a prefix of its
    components, or a sub-document of it. *)
Definition is_ancestor (a b : SubDocKey) : Prop :=
  (subkeys_ a = [] /\ extends_key (doc_key_ b) (doc_key_ a)) \/
  (doc_key_ a = doc_key_ b /\ subkeys_ a `prefix_of` subkeys_ b).

Lemma extends_key_refl k : extends_key k k.
Proof. done. Qed.

Lemma open_encoding_in a b :
  extends_key b a -> nonempty_key a -> open_encoding release a ∈ open_prefixes release b.
Proof.
  intros [[= E1 E2 E3 E4] Hr] Hne.
  assert (hashed_part release a = hashed_part release b) as Eh
    by (unfold hashed_part, hash_encoding; by rewrite E1, E2, E3, E4).
  unfold open_encoding, open_prefixes, nonempty_key, open_prefixes in *. rewrite Eh in *. apply elem_of_app.
  destruct (range_group_ a) as [|pv l] eqn:Er.
  - left. destruct (decide (hashed_part release b = [])) as [E|]; [done|].
    unfold subkeys_encoding. cbn. rewrite app_nil_r. by left.
  - right. apply elem_of_extensions. by exists (pv :: l).
Qed.

Lemma strip_close_last x l :
  x ∈ l -> strip x ∈ strip <$> close_last l.
Proof.
  intros Hx. unfold close_last. destruct l as [|y l _] using rev_ind; [by apply elem_of_nil in Hx|].
  rewrite last_snoc, length_app, Nat.add_sub, take_app_length, fmap_app. apply elem_of_app.
  apply elem_of_app in Hx as [Hx| ->%list_elem_of_singleton]; [left; by apply list_elem_of_fmap_2|].
  right. cbn. rewrite strip_group_end. by left.
Qed.

Lemma ancestor_prefix a b :
  is_ancestor a b -> nonempty_key (doc_key_ a) -> strip (path_enc a) ∈ strip <$> key_prefixes release b.
Proof.
  intros Han Hne. unfold key_prefixes. rewrite fmap_app. apply elem_of_app.
  assert (∀ k, extends_key (doc_key_ b) k -> nonempty_key k ->
    strip (dockey_encoding release k) ∈ strip <$> close_last (open_prefixes release (doc_key_ b))) as Hdoc.
  { intros k He Hk. rewrite open_encoding_end, strip_group_end. apply strip_close_last. by apply open_encoding_in. }
  unfold path_encoding. destruct Han as [[Es He]|[Ed Hp]].
  - left. rewrite Es. unfold subkeys_encoding. cbn. rewrite app_nil_r. by apply Hdoc.
  - destruct (subkeys_ a) as [|pv l] eqn:Es.
    + left. unfold subkeys_encoding. cbn. rewrite app_nil_r. apply Hdoc; [|done]. by rewrite Ed.
    + right. apply list_elem_of_fmap_2, elem_of_extensions. exists (pv :: l). by rewrite Ed.
Qed.

Lemma last_key_prefixes k : nonempty_key (doc_key_ k) -> last (key_prefixes release k) = Some (path_enc k).
Proof.
  intros Hne. unfold key_prefixes, path_encoding. destruct (subkeys_ k) as [|pv l].
  - cbn [extensions]. unfold subkeys_encoding. cbn [fmap list_fmap concat]. rewrite !app_nil_r.
    unfold close_last. rewrite last_open_prefixes, decide_False, last_snoc by done. by rewrite open_encoding_end.
  - by rewrite last_app, last_extensions.
Qed.

(** The path of the ancestor is locked, weakly or, if it is the path itself,
    strongly. *)
Lemma ancestor_locked a b tr strong :
  is_ancestor a b -> nonempty_key (doc_key_ a) -> nonempty_key (doc_key_ b) ->
  ∃ types, (types = StrongToWeak strong \/ types = strong) /\ entry (path_enc a) types ∈ path_entries tr strong b.
Proof.
  intros Han Ha Hb. pose proof (ancestor_prefix a b Han Ha) as (p & Ep & Hp)%list_elem_of_fmap.
  pose proof (last_key_prefixes b Hb) as Hl. unfold path_entries, entry. rewrite Ep.
  destruct (key_prefixes release b) as [|q l _] using rev_ind; [done|].
  rewrite last_snoc in Hl. injection Hl as ->. rewrite length_app, Nat.add_sub, take_app_length.
  apply elem_of_app in Hp as [Hp| ->%list_elem_of_singleton].
  - exists (StrongToWeak strong). split; [by left|]. apply elem_of_app. right. apply elem_of_app. left.
    by apply (list_elem_of_fmap_2 (λ p, mkLockBatchEntry (strip p) (StrongToWeak strong) None)).
  - exists strong. split; [by right|]. apply elem_of_app. right. apply elem_of_app. right. by left.
Qed.

(** *** Operations *)

(** The operation touches [path] with the strong intent types [types]. *)
Definition op_locks (iso : IsolationLevel) (kind : OperationKind) (op : DocOperation) (path : bytes)
    (types : IntentTypeSet) : Prop :=
  ∃ paths level, GetDocPaths op = Ok (paths, level) /\ path ∈ paths /\
    strong_types release iso level kind (RequireReadSnapshot op) = Done types.

Lemma lock_paths_entries tr types paths batch batch' k :
  Lock_paths tr types paths batch = Done (Ok batch') -> path_enc k ∈ paths ->
  subdockey_ok (D := D) (V := V) k -> nonempty_key (doc_key_ k) -> path_entries tr types k ⊆ batch'.
Proof.
  intros E Hk Hok Hne. revert batch E. induction paths as [|p paths IH]; intros batch E; [by apply elem_of_nil in Hk|].
  cbn [lock_paths] in E. apply or_bind_Ok in E as (b & E1 & E2). apply elem_of_cons in Hk as [<-|Hk].
  - rewrite lock_path_encoding in E1 by done. injection E1 as <-. apply lock_paths_grows in E2 as [l ->]. set_solver.
  - by apply (IH Hk b).
Qed.

Lemma lock_operations_entries iso kind tr ops r r' op k types :
  lock_operations release (D := D) (V := V) iso kind tr ops r = Done (Ok r') -> op ∈ ops ->
  op_locks iso kind op (path_enc k) types -> subdockey_ok (D := D) (V := V) k -> nonempty_key (doc_key_ k) ->
  path_entries tr types k ⊆ lock_batch r'.
Proof.
  intros E Hop (paths & level & Ep & Hk & Et) Hok Hne. revert r E.
  induction ops as [|op' ops IH]; intros r E; [by apply elem_of_nil in Hop|]. cbn [lock_operations] in E.
  apply or_bind_Ok in E as ([paths' level'] & E0 & E). apply elem_of_cons in Hop as [<-|Hop].
  - injection E0 as E0. rewrite Ep in E0. injection E0 as <- <-. rewrite Et in E. cbn [mbind outcome_bind] in E.
    apply or_bind_Ok in E as (b & E1 & E2%lock_operations_grows). eapply lock_paths_entries in E1; [|done..].
    destruct E2 as [l ->]. set_solver.
  - destruct (strong_types release iso level' kind (RequireReadSnapshot op')); try done. cbn [mbind outcome_bind] in E.
    apply or_bind_Ok in E as (b & _ & E2). by eapply (IH Hop).
Qed.

Lemma determine_entries ops reads iso kind tr r op k types :
  DetermineKeysToLock release (D := D) (V := V) ops reads iso kind tr = Done (Ok r) -> op ∈ ops ->
  op_locks iso kind op (path_enc k) types -> subdockey_ok (D := D) (V := V) k -> nonempty_key (doc_key_ k) ->
  path_entries tr types k ⊆ lock_batch r.
Proof.
  intros (r0 & E0 & (b & Eb & Er)%or_bind_Ok)%or_bind_Ok Hop Hl Hok Hne. simplify_eq. cbn [lock_batch].
  apply EnumerateIntents_grows in Eb as [l ->]. eapply lock_operations_entries in E0; [|done..]. set_solver.
Qed.

Lemma FilterKeysToLock_wanted l k t : wanted (FilterKeysToLock l) k t <-> wanted l k t.
Proof.
  unfold FilterKeysToLock. destruct (merge_sorted_spec (merge_sort key_le l)) as [_ ->];
    [apply StronglySorted_merge_sort; apply _|].
  unfold wanted. by setoid_rewrite (merge_sort_Permutation key_le l).
Qed.

Lemma prepare_wanted ops reads iso kind tr r op k types x t :
  PrepareDocWriteOperation release (D := D) (V := V) ops reads iso kind tr = Done (Ok r) -> op ∈ ops ->
  op_locks iso kind op (path_enc k) types -> subdockey_ok (D := D) (V := V) k -> nonempty_key (doc_key_ k) ->
  x ∈ path_entries tr types k -> Test (intent_types x) t = true -> wanted (lock_batch r) (key x) t.
Proof.
  intros (r0 & E0 & E)%or_bind_Ok Hop Hl Hok Hne Hx Ht. destruct (decide _); [done|]. simplify_eq. cbn [lock_batch].
  apply FilterKeysToLock_wanted. eapply determine_entries in E0; [|done..]. exists x. set_solver.
Qed.

(** *** All entries *)

Lemma lock_paths_encoding tr types ks batch :
  Forall (λ k, subdockey_ok (D := D) (V := V) k /\ nonempty_key (doc_key_ k)) ks ->
  Lock_paths tr types (path_enc <$> ks) batch = Done (Ok (batch ++ (ks ≫= path_entries tr types))).
Proof.
  intros Hks. revert batch. induction Hks as [|k ks [Hk Hn] Hks IH]; intros batch; cbn [fmap list_fmap lock_paths].
  - by rewrite app_nil_r.
  - rewrite lock_path_encoding by done. cbn [or_bind]. rewrite IH. cbn [mbind list_bind]. by rewrite <- app_assoc.
Qed.

(** An operation on the paths of given keys. *)
Record op_spec : Type := mkOpSpec { os_keys : list SubDocKey; os_level : IsolationLevel; os_snapshot : bool }.

Definition operation_of (o : op_spec) : DocOperation :=
  mkDocOperation (Ok (path_enc <$> os_keys o, os_level o)) (os_snapshot o).

(** Its keys can be stored, and its intent types are defined. *)
Definition op_spec_ok (iso : IsolationLevel) (kind : OperationKind) (types : op_spec -> IntentTypeSet) (o : op_spec) : Prop :=
  Forall (λ k, subdockey_ok (D := D) (V := V) k /\ nonempty_key (doc_key_ k)) (os_keys o) /\
  strong_types release iso (os_level o) kind (os_snapshot o) = Done (types o).

Lemma lock_operations_encoding iso kind tr types os r :
  Forall (op_spec_ok iso kind types) os ->
  lock_operations release (D := D) (V := V) iso kind tr (operation_of <$> os) r =
  Done (Ok (mkDetermineKeysToLockResult
    (lock_batch r ++ (os ≫= λ o, os_keys o ≫= path_entries tr (types o)))
    (existsb os_snapshot os || need_read_snapshot r))).
Proof.
  intros Hos. revert r. induction Hos as [|o os [Hk Ht] Hos IH]; intros r; cbn [fmap list_fmap lock_operations].
  { cbn. rewrite app_nil_r. by destruct r. }
  cbn [operation_of GetDocPaths RequireReadSnapshot or_bind]. rewrite Ht. cbn [mbind outcome_bind].
  rewrite lock_paths_encoding by done. cbn [or_bind]. rewrite IH. cbn [lock_batch need_read_snapshot existsb list_bind mbind].
  rewrite <- app_assoc. do 3 f_equal. by destruct (os_snapshot o), (existsb _ os).
Qed.

(** The entries of a key that is read: weak ones above it, and its own. *)
Definition read_entries (k : SubDocKey) : LockBatchEntries :=
  ((λ p, entry p (IntentTypeSet_of [kWeakRead])) <$> weak_paths k) ++ [entry (path_enc k) (IntentTypeSet_of [kStrongRead])].

Lemma elem_of_parents p buffer l :
  p ∈ parents buffer l <-> ∃ l1 pv l2, l = l1 ++ pv :: l2 /\ p = buffer ++ subkeys_encoding release l1.
Proof.
  revert buffer. induction l as [|x l IH]; intros buffer; cbn [parents].
  { split; [by intros ?%elem_of_nil|]. by intros ([] & ? & ? & ? & _). }
  rewrite elem_of_cons, IH. split.
  - intros [->|(l1 & pv & l2 & -> & ->)].
    + exists [], x, l. split; [done|]. unfold subkeys_encoding. cbn. by rewrite app_nil_r.
    + exists (x :: l1), pv, l2. split; [done|]. unfold subkeys_encoding. cbn [fmap list_fmap concat].
      by rewrite <- app_assoc.
  - intros ([|y l1] & pv & l2 & [= -> ->] & ->).
    + left. unfold subkeys_encoding. cbn. by rewrite app_nil_r.
    + right. exists l1, pv, l2. split; [done|]. unfold subkeys_encoding. cbn [fmap list_fmap concat].
      by rewrite <- app_assoc.
Qed.

Lemma read_functor_entry strength value k p batch :
  dockey_ok (D := D) (V := V) (doc_key_ k) -> nonempty_key (doc_key_ k) ->
  p = [ValueTypeAsChar kGroupEnd] \/ p `prefix_of` path_enc k ->
  read_functor strength value p batch = Ok (batch ++ [entry p
    (match strength with kStrong => IntentTypeSet_of [kStrongRead] | kWeak => IntentTypeSet_of [kWeakRead] end)]).
Proof.
  intros Hd Hn [->|Hp]; [by destruct strength|]. unfold read_functor.
  rewrite ApplyIntent_strip by (by eapply path_prefix_head). done.
Qed.

Lemma weak_paths_prefix k p :
  p ∈ weak_paths k -> p = [ValueTypeAsChar kGroupEnd] \/ p `prefix_of` path_enc k.
Proof.
  intros [Hp|(l1 & pv & l2 & E & ->)%elem_of_parents]%elem_of_app.
  - destruct (1 <? _)%nat; [|by apply elem_of_nil in Hp]. left. by apply list_elem_of_singleton in Hp.
  - right. unfold path_encoding. rewrite E. apply prefix_app. unfold subkeys_encoding. rewrite fmap_app, concat_app.
    by apply prefix_app_r.
Qed.

Lemma EnumerateIntents_reads reads batch :
  Forall (λ kv, pair_ok kv /\ nonempty_key (doc_key_ kv.1)) reads ->
  EnumerateIntents (D := D) (V := V) read_functor (pair_of <$> reads) batch =
  Done (Ok (batch ++ (reads ≫= λ kv, read_entries kv.1))).
Proof.
  intros Hr. revert batch. induction Hr as [|[k v] reads [[Hk Hv] Hn] Hr IH]; intros batch.
  { by rewrite app_nil_r. }
  cbn [fmap list_fmap EnumerateIntents pair_of kv_key kv_value fst snd] in *.
  rewrite !bool_decide_eq_false_2 by (done || apply path_not_empty). cbn [negb CHECK mbind outcome_bind].
  pose proof (sdk_doc_key _ Hk) as Hd.
  rewrite (EnumerateIntents_key_visits read_functor (λ p b, b ++ [entry p (IntentTypeSet_of [kWeakRead])])); [|done|].
  - rewrite (read_functor_entry _ _ k) by (done || by right). cbn [or_bind]. rewrite IH. do 2 f_equal.
    cbn [list_bind fst]. unfold read_entries. rewrite <- !app_assoc. cbn [app].
    assert (∀ ps (b : LockBatchEntries), foldl (λ s p, s ++ [entry p (IntentTypeSet_of [kWeakRead])]) b ps =
      b ++ ((λ p, entry p (IntentTypeSet_of [kWeakRead])) <$> ps)) as ->; [|by rewrite <- app_assoc].
    induction ps as [|p ps IHp]; intros b; [by rewrite app_nil_r|]. cbn [foldl fmap list_fmap].
    rewrite IHp, <- app_assoc. done.
  - intros p b Hp%weak_paths_prefix. by rewrite (read_functor_entry _ _ k).
Qed.

(** *** Conflicts *)

Lemma sets_conflict_iff a b :
  IntentTypeSetsConflict a b = true <->
  ∃ t1 t2, Test a t1 = true /\ Test b t2 = true /\ IntentTypesConflict t1 t2 = true.
Proof.
  unfold IntentTypeSetsConflict. rewrite existsb_exists. setoid_rewrite existsb_exists.
  setoid_rewrite <- list_elem_of_In. setoid_rewrite elem_of_members. split.
  - intros (t1 & H1 & t2 & H2 & H3). by exists t1, t2.
  - intros (t1 & t2 & H1 & H2 & H3). exists t1. split; [done|]. by exists t2.
Qed.

Lemma strong_types_strong iso level kind rs types :
  strong_types release iso level kind rs = Done types -> set_ok types /\ Z.land types AllStrongIntents = types.
Proof.
  unfold strong_types. intros E. destruct iso, level, kind, rs, release; vm_compute in E; simplify_eq;
    (split; [vm_compute; intuition discriminate|reflexivity]).
Qed.

Lemma conflict_on_ancestor a b types :
  set_ok a -> set_ok b -> Z.land a AllStrongIntents = a -> Z.land b AllStrongIntents = b ->
  types = StrongToWeak b \/ types = b -> IntentTypeSetsConflict a b = true -> IntentTypeSetsConflict a types = true.
Proof.
  intros Ha Hb Sa Sb [->| ->] Hc; [|done].
  pose proof (set_pairs_check (λ a b, implb ((Z.land a AllStrongIntents =? a) && (Z.land b AllStrongIntents =? b))
    (implb (IntentTypeSetsConflict a b) (IntentTypeSetsConflict a (StrongToWeak b))))
    ltac:(vm_compute; reflexivity) a b Ha Hb) as E. cbv beta in E.
  rewrite (proj2 (Z.eqb_eq _ _) Sa), (proj2 (Z.eqb_eq _ _) Sb), Hc in E. exact E.
Qed.

(** The locks of a batch. *)
Definition locks (batch : LockBatchEntries) : list (bytes * IntentTypeSet) := (λ x, (key x, intent_types x)) <$> batch.

Lemma wanted_locks l l' k t : locks l = locks l' -> wanted l k t -> wanted l' k t.
Proof.
  intros E (x & Hx & Hk & Ht). apply (list_elem_of_fmap_2 (λ x, (key x, intent_types x))) in Hx.
  fold (locks l) in Hx. rewrite E in Hx. apply list_elem_of_fmap in Hx as (y & Ey & Hy). simplify_eq.
  exists y. split; [done|]. by split; [|congruence].
Qed.

Lemma nonempty_ancestor a b : is_ancestor a b -> nonempty_key (doc_key_ a) -> nonempty_key (doc_key_ b).
Proof.
  intros [[_ He]|[E _]] Ha; [|by rewrite <- E]. intros Hb. pose proof (open_encoding_in _ _ He Ha) as Hin.
  rewrite Hb in Hin. by apply elem_of_nil in Hin.
Qed.

End locks.

(** ** Properties *)

(** The keys to lock are determined for any operations and read pairs
    with well-formed paths.  They are the entries of each path of each
    operation, then those of the pairs; a read snapshot is needed when some
    operation requires one.  An operation on a path locks, besides the path
    itself, the path of every document, prefix of key components and
    sub-document above it. *)
Theorem determine_keys_to_lock_correct `{BoostUuid} {D V : Type}
    `{CD : ComparableNumber D} `{CV : ComparableNumber V} release os reads iso kind tr types :
  Forall (op_spec_ok release (D := D) (V := V) iso kind types) os ->
  Forall (λ kv, pair_ok (D := D) (V := V) kv /\ nonempty_key release (doc_key_ kv.1)) reads ->
  ∃ batch, DetermineKeysToLock release (D := D) (V := V) (operation_of release <$> os) (pair_of release <$> reads) iso kind tr =
      Done (Ok (mkDetermineKeysToLockResult batch (existsb os_snapshot os))) /\
    batch = (os ≫= λ o, os_keys o ≫= path_entries release tr (types o)) ++ (reads ≫= λ kv, read_entries release kv.1) /\
    ∀ o a b, o ∈ os -> b ∈ os_keys o -> is_ancestor a b -> nonempty_key release (doc_key_ a) ->
      ∃ t, (t = StrongToWeak (types o) \/ t = types o) /\ entry (path_encoding release a) t ∈ batch.
Proof.
  intros Hos Hr. eexists. unfold DetermineKeysToLock. rewrite (lock_operations_encoding release iso kind tr types) by done.
  cbn [or_bind lock_batch app]. rewrite EnumerateIntents_reads by done. cbn [or_bind need_read_snapshot].
  rewrite orb_false_r. split; [done|]. split; [done|]. intros o a b Ho Hb Han Ha.
  destruct (ancestor_locked release a b tr (types o) Han Ha (nonempty_ancestor release a b Han Ha)) as (t & Ht & Hx).
  exists t. split; [done|]. apply elem_of_app. left. apply list_elem_of_bind. exists o. split; [|done].
  apply list_elem_of_bind. by exists b.
Qed.

(** A column of a row, and the whole row. *)
Definition row_key : SubDocKey := mkSubDocKey (DocKey_range [mkPV kTrue no_val]) invalid_doc_ht [].
Definition column_key : SubDocKey := mkSubDocKey (DocKey_range [mkPV kTrue no_val]) invalid_doc_ht [mkPV kNull no_val].

Definition path_of (k : SubDocKey) : bytes :=
  match EncodeWithoutHt true k with Done p => p | _ => [] end.

Definition read_of (k : SubDocKey) : DocOperation := mkDocOperation (Ok ([path_of k], NON_TRANSACTIONAL)) false.

Definition batch_of (k : SubDocKey) : DetermineKeysToLockResult :=
  match DetermineKeysToLock true (D := Z) (V := Z) [read_of k] [] SERIALIZABLE_ISOLATION kRead true with
  | Done (Ok r) => r
  | _ => mkDetermineKeysToLockResult [] false
  end.

Lemma row_key_ok : subdockey_ok (D := Z) (V := Z) row_key.
Proof. repeat constructor; try (vm_compute; intuition discriminate). all: by simplify_eq/=. Qed.

Lemma column_key_ok : subdockey_ok (D := Z) (V := Z) column_key.
Proof. destruct row_key_ok as [Hd _ _]. split; [done|by repeat constructor|done]. Qed.

Lemma read_of_locks k :
  path_of k = path_encoding true k ->
  op_locks true SERIALIZABLE_ISOLATION kRead (read_of k) (path_encoding true k) (IntentTypeSet_of [kStrongRead]).
Proof. intros <-. do 2 eexists. split; [reflexivity|]. split; [by left|done]. Qed.

Lemma determine_keys_to_lock_correct_witness :
  ∃ batch, DetermineKeysToLock true (D := Z) (V := Z) [operation_of true (mkOpSpec [column_key] NON_TRANSACTIONAL true)]
      (pair_of true <$> [(row_key, [36])]) SERIALIZABLE_ISOLATION kWrite true =
      Done (Ok (mkDetermineKeysToLockResult batch true)) /\
    ∃ t, entry (path_encoding true row_key) t ∈ batch.
Proof.
  destruct (determine_keys_to_lock_correct (D := Z) (V := Z) true [mkOpSpec [column_key] NON_TRANSACTIONAL true]
    [(row_key, [36])] SERIALIZABLE_ISOLATION kWrite true (λ _, IntentTypeSet_of [kStrongRead; kStrongWrite]))
    as (batch & E & _ & Hb).
  - apply Forall_singleton. split; [|done]. apply Forall_singleton. split; [apply column_key_ok|by vm_compute].
  - apply Forall_singleton. split; [split; [apply row_key_ok|done]|by vm_compute].
  - exists batch. split; [exact E|].
    destruct (Hb (mkOpSpec [column_key] NON_TRANSACTIONAL true) row_key column_key) as (t & _ & Ht);
      [by left|by left| |by vm_compute|by exists t].
    right. split; [done|]. apply prefix_nil.
Defined.

(** C8: two operations on nested documents whose intent types conflict are
    never inside their critical sections together: in every reachable state
    of the lock manager, when two clients hold the batches prepared for them,
    the strong intent types of two operations, one on a path above the other's,
    do not conflict. *)
Theorem nested_operations_exclusive `{BoostUuid} {D V : Type}
    `{CD : ComparableNumber D} `{CV : ComparableNumber V} release n s i j ba bb
    opsA readsA isoA kindA trA rA opsB readsB isoB kindB trB rB opA opB a b ta tb :
  reachable n s -> i ≠ j -> clients s !! i = Some (Locked ba) -> clients s !! j = Some (Locked bb) ->
  PrepareDocWriteOperation release (D := D) (V := V) opsA readsA isoA kindA trA = Done (Ok rA) ->
  PrepareDocWriteOperation release (D := D) (V := V) opsB readsB isoB kindB trB = Done (Ok rB) ->
  locks ba = locks (lock_batch rA) -> locks bb = locks (lock_batch rB) -> opA ∈ opsA -> opB ∈ opsB ->
  op_locks release isoA kindA opA (path_encoding release a) ta ->
  op_locks release isoB kindB opB (path_encoding release b) tb ->
  subdockey_ok (D := D) (V := V) a -> subdockey_ok (D := D) (V := V) b -> nonempty_key release (doc_key_ a) ->
  is_ancestor a b -> IntentTypeSetsConflict ta tb = false.
Proof.
  intros Hr Hij Hi Hj EA EB La Lb HA HB Oa Ob Ka Kb Ha Han.
  pose proof (nonempty_ancestor release a b Han Ha) as Hb. apply not_true_iff_false. intros Hc.
  destruct (ancestor_locked release a b trB tb Han Ha Hb) as (types & Ht & Hx).
  assert (IntentTypeSetsConflict ta types = true) as Hc'.
  { destruct Oa as (? & ? & _ & _ & [? ?]%strong_types_strong), Ob as (? & ? & _ & _ & [? ?]%strong_types_strong).
    by apply (conflict_on_ancestor ta tb). }
  apply sets_conflict_iff in Hc' as (t1 & t2 & T1 & T2 & T12).
  assert (entry (path_encoding release a) ta ∈ path_entries release trA ta a) as Hxa by (unfold path_entries; set_solver).
  pose proof (prepare_wanted release opsA readsA isoA kindA trA rA opA a ta _ t1 EA HA Oa Ka Ha Hxa T1) as W1.
  pose proof (prepare_wanted release opsB readsB isoB kindB trB rB opB b tb _ t2 EB HB Ob Kb Hb Hx T2) as W2.
  apply (wanted_locks _ ba) in W1 as (x & Hxb & Kx & Tx); [|done].
  apply (wanted_locks _ bb) in W2 as (y & Hyb & Ky & Ty); [|done].
  unfold entry in Kx, Ky. cbn [key] in Kx, Ky. pose proof (manager_reachable_ok n s Hr) as Hok.
  assert (locked x = locked y) as El by (apply (same_entry s i j (Locked ba) (Locked bb)); [done..|congruence]).
  pose proof (conf_exclusive s Hok i j _ _ x y Hij Hi Hj Hxb Hyb El) as Hf.
  apply not_true_iff_false in Hf. apply Hf, sets_conflict_iff. by exists t1, t2.
Qed.

Definition prepared (k : SubDocKey) : LockBatchEntries := FilterKeysToLock (lock_batch (batch_of k)).

(** Two readers of nested paths, each of which locks its batch. *)
Definition readers_schedule : list (nat * action) :=
  [(0%nat, CallLock (prepared row_key)); (1%nat, CallLock (prepared column_key))] ++
  replicate (length (prepared row_key)) (0%nat, Acquire) ++ replicate (length (prepared column_key)) (1%nat, Acquire) ++
  [(0%nat, Return); (1%nat, Return)].

Definition readers_conf : conf := default (initial 2) (run readers_schedule (initial 2)).

Definition locked_batch (i : nat) : LockBatchEntries :=
  match clients readers_conf !! i with Some (Locked b) => b | _ => [] end.

(** The bound on the references, checked along a schedule. *)
Definition small_run (schedule : list (nat * action)) (s : conf) (k : nat) : bool :=
  match run (take k schedule) s with Some s' => Z.of_nat (length (references s')) <? 2 ^ 64 | None => true end.

Lemma small_runs schedule s :
  forallb (small_run schedule s) (seq 0 (S (length schedule))) = true ->
  ∀ k s', run (take k schedule) s = Some s' -> Z.of_nat (length (references s')) < 2 ^ 64.
Proof.
  intros Hc k s' Hs. rewrite forallb_forall in Hc.
  specialize (Hc (Nat.min k (length schedule)) ltac:(apply in_seq; lia)). unfold small_run in Hc.
  destruct (le_lt_dec k (length schedule)) as [Hk|Hk].
  - rewrite Nat.min_l, Hs in Hc by done. lia.
  - rewrite Nat.min_r, take_ge in Hc by lia. rewrite take_ge in Hs by lia. rewrite Hs in Hc. lia.
Qed.

Lemma readers_reachable : reachable 2 readers_conf.
Proof.
  apply (manager_run_reachable 2 readers_schedule (initial 2)); [|apply rtc_refl|vm_compute; reflexivity|].
  - apply Forall_app. split.
    { constructor; [exists (lock_batch (batch_of row_key)); reflexivity|].
      constructor; [exists (lock_batch (batch_of column_key)); reflexivity|constructor]. }
    apply Forall_app. split; [by apply Forall_replicate|]. apply Forall_app.
    split; [by apply Forall_replicate|by repeat constructor].
  - apply small_runs. vm_compute. reflexivity.
Qed.

Lemma nested_operations_exclusive_witness :
  IntentTypeSetsConflict (IntentTypeSet_of [kStrongRead]) (IntentTypeSet_of [kStrongRead]) = false.
Proof.
  apply (nested_operations_exclusive (D := Z) (V := Z) true 2 readers_conf 0 1 (locked_batch 0) (locked_batch 1)
    [read_of row_key] [] SERIALIZABLE_ISOLATION kRead true
    (mkDetermineKeysToLockResult (prepared row_key) false)
    [read_of column_key] [] SERIALIZABLE_ISOLATION kRead true
    (mkDetermineKeysToLockResult (prepared column_key) false)
    (read_of row_key) (read_of column_key) row_key column_key).
  - apply readers_reachable.
  - done.
  - vm_compute. reflexivity.
  - vm_compute. reflexivity.
  - vm_compute. reflexivity.
  - vm_compute. reflexivity.
  - vm_compute. reflexivity.
  - vm_compute. reflexivity.
  - by left.
  - by left.
  - apply read_of_locks. vm_compute. reflexivity.
  - apply read_of_locks. vm_compute. reflexivity.
  - apply row_key_ok.
  - apply column_key_ok.
  - by vm_compute.
  - right. split; [done|]. apply prefix_nil.
Defined.
