(* ===== verification/IntentsDb.v ===== *)
(** * Intents of transactions
    ([src/yb/docdb/docdb.cc]: [PrepareNonTransactionWriteBatch], [AddIntent],
    [PrepareTransactionWriteBatch], [PrepareApplyIntentsBatch];
    [conflict_resolution.cc]: [ParseIntentKey], [ReadIntentConflicts])

    A transaction stores its writes as intents beside the regular records,
    with a reverse index from the transaction to its intents.  When it commits,
    the intents are found through the index, become regular records at the
    commit time, and are deleted. *)

From S2P Require Import Prelude KeyCodec FastVarInt DocKvUtil HybridTime DocHybridTime.
From S2P Require Import ValueType Intents KeyBytes Uuid PrimitiveValue VarInt Decimal PrimitiveValueKeys DocKey SubDocKey.
From S2P Require Import LockEntry LockManager LockKeys.
Local Open Scope Z_scope.

(** ** RocksDB

    The contract the code relies on: an ordered map, written by batches and
    read by iterators in the bytewise order of the keys. *)

Abbreviation DB := (gmap bytes bytes).

Inductive write_op : Type := Put (k v : bytes) | Delete (k : bytes).

Definition apply_op (db : DB) (op : write_op) : DB :=
  match op with Put k v => <[k := v]> db | Delete k => delete k db end.

Definition Write (db : DB) (batch : list write_op) : DB := foldl apply_op db batch.

Definition entry_le (x y : bytes * bytes) : Prop := bytes_le x.1 y.1.

#[export] Instance entry_le_dec : RelDecision entry_le.
Proof. intros x y. unfold entry_le. apply _. Defined.

#[export] Instance bytes_lt_dec : RelDecision bytes_lt.
Proof. intros a b. unfold bytes_lt. apply _. Defined.

Definition in_order (db : DB) : list (bytes * bytes) := merge_sort entry_le (map_to_list db).

(** The entries an iterator visits after [Seek]. *)
Definition seek (db : DB) (target : bytes) : list (bytes * bytes) :=
  filter (λ kv, bytes_le target kv.1) (in_order db).

(** With an upper bound, which is not visited. *)
Definition seek_below (db : DB) (target upperbound : bytes) : list (bytes * bytes) :=
  filter (λ kv, bytes_lt kv.1 upperbound) (seek db target).

(** ** Writing *)

(** [DocHybridTimeBuffer::EncodeWithValueType] *)
Definition EncodeWithValueType (ht : HybridTime) (write_id : Z) : bytes :=
  ValueTypeAsChar kHybridTime :: EncodedInDocDbFormat (mkDocHybridTime ht write_id).

Record KeyValueWriteBatchPB : Type := mkKeyValueWriteBatchPB {
  write_pairs : list KeyValuePairPB;
  read_pairs : list KeyValuePairPB
}.

Section write.
Context (release : bool) `{BoostUuid} {D V : Type} `{ComparableNumber D} `{ComparableNumber V}.

(** The debug-only test that a key can be decoded. *)
Definition check_key (k : bytes) : Outcome unit :=
  if release then Done tt
  else
    key ← SubDocKey_FullyDecodeFrom (D := D) (V := V) release
            (mkSubDocKey (DocKey_range []) invalid_doc_ht []) false k;
    CHECK (if key is Some _ then true else false).

Fixpoint put_pairs (hybrid_time : HybridTime) (write_id : Z) (pairs : list KeyValuePairPB)
    (batch : list write_op) : Outcome (list write_op) :=
  match pairs with
  | [] => Done batch
  | kv_pair :: rest =>
      _ ← CHECK (negb (bool_decide (kv_key kv_pair = [])));
      _ ← CHECK (negb (bool_decide (kv_value kv_pair = [])));
      _ ← check_key (kv_key kv_pair);
      put_pairs hybrid_time (write_id + 1) rest
        (batch ++ [Put (kv_key kv_pair ++ EncodeWithValueType hybrid_time write_id) (kv_value kv_pair)])
  end.

Definition PrepareNonTransactionWriteBatch (put_batch : KeyValueWriteBatchPB) (hybrid_time : HybridTime)
    (batch : list write_op) : Outcome (list write_op) :=
  _ ← CHECK (bool_decide (read_pairs put_batch = []));
  put_pairs hybrid_time 0 (write_pairs put_batch) batch.

(** *** Intents *)

(** [AddIntent], for a key and the time that ends it: the intent, and the
    reverse index record, with the bits of the time inverted. *)
Definition reverse_key (transaction_id doc_ht_slice : bytes) : bytes :=
  ValueTypeAsChar kTransactionId :: transaction_id ++ flip_bits doc_ht_slice.

Definition AddIntent (transaction_id key doc_ht_slice value : bytes) (batch : list write_op) : list write_op :=
  batch ++ [Put (key ++ doc_ht_slice) value; Put (reverse_key transaction_id doc_ht_slice) (key ++ doc_ht_slice)].

(** [PrepareTransactionWriteBatchHelper]; the two write ids are [uint32_t],
    [intra_txn_write_id_] is the caller's. *)
Record Helper : Type := mkHelper {
  strong_intent_types_ : IntentTypeSet;
  weak_intents_ : gmap bytes IntentTypeSet;
  write_id_ : Z;
  intra_txn_write_id_ : Z;
  helper_batch : list write_op
}.

Section helper.
Context (hybrid_time : HybridTime) (transaction_id : bytes).

Definition Setup (isolation_level : IsolationLevel) (kind : OperationKind) (h : Helper) : Outcome Helper :=
  types ← GetStrongIntentTypeSet release isolation_level kind;
  Done (mkHelper types (weak_intents_ h) (write_id_ h) (intra_txn_write_id_ h) (helper_batch h)).

Definition intent_type_bytes (types : IntentTypeSet) : bytes := [ValueTypeAsChar kIntentTypeSet; types].

Definition strong_intent_value (write_id : Z) (value : bytes) : bytes :=
  ValueTypeAsChar kTransactionId :: transaction_id ++ ValueTypeAsChar kWriteId :: be_bytes 4 write_id ++ value.

(** [operator()] *)
Definition helper_functor (intent_strength : IntentStrength) (value key : bytes) (h : Helper) : Result Helper :=
  match intent_strength with
  | kWeak =>
      Ok (mkHelper (strong_intent_types_ h)
            (<[key := Z.lor (default 0 (weak_intents_ h !! key)) (StrongToWeak (strong_intent_types_ h))]>
               (weak_intents_ h))
            (write_id_ h) (intra_txn_write_id_ h) (helper_batch h))
  | kStrong =>
      Ok (mkHelper (strong_intent_types_ h) (weak_intents_ h) (u32 (write_id_ h + 1))
            (u32 (intra_txn_write_id_ h + 1))
            (AddIntent transaction_id (key ++ intent_type_bytes (strong_intent_types_ h))
               (EncodeWithValueType hybrid_time (write_id_ h))
               (strong_intent_value (intra_txn_write_id_ h) value) (helper_batch h)))
  end.

(** The loop of [Finish] over the weak intents, in the order of the
    [unordered_map]. *)
Fixpoint finish_loop (weak_intents : list (bytes * IntentTypeSet)) (write_id : Z) (batch : list write_op)
    : list write_op :=
  match weak_intents with
  | [] => batch
  | (key, types) :: rest =>
      finish_loop rest (u32 (write_id + 1))
        (AddIntent transaction_id (key ++ intent_type_bytes types) (EncodeWithValueType hybrid_time write_id)
           (ValueTypeAsChar kTransactionId :: transaction_id) batch)
  end.

Definition check_ok {A} (r : Outcome (Result A)) : Outcome A :=
  match r with Done (Ok a) => Done a | Done (Error _) => Fatal | Fatal => Fatal | Undefined => Undefined end.

(** [iteration] is the order in which the map is visited. The batch and the
    caller's write id. *)
Definition PrepareTransactionWriteBatch (iteration : gmap bytes IntentTypeSet -> list (bytes * IntentTypeSet))
    (put_batch : KeyValueWriteBatchPB) (isolation_level : IsolationLevel) (write_id : Z)
    (batch : list write_op) : Outcome (list write_op * Z) :=
  let h := mkHelper 0 ∅ 0 write_id batch in
  h ← (if decide (write_pairs put_batch = []) then Done h
       else
         h ← Setup isolation_level kWrite h;
         check_ok (EnumerateIntents (D := D) (V := V) helper_functor (write_pairs put_batch) h));
  h ← (if decide (read_pairs put_batch = []) then Done h
       else
         h ← Setup isolation_level kRead h;
         check_ok (EnumerateIntents (D := D) (V := V) helper_functor (read_pairs put_batch) h));
  Done (finish_loop (iteration (weak_intents_ h)) (write_id_ h) (helper_batch h), intra_txn_write_id_ h).

End helper.

(** ** Reading *)

Record ParsedIntent : Type := mkParsedIntent {
  doc_path : bytes;
  types : IntentTypeSet;
  parsed_doc_ht : bytes
}.

Definition ParseIntentKey (intent_key : bytes) : Outcome (Result ParsedIntent) :=
  doc_ht_size ⇐ Done (CheckAndGetEncodedSize intent_key);
  if Z.of_nat (length intent_key) <? doc_ht_size + 3 then Done (Error Corruption)
  else
    let n := (length intent_key - Z.to_nat (doc_ht_size + 3))%nat in
    let doc_path := take n intent_key in
    let intent_type_and_doc_ht := drop n intent_key in
    let b0 := byte_at intent_type_and_doc_ht 0 in
    let b1 := byte_at intent_type_and_doc_ht 1 in
    types ⇐
      (if b0 =? ValueTypeAsChar kObsoleteIntentType then
         types ← ObsoleteIntentTypeToSet release b1; Done (Ok types)
       else if b0 =? ValueTypeAsChar kObsoleteIntentTypeSet then Done (Ok (ObsoleteIntentTypeSetToNew b1))
       else if b0 =? ValueTypeAsChar kIntentTypeSet then Done (Ok (new_IntentTypeSet b1))
       else Done (Error Corruption));
    if negb (byte_at intent_type_and_doc_ht 2 =? ValueTypeAsChar kHybridTime) then Done (Error Corruption)
    else Done (Ok (mkParsedIntent doc_path types (drop 2 intent_type_and_doc_ht))).

(** [IntentToWriteRequest], for the value of the reverse index record: the
    regular batch and the next write id. *)
Definition IntentToWriteRequest (intents_db : DB) (transaction_id : bytes) (commit_ht : HybridTime)
    (reverse_index_value : bytes) (regular_batch : list write_op) (write_id : Z)
    : Outcome (Result (list write_op * Z)) :=
  match seek intents_db reverse_index_value with
  | (k, v) :: _ =>
      if negb (bool_decide (k = reverse_index_value))
      then (if release then Done (Ok (regular_batch, write_id)) else Fatal)
      else
        intent ⇐ ParseIntentKey k;
        if Test (types intent) kStrongWrite then
          '(stored_write_id, intent_value) ⇐ DecodeIntentValue v transaction_id;
          _ ← (if release then Done tt else CHECK (write_id <=? stored_write_id));
          Done (Ok (regular_batch ++
            [Put (doc_path intent ++ EncodeWithValueType commit_ht stored_write_id)
                 (parsed_doc_ht intent ++ intent_value)], u32 (stored_write_id + 1)))
        else Done (Ok (regular_batch, write_id))
  | [] => if release then Done (Ok (regular_batch, write_id)) else Fatal
  end.

(** The loop of [PrepareApplyIntentsBatch]; without [apply] the intents are
    only removed. *)
Fixpoint apply_loop (intents_db : DB) (transaction_id prefix : bytes) (commit_ht : HybridTime) (apply : bool)
    (reverse_index : list (bytes * bytes)) (regular_batch intents_batch : list write_op) (write_id : Z)
    : Outcome (Result (list write_op * list write_op)) :=
  match reverse_index with
  | [] => Done (Ok (regular_batch, intents_batch))
  | (k, v) :: rest =>
      if negb (starts_with k prefix) then Done (Ok (regular_batch, intents_batch))
      else if (length prefix <? length k)%nat then
        '(regular_batch, write_id) ⇐
          (if apply
           then IntentToWriteRequest intents_db transaction_id commit_ht v regular_batch write_id
           else Done (Ok (regular_batch, write_id)));
        apply_loop intents_db transaction_id prefix commit_ht apply rest regular_batch
          (intents_batch ++ [Delete v; Delete k]) write_id
      else
        apply_loop intents_db transaction_id prefix commit_ht apply rest regular_batch
          (intents_batch ++ [Delete k]) write_id
  end.

Definition AppendTransactionKeyPrefix (transaction_id out : bytes) : bytes :=
  AppendRawBytes transaction_id (AppendValueType kTransactionId out).

Definition PrepareApplyIntentsBatch (transaction_id : bytes) (commit_ht : HybridTime) (apply : bool)
    (intents_db : DB) (regular_batch intents_batch : list write_op)
    : Outcome (Result (list write_op * list write_op)) :=
  let txn_reverse_index_prefix := AppendTransactionKeyPrefix transaction_id [] in
  let txn_reverse_index_upperbound := AppendValueType kMaxByte txn_reverse_index_prefix in
  apply_loop intents_db transaction_id txn_reverse_index_prefix commit_ht apply
    (seek_below intents_db txn_reverse_index_prefix txn_reverse_index_upperbound)
    regular_batch intents_batch 0.

(** *** Conflicts *)

(** The loop of [ReadIntentConflicts]: the transactions found. *)
Fixpoint conflicts_loop (conflicting_intent_types : Z) (prefix : bytes) (ignore : bytes -> bool)
    (intents : list (bytes * bytes)) (conflicts : gset bytes) : Outcome (Result (gset bytes)) :=
  match intents with
  | [] => Done (Ok conflicts)
  | (existing_key, existing_value) :: rest =>
      if negb (starts_with existing_key prefix) then Done (Ok conflicts)
      else if (length existing_key <=? length prefix)%nat
              || negb (IntentValueType (byte_at existing_key (length prefix))) then Done (Ok conflicts)
      else
        match existing_value with
        | b :: existing_value =>
            if negb (b =? ValueTypeAsChar kTransactionId) then Done (Error Corruption)
            else
              existing_intent ⇐ ParseIntentKey existing_key;
              if negb (Z.land conflicting_intent_types (table_at kIntentTypeSetMask (types existing_intent)) =? 0)
              then
                if (length existing_value <? TransactionId_static_size)%nat then Undefined
                else
                  let transaction_id := take TransactionId_static_size existing_value in
                  conflicts_loop conflicting_intent_types prefix ignore rest
                    (if ignore transaction_id then conflicts else {[transaction_id]} ∪ conflicts)
              else conflicts_loop conflicting_intent_types prefix ignore rest conflicts
        | [] => Done (Error Corruption)
        end
  end.

Definition ReadIntentConflicts (intents_db : DB) (type : IntentTypeSet) (intent_key_prefix : bytes)
    (ignore : bytes -> bool) (conflicts : gset bytes) : Outcome (Result (gset bytes)) :=
  let upperbound := AppendValueType kMaxByte intent_key_prefix in
  let target := AppendValueType kIntentTypeSet intent_key_prefix in
  let target := if negb (HasStrong type) then AppendRawBytes [Z.shiftl 1 kStrongIntentFlag] target else target in
  conflicts_loop (table_at kIntentTypeSetConflicts type) intent_key_prefix ignore
    (seek_below intents_db target upperbound) conflicts.

End write.

(** ** Lemmas *)

(** *** Iterators *)

Definition entry_lt (x y : bytes * bytes) : Prop := bytes_lt x.1 y.1.

#[export] Instance entry_le_trans : Transitive entry_le.
Proof. intros x y z. unfold entry_le. apply bytes_le_trans. Qed.

#[export] Instance entry_le_total : Total entry_le.
Proof. intros x y. apply bytes_le_total. Qed.

#[export] Instance entry_lt_antisymm : AntiSymm (=) entry_lt.
Proof. intros x y Hxy Hyx. unfold entry_lt, bytes_lt in *. by rewrite bytes_compare_antisym, Hxy in Hyx. Qed.

Lemma entry_lt_irrefl x : ~ entry_lt x x.
Proof. apply bytes_lt_irrefl. Qed.

Lemma strictly_sorted_NoDup l : StronglySorted entry_lt l -> NoDup l.
Proof.
  induction 1 as [|x l _ IH Hx]; constructor; [|done]. intros Hin.
  rewrite Forall_forall in Hx. by apply (entry_lt_irrefl x), Hx.
Qed.

(** A strictly sorted list is determined by its elements. *)
Lemma strictly_sorted_unique l1 l2 :
  StronglySorted entry_lt l1 -> StronglySorted entry_lt l2 -> (∀ x, x ∈ l1 <-> x ∈ l2) -> l1 = l2.
Proof.
  intros H1 H2 Hx. apply (StronglySorted_unique entry_lt); [done..|].
  apply NoDup_Permutation; [by apply strictly_sorted_NoDup..|done].
Qed.

Lemma elem_of_in_order db kv : kv ∈ in_order db <-> db !! kv.1 = Some kv.2.
Proof.
  unfold in_order. rewrite merge_sort_Permutation. destruct kv. apply elem_of_map_to_list.
Qed.

Lemma in_order_sorted db : StronglySorted entry_lt (in_order db).
Proof.
  assert (StronglySorted entry_le (in_order db)) as Hs by (apply StronglySorted_merge_sort; apply _).
  assert (NoDup (in_order db).*1) as Hn.
  { unfold in_order. rewrite merge_sort_Permutation. apply NoDup_fst_map_to_list. }
  revert Hn. induction Hs as [|x l _ IH Hx]; intros Hn; [constructor|]. cbn in Hn. apply NoDup_cons in Hn as [Hx' Hn].
  constructor; [by apply IH|]. rewrite Forall_forall in *. intros y Hy. apply bytes_lt_le. split; [by apply Hx|].
  intros E. apply Hx'. rewrite E. by apply list_elem_of_fmap_2.
Qed.

Lemma filter_sorted (P : bytes * bytes -> Prop) `{∀ x, Decision (P x)} l :
  StronglySorted entry_lt l -> StronglySorted entry_lt (filter P l).
Proof.
  induction 1 as [|x l _ IH Hx]; [constructor|]. rewrite filter_cons. destruct (decide (P x)); [|done].
  constructor; [done|]. rewrite Forall_forall in *. intros y [_ Hy]%list_elem_of_filter. by apply Hx.
Qed.

Lemma seek_below_spec db lo hi l :
  StronglySorted entry_lt l ->
  (∀ kv, kv ∈ l <-> db !! kv.1 = Some kv.2 /\ bytes_le lo kv.1 /\ bytes_lt kv.1 hi) -> seek_below db lo hi = l.
Proof.
  intros Hs Hl. apply strictly_sorted_unique; [apply filter_sorted, filter_sorted, in_order_sorted|done|].
  intros kv. unfold seek_below, seek. rewrite !list_elem_of_filter, elem_of_in_order, Hl. tauto.
Qed.

Lemma seek_found db k v : db !! k = Some v -> ∃ tl, seek db k = (k, v) :: tl.
Proof.
  intros Hk. assert ((k, v) ∈ seek db k) as Hin.
  { apply list_elem_of_filter. split; [|by apply elem_of_in_order]. unfold bytes_le. cbn. by rewrite bytes_compare_refl. }
  pose proof (filter_sorted (λ kv, bytes_le k kv.1) _ (in_order_sorted db)) as Hs. fold (seek db k) in Hs.
  destruct (seek db k) as [|[k0 v0] tl] eqn:E; [by apply elem_of_nil in Hin|].
  apply elem_of_cons in Hin as [[= -> ->]|Hin]; [by exists tl|]. exfalso.
  apply StronglySorted_inv in Hs as [_ Hs]. rewrite Forall_forall in Hs. specialize (Hs _ Hin).
  assert ((k0, v0) ∈ seek db k) as [Hle _]%list_elem_of_filter by (rewrite E; left).
  unfold entry_lt, bytes_lt, bytes_le in *. cbn in *. by rewrite bytes_compare_antisym, Hs in Hle.
Qed.

(** *** Batches of puts *)

Definition puts (l : list (bytes * bytes)) : list write_op := (λ kv, Put kv.1 kv.2) <$> l.

Lemma Write_puts db l : NoDup l.*1 -> Write db (puts l) = list_to_map l ∪ db.
Proof.
  revert db. induction l as [|[k v] l IH]; intros db Hn; [cbn; by rewrite (left_id_L ∅ (∪))|].
  cbn in Hn. apply NoDup_cons in Hn as [Hk Hn]. cbn [puts fmap list_fmap Write foldl apply_op fst snd].
  fold (puts l) (Write (<[k:=v]> db) (puts l)). rewrite IH by done. cbn [list_to_map foldr].
  rewrite <- insert_union_r by (by apply not_elem_of_list_to_map_1). by rewrite insert_union_l.
Qed.

(** *** Intents and their reverse index *)

(** A strong intent has the write id and the value of the write. *)
Inductive intent : Type :=
| StrongIntent (path : bytes) (strong : IntentTypeSet) (write_id : Z) (value : bytes)
| WeakIntent (path : bytes) (weak : IntentTypeSet).

Definition intent_path (x : intent) : bytes := match x with StrongIntent p _ _ _ | WeakIntent p _ => p end.
Definition intent_set (x : intent) : IntentTypeSet := match x with StrongIntent _ t _ _ | WeakIntent _ t => t end.

Definition encode_ht (t : DocHybridTime) : bytes := EncodeWithValueType (hybrid_time t) (write_id t).

Lemma encode_ht_eq t : encode_ht t = ValueTypeAsChar kHybridTime :: EncodedInDocDbFormat t.
Proof. unfold encode_ht, EncodeWithValueType. by destruct t. Qed.

Lemma ParseIntentKey_encoded release p types t :
  dht_ok t -> set_ok types ->
  ParseIntentKey release ((p ++ intent_type_bytes types) ++ encode_ht t) =
  Done (Ok (mkParsedIntent p types (encode_ht t))).
Proof.
  intros Ht Hs. pose proof (dht_encoded_length t Ht) as Elen. pose proof (dht_size_range t Ht) as Hsz.
  rewrite encode_ht_eq. unfold ParseIntentKey.
  assert ((p ++ intent_type_bytes types) ++ ValueTypeAsChar kHybridTime :: EncodedInDocDbFormat t =
    (p ++ [ValueTypeAsChar kIntentTypeSet; types; ValueTypeAsChar kHybridTime]) ++ EncodedInDocDbFormat t) as E
    by (unfold intent_type_bytes; by rewrite <- !app_assoc).
  rewrite E. rewrite CheckAndGetEncodedSize_app by (done || by destruct p). cbn [or_bind].
  rewrite <- app_assoc, length_app. cbn [app length].
  destruct (Z.ltb_spec (Z.of_nat (length p + S (S (S (length (EncodedInDocDbFormat t)))))) (dht_size t + 3)); [lia|].
  cbv zeta. replace (_ - _)%nat with (length p) by lia. rewrite drop_app_length, take_app_length.
  unfold byte_at. cbn [lookup list_lookup]. change (default 0 (Some ?b)) with b.
  change (ValueTypeAsChar kIntentTypeSet =? ValueTypeAsChar kObsoleteIntentType) with false.
  change (ValueTypeAsChar kIntentTypeSet =? ValueTypeAsChar kObsoleteIntentTypeSet) with false.
  rewrite !Z.eqb_refl. cbn [or_bind negb]. unfold new_IntentTypeSet. rewrite Z.mod_small by exact Hs. done.
Qed.

Section intents.
Context (release : bool) (txn : bytes).
Context (txn_length : length txn = TransactionId_static_size).

Definition intent_value (x : intent) : bytes :=
  match x with
  | StrongIntent _ _ wid v => strong_intent_value txn wid v
  | WeakIntent _ _ => ValueTypeAsChar kTransactionId :: txn
  end.

Abbreviation rkey t := (reverse_key txn (encode_ht t)).

Definition stored_key (x : DocHybridTime * intent) : bytes :=
  (intent_path x.2 ++ intent_type_bytes (intent_set x.2)) ++ encode_ht x.1.

(** What a batch of intents stores. *)
Definition intent_puts (l : list (DocHybridTime * intent)) : list (bytes * bytes) :=
  l ≫= λ x, [(stored_key x, intent_value x.2); (rkey x.1, stored_key x)].

Definition reverse_index (l : list (DocHybridTime * intent)) : list (bytes * bytes) :=
  (λ x, (rkey x.1, stored_key x)) <$> l.

Record intent_ok (x : DocHybridTime * intent) : Prop := {
  io_time : dht_ok x.1;
  io_types : set_ok (intent_set x.2);
  io_path : head (intent_path x.2) ≠ Some (ValueTypeAsChar kTransactionId);
  io_weak : match x.2 with
            | StrongIntent _ _ wid _ => is_u 32 wid
            | WeakIntent _ t => Test t kStrongWrite = false
            end
}.

Lemma ParseIntentKey_stored x :
  intent_ok x ->
  ParseIntentKey release (stored_key x) =
  Done (Ok (mkParsedIntent (intent_path x.2) (intent_set x.2) (encode_ht x.1))).
Proof. intros [Ht Hs _ _]. by apply ParseIntentKey_encoded. Qed.

Lemma DecodeIntentValue_strong wid v :
  is_u 32 wid -> DecodeIntentValue (strong_intent_value txn wid v) txn = Done (Ok (wid, v)).
Proof using txn_length.
  intros Hw. unfold DecodeIntentValue, strong_intent_value, consume_byte. rewrite Z.eqb_refl. cbn [or_bind].
  rewrite starts_with_app, length_app, txn_length. cbn [negb].
  rewrite (proj2 (Nat.ltb_ge _ _)) by lia. rewrite <- txn_length, drop_app_length, Z.eqb_refl. cbn [or_bind].
  rewrite length_app, be_bytes_length. rewrite (proj2 (Nat.ltb_ge _ _)) by lia.
  unfold Load32. rewrite take_app_length', drop_app_length' by (by rewrite be_bytes_length).
  rewrite be_value_be_bytes. unfold is_u in Hw. by rewrite Z.mod_small by (cbn; lia).
Qed.

(** *** Keys are distinct *)

Lemma stored_key_time x y : intent_ok x -> intent_ok y -> stored_key x = stored_key y -> x.1 = y.1.
Proof.
  intros [Hx _ _ _] [Hy _ _ _] E. unfold stored_key in E. rewrite !encode_ht_eq in E.
  rewrite !(cons_middle (ValueTypeAsChar kHybridTime)), !app_assoc in E.
  pose proof (DecodeFromEnd_EncodedInDocDbFormat x.1 ((intent_path x.2 ++ intent_type_bytes (intent_set x.2)) ++
    [ValueTypeAsChar kHybridTime]) Hx ltac:(by intros [_ ?]%app_nil)) as D1.
  pose proof (DecodeFromEnd_EncodedInDocDbFormat y.1 ((intent_path y.2 ++ intent_type_bytes (intent_set y.2)) ++
    [ValueTypeAsChar kHybridTime]) Hy ltac:(by intros [_ ?]%app_nil)) as D2.
  rewrite E, D2 in D1. congruence.
Qed.

Lemma stored_key_head x : intent_ok x -> head (stored_key x) ≠ Some (ValueTypeAsChar kTransactionId).
Proof. intros [_ _ Hp _]. unfold stored_key. by destruct (intent_path x.2). Qed.

Definition dht_lt (a b : DocHybridTime) : Prop := dht_compare a b = Lt.

(** Inverting the bits of the descending times makes the index ascending. *)
Lemma rkey_order a b : dht_ok a -> dht_ok b -> dht_lt a b -> bytes_lt (rkey a) (rkey b).
Proof.
  intros Ha Hb Hlt. unfold bytes_lt, reverse_key. rewrite bytes_compare_same, bytes_compare_app_l.
  assert (a ≠ b) as Hne.
  { intros ->. unfold dht_lt, dht_compare in Hlt. by rewrite !Z.compare_refl in Hlt. }
  rewrite !encode_ht_eq. unfold flip_bits. rewrite !fmap_cons, bytes_compare_same.
  assert (decided (EncodedInDocDbFormat a) (EncodedInDocDbFormat b) Gt) as Hd.
  { apply compare_decided; [done|]. intros r1 r2. rewrite dht_order_aux by done. by rewrite Hlt. }
  apply decided_flip in Hd; [|by apply dht_encoded_ok..]. unfold FlipBits in Hd.
  apply (decided_compare _ _ _ [] []) in Hd. by rewrite !app_nil_r in Hd.
Qed.

Abbreviation stamped_lt := (λ x y : DocHybridTime * intent, dht_lt x.1 y.1).

Lemma dht_lt_neq a b : dht_lt a b -> a ≠ b.
Proof. intros Hlt ->. unfold dht_lt, dht_compare in Hlt. by rewrite !Z.compare_refl in Hlt. Qed.

Lemma elem_of_intent_puts l kv :
  kv ∈ intent_puts l <->
  ∃ x, x ∈ l /\ (kv = (stored_key x, intent_value x.2) \/ kv = (rkey x.1, stored_key x)).
Proof. unfold intent_puts. rewrite list_elem_of_bind. set_solver. Qed.

Lemma rkey_head t : head (rkey t) = Some (ValueTypeAsChar kTransactionId).
Proof. done. Qed.

Lemma rkey_inj a b : dht_ok a -> dht_ok b -> rkey a = rkey b -> a = b.
Proof.
  intros Ha Hb E. destruct (decide (a = b)) as [|Hne]; [done|]. exfalso.
  destruct (dht_compare a b) eqn:Ec; [by apply (dht_compare_neq a b)| |].
  - pose proof (rkey_order a b Ha Hb Ec) as Hlt. rewrite E in Hlt. by apply bytes_lt_irrefl in Hlt.
  - assert (dht_lt b a) as Hba.
    { unfold dht_lt, dht_compare in *. rewrite (Z.compare_antisym (hybrid_time a)), (Z.compare_antisym (write_id a)).
      destruct (hybrid_time a ?= hybrid_time b); try done. by rewrite Ec. }
    pose proof (rkey_order b a Hb Ha Hba) as Hlt. rewrite E in Hlt. by apply bytes_lt_irrefl in Hlt.
Qed.

Lemma intent_puts_NoDup l : Forall intent_ok l -> StronglySorted stamped_lt l -> NoDup (intent_puts l).*1.
Proof.
  intros Hok. induction 1 as [|x l _ IH Hx]; [constructor|]. apply Forall_cons in Hok as [Ox Hok].
  assert (∀ y, y ∈ l -> intent_ok y /\ x.1 ≠ y.1) as Hl.
  { intros y Hy. rewrite Forall_forall in Hok, Hx. split; [by apply Hok|]. by apply dht_lt_neq, Hx. }
  assert (∀ k, k ∈ (intent_puts l).*1 -> ∃ y, y ∈ l /\ (k = stored_key y \/ k = rkey y.1)) as Hk.
  { intros k ([k' v] & -> & (y & Hy & E)%elem_of_intent_puts)%list_elem_of_fmap. exists y. split; [done|].
    destruct E; simplify_eq; [by left|by right]. }
  cbn [intent_puts mbind list_bind app fmap list_fmap fst]. fold (intent_puts l).
  apply NoDup_cons. split; [|apply NoDup_cons; split; [|by apply IH]].
  - intros [E|(y & [Oy Hne]%Hl & [E|E])%Hk]%elem_of_cons.
    + by apply (stored_key_head x Ox); rewrite E.
    + by apply Hne, stored_key_time.
    + by apply (stored_key_head x Ox); rewrite E.
  - intros (y & [Oy Hne]%Hl & [E|E])%Hk.
    + by apply (stored_key_head y Oy); rewrite <- E.
    + apply Hne, rkey_inj; [apply Ox|apply Oy|done].
Qed.

(** *** The reverse index *)

Abbreviation txn_prefix := (AppendTransactionKeyPrefix txn []).

Lemma txn_prefix_eq : txn_prefix = ValueTypeAsChar kTransactionId :: txn.
Proof. done. Qed.

Lemma rkey_range t : bytes_le txn_prefix (rkey t) /\ bytes_lt (rkey t) (AppendValueType kMaxByte txn_prefix).
Proof.
  assert (rkey t = txn_prefix ++ 220 :: flip_bits (EncodedInDocDbFormat t)) as ->
    by (unfold reverse_key; by rewrite encode_ht_eq).
  split; [|by apply bytes_compare_below_max].
  unfold bytes_le. rewrite <- (app_nil_r txn_prefix) at 1. by rewrite bytes_compare_app_l.
Qed.

Lemma range_prefix k p :
  bytes_le p k -> bytes_lt k (p ++ [255]) -> p `prefix_of` k.
Proof.
  intros Hle Hlt. destruct (decide (p `prefix_of` k)) as [|Hn]; [done|]. exfalso.
  unfold bytes_lt, bytes_le in *. rewrite bytes_compare_extend in Hlt by done.
  by rewrite bytes_compare_antisym, Hlt in Hle.
Qed.

Lemma reverse_index_sorted l :
  Forall intent_ok l -> StronglySorted stamped_lt l -> StronglySorted entry_lt (reverse_index l).
Proof.
  intros Hok. induction 1 as [|x l _ IH Hx]; [constructor|]. apply Forall_cons in Hok as [Ox Hok]. cbn.
  constructor; [by apply IH|]. apply Forall_fmap. rewrite Forall_forall in *. intros y Hy.
  apply rkey_order; [apply Ox|by apply Hok|by apply Hx].
Qed.

(** A database with no records of the transaction. *)
Definition no_records (db : DB) : Prop := ∀ k, txn_prefix `prefix_of` k -> db !! k = None.

Section stored.
Context (db0 : DB) (l : list (DocHybridTime * intent)).
Context (l_ok : Forall intent_ok l) (l_sorted : StronglySorted stamped_lt l).

Abbreviation db := (Write db0 (puts (intent_puts l))).

Lemma db_lookup_put kv : kv ∈ intent_puts l -> db !! kv.1 = Some kv.2.
Proof using l_ok l_sorted txn_length.
  intros Hkv. rewrite Write_puts by by apply intent_puts_NoDup. apply lookup_union_Some_l.
  apply elem_of_list_to_map; [by apply intent_puts_NoDup|]. by destruct kv.
Qed.

Lemma db_lookup_inv k v : db !! k = Some v -> (k, v) ∈ intent_puts l \/ db0 !! k = Some v.
Proof using l_ok l_sorted txn_length.
  rewrite Write_puts by by apply intent_puts_NoDup. intros [E|[_ E]]%lookup_union_Some_raw; [left|by right].
  by apply elem_of_list_to_map in E; [|apply intent_puts_NoDup].
Qed.

Lemma seek_reverse_index :
  no_records db0 -> seek_below db txn_prefix (AppendValueType kMaxByte txn_prefix) = reverse_index l.
Proof using l_ok l_sorted txn_length.
  intros Hno. apply seek_below_spec; [by apply reverse_index_sorted|]. intros [k v]. cbn [fst snd]. split.
  - intros (x & [= -> ->] & Hx)%list_elem_of_fmap. split; [|apply rkey_range].
    apply (db_lookup_put (rkey x.1, stored_key x)). apply elem_of_intent_puts. exists x. by split; [|right].
  - intros (E & Hle & Hlt). pose proof (range_prefix _ _ Hle Hlt) as Hp.
    apply db_lookup_inv in E as [E|E]; [|by rewrite Hno in E].
    apply elem_of_intent_puts in E as (x & Hx & [[= -> _]|[= -> ->]]).
    + exfalso. rewrite Forall_forall in l_ok. apply (stored_key_head x (l_ok x Hx)).
      destruct Hp as [tl ->]. done.
    + by apply (list_elem_of_fmap_2 (λ x, (rkey x.1, stored_key x))).
Qed.

End stored.

(** *** Applying *)

(** The records written when the transaction commits, and the deletions. *)
Definition applied (commit_ht : HybridTime) (l : list (DocHybridTime * intent)) : list write_op :=
  l ≫= λ x,
    match x.2 with
    | StrongIntent p t wid v =>
        if Test t kStrongWrite then [Put (p ++ EncodeWithValueType commit_ht wid) (encode_ht x.1 ++ v)] else []
    | WeakIntent _ _ => []
    end.

Definition deletions (l : list (DocHybridTime * intent)) : list write_op :=
  l ≫= λ x, [Delete (stored_key x); Delete (rkey x.1)].

(** The write ids of the writes grow, from [next] on. *)
Fixpoint ids_ok (next : Z) (l : list (DocHybridTime * intent)) : Prop :=
  match l with
  | [] => True
  | (_, StrongIntent _ t wid _) :: l' =>
      if Test t kStrongWrite then next <= wid < 2 ^ 32 - 1 /\ ids_ok (wid + 1) l' else ids_ok next l'
  | (_, WeakIntent _ _) :: l' => ids_ok next l'
  end.

Lemma IntentToWriteRequest_stored db commit x l reg next :
  db !! stored_key x = Some (intent_value x.2) -> intent_ok x -> 0 <= next -> ids_ok next (x :: l) ->
  ∃ next', IntentToWriteRequest release db txn commit (stored_key x) reg next =
      Done (Ok (reg ++ applied commit [x], next')) /\ 0 <= next' /\ ids_ok next' l.
Proof using txn_length.
  intros Hdb Ox Hn Hids. destruct (seek_found db _ _ Hdb) as [tl Es]. unfold IntentToWriteRequest. rewrite Es.
  rewrite bool_decide_eq_true_2 by done. cbn [negb]. rewrite ParseIntentKey_stored by done. cbn [or_bind types].
  destruct Ox as [_ _ _ Hw]. destruct x as [t [p ty wid v|p ty]]; cbn [snd intent_set intent_value ids_ok] in *.
  - unfold applied. cbn [mbind list_bind snd]. destruct (Test ty kStrongWrite); [|exists next; by rewrite !app_nil_r].
    destruct Hids as [Hwid Hids]. rewrite DecodeIntentValue_strong by done. cbn [or_bind].
    rewrite (proj2 (Z.leb_le _ _)) by lia.
    replace (if release then Done tt else CHECK true) with (Done tt) by (by destruct release).
    cbn [mbind outcome_bind]. exists (u32 (wid + 1)). rewrite app_nil_r. split; [done|].
    unfold u32. rewrite wrap_small by (unfold is_u; lia). split; [lia|done].
  - rewrite Hw. exists next. unfold applied. cbn. by rewrite app_nil_r.
Qed.

Lemma prefix_starts_with (k p : bytes) : p `prefix_of` k -> starts_with k p = true.
Proof. intros [tl ->]. apply starts_with_app. Qed.

Lemma apply_loop_reverse_index db commit (apply : bool) l reg int next :
  Forall intent_ok l -> (∀ x, x ∈ l -> db !! stored_key x = Some (intent_value x.2)) ->
  0 <= next -> (apply = true -> ids_ok next l) ->
  apply_loop release db txn txn_prefix commit apply (reverse_index l) reg int next =
  Done (Ok (reg ++ (if apply then applied commit l else []), int ++ deletions l)).
Proof using txn_length.
  intros Hok. revert reg int next. induction Hok as [|x l Ox Hok IH]; intros reg int next Hdb Hn Hids.
  { cbn. rewrite app_nil_r. destruct apply; by rewrite app_nil_r. }
  cbn [reverse_index fmap list_fmap apply_loop]. fold (reverse_index l).
  rewrite prefix_starts_with by (exists (flip_bits (encode_ht x.1)); done). cbn [negb].
  assert ((length txn_prefix <? length (rkey x.1))%nat = true) as ->.
  { apply Nat.ltb_lt. unfold reverse_key. rewrite txn_prefix_eq, encode_ht_eq. unfold flip_bits.
    rewrite fmap_cons. cbn [length]. rewrite length_app. cbn [length]. lia. }
  assert (∀ y, y ∈ l -> db !! stored_key y = Some (intent_value y.2)) as Hdb' by (intros y Hy; apply Hdb; by right).
  destruct apply.
  - destruct (IntentToWriteRequest_stored db commit x l reg next) as (next' & E & Hn' & Hids');
      [by apply Hdb; left|done|done|by apply Hids|].
    rewrite E. cbn [or_bind]. rewrite IH by done. unfold applied, deletions.
    cbn [mbind list_bind]. rewrite app_nil_r. by rewrite <- !app_assoc.
  - cbn [or_bind]. rewrite IH by done. unfold deletions. cbn [mbind list_bind]. by rewrite <- !app_assoc.
Qed.

(** Everything together: applying the stored intents of a transaction. *)
Lemma apply_stored db0 commit (apply : bool) l reg int :
  Forall intent_ok l -> StronglySorted stamped_lt l -> no_records db0 -> (apply = true -> ids_ok 0 l) ->
  PrepareApplyIntentsBatch release txn commit apply (Write db0 (puts (intent_puts l))) reg int =
  Done (Ok (reg ++ (if apply then applied commit l else []), int ++ deletions l)).
Proof using txn_length.
  intros Hok Hs Hno Hids. unfold PrepareApplyIntentsBatch. rewrite seek_reverse_index by done.
  apply apply_loop_reverse_index; [done| |done|done].
  intros x Hx. apply (db_lookup_put db0 l Hok Hs (stored_key x, intent_value x.2)).
  apply elem_of_intent_puts. exists x. by split; [|left].
Qed.

(** The deletions undo the puts. *)
Lemma Write_deletes db ks k : Write db (Delete <$> ks) !! k = if decide (k ∈ ks) then None else db !! k.
Proof.
  revert db. induction ks as [|k' ks IH]; intros db; [done|].
  cbn [Write fmap list_fmap foldl apply_op]. fold (Write (delete k' db) (Delete <$> ks)). rewrite IH.
  destruct (decide (k ∈ ks)) as [Hin|Hin].
  - by rewrite decide_True by by right.
  - destruct (decide (k = k')) as [->|Hne].
    + by rewrite lookup_delete_eq, decide_True by by left.
    + rewrite lookup_delete_ne by done. rewrite decide_False; [done|]. by intros [?|?]%elem_of_cons.
Qed.

Lemma deletions_keys l : deletions l = Delete <$> (intent_puts l).*1.
Proof.
  unfold deletions, intent_puts. induction l as [|x l IH]; [done|].
  cbn [mbind list_bind app fmap list_fmap fst] in *. by rewrite IH.
Qed.

Lemma deletions_restore db0 l :
  Forall intent_ok l -> StronglySorted stamped_lt l -> (∀ kv, kv ∈ intent_puts l -> db0 !! kv.1 = None) ->
  Write (Write db0 (puts (intent_puts l))) (deletions l) = db0.
Proof.
  intros Hok Hs Hno. apply map_eq. intros k. rewrite deletions_keys, Write_deletes.
  destruct (decide (k ∈ (intent_puts l).*1)) as [([k' v] & -> & Hkv)%list_elem_of_fmap|Hn].
  - symmetry. by apply (Hno (k', v)).
  - rewrite Write_puts by by apply intent_puts_NoDup. rewrite lookup_union_r; [done|].
    by apply not_elem_of_list_to_map_1.
Qed.

End intents.

(** *** Preparing *)

Section prepare.
Context (release : bool) `{BoostUuid} {D V : Type} `{CD : ComparableNumber D} `{CV : ComparableNumber V}.
Context (ht : HybridTime) (txn : bytes).

Abbreviation pv_enc := (key_encoding release).
Abbreviation path_enc := (path_encoding release).
Abbreviation functor := (helper_functor ht txn).

Definition add_weak (strong : IntentTypeSet) (ps : list bytes) (m : gmap bytes IntentTypeSet)
    : gmap bytes IntentTypeSet :=
  foldl (λ m p, <[p := Z.lor (default 0 (m !! p)) (StrongToWeak strong)]> m) m ps.

Definition with_weak (ps : list bytes) (h : Helper) : Helper :=
  mkHelper (strong_intent_types_ h) (add_weak (strong_intent_types_ h) ps (weak_intents_ h)) (write_id_ h)
    (intra_txn_write_id_ h) (helper_batch h).

Lemma EnumerateIntents_key_helper k value h :
  subdockey_ok (D := D) (V := V) k ->
  EnumerateIntents_key (D := D) (V := V) functor (path_enc k) value h =
  Done (functor kStrong value (path_enc k) (with_weak (weak_paths release k) h)).
Proof.
  intros Hk. rewrite (EnumerateIntents_key_visits release functor (λ p, with_weak [p])) by done.
  do 2 f_equal. unfold with_weak, add_weak. revert h.
  induction (weak_paths release k) as [|p ps IH]; intros h; [by destruct h|]. cbn [foldl]. by rewrite IH.
Qed.

(** The intents of key-value pairs, with their times. *)
Fixpoint strong_intents (types : IntentTypeSet) (i : Z) (pairs : list (SubDocKey * bytes)) : list intent :=
  match pairs with
  | [] => []
  | (k, v) :: rest => StrongIntent (path_enc k) types i v :: strong_intents types (i + 1) rest
  end.

Fixpoint stamp (w : Z) (l : list intent) : list (DocHybridTime * intent) :=
  match l with [] => [] | x :: l' => (mkDocHybridTime ht w, x) :: stamp (w + 1) l' end.

Lemma EnumerateIntents_helper pairs h :
  Forall (pair_ok (D := D) (V := V)) pairs -> 0 <= write_id_ h -> 0 <= intra_txn_write_id_ h ->
  write_id_ h + Z.of_nat (length pairs) < 2 ^ 32 -> intra_txn_write_id_ h + Z.of_nat (length pairs) < 2 ^ 32 ->
  EnumerateIntents (D := D) (V := V) functor (pair_of release <$> pairs) h =
  Done (Ok (mkHelper (strong_intent_types_ h)
    (add_weak (strong_intent_types_ h) (pairs ≫= λ kv, weak_paths release kv.1) (weak_intents_ h))
    (write_id_ h + Z.of_nat (length pairs)) (intra_txn_write_id_ h + Z.of_nat (length pairs))
    (helper_batch h ++ puts (intent_puts txn (stamp (write_id_ h)
       (strong_intents (strong_intent_types_ h) (intra_txn_write_id_ h) pairs)))))).
Proof.
  intros Hp. revert h. induction Hp as [|[k v] pairs [Hk Hv] Hp IH]; intros h Hw Hi Bw Bi.
  { cbn. rewrite !Z.add_0_r, app_nil_r. by destruct h. }
  cbn [fmap list_fmap EnumerateIntents pair_of kv_key kv_value fst snd] in *.
  rewrite !bool_decide_eq_false_2 by (done || apply path_not_empty). cbn [negb CHECK mbind outcome_bind].
  rewrite EnumerateIntents_key_helper by done. cbn [helper_functor or_bind].
  cbn [length] in Bw, Bi. unfold u32. rewrite !wrap_small by (unfold is_u; cbn; lia).
  rewrite IH by (cbn; lia). destruct h as [ty m w i b].
  cbn [with_weak strong_intent_types_ weak_intents_ write_id_ intra_txn_write_id_ helper_batch length] in *.
  do 2 f_equal. f_equal; [|lia|lia|].
  - unfold add_weak. cbn [mbind list_bind fst]. by rewrite foldl_app.
  - unfold AddIntent. by rewrite <- app_assoc.
Qed.

Lemma finish_loop_puts weak w batch :
  0 <= w -> w + Z.of_nat (length weak) < 2 ^ 32 ->
  finish_loop ht txn weak w batch =
  batch ++ puts (intent_puts txn (stamp w ((λ pt, WeakIntent pt.1 pt.2) <$> weak))).
Proof.
  revert w batch. induction weak as [|[p t] weak IH]; intros w batch Hw Hb; [cbn; by rewrite app_nil_r|].
  cbn [finish_loop fmap list_fmap stamp length] in *. unfold u32. rewrite wrap_small by (unfold is_u; lia).
  rewrite IH by lia. unfold AddIntent. by rewrite <- app_assoc.
Qed.

Lemma stamp_app w l1 l2 : stamp w (l1 ++ l2) = stamp w l1 ++ stamp (w + Z.of_nat (length l1)) l2.
Proof.
  revert w. induction l1 as [|x l1 IH]; intros w; cbn [stamp app length]; [by rewrite Z.add_0_r|].
  rewrite IH. do 3 f_equal. lia.
Qed.

Lemma length_strong_intents types i pairs : length (strong_intents types i pairs) = length pairs.
Proof. revert i. induction pairs as [|[k v] pairs IH]; intros i; cbn; [done|]. by rewrite IH. Qed.

(** Invariant of the map of weak intents. *)
Definition weak_ok (m : gmap bytes IntentTypeSet) : Prop :=
  ∀ p t, m !! p = Some t -> 0 <= t < 4 /\ head p ≠ Some (ValueTypeAsChar kTransactionId).

Lemma StrongToWeak_range s : set_ok s -> 0 <= StrongToWeak s < 4.
Proof.
  intros Hs. pose proof (set_pairs_check (λ a _, (0 <=? StrongToWeak a) && (StrongToWeak a <? 4))
    ltac:(vm_compute; reflexivity) s s Hs Hs) as E. cbv beta in E. lia.
Qed.

Lemma lor_range a b : 0 <= a < 4 -> 0 <= b < 4 -> 0 <= Z.lor a b < 4.
Proof.
  intros Ha Hb. assert (a = 0 \/ a = 1 \/ a = 2 \/ a = 3) as Ea by lia. assert (b = 0 \/ b = 1 \/ b = 2 \/ b = 3) as Eb by lia.
  by destruct Ea as [->|[->|[->| ->]]], Eb as [->|[->|[->| ->]]].
Qed.

Lemma add_weak_ok strong ps m :
  set_ok strong -> Forall (λ p, head p ≠ Some (ValueTypeAsChar kTransactionId)) ps -> weak_ok m ->
  weak_ok (add_weak strong ps m).
Proof.
  intros Hs Hp. revert m. induction Hp as [|p ps Hp _ IH]; intros m Hm; [done|]. apply IH. intros q t Hq.
  destruct (decide (p = q)) as [->|Hne]; [|rewrite lookup_insert_ne in Hq by done; by apply Hm].
  rewrite lookup_insert_eq in Hq. injection Hq as <-. split; [|done]. apply lor_range; [|by apply StrongToWeak_range].
  destruct (m !! q) as [t|] eqn:E; [by apply (Hm q t)|]. cbn. lia.
Qed.

(** A path that is not taken for a record of a transaction. *)
Definition plain_path (k : SubDocKey) : Prop :=
  head (dockey_encoding release (doc_key_ k)) ≠ Some (ValueTypeAsChar kTransactionId).

Lemma head_app_ne (p q : bytes) b : p ≠ [] -> head p ≠ Some b -> head (p ++ q) ≠ Some b.
Proof. by destruct p. Qed.

Lemma dockey_not_empty d : dockey_encoding release d ≠ [].
Proof. rewrite open_encoding_end. by intros [_ ?]%app_nil. Qed.

Lemma parents_plain buffer l b : buffer ≠ [] -> head buffer ≠ Some b -> Forall (λ p, head p ≠ Some b) (parents release buffer l).
Proof.
  revert buffer. induction l as [|pv l IH]; intros buffer Hne Hb; cbn [parents]; [constructor|].
  constructor; [done|]. apply IH; [by intros [? _]%app_nil|by apply head_app_ne].
Qed.

Lemma weak_paths_plain k :
  plain_path k -> Forall (λ p, head p ≠ Some (ValueTypeAsChar kTransactionId)) (weak_paths release k).
Proof.
  intros Hk. apply Forall_app. split; [|by apply parents_plain; [apply dockey_not_empty|]].
  destruct (_ <? _)%nat; [by repeat constructor|constructor].
Qed.

Lemma path_plain k : plain_path k -> head (path_enc k) ≠ Some (ValueTypeAsChar kTransactionId).
Proof. intros Hk. apply head_app_ne; [apply dockey_not_empty|done]. Qed.

(** *** Stamped intents are well-formed and sorted *)

Lemma stamp_ok w l :
  ht_ok ht -> 0 <= w -> w + Z.of_nat (length l) <= 2 ^ 32 ->
  Forall (λ x, set_ok (intent_set x) /\ head (intent_path x) ≠ Some (ValueTypeAsChar kTransactionId) /\
    match x with StrongIntent _ _ wid _ => is_u 32 wid | WeakIntent _ t => Test t kStrongWrite = false end) l ->
  Forall intent_ok (stamp w l).
Proof.
  intros Hht Hw Hb Hl. revert w Hw Hb. induction Hl as [|x l (Hs & Hp & Hx) _ IH]; intros w Hw Hb; [constructor|].
  cbn [stamp length] in *. constructor; [|apply IH; lia]. split; [split; [done|unfold is_u; cbn; lia]|done..].
Qed.

Lemma stamp_sorted w l : StronglySorted (λ x y : DocHybridTime * intent, dht_lt x.1 y.1) (stamp w l).
Proof.
  revert w. induction l as [|x l IH]; intros w; cbn [stamp]; [constructor|]. constructor; [done|]. clear IH.
  assert (∀ w', w < w' -> Forall (λ y : DocHybridTime * intent, dht_lt (mkDocHybridTime ht w) y.1) (stamp w' l)) as Hl.
  { induction l as [|y l IH]; intros w' Hw; cbn [stamp]; constructor; [|apply IH; lia].
    unfold dht_lt, dht_compare. cbn. rewrite Z.compare_refl. by apply Z.compare_lt_iff. }
  apply Hl. lia.
Qed.

Lemma stamp_time w l x : x ∈ stamp w l -> hybrid_time x.1 = ht.
Proof.
  revert w. induction l as [|y l IH]; intros w; cbn [stamp]; [by intros ?%elem_of_nil|].
  intros [->|Hx]%elem_of_cons; [done|by eapply IH].
Qed.

Lemma ids_ok_weaken next next' l : next' <= next -> ids_ok next l -> ids_ok next' l.
Proof.
  revert next next'. induction l as [|[t [p ty wid v|p ty]] l IH]; intros next next' Hn Hl; cbn [ids_ok] in *; [done| |].
  - destruct (Test ty kStrongWrite); [|by eapply IH]. split; [lia|apply Hl].
  - by eapply IH.
Qed.

Lemma ids_ok_strong types i w pairs next l :
  next <= i -> i + Z.of_nat (length pairs) < 2 ^ 32 -> ids_ok (i + Z.of_nat (length pairs)) l ->
  ids_ok next (stamp w (strong_intents types i pairs) ++ l).
Proof.
  revert i w next. induction pairs as [|[k v] pairs IH]; intros i w next Hn Hi Hl; cbn [strong_intents stamp app length] in *.
  - eapply ids_ok_weaken; [|exact Hl]. lia.
  - cbn [ids_ok]. assert (ids_ok (i + 1 + Z.of_nat (length pairs)) l) as Hl'
      by (eapply ids_ok_weaken; [|exact Hl]; lia).
    destruct (Test types kStrongWrite); [split; [lia|]|]; apply IH; (done || lia).
Qed.

Lemma ids_ok_weak w (weak : list (bytes * IntentTypeSet)) next l :
  ids_ok next l -> ids_ok next (stamp w ((λ pt, WeakIntent pt.1 pt.2) <$> weak) ++ l).
Proof. revert w. induction weak as [|pt weak IH]; intros w Hl; [done|]. cbn. by apply IH. Qed.

End prepare.

(** *** Transactions *)

(** A batch of a transaction: its time, and the documents it writes and reads
    with the values. *)
Record txn_batch : Type := mkTxnBatch {
  tb_ht : HybridTime;
  tb_writes : list (SubDocKey * bytes);
  tb_reads : list (SubDocKey * bytes)
}.

Definition level_types (iso : IsolationLevel) (kind : OperationKind) : IntentTypeSet :=
  match GetStrongIntentTypeSet true iso kind with Done t => t | _ => 0 end.

Lemma level_types_eq release iso kind :
  iso ≠ NON_TRANSACTIONAL -> GetStrongIntentTypeSet release iso kind = Done (level_types iso kind).
Proof. by destruct iso, kind. Qed.

Lemma level_types_ok iso kind : set_ok (level_types iso kind).
Proof. destruct iso, kind; vm_compute; intuition discriminate. Qed.

Section transaction.
Context (release : bool) `{BoostUuid} {D V : Type} `{CD : ComparableNumber D} `{CV : ComparableNumber V}.
Context (txn : bytes) (iso : IsolationLevel).
Context (iteration : gmap bytes IntentTypeSet -> list (bytes * IntentTypeSet)).

Abbreviation pairs_of := (λ l, pair_of release <$> l).

Definition batch_pb (b : txn_batch) : KeyValueWriteBatchPB :=
  mkKeyValueWriteBatchPB (pairs_of (tb_writes b)) (pairs_of (tb_reads b)).

Definition weak_map (b : txn_batch) : gmap bytes IntentTypeSet :=
  add_weak (level_types iso kRead) (tb_reads b ≫= λ kv, weak_paths release kv.1)
    (add_weak (level_types iso kWrite) (tb_writes b ≫= λ kv, weak_paths release kv.1) ∅).

Definition batch_size (b : txn_batch) : Z := Z.of_nat (length (tb_writes b) + length (tb_reads b)).

(** The intents of a batch in the order of their write ids: the writes, the
    reads, and the weak intents in the order of the map. *)
Definition batch_intents (i : Z) (b : txn_batch) : list intent :=
  strong_intents release (level_types iso kWrite) i (tb_writes b) ++
  strong_intents release (level_types iso kRead) (i + Z.of_nat (length (tb_writes b))) (tb_reads b) ++
  ((λ pt, WeakIntent pt.1 pt.2) <$> iteration (weak_map b)).

Record batch_ok (b : txn_batch) : Prop := {
  bo_ht : ht_ok (tb_ht b);
  bo_pairs : Forall (pair_ok (D := D) (V := V)) (tb_writes b ++ tb_reads b);
  bo_plain : Forall (λ kv, plain_path release kv.1) (tb_writes b ++ tb_reads b);
  bo_size : Z.of_nat (length (batch_intents 0 b)) < 2 ^ 32
}.

Hypothesis iso_transactional : iso ≠ NON_TRANSACTIONAL.
Hypothesis iteration_ok : ∀ m, iteration m ≡ₚ map_to_list m.

Lemma length_batch_intents i b :
  Z.of_nat (length (batch_intents i b)) = batch_size b + Z.of_nat (length (iteration (weak_map b))).
Proof using. unfold batch_intents, batch_size. rewrite !length_app, !length_strong_intents, length_fmap. lia. Qed.

Lemma intent_puts_app l1 l2 : intent_puts txn (l1 ++ l2) = intent_puts txn l1 ++ intent_puts txn l2.
Proof using. apply bind_app. Qed.

Lemma PrepareTransactionWriteBatch_puts b i batch :
  batch_ok b -> 0 <= i -> i + batch_size b < 2 ^ 32 ->
  PrepareTransactionWriteBatch release (D := D) (V := V) (tb_ht b) txn iteration (batch_pb b) iso i batch =
  Done (batch ++ puts (intent_puts txn (stamp (tb_ht b) 0 (batch_intents i b))), i + batch_size b).
Proof using iso_transactional.
  intros [_ Hp _ Hsz] Hi Hb. apply Forall_app in Hp as [Hw Hr]. rewrite length_batch_intents in Hsz. unfold batch_size in *.
  unfold PrepareTransactionWriteBatch, batch_pb, Setup. cbn [write_pairs read_pairs].
  rewrite !level_types_eq by done. cbn [mbind outcome_bind].
  assert (∀ types m w j ops l, Forall (pair_ok (D := D) (V := V)) l -> 0 <= w -> 0 <= j ->
    w + Z.of_nat (length l) < 2 ^ 32 -> j + Z.of_nat (length l) < 2 ^ 32 ->
    ∀ t0, (if decide (pairs_of l = []) then Done (mkHelper t0 m w j ops) else
      check_ok (EnumerateIntents (D := D) (V := V) (helper_functor (tb_ht b) txn) (pairs_of l) (mkHelper types m w j ops))) =
    Done (mkHelper (if decide (pairs_of l = []) then t0 else types) (add_weak types (l ≫= λ kv, weak_paths release kv.1) m)
      (w + Z.of_nat (length l)) (j + Z.of_nat (length l))
      (ops ++ puts (intent_puts txn (stamp (tb_ht b) w (strong_intents release types j l)))))) as Hstep.
  { intros types m w j ops l Hl Bw Bj Bw' Bj' t0. cbv beta. destruct (decide (pair_of release <$> l = [])) as [E|_].
    - apply fmap_nil_inv in E as ->. cbn. by rewrite !Z.add_0_r, app_nil_r.
    - by rewrite EnumerateIntents_helper. }
  cbn [weak_intents_ write_id_ intra_txn_write_id_ helper_batch].
  rewrite Hstep by (done || lia). cbn [mbind outcome_bind weak_intents_ write_id_ intra_txn_write_id_ helper_batch].
  rewrite Hstep by (done || lia). cbn [mbind outcome_bind weak_intents_ write_id_ intra_txn_write_id_ helper_batch].
  fold (weak_map b). rewrite finish_loop_puts by lia. unfold batch_intents.
  rewrite !stamp_app, !length_strong_intents, !intent_puts_app. unfold puts. rewrite !fmap_app, <- !app_assoc.
  do 2 f_equal. lia.
Qed.

(** The batches of a transaction, written to the intents one after another. *)
Fixpoint write_batches (batches : list txn_batch) (write_id : Z) (db : DB) : Outcome (DB * Z) :=
  match batches with
  | [] => Done (db, write_id)
  | b :: rest =>
      '(ops, write_id) ← PrepareTransactionWriteBatch release (D := D) (V := V) (tb_ht b) txn iteration (batch_pb b) iso
                           write_id [];
      write_batches rest write_id (Write db ops)
  end.

Fixpoint all_intents (i : Z) (batches : list txn_batch) : list (DocHybridTime * intent) :=
  match batches with
  | [] => []
  | b :: rest => stamp (tb_ht b) 0 (batch_intents i b) ++ all_intents (i + batch_size b) rest
  end.

Fixpoint total_size (batches : list txn_batch) : Z :=
  match batches with [] => 0 | b :: rest => batch_size b + total_size rest end.

(** Batches in the order of their times. *)
Definition in_time (batches : list txn_batch) : Prop := StronglySorted (λ a b, tb_ht a < tb_ht b) batches.

Lemma total_size_nonneg batches : 0 <= total_size batches.
Proof using. induction batches as [|b l IH]; cbn [total_size]; unfold batch_size; lia. Qed.

Lemma write_batches_puts batches i db :
  Forall batch_ok batches -> 0 <= i -> i + total_size batches < 2 ^ 32 ->
  write_batches batches i db = Done (Write db (puts (intent_puts txn (all_intents i batches))), i + total_size batches).
Proof using iso_transactional.
  intros Hok. revert i db. induction Hok as [|b l Hb Hok IH]; intros i db Hi Hsz.
  { cbn. by rewrite Z.add_0_r. }
  cbn [write_batches all_intents total_size] in *. pose proof (total_size_nonneg l).
  rewrite PrepareTransactionWriteBatch_puts by (done || lia). cbn [mbind outcome_bind app].
  rewrite IH by (unfold batch_size in *; lia). do 2 f_equal; [|lia].
  rewrite intent_puts_app. unfold puts, Write. by rewrite fmap_app, foldl_app.
Qed.

(** *** The intents are well-formed *)

Lemma strong_intents_shape types i pairs :
  set_ok types -> 0 <= i -> i + Z.of_nat (length pairs) <= 2 ^ 32 -> Forall (λ kv, plain_path release kv.1) pairs ->
  Forall (λ x, set_ok (intent_set x) /\ head (intent_path x) ≠ Some (ValueTypeAsChar kTransactionId) /\
    match x with StrongIntent _ _ wid _ => is_u 32 wid | WeakIntent _ t => Test t kStrongWrite = false end)
    (strong_intents release types i pairs).
Proof using.
  intros Ht Hi Hb Hp. revert i Hi Hb. induction Hp as [|[k v] pairs Hk _ IH]; intros i Hi Hb; [constructor|].
  cbn [strong_intents length] in *. constructor; [|apply IH; lia]. split; [done|]. split; [by apply path_plain|].
  unfold is_u. lia.
Qed.

Lemma plain_weak_paths (pairs : list (SubDocKey * bytes)) :
  Forall (λ kv, plain_path release kv.1) pairs ->
  Forall (λ p, head p ≠ Some (ValueTypeAsChar kTransactionId)) (pairs ≫= λ kv, weak_paths release kv.1).
Proof using.
  induction 1 as [|kv pairs Hk _ IH]; [constructor|]. cbn [mbind list_bind]. apply Forall_app.
  split; [by apply weak_paths_plain|done].
Qed.

Lemma weak_map_ok b : batch_ok b -> weak_ok (weak_map b).
Proof using.
  intros [_ _ Hp _]. apply Forall_app in Hp as [Hw Hr].
  apply add_weak_ok; [apply level_types_ok|by apply plain_weak_paths|].
  apply add_weak_ok; [apply level_types_ok|by apply plain_weak_paths|]. intros p t. by rewrite lookup_empty.
Qed.

Lemma batch_intents_ok i b :
  batch_ok b -> 0 <= i -> i + batch_size b < 2 ^ 32 -> Forall intent_ok (stamp (tb_ht b) 0 (batch_intents i b)).
Proof using iteration_ok.
  intros Hb Hi Hs. pose proof (weak_map_ok b Hb) as Hm. destruct Hb as [Hht _ Hp Hsz].
  rewrite length_batch_intents in Hsz. unfold batch_size in *. apply Forall_app in Hp as [Hw Hr].
  apply stamp_ok; [done|done|rewrite length_batch_intents; unfold batch_size; lia|].
  unfold batch_intents. rewrite !Forall_app.
  split; [apply strong_intents_shape; [apply level_types_ok|lia|lia|done]|].
  split; [apply strong_intents_shape; [apply level_types_ok|lia|lia|done]|].
  apply Forall_fmap, Forall_forall. intros [p t] Hpt. rewrite iteration_ok in Hpt. apply elem_of_map_to_list in Hpt.
  destruct (Hm p t Hpt) as [Ht Hhead]. cbn. split; [unfold set_ok; lia|]. split; [done|].
  assert (t = 0 \/ t = 1 \/ t = 2 \/ t = 3) as E by lia. by destruct E as [->|[->|[->| ->]]].
Qed.

Lemma all_intents_ok i batches :
  Forall batch_ok batches -> 0 <= i -> i + total_size batches < 2 ^ 32 -> Forall intent_ok (all_intents i batches).
Proof using iteration_ok.
  intros Hok. revert i. induction Hok as [|b l Hb Hok IH]; intros i Hi Hs; cbn [all_intents total_size] in *; [constructor|].
  pose proof (total_size_nonneg l). apply Forall_app.
  split; [apply batch_intents_ok; (done || lia)|apply IH; unfold batch_size in *; lia].
Qed.

Lemma all_intents_times i batches x : x ∈ all_intents i batches -> ∃ b, b ∈ batches /\ hybrid_time x.1 = tb_ht b.
Proof using.
  revert i. induction batches as [|b l IH]; intros i; cbn [all_intents]; [by intros ?%elem_of_nil|].
  intros [Hx%stamp_time|Hx]%elem_of_app; [exists b; by split; [left|]|].
  destruct (IH _ Hx) as (b' & Hb' & E). exists b'. by split; [right|].
Qed.

Lemma StronglySorted_app_intro {A} (R : A -> A -> Prop) l1 l2 :
  StronglySorted R l1 -> StronglySorted R l2 -> (∀ x y, x ∈ l1 -> y ∈ l2 -> R x y) -> StronglySorted R (l1 ++ l2).
Proof using.
  intros H1 H2 Hx. induction H1 as [|x l1 H1 IH Hf]; [done|]. cbn. constructor.
  - apply IH. intros y z Hy Hz. apply Hx; [by right|done].
  - apply Forall_app. split; [done|]. apply Forall_forall. intros y Hy. apply Hx; [by left|done].
Qed.

Lemma all_intents_sorted i batches :
  in_time batches -> StronglySorted (λ x y : DocHybridTime * intent, dht_lt x.1 y.1) (all_intents i batches).
Proof using.
  intros Ht. revert i. induction Ht as [|b l _ IH Hb]; intros i; cbn [all_intents]; [constructor|].
  apply StronglySorted_app_intro; [apply stamp_sorted|apply IH|].
  intros x y Hx%stamp_time (b' & Hb' & Hy)%all_intents_times. rewrite Forall_forall in Hb. specialize (Hb b' Hb').
  unfold dht_lt, dht_compare. rewrite Hx, Hy. by rewrite (proj2 (Z.compare_lt_iff _ _) Hb).
Qed.

Lemma all_intents_ids i batches next :
  next <= i -> i + total_size batches < 2 ^ 32 -> ids_ok next (all_intents i batches).
Proof using.
  revert i next. induction batches as [|b l IH]; intros i next Hn Hs; cbn [all_intents total_size] in *; [done|].
  pose proof (total_size_nonneg l). unfold batch_intents, batch_size in *. rewrite !stamp_app, <- !app_assoc.
  apply ids_ok_strong; [lia|lia|]. apply ids_ok_strong; [lia|lia|]. apply ids_ok_weak. apply IH; lia.
Qed.

(** *** What a committed transaction writes *)

(** The records of the writes of a batch: the key with the commit time, and
    the value with the time of the intent. *)
Fixpoint records (commit_ht ht : HybridTime) (w i : Z) (writes : list (SubDocKey * bytes)) : list write_op :=
  match writes with
  | [] => []
  | (k, v) :: rest =>
      Put (path_encoding release k ++ EncodeWithValueType commit_ht i) (EncodeWithValueType ht w ++ v)
      :: records commit_ht ht (w + 1) (i + 1) rest
  end.

Fixpoint all_records (commit_ht : HybridTime) (i : Z) (batches : list txn_batch) : list write_op :=
  match batches with
  | [] => []
  | b :: rest => records commit_ht (tb_ht b) 0 i (tb_writes b) ++ all_records commit_ht (i + batch_size b) rest
  end.

Lemma applied_app commit l1 l2 : applied commit (l1 ++ l2) = applied commit l1 ++ applied commit l2.
Proof using. apply bind_app. Qed.

Lemma applied_strong commit ht types w i pairs :
  applied commit (stamp ht w (strong_intents release types i pairs)) =
  if Test types kStrongWrite then records commit ht w i pairs else [].
Proof using.
  revert w i. induction pairs as [|[k v] pairs IH]; intros w i; [by destruct (Test types kStrongWrite)|].
  cbn [strong_intents stamp records]. unfold applied in *. cbn [mbind list_bind snd fst]. rewrite IH.
  by destruct (Test types kStrongWrite).
Qed.

Lemma applied_weak commit ht w (weak : list (bytes * IntentTypeSet)) :
  applied commit (stamp ht w ((λ pt, WeakIntent pt.1 pt.2) <$> weak)) = [].
Proof using. revert w. induction weak as [|pt weak IH]; intros w; [done|]. cbn. apply IH. Qed.

Lemma applied_all commit i batches :
  Forall (λ b, iso = SERIALIZABLE_ISOLATION \/ tb_reads b = []) batches ->
  applied commit (all_intents i batches) = all_records commit i batches.
Proof using iso_transactional.
  intros Hr. revert i. induction Hr as [|b l Hb _ IH]; intros i; cbn [all_intents all_records]; [done|].
  rewrite applied_app, IH. f_equal. unfold batch_intents. rewrite !stamp_app, !applied_app, !applied_strong, applied_weak.
  assert (Test (level_types iso kWrite) kStrongWrite = true) as -> by (by destruct iso).
  destruct Hb as [->| ->].
  - change (Test (level_types SERIALIZABLE_ISOLATION kRead) kStrongWrite) with false. by rewrite !app_nil_r.
  - cbn [records]. destruct (Test (level_types iso kRead) kStrongWrite); by rewrite !app_nil_r.
Qed.

End transaction.


(** *** The weak intents *)

Lemma add_weak_lookup strong ps m p t :
  Test (default 0 (add_weak strong ps m !! p)) t = true <->
  Test (default 0 (m !! p)) t = true \/ (p ∈ ps /\ Test (StrongToWeak strong) t = true).
Proof.
  revert m. induction ps as [|q ps IH]; intros m; cbn [add_weak foldl].
  { split; [by left|]. intros [?|[?%elem_of_nil _]]; done. }
  fold (add_weak strong ps (<[q := Z.lor (default 0 (m !! q)) (StrongToWeak strong)]> m)). rewrite IH, elem_of_cons.
  destruct (decide (p = q)) as [->|Hne].
  - rewrite lookup_insert_eq. cbn [default from_option]. unfold Test, id.
    rewrite Z.lor_spec, orb_true_iff. tauto.
  - rewrite lookup_insert_ne by done. tauto.
Qed.

(** A document or sub-document strictly above another one. *)
Definition strictly_above (a k : SubDocKey) : Prop :=
  doc_key_ a = doc_key_ k /\ ∃ pv l, subkeys_ k = subkeys_ a ++ pv :: l.

Lemma strictly_above_weak `{BoostUuid} release a k : strictly_above a k -> path_encoding release a ∈ weak_paths release k.
Proof.
  intros [Ed (pv & l & Es)]. apply elem_of_app. right. apply elem_of_parents. exists (subkeys_ a), pv, l.
  unfold path_encoding. by rewrite Ed.
Qed.

Lemma stamp_elem ht w l x : x ∈ l -> ∃ n, (mkDocHybridTime ht n, x) ∈ stamp ht w l.
Proof.
  revert w. induction l as [|y l IH]; intros w Hx; [by apply elem_of_nil in Hx|]. cbn [stamp].
  apply elem_of_cons in Hx as [->|Hx]; [eexists; by left|]. destruct (IH (w + 1) Hx) as [n Hn]. exists n. by right.
Qed.

Lemma strong_intents_elem `{BoostUuid} release types i pairs k v :
  (k, v) ∈ pairs -> ∃ n, StrongIntent (path_encoding release k) types n v ∈ strong_intents release types i pairs.
Proof.
  revert i. induction pairs as [|[k' v'] pairs IH]; intros i Hk; [by apply elem_of_nil in Hk|]. cbn [strong_intents].
  apply elem_of_cons in Hk as [[= -> ->]|Hk]; [eexists; by left|]. destruct (IH (i + 1) Hk) as [n Hn]. exists n. by right.
Qed.

(** *** Reading conflicts *)

Lemma mask_conflict a b :
  set_ok a -> set_ok b ->
  negb (Z.land (table_at kIntentTypeSetConflicts a) (table_at kIntentTypeSetMask b) =? 0) = IntentTypeSetsConflict a b.
Proof.
  intros Ha Hb. pose proof (set_pairs_check (λ a b, eqb
    (negb (Z.land (table_at kIntentTypeSetConflicts a) (table_at kIntentTypeSetMask b) =? 0))
    (IntentTypeSetsConflict a b)) ltac:(vm_compute; reflexivity) a b Ha Hb) as E. by apply eqb_prop in E.
Qed.

(** Sets without strong types are below 4 and do not conflict with each other. *)
Lemma weak_sets_conflict a b : set_ok a -> set_ok b -> HasStrong a = false -> b < 4 -> IntentTypeSetsConflict a b = false.
Proof.
  intros Ha Hb Hs Hlt. pose proof (set_pairs_check (λ a b, implb (negb (HasStrong a) && (b <? 4))
    (negb (IntentTypeSetsConflict a b))) ltac:(vm_compute; reflexivity) a b Ha Hb) as E. cbv beta in E.
  rewrite Hs, (proj2 (Z.ltb_lt _ _) Hlt) in E. by apply negb_true_iff in E.
Qed.

Section conflicts.
Context (release : bool) (db : DB) (prefix : bytes).

Abbreviation tag := (ValueTypeAsChar kIntentTypeSet).

(** The intents on a path: their types and the transaction. *)
Definition intent_on (kv : bytes * bytes) (t : IntentTypeSet) (txn : bytes) : Prop :=
  ∃ dht more, kv = (prefix ++ intent_type_bytes t ++ encode_ht dht, ValueTypeAsChar kTransactionId :: txn ++ more) /\
    dht_ok dht /\ set_ok t /\ length txn = TransactionId_static_size.

(** What is stored under the path, up to the sub-paths: intents in the
    current format. *)
Definition well_formed : Prop :=
  ∀ k v, db !! k = Some v -> prefix `prefix_of` k ->
    (IntentValueType (byte_at k (length prefix)) = true -> ∃ t txn, intent_on (k, v) t txn).

(** The entries from [prefix ++ tag ...] to [prefix ++ 255]. *)
Lemma range_shape low k :
  bytes_le (prefix ++ tag :: low) k -> bytes_lt k (prefix ++ [255]) ->
  ∃ b rest, k = prefix ++ b :: rest /\ tag <= b.
Proof using.
  intros Hle Hlt. assert (prefix `prefix_of` k) as [s ->].
  { apply range_prefix; [|done]. etrans; [|exact Hle]. unfold bytes_le.
    rewrite <- (app_nil_r prefix) at 1. by rewrite bytes_compare_app_l. }
  unfold bytes_le in Hle. rewrite bytes_compare_app_l in Hle. destruct s as [|b s]; [done|].
  exists b, s. split; [done|]. cbn [bytes_compare] in Hle. destruct (Z.compare_spec tag b); lia || done.
Qed.

Lemma intent_on_byte kv t txn : intent_on kv t txn -> byte_at kv.1 (length prefix) = tag.
Proof using.
  intros (dht & more & -> & _). unfold byte_at. cbn [fst]. by rewrite lookup_app_r, Nat.sub_diag by lia.
Qed.

Lemma intent_on_unique kv t txn t' txn' : intent_on kv t txn -> intent_on kv t' txn' -> t = t' /\ txn = txn'.
Proof using.
  intros (dht & more & -> & Hd & Ht & Hl) (dht' & more' & E & Hd' & Ht' & Hl').
  pose proof (f_equal fst E) as E1. pose proof (f_equal (drop 1 ∘ snd) E) as E2. cbn [compose fst snd drop] in E1, E2.
  split; [|by apply app_inj_1 in E2 as [-> _]; [|congruence]].
  apply (f_equal (ParseIntentKey true)) in E1. rewrite !app_assoc, !ParseIntentKey_encoded in E1 by done. congruence.
Qed.

Definition in_range (kv : bytes * bytes) : Prop :=
  db !! kv.1 = Some kv.2 /\ ∃ b rest, kv.1 = prefix ++ b :: rest /\ tag <= b.

Lemma byte_at_prefix b rest : byte_at (prefix ++ b :: rest) (length prefix) = b.
Proof using. unfold byte_at. by rewrite lookup_app_r, Nat.sub_diag by lia. Qed.

Lemma byte_at_mono x y :
  in_range x -> in_range y -> entry_lt x y -> byte_at x.1 (length prefix) <= byte_at y.1 (length prefix).
Proof using.
  intros (_ & b & r & Ex & _) (_ & c & r' & Ey & _) Hlt. unfold entry_lt, bytes_lt in Hlt.
  rewrite Ex, Ey, !byte_at_prefix in *. rewrite bytes_compare_app_l in Hlt. cbn [bytes_compare] in Hlt.
  destruct (Z.compare_spec b c); lia || done.
Qed.

Lemma conflicts_loop_spec type ignore l acc :
  well_formed -> set_ok type -> StronglySorted entry_lt l -> Forall in_range l ->
  ∃ found, conflicts_loop release (table_at kIntentTypeSetConflicts type) prefix ignore l acc = Done (Ok found) /\
    ∀ txn, txn ∈ found <-> txn ∈ acc \/ ∃ kv t, kv ∈ l /\ intent_on kv t txn /\
      IntentTypeSetsConflict type t = true /\ ignore txn = false.
Proof using.
  intros Hwf Ht Hs. revert acc. induction Hs as [|[k v] l Hs IH Hk]; intros acc Hr.
  { exists acc. split; [done|]. intros txn. set_unfold. naive_solver. }
  apply Forall_cons in Hr as [(Hdb & b & rest & Ek & Hb) Hr]. cbn [fst snd] in Hdb, Ek. cbn [conflicts_loop].
  assert (starts_with k prefix = true) as -> by (rewrite Ek; apply starts_with_app). cbn [negb].
  assert ((length k <=? length prefix)%nat = false) as ->
    by (apply Nat.leb_gt; rewrite Ek, length_app; simpl; lia). cbn [orb].
  destruct (IntentValueType (byte_at k (length prefix))) eqn:Eb; cbn [negb].
  - destruct (Hwf k v Hdb ltac:(rewrite Ek; by apply prefix_app_r) Eb) as (t & txn & Hon).
    pose proof Hon as (dht & more & Ekv & Hd & Hts & Hl).
    pose proof (f_equal fst Ekv) as Ek'. pose proof (f_equal snd Ekv) as Ev. cbn [fst snd] in Ek', Ev. clear Ekv.
    subst v. rewrite Z.eqb_refl. cbn [negb].
    assert (ParseIntentKey release k = Done (Ok (mkParsedIntent prefix t (encode_ht dht)))) as ->
      by (rewrite Ek', app_assoc; by apply ParseIntentKey_encoded).
    cbn [or_bind types]. rewrite mask_conflict by done.
    rewrite length_app, Hl, (proj2 (Nat.ltb_ge _ _)), <- Hl, take_app_length by lia.
    assert (∀ acc' : gset bytes, (∀ txn', txn' ∈ acc' <-> txn' ∈ acc \/
        (txn' = txn /\ IntentTypeSetsConflict type t = true /\ ignore txn' = false)) ->
      ∃ found, conflicts_loop release (table_at kIntentTypeSetConflicts type) prefix ignore l acc' = Done (Ok found) /\
        ∀ txn', txn' ∈ found <-> txn' ∈ acc \/ ∃ kv t', kv ∈ (k, ValueTypeAsChar kTransactionId :: txn ++ more) :: l /\
          intent_on kv t' txn' /\ IntentTypeSetsConflict type t' = true /\ ignore txn' = false) as Hstep.
    { intros acc' Hacc. destruct (IH acc' Hr) as (found & -> & Hf). exists found. split; [done|].
      intros txn'. rewrite Hf, Hacc. setoid_rewrite elem_of_cons. split.
      - intros [[?|(-> & Hc & Hi)]|(kv & t' & ? & ?)]; [by left| |].
        + right. exists (k, ValueTypeAsChar kTransactionId :: txn ++ more), t. by split; [left|].
        + right. exists kv, t'. by split; [right|].
      - intros [?|(kv & t' & [->|Hin] & Hon' & Hc & Hi)]; [by left; left| |].
        + left. right. destruct (intent_on_unique _ _ _ _ _ Hon Hon') as [-> ->]. done.
        + right. by exists kv, t'. }
    destruct (IntentTypeSetsConflict type t) eqn:Ec; [destruct (ignore txn) eqn:Ei|];
      apply Hstep; intros txn'; set_unfold; naive_solver congruence.
  - exists acc. split; [done|]. intros txn. split; [by left|]. intros [?|(kv & t & Hin & Hon & _)]; [done|]. exfalso.
    pose proof (intent_on_byte _ _ _ Hon) as Ekv. rewrite Ek, byte_at_prefix in Eb.
    apply elem_of_cons in Hin as [->|Hin].
    + cbn [fst] in Ekv. rewrite Ek, byte_at_prefix in Ekv. subst b. done.
    + rewrite Forall_forall in Hk, Hr. specialize (Hk kv Hin).
      pose proof (byte_at_mono (k, v) kv ltac:(split; [done|by exists b, rest]) (Hr kv Hin) Hk) as Hle.
      rewrite Ekv in Hle. cbn [fst] in Hle. rewrite Ek, byte_at_prefix in Hle.
      assert (b = tag) as -> by lia. done.
Qed.

Lemma intent_in_range type kv t txn :
  set_ok type -> intent_on kv t txn -> IntentTypeSetsConflict type t = true ->
  bytes_le (prefix ++ tag :: (if HasStrong type then [] else [4])) kv.1 /\ bytes_lt kv.1 (prefix ++ [255]).
Proof using.
  intros Ht (dht & more & -> & _ & Hts & _) Hc. cbn [fst]. split; [|by apply bytes_compare_below_max].
  unfold bytes_le. rewrite bytes_compare_app_l. unfold intent_type_bytes. cbn [app]. rewrite bytes_compare_same.
  destruct (HasStrong type) eqn:Es; [by cbn|].
  assert (4 <= t) as Hge.
  { destruct (Z.le_gt_cases 4 t); [done|]. by rewrite weak_sets_conflict in Hc. }
  cbn [bytes_compare]. destruct (Z.compare_spec 4 t); [by cbn|done|lia].
Qed.

Lemma ReadIntentConflicts_spec type ignore acc :
  well_formed -> set_ok type ->
  ∃ found, ReadIntentConflicts release db type prefix ignore acc = Done (Ok found) /\
    ∀ txn, txn ∈ found <-> txn ∈ acc \/ ∃ kv t, db !! kv.1 = Some kv.2 /\ intent_on kv t txn /\
      IntentTypeSetsConflict type t = true /\ ignore txn = false.
Proof using.
  intros Hwf Ht. unfold ReadIntentConflicts, AppendRawBytes, AppendValueType.
  assert ((if negb (HasStrong type) then (prefix ++ [tag]) ++ [Z.shiftl 1 kStrongIntentFlag] else prefix ++ [tag]) =
    prefix ++ tag :: (if HasStrong type then [] else [4])) as ->
    by (destruct (HasStrong type); cbn [negb]; by rewrite <- ?app_assoc).
  change [ValueTypeAsChar kMaxByte] with [255]. set (low := if HasStrong type then [] else [4]) in *.
  assert (∀ kv, kv ∈ seek_below db (prefix ++ tag :: low) (prefix ++ [255]) <->
    db !! kv.1 = Some kv.2 /\ bytes_le (prefix ++ tag :: low) kv.1 /\ bytes_lt kv.1 (prefix ++ [255])) as Hin
    by (intros kv; unfold seek_below, seek; rewrite !list_elem_of_filter, elem_of_in_order; tauto).
  destruct (conflicts_loop_spec type ignore (seek_below db (prefix ++ tag :: low) (prefix ++ [255])) acc)
    as (found & E & Hf); [done|done|apply filter_sorted, filter_sorted, in_order_sorted| |].
  - apply Forall_forall. intros kv (Hdb & Hle & Hlt)%Hin. split; [done|]. by eapply range_shape.
  - exists found. split; [done|]. intros txn. rewrite Hf. split.
    + intros [?|(kv & t & [Hdb _]%Hin & ?)]; [by left|]. right. by exists kv, t.
    + intros [?|(kv & t & Hdb & Hon & Hc & Hi)]; [by left|]. right. exists kv, t. split; [|done].
      apply Hin. split; [done|]. by eapply intent_in_range.
Qed.

End conflicts.

(** The weak intent of a path above a write. *)
Lemma weak_intent_stored `{BoostUuid} release iso b k v p :
  iso ≠ NON_TRANSACTIONAL -> (k, v) ∈ tb_writes b -> p ∈ weak_paths release k ->
  ∃ t, weak_map release iso b !! p = Some t /\
    ∀ ty, Test (StrongToWeak (level_types iso kWrite)) ty = true -> Test t ty = true.
Proof.
  intros Hiso Hk Hp. assert (p ∈ tb_writes b ≫= λ kv, weak_paths release kv.1) as Hin
    by (apply list_elem_of_bind; by exists (k, v)).
  assert (∀ ty, Test (StrongToWeak (level_types iso kWrite)) ty = true ->
    Test (default 0 (weak_map release iso b !! p)) ty = true) as Ht.
  { intros ty Hty. unfold weak_map. rewrite !add_weak_lookup. left. by right. }
  destruct (weak_map release iso b !! p) as [t|] eqn:E; [by exists t|]. exfalso.
  assert (∃ ty, Test (StrongToWeak (level_types iso kWrite)) ty = true) as [ty Hty]
    by (exists kWeakWrite; by destruct iso).
  specialize (Ht ty Hty). by destruct ty.
Qed.

(** *** Writes outside a transaction *)

(** The key of the record a write leaves: the path at a time. *)
Definition at_time (k : SubDocKey) (t : DocHybridTime) : SubDocKey := mkSubDocKey (doc_key_ k) t (subkeys_ k).

Section nontransaction.
Context (release : bool) `{BoostUuid} {D V : Type} `{CD : ComparableNumber D} `{CV : ComparableNumber V}.

Lemma FullyDecode_path k require t :
  subdockey_ok (D := D) (V := V) k -> dht_ok t /\ is_valid (hybrid_time t) = true \/ require = false /\ t = invalid_doc_ht ->
  SubDocKey_FullyDecodeFrom (D := D) (V := V) release (mkSubDocKey (DocKey_range []) invalid_doc_ht []) require
    (path_encoding release k ++ ht_encoding (at_time k t)) = Done (Some (at_time k t)).
Proof using.
  intros [Hd Hs _] Ht. unfold SubDocKey_FullyDecodeFrom.
  change (path_encoding release k) with (path_encoding release (at_time k t)).
  rewrite <- (app_nil_r (_ ++ _)), SubDocKey_DecodeFrom_encoding; [done|done| |constructor|].
  - split; [done|done|]. unfold has_hybrid_time. cbn [at_time doc_ht_].
    destruct Ht as [[Ht ->]|[_ ->]]; done.
  - unfold has_hybrid_time. cbn [at_time doc_ht_]. by destruct Ht as [[_ ->]|[-> _]].
Qed.

End nontransaction.

Lemma check_key_path `{BoostUuid} {D V : Type} `{CD : ComparableNumber D} `{CV : ComparableNumber V} release k :
  subdockey_ok (D := D) (V := V) k -> check_key release (D := D) (V := V) (path_encoding release k) = Done tt.
Proof.
  intros Hk. pose proof (FullyDecode_path release k false invalid_doc_ht Hk) as E.
  unfold ht_encoding in E. cbn [has_hybrid_time at_time doc_ht_] in E. rewrite app_nil_r in E.
  unfold check_key. destruct release; [done|]. rewrite E by (by right). done.
Qed.

Lemma put_pairs_spec `{BoostUuid} {D V : Type} `{CD : ComparableNumber D} `{CV : ComparableNumber V}
    release ht w pairs batch :
  Forall (pair_ok (D := D) (V := V)) pairs ->
  put_pairs release (D := D) (V := V) ht w (pair_of release <$> pairs) batch =
  Done (batch ++ imap (λ n kv, Put (path_encoding release kv.1 ++ EncodeWithValueType ht (w + Z.of_nat n)) kv.2) pairs).
Proof.
  intros Hp. revert w batch. induction Hp as [|[k v] pairs [Hk Hv] Hp IH]; intros w batch.
  { by rewrite app_nil_r. }
  cbn [fmap list_fmap put_pairs pair_of kv_key kv_value fst snd] in *.
  rewrite !bool_decide_eq_false_2 by (done || apply path_not_empty). cbn [negb CHECK mbind outcome_bind].
  rewrite check_key_path by done.
  cbn [mbind outcome_bind]. rewrite IH. f_equal. rewrite <- app_assoc. cbn [imap app]. rewrite Z.add_0_r.
  do 2 f_equal. apply imap_ext. intros n kv _. cbn. do 3 f_equal. lia.
Qed.

(** ** Properties *)

(** C2: a transaction of any number of batches commits completely: applying
    its stored intents, found through the reverse index, writes exactly the
    records of its writes, in the order of the batches and with consecutive
    write ids, each at the commit time and with the time of its intent in
    front of the value, whatever order the weak intents were stored in.
    Applying the deletions as well, or only removing the intents, leaves the
    intents as they were before the transaction. *)
Theorem transaction_commit_correct `{BoostUuid} {D V : Type}
    `{CD : ComparableNumber D} `{CV : ComparableNumber V} release txn iso iteration batches commit_ht db0 :
  length txn = TransactionId_static_size -> iso ≠ NON_TRANSACTIONAL -> (∀ m, iteration m ≡ₚ map_to_list m) ->
  Forall (batch_ok release (D := D) (V := V) iso iteration) batches -> in_time batches ->
  Forall (λ b, iso = SERIALIZABLE_ISOLATION \/ tb_reads b = []) batches -> total_size batches < 2 ^ 32 ->
  no_records txn db0 ->
  (∀ x, x ∈ all_intents release iso iteration 0 batches -> db0 !! stored_key x = None) ->
  ∃ db write_id regular deletes,
    write_batches release (D := D) (V := V) txn iso iteration batches 0 db0 = Done (db, write_id) /\
    PrepareApplyIntentsBatch release txn commit_ht true db [] [] = Done (Ok (regular, deletes)) /\
    regular = all_records release commit_ht 0 batches /\
    PrepareApplyIntentsBatch release txn commit_ht false db [] [] = Done (Ok ([], deletes)) /\
    Write db deletes = db0.
Proof.
  intros Hl Hiso Hit Hok Htime Hreads Hsz Hno Hfresh. set (l := all_intents release iso iteration 0 batches) in *.
  assert (Forall intent_ok l) as Ol by (by apply (all_intents_ok release (D := D) (V := V))).
  assert (StronglySorted (λ x y : DocHybridTime * intent, dht_lt x.1 y.1) l) as Sl by by apply all_intents_sorted.
  exists (Write db0 (puts (intent_puts txn l))), (total_size batches), (all_records release commit_ht 0 batches),
    (deletions txn l).
  split; [by rewrite write_batches_puts|].
  split; [rewrite apply_stored; [|done..|intros _; by apply all_intents_ids]; unfold l; by rewrite applied_all|].
  split; [done|]. split; [by rewrite apply_stored|].
  apply deletions_restore; [done..|]. intros kv (x & Hx & [->| ->])%elem_of_intent_puts; [by apply Hfresh| |done].
  cbn. apply Hno. exists (flip_bits (encode_ht x.1)). done.
Qed.

(** Two batches: a column, then the whole row and another read of it. *)
Definition sample_batches : list txn_batch :=
  [mkTxnBatch 4096 [(column_key, [83; 65])] []; mkTxnBatch 8192 [(row_key, [123])] [(column_key, [36])]].

Definition sample_txn : bytes := repeat 9 16.

Lemma sample_batches_ok :
  Forall (batch_ok true (D := Z) (V := Z) SERIALIZABLE_ISOLATION map_to_list) sample_batches.
Proof.
  pose proof column_key_ok as Hc. pose proof row_key_ok as Hr.
  assert (∀ v, v ≠ [] -> pair_ok (D := Z) (V := Z) (column_key, v)) by (by split).
  assert (∀ v, v ≠ [] -> pair_ok (D := Z) (V := Z) (row_key, v)) by (by split).
  assert (∀ k, k = column_key \/ k = row_key -> plain_path true k) by (intros k [->| ->]; by vm_compute).
  apply Forall_cons. split; [|apply Forall_singleton]; split; cbn [tb_writes tb_reads tb_ht app].
  - by vm_compute.
  - apply Forall_singleton. auto.
  - apply Forall_singleton. auto.
  - by vm_compute.
  - by vm_compute.
  - apply Forall_cons; split; [|apply Forall_singleton]; auto.
  - apply Forall_cons; split; [|apply Forall_singleton]; auto.
  - by vm_compute.
Qed.

Lemma transaction_commit_correct_witness :
  ∃ db write_id regular deletes,
    write_batches true (D := Z) (V := Z) sample_txn SERIALIZABLE_ISOLATION map_to_list sample_batches 0 ∅ =
      Done (db, write_id) /\
    PrepareApplyIntentsBatch true sample_txn 12288 true db [] [] = Done (Ok (regular, deletes)) /\
    regular = all_records true 12288 0 sample_batches /\
    PrepareApplyIntentsBatch true sample_txn 12288 false db [] [] = Done (Ok ([], deletes)) /\
    Write db deletes = ∅.
Proof.
  apply (transaction_commit_correct (D := Z) (V := Z) true sample_txn SERIALIZABLE_ISOLATION map_to_list
    sample_batches 12288 ∅); [done|done|done|apply sample_batches_ok| |repeat constructor; by left|done|done|done].
  repeat constructor.
Defined.

(** C18: the intents of a batch cover the hierarchy: every write has a strong
    intent on its path with its value, and the empty key and every document
    and sub-document above the path have a weak intent that contains the weak
    types of the write. *)
Theorem transaction_intents_cover `{BoostUuid} {D V : Type}
    `{CD : ComparableNumber D} `{CV : ComparableNumber V} release txn iso iteration b i k v :
  iso ≠ NON_TRANSACTIONAL -> (∀ m, iteration m ≡ₚ map_to_list m) ->
  batch_ok release (D := D) (V := V) iso iteration b -> 0 <= i -> i + batch_size b < 2 ^ 32 -> (k, v) ∈ tb_writes b ->
  ∃ ops i', PrepareTransactionWriteBatch release (D := D) (V := V) (tb_ht b) txn iteration (batch_pb release b) iso i [] =
      Done (ops, i') /\
    (∃ n wid, Put ((path_encoding release k ++ intent_type_bytes (level_types iso kWrite)) ++
                   EncodeWithValueType (tb_ht b) n) (strong_intent_value txn wid v) ∈ ops) /\
    ∀ p, (p = [ValueTypeAsChar kGroupEnd] /\ (1 < length (path_encoding release k))%nat \/
          ∃ a, strictly_above a k /\ p = path_encoding release a) ->
      ∃ n t, Put ((p ++ intent_type_bytes t) ++ EncodeWithValueType (tb_ht b) n)
               (ValueTypeAsChar kTransactionId :: txn) ∈ ops /\
        ∀ ty, Test (StrongToWeak (level_types iso kWrite)) ty = true -> Test t ty = true.
Proof.
  intros Hiso Hit Hb Hi Hs Hk. rewrite PrepareTransactionWriteBatch_puts by done. do 2 eexists. split; [done|].
  assert (∀ x, x ∈ batch_intents release iso iteration i b -> ∃ n,
    Put ((intent_path x ++ intent_type_bytes (intent_set x)) ++ EncodeWithValueType (tb_ht b) n) (intent_value txn x)
      ∈ puts (intent_puts txn (stamp (tb_ht b) 0 (batch_intents release iso iteration i b)))) as Hput.
  { intros x Hx. destruct (stamp_elem (tb_ht b) 0 _ x Hx) as [n Hn]. exists n.
    apply (list_elem_of_fmap_2 (λ kv : bytes * bytes, Put kv.1 kv.2) _
      (stored_key (mkDocHybridTime (tb_ht b) n, x), intent_value txn x)).
    apply list_elem_of_bind. eexists. split; [|exact Hn]. by left. }
  split.
  - destruct (strong_intents_elem release (level_types iso kWrite) i (tb_writes b) k v Hk) as [wid Hw].
    destruct (Hput (StrongIntent (path_encoding release k) (level_types iso kWrite) wid v)) as [n Hn].
    + apply elem_of_app. by left.
    + by exists n, wid.
  - intros p Hp. assert (p ∈ weak_paths release k) as Hw.
    { destruct Hp as [[-> Hlen]|(a & Ha & ->)]; [|by apply strictly_above_weak].
      apply elem_of_app. left. rewrite (proj2 (Nat.ltb_lt _ _) Hlen). by left. }
    destruct (weak_intent_stored release iso b k v p) as (t & Et & Ht); [done..|].
    destruct (Hput (WeakIntent p t)) as [n Hn]; [|by exists n, t].
    apply elem_of_app. right. apply elem_of_app. right.
    apply (list_elem_of_fmap_2 (λ pt : bytes * IntentTypeSet, WeakIntent pt.1 pt.2) _ (p, t)).
    rewrite Hit. by apply elem_of_map_to_list.
Qed.

Lemma transaction_intents_cover_witness :
  ∃ ops i', PrepareTransactionWriteBatch true (D := Z) (V := Z) 4096 sample_txn map_to_list
      (batch_pb true (mkTxnBatch 4096 [(column_key, [83; 65])] [])) SERIALIZABLE_ISOLATION 0 [] = Done (ops, i') /\
    (∃ n wid, Put ((path_encoding true column_key ++ intent_type_bytes (level_types SERIALIZABLE_ISOLATION kWrite)) ++
                   EncodeWithValueType 4096 n) (strong_intent_value sample_txn wid [83; 65]) ∈ ops) /\
    ∃ n t, Put ((path_encoding true row_key ++ intent_type_bytes t) ++ EncodeWithValueType 4096 n)
             (ValueTypeAsChar kTransactionId :: sample_txn) ∈ ops.
Proof.
  destruct (Forall_cons_1 _ _ _ sample_batches_ok) as [Hb _].
  destruct (transaction_intents_cover (D := Z) (V := Z) true sample_txn SERIALIZABLE_ISOLATION map_to_list
    (mkTxnBatch 4096 [(column_key, [83; 65])] []) 0 column_key [83; 65])
    as (ops & i' & E & Hs & Hw); [done|done|exact Hb|done|done|by left|].
  exists ops, i'. split; [exact E|]. split; [exact Hs|].
  destruct (Hw (path_encoding true row_key)) as (n & t & Hin & _); [|by exists n, t].
  right. exists row_key. split; [|done]. split; [done|]. by exists (mkPV kNull no_val), [].
Defined.

(** C19: reading the conflicts on a path finds exactly the transactions that
    hold an intent there whose types conflict with the given ones and that are
    not ignored, although only the strong intents are read when the given
    types are weak. *)
Theorem read_intent_conflicts_correct release db prefix type ignore acc :
  well_formed db prefix -> set_ok type ->
  ∃ found, ReadIntentConflicts release db type prefix ignore acc = Done (Ok found) /\
    ∀ txn, txn ∈ found <-> txn ∈ acc \/ ∃ kv t, db !! kv.1 = Some kv.2 /\ intent_on prefix kv t txn /\
      IntentTypeSetsConflict type t = true /\ ignore txn = false.
Proof. apply ReadIntentConflicts_spec. Qed.

(** A row with the strong intent of one transaction and the weak intent of
    another one. *)
Definition conflict_db : DB :=
  Write ∅ [Put (path_encoding true row_key ++ intent_type_bytes 8 ++ encode_ht (mkDocHybridTime 4096 0))
             (strong_intent_value sample_txn 0 [123]);
           Put (path_encoding true row_key ++ intent_type_bytes 2 ++ encode_ht (mkDocHybridTime 4096 1))
             (ValueTypeAsChar kTransactionId :: repeat 7 16)].

Lemma conflict_db_well_formed : well_formed conflict_db (path_encoding true row_key).
Proof.
  intros k v E _ _. unfold conflict_db in E. cbn [Write foldl apply_op] in E.
  apply lookup_insert_Some in E as [[<- <-]|[_ E]]; [|apply lookup_insert_Some in E as [[<- <-]|[_ E]]; [|done]].
  - exists 2, (repeat 7 16), (mkDocHybridTime 4096 1), []. rewrite app_nil_r. repeat split; by vm_compute.
  - exists 8, sample_txn, (mkDocHybridTime 4096 0), (ValueTypeAsChar kWriteId :: be_bytes 4 0 ++ [123]).
    repeat split; by vm_compute.
Qed.

Lemma read_intent_conflicts_correct_witness :
  ∃ found, ReadIntentConflicts true conflict_db 1 (path_encoding true row_key) (λ _, false) ∅ = Done (Ok found) /\
    sample_txn ∈ found.
Proof.
  destruct (read_intent_conflicts_correct true conflict_db (path_encoding true row_key) 1 (λ _, false) ∅)
    as (found & E & Hf); [apply conflict_db_well_formed|done|].
  exists found. split; [exact E|]. apply Hf. right.
  exists (path_encoding true row_key ++ intent_type_bytes 8 ++ encode_ht (mkDocHybridTime 4096 0),
    strong_intent_value sample_txn 0 [123]), 8. split; [by vm_compute|]. split; [|split; [by vm_compute|done]].
  exists (mkDocHybridTime 4096 0), (ValueTypeAsChar kWriteId :: be_bytes 4 0 ++ [123]). repeat split; by vm_compute.
Defined.

(** A batch outside a transaction is always accepted, also by the debug
    checks, and its [n]th record has a key that reads back as the path of the
    [n]th write at the time of the batch and write id [n]. *)
Theorem nontransaction_batch_correct `{BoostUuid} {D V : Type}
    `{CD : ComparableNumber D} `{CV : ComparableNumber V} release ht pairs batch :
  ht_ok ht -> is_valid ht = true -> Forall (pair_ok (D := D) (V := V)) pairs -> Z.of_nat (length pairs) < 2 ^ 31 ->
  ∃ ops, PrepareNonTransactionWriteBatch release (D := D) (V := V)
      (mkKeyValueWriteBatchPB (pair_of release <$> pairs) []) ht batch = Done (batch ++ ops) /\
    length ops = length pairs /\
    ∀ n k v, pairs !! n = Some (k, v) -> ∃ key, ops !! n = Some (Put key v) /\
      SubDocKey_FullyDecodeFrom (D := D) (V := V) release (mkSubDocKey (DocKey_range []) invalid_doc_ht []) true key =
        Done (Some (at_time k (mkDocHybridTime ht (Z.of_nat n)))).
Proof.
  intros Hht Hv Hp Hl. unfold PrepareNonTransactionWriteBatch. cbn [read_pairs write_pairs].
  rewrite bool_decide_eq_true_2 by done. cbn [CHECK mbind outcome_bind]. rewrite put_pairs_spec by done.
  eexists. split; [done|]. split; [apply length_imap|]. intros n k v E. rewrite list_lookup_imap, E. cbn [fmap option_fmap option_map fst snd].
  eexists. split; [done|]. rewrite Z.add_0_l.
  pose proof (proj1 (Forall_lookup _ _) Hp n _ E) as [Hk _]. apply lookup_lt_Some in E.
  rewrite <- (FullyDecode_path release k true (mkDocHybridTime ht (Z.of_nat n)) Hk).
  - f_equal. unfold ht_encoding, has_hybrid_time. cbn [at_time doc_ht_ hybrid_time]. by rewrite Hv.
  - left. split; [|done]. split; [done|]. unfold is_u. cbn [write_id]. lia.
Qed.

Lemma nontransaction_batch_correct_witness :
  ∃ ops key, PrepareNonTransactionWriteBatch false (D := Z) (V := Z)
      (mkKeyValueWriteBatchPB (pair_of false <$> [(row_key, [123]); (column_key, [83; 65])]) []) 4096 [] = Done ops /\
    ops !! 1%nat = Some (Put key [83; 65]) /\
    SubDocKey_FullyDecodeFrom (D := Z) (V := Z) false (mkSubDocKey (DocKey_range []) invalid_doc_ht []) true key =
      Done (Some (at_time column_key (mkDocHybridTime 4096 1))).
Proof.
  destruct (nontransaction_batch_correct (D := Z) (V := Z) false 4096 [(row_key, [123]); (column_key, [83; 65])] [])
    as (ops & E & _ & Hn); [by vm_compute|done| |done|].
  - apply Forall_cons; split; [|apply Forall_singleton]; (split; [|done]); [apply row_key_ok|apply column_key_ok].
  - destruct (Hn 1%nat column_key [83; 65] eq_refl) as (key & Ek & Ed). exists ops, key.
    split; [exact E|]. split; [exact Ek|exact Ed].
Defined.
