(* ===== verification/FastMem.v ===== *)
(** * Comparing memory ([src/yb/gutil/strings/fastmem.h])

    The word-at-a-time comparisons under slices and under the compaction
    filter.  Memory is a byte string; the [n] bytes compared must exist. *)

From S2P Require Import Prelude.
Local Open Scope Z_scope.

(** [UNALIGNED_LOAD64] and [UNALIGNED_LOAD32] on a little-endian machine. *)
Definition le_value (l : bytes) : Z := foldr (λ b acc, b + 256 * acc) 0 l.

Definition UNALIGNED_LOAD64 (a : bytes) : Z := le_value (take 8 a).
Definition UNALIGNED_LOAD32 (a : bytes) : Z := le_value (take 4 a).

(** The standard function; only the sign of its result is specified. *)
Definition memcmp (a b : bytes) (n : nat) : Z :=
  match bytes_compare (take n a) (take n b) with Lt => -1 | Eq => 0 | Gt => 1 end.

(** ** Equality *)

(** [for (; n >= 16; n -= 16) ...], then the last word. *)
Fixpoint memeq_loop (fuel : nat) (a b : bytes) (n : nat) : bool :=
  match fuel with
  | O => (n =? 0)%nat || (UNALIGNED_LOAD64 a =? UNALIGNED_LOAD64 b)
  | S fuel' =>
      if (16 <=? n)%nat then
        let x := Z.lxor (UNALIGNED_LOAD64 a) (UNALIGNED_LOAD64 b) in
        let y := Z.lxor (UNALIGNED_LOAD64 (drop 8 a)) (UNALIGNED_LOAD64 (drop 8 b)) in
        if negb (Z.lor x y =? 0) then false
        else memeq_loop fuel' (drop 16 a) (drop 16 b) (n - 16)
      else (n =? 0)%nat || (UNALIGNED_LOAD64 a =? UNALIGNED_LOAD64 b)
  end.

Definition memeq (a b : bytes) (n : nat) : bool :=
  let n_rounded_down := Nat.ldiff n 7 in
  if (n_rounded_down =? 0)%nat then memcmp a b n =? 0
  else
    let u := Z.lxor (UNALIGNED_LOAD64 a) (UNALIGNED_LOAD64 b) in
    let v := Z.lxor (UNALIGNED_LOAD64 (drop (n - 8) a)) (UNALIGNED_LOAD64 (drop (n - 8) b)) in
    if negb (Z.lor u v =? 0) then false
    else
      let a := drop 8 a in
      let b := drop 8 b in
      let n := (n_rounded_down - 8)%nat in
      if (128 <? n)%nat then memcmp a b n =? 0 else memeq_loop n a b n.

(** ** Comparison and difference *)

(** The words that agree are skipped: what is left of both, and its length. *)
Fixpoint skip_words (fuel : nat) (a b : bytes) (n : nat) : bytes * bytes * nat :=
  match fuel with
  | O => (a, b, n)
  | S fuel' =>
      if (8 <=? n)%nat && (UNALIGNED_LOAD64 a =? UNALIGNED_LOAD64 b)
      then skip_words fuel' (drop 8 a) (drop 8 b) (n - 8) else (a, b, n)
  end.

Definition skip_half (abn : bytes * bytes * nat) : bytes * bytes * nat :=
  let '(a, b, n) := abn in
  if (4 <=? n)%nat && (UNALIGNED_LOAD32 a =? UNALIGNED_LOAD32 b) then (drop 4 a, drop 4 b, n - 4)%nat else (a, b, n).

(** The last loop of [fastmemcmp_inlined]. *)
Fixpoint compare_bytes (n : nat) (a b : bytes) : Z :=
  match n with
  | O => 0
  | S n' =>
      let d := default 0 (head a) - default 0 (head b) in
      if negb (d =? 0) then d else compare_bytes n' (tail a) (tail b)
  end.

Definition fastmemcmp_inlined (a b : bytes) (n : nat) : Z :=
  if (64 <=? n)%nat then memcmp a b n
  else let '(a, b, n) := skip_half (skip_words n a b n) in compare_bytes n a b.

(** The last loop of [MemoryDifferencePos], from the position [pos] on. *)
Fixpoint difference_bytes (n : nat) (a b : bytes) (pos : nat) : nat :=
  match n with
  | O => pos
  | S n' =>
      if negb (default 0 (head a) =? default 0 (head b)) then pos
      else difference_bytes n' (tail a) (tail b) (S pos)
  end.

Definition MemoryDifferencePos (a b : bytes) (n : nat) : nat :=
  let '(a', b', n') := skip_half (skip_words n a b n) in difference_bytes n' a' b' (n - n').

(** ** Lemmas *)

(** The length of the longest common prefix. *)
Fixpoint common_length (a b : bytes) : nat :=
  match a, b with
  | x :: a', y :: b' => if x =? y then S (common_length a' b') else O
  | _, _ => O
  end.

Lemma le_value_inj l1 l2 :
  bytes_ok l1 -> bytes_ok l2 -> length l1 = length l2 -> le_value l1 = le_value l2 -> l1 = l2.
Proof.
  revert l2. induction l1 as [|x l1 IH]; intros [|y l2] H1 H2 Hl E; try done.
  apply Forall_cons in H1 as [Hx H1]. apply Forall_cons in H2 as [Hy H2]. cbn [le_value foldr] in E.
  fold (le_value l1) (le_value l2) in E. unfold is_u in Hx, Hy. change (2 ^ 8) with 256 in *.
  assert (x = y) as -> by lia. f_equal. apply IH; [done..|by injection Hl|lia].
Qed.

Lemma loads_equal k a b :
  bytes_ok a -> bytes_ok b -> (k <= length a)%nat -> (k <= length b)%nat ->
  (le_value (take k a) =? le_value (take k b)) = bool_decide (take k a = take k b).
Proof.
  intros Ha Hb La Lb. case_bool_decide as E; [rewrite E; apply Z.eqb_refl|]. apply Z.eqb_neq. intros Ev. apply E.
  apply le_value_inj; [by apply Forall_take..| |done]. rewrite !length_take. lia.
Qed.

Lemma lor_lxor_zero a b c d : (Z.lor (Z.lxor a b) (Z.lxor c d) =? 0) = (a =? b) && (c =? d).
Proof.
  apply eq_true_iff_eq. rewrite andb_true_iff, !Z.eqb_eq, Z.lor_eq_0_iff, !Z.lxor_eq_0_iff. done.
Qed.

Lemma memcmp_zero a b n : (memcmp a b n =? 0) = bool_decide (take n a = take n b).
Proof.
  unfold memcmp. case_bool_decide as E.
  - by rewrite E, bytes_compare_refl.
  - destruct (bytes_compare (take n a) (take n b)) eqn:Ec; [by apply bytes_compare_eq in Ec|done..].
Qed.

(** Equality of two prefixes, in two parts. *)
Lemma take_split k n (a b : bytes) :
  (k <= n)%nat -> take n a = take n b <-> take k a = take k b /\ take (n - k) (drop k a) = take (n - k) (drop k b).
Proof.
  intros Hk. split.
  - intros E. split.
    + apply (f_equal (take k)) in E. by rewrite !take_take, !Nat.min_l in E by lia.
    + rewrite !take_drop_commute. replace (k + (n - k))%nat with n by lia. by rewrite E.
  - intros [E1 E2]. replace n with (k + (n - k))%nat by lia. by rewrite <- !take_take_drop, E1, E2.
Qed.

Lemma take_split_dec k n (a b : bytes) :
  (k <= n)%nat -> bool_decide (take n a = take n b) =
  bool_decide (take k a = take k b) && bool_decide (take (n - k) (drop k a) = take (n - k) (drop k b)).
Proof. intros Hk. rewrite <- bool_decide_and. by apply bool_decide_ext, take_split. Qed.

Section compared.
(** The lemmas are for memory that holds at least the bytes compared. *)

Definition readable (a b : bytes) (n : nat) : Prop :=
  bytes_ok a /\ bytes_ok b /\ (n <= length a)%nat /\ (n <= length b)%nat.

Lemma readable_drop k a b n : readable a b n -> (k <= n)%nat -> readable (drop k a) (drop k b) (n - k).
Proof.
  intros (Ha & Hb & La & Lb) Hk. split; [by apply Forall_drop|]. split; [by apply Forall_drop|]. rewrite !length_drop. lia.
Qed.

Lemma load64_equal a b n :
  readable a b n -> (8 <= n)%nat -> (UNALIGNED_LOAD64 a =? UNALIGNED_LOAD64 b) = bool_decide (take 8 a = take 8 b).
Proof. intros (Ha & Hb & La & Lb) Hn. apply loads_equal; [done..|lia|lia]. Qed.

Lemma load32_equal a b n :
  readable a b n -> (4 <= n)%nat -> (UNALIGNED_LOAD32 a =? UNALIGNED_LOAD32 b) = bool_decide (take 4 a = take 4 b).
Proof. intros (Ha & Hb & La & Lb) Hn. apply loads_equal; [done..|lia|lia]. Qed.

Lemma ldiff_7 n : Nat.ldiff n 7 = (n / 8 * 8)%nat.
Proof. change 7%nat with (Nat.ones 3). rewrite Nat.ldiff_ones_r, Nat.shiftl_mul_pow2, Nat.shiftr_div_pow2. done. Qed.

Lemma memeq_last k a b :
  readable a b (8 * k) -> (k <= 1)%nat ->
  ((8 * k =? 0)%nat || (UNALIGNED_LOAD64 a =? UNALIGNED_LOAD64 b)) = bool_decide (take (8 * k) a = take (8 * k) b).
Proof.
  intros Hr Hk. destruct k as [|[|]]; [|by apply (load64_equal a b 8)|lia]. by rewrite bool_decide_eq_true_2.
Qed.

Lemma memeq_loop_spec fuel k a b :
  readable a b (8 * k) -> (k <= fuel)%nat -> memeq_loop fuel a b (8 * k) = bool_decide (take (8 * k) a = take (8 * k) b).
Proof.
  revert k a b. induction fuel as [|fuel IH]; intros k a b Hr Hf; cbn [memeq_loop]; [apply memeq_last; [done|lia]|].
  destruct (Nat.leb_spec 16 (8 * k)); [|apply memeq_last; [done|lia]].
  rewrite lor_lxor_zero, (take_split_dec 8), (take_split_dec 8 (8 * k - 8)), drop_drop by lia.
  pose proof (readable_drop 8 a b (8 * k) Hr ltac:(lia)) as Hr8.
  rewrite (load64_equal a b (8 * k)), (load64_equal (drop 8 a) (drop 8 b) (8 * k - 8)) by (done || lia).
  rewrite andb_assoc. destruct (bool_decide (take 8 a = _) && _); [|done]. cbn [negb andb].
  pose proof (readable_drop 16 a b (8 * k) Hr ltac:(lia)) as Hr16.
  replace (8 * k - 16)%nat with (8 * (k - 2))%nat in * by lia. rewrite IH by (done || lia).
  replace (8 * k - 8 - 8)%nat with (8 * (k - 2))%nat by lia. by rewrite drop_drop.
Qed.

Lemma memeq_middle k a b :
  readable a b (8 * k) ->
  (if (128 <? 8 * k)%nat then memcmp a b (8 * k) =? 0 else memeq_loop (8 * k) a b (8 * k)) =
  bool_decide (take (8 * k) a = take (8 * k) b).
Proof.
  intros Hr. destruct (128 <? 8 * k)%nat; [apply memcmp_zero|]. apply memeq_loop_spec; [done|lia].
Qed.

Lemma memeq_spec a b n : readable a b n -> memeq a b n = bool_decide (take n a = take n b).
Proof.
  intros Hr. unfold memeq. rewrite ldiff_7. destruct (Nat.eqb_spec (n / 8 * 8) 0) as [|Hn]; [apply memcmp_zero|].
  assert (8 <= n)%nat as H8 by (destruct (Nat.lt_ge_cases n 8); [rewrite Nat.div_small in Hn by done; lia|done]).
  pose proof (Nat.div_mod_eq n 8). pose proof (Nat.mod_upper_bound n 8 ltac:(lia)).
  pose proof (readable_drop (n - 8) a b n Hr ltac:(lia)) as Hl.
  rewrite lor_lxor_zero, (load64_equal a b n), (load64_equal (drop (n - 8) a) _ (n - (n - 8))) by (done || lia).
  set (k := (n / 8 - 1)%nat). replace (n / 8 * 8 - 8)%nat with (8 * k)%nat by lia.
  pose proof (readable_drop 8 a b n Hr H8) as (Ha8 & Hb8 & La8 & Lb8).
  rewrite memeq_middle by (split; [done|]; split; [done|]; lia).
  (* the first word, the middle and the last word cover the [n] bytes *)
  apply eq_true_iff_eq. rewrite (take_split_dec 8 n) by done.
  rewrite (take_split_dec (8 * k) (n - 8)) by lia.
  destruct (bool_decide (take 8 a = take 8 b)) eqn:E1; cbn [negb andb]; [|done].
  destruct (bool_decide (take (8 * k) (drop 8 a) = _)) eqn:E2.
  - cbn [negb andb]. rewrite !drop_drop. apply bool_decide_eq_true in E1, E2.
    set (r := (n - 8 - 8 * k)%nat). assert (r < 8)%nat by lia.
    assert (take (n - r) a = take (n - r) b) as E3.
    { apply (take_split 8); [lia|]. split; [done|]. by replace (n - r - 8)%nat with (8 * k)%nat by lia. }
    assert (take (8 - r) (drop (n - 8) a) = take (8 - r) (drop (n - 8) b)) as E4.
    { apply (take_split (n - 8) (n - r)) in E3 as [_ E3]; [|lia]. by replace (n - r - (n - 8))%nat with (8 - r)%nat in E3 by lia. }
    rewrite (take_split_dec (8 - r) 8) by lia. rewrite (bool_decide_eq_true_2 _ E4). cbn [andb]. rewrite !drop_drop.
    replace (n - 8 + (8 - r))%nat with (8 + 8 * k)%nat by lia. replace (8 - (8 - r))%nat with r by lia.
    by destruct (bool_decide _).
  - by destruct (bool_decide (take 8 (drop (n - 8) a) = _)).
Qed.

(** What the word loops leave: both without the same prefix. *)
Definition skipped (a b : bytes) (n : nat) (abn : bytes * bytes * nat) : Prop :=
  ∃ k, (k <= n)%nat /\ take k a = take k b /\ abn = (drop k a, drop k b, (n - k)%nat).

Lemma skip_words_spec fuel a b n : readable a b n -> skipped a b n (skip_words fuel a b n).
Proof.
  assert (∀ a b n, skipped a b n (a, b, n)) as Hrefl.
  { intros a' b' n'. exists 0%nat. rewrite !drop_0, Nat.sub_0_r. split; [lia|done]. }
  revert a b n. induction fuel as [|fuel IH]; intros a b n Hr; cbn [skip_words]; [done|].
  destruct (Nat.leb_spec 8 n); [|done]. rewrite (load64_equal a b n) by done. cbn [andb].
  case_bool_decide as E; [|done].
  destruct (IH (drop 8 a) (drop 8 b) (n - 8)%nat (readable_drop 8 a b n Hr ltac:(done))) as (k & Hk & Ek & ->).
  exists (8 + k)%nat. split; [lia|]. rewrite !drop_drop. split; [|by replace (n - 8 - k)%nat with (n - (8 + k))%nat by lia].
  apply (take_split 8); [lia|]. by replace (8 + k - 8)%nat with k by lia.
Qed.

Lemma skip_half_spec a b n abn : readable a b n -> skipped a b n abn -> skipped a b n (skip_half abn).
Proof.
  intros Hr (k & Hk & Ek & ->). unfold skip_half. destruct (Nat.leb_spec 4 (n - k)); [|by exists k].
  rewrite (load32_equal _ _ (n - k)) by (done || by apply readable_drop). cbn [andb].
  case_bool_decide as E; [|by exists k]. exists (k + 4)%nat. split; [lia|]. rewrite !drop_drop.
  split; [|by replace (n - k - 4)%nat with (n - (k + 4))%nat by lia].
  apply (take_split k); [lia|]. by replace (k + 4 - k)%nat with 4%nat by lia.
Qed.

Lemma compare_bytes_spec n a b :
  readable a b n -> Z.compare (compare_bytes n a b) 0 = bytes_compare (take n a) (take n b).
Proof.
  revert a b. induction n as [|n IH]; intros a b (Ha & Hb & La & Lb); [done|].
  destruct a as [|x a], b as [|y b]; simpl in La, Lb; try lia.
  apply Forall_cons in Ha as [Hx Ha]. apply Forall_cons in Hb as [Hy Hb].
  cbn [compare_bytes head tail default from_option id take bytes_compare]. unfold id.
  destruct (Z.eqb_spec (x - y) 0).
  - replace y with x by lia. rewrite Z.compare_refl. cbn [negb]. apply IH. repeat split; (done || lia).
  - cbn [negb]. destruct (Z.compare_spec x y); [lia|by apply Z.compare_lt_iff; lia|by apply Z.compare_gt_iff; lia].
Qed.

Lemma difference_bytes_spec n a b pos :
  readable a b n -> difference_bytes n a b pos = (pos + common_length (take n a) (take n b))%nat.
Proof.
  revert a b pos. induction n as [|n IH]; intros a b pos (Ha & Hb & La & Lb); [rewrite !take_0; cbn; lia|].
  destruct a as [|x a], b as [|y b]; simpl in La, Lb; try lia.
  apply Forall_cons in Ha as [Hx Ha]. apply Forall_cons in Hb as [Hy Hb].
  cbn [difference_bytes head tail default from_option id take common_length]. unfold id.
  destruct (x =? y); cbn [negb]; [|lia]. rewrite IH; [lia|]. repeat split; (done || lia).
Qed.

Lemma common_length_app p a b : common_length (p ++ a) (p ++ b) = (length p + common_length a b)%nat.
Proof. induction p as [|x p IH]; [done|]. cbn [app common_length length]. by rewrite Z.eqb_refl, IH. Qed.

(** Both prefixes of length [n], as a common part and the rest. *)
Lemma skipped_parts a b n k :
  readable a b n -> (k <= n)%nat -> take k a = take k b ->
  take n a = take k a ++ take (n - k) (drop k a) /\ take n b = take k a ++ take (n - k) (drop k b) /\
  length (take k a) = k /\ readable (drop k a) (drop k b) (n - k).
Proof.
  intros Hr Hk E. rewrite E at 2. rewrite !take_take_drop. replace (k + (n - k))%nat with n by lia.
  split; [done|]. split; [done|]. split; [|by apply readable_drop]. destruct Hr as (_ & _ & La & _). rewrite length_take. lia.
Qed.

Lemma fastmemcmp_spec a b n :
  readable a b n -> Z.compare (fastmemcmp_inlined a b n) 0 = bytes_compare (take n a) (take n b).
Proof.
  intros Hr. unfold fastmemcmp_inlined. destruct (64 <=? n)%nat; [unfold memcmp; by destruct (bytes_compare _ _)|].
  destruct (skip_half_spec a b n _ Hr (skip_words_spec n a b n Hr)) as (k & Hk & Ek & ->).
  destruct (skipped_parts a b n k Hr Hk Ek) as (Ea & Eb & Hlen & Hr').
  by rewrite compare_bytes_spec, Ea, Eb, bytes_compare_app_l.
Qed.

Lemma MemoryDifferencePos_spec a b n :
  readable a b n -> MemoryDifferencePos a b n = common_length (take n a) (take n b).
Proof.
  intros Hr. unfold MemoryDifferencePos.
  destruct (skip_half_spec a b n _ Hr (skip_words_spec n a b n Hr)) as (k & Hk & Ek & ->).
  destruct (skipped_parts a b n k Hr Hk Ek) as (Ea & Eb & Hlen & Hr').
  rewrite difference_bytes_spec, Ea, Eb, common_length_app by done. lia.
Qed.

End compared.

(** ** Properties *)

(** C39: the word-at-a-time routines agree with the byte-by-byte ones: [memeq]
    decides whether the first [n] bytes are equal, the sign of
    [fastmemcmp_inlined] is their bytewise order, and [MemoryDifferencePos] is
    the length of their longest common prefix. *)
Theorem fast_memory_routines_correct a b n :
  bytes_ok a -> bytes_ok b -> (n <= length a)%nat -> (n <= length b)%nat ->
  memeq a b n = bool_decide (take n a = take n b) /\
  Z.compare (fastmemcmp_inlined a b n) 0 = bytes_compare (take n a) (take n b) /\
  MemoryDifferencePos a b n = common_length (take n a) (take n b).
Proof.
  intros. by rewrite <- memeq_spec, fastmemcmp_spec, MemoryDifferencePos_spec.
Qed.

Lemma fast_memory_routines_correct_witness :
  memeq (repeat 1 19 ++ [2]) (repeat 1 19 ++ [3]) 20 = false /\
  Z.compare (fastmemcmp_inlined (repeat 1 19 ++ [2]) (repeat 1 19 ++ [3]) 20) 0 = Lt /\
  MemoryDifferencePos (repeat 1 19 ++ [2]) (repeat 1 19 ++ [3]) 20 = 19%nat.
Proof.
  apply (fast_memory_routines_correct (repeat 1 19 ++ [2]) (repeat 1 19 ++ [3]) 20);
    [by repeat constructor|by repeat constructor|done|done].
Defined.
