(* ===== verification/MonoTime.v ===== *)
(** * Durations and points in time ([src/yb/util/monotime.h], [monotime.cc])

    A [MonoDelta] is a 64-bit number of nanoseconds, a [MonoTime] a 64-bit
    number of nanoseconds since the start of the steady clock.  Signed overflow
    is undefined behaviour; the [DCHECK]s count in debug builds only. *)

From S2P Require Import Prelude.
Local Open Scope Z_scope.

(** The result of a signed 64-bit operation. *)
Definition int64 (x : Z) : Outcome Z := if (- 2 ^ 63 <=? x) && (x <? 2 ^ 63) then Done x else Undefined.

Definition kNanosecondsPerMicrosecond : Z := 1000.
Definition kMicrosecondsPerMillisecond : Z := 1000.
Definition kMillisecondsPerSecond : Z := 1000.
Definition kNanosecondsPerMillisecond : Z := kNanosecondsPerMicrosecond * kMicrosecondsPerMillisecond.
Definition kMicrosecondsPerSecond : Z := kMillisecondsPerSecond * kMicrosecondsPerMillisecond.
Definition kNanosecondsPerSecond : Z := kNanosecondsPerMillisecond * kMillisecondsPerSecond.

Definition kMaxInt64 : Z := 2 ^ 63 - 1.

(** Whether a sum overflows, decided on the sum itself. *)
Definition SafeToAdd64 (a b : Z) : Outcome bool :=
  let negativeA := a <? 0 in
  let negativeB := b <? 0 in
  if negb (eqb negativeA negativeB) then Done true
  else
    sum ← int64 (a + b);
    Done (eqb (sum <? 0) negativeA).

Module MonoDelta.

Abbreviation t := Z.

Definition kUninitialized : t := - 2 ^ 63.
Definition kMin : t := - 2 ^ 63 + 1.
Definition kMax : t := kMaxInt64.
Definition kZero : t := 0.

Definition FromMilliseconds (ms : Z) : Outcome t :=
  _ ← CHECK (ms <=? kMaxInt64 ÷ kNanosecondsPerMillisecond);
  int64 (ms * kNanosecondsPerMillisecond).

Definition FromMicroseconds (us : Z) : Outcome t :=
  _ ← CHECK (us <=? kMaxInt64 ÷ kNanosecondsPerMicrosecond);
  int64 (us * kNanosecondsPerMicrosecond).

Definition FromNanoseconds (ns : Z) : t := ns.

Definition Initialized (d : t) : bool := negb (d =? kUninitialized).

Section operations.
Context (release : bool).

Definition both_initialized (a b : t) : Outcome unit :=
  _ ← DCHECK release (Initialized a);
  DCHECK release (Initialized b).

Definition LessThan (a b : t) : Outcome bool := _ ← both_initialized a b; Done (a <? b).
Definition MoreThan (a b : t) : Outcome bool := _ ← both_initialized a b; Done (b <? a).
Definition Equals (a b : t) : Outcome bool := _ ← both_initialized a b; Done (a =? b).

Definition IsNegative (d : t) : Outcome bool := _ ← DCHECK release (Initialized d); Done (d <? 0).
Definition ToNanoseconds (d : t) : Outcome Z := _ ← DCHECK release (Initialized d); Done d.
Definition ToMicroseconds (d : t) : Outcome Z :=
  _ ← DCHECK release (Initialized d); Done (d ÷ kNanosecondsPerMicrosecond).
Definition ToMilliseconds (d : t) : Outcome Z :=
  _ ← DCHECK release (Initialized d); Done (d ÷ kNanosecondsPerMillisecond).

Definition add (a b : t) : Outcome t :=
  _ ← both_initialized a b;
  _ ← (if release then Done tt else safe ← SafeToAdd64 a b; CHECK safe);
  sum ← int64 (a + b);
  _ ← DCHECK release (negb (sum =? kUninitialized));
  Done sum.

Definition sub (a b : t) : Outcome t :=
  _ ← both_initialized a b;
  _ ← (if release then Done tt else neg ← int64 (- b); safe ← SafeToAdd64 a neg; CHECK safe);
  diff ← int64 (a - b);
  _ ← DCHECK release (negb (diff =? kUninitialized));
  Done diff.

(** In debug builds the product is divided by the factor again, which may be
    zero. *)
Definition mul (a m : Z) : Outcome t :=
  _ ← DCHECK release (Initialized a);
  prod ← int64 (a * m);
  _ ← (if release then Done tt else if m =? 0 then Undefined else CHECK (prod ÷ m =? a));
  _ ← DCHECK release (negb (prod =? kUninitialized));
  Done prod.

Definition div (a divisor : Z) : Outcome t :=
  _ ← DCHECK release (Initialized a);
  _ ← DCHECK release (negb (divisor =? 0));
  if divisor =? 0 then Undefined else int64 (a ÷ divisor).

Definition negate (a : t) : Outcome t := int64 (- a).

(** Seconds and microseconds. *)
Definition ToTimeVal (d : t) : Outcome (Z * Z) :=
  _ ← DCHECK release (Initialized d);
  let tv_sec := d ÷ kNanosecondsPerSecond in
  let tv_usec := (d - tv_sec * kNanosecondsPerSecond) ÷ kNanosecondsPerMicrosecond in
  let '(tv_sec, tv_usec) := if tv_usec <? 0 then (tv_sec - 1, tv_usec + 1000000) else (tv_sec, tv_usec) in
  let tv_usec := if (tv_usec =? 0) && (tv_sec =? 0) && (0 <? d) then 1 else tv_usec in
  Done (if (tv_usec =? 0) && (tv_sec =? 0) && (d <? 0) then (-1, 999999) else (tv_sec, tv_usec)).

End operations.

(** Seconds and nanoseconds. *)
Definition NanosToTimeSpec (nanos : Z) : Z * Z :=
  let tv_sec := nanos ÷ kNanosecondsPerSecond in
  let tv_nsec := nanos - tv_sec * kNanosecondsPerSecond in
  if tv_nsec <? 0 then (tv_sec - 1, tv_nsec + kNanosecondsPerSecond) else (tv_sec, tv_nsec).

Definition ToTimeSpec (release : bool) (d : t) : Outcome (Z * Z) :=
  _ ← DCHECK release (Initialized d); Done (NanosToTimeSpec d).

End MonoDelta.

Module MonoTime.

Abbreviation t := Z.

Definition Max : t := kMaxInt64.
Definition Min : t := 1.
Definition kMax : t := Max.
Definition kMin : t := Min.
Definition kUninitialized : t := 0.

Definition Initialized (x : t) : bool := negb (x =? 0).
Definition Equals (x other : t) : bool := x =? other.
Definition IsMax (x : t) : bool := Equals x kMax.
Definition IsMin (x : t) : bool := Equals x kMin.
Definition Earliest (a b : t) : t := if b <? a then b else a.

Section operations.
Context (release : bool).

Definition GetDeltaSince (x rhs : t) : Outcome MonoDelta.t :=
  _ ← DCHECK release (Initialized x);
  _ ← DCHECK release (Initialized rhs);
  int64 (x - rhs).

Definition AddDelta (x : t) (delta : MonoDelta.t) : Outcome t :=
  _ ← DCHECK release (Initialized x);
  _ ← DCHECK release (MonoDelta.Initialized delta);
  is_max ← MonoDelta.Equals release delta MonoDelta.kMax;
  if (is_max : bool) then Done kMax else int64 (x + delta).

Definition SubtractDelta (x : t) (delta : MonoDelta.t) : Outcome t :=
  _ ← DCHECK release (Initialized x);
  _ ← DCHECK release (MonoDelta.Initialized delta);
  is_min ← MonoDelta.Equals release delta MonoDelta.kMin;
  if (is_min : bool) then Done kMin else int64 (x - delta).

Definition ComesBefore (x rhs : t) : Outcome bool :=
  _ ← DCHECK release (Initialized x);
  _ ← DCHECK release (Initialized rhs);
  Done (x <? rhs).

End operations.

Definition MakeAtLeast (x rhs : t) : t :=
  if Initialized rhs && (negb (Initialized x) || (x <? rhs)) then rhs else x.

End MonoTime.

(** ** Lemmas *)

Lemma int64_small x : is_s 64 x -> int64 x = Done x.
Proof. intros [H1 H2]. unfold int64. change (64 - 1) with 63 in *. by destruct (Z.leb_spec (- 2 ^ 63) x), (Z.ltb_spec x (2 ^ 63)); try lia. Qed.

(** The test for overflow never says no: its own sum overflows first. *)
Lemma safe_to_add_never_false a b : SafeToAdd64 a b ≠ Done false.
Proof.
  unfold SafeToAdd64. destruct (Z.ltb_spec a 0), (Z.ltb_spec b 0); cbn [negb eqb]; try done;
    unfold int64; destruct (_ && _); cbn [mbind outcome_bind]; try done; intros [= E];
    destruct (Z.ltb_spec (a + b) 0); try done; lia.
Qed.

(** Scaling by zero divides by zero in debug builds. *)
Lemma mul_zero_debug : MonoDelta.mul false 1 0 = Undefined /\ MonoDelta.mul true 1 0 = Done 0.
Proof. done. Qed.

Lemma Equals_initialized release a b :
  a ≠ MonoDelta.kUninitialized -> b ≠ MonoDelta.kUninitialized -> MonoDelta.Equals release a b = Done (a =? b).
Proof.
  intros Ha Hb. unfold MonoDelta.Equals, MonoDelta.both_initialized, MonoDelta.Initialized.
  rewrite (proj2 (Z.eqb_neq _ _) Ha), (proj2 (Z.eqb_neq _ _) Hb). by destruct release.
Qed.

Lemma ToMilliseconds_initialized release a :
  a ≠ MonoDelta.kUninitialized -> MonoDelta.ToMilliseconds release a = Done (a ÷ 1000000).
Proof.
  intros Ha. unfold MonoDelta.ToMilliseconds, MonoDelta.Initialized. rewrite (proj2 (Z.eqb_neq _ _) Ha). by destruct release.
Qed.

Lemma FromMilliseconds_small ms :
  - 9223372036854 <= ms <= 9223372036854 -> MonoDelta.FromMilliseconds ms = Done (ms * 1000000).
Proof.
  intros H. unfold MonoDelta.FromMilliseconds. change (kMaxInt64 ÷ kNanosecondsPerMillisecond) with 9223372036854.
  rewrite (proj2 (Z.leb_le _ _)) by lia. cbn [CHECK mbind outcome_bind]. apply int64_small.
  unfold is_s, kNanosecondsPerMillisecond, kNanosecondsPerMicrosecond, kMicrosecondsPerMillisecond. lia.
Qed.

(** ** Properties *)

(** C38: the system structures made from a duration are normalised and close to
    it: [timespec] has nanoseconds in [0, 10^9) and the exact value;
    [timeval] has microseconds in [0, 10^6), differs by less than a
    microsecond, and is not zero unless the duration is. *)
Theorem time_structs_normalised release d :
  d ≠ MonoDelta.kUninitialized ->
  (∃ sec nsec, MonoDelta.ToTimeSpec release d = Done (sec, nsec) /\ 0 <= nsec < 1000000000 /\
     sec * 1000000000 + nsec = d) /\
  (∃ sec usec, MonoDelta.ToTimeVal release d = Done (sec, usec) /\ 0 <= usec < 1000000 /\
     Z.abs (sec * 1000000000 + usec * 1000 - d) < 1000 /\ (sec = 0 -> usec = 0 -> d = 0)).
Proof.
  intros Hd. unfold MonoDelta.ToTimeSpec, MonoDelta.ToTimeVal, MonoDelta.NanosToTimeSpec, MonoDelta.Initialized.
  rewrite (proj2 (Z.eqb_neq _ _) Hd). cbn [negb].
  replace (DCHECK release true) with (Done tt) by (by destruct release). cbn [mbind outcome_bind].
  change kNanosecondsPerSecond with 1000000000. change kNanosecondsPerMicrosecond with 1000.
  pose proof (Z.quot_rem' d 1000000000) as E. set (q := d ÷ 1000000000) in *. set (r := Z.rem d 1000000000) in *.
  replace (d - q * 1000000000) with r by lia.
  assert ((0 <= d -> 0 <= r < 1000000000) /\ (d <= 0 -> - 1000000000 < r <= 0)) as [R1 R2].
  { split; intros H; [apply Z.rem_bound_pos; lia|]. pose proof (Z.rem_bound_pos_neg d 1000000000 ltac:(lia) H). lia. }
  assert ((0 <= d -> 0 <= q) /\ (d <= 0 -> q <= 0)) as [Q1 Q2] by (split; intros; lia).
  split.
  - destruct (Z.ltb_spec r 0); do 2 eexists; (split; [done|]); lia.
  - pose proof (Z.quot_rem' r 1000) as E'. set (u := r ÷ 1000) in *. set (s := Z.rem r 1000) in *.
    assert ((0 <= r -> 0 <= s < 1000) /\ (r <= 0 -> - 1000 < s <= 0)) as [S1 S2].
    { split; intros H; [apply Z.rem_bound_pos; lia|]. pose proof (Z.rem_bound_pos_neg r 1000 ltac:(lia) H). lia. }
    destruct (Z.ltb_spec u 0); cbn [fst snd];
      repeat (match goal with |- context [if ?b then _ else _] => destruct b eqn:? end);
      do 2 eexists; (split; [done|]); rewrite ?andb_true_iff, ?andb_false_iff, ?Z.eqb_eq, ?Z.eqb_neq, ?Z.ltb_lt, ?Z.ltb_ge in *;
      repeat split; try lia.
Qed.

Lemma time_structs_normalised_witness :
  (∃ sec nsec, MonoDelta.ToTimeSpec false (-1500) = Done (sec, nsec) /\ 0 <= nsec < 1000000000 /\
     sec * 1000000000 + nsec = -1500) /\
  (∃ sec usec, MonoDelta.ToTimeVal false (-1500) = Done (sec, usec) /\ 0 <= usec < 1000000 /\
     Z.abs (sec * 1000000000 + usec * 1000 - -1500) < 1000 /\ (sec = 0 -> usec = 0 -> -1500 = 0)).
Proof. apply time_structs_normalised. discriminate. Defined.
