(* ===== verification/Value.v ===== *)
(** * Values and their time to live ([src/yb/docdb/value.h], [value.cc],
    [doc_ttl_util.cc], [expiration.h])

    The right-hand side of a RocksDB record: optional control fields (merge
    flags, the time of the intent it was made from, a TTL, a user timestamp)
    and the primitive value; and when a value has expired. *)

From S2P Require Import Prelude KeyCodec FastVarInt DocKvUtil HybridTime DocHybridTime HybridClock MonoTime.
From S2P Require Import ValueType Intents KeyBytes Uuid PrimitiveValue VarInt Decimal PrimitiveValueKeys DocKey SubDocKey.
From S2P Require Import ValueEncoding.
Local Open Scope Z_scope.

Record Value : Type := mkValue {
  primitive_value_ : PrimitiveValue;
  ttl_ : MonoDelta.t;
  user_timestamp_ : Z;
  merge_flags_ : Z;
  intent_doc_ht_ : DocHybridTime
}.

Definition kTtlFlag : Z := 1.
Definition kMaxTtl : MonoDelta.t := MonoDelta.FromNanoseconds kMaxInt64.
Definition kResetTtl : MonoDelta.t := MonoDelta.FromNanoseconds 0.
Definition kInvalidUserTimestamp : Z := - 2 ^ 63.

(** [Value(primitive_value)], with the other arguments left to their
    defaults; the intent time is default-constructed, hence invalid. *)
Definition Value_of (pv : PrimitiveValue) : Value :=
  mkValue pv kMaxTtl kInvalidUserTimestamp 0 (mkDocHybridTime HybridTime.kInvalid 0).

(** ** Decoding *)

(** [DecodeType]: the rest of the slice when it starts with the expected type. *)
Definition DecodeType (expected_value_type : ValueType) (slice : bytes) : option bytes :=
  if bool_decide ((ConsumeValueType slice).1 = Some expected_value_type) then Some (ConsumeValueType slice).2 else None.

Definition DecodeMergeFlags (slice : bytes) : Result (Z * bytes) :=
  match DecodeType kMergeFlags slice with
  | Some rest => FastDecodeUnsignedVarInt_slice rest
  | None => Ok (0, slice)
  end.

Definition DecodeIntentDocHT (slice : bytes) : Result (DocHybridTime * bytes) :=
  match DecodeType kHybridTime slice with
  | Some rest => DocHybridTime.DecodeFrom rest
  | None => Ok (invalid_doc_ht, slice)
  end.

Definition DecodeTTL (slice : bytes) : Outcome (Result (MonoDelta.t * bytes)) :=
  match DecodeType kTtl slice with
  | Some rest =>
      '(ms, rest) ⇐ Done (FastDecodeSignedVarInt_slice rest);
      ttl ← MonoDelta.FromMilliseconds ms;
      Done (Ok (ttl, rest))
  | None => Done (Ok (kMaxTtl, slice))
  end.

Definition DecodeUserTimestamp (slice : bytes) : Result (Z * bytes) :=
  match DecodeType kUserTimestamp slice with
  | Some rest =>
      if (length rest <? 8)%nat then Error Corruption
      else Ok (s64 (Load64 rest), drop 8 rest)
  | None => Ok (kInvalidUserTimestamp, slice)
  end.

Section codec.
Context (release : bool) `{BoostUuid} {D V : Type} `{ComparableNumber D} `{ComparableNumber V}.

(** The control fields of [v] replaced by those of the slice, and the rest. *)
Definition DecodeControlFields (v : Value) (slice : bytes) : Outcome (Result (Value * bytes)) :=
  match slice with
  | [] => Done (Error Corruption)
  | _ :: _ =>
      '(merge_flags, slice) ⇐ Done (DecodeMergeFlags slice);
      '(intent_doc_ht, slice) ⇐ Done (DecodeIntentDocHT slice);
      '(ttl, slice) ⇐ DecodeTTL slice;
      '(user_timestamp, slice) ⇐ Done (DecodeUserTimestamp slice);
      Done (Ok (mkValue (primitive_value_ v) ttl user_timestamp merge_flags intent_doc_ht, slice))
  end.

Definition Value_Decode (v : Value) (rocksdb_value : bytes) : Outcome (Result Value) :=
  '(v, slice) ⇐ DecodeControlFields v rocksdb_value;
  pv ⇐ DecodeFromValue (D := D) (V := V) slice;
  Done (Ok (mkValue pv (ttl_ v) (user_timestamp_ v) (merge_flags_ v) (intent_doc_ht_ v))).

(** The value type, the merge flags, the TTL and the user timestamp. The byte
    of the type may name no enumerator. *)
Definition DecodePrimitiveValueType (rocksdb_value : bytes)
    : Outcome (Result (option ValueType * Z * MonoDelta.t * Z)) :=
  '(merge_flags, slice) ⇐ Done (DecodeMergeFlags rocksdb_value);
  '(ttl, slice) ⇐ DecodeTTL slice;
  '(user_ts, slice) ⇐ Done (DecodeUserTimestamp slice);
  Done (Ok ((ConsumeValueType slice).1, merge_flags, ttl, user_ts)).

(** [DecodeTTL(const Slice&)] and [DecodeUserTimestamp(const Slice&)] *)
Definition DecodeTTL_copy (rocksdb_value : bytes) : Outcome (Result MonoDelta.t) :=
  '(_, slice) ⇐ Done (DecodeMergeFlags rocksdb_value);
  '(ttl, _) ⇐ DecodeTTL slice;
  Done (Ok ttl).

Definition DecodeUserTimestamp_copy (rocksdb_value : bytes) : Outcome (Result Z) :=
  '(_, slice) ⇐ DecodeTTL rocksdb_value;
  '(user_timestamp, _) ⇐ Done (DecodeUserTimestamp slice);
  Done (Ok user_timestamp).

(** ** Encoding *)

(** [EncodeAndAppend], with [external_value] instead of the primitive value
    when it is given. *)
Definition EncodeAndAppend (v : Value) (external_value : option bytes) (value_bytes : bytes) : Outcome bytes :=
  let value_bytes :=
    if negb (merge_flags_ v =? 0)
    then FastAppendUnsignedVarIntToStr (merge_flags_ v) (value_bytes ++ [ValueTypeAsChar kMergeFlags])
    else value_bytes in
  let value_bytes :=
    if is_valid (hybrid_time (intent_doc_ht_ v))
    then AppendEncodedInDocDbFormat (intent_doc_ht_ v) (value_bytes ++ [ValueTypeAsChar kHybridTime])
    else value_bytes in
  no_ttl ← MonoDelta.Equals release (ttl_ v) kMaxTtl;
  value_bytes ←
    (if negb no_ttl
     then
       ms ← MonoDelta.ToMilliseconds release (ttl_ v);
       Done (FastAppendSignedVarIntToStr ms (value_bytes ++ [ValueTypeAsChar kTtl]))
     else Done value_bytes);
  let value_bytes :=
    if negb (user_timestamp_ v =? kInvalidUserTimestamp)
    then AppendBigEndianUInt64 (u64 (user_timestamp_ v)) (value_bytes ++ [ValueTypeAsChar kUserTimestamp])
    else value_bytes in
  match external_value with
  | None => e ← ToValue release (primitive_value_ v); Done (value_bytes ++ e)
  | Some e => Done (value_bytes ++ e)
  end.

Definition Value_Encode (v : Value) (external_value : option bytes) : Outcome bytes :=
  EncodeAndAppend v external_value [].

Definition EncodedTombstone : Outcome bytes := Value_Encode (Value_of (mkPV kTombstone no_val)) None.

End codec.

(** ** Time to live *)

Definition kResetTTL : Z := 0.

(** [TableTTL]: the default of the table, [-1] for none. *)
Definition kNoDefaultTtl : Z := -1.

Definition TableTTL (default_time_to_live : Z) : Outcome MonoDelta.t :=
  if negb (default_time_to_live =? kNoDefaultTtl) then
    let default_ttl := u64 default_time_to_live in
    if default_ttl =? kResetTTL then Done kMaxTtl else MonoDelta.FromMilliseconds (s64 default_ttl)
  else Done kMaxTtl.

Section ttl.
Context (release : bool).

Definition HasExpiredTTL (key_hybrid_time : HybridTime) (ttl : MonoDelta.t) (read_hybrid_time : HybridTime)
    : Outcome bool :=
  is_max ← MonoDelta.Equals release ttl kMaxTtl;
  is_reset ← (if (is_max : bool) then Done true else MonoDelta.Equals release ttl kResetTtl);
  if (is_reset : bool) then Done false
  else
    delta ← MonoDelta.ToNanoseconds release ttl;
    c ← CompareHybridClocksToDelta key_hybrid_time read_hybrid_time delta;
    Done (0 <? c).

Definition ComputeTTL (value_ttl default_ttl : MonoDelta.t) : Outcome MonoDelta.t :=
  is_max ← MonoDelta.Equals release value_ttl kMaxTtl;
  if (is_max : bool) then Done default_ttl
  else
    ms ← MonoDelta.ToMilliseconds release value_ttl;
    Done (if u64 ms =? kResetTTL then kMaxTtl else value_ttl).

Record Expiration : Type := mkExpiration {
  ttl : MonoDelta.t;
  write_ht : HybridTime;
  always_override : bool
}.

Definition no_Expiration : Expiration := mkExpiration kMaxTtl HybridTime.kMin false.
Definition Expiration_of (new_write_ht : HybridTime) (new_ttl : MonoDelta.t) : Expiration :=
  mkExpiration new_ttl new_write_ht false.

Definition ComputeRelativeTtl (e : Expiration) (input_time : HybridTime) : Outcome (Result MonoDelta.t) :=
  if input_time <? write_ht e then Done (Error Corruption)
  else
    is_max ← MonoDelta.Equals release (ttl e) kMaxTtl;
    negative ← (if (is_max : bool) then Done true else MonoDelta.IsNegative release (ttl e));
    if (negative : bool) then Done (Ok (ttl e))
    else
      input_nanos ← GetPhysicalValueNanos input_time;
      write_nanos ← GetPhysicalValueNanos (write_ht e);
      let elapsed_time := MonoDelta.FromNanoseconds (s64 (u64 (input_nanos - write_nanos))) in
      new_ttl ← MonoDelta.sub release (ttl e) elapsed_time;
      Done (Ok new_ttl).

End ttl.

(** ** Lemmas *)

Lemma DecodeType_same t rest : DecodeType t (ValueTypeAsChar t :: rest) = Some rest.
Proof. unfold DecodeType. cbn [ConsumeValueType fst snd]. rewrite DecodeValueType_AsChar. by rewrite bool_decide_eq_true_2. Qed.

Lemma DecodeType_other t u rest : t ≠ u -> DecodeType t (ValueTypeAsChar u :: rest) = None.
Proof.
  intros Hne. unfold DecodeType. cbn [ConsumeValueType fst snd]. rewrite DecodeValueType_AsChar.
  rewrite bool_decide_eq_false_2; [done|]. congruence.
Qed.

(** The control fields, one after the other. *)
Definition flags_field (v : Value) : bytes :=
  if merge_flags_ v =? 0 then [] else ValueTypeAsChar kMergeFlags :: FastEncodeUnsignedVarInt (merge_flags_ v).
Definition intent_field (v : Value) : bytes :=
  if is_valid (hybrid_time (intent_doc_ht_ v))
  then ValueTypeAsChar kHybridTime :: EncodedInDocDbFormat (intent_doc_ht_ v) else [].
Definition ttl_field (v : Value) : bytes :=
  if ttl_ v =? kMaxTtl then [] else ValueTypeAsChar kTtl :: FastEncodeSignedVarInt (ttl_ v ÷ 1000000).
Definition timestamp_field (v : Value) : bytes :=
  if user_timestamp_ v =? kInvalidUserTimestamp then []
  else ValueTypeAsChar kUserTimestamp :: be_bytes 8 (u64 (user_timestamp_ v)).

(** What can be written in a value: the TTL is kept in milliseconds. *)
Record control_ok (v : Value) : Prop := {
  co_flags : is_u 64 (merge_flags_ v);
  co_intent : if is_valid (hybrid_time (intent_doc_ht_ v)) then dht_ok (intent_doc_ht_ v)
              else intent_doc_ht_ v = invalid_doc_ht;
  co_ttl : ttl_ v = kMaxTtl \/ ∃ ms, - 9223372036854 <= ms <= 9223372036854 /\ ttl_ v = ms * 1000000;
  co_timestamp : is_s 64 (user_timestamp_ v)
}.

(** The first byte after the control fields is not one of theirs. *)
Definition payload_start (e : bytes) : Prop :=
  ∃ t rest, e = ValueTypeAsChar t :: rest /\ t ∉ [kMergeFlags; kHybridTime; kTtl; kUserTimestamp].

Lemma ttl_multiple ttl ms : ttl = ms * 1000000 -> ttl ≠ kMaxTtl.
Proof. intros ->. change kMaxTtl with 9223372036854775807. lia. Qed.

Lemma EncodeAndAppend_fields release `{BoostUuid} v e value_bytes :
  control_ok v ->
  EncodeAndAppend release v (Some e) value_bytes =
  Done (value_bytes ++ flags_field v ++ intent_field v ++ ttl_field v ++ timestamp_field v ++ e).
Proof.
  intros [_ _ Ht _]. unfold EncodeAndAppend, flags_field, intent_field, ttl_field, timestamp_field.
  assert (ttl_ v ≠ MonoDelta.kUninitialized) as Hi.
  { destruct Ht as [->|(ms & Hms & ->)]; [done|]. unfold MonoDelta.kUninitialized. lia. }
  rewrite Equals_initialized by done. cbn [mbind outcome_bind].
  destruct (ttl_ v =? kMaxTtl); cbn [negb]; rewrite ?ToMilliseconds_initialized by done; cbn [mbind outcome_bind];
    destruct (merge_flags_ v =? 0), (is_valid _), (user_timestamp_ v =? kInvalidUserTimestamp); cbn [negb];
    unfold FastAppendUnsignedVarIntToStr, AppendEncodedInDocDbFormat, FastAppendSignedVarIntToStr, AppendBigEndianUInt64;
    by rewrite <- ?app_assoc.
Qed.

Lemma payload_other t e : payload_start e -> t ∈ [kMergeFlags; kHybridTime; kTtl; kUserTimestamp] -> DecodeType t e = None.
Proof. intros (u & rest & -> & Hu) Ht. apply DecodeType_other. by intros ->. Qed.

Lemma timestamp_other v e t :
  payload_start e -> t ∈ [kMergeFlags; kHybridTime; kTtl] -> DecodeType t (timestamp_field v ++ e) = None.
Proof.
  intros He Ht. unfold timestamp_field. destruct (_ =? _); [apply payload_other; [done|set_solver]|].
  apply DecodeType_other. intros ->. set_solver.
Qed.

Lemma ttl_other v e t :
  payload_start e -> t ∈ [kMergeFlags; kHybridTime] -> DecodeType t (ttl_field v ++ timestamp_field v ++ e) = None.
Proof.
  intros He Ht. unfold ttl_field. destruct (_ =? _); [apply timestamp_other; [done|set_solver]|].
  apply DecodeType_other. intros ->. set_solver.
Qed.

Lemma intent_other v e :
  payload_start e -> DecodeType kMergeFlags (intent_field v ++ ttl_field v ++ timestamp_field v ++ e) = None.
Proof.
  intros He. unfold intent_field. destruct (is_valid _); [by apply DecodeType_other|]. apply ttl_other; [done|set_solver].
Qed.

Lemma ttl_field_ok v : control_ok v -> bytes_ok (ttl_field v).
Proof.
  intros [_ _ Ht _]. unfold ttl_field. destruct (Z.eqb_spec (ttl_ v) kMaxTtl); [constructor|].
  destruct Ht as [?|(ms & Hms & E)]; [done|]. rewrite E, Z.quot_mul by done.
  constructor; [apply ValueTypeAsChar_byte|]. apply FastEncodeSignedVarInt_ok. unfold is_s. lia.
Qed.

Lemma timestamp_field_ok v : bytes_ok (timestamp_field v).
Proof.
  unfold timestamp_field. destruct (_ =? _); constructor; [apply ValueTypeAsChar_byte|apply be_bytes_ok].
Qed.

Lemma intent_field_ok v : control_ok v -> bytes_ok (intent_field v).
Proof.
  intros [_ Hi _ _]. unfold intent_field. destruct (is_valid _); constructor; [apply ValueTypeAsChar_byte|by apply dht_encoded_ok].
Qed.

Lemma DecodeMergeFlags_field v rest :
  is_u 64 (merge_flags_ v) -> bytes_ok rest -> DecodeType kMergeFlags rest = None ->
  DecodeMergeFlags (flags_field v ++ rest) = Ok (merge_flags_ v, rest).
Proof.
  intros Hf Hr Hn. unfold DecodeMergeFlags, flags_field. destruct (Z.eqb_spec (merge_flags_ v) 0) as [->|].
  - cbn [app]. by rewrite Hn.
  - cbn [app]. rewrite DecodeType_same. by apply unsigned_varint_roundtrip_slice.
Qed.

Lemma DecodeIntentDocHT_field v rest :
  control_ok v -> bytes_ok rest -> DecodeType kHybridTime rest = None ->
  DecodeIntentDocHT (intent_field v ++ rest) = Ok (intent_doc_ht_ v, rest).
Proof.
  intros [_ Hi _ _] Hr Hn. unfold DecodeIntentDocHT, intent_field. destruct (is_valid _).
  - cbn [app]. rewrite DecodeType_same. by apply DecodeFrom_EncodedInDocDbFormat.
  - cbn [app]. by rewrite Hn, Hi.
Qed.

Lemma DecodeTTL_field v rest :
  control_ok v -> bytes_ok rest -> DecodeType kTtl rest = None ->
  DecodeTTL (ttl_field v ++ rest) = Done (Ok (ttl_ v, rest)).
Proof.
  intros [_ _ Ht _] Hr Hn. unfold DecodeTTL, ttl_field. destruct (Z.eqb_spec (ttl_ v) kMaxTtl) as [->|Hne].
  - cbn [app]. by rewrite Hn.
  - destruct Ht as [?|(ms & Hms & E)]; [done|]. rewrite E, Z.quot_mul by done. cbn [app]. rewrite DecodeType_same.
    rewrite signed_varint_roundtrip_slice by (done || unfold is_s; lia). cbn [or_bind].
    by rewrite FromMilliseconds_small by done.
Qed.

Lemma DecodeUserTimestamp_field v rest :
  control_ok v -> DecodeType kUserTimestamp rest = None ->
  DecodeUserTimestamp (timestamp_field v ++ rest) = Ok (user_timestamp_ v, rest).
Proof.
  intros [_ _ _ Hu] Hn. unfold DecodeUserTimestamp, timestamp_field.
  destruct (Z.eqb_spec (user_timestamp_ v) kInvalidUserTimestamp) as [->|].
  - cbn [app]. by rewrite Hn.
  - cbn [app]. rewrite DecodeType_same. rewrite length_app, be_bytes_length, (proj2 (Nat.ltb_ge _ _)) by lia.
    rewrite drop_app_length' by (by rewrite be_bytes_length). do 2 f_equal.
    unfold Load64, s64, u64. rewrite be_value_take by (apply wrap_range; lia).
    rewrite signed_wrap by lia. by apply signed_small.
Qed.

Lemma payload_not_nil e : payload_start e -> e ≠ [].
Proof. by intros (t & rest & -> & _). Qed.

Lemma DecodeControlFields_fields v0 v e :
  control_ok v -> payload_start e -> bytes_ok e ->
  DecodeControlFields v0 (flags_field v ++ intent_field v ++ ttl_field v ++ timestamp_field v ++ e) =
  Done (Ok (mkValue (primitive_value_ v0) (ttl_ v) (user_timestamp_ v) (merge_flags_ v) (intent_doc_ht_ v), e)).
Proof.
  intros Hv He Hb. unfold DecodeControlFields.
  pose proof (timestamp_field_ok v) as Ots. pose proof (ttl_field_ok v Hv) as Ottl. pose proof (intent_field_ok v Hv) as Oint.
  assert (flags_field v ++ intent_field v ++ ttl_field v ++ timestamp_field v ++ e ≠ []) as Hne.
  { intros (_ & (_ & (_ & (_ & E)%app_nil)%app_nil)%app_nil)%app_nil. by apply (payload_not_nil e). }
  destruct (_ ++ _) as [|b s] eqn:E; [done|]. rewrite <- E. clear b s E Hne.
  rewrite DecodeMergeFlags_field; [|apply Hv|by repeat (apply Forall_app; split)|by apply intent_other]. cbn [or_bind].
  rewrite DecodeIntentDocHT_field; [|done|by repeat (apply Forall_app; split)|apply ttl_other; [done|set_solver]]. cbn [or_bind].
  rewrite DecodeTTL_field; [|done|by repeat (apply Forall_app; split)|apply timestamp_other; [done|set_solver]]. cbn [or_bind].
  rewrite DecodeUserTimestamp_field; [done|done|]. apply payload_other; [done|set_solver].
Qed.

Lemma ToValue_start release `{BoostUuid} {D V : Type} `{CD : ComparableNumber D} `{CV : ComparableNumber V} pv e :
  value_ok (D := D) (V := V) pv -> ToValue release pv = Done e ->
  payload_start e /\ (ConsumeValueType e).1 = Some (type_of pv).
Proof.
  destruct pv as [t v|d l]; intros Hok E.
  - cbn [value_ok] in Hok. destruct (scalar_value_roundtrip (D := D) (V := V) t v Hok) as (x & E1 & _).
    cbn [ToValue] in E. rewrite E1 in E. injection E as <-. split; [|apply DecodeValueType_AsChar].
    exists t, x. split; [done|]. intros Ht. destruct t, v; try contradiction; set_solver.
  - cbn [ToValue value_ok] in *. rewrite (append_elements_encoding (D := D) (V := V) release) in E by done.
    cbn [mbind outcome_bind] in E. injection E as <-. split; [|destruct d; apply DecodeValueType_AsChar].
    exists (frozen_type d). eexists. split; [reflexivity|]. destruct d; set_solver.
Qed.

Lemma EncodeAndAppend_external release `{BoostUuid} v e value_bytes :
  ToValue release (primitive_value_ v) = Done e ->
  EncodeAndAppend release v None value_bytes = EncodeAndAppend release v (Some e) value_bytes.
Proof. intros E. unfold EncodeAndAppend. rewrite E. done. Qed.

(** What the scan for the type of a value finds. *)
Definition scanned (v : Value) : option ValueType * Z * MonoDelta.t * Z :=
  if is_valid (hybrid_time (intent_doc_ht_ v))
  then (Some kHybridTime, merge_flags_ v, kMaxTtl, kInvalidUserTimestamp)
  else (Some (type_of (primitive_value_ v)), merge_flags_ v, ttl_ v, user_timestamp_ v).

Lemma DecodePrimitiveValueType_fields v e :
  control_ok v -> payload_start e -> bytes_ok e -> (ConsumeValueType e).1 = Some (type_of (primitive_value_ v)) ->
  DecodePrimitiveValueType (flags_field v ++ intent_field v ++ ttl_field v ++ timestamp_field v ++ e) =
  Done (Ok (scanned v)).
Proof.
  intros Hv Hs Hb Et. unfold scanned.
  pose proof (timestamp_field_ok v) as Ots. pose proof (ttl_field_ok v Hv) as Ottl. pose proof (intent_field_ok v Hv) as Oint.
  unfold DecodePrimitiveValueType.
  rewrite DecodeMergeFlags_field; [|apply Hv|by repeat (apply Forall_app; split)|by apply intent_other]. cbn [or_bind].
  unfold intent_field in *. destruct (is_valid (hybrid_time (intent_doc_ht_ v))).
  - cbn [app]. unfold DecodeTTL. rewrite DecodeType_other by done. cbn [or_bind]. unfold DecodeUserTimestamp.
    rewrite DecodeType_other by done. cbn [or_bind ConsumeValueType fst]. by rewrite DecodeValueType_AsChar.
  - cbn [app]. rewrite DecodeTTL_field; [|done|by apply Forall_app|apply timestamp_other; [done|set_solver]]. cbn [or_bind].
    rewrite DecodeUserTimestamp_field; [|done|apply payload_other; [done|set_solver]]. cbn [or_bind]. by rewrite Et.
Qed.

(** *** Expiry *)

(** The decision of [HasExpiredTTL], without the sanity checks. *)
Definition expired (key_hybrid_time : HybridTime) (ttl : MonoDelta.t) (read_hybrid_time : HybridTime) : bool :=
  if (ttl =? kMaxTtl) || (ttl =? kResetTtl) || (read_hybrid_time <? key_hybrid_time) then false
  else
    let diff := (GetPhysicalValueMicros read_hybrid_time - GetPhysicalValueMicros key_hybrid_time) * 1000 in
    (u64 ttl <? diff) || ((u64 ttl =? diff) && (GetLogicalValue key_hybrid_time <? GetLogicalValue read_hybrid_time)).

Lemma GetPhysicalValueNanos_ok ht : ht_ok ht -> GetPhysicalValueNanos ht = Done (GetPhysicalValueMicros ht * 1000).
Proof.
  intros Ht. destruct (ht_split ht Ht) as (_ & Hp & _). unfold GetPhysicalValueNanos.
  fold (GetPhysicalValueMicros ht). change ((2 ^ 64 - 1) / HybridClock.kNanosecondsPerMicrosecond) with 18446744073709551.
  rewrite (proj2 (Z.leb_le _ _)) by lia. cbn [CHECK mbind outcome_bind]. unfold u64, HybridClock.kNanosecondsPerMicrosecond.
  by rewrite wrap_small by (unfold is_u; lia).
Qed.

Lemma HasExpiredTTL_expired release key_ht ttl read_ht :
  ht_ok key_ht -> ht_ok read_ht -> ttl ≠ MonoDelta.kUninitialized ->
  HasExpiredTTL release key_ht ttl read_ht = Done (expired key_ht ttl read_ht).
Proof.
  intros Hk Hr Ht. unfold HasExpiredTTL, expired. rewrite !Equals_initialized by done. cbn [mbind outcome_bind].
  destruct (Z.eqb_spec ttl kMaxTtl); [done|]. cbn [mbind outcome_bind orb].
  destruct (Z.eqb_spec ttl kResetTtl); [done|]. cbn [orb].
  unfold MonoDelta.ToNanoseconds, MonoDelta.Initialized. rewrite (proj2 (Z.eqb_neq _ _) Ht).
  replace (DCHECK release (negb false)) with (Done tt) by (by destruct release). cbn [mbind outcome_bind].
  unfold CompareHybridClocksToDelta, HybridTime.CompareTo. rewrite !GetPhysicalValueNanos_ok by done.
  destruct (ht_split key_ht Hk) as (Ek & Hpk & Hlk). destruct (ht_split read_ht Hr) as (Er & Hpr & Hlr).
  destruct (Z.ltb_spec read_ht key_ht) as [|Hle]; [done|]. rewrite Z.gtb_ltb.
  replace ((if key_ht <? read_ht then 1 else 0) <? 0) with false by (by destruct (key_ht <? read_ht)).
  cbn [mbind outcome_bind].
  replace (GetPhysicalValueMicros read_ht * 1000 - GetPhysicalValueMicros key_ht * 1000)
    with ((GetPhysicalValueMicros read_ht - GetPhysicalValueMicros key_ht) * 1000) by lia.
  set (diff := (_ - _) * 1000). assert (u64 diff = diff) as -> by (unfold u64; apply wrap_small; unfold is_u, diff; lia).
  f_equal. destruct (Z.ltb_spec (u64 ttl) diff); [done|]. rewrite Z.eqb_sym. cbn [orb].
  destruct (u64 ttl =? diff); [|done]. cbn [andb].
  destruct (GetLogicalValue key_ht <? GetLogicalValue read_ht); [done|]. by destruct (GetLogicalValue read_ht <? GetLogicalValue key_ht).
Qed.

(** What has expired stays expired. *)
Lemma expired_monotone key_ht ttl r1 r2 :
  ht_ok key_ht -> ht_ok r1 -> ht_ok r2 -> r1 <= r2 -> expired key_ht ttl r1 = true -> expired key_ht ttl r2 = true.
Proof.
  intros Hk H1 H2 Hle. unfold expired.
  destruct ((ttl =? kMaxTtl) || (ttl =? kResetTtl)); [done|]. cbn [orb].
  destruct (ht_split key_ht Hk) as (Ek & Hpk & Hlk). destruct (ht_split r1 H1) as (E1 & Hp1 & Hl1).
  destruct (ht_split r2 H2) as (E2 & Hp2 & Hl2). generalize (u64 ttl). intros d.
  destruct (Z.ltb_spec r1 key_ht), (Z.ltb_spec r2 key_ht); try done; try lia.
Qed.

Lemma ComputeTTL_initialized release value_ttl default_ttl :
  value_ttl ≠ MonoDelta.kUninitialized ->
  ComputeTTL release value_ttl default_ttl =
  Done (if value_ttl =? kMaxTtl then default_ttl else if u64 (value_ttl ÷ 1000000) =? 0 then kMaxTtl else value_ttl).
Proof.
  intros Hv. unfold ComputeTTL. rewrite Equals_initialized by done. cbn [mbind outcome_bind].
  destruct (_ =? kMaxTtl); [done|]. by rewrite ToMilliseconds_initialized.
Qed.

(** ** Properties *)

(** C33: a value with any control fields is decoded exactly as it was encoded;
    the scan for its type, which only skips the merge flags, the TTL and the
    user timestamp, finds them and the type of the primitive value when the
    value was not written by a transaction, and otherwise stops at the time of
    the intent: it reports the type of a hybrid time and no TTL. *)
Theorem value_with_control_fields_roundtrip `{BoostUuid} {D V : Type}
    `{CD : ComparableNumber D} `{CV : ComparableNumber V} release v0 v e :
  control_ok v -> value_ok (D := D) (V := V) (primitive_value_ v) ->
  ToValue release (primitive_value_ v) = Done e -> bytes_ok e ->
  ∃ encoded, Value_Encode release v None = Done encoded /\
    Value_Decode (D := D) (V := V) v0 encoded = Done (Ok v) /\
    DecodePrimitiveValueType encoded =
      Done (Ok (if is_valid (hybrid_time (intent_doc_ht_ v))
                then (Some kHybridTime, merge_flags_ v, kMaxTtl, kInvalidUserTimestamp)
                else (Some (type_of (primitive_value_ v)), merge_flags_ v, ttl_ v, user_timestamp_ v))).
Proof.
  intros Hv Hok He Hb. destruct (ToValue_start (D := D) (V := V) release _ e Hok He) as [Hs Et].
  exists (flags_field v ++ intent_field v ++ ttl_field v ++ timestamp_field v ++ e). split.
  { unfold Value_Encode. by rewrite (EncodeAndAppend_external _ _ e), EncodeAndAppend_fields. }
  split.
  - unfold Value_Decode. rewrite DecodeControlFields_fields by done. cbn [or_bind].
    destruct (value_roundtrip_aux (D := D) (V := V) release _ Hok) as (e' & E1 & E2). rewrite He in E1. injection E1 as <-.
    rewrite E2. cbn [or_bind ttl_ user_timestamp_ merge_flags_ intent_doc_ht_]. by destruct v.
  - by apply DecodePrimitiveValueType_fields.
Qed.

(** A tombstone that expires the row in a minute, written by a transaction. *)
Definition transactional_tombstone : Value :=
  mkValue (mkPV kTombstone no_val) (60000 * 1000000) kInvalidUserTimestamp 0 (mkDocHybridTime 4096 1).

Lemma value_with_control_fields_roundtrip_witness :
  ∃ encoded, Value_Encode true transactional_tombstone None = Done encoded /\
    Value_Decode (D := Z) (V := Z) transactional_tombstone encoded = Done (Ok transactional_tombstone) /\
    DecodePrimitiveValueType encoded = Done (Ok (Some kHybridTime, 0, kMaxTtl, kInvalidUserTimestamp)).
Proof.
  apply (value_with_control_fields_roundtrip (D := Z) (V := Z) true transactional_tombstone transactional_tombstone
    [ValueTypeAsChar kTombstone]).
  - split; [by vm_compute|by vm_compute| |by vm_compute]. right. exists 60000. by vm_compute.
  - done.
  - done.
  - repeat constructor; by vm_compute.
Defined.

(** C34: the expiry of a value: with a TTL of whole milliseconds it has expired
    exactly when the read time is after the write time moved by the TTL,
    logical parts included, and it stays expired at all later times; the
    greatest TTL and the zero TTL of CQL never expire. *)
Theorem ttl_expiry_correct release key_ht ms read_ht later :
  ht_ok key_ht -> ht_ok read_ht -> ht_ok later -> 0 < ms -> GetPhysicalValueMicros key_ht + ms * 1000 < 2 ^ 52 ->
  read_ht <= later ->
  HasExpiredTTL release key_ht (ms * 1000000) read_ht =
    Done (AddPhysicalTimeToHybridTime key_ht (ms * 1000) <? read_ht) /\
  (HasExpiredTTL release key_ht (ms * 1000000) read_ht = Done true ->
   HasExpiredTTL release key_ht (ms * 1000000) later = Done true) /\
  HasExpiredTTL release key_ht kMaxTtl read_ht = Done false /\
  HasExpiredTTL release key_ht kResetTtl read_ht = Done false.
Proof.
  intros Hk Hr Hl Hms Hsum Hle. destruct (ht_split key_ht Hk) as (Ek & Hpk & Hlk).
  assert (ms * 1000000 ≠ MonoDelta.kUninitialized) as Hi by (unfold MonoDelta.kUninitialized; lia).
  assert (ms * 1000000 ≠ kMaxTtl) as Hm by (change kMaxTtl with 9223372036854775807; lia).
  split.
  - unfold HasExpiredTTL. rewrite !Equals_initialized by done. cbn [mbind outcome_bind].
    rewrite (proj2 (Z.eqb_neq _ _) Hm). cbn [mbind outcome_bind].
    rewrite (proj2 (Z.eqb_neq _ kResetTtl)) by (unfold kResetTtl, MonoDelta.FromNanoseconds; lia).
    unfold MonoDelta.ToNanoseconds, MonoDelta.Initialized. rewrite (proj2 (Z.eqb_neq _ _) Hi).
    replace (DCHECK release (negb false)) with (Done tt) by (by destruct release). cbn [mbind outcome_bind].
    replace (ms * 1000000) with (ms * 1000 * 1000) by lia. rewrite compare_clocks_to_delta_correct by (done || lia).
    cbn [mbind outcome_bind]. f_equal. unfold HybridTime.CompareTo. rewrite Z.gtb_ltb. repeat case_match; try done; lia.
  - rewrite !HasExpiredTTL_expired by done. split; [|done]. intros E. f_equal.
    apply (expired_monotone _ _ read_ht); [done..|congruence].
Qed.

Lemma ttl_expiry_correct_witness :
  HasExpiredTTL true 4096 (5 * 1000000) 40960000 = Done true /\
  HasExpiredTTL true 4096 kMaxTtl 40960000 = Done false.
Proof.
  destruct (ttl_expiry_correct true 4096 5 40960000 40960001) as (E & _ & Emax & _);
    [by vm_compute|by vm_compute|by vm_compute|done|by vm_compute|done|].
  split; [exact E|exact Emax].
Defined.
