(* ===== verification/CompactionFilter.v ===== *)
(** * The compaction filter ([src/yb/docdb/docdb_compaction_filter.h],
    [docdb_compaction_filter.cc])

    RocksDB hands every record of a compaction to the filter, in the order of
    the keys.  The filter drops what cannot be seen at or after the history
    cutoff: records overwritten by a later record of the same document or of a
    document above it, and, in a major compaction, tombstones and expired
    values. *)

From S2P Require Import Prelude KeyCodec FastVarInt DocKvUtil HybridTime DocHybridTime HybridClock MonoTime FastMem.
From S2P Require Import ValueType Intents KeyBytes Uuid PrimitiveValue VarInt Decimal PrimitiveValueKeys DocKey SubDocKey.
From S2P Require Import ValueEncoding Value.
Local Open Scope Z_scope.

Record HistoryRetentionDirective : Type := mkHistoryRetentionDirective {
  history_cutoff : HybridTime;
  deleted_cols : gset Z;
  table_ttl : MonoDelta.t
}.

Record OverwriteData : Type := mkOverwriteData {
  od_doc_ht : DocHybridTime;
  od_expiration : Expiration
}.

(** The state of a [DocDBCompactionFilter]; the stack [overwrite_] has its top
    at the end. *)
Record DocDBCompactionFilter : Type := mkDocDBCompactionFilter {
  prev_subdoc_key_ : bytes;
  sub_key_ends_ : list nat;
  overwrite_ : list OverwriteData;
  within_merge_block_ : bool
}.

Definition new_filter : DocDBCompactionFilter := mkDocDBCompactionFilter [] [] [] false.

Inductive FilterDecision : Type := kKeep | kDiscard.

Definition kMinDocHybridTime : DocHybridTime := mkDocHybridTime HybridTime.kMin 0.

(** [while (n > 0 && ends[n - 1] > same_bytes) --n;] *)
Fixpoint num_shared (ends : list nat) (same_bytes n : nat) : nat :=
  match n with
  | O => O
  | S n' => if (same_bytes <? default 0 (ends !! n'))%nat then num_shared ends same_bytes n' else n
  end.

(** [std::vector::resize] with a value for new elements. *)
Definition resize {A} (n : nat) (x : A) (l : list A) : list A := take n l ++ replicate (n - length l) x.

Definition pop_back {A} (l : list A) : list A := take (length l - 1) l.

Definition ColumnId_FromInt64 (value : Z) : Result Z :=
  if (2 ^ 31 - 1 <? value) || (value <? 0) then Error Corruption else Ok value.

Section filter.
Context (release : bool) `{BoostUuid} {D V : Type} `{ComparableNumber D} `{ComparableNumber V}.
Context (retention_ : HistoryRetentionDirective) (is_major_compaction_ : bool).

(** The size of the key is taken from its ends; [same_bytes] are reused. *)
Definition AssignPrevSubDocKey (key : bytes) (same_bytes size : nat) (prev : bytes) : Outcome bytes :=
  if (size <? same_bytes)%nat then Undefined
  else Done (take same_bytes prev ++ drop same_bytes (take size key)).

(** Whether the column of the key was deleted from the schema. *)
Definition in_deleted_column (key : bytes) (ends : list nat) : Result bool :=
  match ends with
  | e0 :: e1 :: _ =>
      if byte_at key e0 =? ValueTypeAsChar kColumnId then
        '(column_id_as_int64, _) ← FastDecodeSignedVarInt_slice (drop (e0 + 1) (take e1 key));
        column_id ← ColumnId_FromInt64 column_id_as_int64;
        Ok (bool_decide (column_id ∈ deleted_cols retention_))
      else Ok false
  | _ => Ok false
  end.

(** The expiration of the current record. *)
Definition choose_expiration (within_merge_block is_ttl_row : bool) (ht : HybridTime)
    (popped_exp prev_exp curr_exp : Expiration) : Outcome Expiration :=
  if within_merge_block then Done popped_exp
  else if negb (ht <? write_ht prev_exp) then
    no_ttl ← MonoDelta.Equals release (ttl curr_exp) kMaxTtl;
    Done (if negb no_ttl || is_ttl_row then curr_exp else prev_exp)
  else Done prev_exp.

(** The merge of a cached TTL into the value below it: the new value and the
    expiration with its TTL moved. *)
Definition apply_merge (existing_value : bytes) (expiration : Expiration) (ht : HybridTime)
    : Outcome (Result (bytes * Expiration)) :=
  '(value, value_slice) ⇐ DecodeControlFields (Value_of (mkPV kNull no_val)) existing_value;
  no_ttl ← MonoDelta.Equals release (ttl expiration) kMaxTtl;
  expiration ←
    (if (no_ttl : bool) then Done expiration
     else
       diff ← MonoDelta.FromMicroseconds (PhysicalDiff (write_ht expiration) ht);
       ttl' ← MonoDelta.add release (ttl expiration) diff;
       Done (mkExpiration ttl' (write_ht expiration) (always_override expiration)));
  new_value ← EncodeAndAppend release
    (mkValue (primitive_value_ value) (ttl expiration) (user_timestamp_ value) (merge_flags_ value) (intent_doc_ht_ value))
    (Some value_slice) [];
  Done (Ok (new_value, expiration)).

(** The part of [DoFilter] for a record at or below the history cutoff that is
    not in a deleted column; [overwrite] is the stack without an entry for the
    key itself. *)
Definition filter_old (key existing_value : bytes) (ends : list nat) (same_bytes : nat) (prev : bytes)
    (overwrite : list OverwriteData) (ht prev_overwrite_ht : DocHybridTime) (prev_exp popped_exp : Expiration)
    (is_ttl_row within_merge_block : bool)
    : Outcome (Result (DocDBCompactionFilter * FilterDecision * option bytes)) :=
  let overwrite_ht :=
    if is_ttl_row then prev_overwrite_ht
    else if DocHybridTime.CompareTo prev_overwrite_ht ht <? 0 then ht else prev_overwrite_ht in
  '(value_type, _, value_ttl, _) ⇐ DecodePrimitiveValueType existing_value;
  let curr_exp := Expiration_of (hybrid_time ht) value_ttl in
  expiration ← choose_expiration within_merge_block is_ttl_row (hybrid_time ht) popped_exp prev_exp curr_exp;
  let overwrite' := overwrite ++ [mkOverwriteData overwrite_ht expiration] in
  if negb (length overwrite' =? length ends)%nat then Done (Error Corruption)
  else
    prev' ← AssignPrevSubDocKey key same_bytes (default 0%nat (last ends)) prev;
    if is_ttl_row then Done (Ok (mkDocDBCompactionFilter prev' ends overwrite' true, kDiscard, None))
    else
      true_ttl ← ComputeTTL release (ttl expiration) (table_ttl retention_);
      same ← MonoDelta.Equals release true_ttl (ttl expiration);
      has_expired ← HasExpiredTTL release (if (same : bool) then write_ht expiration else hybrid_time ht)
                      true_ttl (history_cutoff retention_);
      let decision := if bool_decide (value_type = Some kTombstone) && is_major_compaction_ then kDiscard else kKeep in
      if (has_expired : bool) then
        if is_major_compaction_
        then Done (Ok (mkDocDBCompactionFilter prev' ends overwrite' within_merge_block, kDiscard, None))
        else
          tombstone ← EncodedTombstone release;
          Done (Ok (mkDocDBCompactionFilter prev' ends overwrite' within_merge_block, decision, Some tombstone))
      else if within_merge_block then
        '(new_value, expiration') ⇐ apply_merge existing_value expiration (hybrid_time ht);
        Done (Ok (mkDocDBCompactionFilter prev' ends (overwrite ++ [mkOverwriteData overwrite_ht expiration']) false,
                  decision, Some new_value))
      else Done (Ok (mkDocDBCompactionFilter prev' ends overwrite' within_merge_block, decision, None)).

(** The new state, the decision, and the new value if it is changed. *)
Definition DoFilter (key existing_value : bytes) (f : DocDBCompactionFilter)
    : Outcome (Result (DocDBCompactionFilter * FilterDecision * option bytes)) :=
  if bool_decide ((ConsumeValueType key).1 = Some kObsoleteIntentPrefix) then Done (Ok (f, kDiscard, None))
  else
    let same_bytes := MemoryDifferencePos key (prev_subdoc_key_ f) (Nat.min (length key) (length (prev_subdoc_key_ f))) in
    let num_shared_components := num_shared (sub_key_ends_ f) same_bytes (length (sub_key_ends_ f)) in
    ends ⇐ DecodeDocKeyAndSubKeyEnds (D := D) (V := V) key (take num_shared_components (sub_key_ends_ f));
    let new_stack_size := length ends in
    let overwrite := take num_shared_components (overwrite_ f) in
    '(ht, _) ⇐ Done (DecodeFromEnd key);
    let prev_overwrite_ht := match last overwrite with Some o => od_doc_ht o | None => kMinDocHybridTime end in
    let prev_exp := match last overwrite with Some o => od_expiration o | None => no_Expiration end in
    let is_ttl_row := IsMergeRecord existing_value in
    if (DocHybridTime.CompareTo ht prev_overwrite_ht <? 0) && negb is_ttl_row
    then Done (Ok (mkDocDBCompactionFilter (prev_subdoc_key_ f) ends overwrite (within_merge_block_ f), kDiscard, None))
    else
      let overwrite :=
        if (length overwrite <? new_stack_size - 1)%nat
        then resize (new_stack_size - 1) (mkOverwriteData prev_overwrite_ht prev_exp) overwrite else overwrite in
      let popped_exp := match last overwrite with Some o => od_expiration o | None => no_Expiration end in
      let overwrite := if (length overwrite =? new_stack_size)%nat then pop_back overwrite else overwrite in
      let within_merge_block := if (same_bytes =? default 0 (last ends))%nat then within_merge_block_ f else false in
      if history_cutoff retention_ <? hybrid_time ht then
        prev' ← AssignPrevSubDocKey key same_bytes (default 0%nat (last ends)) (prev_subdoc_key_ f);
        Done (Ok (mkDocDBCompactionFilter prev' ends (overwrite ++ [mkOverwriteData prev_overwrite_ht prev_exp])
                    within_merge_block, kKeep, None))
      else
        deleted ⇐ Done (in_deleted_column key ends);
        if (deleted : bool)
        then Done (Ok (mkDocDBCompactionFilter (prev_subdoc_key_ f) ends overwrite within_merge_block, kDiscard, None))
        else filter_old key existing_value ends same_bytes (prev_subdoc_key_ f) overwrite ht prev_overwrite_ht
               prev_exp popped_exp is_ttl_row within_merge_block.

(** [Filter]: an error ends the process. *)
Definition Filter_record (key existing_value : bytes) (f : DocDBCompactionFilter)
    : Outcome (DocDBCompactionFilter * FilterDecision * option bytes) :=
  r ← DoFilter key existing_value f;
  match r with Ok x => Done x | Error _ => Fatal end.

(** A compaction: the records that are kept, with their new values. *)
Fixpoint compact (records : list (bytes * bytes)) (f : DocDBCompactionFilter) : Outcome (list (bytes * bytes)) :=
  match records with
  | [] => Done []
  | (k, v) :: rest =>
      '(f, decision, new_value) ← Filter_record k v f;
      out ← compact rest f;
      Done (match decision with kKeep => (k, default v new_value) :: out | kDiscard => out end)
  end.

End filter.
