(* ===== verification/CompactionKeys.v ===== *)
(** * The keys the compaction filter compares

    Where the components of an encoded key end, which of them two keys share,
    and what [DocDBCompactionFilter] computes from the bytes: the number of
    shared components, the ends, the path it remembers, the time and whether
    the column was deleted. *)

From S2P Require Import Prelude KeyCodec FastVarInt DocKvUtil HybridTime DocHybridTime HybridClock MonoTime FastMem.
From S2P Require Import ValueType Intents KeyBytes Uuid PrimitiveValue VarInt Decimal PrimitiveValueKeys DocKey SubDocKey.
From S2P Require Import ValueEncoding Value CompactionFilter.
Local Open Scope Z_scope.

(** ** Common prefixes *)

Lemma common_length_le a b : (common_length a b <= length a)%nat /\ (common_length a b <= length b)%nat.
Proof.
  revert b. induction a as [|x a IH]; intros [|y b]; cbn [common_length length]; try lia.
  destruct (x =? y); [|lia]. specialize (IH b). lia.
Qed.

Lemma common_length_comm a b : common_length a b = common_length b a.
Proof.
  revert b. induction a as [|x a IH]; intros [|y b]; cbn [common_length]; try done. rewrite Z.eqb_sym.
  destruct (y =? x); [|done]. by rewrite IH.
Qed.

Lemma common_length_take a b n : (n <= common_length a b)%nat -> take n a = take n b.
Proof.
  revert b n. induction a as [|x a IH]; intros [|y b] n; cbn [common_length]; intros Hn;
    try (assert (n = 0%nat) as -> by lia; done).
  destruct (Z.eqb_spec x y) as [->|]; [|assert (n = 0%nat) as -> by lia; done].
  destruct n as [|n]; [done|]. cbn [take]. f_equal. apply IH. lia.
Qed.

Lemma common_length_prefix a b p : p `prefix_of` a -> p `prefix_of` b -> (length p <= common_length a b)%nat.
Proof. intros [x ->] [y ->]. rewrite common_length_app. lia. Qed.

Lemma common_length_take_min a b : common_length (take (Nat.min (length a) (length b)) a) (take (Nat.min (length a) (length b)) b) = common_length a b.
Proof.
  revert b. induction a as [|x a IH]; intros [|y b]; try done. cbn [length Nat.min take common_length].
  by rewrite IH.
Qed.

(** Of three strings in order, the first and the last share what both share
    with the one between. *)
Lemma common_length_between a b c :
  bytes_le a b -> bytes_le b c -> common_length a c = Nat.min (common_length a b) (common_length b c).
Proof.
  unfold bytes_le. revert b c. induction a as [|x a IH]; intros b c Hab Hbc; [done|].
  destruct b as [|y b]; [done|]. destruct c as [|z c]; [done|]. cbn [bytes_compare common_length] in *.
  destruct (Z.compare_spec x y), (Z.compare_spec y z); try done; subst.
  - rewrite Z.eqb_refl, (IH b c) by done. done.
  - by rewrite Z.eqb_refl, (proj2 (Z.eqb_neq y z)) by lia.
  - by rewrite Z.eqb_refl, (proj2 (Z.eqb_neq x z)) by lia.
  - rewrite (proj2 (Z.eqb_neq x z)), (proj2 (Z.eqb_neq x y)) by lia. done.
Qed.

Lemma common_length_app_r a b c : common_length a b = Nat.min (common_length a (b ++ c)) (length b).
Proof.
  revert b. induction a as [|x a IH]; intros [|y b]; cbn [common_length app length]; try lia.
  destruct (x =? y); [|lia]. rewrite IH. lia.
Qed.

Lemma MemoryDifferencePos_common a b :
  bytes_ok a -> bytes_ok b -> MemoryDifferencePos a b (Nat.min (length a) (length b)) = common_length a b.
Proof.
  intros Ha Hb. rewrite MemoryDifferencePos_spec by (split; [done|]; split; [done|]; lia). apply common_length_take_min.
Qed.

Lemma num_shared_spec ends m n s :
  (s <= n)%nat -> (∀ i, (i < n)%nat -> (default 0 (ends !! i) <= m)%nat <-> (i < s)%nat) -> num_shared ends m n = s.
Proof.
  induction n as [|n IH]; intros Hs Hi; cbn [num_shared]; [lia|]. pose proof (Hi n ltac:(lia)) as Hn.
  destruct (Nat.ltb_spec m (default 0%nat (ends !! n))); [|lia]. apply IH; [lia|]. intros i Hin. apply Hi. lia.
Qed.

Fixpoint common_prefix (l1 l2 : list PrimitiveValue) : nat :=
  match l1, l2 with
  | x :: l1', y :: l2' => if decide (x = y) then S (common_prefix l1' l2') else O
  | _, _ => O
  end.

Lemma common_prefix_spec l1 l2 i :
  (i <= common_prefix l1 l2)%nat <-> (i <= length l1)%nat /\ (i <= length l2)%nat /\ take i l1 = take i l2.
Proof.
  revert l2 i. induction l1 as [|x l1 IH]; intros [|y l2] i; cbn [common_prefix length];
    try (split; [intros; assert (i = 0%nat) as -> by lia; repeat split; (done || lia)|lia]).
  destruct i as [|i]; [split; [repeat split; (done || lia)|lia]|]. cbn [take].
  destruct (decide (x = y)) as [->|Hne].
  - rewrite <- !Nat.succ_le_mono, IH. split; intros (? & ? & E); repeat split; try done; congruence.
  - split; [lia|]. intros (_ & _ & [=]). done.
Qed.

(** ** The geometry of keys *)

Section geometry.
Context (release : bool) `{BoostUuid} {D V : Type} `{CD : ComparableNumber D} `{CV : ComparableNumber V}.

Abbreviation pv_enc := (key_encoding release).
Abbreviation dockey_enc := (dockey_encoding release).
Abbreviation path_enc := (path_encoding release).
Abbreviation subkeys_enc := (subkeys_encoding release).

(** Keys with a time whose sub-keys sort after the tag of the time. *)
Record stored_ok (k : SubDocKey) : Prop := {
  so_key : subdockey_ok (D := D) (V := V) k;
  so_time : has_hybrid_time k = true;
  so_subkeys : Forall (λ pv, ValueTypeAsChar kHybridTime < ValueTypeAsChar (type_of pv)) (subkeys_ k)
}.

Definition stored_encoding (k : SubDocKey) : bytes := path_enc k ++ ht_encoding k.

(** The number of components of the path: the document key and the sub-keys. *)
Definition levels (k : SubDocKey) : nat := S (length (subkeys_ k)).

(** The number of components two paths share. *)
Definition shared (a b : SubDocKey) : nat :=
  if decide (doc_key_ a = doc_key_ b) then S (common_prefix (subkeys_ a) (subkeys_ b)) else O.

(** The length of the first [i] components. *)
Definition level_end (k : SubDocKey) (i : nat) : nat :=
  match i with
  | O => O
  | S i' => length (dockey_enc (doc_key_ k) ++ subkeys_enc (take i' (subkeys_ k)))
  end.

Lemma dockey_prefix_free d1 d2 x y :
  dockey_ok (D := D) (V := V) d1 -> dockey_ok (D := D) (V := V) d2 -> bytes_ok x -> bytes_ok y ->
  dockey_enc d1 ++ x = dockey_enc d2 ++ y -> d1 = d2 /\ x = y.
Proof.
  intros H1 H2 Hx Hy E.
  pose proof (DocKey_DecodeFrom_encoding (D := D) (V := V) release) as Hd.
  pose proof (f_equal (DocKey_DecodeFrom (D := D) (V := V) (DocKey_range []) WHOLE_DOC_KEY false) E) as Ed.
  rewrite !Hd in Ed by done. by simplify_eq.
Qed.

Lemma subkey_prefix_free pv1 pv2 x y :
  pv_ok (D := D) (V := V) pv1 -> pv_ok (D := D) (V := V) pv2 -> bytes_ok x -> bytes_ok y ->
  pv_enc pv1 ++ x = pv_enc pv2 ++ y -> pv1 = pv2 /\ x = y.
Proof.
  intros H1 H2 Hx Hy E. pose proof (DecodeKey_encoding (D := D) (V := V) release true) as Hd.
  pose proof (f_equal (DecodeKey (D := D) (V := V) true) E) as Ed. rewrite !Hd in Ed by done. by simplify_eq.
Qed.

Lemma subkeys_common_prefix l1 l2 rest time :
  Forall (subkey_ok (D := D) (V := V)) l1 -> Forall (subkey_ok (D := D) (V := V)) l2 -> bytes_ok rest -> bytes_ok time ->
  head time = Some (ValueTypeAsChar kHybridTime) ->
  subkeys_enc l1 ++ rest = subkeys_enc l2 ++ time -> l1 `prefix_of` l2.
Proof.
  intros H1. revert l2. induction H1 as [|pv1 l1 [Hp1 Ht1] H1 IH]; intros l2 H2 Hr Ht Hh E; [apply prefix_nil|].
  unfold subkeys_encoding in E. cbn [fmap list_fmap concat] in E. rewrite <- app_assoc in E.
  pose proof (subkeys_encoding_ok release l1 H1) as Ol1. destruct H2 as [|pv2 l2 [Hp2 Ht2] H2].
  - exfalso. cbn [fmap list_fmap concat app] in E. destruct (key_encoding_cons release pv1) as [e Ee].
    rewrite Ee in E. rewrite <- E in Hh. cbn in Hh. apply Ht1, ValueTypeAsChar_inj. by injection Hh.
  - cbn [fmap list_fmap concat] in E. rewrite <- app_assoc in E. pose proof (subkeys_encoding_ok release l2 H2) as Ol2.
    apply subkey_prefix_free in E as [-> E]; [|done|done|by apply Forall_app|by apply Forall_app].
    apply prefix_cons, IH; done.
Qed.

Lemma shared_S a b j :
  (S j <= shared a b)%nat <-> doc_key_ a = doc_key_ b /\ (j <= length (subkeys_ a))%nat /\ (j <= length (subkeys_ b))%nat /\
    take j (subkeys_ a) = take j (subkeys_ b).
Proof.
  unfold shared. destruct (decide (doc_key_ a = doc_key_ b)); [|split; [lia|by intros [? _]]].
  rewrite <- Nat.succ_le_mono, common_prefix_spec. tauto.
Qed.

Lemma shared_levels a b : (shared a b <= levels a)%nat /\ (shared a b <= levels b)%nat.
Proof.
  destruct (shared a b) as [|j] eqn:E; [unfold levels; lia|].
  destruct (proj1 (shared_S a b j)) as (_ & ? & ? & _); [lia|]. unfold levels. lia.
Qed.

Lemma time_head k : has_hybrid_time k = true -> head (ht_encoding k) = Some (ValueTypeAsChar kHybridTime).
Proof. intros Hk. unfold ht_encoding. by rewrite Hk. Qed.

Lemma path_split k j :
  path_enc k = (dockey_enc (doc_key_ k) ++ subkeys_enc (take j (subkeys_ k))) ++ subkeys_enc (drop j (subkeys_ k)).
Proof. unfold path_encoding. rewrite <- app_assoc, <- subkeys_encoding_app, take_drop. done. Qed.

(** A component ends within the common bytes exactly when it is shared. *)
Lemma level_common a b i :
  stored_ok a -> stored_ok b -> (i <= levels a)%nat ->
  (level_end a i <= common_length (stored_encoding a) (stored_encoding b))%nat <-> (i <= shared a b)%nat.
Proof.
  intros [Oa Ta _] [Ob Tb _] Hi. destruct i as [|j]; [cbn; lia|]. cbn [level_end]. unfold levels in Hi.
  pose proof (ht_encoding_ok a Oa) as Hta. pose proof (ht_encoding_ok b Ob) as Htb.
  destruct Oa as [Da Sa _], Ob as [Db Sb _]. rewrite shared_S. unfold stored_encoding. split.
  - intros Hc%common_length_take. rewrite (path_split a j) in Hc at 1. rewrite <- !app_assoc, app_assoc, take_app_length in Hc.
    pose proof (take_drop (length (dockey_enc (doc_key_ a) ++ subkeys_enc (take j (subkeys_ a)))) (path_enc b ++ ht_encoding b)) as E.
    rewrite <- Hc in E. unfold path_encoding in E at 2. rewrite <- !app_assoc in E.
    set (rest := drop _ _) in E. assert (bytes_ok rest) as Or.
    { apply Forall_drop, Forall_app. split; [|done]. apply Forall_app. split; [by apply (dockey_encoding_ok (D := D) (V := V))|by apply (subkeys_encoding_ok (D := D) (V := V))]. }
    assert (Forall (subkey_ok (D := D) (V := V)) (take j (subkeys_ a))) as Sj by (by apply Forall_take).
    apply dockey_prefix_free in E as [Ed E]; [|done|done|apply Forall_app; split; [by apply (subkeys_encoding_ok (D := D) (V := V))|done]..].
    apply subkeys_common_prefix in E as [tl E]; [|done..|by apply time_head].
    split; [done|]. split; [lia|]. apply (f_equal length) in E as El. rewrite length_app, length_take in El.
    split; [lia|]. rewrite E. symmetry. apply take_app_length'. rewrite length_take. lia.
  - intros (Ed & Hja & Hjb & Ej). apply common_length_prefix.
    + rewrite (path_split a j), <- !app_assoc, app_assoc. by apply prefix_app_r.
    + rewrite (path_split b j), <- Ed, <- Ej, <- !app_assoc, app_assoc. by apply prefix_app_r.
Qed.

Lemma level_end_shared a b i : (i <= shared a b)%nat -> level_end a i = level_end b i.
Proof. destruct i as [|j]; [done|]. intros (Ed & _ & _ & Ej)%shared_S. cbn [level_end]. by rewrite Ed, Ej. Qed.

Lemma shared_comm a b : shared a b = shared b a.
Proof.
  apply Nat.le_antisymm; [destruct (shared a b) as [|j] eqn:E|destruct (shared b a) as [|j] eqn:E]; try lia;
    rewrite shared_S; destruct (proj1 (shared_S _ _ j) ltac:(rewrite E; done)) as (? & ? & ? & ?); done.
Qed.

(** Of three keys in order, the first and the last share what both share with
    the one between. *)
Lemma shared_between a b c :
  stored_ok a -> stored_ok b -> stored_ok c ->
  bytes_le (stored_encoding a) (stored_encoding b) -> bytes_le (stored_encoding b) (stored_encoding c) ->
  shared a c = Nat.min (shared a b) (shared b c).
Proof.
  intros Ha Hb Hc Hab Hbc. pose proof (common_length_between _ _ _ Hab Hbc) as Hm.
  pose proof (shared_levels a c) as [Lac _]. pose proof (shared_levels a b) as [Lab Lab'].
  assert (∀ i, (i <= levels a)%nat -> (i <= shared a c)%nat <-> (i <= shared a b)%nat /\ (i <= shared b c)%nat) as Hiff.
  { intros i Hi. rewrite <- (level_common a c), Hm, Nat.min_glb_iff by done. rewrite (level_common a b) by done.
    split; intros [H1 H2]; (split; [done|]); pose proof (level_end_shared a b i H1) as El.
    - apply level_common; [done..| |]; [lia|]. by rewrite <- El.
    - rewrite El. apply level_common; [done..|lia|done]. }
  pose proof (Hiff (shared a c) Lac). pose proof (Hiff (Nat.min (shared a b) (shared b c)) ltac:(lia)). lia.
Qed.

Lemma extensions_lookup p l i :
  (i < length l)%nat -> extensions release p l !! i = Some (p ++ subkeys_enc (take (S i) l)).
Proof.
  revert p i. induction l as [|pv l IH]; intros p i Hi; [simpl in Hi; lia|]. cbn [extensions].
  destruct i as [|i].
  - cbn. unfold subkeys_encoding. cbn. rewrite take_0. cbn. by rewrite app_nil_r.
  - cbn [lookup list_lookup]. rewrite IH by (simpl in Hi; lia). cbn [take].
    unfold subkeys_encoding. cbn [fmap list_fmap concat]. by rewrite <- app_assoc.
Qed.

Definition ends_of (k : SubDocKey) : list nat := length <$> key_ends release k.

Lemma length_ends_of k : length (ends_of k) = levels k.
Proof. unfold ends_of, key_ends. rewrite length_fmap. cbn [length]. by rewrite length_extensions. Qed.

Lemma ends_of_lookup k i : (i < levels k)%nat -> ends_of k !! i = Some (level_end k (S i)).
Proof.
  intros Hi. unfold ends_of, key_ends. rewrite list_lookup_fmap. destruct i as [|i].
  - cbn. rewrite take_0. unfold subkeys_encoding. cbn. by rewrite app_nil_r.
  - cbn [lookup list_lookup]. rewrite extensions_lookup by (unfold levels in Hi; lia). done.
Qed.

Lemma level_end_path k i : (i <= levels k)%nat -> (level_end k i <= length (path_enc k))%nat.
Proof.
  intros Hi. destruct i as [|j]; cbn [level_end]; [lia|]. rewrite (path_split k j), (length_app (_ ++ _)). lia.
Qed.

Lemma level_end_pos k i : (0 < i)%nat -> (0 < level_end k i)%nat.
Proof.
  destruct i as [|j]; [lia|]. intros _. cbn [level_end]. rewrite open_encoding_end, !length_app. simpl. lia.
Qed.

Lemma stored_bytes k : stored_ok k -> bytes_ok (stored_encoding k) /\ bytes_ok (path_enc k).
Proof.
  intros [Ok _ _]. assert (bytes_ok (path_enc k)) as Hp.
  { destruct Ok as [Hd Hs _]. apply Forall_app. split; [by apply (dockey_encoding_ok (D := D) (V := V))|by apply (subkeys_encoding_ok (D := D) (V := V))]. }
  split; [|done]. apply Forall_app. split; [done|by apply (ht_encoding_ok (D := D) (V := V))].
Qed.

(** The path of the last key assigned, if any. *)
Definition prev_path (p : option SubDocKey) : bytes := match p with Some p => path_enc p | None => [] end.
Definition shared_prev (p : option SubDocKey) (n : SubDocKey) : nat := match p with Some p => shared p n | None => O end.

(** What the filter compares the key with: the path of the key [p] assigned
    last, and the ends of the key [d] seen last. *)
Lemma num_shared_components p d n :
  stored_ok d -> stored_ok n -> bytes_le (stored_encoding d) (stored_encoding n) ->
  (∀ q, p = Some q -> stored_ok q /\ bytes_le (stored_encoding q) (stored_encoding d)) ->
  num_shared (ends_of d) (common_length (stored_encoding n) (prev_path p)) (length (ends_of d)) = shared_prev p n.
Proof.
  intros Hd Hn Hdn Hp. rewrite length_ends_of. destruct p as [p|]; cbn [prev_path shared_prev].
  - destruct (Hp p eq_refl) as [Op Hpd]. pose proof (shared_between p d n Op Hd Hn Hpd Hdn) as Hs.
    pose proof (shared_levels p d) as [Lp Ld]. pose proof (shared_levels p n) as [Lpn _].
    apply num_shared_spec; [lia|]. intros i Hi. rewrite ends_of_lookup by done. cbn [default from_option]. unfold id.
    rewrite (common_length_app_r _ (path_enc p) (ht_encoding p)). fold (stored_encoding p).
    rewrite common_length_comm, Nat.min_glb_iff.
    pose proof (common_length_between _ _ _ Hpd Hdn) as Hc. split.
    + intros [H1 _]. assert (S i <= shared d p)%nat as Hdp.
      { apply level_common; [done..|lia|]. rewrite common_length_comm. lia. }
      rewrite (level_end_shared d p) in H1 by done. apply level_common in H1; [lia|done..|]. rewrite shared_comm in Hdp. lia.
    + intros Hip. assert (S i <= shared d p)%nat as Hdp by (rewrite shared_comm; lia).
      rewrite (level_end_shared d p) by done. split; [apply level_common; [done..|lia|lia]|]. apply level_end_path. lia.
  - apply num_shared_spec; [lia|]. intros i Hi. rewrite ends_of_lookup by done. cbn [default from_option]. unfold id.
    pose proof (level_end_pos d (S i) ltac:(lia)).
    destruct (common_length_le (stored_encoding n) []) as [_ Hc]. simpl in Hc. lia.
Qed.

Lemma take_ends_shared d n s : (s <= shared d n)%nat -> take s (ends_of d) = take s (ends_of n).
Proof.
  intros Hs. pose proof (shared_levels d n) as [Ld Ln]. apply list_eq. intros i.
  destruct (Nat.lt_ge_cases i s) as [Hi|Hi]; [|by rewrite !lookup_take_ge].
  rewrite !lookup_take_lt, !ends_of_lookup by lia. f_equal. apply level_end_shared. lia.
Qed.

Lemma last_ends_of k : last (ends_of k) = Some (length (path_enc k)).
Proof. unfold ends_of, key_ends. rewrite fmap_last, last_key_ends. done. Qed.

Lemma decode_ends d n s :
  stored_ok n -> (s <= shared d n)%nat ->
  DecodeDocKeyAndSubKeyEnds (D := D) (V := V) (stored_encoding n) (take s (ends_of d)) = Done (Ok (ends_of n)).
Proof.
  intros [On Tn _] Hs. rewrite (take_ends_shared d n) by done. unfold stored_encoding.
  assert (SubDocKey.at_time (ht_encoding n)) as Ht by (right; by apply time_head).
  pose proof (ht_encoding_ok n On) as Oh. destruct s as [|j].
  - rewrite take_0. by destruct (DecodeDocKeyAndSubKeyEnds_encoding (D := D) (V := V) release n [] (subkeys_ n) (ht_encoding n) On Oh Ht eq_refl) as [-> _].
  - destruct (proj1 (shared_S d n j)) as (_ & _ & Hj & _); [lia|].
    destruct (DecodeDocKeyAndSubKeyEnds_encoding (D := D) (V := V) release n (take j (subkeys_ n)) (drop j (subkeys_ n)) (ht_encoding n)
      On Oh Ht) as [_ E]; [by rewrite take_drop|]. etrans; [|exact E].
    f_equal. unfold ends_of, key_ends. rewrite <- fmap_take. cbn [take]. do 2 f_equal.
    rewrite <- (take_drop j (subkeys_ n)) at 1. rewrite extensions_app. apply take_app_length'.
    rewrite length_extensions, length_take. lia.
Qed.

(** The bytes compared never reach the time. *)
Lemma common_within_path p n :
  stored_ok p -> stored_ok n -> (common_length (stored_encoding n) (path_enc p) <= length (path_enc n))%nat.
Proof.
  intros Hp Hn. destruct (Nat.le_gt_cases (common_length (stored_encoding n) (path_enc p)) (length (path_enc n))) as [|Hgt]; [done|exfalso].
  assert (levels n <= shared n p)%nat as Hs.
  { apply level_common; [done..|lia|]. unfold stored_encoding at 2. rewrite (common_length_app_r _ (path_enc p) (ht_encoding p)) in Hgt.
    pose proof (level_end_path n (levels n) ltac:(lia)). lia. }
  unfold levels in Hs. apply shared_S in Hs as (Ed & _ & Hlen & Es). rewrite firstn_all in Es.
  pose proof (common_length_take _ _ (S (length (path_enc n))) Hgt) as E.
  destruct Hn as [_ Tn _], Hp as [[_ Sp _] _ _]. pose proof (time_head n Tn) as Hh. unfold stored_encoding in E.
  destruct (ht_encoding n) as [|b rest]; [done|]. injection Hh as ->.
  assert (path_enc p = path_enc n ++ subkeys_enc (drop (length (subkeys_ n)) (subkeys_ p))) as Ep.
  { rewrite (path_split p (length (subkeys_ n))), <- Es, <- Ed. done. }
  rewrite Ep in E. apply (f_equal (drop (length (path_enc n)))) in E.
  rewrite <- !(Nat.add_1_r (length (path_enc n))), <- !take_drop_commute, !drop_app_length in E.
  destruct (drop (length (subkeys_ n)) (subkeys_ p)) as [|pv l] eqn:El; [done|].
  assert (subkey_ok (D := D) (V := V) pv) as [_ Ht].
  { apply (Forall_drop _ (length (subkeys_ n))) in Sp. rewrite El in Sp. by apply Forall_cons in Sp as [? _]. }
  unfold subkeys_encoding in E. cbn [fmap list_fmap concat] in E. destruct (key_encoding_cons release pv) as [e Ee].
  rewrite Ee in E. cbn in E. injection E as E. by apply Ht, ValueTypeAsChar_inj.
Qed.

Lemma assign_path p n :
  stored_ok n -> (∀ q, p = Some q -> stored_ok q) ->
  AssignPrevSubDocKey (stored_encoding n) (common_length (stored_encoding n) (prev_path p)) (length (path_enc n)) (prev_path p) =
  Done (path_enc n).
Proof.
  intros Hn Hp. set (same := common_length _ _). assert (same <= length (path_enc n))%nat as Hs.
  { destruct p as [q|]; [apply common_within_path; [by apply Hp|done]|].
    destruct (common_length_le (stored_encoding n) []) as [_ Hc]. simpl in Hc. unfold same. simpl. lia. }
  unfold AssignPrevSubDocKey. rewrite (proj2 (Nat.ltb_ge _ _)) by done. f_equal.
  rewrite <- (common_length_take (stored_encoding n) (prev_path p) same) by done. unfold stored_encoding at 2.
  rewrite take_app_length. unfold stored_encoding. rewrite take_app_le by done. apply take_drop.
Qed.

Lemma DecodeFromEnd_stored n : stored_ok n -> ∃ rest, DecodeFromEnd (stored_encoding n) = Ok (doc_ht_ n, rest).
Proof.
  intros [[_ _ Hh] Tn _]. rewrite Tn in Hh. unfold stored_encoding, ht_encoding. rewrite Tn. eexists.
  change (ValueTypeAsChar kHybridTime :: EncodedInDocDbFormat (doc_ht_ n)) with ([ValueTypeAsChar kHybridTime] ++ EncodedInDocDbFormat (doc_ht_ n)).
  rewrite app_assoc. apply DecodeFromEnd_EncodedInDocDbFormat; [done|]. by destruct (path_enc n).
Qed.

Lemma not_obsolete n : stored_ok n -> (ConsumeValueType (stored_encoding n)).1 ≠ Some kObsoleteIntentPrefix.
Proof.
  intros [[Hd _ _] _ _]. unfold stored_encoding, path_encoding. rewrite <- app_assoc, dockey_encoding_parts.
  unfold hashed_part, cotable_encoding, hash_encoding.
  destruct (IsNil (cotable_id_ (doc_key_ n))); [|cbn [app ConsumeValueType fst]; rewrite (DecodeValueType_AsChar kTableId); done].
  destruct (hash_present_ (doc_key_ n)); [cbn [app ConsumeValueType fst]; rewrite (DecodeValueType_AsChar kUInt16Hash); done|]. cbn [app].
  pose proof (dk_range _ Hd) as Hr. destruct (range_group_ (doc_key_ n)) as [|pv l].
  - by vm_compute.
  - apply Forall_cons in Hr as [[_ Hb] _]. rewrite group_encode_cons. destruct (key_encoding_cons release pv) as [e ->].
    cbn [app ConsumeValueType fst]. rewrite DecodeValueType_AsChar. intros [= E]. by rewrite E in Hb.
Qed.

(** The column of a row, when it was deleted. *)
Definition deleted_key (retention : HistoryRetentionDirective) (k : SubDocKey) : bool :=
  match subkeys_ k with
  | mkPV kColumnId (column_id_val_ c) :: _ => bool_decide (c ∈ deleted_cols retention)
  | _ => false
  end.

Lemma column_id_payload pv :
  pv_ok (D := D) (V := V) pv -> type_of pv = kColumnId -> ∃ c, pv = mkPV kColumnId (column_id_val_ c) /\ 0 <= c < 2 ^ 31.
Proof.
  intros Hok Ht. destruct Hok as [t v Hs|d l Hl]; [|by destruct d]. cbn in Ht. subst t.
  destruct v; try contradiction. by eexists.
Qed.

Lemma in_deleted_column_stored retention n :
  stored_ok n -> in_deleted_column retention (stored_encoding n) (ends_of n) = Ok (deleted_key retention n).
Proof.
  intros [[Hd Hs _] _ _]. unfold ends_of, key_ends, deleted_key. destruct (subkeys_ n) as [|pv l] eqn:El; [done|].
  cbn [extensions fmap list_fmap in_deleted_column]. apply Forall_cons in Hs as [[Hpv _] _].
  set (k := doc_key_ n) in *. set (tl := subkeys_enc l ++ ht_encoding n).
  assert (stored_encoding n = dockey_enc k ++ pv_enc pv ++ tl) as ->.
  { unfold stored_encoding, path_encoding. rewrite El. unfold subkeys_encoding. cbn [fmap list_fmap concat].
    unfold tl. by rewrite <- !app_assoc. }
  destruct (key_encoding_cons release pv) as [e Ee].
  assert (byte_at (dockey_enc k ++ pv_enc pv ++ tl) (length (dockey_enc k)) = ValueTypeAsChar (type_of pv)) as ->.
  { unfold byte_at. rewrite lookup_app_r, Nat.sub_diag, Ee by lia. done. }
  destruct (Z.eqb_spec (ValueTypeAsChar (type_of pv)) (ValueTypeAsChar kColumnId)) as [Et%ValueTypeAsChar_inj|Hne].
  - destruct (column_id_payload pv Hpv Et) as (c & -> & Hc).
    rewrite app_assoc, take_app_length, drop_app_ge by lia. replace (_ + 1 - _)%nat with 1%nat by lia.
    change (drop 1 (pv_enc (mkPV kColumnId (column_id_val_ c)))) with (FastEncodeSignedVarInt c).
    rewrite <- (app_nil_r (FastEncodeSignedVarInt c)), signed_varint_roundtrip_slice by (constructor || unfold is_s; lia).
    cbn [mbind result_bind]. unfold ColumnId_FromInt64.
    rewrite (proj2 (Z.ltb_ge _ _)), (proj2 (Z.ltb_ge _ _)) by lia. done.
  - destruct pv as [t v|d l']; [|done]. cbn [type_of] in Hne. destruct t; try done. 
Qed.

(** ** The order of the records *)

(** The times as numbers. *)
Definition rank (t : DocHybridTime) : Z := hybrid_time t * 2 ^ 32 + write_id t.

Definition rank_ok (t : DocHybridTime) : Prop := 0 <= hybrid_time t /\ is_u 32 (write_id t).

Lemma dht_rank_ok t : dht_ok t -> rank_ok t.
Proof. intros (Hh & Hw). split; [apply Hh|done]. Qed.

Lemma rank_nonneg t : rank_ok t -> 0 <= rank t.
Proof. intros [? [? _]]. unfold rank. lia. Qed.

Lemma dht_compare_rank a b : rank_ok a -> rank_ok b -> dht_compare a b = (rank a ?= rank b).
Proof.
  intros [Ha Hwa] [Hb Hwb]. unfold is_u in *. unfold dht_compare, rank.
  destruct (Z.compare_spec (hybrid_time a) (hybrid_time b)) as [->|Hlt|Hgt].
  - by rewrite Z.add_compare_mono_l.
  - symmetry. apply Z.compare_lt_iff. nia.
  - symmetry. apply Z.compare_gt_iff. nia.
Qed.

Lemma CompareTo_rank a b : rank_ok a -> rank_ok b -> (DocHybridTime.CompareTo a b <? 0) = (rank a <? rank b).
Proof.
  intros Ha Hb. rewrite CompareTo_spec, dht_compare_rank by done.
  destruct (Z.compare_spec (rank a) (rank b)) as [->|Hlt|Hgt]; [by rewrite !Z.ltb_irrefl| |].
  - by rewrite (proj2 (Z.ltb_lt (rank a) (rank b))) by done.
  - by rewrite (proj2 (Z.ltb_ge (rank a) (rank b))) by lia.
Qed.

Lemma rank_time a b : rank_ok a -> rank_ok b -> rank a <= rank b -> hybrid_time a <= hybrid_time b.
Proof. intros [_ Ha] [_ Hb]. unfold is_u in *. unfold rank. nia. Qed.

(** The document of [a] is that of [k] or one it is part of. *)
Definition above (a k : SubDocKey) : bool := (shared a k =? levels a)%nat.

Definition same_path (a k : SubDocKey) : Prop := doc_key_ a = doc_key_ k /\ subkeys_ a = subkeys_ k.

Lemma above_spec a k : above a k = true <-> doc_key_ a = doc_key_ k /\ subkeys_ a `prefix_of` subkeys_ k.
Proof.
  unfold above. rewrite Nat.eqb_eq. pose proof (shared_levels a k) as [Ha _]. unfold levels in *. split.
  - intros E. destruct (proj1 (shared_S a k (length (subkeys_ a)))) as (Ed & _ & Hl & Et); [lia|].
    split; [done|]. rewrite firstn_all in Et. rewrite Et. exists (drop (length (subkeys_ a)) (subkeys_ k)). by rewrite take_drop.
  - intros [Ed [l El]]. apply Nat.le_antisymm; [done|]. apply shared_S. rewrite El, length_app, firstn_all, take_app_length.
    repeat split; (done || lia).
Qed.

Lemma above_same a b k : same_path a b -> above k a = above k b /\ above a k = above b k /\ levels a = levels b.
Proof.
  intros [Ed Es]. unfold above, shared, levels. rewrite Ed, Es. done.
Qed.

Lemma above_levels a k : above a k = true -> (levels a <= levels k)%nat.
Proof. unfold above. rewrite Nat.eqb_eq. pose proof (shared_levels a k). lia. Qed.

Lemma above_equal_levels a k : above a k = true -> levels a = levels k -> same_path a k.
Proof.
  intros [Ed [l El]]%above_spec Hl. split; [done|]. unfold levels in Hl. rewrite El, length_app in Hl.
  destruct l; [by rewrite El, app_nil_r|simpl in Hl; lia].
Qed.

Lemma shared_self k : shared k k = levels k.
Proof. apply Nat.le_antisymm; [apply shared_levels|]. apply shared_S. repeat split; lia. Qed.

Lemma stored_dht k : stored_ok k -> dht_ok (doc_ht_ k).
Proof. intros [[_ _ Ht] Hk _]. by rewrite Hk in Ht. Qed.

Lemma stored_rank_ok k : stored_ok k -> rank_ok (doc_ht_ k).
Proof. intros Hk. by apply dht_rank_ok, stored_dht. Qed.

(** A record above an earlier one is an older record of the same document. *)
Lemma above_later a k :
  stored_ok a -> stored_ok k -> above a k = true -> bytes_lt (stored_encoding k) (stored_encoding a) ->
  same_path a k /\ rank (doc_ht_ a) < rank (doc_ht_ k).
Proof.
  intros Ha Hk [Ed [l El]]%above_spec Hlt. pose proof (stored_dht a Ha) as Hta. pose proof (stored_dht k Hk) as Htk.
  unfold bytes_lt, stored_encoding, path_encoding in Hlt. rewrite El, Ed, subkeys_encoding_app, <- !app_assoc in Hlt.
  rewrite !bytes_compare_app_l in Hlt. destruct Ha as [_ Ta _], Hk as [_ Tk Sk]. unfold ht_encoding in Hlt. rewrite Ta, Tk in Hlt.
  destruct l as [|pv l].
  - rewrite app_nil_r in El. split; [by split|]. cbn in Hlt.
    destruct (decide (doc_ht_ k = doc_ht_ a)) as [E|Hne]; [rewrite E, bytes_compare_refl in Hlt; done|].
    rewrite <- (app_nil_r (EncodedInDocDbFormat (doc_ht_ k))), <- (app_nil_r (EncodedInDocDbFormat (doc_ht_ a))) in Hlt.
    rewrite dht_order_aux, dht_compare_rank in Hlt by eauto using dht_rank_ok.
    destruct (Z.compare_spec (rank (doc_ht_ k)) (rank (doc_ht_ a))); try done; lia.
  - exfalso. rewrite El in Sk. apply Forall_app in Sk as [_ [Hpv _]%Forall_cons].
    unfold subkeys_encoding in Hlt. cbn [fmap list_fmap concat] in Hlt. destruct (key_encoding_cons release pv) as [e Ee].
    rewrite Ee in Hlt. cbn [app bytes_compare] in Hlt.
    destruct (Z.compare_spec (ValueTypeAsChar (type_of pv)) (ValueTypeAsChar kHybridTime)); try done; lia.
Qed.

End geometry.

#[export] Instance same_path_dec : RelDecision same_path.
Proof. intros a k. unfold same_path. apply _. Defined.
