(* ===== verification/Compaction.v ===== *)
(** * What a compaction preserves

    The records of a compaction as keys and values, what a read at a time sees
    of them, and the theorem that [CompactionFilter.compact] keeps what reads
    at and after the history cutoff see. *)

From S2P Require Import Prelude KeyCodec FastVarInt DocKvUtil HybridTime DocHybridTime HybridClock MonoTime FastMem.
From S2P Require Import ValueType Intents KeyBytes Uuid PrimitiveValue VarInt Decimal PrimitiveValueKeys DocKey SubDocKey.
From S2P Require Import ValueEncoding Value CompactionFilter CompactionKeys.
Local Open Scope Z_scope.

(** ** The greatest time of a set of records *)

Definition max_rank (P : SubDocKey -> bool) (L : list SubDocKey) : Z :=
  foldr (λ e m, if P e then Z.max (rank (doc_ht_ e)) m else m) 0 L.

Lemma max_rank_nonneg P L : 0 <= max_rank P L.
Proof. induction L as [|e L IH]; cbn; [done|]. fold (max_rank P L). case_match; lia. Qed.

Lemma max_rank_app P L1 L2 : max_rank P (L1 ++ L2) = Z.max (max_rank P L1) (max_rank P L2).
Proof.
  induction L1 as [|e L IH]; cbn [app].
  - pose proof (max_rank_nonneg P L2). change (max_rank P []) with 0. lia.
  - cbn. fold (max_rank P (L ++ L2)) (max_rank P L). rewrite IH. case_match; lia.
Qed.

Lemma max_rank_ext P Q L : (∀ e, e ∈ L -> P e = Q e) -> max_rank P L = max_rank Q L.
Proof.
  induction L as [|e L IH]; [done|]. intros HPQ. cbn. fold (max_rank P L) (max_rank Q L).
  rewrite (HPQ e) by (by left). rewrite IH; [done|]. intros x Hx. apply HPQ. by right.
Qed.

Lemma max_rank_ge P L e : e ∈ L -> P e = true -> rank (doc_ht_ e) <= max_rank P L.
Proof.
  induction 1 as [e L|e x L Hin IH]; intros HP; cbn; fold (max_rank P L); [rewrite HP; lia|].
  specialize (IH HP). case_match; lia.
Qed.

Lemma max_rank_attained P L :
  max_rank P L = 0 \/ ∃ e, e ∈ L /\ P e = true /\ rank (doc_ht_ e) = max_rank P L.
Proof.
  induction L as [|e L IH]; [by left|]. cbn. fold (max_rank P L).
  assert ((∃ x, x ∈ L /\ P x = true /\ rank (doc_ht_ x) = max_rank P L) ->
    ∃ x, x ∈ e :: L /\ P x = true /\ rank (doc_ht_ x) = max_rank P L) as Hr
    by (intros (x & Hx & ?); exists x; split; [by right|done]).
  destruct (P e) eqn:HP; [|destruct IH; auto]. destruct (Z.max_spec (rank (doc_ht_ e)) (max_rank P L)) as [[? ->]|[? ->]].
  - destruct IH; auto.
  - right. exists e. split; [by left|done].
Qed.

Lemma max_rank_le P L m : 0 <= m -> (∀ e, e ∈ L -> P e = true -> rank (doc_ht_ e) <= m) -> max_rank P L <= m.
Proof. intros Hm Hle. destruct (max_rank_attained P L) as [->|(e & He & HP & <-)]; [done|]. by apply Hle. Qed.

Lemma max_rank_mono P Q L : (∀ e, e ∈ L -> P e = true -> Q e = true) -> max_rank P L <= max_rank Q L.
Proof. intros HPQ. apply max_rank_le; [apply max_rank_nonneg|]. intros e He HP. apply max_rank_ge; auto. Qed.

(** ** The stack of the filter *)

Definition top (overwrite : list OverwriteData) : OverwriteData :=
  default (mkOverwriteData kMinDocHybridTime no_Expiration) (last overwrite).

(** The stack made as long as the path above the key. *)
Definition prepare (num lv : nat) (overwrite : list OverwriteData) : list OverwriteData :=
  let overwrite := take num overwrite in
  let overwrite := if (length overwrite <? lv - 1)%nat then resize (lv - 1) (top overwrite) overwrite else overwrite in
  if (length overwrite =? lv)%nat then pop_back overwrite else overwrite.

Lemma last_replicate {A : Type} (x : A) n : (0 < n)%nat -> last (replicate n x) = Some x.
Proof. induction n as [|[|n] IH]; [lia|done|]. intros _. exact (IH ltac:(lia)). Qed.

Lemma prepare_spec num lv overwrite :
  (num <= lv)%nat -> (1 <= lv)%nat ->
  length (prepare num lv overwrite) = (lv - 1)%nat /\
  ∀ i, (i <= lv - 1)%nat -> top (take i (prepare num lv overwrite)) = top (take (Nat.min i num) overwrite).
Proof.
  intros Hn Hl. unfold prepare. set (o := take num overwrite).
  assert (length o <= lv)%nat as Ho by (unfold o; rewrite length_take; lia).
  destruct (Nat.ltb_spec (length o) (lv - 1)) as [Hlt|Hge].
  - unfold resize. rewrite (take_ge o) by lia. rewrite length_app, length_replicate, (proj2 (Nat.eqb_neq _ _)) by lia.
    split; [rewrite length_app, length_replicate; lia|]. intros i Hi.
    destruct (Nat.le_gt_cases i (length o)) as [Hio|Hio].
    + rewrite take_app_le by done. unfold o. by rewrite take_take, Nat.min_comm, Nat.min_comm.
    + rewrite take_app_ge by lia. rewrite take_replicate. unfold top at 1. rewrite last_app, last_replicate by lia.
      cbn [default from_option]. unfold id. f_equal. unfold o in *. rewrite length_take in Hio.
      destruct (Nat.le_gt_cases num i); [f_equal; lia|]. rewrite !take_ge by lia. done.
  - destruct (Nat.eqb_spec (length o) lv) as [E|Hne].
    + unfold pop_back. split; [rewrite length_take; lia|]. intros i Hi. rewrite take_take.
      replace (i `min` (length o - 1))%nat with i by lia. unfold o. by rewrite take_take.
    + split; [lia|]. intros i Hi. unfold o. by rewrite take_take.
Qed.

(** ** The filter on keys and values *)

Lemma EncodedTombstone_bytes release `{BoostUuid} : EncodedTombstone release = Done [ValueTypeAsChar kTombstone].
Proof. by destruct release. Qed.

Section compaction.
Context (release : bool) `{BoostUuid} {D V : Type} `{CD : ComparableNumber D} `{CV : ComparableNumber V}.
Context (retention_ : HistoryRetentionDirective) (is_major_compaction_ : bool).

Abbreviation key_enc := (stored_encoding release).
Abbreviation stored := (stored_ok (D := D) (V := V)).
Abbreviation cutoff := (history_cutoff retention_).

(** Values other than the merge records of a TTL. *)
Record stored_value_ok (v : Value) : Prop := {
  sv_control : control_ok v;
  sv_value : value_ok (D := D) (V := V) (primitive_value_ v);
  sv_bytes : ∃ e, ToValue release (primitive_value_ v) = Done e /\ bytes_ok e;
  sv_flags : merge_flags_ v = 0
}.

Definition scan_type (v : Value) : option ValueType := (scanned v).1.1.1.
Definition scan_ttl (v : Value) : MonoDelta.t := (scanned v).1.2.

Lemma stored_value_scan v vb :
  stored_value_ok v -> Value_Encode release v None = Done vb ->
  DecodePrimitiveValueType vb = Done (Ok (scanned v)) /\ IsMergeRecord vb = false.
Proof.
  intros [Hc Hv (e & He & Hb) Hf] E. destruct (ToValue_start (D := D) (V := V) release _ e Hv He) as [Hs Et].
  unfold Value_Encode in E. rewrite (EncodeAndAppend_external _ _ e), EncodeAndAppend_fields in E by done.
  injection E as <-. cbn [app]. split; [by apply DecodePrimitiveValueType_fields|].
  unfold flags_field. rewrite Hf. cbn [Z.eqb app]. pose proof (intent_other v e Hs) as Hn. unfold DecodeType in Hn.
  unfold IsMergeRecord. by case_bool_decide.
Qed.

(** The TTL of a value when that of the table is the default. *)
Definition effective_ttl (own : MonoDelta.t) : MonoDelta.t :=
  if own =? kMaxTtl then table_ttl retention_ else if u64 (own ÷ 1000000) =? 0 then kMaxTtl else own.

(** What is kept of the latest record of a document at the cutoff. *)
Definition keep_latest (k : SubDocKey) (v : Value) : option Value :=
  if expired (hybrid_time (doc_ht_ k)) (effective_ttl (scan_ttl v)) cutoff
  then if is_major_compaction_ then None else Some (Value_of (mkPV kTombstone no_val))
  else if bool_decide (scan_type v = Some kTombstone) && is_major_compaction_ then None else Some v.

(** One record: the path assigned last and the stack, and what is kept. *)
Definition step (k : SubDocKey) (v : Value) (s : option SubDocKey * list OverwriteData)
    : (option SubDocKey * list OverwriteData) * option Value :=
  let '(p, overwrite) := s in
  let num := shared_prev p k in
  let o := top (take num overwrite) in
  let ht := doc_ht_ k in
  if rank ht <? rank (od_doc_ht o) then ((p, take num overwrite), None)
  else
    let overwrite' := prepare num (levels k) overwrite in
    if cutoff <? hybrid_time ht then ((Some k, overwrite' ++ [o]), Some v)
    else if deleted_key retention_ k then ((p, overwrite'), None)
    else
      let expiration := if scan_ttl v =? kMaxTtl then no_Expiration else Expiration_of (hybrid_time ht) (scan_ttl v) in
      ((Some k, overwrite' ++ [mkOverwriteData (if rank (od_doc_ht o) <? rank ht then ht else od_doc_ht o) expiration]),
       keep_latest k v).

(** The filter in the state of [step]; [d] is the key it saw last. *)
Definition filter_state (s : option SubDocKey * list OverwriteData) (d : SubDocKey) : DocDBCompactionFilter :=
  mkDocDBCompactionFilter (prev_path release s.1) (ends_of release d) s.2 false.

Definition decision_of (r : option Value) : FilterDecision := match r with Some _ => kKeep | None => kDiscard end.

(** The value after the decision. *)
Definition encodes_result (vb : bytes) (new_value : option bytes) (r : option Value) : Prop :=
  match r with Some v => Value_Encode release v None = Done (default vb new_value) | None => True end.

Lemma scan_ttl_initialized v : stored_value_ok v -> scan_ttl v ≠ MonoDelta.kUninitialized.
Proof.
  intros [[_ _ Ht _] _ _ _]. unfold scan_ttl, scanned. destruct (is_valid _); cbn; [done|].
  destruct Ht as [->|(ms & Hms & ->)]; [done|]. unfold MonoDelta.kUninitialized. lia.
Qed.

Lemma own_ttl_kept own : own ≠ kMaxTtl -> effective_ttl own = own \/ effective_ttl own = kMaxTtl.
Proof. intros Hne. unfold effective_ttl. rewrite (proj2 (Z.eqb_neq _ _)) by done. case_match; auto. Qed.

Context (Httl : table_ttl retention_ ≠ MonoDelta.kUninitialized) (Hcutoff : ht_ok cutoff).

Lemma effective_initialized own : own ≠ MonoDelta.kUninitialized -> effective_ttl own ≠ MonoDelta.kUninitialized.
Proof using Httl. intros Ho. unfold effective_ttl. by repeat case_match. Qed.

Lemma filter_expired own ht :
  own ≠ MonoDelta.kUninitialized -> ht_ok ht ->
  let e := if own =? kMaxTtl then no_Expiration else Expiration_of ht own in
  let true_ttl := effective_ttl own in
  ComputeTTL release (ttl e) (table_ttl retention_) = Done true_ttl /\
  MonoDelta.Equals release true_ttl (ttl e) = Done (true_ttl =? own) /\
  HasExpiredTTL release (if true_ttl =? own then write_ht e else ht) true_ttl cutoff = Done (expired ht true_ttl cutoff).
Proof using Httl Hcutoff.
  intros Ho Hh e true_ttl. assert (ttl e = own) as Ee by (unfold e; destruct (Z.eqb_spec own kMaxTtl); done).
  pose proof (effective_initialized own Ho) as Hi. fold true_ttl in Hi. rewrite Ee, ComputeTTL_initialized by done.
  split; [done|]. split; [by rewrite Equals_initialized|].
  destruct (Z.eqb_spec true_ttl own) as [E|]; [|by apply HasExpiredTTL_expired].
  unfold e. destruct (Z.eqb_spec own kMaxTtl) as [->|]; [|by apply HasExpiredTTL_expired].
  rewrite E, HasExpiredTTL_expired by done. done.
Qed.

Lemma filter_old_step k v vb p ov ht popped :
  stored k -> stored_value_ok v -> Value_Encode release v None = Done vb -> S (length ov) = levels k ->
  rank_ok ht -> (∀ q, p = Some q -> stored q) ->
  let same := common_length (key_enc k) (prev_path release p) in
  let time := if rank ht <? rank (doc_ht_ k) then doc_ht_ k else ht in
  let e := if scan_ttl v =? kMaxTtl then no_Expiration else Expiration_of (hybrid_time (doc_ht_ k)) (scan_ttl v) in
  ∃ nv, filter_old release retention_ is_major_compaction_ (key_enc k) vb (ends_of release k) same (prev_path release p) ov
          (doc_ht_ k) ht no_Expiration popped false false =
        Done (Ok (filter_state (Some k, ov ++ [mkOverwriteData time e]) k, decision_of (keep_latest k v), nv)) /\
        encodes_result vb nv (keep_latest k v).
Proof using Httl Hcutoff.
  intros Hk Hv Hvb Hl Hht Hp same time e. pose proof (stored_rank_ok k Hk) as Hr. pose proof (stored_dht k Hk) as [Hh _].
  pose proof (scan_ttl_initialized v Hv) as Hi. destruct (stored_value_scan v vb Hv Hvb) as [Hscan _].
  unfold filter_old. cbn [negb]. rewrite CompareTo_rank by done. fold time. rewrite Hscan.
  unfold scan_ttl, scan_type in *. destruct (scanned v) as [[[ty fl] own] ts] eqn:Es. cbn [fst snd] in *. cbn [or_bind].
  unfold choose_expiration. cbn [write_ht no_Expiration Expiration_of ttl].
  rewrite (proj2 (Z.ltb_ge (hybrid_time (doc_ht_ k)) HybridTime.kMin)) by apply Hr. cbn [negb]. rewrite Equals_initialized by done.
  cbn [mbind outcome_bind]. rewrite orb_false_r.
  assert ((if negb (own =? kMaxTtl) then Expiration_of (hybrid_time (doc_ht_ k)) own else no_Expiration) = e) as ->
    by (unfold e; by destruct (own =? kMaxTtl)).
  rewrite length_app, length_ends_of. cbn [length]. rewrite (proj2 (Nat.eqb_eq _ _)) by lia. cbn [negb].
  rewrite last_ends_of. cbn [default from_option]. unfold id, same. rewrite (assign_path release p k Hk Hp). cbn [mbind outcome_bind].
  destruct (filter_expired own (hybrid_time (doc_ht_ k)) Hi Hh) as (E1 & E2 & E3). fold e in E1, E2, E3.
  rewrite E1. cbn [mbind outcome_bind]. rewrite E2. cbn [mbind outcome_bind]. rewrite E3. cbn [mbind outcome_bind].
  unfold keep_latest, scan_ttl, scan_type. rewrite Es. cbn [fst snd].
  destruct (expired _ _ _).
  - destruct is_major_compaction_; [by eexists|].
    exists (Some [ValueTypeAsChar kTombstone]). rewrite andb_false_r, EncodedTombstone_bytes.
    split; [done|apply EncodedTombstone_bytes].
  - destruct (bool_decide (ty = Some kTombstone) && is_major_compaction_); by eexists.
Qed.

(** The filter has assigned the path of [p] last, with the stack [ov]; its ends
    are those of a key between [p] and [k]. *)
Record tracks (f : DocDBCompactionFilter) (p : option SubDocKey) (ov : list OverwriteData) (k : SubDocKey) : Prop := {
  tr_prev : prev_subdoc_key_ f = prev_path release p;
  tr_overwrite : overwrite_ f = ov;
  tr_merge : within_merge_block_ f = false;
  tr_stored : ∀ q, p = Some q -> stored q;
  tr_shared : num_shared (sub_key_ends_ f) (common_length (key_enc k) (prev_path release p)) (length (sub_key_ends_ f)) =
              shared_prev p k;
  tr_ends : DecodeDocKeyAndSubKeyEnds (D := D) (V := V) (key_enc k) (take (shared_prev p k) (sub_key_ends_ f)) =
            Done (Ok (ends_of release k))
}.

Lemma tracks_new k : stored k -> tracks new_filter None [] k.
Proof. intros Hk. split; [done..|]. exact (decode_ends release k k 0 Hk ltac:(lia)). Qed.

Lemma tracks_state s d k :
  stored d -> stored k -> bytes_le (key_enc d) (key_enc k) ->
  (∀ q, s.1 = Some q -> stored q /\ bytes_le (key_enc q) (key_enc d)) -> tracks (filter_state s d) s.1 s.2 k.
Proof.
  intros Hd Hk Hle Hp. split; [done..|by intros q Hq; apply Hp|by apply (num_shared_components (D := D) (V := V) release)|].
  apply (decode_ends (D := D) (V := V) release); [done|]. destruct s as [[q|] ov]; cbn; [|lia]. destruct (Hp q eq_refl) as [Hq Hqd].
  rewrite (shared_between (D := D) (V := V) release q d k) by done. lia.
Qed.

Lemma top_overwrite l :
  match last l with Some o => od_doc_ht o | None => kMinDocHybridTime end = od_doc_ht (top l) /\
  match last l with Some o => od_expiration o | None => no_Expiration end = od_expiration (top l).
Proof. unfold top. by destruct (last l). Qed.

Lemma Filter_record_step k v vb p ov f :
  stored k -> stored_value_ok v -> Value_Encode release v None = Done vb -> tracks f p ov k ->
  let o := top (take (shared_prev p k) ov) in
  rank_ok (od_doc_ht o) -> (rank (od_doc_ht o) <= rank (doc_ht_ k) -> od_expiration o = no_Expiration) ->
  ∃ nv, Filter_record (D := D) (V := V) release retention_ is_major_compaction_ (key_enc k) vb f =
    Done (filter_state (step k v (p, ov)).1 k, decision_of (step k v (p, ov)).2, nv) /\
    encodes_result vb nv (step k v (p, ov)).2.
Proof using Httl Hcutoff.
  intros Hk Hv Hvb [Ep Eo Em Hp Es Ed] o Hro Hexp. destruct (stored_value_scan v vb Hv Hvb) as [_ Hm].
  pose proof (stored_rank_ok k Hk) as Hr. destruct (stored_bytes release k Hk) as [Hb _].
  assert (bytes_ok (prev_path release p)) as Hpb by (destruct p as [q|]; [exact (proj2 (stored_bytes release q (Hp q eq_refl)))|constructor]).
  unfold Filter_record, DoFilter. rewrite bool_decide_eq_false_2 by (by apply (not_obsolete (D := D) (V := V) release)). rewrite Ep, Eo, Em, Hm.
  rewrite MemoryDifferencePos_common, Es, Ed by done. cbn [or_bind].
  destruct (DecodeFromEnd_stored release k Hk) as [rest ->]. cbn [or_bind].
  destruct (top_overwrite (take (shared_prev p k) ov)) as [-> ->]. fold o. cbn [negb]. rewrite andb_true_r, CompareTo_rank by done.
  unfold step. fold o. destruct (Z.ltb_spec (rank (doc_ht_ k)) (rank (od_doc_ht o))) as [|Hge]; [by exists None|].
  rewrite Hexp, length_ends_of by done. rewrite Tauto.if_same.
  replace (mkOverwriteData (od_doc_ht o) no_Expiration) with o by (rewrite <- (Hexp Hge); by destruct o).
  rewrite last_ends_of. cbn [default from_option]. unfold id.
  destruct (Z.ltb_spec cutoff (hybrid_time (doc_ht_ k))).
  - rewrite (assign_path release p k Hk Hp). cbn [mbind outcome_bind]. by exists None.
  - rewrite (in_deleted_column_stored (D := D) (V := V) release) by done. cbn [or_bind]. destruct (deleted_key retention_ k); [by exists None|].
    match goal with |- context [filter_old _ _ _ _ _ _ _ _ ?l _ _ _ ?popped _ _] =>
      change l with (prepare (shared_prev p k) (levels k) ov); destruct (filter_old_step k v vb p (prepare (shared_prev p k) (levels k) ov) (od_doc_ht o) popped) as (nv & E & Hn)
    end; try done.
    { destruct (prepare_spec (shared_prev p k) (levels k) ov) as [-> _]; [|unfold levels; lia..].
      destruct p; cbn; [apply shared_levels|lia]. }
    exists nv. split; [|done]. rewrite E. done.
Qed.

(** ** What the stack holds *)

(** The records that overwrite others in this compaction. *)
Definition counted (k : SubDocKey) : bool := (hybrid_time (doc_ht_ k) <=? cutoff) && negb (deleted_key retention_ k).

(** The time of the last record for the first [i] levels above [k]. *)
Definition over (L : list SubDocKey) (i : nat) (k : SubDocKey) : Z :=
  max_rank (λ e, counted e && above e k && (levels e <=? i)%nat) L.

Lemma over_spec (e : SubDocKey) i k :
  counted e && above e k && (levels e <=? i)%nat = true <-> counted e = true /\ above e k = true /\ (levels e <= i)%nat.
Proof. rewrite !andb_true_iff, Nat.leb_le. tauto. Qed.

Lemma over_mono L i j k : (i <= j)%nat -> over L i k <= over L j k.
Proof. intros Hij. apply max_rank_mono. intros e _. rewrite !over_spec. intros (? & ? & ?). repeat split; (done || lia). Qed.

Lemma over_levels L i k : (levels k <= i)%nat -> over L i k = over L (levels k) k.
Proof.
  intros Hi. apply Z.le_antisymm; [|by apply over_mono]. apply max_rank_mono. intros e _. rewrite !over_spec.
  intros (? & Ha & ?). pose proof (above_levels e k Ha). repeat split; (done || lia).
Qed.

Definition sorted_before (L : list SubDocKey) (k : SubDocKey) : Prop :=
  ∀ e, e ∈ L -> stored e /\ bytes_le (key_enc e) (key_enc k).

(** Seen from a later key, the records are those of the last key up to what
    the two share. *)
Lemma over_later L i n k :
  sorted_before L n -> stored n -> stored k -> bytes_le (key_enc n) (key_enc k) ->
  over L i k = over L (Nat.min i (shared n k)) n.
Proof.
  intros HL Hn Hk Hnk. apply max_rank_ext. intros e He. destruct (HL e He) as [Oe Hen].
  pose proof (shared_between (D := D) (V := V) release e n k Oe Hn Hk Hen Hnk) as Es.
  apply eq_iff_eq_true. rewrite !over_spec. unfold above. rewrite !Nat.eqb_eq.
  pose proof (shared_levels e n). split; intros (? & ? & ?); repeat split; (done || lia).
Qed.

Lemma over_snoc L i n k :
  over (L ++ [n]) i k = Z.max (over L i k) (if counted n && above n k && (levels n <=? i)%nat then rank (doc_ht_ n) else 0).
Proof.
  unfold over at 1. rewrite max_rank_app. fold (over L i k). cbn. pose proof (max_rank_nonneg (λ e, counted e && above e k && (levels e <=? i)%nat) L) as Hp.
  fold (over L i k) in Hp. case_match; lia.
Qed.

(** An entry of the stack: the greatest time, and the TTL of a record with it. *)
Definition entry_ok (L : list (SubDocKey * Value)) (i : nat) (k : SubDocKey) (o : OverwriteData) : Prop :=
  rank_ok (od_doc_ht o) /\ rank (od_doc_ht o) = over L.*1 i k /\
  (od_expiration o = no_Expiration \/
   ∃ e v, (e, v) ∈ L /\ above e k = true /\ (levels e <= i)%nat /\ scan_ttl v ≠ kMaxTtl /\ rank (doc_ht_ e) = rank (od_doc_ht o)).

(** What holds before the key [k]. *)
Definition invariant (L : list (SubDocKey * Value)) (s : option SubDocKey * list OverwriteData) (k : SubDocKey) : Prop :=
  over L.*1 (levels k) k = over L.*1 (shared_prev s.1 k) k /\
  ∀ i, (i <= shared_prev s.1 k)%nat -> entry_ok L i k (top (take i s.2)).

Lemma invariant_new k : invariant [] (None, []) k.
Proof.
  split; [done|]. intros i Hi. cbn [snd]; rewrite take_nil. split; [by vm_compute|]. split; [done|by left].
Qed.

(** An entry seen from a later key. *)
Lemma entry_later L i n k o :
  sorted_before L.*1 n -> stored n -> stored k -> bytes_le (key_enc n) (key_enc k) -> (i <= shared n k)%nat ->
  entry_ok L i n o -> entry_ok L i k o.
Proof.
  intros HL Hn Hk Hnk Hi (Hr & Eo & Hx). split; [done|]. split.
  - rewrite (over_later L.*1 i n k), Nat.min_l by done. done.
  - destruct Hx as [?|(e & v & He & Ha & Hle & Ht & Er)]; [by left|]. right. exists e, v. split; [done|]. split; [|done].
    destruct (HL e) as [Oe Hen]; [by apply (list_elem_of_fmap_2 fst L (e, v))|]. unfold above in *. rewrite Nat.eqb_eq in *.
    rewrite (shared_between (D := D) (V := V) release e n k) by done. lia.
Qed.

(** A record that overwrites nothing above [k]. *)
Lemma entry_snoc L i n v k o :
  over (L.*1 ++ [n]) i k = over L.*1 i k -> entry_ok L i k o -> entry_ok (L ++ [(n, v)]) i k o.
Proof.
  intros E (Hr & Eo & Hx). unfold entry_ok. rewrite fmap_app. cbn [fmap list_fmap fst]. rewrite E. split; [done|].
  split; [done|]. destruct Hx as [?|(e & w & He & Hrest)]; [by left|]. right. exists e, w. rewrite elem_of_app. auto.
Qed.

Section step.
Context (L : list (SubDocKey * Value)) (p : option SubDocKey) (ov : list OverwriteData) (n k : SubDocKey) (v : Value).
Context (HL : sorted_before L.*1 n) (Hn : stored n) (Hk : stored k) (Hnk : bytes_le (key_enc n) (key_enc k)).
Context (Hp : ∀ q, p = Some q -> q ∈ L.*1) (HI : invariant L (p, ov) n).
Abbreviation num := (shared_prev p n).

Lemma shared_prev_later : shared_prev p k = Nat.min num (shared n k).
Proof using HL Hn Hk Hnk Hp.
  clear HI. destruct p as [q|]; [|done]. destruct (HL q) as [Oq Hqn]; [by apply Hp|].
  by apply (shared_between (D := D) (V := V) release).
Qed.

Lemma over_squeeze i : (num <= i)%nat -> over L.*1 i n = over L.*1 num n.
Proof using HI.
  destruct HI as [E _]. cbn [fst] in E. intros Hi. apply Z.le_antisymm; [|by apply over_mono].
  destruct (Nat.le_gt_cases (levels n) i); [by rewrite over_levels, E|]. rewrite <- E. apply over_mono. lia.
Qed.

Lemma entry_widen i : entry_ok L (Nat.min i num) n (top (take (Nat.min i num) ov)) -> entry_ok L i n (top (take (Nat.min i num) ov)).
Proof using HI.
  destruct (Nat.le_gt_cases i num) as [Hi|Hi]; [by rewrite Nat.min_l|]. rewrite Nat.min_r by lia.
  intros (Hr & Eo & Hx). split; [done|]. split; [rewrite over_squeeze by lia; done|].
  destruct Hx as [?|(e & w & ? & ? & ? & ?)]; [by left|]. right. exists e, w. repeat split; (done || lia || tauto).
Qed.

Lemma num_levels : (num <= levels n)%nat /\ (1 <= levels n)%nat.
Proof using. clear HI Hp. split; [destruct p; cbn; [apply shared_levels|lia]|unfold levels; lia]. Qed.

Lemma prepared_entry i :
  (i <= levels n - 1)%nat -> entry_ok L i n (top (take i (prepare num (levels n) ov))).
Proof using HI.
  intros Hi. pose proof num_levels as [Hnum Hl]. destruct (prepare_spec num (levels n) ov Hnum Hl) as [_ ->]; [|done].
  apply entry_widen, HI. cbn [fst]. lia.
Qed.

Lemma path_kept ov' :
  (∀ i, over (L.*1 ++ [n]) i k = over L.*1 i k) ->
  (∀ i, (i <= Nat.min num (shared n k))%nat -> entry_ok L i n (top (take i ov'))) ->
  invariant (L ++ [(n, v)]) (p, ov') k.
Proof using HL Hn Hk Hnk Hp HI.
  intros Eo He. unfold invariant. cbn [fst snd]. rewrite fmap_app, shared_prev_later. cbn [fmap list_fmap fst]. rewrite !Eo. split.
  - rewrite !(over_later L.*1 _ n k) by done. pose proof (shared_levels n k). rewrite Nat.min_r by lia.
    destruct (Nat.le_gt_cases (shared n k) num); [f_equal; lia|]. rewrite over_squeeze by lia. f_equal. lia.
  - intros i Hi. apply entry_snoc; [done|]. apply (entry_later L i n k); [done..|lia|]. by apply He.
Qed.

Lemma path_assigned ov' :
  (∀ i, (i <= shared n k)%nat -> entry_ok (L ++ [(n, v)]) i k (top (take i ov'))) ->
  invariant (L ++ [(n, v)]) (Some n, ov') k.
Proof using HL Hn Hk Hnk.
  intros He. split; [|done]. cbn [fst shared_prev]. rewrite fmap_app. cbn [fmap list_fmap fst]. rewrite !over_snoc.
  rewrite !(over_later L.*1 _ n k) by done. pose proof (shared_levels n k) as [H1 H2]. f_equal.
  - f_equal. lia.
  - unfold above. destruct (Nat.eqb_spec (shared n k) (levels n)) as [E|]; [|by rewrite andb_false_r].
    rewrite !(proj2 (Nat.leb_le _ _)) by lia. done.
Qed.

Lemma over_nonneg i (x : SubDocKey) : 0 <= over L.*1 i x.
Proof using. apply max_rank_nonneg. Qed.

Lemma over_not_counted i : counted n = false -> over (L.*1 ++ [n]) i k = over L.*1 i k.
Proof using. intros Hc. rewrite over_snoc, Hc. cbn [andb]. pose proof (over_nonneg i k). lia. Qed.

Lemma over_below i : (i < levels n)%nat -> over (L.*1 ++ [n]) i k = over L.*1 i k.
Proof using.
  intros Hi. rewrite over_snoc, (proj2 (Nat.leb_gt _ _)), andb_false_r by done. pose proof (over_nonneg i k). lia.
Qed.

Lemma entry_top : entry_ok L (levels n) n (top (take num ov)).
Proof using HI.
  pose proof num_levels as [Hnum _]. rewrite <- (Nat.min_r (levels n) num) by done. apply entry_widen, HI. cbn [fst]. lia.
Qed.

(** The record was overwritten. *)
Lemma step_overwritten :
  rank (doc_ht_ n) < rank (od_doc_ht (top (take num ov))) -> invariant (L ++ [(n, v)]) (p, take num ov) k.
Proof using HL Hn Hk Hnk Hp HI.
  intros Hlt. apply path_kept.
  - intros i. rewrite over_snoc. pose proof (over_nonneg i k).
    destruct (counted n && above n k && (levels n <=? i)%nat) eqn:E; [|lia].
    apply over_spec in E as (_ & Ha & Hi). unfold above in Ha. apply Nat.eqb_eq in Ha.
    rewrite (over_later L.*1 i n k), Ha, Nat.min_r by done. destruct entry_top as (_ & E & _). lia.
  - intros i Hi. rewrite take_take. replace (i `min` num)%nat with i by lia. apply HI. cbn [fst]. lia.
Qed.

(** The stack of a key that is assigned: an entry for the key itself on top of
    those above it. *)
Lemma step_assigned o :
  (∀ i, (i < levels n)%nat -> over (L.*1 ++ [n]) i k = over L.*1 i k) ->
  (shared n k = levels n -> entry_ok (L ++ [(n, v)]) (levels n) k o) ->
  invariant (L ++ [(n, v)]) (Some n, prepare num (levels n) ov ++ [o]) k.
Proof using HL Hn Hk Hnk HI.
  intros Hover Ho. pose proof num_levels as [Hnum Hl]. destruct (prepare_spec num (levels n) ov Hnum Hl) as [Hlen _].
  apply path_assigned. intros i Hi. pose proof (shared_levels n k) as [Hs _].
  destruct (Nat.lt_ge_cases i (levels n)) as [Hlt|Hge].
  - rewrite take_app_le by lia. apply entry_snoc; [auto|]. apply (entry_later L i n k); [done..|].
    apply prepared_entry. lia.
  - assert (i = levels n) as -> by lia. rewrite take_ge by (rewrite length_app; simpl; lia).
    unfold top. rewrite last_snoc. apply Ho. lia.
Qed.

(** The record is newer than the cutoff. *)
Lemma step_recent :
  cutoff < hybrid_time (doc_ht_ n) ->
  invariant (L ++ [(n, v)]) (Some n, prepare num (levels n) ov ++ [top (take num ov)]) k.
Proof using HL Hn Hk Hnk HI.
  intros Hlt. assert (counted n = false) as Hc by (unfold counted; by rewrite (proj2 (Z.leb_gt _ _))).
  apply step_assigned; [intros; by apply over_not_counted|]. intros Hs. apply entry_snoc; [by apply over_not_counted|].
  apply (entry_later L (levels n) n k); [done..|lia|]. apply entry_top.
Qed.

(** The column was deleted. *)
Lemma deleted_over : deleted_key retention_ n = true -> over L.*1 (levels n) n = over L.*1 (levels n - 1) n.
Proof using.
  intros Hd. apply max_rank_ext. intros e _. apply eq_iff_eq_true. rewrite !over_spec.
  split; intros (Hc & Ha & Hl); repeat split; try done; try lia.
  destruct (decide (levels e = levels n)) as [E|]; [exfalso|lia]. destruct (above_equal_levels e n Ha E) as [_ Es].
  unfold counted, deleted_key in *. rewrite Es, Hd in Hc. by rewrite andb_false_r in Hc.
Qed.

Lemma step_deleted :
  deleted_key retention_ n = true -> invariant (L ++ [(n, v)]) (p, prepare num (levels n) ov) k.
Proof using HL Hn Hk Hnk Hp HI.
  intros Hd. apply path_kept.
  - intros i. apply over_not_counted. unfold counted. by rewrite Hd, andb_false_r.
  - intros i Hi. pose proof num_levels as [Hnum Hl]. destruct (prepare_spec num (levels n) ov Hnum Hl) as [Hlen _].
    destruct (Nat.lt_ge_cases i (levels n)) as [Hlt|Hge]; [apply prepared_entry; lia|].
    assert (i = levels n) as -> by lia. pose proof (prepared_entry (levels n - 1) ltac:(lia)) as (Hr & Eo & Hx).
    rewrite !take_ge in * by lia. split; [done|]. split; [by rewrite deleted_over|].
    destruct Hx as [?|(e & w & ? & ? & ? & ?)]; [by left|]. right. exists e, w. repeat split; (done || lia || tauto).
Qed.

(** The record overwrites what is below it. *)
Lemma step_counted :
  counted n = true -> rank (od_doc_ht (top (take num ov))) <= rank (doc_ht_ n) ->
  let o := top (take num ov) in
  invariant (L ++ [(n, v)]) (Some n, prepare num (levels n) ov ++
    [mkOverwriteData (if rank (od_doc_ht o) <? rank (doc_ht_ n) then doc_ht_ n else od_doc_ht o)
      (if scan_ttl v =? kMaxTtl then no_Expiration else Expiration_of (hybrid_time (doc_ht_ n)) (scan_ttl v))]) k.
Proof using HL Hn Hk Hnk HI.
  intros Hc Hle o. apply step_assigned; [apply over_below|]. intros Hs.
  destruct entry_top as (Hro & Eo & _). fold o in Hro, Eo. pose proof (stored_rank_ok n Hn) as Hrn.
  assert (rank (if rank (od_doc_ht o) <? rank (doc_ht_ n) then doc_ht_ n else od_doc_ht o) = rank (doc_ht_ n)) as Er.
  { destruct (Z.ltb_spec (rank (od_doc_ht o)) (rank (doc_ht_ n))); [done|]. unfold o in *. lia. }
  split; [cbn [od_doc_ht]; by case_match|]. cbn [od_doc_ht od_expiration].
  assert (above n k = true) as Ha by (unfold above; by apply Nat.eqb_eq). split.
  - rewrite Er, fmap_app. cbn [fmap list_fmap fst]. rewrite over_snoc, Hc, Ha, Nat.leb_refl. cbn [andb].
    rewrite (over_later L.*1 _ n k), Hs, Nat.min_id, <- Eo by done. unfold o in *. lia.
  - destruct (Z.eqb_spec (scan_ttl v) kMaxTtl); [by left|]. right. exists n, v. rewrite elem_of_app, list_elem_of_singleton.
    repeat split; auto.
Qed.

Lemma invariant_step : invariant (L ++ [(n, v)]) (step n v (p, ov)).1 k.
Proof using HL Hn Hk Hnk Hp HI.
  unfold step. destruct (Z.ltb_spec (rank (doc_ht_ n)) (rank (od_doc_ht (top (take num ov))))); [by apply step_overwritten|].
  destruct (Z.ltb_spec cutoff (hybrid_time (doc_ht_ n))); [by apply step_recent|].
  destruct (deleted_key retention_ n) eqn:Hd; [by apply step_deleted|].
  apply step_counted; [|done]. unfold counted. rewrite Hd, (proj2 (Z.leb_le _ _)) by done. done.
Qed.

End step.

(** ** The records of a compaction *)

(** Records sorted by their keys; only leaves have a TTL of their own. *)
Record records_ok (R : list (SubDocKey * Value)) : Prop := {
  ro_stored : Forall (λ r, stored r.1 /\ stored_value_ok r.2) R;
  ro_sorted : StronglySorted (λ a b, bytes_lt (key_enc a.1) (key_enc b.1)) R;
  ro_leaves : ∀ r r', r ∈ R -> r' ∈ R -> ttl_ r.2 ≠ kMaxTtl -> above r.1 r'.1 = true -> same_path r.1 r'.1
}.

(** A record in RocksDB. *)
Definition encodes (r : SubDocKey * Value) (kv : bytes * bytes) : Prop :=
  kv.1 = key_enc r.1 /\ Value_Encode release r.2 None = Done kv.2.

(** What is kept of a record of [R]. *)
Definition keep (R : list SubDocKey) (k : SubDocKey) (v : Value) : option Value :=
  if cutoff <? hybrid_time (doc_ht_ k) then Some v
  else if deleted_key retention_ k then None
  else if rank (doc_ht_ k) <? over R (levels k) k then None
  else keep_latest k v.

Definition compacted (R part : list (SubDocKey * Value)) : list (SubDocKey * Value) :=
  omap (λ r, pair r.1 <$> keep R.*1 r.1 r.2) part.

Lemma sorted_split L n v rest :
  records_ok (L ++ (n, v) :: rest) ->
  stored n /\ stored_value_ok v /\ (∀ e, e ∈ L.*1 -> stored e /\ bytes_lt (key_enc e) (key_enc n)) /\
  (∀ e, e ∈ rest.*1 -> stored e /\ bytes_lt (key_enc n) (key_enc e)).
Proof.
  intros [Ho Hs _]. apply Forall_app in Ho as [HoL [[Hn Hv] Hor]%Forall_cons].
  apply StronglySorted_app in Hs as (Hc & _ & [_ Hs]%StronglySorted_inv). rewrite !Forall_forall in *.
  split; [done|]. split; [done|]. split; intros e ([x w] & -> & Hin)%list_elem_of_fmap.
  - split; [by apply (HoL (x, w))|]. by apply (Hc (x, w) (n, v)); [|left].
  - split; [by apply (Hor (x, w))|]. by apply (Hs (x, w)).
Qed.

(** The later records do not count for one that counts itself. *)
Lemma over_whole L n v rest :
  records_ok (L ++ (n, v) :: rest) -> counted n = true ->
  over (L ++ (n, v) :: rest).*1 (levels n) n = Z.max (over L.*1 (levels n) n) (rank (doc_ht_ n)).
Proof.
  intros HR Hc. destruct (sorted_split L n v rest HR) as (Hn & _ & _ & Hrest). unfold over at 1. rewrite fmap_app, max_rank_app.
  fold (over L.*1 (levels n) n). f_equal. apply Z.le_antisymm.
  - apply max_rank_le; [exact (rank_nonneg _ (stored_rank_ok n Hn))|]. cbn [fmap list_fmap fst].
    intros e [->|He]%elem_of_cons (_ & Ha & _)%over_spec; [done|]. destruct (Hrest e He) as [Oe Hlt].
    destruct (above_later release e n Oe Hn Ha Hlt) as [_ ?]. lia.
  - apply max_rank_ge; [by left|]. apply over_spec. split; [done|]. split; [|done]. unfold above. rewrite shared_self. apply Nat.eqb_refl.
Qed.

(** What the filter decides from the records it has seen is what the whole
    compaction decides. *)
Lemma step_keep L n v rest p ov :
  records_ok (L ++ (n, v) :: rest) -> invariant L (p, ov) n ->
  (step n v (p, ov)).2 = keep (L ++ (n, v) :: rest).*1 n v.
Proof.
  intros HR HI. destruct (sorted_split L n v rest HR) as (Hn & _ & HL & _). pose proof (stored_rank_ok n Hn) as Hr.
  destruct HI as [E HI]. destruct (HI _ (Nat.le_refl _)) as (Hro & Eo & _). cbn [fst snd] in *. rewrite <- E in Eo.
  unfold step, keep. set (o := top _) in *. destruct (Z.ltb_spec cutoff (hybrid_time (doc_ht_ n))) as [Hgt|Hle].
  - rewrite (proj2 (Z.ltb_ge (rank (doc_ht_ n)) _)); [done|]. rewrite Eo. apply max_rank_le; [by apply rank_nonneg|].
    intros e He ((Hce & _)%andb_true_iff & _)%over_spec. apply Z.leb_le in Hce. destruct (HL e He) as [Oe _].
    apply Z.lt_le_incl, Z.nle_gt. intros Hc%rank_time; [lia|done|exact (stored_rank_ok e Oe)].
  - destruct (deleted_key retention_ n) eqn:Hd; [by case_match|].
    assert (counted n = true) as Hc by (unfold counted; rewrite Hd, (proj2 (Z.leb_le _ _)) by done; done).
    rewrite over_whole by done. rewrite Eo.
    destruct (Z.ltb_spec (rank (doc_ht_ n)) (over L.*1 (levels n) n)).
    + rewrite (proj2 (Z.ltb_lt (rank (doc_ht_ n)) _)) by lia. done.
    + rewrite (proj2 (Z.ltb_ge (rank (doc_ht_ n)) _)) by lia. done.
Qed.

(** A TTL on the stack never reaches a record that is not overwritten. *)
Lemma no_inherited_ttl L n v rest p ov :
  records_ok (L ++ (n, v) :: rest) -> invariant L (p, ov) n ->
  let o := top (take (shared_prev p n) ov) in
  rank (od_doc_ht o) <= rank (doc_ht_ n) -> od_expiration o = no_Expiration.
Proof.
  intros HR [_ HI] o Hle. destruct (HI _ (Nat.le_refl _)) as (_ & _ & Hx). cbn [fst snd] in Hx. fold o in Hx.
  destruct Hx as [?|(e & w & He & Ha & _ & Ht & Er)]; [done|exfalso].
  destruct (sorted_split L n v rest HR) as (Hn & _ & HL & _). destruct (HL e) as [Oe Hlt]; [by apply (list_elem_of_fmap_2 fst L (e, w))|].
  assert (ttl_ w ≠ kMaxTtl) as Htw by (unfold scan_ttl, scanned in Ht; by destruct (is_valid _)).
  destruct (ro_leaves _ HR (e, w) (n, v)) as [Ed Es]; [apply elem_of_app; by left|apply elem_of_app; right; by left|done..|].
  assert (above n e = true) as Ha' by (apply above_spec; cbn in *; rewrite Ed, Es; done).
  destruct (above_later release n e Hn Oe Ha' Hlt) as [_ ?]. lia.
Qed.

Lemma step_path n v p ov : (step n v (p, ov)).1.1 = Some n \/ (step n v (p, ov)).1.1 = p.
Proof. unfold step. repeat case_match; auto. Qed.

(** The state after a record serves every later key. *)
Lemma state_after L n v rest p ov k :
  records_ok (L ++ (n, v) :: rest) -> (∀ q, p = Some q -> q ∈ L.*1) -> invariant L (p, ov) n ->
  stored k -> sorted_before (L ++ [(n, v)]).*1 k ->
  let s := (step n v (p, ov)).1 in tracks (filter_state s n) s.1 s.2 k /\ invariant (L ++ [(n, v)]) s k.
Proof.
  intros HR Hp HI Hk Hs s. destruct (sorted_split L n v rest HR) as (Hn & _ & HL & _).
  assert (sorted_before L.*1 n) as HLn by (intros e He; destruct (HL e He) as [? ?%bytes_lt_le]; tauto).
  destruct (Hs n) as [_ Hnk]; [rewrite fmap_app; apply elem_of_app; right; by left|]. split; [|by apply invariant_step].
  apply tracks_state; [done..|]. intros q Hq. unfold s in Hq. destruct (step_path n v p ov) as [E|E]; rewrite E in Hq.
  - injection Hq as <-. split; [done|]. unfold bytes_le. by rewrite bytes_compare_refl.
  - apply HLn. by apply Hp.
Qed.

Lemma compact_from rest records : Forall2 encodes rest records -> ∀ L p ov f,
  records_ok (L ++ rest) -> (∀ q, p = Some q -> q ∈ L.*1) ->
  (∀ n, stored n -> sorted_before L.*1 n -> tracks f p ov n /\ invariant L (p, ov) n) ->
  ∃ out, compact (D := D) (V := V) release retention_ is_major_compaction_ records f = Done out /\
    Forall2 encodes (compacted (L ++ rest) rest) out.
Proof using Httl Hcutoff.
  induction 1 as [|[n v] [kb vb] rest records [Ek Ev] Henc IH]; intros L p ov f HR Hp Hs; [by exists []|].
  cbn [fst snd] in Ek, Ev. subst kb. destruct (sorted_split L n v rest HR) as (Hn & Hv & HL & _).
  assert (sorted_before L.*1 n) as HLn by (intros e He; destruct (HL e He) as [? ?%bytes_lt_le]; tauto).
  destruct (Hs n Hn HLn) as [Ht HI]. pose proof (no_inherited_ttl L n v rest p ov HR HI) as Hx.
  destruct (Filter_record_step n v vb p ov f Hn Hv Ev Ht) as (nv & Ef & Hnv); [apply (proj2 HI); cbn; lia|done|].
  cbn [compact]. rewrite Ef. cbn [mbind outcome_bind]. rewrite (step_keep L n v rest p ov HR HI) in *.
  pose proof (λ k, state_after L n v rest p ov k HR Hp HI) as Hafter. pose proof (step_path n v p ov) as Hpath.
  destruct (step n v (p, ov)).1 as [p' ov']. cbn [fst snd] in Hafter, Hpath.
  destruct (IH (L ++ [(n, v)]) p' ov' (filter_state (p', ov') n)) as (out & -> & Hout).
  - by rewrite <- app_assoc.
  - intros q Hq. rewrite fmap_app, elem_of_app. destruct Hpath as [E|E]; rewrite E in Hq; [|left; by apply Hp].
    injection Hq as <-. right. by left.
  - intros k Hk Hsk. by apply Hafter.
  - cbn [mbind outcome_bind]. rewrite <- app_assoc in Hout. cbn [app] in Hout.
    unfold compacted at 1. cbn [omap list_omap fst snd]. fold (compacted (L ++ (n, v) :: rest) rest).
    unfold encodes_result in Hnv. destruct (keep _ n v) as [v'|]; cbn [fmap option_fmap option_map decision_of].
    + eexists. split; [done|]. constructor; [by split|done].
    + eexists. split; [done|]. done.
Qed.

(** ** Reads *)

(** The value is a tombstone or has expired at the time. *)
Definition dead_at (t : HybridTime) (k : SubDocKey) (v : Value) : bool :=
  bool_decide (type_of (primitive_value_ v) = kTombstone) || expired (hybrid_time (doc_ht_ k)) (effective_ttl (ttl_ v)) t.

(** The time of the last write, at or before [t], of the document at [k] or of
    one it is part of. *)
Definition last_write (R : list SubDocKey) (t : HybridTime) (k : SubDocKey) : Z :=
  max_rank (λ e, (hybrid_time (doc_ht_ e) <=? t) && above e k) R.

(** The value of [k] at the time [t]: that of its last record, unless a
    document above it was written later, or the value is dead. *)
Definition read (R : list (SubDocKey * Value)) (t : HybridTime) (k : SubDocKey) : option Value :=
  '(_, r) ← list_find (λ r, same_path r.1 k /\ hybrid_time (doc_ht_ r.1) <= t /\ rank (doc_ht_ r.1) = last_write R.*1 t k) R;
  if dead_at t r.1 r.2 then None else Some r.2.

(** The scan of a value only misses the TTL of a transaction's value, and that
    does not matter when the table has none. *)
Definition transactional_ttl_ok (v : Value) : Prop :=
  is_valid (hybrid_time (intent_doc_ht_ v)) = true -> ttl_ v = kMaxTtl \/ table_ttl retention_ = kMaxTtl.

(** The record is the last write of its document as a read at [t] sees it. *)
Definition is_last (R : list (SubDocKey * Value)) (t : HybridTime) (k : SubDocKey) (r : SubDocKey * Value) : Prop :=
  r ∈ R /\ same_path r.1 k /\ hybrid_time (doc_ht_ r.1) <= t /\ rank (doc_ht_ r.1) = last_write R.*1 t k.

Lemma read_none R t k : (∀ r, ¬ is_last R t k r) -> read R t k = None.
Proof.
  intros Hn. unfold read. destruct (list_find _ R) as [[i r]|] eqn:E; [|done].
  apply list_find_Some in E as (Hi & (? & ? & ?) & _). destruct (Hn r). split; [|done]. by eapply list_elem_of_lookup_2.
Qed.

Lemma read_last R t k r :
  (∀ r', is_last R t k r' -> r' = r) -> is_last R t k r -> read R t k = if dead_at t r.1 r.2 then None else Some r.2.
Proof.
  intros Hu (Hin & Hr). unfold read. destruct (list_find _ R) as [[i r']|] eqn:E.
  - apply list_find_Some in E as (Hi & (? & ? & ?) & _). cbn. rewrite (Hu r'); [done|]. split; [by eapply list_elem_of_lookup_2|done].
  - apply list_find_None in E. rewrite Forall_forall in E. by destruct (E r Hin).
Qed.

Lemma rank_inj a b : rank_ok a -> rank_ok b -> rank a = rank b -> a = b.
Proof.
  intros [_ Ha] [_ Hb] E. destruct a as [h w], b as [h' w']. unfold rank, is_u in *. cbn in *. f_equal; lia.
Qed.

Lemma elem_of_compacted R part k v' :
  (k, v') ∈ compacted R part <-> ∃ v, (k, v) ∈ part /\ keep R.*1 k v = Some v'.
Proof.
  unfold compacted. rewrite list_elem_of_omap. split.
  - intros ([k1 v] & Hin & E). cbn in E. destruct (keep _ k1 v) as [w|] eqn:Ek; [|done]. injection E as -> ->. by exists v.
  - intros (v & Hin & E). exists (k, v). split; [done|]. cbn. by rewrite E.
Qed.

Lemma compacted_keys R part e : e ∈ (compacted R part).*1 -> e ∈ part.*1.
Proof.
  intros ([k w] & -> & (v & Hin & _)%elem_of_compacted)%list_elem_of_fmap. by apply (list_elem_of_fmap_2 fst part (k, v)).
Qed.

Lemma deleted_above e k : above e k = true -> deleted_key retention_ k = false -> deleted_key retention_ e = false.
Proof. intros [_ [l El]]%above_spec. unfold deleted_key. rewrite El. by destruct (subkeys_ e). Qed.

(** The records of the compaction are [R]; [O] are those elsewhere, in the
    memtable and in files that are not compacted. *)
Section reads.
Context (O R : list (SubDocKey * Value)) (t : HybridTime) (k : SubDocKey).
Context (HR : records_ok R) (Htxn : ∀ r, r ∈ R -> transactional_ttl_ok r.2).
Context (HO : Forall (λ r, stored r.1) O) (Hkeys : NoDup (O ++ R).*1).
Context (Hlater : is_major_compaction_ = true -> ∀ o r, o ∈ O -> r ∈ R -> above r.1 o.1 = true -> rank (doc_ht_ r.1) <= rank (doc_ht_ o.1)).
Context (Ht : ht_ok t) (Hct : cutoff <= t) (Hdel : deleted_key retention_ k = false).

Abbreviation before := (O ++ R).
Abbreviation after := (O ++ compacted R R).

Lemma record_stored r : r ∈ R -> stored r.1 /\ stored_value_ok r.2.
Proof using HR. intros Hr. pose proof (ro_stored _ HR) as Ho. rewrite Forall_forall in Ho. by apply Ho. Qed.

Lemma key_stored r : r ∈ before -> stored r.1.
Proof using HR HO. intros [Hr|Hr]%elem_of_app; [rewrite Forall_forall in HO; by apply HO|by apply record_stored]. Qed.

Lemma same_key r r' : r ∈ before -> r' ∈ before -> r.1 = r'.1 -> r = r'.
Proof using Hkeys.
  intros (i & Hi)%list_elem_of_lookup_1 (j & Hj)%list_elem_of_lookup_1 E.
  assert (i = j) as ->; [|congruence]. apply (NoDup_lookup before.*1 i j r.1 Hkeys); [by rewrite list_lookup_fmap, Hi|].
  by rewrite E, list_lookup_fmap, Hj.
Qed.

Lemma after_key e : e ∈ after.*1 -> e ∈ before.*1.
Proof using. rewrite !fmap_app, !elem_of_app. intros [?|?%compacted_keys]; auto. Qed.

Lemma last_write_after : last_write after.*1 t k <= last_write before.*1 t k.
Proof using.
  apply max_rank_le; [apply max_rank_nonneg|]. intros e He HP. apply max_rank_ge; [by apply after_key|done].
Qed.

Lemma written e : e ∈ before.*1 -> hybrid_time (doc_ht_ e) <= t -> above e k = true -> rank (doc_ht_ e) <= last_write before.*1 t k.
Proof using. intros He Hle Ha. apply max_rank_ge; [done|]. by rewrite Ha, (proj2 (Z.leb_le _ _)). Qed.

(** A record above [k] that a minor compaction drops is overwritten by another
    one of the compaction. *)
Lemma dropped_overwritten e v :
  (e, v) ∈ R -> above e k = true -> is_major_compaction_ = false -> keep R.*1 e v = None ->
  rank (doc_ht_ e) < last_write before.*1 t k.
Proof using HR Hct Hdel.
  intros Hin Ha Hm. destruct (record_stored _ Hin) as [Oe _]. unfold keep. destruct (_ <? _); [done|]. rewrite (deleted_above e k) by done.
  destruct (Z.ltb_spec (rank (doc_ht_ e)) (over R.*1 (levels e) e)) as [Hlt|]; [|unfold keep_latest; rewrite Hm, andb_false_r; by destruct (expired _ _ _)].
  intros _. pose proof (rank_nonneg _ (stored_rank_ok e Oe)) as Hpos.
  destruct (max_rank_attained (λ x, counted x && above x e && (levels x <=? levels e)%nat) R.*1) as [E0|(x & Hx & (Hcx & Hax & _)%over_spec & E0)];
    fold (over R.*1 (levels e) e) in E0; [lia|].
  enough (rank (doc_ht_ x) <= last_write before.*1 t k) by lia. apply andb_true_iff in Hcx as [Hcx%Z.leb_le _].
  apply written; [rewrite fmap_app; apply elem_of_app; by right|lia|]. apply above_spec in Ha as [Ed [l El]], Hax as [Ed' [l' El']].
  apply above_spec. split; [congruence|]. exists (l' ++ l). by rewrite El, El', app_assoc.
Qed.

(** A record that a compaction drops leaves no older one of its path, or of one
    above which it is, to be read. *)
Lemma dropped_hides e1 v1 e w :
  (e1, v1) ∈ R -> keep R.*1 e1 v1 = None -> above e1 k = true -> (e, w) ∈ after -> same_path e k ->
  rank (doc_ht_ e) < rank (doc_ht_ e1) -> rank (doc_ht_ e1) < last_write before.*1 t k.
Proof using HR Hct Hdel Hlater.
  intros Hin Ek1 Ha1 Hin' Hsp Hlt. destruct (above_same e k e1 Hsp) as (Ha & _ & _). rewrite Ha1 in Ha.
  apply elem_of_app in Hin' as [Ho|(v & Hv & Ek)%elem_of_compacted].
  - destruct is_major_compaction_ eqn:Em; [|by apply (dropped_overwritten e1 v1)]. specialize (Hlater eq_refl (e, w) (e1, v1) Ho Hin Ha). cbn in Hlater. lia.
  - exfalso. destruct (record_stored _ Hv) as [Oe _], (record_stored _ Hin) as [Oe1 _].
    assert (hybrid_time (doc_ht_ e1) <= cutoff) as Hc1 by (unfold keep in Ek1; destruct (Z.ltb_spec cutoff (hybrid_time (doc_ht_ e1))); [done|lia]).
    assert (counted e1 = true) as Hcnt by (unfold counted; rewrite (proj2 (Z.leb_le _ _)), (deleted_above e1 k) by done; done).
    assert (hybrid_time (doc_ht_ e) <= hybrid_time (doc_ht_ e1)) as Htt.
    { apply rank_time; [exact (stored_rank_ok e Oe)|exact (stored_rank_ok e1 Oe1)|lia]. }
    assert (rank (doc_ht_ e1) <= over R.*1 (levels e) e) as Hover.
    { apply max_rank_ge; [by apply (list_elem_of_fmap_2 fst R (e1, v1))|]. apply over_spec. split; [done|]. split; [done|]. by apply above_levels. }
    unfold keep in Ek. rewrite (proj2 (Z.ltb_ge cutoff _)), (proj2 (Z.ltb_lt (rank _) _)) in Ek by lia. by destruct (deleted_key _ e).
Qed.

(** Of the records that are left, the last is the last of all. *)
Lemma last_kept e w : is_last after t k (e, w) -> rank (doc_ht_ e) = last_write before.*1 t k.
Proof using HR HO Hct Hdel Hlater.
  intros (Hin & Hsp & Hle & Er). cbn [fst snd] in *. pose proof last_write_after as Hc.
  destruct (Z.eq_dec (rank (doc_ht_ e)) (last_write before.*1 t k)) as [|Hne]; [done|exfalso].
  assert (stored e) as Oe.
  { assert (e ∈ before.*1) as ([x y] & -> & Hx)%list_elem_of_fmap by (by apply after_key, (list_elem_of_fmap_2 fst _ (e, w))). exact (key_stored _ Hx). }
  pose proof (rank_nonneg _ (stored_rank_ok e Oe)) as Hpos.
  destruct (max_rank_attained (λ e, (hybrid_time (doc_ht_ e) <=? t) && above e k) before.*1) as [E0|(e0 & He0 & [Ht0 Ha0]%andb_true_iff & E0)];
    fold (last_write before.*1 t k) in E0; [lia|].
  assert (e0 ∉ after.*1) as Hn.
  { intros He0'. assert (rank (doc_ht_ e0) <= last_write after.*1 t k); [|lia]. apply max_rank_ge; [done|]. by rewrite Ht0, Ha0. }
  apply list_elem_of_fmap in He0 as ([e1 w0] & -> & [Hin0|Hin0]%elem_of_app); cbn [fst] in *.
  { apply Hn. rewrite fmap_app. apply elem_of_app. left. by apply (list_elem_of_fmap_2 fst _ (e1, w0)). }
  destruct (keep R.*1 e1 w0) as [w'|] eqn:Ek0.
  - apply Hn. rewrite fmap_app. apply elem_of_app. right. apply (list_elem_of_fmap_2 fst _ (e1, w')), elem_of_compacted. by exists w0.
  - pose proof (dropped_hides e1 w0 e w Hin0 Ek0 Ha0 Hin Hsp). lia.
Qed.

Lemma scan_expired e v :
  (e, v) ∈ R -> expired (hybrid_time (doc_ht_ e)) (effective_ttl (scan_ttl v)) cutoff = true -> dead_at t e v = true.
Proof using HR Htxn Ht Hct Hcutoff.
  intros Hin Hx. destruct (record_stored _ Hin) as [Oe _]. destruct (stored_dht e Oe) as [Hh _].
  apply orb_true_iff. right. apply (expired_monotone _ _ cutoff t) in Hx; [|done..].
  pose proof (Htxn _ Hin) as Htx. unfold transactional_ttl_ok in Htx. unfold scan_ttl, scanned in Hx. cbn [fst snd] in *.
  destruct (is_valid _); [|done]. cbn [fst snd] in Hx. destruct (Htx eq_refl) as [->|E]; [done|].
  unfold effective_ttl in Hx. rewrite Z.eqb_refl, E in Hx. done.
Qed.

(** A record that is kept keeps its value or is dead with either. *)
Lemma keep_value e v v' :
  (e, v) ∈ R -> keep R.*1 e v = Some v' -> v' = v \/ dead_at t e v = true /\ dead_at t e v' = true.
Proof using HR Htxn Ht Hct Hcutoff.
  clear Hlater. intros Hin. unfold keep, keep_latest. pose proof (scan_expired e v Hin) as Hx. repeat case_match; intros [= <-]; auto.
Qed.

(** The last record is only dropped when it is dead. *)
Lemma last_dropped e v : is_last before t k (e, v) -> (e, v) ∈ R -> keep R.*1 e v = None -> dead_at t e v = true.
Proof using HR Htxn Ht Hct Hcutoff Hdel.
  intros (_ & Hsp & Hle & Er) Hin. cbn [fst] in *. pose proof (scan_expired e v Hin) as Hx. unfold keep.
  destruct (above_same e k k Hsp) as (_ & Hak & _). destruct (Z.ltb_spec cutoff (hybrid_time (doc_ht_ e))); [done|].
  assert (above e k = true) as Ha by (rewrite Hak; unfold above; rewrite shared_self; apply Nat.eqb_refl).
  rewrite (deleted_above e k) by done. rewrite (proj2 (Z.ltb_ge (rank _) _)).
  - unfold keep_latest. destruct (expired _ _ cutoff); [auto|]. case_bool_decide as Hs; [|done]. intros _.
    apply orb_true_iff. left. apply bool_decide_eq_true_2. unfold scan_type, scanned in Hs. destruct (is_valid _); [done|].
    cbn in Hs. by injection Hs.
  - rewrite Er. apply max_rank_le; [apply max_rank_nonneg|]. intros x Hxin ((Hcx & _)%andb_true_iff & Hax & _)%over_spec. apply Z.leb_le in Hcx.
    apply written; [rewrite fmap_app; apply elem_of_app; by right|lia|]. destruct (above_same e k x Hsp) as (Hx' & _ & _). by rewrite <- Hx'.
Qed.

Lemma is_last_unique r r' : is_last before t k r -> is_last before t k r' -> r = r'.
Proof using HR HO Hkeys.
  intros (Hr & [Ed Es] & _ & E) (Hr' & [Ed' Es'] & _ & E'). apply same_key; [done..|]. rewrite <- E' in E.
  apply rank_inj in E; [|exact (stored_rank_ok _ (key_stored _ Hr))|exact (stored_rank_ok _ (key_stored _ Hr'))].
  destruct r as [[? ? ?] ?], r' as [[? ? ?] ?]. cbn in *. congruence.
Qed.

(** What is left of a record: itself elsewhere, and what the compaction keeps. *)
Definition left_of (r r' : SubDocKey * Value) : Prop :=
  r ∈ O /\ r' = r \/ r ∈ R /\ r'.1 = r.1 /\ keep R.*1 r.1 r.2 = Some r'.2.

Lemma left_in r r' : left_of r r' -> r ∈ before /\ r' ∈ after /\ r'.1 = r.1.
Proof using.
  intros [[Hr ->]|(Hr & E & Ek)]; [split; [|split; [|done]]; apply elem_of_app; by left|].
  split; [apply elem_of_app; by right|]. split; [|done]. apply elem_of_app. right. destruct r as [e v], r' as [e' v']. cbn in *. subst e'.
  apply elem_of_compacted. by exists v.
Qed.

Lemma left_unique r r1 r2 : left_of r r1 -> left_of r r2 -> r1 = r2.
Proof using Hkeys.
  assert (r ∈ O -> r ∈ R -> False) as Hno.
  { intros Ho Hr. rewrite fmap_app in Hkeys. apply NoDup_app in Hkeys as (_ & Hd & _). by apply (Hd r.1); apply list_elem_of_fmap_2. }
  intros [[H1 ->]|(H1 & E1 & K1)] [[H2 ->]|(H2 & E2 & K2)]; [done|by destruct Hno|by destruct Hno|].
  destruct r1, r2. cbn in *. congruence.
Qed.

(** A last record of those that are left is what is left of the last record. *)
Lemma last_of_after r' : is_last after t k r' -> ∃ r, is_last before t k r /\ left_of r r'.
Proof using HR HO Hct Hdel Hlater.
  destruct r' as [e v']. intros Hl. pose proof (last_kept e v' Hl) as E. destruct Hl as (Hin & Hsp & Hle & _).
  assert (∃ r, left_of r (e, v')) as [r Hr].
  { apply elem_of_app in Hin as [Ho|(v & Hv & Ek)%elem_of_compacted]; [exists (e, v'); by left|]. exists (e, v). by right. }
  exists r. split; [|done]. destruct (left_in _ _ Hr) as (Hb & _ & Ee). cbn [fst] in *. split; [done|]. by rewrite <- Ee.
Qed.

Lemma last_left r r' : is_last before t k r -> left_of r r' -> is_last after t k r'.
Proof using.
  intros (_ & Hsp & Hle & Er) Hl. destruct (left_in _ _ Hl) as (_ & Hin & E). split; [done|]. rewrite E. split; [done|]. split; [done|].
  apply Z.le_antisymm; [|rewrite Er; apply last_write_after].
  apply max_rank_ge; [rewrite <- E; by apply list_elem_of_fmap_2|]. destruct (above_same r.1 k k Hsp) as (_ & -> & _).
  unfold above. rewrite shared_self, Nat.eqb_refl, (proj2 (Z.leb_le _ _)) by done. done.
Qed.

Lemma last_or_none (X : list (SubDocKey * Value)) : (∃ r, is_last X t k r) \/ ∀ r, ¬ is_last X t k r.
Proof using.
  destruct (list_find (λ r, same_path r.1 k /\ hybrid_time (doc_ht_ r.1) <= t /\ rank (doc_ht_ r.1) = last_write X.*1 t k) X)
    as [[i r]|] eqn:E.
  - apply list_find_Some in E as (Hi & Hr & _). left. exists r. split; [by eapply list_elem_of_lookup_2|done].
  - apply list_find_None in E. rewrite Forall_forall in E. right. intros r (Hr & Hl). by apply (E r Hr).
Qed.

(** What a read makes of what is left. *)
Lemma left_read r r' :
  left_of r r' -> (if dead_at t r'.1 r'.2 then None else Some r'.2) = if dead_at t r.1 r.2 then None else Some r.2.
Proof using HR Htxn Ht Hct Hcutoff.
  intros [[_ ->]|(Hr & E & Ek)]; [done|]. destruct r as [e v], r' as [e' v']. cbn [fst snd] in *. subst e'.
  by destruct (keep_value e v v' Hr Ek) as [->|[-> ->]].
Qed.

Lemma read_compacted : read after t k = read before t k.
Proof using HR HO Hkeys Hlater Htxn Ht Hct Hdel Hcutoff.
  destruct (last_or_none before) as [[r Hl]|Hno].
  2: { rewrite (read_none before) by done. apply read_none. intros r' (r & Hr & _)%last_of_after. by apply (Hno r). }
  rewrite (read_last before t k r) by eauto using is_last_unique. destruct (last_or_none after) as [[r' Hl']|Hno'].
  - destruct (last_of_after r' Hl') as (r0 & Hl0 & Hleft). rewrite (is_last_unique _ _ Hl0 Hl) in Hleft.
    rewrite (read_last after t k r'); [by apply left_read| |done]. intros r2 (r1 & Hl1 & Hleft1)%last_of_after.
    rewrite (is_last_unique _ _ Hl1 Hl) in Hleft1. by apply (left_unique r).
  - rewrite (read_none after) by done. assert (r ∈ R /\ keep R.*1 r.1 r.2 = None) as [Hr Ek].
    { destruct Hl as (Hin & Hl). pose proof Hin as [Ho|Hr]%elem_of_app; [destruct (Hno' r); apply (last_left r); [by split|by left]|].
      split; [done|]. destruct (keep R.*1 r.1 r.2) as [v'|] eqn:Ek; [|done]. destruct (Hno' (r.1, v')). apply (last_left r); [by split|by right]. }
    destruct r as [e v]. cbn [fst snd] in *. by rewrite (last_dropped e v).
Qed.

End reads.

End compaction.

(** ** Properties *)

(** C22: a compaction of sorted records, none of them a merge record of a TTL and
    only the leaves of a document with a TTL of their own, never fails. It keeps
    exactly the records written after the history cutoff and, of the others,
    those of no deleted column that are the last write of their document or of
    one above it; a value that has expired at the cutoff becomes a tombstone,
    and a major compaction drops it and the tombstones. *)
Theorem compaction_keeps_last_writes `{BoostUuid} {D V : Type} `{CD : ComparableNumber D} `{CV : ComparableNumber V}
    release retention major R records :
  table_ttl retention ≠ MonoDelta.kUninitialized -> ht_ok (history_cutoff retention) ->
  records_ok (D := D) (V := V) release R -> Forall2 (encodes release) R records ->
  ∃ out, compact (D := D) (V := V) release retention major records new_filter = Done out /\
    Forall2 (encodes release) (compacted retention major R R) out.
Proof.
  intros Httl Hcut HR Henc.
  apply (compact_from (D := D) (V := V) release retention major Httl Hcut R records Henc [] None [] new_filter); [done..|].
  intros n Hn _. split; [by apply tracks_new|apply invariant_new].
Qed.

(** C7: no read at or after the history cutoff, of a document whose column was
    not deleted, sees a difference between the records before and after a
    compaction, read together with any records that are elsewhere: for a minor
    compaction whenever these were written, for a major one when no record of
    the compaction is later than one of them that it overwrites. No key is
    written twice, no record is a merge record of a TTL, only leaves of a
    document have a TTL of their own, and when the table has a TTL the values
    written by transactions have none. *)
Theorem compaction_preserves_reads `{BoostUuid} {D V : Type} `{CD : ComparableNumber D} `{CV : ComparableNumber V}
    release retention major R records :
  table_ttl retention ≠ MonoDelta.kUninitialized -> ht_ok (history_cutoff retention) ->
  records_ok (D := D) (V := V) release R -> (∀ r, r ∈ R -> transactional_ttl_ok retention r.2) ->
  Forall2 (encodes release) R records ->
  ∃ out kept, compact (D := D) (V := V) release retention major records new_filter = Done out /\
    Forall2 (encodes release) kept out /\
    ∀ elsewhere, Forall (λ r, stored_ok (D := D) (V := V) r.1) elsewhere -> NoDup (elsewhere ++ R).*1 ->
      (major = true -> ∀ o r, o ∈ elsewhere -> r ∈ R -> above r.1 o.1 = true -> rank (doc_ht_ r.1) <= rank (doc_ht_ o.1)) ->
    ∀ t k, ht_ok t -> history_cutoff retention <= t -> deleted_key retention k = false ->
      read retention (elsewhere ++ kept) t k = read retention (elsewhere ++ R) t k.
Proof.
  intros Httl Hcut HR Htxn Henc.
  destruct (compact_from (D := D) (V := V) release retention major Httl Hcut R records Henc [] None [] new_filter)
    as (out & Hc & Hout); [done..| |].
  - intros n Hn _. split; [by apply tracks_new|apply invariant_new].
  - exists out, (compacted retention major R R). split; [done|]. split; [done|]. intros O HO Hk Hl t k Ht Hle Hd.
    by apply (read_compacted (D := D) (V := V) release).
Qed.

(** A row deleted at time 2, and one of its columns written before and after. *)
Definition sample_row : DocKey := DocKey_range [pv_Int64 5 kAscending].
Definition sample_column (time : Z) : SubDocKey :=
  mkSubDocKey sample_row (mkDocHybridTime (time * 4096) 0) [pv_ColumnId 11].
Definition plain_value (pv : PrimitiveValue) : Value := mkValue pv kMaxTtl kInvalidUserTimestamp 0 invalid_doc_ht.
Definition sample_value : Value := plain_value (pv_Int32 7 kAscending).
Definition sample_records : list (SubDocKey * Value) :=
  [(mkSubDocKey sample_row (mkDocHybridTime (2 * 4096) 0) [], plain_value (mkPV kTombstone no_val));
   (sample_column 3, sample_value); (sample_column 1, sample_value)].
Definition sample_encoded : list (bytes * bytes) :=
  zip (stored_encoding true ∘ fst <$> sample_records) [[88]; [72; 0; 0; 0; 7]; [72; 0; 0; 0; 7]].
Definition sample_retention : HistoryRetentionDirective := mkHistoryRetentionDirective (2 * 4096) ∅ kMaxTtl.

Lemma sample_encodes : Forall2 (encodes true) sample_records sample_encoded.
Proof. repeat constructor. Qed.

Lemma sample_value_ok pv e :
  value_ok (D := Z) (V := Z) pv -> ToValue true pv = Done e -> bytes_ok e ->
  stored_value_ok (D := Z) (V := Z) true (plain_value pv).
Proof. intros Hv He Hb. split; [|done|by exists e|done]. split; [by vm_compute..|by left|by vm_compute]. Qed.

Lemma sample_stored subkeys time :
  time ∈ [1; 2; 3] -> Forall (λ pv, pv = pv_ColumnId 11) subkeys ->
  stored_ok (D := Z) (V := Z) (mkSubDocKey sample_row (mkDocHybridTime (time * 4096) 0) subkeys).
Proof.
  intros Ht Hs. assert (dht_ok (mkDocHybridTime (time * 4096) 0) /\ is_valid (time * 4096) = true) as [Hd Hv].
  { apply list_elem_of_In in Ht as [<-|[<-|[<-|[]]]]; repeat split; by vm_compute. }
  split; [split| |].
  - split; [|done|constructor| |].
    + split; [done|]. repeat constructor; by vm_compute.
    + repeat constructor; by vm_compute.
    + intros _ pv [= <-]. done.
  - eapply Forall_impl; [exact Hs|]. intros pv ->. split; [constructor; by vm_compute|done].
  - unfold has_hybrid_time. cbn [doc_ht_ hybrid_time]. by rewrite Hv.
  - done.
  - eapply Forall_impl; [exact Hs|]. by intros pv ->.
Qed.

Lemma sample_records_ok : records_ok (D := Z) (V := Z) true sample_records.
Proof.
  split.
  - assert (stored_value_ok (D := Z) (V := Z) true sample_value) as Hv.
    { apply (sample_value_ok _ [72; 0; 0; 0; 7]); [done|done|repeat constructor; done]. }
    assert (∀ t, t ∈ [1; 2; 3] -> stored_ok (D := Z) (V := Z) (sample_column t)) as Hc
      by (intros t Ht; apply sample_stored; [done|by repeat constructor]).
    constructor; [split; [apply (sample_stored [] 2)|apply (sample_value_ok _ [88])]|constructor; [|constructor; [|done]]].
    + by right; left.
    + done.
    + done.
    + done.
    + repeat constructor; done.
    + split; [apply Hc; by right; right; left|done].
    + split; [apply Hc; by left|done].
  - repeat constructor.
  - intros r r' Hr _ Ht. exfalso. apply Ht. unfold sample_records in Hr.
    apply list_elem_of_In in Hr as [<-|[<-|[<-|[]]]]; done.
Qed.

Lemma compaction_keeps_last_writes_witness :
  ∃ out, compact (D := Z) (V := Z) true sample_retention true sample_encoded new_filter = Done out /\
    Forall2 (encodes true) (compacted sample_retention true sample_records sample_records) out.
Proof.
  apply (compaction_keeps_last_writes (D := Z) (V := Z) true sample_retention true sample_records sample_encoded);
    [done|by split|apply sample_records_ok|apply sample_encodes].
Defined.

(** A column of the row written before the row was deleted, in another file. *)
Definition elsewhere_sample : list (SubDocKey * Value) :=
  [(mkSubDocKey sample_row (mkDocHybridTime (1 * 4096) 0) [pv_ColumnId 11; pv_ColumnId 11], sample_value)].

(** A minor compaction keeps the tombstone that hides it. *)
Lemma compaction_preserves_reads_witness :
  ∃ out kept, compact (D := Z) (V := Z) true sample_retention false sample_encoded new_filter = Done out /\
    Forall2 (encodes true) kept out /\
    ∀ t k, ht_ok t -> history_cutoff sample_retention <= t -> deleted_key sample_retention k = false ->
      read sample_retention (elsewhere_sample ++ kept) t k = read sample_retention (elsewhere_sample ++ sample_records) t k.
Proof.
  destruct (compaction_preserves_reads (D := Z) (V := Z) true sample_retention false sample_records sample_encoded)
    as (out & kept & Hc & Hk & Hr); [done|by split|apply sample_records_ok| |apply sample_encodes|].
  - intros r _ _. by right.
  - exists out, kept. split; [exact Hc|]. split; [exact Hk|]. apply Hr; [| |done].
    + apply Forall_singleton. apply sample_stored; [by left|by repeat constructor].
    + apply (NoDup_fmap_1 (λ k, (length (subkeys_ k), hybrid_time (doc_ht_ k)))), (bool_decide_unpack _). vm_compute. exact I.
Defined.

(** ** Where the hypotheses fail *)

Definition seconds (n : Z) : HybridTime := n * 1000000 * 4096.

(** Written at one second by a transaction, to live for an hour, in a table
    whose default is a second. *)
Definition transactional_column : SubDocKey * Value :=
  (mkSubDocKey sample_row (mkDocHybridTime (seconds 1) 0) [pv_ColumnId 11],
   mkValue (pv_Int32 7 kAscending) (3600000 * 1000000) kInvalidUserTimestamp 0 (mkDocHybridTime 4096 0)).
Definition one_second_table : HistoryRetentionDirective :=
  mkHistoryRetentionDirective (seconds 10) ∅ (1000 * 1000000).

(** A compaction at ten seconds drops it, though reads see it for an hour. *)
Lemma transactional_value_dropped :
  ∃ vb, Value_Encode true transactional_column.2 None = Done vb /\
    read one_second_table [transactional_column] (seconds 10) transactional_column.1 = Some transactional_column.2 /\
    compact (D := Z) (V := Z) true one_second_table true [(stored_encoding true transactional_column.1, vb)] new_filter = Done [].
Proof. eexists. split; [by vm_compute|]. split; by vm_compute. Qed.

(** A row written at one second to live for ten, and a column written in it at
    sixteen seconds without a TTL of its own. *)
Definition expiring_row : list (SubDocKey * Value) :=
  [(mkSubDocKey sample_row (mkDocHybridTime (seconds 1) 0) [],
    mkValue (mkPV kObject no_val) (10000 * 1000000) kInvalidUserTimestamp 0 invalid_doc_ht);
   (mkSubDocKey sample_row (mkDocHybridTime (seconds 16) 0) [pv_ColumnId 11], sample_value)].

(** A compaction with its cutoff at fifteen seconds drops the row with its TTL
    and keeps the column, which then has none. *)
Lemma inherited_ttl_dropped :
  ∃ row column, Forall2 (encodes true) expiring_row [row; column] /\
    compact (D := Z) (V := Z) true (mkHistoryRetentionDirective (seconds 15) ∅ kMaxTtl) true [row; column] new_filter = Done [column].
Proof.
  eexists (_, _), (_, _). split; [repeat (constructor; [split; [reflexivity|by vm_compute]|]); constructor|]. by vm_compute.
Qed.
