(* ===== verification/Quorum.v ===== *)
(** * Raft configurations and quorums ([src/yb/consensus/quorum_util.h],
    [quorum_util.cc], [opid_util.cc], [metadata.proto])

    The peers of a tablet, their roles, the size of a majority, and why any
    two majorities have a peer in common, also across the removal of a peer. *)

From S2P Require Import Prelude MonoTime.
Local Open Scope Z_scope.

(** ** The messages *)

Abbreviation uuid := string.

Record HostPortPB : Type := mkHostPortPB { host : string; port : Z }.

#[export] Instance HostPortPB_eq_dec : EqDecision HostPortPB.
Proof. solve_decision. Defined.

Inductive Role : Type := FOLLOWER | LEADER | LEARNER | NON_PARTICIPANT | READ_REPLICA | UNKNOWN_ROLE.

#[export] Instance Role_eq_dec : EqDecision Role.
Proof. solve_decision. Defined.

Inductive MemberType : Type := UNKNOWN_MEMBER_TYPE | PRE_VOTER | VOTER | PRE_OBSERVER | OBSERVER.

#[export] Instance MemberType_eq_dec : EqDecision MemberType.
Proof. solve_decision. Defined.

(** Optional fields are options; an accessor gives the default when a field is
    not set. *)
Record RaftPeerPB : Type := mkRaftPeerPB {
  opt_permanent_uuid : option uuid;
  opt_member_type : option MemberType;
  last_known_private_addr : list HostPortPB;
  last_known_broadcast_addr : list HostPortPB
}.

#[export] Instance RaftPeerPB_eq_dec : EqDecision RaftPeerPB.
Proof. solve_decision. Defined.

Definition permanent_uuid (p : RaftPeerPB) : uuid := default EmptyString (opt_permanent_uuid p).
Definition member_type (p : RaftPeerPB) : MemberType := default UNKNOWN_MEMBER_TYPE (opt_member_type p).

Record RaftConfigPB : Type := mkRaftConfigPB {
  opid_index : option Z;
  peers : list RaftPeerPB
}.

Record ConsensusStatePB : Type := mkConsensusStatePB {
  cstate_current_term : option Z;
  cstate_leader_uuid : option uuid;
  cstate_config : option RaftConfigPB
}.

Definition leader_uuid_of (cstate : ConsensusStatePB) : uuid := default EmptyString (cstate_leader_uuid cstate).
Definition config_of (cstate : ConsensusStatePB) : RaftConfigPB := default (mkRaftConfigPB None []) (cstate_config cstate).

Record ChangeConfigRequestPB : Type := mkChangeConfigRequestPB {
  server : RaftPeerPB;
  use_host : bool
}.

Inductive RaftConfigState : Type := UNCOMMITTED_QUORUM | COMMITTED_QUORUM.

Record OpId : Type := mkOpId { term : Z; index : Z }.

#[export] Instance OpId_eq_dec : EqDecision OpId.
Proof. solve_decision. Defined.

(** ** Operation ids *)

Definition OpIdCompare (first second : OpId) : Z :=
  if term first =? term second
  then if index first <? index second then -1 else if index first =? index second then 0 else 1
  else if term first <? term second then -1 else 1.

Definition OpIdEquals (left right : OpId) : bool := (term left =? term right) && (index left =? index right).

Definition OpIdLessThan (left right : OpId) : bool :=
  if term left <? term right then true
  else if term right <? term left then false
  else index left <? index right.

Definition OpIdBiggerThan (left right : OpId) : bool :=
  if term right <? term left then true
  else if term left <? term right then false
  else index right <? index left.

Definition MinimumOpId : OpId := mkOpId 0 0.
Definition MaximumOpId : OpId := mkOpId kMaxInt64 kMaxInt64.

(** ** Configurations *)

Definition find_peer (u : uuid) (config : RaftConfigPB) : option RaftPeerPB :=
  snd <$> list_find (λ p, permanent_uuid p = u) (peers config).

Definition IsRaftConfigMember (u : uuid) (config : RaftConfigPB) : bool := bool_decide (is_Some (find_peer u config)).

Definition IsRaftConfigVoter (u : uuid) (config : RaftConfigPB) : bool :=
  match find_peer u config with Some p => bool_decide (member_type p = VOTER) | None => false end.

Definition GetRaftConfigMember (config : RaftConfigPB) (u : uuid) : Result RaftPeerPB :=
  match find_peer u config with Some p => Ok p | None => Error NotFound end.

Definition GetRaftConfigLeader (cstate : ConsensusStatePB) : Result RaftPeerPB :=
  if bool_decide (leader_uuid_of cstate = EmptyString) then Error NotFound
  else GetRaftConfigMember (config_of cstate) (leader_uuid_of cstate).

Definition HasHostPortPB (l : list HostPortPB) (hp : HostPortPB) : bool := bool_decide (hp ∈ l).

(** The peers that are not removed, and whether any was. *)
Definition removal_matches (req : ChangeConfigRequestPB) (hp : option HostPortPB) (peer : RaftPeerPB) : bool :=
  match hp with
  | Some hp => HasHostPortPB (last_known_private_addr peer) hp || HasHostPortPB (last_known_broadcast_addr peer) hp
  | None => bool_decide (permanent_uuid peer = permanent_uuid (server req))
  end.

(** [None] when nothing is removed. *)
Definition RemoveFromRaftConfig (config : RaftConfigPB) (req : ChangeConfigRequestPB) : option RaftConfigPB :=
  let remove hp :=
    if existsb (removal_matches req hp) (peers config)
    then Some (mkRaftConfigPB (opid_index config) (List.filter (λ p, negb (removal_matches req hp p)) (peers config)))
    else None in
  if use_host req then
    match last_known_private_addr (server req) with [hp] => remove (Some hp) | _ => None end
  else remove None.

Definition CountMemberType (config : RaftConfigPB) (mt : MemberType) (ignore_uuid : uuid) : Z :=
  Z.of_nat (length (List.filter (λ p, bool_decide (member_type p = mt) && negb (bool_decide (permanent_uuid p = ignore_uuid)))
    (peers config))).

Definition CountVoters (config : RaftConfigPB) : Z := CountMemberType config VOTER EmptyString.
Definition CountVotersInTransition (config : RaftConfigPB) : Z := CountMemberType config PRE_VOTER EmptyString.
Definition CountServersInTransition (config : RaftConfigPB) (ignore_uuid : uuid) : Z :=
  CountMemberType config PRE_VOTER ignore_uuid + CountMemberType config PRE_OBSERVER ignore_uuid.

Definition MajoritySize (release : bool) (num_voters : Z) : Outcome Z :=
  _ ← DCHECK release (1 <=? num_voters);
  Done (num_voters ÷ 2 + 1).

Definition GetConsensusMemberType (u : uuid) (cstate : ConsensusStatePB) : MemberType :=
  match find_peer u (config_of cstate) with Some p => member_type p | None => UNKNOWN_MEMBER_TYPE end.

Definition role_of_member (t : MemberType) : Role :=
  match t with
  | VOTER => FOLLOWER
  | PRE_VOTER | PRE_OBSERVER => LEARNER
  | OBSERVER => READ_REPLICA
  | UNKNOWN_MEMBER_TYPE => UNKNOWN_ROLE
  end.

Definition GetConsensusRole (u : uuid) (cstate : ConsensusStatePB) : Role :=
  if bool_decide (leader_uuid_of cstate = u)
  then if IsRaftConfigVoter u (config_of cstate) then LEADER else NON_PARTICIPANT
  else match find_peer u (config_of cstate) with Some p => role_of_member (member_type p) | None => NON_PARTICIPANT end.

(** The loop over the peers, with the uuids seen so far. *)
Fixpoint verify_peers (num_peers : nat) (uuids : gset uuid) (l : list RaftPeerPB) : Result unit :=
  match l with
  | [] => Ok tt
  | peer :: rest =>
      if bool_decide (opt_permanent_uuid peer = None) || bool_decide (permanent_uuid peer = EmptyString) then Error IllegalState
      else if bool_decide (permanent_uuid peer ∈ uuids) then Error IllegalState
      else if (1 <? num_peers)%nat && bool_decide (last_known_private_addr peer = []) then Error IllegalState
      else if bool_decide (opt_member_type peer = None) then Error IllegalState
      else verify_peers num_peers ({[permanent_uuid peer]} ∪ uuids) rest
  end.

Definition VerifyRaftConfig (config : RaftConfigPB) (type : RaftConfigState) : Result unit :=
  if bool_decide (peers config = []) then Error IllegalState
  else if match type with
          | COMMITTED_QUORUM => bool_decide (opid_index config = None)
          | UNCOMMITTED_QUORUM => negb (bool_decide (opid_index config = None))
          end then Error IllegalState
  else verify_peers (length (peers config)) ∅ (peers config).

Definition VerifyConsensusState (cstate : ConsensusStatePB) (type : RaftConfigState) : Result unit :=
  if bool_decide (cstate_current_term cstate = None) then Error IllegalState
  else if bool_decide (cstate_config cstate = None) then Error IllegalState
  else
    _ ← VerifyRaftConfig (config_of cstate) type;
    if negb (bool_decide (leader_uuid_of cstate = EmptyString)) &&
       negb (IsRaftConfigVoter (leader_uuid_of cstate) (config_of cstate))
    then Error IllegalState else Ok tt.

(** ** Lemmas *)

(** What [VerifyRaftConfig] checks of the peers. *)
Definition peer_ok (num_peers : nat) (p : RaftPeerPB) : Prop :=
  is_Some (opt_permanent_uuid p) /\ permanent_uuid p ≠ EmptyString /\
  ((1 < num_peers)%nat -> last_known_private_addr p ≠ []) /\ is_Some (opt_member_type p).

Record config_ok (config : RaftConfigPB) : Prop := {
  cfg_peers : peers config ≠ [];
  cfg_each : Forall (peer_ok (length (peers config))) (peers config);
  cfg_distinct : NoDup (permanent_uuid <$> peers config)
}.

Lemma verify_peers_ok n uuids l :
  verify_peers n uuids l = Ok tt <->
  Forall (peer_ok n) l /\ NoDup (permanent_uuid <$> l) /\ (∀ p, p ∈ l -> permanent_uuid p ∉ uuids).
Proof.
  revert uuids. induction l as [|p l IH]; intros uuids; cbn [verify_peers fmap list_fmap].
  { split; [intros _|done]. split; [constructor|]. split; [constructor|]. intros p Hp. by apply elem_of_nil in Hp. }
  rewrite Forall_cons, NoDup_cons. unfold peer_ok at 1.
  destruct (opt_permanent_uuid p) as [u|] eqn:Eu; [|split; [done|by intros ((([? ?] & _) & _) & _)]].
  rewrite (bool_decide_eq_false_2 (Some u = None)) by done. cbn [orb].
  case_bool_decide as He; [split; [done|by intros (((_ & ? & _) & _) & _)]|].
  case_bool_decide as Hin; [split; [done|intros (_ & _ & Hn); by destruct (Hn p ltac:(by left))]|].
  destruct (opt_member_type p) as [t|] eqn:Et.
  - rewrite (bool_decide_eq_false_2 (Some t = None)) by done.
    destruct (Nat.ltb_spec 1 n) as [Hn|Hn]; cbn [andb].
    + case_bool_decide as Ha; [split; [done|intros (((_ & _ & Hc & _) & _) & _); by destruct (Hc Hn)]|].
      rewrite IH. set_solver.
    + rewrite IH. split.
      * intros (? & ? & Hd). repeat split; try done; try lia; set_solver.
      * intros (? & ? & Hd). set_solver.
  - rewrite (bool_decide_eq_true_2 (None = None)) by done.
    split; [by destruct (_ && _)|]. intros (((_ & _ & _ & [? ?]) & _) & _). done.
Qed.

Lemma VerifyRaftConfig_ok config type :
  VerifyRaftConfig config type = Ok tt <->
  config_ok config /\ match type with COMMITTED_QUORUM => is_Some (opid_index config) | UNCOMMITTED_QUORUM => opid_index config = None end.
Proof.
  unfold VerifyRaftConfig. case_bool_decide as Hp; [split; [done|by intros [[? _ _] _]]|].
  assert (verify_peers (length (peers config)) ∅ (peers config) = Ok tt <-> config_ok config) as Hv.
  { rewrite verify_peers_ok. split; [intros (? & ? & _); by split|intros [_ ? ?]; set_solver]. }
  destruct type, (opid_index config) as [i|]; cbn [negb]; rewrite ?(bool_decide_eq_true_2 (None = None)) by done;
    rewrite ?bool_decide_eq_false_2 by done; cbn [negb]; rewrite ?Hv; split; try done; try (by intros [_ [? ?]]); try (by intros [_ ?]);
    try (intros; split; [done|by eexists]); by intros [? _].
Qed.

(** The uuids of the voters. *)
Definition voters (config : RaftConfigPB) : list uuid :=
  permanent_uuid <$> List.filter (λ p, bool_decide (member_type p = VOTER)) (peers config).

Lemma elem_of_List_filter {A : Type} (f : A -> bool) l x : x ∈ List.filter f l <-> x ∈ l /\ f x = true.
Proof. rewrite !list_elem_of_In. apply filter_In. Qed.

Lemma CountVoters_voters config : config_ok config -> CountVoters config = Z.of_nat (length (voters config)).
Proof.
  intros [_ He _]. unfold CountVoters, CountMemberType, voters. rewrite length_fmap. do 2 f_equal.
  apply filter_ext_in. intros p Hp. rewrite Forall_forall in He. destruct (He p ltac:(by apply list_elem_of_In)) as (_ & Hu & _).
  rewrite (bool_decide_eq_false_2 (permanent_uuid p = EmptyString)) by done. apply andb_true_r.
Qed.

Lemma NoDup_map_filter {A B : Type} (g : A -> B) (f : A -> bool) l : NoDup (g <$> l) -> NoDup (g <$> List.filter f l).
Proof.
  induction l as [|x l IH]; [done|]. cbn [fmap list_fmap List.filter]. intros [Hx Hl]%NoDup_cons.
  destruct (f x); [|by apply IH]. cbn [fmap list_fmap]. apply NoDup_cons. split; [|by apply IH].
  intros (y & E & [Hy _]%elem_of_List_filter)%list_elem_of_fmap. apply Hx. rewrite E. by apply list_elem_of_fmap_2.
Qed.

Lemma voters_NoDup config : config_ok config -> NoDup (voters config).
Proof. intros [_ _ Hd]. by apply NoDup_map_filter. Qed.

Lemma find_peer_unique config p : config_ok config -> p ∈ peers config -> find_peer (permanent_uuid p) config = Some p.
Proof.
  intros [_ _ Hd] Hp. unfold find_peer. destruct (list_find _ (peers config)) as [[i q]|] eqn:E.
  - apply list_find_Some in E as (Hi & Hu & _). cbn. f_equal. apply list_elem_of_lookup in Hp as [j Hj].
    assert (i = j) as ->; [|congruence].
    apply (NoDup_lookup (permanent_uuid <$> peers config) i j (permanent_uuid p)); [done|by rewrite list_lookup_fmap, Hi; cbn; rewrite Hu|by rewrite list_lookup_fmap, Hj].
  - apply list_find_None in E. rewrite Forall_forall in E. by destruct (E p Hp).
Qed.

Lemma find_peer_Some u config p : find_peer u config = Some p -> p ∈ peers config /\ permanent_uuid p = u.
Proof.
  unfold find_peer. destruct (list_find _ _) as [[i q]|] eqn:E; [|done]. intros [= ->].
  apply list_find_Some in E as (Hi & Hu & _). split; [by eapply list_elem_of_lookup_2|done].
Qed.

Lemma IsRaftConfigVoter_voters config u : config_ok config -> IsRaftConfigVoter u config = true <-> u ∈ voters config.
Proof.
  intros Hc. unfold IsRaftConfigVoter, voters. rewrite list_elem_of_fmap. split.
  - destruct (find_peer u config) as [p|] eqn:E; [|done]. apply find_peer_Some in E as [Hp Hu]. intros Hv.
    exists p. split; [done|]. by apply elem_of_List_filter.
  - intros (p & -> & [Hp Hv]%elem_of_List_filter). by rewrite (find_peer_unique config p).
Qed.

(** ** Majorities *)

Lemma majorities_meet (V Q1 Q2 : list uuid) :
  NoDup Q1 -> NoDup Q2 -> (∀ u, u ∈ Q1 -> u ∈ V) -> (∀ u, u ∈ Q2 -> u ∈ V) ->
  (length V < length Q1 + length Q2)%nat -> ∃ u, u ∈ Q1 /\ u ∈ Q2.
Proof.
  intros N1 N2 H1 H2 Hl. destruct (decide (Exists (λ u, u ∈ Q2) Q1)) as [(u & ? & ?)%Exists_exists|Hno]; [by exists u|exfalso].
  assert (NoDup (Q1 ++ Q2)) as N.
  { apply NoDup_app. split; [done|]. split; [|done]. intros u Hu Hu2. apply Hno, Exists_exists. by exists u. }
  assert (Q1 ++ Q2 ⊆+ V) as Hsub.
  { apply NoDup_submseteq; [done|]. intros u [?|?]%elem_of_app; auto. }
  apply submseteq_length in Hsub. rewrite length_app in Hsub. lia.
Qed.

(** A set of voters that decides. *)
Definition quorum (config : RaftConfigPB) (majority : Z) (Q : list uuid) : Prop :=
  NoDup Q /\ (∀ u, u ∈ Q -> IsRaftConfigVoter u config = true) /\ majority <= Z.of_nat (length Q).

Lemma MajoritySize_Done release n m : MajoritySize release n = Done m -> m = n ÷ 2 + 1.
Proof. unfold MajoritySize. destruct (DCHECK _ _) as [[]| |]; [|done..]. by intros [= <-]. Qed.

Lemma majority_bounds release n m : MajoritySize release n = Done m -> 0 <= n -> n < 2 * m /\ 2 * m <= n + 2.
Proof.
  intros ->%MajoritySize_Done Hn. rewrite Z.quot_div_nonneg by lia.
  pose proof (Z.div_mod n 2 ltac:(done)). pose proof (Z.mod_pos_bound n 2 ltac:(lia)). lia.
Qed.

(** Two majorities of the voters share one. *)
Lemma quorums_share release config m Q Q' :
  config_ok config -> MajoritySize release (CountVoters config) = Done m -> quorum config m Q -> quorum config m Q' -> ∃ u, u ∈ Q /\ u ∈ Q'.
Proof.
  intros Hc Em (NQ & VQ & LQ) (NQ' & VQ' & LQ'). apply majority_bounds in Em; [|unfold CountVoters, CountMemberType; lia].
  rewrite CountVoters_voters in Em by done. apply (majorities_meet (voters config)); try done; try lia; intros u Hin; apply IsRaftConfigVoter_voters; auto.
Qed.

(** Removing the peer with a uuid. *)
Lemma RemoveFromRaftConfig_uuid config req config' :
  use_host req = false -> RemoveFromRaftConfig config req = Some config' ->
  opid_index config' = opid_index config /\
  peers config' = List.filter (λ p, negb (bool_decide (permanent_uuid p = permanent_uuid (server req)))) (peers config).
Proof. unfold RemoveFromRaftConfig. intros ->. case_match; [|done]. by intros [= <-]. Qed.

Lemma removed_config_ok config config' f :
  config_ok config -> peers config' = List.filter f (peers config) -> peers config' ≠ [] -> config_ok config'.
Proof.
  intros [Hp He Hd] E Hne. split; [done| |by rewrite E; apply NoDup_map_filter].
  rewrite Forall_forall in *. intros p Hin. rewrite E in Hin. apply elem_of_List_filter in Hin as [Hin _].
  destruct (He p Hin) as (? & ? & Ha & ?). repeat split; try done. intros Hlt. apply Ha.
  rewrite E in Hlt. pose proof (filter_length_le f (peers config)). lia.
Qed.

Lemma filter_removed_length {A : Type} `{EqDecision A} (u : A) l :
  NoDup l -> (length l <= S (length (List.filter (λ x, negb (bool_decide (x = u))) l)))%nat.
Proof.
  induction 1 as [|x l Hx Hl IH]; [simpl; lia|]. cbn [List.filter]. destruct (decide (x = u)) as [->|Hne].
  - rewrite bool_decide_eq_true_2 by done. cbn [negb length]. apply le_n_S.
    assert (List.filter (λ x, negb (bool_decide (x = u))) l = l) as ->; [|done].
    clear -Hx. induction l as [|y l IH]; [done|]. cbn [List.filter]. apply not_elem_of_cons in Hx as [Hy Hx].
    rewrite bool_decide_eq_false_2 by done. cbn [negb]. f_equal. by apply IH.
  - rewrite bool_decide_eq_false_2 by done. cbn [negb length]. lia.
Qed.

Lemma voters_removed config config' u :
  peers config' = List.filter (λ p, negb (bool_decide (permanent_uuid p = u))) (peers config) ->
  voters config' = List.filter (λ x, negb (bool_decide (x = u))) (voters config).
Proof.
  unfold voters. intros ->. induction (peers config) as [|p l IH]; [done|]. cbn [List.filter].
  destruct (bool_decide (permanent_uuid p = u)) eqn:Eu; cbn [negb List.filter].
  - rewrite IH. destruct (bool_decide (member_type p = VOTER)); [|done]. cbn [fmap list_fmap List.filter]. by rewrite Eu.
  - destruct (bool_decide (member_type p = VOTER)); [|done]. cbn [fmap list_fmap List.filter]. rewrite Eu. cbn [negb]. f_equal. done.
Qed.

(** ** Properties *)

(** C27: [VerifyRaftConfig] accepts exactly the well-formed configurations: at
    least one peer, distinct uuids that are set and not empty, member types
    set, addresses when there are several peers, and a log index exactly when
    the configuration is committed; removing peers keeps a configuration
    well-formed unless none is left. *)
Theorem raft_config_well_formed config type req :
  (VerifyRaftConfig config type = Ok tt <->
   config_ok config /\ (type = COMMITTED_QUORUM <-> is_Some (opid_index config))) /\
  (VerifyRaftConfig config type = Ok tt ->
   ∀ config', RemoveFromRaftConfig config req = Some config' ->
   VerifyRaftConfig config' type = (if bool_decide (peers config' = []) then Error IllegalState else Ok tt)).
Proof.
  split.
  - rewrite VerifyRaftConfig_ok. apply and_iff_compat_l. destruct type, (opid_index config); split; try done; try naive_solver.
  - rewrite VerifyRaftConfig_ok. intros [Hc Ho] config' E. case_bool_decide as Hp.
    { unfold VerifyRaftConfig. by rewrite bool_decide_eq_true_2. }
    assert (opid_index config' = opid_index config /\ ∃ f, peers config' = List.filter f (peers config)) as (Ei & f & Ef).
    { unfold RemoveFromRaftConfig in E. repeat case_match; simplify_eq; split; try done; by eexists. }
    apply VerifyRaftConfig_ok. rewrite Ei. split; [by apply (removed_config_ok config config' f)|done].
Qed.

Definition sample_peer (u : uuid) (t : MemberType) : RaftPeerPB :=
  mkRaftPeerPB (Some u) (Some t) [mkHostPortPB "127.0.0.1" 7100] [].
Definition sample_config : RaftConfigPB :=
  mkRaftConfigPB (Some 1) [sample_peer "a" VOTER; sample_peer "b" VOTER; sample_peer "c" VOTER; sample_peer "d" OBSERVER].
Definition sample_removal : ChangeConfigRequestPB := mkChangeConfigRequestPB (sample_peer "c" VOTER) false.

Lemma raft_config_well_formed_witness :
  VerifyRaftConfig sample_config COMMITTED_QUORUM = Ok tt /\
  ∃ config', RemoveFromRaftConfig sample_config sample_removal = Some config' /\ VerifyRaftConfig config' COMMITTED_QUORUM = Ok tt.
Proof.
  assert (VerifyRaftConfig sample_config COMMITTED_QUORUM = Ok tt) as Hv by reflexivity. split; [exact Hv|].
  eexists. split; [reflexivity|].
  rewrite (proj2 (raft_config_well_formed sample_config COMMITTED_QUORUM sample_removal) Hv _ eq_refl). reflexivity.
Defined.

(** In a configuration that is accepted, two majorities of the voters
    always have a voter in common, and so do a majority before and one after a
    peer is removed by its uuid. *)
Theorem quorums_overlap release config type req config' m m' Q Q' :
  VerifyRaftConfig config type = Ok tt -> use_host req = false -> RemoveFromRaftConfig config req = Some config' ->
  MajoritySize release (CountVoters config) = Done m -> MajoritySize release (CountVoters config') = Done m' ->
  quorum config m Q -> quorum config m Q' \/ quorum config' m' Q' ->
  ∃ u, u ∈ Q /\ u ∈ Q'.
Proof.
  intros [Hc _]%VerifyRaftConfig_ok Hu Hr Hm%majority_bounds Hm'%majority_bounds (NQ & VQ & LQ) HQ';
    [|unfold CountVoters, CountMemberType; lia..].
  rewrite CountVoters_voters in Hm by done. pose proof (voters_NoDup config Hc) as NV.
  assert (∀ u, u ∈ Q -> u ∈ voters config) as SQ by (intros u Hin; by apply IsRaftConfigVoter_voters; auto).
  destruct HQ' as [(NQ' & VQ' & LQ')|(NQ' & VQ' & LQ')].
  { apply (majorities_meet (voters config)); try done; [intros u Hin; by apply IsRaftConfigVoter_voters; auto|].
    lia. }
  destruct (RemoveFromRaftConfig_uuid config req config' Hu Hr) as [_ Ep].
  assert (config_ok config') as Hc'.
  { apply (removed_config_ok config config' _ Hc Ep). intros Hnil. destruct Q' as [|u Q'].
    - assert (0 <= CountVoters config') by (unfold CountVoters, CountMemberType; lia). simpl in LQ'. lia.
    - pose proof (VQ' u ltac:(by left)) as Hx. unfold IsRaftConfigVoter, find_peer in Hx. by rewrite Hnil in Hx. }
  rewrite CountVoters_voters, (voters_removed config config' _ Ep) in Hm' by done.
  pose proof (filter_removed_length (permanent_uuid (server req)) (voters config) NV) as Hlen.
  apply (majorities_meet (voters config)); try done.
  - intros u Hin. apply VQ', (IsRaftConfigVoter_voters config' u Hc') in Hin. rewrite (voters_removed config config' _ Ep) in Hin.
    by apply elem_of_List_filter in Hin as [? _].
  - lia.
Qed.

Lemma quorums_overlap_witness : ∃ u, u ∈ ["a"; "b"] /\ u ∈ ["b"; "a"].
Proof.
  apply (quorums_overlap false sample_config COMMITTED_QUORUM sample_removal
    (mkRaftConfigPB (Some 1) [sample_peer "a" VOTER; sample_peer "b" VOTER; sample_peer "d" OBSERVER]) 2 2 ["a"; "b"] ["b"; "a"]);
    try reflexivity.
  - split; [apply (bool_decide_unpack _); vm_compute; exact I|]. split; [|vm_compute; discriminate].
    intros u Hu. apply list_elem_of_In in Hu as [<-|[<-|[]]]; reflexivity.
  - right. split; [apply (bool_decide_unpack _); vm_compute; exact I|]. split; [|vm_compute; discriminate].
    intros u Hu. apply list_elem_of_In in Hu as [<-|[<-|[]]]; reflexivity.
Defined.
