(* ===== verification/LeaderElection.v ===== *)
(** * Leader elections ([src/yb/consensus/leader_election.h],
    [leader_election.cc], [leader_lease.h])

    A candidate counts the votes of the other voters, whose answers arrive in
    any order on any thread, and reports one decision. *)

From S2P Require Import Prelude MonoTime Quorum.
Local Open Scope Z_scope.

(** ** Leases *)

Record LeaseData : Type := mkLeaseData { holder_uuid : uuid; expiration : Z }.

(** [CoarseTimePoint::min()], and the microseconds of [HybridTime::kMin]. *)
Definition kNoCoarseLease : Z := - 2 ^ 63.
Definition kNoPhysicalLease : Z := 0.

Definition no_CoarseTimeLease : LeaseData := mkLeaseData EmptyString kNoCoarseLease.
Definition no_PhysicalComponentLease : LeaseData := mkLeaseData EmptyString kNoPhysicalLease.

Definition TryUpdate (rhs lease : LeaseData) : LeaseData :=
  if expiration lease <? expiration rhs then mkLeaseData (holder_uuid rhs) (expiration rhs) else lease.

(** ** Counting votes *)

Inductive ElectionVote : Type := kDenied | kGranted | kUnknown.

#[export] Instance ElectionVote_eq_dec : EqDecision ElectionVote.
Proof. solve_decision. Defined.

Record VoteCounter : Type := mkVoteCounter {
  num_voters_ : Z;
  majority_size_ : Z;
  votes_ : gmap uuid ElectionVote;
  yes_votes_ : Z;
  no_votes_ : Z
}.

Definition new_VoteCounter (num_voters majority_size : Z) : Outcome VoteCounter :=
  _ ← CHECK (majority_size <=? num_voters);
  _ ← CHECK (0 <? num_voters);
  _ ← CHECK (0 <? majority_size);
  Done (mkVoteCounter num_voters majority_size ∅ 0 0).

(** The counter, and whether the vote is a duplicate. *)
Definition RegisterVote (voter_uuid : uuid) (vote : ElectionVote) (c : VoteCounter) : VoteCounter * Result bool :=
  match votes_ c !! voter_uuid with
  | Some prior_vote => (c, if bool_decide (prior_vote = vote) then Ok true else Error InvalidArgument)
  | None =>
      if yes_votes_ c + no_votes_ c =? num_voters_ c then (c, Error InvalidArgument)
      else
        let votes := <[voter_uuid := vote]> (votes_ c) in
        match vote with
        | kGranted => (mkVoteCounter (num_voters_ c) (majority_size_ c) votes (yes_votes_ c + 1) (no_votes_ c), Ok false)
        | kDenied => (mkVoteCounter (num_voters_ c) (majority_size_ c) votes (yes_votes_ c) (no_votes_ c + 1), Ok false)
        | kUnknown => (mkVoteCounter (num_voters_ c) (majority_size_ c) votes (yes_votes_ c) (no_votes_ c), Error InvalidArgument)
        end
  end.

Definition GetDecision (c : VoteCounter) : ElectionVote :=
  if majority_size_ c <=? yes_votes_ c then kGranted
  else if num_voters_ c - majority_size_ c <? no_votes_ c then kDenied
  else kUnknown.

Definition GetTotalVotesCounted (c : VoteCounter) : Z := yes_votes_ c + no_votes_ c.
Definition GetTotalExpectedVotes (c : VoteCounter) : Z := num_voters_ c.
Definition AreAllVotesIn (c : VoteCounter) : bool := GetTotalVotesCounted c =? num_voters_ c.

(** ** Messages *)

Record VoteRequestPB : Type := mkVoteRequestPB {
  candidate_uuid : uuid;
  candidate_term : Z;
  candidate_last_received : OpId;
  ignore_live_leader : bool;
  request_preelection : bool
}.

Inductive ConsensusErrorCode : Type :=
| INVALID_TERM | LAST_OPID_TOO_OLD | ALREADY_VOTED | LEADER_IS_ALIVE | CONSENSUS_BUSY.

(** [has_error] is an error of the tablet server; the error of the consensus is
    only logged by the candidate. *)
Record VoteResponsePB : Type := mkVoteResponsePB {
  responder_uuid : uuid;
  responder_term : Z;
  vote_granted : bool;
  remaining_leader_lease_duration_ms : option Z;
  leader_lease_uuid : uuid;
  leader_ht_lease_expiration : option Z;
  leader_ht_lease_uuid : uuid;
  response_preelection : bool;
  consensus_error : option ConsensusErrorCode;
  has_error : bool
}.

(** What the RPC of a voter gives: an error of the network or a response. *)
Inductive RpcResult : Type := RpcError | RpcResponse (r : VoteResponsePB).

Record ElectionResult : Type := mkElectionResult {
  preelection : bool;
  preelections_not_supported_by_uuid : uuid;
  election_term : Z;
  decision : ElectionVote;
  higher_term : option Z;
  old_leader_lease : LeaseData;
  old_leader_ht_lease : LeaseData
}.

Definition decided (r : ElectionResult) : bool := negb (bool_decide (decision r = kUnknown)).

(** ** The election *)

Record LeaderElection : Type := mkLeaderElection {
  request_ : VoteRequestPB;
  voting_follower_uuids_ : list uuid;
  vote_counter_ : VoteCounter;
  result_ : ElectionResult;
  has_responded_ : bool
}.

(** The voters other than the candidate; a uuid listed twice is a failed
    [CHECK] on [voter_state_]. *)
Fixpoint collect_followers (candidate : uuid) (l : list RaftPeerPB) (acc : list uuid) : Outcome (list uuid) :=
  match l with
  | [] => Done acc
  | peer :: rest =>
      if bool_decide (candidate = permanent_uuid peer) then collect_followers candidate rest acc
      else if negb (bool_decide (member_type peer = VOTER)) then collect_followers candidate rest acc
      else
        _ ← CHECK (negb (bool_decide (permanent_uuid peer ∈ acc)));
        collect_followers candidate rest (acc ++ [permanent_uuid peer])
  end.

Definition new_LeaderElection (config : RaftConfigPB) (request : VoteRequestPB) (vote_counter : VoteCounter)
    (preelection : bool) : Outcome LeaderElection :=
  followers ← collect_followers (candidate_uuid request) (peers config) [];
  _ ← CHECK (1 =? GetTotalVotesCounted vote_counter);
  _ ← CHECK (GetTotalVotesCounted vote_counter + Z.of_nat (length followers) =? GetTotalExpectedVotes vote_counter);
  Done (mkLeaderElection request followers vote_counter
    (mkElectionResult preelection EmptyString (candidate_term request) kUnknown None no_CoarseTimeLease no_PhysicalComponentLease)
    false).

Section election.
Context (release : bool).

Definition with_counter (c : VoteCounter) (e : LeaderElection) : LeaderElection :=
  mkLeaderElection (request_ e) (voting_follower_uuids_ e) c (result_ e) (has_responded_ e).
Definition with_result (r : ElectionResult) (e : LeaderElection) : LeaderElection :=
  mkLeaderElection (request_ e) (voting_follower_uuids_ e) (vote_counter_ e) r (has_responded_ e).

(** The term of the candidate: a pre-election is for the next term. *)
Definition consensus_term (e : LeaderElection) : Z :=
  candidate_term (request_ e) - (if preelection (result_ e) then 1 else 0).

Definition RecordVoteUnlocked (voter_uuid : uuid) (vote : ElectionVote) (e : LeaderElection) : Outcome LeaderElection :=
  let '(c, s) := RegisterVote voter_uuid vote (vote_counter_ e) in
  _ ← (match s with Ok true => LOG_DFATAL release | _ => Done tt end);
  Done (with_counter c e).

Definition HandleHigherTermUnlocked (response : VoteResponsePB) (e : LeaderElection) : Outcome LeaderElection :=
  _ ← DCHECK release (consensus_term e <? responder_term response);
  let r := result_ e in
  Done (if negb (decided r)
        then with_result (mkElectionResult (preelection r) (preelections_not_supported_by_uuid r) (election_term r) kDenied
               (Some (responder_term response)) (old_leader_lease r) (old_leader_ht_lease r)) e
        else e).

Definition HandleVoteGrantedUnlocked (now : Z) (voter_uuid : uuid) (response : VoteResponsePB) (e : LeaderElection)
    : Outcome LeaderElection :=
  _ ← DCHECK release (responder_term response =? candidate_term (request_ e));
  _ ← DCHECK release (vote_granted response);
  let r := result_ e in
  let lease :=
    match remaining_leader_lease_duration_ms response with
    | Some ms => TryUpdate (mkLeaseData (leader_lease_uuid response) (now + ms * 1000000)) (old_leader_lease r)
    | None => old_leader_lease r
    end in
  let ht_lease :=
    match leader_ht_lease_expiration response with
    | Some x => TryUpdate (mkLeaseData (leader_ht_lease_uuid response) x) (old_leader_ht_lease r)
    | None => old_leader_ht_lease r
    end in
  RecordVoteUnlocked voter_uuid kGranted
    (with_result (mkElectionResult (preelection r) (preelections_not_supported_by_uuid r) (election_term r) (decision r)
       (higher_term r) lease ht_lease) e).

Definition HandleVoteDeniedUnlocked (voter_uuid : uuid) (response : VoteResponsePB) (e : LeaderElection) : Outcome LeaderElection :=
  _ ← DCHECK release (negb (vote_granted response));
  if consensus_term e <? responder_term response then HandleHigherTermUnlocked response e
  else RecordVoteUnlocked voter_uuid kDenied e.

(** The locked part of [VoteResponseRpcCallback], and whether the check for a
    decision follows. *)
Definition HandleResponse (now : Z) (voter_uuid : uuid) (rpc : RpcResult) (e : LeaderElection)
    : Outcome (LeaderElection * bool) :=
  if has_responded_ e then Done (e, false)
  else
    _ ← CHECK (bool_decide (voter_uuid ∈ voting_follower_uuids_ e));
    e' ←
      match rpc with
      | RpcError => RecordVoteUnlocked voter_uuid kDenied e
      | RpcResponse response =>
          if has_error response then RecordVoteUnlocked voter_uuid kDenied e
          else if negb (bool_decide (voter_uuid = responder_uuid response)) then
            _ ← LOG_DFATAL release;
            RecordVoteUnlocked voter_uuid kDenied e
          else if preelection (result_ e) && negb (response_preelection response) then
            let r := result_ e in
            HandleVoteDeniedUnlocked voter_uuid response
              (with_result (mkElectionResult (preelection r) voter_uuid (election_term r) (decision r) (higher_term r)
                 (old_leader_lease r) (old_leader_ht_lease r)) e)
          else if vote_granted response then HandleVoteGrantedUnlocked now voter_uuid response e
          else HandleVoteDeniedUnlocked voter_uuid response e
      end;
    Done (e', true).

End election.

(** The result once the votes are looked at. *)
Definition newly_decided (e : LeaderElection) : ElectionResult :=
  let d := GetDecision (vote_counter_ e) in
  let r := result_ e in
  if negb (decided r) && negb (bool_decide (d = kUnknown))
  then mkElectionResult (preelection r) (preelections_not_supported_by_uuid r) (election_term r) d (higher_term r)
         (old_leader_lease r) (old_leader_ht_lease r)
  else r.

(** The result passed to the callback, if it is called. *)
Definition CheckForDecision (e : LeaderElection) : LeaderElection * option ElectionResult :=
  let r := newly_decided e in
  if decided r && negb (has_responded_ e)
  then (mkLeaderElection (request_ e) (voting_follower_uuids_ e) (vote_counter_ e) r true, Some r)
  else (mkLeaderElection (request_ e) (voting_follower_uuids_ e) (vote_counter_ e) r (has_responded_ e), None).

Definition VoteResponseRpcCallback (release : bool) (now : Z) (voter_uuid : uuid) (rpc : RpcResult) (e : LeaderElection)
    : Outcome (LeaderElection * option ElectionResult) :=
  '(e, check) ← HandleResponse release now voter_uuid rpc e;
  Done (if (check : bool) then CheckForDecision e else (e, None)).

(** ** Threads

    [Run] checks for a decision and then sends the requests one by one; the
    answers arrive while it does, each on a thread that takes the lock twice,
    for the answer and to check for a decision. *)

Record run_state : Type := mkRun {
  election : LeaderElection;
  unsent : option (list uuid);
  in_flight : list uuid;
  checking : nat;
  calls : list ElectionResult
}.

Definition run_of (e : LeaderElection) : run_state := mkRun e None [] 0 [].

Inductive run_event : Type := Internal | Answer (u : uuid) (rpc : RpcResult).

Inductive run_step (release : bool) : run_event -> run_state -> run_state -> Prop :=
| run_start e e' r :
    CheckForDecision e = (e', r) ->
    run_step release Internal (mkRun e None [] 0 []) (mkRun e' (Some (voting_follower_uuids_ e)) [] 0 (option_list r))
| run_send e u rest fl n c :
    decided (result_ e) = false ->
    run_step release Internal (mkRun e (Some (u :: rest)) fl n c) (mkRun e (Some rest) (u :: fl) n c)
| run_stop e u rest fl n c :
    decided (result_ e) = true ->
    run_step release Internal (mkRun e (Some (u :: rest)) fl n c) (mkRun e (Some []) fl n c)
| run_respond e e' us l1 u l2 n c now rpc check :
    HandleResponse release now u rpc e = Done (e', check) ->
    run_step release (Answer u rpc) (mkRun e (Some us) (l1 ++ u :: l2) n c)
      (mkRun e' (Some us) (l1 ++ l2) (if (check : bool) then S n else n) c)
| run_check e e' us fl n c r :
    CheckForDecision e = (e', r) ->
    run_step release Internal (mkRun e (Some us) fl (S n) c) (mkRun e' (Some us) fl n (c ++ option_list r)).

Definition some_step (release : bool) (r r' : run_state) : Prop := ∃ ev, run_step release ev r r'.

Definition finished (r : run_state) : Prop := unsent r = Some [] /\ in_flight r = [] /\ checking r = 0%nat.

(** What is left to do. *)
Definition run_measure (r : run_state) : nat :=
  match unsent r with
  | None => S (3 * length (voting_follower_uuids_ (election r)))
  | Some us => 3 * length us + 2 * length (in_flight r) + checking r
  end.

(** ** The vote counter *)

Definition granted (votes : gmap uuid ElectionVote) : gmap uuid ElectionVote := filter (λ kv, kv.2 = kGranted) votes.
Definition denied (votes : gmap uuid ElectionVote) : gmap uuid ElectionVote := filter (λ kv, kv.2 = kDenied) votes.

(** The totals are those of the votes of voters. *)
Record counter_ok (V : list uuid) (c : VoteCounter) : Prop := {
  vc_num : num_voters_ c = Z.of_nat (length V);
  vc_majority : 0 < majority_size_ c <= num_voters_ c;
  vc_yes : yes_votes_ c = Z.of_nat (size (granted (votes_ c)));
  vc_no : no_votes_ c = Z.of_nat (size (denied (votes_ c)));
  vc_all : yes_votes_ c + no_votes_ c = Z.of_nat (size (votes_ c));
  vc_voters : ∀ u v, votes_ c !! u = Some v -> u ∈ V
}.

Lemma voters_size V (votes : gmap uuid ElectionVote) :
  NoDup V -> (∀ u v, votes !! u = Some v -> u ∈ V) -> (size votes <= length V)%nat /\
  (∀ u, u ∈ V -> votes !! u = None -> (size votes < length V)%nat).
Proof.
  intros HV Hin. rewrite <- size_dom, <- (size_list_to_set (C := gset uuid) V) by done.
  assert (dom votes ⊆ list_to_set V) as Hsub.
  { intros u [v Hu]%elem_of_dom. apply elem_of_list_to_set. by eapply Hin. }
  split; [by apply subseteq_size|]. intros u Hu Hn. apply subset_size. split; [done|]. intros Hc.
  assert (u ∈ dom votes) as [v Hv]%elem_of_dom by (apply Hc; by apply elem_of_list_to_set). congruence.
Qed.

Lemma filter_insert_size (P : ElectionVote -> Prop) `{∀ v, Decision (P v)} (votes : gmap uuid ElectionVote) u v :
  votes !! u = None ->
  size (filter (λ kv, P kv.2) (<[u := v]> votes)) = (size (filter (λ kv, P kv.2) votes) + (if decide (P v) then 1 else 0))%nat.
Proof.
  intros Hn. assert (filter (λ kv, P kv.2) votes !! u = None) as Hf by (apply map_lookup_filter_None; by left).
  destruct (decide (P v)).
  - rewrite map_filter_insert_True by done. rewrite map_size_insert_None by done. lia.
  - rewrite map_filter_insert_False, delete_id by done. lia.
Qed.

(** A new vote is counted. *)
Lemma RegisterVote_new V c u v :
  NoDup V -> counter_ok V c -> u ∈ V -> votes_ c !! u = None -> v ≠ kUnknown ->
  ∃ c', RegisterVote u v c = (c', Ok false) /\ counter_ok V c' /\ votes_ c' = <[u := v]> (votes_ c) /\
    num_voters_ c' = num_voters_ c /\ majority_size_ c' = majority_size_ c.
Proof.
  intros HV [Hnum Hmaj Hyes Hno Hall Hvot] Hu Hn Hv. destruct (voters_size V (votes_ c) HV Hvot) as [_ Hlt].
  specialize (Hlt u Hu Hn). unfold RegisterVote. rewrite Hn, (proj2 (Z.eqb_neq _ _)) by lia.
  assert (∀ w x, <[u := v]> (votes_ c) !! w = Some x -> w ∈ V) as Hvot'.
  { intros w x [[-> _]|[_ ?]]%lookup_insert_Some; [done|by eapply Hvot]. }
  pose proof (filter_insert_size (λ v, v = kGranted) (votes_ c) u v Hn) as Hg.
  pose proof (filter_insert_size (λ v, v = kDenied) (votes_ c) u v Hn) as Hd.
  pose proof (map_size_insert_None u v (votes_ c) Hn) as Hs. unfold granted, denied in *. cbn beta in Hg, Hd.
  destruct v; [..|done]; eexists; (split; [reflexivity|]); (split; [|done]); split; cbn; try done; unfold granted, denied;
    rewrite ?Hs, ?Hg, ?Hd; repeat (case_decide; [|try done]); try done; lia.
Qed.

(** The same vote again changes nothing. *)
Lemma RegisterVote_old c u v w : votes_ c !! u = Some w -> (RegisterVote u v c).1 = c.
Proof. intros E. unfold RegisterVote. by rewrite E. Qed.

(** A decision needs and has the votes; once all votes are in there is one. *)
Lemma GetDecision_granted c : GetDecision c = kGranted <-> majority_size_ c <= yes_votes_ c.
Proof. unfold GetDecision. destruct (Z.leb_spec (majority_size_ c) (yes_votes_ c)); [done|]. split; [by case_match|lia]. Qed.

Lemma GetDecision_all_in c : AreAllVotesIn c = true -> GetDecision c ≠ kUnknown.
Proof.
  unfold AreAllVotesIn, GetTotalVotesCounted, GetDecision. intros E%Z.eqb_eq.
  destruct (Z.leb_spec (majority_size_ c) (yes_votes_ c)); [done|]. rewrite (proj2 (Z.ltb_lt _ _)) by lia. done.
Qed.

(** ** The election, step by step *)

Section invariant.
Context (release : bool) (V : list uuid) (cand : uuid) (HV : NoDup V) (Hcand : cand ∈ V).

Record election_ok (e : LeaderElection) : Prop := {
  el_candidate : candidate_uuid (request_ e) = cand;
  el_distinct : NoDup (voting_follower_uuids_ e);
  el_followers : ∀ u, u ∈ voting_follower_uuids_ e <-> u ∈ V /\ u ≠ cand;
  el_counter : counter_ok V (vote_counter_ e);
  el_self : votes_ (vote_counter_ e) !! cand = Some kGranted;
  el_term : election_term (result_ e) = candidate_term (request_ e);
  el_granted : decision (result_ e) = kGranted -> majority_size_ (vote_counter_ e) <= yes_votes_ (vote_counter_ e);
  el_responded : has_responded_ e = true -> decided (result_ e) = true
}.

(** What stays the same. *)
Definition same_election (e e' : LeaderElection) : Prop :=
  request_ e' = request_ e /\ voting_follower_uuids_ e' = voting_follower_uuids_ e /\
  majority_size_ (vote_counter_ e') = majority_size_ (vote_counter_ e) /\
  preelection (result_ e') = preelection (result_ e) /\
  (decided (result_ e) = true -> decision (result_ e') = decision (result_ e)).

(** A result with other leases or another note. *)
Lemma with_result_ok e r :
  election_ok e -> election_term r = election_term (result_ e) -> preelection r = preelection (result_ e) ->
  decision r = decision (result_ e) -> election_ok (with_result r e) /\ same_election e (with_result r e).
Proof.
  intros [] Et Ep Ed. split; [|by repeat split]. split; cbn; try done; [by rewrite Et|by rewrite Ed|].
  unfold decided in *. by rewrite Ed.
Qed.

Lemma RecordVote_ok e u v :
  election_ok e -> u ∈ V -> votes_ (vote_counter_ e) !! u = None -> v ≠ kUnknown ->
  ∃ e', RecordVoteUnlocked release u v e = Done e' /\ election_ok e' /\ same_election e e' /\
    result_ e' = result_ e /\ has_responded_ e' = has_responded_ e /\ votes_ (vote_counter_ e') = <[u := v]> (votes_ (vote_counter_ e)).
Proof using HV.
  intros He Hu Hn Hv. unfold RecordVoteUnlocked.
  destruct (RegisterVote_new V (vote_counter_ e) u v HV (el_counter e He) Hu Hn Hv) as (c' & -> & Hc & Ev & En & Em).
  cbn [mbind outcome_bind]. eexists. split; [reflexivity|]. split; [|by repeat split].
  assert (u ≠ cand) as Hne by (intros ->; rewrite (el_self e He) in Hn; done).
  assert (yes_votes_ (vote_counter_ e) <= yes_votes_ c') as Hy.
  { rewrite (vc_yes _ _ Hc), (vc_yes _ _ (el_counter e He)), Ev. unfold granted.
    pose proof (filter_insert_size (λ v, v = kGranted) (votes_ (vote_counter_ e)) u v Hn) as Hg. cbn beta in Hg. rewrite Hg. lia. }
  destruct He. split; cbn; try done; [by rewrite Ev, lookup_insert_ne|]. intros Hg. specialize (el_granted0 Hg). lia.
Qed.

(** What an answer does when the decision has not been reported: it is counted
    as a vote, or cancels the election. *)
Definition answered (u : uuid) (rpc : RpcResult) (e e' : LeaderElection) : Prop :=
  (decided (result_ e') = decided (result_ e) /\ ∃ v, votes_ (vote_counter_ e') = <[u := v]> (votes_ (vote_counter_ e)) /\
     (v = kGranted -> ∃ r, rpc = RpcResponse r /\ vote_granted r = true /\ responder_uuid r = u /\ has_error r = false)) \/
  (decided (result_ e') = true /\ votes_ (vote_counter_ e') = votes_ (vote_counter_ e)).

Lemma counted e e1 u v rpc :
  election_ok e1 -> same_election e e1 -> votes_ (vote_counter_ e1) = votes_ (vote_counter_ e) ->
  decided (result_ e1) = decided (result_ e) ->
  has_responded_ e1 = false -> u ∈ V -> votes_ (vote_counter_ e) !! u = None -> v ≠ kUnknown ->
  (v = kGranted -> ∃ r, rpc = RpcResponse r /\ vote_granted r = true /\ responder_uuid r = u /\ has_error r = false) ->
  ∃ e', RecordVoteUnlocked release u v e1 = Done e' /\ election_ok e' /\ same_election e e' /\
    has_responded_ e' = false /\ answered u rpc e e'.
Proof using HV.
  intros H1 Hs Ev Ed Hr Hu Hn Hv Hg. rewrite <- Ev in Hn.
  destruct (RecordVote_ok e1 u v H1 Hu Hn Hv) as (e' & -> & He' & Hs' & Er & Eh & Ev'). exists e'. split; [done|]. split; [done|].
  split; [|split; [congruence|]].
  - destruct Hs as (? & ? & ? & ? & Hd), Hs' as (? & ? & ? & ? & Hd'). repeat split; try congruence.
    intros Hdec. rewrite Hd' by (by rewrite Ed). by apply Hd.
  - left. rewrite Er, Ed. split; [done|]. exists v. by rewrite Ev', Ev.
Qed.

(** A denial, with a higher term or without. *)
Lemma HandleVoteDenied_ok e e1 u rpc response e' :
  election_ok e1 -> same_election e e1 -> votes_ (vote_counter_ e1) = votes_ (vote_counter_ e) ->
  decided (result_ e1) = decided (result_ e) ->
  has_responded_ e1 = false -> u ∈ V -> votes_ (vote_counter_ e) !! u = None ->
  HandleVoteDeniedUnlocked release u response e1 = Done e' ->
  election_ok e' /\ same_election e e' /\ has_responded_ e' = false /\ answered u rpc e e'.
Proof using HV.
  intros H1 Hs Ev Ed Hr Hu Hn E. unfold HandleVoteDeniedUnlocked in E. destruct (DCHECK _ _) as [[]| |]; [|done..].
  cbn [mbind outcome_bind] in E. destruct (consensus_term e1 <? responder_term response) eqn:Ht.
  - unfold HandleHigherTermUnlocked in E. rewrite Ht in E. replace (DCHECK release true) with (Done tt) in E by (by destruct release).
    cbn [mbind outcome_bind] in E. injection E as <-. destruct (decided (result_ e1)) eqn:Hd; cbn [negb].
    + split; [done|]. split; [done|]. split; [done|]. right. split; [done|done].
    + split; [|split; [|split; [done|right; by split]]].
      * destruct H1. by split.
      * destruct Hs as (? & ? & ? & ? & Hdd). repeat split; try done. intros Hc. congruence.
  - destruct (counted e e1 u kDenied rpc H1 Hs Ev Ed Hr Hu Hn) as (x & Ex & ?); [done..|]. rewrite Ex in E. by injection E as <-.
Qed.

Lemma same_election_refl e : same_election e e.
Proof. by repeat split. Qed.

Lemma HandleResponse_ok e now u rpc e' check :
  election_ok e -> has_responded_ e = false -> u ∈ voting_follower_uuids_ e -> votes_ (vote_counter_ e) !! u = None ->
  HandleResponse release now u rpc e = Done (e', check) ->
  check = true /\ election_ok e' /\ same_election e e' /\ has_responded_ e' = false /\ answered u rpc e e'.
Proof using HV.
  intros He Hr Hu Hn E. unfold HandleResponse in E. rewrite Hr in E. rewrite bool_decide_eq_true_2 in E by done.
  cbn [CHECK mbind outcome_bind] in E. apply outcome_bind_Done in E as (x & Ex & E). injection E as <- <-.
  split; [done|]. pose proof (proj1 (proj1 (el_followers e He u) Hu)) as HuV.
  pose proof (same_election_refl e) as Hs.
  assert (∀ y, RecordVoteUnlocked release u kDenied e = Done y ->
    election_ok y /\ same_election e y /\ has_responded_ y = false /\ answered u rpc e y) as Hden.
  { intros y Ey. destruct (counted e e u kDenied rpc) as (z & Ez & ?); try done. rewrite Ez in Ey. by injection Ey as <-. }
  destruct rpc as [|response]; [by apply Hden|]. destruct (has_error response) eqn:Herr; [by apply Hden|].
  case_bool_decide as Huu; cbn [negb] in Ex.
  2: { destruct (LOG_DFATAL release) as [[]| |]; [|done..]. by apply Hden. }
  destruct (preelection (result_ e) && negb (response_preelection response)) eqn:Hpre.
  { destruct (with_result_ok e (mkElectionResult (preelection (result_ e)) u (election_term (result_ e)) (decision (result_ e))
      (higher_term (result_ e)) (old_leader_lease (result_ e)) (old_leader_ht_lease (result_ e))) He) as [H1 H2]; [done..|].
    eapply HandleVoteDenied_ok; [exact H1|exact H2|done..|exact Ex]. }
  destruct (vote_granted response) eqn:Hg.
  - unfold HandleVoteGrantedUnlocked in Ex. destruct (DCHECK _ (responder_term _ =? _)) as [[]| |]; [|done..].
    destruct (DCHECK _ (vote_granted _)) as [[]| |]; [|done..]. cbn [mbind outcome_bind] in Ex.
    match type of Ex with RecordVoteUnlocked _ _ _ (with_result ?r _) = _ => destruct (with_result_ok e r He) as [H1 H2]; [done..|] end.
    match type of Ex with RecordVoteUnlocked _ _ _ ?e1 = _ => destruct (counted e e1 u kGranted (RpcResponse response)) as (z & Ez & Hz) end; try done.
    { intros _. exists response. by rewrite Huu. }
    rewrite Ez in Ex. by injection Ex as <-.
  - eapply HandleVoteDenied_ok; [exact He|exact Hs|done..|exact Ex].
Qed.

(** An error of the network is always handled. *)
Lemma HandleResponse_error e now u :
  election_ok e -> u ∈ voting_follower_uuids_ e -> votes_ (vote_counter_ e) !! u = None ->
  ∃ e' check, HandleResponse release now u RpcError e = Done (e', check).
Proof using HV.
  intros He Hu Hn. unfold HandleResponse. destruct (has_responded_ e); [by eexists _, _|].
  rewrite bool_decide_eq_true_2 by done. cbn [CHECK mbind outcome_bind].
  destruct (RecordVote_ok e u kDenied He) as (e' & -> & _); [by apply (el_followers e He)|done..|]. by eexists _, _.
Qed.

Lemma CheckForDecision_ok e e' r :
  election_ok e -> CheckForDecision e = (e', r) ->
  election_ok e' /\ same_election e e' /\ vote_counter_ e' = vote_counter_ e /\
  decided (result_ e') = has_responded_ e' /\ (decided (result_ e') = false -> GetDecision (vote_counter_ e') = kUnknown) /\
  r = (if has_responded_ e then None else if has_responded_ e' then Some (result_ e') else None) /\
  (has_responded_ e = true -> e' = e).
Proof.
  intros He E. assert (has_responded_ e = true -> e' = e) as Hsame.
  { intros Hr. unfold CheckForDecision, newly_decided in E. rewrite (el_responded e He Hr) in E. cbn [negb andb] in E.
    rewrite Hr, (el_responded e He Hr) in E. injection E as <- _. rewrite <- Hr. by destruct e. }
  unfold CheckForDecision in E. set (d := GetDecision (vote_counter_ e)). set (res := newly_decided e) in E.
  assert (election_term res = election_term (result_ e) /\ preelection res = preelection (result_ e) /\
    (decided (result_ e) = true -> decision res = decision (result_ e)) /\
    (decision res = kGranted -> majority_size_ (vote_counter_ e) <= yes_votes_ (vote_counter_ e)) /\
    (decided res = false -> d = kUnknown)) as (Et & Ep & Edec & Eg & Ed).
  { unfold res, newly_decided. fold d. destruct (decided (result_ e)) eqn:Hd; cbn [negb andb].
    - repeat split; try done; [apply He|]. by rewrite Hd.
    - case_bool_decide as Hdu; cbn [negb]; repeat split; try done; try apply He; cbn; [by intros Hc%GetDecision_granted|].
      unfold decided. cbn. rewrite bool_decide_eq_false_2 by done. done. }
  assert (decided (result_ e) = true -> decided res = true) as Hmono.
  { unfold decided. intros Hd. by rewrite (Edec Hd). }
  pose proof (el_responded e He) as Hresp.
  assert (∀ b, (b = true -> decided res = true) ->
    let x := mkLeaderElection (request_ e) (voting_follower_uuids_ e) (vote_counter_ e) res b in
    election_ok x /\ same_election e x) as Hx.
  { intros b Hb x. split; [|by repeat split]. destruct He. split; cbn; try done. congruence. }
  destruct (decided res) eqn:Hdr, (has_responded_ e) eqn:Hr; cbn [andb negb] in E; injection E as <- <-; cbn [has_responded_ result_ vote_counter_];
    [destruct (Hx true) as [? ?]; [done|]|destruct (Hx true) as [? ?]; [done|]|exfalso; specialize (Hmono (Hresp eq_refl)); congruence|
     destruct (Hx false) as [? ?]; [done|]]; (split; [done|]); (split; [done|]); repeat split; try done; auto; congruence.
Qed.

(** *** All threads *)

Definition waiting (r : run_state) : list uuid := default (voting_follower_uuids_ (election r)) (unsent r) ++ in_flight r.

Record run_ok (r : run_state) : Prop := {
  rn_election : election_ok (election r);
  rn_waiting : NoDup (waiting r);
  rn_followers : ∀ u, u ∈ waiting r -> u ∈ voting_follower_uuids_ (election r) /\ votes_ (vote_counter_ (election r)) !! u = None;
  rn_voted : decided (result_ (election r)) = false ->
    ∀ u, u ∈ voting_follower_uuids_ (election r) -> u ∈ waiting r \/ is_Some (votes_ (vote_counter_ (election r)) !! u);
  rn_start : unsent r = None -> in_flight r = [] /\ checking r = 0%nat /\ has_responded_ (election r) = false;
  rn_checked : checking r = 0%nat -> unsent r ≠ None ->
    decided (result_ (election r)) = has_responded_ (election r) /\
    (decided (result_ (election r)) = false -> GetDecision (vote_counter_ (election r)) = kUnknown);
  rn_calls : calls r = (if has_responded_ (election r) then [result_ (election r)] else [])
}.

Lemma run_of_ok e :
  election_ok e -> votes_ (vote_counter_ e) = {[cand := kGranted]} -> has_responded_ e = false -> run_ok (run_of e).
Proof.
  intros He Ev Hr. assert (waiting (run_of e) = voting_follower_uuids_ e) as Ew by (unfold waiting; cbn; apply app_nil_r).
  split; cbn [run_of election unsent in_flight checking calls]; rewrite ?Ew; try done.
  - apply He.
  - intros u Hu. split; [done|]. rewrite Ev. apply (el_followers e He) in Hu as [_ Hu]. by apply lookup_singleton_ne.
  - auto.
  - by rewrite Hr.
Qed.

(** The voters still waited for are fewer, or others in another order. *)
Lemma run_ok_waiting e us us' fl fl' n c :
  run_ok (mkRun e (Some us) fl n c) -> NoDup (us' ++ fl') -> (∀ u, u ∈ us' ++ fl' -> u ∈ us ++ fl) ->
  (decided (result_ e) = false -> ∀ u, u ∈ us ++ fl -> u ∈ us' ++ fl') -> run_ok (mkRun e (Some us') fl' n c).
Proof.
  intros [He Hw Hf Hv Hs Hc Hl] Hn Hsub Hall. unfold waiting in *. cbn in *.
  split; unfold waiting; cbn; try done; [auto| |by auto]. intros Hd u Hu. destruct (Hv Hd u Hu); auto.
Qed.

Lemma respond_ok e e' us l1 u l2 n c now rpc check :
  run_ok (mkRun e (Some us) (l1 ++ u :: l2) n c) -> HandleResponse release now u rpc e = Done (e', check) ->
  run_ok (mkRun e' (Some us) (l1 ++ l2) (if (check : bool) then S n else n) c).
Proof using HV Hcand.
  intros Hok E. assert (NoDup (us ++ l1 ++ l2) /\ u ∉ us ++ l1 ++ l2) as [Hn Hu].
  { pose proof (rn_waiting _ Hok) as Hw. unfold waiting in Hw. cbn in Hw.
    rewrite <- Permutation_middle, (Permutation_app_comm us (u :: _)) in Hw. cbn in Hw. apply NoDup_cons in Hw as [Hx Hw].
    rewrite (Permutation_app_comm us). done. }
  destruct (has_responded_ e) eqn:Hr.
  - unfold HandleResponse in E. rewrite Hr in E. injection E as <- <-.
    apply (run_ok_waiting e us us (l1 ++ u :: l2)); [done|done|set_solver|].
    rewrite (el_responded e (rn_election _ Hok)); [done|]. done.
  - destruct Hok as [He Hw Hf Hv Hs Hc Hl]. unfold waiting in *. cbn in *.
    destruct (Hf u) as [Hfu Hnu]; [set_solver|].
    destruct (HandleResponse_ok e now u rpc e' check He Hr Hfu Hnu E) as (-> & He' & Hsame & Hr' & Hans).
    destruct Hsame as (_ & Hfol & _ & _ & _).
    split; unfold waiting; cbn; rewrite ?Hfol; try done.
    + intros w Hw'. destruct (Hf w) as [? Hnw]; [set_solver|]. split; [done|].
      destruct Hans as [(_ & x & -> & _)|[_ ->]]; [|done]. rewrite lookup_insert_ne; [done|]. intros ->. done.
    + intros Hd w Hw'. destruct Hans as [(Ed & x & -> & _)|[Ed _]]; [|congruence]. rewrite Ed in Hd.
      destruct (decide (w = u)) as [->|Hne]; [right; by rewrite lookup_insert_eq|]. rewrite lookup_insert_ne by done.
      destruct (Hv Hd w Hw'); [left; set_solver|by right].
    + by rewrite Hl, Hr, Hr'.
Qed.

Lemma check_ok e e' us us' fl n n' c r :
  run_ok (mkRun e us fl n c) -> default (voting_follower_uuids_ e) us = us' -> CheckForDecision e = (e', r) ->
  run_ok (mkRun e' (Some us') fl n' (c ++ option_list r)).
Proof.
  intros [He Hw Hf Hv Hs Hc Hl] Hus E. unfold waiting in *. cbn in *.
  destruct (CheckForDecision_ok e e' r He E) as (He' & (_ & Hfol & _ & _ & Hdec) & Evc & Hd & Hu & -> & Hmono).
  split; unfold waiting; cbn; rewrite ?Hfol, ?Evc, <- ?Hus; try done.
  - intros Hdf w Hw'. apply Hv; [|done]. destruct (decided (result_ e)) eqn:Hde; [|done]. exfalso.
    unfold decided in Hde, Hdf. rewrite (Hdec eq_refl) in Hdf. congruence.
  - intros _ _. split; [done|]. intros Hx. rewrite <- Evc. auto.
  - rewrite Hl. destruct (has_responded_ e) eqn:Hr; [|by destruct (has_responded_ e')].
    by rewrite (Hmono eq_refl), Hr.
Qed.

Lemma run_step_ok ev r r' : run_ok r -> run_step release ev r r' -> run_ok r'.
Proof using HV Hcand.
  intros Hok Hstep. destruct Hstep as [e e' x E|e u rest fl n c Hd|e u rest fl n c Hd|e e' us l1 u l2 n c now rpc check E|e e' us fl n c x E].
  - exact (check_ok e e' None _ [] 0 0 [] x Hok eq_refl E).
  - apply (run_ok_waiting e (u :: rest) rest fl (u :: fl) n c Hok); [|set_solver|set_solver].
    rewrite <- Permutation_middle. apply (rn_waiting _ Hok).
  - pose proof (rn_waiting _ Hok) as Hw. unfold waiting in Hw. cbn in Hw. apply NoDup_cons in Hw as [_ Hw]. apply NoDup_app in Hw.
    apply (run_ok_waiting e (u :: rest) [] fl fl n c Hok); [apply Hw|set_solver|]. by rewrite Hd.
  - by apply (respond_ok e e' us l1 u l2 n c now rpc check).
  - exact (check_ok e e' (Some us) us fl (S n) n c x Hok eq_refl E).
Qed.

Lemma run_step_same ev r r' : run_ok r -> run_step release ev r r' -> same_election (election r) (election r').
Proof using HV Hcand.
  intros Hok Hstep. pose proof (rn_election _ Hok) as He. destruct Hstep as [e e' x E|e u rest fl n c Hd|e u rest fl n c Hd|e e' us l1 u l2 n c now rpc check E|e e' us fl n c x E]; cbn in *.
  - by apply (CheckForDecision_ok e e' x He E).
  - apply same_election_refl.
  - apply same_election_refl.
  - destruct (has_responded_ e) eqn:Hr; [unfold HandleResponse in E; rewrite Hr in E; injection E as <- <-; apply same_election_refl|].
    destruct (rn_followers _ Hok u) as [Hf Hn]; [unfold waiting; cbn; set_solver|].
    by apply (HandleResponse_ok e now u rpc e' check He Hr Hf Hn E).
  - by apply (CheckForDecision_ok e e' x He E).
Qed.

(** A vote that is counted as granted is an answer of its voter that grants it. *)
Lemma run_step_votes ev r r' u :
  run_ok r -> run_step release ev r r' -> votes_ (vote_counter_ (election r')) !! u = Some kGranted ->
  votes_ (vote_counter_ (election r)) !! u = Some kGranted \/
  ∃ resp, ev = Answer u (RpcResponse resp) /\ vote_granted resp = true /\ responder_uuid resp = u /\ has_error resp = false.
Proof using HV Hcand.
  intros Hok Hstep. pose proof (rn_election _ Hok) as He. destruct Hstep as [e e' x E|e w rest fl n c Hd|e w rest fl n c Hd|e e' us l1 w l2 n c now rpc check E|e e' us fl n c x E]; cbn in *; intros Hu; auto.
  - destruct (CheckForDecision_ok e e' x He E) as (_ & _ & Ev & _). left. by rewrite <- Ev.
  - destruct (has_responded_ e) eqn:Hr; [unfold HandleResponse in E; rewrite Hr in E; injection E as <- <-; auto|].
    destruct (rn_followers _ Hok w) as [Hf Hn]; [unfold waiting; cbn; set_solver|].
    destruct (HandleResponse_ok e now w rpc e' check He Hr Hf Hn E) as (_ & _ & _ & _ & [(_ & v & Ev & Hv)|[_ Ev]]); rewrite Ev in Hu; [|auto].
    destruct (decide (u = w)) as [->|Hne]; [|rewrite lookup_insert_ne in Hu by done; auto].
    rewrite lookup_insert_eq in Hu. injection Hu as ->. destruct (Hv eq_refl) as (resp & -> & ?). right. by exists resp.
  - destruct (CheckForDecision_ok e e' x He E) as (_ & _ & Ev & _). left. by rewrite <- Ev.
Qed.

Lemma run_reachable_ok r r' :
  run_ok r -> rtc (some_step release) r r' ->
  run_ok r' /\ request_ (election r') = request_ (election r) /\
  majority_size_ (vote_counter_ (election r')) = majority_size_ (vote_counter_ (election r)).
Proof using HV Hcand.
  intros Hok Hr. revert Hok. induction Hr as [r|r1 r2 r3 [ev Hstep] Hr IH]; intros Hok; [done|].
  destruct (run_step_same ev r1 r2 Hok Hstep) as (<- & _ & <- & _). apply IH. by apply (run_step_ok ev r1).
Qed.

(** When there is nothing left to do the decision has been reported. *)
Lemma finished_responded r : run_ok r -> finished r -> has_responded_ (election r) = true.
Proof using HV Hcand.
  intros Hok (Hus & Hfl & Hn). destruct (rn_checked _ Hok Hn) as [Ed Hu]; [by rewrite Hus|]. rewrite <- Ed.
  destruct (decided (result_ (election r))) eqn:Hd; [done|exfalso]. pose proof (rn_election _ Hok) as He.
  apply (GetDecision_all_in (vote_counter_ (election r))); [|by apply Hu].
  unfold AreAllVotesIn, GetTotalVotesCounted. destruct (el_counter _ He) as [Hnum _ _ _ Hall Hvot]. rewrite Hall, Hnum.
  apply Z.eqb_eq. f_equal. destruct (voters_size V _ HV Hvot) as [Hle _].
  apply Nat.le_antisymm; [done|]. rewrite <- size_dom, <- (size_list_to_set (C := gset uuid) V) by done. apply subseteq_size.
  intros u Hin%elem_of_list_to_set. apply elem_of_dom. destruct (decide (u = cand)) as [->|Hne]; [by rewrite (el_self _ He)|].
  destruct (rn_voted _ Hok Hd u) as [Hw|?]; [by apply (el_followers _ He)| |done].
  unfold waiting in Hw. rewrite Hus, Hfl in Hw. by apply elem_of_nil in Hw.
Qed.

(** Until then there is something to do, and each step leaves less of it. *)
Lemma run_progress r : run_ok r -> ¬ finished r -> ∃ r', some_step release r r'.
Proof using HV Hcand.
  intros Hok Hnf. destruct r as [e [[|u us]|] fl n c].
  - destruct fl as [|u fl].
    + destruct n as [|n]; [by destruct Hnf|]. destruct (CheckForDecision e) as [e' x] eqn:E. eexists. exists Internal. by apply run_check.
    + destruct (rn_followers _ Hok u) as [Hf Hv]; [unfold waiting; cbn; by left|]. cbn in Hf, Hv.
      destruct (HandleResponse_error e 0 u (rn_election _ Hok) Hf Hv) as (e' & check & E).
      eexists. exists (Answer u RpcError). by apply (run_respond release e e' [] [] u fl n c 0 RpcError check).
  - destruct (decided (result_ e)) eqn:Hd; eexists; exists Internal; [by apply run_stop|by apply run_send].
  - destruct (rn_start _ Hok eq_refl) as (Hfl & Hn & Hr). cbn in *. subst fl n.
    assert (c = []) as -> by (pose proof (rn_calls _ Hok) as Hc; cbn in Hc; by rewrite Hr in Hc).
    destruct (CheckForDecision e) as [e' x] eqn:E. eexists. exists Internal. by apply run_start.
Qed.

Lemma run_measure_decreases r r' : some_step release r r' -> (run_measure r' < run_measure r)%nat.
Proof using.
  unfold run_measure. intros [ev Hstep]. destruct Hstep; cbn [unsent election in_flight checking length]; rewrite ?length_app; cbn [length]; try lia.
  destruct check; lia.
Qed.

(** The voters that granted their votes. *)
Lemma granted_quorum e :
  election_ok e -> decision (result_ e) = kGranted ->
  ∃ Q, NoDup Q /\ (∀ u, u ∈ Q <-> votes_ (vote_counter_ e) !! u = Some kGranted) /\ (∀ u, u ∈ Q -> u ∈ V) /\
    majority_size_ (vote_counter_ e) <= Z.of_nat (length Q).
Proof using HV.
  intros He Hg. exists (elements (dom (granted (votes_ (vote_counter_ e))))). destruct (el_counter e He) as [_ _ Hy _ _ Hvot].
  assert (∀ u, u ∈ elements (dom (granted (votes_ (vote_counter_ e)))) <-> votes_ (vote_counter_ e) !! u = Some kGranted) as Hiff.
  { intros u. rewrite elem_of_elements, elem_of_dom. unfold granted. split.
    - intros [v [Hu Hv]%map_lookup_filter_Some]. cbn in Hv. by subst v.
    - intros Hu. exists kGranted. by apply map_lookup_filter_Some. }
  split; [apply NoDup_elements|]. split; [done|]. split; [intros u Hu%Hiff; by eapply Hvot|].
  change (length (elements (dom (granted (votes_ (vote_counter_ e)))))) with (size (dom (granted (votes_ (vote_counter_ e))))).
  rewrite size_dom, <- Hy. by apply He.
Qed.

End invariant.

(** ** A new election *)

(** The counter with the vote of the candidate itself
    ([RaftConsensus::CreateElectionUnlocked]). *)
Definition counter_with_self_vote (release : bool) (config : RaftConfigPB) (self : uuid) : Outcome (Result VoteCounter) :=
  let num_voters := CountVoters config in
  majority_size ← MajoritySize release num_voters;
  counter ← new_VoteCounter num_voters majority_size;
  match RegisterVote self kGranted counter with
  | (counter, Ok duplicate) => _ ← CHECK (negb duplicate); Done (Ok counter)
  | (_, Error c) => Done (Error c)
  end.

Definition followers_of (cand : uuid) (l : list RaftPeerPB) : list uuid :=
  List.filter (λ u, negb (bool_decide (u = cand)))
    (permanent_uuid <$> List.filter (λ p, bool_decide (member_type p = VOTER)) l).

Lemma collect_followers_ok cand l acc :
  NoDup (acc ++ followers_of cand l) -> collect_followers cand l acc = Done (acc ++ followers_of cand l).
Proof.
  revert acc. induction l as [|p l IH]; intros acc Hn; cbn [collect_followers]; [by rewrite app_nil_r|].
  unfold followers_of in *. cbn [List.filter] in *.
  destruct (bool_decide (cand = permanent_uuid p)) eqn:Ec.
  - apply bool_decide_eq_true in Ec as ->. destruct (bool_decide (member_type p = VOTER)); [|by apply IH].
    cbn [fmap list_fmap List.filter] in *. rewrite (bool_decide_eq_true_2 (permanent_uuid p = permanent_uuid p)) in * by done.
    cbn [negb] in *. by apply IH.
  - apply bool_decide_eq_false in Ec. destruct (bool_decide (member_type p = VOTER)); cbn [negb]; [|by apply IH].
    cbn [fmap list_fmap List.filter] in *. rewrite (bool_decide_eq_false_2 (permanent_uuid p = cand)) in * by congruence. cbn [negb] in *.
    assert (permanent_uuid p ∉ acc) as Hp.
    { apply NoDup_app in Hn as (_ & Hd & _). intros Hin. apply (Hd _ Hin). by left. }
    rewrite bool_decide_eq_false_2 by done. cbn [negb CHECK mbind outcome_bind]. rewrite IH; [by rewrite <- app_assoc|].
    by rewrite <- app_assoc.
Qed.

Lemma followers_of_voters cand config :
  NoDup (voters config) -> cand ∈ voters config ->
  NoDup (followers_of cand (peers config)) /\ (∀ u, u ∈ followers_of cand (peers config) <-> u ∈ voters config /\ u ≠ cand) /\
  length (voters config) = S (length (followers_of cand (peers config))).
Proof.
  intros Hn Hc. unfold followers_of. fold (voters config).
  assert (∀ u, u ∈ List.filter (λ u, negb (bool_decide (u = cand))) (voters config) <-> u ∈ voters config /\ u ≠ cand) as Hiff.
  { intros u. rewrite elem_of_List_filter, negb_true_iff, bool_decide_eq_false. done. }
  assert (NoDup (List.filter (λ u, negb (bool_decide (u = cand))) (voters config))) as Hnf.
  { rewrite <- (list_fmap_id (voters config)) in Hn. apply (NoDup_map_filter id (λ u, negb (bool_decide (u = cand)))) in Hn.
    by rewrite list_fmap_id in Hn. }
  split; [done|]. split; [done|]. apply Nat.le_antisymm; [by apply filter_removed_length|].
  change (S (length ?l)) with (length (cand :: l)). apply submseteq_length, NoDup_submseteq.
  - apply NoDup_cons. split; [|done]. by intros [_ ?]%Hiff.
  - intros u [->|[? _]%Hiff]%elem_of_cons; done.
Qed.

(** The election of a voter starts with its own vote and waits for the others. *)
Lemma new_election release config request pre :
  config_ok config -> candidate_uuid request ∈ voters config ->
  ∃ c e, counter_with_self_vote release config (candidate_uuid request) = Done (Ok c) /\
    new_LeaderElection config request c pre = Done e /\
    election_ok (voters config) (candidate_uuid request) e /\
    votes_ (vote_counter_ e) = {[candidate_uuid request := kGranted]} /\ has_responded_ e = false /\
    request_ e = request /\ preelection (result_ e) = pre /\ decided (result_ e) = false /\
    MajoritySize release (CountVoters config) = Done (majority_size_ (vote_counter_ e)).
Proof.
  intros Hc Hin. set (cand := candidate_uuid request) in *. pose proof (voters_NoDup config Hc) as HV.
  destruct (followers_of_voters cand config HV Hin) as (Hn & Hf & Hl).
  assert (1 <= CountVoters config) as Hpos by (rewrite CountVoters_voters by done; lia).
  destruct (MajoritySize release (CountVoters config)) as [m| |] eqn:Em;
    [|unfold MajoritySize in Em; rewrite (proj2 (Z.leb_le _ _)) in Em by done; by destruct release..].
  destruct (majority_bounds _ _ _ Em) as [Hm1 Hm2]; [lia|].
  unfold counter_with_self_vote. rewrite Em. cbn [mbind outcome_bind]. unfold new_VoteCounter.
  rewrite (proj2 (Z.leb_le m _)), (proj2 (Z.ltb_lt 0 (CountVoters config))), (proj2 (Z.ltb_lt 0 m)) by lia. cbn [CHECK mbind outcome_bind].
  assert (counter_ok (voters config) (mkVoteCounter (CountVoters config) m ∅ 0 0)) as Hok0.
  { split; cbn; try done; [by apply CountVoters_voters|lia]. }
  destruct (RegisterVote_new _ _ cand kGranted HV Hok0 Hin) as (c & E & Hok & Ev & En & Emm); [done..|]. rewrite E.
  cbn [CHECK negb mbind outcome_bind]. cbn in En, Emm. cbn [votes_] in Ev. rewrite insert_empty in Ev.
  assert (GetTotalVotesCounted c = 1) as Htot.
  { unfold GetTotalVotesCounted. by rewrite (vc_all _ _ Hok), Ev, map_size_singleton. }
  exists c. unfold new_LeaderElection. fold cand. rewrite collect_followers_ok by done. cbn [mbind outcome_bind app].
  rewrite Htot. cbn [CHECK Z.eqb Pos.eqb mbind outcome_bind]. unfold GetTotalExpectedVotes. rewrite En, CountVoters_voters, Hl by done.
  rewrite (proj2 (Z.eqb_eq _ _)) by lia. cbn [CHECK mbind outcome_bind]. eexists. split; [reflexivity|]. split; [reflexivity|].
  split; [|cbn; rewrite Ev, Emm; done].
  split; cbn; try done; by rewrite Ev, lookup_singleton_eq.
Qed.

(** Only a voter can start an election. *)
Lemma new_election_voter release config request c pre e :
  config_ok config -> counter_with_self_vote release config (candidate_uuid request) = Done (Ok c) ->
  new_LeaderElection config request c pre = Done e -> candidate_uuid request ∈ voters config.
Proof.
  intros Hc Ec Ee. destruct (decide (candidate_uuid request ∈ voters config)) as [|Hn]; [done|exfalso].
  unfold counter_with_self_vote in Ec. apply outcome_bind_Done in Ec as (m & _ & Ec). apply outcome_bind_Done in Ec as (c0 & E0 & Ec).
  unfold new_VoteCounter in E0. apply outcome_bind_Done in E0 as (_ & _ & E0). apply outcome_bind_Done in E0 as ([] & Hpos & E0).
  apply outcome_bind_Done in E0 as (_ & _ & [= <-]). unfold RegisterVote in Ec. cbn [votes_] in Ec. rewrite lookup_empty in Ec.
  cbn [yes_votes_ no_votes_ num_voters_] in Ec. destruct (_ =? _); [done|]. cbn in Ec. injection Ec as <-.
  assert (followers_of (candidate_uuid request) (peers config) = voters config) as Ef.
  { unfold followers_of. fold (voters config). apply List.forallb_filter_id, List.forallb_forall. intros u Hu%list_elem_of_In.
    apply negb_true_iff, bool_decide_eq_false. congruence. }
  unfold new_LeaderElection in Ee. rewrite collect_followers_ok in Ee by (rewrite Ef; by apply voters_NoDup). cbn [mbind outcome_bind app] in Ee.
  rewrite Ef in Ee. unfold GetTotalVotesCounted, GetTotalExpectedVotes in Ee. cbn [yes_votes_ no_votes_ num_voters_] in Ee.
  rewrite CountVoters_voters in Ee by done. change (0 + 1 + 0) with 1 in Ee. cbn [Z.eqb Pos.eqb CHECK mbind outcome_bind] in Ee.
  apply outcome_bind_Done in Ee as ([] & Hx & _). destruct (Z.eqb_spec (1 + Z.of_nat (length (voters config))) (Z.of_nat (length (voters config)))); [lia|]. done.
Qed.

(** ** Properties *)

(** The counter of an election reports a win exactly when a majority of
    distinct voters granted its vote, a loss only when a majority is out of
    reach, and one of them as soon as all votes are in; a voter is counted
    once, and what has been decided stays so whatever votes follow. *)
Theorem vote_counter_correct V c u v :
  NoDup V -> counter_ok V c ->
  (GetDecision c = kGranted <-> majority_size_ c <= Z.of_nat (size (granted (votes_ c)))) /\
  (GetDecision c = kDenied -> Z.of_nat (length V) - Z.of_nat (size (denied (votes_ c))) < majority_size_ c) /\
  (AreAllVotesIn c = true -> GetDecision c ≠ kUnknown) /\
  (u ∈ V -> v ≠ kUnknown ->
   let c' := (RegisterVote u v c).1 in
   counter_ok V c' /\ (votes_ c' !! u = Some (default v (votes_ c !! u))) /\
   (GetDecision c ≠ kUnknown -> GetDecision c' = GetDecision c)).
Proof.
  intros HV Hc. pose proof Hc as [Hnum Hmaj Hyes Hno Hall Hvot]. split; [by rewrite GetDecision_granted, Hyes|].
  split. { unfold GetDecision. destruct (_ <=? _); [done|]. destruct (Z.ltb_spec (num_voters_ c - majority_size_ c) (no_votes_ c)); [|done]. lia. }
  split; [apply GetDecision_all_in|]. intros Hu Hv. destruct (votes_ c !! u) as [w|] eqn:Ew.
  - rewrite (RegisterVote_old c u v w Ew). cbv zeta. by rewrite Ew.
  - destruct (RegisterVote_new V c u v HV Hc Hu Ew Hv) as (c' & E & Hc' & Ev & En & Em). rewrite E. cbn [fst].
    split; [done|]. rewrite Ev, lookup_insert_eq. split; [done|]. destruct (voters_size V _ HV (vc_voters _ _ Hc')) as [Hle _].
    unfold GetDecision. rewrite En, Em. destruct Hc' as [_ _ Hy' Hn' Hall' _]. rewrite Ev in *.
    pose proof (filter_insert_size (λ v, v = kGranted) (votes_ c) u v Ew) as Hg.
    pose proof (filter_insert_size (λ v, v = kDenied) (votes_ c) u v Ew) as Hd. cbn beta in Hg, Hd.
    unfold granted, denied in *. rewrite Hg in Hy'. rewrite Hd in Hn'.
    destruct (Z.leb_spec (majority_size_ c) (yes_votes_ c)); [rewrite (proj2 (Z.leb_le _ _)) by lia; done|].
    destruct (Z.ltb_spec (num_voters_ c - majority_size_ c) (no_votes_ c)); [|done]. intros _.
    rewrite (proj2 (Z.leb_gt _ _)), (proj2 (Z.ltb_lt _ _)) by lia. done.
Qed.

Lemma vote_counter_correct_witness :
  let c := mkVoteCounter 3 2 {["a" := kGranted]} 1 0 in
  GetDecision c ≠ kGranted /\ GetDecision (RegisterVote "b" kGranted c).1 = kGranted.
Proof.
  intros c. assert (NoDup ["a"; "b"; "c"]) as HV by (apply (bool_decide_unpack _); vm_compute; exact I).
  assert (counter_ok ["a"; "b"; "c"] c) as Hc.
  { split; [reflexivity|cbn; lia|reflexivity..|]. intros u v Hu. cbn [votes_ c] in Hu. apply lookup_singleton_Some in Hu as [<- _]. by left. }
  destruct (vote_counter_correct ["a"; "b"; "c"] c "b" kGranted HV Hc) as (Hg & _ & _ & Hr).
  split; [intros Hx%Hg; vm_compute in Hx; congruence|].
  destruct Hr as (Hc' & _); [by right; left|done|]. vm_compute. reflexivity.
Defined.

(** C11: an election whose answers arrive in any order on any threads calls its
    callback at most once, for the term of the request, with a decision; with
    a win only if a majority of the voters of the configuration granted their
    votes. Until it has called it there is always a step to take, and every run
    ends with the callback called. *)
Theorem election_run_correct release config type request pre c e r :
  VerifyRaftConfig config type = Ok tt -> IsRaftConfigVoter (candidate_uuid request) config = true ->
  counter_with_self_vote release config (candidate_uuid request) = Done (Ok c) ->
  new_LeaderElection config request c pre = Done e ->
  rtc (some_step release) (run_of e) r ->
  (length (calls r) <= 1)%nat /\
  (∀ res, res ∈ calls r -> election_term res = candidate_term request /\ decided res = true /\
     (decision res = kGranted -> ∃ m Q, MajoritySize release (CountVoters config) = Done m /\ quorum config m Q /\
        ∀ u, u ∈ Q -> votes_ (vote_counter_ (election r)) !! u = Some kGranted)) /\
  (finished r -> ∃ res, calls r = [res]) /\
  (¬ finished r -> ∃ r', some_step release r r') /\
  (∀ r', some_step release r r' -> (run_measure r' < run_measure r)%nat).
Proof.
  intros [Hc _]%VerifyRaftConfig_ok Hv%(IsRaftConfigVoter_voters _ _ Hc) Ec Ee Hr. pose proof (voters_NoDup config Hc) as HV.
  destruct (new_election release config request pre Hc Hv) as (c1 & e1 & Ec1 & Ee1 & Hok & Ev & Hres & Ereq & _ & _ & Em).
  rewrite Ec in Ec1. injection Ec1 as <-. rewrite Ee in Ee1. injection Ee1 as <-.
  pose proof (run_of_ok (voters config) (candidate_uuid request) e Hok Ev Hres) as H0.
  destruct (run_reachable_ok release _ _ HV Hv _ _ H0 Hr) as (Hrun & Er & Emaj). cbn [run_of election] in Er, Emaj.
  split; [rewrite (rn_calls _ _ _ Hrun); by destruct (has_responded_ (election r)); [|apply Nat.le_0_l]|].
  split; [|split; [|split]].
  - intros res Hin. rewrite (rn_calls _ _ _ Hrun) in Hin. destruct (has_responded_ (election r)) eqn:Hhr; [|by apply elem_of_nil in Hin].
    apply list_elem_of_singleton in Hin as ->. pose proof (rn_election _ _ _ Hrun) as Hel.
    split; [by rewrite (el_term _ _ _ Hel), Er, Ereq|]. split; [by apply (el_responded _ _ _ Hel)|]. intros Hg.
    destruct (granted_quorum (voters config) (candidate_uuid request) HV _ Hel Hg) as (Q & HQ & HQi & HQV & HQm).
    exists (majority_size_ (vote_counter_ e)), Q. split; [done|]. split; [|by intros u Hu; apply HQi].
    split; [done|]. split; [|by rewrite <- Emaj]. intros u Hu. apply IsRaftConfigVoter_voters; auto.
  - intros Hfin. rewrite (rn_calls _ _ _ Hrun), (finished_responded (voters config) (candidate_uuid request) HV Hv r Hrun Hfin). by eexists.
  - intros Hnf. by apply (run_progress release (voters config) (candidate_uuid request)).
  - intros r'. apply run_measure_decreases.
Qed.

Definition sample_request : VoteRequestPB := mkVoteRequestPB "a" 5 (mkOpId 4 17) false false.

Definition sample_election : LeaderElection :=
  mkLeaderElection sample_request ["b"; "c"] (mkVoteCounter 3 2 {["a" := kGranted]} 1 0)
    (mkElectionResult false EmptyString 5 kUnknown None no_CoarseTimeLease no_PhysicalComponentLease) false.

Lemma election_run_correct_witness :
  ∃ r', some_step false (mkRun sample_election (Some ["b"; "c"]) [] 0 []) r'.
Proof.
  destruct (election_run_correct false sample_config COMMITTED_QUORUM sample_request false (vote_counter_ sample_election) sample_election
    (mkRun sample_election (Some ["b"; "c"]) [] 0 [])) as (_ & _ & _ & Hp & _).
  - reflexivity.
  - reflexivity.
  - vm_compute. reflexivity.
  - vm_compute. reflexivity.
  - apply rtc_once. exists Internal. apply (run_start false sample_election sample_election None). reflexivity.
  - apply Hp. intros [Hu _]. discriminate Hu.
Defined.

(** A voter that does not know pre-elections takes the request for a real one;
    a debug build of the candidate dies when it is granted. *)
Lemma preelection_unknown_debug_crash :
  HandleResponse false 0 "b" (RpcResponse (mkVoteResponsePB "b" 6 true None EmptyString None EmptyString false None false))
    (mkLeaderElection (mkVoteRequestPB "a" 6 (mkOpId 4 17) false true) ["b"; "c"] (mkVoteCounter 3 2 {["a" := kGranted]} 1 0)
      (mkElectionResult true EmptyString 6 kUnknown None no_CoarseTimeLease no_PhysicalComponentLease) false) = Fatal.
Proof. reflexivity. Qed.
