(* ===== verification/ConsensusMeta.v ===== *)
(** * Consensus metadata ([src/yb/consensus/consensus_meta.cc])

    What a replica keeps of the Raft state: the term, the vote and the
    committed configuration, which are written to disk, and a pending
    configuration and the leader, which are not. *)

From S2P Require Import Prelude MonoTime Quorum.
Local Open Scope Z_scope.

Record ConsensusMetadataPB : Type := mkConsensusMetadataPB {
  pb_committed_config : RaftConfigPB;
  pb_current_term : Z;
  pb_voted_for : option uuid
}.

Record ConsensusMetadata : Type := mkConsensusMetadata {
  cm_peer_uuid : uuid;
  pb_ : ConsensusMetadataPB;
  pending_config_ : option RaftConfigPB;
  leader_uuid_ : uuid;
  active_role_ : Role;
  on_disk : ConsensusMetadataPB
}.

Definition kMinimumTerm : Z := 0.

Definition current_term (m : ConsensusMetadata) : Z := pb_current_term (pb_ m).
Definition has_voted_for (m : ConsensusMetadata) : bool := bool_decide (is_Some (pb_voted_for (pb_ m))).
Definition committed_config (m : ConsensusMetadata) : RaftConfigPB := pb_committed_config (pb_ m).
Definition active_config (m : ConsensusMetadata) : RaftConfigPB := default (committed_config m) (pending_config_ m).

Definition with_pb (pb : ConsensusMetadataPB) (m : ConsensusMetadata) : ConsensusMetadata :=
  mkConsensusMetadata (cm_peer_uuid m) pb (pending_config_ m) (leader_uuid_ m) (active_role_ m) (on_disk m).

Definition voted_for (release : bool) (m : ConsensusMetadata) : Outcome uuid :=
  _ ← DCHECK release (has_voted_for m);
  Done (default EmptyString (pb_voted_for (pb_ m))).

Definition set_current_term (release : bool) (term : Z) (m : ConsensusMetadata) : Outcome ConsensusMetadata :=
  _ ← DCHECK release (kMinimumTerm <=? term);
  Done (with_pb (mkConsensusMetadataPB (committed_config m) term (pb_voted_for (pb_ m))) m).

Definition clear_voted_for (m : ConsensusMetadata) : ConsensusMetadata :=
  with_pb (mkConsensusMetadataPB (committed_config m) (current_term m) None) m.

Definition set_voted_for (release : bool) (u : uuid) (m : ConsensusMetadata) : Outcome ConsensusMetadata :=
  _ ← DCHECK release (negb (bool_decide (u = EmptyString)));
  Done (with_pb (mkConsensusMetadataPB (committed_config m) (current_term m) (Some u)) m).

(** [ToConsensusStatePB]; only voters of the committed configuration are
    reported as its leader. *)
Definition active_consensus_state (m : ConsensusMetadata) : ConsensusStatePB :=
  mkConsensusStatePB (Some (current_term m)) (Some (leader_uuid_ m)) (Some (active_config m)).

Definition committed_consensus_state (m : ConsensusMetadata) : ConsensusStatePB :=
  mkConsensusStatePB (Some (current_term m))
    (if IsRaftConfigVoter (leader_uuid_ m) (committed_config m) then Some (leader_uuid_ m) else None)
    (Some (committed_config m)).

Definition UpdateActiveRole (m : ConsensusMetadata) : ConsensusMetadata :=
  mkConsensusMetadata (cm_peer_uuid m) (pb_ m) (pending_config_ m) (leader_uuid_ m)
    (GetConsensusRole (cm_peer_uuid m) (active_consensus_state m)) (on_disk m).

Definition set_leader_uuid (u : uuid) (m : ConsensusMetadata) : ConsensusMetadata :=
  UpdateActiveRole (mkConsensusMetadata (cm_peer_uuid m) (pb_ m) (pending_config_ m) u (active_role_ m) (on_disk m)).

Definition set_committed_config (config : RaftConfigPB) (m : ConsensusMetadata) : ConsensusMetadata :=
  let m := with_pb (mkConsensusMetadataPB config (current_term m) (pb_voted_for (pb_ m))) m in
  match pending_config_ m with None => UpdateActiveRole m | Some _ => m end.

Definition clear_pending_config (m : ConsensusMetadata) : ConsensusMetadata :=
  UpdateActiveRole (mkConsensusMetadata (cm_peer_uuid m) (pb_ m) None (leader_uuid_ m) (active_role_ m) (on_disk m)).

Definition set_pending_config (config : RaftConfigPB) (m : ConsensusMetadata) : ConsensusMetadata :=
  UpdateActiveRole (mkConsensusMetadata (cm_peer_uuid m) (pb_ m) (Some config) (leader_uuid_ m) (active_role_ m) (on_disk m)).

(** A remote bootstrap: a later term forgets the vote. *)
Definition MergeCommittedConsensusStatePB (release : bool) (committed_cstate : ConsensusStatePB) (m : ConsensusMetadata)
    : Outcome ConsensusMetadata :=
  let term := default 0 (cstate_current_term committed_cstate) in
  m ← (if current_term m <? term
       then m' ← set_current_term release term m; Done (clear_voted_for m')
       else Done m);
  Done (clear_pending_config (set_committed_config (config_of committed_cstate) (set_leader_uuid EmptyString m))).

(** [Flush]: a configuration that is not well-formed is not written. *)
Definition Flush (m : ConsensusMetadata) : Result ConsensusMetadata :=
  _ ← VerifyRaftConfig (committed_config m) COMMITTED_QUORUM;
  Ok (mkConsensusMetadata (cm_peer_uuid m) (pb_ m) (pending_config_ m) (leader_uuid_ m) (active_role_ m) (pb_ m)).

Definition CHECK_OK {A} (r : Result A) : Outcome A := match r with Ok a => Done a | Error _ => Fatal end.

(** [Create] and [Load]: a new replica, and one that is started again. *)
Definition empty_metadata (peer_uuid : uuid) : ConsensusMetadata :=
  let pb := mkConsensusMetadataPB (mkRaftConfigPB None []) 0 None in
  mkConsensusMetadata peer_uuid pb None EmptyString UNKNOWN_ROLE pb.

Definition Create (release : bool) (peer_uuid : uuid) (config : RaftConfigPB) (term : Z) : Outcome (Result ConsensusMetadata) :=
  m ← set_current_term release term (set_committed_config config (empty_metadata peer_uuid));
  Done (Flush m).

Definition Load (peer_uuid : uuid) (disk : ConsensusMetadataPB) : ConsensusMetadata :=
  UpdateActiveRole (mkConsensusMetadata peer_uuid disk None EmptyString UNKNOWN_ROLE disk).

(** ** Lemmas *)

(** The role is always that of the active configuration and the leader. *)
Definition role_ok (m : ConsensusMetadata) : Prop :=
  active_role_ m = GetConsensusRole (cm_peer_uuid m) (active_consensus_state m).

Lemma UpdateActiveRole_ok m : role_ok (UpdateActiveRole m).
Proof. done. Qed.

Lemma with_pb_role m pb : pb_committed_config pb = committed_config m -> role_ok m -> role_ok (with_pb pb m).
Proof.
  unfold role_ok, GetConsensusRole, active_consensus_state, active_config, config_of, committed_config, leader_uuid_of.
  cbn. intros ->. done.
Qed.

Lemma Flush_Ok m m' :
  Flush m = Ok m' -> on_disk m' = pb_ m /\ pb_ m' = pb_ m /\ cm_peer_uuid m' = cm_peer_uuid m /\
    pending_config_ m' = pending_config_ m /\ leader_uuid_ m' = leader_uuid_ m /\ active_role_ m' = active_role_ m.
Proof. unfold Flush. intros (? & _ & E)%result_bind_Ok. by injection E as <-. Qed.

Lemma Flush_verified m : VerifyRaftConfig (committed_config m) COMMITTED_QUORUM = Ok tt -> ∃ m', Flush m = Ok m'.
Proof. unfold Flush. intros ->. by eexists. Qed.
