(* ===== verification/RaftElection.v ===== *)
(** * Raft elections ([src/yb/consensus/raft_consensus.cc],
    [replica_state.cc])

    How a replica votes, starts an election and becomes the leader; and that
    with a fixed configuration no term has two leaders, whatever is lost,
    delayed, repeated or restarted. *)

From S2P Require Import Prelude MonoTime Quorum LeaderElection ConsensusMeta.
Local Open Scope Z_scope.

(** ** The replica *)

(** The parts of [ReplicaState] and [RaftConsensus] that take part in
    elections; timers, the log, the queue and the peers are not. *)
Record RaftConsensus : Type := mkRaftConsensus {
  cmeta_ : ConsensusMetadata;
  running : bool;
  last_received_op_id_ : OpId;
  last_received_op_id_current_leader_ : OpId;
  pending_election_opid_ : option OpId;
  old_leader_lease_ : LeaseData;
  old_leader_ht_lease_ : LeaseData;
  majority_replicated_lease_expiration_ : Z;
  majority_replicated_ht_lease_expiration_ : Z;
  withhold_votes_until_ : MonoTime.t;
  failed_elections_since_stable_leader_ : Z;
  disable_pre_elections_until_ : Z
}.

(** What a call finds around it: the clocks, the log, the flags, whether the
    update lock is held by another call, how many operations are committed, and
    the status of [PeerMessageQueue::UnRegisterObserver]. *)
Record Env : Type := mkEnv {
  env_now : MonoTime.t;
  env_coarse_now : Z;
  env_latest_op_id : OpId;
  env_update_lock_busy : bool;
  env_committed_index : Z;
  env_unregister_observer : Result unit;
  env_become_leader : Result unit;
  FLAGS_enable_leader_failure_detection : bool;
  FLAGS_use_preelection : bool;
  FLAGS_temporary_disable_preelections_timeout_ms : Z
}.

Definition with_cmeta (m : ConsensusMetadata) (s : RaftConsensus) : RaftConsensus :=
  mkRaftConsensus m (running s) (last_received_op_id_ s) (last_received_op_id_current_leader_ s) (pending_election_opid_ s)
    (old_leader_lease_ s) (old_leader_ht_lease_ s) (majority_replicated_lease_expiration_ s)
    (majority_replicated_ht_lease_expiration_ s) (withhold_votes_until_ s) (failed_elections_since_stable_leader_ s)
    (disable_pre_elections_until_ s).
Definition with_last_received_current_leader (id : OpId) (s : RaftConsensus) : RaftConsensus :=
  mkRaftConsensus (cmeta_ s) (running s) (last_received_op_id_ s) id (pending_election_opid_ s)
    (old_leader_lease_ s) (old_leader_ht_lease_ s) (majority_replicated_lease_expiration_ s)
    (majority_replicated_ht_lease_expiration_ s) (withhold_votes_until_ s) (failed_elections_since_stable_leader_ s)
    (disable_pre_elections_until_ s).
Definition with_pending_election (id : option OpId) (s : RaftConsensus) : RaftConsensus :=
  mkRaftConsensus (cmeta_ s) (running s) (last_received_op_id_ s) (last_received_op_id_current_leader_ s) id
    (old_leader_lease_ s) (old_leader_ht_lease_ s) (majority_replicated_lease_expiration_ s)
    (majority_replicated_ht_lease_expiration_ s) (withhold_votes_until_ s) (failed_elections_since_stable_leader_ s)
    (disable_pre_elections_until_ s).
Definition with_old_leases (lease ht_lease : LeaseData) (s : RaftConsensus) : RaftConsensus :=
  mkRaftConsensus (cmeta_ s) (running s) (last_received_op_id_ s) (last_received_op_id_current_leader_ s) (pending_election_opid_ s)
    lease ht_lease (majority_replicated_lease_expiration_ s)
    (majority_replicated_ht_lease_expiration_ s) (withhold_votes_until_ s) (failed_elections_since_stable_leader_ s)
    (disable_pre_elections_until_ s).
Definition with_own_leases (lease ht_lease : Z) (s : RaftConsensus) : RaftConsensus :=
  mkRaftConsensus (cmeta_ s) (running s) (last_received_op_id_ s) (last_received_op_id_current_leader_ s) (pending_election_opid_ s)
    (old_leader_lease_ s) (old_leader_ht_lease_ s) lease ht_lease (withhold_votes_until_ s)
    (failed_elections_since_stable_leader_ s) (disable_pre_elections_until_ s).
Definition with_withhold_votes (t : MonoTime.t) (s : RaftConsensus) : RaftConsensus :=
  mkRaftConsensus (cmeta_ s) (running s) (last_received_op_id_ s) (last_received_op_id_current_leader_ s) (pending_election_opid_ s)
    (old_leader_lease_ s) (old_leader_ht_lease_ s) (majority_replicated_lease_expiration_ s)
    (majority_replicated_ht_lease_expiration_ s) t (failed_elections_since_stable_leader_ s) (disable_pre_elections_until_ s).
Definition with_failed_elections (n : Z) (s : RaftConsensus) : RaftConsensus :=
  mkRaftConsensus (cmeta_ s) (running s) (last_received_op_id_ s) (last_received_op_id_current_leader_ s) (pending_election_opid_ s)
    (old_leader_lease_ s) (old_leader_ht_lease_ s) (majority_replicated_lease_expiration_ s)
    (majority_replicated_ht_lease_expiration_ s) (withhold_votes_until_ s) n (disable_pre_elections_until_ s).
Definition with_disable_pre_elections (t : Z) (s : RaftConsensus) : RaftConsensus :=
  mkRaftConsensus (cmeta_ s) (running s) (last_received_op_id_ s) (last_received_op_id_current_leader_ s) (pending_election_opid_ s)
    (old_leader_lease_ s) (old_leader_ht_lease_ s) (majority_replicated_lease_expiration_ s)
    (majority_replicated_ht_lease_expiration_ s) (withhold_votes_until_ s) (failed_elections_since_stable_leader_ s) t.

Definition peer_uuid (s : RaftConsensus) : uuid := cm_peer_uuid (cmeta_ s).
Definition GetCurrentTermUnlocked (s : RaftConsensus) : Z := current_term (cmeta_ s).
Definition GetActiveRoleUnlocked (s : RaftConsensus) : Role := active_role_ (cmeta_ s).
Definition GetActiveConfigUnlocked (s : RaftConsensus) : RaftConfigPB := active_config (cmeta_ s).
Definition GetLeaderUuidUnlocked (s : RaftConsensus) : uuid := leader_uuid_ (cmeta_ s).
Definition HasVotedCurrentTermUnlocked (s : RaftConsensus) : bool := has_voted_for (cmeta_ s).

(** [ReplicaState::SetLeaderUuidUnlocked]. *)
Definition state_SetLeaderUuidUnlocked (u : uuid) (s : RaftConsensus) : RaftConsensus :=
  with_cmeta (set_leader_uuid u (cmeta_ s)) s.
Definition ClearLeaderUnlocked (s : RaftConsensus) : RaftConsensus := state_SetLeaderUuidUnlocked EmptyString s.

(** [RaftConsensus::SetLeaderUuidUnlocked]. *)
Definition SetLeaderUuidUnlocked (u : uuid) (s : RaftConsensus) : RaftConsensus :=
  state_SetLeaderUuidUnlocked u (with_failed_elections 0 s).

(** An operation that changes the replica and may fail, in which case the
    change it made before stays. *)
Abbreviation Op A := (Outcome (RaftConsensus * Result A)).

Definition op_bind {A B : Type} (m : Op A) (k : A -> RaftConsensus -> Op B) : Op B :=
  match m with
  | Done (s, Ok a) => k a s
  | Done (s, Error c) => Done (s, Error c)
  | Fatal => Fatal
  | Undefined => Undefined
  end.

Section replica.
Context (release : bool) (env : Env).

Definition SetCurrentTermUnlocked (new_term : Z) (s : RaftConsensus) : Op unit :=
  if new_term <=? GetCurrentTermUnlocked s then Done (s, Error IllegalState)
  else
    m ← set_current_term release new_term (cmeta_ s);
    m ← CHECK_OK (Flush (clear_voted_for m));
    Done (with_last_received_current_leader (mkOpId 0 0) (ClearLeaderUnlocked (with_cmeta m s)), Ok tt).

Definition SetVotedForCurrentTermUnlocked (u : uuid) (s : RaftConsensus) : Op unit :=
  m ← set_voted_for release u (cmeta_ s);
  m ← CHECK_OK (Flush m);
  Done (with_cmeta m s, Ok tt).

(** [BecomeReplicaUnlocked]; an observer that is not found is no error. *)
Definition BecomeReplicaUnlocked (s : RaftConsensus) : Op unit :=
  let s := with_withhold_votes MonoTime.Min (ClearLeaderUnlocked s) in
  Done (s, match env_unregister_observer env with Error NotFound => Ok tt | r => r end).

Definition HandleTermAdvanceUnlocked (new_term : Z) (s : RaftConsensus) : Op unit :=
  if new_term <=? GetCurrentTermUnlocked s then Done (s, Error IllegalState)
  else
    op_bind
      (if bool_decide (GetActiveRoleUnlocked s = LEADER) then BecomeReplicaUnlocked s else Done (s, Ok tt))
      (λ _ s, SetCurrentTermUnlocked new_term s).

Definition IncrementTermUnlocked (s : RaftConsensus) : Op unit := HandleTermAdvanceUnlocked (GetCurrentTermUnlocked s + 1) s.

(** ** Voting *)

Definition response_for (s : RaftConsensus) (request : VoteRequestPB) (term : Z) (granted : bool)
    (error : option ConsensusErrorCode) : VoteResponsePB :=
  mkVoteResponsePB (peer_uuid s) term granted None EmptyString None EmptyString (request_preelection request) error false.

Definition FillVoteResponseVoteGranted (s : RaftConsensus) (request : VoteRequestPB) : VoteResponsePB :=
  response_for s request (candidate_term request) true None.
Definition FillVoteResponseVoteDenied (s : RaftConsensus) (request : VoteRequestPB) (code : ConsensusErrorCode) : VoteResponsePB :=
  response_for s request (GetCurrentTermUnlocked s) false (Some code).

(** A lease that has run out is forgotten; the rest is the time it still has. *)
Definition RemainingOldLeaderLeaseDuration (s : RaftConsensus) : RaftConsensus * MonoDelta.t :=
  if expiration (old_leader_lease_ s) =? kNoCoarseLease then (s, MonoDelta.kUninitialized)
  else if expiration (old_leader_lease_ s) <? env_coarse_now env
  then (with_old_leases no_CoarseTimeLease (old_leader_ht_lease_ s) s, MonoDelta.kUninitialized)
  else (s, expiration (old_leader_lease_ s) - env_coarse_now env).

Definition with_leases (s : RaftConsensus) (remaining : MonoDelta.t) (r : VoteResponsePB) : Outcome VoteResponsePB :=
  remaining_ms ← (if MonoDelta.Initialized remaining
                  then ms ← MonoDelta.ToMilliseconds release remaining; Done (Some (s32 ms)) else Done None);
  let ht := old_leader_ht_lease_ s in
  let has_ht := negb (expiration ht =? kNoPhysicalLease) in
  Done (mkVoteResponsePB (responder_uuid r) (responder_term r) (vote_granted r) remaining_ms
    (match remaining_ms with Some _ => holder_uuid (old_leader_lease_ s) | None => EmptyString end)
    (if has_ht then Some (expiration ht) else None) (if has_ht then holder_uuid ht else EmptyString)
    (response_preelection r) (consensus_error r) (has_error r)).

(** The part of [RequestVote] after the candidate is known to be the only one
    of its term. *)
Definition vote_for_candidate (request : VoteRequestPB) (s : RaftConsensus) : Op VoteResponsePB :=
  if OpIdLessThan (candidate_last_received request) (env_latest_op_id env)
  then Done (s, Ok (FillVoteResponseVoteDenied s request LAST_OPID_TOO_OLD))
  else
    let s := if request_preelection request then s else with_pending_election None s in
    let '(s, remaining) := RemainingOldLeaderLeaseDuration s in
    if request_preelection request then
      r ← with_leases s remaining (FillVoteResponseVoteGranted s request);
      Done (s, Ok r)
    else
      r ← with_leases s remaining (FillVoteResponseVoteGranted s request);
      op_bind (SetVotedForCurrentTermUnlocked (candidate_uuid request) s) (λ _ s, Done (s, Ok r)).

Definition RequestVote (request : VoteRequestPB) (s : RaftConsensus) : Op VoteResponsePB :=
  if negb (running s) then Done (s, Error IllegalState)
  else if FLAGS_enable_leader_failure_detection env && env_update_lock_busy env
  then Done (s, Ok (FillVoteResponseVoteDenied s request CONSENSUS_BUSY))
  else
    leader_is_alive ←
      (if negb (bool_decide (candidate_uuid request = GetLeaderUuidUnlocked s)) && negb (ignore_live_leader request)
       then MonoTime.ComesBefore release (env_now env) (withhold_votes_until_ s) else Done false);
    if (leader_is_alive : bool)
    then Done (s, Ok (FillVoteResponseVoteDenied s request LEADER_IS_ALIVE))
    else if candidate_term request <? GetCurrentTermUnlocked s
    then Done (s, Ok (FillVoteResponseVoteDenied s request INVALID_TERM))
    else if (candidate_term request =? GetCurrentTermUnlocked s) && HasVotedCurrentTermUnlocked s
    then
      v ← voted_for release (cmeta_ s);
      Done (s, Ok (if bool_decide (v = candidate_uuid request) then FillVoteResponseVoteGranted s request
                   else FillVoteResponseVoteDenied s request ALREADY_VOTED))
    else
      op_bind
        (if (GetCurrentTermUnlocked s <? candidate_term request) && negb (request_preelection request)
         then HandleTermAdvanceUnlocked (candidate_term request) s else Done (s, Ok tt))
        (λ _ s, vote_for_candidate request s).

(** ** Elections *)

Definition CreateElectionUnlocked (ignore_live_leader : bool) (preelection : bool) (s : RaftConsensus) : Op LeaderElection :=
  op_bind (if preelection then Done (s, Ok tt) else IncrementTermUnlocked s) (λ _ s,
  let new_term := GetCurrentTermUnlocked s + (if preelection then 1 else 0) in
  let config := GetActiveConfigUnlocked s in
  let num_voters := CountVoters config in
  _ ← MajoritySize release num_voters;
  op_bind (if preelection then Done (s, Ok tt) else SetVotedForCurrentTermUnlocked (peer_uuid s) s) (λ _ s,
  counter ← counter_with_self_vote release config (peer_uuid s);
  match counter with
  | Error c => Done (s, Error c)
  | Ok counter =>
      let request := mkVoteRequestPB (peer_uuid s) new_term (last_received_op_id_ s) ignore_live_leader preelection in
      e ← new_LeaderElection config request counter preelection;
      Done (if preelection then s else with_pending_election None s, Ok e)
  end)).

Record LeaderElectionData : Type := mkLeaderElectionData {
  elect_even_if_leader_is_alive : bool;
  pending_commit : bool;
  must_be_committed_opid : option OpId
}.

(** [DoStartElection]: the election to run, if one is started. *)
Definition DoStartElection (data : LeaderElectionData) (preelected : bool) (s : RaftConsensus) : Op (option LeaderElection) :=
  let preelection := FLAGS_use_preelection env && negb preelected && (disable_pre_elections_until_ s <? env_coarse_now env) in
  if negb (running s) then Done (s, Error IllegalState)
  else match GetActiveRoleUnlocked s with
  | LEADER | LEARNER | READ_REPLICA => Done (s, Ok None)
  | NON_PARTICIPANT => Done (s, Error IllegalState)
  | FOLLOWER | UNKNOWN_ROLE =>
      let required_id :=
        match must_be_committed_opid data with Some id => id | None => default (mkOpId 0 0) (pending_election_opid_ s) end in
      let start_now := negb (pending_commit data) || (index required_id <=? env_committed_index env) in
      if start_now then
        op_bind (CreateElectionUnlocked (elect_even_if_leader_is_alive data) preelection s) (λ e s, Done (s, Ok (Some e)))
      else Done (match must_be_committed_opid data with Some id => with_pending_election (Some id) s | None => s end, Ok None)
  end.

Definition UpdateOldLeaderLeaseExpirationOnNonLeaderUnlocked (lease ht_lease : LeaseData) (s : RaftConsensus) : RaftConsensus :=
  with_own_leases kNoCoarseLease kNoPhysicalLease
    (with_old_leases (TryUpdate lease (old_leader_lease_ s)) (TryUpdate ht_lease (old_leader_ht_lease_ s)) s).

(** [BecomeLeaderUnlocked]: no votes for others; appending the first operation
    of the term, whose outcome is [env_become_leader], may fail. The failure
    detector, the queue and whether that operation is committed are not part of
    the state. *)
Definition BecomeLeaderUnlocked (s : RaftConsensus) : Op unit :=
  Done (with_withhold_votes MonoTime.Max s, env_become_leader env).

(** [DoElectionCallback]: the new state, whether the replica became leader, and
    whether [DoStartElection] follows, once the lock is released, since a
    pre-election was won. *)
Definition DoElectionCallback (result : ElectionResult) (s : RaftConsensus)
    : Outcome (RaftConsensus * bool * bool) :=
  let s :=
    if bool_decide (preelections_not_supported_by_uuid result = EmptyString) then s
    else with_disable_pre_elections (env_coarse_now env + FLAGS_temporary_disable_preelections_timeout_ms env * 1000000) s in
  if bool_decide (decision result = kDenied) then
    let s := with_failed_elections (failed_elections_since_stable_leader_ s + 1) s in
    match higher_term result with
    | Some t =>
        if running s then '(s, _) ← HandleTermAdvanceUnlocked t s; Done (s, false, false)
        else Done (s, false, false)
    | None => Done (s, false, false)
    end
  else if negb (running s) then Done (s, false, false)
  else if negb (election_term result =? GetCurrentTermUnlocked s + (if preelection result then 1 else 0)) then Done (s, false, false)
  else if negb (IsRaftConfigVoter (peer_uuid s) (GetActiveConfigUnlocked s)) then Done (s, false, false)
  else if preelection result then Done (s, false, true)
  else if bool_decide (GetActiveRoleUnlocked s = LEADER) then
    _ ← LOG_DFATAL release;
    Done (s, false, false)
  else
    let s := UpdateOldLeaderLeaseExpirationOnNonLeaderUnlocked (old_leader_lease result) (old_leader_ht_lease result) s in
    let s := SetLeaderUuidUnlocked (peer_uuid s) s in
    '(s, r) ← BecomeLeaderUnlocked s;
    _ ← (match r with Ok _ => Done tt | Error _ => LOG_DFATAL release end);
    Done (s, true, false).

End replica.

(** ** What the operations do to the vote *)

Definition vote_of (s : RaftConsensus) : option uuid := pb_voted_for (pb_ (cmeta_ s)).

(** The replica [i] of a tablet with the configuration [config]; all of the
    vote is on disk. *)
Record node_ok (config : RaftConfigPB) (i : uuid) (s : RaftConsensus) : Prop := {
  nd_uuid : cm_peer_uuid (cmeta_ s) = i;
  nd_disk : on_disk (cmeta_ s) = pb_ (cmeta_ s);
  nd_config : committed_config (cmeta_ s) = config;
  nd_pending : pending_config_ (cmeta_ s) = None
}.

(** The term never goes back, and a vote is never taken back in its term. *)
Definition votes_kept (s s' : RaftConsensus) : Prop :=
  GetCurrentTermUnlocked s <= GetCurrentTermUnlocked s' /\
  (GetCurrentTermUnlocked s = GetCurrentTermUnlocked s' -> ∀ c, vote_of s = Some c -> vote_of s' = Some c).

#[export] Instance votes_kept_preorder : PreOrder votes_kept.
Proof.
  split; [intros s; by split|]. intros s1 s2 s3 [H1 H1'] [H2 H2']. split; [lia|]. intros E c Hc.
  apply H2'; [lia|]. apply H1'; [lia|done].
Qed.

(** The same metadata but for the leader and the role. *)
Definition same_vote (s s' : RaftConsensus) : Prop :=
  cm_peer_uuid (cmeta_ s') = cm_peer_uuid (cmeta_ s) /\ pb_ (cmeta_ s') = pb_ (cmeta_ s) /\
  on_disk (cmeta_ s') = on_disk (cmeta_ s) /\ pending_config_ (cmeta_ s') = pending_config_ (cmeta_ s).

Lemma same_vote_ok config i s s' : same_vote s s' -> node_ok config i s -> node_ok config i s' /\ votes_kept s s' /\ vote_of s' = vote_of s /\
  GetCurrentTermUnlocked s' = GetCurrentTermUnlocked s.
Proof.
  intros (Eu & Ep & Ed & En) [Hu Hd Hc Hp]. unfold committed_config in Hc.
  assert (vote_of s' = vote_of s) as Ev by (unfold vote_of; by rewrite Ep).
  assert (GetCurrentTermUnlocked s' = GetCurrentTermUnlocked s) as Et by (unfold GetCurrentTermUnlocked, current_term; by rewrite Ep).
  split; [split; unfold committed_config; congruence|]. split; [|done]. split; [lia|]. by rewrite Ev.
Qed.

Section operations.
Context (release : bool) (env : Env) (config : RaftConfigPB) (i : uuid).

Lemma SetCurrentTerm_ok t s s' r :
  node_ok config i s -> SetCurrentTermUnlocked release t s = Done (s', r) ->
  (s' = s /\ r = Error IllegalState /\ t <= GetCurrentTermUnlocked s) \/
  (r = Ok tt /\ GetCurrentTermUnlocked s < t /\ GetCurrentTermUnlocked s' = t /\ vote_of s' = None /\ node_ok config i s').
Proof.
  intros [Hu Hd Hc Hp] E. unfold SetCurrentTermUnlocked in E. destruct (Z.leb_spec t (GetCurrentTermUnlocked s)).
  { injection E as <- <-. by left. }
  right. unfold set_current_term in E. destruct (DCHECK _ _) as [[]| |]; [|done..]. cbn [mbind outcome_bind] in E.
  destruct (Flush _) as [m|] eqn:Ef; [|done]. cbn [CHECK_OK mbind outcome_bind] in E. injection E as <- <-.
  apply Flush_Ok in Ef as (Ed & Ep & Eu & En & _). split; [done|]. split; [done|].
  unfold GetCurrentTermUnlocked, current_term, vote_of. cbn. rewrite Ep. cbn. split; [done|]. split; [done|].
  split; unfold committed_config; cbn; rewrite ?Ep, ?Ed, ?En, ?Eu; done.
Qed.

Lemma SetVotedFor_ok u s s' r :
  node_ok config i s -> vote_of s = None \/ vote_of s = Some u -> SetVotedForCurrentTermUnlocked release u s = Done (s', r) ->
  r = Ok tt /\ node_ok config i s' /\ votes_kept s s' /\ vote_of s' = Some u /\ GetCurrentTermUnlocked s' = GetCurrentTermUnlocked s.
Proof.
  intros [Hu Hd Hc Hp] Hv E. unfold SetVotedForCurrentTermUnlocked, set_voted_for in E. destruct (DCHECK _ _) as [[]| |]; [|done..].
  cbn [mbind outcome_bind] in E. destruct (Flush _) as [m|] eqn:Ef; [|done]. cbn [CHECK_OK mbind outcome_bind] in E. injection E as <- <-.
  apply Flush_Ok in Ef as (Ed & Ep & Eu & En & _). split; [done|].
  assert (GetCurrentTermUnlocked (with_cmeta m s) = GetCurrentTermUnlocked s) as Et
    by (unfold GetCurrentTermUnlocked, current_term; cbn; rewrite Ep; done).
  assert (vote_of (with_cmeta m s) = Some u) as Ev by (unfold vote_of; cbn; rewrite Ep; done).
  split; [split; unfold committed_config; cbn; rewrite ?Ep, ?Ed, ?En, ?Eu; done|].
  split; [|done]. split; [lia|]. intros _ c Hcc. rewrite Ev. destruct Hv; congruence.
Qed.

Lemma BecomeReplica_same s s' r : BecomeReplicaUnlocked env s = Done (s', r) -> same_vote s s'.
Proof. intros [= <- _]. done. Qed.

Lemma HandleTermAdvance_ok t s s' r :
  node_ok config i s -> HandleTermAdvanceUnlocked release env t s = Done (s', r) ->
  node_ok config i s' /\ votes_kept s s' /\
  (r = Ok tt -> GetCurrentTermUnlocked s < t /\ GetCurrentTermUnlocked s' = t /\ vote_of s' = None).
Proof.
  intros Hs E. unfold HandleTermAdvanceUnlocked in E. destruct (Z.leb_spec t (GetCurrentTermUnlocked s)) as [Hle|Hlt].
  { injection E as <- <-. split; [done|]. split; [done|done]. }
  assert (∀ s1, same_vote s s1 -> SetCurrentTermUnlocked release t s1 = Done (s', r) ->
    node_ok config i s' /\ votes_kept s s' /\ (r = Ok tt -> GetCurrentTermUnlocked s < t /\ GetCurrentTermUnlocked s' = t /\ vote_of s' = None)) as Hset.
  { intros s1 Hsame E1. destruct (same_vote_ok config i s s1 Hsame Hs) as (Hs1 & Hk & _ & Et).
    destruct (SetCurrentTerm_ok t s1 s' r Hs1 E1) as [(-> & -> & _)|(-> & Hlt1 & Et' & Hv & Hs')]; [done|].
    split; [done|]. split; [|done]. split; [lia|]. intros Ec. lia. }
  case_bool_decide; [|by apply (Hset s)].
  destruct (BecomeReplicaUnlocked env s) as [[s1 [[]|c]]| |] eqn:Eb; [| |done..]; cbn [op_bind] in E; apply BecomeReplica_same in Eb.
  - by apply (Hset s1).
  - injection E as <- <-. destruct (same_vote_ok config i s s1 Eb Hs) as (? & ? & _). done.
Qed.

Lemma RemainingOldLeaderLease_same s : same_vote s (RemainingOldLeaderLeaseDuration env s).1.
Proof. unfold RemainingOldLeaderLeaseDuration. by repeat case_match. Qed.

(** The vote that is granted is the vote that is stored. *)
Lemma vote_for_candidate_ok request s s' r :
  node_ok config i s -> (request_preelection request = false -> vote_of s = None /\ GetCurrentTermUnlocked s = candidate_term request) ->
  vote_for_candidate release env request s = Done (s', r) ->
  node_ok config i s' /\ votes_kept s s' /\
  (∀ resp, r = Ok resp -> responder_uuid resp = i /\ has_error resp = false /\ (vote_granted resp = true -> request_preelection request = false ->
     GetCurrentTermUnlocked s' = candidate_term request /\ vote_of s' = Some (candidate_uuid request))).
Proof.
  intros Hs Hpre E. unfold vote_for_candidate in E. destruct (OpIdLessThan _ _).
  { injection E as <- <-. split; [done|]. split; [done|]. intros resp [= <-]. split; [apply (nd_uuid _ _ _ Hs)|]. done. }
  set (s1 := if request_preelection request then s else with_pending_election None s) in E.
  assert (same_vote s s1) as H1 by (unfold s1; by destruct (request_preelection request)).
  pose proof (RemainingOldLeaderLease_same s1) as H2. destruct (RemainingOldLeaderLeaseDuration env s1) as [s2 remaining]. cbn [fst] in H2.
  destruct (same_vote_ok config i s s1 H1 Hs) as (Hs1 & Hk1 & Ev1 & Et1).
  destruct (same_vote_ok config i s1 s2 H2 Hs1) as (Hs2 & Hk2 & Ev2 & Et2).
  assert (∀ rr, with_leases release s2 remaining (FillVoteResponseVoteGranted s2 request) = Done rr ->
    responder_uuid rr = i /\ has_error rr = false) as Hwl.
  { intros rr Err. unfold with_leases in Err. apply outcome_bind_Done in Err as (x & _ & [= <-]). split; [apply (nd_uuid _ _ _ Hs2)|done]. }
  destruct (request_preelection request) eqn:Hp.
  - apply outcome_bind_Done in E as (rr & Err & [= <- <-]). split; [done|]. split; [by etrans|].
    intros resp [= <-]. destruct (Hwl _ Err). done.
  - apply outcome_bind_Done in E as (rr & Err & E). destruct (Hpre eq_refl) as [Hv0 Ht0].
    destruct (SetVotedForCurrentTermUnlocked _ _ s2) as [[s3 r3]| |] eqn:Esv; [|done..].
    destruct (SetVotedFor_ok (candidate_uuid request) s2 s3 r3 Hs2) as (-> & Hs3 & Hk3 & Hv3 & Et3); [left; congruence|done|].
    cbn [op_bind] in E. injection E as <- <-. split; [done|]. split; [by etrans; [|etrans]|].
    intros resp [= <-]. destruct (Hwl _ Err). split; [done|]. split; [done|]. intros _ _. split; [congruence|done].
Qed.

Lemma RequestVote_ok request s s' r :
  node_ok config i s -> RequestVote release env request s = Done (s', r) ->
  node_ok config i s' /\ votes_kept s s' /\
  (∀ resp, r = Ok resp -> responder_uuid resp = i /\ has_error resp = false /\ (vote_granted resp = true -> request_preelection request = false ->
     GetCurrentTermUnlocked s' = candidate_term request /\ vote_of s' = Some (candidate_uuid request))).
Proof.
  intros Hs E. pose proof (nd_uuid _ _ _ Hs) as Hu.
  assert (∀ code, Done (s, Ok (FillVoteResponseVoteDenied s request code)) = Done (s', r) ->
    node_ok config i s' /\ votes_kept s s' /\
    (∀ resp, r = Ok resp -> responder_uuid resp = i /\ has_error resp = false /\ (vote_granted resp = true -> request_preelection request = false ->
     GetCurrentTermUnlocked s' = candidate_term request /\ vote_of s' = Some (candidate_uuid request)))) as Hden.
  { intros code [= <- <-]. split; [done|]. split; [done|]. by intros resp [= <-]. }
  unfold RequestVote in E. destruct (running s); cbn [negb] in E; [|by injection E as <- <-].
  destruct (_ && _); [by eapply Hden|]. apply outcome_bind_Done in E as (alive & _ & E). destruct alive; [by eapply Hden|].
  destruct (Z.ltb_spec (candidate_term request) (GetCurrentTermUnlocked s)) as [|Hge]; [by eapply Hden|].
  destruct ((candidate_term request =? GetCurrentTermUnlocked s) && HasVotedCurrentTermUnlocked s) eqn:Hvoted.
  - apply andb_true_iff in Hvoted as [Et%Z.eqb_eq Hv]. unfold voted_for in E. unfold HasVotedCurrentTermUnlocked in Hv. rewrite Hv in E.
    replace (DCHECK release true) with (Done tt) in E by (by destruct release). cbn [mbind outcome_bind] in E. case_bool_decide as Hc; [|by eapply Hden].
    injection E as <- <-. split; [done|]. split; [done|]. intros resp [= <-]. split; [done|]. split; [done|]. intros _ _. split; [done|].
    apply bool_decide_eq_true in Hv as [c Ec]. unfold vote_of. rewrite Ec in *. cbn in Hc. congruence.
  - destruct ((GetCurrentTermUnlocked s <? candidate_term request) && negb (request_preelection request)) eqn:Hadv.
    + apply andb_true_iff in Hadv as [_ Hnp%negb_true_iff].
      destruct (HandleTermAdvanceUnlocked release env (candidate_term request) s) as [[s1 [[]|c]]| |] eqn:Eh; [| |done..];
        destruct (HandleTermAdvance_ok _ _ _ _ Hs Eh) as (Hs1 & Hk1 & Hok); cbn [op_bind] in E; [|by injection E as <- <-].
      destruct (Hok eq_refl) as (_ & Et1 & Hv1). destruct (vote_for_candidate_ok request s1 s' r Hs1) as (? & ? & ?); [done|done|].
      split; [done|]. split; [by etrans|done].
    + cbn [op_bind] in E. apply (vote_for_candidate_ok request s s' r Hs); [|done]. intros Hnp. rewrite Hnp in Hadv. cbn [negb] in Hadv.
      rewrite andb_true_r in Hadv. apply Z.ltb_ge in Hadv. assert (candidate_term request = GetCurrentTermUnlocked s) as Et by lia.
      rewrite Et, Z.eqb_refl in Hvoted. cbn [andb] in Hvoted. split; [|done]. unfold HasVotedCurrentTermUnlocked, has_voted_for in Hvoted.
      apply bool_decide_eq_false in Hvoted. unfold vote_of. destruct (pb_voted_for _); [|done]. by destruct Hvoted.
Qed.

(** The term and the vote of a candidate. *)
Lemma own_term_ok (pre : bool) s s' r :
  node_ok config i s -> (if pre then Done (s, Ok tt) else IncrementTermUnlocked release env s) = Done (s', r) ->
  node_ok config i s' /\ votes_kept s s' /\ (r = Ok tt -> pre = false -> vote_of s' = None).
Proof.
  intros Hs E. destruct pre; [by injection E as <- <-|].
  destruct (HandleTermAdvance_ok _ _ _ _ Hs E) as (? & ? & Hx). split; [done|]. split; [done|]. intros Hr _. by apply Hx.
Qed.

Lemma own_vote_ok (pre : bool) s s' r :
  node_ok config i s -> (pre = false -> vote_of s = None) ->
  (if pre then Done (s, Ok tt) else SetVotedForCurrentTermUnlocked release (peer_uuid s) s) = Done (s', r) ->
  r = Ok tt /\ node_ok config i s' /\ votes_kept s s' /\ GetCurrentTermUnlocked s' = GetCurrentTermUnlocked s /\
  (pre = false -> vote_of s' = Some i).
Proof.
  intros Hs Hv E. destruct pre; [by injection E as <- <-|].
  destruct (SetVotedFor_ok (peer_uuid s) s s' r Hs) as (? & ? & ? & Hv' & ?); [left; by apply Hv|done|].
  unfold peer_uuid in Hv'. rewrite (nd_uuid _ _ _ Hs) in Hv'. done.
Qed.

(** A new election: its candidate is the replica, whose vote is the only one. *)
Record new_election_ok (pre : bool) (e : LeaderElection) : Prop := {
  ne_voter : i ∈ voters config;
  ne_run : run_ok (voters config) i (run_of e);
  ne_candidate : candidate_uuid (request_ e) = i;
  ne_preelection : request_preelection (request_ e) = pre /\ preelection (result_ e) = pre;
  ne_votes : votes_ (vote_counter_ e) = {[i := kGranted]};
  ne_majority : MajoritySize release (CountVoters config) = Done (majority_size_ (vote_counter_ e))
}.

Lemma CreateElection_ok ignore pre s s' r :
  config_ok config -> node_ok config i s -> CreateElectionUnlocked release env ignore pre s = Done (s', r) ->
  node_ok config i s' /\ votes_kept s s' /\
  (∀ e, r = Ok e -> new_election_ok pre e /\
     (pre = false -> GetCurrentTermUnlocked s' = candidate_term (request_ e) /\ vote_of s' = Some i)).
Proof.
  intros Hc Hs E. unfold CreateElectionUnlocked in E.
  destruct (if pre then _ else IncrementTermUnlocked release env s) as [[s1 r1]| |] eqn:E1; [|done..].
  destruct (own_term_ok _ _ _ _ Hs E1) as (Hs1 & Hk1 & Hv1). destruct r1 as [[]|c]; cbn [op_bind] in E; [|by injection E as <- <-].
  apply outcome_bind_Done in E as (mj & _ & E).
  destruct (if pre then _ else SetVotedForCurrentTermUnlocked _ _ _) as [[s2 r2]| |] eqn:E2; [|done..].
  destruct (own_vote_ok pre s1 s2 r2 Hs1 (Hv1 eq_refl) E2) as (-> & Hs2 & Hk2 & Et2 & Hv2). cbn [op_bind] in E.
  apply outcome_bind_Done in E as (counter & Ec & E).
  assert (votes_kept s s2) as Hk by (by etrans). destruct counter as [counter|c]; [|by injection E as <- <-].
  apply outcome_bind_Done in E as (e & Ee & [= <- <-]).
  assert (same_vote s2 (if pre then s2 else with_pending_election None s2)) as Hsame by (by destruct pre).
  destruct (same_vote_ok config i _ _ Hsame Hs2) as (Hs3 & Hk3 & Ev3 & Et3). split; [done|]. split; [by etrans|].
  intros e' [= <-]. assert (GetActiveConfigUnlocked s1 = config) as Econf
    by (unfold GetActiveConfigUnlocked, active_config; rewrite (nd_pending _ _ _ Hs1); apply Hs1).
  assert (peer_uuid s2 = i) as Ei by apply (nd_uuid _ _ _ Hs2). rewrite Econf, Ei in *.
  set (request := mkVoteRequestPB _ _ _ _ _) in Ee. change i with (candidate_uuid request) in Ec.
  pose proof (new_election_voter _ _ _ _ _ _ Hc Ec Ee) as Hvot.
  destruct (new_election release config request pre Hc Hvot) as (c1 & e1 & Ec1 & Ee1 & Hok & Ev & Hres & Ereq & Epre & _ & Em).
  rewrite Ec in Ec1. injection Ec1 as <-. rewrite Ee in Ee1. injection Ee1 as <-. change (candidate_uuid request) with i in *.
  split; [split; try done; [by apply run_of_ok|by rewrite Ereq|by rewrite Ereq]|].
  intros ->. rewrite Ereq, Et3, Ev3. split; [cbn; lia|by apply Hv2].
Qed.

Lemma DoStartElection_ok data preelected s s' r :
  config_ok config -> node_ok config i s -> DoStartElection release env data preelected s = Done (s', r) ->
  node_ok config i s' /\ votes_kept s s' /\
  (∀ e, r = Ok (Some e) -> ∃ pre, new_election_ok pre e /\
     (pre = false -> GetCurrentTermUnlocked s' = candidate_term (request_ e) /\ vote_of s' = Some i)).
Proof.
  intros Hc Hs E. unfold DoStartElection in E. destruct (running s); cbn [negb] in E; [|by injection E as <- <-].
  assert (∀ r0 : Result (option LeaderElection), (∀ e, r0 ≠ Ok (Some e)) -> Done (s, r0) = Done (s', r) -> node_ok config i s' /\ votes_kept s s' /\
    (∀ e, r = Ok (Some e) -> ∃ pre, new_election_ok pre e /\
     (pre = false -> GetCurrentTermUnlocked s' = candidate_term (request_ e) /\ vote_of s' = Some i))) as Hno.
  { intros r0 Hr0 [= <- <-]. split; [done|]. split; [done|]. intros e Hr. by destruct (Hr0 e). }
  set (pre := FLAGS_use_preelection env && _ && _) in E.
  destruct (GetActiveRoleUnlocked s); try by (eapply Hno; [|exact E]).
  all: destruct (_ || _);
    [destruct (CreateElectionUnlocked _ _ _ _ s) as [[s1 r1]| |] eqn:Ecr; [|done..];
     destruct (CreateElection_ok _ _ _ _ _ Hc Hs Ecr) as (Hs1 & Hk1 & He); destruct r1 as [e1|c]; cbn [op_bind] in E; injection E as <- <-;
     [split; [done|]; split; [done|]; intros e [= <-]; exists pre; by apply He|done]
    |injection E as <- <-].
  all: set (s1 := match must_be_committed_opid data with Some _ => _ | None => _ end);
    assert (same_vote s s1) as Hsame by (unfold s1; by destruct (must_be_committed_opid data));
    destruct (same_vote_ok config i _ _ Hsame Hs) as (? & ? & _); done.
Qed.

Lemma DoElectionCallback_ok result s s' became again :
  node_ok config i s -> DoElectionCallback release env result s = Done (s', became, again) ->
  node_ok config i s' /\ votes_kept s s' /\
  (became = true -> decision result ≠ kDenied /\ preelection result = false /\ election_term result = GetCurrentTermUnlocked s').
Proof.
  intros Hs E. unfold DoElectionCallback in E.
  set (s1 := if bool_decide (preelections_not_supported_by_uuid result = EmptyString) then s else _) in E.
  assert (same_vote s s1) as H1 by (unfold s1; by destruct (bool_decide _)).
  assert (∀ x, same_vote s1 x -> node_ok config i x /\ votes_kept s x /\ GetCurrentTermUnlocked x = GetCurrentTermUnlocked s1) as Hsame.
  { intros x Hx. destruct (same_vote_ok config i s s1 H1 Hs) as (Hs1 & Hk1 & _). destruct (same_vote_ok config i s1 x Hx Hs1) as (? & ? & _ & ?).
    split; [done|]. split; [by etrans|done]. }
  assert (∀ x b, same_vote s1 x -> Done (x, false, b) = Done (s', became, again) -> node_ok config i s' /\ votes_kept s s' /\
    (became = true -> decision result ≠ kDenied /\ preelection result = false /\ election_term result = GetCurrentTermUnlocked s')) as Hno.
  { intros x b Hx [= <- <- _]. by destruct (Hsame x Hx) as (? & ? & _). }
  case_bool_decide as Hden.
  - set (s2 := with_failed_elections _ s1) in E. destruct (higher_term result) as [t|]; [|by (eapply Hno; [|exact E])].
    destruct (running s2); [|by (eapply Hno; [|exact E])]. destruct (Hsame s2) as (Hs2 & Hk2 & _); [done|].
    apply outcome_bind_Done in E as ([s3 r3] & Eh & [= <- <- _]).
    destruct (HandleTermAdvance_ok _ _ _ _ Hs2 Eh) as (? & ? & _). split; [done|]. split; [by etrans|done].
  - destruct (running s1); cbn [negb] in E; [|by (eapply Hno; [|exact E])].
    destruct (Z.eqb_spec (election_term result) (GetCurrentTermUnlocked s1 + (if preelection result then 1 else 0))) as [Ht|];
      cbn [negb] in E; [|by (eapply Hno; [|exact E])].
    destruct (IsRaftConfigVoter _ _); cbn [negb] in E; [|by (eapply Hno; [|exact E])].
    destruct (preelection result) eqn:Hpre; [by (eapply Hno; [|exact E])|].
    case_bool_decide. { destruct (LOG_DFATAL release) as [[]| |]; [|done..]. by (eapply Hno; [|exact E]). }
    apply outcome_bind_Done in E as ([s3 r3] & Eb & E). apply outcome_bind_Done in E as (_ & _ & [= <- <- _]).
    unfold BecomeLeaderUnlocked in Eb. injection Eb as <- _. destruct (Hsame (with_withhold_votes MonoTime.Max
      (SetLeaderUuidUnlocked (peer_uuid (UpdateOldLeaderLeaseExpirationOnNonLeaderUnlocked (old_leader_lease result) (old_leader_ht_lease result) s1))
        (UpdateOldLeaderLeaseExpirationOnNonLeaderUnlocked (old_leader_lease result) (old_leader_ht_lease result) s1)))) as (? & ? & Et); [done|].
    split; [done|]. split; [done|]. intros _. split; [done|]. split; [done|]. rewrite Et, Ht. lia.
Qed.

End operations.

(** ** All replicas

    The replicas of a tablet, the elections they run, the requests ever sent
    and the answers ever given, and two histories: the votes cast and the
    replicas that became leader of a term. *)
Record system : Type := mkSystem {
  nodes : gmap uuid RaftConsensus;
  elections : gmap nat run_state;
  requests : gmap nat VoteRequestPB;
  answers : list (nat * uuid * VoteResponsePB);
  cast : list (uuid * Z * uuid);
  leaders : list (Z * uuid)
}.

(** The votes cast by starting an election and by answering a request. *)
Definition cast_by_start (i : uuid) (e : LeaderElection) : list (uuid * Z * uuid) :=
  if request_preelection (request_ e) then [] else [(i, candidate_term (request_ e), i)].
Definition cast_by_answer (u : uuid) (request : VoteRequestPB) (resp : VoteResponsePB) : list (uuid * Z * uuid) :=
  if vote_granted resp && negb (request_preelection request) then [(u, candidate_term request, candidate_uuid request)] else [].

(** An answer that can arrive: none, one that was given, or an error. *)
Definition may_arrive (sys : system) (n : nat) (u : uuid) (rpc : RpcResult) : Prop :=
  match rpc with
  | RpcError => True
  | RpcResponse resp => (n, u, resp) ∈ answers sys \/ has_error resp = true
  end.

(** A request may reach any replica, at any later time and any number of times;
    an answer may be lost or late. A replica may stop at any time and is started
    again from its disk, without its elections. What is not part of the vote
    (the leader it follows, the log, the leases, the timers) changes freely. *)
Inductive code_step (release : bool) : system -> system -> Prop :=
| step_start N E R A C L env data preelected i n s s' e :
    N !! i = Some s -> R !! n = None -> DoStartElection release env data preelected s = Done (s', Ok (Some e)) ->
    code_step release (mkSystem N E R A C L)
      (mkSystem (<[i := s']> N) (<[n := run_of e]> E) (<[n := request_ e]> R) A (C ++ cast_by_start i e) L)
| step_no_start N E R A C L env data preelected i s s' r :
    N !! i = Some s -> DoStartElection release env data preelected s = Done (s', r) -> (∀ e, r ≠ Ok (Some e)) ->
    code_step release (mkSystem N E R A C L) (mkSystem (<[i := s']> N) E R A C L)
| step_vote N E R A C L env n request u s s' resp :
    N !! u = Some s -> R !! n = Some request -> RequestVote release env request s = Done (s', Ok resp) ->
    code_step release (mkSystem N E R A C L)
      (mkSystem (<[u := s']> N) E R (A ++ [(n, u, resp)]) (C ++ cast_by_answer u request resp) L)
| step_no_vote N E R A C L env n request u s s' c :
    N !! u = Some s -> R !! n = Some request -> RequestVote release env request s = Done (s', Error c) ->
    code_step release (mkSystem N E R A C L) (mkSystem (<[u := s']> N) E R A C L)
| step_run N E R A C L n r r' :
    E !! n = Some r -> run_step release Internal r r' ->
    code_step release (mkSystem N E R A C L) (mkSystem N (<[n := r']> E) R A C L)
| step_answer N E R A C L n r u rpc r' :
    E !! n = Some r -> run_step release (Answer u rpc) r r' -> may_arrive (mkSystem N E R A C L) n u rpc ->
    code_step release (mkSystem N E R A C L) (mkSystem N (<[n := r']> E) R A C L)
| step_callback N E R A C L env n r result s s' became again :
    E !! n = Some r -> result ∈ calls r -> N !! candidate_uuid (request_ (election r)) = Some s ->
    DoElectionCallback release env result s = Done (s', became, again) ->
    code_step release (mkSystem N E R A C L)
      (mkSystem (<[candidate_uuid (request_ (election r)) := s']> N) E R A C
         (L ++ if (became : bool) then [(GetCurrentTermUnlocked s', candidate_uuid (request_ (election r)))] else []))
| step_term N E R A C L env i t s s' r :
    N !! i = Some s -> HandleTermAdvanceUnlocked release env t s = Done (s', r) ->
    code_step release (mkSystem N E R A C L) (mkSystem (<[i := s']> N) E R A C L).

Inductive free_step : system -> system -> Prop :=
| step_other N E R A C L i s s' :
    N !! i = Some s -> same_vote s s' ->
    free_step (mkSystem N E R A C L) (mkSystem (<[i := s']> N) E R A C L)
| step_crash N E R A C L i s s' :
    N !! i = Some s -> cmeta_ s' = Load i (on_disk (cmeta_ s)) ->
    free_step (mkSystem N E R A C L)
      (mkSystem (<[i := s']> N) (filter (λ nr, candidate_uuid (request_ (election nr.2)) ≠ i) E) R A C L).

Definition system_step (release : bool) (sys sys' : system) : Prop := code_step release sys sys' \/ free_step sys sys'.

(** Replicas loaded from disks with the configuration. *)
Definition initial (config : RaftConfigPB) (sys : system) : Prop :=
  (∀ i s, nodes sys !! i = Some s -> ∃ disk, cmeta_ s = Load i disk /\ pb_committed_config disk = config) /\
  elections sys = ∅ /\ requests sys = ∅ /\ answers sys = [] /\ cast sys = [] /\ leaders sys = [].

(** *** The invariant *)

(** A vote of the current term is the one that is stored. *)
Definition cast_ok (C : list (uuid * Z * uuid)) (u : uuid) (s : RaftConsensus) : Prop :=
  ∀ T c, (u, T, c) ∈ C -> T < GetCurrentTermUnlocked s \/ (T = GetCurrentTermUnlocked s /\ vote_of s = Some c).

Definition one_vote (C : list (uuid * Z * uuid)) : Prop := ∀ u T c c', (u, T, c) ∈ C -> (u, T, c') ∈ C -> c = c'.

Section safety.
Context (release : bool) (config : RaftConfigPB).

Definition nodes_ok (N : gmap uuid RaftConsensus) (C : list (uuid * Z * uuid)) : Prop :=
  (∀ i s, N !! i = Some s -> node_ok config i s /\ cast_ok C i s) /\ one_vote C.

(** The votes of an election, unless it is a pre-election, have been cast. *)
Record election_inv (C : list (uuid * Z * uuid)) (request : VoteRequestPB) (r : run_state) : Prop := {
  ei_request : request_ (election r) = request;
  ei_voter : candidate_uuid request ∈ voters config;
  ei_run : run_ok (voters config) (candidate_uuid request) r;
  ei_pre : preelection (result_ (election r)) = request_preelection request;
  ei_majority : MajoritySize release (CountVoters config) = Done (majority_size_ (vote_counter_ (election r)));
  ei_votes : request_preelection request = false -> ∀ u, votes_ (vote_counter_ (election r)) !! u = Some kGranted ->
    (u, candidate_term request, candidate_uuid request) ∈ C
}.

Definition elected (C : list (uuid * Z * uuid)) (T : Z) (i : uuid) : Prop :=
  ∃ m Q, MajoritySize release (CountVoters config) = Done m /\ quorum config m Q /\ ∀ u, u ∈ Q -> (u, T, i) ∈ C.

Record system_ok (sys : system) : Prop := {
  sy_nodes : nodes_ok (nodes sys) (cast sys);
  sy_elections : ∀ n r, elections sys !! n = Some r -> ∃ request, requests sys !! n = Some request /\ election_inv (cast sys) request r;
  sy_answers : ∀ n u resp, (n, u, resp) ∈ answers sys -> has_error resp = false -> vote_granted resp = true ->
    ∃ request, requests sys !! n = Some request /\
      (request_preelection request = false -> (u, candidate_term request, candidate_uuid request) ∈ cast sys);
  sy_leaders : ∀ T i, (T, i) ∈ leaders sys -> elected (cast sys) T i
}.

(** A replica that keeps its votes, and casts at most the one it stores. *)
Lemma nodes_step N C i s s' (new : list (uuid * Z * uuid)) :
  nodes_ok N C -> N !! i = Some s -> node_ok config i s' -> votes_kept s s' ->
  (∀ v, v ∈ new -> ∃ c, v = (i, GetCurrentTermUnlocked s', c) /\ vote_of s' = Some c) -> nodes_ok (<[i := s']> N) (C ++ new).
Proof using.
  intros [HN H1] Hi Hs' [Hk Hkv] Hnew. destruct (HN i s Hi) as [_ Hc].
  assert (cast_ok C i s') as Hc'.
  { intros T c Hin. destruct (Hc T c Hin) as [|[-> Hv]]; [left; lia|].
    destruct (decide (GetCurrentTermUnlocked s = GetCurrentTermUnlocked s')) as [E|]; [right; auto|left; lia]. }
  assert (cast_ok (C ++ new) i s') as Hc2.
  { intros T c [Hin|(x & [= -> ->] & Hv)%Hnew]%elem_of_app; [by apply Hc'|right; auto]. }
  split.
  - intros j x Hj. destruct (decide (j = i)) as [->|Hne]; [rewrite lookup_insert_eq in Hj; by injection Hj as <-|].
    rewrite lookup_insert_ne in Hj by done. destruct (HN j x Hj) as [Hx Hcx]. split; [done|].
    intros T c [Hin|(y & [= -> _ _] & _)%Hnew]%elem_of_app; [by apply Hcx|done].
  - assert (∀ u T c c', (u, T, c) ∈ C ++ new -> (u, T, c') ∈ new -> c = c') as Hone.
    { intros u T c c' Hin (x & [= -> -> ->] & Hv)%Hnew. destruct (Hc2 _ _ Hin) as [|[_ Hv']]; [lia|congruence]. }
    intros u T c c' Hin Hin'. pose proof Hin as [Ha|Ha]%elem_of_app; pose proof Hin' as [Hb|Hb]%elem_of_app.
    + by apply (H1 u T).
    + by apply (Hone u T).
    + symmetry. by apply (Hone u T).
    + by apply (Hone u T).
Qed.

Lemma election_inv_mono C C' request r : (∀ v, v ∈ C -> v ∈ C') -> election_inv C request r -> election_inv C' request r.
Proof using. intros Hsub []. split; auto. Qed.

Lemma elected_mono C C' T i : (∀ v, v ∈ C -> v ∈ C') -> elected C T i -> elected C' T i.
Proof using. intros Hsub (m & Q & ? & ? & HQ). exists m, Q. auto. Qed.

(** A step of a replica that leaves the elections as they are. *)
Lemma node_step_ok N E R A C L i s s' new :
  system_ok (mkSystem N E R A C L) -> N !! i = Some s -> node_ok config i s' -> votes_kept s s' ->
  (∀ v, v ∈ new -> ∃ c, v = (i, GetCurrentTermUnlocked s', c) /\ vote_of s' = Some c) ->
  system_ok (mkSystem (<[i := s']> N) E R A (C ++ new) L).
Proof using.
  intros [HN HE HA HL] Hi Hs' Hk Hnew. cbn in *. assert (∀ v, v ∈ C -> v ∈ C ++ new) as Hsub by set_solver.
  split; cbn.
  - by apply (nodes_step N C i s).
  - intros n r Hr. destruct (HE n r Hr) as (request & ? & ?). exists request. split; [done|]. by apply (election_inv_mono C).
  - intros n u resp Hin He Hg. destruct (HA n u resp Hin He Hg) as (request & ? & ?). exists request. split; [done|auto].
  - intros T j Hin. by apply (elected_mono C), HL.
Qed.

Lemma node_step_silent N E R A C L i s s' :
  system_ok (mkSystem N E R A C L) -> N !! i = Some s -> node_ok config i s' -> votes_kept s s' ->
  system_ok (mkSystem (<[i := s']> N) E R A C L).
Proof using. intros Hok Hi Hs' Hk. rewrite <- (app_nil_r C). apply (node_step_ok N E R A C L i s); try done. by intros v Hv%elem_of_nil. Qed.

(** A step of an election. *)
Lemma election_step_ok N E R A C L ev n r r' :
  config_ok config -> system_ok (mkSystem N E R A C L) -> E !! n = Some r -> run_step release ev r r' ->
  (∀ u rpc, ev = Answer u rpc -> may_arrive (mkSystem N E R A C L) n u rpc) ->
  system_ok (mkSystem N (<[n := r']> E) R A C L).
Proof using.
  intros Hc [HN HE HA HL] Hn Hstep Harr. cbn in *. split; cbn; try done. intros k x Hk.
  destruct (decide (k = n)) as [->|Hne]; [|rewrite lookup_insert_ne in Hk by done; by apply HE].
  rewrite lookup_insert_eq in Hk. injection Hk as <-. destruct (HE n r Hn) as (request & HR & [Ereq Hv Hrun Epre Emaj Hvotes]).
  exists request. split; [done|]. pose proof (voters_NoDup config Hc) as HV.
  destruct (run_step_same release _ _ HV Hv ev r r' Hrun Hstep) as (Es & _ & Em & Ep & _).
  split; [congruence|done|by apply (run_step_ok release _ _ HV Hv ev r)|congruence|congruence|].
  intros Hpre u Hu. destruct (run_step_votes release _ _ HV Hv ev r r' u Hrun Hstep Hu) as [?|(resp & -> & Hg & _ & Her)]; [auto|].
  destruct (Harr u _ eq_refl) as [Hin|]; [|congruence]. destruct (HA n u resp Hin Her Hg) as (request' & HR' & Hcast).
  rewrite HR in HR'. injection HR' as <-. auto.
Qed.

(** A callback of a won election finds its quorum. *)
Lemma won_elected C request r result :
  config_ok config -> election_inv C request r -> result ∈ calls r -> decision result ≠ kDenied -> preelection result = false ->
  elected C (election_term result) (candidate_uuid (request_ (election r))).
Proof using.
  intros Hc [Ereq Hv Hrun Epre Emaj Hvotes] Hin Hnd Hnp. pose proof (rn_election _ _ _ Hrun) as He.
  rewrite (rn_calls _ _ _ Hrun) in Hin. destruct (has_responded_ (election r)) eqn:Hr; [|by apply elem_of_nil in Hin].
  apply list_elem_of_singleton in Hin as ->. assert (decision (result_ (election r)) = kGranted) as Hg.
  { pose proof (el_responded _ _ _ He Hr) as Hd. unfold decided in Hd. apply negb_true_iff, bool_decide_eq_false in Hd.
    by destruct (decision (result_ (election r))). }
  destruct (granted_quorum _ _ (voters_NoDup config Hc) _ He Hg) as (Q & HQ & HQi & HQV & HQm).
  exists (majority_size_ (vote_counter_ (election r))), Q. split; [done|]. split.
  - split; [done|]. split; [|done]. intros u Hu. apply IsRaftConfigVoter_voters; auto.
  - intros u Hu%HQi. rewrite (el_term _ _ _ He), Ereq. apply Hvotes; [congruence|done].
Qed.

Lemma start_ok N E R A C L i n s s' e pre :
  system_ok (mkSystem N E R A C L) -> N !! i = Some s -> R !! n = None ->
  node_ok config i s' -> votes_kept s s' -> new_election_ok release config i pre e ->
  (pre = false -> GetCurrentTermUnlocked s' = candidate_term (request_ e) /\ vote_of s' = Some i) ->
  system_ok (mkSystem (<[i := s']> N) (<[n := run_of e]> E) (<[n := request_ e]> R) A (C ++ cast_by_start i e) L).
Proof using.
  intros Hok Hi Hn Hs' Hk [Hv Hrun Ec [Ep Ep'] Ev Em] Hvote.
  assert (∀ v, v ∈ cast_by_start i e -> ∃ c, v = (i, GetCurrentTermUnlocked s', c) /\ vote_of s' = Some c) as Hnew.
  { unfold cast_by_start. rewrite Ep. destruct pre; [by intros v ?%elem_of_nil|]. destruct (Hvote eq_refl) as [-> ?].
    intros v ->%list_elem_of_singleton. by exists i. }
  destruct (node_step_ok N E R A C L i s s' _ Hok Hi Hs' Hk Hnew) as [HN HE HA HL]. cbn in *. split; cbn; [done| | |done].
  - intros k r Hr. destruct (decide (k = n)) as [->|Hne].
    + rewrite lookup_insert_eq in Hr. injection Hr as <-. exists (request_ e). rewrite lookup_insert_eq. split; [done|].
      split; cbn; rewrite ?Ec; try done; [by rewrite Ep|]. intros Hpre u Hu. rewrite Ev in Hu. apply lookup_singleton_Some in Hu as [<- _].
      apply elem_of_app. right. unfold cast_by_start. rewrite Hpre. by apply list_elem_of_singleton.
    + rewrite lookup_insert_ne in Hr by done. rewrite lookup_insert_ne by done. by apply HE.
  - intros k u resp Hin He Hg. destruct (HA k u resp Hin He Hg) as (request & HR & Hcast). exists request.
    split; [|done]. rewrite lookup_insert_ne; [done|]. congruence.
Qed.

Lemma vote_ok N E R A C L n request u s s' resp :
  system_ok (mkSystem N E R A C L) -> N !! u = Some s -> R !! n = Some request -> node_ok config u s' -> votes_kept s s' ->
  (vote_granted resp = true -> request_preelection request = false ->
     GetCurrentTermUnlocked s' = candidate_term request /\ vote_of s' = Some (candidate_uuid request)) ->
  system_ok (mkSystem (<[u := s']> N) E R (A ++ [(n, u, resp)]) (C ++ cast_by_answer u request resp) L).
Proof using.
  intros Hok Hu HR Hs' Hk Hvote.
  assert (∀ v, v ∈ cast_by_answer u request resp -> ∃ c, v = (u, GetCurrentTermUnlocked s', c) /\ vote_of s' = Some c) as Hnew.
  { unfold cast_by_answer. destruct (vote_granted resp), (request_preelection request); cbn; try by intros v ?%elem_of_nil.
    destruct Hvote as [-> ?]; [done..|]. intros v ->%list_elem_of_singleton. by eexists. }
  destruct (node_step_ok N E R A C L u s s' _ Hok Hu Hs' Hk Hnew) as [HN HE HA HL]. cbn in *. split; cbn; [done|done| |done].
  intros k w x [Hin|[= -> -> ->]%list_elem_of_singleton]%elem_of_app He Hg; [by apply (HA k w x)|].
  exists request. split; [done|]. intros Hpre. apply elem_of_app. right. unfold cast_by_answer. rewrite Hg, Hpre. by apply list_elem_of_singleton.
Qed.

Lemma system_step_ok sys sys' : config_ok config -> system_ok sys -> system_step release sys sys' -> system_ok sys'.
Proof using.
  intros Hc Hok Hstep. assert (∀ i s, nodes sys !! i = Some s -> node_ok config i s) as Hnode by (intros i s Hi; by apply (sy_nodes sys Hok)).
  destruct Hstep as [Hstep|Hstep]; [destruct Hstep as [N E R A C L env data pe i n s s' e Hi Hn Es|N E R A C L env data pe i s s' r Hi Es Hr|N E R A C L env n q u s s' resp Hu Hq Ev
    |N E R A C L env n q u s s' c Hu Hq Ev|N E R A C L n r r' Hn Hr|N E R A C L n r u rpc r' Hn Hr Harr
    |N E R A C L env n r res s s' b ag Hn Hres Hs Ecb|N E R A C L env i t s s' r Hi Et]
    |destruct Hstep as [N E R A C L i s s' Hi Hsame|N E R A C L i s s' Hi Hl]]; cbn in Hnode.
  - destruct (DoStartElection_ok release env config i data pe s s' _ Hc (Hnode i s Hi) Es) as (? & ? & He).
    destruct (He e eq_refl) as (pre & ? & ?). by apply (start_ok N E R A C L i n s s' e pre).
  - destruct (DoStartElection_ok release env config i data pe s s' _ Hc (Hnode i s Hi) Es) as (? & ? & _). by apply (node_step_silent N E R A C L i s).
  - destruct (RequestVote_ok release env config u q s s' _ (Hnode u s Hu) Ev) as (? & ? & Hg). apply (vote_ok N E R A C L n q u s); try done.
    by apply Hg.
  - destruct (RequestVote_ok release env config u q s s' _ (Hnode u s Hu) Ev) as (? & ? & _). by apply (node_step_silent N E R A C L u s).
  - by apply (election_step_ok N E R A C L Internal n r).
  - apply (election_step_ok N E R A C L (Answer u rpc) n r); try done. by intros w x [= <- <-].
  - destruct (DoElectionCallback_ok release env config _ res s s' b ag (Hnode _ s Hs) Ecb) as (Hs' & Hk & Hb).
    destruct (sy_elections _ Hok n r Hn) as (q & _ & Hinv). cbn in Hinv.
    destruct (node_step_silent N E R A C L _ s s' Hok Hs Hs' Hk) as [HN HE HA HL]. cbn in *. split; cbn; try done.
    intros T i [Hin|Hin]%elem_of_app; [by apply HL|]. destruct b; [|by apply elem_of_nil in Hin].
    apply list_elem_of_singleton in Hin as [= -> ->]. destruct (Hb eq_refl) as (? & ? & <-). by apply (won_elected C q r res).
  - destruct (HandleTermAdvance_ok release env config i t s s' r (Hnode i s Hi) Et) as (? & ? & _). by apply (node_step_silent N E R A C L i s).
  - destruct (same_vote_ok config i s s' Hsame (Hnode i s Hi)) as (? & ? & _). by apply (node_step_silent N E R A C L i s).
  - destruct (Hnode i s Hi) as [Hu Hd Hcf Hp].
    assert (node_ok config i s') as Hs' by (split; unfold committed_config; rewrite Hl; cbn; [done|done|by rewrite Hd|done]).
    assert (votes_kept s s') as Hk by (unfold votes_kept, GetCurrentTermUnlocked, current_term, vote_of; rewrite Hl; cbn; rewrite Hd; done).
    destruct (node_step_silent N E R A C L i s s' Hok Hi Hs' Hk) as [HN HE HA HL]. split; try done. cbn in *.
    intros n r [Hr _]%map_lookup_filter_Some. by apply HE.
Qed.

Lemma system_initial_ok sys : initial config sys -> system_ok sys.
Proof using.
  intros (HN & EE & ER & EA & EC & EL). split.
  - split; [|intros u T c c'; rewrite EC; by intros ?%elem_of_nil]. intros i s Hi. destruct (HN i s Hi) as (disk & El & Ec).
    split; [split; unfold committed_config; by rewrite El|]. intros T c. rewrite EC. by intros ?%elem_of_nil.
  - intros n r. rewrite EE, lookup_empty. done.
  - intros n u resp. rewrite EA. by intros ?%elem_of_nil.
  - intros T i. rewrite EL. by intros ?%elem_of_nil.
Qed.

Lemma system_reachable_ok sys sys' : config_ok config -> system_ok sys -> rtc (system_step release) sys sys' -> system_ok sys'.
Proof using. intros Hc Hok Hr. induction Hr as [|x y z Hxy _ IH]; [done|]. apply IH. by apply (system_step_ok x). Qed.

Lemma one_leader sys T i j :
  config_ok config -> system_ok sys -> (T, i) ∈ leaders sys -> (T, j) ∈ leaders sys -> i = j.
Proof using.
  intros Hc [[_ H1] _ _ HL] (m & Q & Em & QQ & HQ)%HL (m' & Q' & Em' & QQ' & HQ')%HL. rewrite Em in Em'. injection Em' as <-.
  destruct (quorums_share release config m Q Q' Hc Em QQ QQ') as (u & Hu & Hu'). apply (H1 u T i j); auto.
Qed.

End safety.

(** ** Properties *)

(** C3: among the replicas of a tablet with one configuration, no term ever
    has two leaders: whatever requests and answers are lost, delayed or
    repeated, whatever pre-elections run besides, and whichever replicas stop
    and start again from disk. Every leader has the votes of a majority, and no
    replica votes for two candidates in a term. *)
Theorem raft_election_safety release config sys sys' :
  VerifyRaftConfig config COMMITTED_QUORUM = Ok tt -> initial config sys -> rtc (system_step release) sys sys' ->
  (∀ T i j, (T, i) ∈ leaders sys' -> (T, j) ∈ leaders sys' -> i = j) /\
  (∀ u T c c', (u, T, c) ∈ cast sys' -> (u, T, c') ∈ cast sys' -> c = c') /\
  (∀ T i, (T, i) ∈ leaders sys' -> elected release config (cast sys') T i).
Proof.
  intros [Hc _]%VerifyRaftConfig_ok Hi Hr. pose proof (system_reachable_ok release config sys sys' Hc (system_initial_ok release config sys Hi) Hr) as Hok.
  split; [intros T i j; by apply (one_leader release config)|]. destruct Hok as [[_ H1] _ _ HL]. done.
Qed.

(** A replica that starts an election, gets the vote of another, and becomes
    leader. *)
Definition sample_env : Env := mkEnv 1 1 (mkOpId 0 0) false 0 (Error NotFound) (Ok tt) true false 0.
Definition sample_node (u leader : uuid) (role : Role) (term : Z) (vote : option uuid) (withhold : MonoTime.t) : RaftConsensus :=
  let pb := mkConsensusMetadataPB sample_config term vote in
  mkRaftConsensus (mkConsensusMetadata u pb None leader role pb) true (mkOpId 0 0) (mkOpId 0 0) None
    no_CoarseTimeLease no_PhysicalComponentLease kNoCoarseLease kNoPhysicalLease withhold 0 0.
Definition sample_start (u : uuid) : RaftConsensus := sample_node u EmptyString FOLLOWER 0 None MonoTime.Min.
Definition sample_voted (u : uuid) : RaftConsensus := sample_node u EmptyString FOLLOWER 1 (Some "a") MonoTime.Min.
Definition sample_leader : RaftConsensus := sample_node "a" "a" LEADER 1 (Some "a") MonoTime.Max.
Definition sample_answer : VoteResponsePB := mkVoteResponsePB "b" 1 true None EmptyString None EmptyString false None false.
Definition sample_votes (votes : gmap uuid ElectionVote) (yes : Z) (d : ElectionVote) (responded : bool) : LeaderElection :=
  mkLeaderElection (mkVoteRequestPB "a" 1 (mkOpId 0 0) false false) ["b"; "c"] (mkVoteCounter 3 2 votes yes 0)
    (mkElectionResult false EmptyString 1 d None no_CoarseTimeLease no_PhysicalComponentLease) responded.
Definition sample_system : system :=
  mkSystem {["a" := sample_start "a"; "b" := sample_start "b"; "c" := sample_start "c"]} ∅ ∅ [] [] [].

Lemma sample_initial : initial sample_config sample_system.
Proof.
  split; [|done]. intros i s Hi. cbn [nodes sample_system] in Hi. exists (mkConsensusMetadataPB sample_config 0 None).
  apply lookup_insert_Some in Hi as [[<- <-]|[_ Hi]]; [done|]. apply lookup_insert_Some in Hi as [[<- <-]|[_ Hi]]; [done|].
  apply lookup_singleton_Some in Hi as [<- <-]. done.
Qed.

Lemma sample_run : ∃ sys, rtc (system_step false) sample_system sys /\ leaders sys = [(1, "a")].
Proof.
  set (e0 := sample_votes {["a" := kGranted]} 1 kUnknown false).
  set (e1 := sample_votes {["a" := kGranted; "b" := kGranted]} 2 kUnknown false).
  set (e2 := sample_votes {["a" := kGranted; "b" := kGranted]} 2 kGranted true).
  eexists. split.
  - eapply rtc_l.
    { left; apply (step_start _ _ _ _ _ _ _ sample_env (mkLeaderElectionData false false None) false "a" 0%nat
        (sample_start "a") (sample_voted "a") e0); vm_compute; reflexivity. }
    eapply rtc_l. { left; apply (step_run _ _ _ _ _ _ _ 0%nat (run_of e0) (mkRun e0 (Some ["b"; "c"]) [] 0 [])); [done|]. by apply (run_start _ e0 e0 None). }
    eapply rtc_l. { left; apply (step_run _ _ _ _ _ _ _ 0%nat (mkRun e0 (Some ["b"; "c"]) [] 0 []) (mkRun e0 (Some ["c"]) ["b"] 0 [])); [done|]. by apply run_send. }
    eapply rtc_l. { left; apply (step_vote _ _ _ _ _ _ _ sample_env 0%nat (request_ e0) "b" (sample_start "b") (sample_voted "b") sample_answer); vm_compute; reflexivity. }
    eapply rtc_l.
    { left; apply (step_answer _ _ _ _ _ _ _ 0%nat (mkRun e0 (Some ["c"]) ["b"] 0 []) "b" (RpcResponse sample_answer) (mkRun e1 (Some ["c"]) [] 1 [])); [done| |by left; left].
      apply (run_respond _ e0 e1 ["c"] [] "b" [] 0 [] 0 _ true). vm_compute. reflexivity. }
    eapply rtc_l. { left; apply (step_run _ _ _ _ _ _ _ 0%nat (mkRun e1 (Some ["c"]) [] 1 []) (mkRun e2 (Some ["c"]) [] 0 [result_ e2])); [done|].
      by apply (run_check _ e1 e2 _ _ _ [] (Some (result_ e2))). }
    eapply rtc_l.
    { left; apply (step_callback _ _ _ _ _ _ _ sample_env 0%nat (mkRun e2 (Some ["c"]) [] 0 [result_ e2]) (result_ e2) (sample_voted "a") sample_leader true false);
        [done|by left|done|]. vm_compute. reflexivity. }
    apply rtc_refl.
  - reflexivity.
Qed.

Lemma raft_election_safety_witness :
  ∃ sys, leaders sys = [(1, "a")] /\ elected false sample_config (cast sys) 1 "a".
Proof.
  destruct sample_run as (sys & Hr & El). exists sys. split; [exact El|].
  apply (raft_election_safety false sample_config sample_system sys eq_refl sample_initial Hr). rewrite El. by left.
Defined.

(** The rest of an old leader's lease is cut to milliseconds, so that the
    duration sent may be shorter than the lease. *)
Lemma lease_truncated :
  let s := with_old_leases (mkLeaseData "a" 2999999) no_PhysicalComponentLease (sample_start "b") in
  (RemainingOldLeaderLeaseDuration sample_env s).2 = 2999998 /\
  ∃ s', RequestVote true sample_env (mkVoteRequestPB "c" 1 (mkOpId 0 0) false false) s =
    Done (s', Ok (mkVoteResponsePB "b" 1 true (Some 2) "a" None EmptyString false None false)).
Proof. split; [reflexivity|]. eexists. vm_compute. reflexivity. Qed.
