(* ===== verification/RetryableRequests.v ===== *)
(** * Retryable requests ([src/yb/consensus/retryable_requests.cc])

    A client numbers its write requests and repeats one whose outcome it does
    not know. The leader keeps, for each client, the requests that are running
    and ranges of those that were replicated, so that a repeated request is not
    written again: it waits for the running one or is refused. *)

From S2P Require Import Prelude Quorum.
Local Open Scope Z_scope.

(** ** Operation ids ([util/opid.h]) *)

Definition OpId_lt (lhs rhs : OpId) : bool :=
  (term lhs <? term rhs) || ((term lhs =? term rhs) && (index lhs <? index rhs)).

Definition OpId_le (lhs rhs : OpId) : bool := negb (OpId_lt rhs lhs).

(** [std::min]. *)
Definition OpId_min (a b : OpId) : OpId := if OpId_lt b a then b else a.

Definition OpId_max_value : OpId := mkOpId (2 ^ 63 - 1) (2 ^ 63 - 1).

(** ** Data *)

(** The two halves of the id of a client; the nil id is that of requests that
    are not retryable. Times are in nanoseconds. *)
Abbreviation ClientId := (Z * Z)%type.
Definition ClientId_Nil : ClientId := (0, 0).

Record WriteRequestPB : Type := mkWriteRequestPB {
  client_id : ClientId;
  request_id : Z;
  request_min_running : Z
}.

Record ReplicateMsg : Type := mkReplicateMsg {
  msg_id : OpId;
  write_request : option WriteRequestPB
}.

(** A [ConsensusRound], with a number of its own. *)
Record ConsensusRound : Type := mkConsensusRound {
  round_number : nat;
  replicate_msg : ReplicateMsg;
  bound_term : Z
}.

(** A call of [NotifyReplicationFinished]. *)
Record notification : Type := mkNotification {
  notified_round : ConsensusRound;
  notified_status : Result unit;
  notified_term : Z
}.

Record RunningRetryableRequest : Type := mkRunning {
  running_request_id : Z;
  running_op_id : OpId;
  running_time : Z;
  duplicate_rounds : list ConsensusRound
}.

Record ReplicatedRetryableRequestRange : Type := mkRange {
  first_id : Z;
  last_id : Z;
  min_op_id : OpId;
  min_time : Z;
  max_time : Z
}.

#[export] Instance range_eq_dec : EqDecision ReplicatedRetryableRequestRange.
Proof. solve_decision. Defined.

(** The ranges are in the order of their last ids. *)
Record ClientRetryableRequests : Type := mkClient {
  running : list RunningRetryableRequest;
  replicated : list ReplicatedRetryableRequestRange;
  min_running_request_id : Z;
  empty_since : Z
}.

Definition new_client : ClientRetryableRequests := mkClient [] [] 0 0.

Definition with_running (l : list RunningRetryableRequest) (c : ClientRetryableRequests) : ClientRetryableRequests :=
  mkClient l (replicated c) (min_running_request_id c) (empty_since c).
Definition with_replicated (l : list ReplicatedRetryableRequestRange) (c : ClientRetryableRequests) : ClientRetryableRequests :=
  mkClient (running c) l (min_running_request_id c) (empty_since c).

Record Impl : Type := mkImpl { clients_ : gmap ClientId ClientRetryableRequests }.

Definition client_of (c : ClientId) (m : Impl) : ClientRetryableRequests := default new_client (clients_ m !! c).
Definition with_client (c : ClientId) (x : ClientRetryableRequests) (m : Impl) : Impl := mkImpl (<[c := x]> (clients_ m)).

(** [ReplicateData::FromMsg]: the request, if it is a retryable one. *)
Definition FromMsg (msg : ReplicateMsg) : option WriteRequestPB :=
  match write_request msg with
  | Some w => if bool_decide (client_id w = ClientId_Nil) then None else Some w
  | None => None
  end.

Definition NotifyReplicationFinished (round : ConsensusRound) (status : Result unit) (leader_term : Z) : notification :=
  mkNotification round status leader_term.

(** ** Ranges *)

Definition InsertTime (time : Z) (r : ReplicatedRetryableRequestRange) : ReplicatedRetryableRequestRange :=
  mkRange (first_id r) (last_id r) (min_op_id r) (Z.min (min_time r) time) (Z.max (max_time r) time).

Definition PrepareJoinWithPrev (prev r : ReplicatedRetryableRequestRange) : ReplicatedRetryableRequestRange :=
  mkRange (first_id prev) (last_id r) (min_op_id r) (Z.min (min_time r) (min_time prev)) (Z.max (max_time r) (max_time prev)).

Definition with_first_id (id : Z) (r : ReplicatedRetryableRequestRange) : ReplicatedRetryableRequestRange :=
  mkRange id (last_id r) (min_op_id r) (min_time r) (max_time r).
Definition with_last_id (id : Z) (r : ReplicatedRetryableRequestRange) : ReplicatedRetryableRequestRange :=
  mkRange (first_id r) id (min_op_id r) (min_time r) (max_time r).
Definition with_min_op_id (op_id : OpId) (r : ReplicatedRetryableRequestRange) : ReplicatedRetryableRequestRange :=
  mkRange (first_id r) (last_id r) op_id (min_time r) (max_time r).

(** The ranges before the position of [lower_bound] in the index by last id,
    and those from it on. *)
Fixpoint lower_bound (id : Z) (l : list ReplicatedRetryableRequestRange)
    : list ReplicatedRetryableRequestRange * list ReplicatedRetryableRequestRange :=
  match l with
  | [] => ([], [])
  | r :: l' => if last_id r <? id then let '(before, from) := lower_bound id l' in (r :: before, from) else ([], l)
  end.

Definition has_min_op_id (op_id : OpId) (l : list ReplicatedRetryableRequestRange) : bool :=
  existsb (λ r, bool_decide (min_op_id r = op_id)) l.

(** [emplace]: the ids of operations are unique too. *)
Definition emplace_range (before : list ReplicatedRetryableRequestRange) (r : ReplicatedRetryableRequestRange)
    (from : list ReplicatedRetryableRequestRange) : list ReplicatedRetryableRequestRange :=
  if has_min_op_id (min_op_id r) (before ++ from) || existsb (λ x, last_id x =? last_id r) (before ++ from)
  then before ++ from else before ++ r :: from.

(** [modify] removes an element that clashes with another one. *)
Definition UpdateMinOpId (before : list ReplicatedRetryableRequestRange) (r : ReplicatedRetryableRequestRange)
    (from : list ReplicatedRetryableRequestRange) (op_id : OpId) : list ReplicatedRetryableRequestRange :=
  if OpId_lt op_id (min_op_id r)
  then if has_min_op_id op_id (before ++ from) then before ++ from else before ++ with_min_op_id op_id r :: from
  else before ++ r :: from.

(** The index by operation id. *)
Definition op_id_le (a b : ReplicatedRetryableRequestRange) : Prop := OpId_le (min_op_id a) (min_op_id b) = true.

#[export] Instance op_id_le_dec a b : Decision (op_id_le a b).
Proof. unfold op_id_le. apply _. Defined.

Section flags.
(** The flags, in nanoseconds. *)
Context (release : bool) (RangeTimeLimit retryable_request_timeout : Z).

(** [before] and [from] are around the iterator, which is at [r]. *)
Definition TryJoinRanges (before : list ReplicatedRetryableRequestRange) (r : ReplicatedRetryableRequestRange)
    (from : list ReplicatedRetryableRequestRange) (op_id : OpId) : option (list ReplicatedRetryableRequestRange) :=
  match last before with
  | None => None
  | Some prev =>
      if negb (last_id prev + 2 =? first_id r) then None
      else if min_time prev + RangeTimeLimit <? max_time r then None
      else Some (UpdateMinOpId (take (length before - 1) before) (PrepareJoinWithPrev prev r) from
                   (OpId_min op_id (min_op_id prev)))
  end.

Definition TryJoinToEndOfRange (before from : list ReplicatedRetryableRequestRange) (op_id : OpId) (id time : Z)
    : option (list ReplicatedRetryableRequestRange) :=
  match last before with
  | None => None
  | Some prev =>
      if negb (last_id prev + 1 =? id) then None
      else if min_time prev + RangeTimeLimit <? time then None
      else Some (UpdateMinOpId (take (length before - 1) before)
                   (with_last_id (last_id prev + 1) (InsertTime time prev)) from (OpId_min (min_op_id prev) op_id))
  end.

Definition add_apart (before from : list ReplicatedRetryableRequestRange) (op_id : OpId) (id time : Z)
    : list ReplicatedRetryableRequestRange :=
  match TryJoinToEndOfRange before from op_id id time with
  | Some l => l
  | None => emplace_range before (mkRange id id op_id time time) from
  end.

Definition AddReplicated (op_id : OpId) (id time : Z) (l : list ReplicatedRetryableRequestRange)
    : Outcome (list ReplicatedRetryableRequestRange) :=
  match lower_bound id l with
  | (before, r :: from) =>
      if first_id r <=? id then _ ← LOG_DFATAL release; Done l
      else if first_id r =? id + 1 then
        let op_id := OpId_min (min_op_id r) op_id in
        let r := InsertTime time r in
        Done (match TryJoinRanges before r from op_id with
              | Some l => l
              | None => UpdateMinOpId before (with_first_id (first_id r - 1) r) from op_id
              end)
      else Done (add_apart before (r :: from) op_id id time)
  | (before, []) => Done (add_apart before [] op_id id time)
  end.

Definition CleanupReplicatedRequests (new_min : Z) (c : ClientRetryableRequests) : ClientRetryableRequests :=
  if min_running_request_id c <? new_min then
    let l :=
      match (lower_bound new_min (replicated c)).2 with
      | r :: from => (if first_id r <? new_min then with_first_id new_min r else r) :: from
      | [] => []
      end in
    mkClient (running c) l new_min (empty_since c)
  else c.

(** ** Operations *)

(** [emplace] into the running requests: an element with the same request, or
    else with the same operation, is in the way. *)
Definition find_running (id : Z) (op_id : OpId) (l : list RunningRetryableRequest) : option nat :=
  match list_find (λ r, running_request_id r = id) l with
  | Some (i, _) => Some i
  | None => fst <$> list_find (λ r, running_op_id r = op_id) l
  end.

Definition add_duplicate (round : ConsensusRound) (r : RunningRetryableRequest) : RunningRetryableRequest :=
  mkRunning (running_request_id r) (running_op_id r) (running_time r) (duplicate_rounds r ++ [round]).

(** Whether the request is to be replicated, and the notifications. *)
Definition Register_round (now : Z) (round : ConsensusRound) (entry_time : Z) (m : Impl) : Impl * bool * list notification :=
  match FromMsg (replicate_msg round) with
  | None => (m, true, [])
  | Some data =>
      let entry_time := if entry_time =? 0 then now else entry_time in
      let c := CleanupReplicatedRequests (request_min_running data) (client_of (client_id data) m) in
      let put x := with_client (client_id data) x m in
      if request_id data <? min_running_request_id c
      then (put c, false, [NotifyReplicationFinished round (Error Expired) (bound_term round)])
      else if match (lower_bound (request_id data) (replicated c)).2 with
              | r :: _ => first_id r <=? request_id data
              | [] => false
              end
      then (put c, false, [NotifyReplicationFinished round (Error AlreadyPresent) (bound_term round)])
      else match find_running (request_id data) (msg_id (replicate_msg round)) (running c) with
           | Some i => (put (with_running (alter (add_duplicate round) i (running c)) c), false, [])
           | None =>
               (put (with_running (running c ++ [mkRunning (request_id data) (msg_id (replicate_msg round)) entry_time []]) c), true, [])
           end
  end.

Definition ReplicationFinished (msg : ReplicateMsg) (status : Result unit) (leader_term : Z) (m : Impl)
    : Outcome (Impl * list notification) :=
  match FromMsg msg with
  | None => Done (m, [])
  | Some data =>
      let c := client_of (client_id data) m in
      match list_find (λ r, running_request_id r = request_id data) (running c) with
      | None => _ ← LOG_DFATAL release; Done (with_client (client_id data) c m, [])
      | Some (i, r) =>
          let status_for_duplicate := match status with Ok _ => Error AlreadyPresent | Error _ => status end in
          let notes := (λ d, NotifyReplicationFinished d status_for_duplicate leader_term) <$> duplicate_rounds r in
          let c := with_running (delete i (running c)) c in
          l ← (match status with
               | Ok _ => AddReplicated (msg_id msg) (request_id data) (running_time r) (replicated c)
               | Error _ => Done (replicated c)
               end);
          Done (with_client (client_id data) (with_replicated l c) m, notes)
      end
  end.

Definition Bootstrap (msg : ReplicateMsg) (entry_time : Z) (m : Impl) : Outcome Impl :=
  match FromMsg msg with
  | None => Done m
  | Some data =>
      let c := client_of (client_id data) m in
      match list_find (λ r, running_request_id r = request_id data) (running c) with
      | Some _ => _ ← LOG_DFATAL release; Done (with_client (client_id data) c m)
      | None =>
          let c := CleanupReplicatedRequests (request_min_running data) c in
          l ← AddReplicated (msg_id msg) (request_id data) entry_time (replicated c);
          Done (with_client (client_id data) (with_replicated l c) m)
      end
  end.

Fixpoint drop_expired (clean_start : Z) (l : list ReplicatedRetryableRequestRange) : list ReplicatedRetryableRequestRange :=
  match l with
  | [] => []
  | r :: l' => if max_time r <? clean_start then drop_expired clean_start l' else l
  end.

(** One client: what is left of it, if anything, and the least operation id of
    its ranges. *)
Definition clean_client (now : Z) (c : ClientRetryableRequests) : option ClientRetryableRequests * option OpId :=
  let clean_start := now - retryable_request_timeout in
  let rest := drop_expired clean_start (merge_sort op_id_le (replicated c)) in
  let left := filter (λ r, r ∈ rest) (replicated c) in
  let c' := with_replicated left c in
  let op_id := min_op_id <$> head rest in
  if bool_decide (rest = []) && bool_decide (length (running c) = 0%nat) then
    if empty_since c =? 0 then (Some (mkClient (running c) left (min_running_request_id c) now), op_id)
    else if empty_since c <? clean_start then (None, op_id)
    else (Some c', op_id)
  else (Some c', op_id).

Definition CleanExpiredReplicatedAndGetMinOpId (now : Z) (m : Impl) : Impl * OpId :=
  (mkImpl (omap (λ c, (clean_client now c).1) (clients_ m)),
   foldr (λ c result, match (clean_client now c.2).2 with Some op_id => OpId_min result op_id | None => result end)
     OpId_max_value (map_to_list (clients_ m))).

End flags.

(** ** Operation ids are in a total order *)

Ltac op_id_order := unfold OpId_le, OpId_lt in *; repeat match goal with
  | x : OpId |- _ => destruct x; cbn [term index] in *
  | H : negb _ = true |- _ => apply negb_true_iff in H
  | H : _ || _ = true |- _ => apply orb_true_iff in H
  | H : _ || _ = false |- _ => apply orb_false_iff in H as [? ?]
  | H : _ && _ = true |- _ => apply andb_true_iff in H as [? ?]
  | H : _ && _ = false |- _ => apply andb_false_iff in H
  | H : (_ <? _) = true |- _ => apply Z.ltb_lt in H
  | H : (_ <? _) = false |- _ => apply Z.ltb_ge in H
  | H : (_ =? _) = true |- _ => apply Z.eqb_eq in H
  | H : (_ =? _) = false |- _ => apply Z.eqb_neq in H
  | H : _ \/ _ |- _ => destruct H
  | |- negb _ = true => apply negb_true_iff
  | |- _ || _ = false => apply orb_false_iff; split
  end.

Lemma OpId_le_refl a : OpId_le a a = true.
Proof. op_id_order; [apply Z.ltb_ge; lia|]. apply andb_false_iff. right. apply Z.ltb_ge. lia. Qed.

Lemma OpId_le_trans a b c : OpId_le a b = true -> OpId_le b c = true -> OpId_le a c = true.
Proof.
  intros H1 H2. op_id_order; try (apply Z.ltb_ge; lia); apply andb_false_iff; try (right; apply Z.ltb_ge; lia); left; apply Z.eqb_neq; lia.
Qed.

Lemma OpId_le_total a b : OpId_le a b = true \/ OpId_le b a = true.
Proof.
  unfold OpId_le. destruct (OpId_lt b a) eqn:E; [right|by left].
  op_id_order; [apply Z.ltb_ge; lia| |apply Z.ltb_ge; lia|]; apply andb_false_iff; [left; apply Z.eqb_neq; lia|right; apply Z.ltb_ge; lia].
Qed.

Lemma OpId_lt_le a b : OpId_lt a b = true -> OpId_le a b = true.
Proof. intros H. destruct (OpId_le_total a b) as [|H']; [done|]. unfold OpId_le in H'. by rewrite H in H'. Qed.

Lemma OpId_min_le a b : OpId_le (OpId_min a b) a = true /\ OpId_le (OpId_min a b) b = true.
Proof.
  unfold OpId_min. destruct (OpId_lt b a) eqn:E.
  - split; [by apply OpId_lt_le|apply OpId_le_refl].
  - split; [apply OpId_le_refl|]. unfold OpId_le. by rewrite E.
Qed.

Lemma OpId_min_or a b : OpId_min a b = a \/ OpId_min a b = b.
Proof. unfold OpId_min. destruct (OpId_lt b a); auto. Qed.

(** ** Ranges stand for sets of requests *)

Record range_ok (r : ReplicatedRetryableRequestRange) : Prop := {
  rg_ids : first_id r <= last_id r;
  rg_times : min_time r <= max_time r
}.

Definition before_range (a b : ReplicatedRetryableRequestRange) : Prop := last_id a < first_id b.

Record ranges_ok (l : list ReplicatedRetryableRequestRange) : Prop := {
  rs_each : Forall range_ok l;
  rs_sorted : StronglySorted before_range l;
  rs_op_ids : NoDup (min_op_id <$> l)
}.

(** A replicated request: its id, the id of its operation and its time. *)
Record entry : Type := mkEntry { e_id : Z; e_op_id : OpId; e_time : Z }.

Definition in_range (r : ReplicatedRetryableRequestRange) (id : Z) : Prop := first_id r <= id <= last_id r.

Definition covers (r : ReplicatedRetryableRequestRange) (e : entry) : Prop :=
  in_range r (e_id e) /\ OpId_le (min_op_id r) (e_op_id e) = true /\ min_time r <= e_time e <= max_time r.

Definition ids (l : list ReplicatedRetryableRequestRange) (id : Z) : Prop := ∃ r, r ∈ l /\ in_range r id.
Definition covered (l : list ReplicatedRetryableRequestRange) (e : entry) : Prop := ∃ r, r ∈ l /\ covers r e.

Lemma lower_bound_app id l before from :
  lower_bound id l = (before, from) -> l = before ++ from /\ Forall (λ r, last_id r < id) before /\
  (∀ r rest, from = r :: rest -> id <= last_id r).
Proof.
  revert before from. induction l as [|r l IH]; intros before from; cbn; [by intros [= <- <-]|].
  destruct (Z.ltb_spec (last_id r) id) as [Hr|Hr].
  - destruct (lower_bound id l) as [b f]. intros [= <- <-]. destruct (IH b f eq_refl) as (-> & Hb & Hf). split; [done|]. split; [by constructor|done].
  - intros [= <- <-]. split; [done|]. split; [done|]. by intros ? ? [= <- _].
Qed.

(** A range among the others. *)
Lemma ranges_ok_middle before r from :
  ranges_ok (before ++ r :: from) <->
  ranges_ok (before ++ from) /\ range_ok r /\ Forall (λ x, before_range x r) before /\ Forall (before_range r) from /\
  min_op_id r ∉ min_op_id <$> (before ++ from).
Proof.
  split.
  - intros [He Hs Ho]. rewrite Forall_app, Forall_cons in He. destruct He as (Hb & Hr & Hf).
    apply StronglySorted_app in Hs as (Hx & Sb & Sf). inversion_clear Sf as [|? ? Sf' Hrf].
    rewrite fmap_app, fmap_cons in Ho. rewrite <- Permutation_middle in Ho. apply NoDup_cons in Ho as [Hn Ho]. rewrite <- fmap_app in Hn, Ho.
    split; [split; [by apply Forall_app| |done]|].
    + apply StronglySorted_app. split; [|done]. intros a b Ha Hbb. apply Hx; [done|by right].
    + split; [done|]. split; [|done]. apply Forall_forall. intros a Ha. apply Hx; [done|by left].
  - intros ([He Hs Ho] & Hr & Hbr & Hrf & Hn). apply Forall_app in He as [Hb Hf]. apply StronglySorted_app in Hs as (Hx & Sb & Sf). split.
    + by apply Forall_app; split; [|constructor].
    + apply StronglySorted_app. split; [|by split; [|constructor]]. intros a b Ha [->|Hbb]%elem_of_cons; [|by apply Hx].
      rewrite Forall_forall in Hbr. by apply Hbr.
    + rewrite fmap_app, fmap_cons, <- Permutation_middle. apply NoDup_cons. by rewrite <- fmap_app.
Qed.

Lemma ids_middle before r from id : ids (before ++ r :: from) id <-> ids (before ++ from) id \/ in_range r id.
Proof. unfold ids. set_solver. Qed.

Lemma covered_middle before r from e : covered (before ++ r :: from) e <-> covered (before ++ from) e \/ covers r e.
Proof. unfold covered. set_solver. Qed.

Lemma covered_ids l e : covered l e -> ids l (e_id e).
Proof. intros (r & Hr & Hi & _). by exists r. Qed.

(** *** Adding a request *)

(** What is there after a request has been added. *)
Record added (l l' : list ReplicatedRetryableRequestRange) (e : entry) : Prop := {
  ad_ok : ranges_ok l';
  ad_ids : ∀ id, ids l' id <-> ids l id \/ id = e_id e;
  ad_kept : ∀ x, covered l x -> covered l' x;
  ad_covered : covered l' e;
  ad_op_ids : ∀ o, o ∈ min_op_id <$> l' -> o ∈ min_op_id <$> l \/ o = e_op_id e
}.

(** [r'] covers what [r] covers. *)
Definition wider (r r' : ReplicatedRetryableRequestRange) : Prop :=
  first_id r' <= first_id r /\ last_id r <= last_id r' /\ OpId_le (min_op_id r') (min_op_id r) = true /\
  min_time r' <= min_time r /\ max_time r <= max_time r'.

Lemma wider_covers r r' e : wider r r' -> covers r e -> covers r' e.
Proof.
  intros (? & ? & Ho & ? & ?) ((? & ?) & Hoe & ? & ?). split; [split; lia|]. split; [by apply (OpId_le_trans _ (min_op_id r))|lia].
Qed.

Lemma has_min_op_id_false o l : has_min_op_id o l = false <-> o ∉ min_op_id <$> l.
Proof.
  rewrite <- not_true_iff_false. unfold has_min_op_id. rewrite existsb_exists, list_elem_of_fmap. apply not_iff_compat.
  split; intros (r & Hr); exists r; [destruct Hr as [Hin ?%bool_decide_eq_true]|destruct Hr as [-> Hin]].
  - split; [done|by apply list_elem_of_In].
  - split; [by apply list_elem_of_In|]. by apply bool_decide_eq_true.
Qed.

Lemma UpdateMinOpId_eq before r from o :
  o ∉ min_op_id <$> (before ++ from) ->
  UpdateMinOpId before r from o = before ++ with_min_op_id (OpId_min (min_op_id r) o) r :: from.
Proof.
  intros Hn. unfold UpdateMinOpId, OpId_min. destruct (OpId_lt o (min_op_id r)); [|by destruct r].
  by rewrite (proj2 (has_min_op_id_false _ _)).
Qed.

(** A range made wider by the request. *)
Lemma added_wider before r from r' e :
  ranges_ok (before ++ r :: from) -> e_op_id e ∉ min_op_id <$> (before ++ r :: from) ->
  wider r r' -> range_ok r' -> (∀ id, in_range r' id <-> in_range r id \/ id = e_id e) -> covers r' e ->
  Forall (λ x, before_range x r') before -> Forall (before_range r') from ->
  (min_op_id r' = min_op_id r \/ min_op_id r' = e_op_id e) ->
  added (before ++ r :: from) (before ++ r' :: from) e.
Proof.
  intros (Hbf & Hr & _ & _ & Hn)%ranges_ok_middle Hfresh Hw Hr' Hin Hcov Hb Hf Hop. rewrite fmap_app, fmap_cons in Hfresh.
  assert (e_op_id e ∉ min_op_id <$> (before ++ from)) as Hfresh' by (rewrite fmap_app; set_solver).
  split.
  - apply ranges_ok_middle. split; [done|]. split; [done|]. split; [done|]. split; [done|]. by destruct Hop as [->| ->].
  - intros id. rewrite !ids_middle, Hin. tauto.
  - intros x. rewrite !covered_middle. intros [?|?]; [by left|right; by apply (wider_covers r)].
  - apply covered_middle. by right.
  - intros o. rewrite !fmap_app, !fmap_cons, !elem_of_app, !elem_of_cons. destruct Hop as [->| ->]; tauto.
Qed.

(** Two ranges joined by the request between them. *)
Lemma added_joined before p r from r' e :
  ranges_ok (before ++ p :: r :: from) -> e_op_id e ∉ min_op_id <$> (before ++ p :: r :: from) ->
  wider p r' -> wider r r' -> range_ok r' -> (∀ id, in_range r' id <-> in_range p id \/ in_range r id \/ id = e_id e) ->
  covers r' e -> first_id r' = first_id p -> last_id r' = last_id r ->
  (min_op_id r' = min_op_id p \/ min_op_id r' = min_op_id r \/ min_op_id r' = e_op_id e) ->
  added (before ++ p :: r :: from) (before ++ r' :: from) e.
Proof.
  intros Hok Hfresh Hwp Hwr Hr' Hin Hcov Ef El Hop. pose proof Hok as (Hbr & _ & Hbp & _ & Hnp)%ranges_ok_middle.
  pose proof Hbr as (Hbf & _ & _ & Hrf & Hnr)%ranges_ok_middle.
  assert (min_op_id r' ∉ min_op_id <$> (before ++ from)) as Hn'.
  { rewrite fmap_app in *. cbn [fmap list_fmap] in *. destruct Hop as [->|[->| ->]]; set_solver. }
  split.
  - apply ranges_ok_middle. split; [done|]. split; [done|]. unfold before_range in *. split; [|split; [|done]].
    + eapply Forall_impl; [exact Hbp|]. intros x. cbn beta. lia.
    + eapply Forall_impl; [exact Hrf|]. intros x. cbn beta. lia.
  - intros id. rewrite !ids_middle, Hin. tauto.
  - intros x. rewrite !covered_middle. intros [[?|?]|?]; [by left|right; by apply (wider_covers r)|right; by apply (wider_covers p)].
  - apply covered_middle. by right.
  - intros o. rewrite !fmap_app, !fmap_cons, !elem_of_app, !elem_of_cons. destruct Hop as [->|[->| ->]]; tauto.
Qed.

(** A range of its own. *)
Lemma added_apart before from e :
  ranges_ok (before ++ from) -> e_op_id e ∉ min_op_id <$> (before ++ from) ->
  Forall (λ r, last_id r < e_id e) before -> Forall (λ r, e_id e < first_id r) from ->
  added (before ++ from) (emplace_range before (mkRange (e_id e) (e_id e) (e_op_id e) (e_time e) (e_time e)) from) e.
Proof.
  intros Hok Hfresh Hb Hf. unfold emplace_range. cbn [min_op_id last_id]. rewrite (proj2 (has_min_op_id_false _ _)) by done. cbn [orb].
  destruct (existsb _ _) eqn:Ex.
  { exfalso. apply existsb_exists in Ex as (x & Hx%list_elem_of_In & Hl%Z.eqb_eq). rewrite Forall_forall in Hb, Hf.
    apply elem_of_app in Hx as [Hx|Hx]; [specialize (Hb x Hx); lia|]. specialize (Hf x Hx).
    assert (range_ok x) as [? _] by (pose proof (rs_each _ Hok) as He; rewrite Forall_forall in He; apply He; apply elem_of_app; by right). lia. }
  set (r := mkRange _ _ _ _ _). assert (covers r e) as Hc by (split; [split; cbn; lia|split; [apply OpId_le_refl|cbn; lia]]).
  split.
  - apply ranges_ok_middle. split; [done|]. split; [split; cbn; lia|]. done.
  - intros id. rewrite ids_middle. unfold in_range. cbn. split; (intros [?|?]; [by left|right; lia]).
  - intros x. rewrite covered_middle. by left.
  - apply covered_middle. by right.
  - intros o. rewrite !fmap_app, !fmap_cons, !elem_of_app, !elem_of_cons. cbn. tauto.
Qed.

Lemma take_before (b : list ReplicatedRetryableRequestRange) p : take (length (b ++ [p]) - 1) (b ++ [p]) = b.
Proof. rewrite length_app. cbn. by rewrite Nat.add_sub, take_app_length. Qed.

Section adding.
Context (release : bool) (RangeTimeLimit : Z) (e : entry).

Lemma TryJoinToEndOfRange_ok before from l' :
  ranges_ok (before ++ from) -> e_op_id e ∉ min_op_id <$> (before ++ from) ->
  Forall (λ r, e_id e < first_id r) from ->
  TryJoinToEndOfRange RangeTimeLimit before from (e_op_id e) (e_id e) (e_time e) = Some l' -> added (before ++ from) l' e.
Proof.
  intros Hok Hfresh Hf. unfold TryJoinToEndOfRange. destruct (last before) as [p|] eqn:Ep; [|done]. apply last_Some in Ep as [b ->].
  rewrite take_before. destruct (Z.eqb_spec (last_id p + 1) (e_id e)) as [Hl|]; cbn [negb]; [|done].
  destruct (_ <? _); [done|]. intros [= <-]. rewrite <- app_assoc in *. cbn [app] in *.
  pose proof Hok as (Hbf & [Hids Htimes] & Hbp & Hpf & Hnp)%ranges_ok_middle.
  rewrite UpdateMinOpId_eq.
  2: { rewrite fmap_app, fmap_cons in Hfresh. rewrite fmap_app in Hnp |- *. destruct (OpId_min_or (min_op_id p) (e_op_id e)) as [->| ->]; set_solver. }
  cbn [with_last_id InsertTime min_op_id].
  set (o := OpId_min (min_op_id p) (OpId_min (min_op_id p) (e_op_id e))).
  destruct (OpId_min_le (min_op_id p) (OpId_min (min_op_id p) (e_op_id e))) as [Ho1 Ho2].
  destruct (OpId_min_le (min_op_id p) (e_op_id e)) as [_ Ho3]. pose proof (OpId_le_trans _ _ _ Ho2 Ho3) as Ho4. fold o in Ho1, Ho4.
  apply added_wider; try done.
  - split; [cbn; lia|]. split; [cbn; lia|]. split; [done|]. cbn. lia.
  - split; cbn; lia.
  - intros id. unfold in_range. cbn. lia.
  - split; [split; cbn; lia|]. split; [done|]. cbn. lia.
  - eapply Forall_impl; [exact Hf|]. unfold before_range. cbn. intros x ?. lia.
  - cbn. unfold o. destruct (OpId_min_or (min_op_id p) (OpId_min (min_op_id p) (e_op_id e))) as [->| ->]; [by left|]. apply OpId_min_or.
Qed.

Lemma add_apart_ok before from :
  ranges_ok (before ++ from) -> e_op_id e ∉ min_op_id <$> (before ++ from) ->
  Forall (λ r, last_id r < e_id e) before -> Forall (λ r, e_id e < first_id r) from ->
  added (before ++ from) (add_apart RangeTimeLimit before from (e_op_id e) (e_id e) (e_time e)) e.
Proof.
  intros Hok Hfresh Hb Hf. unfold add_apart. destruct (TryJoinToEndOfRange _ _ _ _ _ _) as [l|] eqn:E; [by apply TryJoinToEndOfRange_ok|].
  by apply added_apart.
Qed.

(** The iterator is at the range right after the request. *)
Lemma TryJoinRanges_ok before r from l' :
  ranges_ok (before ++ r :: from) -> e_op_id e ∉ min_op_id <$> (before ++ r :: from) -> first_id r = e_id e + 1 ->
  TryJoinRanges RangeTimeLimit before (InsertTime (e_time e) r) from (OpId_min (min_op_id r) (e_op_id e)) = Some l' ->
  added (before ++ r :: from) l' e.
Proof.
  intros Hok Hfresh Hfirst. unfold TryJoinRanges. destruct (last before) as [p|] eqn:Ep; [|done]. apply last_Some in Ep as [b ->].
  rewrite take_before. cbn [InsertTime first_id max_time]. destruct (Z.eqb_spec (last_id p + 2) (first_id r)) as [Hl|]; cbn [negb]; [|done].
  destruct (_ <? _); [done|]. intros [= <-]. rewrite <- app_assoc in *. cbn [app] in *.
  pose proof Hok as (Hbr & [Hpi Hpt] & Hbp & Hpf & Hnp)%ranges_ok_middle. pose proof Hbr as (Hbf & [Hri Hrt] & _ & Hrf & Hnr)%ranges_ok_middle.
  set (o1 := OpId_min (min_op_id r) (e_op_id e)). set (o := OpId_min o1 (min_op_id p)).
  assert (o = min_op_id p \/ o = min_op_id r \/ o = e_op_id e) as Ho.
  { unfold o. destruct (OpId_min_or o1 (min_op_id p)) as [->| ->]; [right; apply OpId_min_or|by left]. }
  rewrite UpdateMinOpId_eq.
  2: { rewrite fmap_app in *. cbn [fmap list_fmap] in *. destruct Ho as [->|[->| ->]]; set_solver. }
  cbn [PrepareJoinWithPrev InsertTime min_op_id min_time max_time last_id].
  destruct (OpId_min_le (min_op_id r) (e_op_id e)) as [_ Ho2]. destruct (OpId_min_le o1 (min_op_id p)) as [Ho3 Ho4].
  destruct (OpId_min_le (min_op_id r) o) as [Ho5 Ho6]. fold o1 in Ho2. fold o in Ho3, Ho4.
  apply added_joined; try done.
  - split; [cbn; lia|]. split; [cbn; lia|]. split; [by apply (OpId_le_trans _ o)|]. cbn. lia.
  - split; [cbn; lia|]. split; [cbn; lia|]. split; [done|]. cbn. lia.
  - split; cbn; lia.
  - intros id. unfold in_range. cbn. lia.
  - split; [split; cbn; lia|]. split; [apply (OpId_le_trans _ o); [done|]; by apply (OpId_le_trans _ o1)|]. cbn. lia.
  - cbn. destruct (OpId_min_or (min_op_id r) o) as [->| ->]; [tauto|done].
Qed.

Lemma extend_front_ok before r from :
  ranges_ok (before ++ r :: from) -> e_op_id e ∉ min_op_id <$> (before ++ r :: from) -> first_id r = e_id e + 1 ->
  Forall (λ r, last_id r < e_id e) before ->
  added (before ++ r :: from)
    (UpdateMinOpId before (with_first_id (first_id r - 1) (InsertTime (e_time e) r)) from (OpId_min (min_op_id r) (e_op_id e))) e.
Proof.
  intros Hok Hfresh Hfirst Hb. pose proof Hok as (Hbf & [Hids Htimes] & Hbp & Hpf & Hnr)%ranges_ok_middle.
  rewrite UpdateMinOpId_eq.
  2: { rewrite fmap_app, fmap_cons in Hfresh. rewrite fmap_app in Hnr |- *. destruct (OpId_min_or (min_op_id r) (e_op_id e)) as [->| ->]; set_solver. }
  cbn [with_first_id InsertTime min_op_id]. set (o := OpId_min (min_op_id r) (OpId_min (min_op_id r) (e_op_id e))).
  destruct (OpId_min_le (min_op_id r) (OpId_min (min_op_id r) (e_op_id e))) as [Ho1 Ho2].
  destruct (OpId_min_le (min_op_id r) (e_op_id e)) as [_ Ho3]. pose proof (OpId_le_trans _ _ _ Ho2 Ho3) as Ho4. fold o in Ho1, Ho4.
  apply added_wider; try done.
  - split; [cbn; lia|]. split; [cbn; lia|]. split; [done|]. cbn. lia.
  - split; cbn; lia.
  - intros id. unfold in_range. cbn. lia.
  - split; [split; cbn; lia|]. split; [done|]. cbn. lia.
  - eapply Forall_impl; [exact Hb|]. unfold before_range. cbn. intros x ?. lia.
  - cbn. unfold o. destruct (OpId_min_or (min_op_id r) (OpId_min (min_op_id r) (e_op_id e))) as [->| ->]; [by left|]. apply OpId_min_or.
Qed.

(** A request that is not there is added. *)
Lemma AddReplicated_ok l :
  ranges_ok l -> ¬ ids l (e_id e) -> e_op_id e ∉ min_op_id <$> l ->
  ∃ l', AddReplicated release RangeTimeLimit (e_op_id e) (e_id e) (e_time e) l = Done l' /\ added l l' e.
Proof.
  intros Hok Hn Hfresh. unfold AddReplicated. destruct (lower_bound (e_id e) l) as [before from] eqn:El.
  destruct (lower_bound_app _ _ _ _ El) as (-> & Hb & Hf). destruct from as [|r from].
  { eexists. split; [reflexivity|]. by apply add_apart_ok. }
  specialize (Hf r from eq_refl). assert (e_id e < first_id r) as Hlt.
  { destruct (Z.lt_ge_cases (e_id e) (first_id r)) as [|Hge]; [done|]. destruct Hn. apply ids_middle. right. by split. }
  rewrite (proj2 (Z.leb_gt _ _)) by done. pose proof Hok as (_ & [Hri _] & _ & Hrf & _)%ranges_ok_middle.
  destruct (Z.eqb_spec (first_id r) (e_id e + 1)) as [Hnext|Hnext].
  - eexists. split; [reflexivity|]. destruct (TryJoinRanges _ _ _ _ _) as [l'|] eqn:Ej; [by apply TryJoinRanges_ok|]. exact (extend_front_ok before r from Hok Hfresh Hnext Hb).
  - eexists. split; [reflexivity|]. apply add_apart_ok; [done..|]. constructor; [done|]. eapply Forall_impl; [exact Hrf|].
    unfold before_range. intros x ?. lia.
Qed.

End adding.

(** *** Looking up, trimming, expiring *)

(** The test of [Register] for a replicated request. *)
Lemma lookup_ids l id :
  ranges_ok l ->
  (match (lower_bound id l).2 with r :: _ => first_id r <=? id | [] => false end) = true <-> ids l id.
Proof.
  intros Hok. destruct (lower_bound id l) as [before from] eqn:El. cbn [snd]. destruct (lower_bound_app _ _ _ _ El) as (-> & Hb & Hf).
  rewrite Forall_forall in Hb. split.
  - destruct from as [|r from]; [done|]. intros Hle%Z.leb_le. specialize (Hf r from eq_refl). apply ids_middle. right. by split.
  - intros (r & [Hr|Hr]%elem_of_app & [Hr1 Hr2]); [specialize (Hb r Hr); lia|]. destruct from as [|r0 from]; [by apply elem_of_nil in Hr|].
    apply Z.leb_le. apply elem_of_cons in Hr as [->|Hr]; [done|].
    pose proof Hok as (_ & [? _] & _ & Hrf & _)%ranges_ok_middle. rewrite Forall_forall in Hrf. specialize (Hrf r Hr). specialize (Hf r0 from eq_refl).
    unfold before_range in Hrf. lia.
Qed.

Lemma CleanupReplicatedRequests_ok new_min c :
  ranges_ok (replicated c) ->
  let c' := CleanupReplicatedRequests new_min c in
  ranges_ok (replicated c') /\ running c' = running c /\ min_running_request_id c' = Z.max (min_running_request_id c) new_min /\
  (∀ id, ids (replicated c') id -> ids (replicated c) id) /\
  (∀ e, min_running_request_id c' <= e_id e -> covered (replicated c) e -> covered (replicated c') e) /\
  (∀ o, o ∈ min_op_id <$> replicated c' -> o ∈ min_op_id <$> replicated c).
Proof.
  intros Hok. unfold CleanupReplicatedRequests. destruct (Z.ltb_spec (min_running_request_id c) new_min) as [Hlt|Hge]; cbv zeta.
  2: { split; [done|]. split; [done|]. split; [lia|]. done. }
  destruct (lower_bound new_min (replicated c)) as [before from] eqn:El. cbn [snd].
  destruct (lower_bound_app _ _ _ _ El) as (E & Hb & Hf). rewrite E in *. clear El E. rewrite Forall_forall in Hb.
  cbn [replicated running min_running_request_id].
  assert (∀ r id, r ∈ before -> new_min <= id -> ¬ in_range r id) as Hout.
  { intros r id Hr Hid [_ ?]. specialize (Hb r Hr). lia. }
  assert (∀ e, new_min <= e_id e -> covered (before ++ from) e -> covered from e) as Hcov.
  { intros e He (r & [Hr|Hr]%elem_of_app & Hc); [destruct (Hout r (e_id e) Hr He); apply Hc|]. by exists r. }
  destruct from as [|r from]; [split; [by split; constructor|]; split; [done|]; split; [lia|]; split; [by intros id (x & Hx%elem_of_nil & _)|]; split; [done|]|].
  { intros o Ho. by apply elem_of_nil in Ho. }
  specialize (Hf r from eq_refl). pose proof Hok as (Hbf & [Hri Hrt] & _ & Hrf & Hnr)%ranges_ok_middle.
  assert (ranges_ok from /\ min_op_id r ∉ min_op_id <$> from) as [Hfrom Hnf].
  { destruct Hbf as [He Hs Ho]. rewrite fmap_app in *. split; [|set_solver]. apply Forall_app in He as [_ ?]. apply StronglySorted_app in Hs as (_ & _ & ?).
    apply NoDup_app in Ho as (_ & _ & ?). by split. }
  set (r' := if first_id r <? new_min then with_first_id new_min r else r).
  assert (first_id r' = Z.max (first_id r) new_min /\ last_id r' = last_id r /\ min_op_id r' = min_op_id r /\ min_time r' = min_time r /\ max_time r' = max_time r)
    as (F & L & O & T1 & T2) by (unfold r'; destruct (Z.ltb_spec (first_id r) new_min); cbn; repeat split; lia).
  split; [|split; [done|split; [lia|split; [|split]]]].
  - apply (ranges_ok_middle [] r' from). cbn [app]. split; [done|]. split; [split; lia|]. split; [done|]. rewrite O. split; [|done].
    eapply Forall_impl; [exact Hrf|]. unfold before_range. rewrite L. done.
  - intros id. rewrite ids_middle. pose proof (ids_middle [] r' from id) as H1. cbn [app] in H1. rewrite H1. unfold in_range. rewrite F, L.
    intros [(x & Hx & ?)|?]; [left; exists x; split; [apply elem_of_app; by right|done]|right; lia].
  - intros e He Hc%Hcov; [|done]. apply (covered_middle [] r' from). apply (covered_middle [] r from) in Hc as [?|((? & ?) & ? & ?)]; [by left|right].
    split; [split; lia|]. split; [congruence|lia].
  - intros o. rewrite fmap_cons, O, fmap_app, fmap_cons. set_solver.
Qed.

(** What is left after expiry is a sublist, which has every range that has not
    expired, and the least operation id of the rest. *)
Lemma drop_expired_spec clean_start l :
  (∀ r, r ∈ drop_expired clean_start l -> r ∈ l) /\
  (∀ r, r ∈ l -> clean_start <= max_time r -> r ∈ drop_expired clean_start l) /\
  ∃ k, drop_expired clean_start l = drop k l.
Proof.
  induction l as [|r l (IH1 & IH2 & k & IHk)]; cbn; [split; [done|split; [done|by exists 0%nat]]|].
  destruct (Z.ltb_spec (max_time r) clean_start) as [Hr|Hr].
  - split; [intros x Hx; right; by apply IH1|]. split; [intros x [->|Hx]%elem_of_cons Ht; [lia|by apply IH2]|]. by exists (S k).
  - split; [done|]. split; [done|]. by exists 0%nat.
Qed.

Lemma Forall_of_sublist {A : Type} (P : A -> Prop) l l' : Forall P l -> l' `sublist_of` l -> Forall P l'.
Proof. rewrite !Forall_forall. intros H Hsub x Hx. apply H. by eapply elem_of_submseteq, sublist_submseteq. Qed.

Lemma before_range_sublist l l' : StronglySorted before_range l -> l' `sublist_of` l -> StronglySorted before_range l'.
Proof.
  intros Hs Hsub. induction Hsub as [|x l1 l2 Hsub IH|x l1 l2 Hsub IH]; [done|..]; inversion_clear Hs as [|? ? Hs' Hx].
  - constructor; [by apply IH|]. by apply (Forall_of_sublist _ l2).
  - by apply IH.
Qed.

Lemma ranges_ok_sublist l l' : ranges_ok l -> l' `sublist_of` l -> ranges_ok l'.
Proof.
  intros [He Hs Ho] Hsub. split; [by apply (Forall_of_sublist _ l)|by apply (before_range_sublist l)|].
  apply (sublist_NoDup _ (min_op_id <$> l)); [done|]. by apply fmap_sublist.
Qed.

#[export] Instance op_id_le_trans : Transitive op_id_le.
Proof. intros a b c. apply OpId_le_trans. Qed.
#[export] Instance op_id_le_total : Total op_id_le.
Proof. intros a b. apply OpId_le_total. Qed.

(** Expiry forgets no request that has not expired, and the operation id it
    gives is at most those of the requests that are kept. *)
Record cleaned (clean_start : Z) (c c' : ClientRetryableRequests) (op_id : option OpId) : Prop := {
  cl_ok : ranges_ok (replicated c');
  cl_sub : replicated c' `sublist_of` replicated c;
  cl_running : running c' = running c;
  cl_min : min_running_request_id c' = min_running_request_id c;
  cl_kept : ∀ e, covered (replicated c) e -> clean_start <= e_time e -> covered (replicated c') e;
  cl_op_id : ∀ e, covered (replicated c') e -> ∃ o, op_id = Some o /\ OpId_le o (e_op_id e) = true
}.

Lemma clean_client_ok timeout now c :
  ranges_ok (replicated c) ->
  match (clean_client timeout now c).1 with
  | Some c' => cleaned (now - timeout) c c' (clean_client timeout now c).2
  | None => running c = [] /\ ∀ e, covered (replicated c) e -> e_time e < now - timeout
  end.
Proof.
  intros Hok. unfold clean_client. set (clean_start := now - timeout). set (sorted := merge_sort op_id_le (replicated c)).
  destruct (drop_expired_spec clean_start sorted) as (Hsub & Hkeep & k & Ek). set (rest := drop_expired clean_start sorted) in *.
  set (left := filter (λ r, r ∈ rest) (replicated c)).
  assert (∀ e r, r ∈ replicated c -> covers r e -> clean_start <= e_time e -> r ∈ rest) as Hrest.
  { intros e r Hr (_ & _ & Ht) He. apply Hkeep; [|lia]. unfold sorted. by rewrite merge_sort_Permutation. }
  assert (∀ x, replicated x = left -> running x = running c -> min_running_request_id x = min_running_request_id c ->
    cleaned clean_start c x (min_op_id <$> head rest)) as Hcl.
  { intros x El Er Em. assert (left `sublist_of` replicated c) as Hl by apply sublist_filter. split; rewrite ?El; try done.
    - by apply (ranges_ok_sublist (replicated c)).
    - intros e (r & Hr & Hc) He. exists r. split; [|done]. apply list_elem_of_filter. split; [by apply (Hrest e)|done].
    - intros e (r & [Hr _]%list_elem_of_filter & Hc). pose proof (StronglySorted_merge_sort op_id_le (replicated c)) as Hs. fold sorted in Hs.
      rewrite Ek in *. rewrite <- (take_drop k sorted) in Hs. apply StronglySorted_app in Hs as (_ & _ & Hs).
      destruct (drop k sorted) as [|r0 l]; [by apply elem_of_nil in Hr|]. exists (min_op_id r0). split; [done|].
      inversion_clear Hs as [|? ? _ H0]. rewrite Forall_forall in H0. destruct Hc as (_ & Ho & _).
      apply elem_of_cons in Hr as [->|Hr]; [done|]. apply (OpId_le_trans _ (min_op_id r)); [by apply H0|done]. }
  case_bool_decide as Hr; cbn [andb]; [|by apply Hcl]. case_bool_decide as Hn; [|by apply Hcl].
  destruct (_ =? _); [by apply Hcl|]. destruct (_ <? _); [|by apply Hcl].
  split; [by apply nil_length_inv|]. intros e (r & Hin & Hc). apply Z.nle_gt. intros He. specialize (Hrest e r Hin Hc He). rewrite Hr in Hrest. by apply elem_of_nil in Hrest.
Qed.

(** ** A tablet and its clients

    Histories beside the index: the requests that were replicated and can still
    be repeated, the operation ids used, the rounds that were not to be
    replicated and the notifications. *)
Record rr_state : Type := mkState {
  impl : Impl;
  done_requests : list (ClientId * entry);
  used_op_ids : list OpId;
  refused : list ConsensusRound;
  notified : list notification
}.

Definition initial_rr : rr_state := mkState (mkImpl ∅) [] [] [] [].

(** What is promised after an expiry: a request that has not expired, unless its
    client has said that it does not wait for it any more and is itself
    forgotten. *)
Definition still_promised (timeout now : Z) (m m' : Impl) (x : ClientId * entry) : Prop :=
  now - timeout <= e_time x.2 /\
  (min_running_request_id (client_of x.1 m) <= e_id x.2 \/ is_Some (clients_ m' !! x.1)).

#[export] Instance still_promised_dec timeout now m m' x : Decision (still_promised timeout now m m' x).
Proof. unfold still_promised. apply _. Defined.

Section system.
Context (release : bool) (RangeTimeLimit timeout : Z).

(** The operation id of a round is new; a request that finishes is one that was
    registered; a request is bootstrapped from the log once, before the client
    sends it again. *)
Inductive rr_step : rr_state -> rr_state -> Prop :=
| rr_register m D U F N now round entry_time m' ok notes :
    msg_id (replicate_msg round) ∉ U ->
    Register_round now round entry_time m = (m', ok, notes) ->
    rr_step (mkState m D U F N)
      (mkState m' D (if (ok : bool) then msg_id (replicate_msg round) :: U else U) (if ok then F else F ++ [round]) (N ++ notes))
| rr_finished m D U F N msg data r status leader_term m' notes :
    FromMsg msg = Some data -> r ∈ running (client_of (client_id data) m) ->
    running_request_id r = request_id data -> running_op_id r = msg_id msg ->
    ReplicationFinished release RangeTimeLimit msg status leader_term m = Done (m', notes) ->
    rr_step (mkState m D U F N)
      (mkState m' (match status with Ok _ => D ++ [(client_id data, mkEntry (request_id data) (msg_id msg) (running_time r))] | Error _ => D end)
         U F (N ++ notes))
| rr_bootstrap m D U F N msg data entry_time m' :
    FromMsg msg = Some data -> msg_id msg ∉ U -> running (client_of (client_id data) m) = [] ->
    (∀ e, (client_id data, e) ∈ D -> e_id e ≠ request_id data) -> ¬ ids (replicated (client_of (client_id data) m)) (request_id data) ->
    Bootstrap release RangeTimeLimit msg entry_time m = Done m' ->
    rr_step (mkState m D U F N)
      (mkState m' (D ++ [(client_id data, mkEntry (request_id data) (msg_id msg) entry_time)]) (msg_id msg :: U) F N)
| rr_clean m D U F N now m' op_id :
    CleanExpiredReplicatedAndGetMinOpId timeout now m = (m', op_id) ->
    rr_step (mkState m D U F N)
      (mkState m' (filter (λ x, still_promised timeout now m m' x) D) U F N).

End system.

(** *** The invariant *)

Record client_ok (c : ClientRetryableRequests) : Prop := {
  ci_ranges : ranges_ok (replicated c);
  ci_ids : NoDup (running_request_id <$> running c);
  ci_op_ids : NoDup (running_op_id <$> running c);
  ci_apart : ∀ r, r ∈ running c -> ¬ ids (replicated c) (running_request_id r) /\ running_op_id r ∉ min_op_id <$> replicated c
}.

(** The operation ids that a client refers to. *)
Definition op_ids_of (c : ClientRetryableRequests) : list OpId := (running_op_id <$> running c) ++ (min_op_id <$> replicated c).

(** What is promised for a replicated request. *)
Definition remembered (c : ClientRetryableRequests) (e : entry) : Prop :=
  e_id e < min_running_request_id c \/ covered (replicated c) e.

Definition attached (c : ClientRetryableRequests) : list ConsensusRound := concat (duplicate_rounds <$> running c).
Definition all_attached (m : Impl) : list ConsensusRound := concat ((λ x, attached x.2) <$> map_to_list (clients_ m)).

(** The rounds that wait are repetitions of the request they wait for. *)
Definition repeats (k : ClientId) (r : RunningRetryableRequest) (round : ConsensusRound) : Prop :=
  ∃ data, FromMsg (replicate_msg round) = Some data /\ client_id data = k /\ request_id data = running_request_id r.

Definition waits_ok (k : ClientId) (c : ClientRetryableRequests) : Prop :=
  ∀ r round, r ∈ running c -> round ∈ duplicate_rounds r -> repeats k r round.

Record rr_ok (s : rr_state) : Prop := {
  rr_clients : ∀ k c, clients_ (impl s) !! k = Some c ->
    client_ok c /\ (∀ o, o ∈ op_ids_of c -> o ∈ used_op_ids s) /\
    (∀ e, (k, e) ∈ done_requests s -> ∀ r, r ∈ running c -> running_request_id r ≠ e_id e);
  rr_done : ∀ k e, (k, e) ∈ done_requests s -> ∃ c, clients_ (impl s) !! k = Some c /\ remembered c e;
  rr_once : NoDup ((λ x, (x.1, e_id x.2)) <$> done_requests s);
  rr_rounds : refused s ≡ₚ (notified_round <$> notified s) ++ all_attached (impl s);
  rr_waits : ∀ k c, clients_ (impl s) !! k = Some c -> waits_ok k c
}.

(** The rounds attached to one client and to the others. *)
Lemma attached_split k m :
  ∃ R, all_attached m ≡ₚ attached (client_of k m) ++ R /\ ∀ x, all_attached (with_client k x m) ≡ₚ attached x ++ R.
Proof.
  exists (all_attached (mkImpl (delete k (clients_ m)))). split.
  - unfold all_attached, client_of. cbn [clients_]. destruct (clients_ m !! k) as [c|] eqn:E; cbn [default].
    + rewrite <- (map_to_list_delete _ _ _ E). done.
    + by rewrite delete_id.
  - intros x. unfold all_attached, with_client. cbn [clients_]. rewrite <- insert_delete_eq. by rewrite map_to_list_insert by apply lookup_delete_eq.
Qed.

Lemma new_client_ok : client_ok new_client.
Proof. split; cbn; try constructor; try constructor; by apply elem_of_nil in H. Qed.

Lemma client_of_waits s k : rr_ok s -> waits_ok k (client_of k (impl s)).
Proof.
  intros Hok. unfold client_of. destruct (clients_ (impl s) !! k) as [c|] eqn:E; cbn [default]; [by apply (rr_waits s Hok)|].
  by intros r round ?%elem_of_nil.
Qed.

Lemma client_of_ok s k : rr_ok s -> client_ok (client_of k (impl s)) /\ (∀ o, o ∈ op_ids_of (client_of k (impl s)) -> o ∈ used_op_ids s) /\
  (∀ e, (k, e) ∈ done_requests s -> remembered (client_of k (impl s)) e /\ ∀ r, r ∈ running (client_of k (impl s)) -> running_request_id r ≠ e_id e).
Proof.
  intros Hok. unfold client_of. destruct (clients_ (impl s) !! k) as [c|] eqn:E; cbn [default].
  - destruct (rr_clients s Hok k c E) as (? & ? & ?). split; [done|]. split; [done|]. intros e He. split; [|by apply H1].
    destruct (rr_done s Hok k e He) as (c' & Ec' & ?). rewrite E in Ec'. by injection Ec' as <-.
  - split; [apply new_client_ok|]. split; [by intros o ?%elem_of_nil|]. intros e He. destruct (rr_done s Hok k e He) as (c' & Ec' & _). congruence.
Qed.

(** One client changes; at most one request of it is replicated. *)
Lemma put_ok m D U F N k x (new : list entry) U' f n :
  rr_ok (mkState m D U F N) -> client_ok x -> (∀ o, o ∈ U -> o ∈ U') -> (∀ o, o ∈ op_ids_of x -> o ∈ U') ->
  (∀ e, (k, e) ∈ D -> remembered (client_of k m) e -> remembered x e) -> (∀ e, e ∈ new -> remembered x e) ->
  (∀ e r, (k, e) ∈ D \/ e ∈ new -> r ∈ running x -> running_request_id r ≠ e_id e) ->
  (∀ e e', (k, e) ∈ D -> e' ∈ new -> e_id e ≠ e_id e') -> (length new <= 1)%nat ->
  attached (client_of k m) ++ f ≡ₚ (notified_round <$> n) ++ attached x -> waits_ok k x ->
  rr_ok (mkState (with_client k x m) (D ++ ((k,.) <$> new)) U' (F ++ f) (N ++ n)).
Proof.
  intros Hok Hx HU HUx Hrem Hnew Hrun Honce Hlen Hatt Hw. pose proof Hok as [HC HD HO HR HW]. cbn in HC, HD, HO, HR, HW.
  assert (∀ j e, (j, e) ∈ D ++ ((k,.) <$> new) <-> (j, e) ∈ D \/ (j = k /\ e ∈ new)) as HDn.
  { intros j e. rewrite elem_of_app, list_elem_of_fmap. split; [intros [?|(y & [= -> ->] & ?)]; auto|intros [?|[-> ?]]; [by left|right; by eexists]]. }
  split; cbn.
  - intros j c Hc. destruct (decide (j = k)) as [->|Hne].
    + rewrite lookup_insert_eq in Hc. injection Hc as <-. split; [done|]. split; [done|]. intros e [He|[_ He]]%HDn r Hr; apply (Hrun e r); auto.
    + rewrite lookup_insert_ne in Hc by done. destruct (HC j c Hc) as (? & ? & ?). split; [done|]. split; [auto|].
      intros e [He|[-> _]]%HDn; [auto|done].
  - intros j e [He|[-> He]]%HDn.
    + destruct (decide (j = k)) as [->|Hne]; [rewrite lookup_insert_eq|rewrite lookup_insert_ne by done; by apply HD].
      eexists. split; [done|]. apply Hrem; [done|]. by apply (client_of_ok _ k Hok).
    + rewrite lookup_insert_eq. eexists. split; [done|]. by apply Hnew.
  - rewrite fmap_app. apply NoDup_app. split; [done|]. split.
    + intros [j id] (x1 & [= -> ->] & H1)%list_elem_of_fmap (x2 & [= E1 E2] & H2)%list_elem_of_fmap.
      apply list_elem_of_fmap in H2 as (e' & -> & H2). destruct x1 as [j1 e1]. cbn in *. subst j1. by apply (Honce e1 e').
    + destruct new as [|e1 [|e2 new]]; cbn in Hlen |- *; [constructor|apply NoDup_singleton|lia].
  - destruct (attached_split k m) as (R & ER & EX). rewrite EX, fmap_app, HR, ER, <- !app_assoc, (Permutation_app_comm R f), !app_assoc.
    apply Permutation_app; [|done]. rewrite <- !app_assoc. by apply Permutation_app.
  - intros j c Hc. destruct (decide (j = k)) as [->|Hne]; [rewrite lookup_insert_eq in Hc; by injection Hc as <-|].
    rewrite lookup_insert_ne in Hc by done. by apply HW.
Qed.

Lemma cleanup_ok new_min c :
  client_ok c -> let c' := CleanupReplicatedRequests new_min c in
  client_ok c' /\ running c' = running c /\ (∀ o, o ∈ op_ids_of c' -> o ∈ op_ids_of c) /\ (∀ e, remembered c e -> remembered c' e) /\
  (∀ id, ids (replicated c') id -> ids (replicated c) id).
Proof.
  intros [Hr Hi Ho Ha] c'. destruct (CleanupReplicatedRequests_ok new_min c Hr) as (Hr' & Er & Em & Hids & Hcov & Hops). fold c' in Hr', Er, Em, Hids, Hcov, Hops.
  split; [split; rewrite ?Er; try done|].
  - intros r Hin. destruct (Ha r Hin) as [H1 H2]. split; [by intros ?%Hids|]. by intros ?%Hops.
  - split; [done|]. split; [|split; [|done]].
    + unfold op_ids_of. rewrite Er. intros o. rewrite !elem_of_app. intros [?|?%Hops]; auto.
    + intros e. unfold remembered. rewrite Em. destruct (Z.lt_ge_cases (e_id e) (Z.max (min_running_request_id c) new_min)); [by left|].
      intros [?|?]; [left; lia|right]. apply Hcov; [lia|done].
Qed.

(** A client found with one of its running requests. *)
Lemma list_find_split {A : Type} (P : A -> Prop) `{∀ x, Decision (P x)} l i x :
  list_find P l = Some (i, x) -> ∃ l1 l2, l = l1 ++ x :: l2 /\ i = length l1 /\ P x.
Proof.
  intros (Hi & HP & _)%list_find_Some. exists (take i l), (drop (S i) l). split; [by rewrite take_drop_middle|]. split; [|done].
  apply lookup_lt_Some in Hi. rewrite length_take. lia.
Qed.

Lemma alter_found {A : Type} (f : A -> A) (l1 l2 : list A) x : alter f (length l1) (l1 ++ x :: l2) = l1 ++ f x :: l2.
Proof. induction l1 as [|y l1 IH]; cbn; [done|]. f_equal. apply IH. Qed.

Lemma delete_found {A : Type} (l1 l2 : list A) x : delete (length l1) (l1 ++ x :: l2) = l1 ++ l2.
Proof. induction l1 as [|y l1 IH]; cbn; [done|]. f_equal. apply IH. Qed.

Lemma attached_app l1 r l2 x :
  running x = l1 ++ r :: l2 -> attached x ≡ₚ duplicate_rounds r ++ concat (duplicate_rounds <$> (l1 ++ l2)).
Proof.
  intros E. unfold attached. rewrite E, !fmap_app, fmap_cons, !concat_app. cbn [concat]. rewrite !app_assoc.
  by rewrite (Permutation_app_comm (concat _) (duplicate_rounds r)).
Qed.

(** A round attached to a running request. *)
Lemma add_duplicate_ok m D U F N k c l1 r l2 round :
  rr_ok (mkState m D U F N) -> client_ok c -> (∀ o, o ∈ op_ids_of c -> o ∈ U) -> (∀ e, remembered (client_of k m) e -> remembered c e) ->
  running c = running (client_of k m) -> running c = l1 ++ r :: l2 -> repeats k r round ->
  rr_ok (mkState (with_client k (with_running (l1 ++ add_duplicate round r :: l2) c) m) D U (F ++ [round]) N).
Proof.
  intros Hok Hc HU Hrem Er El Hrep. set (x := with_running _ c).
  assert ((running_request_id <$> running x) = running_request_id <$> running c /\ (running_op_id <$> running x) = running_op_id <$> running c) as [Ei Eo]
    by (rewrite El; cbn; by rewrite !fmap_app, !fmap_cons).
  destruct (client_of_ok _ k Hok) as (_ & _ & HD). cbn [impl done_requests] in HD.
  pose proof (put_ok m D U F N k x [] U [round] [] Hok) as Hput. cbn [fmap list_fmap] in Hput. rewrite !app_nil_r in Hput. apply Hput; clear Hput; try done.
  - destruct Hc as [? ? ? Ha]. split; rewrite ?Ei, ?Eo; try done. intros r' Hr'. cbn [replicated with_running x].
    cbn [running with_running x] in Hr'. assert (∃ r0, r0 ∈ running c /\ running_request_id r0 = running_request_id r' /\ running_op_id r0 = running_op_id r') as (r0 & Hr0 & <- & <-).
    { rewrite El. apply elem_of_app in Hr' as [?|[->|?]%elem_of_cons]; [exists r'; set_solver|exists r; set_solver|exists r'; set_solver]. }
    by apply Ha.
  - intros o. unfold op_ids_of. rewrite Eo. apply HU.
  - intros e He Hr. by apply Hrem in Hr.
  - by intros e ?%elem_of_nil.
  - intros e r' [He|?%elem_of_nil] Hr'; [|done]. destruct (HD e He) as [_ Hne].
    assert (running_request_id r' ∈ running_request_id <$> running (client_of k m)) as (r0 & E & Hr0)%list_elem_of_fmap by (rewrite <- Er, <- Ei; by apply list_elem_of_fmap_2).
    rewrite E. by apply Hne.
  - by intros e e' _ ?%elem_of_nil.
  - cbn; lia.
  - rewrite Er in El. rewrite (attached_app l1 r l2 _ El), (attached_app l1 (add_duplicate round r) l2 x eq_refl). cbn.
    rewrite <- !app_assoc. apply Permutation_app; [done|]. apply Permutation_app_comm.
  - pose proof (client_of_waits _ k Hok) as Hw. cbn [impl] in Hw. unfold waits_ok in Hw |- *. rewrite <- Er, El in Hw. cbn [running with_running x].
    intros r' d [Hr'|[->|Hr']%elem_of_cons]%elem_of_app Hd; [apply Hw; set_solver| |apply Hw; set_solver].
    cbn in Hd. apply elem_of_app in Hd as [Hd| ->%list_elem_of_singleton]; [|done]. apply (Hw r); [set_solver|done].
Qed.

(** A client whose running requests stay as they are. *)
Lemma put_silent_ok m D U F N k c f n :
  rr_ok (mkState m D U F N) -> client_ok c -> (∀ o, o ∈ op_ids_of c -> o ∈ U) -> (∀ e, remembered (client_of k m) e -> remembered c e) ->
  running c = running (client_of k m) -> f = notified_round <$> n ->
  rr_ok (mkState (with_client k c m) D U (F ++ f) (N ++ n)).
Proof.
  intros Hok Hc HU Hrem Er ->. destruct (client_of_ok _ k Hok) as (_ & _ & HD). cbn [impl done_requests] in HD.
  pose proof (put_ok m D U F N k c [] U (notified_round <$> n) n Hok) as Hput. cbn [fmap list_fmap] in Hput. rewrite app_nil_r in Hput.
  apply Hput; clear Hput; try done.
  - intros e He Hr. by apply Hrem in Hr.
  - by intros e ?%elem_of_nil.
  - intros e r [He|?%elem_of_nil] Hr; [|done]. apply (HD e He). by rewrite <- Er.
  - by intros e e' _ ?%elem_of_nil.
  - cbn; lia.
  - unfold attached. rewrite Er. apply Permutation_app_comm.
  - unfold waits_ok. rewrite Er. apply (client_of_waits _ k Hok).
Qed.

Lemma used_more m D U F N o : rr_ok (mkState m D U F N) -> rr_ok (mkState m D (o :: U) F N).
Proof.
  intros [HC HD HO HR HW]. split; try done. cbn in *. intros k c Hc. destruct (HC k c Hc) as (? & HU & ?). split; [done|]. split; [|done].
  intros x Hx. right. by apply HU.
Qed.

(** A new running request. *)
Lemma add_running_ok m D U F N k c id o t :
  rr_ok (mkState m D U F N) -> client_ok c -> (∀ o, o ∈ op_ids_of c -> o ∈ U) -> (∀ e, remembered (client_of k m) e -> remembered c e) ->
  running c = running (client_of k m) -> o ∉ U -> min_running_request_id c <= id -> ¬ ids (replicated c) id ->
  id ∉ running_request_id <$> running c ->
  rr_ok (mkState (with_client k (with_running (running c ++ [mkRunning id o t []]) c) m) D (o :: U) F N).
Proof.
  intros Hok Hc HU Hrem Er Ho Hmin Hids Hrun. destruct (client_of_ok _ k Hok) as (_ & _ & HD). cbn [impl done_requests] in HD.
  set (x := with_running _ c). pose proof (put_ok m D U F N k x [] (o :: U) [] [] Hok) as Hput. cbn [fmap list_fmap] in Hput.
  rewrite !app_nil_r in Hput. apply Hput; clear Hput; try done.
  - destruct Hc as [? Hi Hops Ha]. split; cbn [replicated running with_running x]; rewrite ?fmap_app; cbn [fmap list_fmap running_request_id running_op_id]; try done.
    + apply NoDup_app. split; [done|]. split; [|apply NoDup_singleton]. intros y Hy ->%list_elem_of_singleton. done.
    + apply NoDup_app. split; [done|]. split; [|apply NoDup_singleton]. intros y Hy ->%list_elem_of_singleton. apply Ho, HU. apply elem_of_app. by left.
    + intros r [Hr| ->%list_elem_of_singleton]%elem_of_app; [by apply Ha|]. cbn. split; [done|]. intros Hin. apply Ho, HU. apply elem_of_app. by right.
  - intros y Hy. by right.
  - intros y. unfold op_ids_of. cbn [replicated running with_running x]. rewrite fmap_app. cbn [fmap list_fmap running_op_id]. rewrite !elem_of_app.
    intros [[Hy|Hy]|Hy]; [right; apply HU; apply elem_of_app; by left| |right; apply HU; apply elem_of_app; by right].
    apply list_elem_of_singleton in Hy as ->. by left.
  - intros e He Hr. by apply Hrem in Hr.
  - by intros e ?%elem_of_nil.
  - intros e r [He|?%elem_of_nil] Hr; [|done]. destruct (HD e He) as [Hre Hne]. cbn [running with_running x] in Hr.
    apply elem_of_app in Hr as [Hr| ->%list_elem_of_singleton]; [apply Hne; by rewrite <- Er|]. cbn. intros ->.
    destruct (Hrem e Hre) as [?|Hc'%covered_ids]; [lia|done].
  - by intros e e' _ ?%elem_of_nil.
  - cbn; lia.
  - unfold attached. cbn [running with_running x]. rewrite Er, fmap_app, concat_app. cbn. by rewrite !app_nil_r.
  - intros r d [Hr| ->%list_elem_of_singleton]%elem_of_app Hd; [|by apply elem_of_nil in Hd].
    apply (client_of_waits _ k Hok); [cbn [impl]; by rewrite <- Er|done].
Qed.

Lemma register_ok m D U F N now round entry_time m' ok notes :
  rr_ok (mkState m D U F N) -> msg_id (replicate_msg round) ∉ U -> Register_round now round entry_time m = (m', ok, notes) ->
  rr_ok (mkState m' D (if (ok : bool) then msg_id (replicate_msg round) :: U else U) (if ok then F else F ++ [round]) (N ++ notes)).
Proof.
  intros Hok Ho E. unfold Register_round in E. destruct (FromMsg _) as [data|] eqn:Edata.
  2: { injection E as <- <- <-. rewrite app_nil_r. by apply used_more. }
  set (k := client_id data) in *. destruct (client_of_ok _ k Hok) as (Hc0 & HU0 & _). cbn [impl used_op_ids] in Hc0, HU0.
  destruct (cleanup_ok (request_min_running data) _ Hc0) as (Hc & Er & Hops & Hrem & _).
  set (c := CleanupReplicatedRequests (request_min_running data) (client_of k m)) in *.
  assert (∀ o, o ∈ op_ids_of c -> o ∈ U) as HU by auto.
  destruct (Z.ltb_spec (request_id data) (min_running_request_id c)) as [|Hmin].
  { injection E as <- <- <-. by apply put_silent_ok. }
  destruct (match (lower_bound _ _).2 with [] => _ | _ => _ end) eqn:Hlook.
  { injection E as <- <- <-. by apply put_silent_ok. }
  assert (¬ ids (replicated c) (request_id data)) as Hids.
  { intros Hin%(lookup_ids _ _ (ci_ranges _ Hc)). congruence. }
  unfold find_running in E. destruct (list_find (λ r, running_request_id r = request_id data) (running c)) as [[i r]|] eqn:Ef.
  - apply list_find_split in Ef as (l1 & l2 & El & -> & Eid). injection E as <- <- <-. rewrite app_nil_r, El, alter_found.
    apply add_duplicate_ok; try done. by exists data.
  - destruct (list_find (λ r, running_op_id r = _) (running c)) as [[i r]|] eqn:Eo.
    { exfalso. apply list_find_split in Eo as (l1 & l2 & El & _ & Er'). apply Ho. rewrite <- Er'. apply HU, elem_of_app. left. apply list_elem_of_fmap_2. rewrite El. set_solver. }
    cbn [fmap option_fmap option_map] in E. injection E as <- <- <-. rewrite app_nil_r. apply add_running_ok; try done.
    intros (r & Eid & Hr)%list_elem_of_fmap. apply list_find_None in Ef. rewrite Forall_forall in Ef. by apply (Ef r).
Qed.

(** The running request with an id. *)
Lemma find_by_id l (r : RunningRetryableRequest) id :
  NoDup (running_request_id <$> l) -> r ∈ l -> running_request_id r = id ->
  ∃ i, list_find (λ r, running_request_id r = id) l = Some (i, r).
Proof.
  intros Hi Hr Eid. destruct (list_find _ l) as [[i r']|] eqn:Ef.
  2: { exfalso. apply list_find_None in Ef. rewrite Forall_forall in Ef. by apply (Ef r). }
  exists i. do 2 f_equal. apply list_find_split in Ef as (l1 & l2 & -> & _ & Er').
  apply elem_of_app in Hr as [Hr|[->|Hr]%elem_of_cons]; [|done|]; exfalso;
    rewrite fmap_app, fmap_cons, <- Permutation_middle in Hi; apply NoDup_cons in Hi as [Hi _]; apply Hi; rewrite Er', <- Eid;
    apply elem_of_app; [left|right]; by apply list_elem_of_fmap_2.
Qed.

(** A running request that finishes. *)
Section finish.
Context (release : bool) (RangeTimeLimit : Z).

Lemma finished_client_ok c l1 r l2 l :
  client_ok c -> running c = l1 ++ r :: l2 ->
  l = replicated c \/ added (replicated c) l (mkEntry (running_request_id r) (running_op_id r) (running_time r)) ->
  let x := with_replicated l (with_running (l1 ++ l2) c) in
  client_ok x /\ (∀ o, o ∈ op_ids_of x -> o ∈ op_ids_of c) /\ (∀ e, remembered c e -> remembered x e) /\
  (∀ r', r' ∈ running x -> r' ∈ running c /\ running_request_id r' ≠ running_request_id r).
Proof.
  intros [Hr Hi Ho Ha] El Hl x. rewrite El in Hi, Ho, Ha. rewrite fmap_app, fmap_cons, <- Permutation_middle, <- fmap_app in Hi.
  rewrite fmap_app, fmap_cons, <- Permutation_middle, <- fmap_app in Ho. apply NoDup_cons in Hi as [Hni Hi], Ho as [Hno Ho].
  assert (∀ r', r' ∈ l1 ++ l2 -> r' ∈ l1 ++ r :: l2 /\ running_request_id r' ≠ running_request_id r /\ running_op_id r' ≠ running_op_id r) as Hother.
  { intros r' Hr'. split; [set_solver|]. split; intros E; [apply Hni|apply Hno]; rewrite <- E; by apply list_elem_of_fmap_2. }
  split; [split; cbn [x with_replicated with_running running replicated]; try done|split; [|split]].
  - destruct Hl as [->|[]]; done.
  - intros r' Hr'. destruct (Hother r' Hr') as (Hin & Hne1 & Hne2). destruct (Ha r' Hin) as [Hai Hao]. destruct Hl as [->|[_ Hids _ _ Hops]]; [done|].
    cbn [e_id e_op_id] in Hids, Hops. split; [by intros [?|?]%Hids|]. by intros [?|?]%Hops.
  - intros o. unfold op_ids_of. cbn [x with_replicated with_running running replicated]. rewrite El, !elem_of_app, !fmap_app, fmap_cons, !elem_of_app, elem_of_cons.
    destruct Hl as [->|[_ _ _ _ Hops]]; [tauto|]. intros [?|[?| ->]%Hops]; [tauto|tauto|]. cbn. tauto.
  - intros e [?|?]; [by left|right]. destruct Hl as [->|[]]; auto.
  - intros r' Hr'. destruct (Hother r' Hr') as (Hin & Hne & _). by rewrite El.
Qed.

Lemma finished_ok m D U F N msg data r status leader_term m' notes :
  rr_ok (mkState m D U F N) -> FromMsg msg = Some data -> r ∈ running (client_of (client_id data) m) ->
  running_request_id r = request_id data -> running_op_id r = msg_id msg ->
  ReplicationFinished release RangeTimeLimit msg status leader_term m = Done (m', notes) ->
  rr_ok (mkState m'
    (match status with Ok _ => D ++ [(client_id data, mkEntry (request_id data) (msg_id msg) (running_time r))] | Error _ => D end)
    U F (N ++ notes)).
Proof.
  intros Hok Ed Hr Eid Eop E. unfold ReplicationFinished in E. rewrite Ed in E. set (k := client_id data) in *.
  destruct (client_of_ok _ k Hok) as (Hc & HU & HD). cbn [impl used_op_ids done_requests] in Hc, HU, HD. set (c := client_of k m) in *.
  destruct (find_by_id _ r (request_id data) (ci_ids _ Hc) Hr Eid) as [i Ef]. rewrite Ef in E.
  apply list_find_split in Ef as (l1 & l2 & El & -> & _).
  rewrite El, delete_found in E. set (e := mkEntry (request_id data) (msg_id msg) (running_time r)).
  apply outcome_bind_Done in E as (l & Eadd & [= <- <-]).
  assert (match status with Ok _ => added (replicated c) l e | Error _ => l = replicated c end) as Hl.
  { destruct status; [|by injection Eadd as <-]. destruct (ci_apart _ Hc r Hr) as [Hn1 Hn2]. rewrite Eid in Hn1. rewrite Eop in Hn2.
    destruct (AddReplicated_ok release RangeTimeLimit e (replicated c) (ci_ranges _ Hc) Hn1 Hn2) as (l' & El' & Hadd).
    cbn [e e_id e_op_id e_time with_running replicated] in El', Eadd. rewrite El' in Eadd. by injection Eadd as <-. }
  assert (l = replicated c \/ added (replicated c) l (mkEntry (running_request_id r) (running_op_id r) (running_time r))) as Hl'.
  { rewrite Eid, Eop. destruct status; [by right|by left]. }
  destruct (finished_client_ok c l1 r l2 l Hc El Hl') as (Hx & Hops & Hrem & Hrun). rewrite Eid in Hrun. set (x := with_replicated l _) in *.
  set (new := match status with Ok _ => [e] | Error _ => [] end).
  replace (match status with Ok _ => D ++ [(k, e)] | Error _ => D end) with (D ++ ((k,.) <$> new)) by (unfold new; destruct status; [done|cbn; by rewrite app_nil_r]).
  assert (∀ e', e' ∈ new -> e' = e) as Hnew by (unfold new; destruct status; [by intros e' ?%list_elem_of_singleton|by intros e' ?%elem_of_nil]).
  rewrite <- (app_nil_r F). apply put_ok with (U := U); try done.
  - auto.
  - intros e' _. apply Hrem.
  - intros e' He'. destruct status; [|by apply elem_of_nil in He']. apply Hnew in He' as ->. right. by apply (ad_covered (replicated c)).
  - intros e' r' [He'|He'] Hr'; destruct (Hrun r' Hr') as [Hin Hne]; [by apply (HD e' He')|]. by apply Hnew in He' as ->.
  - intros e1 e2 He1 ->%Hnew. destruct (HD e1 He1) as [_ Hne]. specialize (Hne r Hr). cbn. congruence.
  - unfold new; destruct status; cbn; lia.
  - rewrite app_nil_r. fold c. rewrite (attached_app l1 r l2 c El). apply Permutation_app; [|done].
    rewrite <- list_fmap_compose. unfold compose. cbn. by rewrite list_fmap_id.
  - intros r' d Hr' Hd. apply (client_of_waits _ k Hok); [|done]. by apply (Hrun r' Hr').
Qed.

Lemma bootstrap_ok m D U F N msg data entry_time m' :
  rr_ok (mkState m D U F N) -> FromMsg msg = Some data -> msg_id msg ∉ U -> running (client_of (client_id data) m) = [] ->
  (∀ e, (client_id data, e) ∈ D -> e_id e ≠ request_id data) -> ¬ ids (replicated (client_of (client_id data) m)) (request_id data) ->
  Bootstrap release RangeTimeLimit msg entry_time m = Done m' ->
  rr_ok (mkState m' (D ++ [(client_id data, mkEntry (request_id data) (msg_id msg) entry_time)]) (msg_id msg :: U) F N).
Proof.
  intros Hok Ed Ho Hrun HDn Hids E. unfold Bootstrap in E. rewrite Ed in E. set (k := client_id data) in *.
  destruct (client_of_ok _ k Hok) as (Hc0 & HU0 & _). cbn [impl used_op_ids] in Hc0, HU0. set (c0 := client_of k m) in *.
  rewrite Hrun in E. cbn [list_find] in E. destruct (cleanup_ok (request_min_running data) c0 Hc0) as (Hc & Er & Hops & Hrem & Hsub).
  set (c := CleanupReplicatedRequests _ c0) in *. set (e := mkEntry (request_id data) (msg_id msg) entry_time).
  destruct (AddReplicated_ok release RangeTimeLimit e (replicated c)) as (l & El & Hadd).
  { apply Hc. } { by intros ?%Hsub. } { intros Hin. apply Ho, HU0, Hops, elem_of_app. by right. }
  cbn [e e_id e_op_id e_time] in El. rewrite El in E. cbn [mbind outcome_bind] in E. injection E as <-.
  rewrite <- (app_nil_r F), <- (app_nil_r N). apply (put_ok m D U F N k (with_replicated l c) [e]); try done.
  - split; cbn [with_replicated running replicated]; rewrite ?Er, ?Hrun; [apply Hadd|constructor|constructor|by intros r ?%elem_of_nil].
  - intros o Hin. by right.
  - intros o. unfold op_ids_of. cbn [with_replicated running replicated]. rewrite Er, Hrun. cbn [fmap list_fmap app].
    intros [Hin| ->]%(ad_op_ids _ _ _ Hadd); [right|by left]. apply HU0, Hops, elem_of_app. by right.
  - intros e' _ [?|?]%Hrem; [by left|right]. by apply (ad_kept _ _ _ Hadd).
  - intros e' ->%list_elem_of_singleton. right. apply (ad_covered _ _ _ Hadd).
  - intros e' r _. cbn [with_replicated running]. rewrite Er, Hrun. by intros ?%elem_of_nil.
  - intros e1 e2 He1 ->%list_elem_of_singleton. by apply HDn.
  - rewrite app_nil_r. unfold attached. cbn [with_replicated running]. by rewrite Er.
  - intros r d. cbn [with_replicated running]. rewrite Er, Hrun. by intros ?%elem_of_nil.
Qed.

End finish.

(** Expiry keeps the attached rounds. *)
Lemma all_attached_clean timeout now m :
  (∀ k c, clients_ m !! k = Some c -> ranges_ok (replicated c)) ->
  all_attached (mkImpl (omap (λ c, (clean_client timeout now c).1) (clients_ m))) ≡ₚ all_attached m.
Proof.
  destruct m as [cs]. unfold all_attached. cbn [clients_]. induction cs as [|k c cs Hk IH] using map_ind; intros Hok; [done|].
  assert (ranges_ok (replicated c)) as Hr by (apply (Hok k); apply lookup_insert_eq).
  assert (∀ k' c', cs !! k' = Some c' -> ranges_ok (replicated c')) as Hok'.
  { intros k' c' Hc'. apply (Hok k'). rewrite lookup_insert_ne; [done|]. intros ->. congruence. }
  rewrite omap_insert. rewrite (map_to_list_insert cs k c Hk). cbn [fmap list_fmap concat snd].
  pose proof (clean_client_ok timeout now c Hr) as Hcl. destruct (clean_client timeout now c).1 as [c'|].
  - rewrite map_to_list_insert by (rewrite lookup_omap, Hk; done). cbn [fmap list_fmap concat snd]. apply Permutation_app; [|by apply IH].
    unfold attached. by rewrite (cl_running _ _ _ _ Hcl).
  - rewrite delete_id by (rewrite lookup_omap, Hk; done). destruct Hcl as [Hrun _]. unfold attached at 2. rewrite Hrun. cbn. by apply IH.
Qed.

Lemma clean_ok timeout m D U F N now m' op_id :
  rr_ok (mkState m D U F N) -> CleanExpiredReplicatedAndGetMinOpId timeout now m = (m', op_id) ->
  rr_ok (mkState m' (filter (λ x, still_promised timeout now m m' x) D) U F N).
Proof.
  intros [HC HD HO HR HW] [= <- _]. cbn in HC, HD, HO, HR, HW. set (cs := omap _ (clients_ m)).
  assert (∀ k c', cs !! k = Some c' -> ∃ c o, clients_ m !! k = Some c /\ client_ok c /\ cleaned (now - timeout) c c' o) as Hcs.
  { intros k c'. unfold cs. rewrite lookup_omap. destruct (clients_ m !! k) as [c|] eqn:Ec; [|done]. cbn. intros E.
    destruct (HC k c Ec) as (Hc & _). pose proof (clean_client_ok timeout now c (ci_ranges _ Hc)) as Hcl. rewrite E in Hcl. by eexists _, _. }
  split; cbn [impl done_requests used_op_ids refused notified clients_]; cbn [clients_].
  - intros k c' Hk. destruct (Hcs k c' Hk) as (c & o & Ec & Hc & Hcl). destruct (HC k c Ec) as (_ & HU & Hrun).
    pose proof (sublist_submseteq _ _ (cl_sub _ _ _ _ Hcl)) as Hsub. rewrite (cl_running _ _ _ _ Hcl) in *.
    assert (∀ x, x ∈ min_op_id <$> replicated c' -> x ∈ min_op_id <$> replicated c) as Hops.
    { intros x (r & -> & Hr)%list_elem_of_fmap. apply list_elem_of_fmap_2. by eapply elem_of_submseteq. }
    split; [|split].
    + destruct Hc as [? ? ? Ha]. split; rewrite ?(cl_running _ _ _ _ Hcl); try done; [apply Hcl|]. intros r Hr. destruct (Ha r Hr) as [H1 H2]. split; [|by intros ?%Hops].
      intros (x & Hx & Hi). apply H1. exists x. split; [by eapply elem_of_submseteq|done].
    + intros x. unfold op_ids_of. rewrite (cl_running _ _ _ _ Hcl), elem_of_app. intros [?|?%Hops]; apply HU, elem_of_app; auto.
    + intros e [_ He]%list_elem_of_filter. by apply Hrun.
  - intros k e [[Ht Hp] He]%list_elem_of_filter. cbn [fst snd] in *.
    assert (is_Some (cs !! k)) as [c' Hk].
    { destruct Hp as [Hmin|?]; [|done]. destruct (HD k e He) as (c & Ec & Hrem). unfold client_of in Hmin. rewrite Ec in Hmin. cbn in Hmin.
      destruct Hrem as [|Hcov]; [lia|]. destruct (HC k c Ec) as (Hc & _). pose proof (clean_client_ok timeout now c (ci_ranges _ Hc)) as Hcl.
      unfold cs. rewrite lookup_omap, Ec. cbn. destruct (clean_client timeout now c).1; [done|]. destruct Hcl as [_ Hcl]. specialize (Hcl e Hcov). lia. }
    exists c'. split; [done|]. destruct (Hcs k c' Hk) as (c & o & Ec & Hc & Hcl). destruct (HD k e He) as (c1 & Ec1 & Hrem). rewrite Ec in Ec1. injection Ec1 as <-.
    destruct Hrem as [?|?]; [left; by rewrite (cl_min _ _ _ _ Hcl)|right; by apply (cl_kept _ _ _ _ Hcl)].
  - eapply sublist_NoDup; [exact HO|]. apply fmap_sublist, sublist_filter.
  - rewrite HR. apply Permutation_app; [done|]. symmetry. apply all_attached_clean. intros k c Hc. apply (HC k c Hc).
  - intros k c' Hk. destruct (Hcs k c' Hk) as (c & o & Ec & _ & Hcl). unfold waits_ok. rewrite (cl_running _ _ _ _ Hcl). by apply HW.
Qed.

Lemma rr_initial_ok : rr_ok initial_rr.
Proof.
  split; cbn.
  - intros k c. by rewrite lookup_empty.
  - by intros k e ?%elem_of_nil.
  - constructor.
  - done.
  - intros k c. by rewrite lookup_empty.
Qed.

Lemma rr_step_ok release limit timeout s s' : rr_ok s -> rr_step release limit timeout s s' -> rr_ok s'.
Proof.
  intros Hok Hstep. destruct Hstep.
  - by eapply register_ok.
  - by eapply finished_ok.
  - by eapply bootstrap_ok.
  - by eapply clean_ok.
Qed.

Lemma rr_reachable_ok release limit timeout s : rtc (rr_step release limit timeout) initial_rr s -> rr_ok s.
Proof.
  intros Hr. pose proof rr_initial_ok as H0. induction Hr as [|x y z Hxy _ IH]; [done|]. apply IH. by eapply rr_step_ok.
Qed.

(** The least operation id over all clients. *)
Lemma least_op_id_le timeout now (l : list (ClientId * ClientRetryableRequests)) k c o :
  (k, c) ∈ l -> (clean_client timeout now c).2 = Some o ->
  OpId_le (foldr (λ c result, match (clean_client timeout now c.2).2 with Some op_id => OpId_min result op_id | None => result end)
    OpId_max_value l) o = true.
Proof.
  intros Hin Ho. induction l as [|[k' c'] l IH]; [by apply elem_of_nil in Hin|]. cbn [foldr snd]. set (rest := foldr _ _ l) in *.
  apply elem_of_cons in Hin as [[= <- <-]|Hin]; [rewrite Ho; apply OpId_min_le|]. specialize (IH Hin).
  destruct (clean_client timeout now c').2 as [o'|]; [|done]. apply (OpId_le_trans _ rest); [apply OpId_min_le|done].
Qed.

Lemma least_op_id_attained timeout now (l : list (ClientId * ClientRetryableRequests)) :
  let o := foldr (λ c result, match (clean_client timeout now c.2).2 with Some op_id => OpId_min result op_id | None => result end)
    OpId_max_value l in
  o = OpId_max_value \/ ∃ k c, (k, c) ∈ l /\ (clean_client timeout now c).2 = Some o.
Proof.
  induction l as [|[k c] l IH]; [by left|]. cbn [foldr snd]. set (rest := foldr _ _ l) in *. cbv zeta in IH.
  assert (rest = OpId_max_value \/ ∃ k' c', (k', c') ∈ (k, c) :: l /\ (clean_client timeout now c').2 = Some rest) as IH'.
  { destruct IH as [?|(k' & c' & ? & ?)]; [by left|right]. exists k', c'. split; [by right|done]. }
  destruct (clean_client timeout now c).2 as [o|] eqn:Eo; [|done].
  destruct (OpId_min_or rest o) as [->| ->]; [done|]. right. exists k, c. split; [by left|done].
Qed.

(** The operation id that a client gives is that of a range that is kept. *)
Lemma clean_client_op_id timeout now c o :
  (clean_client timeout now c).2 = Some o -> ∃ c' r, (clean_client timeout now c).1 = Some c' /\ r ∈ replicated c' /\ min_op_id r = o.
Proof.
  unfold clean_client. set (rest := drop_expired _ _). set (left := filter (λ r, r ∈ rest) (replicated c)).
  assert (∀ r, head rest = Some r -> r ∈ left) as Hhead.
  { intros r Hr. assert (r ∈ rest) as Hin by (destruct rest; [done|injection Hr as ->; by left]). apply list_elem_of_filter. split; [done|].
    destruct (drop_expired_spec (now - timeout) (merge_sort op_id_le (replicated c))) as (Hsub & _). apply Hsub in Hin. by rewrite merge_sort_Permutation in Hin. }
  assert (∀ x, replicated x = left -> (min_op_id <$> head rest) = Some o -> ∃ c' r, Some x = Some c' /\ r ∈ replicated c' /\ min_op_id r = o) as Hx.
  { intros x Ex E. destruct (head rest) as [r|] eqn:Er; [|done]. injection E as <-. exists x, r. split; [done|]. rewrite Ex. by split; [apply Hhead|]. }
  case_bool_decide as Hr; cbn [andb]; [|by apply Hx]. rewrite Hr in *. case_bool_decide; [|by apply Hx]. by repeat case_match.
Qed.

(** ** Properties *)

(** C9: a request of a client is replicated once: until it expires, or its
    client no longer waits for it and is forgotten, a request that was
    replicated is refused when it is sent again, with the status that says so.
    Every round that is not replicated itself is notified exactly once or waits,
    and those that wait are repetitions of the running request they wait for.
    A running request can always finish, also in a debug build, and then
    notifies exactly the rounds that wait for it, of its failure or that it is
    present. *)
Theorem retryable_requests_once release limit timeout s :
  rtc (rr_step release limit timeout) initial_rr s ->
  NoDup ((λ x, (x.1, e_id x.2)) <$> done_requests s) /\
  (∀ k e now round entry_time data,
     (k, e) ∈ done_requests s -> FromMsg (replicate_msg round) = Some data -> client_id data = k -> request_id data = e_id e ->
     ∃ m code, Register_round now round entry_time (impl s) = (m, false, [NotifyReplicationFinished round (Error code) (bound_term round)]) /\
       (code = Expired \/ code = AlreadyPresent)) /\
  refused s ≡ₚ (notified_round <$> notified s) ++ all_attached (impl s) /\
  (∀ k r round, r ∈ running (client_of k (impl s)) -> round ∈ duplicate_rounds r -> repeats k r round) /\
  (∀ msg data r status leader_term, FromMsg msg = Some data -> r ∈ running (client_of (client_id data) (impl s)) ->
     running_request_id r = request_id data -> running_op_id r = msg_id msg ->
     ∃ m, ReplicationFinished release limit msg status leader_term (impl s) =
       Done (m, (λ d, NotifyReplicationFinished d (match status with Ok _ => Error AlreadyPresent | Error _ => status end) leader_term)
                  <$> duplicate_rounds r)).
Proof.
  intros Hr%rr_reachable_ok. split; [apply Hr|]. split; [|split; [apply Hr|split; [intros k; by apply client_of_waits|]]].
  - intros k e now round entry_time data Hin Ed Ek Eid. unfold Register_round. rewrite Ed, Ek, Eid.
    destruct (client_of_ok s k Hr) as (Hc & _ & HD). destruct (HD e Hin) as [Hrem _].
    destruct (cleanup_ok (request_min_running data) _ Hc) as (Hc' & _ & _ & Hrem' & _). apply Hrem' in Hrem.
    destruct (Z.ltb_spec (e_id e) (min_running_request_id (CleanupReplicatedRequests (request_min_running data) (client_of k (impl s))))) as [|Hge];
      [eexists _, Expired; split; [done|by left]|].
    destruct Hrem as [|Hcov%covered_ids]; [lia|]. rewrite (proj2 (lookup_ids _ _ (ci_ranges _ Hc')) Hcov). eexists _, AlreadyPresent. split; [done|by right].
  - intros msg data r status leader_term Ed Hin Eid Eop. unfold ReplicationFinished. rewrite Ed. destruct (client_of_ok s (client_id data) Hr) as (Hc & _ & _).
    destruct (find_by_id _ r (request_id data) (ci_ids _ Hc) Hin Eid) as [i ->].
    destruct status; cbn [mbind outcome_bind]; [|by eexists]. destruct (ci_apart _ Hc r Hin) as [Hn1 Hn2]. rewrite Eid in Hn1. rewrite Eop in Hn2.
    destruct (AddReplicated_ok release limit (mkEntry (request_id data) (msg_id msg) (running_time r)) _ (ci_ranges _ Hc) Hn1 Hn2) as (l' & El' & _).
    cbn [e_id e_op_id e_time with_running replicated] in El' |- *. rewrite El'. cbn [mbind outcome_bind]. by eexists.
Qed.

Definition sample_message (op id min : Z) : ReplicateMsg := mkReplicateMsg (mkOpId 1 op) (Some (mkWriteRequestPB (7, 7) id min)).
Definition sample_round (n : nat) (op id min : Z) : ConsensusRound := mkConsensusRound n (sample_message op id min) 1.

Lemma retryable_requests_once_witness :
  ∃ s, done_requests s = [((7, 7), mkEntry 5 (mkOpId 1 1) 20)] /\
    (Register_round 30 (sample_round 2 2 5 5) 0 (impl s)).1.2 = false.
Proof.
  set (s1 := mkState (Register_round 20 (sample_round 1 1 5 5) 0 (mkImpl ∅)).1.1 [] [mkOpId 1 1] [] []).
  set (m2 := mkImpl {[(7, 7) := mkClient [] [mkRange 5 5 (mkOpId 1 1) 20 20] 5 0]}).
  set (s2 := mkState m2 [((7, 7), mkEntry 5 (mkOpId 1 1) 20)] [mkOpId 1 1] [] []).
  assert (rtc (rr_step false 30 300) initial_rr s2) as Hr.
  { apply (rtc_l _ _ s1); [apply (rr_register false 30 300 (mkImpl ∅) [] [] [] [] 20 (sample_round 1 1 5 5) 0 _ true []); [apply not_elem_of_nil|reflexivity]|].
    apply rtc_once.
    apply (rr_finished false 30 300 _ [] _ [] [] (sample_message 1 5 5) (mkWriteRequestPB (7, 7) 5 5) (mkRunning 5 (mkOpId 1 1) 20 []) (Ok tt) 1 m2 []);
      [reflexivity|by left|reflexivity|reflexivity|vm_compute; reflexivity]. }
  exists s2. split; [reflexivity|].
  destruct (retryable_requests_once false 30 300 s2 Hr) as (_ & Hdup & _).
  destruct (Hdup (7, 7) (mkEntry 5 (mkOpId 1 1) 20) 30 (sample_round 2 2 5 5) 0 (mkWriteRequestPB (7, 7) 5 5)) as (m & code & -> & _);
    [by left|reflexivity..].
Defined.

(** C26: the log from the operation id that [CleanExpiredReplicatedAndGetMinOpId]
    returns is enough to find the replicated requests again: every request that
    is kept has its operation there, and every request that has not expired is
    kept. The id is the least one of a range of replicated requests that is
    kept, and the greatest there is when none is; the comment in
    [retryable_requests.h] has it as one of a running request. *)
Theorem retryable_requests_log release limit timeout s now m' op_id :
  rtc (rr_step release limit timeout) initial_rr s -> CleanExpiredReplicatedAndGetMinOpId timeout now (impl s) = (m', op_id) ->
  (∀ k c e, clients_ m' !! k = Some c -> covered (replicated c) e -> OpId_le op_id (e_op_id e) = true) /\
  (op_id = OpId_max_value \/ ∃ k c r, clients_ m' !! k = Some c /\ r ∈ replicated c /\ min_op_id r = op_id) /\
  (∀ k c e, clients_ (impl s) !! k = Some c -> covered (replicated c) e -> now - timeout <= e_time e ->
     ∃ c', clients_ m' !! k = Some c' /\ covered (replicated c') e).
Proof.
  intros Hr%rr_reachable_ok [= <- <-]. cbn [clients_]. split; [|split].
  - intros k c' e Hk Hcov. rewrite lookup_omap in Hk. destruct (clients_ (impl s) !! k) as [c|] eqn:Ec; [|done]. cbn in Hk.
    destruct (rr_clients s Hr k c Ec) as (Hc & _). pose proof (clean_client_ok timeout now c (ci_ranges _ Hc)) as Hcl. rewrite Hk in Hcl.
    destruct (cl_op_id _ _ _ _ Hcl e Hcov) as (o & Eo & Hle). apply (OpId_le_trans _ o); [|done].
    apply (least_op_id_le timeout now _ k c); [by apply elem_of_map_to_list|done].
  - destruct (least_op_id_attained timeout now (map_to_list (clients_ (impl s)))) as [?|(k & c & Hin%elem_of_map_to_list & Ho)]; [by left|right].
    apply clean_client_op_id in Ho as (c' & r & Ec & Hr' & Eo). exists k, c', r. rewrite lookup_omap, Hin. done.
  - intros k c e Ec Hcov Ht. rewrite lookup_omap, Ec. cbn. destruct (rr_clients s Hr k c Ec) as (Hc & _).
    pose proof (clean_client_ok timeout now c (ci_ranges _ Hc)) as Hcl. destruct (clean_client timeout now c).1 as [c'|].
    + exists c'. split; [done|]. by apply (cl_kept _ _ _ _ Hcl).
    + destruct Hcl as [_ Hcl]. specialize (Hcl e Hcov). lia.
Qed.

Lemma retryable_requests_log_witness :
  let m := mkImpl {[(7, 7) := mkClient [] [mkRange 5 5 (mkOpId 1 1) 20 20] 5 0]} in
  (CleanExpiredReplicatedAndGetMinOpId 300 100 m).2 = mkOpId 1 1 /\
  ∃ c', clients_ (CleanExpiredReplicatedAndGetMinOpId 300 100 m).1 !! (7, 7) = Some c' /\ covered (replicated c') (mkEntry 5 (mkOpId 1 1) 20).
Proof.
  intros m. split; [vm_compute; reflexivity|].
  set (s := mkState m [((7, 7), mkEntry 5 (mkOpId 1 1) 20)] [mkOpId 1 1] [] []).
  assert (rtc (rr_step false 30 300) initial_rr s) as Hr.
  { apply rtc_once. apply (rr_bootstrap false 30 300 (mkImpl ∅) [] [] [] [] (sample_message 1 5 5) (mkWriteRequestPB (7, 7) 5 5) 20);
      [reflexivity|apply not_elem_of_nil|reflexivity|by intros e ?%elem_of_nil|by intros (r & ?%elem_of_nil & _)|vm_compute; reflexivity]. }
  destruct (retryable_requests_log false 30 300 s 100 _ _ Hr (surjective_pairing _)) as (_ & _ & Hk).
  apply (Hk (7, 7) (mkClient [] [mkRange 5 5 (mkOpId 1 1) 20 20] 5 0)); [reflexivity| |cbn; lia].
  eexists. split; [by left|]. split; [split; cbn; lia|]. split; [reflexivity|cbn; lia].
Defined.

(** A client that was without requests once is forgotten as soon as it is
    without requests again, since [empty_since] is never reset: here request 2
    is replicated at time 401 and the client is forgotten at time 701, though
    it had requests until then, and a late copy of request 2 is accepted. *)
Lemma client_forgotten_early :
  let finish m op id min := match ReplicationFinished false 30 (sample_message op id min) (Ok tt) 1 m with Done (m, _) => m | _ => m end in
  let abort m op id min := match ReplicationFinished false 30 (sample_message op id min) (Error Aborted) 1 m with Done (m, _) => m | _ => m end in
  let m := finish (Register_round 1 (sample_round 1 1 1 1) 0 (mkImpl ∅)).1.1 1 1 1 in
  let m := (CleanExpiredReplicatedAndGetMinOpId 300 400 m).1 in
  let m := finish (Register_round 401 (sample_round 2 2 2 2) 0 m).1.1 2 2 2 in
  let m := abort (Register_round 701 (sample_round 3 3 3 3) 0 m).1.1 3 3 3 in
  (Register_round 701 (sample_round 4 4 2 2) 0 m).1.2 = false /\
  (Register_round 701 (sample_round 4 4 2 2) 0 (CleanExpiredReplicatedAndGetMinOpId 300 701 m).1).1.2 = true.
Proof. vm_compute. split; reflexivity. Qed.
