(* ===== verification/ConsensusQueue.v ===== *)
(** * The queue of a leader ([src/yb/consensus/consensus_queue.h],
    [consensus_queue.cc])

    What a leader knows of its peers, and the watermarks it derives from it:
    up to which operation, and until which time, a majority has followed. *)

From S2P Require Import Prelude MonoTime Quorum.
Local Open Scope Z_scope.

(** ** State *)

(** [CoarseTimePoint()] and [CoarseTimePoint::min()] and [max()], in
    nanoseconds; [HybridTime::kMin] and [kMax], in microseconds. *)
Definition kNoCoarseTime : Z := 0.
Definition kMinCoarseTime : Z := - 2 ^ 63.
Definition kMaxCoarseTime : Z := 2 ^ 63 - 1.
Definition kMinHtMicros : Z := 0.
Definition kMaxHtMicros : Z := 2 ^ 52 - 1.

Record TrackedPeer : Type := mkTrackedPeer {
  tracked_uuid : uuid;
  is_new : bool;
  next_index : Z;
  last_received : OpId;
  last_known_committed_idx : Z;
  is_last_exchange_successful : bool;
  last_successful_communication_time : MonoTime.t;
  last_leader_lease_expiration_sent_to_follower : Z;
  last_leader_lease_expiration_received_by_follower : Z;
  last_ht_lease_expiration_sent_to_follower : Z;
  last_ht_lease_expiration_received_by_follower : Z;
  needs_remote_bootstrap : bool;
  tracked_member_type : MemberType;
  last_seen_term_ : Z
}.

Inductive Mode : Type := LEADER_MODE | NON_LEADER_MODE.
Inductive State : Type := kQueueConstructed | kQueueOpen | kQueueClosed.

#[export] Instance Mode_eq_dec : EqDecision Mode.
Proof. solve_decision. Defined.
#[export] Instance State_eq_dec : EqDecision State.
Proof. solve_decision. Defined.

Definition kUninitializedMajoritySize : Z := -1.

Record QueueState : Type := mkQueueState {
  all_replicated_opid : OpId;
  majority_replicated_opid : OpId;
  committed_index : OpId;
  last_appended : OpId;
  queue_current_term : Z;
  queue_majority_size_ : Z;
  state : State;
  mode : Mode;
  queue_active_config : option RaftConfigPB
}.

Record PeerMessageQueue : Type := mkQueue {
  local_peer_uuid_ : uuid;
  peers_map_ : gmap uuid TrackedPeer;
  queue_state_ : QueueState
}.

(** The clocks, the local log and the flags that a call finds; what
    [LogCache::LookupOpId] and [HasOpBeenWritten] return. *)
Record QueueEnv : Type := mkQueueEnv {
  q_now : MonoTime.t;
  q_coarse_now : Z;
  q_physical_micros : Z;
  LookupOpId : Z -> Result OpId;
  HasOpBeenWritten : Z -> bool;
  FLAGS_leader_lease_duration_ms : Z;
  FLAGS_ht_lease_duration_ms : Z
}.

Definition with_peers (m : gmap uuid TrackedPeer) (q : PeerMessageQueue) : PeerMessageQueue :=
  mkQueue (local_peer_uuid_ q) m (queue_state_ q).
Definition with_queue_state (s : QueueState) (q : PeerMessageQueue) : PeerMessageQueue :=
  mkQueue (local_peer_uuid_ q) (peers_map_ q) s.
Definition with_peer (u : uuid) (p : TrackedPeer) (q : PeerMessageQueue) : PeerMessageQueue :=
  with_peers (<[u := p]> (peers_map_ q)) q.
Definition with_all_replicated (id : OpId) (s : QueueState) : QueueState :=
  mkQueueState id (majority_replicated_opid s) (committed_index s) (last_appended s) (queue_current_term s)
    (queue_majority_size_ s) (state s) (mode s) (queue_active_config s).
Definition with_majority_replicated (id : OpId) (s : QueueState) : QueueState :=
  mkQueueState (all_replicated_opid s) id (committed_index s) (last_appended s) (queue_current_term s)
    (queue_majority_size_ s) (state s) (mode s) (queue_active_config s).
Definition with_committed_index (id : OpId) (s : QueueState) : QueueState :=
  mkQueueState (all_replicated_opid s) (majority_replicated_opid s) id (last_appended s) (queue_current_term s)
    (queue_majority_size_ s) (state s) (mode s) (queue_active_config s).
Definition with_last_appended (id : OpId) (s : QueueState) : QueueState :=
  mkQueueState (all_replicated_opid s) (majority_replicated_opid s) (committed_index s) id (queue_current_term s)
    (queue_majority_size_ s) (state s) (mode s) (queue_active_config s).
Definition with_queue_term (t : Z) (s : QueueState) : QueueState :=
  mkQueueState (all_replicated_opid s) (majority_replicated_opid s) (committed_index s) (last_appended s) t
    (queue_majority_size_ s) (state s) (mode s) (queue_active_config s).
Definition with_state (x : State) (s : QueueState) : QueueState :=
  mkQueueState (all_replicated_opid s) (majority_replicated_opid s) (committed_index s) (last_appended s) (queue_current_term s)
    (queue_majority_size_ s) x (mode s) (queue_active_config s).

(** [TrackedPeer::TrackedPeer]. *)
Definition new_TrackedPeer (now : MonoTime.t) (u : uuid) (next : Z) : TrackedPeer :=
  mkTrackedPeer u true next MinimumOpId (index MinimumOpId) false now kNoCoarseTime kNoCoarseTime kMinHtMicros kMinHtMicros false
    UNKNOWN_MEMBER_TYPE 0.

Definition ResetLeaderLeases (p : TrackedPeer) : TrackedPeer :=
  mkTrackedPeer (tracked_uuid p) (is_new p) (next_index p) (last_received p) (last_known_committed_idx p)
    (is_last_exchange_successful p) (last_successful_communication_time p) kNoCoarseTime kNoCoarseTime kMinHtMicros kMinHtMicros
    (needs_remote_bootstrap p) (tracked_member_type p) (last_seen_term_ p).
Definition with_communication_time (t : MonoTime.t) (p : TrackedPeer) : TrackedPeer :=
  mkTrackedPeer (tracked_uuid p) (is_new p) (next_index p) (last_received p) (last_known_committed_idx p)
    (is_last_exchange_successful p) t (last_leader_lease_expiration_sent_to_follower p)
    (last_leader_lease_expiration_received_by_follower p) (last_ht_lease_expiration_sent_to_follower p)
    (last_ht_lease_expiration_received_by_follower p) (needs_remote_bootstrap p) (tracked_member_type p) (last_seen_term_ p).
Definition with_leases_sent (lease received ht_lease : Z) (p : TrackedPeer) : TrackedPeer :=
  mkTrackedPeer (tracked_uuid p) (is_new p) (next_index p) (last_received p) (last_known_committed_idx p)
    (is_last_exchange_successful p) (last_successful_communication_time p) lease received ht_lease
    (last_ht_lease_expiration_received_by_follower p) (needs_remote_bootstrap p) (tracked_member_type p) (last_seen_term_ p).
(** What was sent has been received. *)
Definition leases_received (p : TrackedPeer) : TrackedPeer :=
  mkTrackedPeer (tracked_uuid p) (is_new p) (next_index p) (last_received p) (last_known_committed_idx p)
    (is_last_exchange_successful p) (last_successful_communication_time p) (last_leader_lease_expiration_sent_to_follower p)
    (last_leader_lease_expiration_sent_to_follower p) (last_ht_lease_expiration_sent_to_follower p)
    (last_ht_lease_expiration_sent_to_follower p) (needs_remote_bootstrap p) (tracked_member_type p) (last_seen_term_ p).

(** ** Watermarks *)

(** What is measured of a peer; values are compared by [key]. *)
Record Policy (V : Type) : Type := mkPolicy {
  Policy_Min : V;
  Policy_Max : V;
  ExtractValue : TrackedPeer -> V;
  key : V -> Z;
  LocalPeerHasInfiniteWatermark : bool
}.
Arguments Policy_Min {V}.
Arguments Policy_Max {V}.
Arguments ExtractValue {V}.
Arguments key {V}.
Arguments LocalPeerHasInfiniteWatermark {V}.

Definition LeaderLeaseExpirationPolicy : Policy Z :=
  mkPolicy Z kMinCoarseTime kMaxCoarseTime
    (λ p, let lease_exp := last_leader_lease_expiration_received_by_follower p in
          if lease_exp =? kNoCoarseTime then kMinCoarseTime else lease_exp) id true.
Definition HybridTimeLeaseExpirationPolicy : Policy Z :=
  mkPolicy Z kMinHtMicros kMaxHtMicros last_ht_lease_expiration_received_by_follower id true.
Definition OpIdPolicy : Policy OpId := mkPolicy OpId MinimumOpId MaximumOpId last_received index false.

(** The peers that count: voters of the configuration whose last exchange
    succeeded, without the local peer if it is taken to be ahead of all. *)
Definition counts {V} (policy : Policy V) (q : PeerMessageQueue) (config : RaftConfigPB) (p : TrackedPeer) : bool :=
  negb (bool_decide (tracked_uuid p = local_peer_uuid_ q) && LocalPeerHasInfiniteWatermark policy) &&
  IsRaftConfigVoter (tracked_uuid p) config && is_last_exchange_successful p.

(** The order of the values. Of values with equal keys [std::nth_element] may
    choose any. *)
Definition key_le {V} (policy : Policy V) (a b : V) : Prop := key policy a <= key policy b.

#[export] Instance key_le_dec {V} (policy : Policy V) a b : Decision (key_le policy a b).
Proof. unfold key_le. apply _. Defined.
#[export] Instance key_le_trans {V} (policy : Policy V) : Transitive (key_le policy).
Proof. intros a b c. unfold key_le. lia. Qed.
#[export] Instance key_le_total {V} (policy : Policy V) : Total (key_le policy).
Proof. intros a b. unfold key_le. lia. Qed.

Section queue.
Context (release : bool).

(** ** Tracking peers *)

Definition CheckPeersInActiveConfigIfLeaderUnlocked (q : PeerMessageQueue) : Outcome unit :=
  match mode (queue_state_ q) with
  | NON_LEADER_MODE => Done tt
  | LEADER_MODE =>
      match queue_active_config (queue_state_ q) with
      | None => Undefined
      | Some config =>
          _ ← CHECK (bool_decide (NoDup (permanent_uuid <$> peers config)));
          CHECK (forallb (λ kp, bool_decide (kp.1 ∈ permanent_uuid <$> peers config)) (map_to_list (peers_map_ q)))
      end
  end.

Definition TrackPeerUnlocked (now : MonoTime.t) (u : uuid) (q : PeerMessageQueue) : Outcome PeerMessageQueue :=
  _ ← CHECK (negb (bool_decide (u = EmptyString)));
  _ ← DCHECK release (bool_decide (state (queue_state_ q) = kQueueOpen));
  _ ← CHECK (bool_decide (peers_map_ q !! u = None));
  let q := with_peer u (new_TrackedPeer now u (index (last_appended (queue_state_ q)) + 1)) q in
  _ ← CheckPeersInActiveConfigIfLeaderUnlocked q;
  Done (with_queue_state (with_all_replicated MinimumOpId (queue_state_ q)) q).

Definition UntrackPeer (u : uuid) (q : PeerMessageQueue) : PeerMessageQueue := with_peers (delete u (peers_map_ q)) q.

Definition Init (now : MonoTime.t) (last_locally_replicated : OpId) (q : PeerMessageQueue) : Outcome PeerMessageQueue :=
  _ ← CHECK (bool_decide (state (queue_state_ q) = kQueueConstructed));
  TrackPeerUnlocked now (local_peer_uuid_ q)
    (with_queue_state (with_state kQueueOpen (with_last_appended last_locally_replicated (queue_state_ q))) q).

Definition SetLeaderMode (now : MonoTime.t) (committed : OpId) (current_term : Z) (config : RaftConfigPB) (q : PeerMessageQueue)
    : Outcome PeerMessageQueue :=
  _ ← CHECK (IsRaftConfigVoter (local_peer_uuid_ q) config);
  majority_size ← MajoritySize release (CountVoters config);
  let s := queue_state_ q in
  let q := with_queue_state
    (mkQueueState (all_replicated_opid s) committed committed (last_appended s) current_term majority_size (state s) LEADER_MODE (Some config)) q in
  _ ← CheckPeersInActiveConfigIfLeaderUnlocked q;
  Done (with_peers ((λ p, with_communication_time now (ResetLeaderLeases p)) <$> peers_map_ q) q).

Definition SetNonLeaderMode (q : PeerMessageQueue) : PeerMessageQueue :=
  let s := queue_state_ q in
  with_queue_state
    (mkQueueState (all_replicated_opid s) (majority_replicated_opid s) (committed_index s) (last_appended s) (queue_current_term s)
       (-1) (state s) NON_LEADER_MODE None) q.

(** ** The watermark of a policy *)

Definition GetWatermark {V} (policy : Policy V) (q : PeerMessageQueue) : Outcome V :=
  let num_peers_required := queue_majority_size_ (queue_state_ q) in
  if num_peers_required =? kUninitializedMajoritySize then Done (Policy_Min policy)
  else
    _ ← CHECK (0 <=? num_peers_required);
    if Z.of_nat (size (peers_map_ q)) <? num_peers_required then Done (Policy_Min policy)
    else if num_peers_required =? 1 then Done (Policy_Max policy)
    else
      match queue_active_config (queue_state_ q) with
      | None => Undefined
      | Some config =>
          let watermarks := ExtractValue policy <$> List.filter (counts policy q config) (map_to_list (peers_map_ q)).*2 in
          let num_responsive_peers :=
            Z.of_nat (length watermarks) + (if LocalPeerHasInfiniteWatermark policy then 1 else 0) in
          if num_responsive_peers <? num_peers_required then Done (Policy_Min policy)
          else
            let index_of_interest := num_responsive_peers - num_peers_required in
            _ ← DCHECK release (index_of_interest <? Z.of_nat (length watermarks));
            match merge_sort (key_le policy) watermarks !! Z.to_nat index_of_interest with
            | Some v => Done v
            | None => Undefined
            end
      end.

(** ** Answers of peers *)

Fixpoint least_received (l : list TrackedPeer) (new_op_id : OpId) : option OpId :=
  match l with
  | [] => Some new_op_id
  | p :: l =>
      if is_last_exchange_successful p
      then least_received l (if index (last_received p) <? index new_op_id then last_received p else new_op_id)
      else None
  end.

Definition UpdateAllReplicatedOpId (q : PeerMessageQueue) : Outcome PeerMessageQueue :=
  match least_received (map_to_list (peers_map_ q)).*2 MaximumOpId with
  | None => Done q
  | Some new_op_id =>
      _ ← CHECK (negb (index MaximumOpId =? index new_op_id));
      Done (with_queue_state (with_all_replicated new_op_id (queue_state_ q)) q)
  end.

Inductive PeerErrorCode : Type := PRECEDING_ENTRY_DIDNT_MATCH | INVALID_TERM_RESPONSE | OTHER_CONSENSUS_ERROR.

Record ConsensusResponsePB : Type := mkConsensusResponsePB {
  response_error_is_tablet_not_found : option bool;
  response_responder_term : option Z;
  status_last_received : OpId;
  status_last_received_current_leader : OpId;
  status_last_committed_idx : Z;
  status_error : option PeerErrorCode
}.

Record MajorityReplicatedData : Type := mkMajorityReplicatedData {
  majority_op_id : OpId;
  leader_lease_expiration : Z;
  ht_lease_expiration : Z
}.

Inductive queue_notification : Type :=
| TermChange (t : Z)
| MajorityReplOpChange (d : MajorityReplicatedData).

Definition IsOpInLog (env : QueueEnv) (desired_op : OpId) : Outcome bool :=
  match LookupOpId env (index desired_op) with
  | Ok log_op => Done (OpIdEquals desired_op log_op)
  | Error NotFound | Error Incomplete => Done false
  | Error _ => Fatal
  end.

(** The peer after the status of its answer has been taken over. *)
Definition peer_status (env : QueueEnv) (response : ConsensusResponsePB) (type : MemberType) (p : TrackedPeer)
    : Outcome TrackedPeer :=
  let committed := status_last_committed_idx response in
  in_log ← IsOpInLog env (status_last_received response);
  '(received, next) ←
    (if (in_log : bool) then Done (status_last_received response, index (status_last_received response) + 1)
     else if negb (OpIdEquals (status_last_received_current_leader response) MinimumOpId)
     then Done (status_last_received_current_leader response, index (status_last_received_current_leader response) + 1)
     else _ ← DCHECK release (0 <=? committed); Done (last_received p, committed + 1));
  Done (mkTrackedPeer (tracked_uuid p) false next received committed (is_last_exchange_successful p) (q_now env)
    (last_leader_lease_expiration_sent_to_follower p) (last_leader_lease_expiration_received_by_follower p)
    (last_ht_lease_expiration_sent_to_follower p) (last_ht_lease_expiration_received_by_follower p)
    (needs_remote_bootstrap p) type (last_seen_term_ p)).

Definition with_exchange (ok : bool) (p : TrackedPeer) : TrackedPeer :=
  mkTrackedPeer (tracked_uuid p) (is_new p) (next_index p) (last_received p) (last_known_committed_idx p) ok
    (last_successful_communication_time p) (last_leader_lease_expiration_sent_to_follower p)
    (last_leader_lease_expiration_received_by_follower p) (last_ht_lease_expiration_sent_to_follower p)
    (last_ht_lease_expiration_received_by_follower p) (needs_remote_bootstrap p) (tracked_member_type p) (last_seen_term_ p).
Definition with_seen_term (t : Z) (p : TrackedPeer) : TrackedPeer :=
  mkTrackedPeer (tracked_uuid p) (is_new p) (next_index p) (last_received p) (last_known_committed_idx p)
    (is_last_exchange_successful p) (last_successful_communication_time p) (last_leader_lease_expiration_sent_to_follower p)
    (last_leader_lease_expiration_received_by_follower p) (last_ht_lease_expiration_sent_to_follower p)
    (last_ht_lease_expiration_received_by_follower p) (needs_remote_bootstrap p) (tracked_member_type p) t.
Definition needing_bootstrap (now : MonoTime.t) (p : TrackedPeer) : TrackedPeer :=
  mkTrackedPeer (tracked_uuid p) (is_new p) (next_index p) (last_received p) (last_known_committed_idx p)
    (is_last_exchange_successful p) now (last_leader_lease_expiration_sent_to_follower p)
    (last_leader_lease_expiration_received_by_follower p) (last_ht_lease_expiration_sent_to_follower p)
    (last_ht_lease_expiration_received_by_follower p) true (tracked_member_type p) (last_seen_term_ p).

(** The watermarks of a leader after an answer of [peer_uuid]. *)
Definition update_majority_replicated (peer_uuid : uuid) (p : TrackedPeer) (q : PeerMessageQueue)
    : Outcome (PeerMessageQueue * MajorityReplicatedData) :=
  new_majority ← GetWatermark OpIdPolicy q;
  q ← (if OpIdEquals new_majority MinimumOpId then Done q
       else if index new_majority =? index MaximumOpId
       then match peers_map_ q !! local_peer_uuid_ q with
            | Some local => Done (with_queue_state (with_majority_replicated (last_received local) (queue_state_ q)) q)
            | None => Undefined
            end
       else Done (with_queue_state (with_majority_replicated new_majority (queue_state_ q)) q));
  let q := with_peer peer_uuid (leases_received p) q in
  lease ← GetWatermark LeaderLeaseExpirationPolicy q;
  ht_lease ← GetWatermark HybridTimeLeaseExpirationPolicy q;
  Done (q, mkMajorityReplicatedData (majority_replicated_opid (queue_state_ q)) lease ht_lease).

(** The new queue, [more_pending], and what the observers are told. *)
Definition ResponseFromPeer (env : QueueEnv) (peer_uuid : uuid) (response : ConsensusResponsePB) (q : PeerMessageQueue)
    : Outcome (PeerMessageQueue * bool * list queue_notification) :=
  _ ← DCHECK release (negb (bool_decide (state (queue_state_ q) = kQueueConstructed)));
  match bool_decide (state (queue_state_ q) = kQueueOpen), peers_map_ q !! peer_uuid with
  | true, Some p =>
      match response_error_is_tablet_not_found response with
      | Some not_found =>
          _ ← CHECK not_found;
          Done (with_peer peer_uuid (needing_bootstrap (q_now env) p) q, true, [])
      | None =>
          type ← (match queue_active_config (queue_state_ q) with
                  | Some config => match GetRaftConfigMember config peer_uuid with Ok pb => Done (member_type pb) | Error _ => Fatal end
                  | None => Done UNKNOWN_MEMBER_TYPE
                  end);
          p ← peer_status env response type p;
          match status_error response with
          | Some PRECEDING_ENTRY_DIDNT_MATCH => Done (with_peer peer_uuid (with_exchange false p) q, true, [])
          | Some INVALID_TERM_RESPONSE =>
              match response_responder_term response with
              | Some t => Done (with_peer peer_uuid (with_exchange false p) q, false, [TermChange t])
              | None => Fatal
              end
          | Some OTHER_CONSENSUS_ERROR => Fatal
          | None =>
              let p := with_exchange true p in
              p ← (match response_responder_term response with
                   | Some t =>
                       _ ← DCHECK release (last_seen_term_ p <=? t);
                       _ ← CHECK (t <=? queue_current_term (queue_state_ q));
                       Done (with_seen_term t p)
                   | None => Done p
                   end);
              let q := with_peer peer_uuid p q in
              let more_pending :=
                HasOpBeenWritten env (next_index p) || (last_known_committed_idx p <? index (committed_index (queue_state_ q))) in
              '(q, notes) ←
                (match mode (queue_state_ q) with
                 | LEADER_MODE => '(q, d) ← update_majority_replicated peer_uuid p q; Done (q, [MajorityReplOpChange d])
                 | NON_LEADER_MODE => Done (q, [])
                 end);
              q ← UpdateAllReplicatedOpId q;
              Done (q, more_pending, notes)
          end
      end
  | _, _ => Done (q, false, [])
  end.

Definition LocalPeerAppendFinished (env : QueueEnv) (id : OpId) (status : Result unit) (q : PeerMessageQueue)
    : Outcome (PeerMessageQueue * bool * list queue_notification) :=
  _ ← (match status with Ok _ => Done tt | Error _ => Fatal end);
  let q := if index (last_appended (queue_state_ q)) <? index id
           then with_queue_state (with_last_appended id (queue_state_ q)) q else q in
  ResponseFromPeer env (local_peer_uuid_ q)
    (mkConsensusResponsePB None None id id (index (committed_index (queue_state_ q))) None) q.

(** [AppendOperations], for the id of the last message; [appended] is the
    outcome of [LogCache::AppendOperations]. *)
Definition AppendOperations (last_msg : option OpId) (appended : Result unit) (q : PeerMessageQueue) : PeerMessageQueue * Result unit :=
  let q :=
    match last_msg with
    | Some id => if queue_current_term (queue_state_ q) <? term id
                 then with_queue_state (with_queue_term (term id) (queue_state_ q)) q else q
    | None => q
    end in
  match appended, last_msg with
  | Ok _, Some id => (with_queue_state (with_last_appended id (queue_state_ q)) q, Ok tt)
  | r, _ => (q, r)
  end.

(** The end of [NotifyObserversOfMajorityReplOpChangeTask]. *)
Definition set_committed_index (new_committed_index : option OpId) (q : PeerMessageQueue) : PeerMessageQueue :=
  match new_committed_index with
  | Some id => if index (committed_index (queue_state_ q)) <? index id
               then with_queue_state (with_committed_index id (queue_state_ q)) q else q
  | None => q
  end.

(** ** Requests to peers *)

Record peer_request : Type := mkPeerRequest {
  request_leader_lease_duration_ms : option Z;
  request_ht_lease_expiration : option Z;
  request_preceding_id : OpId;
  request_committed_index : OpId;
  request_caller_term : Z;
  request_needs_remote_bootstrap : bool;
  request_next_index : Z
}.

(** The part of [RequestForPeer] under the lock. *)
Definition RequestForPeer (env : QueueEnv) (u : uuid) (q : PeerMessageQueue) : Outcome (Result (PeerMessageQueue * peer_request)) :=
  _ ← DCHECK release (bool_decide (state (queue_state_ q) = kQueueOpen));
  _ ← DCHECK release (negb (bool_decide (u = local_peer_uuid_ q)));
  match peers_map_ q !! u, mode (queue_state_ q) with
  | Some p, LEADER_MODE =>
      let ht := q_physical_micros env + FLAGS_ht_lease_duration_ms env * 1000 in
      let p' :=
        if is_new p then with_leases_sent (last_leader_lease_expiration_sent_to_follower p) kNoCoarseTime 0 p
        else with_leases_sent (q_coarse_now env + FLAGS_leader_lease_duration_ms env * 1000000 - 2 * 1000000)
               (last_leader_lease_expiration_received_by_follower p) ht p in
      let s := queue_state_ q in
      Done (Ok (with_peer u p' q,
        mkPeerRequest (if is_new p then None else Some (FLAGS_leader_lease_duration_ms env)) (if is_new p then None else Some ht)
          (last_appended s) (committed_index s) (queue_current_term s) (needs_remote_bootstrap p) (next_index p)))
  | _, _ => Done (Error NotFound)
  end.

Definition NotifyPeerIsResponsiveDespiteError (now : MonoTime.t) (u : uuid) (q : PeerMessageQueue) : PeerMessageQueue :=
  match peers_map_ q !! u with Some p => with_peer u (with_communication_time now p) q | None => q end.

Definition PeerAcceptedOurLease (u : uuid) (q : PeerMessageQueue) : bool :=
  match peers_map_ q !! u with
  | Some p => negb (last_leader_lease_expiration_received_by_follower p =? kNoCoarseTime)
  | None => false
  end.

Definition CanPeerBecomeLeader (u : uuid) (q : PeerMessageQueue) : bool :=
  match peers_map_ q !! u with
  | Some p => negb (OpIdLessThan (last_received p) (majority_replicated_opid (queue_state_ q)))
  | None => false
  end.

End queue.

(** ** The element at a position of a sorted list *)

Lemma filter_perm_length {A : Type} (f : A -> bool) l l' : l ≡ₚ l' -> length (List.filter f l) = length (List.filter f l').
Proof. induction 1 as [|x l l' _ IH|x y l|l1 l2 l3 _ IH1 _ IH2]; cbn; [done|by destruct (f x); cbn; rewrite IH|by destruct (f x), (f y)|by rewrite IH1]. Qed.

Lemma filter_length_le {A : Type} (f : A -> bool) l : (length (List.filter f l) <= length l)%nat.
Proof. induction l as [|x l IH]; cbn; [lia|]. destruct (f x); cbn; lia. Qed.

Lemma filter_all {A : Type} (f : A -> bool) l : (∀ x, x ∈ l -> f x = true) -> List.filter f l = l.
Proof. induction l as [|x l IH]; intros H; cbn; [done|]. rewrite (H x) by (by left). f_equal. apply IH. intros y Hy. apply H. by right. Qed.

Lemma filter_none {A : Type} (f : A -> bool) l : (∀ x, x ∈ l -> f x = false) -> List.filter f l = [].
Proof. induction l as [|x l IH]; intros H; cbn; [done|]. rewrite (H x) by (by left). apply IH. intros y Hy. apply H. by right. Qed.

Section sorted.
Context {V : Type} (policy : Policy V) (l : list V) (k : nat) (w : V).
Context (Hk : merge_sort (key_le policy) l !! k = Some w).

(** At least as many elements as there are from the position on are as great;
    those that are greater are after it. *)
Lemma as_great_count : (length l - k <= length (List.filter (λ v, (key policy w <=? key policy v)%Z) l))%nat.
Proof using Hk.
  pose proof (StronglySorted_merge_sort (key_le policy) l) as Hs. pose proof (merge_sort_Permutation (key_le policy) l) as Hp.
  rewrite <- (filter_perm_length _ _ _ Hp), <- (Permutation_length Hp). set (s := merge_sort _ l) in *.
  rewrite <- (take_drop_middle s k w Hk), List.filter_app, length_app. cbn [List.filter]. rewrite Z.leb_refl. cbn [length].
  rewrite <- (take_drop_middle s k w Hk) in Hs. apply StronglySorted_app in Hs as (_ & _ & Hs). inversion_clear Hs as [|? ? _ Hw]. rewrite Forall_forall in Hw.
  rewrite (filter_all _ (drop (S k) s)) by (intros v Hv; apply Z.leb_le; by apply Hw).
  rewrite length_app, length_take, length_drop. cbn [length]. pose proof (lookup_lt_Some _ _ _ Hk). rewrite length_drop. lia.
Qed.

Lemma greater_count : (length (List.filter (λ v, (key policy w <? key policy v)%Z) l) <= length l - S k)%nat.
Proof using Hk.
  pose proof (StronglySorted_merge_sort (key_le policy) l) as Hs. pose proof (merge_sort_Permutation (key_le policy) l) as Hp.
  rewrite <- (filter_perm_length _ _ _ Hp), <- (Permutation_length Hp). set (s := merge_sort _ l) in *.
  rewrite <- (take_drop_middle s k w Hk) at 1. rewrite List.filter_app, length_app. cbn [List.filter]. rewrite Z.ltb_irrefl.
  rewrite <- (take_drop_middle s k w Hk) in Hs. apply StronglySorted_app in Hs as (Hx & _ & _).
  rewrite (filter_none _ (take k s)) by (intros v Hv; apply Z.ltb_ge; apply Hx; [done|by left]).
  cbn [length]. pose proof (filter_length_le (λ v, key policy w <? key policy v) (drop (S k) s)) as Hle. rewrite length_drop in Hle. lia.
Qed.

End sorted.

(** ** Well-formed queues *)

(** A leader has a configuration that is accepted, with itself as a voter, and
    tracks peers of it only. *)
Record leader_ok (release : bool) (q : PeerMessageQueue) (config : RaftConfigPB) : Prop := {
  lq_config : config_ok config;
  lq_active : queue_active_config (queue_state_ q) = Some config;
  lq_majority : MajoritySize release (CountVoters config) = Done (queue_majority_size_ (queue_state_ q));
  lq_local : local_peer_uuid_ q ∈ voters config;
  lq_tracked : ∀ u p, peers_map_ q !! u = Some p -> u ∈ permanent_uuid <$> peers config
}.

Record queue_ok (release : bool) (q : PeerMessageQueue) : Prop := {
  qu_uuids : ∀ u p, peers_map_ q !! u = Some p -> tracked_uuid p = u;
  qu_local : state (queue_state_ q) = kQueueOpen -> is_Some (peers_map_ q !! local_peer_uuid_ q);
  qu_leader : mode (queue_state_ q) = LEADER_MODE -> ∃ config, leader_ok release q config;
  qu_non_leader : mode (queue_state_ q) = NON_LEADER_MODE -> queue_majority_size_ (queue_state_ q) = kUninitializedMajoritySize
}.

(** The peer has followed up to [x]. *)
Definition reached {V} (policy : Policy V) (q : PeerMessageQueue) (x : Z) (u : uuid) : Prop :=
  (u = local_peer_uuid_ q /\ LocalPeerHasInfiniteWatermark policy = true) \/
  ∃ p, peers_map_ q !! u = Some p /\ is_last_exchange_successful p = true /\ x <= key policy (ExtractValue policy p).

Section watermark.
Context {V : Type} (release : bool) (policy : Policy V) (q : PeerMessageQueue) (config : RaftConfigPB).
Context (Hq : queue_ok release q) (Hl : leader_ok release q config) (Ho : state (queue_state_ q) = kQueueOpen).

Definition counted_peers : list TrackedPeer := List.filter (counts policy q config) (map_to_list (peers_map_ q)).*2.
Definition infinite : nat := if LocalPeerHasInfiniteWatermark policy then 1%nat else 0%nat.

Lemma counted_peers_spec p :
  p ∈ counted_peers <-> peers_map_ q !! tracked_uuid p = Some p /\ counts policy q config p = true.
Proof using Hq.
  unfold counted_peers. rewrite elem_of_List_filter. apply and_iff_compat_r. rewrite list_elem_of_fmap. split.
  - intros ([u x] & -> & Hx%elem_of_map_to_list). cbn. by rewrite (qu_uuids _ _ Hq u x Hx).
  - intros Hp. exists (tracked_uuid p, p). split; [done|]. by apply elem_of_map_to_list.
Qed.

Lemma counted_uuids_NoDup : NoDup (tracked_uuid <$> counted_peers).
Proof using Hq.
  unfold counted_peers. apply NoDup_map_filter.
  assert (tracked_uuid <$> (map_to_list (peers_map_ q)).*2 = (map_to_list (peers_map_ q)).*1) as ->; [|apply NoDup_fst_map_to_list].
  rewrite <- list_fmap_compose. apply list_fmap_ext. intros i [u p] Hi%list_elem_of_lookup_2%elem_of_map_to_list. cbn. by apply (qu_uuids _ _ Hq).
Qed.

(** A set of peers that have followed is, but for the local peer, among those
    that count. *)
Lemma reached_counted x Q :
  NoDup Q -> (∀ u, u ∈ Q -> IsRaftConfigVoter u config = true) -> (∀ u, u ∈ Q -> reached policy q x u) ->
  (length Q <= infinite + length (List.filter (λ p, (x <=? key policy (ExtractValue policy p))%Z) counted_peers))%nat.
Proof using Hq.
  intros HQ Hvot Hre.
  set (R := tracked_uuid <$> List.filter (λ p, x <=? key policy (ExtractValue policy p)) counted_peers).
  assert (length R = length (List.filter (λ p, x <=? key policy (ExtractValue policy p)) counted_peers)) as <- by apply length_fmap.
  set (Lo := if LocalPeerHasInfiniteWatermark policy then [local_peer_uuid_ q] else []).
  replace infinite with (length Lo) by (unfold infinite, Lo; by destruct (LocalPeerHasInfiniteWatermark policy)).
  rewrite <- length_app. apply submseteq_length, NoDup_submseteq; [done|]. intros u Hu. apply elem_of_app.
  destruct (decide (u = local_peer_uuid_ q /\ LocalPeerHasInfiniteWatermark policy = true)) as [[-> Hi]|Hn].
  { left. unfold Lo. rewrite Hi. by left. }
  right. destruct (Hre u Hu) as [?|(p & Hp & Hs & Hx)]; [done|]. apply list_elem_of_fmap. exists p. pose proof (qu_uuids _ _ Hq u p Hp) as Eu.
  split; [done|]. apply elem_of_List_filter. split; [|by apply Z.leb_le]. apply counted_peers_spec. rewrite Eu. split; [done|].
  unfold counts. rewrite Eu, (Hvot u Hu), Hs, !andb_true_r. apply negb_true_iff, andb_false_iff.
  destruct (decide (u = local_peer_uuid_ q)) as [E|E]; [right|left; by apply bool_decide_eq_false].
  destruct (LocalPeerHasInfiniteWatermark policy) eqn:Hi; [|done]. by destruct Hn.
Qed.

Lemma filter_fmap_length (f : V -> bool) (l : list TrackedPeer) :
  length (List.filter f (ExtractValue policy <$> l)) = length (List.filter (λ p, f (ExtractValue policy p)) l).
Proof using. induction l as [|p l IH]; cbn; [done|]. destruct (f _); cbn; by rewrite IH. Qed.

(** The peers as great as the element at a position are a quorum if there are
    enough from the position on; and no quorum is all greater if there are too
    few after it. *)
Lemma watermark_quorum k w m :
  merge_sort (key_le policy) (ExtractValue policy <$> counted_peers) !! k = Some w ->
  m <= Z.of_nat infinite + Z.of_nat (length counted_peers - k) ->
  ∃ Q, quorum config m Q /\ ∀ u, u ∈ Q -> reached policy q (key policy w) u.
Proof using Hq Hl.
  intros Hw Hm. pose proof (as_great_count policy _ k w Hw) as Hc. rewrite length_fmap, filter_fmap_length in Hc.
  set (R := tracked_uuid <$> List.filter (λ p, key policy w <=? key policy (ExtractValue policy p)) counted_peers).
  set (Lo := if LocalPeerHasInfiniteWatermark policy then [local_peer_uuid_ q] else []).
  assert (length Lo = infinite) as HLo by (unfold infinite, Lo; by destruct (LocalPeerHasInfiniteWatermark policy)).
  assert (∀ u, u ∈ Lo -> u = local_peer_uuid_ q /\ LocalPeerHasInfiniteWatermark policy = true) as HLi.
  { unfold Lo. destruct (LocalPeerHasInfiniteWatermark policy); [by intros u ->%list_elem_of_singleton|by intros u ?%elem_of_nil]. }
  assert (∀ u, u ∈ R -> ∃ p, u = tracked_uuid p /\ peers_map_ q !! u = Some p /\ counts policy q config p = true /\
    key policy w <= key policy (ExtractValue policy p)) as HR.
  { intros u (p & -> & [[Hp Hcp]%counted_peers_spec Hx%Z.leb_le]%elem_of_List_filter)%list_elem_of_fmap. by exists p. }
  exists (Lo ++ R). split; [split; [|split]|].
  - apply NoDup_app. split; [unfold Lo; destruct (LocalPeerHasInfiniteWatermark policy); [apply NoDup_singleton|constructor]|].
    split; [|apply NoDup_map_filter, counted_uuids_NoDup]. intros u [-> Hinf]%HLi (p & Eu & _ & Hcp & _)%HR.
    unfold counts in Hcp. rewrite <- Eu, Hinf, bool_decide_eq_true_2 in Hcp by done. done.
  - intros u [[-> _]%HLi|(p & -> & _ & Hcp & _)%HR]%elem_of_app.
    + apply IsRaftConfigVoter_voters; [apply Hl|]. apply (lq_local _ _ _ Hl).
    + unfold counts in Hcp. by apply andb_true_iff in Hcp as [[_ ?]%andb_true_iff _].
  - rewrite length_app, HLo. unfold R. rewrite length_fmap. lia.
  - intros u [Hu%HLi|(p & Eu & Hp & Hcp & Hx)%HR]%elem_of_app; [by left|right]. exists p. split; [done|].
    unfold counts in Hcp. by apply andb_true_iff in Hcp as [_ ?].
Qed.

Lemma watermark_greatest k w m x Q :
  merge_sort (key_le policy) (ExtractValue policy <$> counted_peers) !! k = Some w ->
  Z.of_nat infinite + Z.of_nat (length counted_peers - S k) < m ->
  quorum config m Q -> (∀ u, u ∈ Q -> reached policy q x u) -> x <= key policy w.
Proof using Hq.
  intros Hw Hm (HQ & HQv & HQl) Hre. apply Z.nlt_ge. intros Hlt. pose proof (greater_count policy _ k w Hw) as Hc.
  rewrite length_fmap, filter_fmap_length in Hc. pose proof (reached_counted x Q HQ HQv Hre) as Hr.
  assert (length (List.filter (λ p, (x <=? key policy (ExtractValue policy p))%Z) counted_peers) <=
    length (List.filter (λ p, (key policy w <? key policy (ExtractValue policy p))%Z) counted_peers))%nat as Hsub; [|lia].
  clear -Hlt. induction counted_peers as [|p l IH]; cbn; [done|].
  destruct (Z.leb_spec x (key policy (ExtractValue policy p))), (Z.ltb_spec (key policy w) (key policy (ExtractValue policy p))); cbn; lia.
Qed.

(** Too few peers. *)
Lemma too_few_reached m x Q :
  Z.of_nat (length counted_peers) + Z.of_nat infinite < m \/ Z.of_nat (size (peers_map_ q)) < m ->
  quorum config m Q -> (∀ u, u ∈ Q -> reached policy q x u) -> False.
Proof using Hq Ho.
  intros [Hn|Hsz] (HQ & HQv & HQl) Hre.
  - pose proof (reached_counted x Q HQ HQv Hre). pose proof (filter_length_le (λ p, x <=? key policy (ExtractValue policy p)) counted_peers). lia.
  - assert (length Q <= size (peers_map_ q))%nat; [|lia]. rewrite <- size_dom, <- (size_list_to_set (C := gset uuid) Q) by done. apply subseteq_size.
    intros u Hu%elem_of_list_to_set. apply elem_of_dom. destruct (Hre u Hu) as [[-> _]|(p & Hp & _)]; [by apply (qu_local _ _ Hq)|by eexists].
Qed.

(** The watermark of a majority of several. *)
Lemma GetWatermark_ok :
  let m := queue_majority_size_ (queue_state_ q) in
  m ≠ 1 -> ∃ w, GetWatermark release policy q = Done w /\
    (w = Policy_Min policy \/ ∃ Q, quorum config m Q /\ ∀ u, u ∈ Q -> reached policy q (key policy w) u) /\
    (∀ x Q, quorum config m Q -> (∀ u, u ∈ Q -> reached policy q x u) -> x <= key policy w).
Proof using Hq Hl Ho.
  intros m Hne1. pose proof (lq_majority _ _ _ Hl) as Hm. fold m in Hm.
  apply majority_bounds in Hm as [Hm1 Hm2]; [|unfold CountVoters, CountMemberType; lia]. rewrite CountVoters_voters in Hm1, Hm2 by apply Hl.
  assert (1 < m) as Hm by lia. clear Hm1 Hm2 Hne1. set (n := Z.of_nat (length counted_peers) + Z.of_nat infinite).
  unfold GetWatermark. fold m. rewrite (proj2 (Z.eqb_neq m kUninitializedMajoritySize)) by (unfold kUninitializedMajoritySize; lia).
  rewrite (proj2 (Z.leb_le 0 m)) by lia. cbn [CHECK mbind outcome_bind].
  destruct (Z.ltb_spec (Z.of_nat (size (peers_map_ q))) m) as [Hsz|Hsz].
  { eexists. split; [reflexivity|]. split; [by left|]. intros x Q HQ Hre. destruct (too_few_reached m x Q); [by right|done..]. }
  rewrite (proj2 (Z.eqb_neq m 1)) by lia. rewrite (lq_active _ _ _ Hl).
  change (List.filter (counts policy q config) (map_to_list (peers_map_ q)).*2) with counted_peers. rewrite length_fmap.
  replace (if LocalPeerHasInfiniteWatermark policy then 1 else 0) with (Z.of_nat infinite) by (unfold infinite; by destruct (LocalPeerHasInfiniteWatermark policy)).
  fold n. destruct (Z.ltb_spec n m) as [Hn|Hn].
  { eexists. split; [reflexivity|]. split; [by left|]. intros x Q HQ Hre. destruct (too_few_reached m x Q); [by left|done..]. }
  assert (Z.of_nat infinite <= 1) as Hi by (unfold infinite; destruct (LocalPeerHasInfiniteWatermark policy); lia).
  rewrite (proj2 (Z.ltb_lt (n - m) (Z.of_nat (length counted_peers)))) by lia.
  replace (DCHECK release true) with (Done tt) by (by destruct release). cbn [mbind outcome_bind].
  destruct (merge_sort _ _ !! Z.to_nat (n - m)) as [w|] eqn:Hw.
  2: { apply lookup_ge_None in Hw. rewrite merge_sort_Permutation, length_fmap in Hw. lia. }
  exists w. split; [done|]. split.
  - right. apply (watermark_quorum _ w m Hw). lia.
  - intros x Q. apply (watermark_greatest _ w m x Q Hw). lia.
Qed.

End watermark.

(** ** All operations keep a queue well-formed *)

Definition new_queue (u : uuid) : PeerMessageQueue :=
  mkQueue u ∅ (mkQueueState MinimumOpId MinimumOpId MinimumOpId MinimumOpId (term MinimumOpId) kUninitializedMajoritySize
    kQueueConstructed NON_LEADER_MODE None).

Definition Close (q : PeerMessageQueue) : PeerMessageQueue :=
  with_peers ∅ (with_queue_state (with_state kQueueClosed (queue_state_ q)) q).

(** The local peer is tracked for as long as the queue is open; the
    configuration of a leader has been verified. *)
Inductive queue_step (release : bool) : PeerMessageQueue -> PeerMessageQueue -> Prop :=
| step_init q now id q' : Init release now id q = Done q' -> queue_step release q q'
| step_track q now u q' : TrackPeerUnlocked release now u q = Done q' -> queue_step release q q'
| step_untrack q u : u ≠ local_peer_uuid_ q -> queue_step release q (UntrackPeer u q)
| step_leader q now committed t config type q' :
    VerifyRaftConfig config type = Ok tt -> SetLeaderMode release now committed t config q = Done q' -> queue_step release q q'
| step_non_leader q : queue_step release q (SetNonLeaderMode q)
| step_response q env u response q' more notes :
    ResponseFromPeer release env u response q = Done (q', more, notes) -> queue_step release q q'
| step_local q env id status q' more notes :
    LocalPeerAppendFinished release env id status q = Done (q', more, notes) -> queue_step release q q'
| step_append q last_msg appended : queue_step release q (AppendOperations last_msg appended q).1
| step_commit q id : queue_step release q (set_committed_index id q)
| step_request q env u q' request : RequestForPeer release env u q = Done (Ok (q', request)) -> queue_step release q q'
| step_responsive q now u : queue_step release q (NotifyPeerIsResponsiveDespiteError now u q)
| step_close q : queue_step release q (Close q).

(** The parts that the invariant is about. *)
Definition same_shape (q q' : PeerMessageQueue) : Prop :=
  local_peer_uuid_ q' = local_peer_uuid_ q /\ state (queue_state_ q') = state (queue_state_ q) /\ mode (queue_state_ q') = mode (queue_state_ q) /\
  queue_majority_size_ (queue_state_ q') = queue_majority_size_ (queue_state_ q) /\
  queue_active_config (queue_state_ q') = queue_active_config (queue_state_ q) /\
  (∀ u, tracked_uuid <$> peers_map_ q' !! u = tracked_uuid <$> peers_map_ q !! u).

Lemma same_shape_refl q : same_shape q q.
Proof. by repeat split. Qed.

Lemma same_shape_trans q1 q2 q3 : same_shape q1 q2 -> same_shape q2 q3 -> same_shape q1 q3.
Proof.
  intros (? & ? & ? & ? & ? & Ha) (? & ? & ? & ? & ? & Hb). repeat split; congruence.
Qed.

Lemma same_shape_ok release q q' : same_shape q q' -> queue_ok release q -> queue_ok release q'.
Proof.
  intros (El & Es & Em & Ez & Ec & Ep) [Hu Hlo Hle Hnl].
  assert (∀ u p', peers_map_ q' !! u = Some p' -> ∃ p, peers_map_ q !! u = Some p /\ tracked_uuid p' = tracked_uuid p) as Hp.
  { intros u p' E. specialize (Ep u). rewrite E in Ep. destruct (peers_map_ q !! u) as [p|]; [|done]. injection Ep as Ep. by exists p. }
  split.
  - intros u p' (p & E & ->)%Hp. by apply Hu.
  - rewrite El, Es. intros Hopen. specialize (Ep (local_peer_uuid_ q)). destruct (Hlo Hopen) as [p E]. rewrite E in Ep.
    destruct (peers_map_ q' !! local_peer_uuid_ q); [by eexists|done].
  - rewrite Em. intros [config [Hc Ha Hm Hv Ht]]%Hle. exists config. split; try congruence. intros u p' (p & E & _)%Hp. by eapply Ht.
  - by rewrite Em, Ez.
Qed.

Lemma with_peer_shape u p p' q : peers_map_ q !! u = Some p -> tracked_uuid p' = tracked_uuid p -> same_shape q (with_peer u p' q).
Proof.
  intros E Et. repeat split. intros w. cbn. destruct (decide (w = u)) as [->|Hne]; [rewrite lookup_insert_eq, E; cbn; by rewrite Et|by rewrite lookup_insert_ne].
Qed.

Lemma with_state_shape q s :
  state s = state (queue_state_ q) -> mode s = mode (queue_state_ q) -> queue_majority_size_ s = queue_majority_size_ (queue_state_ q) ->
  queue_active_config s = queue_active_config (queue_state_ q) -> same_shape q (with_queue_state s q).
Proof. intros. by repeat split. Qed.

Lemma UpdateAllReplicatedOpId_shape q q' : UpdateAllReplicatedOpId q = Done q' -> same_shape q q' /\ peers_map_ q' = peers_map_ q /\
  majority_replicated_opid (queue_state_ q') = majority_replicated_opid (queue_state_ q).
Proof.
  unfold UpdateAllReplicatedOpId. destruct (least_received _ _); [|intros [= <-]; by repeat split].
  intros E. apply outcome_bind_Done in E as (_ & _ & [= <-]). split; [|done]. by apply with_state_shape.
Qed.

Lemma peer_status_uuid release env response type p p' : peer_status release env response type p = Done p' -> tracked_uuid p' = tracked_uuid p.
Proof.
  unfold peer_status. intros E. apply outcome_bind_Done in E as (b & _ & E). apply outcome_bind_Done in E as ([r n] & _ & [= <-]). done.
Qed.

(** What is said of a value that is told as a watermark. *)
Definition supported {V} (policy : Policy V) (q : PeerMessageQueue) (config : RaftConfigPB) (x : Z) : Prop :=
  ∃ Q, quorum config (queue_majority_size_ (queue_state_ q)) Q /\ ∀ u, u ∈ Q -> reached policy q x u.

Record majority_data_ok (q : PeerMessageQueue) (config : RaftConfigPB) (d : MajorityReplicatedData) : Prop := {
  md_op_id : majority_op_id d = majority_replicated_opid (queue_state_ q);
  md_lease : leader_lease_expiration d = kMinCoarseTime \/ queue_majority_size_ (queue_state_ q) = 1 \/
    supported LeaderLeaseExpirationPolicy q config (leader_lease_expiration d);
  md_ht_lease : ht_lease_expiration d = kMinHtMicros \/ queue_majority_size_ (queue_state_ q) = 1 \/
    supported HybridTimeLeaseExpirationPolicy q config (ht_lease_expiration d)
}.

Section response.
Context (release : bool).

Lemma GetWatermark_supported {V} (policy : Policy V) q config w :
  queue_ok release q -> leader_ok release q config -> state (queue_state_ q) = kQueueOpen -> GetWatermark release policy q = Done w ->
  w = Policy_Min policy \/ queue_majority_size_ (queue_state_ q) = 1 \/ supported policy q config (key policy w).
Proof.
  intros Hq Hl Ho E. destruct (decide (queue_majority_size_ (queue_state_ q) = 1)) as [|Hne]; [by right; left|].
  destruct (GetWatermark_ok release policy q config Hq Hl Ho Hne) as (w' & E' & H & _). rewrite E in E'. injection E' as <-.
  destruct H as [->|H]; [by left|by right; right].
Qed.

Lemma GetWatermark_single {V} (policy : Policy V) q w :
  queue_ok release q -> state (queue_state_ q) = kQueueOpen -> queue_majority_size_ (queue_state_ q) = 1 ->
  GetWatermark release policy q = Done w -> w = Policy_Max policy.
Proof.
  intros Hq Ho H1 E. unfold GetWatermark in E. rewrite H1 in E. cbn in E.
  destruct (Z.ltb_spec (Z.of_nat (size (peers_map_ q))) 1) as [Hsz|]; [exfalso|by injection E as <-].
  destruct (qu_local _ _ Hq Ho) as [x Hx]. assert (size (peers_map_ q) ≠ 0%nat) as Hz; [|lia]. intros Hz%map_size_empty_inv. by rewrite Hz in Hx.
Qed.

(** Where the leases of a peer do not matter. *)
Lemma reached_op_id_shape q q' x u :
  local_peer_uuid_ q' = local_peer_uuid_ q ->
  (∀ w, (λ p, (last_received p, is_last_exchange_successful p)) <$> peers_map_ q' !! w = (λ p, (last_received p, is_last_exchange_successful p)) <$> peers_map_ q !! w) ->
  reached OpIdPolicy q x u -> reached OpIdPolicy q' x u.
Proof.
  intros El Ep [[_ ?]|(p & Hp & Hs & Hx)]; [done|right]. specialize (Ep u). rewrite Hp in Ep. destruct (peers_map_ q' !! u) as [p'|]; [|done].
  injection Ep as Er Es. exists p'. cbn in *. rewrite Er, Es. done.
Qed.

Lemma update_majority_replicated_ok u p q q' d config :
  queue_ok release q -> leader_ok release q config -> state (queue_state_ q) = kQueueOpen -> peers_map_ q !! u = Some p ->
  update_majority_replicated release u p q = Done (q', d) ->
  same_shape q q' /\ majority_data_ok q' config d /\
  (majority_op_id d = majority_replicated_opid (queue_state_ q) \/ supported OpIdPolicy q' config (index (majority_op_id d)) \/
   ((queue_majority_size_ (queue_state_ q') = 1 \/ supported OpIdPolicy q' config (index MaximumOpId)) /\
    ∃ local, peers_map_ q' !! local_peer_uuid_ q' = Some local /\ majority_op_id d = last_received local)).
Proof.
  intros Hq Hl Ho Hp E. unfold update_majority_replicated in E. apply outcome_bind_Done in E as (new & En & E).
  apply outcome_bind_Done in E as (q1 & E1 & E). set (q2 := with_peer u (leases_received p) q1) in E.
  assert (same_shape q q1 /\ peers_map_ q1 = peers_map_ q) as [S1 P1].
  { destruct (OpIdEquals _ _); [injection E1 as <-; split; [apply same_shape_refl|done]|]. destruct (_ =? _).
    - destruct (peers_map_ q !! local_peer_uuid_ q); [|done]. injection E1 as <-. split; [by apply with_state_shape|done].
    - injection E1 as <-. split; [by apply with_state_shape|done]. }
  assert (same_shape q q2) as S2.
  { apply (same_shape_trans q q1 q2 S1). apply (with_peer_shape u p); [by rewrite P1|done]. }
  apply outcome_bind_Done in E as (lease & Elease & E). apply outcome_bind_Done in E as (ht & Eht & [= <- <-]).
  pose proof (same_shape_ok release q q2 S2 Hq) as Hq2. destruct S2 as (El2 & Es2 & Em2 & Ez2 & Ec2 & Ep2) eqn:ES2. clear ES2.
  assert (leader_ok release q2 config) as Hl2.
  { destruct Hl as [? ? ? ? Ht]. split; try congruence. intros w x Hx. specialize (Ep2 w). rewrite Hx in Ep2.
    destruct (peers_map_ q !! w) eqn:Ew; [|done]. by eapply Ht. }
  assert (state (queue_state_ q2) = kQueueOpen) as Ho2 by congruence. split; [done|]. split; [split; cbn [majority_op_id leader_lease_expiration ht_lease_expiration]; [done|..]|].
  - by apply (GetWatermark_supported LeaderLeaseExpirationPolicy q2 config lease).
  - by apply (GetWatermark_supported HybridTimeLeaseExpirationPolicy q2 config ht).
  - assert (∀ w, (λ p, (last_received p, is_last_exchange_successful p)) <$> peers_map_ q2 !! w = (λ p, (last_received p, is_last_exchange_successful p)) <$> peers_map_ q !! w) as Hsame.
    { intros w. cbn. rewrite P1. destruct (decide (w = u)) as [->|Hne]; [by rewrite lookup_insert_eq, Hp|by rewrite lookup_insert_ne]. }
    cbn [majority_op_id]. destruct (OpIdEquals new MinimumOpId) eqn:Emin; [left; by injection E1 as <-|right].
    assert (queue_majority_size_ (queue_state_ q2) = 1 /\ new = MaximumOpId \/ supported OpIdPolicy q2 config (index new)) as Hnew.
    { destruct (GetWatermark_supported OpIdPolicy q config new Hq Hl Ho En) as [->|[H1|(Q & HQ & HQr)]]; [done| |right].
      - left. split; [congruence|]. by apply (GetWatermark_single OpIdPolicy q).
      - exists Q. rewrite Ez2. split; [done|]. intros w Hw. apply (reached_op_id_shape q); auto. }
    destruct (Z.eqb_spec (index new) (index MaximumOpId)) as [Emax|Emax].
    + right. destruct (peers_map_ q !! local_peer_uuid_ q) as [local|] eqn:Elo; [|done]. injection E1 as <-.
      split; [destruct Hnew as [[? _]|?]; [by left|right; by rewrite <- Emax]|].
      pose proof (Hsame (local_peer_uuid_ q)) as Hs. rewrite Elo in Hs. rewrite El2. destruct (peers_map_ q2 !! local_peer_uuid_ q) as [local'|]; [|done].
      injection Hs as Hs _. exists local'. by rewrite Hs.
    + left. injection E1 as <-. destruct Hnew as [[_ ->]|?]; done.
Qed.

Lemma leader_ok_shape q q' config : same_shape q q' -> leader_ok release q config -> leader_ok release q' config.
Proof.
  intros (El & Es & Em & Ez & Ec & Ep) [? ? ? ? Ht]. split; try congruence. intros w x Hx. specialize (Ep w). rewrite Hx in Ep.
  destruct (peers_map_ q !! w) eqn:Ew; [|done]. by eapply Ht.
Qed.

(** What the observers are told after an answer. *)
Definition told_ok (old : OpId) (q : PeerMessageQueue) (d : MajorityReplicatedData) : Prop :=
  ∃ config, leader_ok release q config /\ majority_data_ok q config d /\
  (majority_op_id d = old \/ supported OpIdPolicy q config (index (majority_op_id d)) \/
   ((queue_majority_size_ (queue_state_ q) = 1 \/ supported OpIdPolicy q config (index MaximumOpId)) /\
    ∃ local, peers_map_ q !! local_peer_uuid_ q = Some local /\ majority_op_id d = last_received local)).

Lemma told_ok_same_peers old q q' d :
  same_shape q q' -> peers_map_ q' = peers_map_ q -> majority_replicated_opid (queue_state_ q') = majority_replicated_opid (queue_state_ q) ->
  told_ok old q d -> told_ok old q' d.
Proof.
  intros Hs Ep Emaj (config & Hl & [Ho Hle Hht] & Hd). exists config. pose proof Hs as (El & _ & _ & Ez & _ & _).
  assert (∀ V (policy : Policy V) x, supported policy q config x -> supported policy q' config x) as Hsup.
  { intros V policy x (Q & HQ & HQr). exists Q. rewrite Ez. split; [done|]. intros u Hu. unfold reached. rewrite El, Ep. by apply HQr. }
  split; [by apply (leader_ok_shape q)|]. split; [split; [congruence|rewrite Ez; naive_solver..]|].
  destruct Hd as [->|[?|([?|?] & local & ? & ?)]]; [by left|right; left; auto|right; right; split; [left; congruence|]|right; right; split; [right; auto|]];
    exists local; by rewrite El, Ep.
Qed.

Lemma ResponseFromPeer_ok env u response q q' more notes :
  queue_ok release q -> ResponseFromPeer release env u response q = Done (q', more, notes) ->
  same_shape q q' /\ ∀ d, MajorityReplOpChange d ∈ notes -> told_ok (majority_replicated_opid (queue_state_ q)) q' d.
Proof.
  intros Hq E. unfold ResponseFromPeer in E. apply outcome_bind_Done in E as (_ & _ & E).
  assert (∀ x (n : list queue_notification), same_shape q x -> (∀ d, MajorityReplOpChange d ∉ n) -> same_shape q x /\
    ∀ d, MajorityReplOpChange d ∈ n -> told_ok (majority_replicated_opid (queue_state_ q)) x d) as Hsilent.
  { intros x n Hx Hn. split; [done|]. intros d Hd. by destruct (Hn d). }
  case_bool_decide as Ho; [|injection E as <- <- <-; apply Hsilent; [apply same_shape_refl|intros d; apply not_elem_of_nil]].
  destruct (peers_map_ q !! u) as [p|] eqn:Ep; [|injection E as <- <- <-; apply Hsilent; [apply same_shape_refl|intros d; apply not_elem_of_nil]].
  destruct (response_error_is_tablet_not_found response).
  { apply outcome_bind_Done in E as (_ & _ & [= <- <- <-]). apply Hsilent; [by apply (with_peer_shape u p)|intros d; apply not_elem_of_nil]. }
  apply outcome_bind_Done in E as (type & _ & E). apply outcome_bind_Done in E as (p1 & Ep1 & E). apply peer_status_uuid in Ep1.
  destruct (status_error response) as [[]|].
  { injection E as <- <- <-. apply Hsilent; [by apply (with_peer_shape u p)|intros d; apply not_elem_of_nil]. }
  { destruct (response_responder_term response); [|done]. injection E as <- <- <-. apply Hsilent; [by apply (with_peer_shape u p)|].
    by intros d ?%list_elem_of_singleton. }
  { done. }
  apply outcome_bind_Done in E as (p2 & Ep2 & E).
  assert (tracked_uuid p2 = tracked_uuid p) as Eu.
  { destruct (response_responder_term response); [|by injection Ep2 as <-]. apply outcome_bind_Done in Ep2 as (_ & _ & Ep2).
    apply outcome_bind_Done in Ep2 as (_ & _ & [= <-]). done. }
  set (q2 := with_peer u p2 q) in E. assert (same_shape q q2) as S2 by (by apply (with_peer_shape u p)).
  pose proof (same_shape_ok release q q2 S2 Hq) as Hq2. apply outcome_bind_Done in E as ([q3 n3] & E3 & E).
  apply outcome_bind_Done in E as (q4 & E4 & [= <- <- <-]). apply UpdateAllReplicatedOpId_shape in E4 as (S4 & P4 & M4).
  destruct (mode (queue_state_ q2)) eqn:Emode.
  - apply outcome_bind_Done in E3 as ([q5 d] & E5 & [= <- <-]). destruct (qu_leader _ _ Hq2 Emode) as [config Hl].
    destruct (update_majority_replicated_ok u p2 q2 q5 d config Hq2 Hl) as (S5 & Hd & Hop); [done|apply lookup_insert_eq|done|].
    split; [by eapply same_shape_trans, same_shape_trans|]. intros d' [= ->]%list_elem_of_singleton.
    apply (told_ok_same_peers _ q5); [done..|]. exists config. split; [by apply (leader_ok_shape q2)|]. split; [done|]. exact Hop.
  - injection E3 as <- <-. apply Hsilent; [by eapply same_shape_trans|intros d; apply not_elem_of_nil].
Qed.

Lemma LocalPeerAppendFinished_ok env id status q q' more notes :
  queue_ok release q -> LocalPeerAppendFinished release env id status q = Done (q', more, notes) ->
  same_shape q q' /\ ∀ d, MajorityReplOpChange d ∈ notes -> told_ok (majority_replicated_opid (queue_state_ q)) q' d.
Proof.
  intros Hq E. unfold LocalPeerAppendFinished in E. apply outcome_bind_Done in E as (_ & _ & E).
  set (q1 := if _ <? _ then _ else q) in E. assert (same_shape q q1 /\ majority_replicated_opid (queue_state_ q1) = majority_replicated_opid (queue_state_ q)) as [S1 M1].
  { unfold q1. destruct (_ <? _); [split; [by apply with_state_shape|done]|split; [apply same_shape_refl|done]]. }
  destruct (ResponseFromPeer_ok env _ _ q1 q' more notes (same_shape_ok release q q1 S1 Hq) E) as [S2 Hd]. rewrite M1 in Hd.
  split; [by eapply same_shape_trans|done].
Qed.

Lemma CheckPeers_ok q config :
  mode (queue_state_ q) = LEADER_MODE -> queue_active_config (queue_state_ q) = Some config -> CheckPeersInActiveConfigIfLeaderUnlocked q = Done tt ->
  ∀ u p, peers_map_ q !! u = Some p -> u ∈ permanent_uuid <$> peers config.
Proof.
  intros Em Ec E u p Hp. unfold CheckPeersInActiveConfigIfLeaderUnlocked in E. rewrite Em, Ec in E. apply outcome_bind_Done in E as (_ & _ & E).
  destruct (forallb _ _) eqn:Ef; [|done]. rewrite forallb_forall in Ef. specialize (Ef (u, p)). cbn in Ef. apply bool_decide_eq_true in Ef; [done|].
  by apply list_elem_of_In, elem_of_map_to_list.
Qed.

Lemma TrackPeerUnlocked_ok now u q q' :
  (state (queue_state_ q) = kQueueOpen -> u ≠ local_peer_uuid_ q -> is_Some (peers_map_ q !! local_peer_uuid_ q)) ->
  (∀ u p, peers_map_ q !! u = Some p -> tracked_uuid p = u) ->
  (mode (queue_state_ q) = LEADER_MODE -> ∃ config, leader_ok release q config) ->
  (mode (queue_state_ q) = NON_LEADER_MODE -> queue_majority_size_ (queue_state_ q) = kUninitializedMajoritySize) ->
  TrackPeerUnlocked release now u q = Done q' -> queue_ok release q'.
Proof.
  intros Hlo Hu Hle Hnl E. unfold TrackPeerUnlocked in E. apply outcome_bind_Done in E as (_ & _ & E). apply outcome_bind_Done in E as (_ & _ & E).
  apply outcome_bind_Done in E as ([] & Hn & E). destruct (bool_decide (peers_map_ q !! u = None)) eqn:Hnew; [|done]. clear Hn.
  apply bool_decide_eq_true in Hnew. set (p := new_TrackedPeer _ _ _) in E. set (q1 := with_peer u p q) in E.
  apply outcome_bind_Done in E as ([] & Hch & [= <-]). split; cbn [peers_map_ with_queue_state queue_state_ with_all_replicated state mode queue_majority_size_ local_peer_uuid_].
  - intros w x. cbn. destruct (decide (w = u)) as [->|Hne]; [rewrite lookup_insert_eq; by intros [= <-]|rewrite lookup_insert_ne by done; apply Hu].
  - intros Ho. cbn. destruct (decide (u = local_peer_uuid_ q)) as [->|Hne]; [by rewrite lookup_insert_eq|rewrite lookup_insert_ne by done; auto].
  - intros Hm. destruct (Hle Hm) as [config [? Ha ? ? ?]]. exists config. split; try done. by apply (CheckPeers_ok q1 config Hm Ha).
  - done.
Qed.

Lemma SetLeaderMode_ok now committed t config type q q' :
  queue_ok release q -> VerifyRaftConfig config type = Ok tt -> SetLeaderMode release now committed t config q = Done q' -> queue_ok release q'.
Proof.
  intros [Hu Hlo Hle Hnl] [Hc _]%VerifyRaftConfig_ok E. unfold SetLeaderMode in E. apply outcome_bind_Done in E as ([] & Hv & E).
  apply outcome_bind_Done in E as (m & Em & E). apply outcome_bind_Done in E as ([] & Hch & [= <-]).
  destruct (IsRaftConfigVoter (local_peer_uuid_ q) config) eqn:Hvot; [|done]. clear Hv. apply IsRaftConfigVoter_voters in Hvot; [|done].
  split; cbn.
  - intros u p. rewrite lookup_fmap. destruct (peers_map_ q !! u) as [x|] eqn:Ex; [|done]. intros [= <-]. cbn. by apply Hu.
  - intros Ho. rewrite lookup_fmap. destruct (Hlo Ho) as [x ->]. by eexists.
  - intros _. exists config. split; try done. intros u p. cbn. rewrite lookup_fmap. destruct (peers_map_ q !! u) as [x|] eqn:Ex; [|done]. intros _.
    by eapply (CheckPeers_ok _ config); [| |exact Hch|cbn; exact Ex].
  - done.
Qed.

Lemma queue_step_ok q q' : queue_ok release q -> queue_step release q q' -> queue_ok release q'.
Proof.
  intros Hq Hstep. pose proof Hq as [Hu Hlo Hle Hnl].
  destruct Hstep as [q now id q' E|q now u q' E|q u Hne|q now committed t config type q' Hv E|q|q env u response q' more notes E|q env id status q' more notes E
    |q last_msg appended|q id|q env u q' request E|q now u|q].
  - unfold Init in E. apply outcome_bind_Done in E as (_ & _ & E). apply TrackPeerUnlocked_ok in E; [done|by intros _ ?|done| |done].
    intros Hm. destruct (Hle Hm) as [config []]. by exists config.
  - apply TrackPeerUnlocked_ok in E; [done|auto|done..].
  - split; cbn; [|by intros Ho; rewrite lookup_delete_ne by done; auto| |done].
    + intros w p [_ Hp]%lookup_delete_Some. by apply Hu.
    + intros Hm. destruct (Hle Hm) as [config [? ? ? ? Ht]]. exists config. split; try done. intros w p Hp. cbn in Hp. apply lookup_delete_Some in Hp as [_ Hp]. by eapply Ht.
  - by eapply SetLeaderMode_ok.
  - by split.
  - eapply same_shape_ok; [|exact Hq]. by apply (ResponseFromPeer_ok env u response q q' more notes).
  - eapply same_shape_ok; [|exact Hq]. by apply (LocalPeerAppendFinished_ok env id status q q' more notes).
  - eapply same_shape_ok; [|exact Hq]. unfold AppendOperations. destruct appended, last_msg as [id|]; cbn; repeat destruct (_ <? _); by repeat split.
  - eapply same_shape_ok; [|exact Hq]. unfold set_committed_index. destruct id as [id|]; [destruct (_ <? _)|]; by repeat split.
  - unfold RequestForPeer in E. apply outcome_bind_Done in E as (_ & _ & E). apply outcome_bind_Done in E as (_ & _ & E).
    destruct (peers_map_ q !! u) as [p|] eqn:Ep; [|done]. destruct (mode (queue_state_ q)); [|done]. injection E as <- _.
    eapply same_shape_ok; [|exact Hq]. apply (with_peer_shape u p); [done|]. by destruct (is_new p).
  - eapply same_shape_ok; [|exact Hq]. unfold NotifyPeerIsResponsiveDespiteError. destruct (peers_map_ q !! u) as [p|] eqn:Ep; [|apply same_shape_refl].
    by apply (with_peer_shape u p).
  - split; cbn; try done. intros Hm. destruct (Hle Hm) as [config []]. by exists config.
Qed.

Lemma new_queue_ok u : queue_ok release (new_queue u).
Proof. by split. Qed.

Lemma queue_reachable_ok u q : rtc (queue_step release) (new_queue u) q -> queue_ok release q.
Proof. intros Hr. pose proof (new_queue_ok u) as H0. induction Hr as [|x y z Hxy _ IH]; [done|]. apply IH. by eapply queue_step_ok. Qed.

End response.

(** ** Properties *)

(** The watermark of a leader with more than one voter, for operations as
    for leases, is what a majority of the voters of its configuration has
    followed up to (the leader itself being ahead of all as to leases), and
    nothing greater has been followed by any majority; it is the least value
    only if there is none. *)
Theorem queue_watermark_majority {V : Type} release u q config (policy : Policy V) :
  rtc (queue_step release) (new_queue u) q -> state (queue_state_ q) = kQueueOpen -> mode (queue_state_ q) = LEADER_MODE ->
  queue_active_config (queue_state_ q) = Some config -> queue_majority_size_ (queue_state_ q) ≠ 1 ->
  MajoritySize release (CountVoters config) = Done (queue_majority_size_ (queue_state_ q)) /\
  ∃ w, GetWatermark release policy q = Done w /\
    (w = Policy_Min policy \/ supported policy q config (key policy w)) /\
    (∀ x, supported policy q config x -> x <= key policy w).
Proof.
  intros Hr%queue_reachable_ok Ho Hm Ea Hne. destruct (qu_leader _ _ Hr Hm) as [config' Hl]. pose proof (lq_active _ _ _ Hl) as Ea'.
  rewrite Ea in Ea'. injection Ea' as <-. split; [apply Hl|].
  destruct (GetWatermark_ok release policy q config Hr Hl Ho Hne) as (w & E & Hw & Hmax). exists w. split; [done|]. split; [done|].
  intros x (Q & HQ & HQr). by apply (Hmax x Q).
Qed.

(** A leader of three voters, one of which has answered. *)
Definition sample_queue_env : QueueEnv := mkQueueEnv 1 1000000000 1000 (λ i, Ok (mkOpId 1 i)) (λ _, false) 2000 2000.
Definition result {A : Type} (o : Outcome A) (d : A) : A := match o with Done a => a | _ => d end.
Definition sample_queue_steps : list PeerMessageQueue :=
  let q0 := new_queue "a" in
  let q1 := result (Init false 1 (mkOpId 1 5) q0) q0 in
  let q2 := result (SetLeaderMode false 1 (mkOpId 1 5) 2 sample_config q1) q1 in
  let q3 := result (TrackPeerUnlocked false 1 "b" q2) q2 in
  let response i := mkConsensusResponsePB None (Some 2) (mkOpId 1 i) (mkOpId 1 i) 5 None in
  let q4 := (result (LocalPeerAppendFinished false sample_queue_env (mkOpId 1 7) (Ok tt) q3) (q3, true, [])).1.1 in
  let q5 := (result (ResponseFromPeer false sample_queue_env "b" (response 6) q4) (q4, true, [])).1.1 in
  [q0; q1; q2; q3; q4; q5].
Definition sample_queue (i : nat) : PeerMessageQueue := default (new_queue "a") (sample_queue_steps !! i).

Lemma sample_queue_reachable : rtc (queue_step false) (new_queue "a") (sample_queue 5).
Proof.
  apply (rtc_l _ _ (sample_queue 1)); [apply (step_init _ _ 1 (mkOpId 1 5)); vm_compute; reflexivity|].
  apply (rtc_l _ _ (sample_queue 2)); [apply (step_leader _ _ 1 (mkOpId 1 5) 2 sample_config COMMITTED_QUORUM); vm_compute; reflexivity|].
  apply (rtc_l _ _ (sample_queue 3)); [apply (step_track _ _ 1 "b"); vm_compute; reflexivity|].
  eapply (rtc_l _ _ (sample_queue 4)); [eapply (step_local _ _ sample_queue_env (mkOpId 1 7) (Ok tt)); vm_compute; reflexivity|].
  eapply (rtc_l _ _ (sample_queue 5)); [|apply rtc_refl].
  eapply (step_response _ _ sample_queue_env "b" (mkConsensusResponsePB None (Some 2) (mkOpId 1 6) (mkOpId 1 6) 5 None)); vm_compute; reflexivity.
Qed.

Lemma queue_watermark_majority_witness :
  GetWatermark false OpIdPolicy (sample_queue 5) = Done (mkOpId 1 6) /\ supported OpIdPolicy (sample_queue 5) sample_config 6.
Proof.
  assert (GetWatermark false OpIdPolicy (sample_queue 5) = Done (mkOpId 1 6)) as Hw by (vm_compute; reflexivity). split; [exact Hw|].
  destruct (queue_watermark_majority false "a" (sample_queue 5) sample_config OpIdPolicy sample_queue_reachable) as (_ & w & E & Hs & _);
    [vm_compute; reflexivity..|vm_compute; discriminate|].
  rewrite Hw in E. injection E as <-. destruct Hs as [Hc|Hs]; [discriminate Hc|exact Hs].
Defined.

(** C12: what the queue tells its observers after the answer of a peer: the
    operation is the one told before, or one that a majority of the voters has
    received up to its index, and the leases, where there are any, have been
    received by a majority. *)
Theorem queue_tells_majority release u q env peer response q' more notes d :
  rtc (queue_step release) (new_queue u) q -> ResponseFromPeer release env peer response q = Done (q', more, notes) ->
  MajorityReplOpChange d ∈ notes -> told_ok release (majority_replicated_opid (queue_state_ q)) q' d.
Proof. intros Hr%queue_reachable_ok E Hd. by apply (ResponseFromPeer_ok release env peer response q q' more notes). Qed.

(** The next answer of the peer moves the majority on. *)
Lemma queue_tells_majority_witness :
  majority_replicated_opid (queue_state_ (sample_queue 5)) = mkOpId 1 6 /\
  ∃ q' d, majority_op_id d = mkOpId 1 7 /\ told_ok false (mkOpId 1 6) q' d.
Proof.
  split; [vm_compute; reflexivity|].
  set (response := mkConsensusResponsePB None (Some 2) (mkOpId 1 7) (mkOpId 1 7) 5 None).
  set (r := result (ResponseFromPeer false sample_queue_env "b" response (sample_queue 5)) (sample_queue 5, false, [])).
  exists r.1.1, (mkMajorityReplicatedData (mkOpId 1 7) kMinCoarseTime 0). split; [reflexivity|].
  apply (queue_tells_majority false "a" (sample_queue 5) sample_queue_env "b" response r.1.1 r.1.2 r.2 _ sample_queue_reachable);
    [vm_compute; reflexivity|]. vm_compute. by left.
Defined.
