(* ===== verification/LeaderLease.v ===== *)
(** * Leases of leaders ([src/yb/consensus/replica_state.cc],
    [raft_consensus.cc])

    A leader serves until a time that a majority of the replicas has accepted
    as its lease. A new leader hears of the leases its voters have accepted and
    waits for them to run out: so no two leaders serve the same hybrid time. *)

From S2P Require Import Prelude MonoTime Quorum LeaderElection ConsensusMeta RaftElection ConsensusQueue.
Local Open Scope Z_scope.

(** ** The state of a lease *)

Inductive LeaderLeaseStatus : Type := NO_MAJORITY_REPLICATED_LEASE | OLD_LEADER_MAY_HAVE_LEASE | HAS_LEASE.

#[export] Instance LeaderLeaseStatus_eq_dec : EqDecision LeaderLeaseStatus.
Proof. solve_decision. Defined.

(** What a policy of [GetLeaseStatusUnlocked] answers. *)
Record LeasePolicy : Type := mkLeasePolicy {
  Enabled : bool;
  OldLeaderLeaseExpired : bool;
  MajorityReplicatedLeaseExpired : bool
}.

Section leases.
Context (release : bool) (env : Env).

Definition GetLeaseStatusUnlocked (policy : LeasePolicy) (s : RaftConsensus) : Outcome LeaderLeaseStatus :=
  _ ← DCHECK release (bool_decide (GetActiveRoleUnlocked s = LEADER));
  Done (if negb (Enabled policy) then HAS_LEASE
        else if bool_decide (length (peers (GetActiveConfigUnlocked s)) = 1%nat) then HAS_LEASE
        else if negb (OldLeaderLeaseExpired policy) then OLD_LEADER_MAY_HAVE_LEASE
        else if MajorityReplicatedLeaseExpired policy then NO_MAJORITY_REPLICATED_LEASE
        else HAS_LEASE).

(** [CoarseTimePoint()] is zero; the clock does not read zero. *)
Definition MajorityReplicatedLeaderLeaseExpired (s : RaftConsensus) : bool :=
  if majority_replicated_lease_expiration_ s =? kNoCoarseTime then true
  else majority_replicated_lease_expiration_ s <=? env_coarse_now env.

(** The replica (an old lease that has run out is forgotten, once it is looked
    at), the status, and what remains of the old lease. *)
Definition GetLeaderLeaseStatusUnlocked (s : RaftConsensus) : Outcome (RaftConsensus * LeaderLeaseStatus * MonoDelta.t) :=
  let looked := negb (bool_decide (length (peers (GetActiveConfigUnlocked s)) = 1%nat)) in
  let '(s', remaining) := if looked then RemainingOldLeaderLeaseDuration env s else (s, MonoDelta.kUninitialized) in
  status ← GetLeaseStatusUnlocked
    (mkLeasePolicy true (negb (MonoDelta.Initialized remaining)) (MajorityReplicatedLeaderLeaseExpired s')) s;
  Done (s', status, if MonoDelta.Initialized remaining then remaining else 0).

Definition MajorityReplicatedHybridTimeLeaseExpiredAt (hybrid_time : Z) (s : RaftConsensus) : bool :=
  majority_replicated_ht_lease_expiration_ s <=? hybrid_time.

Definition GetHybridTimeLeaseStatusAtUnlocked (ht_lease_duration_ms micros_time : Z) (s : RaftConsensus) : Outcome LeaderLeaseStatus :=
  GetLeaseStatusUnlocked
    (mkLeasePolicy (negb (ht_lease_duration_ms =? 0)) (expiration (old_leader_ht_lease_ s) <? micros_time)
       (MajorityReplicatedHybridTimeLeaseExpiredAt micros_time s)) s.

Inductive LeaderStatus : Type :=
| NOT_LEADER | LEADER_BUT_NO_OP_NOT_COMMITTED | LEADER_BUT_OLD_LEADER_MAY_HAVE_LEASE
| LEADER_BUT_NO_MAJORITY_REPLICATED_LEASE | LEADER_AND_READY.

Definition kUnknownTerm : Z := -1.

Record LeaderState : Type := mkLeaderState {
  leader_status : LeaderStatus;
  leader_state_term : Z;
  remaining_old_leader_lease : MonoDelta.t
}.

(** [no_op_committed] is [leader_no_op_committed_]. *)
Definition GetLeaderStateUnlocked (no_op_committed need_lease : bool) (s : RaftConsensus) : Outcome (RaftConsensus * LeaderState) :=
  if negb (bool_decide (GetActiveRoleUnlocked s = LEADER)) then Done (s, mkLeaderState NOT_LEADER kUnknownTerm MonoDelta.kUninitialized)
  else if negb no_op_committed then Done (s, mkLeaderState LEADER_BUT_NO_OP_NOT_COMMITTED kUnknownTerm MonoDelta.kUninitialized)
  else
    '(s, lease_status, remaining) ←
      (if need_lease then GetLeaderLeaseStatusUnlocked s else Done (s, HAS_LEASE, MonoDelta.kUninitialized));
    Done (s, match lease_status with
             | OLD_LEADER_MAY_HAVE_LEASE => mkLeaderState LEADER_BUT_OLD_LEADER_MAY_HAVE_LEASE kUnknownTerm remaining
             | NO_MAJORITY_REPLICATED_LEASE => mkLeaderState LEADER_BUT_NO_MAJORITY_REPLICATED_LEASE kUnknownTerm remaining
             | HAS_LEASE => mkLeaderState LEADER_AND_READY (GetCurrentTermUnlocked s) remaining
             end).

(** ** A leader hears that its lease is replicated *)

(** The new state is followed by a look at the lease, for the cache. *)
Definition SetMajorityReplicatedLeaseExpirationUnlocked (no_op_committed : bool) (d : MajorityReplicatedData)
    (reset_old_leader_lease reset_old_leader_ht_lease : bool) (s : RaftConsensus) : Outcome RaftConsensus :=
  let s := with_own_leases (leader_lease_expiration d) (ht_lease_expiration d) s in
  let s := with_old_leases (if reset_old_leader_lease then no_CoarseTimeLease else old_leader_lease_ s)
             (if reset_old_leader_ht_lease then no_PhysicalComponentLease else old_leader_ht_lease_ s) s in
  '(s, _) ← GetLeaderStateUnlocked no_op_committed true s;
  Done s.

(** The part of [UpdateMajorityReplicated] about leases; [q] is the queue. *)
Definition UpdateMajorityReplicated (enable_lease_revocation no_op_committed : bool) (q : PeerMessageQueue)
    (d : MajorityReplicatedData) (s : RaftConsensus) : Outcome RaftConsensus :=
  if negb (running s) || negb (bool_decide (GetActiveRoleUnlocked s = LEADER)) then Done s
  else
    let revoked lease := enable_lease_revocation && negb (bool_decide (holder_uuid lease = EmptyString))
                           && PeerAcceptedOurLease (holder_uuid lease) q in
    SetMajorityReplicatedLeaseExpirationUnlocked no_op_committed d (revoked (old_leader_lease_ s))
      (revoked (old_leader_ht_lease_ s)) s.

(** ** A follower hears from a leader *)

(** What the log makes of the operations of a request: whether they are in
    sequence, whether the operation before them matches (else the response has
    an error), and whether operations they replace could be aborted. *)
Record LogCheck : Type := mkLogCheck {
  CheckLeaderRequestOpIdSequence : Result unit;
  EnforceLogMatchingPropertyMatchesUnlocked : Result bool;
  check_pending : Result unit
}.

(** The request of a leader: the parts that are not about operations. *)
Record ConsensusRequestPB : Type := mkConsensusRequestPB {
  caller_uuid : uuid;
  caller_term : Z;
  leader_lease_duration_ms : option Z;
  ht_lease_expiration_of_request : Z
}.

Definition HasLeaderUnlocked (s : RaftConsensus) : bool := negb (bool_decide (GetLeaderUuidUnlocked s = EmptyString)).

(** Whether the response has an error. *)
Definition HandleLeaderRequestTermUnlocked (request : ConsensusRequestPB) (s : RaftConsensus) : Op bool :=
  if negb (caller_term request =? GetCurrentTermUnlocked s) then
    if caller_term request <? GetCurrentTermUnlocked s then Done (s, Ok true)
    else op_bind (HandleTermAdvanceUnlocked release env (caller_term request) s) (λ _ s, Done (s, Ok false))
  else Done (s, Ok false).

Definition CheckLeaderRequestUnlocked (log : LogCheck) (request : ConsensusRequestPB) (s : RaftConsensus) : Op bool :=
  op_bind (Done (s, CheckLeaderRequestOpIdSequence log)) (λ _ s,
  op_bind (HandleLeaderRequestTermUnlocked request s) (λ has_error s,
  if has_error : bool then Done (s, Ok true)
  else
    op_bind (Done (s, EnforceLogMatchingPropertyMatchesUnlocked log)) (λ matches s,
    if negb matches then Done (s, Ok true)
    else
      op_bind (Done (s, check_pending log)) (λ _ s,
      if HasLeaderUnlocked s && negb (bool_decide (GetLeaderUuidUnlocked s = caller_uuid request)) then Fatal
      else Done (if HasLeaderUnlocked s then s else SetLeaderUuidUnlocked (caller_uuid request) s, Ok false))))).

(** The part of [UpdateReplica] after a request is accepted and before its
    operations are taken over. *)
Definition accept_request (MinimumElectionTimeout : MonoDelta.t) (request : ConsensusRequestPB) (s : RaftConsensus) : Outcome RaftConsensus :=
  let s :=
    match leader_lease_duration_ms request with
    | Some ms =>
        UpdateOldLeaderLeaseExpirationOnNonLeaderUnlocked (mkLeaseData (caller_uuid request) (env_coarse_now env + ms * 1000000))
          (mkLeaseData (caller_uuid request) (ht_lease_expiration_of_request request)) s
    | None => s
    end in
  withhold ← MonoTime.AddDelta release (env_now env) MinimumElectionTimeout;
  Done (with_withhold_votes withhold s).

(** [UpdateReplica], up to where the operations are taken over: whether the
    request is accepted. *)
Definition UpdateReplica (MinimumElectionTimeout : MonoDelta.t) (log : LogCheck) (request : ConsensusRequestPB) (s : RaftConsensus)
    : Op bool :=
  if negb (running s) then Done (s, Error IllegalState)
  else
    op_bind (CheckLeaderRequestUnlocked log request s) (λ has_error s,
    if has_error : bool then Done (s, Ok false)
    else s ← accept_request MinimumElectionTimeout request s; Done (s, Ok true)).

End leases.

(** ** Leases through elections *)

Lemma TryUpdate_ge rhs l : expiration l <= expiration (TryUpdate rhs l) /\ expiration rhs <= expiration (TryUpdate rhs l).
Proof. unfold TryUpdate. destruct (Z.ltb_spec (expiration l) (expiration rhs)); cbn; lia. Qed.

(** The end of the hybrid time lease that an election has heard of, and that an
    answer tells. *)
Definition election_lease (e : LeaderElection) : Z := expiration (old_leader_ht_lease (result_ e)).
Definition answer_lease (resp : VoteResponsePB) : Z := default kNoPhysicalLease (leader_ht_lease_expiration resp).

Lemma RecordVote_result release u v e e' : RecordVoteUnlocked release u v e = Done e' -> result_ e' = result_ e.
Proof.
  unfold RecordVoteUnlocked. destruct (RegisterVote _ _ _) as [c s]. intros E. by apply outcome_bind_Done in E as (_ & _ & [= <-]).
Qed.

Lemma HandleVoteDenied_lease release u resp e e' :
  HandleVoteDeniedUnlocked release u resp e = Done e' -> election_lease e' = election_lease e.
Proof.
  unfold HandleVoteDeniedUnlocked, election_lease. intros E. apply outcome_bind_Done in E as (_ & _ & E). destruct (_ <? _).
  - unfold HandleHigherTermUnlocked in E. apply outcome_bind_Done in E as (_ & _ & [= <-]). by destruct (decided _).
  - by rewrite (RecordVote_result _ _ _ _ _ E).
Qed.

Lemma HandleResponse_lease release now u rpc e e' check :
  HandleResponse release now u rpc e = Done (e', check) ->
  election_lease e <= election_lease e' /\
  (check = true -> ∀ resp, rpc = RpcResponse resp -> has_error resp = false -> responder_uuid resp = u -> vote_granted resp = true ->
     preelection (result_ e) = false -> answer_lease resp <= Z.max 0 (election_lease e')).
Proof.
  unfold HandleResponse. destruct (has_responded_ e); [by intros [= <- <-]|]. intros E. apply outcome_bind_Done in E as (_ & _ & E).
  apply outcome_bind_Done in E as (x & Ex & [= <- <-]). destruct rpc as [|resp].
  { unfold election_lease. by rewrite (RecordVote_result _ _ _ _ _ Ex). }
  destruct (has_error resp) eqn:Eerr.
  { unfold election_lease. rewrite (RecordVote_result _ _ _ _ _ Ex). split; [done|]. intros _ r [= <-]. congruence. }
  case_bool_decide as Hu; cbn [negb] in Ex.
  2: { apply outcome_bind_Done in Ex as (_ & _ & Ex). unfold election_lease. rewrite (RecordVote_result _ _ _ _ _ Ex). split; [done|].
       intros _ r [= <-]. congruence. }
  destruct (preelection (result_ e) && negb (response_preelection resp)) eqn:Hpre.
  { apply HandleVoteDenied_lease in Ex. rewrite Ex. split; [done|]. intros _ r _ _ _ _ Hp. by rewrite Hp in Hpre. }
  destruct (vote_granted resp) eqn:Hg.
  - unfold HandleVoteGrantedUnlocked in Ex. apply outcome_bind_Done in Ex as (_ & _ & Ex). apply outcome_bind_Done in Ex as (_ & _ & Ex).
    unfold election_lease. rewrite (RecordVote_result _ _ _ _ _ Ex). cbn [with_result result_ old_leader_ht_lease].
    destruct (leader_ht_lease_expiration resp) as [x0|] eqn:El.
    + destruct (TryUpdate_ge (mkLeaseData (leader_ht_lease_uuid resp) x0) (old_leader_ht_lease (result_ e))) as [H1 H2]. split; [done|].
      intros _ r [= <-] _ _ _ _. unfold answer_lease. rewrite El. cbn in *. lia.
    + split; [done|]. intros _ r [= <-] _ _ _ _. unfold answer_lease. rewrite El. cbn. unfold kNoPhysicalLease. lia.
  - apply HandleVoteDenied_lease in Ex. rewrite Ex. split; [done|]. intros _ r [= <-]. congruence.
Qed.

Lemma CheckForDecision_lease e : election_lease (CheckForDecision e).1 = election_lease e.
Proof.
  unfold CheckForDecision, election_lease, newly_decided. destruct (negb (decided (result_ e)) && _); destruct (_ && _); done.
Qed.

(** An election never forgets a lease, and a vote that it counts has told it
    its lease. *)
Lemma run_step_lease release config cand ev r r' :
  config_ok config -> cand ∈ voters config -> run_ok (voters config) cand r -> run_step release ev r r' ->
  election_lease (election r) <= election_lease (election r') /\
  ∀ u resp, ev = Answer u (RpcResponse resp) -> preelection (result_ (election r)) = false -> has_error resp = false -> responder_uuid resp = u ->
    vote_granted resp = true -> votes_ (vote_counter_ (election r)) !! u ≠ Some kGranted -> votes_ (vote_counter_ (election r')) !! u = Some kGranted ->
    answer_lease resp <= Z.max 0 (election_lease (election r')).
Proof.
  intros Hc Hcand Hok Hstep. destruct Hstep as [e e' x E|e w rest fl n c Hd|e w rest fl n c Hd|e e' us l1 w l2 n c now rpc check E|e e' us fl n c x E]; cbn [election].
  - pose proof (CheckForDecision_lease e) as Hl. rewrite E in Hl. cbn in Hl. rewrite Hl. done.
  - done.
  - done.
  - destruct (HandleResponse_lease _ _ _ _ _ _ _ E) as [H1 H2]. split; [done|]. intros u resp [= -> ->] Hpre Herr Hresp Hg Hn Hv.
    apply H2; try done. unfold HandleResponse in E. destruct (has_responded_ e); [injection E as <- <-; congruence|].
    apply outcome_bind_Done in E as (_ & _ & E). by apply outcome_bind_Done in E as (? & _ & [= _ <-]).
  - pose proof (CheckForDecision_lease e) as Hl. rewrite E in Hl. cbn in Hl. rewrite Hl. done.
Qed.

(** *** The replica *)

Definition lease_of (s : RaftConsensus) : Z := expiration (old_leader_ht_lease_ s).

(** The lease of the old leader is not forgotten, the own lease is kept or
    given up, and the replica does not become leader. *)
Record lease_kept (s s' : RaftConsensus) : Prop := {
  lk_old : lease_of s <= lease_of s';
  lk_own : majority_replicated_ht_lease_expiration_ s' = majority_replicated_ht_lease_expiration_ s \/
    majority_replicated_ht_lease_expiration_ s' = kNoPhysicalLease;
  lk_role : GetActiveRoleUnlocked s' = LEADER -> GetActiveRoleUnlocked s = LEADER /\ GetCurrentTermUnlocked s' = GetCurrentTermUnlocked s
}.

#[export] Instance lease_kept_preorder : PreOrder lease_kept.
Proof.
  split; [intros s; by split; auto|]. intros s1 s2 s3 [? Ho Hr] [? Ho' Hr']. split; [lia|destruct Ho, Ho'; [left; congruence|right; congruence..]|].
  intros [[? ?]%Hr ?]%Hr'. split; [done|congruence].
Qed.

Lemma cleared_not_leader m : cm_peer_uuid m ≠ EmptyString -> active_role_ (set_leader_uuid EmptyString m) ≠ LEADER.
Proof.
  intros Hne. unfold set_leader_uuid, UpdateActiveRole, GetConsensusRole, leader_uuid_of. cbn. rewrite bool_decide_eq_false_2 by done.
  destruct (find_peer _ _) as [p|]; [|done]. unfold role_of_member. by destruct (member_type p).
Qed.

Section replica_leases.
Context (release : bool) (env : Env) (config : RaftConfigPB) (i : uuid) (Hi : i ≠ EmptyString).

Lemma SetCurrentTerm_lease t s s' r : node_ok config i s -> SetCurrentTermUnlocked release t s = Done (s', r) -> lease_kept s s'.
Proof using Hi.
  intros Hs E. unfold SetCurrentTermUnlocked in E. destruct (_ <=? _); [by injection E as <- <-|].
  apply outcome_bind_Done in E as (m & Em & E). apply outcome_bind_Done in E as (m' & Em' & [= <- _]). split; [done|by left|].
  intros Hrole. exfalso. revert Hrole. apply (cleared_not_leader m'). unfold set_current_term in Em. apply outcome_bind_Done in Em as (_ & _ & [= <-]).
  destruct (Flush _) as [m2|] eqn:Ef; [|done]. injection Em' as <-. apply Flush_Ok in Ef as (_ & _ & -> & _). cbn. by rewrite (nd_uuid _ _ _ Hs).
Qed.

Lemma SetVotedFor_lease u s s' r : SetVotedForCurrentTermUnlocked release u s = Done (s', r) -> lease_kept s s'.
Proof using.
  intros E. unfold SetVotedForCurrentTermUnlocked, set_voted_for in E. apply outcome_bind_Done in E as (m & Em & E).
  apply outcome_bind_Done in Em as (_ & _ & [= <-]). destruct (Flush _) as [m2|] eqn:Ef; [|done]. injection E as <- _.
  apply Flush_Ok in Ef as (_ & Ep & _ & _ & _ & Er). split; [done|by left|]. unfold GetActiveRoleUnlocked, GetCurrentTermUnlocked, current_term.
  cbn. rewrite Er, Ep. done.
Qed.

Lemma HandleTermAdvance_lease t s s' r : node_ok config i s -> HandleTermAdvanceUnlocked release env t s = Done (s', r) -> lease_kept s s'.
Proof using Hi.
  intros Hs E. unfold HandleTermAdvanceUnlocked in E. destruct (_ <=? _); [by injection E as <- <-|].
  case_bool_decide; [|by apply (SetCurrentTerm_lease t s s' r)].
  set (s1 := with_withhold_votes MonoTime.Min (ClearLeaderUnlocked s)). assert (lease_kept s s1) as H1.
  { split; [done|by left|]. intros Hrole. exfalso. revert Hrole. apply (cleared_not_leader (cmeta_ s)). by rewrite (nd_uuid _ _ _ Hs). }
  unfold BecomeReplicaUnlocked in E. fold s1 in E.
  assert (∀ r1, op_bind (Done (s1, r1)) (λ (_ : unit) s, SetCurrentTermUnlocked release t s) = Done (s', r) -> lease_kept s s') as H2.
  { intros [[]|c]; cbn [op_bind]; [|by intros [= <- _]]. intros E1. etrans; [exact H1|]. apply (SetCurrentTerm_lease t s1 s' r); [|done].
    apply (same_vote_ok config i s s1); done. }
  by eapply H2.
Qed.

Lemma RemainingOldLeaderLease_lease s : lease_kept s (RemainingOldLeaderLeaseDuration env s).1 /\
  old_leader_ht_lease_ (RemainingOldLeaderLeaseDuration env s).1 = old_leader_ht_lease_ s.
Proof using. unfold RemainingOldLeaderLeaseDuration. destruct (_ =? _); [done|]. destruct (_ <? _); [|done]. split; [|done]. split; auto. done. Qed.

(** A vote that is granted for the first time tells the lease. *)
Lemma vote_for_candidate_lease request s s' r :
  vote_for_candidate release env request s = Done (s', r) ->
  lease_kept s s' /\ ∀ resp, r = Ok resp -> vote_granted resp = true -> answer_lease resp = lease_of s'.
Proof using.
  intros E. unfold vote_for_candidate in E. destruct (OpIdLessThan _ _). { injection E as <- <-. split; [done|]. by intros resp [= <-]. }
  set (s1 := if request_preelection request then s else with_pending_election None s) in E.
  assert (lease_kept s s1) as H1. { unfold s1. destruct (request_preelection request); [done|]. split; auto. done. }
  destruct (RemainingOldLeaderLease_lease s1) as [H2 E2]. destruct (RemainingOldLeaderLeaseDuration env s1) as [s2 remaining]. cbn [fst] in *.
  assert (lease_kept s s2) as H by (by etrans).
  assert (∀ rr, with_leases release s2 remaining (FillVoteResponseVoteGranted s2 request) = Done rr -> answer_lease rr = lease_of s2) as Hwl.
  { intros rr Err. unfold with_leases in Err. apply outcome_bind_Done in Err as (x & _ & [= <-]). unfold answer_lease, lease_of. cbn.
    destruct (Z.eqb_spec (expiration (old_leader_ht_lease_ s2)) kNoPhysicalLease) as [->|]; done. }
  destruct (request_preelection request).
  - apply outcome_bind_Done in E as (rr & Err & [= <- <-]). split; [done|]. intros resp [= <-] _. by apply Hwl.
  - apply outcome_bind_Done in E as (rr & Err & E). destruct (SetVotedForCurrentTermUnlocked _ _ s2) as [[s3 r3]| |] eqn:Esv; [|done..].
    pose proof (SetVotedFor_lease _ _ _ _ Esv) as H3. assert (lease_of s3 = lease_of s2) as E3.
    { unfold SetVotedForCurrentTermUnlocked in Esv. apply outcome_bind_Done in Esv as (? & _ & Esv). apply outcome_bind_Done in Esv as (? & _ & [= <- _]). done. }
    assert (lease_kept s s3) as H' by (by etrans). destruct r3; cbn [op_bind] in E; injection E as <- <-; [|done].
    split; [done|]. intros resp [= <-] _. rewrite E3. by apply Hwl.
Qed.

Lemma RequestVote_lease request s s' r :
  node_ok config i s -> RequestVote release env request s = Done (s', r) ->
  lease_kept s s' /\
  ∀ resp, r = Ok resp -> vote_granted resp = true ->
    answer_lease resp = lease_of s' \/ (GetCurrentTermUnlocked s = candidate_term request /\ vote_of s = Some (candidate_uuid request)).
Proof using Hi.
  intros Hs E. assert (∀ code, Done (s, Ok (FillVoteResponseVoteDenied s request code)) = Done (s', r) -> lease_kept s s' /\
    ∀ resp, r = Ok resp -> vote_granted resp = true ->
      answer_lease resp = lease_of s' \/ (GetCurrentTermUnlocked s = candidate_term request /\ vote_of s = Some (candidate_uuid request))) as Hden.
  { intros code [= <- <-]. split; [done|]. by intros resp [= <-]. }
  unfold RequestVote in E. destruct (running s); cbn [negb] in E; [|by injection E as <- <-].
  destruct (_ && _); [by eapply Hden|]. apply outcome_bind_Done in E as (alive & _ & E). destruct alive; [by eapply Hden|].
  destruct (_ <? _); [by eapply Hden|].
  destruct ((candidate_term request =? GetCurrentTermUnlocked s) && HasVotedCurrentTermUnlocked s) eqn:Hvoted.
  - apply andb_true_iff in Hvoted as [Et%Z.eqb_eq Hv]. apply outcome_bind_Done in E as (v & Ev & E). case_bool_decide as Hc; [|by eapply Hden].
    injection E as <- <-. split; [done|]. intros resp [= <-] _. right. split; [done|]. unfold voted_for in Ev. apply outcome_bind_Done in Ev as (_ & _ & [= <-]).
    unfold HasVotedCurrentTermUnlocked, has_voted_for in Hv. apply bool_decide_eq_true in Hv as [c Ec]. unfold vote_of. rewrite Ec in *. cbn in Hc. congruence.
  - match type of E with op_bind ?m _ = _ => destruct m as [[s1 r1]| |] eqn:E1; [|done..] end.
    assert (lease_kept s s1) as H1.
    { destruct ((_ <? _) && _); [by eapply HandleTermAdvance_lease|by injection E1 as <- <-]. }
    destruct r1 as [[]|c]; cbn [op_bind] in E; [|by injection E as <- <-].
    destruct (vote_for_candidate_lease _ _ _ _ E) as [H2 Hr]. split; [by etrans|]. intros resp Er Hg. left. by apply Hr.
Qed.

Lemma DoStartElection_lease data preelected s s' r :
  node_ok config i s -> DoStartElection release env data preelected s = Done (s', r) -> lease_kept s s'.
Proof using Hi.
  intros Hs E. unfold DoStartElection in E. destruct (running s); cbn [negb] in E; [|by injection E as <- <-].
  assert (∀ pre s1 r1, CreateElectionUnlocked release env (elect_even_if_leader_is_alive data) pre s = Done (s1, r1) -> lease_kept s s1) as Hcr.
  { intros pre s1 r1 Ec. unfold CreateElectionUnlocked in Ec. match type of Ec with op_bind ?m _ = _ => destruct m as [[s2 r2]| |] eqn:E2; [|done..] end.
    assert (lease_kept s s2) as H2 by (destruct pre; [by injection E2 as <- <-|by eapply HandleTermAdvance_lease]).
    destruct r2 as [[]|]; cbn [op_bind] in Ec; [|by injection Ec as <- _]. apply outcome_bind_Done in Ec as (_ & _ & Ec).
    match type of Ec with op_bind ?m _ = _ => destruct m as [[s3 r3]| |] eqn:E3; [|done..] end.
    assert (lease_kept s s3) as H3. { etrans; [exact H2|]. destruct pre; [by injection E3 as <- _|by eapply SetVotedFor_lease]. }
    destruct r3 as [[]|]; cbn [op_bind] in Ec; [|by injection Ec as <- _]. apply outcome_bind_Done in Ec as ([c|c] & _ & Ec); [|by injection Ec as <- _].
    apply outcome_bind_Done in Ec as (e & _ & [= <- _]). etrans; [exact H3|]. destruct pre; [done|]. split; auto. done. }
  destruct (GetActiveRoleUnlocked s); try by injection E as <- <-.
  all: destruct (_ || _);
    [match type of E with op_bind ?m _ = _ => destruct m as [[s1 r1]| |] eqn:E1; [|done..] end;
     apply Hcr in E1; by destruct r1; cbn [op_bind] in E; injection E as <- _
    |injection E as <- _; destruct (must_be_committed_opid data); [|done]; split; auto; done].
Qed.

(** A replica that becomes leader knows the lease of its election. *)
Lemma DoElectionCallback_lease result s s' became again :
  node_ok config i s -> DoElectionCallback release env result s = Done (s', became, again) ->
  if became then lease_of s <= lease_of s' /\ expiration (old_leader_ht_lease result) <= lease_of s' /\
                 majority_replicated_ht_lease_expiration_ s' = kNoPhysicalLease
  else lease_kept s s'.
Proof using Hi.
  intros Hs E. unfold DoElectionCallback in E.
  set (s1 := if bool_decide (preelections_not_supported_by_uuid result = EmptyString) then s else _) in E.
  assert (lease_kept s s1 /\ same_vote s s1) as [H1 V1]. { unfold s1. destruct (bool_decide _); [done|]. split; [|done]. split; auto. done. }
  case_bool_decide.
  - set (s2 := with_failed_elections _ s1) in E. assert (lease_kept s s2) as H2 by (etrans; [exact H1|]; split; auto; done).
    destruct (higher_term result) as [t|]; [|by injection E as <- <- _]. destruct (running s2); [|by injection E as <- <- _].
    apply outcome_bind_Done in E as ([s3 r3] & Eh & [= <- <- _]). etrans; [exact H2|].
    apply (HandleTermAdvance_lease t s2 s3 r3); [|done]. by apply (same_vote_ok config i s s2).
  - destruct (negb (running s1)); [by injection E as <- <- _|]. destruct (negb (_ =? _)); [by injection E as <- <- _|].
    destruct (negb (IsRaftConfigVoter _ _)); [by injection E as <- <- _|]. destruct (preelection result); [by injection E as <- <- _|].
    case_bool_decide. { apply outcome_bind_Done in E as (_ & _ & E). by injection E as <- <- _. }
    apply outcome_bind_Done in E as ([s3 r3] & Eb & E). apply outcome_bind_Done in E as (_ & _ & [= <- <- _]).
    injection Eb as <- _. destruct (TryUpdate_ge (old_leader_ht_lease result) (old_leader_ht_lease_ s1)) as [H3 H4].
    unfold lease_of in *. cbn. pose proof (lk_old _ _ H1). unfold lease_of in *. split; [lia|]. done.
Qed.

Lemma CheckLeaderRequest_lease log request s s' r :
  node_ok config i s -> CheckLeaderRequestUnlocked release env log request s = Done (s', r) ->
  node_ok config i s' /\ votes_kept s s' /\ lease_of s <= lease_of s' /\
  (majority_replicated_ht_lease_expiration_ s' = majority_replicated_ht_lease_expiration_ s \/
   majority_replicated_ht_lease_expiration_ s' = kNoPhysicalLease) /\
  (caller_uuid request ≠ i -> lease_kept s s') /\ (r = Ok false -> GetCurrentTermUnlocked s' = caller_term request).
Proof using Hi.
  intros Hs E. unfold CheckLeaderRequestUnlocked in E.
  assert (∀ x b, node_ok config i x -> votes_kept s x -> lease_kept s x -> Done (x, b) = Done (s', r) -> b ≠ Ok false ->
    node_ok config i s' /\ votes_kept s s' /\ lease_of s <= lease_of s' /\
    (majority_replicated_ht_lease_expiration_ s' = majority_replicated_ht_lease_expiration_ s \/
     majority_replicated_ht_lease_expiration_ s' = kNoPhysicalLease) /\
    (caller_uuid request ≠ i -> lease_kept s s') /\ (r = Ok false -> GetCurrentTermUnlocked s' = caller_term request)) as Hno.
  { intros x b Hx Hk Hl [= <- <-] Hb. split; [done|]. split; [done|]. destruct Hl. done. }
  destruct (CheckLeaderRequestOpIdSequence log) as [[]|c]; cbn [op_bind] in E; [|by eapply Hno].
  destruct (HandleLeaderRequestTermUnlocked release env request s) as [[s1 r1]| |] eqn:E1; [|done..].
  assert (node_ok config i s1 /\ votes_kept s s1 /\ lease_kept s s1 /\ (r1 = Ok false -> GetCurrentTermUnlocked s1 = caller_term request))
    as (Hs1 & Hk1 & Hl1 & Ht1).
  { unfold HandleLeaderRequestTermUnlocked in E1. destruct (Z.eqb_spec (caller_term request) (GetCurrentTermUnlocked s)); cbn [negb] in E1; [by injection E1 as <- <-|].
    destruct (_ <? _); [by injection E1 as <- <-|].
    destruct (HandleTermAdvanceUnlocked release env (caller_term request) s) as [[s2 r2]| |] eqn:E2; [|done..].
    destruct (HandleTermAdvance_ok release env config i _ _ _ _ Hs E2) as (? & ? & Hr2). pose proof (HandleTermAdvance_lease _ _ _ _ Hs E2).
    destruct r2 as [[]|]; cbn [op_bind] in E1; injection E1 as <- <-; [|done]. destruct (Hr2 eq_refl) as (_ & ? & _). done. }
  destruct r1 as [[]|c]; cbn [op_bind] in E; [by eapply Hno| |by eapply Hno].
  destruct (EnforceLogMatchingPropertyMatchesUnlocked log) as [[]|c]; cbn [op_bind negb] in E; [|by eapply Hno..].
  destruct (check_pending log) as [[]|c]; cbn [op_bind] in E; [|by eapply Hno]. destruct (_ && _); [done|]. injection E as <- <-.
  set (s2 := if HasLeaderUnlocked s1 then s1 else _). assert (same_vote s1 s2) as V2 by (unfold s2; by destruct (HasLeaderUnlocked s1)).
  destruct (same_vote_ok config i s1 s2 V2 Hs1) as (Hs2 & Hk2 & _ & Et2). split; [done|]. split; [by etrans|].
  assert (lease_of s2 = lease_of s1 /\ majority_replicated_ht_lease_expiration_ s2 = majority_replicated_ht_lease_expiration_ s1) as [-> ->]
    by (unfold s2; by destruct (HasLeaderUnlocked s1)).
  split; [apply Hl1|]. split; [apply Hl1|]. split; [|intros _; rewrite Et2; by apply Ht1].
  intros Hne. etrans; [exact Hl1|]. unfold s2. destruct (HasLeaderUnlocked s1); [done|]. split; [done|by left|]. intros Hrole. exfalso. revert Hrole.
  unfold GetActiveRoleUnlocked. cbn. unfold GetConsensusRole, leader_uuid_of. cbn. rewrite (nd_uuid _ _ _ Hs1), bool_decide_eq_false_2 by done.
  destruct (find_peer _ _) as [p|]; [|done]. unfold role_of_member. by destruct (member_type p).
Qed.

(** An accepted request is one of the current term, and its lease is known. *)
Lemma UpdateReplica_lease timeout log request s s' r :
  node_ok config i s -> UpdateReplica release env timeout log request s = Done (s', r) ->
  node_ok config i s' /\ votes_kept s s' /\ lease_of s <= lease_of s' /\
  (majority_replicated_ht_lease_expiration_ s' = majority_replicated_ht_lease_expiration_ s \/
   majority_replicated_ht_lease_expiration_ s' = kNoPhysicalLease) /\
  (caller_uuid request ≠ i -> lease_kept s s') /\
  (r = Ok true -> GetCurrentTermUnlocked s' = caller_term request /\
     (is_Some (leader_lease_duration_ms request) -> ht_lease_expiration_of_request request <= lease_of s')).
Proof using Hi.
  intros Hs E. unfold UpdateReplica in E. destruct (running s); cbn [negb] in E; [|injection E as <- <-; repeat (split; [done || by left|]); done].
  destruct (CheckLeaderRequestUnlocked release env log request s) as [[s1 r1]| |] eqn:E1; [|done..].
  destruct (CheckLeaderRequest_lease log request s s1 r1 Hs E1) as (Hs1 & Hk1 & Ho1 & Hw1 & Hkept1 & Hterm1).
  destruct r1 as [[]|c]; cbn [op_bind] in E; [by injection E as <- <-| |by injection E as <- <-].
  apply outcome_bind_Done in E as (s4 & E4 & [= <- <-]). unfold accept_request in E4.
  set (s2 := match leader_lease_duration_ms request with Some ms => _ | None => _ end) in E4.
  apply outcome_bind_Done in E4 as (w & _ & [= <-]). set (s3 := with_withhold_votes w s2).
  assert (same_vote s1 s3) as V3 by (unfold s3, s2; by destruct (leader_lease_duration_ms request)).
  destruct (same_vote_ok config i s1 s3 V3 Hs1) as (Hs3 & Hk3 & _ & Et3).
  assert (lease_kept s1 s3 /\ (is_Some (leader_lease_duration_ms request) -> ht_lease_expiration_of_request request <= lease_of s3)) as [H3 Hl3].
  { unfold s3, s2. destruct (leader_lease_duration_ms request) as [ms|].
    - destruct (TryUpdate_ge (mkLeaseData (caller_uuid request) (ht_lease_expiration_of_request request)) (old_leader_ht_lease_ s1)) as [? ?].
      split; [split; [done|by right|done]|]. done.
    - split; [split; [done|by left|done]|]. by intros []. }
  split; [done|]. split; [by etrans|]. split; [pose proof (lk_old _ _ H3); lia|].
  split; [destruct (lk_own _ _ H3) as [->| ->]; auto|]. split; [intros Hne; etrans; [by apply Hkept1|done]|].
  intros _. split; [|done]. rewrite Et3. by apply Hterm1.
Qed.

End replica_leases.

(** Whether the hybrid time lease of the old leader is to be revoked: its holder
    has accepted the lease of this leader. *)
Definition revokes_ht_lease (enable_lease_revocation : bool) (q : PeerMessageQueue) (s : RaftConsensus) : bool :=
  enable_lease_revocation && negb (bool_decide (holder_uuid (old_leader_ht_lease_ s) = EmptyString))
    && PeerAcceptedOurLease (holder_uuid (old_leader_ht_lease_ s)) q.

Lemma UpdateMajorityReplicated_lease release env revocation no_op q d s s' :
  revokes_ht_lease revocation q s = false -> UpdateMajorityReplicated release env revocation no_op q d s = Done s' ->
  same_vote s s' /\ old_leader_ht_lease_ s' = old_leader_ht_lease_ s /\ GetActiveRoleUnlocked s' = GetActiveRoleUnlocked s /\
  (majority_replicated_ht_lease_expiration_ s' = majority_replicated_ht_lease_expiration_ s \/
   majority_replicated_ht_lease_expiration_ s' = ht_lease_expiration d).
Proof.
  intros Hno E. unfold UpdateMajorityReplicated in E. destruct (_ || _); [injection E as <-; split; [done|]; auto|].
  unfold revokes_ht_lease in Hno. rewrite Hno in E. clear Hno.
  generalize dependent (revocation && negb (bool_decide (holder_uuid (old_leader_lease_ s) = EmptyString)) && PeerAcceptedOurLease (holder_uuid (old_leader_lease_ s)) q).
  intros coarse E. unfold SetMajorityReplicatedLeaseExpirationUnlocked in E. set (s1 := with_old_leases _ _ _) in E.
  apply outcome_bind_Done in E as ([s2 st] & E2 & [= <-]). unfold GetLeaderStateUnlocked in E2.
  destruct (negb _); [injection E2 as <- _; repeat (split; [done|]); by right|]. destruct (negb no_op); [injection E2 as <- _; repeat (split; [done|]); by right|].
  apply outcome_bind_Done in E2 as ([[s3 ls] rem] & E3 & [= <- _]). unfold GetLeaderLeaseStatusUnlocked in E3.
  assert (∀ x y, (if negb (bool_decide (length (peers (GetActiveConfigUnlocked s1)) = 1%nat)) then RemainingOldLeaderLeaseDuration env s1
     else (s1, MonoDelta.kUninitialized)) = (x, y) ->
     same_vote s x /\ old_leader_ht_lease_ x = old_leader_ht_lease_ s /\ GetActiveRoleUnlocked x = GetActiveRoleUnlocked s /\
     (majority_replicated_ht_lease_expiration_ x = majority_replicated_ht_lease_expiration_ s \/
      majority_replicated_ht_lease_expiration_ x = ht_lease_expiration d)) as H.
  { intros x y Exy. destruct (negb _); [|injection Exy as <- _; repeat (split; [done|]); by right]. unfold RemainingOldLeaderLeaseDuration in Exy.
    destruct (_ =? _); [injection Exy as <- _; repeat (split; [done|]); by right|].
    destruct (_ <? _); injection Exy as <- _; repeat (split; [done|]); by right. }
  match type of E3 with (let '(_, _) := ?m in _) = _ => destruct m as [x y] end. specialize (H x y eq_refl).
  apply outcome_bind_Done in E3 as (l & _ & [= <- _ _]). done.
Qed.

(** *** The queue *)

Abbreviation received := last_ht_lease_expiration_received_by_follower.
Abbreviation sent := last_ht_lease_expiration_sent_to_follower.

(** The leases of a peer after an answer: a success is taken as the acceptance
    of the last lease that was sent. *)
Definition lease_taken (u : uuid) (response : ConsensusResponsePB) (q : PeerMessageQueue) (w : uuid) (p' : TrackedPeer) : Prop :=
  ∃ p, peers_map_ q !! w = Some p /\
    (received p' = received p \/ (w = u /\ status_error response = None /\ response_error_is_tablet_not_found response = None /\ received p' = sent p)).

Lemma ResponseFromPeer_received release env u response q q' more notes w p' :
  ResponseFromPeer release env u response q = Done (q', more, notes) -> peers_map_ q' !! w = Some p' ->
  lease_taken u response q w p'.
Proof.
  intros E Hw. unfold ResponseFromPeer in E. apply outcome_bind_Done in E as (_ & _ & E).
  assert (∀ x, q' = x -> x = q -> lease_taken u response q w p') as Hsame.
  { intros x -> ->. exists p'. split; [done|left; reflexivity]. }
  assert (∀ p p1, peers_map_ q !! u = Some p -> received p1 = received p -> peers_map_ q' = <[u := p1]> (peers_map_ q) ->
    lease_taken u response q w p') as Hone.
  { intros p p1 Hp Hr Ex. rewrite Ex in Hw. destruct (decide (w = u)) as [->|Hne].
    - rewrite lookup_insert_eq in Hw. injection Hw as <-. exists p. split; [done|by left].
    - rewrite lookup_insert_ne in Hw by done. exists p'. split; [done|by left]. }
  case_bool_decide; [|injection E as <- _ _; by eapply Hsame]. destruct (peers_map_ q !! u) as [p|] eqn:Ep; [|injection E as <- _ _; by eapply Hsame].
  destruct (response_error_is_tablet_not_found response) eqn:Enf.
  { apply outcome_bind_Done in E as (_ & _ & [= <- _ _]). by apply (Hone p (needing_bootstrap (q_now env) p)). }
  apply outcome_bind_Done in E as (type & _ & E). apply outcome_bind_Done in E as (p1 & Ep1 & E).
  assert (received p1 = received p /\ sent p1 = sent p) as [Er1 Es1].
  { unfold peer_status in Ep1. apply outcome_bind_Done in Ep1 as (b & _ & Ep1). by apply outcome_bind_Done in Ep1 as ([r n] & _ & [= <-]). }
  destruct (status_error response) as [[]|] eqn:Es.
  { injection E as <- _ _. by apply (Hone p (with_exchange false p1)). }
  { destruct (response_responder_term response); [|done]. injection E as <- _ _. by apply (Hone p (with_exchange false p1)). }
  { done. }
  apply outcome_bind_Done in E as (p2 & Ep2 & E). assert (received p2 = received p /\ sent p2 = sent p) as [Er2 Es2].
  { destruct (response_responder_term response); [|by injection Ep2 as <-]. apply outcome_bind_Done in Ep2 as (_ & _ & Ep2).
    by apply outcome_bind_Done in Ep2 as (_ & _ & [= <-]). }
  apply outcome_bind_Done in E as ([q3 notes3] & E3 & E). apply outcome_bind_Done in E as (q4 & E4 & [= <- _ _]).
  apply UpdateAllReplicatedOpId_shape in E4 as (_ & E4 & _). rewrite E4 in Hw.
  assert (∃ p3, peers_map_ q3 = <[u := p3]> (peers_map_ q) /\ (received p3 = received p \/ received p3 = sent p)) as (p3 & E3' & Hr3).
  { destruct (mode _); [|injection E3 as <- _; exists p2; split; [done|by left]]. apply outcome_bind_Done in E3 as ([q5 d] & E5 & [= <- _]).
    unfold update_majority_replicated in E5. apply outcome_bind_Done in E5 as (nm & _ & E5). apply outcome_bind_Done in E5 as (q6 & E6 & E5).
    apply outcome_bind_Done in E5 as (? & _ & E5). apply outcome_bind_Done in E5 as (? & _ & [= <- _]).
    assert (peers_map_ q6 = <[u := p2]> (peers_map_ q)) as E6'.
    { destruct (OpIdEquals _ _); [by injection E6 as <-|]. destruct (_ =? _); [|by injection E6 as <-]. case_match; [|done]. by injection E6 as <-. }
    exists (leases_received p2). cbn. rewrite E6', insert_insert_eq. split; [done|]. right. done. }
  rewrite E3' in Hw. destruct (decide (w = u)) as [->|Hne].
  - rewrite lookup_insert_eq in Hw. injection Hw as <-. exists p. split; [done|]. destruct Hr3; [by left|by right].
  - rewrite lookup_insert_ne in Hw by done. exists p'. split; [done|by left].
Qed.

(** ** All replicas

    The replicas and their elections; the queue of each leader in the term it
    leads; and two histories: the leases that replicas have accepted (the
    leader, its term, the replica and the end of the lease), and what the queues
    have told of majorities. *)
Record lease_system : Type := mkLeaseSystem {
  raft : system;
  queues : gmap (uuid * Z) PeerMessageQueue;
  accepted : list (uuid * Z * uuid * Z);
  told : list (uuid * Z * MajorityReplicatedData)
}.

Definition with_node (u : uuid) (s : RaftConsensus) (b : system) : system :=
  mkSystem (<[u := s]> (nodes b)) (elections b) (requests b) (answers b) (cast b) (leaders b).

(** A candidate asks each voter once in a term, and the transport does not
    repeat its request: a vote is not granted again. *)
Definition asked_once (b b' : system) : Prop :=
  ∀ n u resp request s, answers b' = answers b ++ [(n, u, resp)] -> requests b !! n = Some request -> nodes b !! u = Some s ->
    ¬ (GetCurrentTermUnlocked s = candidate_term request /\ vote_of s = Some (candidate_uuid request)).

(** Leases are in memory only: a replica that starts again is one that waited
    for those it knew to run out, as if it had kept them. *)
Definition leases_remain (b b' : system) : Prop :=
  ∀ i s s', nodes b !! i = Some s -> nodes b' !! i = Some s' -> lease_kept s s'.

(** A success answers the last request, whose lease, if it had one, was
    accepted. *)
Definition answers_last (A : list (uuid * Z * uuid * Z)) (L : uuid) (T : Z) (u : uuid) (response : ConsensusResponsePB)
    (q : PeerMessageQueue) : Prop :=
  status_error response = None -> response_error_is_tablet_not_found response = None -> u ≠ L ->
  ∀ p, peers_map_ q !! u = Some p -> sent p = kMinHtMicros \/ (L, T, u, sent p) ∈ A.

(** Other operations of the queue leave the leases, or drop them. *)
Definition leases_untouched (q q' : PeerMessageQueue) : Prop :=
  queue_active_config (queue_state_ q') = queue_active_config (queue_state_ q) /\ local_peer_uuid_ q' = local_peer_uuid_ q /\
  ∀ w p', peers_map_ q' !! w = Some p' -> received p' = kMinHtMicros \/ ∃ p, peers_map_ q !! w = Some p /\ received p' = received p.

Definition told_by (L : uuid) (T : Z) (notes : list queue_notification) : list (uuid * Z * MajorityReplicatedData) :=
  omap (λ n, match n with MajorityReplOpChange d => Some (L, T, d) | TermChange _ => None end) notes.

Definition accepted_by (u : uuid) (request : ConsensusRequestPB) (r : Result bool) : list (uuid * Z * uuid * Z) :=
  match r, leader_lease_duration_ms request with
  | Ok true, Some _ => [(caller_uuid request, caller_term request, u, ht_lease_expiration_of_request request)]
  | _, _ => []
  end.

(** Revocation may be enabled, and then leases of the coarse clock are revoked;
    hybrid time leases of old leaders are not, see [lease_revoked_early]. *)
Inductive lease_step (release revocation : bool) (config : RaftConfigPB) : lease_system -> lease_system -> Prop :=
| lease_code b b' K A D :
    code_step release b b' -> asked_once b b' -> lease_step release revocation config (mkLeaseSystem b K A D) (mkLeaseSystem b' K A D)
| lease_free b b' K A D :
    free_step b b' -> leases_remain b b' -> lease_step release revocation config (mkLeaseSystem b K A D) (mkLeaseSystem b' K A D)
| lease_update b K A D env timeout log request u s s' r :
    nodes b !! u = Some s -> caller_uuid request ≠ u -> UpdateReplica release env timeout log request s = Done (s', r) ->
    lease_step release revocation config (mkLeaseSystem b K A D) (mkLeaseSystem (with_node u s' b) K (A ++ accepted_by u request r) D)
| lease_leader b K A D L T now committed q q' :
    (T, L) ∈ leaders b -> rtc (queue_step release) (new_queue L) q -> local_peer_uuid_ q = L -> SetLeaderMode release now committed T config q = Done q' ->
    lease_step release revocation config (mkLeaseSystem b K A D) (mkLeaseSystem b (<[(L, T) := q']> K) A D)
| lease_send b K A D L T env u q q' request :
    K !! (L, T) = Some q -> RequestForPeer release env u q = Done (Ok (q', request)) ->
    lease_step release revocation config (mkLeaseSystem b K A D) (mkLeaseSystem b (<[(L, T) := q']> K) A D)
| lease_respond b K A D L T env u response q q' more notes :
    K !! (L, T) = Some q -> answers_last A L T u response q -> ResponseFromPeer release env u response q = Done (q', more, notes) ->
    lease_step release revocation config (mkLeaseSystem b K A D) (mkLeaseSystem b (<[(L, T) := q']> K) A (D ++ told_by L T notes))
| lease_local b K A D L T env id status q q' more notes :
    K !! (L, T) = Some q -> LocalPeerAppendFinished release env id status q = Done (q', more, notes) ->
    lease_step release revocation config (mkLeaseSystem b K A D) (mkLeaseSystem b (<[(L, T) := q']> K) A (D ++ told_by L T notes))
| lease_queue b K A D L T q q' :
    K !! (L, T) = Some q -> queue_step release q q' -> leases_untouched q q' ->
    lease_step release revocation config (mkLeaseSystem b K A D) (mkLeaseSystem b (<[(L, T) := q']> K) A D)
| lease_majority b K A D L T d env no_op q s s' :
    (L, T, d) ∈ D -> nodes b !! L = Some s -> K !! (L, GetCurrentTermUnlocked s) = Some q -> revokes_ht_lease revocation q s = false ->
    UpdateMajorityReplicated release env revocation no_op q d s = Done s' ->
    lease_step release revocation config (mkLeaseSystem b K A D) (mkLeaseSystem (with_node L s' b) K A D).

(** Replicas that have just been started, without leases. *)
Definition lease_initial (config : RaftConfigPB) (ls : lease_system) : Prop :=
  initial config (raft ls) /\ queues ls = ∅ /\ accepted ls = [] /\ told ls = [] /\
  ∀ i s, nodes (raft ls) !! i = Some s -> i ≠ EmptyString /\ majority_replicated_ht_lease_expiration_ s = kNoPhysicalLease.

(** *** The invariant *)

Section lease_safety.
Context (release : bool) (config : RaftConfigPB) (Hc : config_ok config) (Hverify : VerifyRaftConfig config COMMITTED_QUORUM = Ok tt).

(** Leases of earlier terms that the voter has accepted end by [e]. *)
Definition sealed (A : list (uuid * Z * uuid * Z)) (u : uuid) (T e : Z) : Prop :=
  ∀ L T0 x, (L, T0, u, x) ∈ A -> T0 < T -> x <= Z.max 0 e.

(** A majority has accepted a lease of the leader up to [w]. *)
Definition backed (A : list (uuid * Z * uuid * Z)) (L : uuid) (T w : Z) : Prop :=
  w <= 0 \/ ∃ T0 m Q, T0 <= T /\ MajoritySize release (CountVoters config) = Done m /\ quorum config m Q /\
    ∀ u, u ∈ Q -> u ≠ L -> ∃ x, (L, T0, u, x) ∈ A /\ w <= x.

Record node_lease (A : list (uuid * Z * uuid * Z)) (Ls : list (Z * uuid)) (i : uuid) (s : RaftConsensus) : Prop := {
  nl_uuid : i ≠ EmptyString;
  nl_role : GetActiveRoleUnlocked s = LEADER -> (GetCurrentTermUnlocked s, i) ∈ Ls;
  nl_own : backed A i (GetCurrentTermUnlocked s) (majority_replicated_ht_lease_expiration_ s);
  nl_accepted : ∀ L T x, (L, T, i, x) ∈ A -> T <= GetCurrentTermUnlocked s /\ x <= lease_of s;
  nl_terms : ∀ T, (T, i) ∈ Ls -> T <= GetCurrentTermUnlocked s
}.

(** The votes of a leader came with the leases that the voters knew of. *)
Definition leader_lease (A : list (uuid * Z * uuid * Z)) (C : list (uuid * Z * uuid)) (N : gmap uuid RaftConsensus) (T : Z) (i : uuid) : Prop :=
  i ∈ voters config /\ ∃ m Q, MajoritySize release (CountVoters config) = Done m /\ quorum config m Q /\
    ∀ u, u ∈ Q -> (u, T, i) ∈ C /\ ∀ s, N !! i = Some s -> sealed A u T (lease_of s).

Record queue_lease (A : list (uuid * Z * uuid * Z)) (L : uuid) (T : Z) (q : PeerMessageQueue) : Prop := {
  ql_ok : queue_ok release q;
  ql_config : queue_active_config (queue_state_ q) = Some config;
  ql_local : local_peer_uuid_ q = L;
  ql_received : ∀ u p, peers_map_ q !! u = Some p -> u ≠ L -> received p = kMinHtMicros \/ (L, T, u, received p) ∈ A
}.

Record lease_inv (ls : lease_system) : Prop := {
  lo_nodes : ∀ i s, nodes (raft ls) !! i = Some s -> node_lease (accepted ls) (leaders (raft ls)) i s;
  lo_answers : ∀ n u resp request, (n, u, resp) ∈ answers (raft ls) -> requests (raft ls) !! n = Some request ->
    request_preelection request = false -> has_error resp = false -> vote_granted resp = true ->
    sealed (accepted ls) u (candidate_term request) (answer_lease resp);
  lo_elections : ∀ n r request u, elections (raft ls) !! n = Some r -> requests (raft ls) !! n = Some request ->
    request_preelection request = false -> votes_ (vote_counter_ (election r)) !! u = Some kGranted -> u ≠ candidate_uuid request ->
    sealed (accepted ls) u (candidate_term request) (election_lease (election r));
  lo_leaders : ∀ T i, (T, i) ∈ leaders (raft ls) -> leader_lease (accepted ls) (cast (raft ls)) (nodes (raft ls)) T i;
  lo_queues : ∀ L T q, queues ls !! (L, T) = Some q -> (T, L) ∈ leaders (raft ls) /\ queue_lease (accepted ls) L T q;
  lo_told : ∀ L T d, (L, T, d) ∈ told ls -> (T, L) ∈ leaders (raft ls) /\ backed (accepted ls) L T (ht_lease_expiration d)
}.

Definition lease_ok (ls : lease_system) : Prop := system_ok release config (raft ls) /\ lease_inv ls.

Lemma sealed_le A u T e e' : sealed A u T e -> e <= e' -> sealed A u T e'.
Proof using. intros Hs He L T0 x Hin Ht. specialize (Hs L T0 x Hin Ht). lia. Qed.

Lemma backed_mono A A' L T T' w : backed A L T w -> T <= T' -> (∀ v, v ∈ A -> v ∈ A') -> backed A' L T' w.
Proof using.
  intros [?|(T0 & m & Q & ? & ? & ? & HQ)] Ht Hsub; [by left|right]. exists T0, m, Q. split; [lia|]. split; [done|]. split; [done|].
  intros u Hu Hne. destruct (HQ u Hu Hne) as (x & ? & ?). exists x. auto.
Qed.

Lemma node_lease_kept A Ls i s s' :
  node_lease A Ls i s -> lease_kept s s' -> GetCurrentTermUnlocked s <= GetCurrentTermUnlocked s' -> node_lease A Ls i s'.
Proof using.
  intros [Hu Hr Hw Ha Ht] [Ho Hown Hrole] Hterm. split; [done| | | |].
  - intros [HL ->]%Hrole. auto.
  - destruct Hown as [->| ->]; [by apply (backed_mono A A i (GetCurrentTermUnlocked s))|by left].
  - intros L T x [? ?]%Ha. lia.
  - intros T ?%Ht. lia.
Qed.

Lemma leader_lease_kept A C C' N T i j s s' :
  leader_lease A C N T j -> N !! i = Some s -> lease_of s <= lease_of s' -> (∀ v, v ∈ C -> v ∈ C') -> leader_lease A C' (<[i := s']> N) T j.
Proof using.
  intros (Hv & m & Q & Em & HQ & HQs) Hi Hle Hsub. split; [done|]. exists m, Q. split; [done|]. split; [done|]. intros u Hu.
  destruct (HQs u Hu) as [Hcast Hseal]. split; [auto|]. intros x Hx. destruct (decide (i = j)) as [->|Hne].
  - rewrite lookup_insert_eq in Hx. injection Hx as <-. by apply (sealed_le _ _ _ (lease_of s)); [apply Hseal|].
  - rewrite lookup_insert_ne in Hx by done. by apply Hseal.
Qed.

(** A replica changes, and nothing else that matters here. *)
Lemma node_change N E R Ans C C' Ls K A D i s s' :
  lease_ok (mkLeaseSystem (mkSystem N E R Ans C Ls) K A D) -> N !! i = Some s -> lease_kept s s' -> votes_kept s s' ->
  (∀ v, v ∈ C -> v ∈ C') -> lease_inv (mkLeaseSystem (mkSystem (<[i := s']> N) E R Ans C' Ls) K A D).
Proof using.
  intros [_ [HN HA HE HL HK HD]] Hi Hk [Hterm _] Hsub. cbn in *. split; cbn; try done.
  - intros j x Hj. destruct (decide (i = j)) as [->|Hne]; [|rewrite lookup_insert_ne in Hj by done; by apply HN].
    rewrite lookup_insert_eq in Hj. injection Hj as <-. by apply (node_lease_kept _ _ _ s); [apply HN|..].
  - intros T j Hin. apply (leader_lease_kept A C C' N T i j s s'); [by apply HL|done|apply Hk|done].
Qed.

(** An election goes on. *)
Lemma election_change N E R Ans C Ls K A D n r r' ev :
  lease_ok (mkLeaseSystem (mkSystem N E R Ans C Ls) K A D) -> E !! n = Some r -> run_step release ev r r' ->
  (∀ u rpc, ev = Answer u rpc -> may_arrive (mkSystem N E R Ans C Ls) n u rpc) ->
  lease_inv (mkLeaseSystem (mkSystem N (<[n := r']> E) R Ans C Ls) K A D).
Proof using Hc Hverify.
  intros [Hraft [HN HA HE HL HK HD]] Hn Hstep Harr. cbn in *. split; cbn; try done.
  intros k x request u Hk HR Hpre Hg Hne. destruct (decide (n = k)) as [->|Hnk]; [|rewrite lookup_insert_ne in Hk by done; by eapply HE].
  rewrite lookup_insert_eq in Hk. injection Hk as <-. destruct (sy_elections _ _ _ Hraft k r Hn) as (request' & HR' & [Ereq Hv Hrun Epre _ _]).
  cbn in HR'. rewrite HR in HR'. injection HR' as <-. pose proof (voters_NoDup config Hc) as HV.
  destruct (run_step_lease release config _ ev r r' Hc Hv Hrun Hstep) as [Hle Hnew].
  destruct (decide (votes_ (vote_counter_ (election r)) !! u = Some kGranted)) as [Hold|Hold]; [apply (sealed_le _ _ _ (election_lease (election r))); [by eapply HE|done]|].
  destruct (run_step_votes release _ _ HV Hv ev r r' u Hrun Hstep Hg) as [?|(resp & -> & Hgr & Hresp & Herr)]; [done|].
  destruct (Harr u _ eq_refl) as [Hin|]; [|congruence]. pose proof (HA k u resp request Hin HR Hpre Herr Hgr) as Hs.
  specialize (Hnew u resp eq_refl ltac:(congruence) Herr Hresp Hgr Hold Hg). intros L T0 y Hy Ht. specialize (Hs L T0 y Hy Ht). lia.
Qed.

(** A replica starts an election, or answers a request. *)
Lemma start_lease N E R Ans C Ls K A D i n s s' e :
  lease_ok (mkLeaseSystem (mkSystem N E R Ans C Ls) K A D) -> N !! i = Some s -> R !! n = None -> lease_kept s s' -> votes_kept s s' ->
  (∃ pre, new_election_ok release config i pre e) ->
  lease_inv (mkLeaseSystem (mkSystem (<[i := s']> N) (<[n := run_of e]> E) (<[n := request_ e]> R) Ans (C ++ cast_by_start i e) Ls) K A D).
Proof using Hc Hverify.
  intros Hl Hi Hn Hk Hv [pre He]. pose proof Hl as [Hraft _].
  destruct (node_change N E R Ans C (C ++ cast_by_start i e) Ls K A D i s s' Hl Hi Hk Hv ltac:(set_solver)) as [HN HA HE HL HK HD]. cbn in *. split; cbn; try done.
  - intros k u resp request Hin HR Hpre Herr Hg. destruct (sy_answers _ _ _ Hraft k u resp Hin Herr Hg) as (request' & HR' & _). cbn in HR'.
    rewrite lookup_insert_ne in HR by congruence. by eapply HA.
  - intros k r request u Hr HR Hpre Hg Hne. destruct (decide (n = k)) as [->|Hnk].
    + rewrite lookup_insert_eq in Hr. rewrite lookup_insert_eq in HR. injection Hr as <-. injection HR as <-. cbn in Hg.
      rewrite (ne_votes _ _ _ _ _ He), <- (ne_candidate _ _ _ _ _ He) in Hg. apply lookup_singleton_Some in Hg as [Hg _]. congruence.
    + rewrite lookup_insert_ne in Hr by done. rewrite lookup_insert_ne in HR by done. by eapply HE.
Qed.

Lemma vote_lease N E R Ans C Ls K A D n request u s s' resp env :
  lease_ok (mkLeaseSystem (mkSystem N E R Ans C Ls) K A D) -> N !! u = Some s -> R !! n = Some request ->
  RequestVote release env request s = Done (s', Ok resp) -> votes_kept s s' ->
  ¬ (GetCurrentTermUnlocked s = candidate_term request /\ vote_of s = Some (candidate_uuid request)) ->
  lease_inv (mkLeaseSystem (mkSystem (<[u := s']> N) E R (Ans ++ [(n, u, resp)]) (C ++ cast_by_answer u request resp) Ls) K A D).
Proof using Hc Hverify.
  intros Hl Hu HR Ev Hv Honce. pose proof Hl as [Hraft Hinv]. pose proof (lo_nodes _ Hinv u s Hu) as Hn. cbn in Hn.
  destruct (RequestVote_lease release env config u (nl_uuid _ _ _ _ Hn) request s s' _ (proj1 (proj1 (sy_nodes _ _ _ Hraft) u s Hu)) Ev) as [Hk Hr].
  destruct (node_change N E R Ans C (C ++ cast_by_answer u request resp) Ls K A D u s s' Hl Hu Hk Hv ltac:(set_solver)) as [HN HA HE HL HK HD]. cbn in *. split; cbn; try done.
  intros k w x request' [Hin|[= -> -> ->]%list_elem_of_singleton]%elem_of_app HR' Hpre Herr Hg; [by eapply HA|].
  destruct (Hr resp eq_refl Hg) as [->|?]; [|done]. intros L T0 y Hy _.
  specialize (HN u s'). rewrite lookup_insert_eq in HN. destruct (nl_accepted _ _ _ _ (HN eq_refl) L T0 y Hy). lia.
Qed.

(** The callback of an election that is won. *)
Lemma won_lease N E R Ans C Ls K A D n r result s s' :
  lease_ok (mkLeaseSystem (mkSystem N E R Ans C Ls) K A D) -> E !! n = Some r -> result ∈ calls r ->
  N !! candidate_uuid (request_ (election r)) = Some s -> decision result ≠ kDenied -> preelection result = false ->
  lease_of s <= lease_of s' -> expiration (old_leader_ht_lease result) <= lease_of s' ->
  leader_lease A C (<[candidate_uuid (request_ (election r)) := s']> N) (election_term result) (candidate_uuid (request_ (election r))).
Proof using Hc Hverify.
  intros [Hraft Hl] Hn Hin Hs Hnd Hnp Hle Hlr. destruct (sy_elections _ _ _ Hraft n r Hn) as (request & HR & [Ereq Hv Hrun Epre Emaj Hvotes]). cbn in HR.
  set (c := candidate_uuid (request_ (election r))) in *. assert (c = candidate_uuid request) as Ec by (unfold c; by rewrite Ereq).
  pose proof (rn_election _ _ _ Hrun) as He. rewrite (rn_calls _ _ _ Hrun) in Hin. destruct (has_responded_ (election r)) eqn:Hr; [|by apply elem_of_nil in Hin].
  apply list_elem_of_singleton in Hin as ->. assert (decision (result_ (election r)) = kGranted) as Hg.
  { pose proof (el_responded _ _ _ He Hr) as Hd. unfold decided in Hd. apply negb_true_iff, bool_decide_eq_false in Hd.
    by destruct (decision (result_ (election r))). }
  destruct (granted_quorum _ _ (voters_NoDup config Hc) _ He Hg) as (Q & HQ & HQi & HQV & HQm). split; [by rewrite Ec|].
  exists (majority_size_ (vote_counter_ (election r))), Q. split; [done|]. split.
  { split; [done|]. split; [|done]. intros u Hu. apply IsRaftConfigVoter_voters; auto. }
  assert (request_preelection request = false) as Hpre by congruence. rewrite (el_term _ _ _ He), Ereq, Ec.
  intros u Hu%HQi. split; [by apply Hvotes|]. intros x Hx. rewrite lookup_insert_eq in Hx. injection Hx as <-.
  destruct (decide (u = candidate_uuid request)) as [->|Hne].
  - intros L T0 y Hy _. rewrite Ec in Hs. destruct (nl_accepted _ _ _ _ (lo_nodes _ Hl _ _ Hs) L T0 y Hy). lia.
  - apply (sealed_le _ _ _ (election_lease (election r))); [|done]. by apply (lo_elections _ Hl n r request u).
Qed.

Lemma callback_lease N E R Ans C Ls K A D env n r result s s' became again :
  let c := candidate_uuid (request_ (election r)) in
  lease_ok (mkLeaseSystem (mkSystem N E R Ans C Ls) K A D) -> E !! n = Some r -> result ∈ calls r -> N !! c = Some s ->
  DoElectionCallback release env result s = Done (s', became, again) ->
  lease_inv (mkLeaseSystem (mkSystem (<[c := s']> N) E R Ans C (Ls ++ if became then [(GetCurrentTermUnlocked s', c)] else [])) K A D).
Proof using Hc Hverify.
  intros c Hl Hn Hres Hs Ecb. pose proof Hl as [Hraft Hinv]. pose proof (lo_nodes _ Hinv c s Hs) as Hnl. cbn in Hnl.
  pose proof (proj1 (proj1 (sy_nodes _ _ _ Hraft) c s Hs)) as Hnode.
  pose proof (DoElectionCallback_lease release env config c (nl_uuid _ _ _ _ Hnl) result s s' became again Hnode Ecb) as Hk.
  destruct (DoElectionCallback_ok release env config c result s s' became again Hnode Ecb) as (_ & Hv & Hb). destruct became.
  2: { rewrite app_nil_r. by apply (node_change N E R Ans C C Ls K A D c s s'). }
  destruct Hk as (Hle & Hlr & Hown). destruct (Hb eq_refl) as (Hnd & Hnp & Et). destruct Hv as [Hterm _].
  pose proof (won_lease N E R Ans C Ls K A D n r result s s' Hl Hn Hres Hs Hnd Hnp Hle Hlr) as Hwon.
  destruct Hinv as [HN HA HE HL HK HD]. cbn in *. split; cbn; try done.
  - intros j x Hj. destruct (decide (c = j)) as [<-|Hne].
    + rewrite lookup_insert_eq in Hj. injection Hj as <-. destruct (HN c s Hs) as [Hu Hr Hw Ha Ht]. split; [done| | | |].
      * intros _. apply elem_of_app. right. by apply list_elem_of_singleton.
      * left. by rewrite Hown.
      * intros L T x [? ?]%Ha. lia.
      * intros T [?%Ht|[= ->]%list_elem_of_singleton]%elem_of_app; lia.
    + rewrite lookup_insert_ne in Hj by done. destruct (HN j x Hj) as [Hu Hr Hw Ha Ht]. split; try done; [set_solver|].
      intros T [?|[= _ ->]%list_elem_of_singleton]%elem_of_app; [by apply Ht|done].
  - intros T j [Hin|[= -> ->]%list_elem_of_singleton]%elem_of_app; [|by rewrite <- Et].
    by apply (leader_lease_kept A C C N T c j s s'); [apply HL|..].
  - intros L T q Hq. destruct (HK L T q Hq). set_solver.
  - intros L T d Hd. destruct (HD L T d Hd). set_solver.
Qed.

Lemma code_lease b b' K A D :
  lease_ok (mkLeaseSystem b K A D) -> code_step release b b' -> asked_once b b' -> lease_inv (mkLeaseSystem b' K A D).
Proof using Hc Hverify.
  intros Hl Hstep Honce. pose proof Hl as [Hraft Hinv].
  assert (∀ i s, nodes b !! i = Some s -> node_ok config i s /\ i ≠ EmptyString) as Hnode.
  { intros i s Hi. split; [by apply (sy_nodes _ _ _ Hraft)|apply (nl_uuid _ _ _ _ (lo_nodes _ Hinv i s Hi))]. }
  destruct Hstep as [N E R Ans C Ls env data pe i n s s' e Hi Hn Es|N E R Ans C Ls env data pe i s s' r Hi Es Hr|N E R Ans C Ls env n q u s s' resp Hu Hq Ev
    |N E R Ans C Ls env n q u s s' c Hu Hq Ev|N E R Ans C Ls n r r' Hn Hr|N E R Ans C Ls n r u rpc r' Hn Hr Harr
    |N E R Ans C Ls env n r res s s' b ag Hn Hres Hs Ecb|N E R Ans C Ls env i t s s' r Hi Et]; cbn in Hnode.
  - destruct (Hnode i s Hi) as [Hs Hne]. destruct (DoStartElection_ok release env config i data pe s s' _ Hc Hs Es) as (_ & Hv & He).
    destruct (He e eq_refl) as (pre & ? & _). apply (start_lease N E R Ans C Ls K A D i n s s' e); try done; [|by exists pre].
    by eapply DoStartElection_lease.
  - destruct (Hnode i s Hi) as [Hs Hne]. destruct (DoStartElection_ok release env config i data pe s s' _ Hc Hs Es) as (_ & Hv & _).
    apply (node_change N E R Ans C C Ls K A D i s s'); try done. by eapply DoStartElection_lease.
  - destruct (Hnode u s Hu) as [Hs Hne]. destruct (RequestVote_ok release env config u q s s' _ Hs Ev) as (_ & Hv & _).
    apply (vote_lease N E R Ans C Ls K A D n q u s s' resp env); try done. by apply (Honce n u resp).
  - destruct (Hnode u s Hu) as [Hs Hne]. destruct (RequestVote_ok release env config u q s s' _ Hs Ev) as (_ & Hv & _).
    apply (node_change N E R Ans C C Ls K A D u s s'); try done. by apply (RequestVote_lease release env config u Hne q s s' _ Hs Ev).
  - by apply (election_change N E R Ans C Ls K A D n r r' Internal).
  - apply (election_change N E R Ans C Ls K A D n r r' (Answer u rpc)); try done. by intros w x [= <- <-].
  - by apply (callback_lease N E R Ans C Ls K A D env n r res s s' b ag).
  - destruct (Hnode i s Hi) as [Hs Hne]. destruct (HandleTermAdvance_ok release env config i t s s' r Hs Et) as (_ & Hv & _).
    apply (node_change N E R Ans C C Ls K A D i s s'); try done. by eapply HandleTermAdvance_lease.
Qed.

Lemma free_lease b b' K A D :
  lease_ok (mkLeaseSystem b K A D) -> free_step b b' -> leases_remain b b' -> lease_inv (mkLeaseSystem b' K A D).
Proof using Hc Hverify.
  intros Hl Hstep Hrem. pose proof Hl as [Hraft Hinv]. destruct Hstep as [N E R Ans C Ls i s s' Hi Hsame|N E R Ans C Ls i s s' Hi Hload].
  - assert (node_ok config i s) as Hs by (by apply (sy_nodes _ _ _ Hraft)). destruct (same_vote_ok config i s s' Hsame Hs) as (_ & Hv & _).
    apply (node_change N E R Ans C C Ls K A D i s s'); try done. apply (Hrem i s s'); [done|]. cbn. by rewrite lookup_insert_eq.
  - assert (node_ok config i s) as [_ Hd _ _] by (by apply (sy_nodes _ _ _ Hraft)).
    assert (votes_kept s s') as Hv by (unfold votes_kept, GetCurrentTermUnlocked, current_term, vote_of; rewrite Hload; cbn; rewrite Hd; done).
    assert (lease_kept s s') as Hk by (apply (Hrem i s s'); [done|]; cbn; by rewrite lookup_insert_eq).
    destruct (node_change N E R Ans C C Ls K A D i s s') as [HN HA HE HL HK HD]; try done. cbn in *. split; cbn; try done.
    intros n r request u [Hr _]%map_lookup_filter_Some. by apply HE.
Qed.

(** A replica that has voted in a later term does not accept the lease. *)
Lemma sealed_accept b K A D new u s v T c e :
  lease_ok (mkLeaseSystem b K A D) -> nodes b !! u = Some s ->
  (∀ a, a ∈ new -> ∃ L x, a = (L, GetCurrentTermUnlocked s, u, x) /\ x <= lease_of s) ->
  (v, T, c) ∈ cast b -> sealed A v T e -> sealed (A ++ new) v T e.
Proof using.
  intros [Hraft _] Hu Hnew Hcast Hs L T0 x [Hin|(L1 & x1 & [= -> -> -> ->] & _)%Hnew]%elem_of_app Ht; [by apply (Hs L T0)|].
  destruct (proj2 (proj1 (sy_nodes _ _ _ Hraft) u s Hu) T c Hcast) as [|[-> _]]; lia.
Qed.

Lemma accept_lease b K A D new u s :
  lease_ok (mkLeaseSystem b K A D) -> nodes b !! u = Some s ->
  (∀ a, a ∈ new -> ∃ L x, a = (L, GetCurrentTermUnlocked s, u, x) /\ x <= lease_of s) ->
  lease_inv (mkLeaseSystem b K (A ++ new) D).
Proof using.
  intros Hl Hu Hnew. pose proof Hl as [Hraft [HN HA HE HL HK HD]]. cbn in *. assert (∀ a, a ∈ A -> a ∈ A ++ new) as Hsub by (intros a ?; apply elem_of_app; by left).
  split; cbn.
  - intros i x Hi. destruct (HN i x Hi) as [Hne Hr Hw Ha Ht]. split; try done; [by apply (backed_mono A _ i (GetCurrentTermUnlocked x))|].
    intros L T y [Hin|(L1 & y1 & [= -> -> -> ->] & ?)%Hnew]%elem_of_app; [by apply (Ha L)|]. rewrite Hu in Hi. by injection Hi as <-.
  - intros n w resp request Hin HR Hpre Herr Hg. destruct (sy_answers _ _ _ Hraft n w resp Hin Herr Hg) as (request' & HR' & Hcast). rewrite HR in HR'. injection HR' as <-.
    apply (sealed_accept b K A D new u s w _ (candidate_uuid request)); auto. by apply (HA n w resp).
  - intros n r request w Hn HR Hpre Hg Hne. destruct (sy_elections _ _ _ Hraft n r Hn) as (request' & HR' & [_ _ _ _ _ Hvotes]). rewrite HR in HR'. injection HR' as <-.
    apply (sealed_accept b K A D new u s w _ (candidate_uuid request)); auto. by apply (HE n r).
  - intros T i Hin. destruct (HL T i Hin) as (Hv & m & Q & ? & ? & HQ). split; [done|]. exists m, Q. split; [done|]. split; [done|].
    intros w Hw. destruct (HQ w Hw) as [Hcast Hs]. split; [done|]. intros x Hx. apply (sealed_accept b K A D new u s w T i); auto.
  - intros L T q Hq. destruct (HK L T q Hq) as [? [? ? ? Hr]]. split; [done|]. split; try done. intros w p Hp Hne. destruct (Hr w p Hp Hne); auto.
  - intros L T d Hd. destruct (HD L T d Hd). split; [done|]. by apply (backed_mono A _ L T).
Qed.

Lemma update_lease b K A D env timeout log request u s s' r :
  lease_ok (mkLeaseSystem b K A D) -> nodes b !! u = Some s -> caller_uuid request ≠ u -> UpdateReplica release env timeout log request s = Done (s', r) ->
  lease_ok (mkLeaseSystem (with_node u s' b) K (A ++ accepted_by u request r) D).
Proof using Hc Hverify.
  intros Hl Hu Hne E. pose proof Hl as [Hraft Hinv]. destruct b as [N El R Ans C Ls]. cbn in *.
  pose proof (nl_uuid _ _ _ _ (lo_nodes _ Hinv u s Hu)) as Hui. assert (node_ok config u s) as Hs by (by apply (sy_nodes _ _ _ Hraft)).
  destruct (UpdateReplica_lease release env config u Hui timeout log request s s' r Hs E) as (Hs' & Hv & _ & _ & Hk & Hr).
  assert (system_ok release config (mkSystem (<[u := s']> N) El R Ans C Ls)) as Hok by (by apply (node_step_silent release config N El R Ans C Ls u s)).
  split; [done|]. apply (accept_lease _ K A D _ u s').
  - split; [done|]. by apply (node_change N El R Ans C C Ls K A D u s s'); auto.
  - cbn. by rewrite lookup_insert_eq.
  - intros a. unfold accepted_by. destruct r as [[]|], (leader_lease_duration_ms request) as [ms|]; try by intros ?%elem_of_nil.
    intros ->%list_elem_of_singleton. destruct (Hr eq_refl) as [<- Hle]. eexists _, _. split; [reflexivity|]. apply Hle. by eexists.
Qed.

(** *** Queues *)

Lemma queue_change b K A D L T q' D' :
  lease_ok (mkLeaseSystem b K A D) -> (T, L) ∈ leaders b -> queue_lease A L T q' ->
  (∀ d, (L, T, d) ∈ D' -> backed A L T (ht_lease_expiration d)) -> (∀ a, a ∈ D' -> a.1 = (L, T)) ->
  lease_ok (mkLeaseSystem b (<[(L, T) := q']> K) A (D ++ D')).
Proof using.
  intros [Hraft [HN HA HE HL HK HD]] Hlead Hq Hd Hd'. split; [done|]. cbn in *. split; cbn; try done.
  - intros L1 T1 q1 Hq1. destruct (decide ((L, T) = (L1, T1))) as [[= <- <-]|Hne].
    + rewrite lookup_insert_eq in Hq1. injection Hq1 as <-. done.
    + rewrite lookup_insert_ne in Hq1 by done. by apply HK.
  - intros L1 T1 d [Hin|Hin]%elem_of_app; [by apply HD|]. pose proof (Hd' _ Hin) as [= -> ->]. auto.
Qed.

(** What a queue tells of its lease is backed. *)
Lemma told_backed A L T old q d : queue_lease A L T q -> told_ok release old q d -> backed A L T (ht_lease_expiration d).
Proof using.
  intros [Hok Hconf Hlocal Hrec] (config' & Hl & [_ _ Hht] & _). pose proof (lq_active _ _ _ Hl) as Ea. rewrite Hconf in Ea. injection Ea as <-.
  pose proof (lq_majority _ _ _ Hl) as Em. destruct Hht as [->|[H1|(Q & HQ & HQr)]]; [by left| |].
  - right. exists T, 1, [L]. split; [lia|]. split; [by rewrite <- H1|]. split; [|by intros u ->%list_elem_of_singleton].
    split; [apply NoDup_singleton|]. split; [|done]. intros u ->%list_elem_of_singleton. apply IsRaftConfigVoter_voters; [apply Hl|].
    rewrite <- Hlocal. apply Hl.
  - destruct (decide (ht_lease_expiration d <= 0)) as [|Hpos]; [by left|right]. exists T, (queue_majority_size_ (queue_state_ q)), Q. split; [lia|].
    split; [done|]. split; [done|]. intros u Hu Hne. destruct (HQr u Hu) as [[-> _]|(p & Hp & _ & Hx)]; [congruence|]. cbn in Hx.
    destruct (Hrec u p Hp Hne) as [Hz|Hin]; [rewrite Hz in Hx; unfold kMinHtMicros in Hx; lia|]. by exists (received p).
Qed.

Lemma told_by_spec L T notes d : (L, T, d) ∈ told_by L T notes -> MajorityReplOpChange d ∈ notes.
Proof using. unfold told_by. intros (n & Hn & E)%list_elem_of_omap. destruct n; [done|]. by injection E as <-. Qed.

Lemma told_by_key L T notes a : a ∈ told_by L T notes -> a.1 = (L, T).
Proof using. unfold told_by. intros (n & _ & E)%list_elem_of_omap. destruct n; [done|]. by injection E as <-. Qed.

Lemma respond_lease b K A D L T env u response q q' more notes :
  lease_ok (mkLeaseSystem b K A D) -> (T, L) ∈ leaders b -> queue_lease A L T q -> (u ≠ L -> answers_last A L T u response q) ->
  ResponseFromPeer release env u response q = Done (q', more, notes) ->
  lease_ok (mkLeaseSystem b (<[(L, T) := q']> K) A (D ++ told_by L T notes)).
Proof using.
  intros Hl Hlead [Hok Hconf Hlocal Hrec] Hlast E.
  destruct (ResponseFromPeer_ok release env u response q q' more notes Hok E) as [Hshape Htold].
  assert (queue_lease A L T q') as Hq'.
  { split; [by apply (same_shape_ok release q)|destruct Hshape as (? & ? & ? & ? & ? & ?); congruence..|].
    intros w p' Hw Hne. destruct (ResponseFromPeer_received release env u response q q' more notes w p' E Hw) as (p & Hp & [->|(-> & Hs & Hr & ->)]); [by apply Hrec|].
    by apply (Hlast Hne). }
  apply (queue_change b K A D L T q' _ Hl Hlead Hq'); [|intros a; apply told_by_key].
  intros d Hd%told_by_spec. eapply told_backed; [exact Hq'|]. by apply Htold.
Qed.

Lemma leader_mode_lease A L T now committed q q' :
  rtc (queue_step release) (new_queue L) q -> local_peer_uuid_ q = L -> SetLeaderMode release now committed T config q = Done q' -> queue_lease A L T q'.
Proof using Hverify.
  intros Hr%queue_reachable_ok Hlocal E. assert (queue_ok release q') as Hok by (eapply queue_step_ok; [exact Hr|by eapply step_leader]).
  unfold SetLeaderMode in E. apply outcome_bind_Done in E as (_ & _ & E). apply outcome_bind_Done in E as (m & _ & E). apply outcome_bind_Done in E as (_ & _ & [= <-]).
  split; [done..|]. intros u p Hp _. cbn in Hp. rewrite lookup_fmap in Hp. destruct (peers_map_ q !! u); [|done]. injection Hp as <-. by left.
Qed.

Lemma send_lease A L T env u q q' request :
  queue_lease A L T q -> RequestForPeer release env u q = Done (Ok (q', request)) -> queue_lease A L T q'.
Proof using.
  intros [Hok Hconf Hlocal Hrec] E. assert (queue_ok release q') as Hok' by (eapply queue_step_ok; [exact Hok|by eapply step_request]).
  unfold RequestForPeer in E. apply outcome_bind_Done in E as (_ & _ & E). apply outcome_bind_Done in E as (_ & _ & E).
  destruct (peers_map_ q !! u) as [p|] eqn:Ep; [|done]. destruct (mode (queue_state_ q)); [|done]. injection E as <- _. split; [done..|].
  intros w p' Hw Hne. cbn in Hw. destruct (decide (u = w)) as [->|Huw]; [|rewrite lookup_insert_ne in Hw by done; by apply Hrec].
  rewrite lookup_insert_eq in Hw. injection Hw as <-. replace (received _) with (received p) by (by destruct (is_new p)). by apply Hrec.
Qed.

Lemma majority_lease revocation b K A D L T d env no_op q s s' :
  lease_ok (mkLeaseSystem b K A D) -> (L, T, d) ∈ D -> nodes b !! L = Some s -> revokes_ht_lease revocation q s = false ->
  UpdateMajorityReplicated release env revocation no_op q d s = Done s' ->
  lease_ok (mkLeaseSystem (with_node L s' b) K A D).
Proof using.
  intros Hl Hd Hs Hno E. pose proof Hl as [Hraft [HN HA HE HL HK HD]]. destruct b as [N El R Ans C Ls]. cbn in *.
  destruct (UpdateMajorityReplicated_lease release env revocation no_op q d s s' Hno E) as (Hsame & Hold & Hrole & Hown).
  assert (node_ok config L s) as Hsn by (by apply (sy_nodes _ _ _ Hraft)). destruct (same_vote_ok config L s s' Hsame Hsn) as (Hs' & Hv & _ & Et).
  assert (lease_of s' = lease_of s) as Eo by (unfold lease_of; by rewrite Hold). split; [by apply (node_step_silent release config N El R Ans C Ls L s)|].
  destruct (HN L s Hs) as [Hne Hr Hw Ha Ht]. destruct (HD L T d Hd) as [Hlead Hb]. unfold with_node. cbn. split; cbn; try done.
  - intros i x Hi. destruct (decide (L = i)) as [->|Hni]; [|rewrite lookup_insert_ne in Hi by done; by apply HN].
    rewrite lookup_insert_eq in Hi. injection Hi as <-. split; [done|by rewrite Hrole, Et| |by rewrite Et, Eo|by rewrite Et].
    rewrite Et. destruct Hown as [->| ->]; [done|]. apply (backed_mono A A i T); [done|by apply Ht|done].
  - intros T1 i Hin. apply (leader_lease_kept A C C N T1 L i s s'); [by apply HL|done|by rewrite Eo|done].
Qed.

Lemma lease_step_ok revocation ls ls' : lease_ok ls -> lease_step release revocation config ls ls' -> lease_ok ls'.
Proof using Hc Hverify.
  intros Hl Hstep. pose proof Hl as [Hraft Hinv]. destruct Hstep as [b b' K A D Hstep Honce|b b' K A D Hstep Hrem|b K A D env timeout log request u s s' r Hu Hne E
    |b K A D L T now committed q q' Hlead Hq Hlocal E|b K A D L T env u q q' request Hq E|b K A D L T env u response q q' more notes Hq Hlast E
    |b K A D L T env id status q q' more notes Hq E|b K A D L T q q' Hq Hstep Hun|b K A D L T d env no_op q s s' Hd Hs Hq Hno E].
  - split; [apply (system_step_ok release config b b' Hc Hraft); by left|by apply (code_lease b)].
  - split; [apply (system_step_ok release config b b' Hc Hraft); by right|by apply (free_lease b)].
  - by apply (update_lease b K A D env timeout log request u s s' r).
  - rewrite <- (app_nil_r D). apply queue_change; try done; [by eapply leader_mode_lease|by intros d ?%elem_of_nil..].
  - destruct (lo_queues _ Hinv L T q Hq) as [Hlead Hql]. rewrite <- (app_nil_r D).
    apply queue_change; try done; [by eapply send_lease|by intros d ?%elem_of_nil..].
  - destruct (lo_queues _ Hinv L T q Hq) as [Hlead Hql]. by apply (respond_lease b K A D L T env u response q q' more notes).
  - destruct (lo_queues _ Hinv L T q Hq) as [Hlead Hql]. unfold LocalPeerAppendFinished in E. apply outcome_bind_Done in E as (_ & _ & E).
    set (q0 := if _ <? _ then _ else q) in E. assert (queue_lease A L T q0 /\ local_peer_uuid_ q0 = L) as [Hq0 El0].
    { unfold q0. destruct (_ <? _); [|split; [done|apply Hql]]. split; [|apply Hql]. destruct Hql as [? ? ? ?]. split; try done.
      apply (same_shape_ok release q); [|done]. by apply with_state_shape. }
    eapply (respond_lease b K A D L T env (local_peer_uuid_ q0)); [done..|congruence|exact E].
  - destruct (lo_queues _ Hinv L T q Hq) as [Hlead [Hok Hconf Hlocal Hrec]]. destruct Hun as (Ec & Elo & Hun). rewrite <- (app_nil_r D).
    apply queue_change; try done; [|by intros d ?%elem_of_nil..]. split; [by eapply queue_step_ok|congruence..|].
    intros w p' Hw Hne. destruct (Hun w p' Hw) as [?|(p & Hp & ->)]; [by left|by apply Hrec].
  - by apply (majority_lease revocation b K A D L T d env no_op q s s').
Qed.

Lemma lease_initial_ok ls : lease_initial config ls -> lease_ok ls.
Proof using.
  intros (Hi & EK & EA & ED & Hn). pose proof (system_initial_ok release config (raft ls) Hi) as Hraft. split; [done|].
  destruct Hi as (HN & EE & ER & EAns & EC & EL). split; rewrite ?EA, ?EL, ?EE, ?EAns, ?EK, ?ED.
  - intros i s Hs. destruct (Hn i s Hs) as [Hne Hown]. destruct (HN i s Hs) as (disk & Eload & _). split; [done| | |by intros L T x ?%elem_of_nil|by intros T ?%elem_of_nil].
    + intros Hrole. exfalso. revert Hrole. unfold GetActiveRoleUnlocked. rewrite Eload.
      exact (cleared_not_leader (mkConsensusMetadata i disk None EmptyString UNKNOWN_ROLE disk) Hne).
    + left. by rewrite Hown.
  - by intros n u resp request ?%elem_of_nil.
  - intros n r request u. by rewrite lookup_empty.
  - by intros T i ?%elem_of_nil.
  - intros L T q. by rewrite lookup_empty.
  - by intros L T d ?%elem_of_nil.
Qed.

Lemma lease_reachable_ok revocation ls ls' : lease_ok ls -> rtc (lease_step release revocation config) ls ls' -> lease_ok ls'.
Proof using Hc Hverify. intros Hl Hr. induction Hr as [|x y z Hxy _ IH]; [done|]. apply IH. by apply (lease_step_ok revocation x). Qed.

(** A leader of a later term has waited for the lease of a leader that has not
    noticed it. *)
Lemma later_leader_waits ls L c sL sc w :
  lease_ok ls -> nodes (raft ls) !! L = Some sL -> nodes (raft ls) !! c = Some sc ->
  GetActiveRoleUnlocked sc = LEADER -> GetCurrentTermUnlocked sL < GetCurrentTermUnlocked sc ->
  w = majority_replicated_ht_lease_expiration_ sL -> w <= Z.max 0 (lease_of sc).
Proof using Hc Hverify.
  intros [Hraft [HN _ _ HL _ _]] HsL Hsc Hrole Hlt ->. destruct (HN L sL HsL) as [_ _ [?|(T0 & m & Q & HT0 & Em & HQ & HQa)] _ _]; [lia|].
  destruct (HL _ _ (nl_role _ _ _ _ (HN c sc Hsc) Hrole)) as (_ & m' & Q' & Em' & HQ' & HQs). rewrite Em in Em'. injection Em' as <-.
  destruct (quorums_share release config m Q Q' Hc Em HQ HQ') as (u & Hu & Hu'). destruct (HQs u Hu') as [Hcast Hseal].
  destruct (decide (u = L)) as [->|Hne].
  - destruct (proj2 (proj1 (sy_nodes _ _ _ Hraft) L sL HsL) _ _ Hcast) as [|[? _]]; lia.
  - destruct (HQa u Hu Hne) as (x & Hx & Hw). specialize (Hseal sc Hsc L T0 x Hx). lia.
Qed.

End lease_safety.

(** ** Properties *)

Lemma has_lease release duration micros s :
  GetHybridTimeLeaseStatusAtUnlocked release duration micros s = Done HAS_LEASE -> duration ≠ 0 ->
  length (peers (GetActiveConfigUnlocked s)) = 1%nat \/ (lease_of s < micros /\ micros < majority_replicated_ht_lease_expiration_ s).
Proof.
  unfold GetHybridTimeLeaseStatusAtUnlocked, GetLeaseStatusUnlocked. intros E Hd. apply outcome_bind_Done in E as (_ & _ & [= E]). cbn in E.
  rewrite (proj2 (Z.eqb_neq _ _) Hd) in E. cbn in E. case_bool_decide; [by left|right]. unfold MajorityReplicatedHybridTimeLeaseExpiredAt in E.
  destruct (Z.ltb_spec (expiration (old_leader_ht_lease_ s)) micros); cbn in E; [|done].
  destruct (Z.leb_spec (majority_replicated_ht_lease_expiration_ s) micros); [done|]. unfold lease_of. lia.
Qed.

(** C4: no two replicas of a tablet hold the lease of the same hybrid time,
    though a leader that is cut off may not know of its successors for long:
    the leaders may change any number of times, requests, answers and votes may
    be lost or late, and the lease that a majority has accepted may be noticed
    late. It is supposed that revocation, where it is enabled, does not take away
    the hybrid time lease of an old leader, that a candidate asks a voter once
    for its vote, and that replicas that start again have waited for the leases
    they had accepted. *)
Theorem hybrid_time_leases_disjoint release revocation config ls ls' i j si sj duration micros :
  VerifyRaftConfig config COMMITTED_QUORUM = Ok tt -> lease_initial config ls -> rtc (lease_step release revocation config) ls ls' ->
  nodes (raft ls') !! i = Some si -> nodes (raft ls') !! j = Some sj ->
  GetActiveRoleUnlocked si = LEADER -> GetActiveRoleUnlocked sj = LEADER -> duration ≠ 0 -> 0 <= micros ->
  GetHybridTimeLeaseStatusAtUnlocked release duration micros si = Done HAS_LEASE ->
  GetHybridTimeLeaseStatusAtUnlocked release duration micros sj = Done HAS_LEASE -> i = j.
Proof.
  intros Hver Hi Hr Hsi Hsj Ri Rj Hd Hm Li Lj. pose proof Hver as [Hc _]%VerifyRaftConfig_ok.
  pose proof (lease_reachable_ok release config Hc Hver revocation ls ls' (lease_initial_ok release config ls Hi) Hr) as Hok. pose proof Hok as [Hraft Hinv].
  pose proof (nl_role _ _ _ _ _ _ (lo_nodes _ _ _ Hinv i si Hsi) Ri) as Hli. pose proof (nl_role _ _ _ _ _ _ (lo_nodes _ _ _ Hinv j sj Hsj) Rj) as Hlj.
  assert (∀ k s, nodes (raft ls') !! k = Some s -> GetActiveConfigUnlocked s = config) as Hconf.
  { intros k s Hk. destruct (proj1 (proj1 (sy_nodes _ _ _ Hraft) k s Hk)) as [_ _ Hcc Hp]. unfold GetActiveConfigUnlocked, active_config. by rewrite Hp. }
  destruct (decide (length (peers config) = 1%nat)) as [H1|H1].
  - destruct (lo_leaders _ _ _ Hinv _ _ Hli) as [Hvi _]. destruct (lo_leaders _ _ _ Hinv _ _ Hlj) as [Hvj _]. unfold voters in Hvi, Hvj.
    destruct (peers config) as [|p [|]]; [done| |done]. cbn in Hvi, Hvj. destruct (bool_decide _); [|by apply elem_of_nil in Hvi].
    apply list_elem_of_singleton in Hvi as ->. by apply list_elem_of_singleton in Hvj as ->.
  - destruct (has_lease _ _ _ _ Li Hd) as [|[Oi Wi]]; [by rewrite (Hconf i si Hsi) in *|].
    destruct (has_lease _ _ _ _ Lj Hd) as [|[Oj Wj]]; [by rewrite (Hconf j sj Hsj) in *|].
    destruct (Z.lt_trichotomy (GetCurrentTermUnlocked si) (GetCurrentTermUnlocked sj)) as [Hlt|[Heq|Hlt]].
    + pose proof (later_leader_waits release config Hc Hver ls' i j si sj _ Hok Hsi Hsj Rj Hlt eq_refl). lia.
    + rewrite <- Heq in Hlj. by apply (one_leader release config (raft ls') (GetCurrentTermUnlocked si)).
    + pose proof (later_leader_waits release config Hc Hver ls' j i sj si _ Hok Hsj Hsi Ri Hlt eq_refl). lia.
Qed.

(** A replica is elected by another one, which then accepts its lease. *)
Lemma code_silent release revocation config b b' K A D :
  code_step release b b' -> answers b' = answers b -> lease_step release revocation config (mkLeaseSystem b K A D) (mkLeaseSystem b' K A D).
Proof.
  intros Hstep Ha. apply lease_code; [done|]. intros n u resp request s E. rewrite Ha in E. apply (f_equal length) in E. rewrite length_app in E. cbn in E. lia.
Qed.

Definition sample_elected : system :=
  let e2 := sample_votes {["a" := kGranted; "b" := kGranted]} 2 kGranted true in
  mkSystem {["a" := sample_leader; "b" := sample_voted "b"; "c" := sample_start "c"]} {[0%nat := mkRun e2 (Some ["c"]) [] 0 [result_ e2]]}
    {[0%nat := request_ e2]} [(0%nat, "b", sample_answer)] [("a", 1, "a"); ("b", 1, "a")] [(1, "a")].

Lemma sample_election : rtc (lease_step false true sample_config) (mkLeaseSystem sample_system ∅ [] []) (mkLeaseSystem sample_elected ∅ [] []).
Proof.
  set (e0 := sample_votes {["a" := kGranted]} 1 kUnknown false).
  set (e1 := sample_votes {["a" := kGranted; "b" := kGranted]} 2 kUnknown false).
  set (e2 := sample_votes {["a" := kGranted; "b" := kGranted]} 2 kGranted true).
  eapply rtc_l.
  { apply code_silent; [apply (step_start _ _ _ _ _ _ _ sample_env (mkLeaderElectionData false false None) false "a" 0%nat
      (sample_start "a") (sample_voted "a") e0); vm_compute; reflexivity|done]. }
  eapply rtc_l. { apply code_silent; [apply (step_run _ _ _ _ _ _ _ 0%nat (run_of e0) (mkRun e0 (Some ["b"; "c"]) [] 0 [])); [done|]; by apply (run_start _ e0 e0 None)|done]. }
  eapply rtc_l. { apply code_silent; [apply (step_run _ _ _ _ _ _ _ 0%nat (mkRun e0 (Some ["b"; "c"]) [] 0 []) (mkRun e0 (Some ["c"]) ["b"] 0 [])); [done|]; by apply run_send|done]. }
  eapply rtc_l.
  { apply lease_code; [apply (step_vote _ _ _ _ _ _ _ sample_env 0%nat (request_ e0) "b" (sample_start "b") (sample_voted "b") sample_answer); vm_compute; reflexivity|].
    intros n u resp request s [= <- <- <-] Hr Hs [Ht _]. vm_compute in Hr, Hs. injection Hr as <-. injection Hs as <-. discriminate Ht. }
  eapply rtc_l.
  { apply code_silent;
      [apply (step_answer _ _ _ _ _ _ _ 0%nat (mkRun e0 (Some ["c"]) ["b"] 0 []) "b" (RpcResponse sample_answer) (mkRun e1 (Some ["c"]) [] 1 []));
         [done|apply (run_respond _ e0 e1 ["c"] [] "b" [] 0 [] 0 _ true); vm_compute; reflexivity|by left; left]|done]. }
  eapply rtc_l.
  { apply code_silent; [apply (step_run _ _ _ _ _ _ _ 0%nat (mkRun e1 (Some ["c"]) [] 1 []) (mkRun e2 (Some ["c"]) [] 0 [result_ e2])); [done|];
      by apply (run_check _ e1 e2 _ _ _ [] (Some (result_ e2)))|done]. }
  eapply rtc_l.
  { apply code_silent;
      [apply (step_callback _ _ _ _ _ _ _ sample_env 0%nat (mkRun e2 (Some ["c"]) [] 0 [result_ e2]) (result_ e2) (sample_voted "a") sample_leader true false);
         [done|by left|done|vm_compute; reflexivity]|done]. }
  match goal with |- rtc _ (mkLeaseSystem ?x _ _ _) _ => replace x with sample_elected by (vm_compute; reflexivity) end. apply rtc_refl.
Qed.

(** The queue of the leader: the other replica is tracked, is heard of, and is
    sent a lease, which it accepts. *)
Definition sample_lease_end : Z := 2001000.
Definition sample_heard : ConsensusResponsePB := mkConsensusResponsePB None (Some 1) (mkOpId 1 0) (mkOpId 1 0) 0 None.
Definition sample_lease_request : ConsensusRequestPB := mkConsensusRequestPB "a" 1 (Some 2000) sample_lease_end.
Definition sample_lease_queues : list PeerMessageQueue :=
  let q0 := new_queue "a" in
  let q1 := result (Init false 1 (mkOpId 0 0) q0) q0 in
  let q2 := result (SetLeaderMode false 1 (mkOpId 0 0) 1 sample_config q1) q1 in
  let q3 := result (TrackPeerUnlocked false 1 "b" q2) q2 in
  let q4 := (result (ResponseFromPeer false sample_queue_env "b" sample_heard q3) (q3, true, [])).1.1 in
  let q5 := match RequestForPeer false sample_queue_env "b" q4 with Done (Ok (q, _)) => q | _ => q4 end in
  let q6 := (result (ResponseFromPeer false sample_queue_env "b" sample_heard q5) (q5, true, [])).1.1 in
  [q0; q1; q2; q3; q4; q5; q6].
Definition sample_lease_queue (i : nat) : PeerMessageQueue := default (new_queue "a") (sample_lease_queues !! i).
Definition sample_majority (x ht : Z) : MajorityReplicatedData := mkMajorityReplicatedData (mkOpId 0 0) x ht.
Definition sample_lease_log : LogCheck := mkLogCheck (Ok tt) (Ok true) (Ok tt).

Definition sample_leased (s : RaftConsensus) : RaftConsensus :=
  match UpdateMajorityReplicated false sample_env false true (sample_lease_queue 6) (sample_majority 2998000000 sample_lease_end) s with Done s => s | _ => s end.
Definition sample_follower : RaftConsensus :=
  match UpdateReplica false sample_env 1000 sample_lease_log sample_lease_request (sample_voted "b") with Done (s, _) => s | _ => sample_voted "b" end.

Lemma sample_lease_run :
  ∃ ls, rtc (lease_step false true sample_config) (mkLeaseSystem sample_system ∅ [] []) ls /\
    nodes (raft ls) !! "a" = Some (sample_leased sample_leader).
Proof.
  eexists. split.
  - etrans; [exact sample_election|].
    eapply rtc_l. { apply (lease_leader _ _ _ _ _ _ _ "a" 1 1 (mkOpId 0 0) (sample_lease_queue 1) (sample_lease_queue 2)); [by left| |reflexivity|vm_compute; reflexivity].
      apply rtc_once. apply (step_init _ _ 1 (mkOpId 0 0)). vm_compute. reflexivity. }
    eapply rtc_l. { apply (lease_queue _ _ _ _ _ _ _ "a" 1 (sample_lease_queue 2) (sample_lease_queue 3)); [done|apply (step_track _ _ 1 "b"); vm_compute; reflexivity|].
      split; [reflexivity|]. split; [reflexivity|]. intros w p' Hw. left. revert w p' Hw.
      change (map_Forall (λ _ p, received p = kMinHtMicros) (peers_map_ (sample_lease_queue 3))). apply (bool_decide_unpack _). vm_compute. exact I. }
    eapply rtc_l. { apply (lease_respond _ _ _ _ _ _ _ "a" 1 sample_queue_env "b" sample_heard (sample_lease_queue 3) (sample_lease_queue 4)
        false [MajorityReplOpChange (sample_majority kMinCoarseTime 0)]); [done| |vm_compute; reflexivity].
      intros _ _ _ p Hp. vm_compute in Hp. injection Hp as <-. by left. }
    eapply rtc_l. { eapply (lease_send _ _ _ _ _ _ _ "a" 1 sample_queue_env "b" (sample_lease_queue 4) (sample_lease_queue 5)); [done|vm_compute; reflexivity]. }
    eapply rtc_l. { apply (lease_update _ _ _ _ _ _ _ sample_env 1000 sample_lease_log sample_lease_request "b" (sample_voted "b") sample_follower (Ok true));
        [done|done|vm_compute; reflexivity]. }
    eapply rtc_l. { apply (lease_respond _ _ _ _ _ _ _ "a" 1 sample_queue_env "b" sample_heard (sample_lease_queue 5) (sample_lease_queue 6)
        false [MajorityReplOpChange (sample_majority 2998000000 sample_lease_end)]); [done| |vm_compute; reflexivity].
      intros _ _ _ p Hp. vm_compute in Hp. injection Hp as <-. right. by left. }
    eapply rtc_l. { apply (lease_majority _ _ _ _ _ _ _ "a" 1 (sample_majority 2998000000 sample_lease_end) sample_env true (sample_lease_queue 6)
        sample_leader (sample_leased sample_leader)); [by right; left|done|done|vm_compute; reflexivity|vm_compute; reflexivity]. }
    apply rtc_refl.
  - done.
Qed.

Lemma sample_lease_initial : lease_initial sample_config (mkLeaseSystem sample_system ∅ [] []).
Proof.
  split; [exact sample_initial|]. repeat (split; [done|]). intros i s Hi. cbn [raft nodes sample_system] in Hi.
  apply lookup_insert_Some in Hi as [[<- <-]|[_ Hi]]; [done|]. apply lookup_insert_Some in Hi as [[<- <-]|[_ Hi]]; [done|].
  by apply lookup_singleton_Some in Hi as [<- <-].
Qed.

Lemma hybrid_time_leases_disjoint_witness :
  ∃ ls s, nodes (raft ls) !! "a" = Some s /\ GetHybridTimeLeaseStatusAtUnlocked false 2000 5000 s = Done HAS_LEASE /\
    ∀ j sj, nodes (raft ls) !! j = Some sj -> GetActiveRoleUnlocked sj = LEADER ->
      GetHybridTimeLeaseStatusAtUnlocked false 2000 5000 sj = Done HAS_LEASE -> "a" = j.
Proof.
  destruct sample_lease_run as (ls & Hr & Ha). exists ls, (sample_leased sample_leader). split; [exact Ha|].
  split; [vm_compute; reflexivity|]. intros j sj Hj Rj Lj.
  apply (hybrid_time_leases_disjoint false true sample_config (mkLeaseSystem sample_system ∅ [] []) ls "a" j (sample_leased sample_leader) sj 2000 5000);
    [reflexivity|exact sample_lease_initial|exact Hr|exact Ha|exact Hj|vm_compute; reflexivity|exact Rj|lia|lia|vm_compute; reflexivity|exact Lj].
Defined.

(** *** What the assumptions are for *)

Definition state_of {A : Type} (o : Op A) (s : RaftConsensus) : RaftConsensus := match o with Done (s, _) => s | _ => s end.
Definition elected_of (o : Outcome (RaftConsensus * bool * bool)) (s : RaftConsensus) : RaftConsensus := match o with Done (s, _, _) => s | _ => s end.

(** With revocation, a leader may serve while an older one does. Replica a leads
    term 1 and is cut off; its lease was accepted by b. Replica c is elected by
    b, waits for the lease of a, and gives b a longer lease. Then b is elected by
    c. The lease that b waits for is the longer one, of c; once c accepts the
    lease of b, it is revoked, and with it what b knew of the lease of a. *)
Definition revocation_run (revocation : bool) : RaftConsensus * RaftConsensus :=
  let a := sample_leased sample_leader in
  let request candidate t := mkVoteRequestPB candidate t (mkOpId 0 0) true false in
  let won t ht := mkElectionResult false EmptyString t kGranted None no_CoarseTimeLease ht in
  let b := state_of (RequestVote false sample_env (request "c" 2) sample_follower) sample_follower in
  let c := state_of (HandleTermAdvanceUnlocked false sample_env 2 (sample_start "c")) (sample_start "c") in
  let c := elected_of (DoElectionCallback false sample_env (won 2 (old_leader_ht_lease_ b)) c) c in
  let b := state_of (UpdateReplica false sample_env 1000 sample_lease_log (mkConsensusRequestPB "c" 2 (Some 2000) (2 * sample_lease_end)) b) b in
  let b := state_of (HandleTermAdvanceUnlocked false sample_env 3 b) b in
  let b := elected_of (DoElectionCallback false sample_env (won 3 (old_leader_ht_lease_ c)) b) b in
  let q0 := new_queue "b" in
  let q1 := result (Init false 1 (mkOpId 0 0) q0) q0 in
  let q2 := result (SetLeaderMode false 1 (mkOpId 0 0) 3 sample_config q1) q1 in
  let q3 := result (TrackPeerUnlocked false 1 "c" q2) q2 in
  let q4 := (result (ResponseFromPeer false sample_queue_env "c" sample_heard q3) (q3, true, [])).1.1 in
  let q5 := match RequestForPeer false sample_queue_env "c" q4 with Done (Ok (q, _)) => q | _ => q4 end in
  let q6 := (result (ResponseFromPeer false sample_queue_env "c" sample_heard q5) (q5, true, [])).1.1 in
  (a, result (UpdateMajorityReplicated false sample_env revocation true q6 (sample_majority 2998000000 sample_lease_end) b) b).

Lemma lease_revoked_early :
  (∀ revocation, GetHybridTimeLeaseStatusAtUnlocked false 2000 5000 (revocation_run revocation).1 = Done HAS_LEASE) /\
  GetHybridTimeLeaseStatusAtUnlocked false 2000 5000 (revocation_run false).2 = Done OLD_LEADER_MAY_HAVE_LEASE /\
  GetHybridTimeLeaseStatusAtUnlocked false 2000 5000 (revocation_run true).2 = Done HAS_LEASE.
Proof. split; [by intros []; vm_compute|]. vm_compute. done. Qed.

(** A vote that is granted again does not tell the lease. *)
Lemma repeated_vote_without_lease :
  let request := mkVoteRequestPB "c" 2 (mkOpId 0 0) true false in
  ∃ b resp resp', RequestVote false sample_env request sample_follower = Done (b, Ok resp) /\ answer_lease resp = sample_lease_end /\
    RequestVote false sample_env request b = Done (b, Ok resp') /\ vote_granted resp' = true /\ answer_lease resp' = kNoPhysicalLease.
Proof. eexists _, _, _. split; [vm_compute; reflexivity|]. split; [reflexivity|]. split; [vm_compute; reflexivity|]. done. Qed.
