(* ===== verification/RaftProtocol.v ===== *)
(** * The Raft protocol, without the code

    What the log of a replica promises, in terms of logs only: replicas that
    raise their term, vote, lead, append, are overwritten and acknowledge. An
    operation that a majority has acknowledged in the term of its leader is in
    the log of every later leader, so no two replicas commit different
    operations at one place. [RaftLog] shows that the code keeps to these
    steps. *)

From S2P Require Import Prelude Quorum.
Local Open Scope Z_scope.

(** ** Logs *)

(** What makes sets of replicas quorums. *)
Class QuorumSystem : Type := {
  is_quorum : list uuid -> Prop;
  quorums_meet : ∀ Q Q', is_quorum Q -> is_quorum Q' -> ∃ u, u ∈ Q /\ u ∈ Q'
}.

(** An operation has an id. *)
Class HasOpId (entry : Type) : Type := op_id_of : entry -> OpId.

Section logs.
Context {entry : Type} `{HasOpId entry}.

Abbreviation entry_term e := (term (op_id_of e)).
Abbreviation entry_index e := (index (op_id_of e)).

(** The id of the last operation. *)
Definition last_op_id (l : list entry) : OpId :=
  match last l with Some e => op_id_of e | None => MinimumOpId end.

(** Indexes are positions, and terms do not go back. *)
Record log_ok (l : list entry) : Prop := {
  lg_index : ∀ k e, l !! k = Some e -> entry_index e = Z.of_nat k + 1;
  lg_terms : ∀ j k a b, (j <= k)%nat -> l !! j = Some a -> l !! k = Some b -> entry_term a <= entry_term b
}.

(** The first [k] operations of [L] are at the start of [l]. *)
Definition contains (l L : list entry) (k : nat) : Prop := take k L `prefix_of` l.

(** The logs have operations of different terms at a place. *)
Definition conflict (l L : list entry) (k : nat) : Prop :=
  ∃ a b, l !! k = Some a /\ L !! k = Some b /\ entry_term a ≠ entry_term b.

Lemma log_ok_nil : log_ok [].
Proof. split; intros; by rewrite lookup_nil in *. Qed.

Lemma log_ok_prefix l l' : l `prefix_of` l' -> log_ok l' -> log_ok l.
Proof.
  intros Hp [Hi Ht]. split.
  - intros k e Hk. apply Hi. by eapply prefix_lookup_Some.
  - intros j k a b Hjk Ha Hb. apply (Ht j k); [done|by eapply prefix_lookup_Some..].
Qed.

Lemma log_ok_take k l : log_ok l -> log_ok (take k l).
Proof. apply log_ok_prefix, prefix_take. Qed.

Lemma last_lookup_pred (l : list entry) e : last l = Some e -> l !! (length l - 1)%nat = Some e.
Proof. rewrite last_lookup. by replace (pred (length l)) with (length l - 1)%nat by lia. Qed.

Lemma last_op_id_lookup l e k : l !! k = Some e -> length l = S k -> last_op_id l = op_id_of e.
Proof. intros Hk Hl. unfold last_op_id. rewrite last_lookup, Hl. cbn. by rewrite Hk. Qed.

Lemma last_op_id_snoc l e : last_op_id (l ++ [e]) = op_id_of e.
Proof. unfold last_op_id. by rewrite last_snoc. Qed.

Lemma last_op_id_index l : log_ok l -> index (last_op_id l) = Z.of_nat (length l).
Proof.
  intros Hl. unfold last_op_id. destruct (last l) as [e|] eqn:E.
  - rewrite (lg_index _ Hl _ _ (last_lookup_pred _ _ E)). destruct l; [done|]. cbn [length]. lia.
  - apply last_None in E as ->. done.
Qed.

Lemma log_ok_snoc l e :
  log_ok l -> entry_index e = Z.of_nat (length l) + 1 -> (∀ a, a ∈ l -> entry_term a <= entry_term e) -> log_ok (l ++ [e]).
Proof.
  intros [Hi Ht] He Hle. split.
  - intros k x [Hk|[Hl Hx]]%lookup_app_Some; [by apply Hi|]. apply list_lookup_singleton_Some in Hx as [Hz <-]. rewrite He. lia.
  - intros j k a b Hjk Ha Hb. apply lookup_app_Some in Hb as [Hb|[Hl Hb]].
    + rewrite lookup_app_l in Ha by (apply lookup_lt_Some in Hb; lia). by apply (Ht j k).
    + apply list_lookup_singleton_Some in Hb as [Hz <-]. apply lookup_app_Some in Ha as [Ha|[? Ha]].
      * apply Hle. by apply list_elem_of_lookup_2 in Ha.
      * apply list_lookup_singleton_Some in Ha as [_ <-]. done.
Qed.

Lemma prefix_take_le (l : list entry) j k : (j <= k)%nat -> take j l `prefix_of` take k l.
Proof. intros Hjk. replace (take j l) with (take j (take k l)) by (rewrite take_take; f_equal; lia). apply prefix_take. Qed.

(** *** What a log contains *)

Lemma contains_prefix l l' L k : contains l L k -> l `prefix_of` l' -> contains l' L k.
Proof. unfold contains. by etrans. Qed.

Lemma contains_le l L j k : (j <= k)%nat -> contains l L k -> contains l L j.
Proof.
  intros Hjk Hc. unfold contains in *. etrans; [by apply prefix_take_le|exact Hc].
Qed.

Lemma contains_grow l L L' k : (k <= length L)%nat -> L `prefix_of` L' -> contains l L k <-> contains l L' k.
Proof. intros Hk [x ->]. unfold contains. by rewrite take_app_le. Qed.

Lemma contains_lookup l L k j : (j < k)%nat -> contains l L k -> (j < length L)%nat -> l !! j = L !! j.
Proof.
  intros Hj Hc HL. destruct (lookup_lt_is_Some_2 L j HL) as [e He]. rewrite He. apply (prefix_lookup_Some (take k L)); [|done].
  by rewrite lookup_take_lt.
Qed.

Lemma contains_length l L k : (k <= length L)%nat -> contains l L k -> (k <= length l)%nat.
Proof. intros Hk Hc%prefix_length. rewrite length_take in Hc. lia. Qed.

Lemma contains_take l L k : (k <= length L)%nat -> contains l L k <-> take k l = take k L.
Proof.
  intros Hk. split.
  - intros [x ->]. rewrite take_app_le by (rewrite length_take; lia). rewrite take_take. f_equal. lia.
  - intros E. unfold contains. rewrite <- E. apply prefix_take.
Qed.

Lemma contains_self L k : contains L L k.
Proof. apply prefix_take. Qed.

(** Where logs conflict, neither contains the other. *)
Lemma conflict_contains l l' L k j : conflict l L j -> contains l l' k -> contains L l' k -> (j < k)%nat -> (k <= length l')%nat -> False.
Proof.
  intros (a & b & Ha & Hb & Hne) Hl HL Hj Hk. assert (j < length l')%nat as Hj' by lia.
  rewrite (contains_lookup _ _ _ _ Hj Hl Hj') in Ha. rewrite (contains_lookup _ _ _ _ Hj HL Hj') in Hb. congruence.
Qed.

Lemma prefix_same_lookup (l l' : list entry) k : l `prefix_of` l' -> (k < length l)%nat -> l' !! k = l !! k.
Proof. intros [x ->] Hk. by rewrite lookup_app_l. Qed.

Lemma conflict_prefix l l' L k : l `prefix_of` l' -> conflict l L k -> conflict l' L k.
Proof. intros Hp (a & b & Ha & Hb & Hne). exists a, b. split; [by eapply prefix_lookup_Some|done]. Qed.

End logs.

(** ** The protocol *)

(** A replica: its term, the log it goes on from, and the log it would start
    again with, which may have operations more that were taken back. *)
Record pnode (entry : Type) : Type := mkPnode { n_term : Z; n_mem : list entry; n_disk : list entry }.
Arguments mkPnode {entry}.
Arguments n_term {entry}.
Arguments n_mem {entry}.
Arguments n_disk {entry}.

(** The leader of a term: its log when it was elected, and now. *)
Record leadership (entry : Type) : Type := mkLeadership { l_node : uuid; l_start : list entry; l_log : list entry }.
Arguments mkLeadership {entry}.
Arguments l_node {entry}.
Arguments l_start {entry}.
Arguments l_log {entry}.

(** A vote: the last operation that the candidate told of, and the log of the
    voter. *)
Record pvote (entry : Type) : Type := mkPvote {
  v_voter : uuid;
  v_term : Z;
  v_candidate : uuid;
  v_last : OpId;
  v_log : list entry
}.
Arguments mkPvote {entry}.
Arguments v_voter {entry}.
Arguments v_term {entry}.
Arguments v_candidate {entry}.
Arguments v_last {entry}.
Arguments v_log {entry}.

(** An acknowledgement is of the first operations of the log of a term. *)
Record protocol (entry : Type) : Type := mkProtocol {
  p_nodes : gmap uuid (pnode entry);
  p_leaders : gmap Z (leadership entry);
  p_votes : list (pvote entry);
  p_acks : list (uuid * Z * nat)
}.
Arguments mkProtocol {entry}.
Arguments p_nodes {entry}.
Arguments p_leaders {entry}.
Arguments p_votes {entry}.
Arguments p_acks {entry}.

Section protocol.
Context {entry : Type} `{HasOpId entry} `{QuorumSystem}.

Definition with_mem (l : list entry) (n : pnode entry) : pnode entry := mkPnode (n_term n) l (n_disk n).
Definition with_logs (l : list entry) (n : pnode entry) : pnode entry := mkPnode (n_term n) l l.

Inductive protocol_step : protocol entry -> protocol entry -> Prop :=
| p_term N L V A i n t :
    N !! i = Some n -> n_term n <= t ->
    protocol_step (mkProtocol N L V A) (mkProtocol (<[i := mkPnode t (n_mem n) (n_disk n)]> N) L V A)
| p_vote N L V A n v :
    N !! v_voter v = Some n -> v_term v = n_term n -> L !! v_term v = None ->
    n_mem n `prefix_of` v_log v -> v_log v `prefix_of` n_disk n -> OpIdLessThan (v_last v) (last_op_id (v_log v)) = false ->
    protocol_step (mkProtocol N L V A) (mkProtocol N L (V ++ [v]) A)
| p_elect N L V A i n Q :
    N !! i = Some n -> L !! n_term n = None -> is_quorum Q ->
    (∀ u, u ∈ Q -> ∃ v, v ∈ V /\ v_voter v = u /\ v_term v = n_term n /\ v_candidate v = i /\ v_last v = last_op_id (n_mem n)) ->
    protocol_step (mkProtocol N L V A) (mkProtocol N (<[n_term n := mkLeadership i (n_mem n) (n_mem n)]> L) V A)
| p_append N L V A n ld e :
    N !! l_node ld = Some n -> L !! n_term n = Some ld -> n_mem n = l_log ld ->
    op_id_of e = mkOpId (n_term n) (Z.of_nat (length (l_log ld)) + 1) ->
    protocol_step (mkProtocol N L V A)
      (mkProtocol (<[l_node ld := with_logs (n_mem n ++ [e]) n]> N)
         (<[n_term n := mkLeadership (l_node ld) (l_start ld) (l_log ld ++ [e])]> L) V A)
| p_accept N L V A i n ld j m :
    N !! i = Some n -> L !! n_term n = Some ld -> (j <= m <= length (l_log ld))%nat ->
    take j (n_mem n) = take j (l_log ld) -> (length (n_mem n) = j \/ conflict (n_mem n) (l_log ld) j) ->
    protocol_step (mkProtocol N L V A) (mkProtocol (<[i := with_logs (take m (l_log ld)) n]> N) L V A)
| p_truncate N L V A i n ld j :
    N !! i = Some n -> L !! n_term n = Some ld -> conflict (n_mem n) (l_log ld) j ->
    protocol_step (mkProtocol N L V A) (mkProtocol (<[i := with_mem (take j (n_mem n)) n]> N) L V A)
| p_ack N L V A i n ld k :
    N !! i = Some n -> L !! n_term n = Some ld -> (k <= length (l_log ld))%nat -> contains (n_mem n) (l_log ld) k ->
    protocol_step (mkProtocol N L V A) (mkProtocol N L V (A ++ [(i, n_term n, k)]))
| p_crash N L V A i n :
    N !! i = Some n ->
    protocol_step (mkProtocol N L V A) (mkProtocol (<[i := with_mem (n_disk n) n]> N) L V A).

(** A majority has acknowledged the first [k] operations of the log of a term,
    the last of them an operation of that term. *)
Definition acked (A : list (uuid * Z * nat)) (u : uuid) (T : Z) (k : nat) : Prop := ∃ k', (k <= k')%nat /\ (u, T, k') ∈ A.

Definition committed (p : protocol entry) (T : Z) (k : nat) : Prop :=
  ∃ ld e Q, p_leaders p !! T = Some ld /\ l_log ld !! k = Some e /\ term (op_id_of e) = T /\ is_quorum Q /\
    ∀ u, u ∈ Q -> acked (p_acks p) u T (S k).

(** The operations are at the start of what was committed by a term. *)
Definition chosen (p : protocol entry) (T : Z) (l : list entry) : Prop :=
  l = [] \/ ∃ T0 ld k, T0 <= T /\ p_leaders p !! T0 = Some ld /\ committed p T0 k /\ l `prefix_of` take (S k) (l_log ld).

(** *** The invariant *)

(** Each operation came from the leader of its term, with all before it. *)
Definition from_leaders (L : gmap Z (leadership entry)) (l : list entry) : Prop :=
  ∀ k e, l !! k = Some e -> ∃ ld, L !! term (op_id_of e) = Some ld /\ (k < length (l_log ld))%nat /\ contains l (l_log ld) (S k).

(** A later leader, up to a term, did not have the operations. *)
Definition lost (L : gmap Z (leadership entry)) (T bound : Z) (l : list entry) (k : nat) : Prop :=
  ∃ T' ld', T < T' <= bound /\ L !! T' = Some ld' /\ ¬ contains (l_start ld') l k.

Record pnode_ok (L : gmap Z (leadership entry)) (n : pnode entry) : Prop := {
  pn_term : 0 <= n_term n;
  pn_mem : n_mem n `prefix_of` n_disk n;
  pn_log : log_ok (n_disk n);
  pn_from : from_leaders L (n_disk n);
  pn_terms : ∀ e, e ∈ n_disk n -> term (op_id_of e) <= n_term n
}.

Record leadership_ok (p : protocol entry) (T : Z) (ld : leadership entry) : Prop := {
  ld_term : 0 <= T;
  ld_start : l_start ld `prefix_of` l_log ld;
  ld_log : log_ok (l_log ld);
  ld_before : ∀ e, e ∈ l_start ld -> term (op_id_of e) < T;
  ld_new : ∀ k e, (length (l_start ld) <= k)%nat -> l_log ld !! k = Some e -> term (op_id_of e) = T;
  ld_from : from_leaders (p_leaders p) (l_log ld);
  ld_node : ∃ n, p_nodes p !! l_node ld = Some n /\ T <= n_term n;
  ld_elected : ∃ Q, is_quorum Q /\ ∀ u, u ∈ Q ->
    ∃ v, v ∈ p_votes p /\ v_voter v = u /\ v_term v = T /\ v_last v = last_op_id (l_start ld)
}.

Record pvote_ok (p : protocol entry) (v : pvote entry) : Prop := {
  pv_node : ∃ n, p_nodes p !! v_voter v = Some n /\ v_term v <= n_term n;
  pv_last : OpIdLessThan (v_last v) (last_op_id (v_log v)) = false;
  pv_log : log_ok (v_log v);
  pv_from : from_leaders (p_leaders p) (v_log v);
  pv_acks : ∀ T k ld, acked (p_acks p) (v_voter v) T k -> T < v_term v -> p_leaders p !! T = Some ld ->
    contains (v_log v) (l_log ld) k \/ lost (p_leaders p) T (v_term v - 1) (l_log ld) k
}.

Definition ack_ok (p : protocol entry) (u : uuid) (T : Z) (k : nat) : Prop :=
  ∃ ld n, p_leaders p !! T = Some ld /\ p_nodes p !! u = Some n /\ (k <= length (l_log ld))%nat /\ T <= n_term n /\
    ∀ j, (j <= k)%nat -> contains (n_mem n) (l_log ld) j \/ lost (p_leaders p) T (n_term n) (l_log ld) j.

Record protocol_ok (p : protocol entry) : Prop := {
  po_nodes : ∀ i n, p_nodes p !! i = Some n -> pnode_ok (p_leaders p) n;
  po_leaders : ∀ T ld, p_leaders p !! T = Some ld -> leadership_ok p T ld;
  po_votes : ∀ v, v ∈ p_votes p -> pvote_ok p v;
  po_acks : ∀ u T k, (u, T, k) ∈ p_acks p -> ack_ok p u T k
}.

(** *** Agreement *)

(** Logs with operations of one term at a place agree up to it. *)
Lemma log_matching L l l' k a b :
  from_leaders L l -> from_leaders L l' -> l !! k = Some a -> l' !! k = Some b -> term (op_id_of a) = term (op_id_of b) ->
  take (S k) l = take (S k) l'.
Proof using.
  intros Hl Hl' Ha Hb E. destruct (Hl k a Ha) as (ld & HL & Hk & Hc). destruct (Hl' k b Hb) as (ld' & HL' & Hk' & Hc').
  rewrite <- E, HL in HL'. injection HL' as <-. apply contains_take in Hc, Hc'; [congruence|lia..].
Qed.

Lemma from_leaders_prefix L l l' : l `prefix_of` l' -> from_leaders L l' -> from_leaders L l.
Proof using.
  intros Hp Hf k e Hk. destruct (Hf k e) as (ld & HL & Hlt & Hc); [by eapply prefix_lookup_Some|]. exists ld. split; [done|]. split; [done|].
  apply contains_take; [lia|]. apply contains_take in Hc; [|lia]. rewrite <- Hc. destruct Hp as [x ->].
  rewrite take_app_le; [done|]. apply lookup_lt_Some in Hk. lia.
Qed.

(** A log that ends with an operation of a term is the start of the log of its
    leader. *)
Lemma from_leaders_last L l e k : from_leaders L l -> l !! k = Some e -> length l = S k ->
  ∃ ld, L !! term (op_id_of e) = Some ld /\ l = take (S k) (l_log ld) /\ (k < length (l_log ld))%nat.
Proof using.
  intros Hf Hk Hl. destruct (Hf k e Hk) as (ld & HL & Hlt & Hc). exists ld. split; [done|]. split; [|done].
  apply contains_take in Hc; [|lia]. rewrite <- Hc, <- Hl. by rewrite take_ge.
Qed.

Lemma last_exists (l : list entry) k e : l !! k = Some e -> ∃ a, l !! (length l - 1)%nat = Some a /\ length l = S (length l - 1).
Proof using.
  intros Hk%lookup_lt_Some. destruct (lookup_lt_is_Some_2 l (length l - 1)%nat) as [a Ha]; [lia|]. exists a. split; [done|lia].
Qed.

(** The candidate that a voter found up to date contains what the voter has, or
    has operations of a term in between. *)
Lemma up_to_date p v T' ld' :
  protocol_ok p -> v ∈ p_votes p -> p_leaders p !! T' = Some ld' -> v_last v = last_op_id (l_start ld') -> v_log v ≠ [] ->
  v_log v `prefix_of` l_start ld' \/
  ∃ ld1 T1, term (last_op_id (v_log v)) < T1 < T' /\ p_leaders p !! T1 = Some ld1 /\ l_start ld1 `prefix_of` l_start ld'.
Proof using.
  intros [HN HL HV HA] Hv Hl Elast Hne. destruct (HV v Hv) as [_ Hle Hlog Hfrom _]. destruct (HL T' ld' Hl) as [_ Hst Hlog' Hbef _ Hfrom' _ _].
  pose proof (from_leaders_prefix _ _ _ Hst Hfrom') as Hfs. pose proof (log_ok_prefix _ _ Hst Hlog') as Hls.
  destruct (v_log v) as [|x xs] eqn:Ev; [done|]. rewrite <- Ev in *. destruct (last_exists (v_log v) 0 x) as (a & Ha & Hla); [by rewrite Ev|].
  destruct (from_leaders_last _ _ _ _ Hfrom Ha Hla) as (lda & HLa & Eva & _). pose proof (last_op_id_lookup _ _ _ Ha Hla) as Ela.
  rewrite Elast, Ela in Hle. rewrite Ela.
  assert (index (op_id_of a) = Z.of_nat (length (v_log v))) as Eia by (rewrite (lg_index _ Hlog _ _ Ha); lia).
  assert (l_start ld' = [] \/ ∃ y, l_start ld' !! 0%nat = Some y) as [E|[y Hy]] by (destruct (l_start ld') as [|y ys]; [by left|right; by exists y]).
  { exfalso. rewrite E in Hle. unfold OpIdLessThan in Hle. cbn in Hle. pose proof (ld_term _ _ _ (HL _ _ HLa)).
    destruct (Z.ltb_spec 0 (term (op_id_of a))); [done|]. destruct (Z.ltb_spec (term (op_id_of a)) 0); [lia|]. apply Z.ltb_ge in Hle. lia. }
  destruct (last_exists _ _ _ Hy) as (b & Hb & Hlb). rewrite (last_op_id_lookup _ _ _ Hb Hlb) in Hle.
  destruct (from_leaders_last _ _ _ _ Hfs Hb Hlb) as (ldb & HLb & Evb & Hltb).
  assert (index (op_id_of b) = Z.of_nat (length (l_start ld'))) as Eib by (rewrite (lg_index _ Hls _ _ Hb); lia).
  unfold OpIdLessThan in Hle. destruct (Z.ltb_spec (term (op_id_of b)) (term (op_id_of a))); [done|].
  destruct (Z.ltb_spec (term (op_id_of a)) (term (op_id_of b))) as [Hlt|Hge].
  - right. exists ldb, (term (op_id_of b)). split; [split; [done|apply Hbef; by apply list_elem_of_lookup_2 in Hb]|]. split; [done|].
    destruct (HL _ _ HLb) as [_ Hstb _ Hbefb _ _ _ _]. destruct (decide (length (l_start ldb) <= length (l_start ld') - 1)%nat) as [Hlen|Hlen].
    + rewrite Evb. destruct Hstb as [z ->]. rewrite take_app_ge by lia. by eexists.
    + exfalso. assert (l_start ldb !! (length (l_start ld') - 1)%nat = Some b) as Hbb.
      { rewrite <- (prefix_same_lookup _ _ _ Hstb) by lia. rewrite <- (lookup_take_lt _ (S (length (l_start ld') - 1))) by lia. by rewrite <- Evb. }
      apply list_elem_of_lookup_2, Hbefb in Hbb. lia.
  - left. apply Z.ltb_ge in Hle. replace (term (op_id_of b)) with (term (op_id_of a)) in HLb by lia. rewrite HLa in HLb. injection HLb as <-.
    rewrite Eva, Evb. apply prefix_take_le. lia.
Qed.

(** What is committed in a term is in the log of every later leader, from its
    election on. *)
Lemma leader_completeness p T k ld T' ld' :
  protocol_ok p -> committed p T k -> p_leaders p !! T = Some ld -> T < T' -> p_leaders p !! T' = Some ld' ->
  contains (l_start ld') (l_log ld) (S k).
Proof using.
  intros Hok (ld0 & e & Q & Hld0 & He & Ete & HQ & Hacks) Hld. rewrite Hld in Hld0. injection Hld0 as <-.
  assert (k < length (l_log ld))%nat as Hk by (by eapply lookup_lt_Some). remember (Z.to_nat (T' - T)) as d eqn:Ed. revert T' ld' Ed.
  induction d as [d IH] using lt_wf_ind. intros T' ld' -> Hlt Hld'.
  destruct (ld_elected _ _ _ (po_leaders _ Hok _ _ Hld')) as (Q' & HQ' & Hvotes). destruct (quorums_meet Q Q' HQ HQ') as (u & Hu & Hu').
  destruct (Hvotes u Hu') as (v & Hv & Evu & Evt & Evl). destruct (po_votes _ Hok v Hv) as [_ _ Hlog _ Hva].
  destruct (Hva T (S k) ld) as [Hc|(T1 & ld1 & HT1 & Hld1 & Hnc)]; [by rewrite Evu; apply Hacks|lia|done| |].
  2: { exfalso. apply Hnc. apply (IH (Z.to_nat (T1 - T)) ltac:(lia) T1); [done|lia|done]. }
  assert (v_log v !! k = Some e) as Hvk by (rewrite (contains_lookup _ _ _ _ (Nat.lt_succ_diag_r k) Hc); done).
  destruct (up_to_date p v T' ld' Hok Hv Hld' Evl) as [Hp|(ld1 & T1 & HT1 & Hld1 & Hp)]; [by intros E; rewrite E in Hvk|by eapply contains_prefix|].
  assert (T <= term (last_op_id (v_log v))) as HT.
  { destruct (last_exists _ _ _ Hvk) as (a & Ha & Hla). rewrite (last_op_id_lookup _ _ _ Ha Hla), <- Ete. apply (lg_terms _ Hlog k (length (v_log v) - 1)%nat); [|done..].
    apply lookup_lt_Some in Hvk. lia. }
  eapply contains_prefix; [|exact Hp]. apply (IH (Z.to_nat (T1 - T)) ltac:(lia) T1); [done|lia|done].
Qed.

Lemma chosen_leader p T l T' ld' : protocol_ok p -> chosen p T l -> T <= T' -> p_leaders p !! T' = Some ld' -> l `prefix_of` l_log ld'.
Proof using.
  intros Hok [->|(T0 & ld & k & HT0 & Hld & Hc & Hl)] HT Hld'; [apply prefix_nil|]. etrans; [exact Hl|].
  destruct (decide (T0 = T')) as [->|Hne]; [rewrite Hld in Hld'; injection Hld' as <-; apply prefix_take|].
  etrans; [|apply (ld_start _ _ _ (po_leaders _ Hok _ _ Hld'))]. apply (leader_completeness p T0 k ld T' ld'); try done. lia.
Qed.

(** Of two sequences of committed operations one is the start of the other. *)
Lemma chosen_comparable p T l T' l' : protocol_ok p -> chosen p T l -> chosen p T' l' -> l `prefix_of` l' \/ l' `prefix_of` l.
Proof using.
  intros Hok Hl Hl'. pose proof Hl as [->|(T0 & ld & k & _ & Hld & Hc & Hp)]; [left; apply prefix_nil|].
  pose proof Hl' as [->|(T0' & ld' & k' & _ & Hld' & Hc' & Hp')]; [right; apply prefix_nil|].
  assert (chosen p T0 l) as H1 by (right; exists T0, ld, k; done). assert (chosen p T0' l') as H2 by (right; exists T0', ld', k'; done).
  destruct (Z.le_ge_cases T0 T0') as [Hle|Hle].
  - apply (prefix_weak_total _ _ (l_log ld')); [by eapply (chosen_leader p T0)|by eapply (chosen_leader p T0')].
  - apply (prefix_weak_total _ _ (l_log ld)); [by eapply (chosen_leader p T0)|by eapply (chosen_leader p T0')].
Qed.

(** *** The steps keep the invariant *)

Definition leaders_grow (L L' : gmap Z (leadership entry)) : Prop :=
  ∀ T ld, L !! T = Some ld -> ∃ ld', L' !! T = Some ld' /\ l_start ld' = l_start ld /\ l_log ld `prefix_of` l_log ld'.

#[local] Instance leaders_grow_refl : Reflexive leaders_grow.
Proof using. intros L T ld Hl. by exists ld. Qed.

Lemma from_leaders_grow L L' l : leaders_grow L L' -> from_leaders L l -> from_leaders L' l.
Proof using.
  intros Hg Hf k e Hk. destruct (Hf k e Hk) as (ld & HL & Hlt & Hc). destruct (Hg _ _ HL) as (ld' & HL' & _ & Hp). exists ld'.
  split; [done|]. split; [apply prefix_length in Hp; lia|]. by apply (contains_grow l (l_log ld)); [lia|..].
Qed.

Lemma lost_grow L L' T b l l' k : leaders_grow L L' -> (k <= length l)%nat -> l `prefix_of` l' -> lost L T b l k -> lost L' T b l' k.
Proof using.
  intros Hg Hk Hp (T1 & ld1 & HT1 & HL & Hn). destruct (Hg _ _ HL) as (ld' & HL' & Es & _). exists T1, ld'. split; [done|]. split; [done|].
  rewrite Es. by rewrite <- (contains_grow _ l).
Qed.

Lemma lost_le L T b b' l k : b <= b' -> lost L T b l k -> lost L T b' l k.
Proof using. intros Hb (T1 & ld1 & HT1 & HL & Hn). exists T1, ld1. split; [lia|done]. Qed.

(** A replica changes its log or its term. *)
Lemma node_change_ok N L V A i n n' :
  protocol_ok (mkProtocol N L V A) -> N !! i = Some n -> pnode_ok L n' -> n_term n <= n_term n' ->
  (∀ T ld j, L !! T = Some ld -> T <= n_term n -> (j <= length (l_log ld))%nat -> contains (n_mem n) (l_log ld) j ->
     contains (n_mem n') (l_log ld) j \/ lost L T (n_term n') (l_log ld) j) ->
  protocol_ok (mkProtocol (<[i := n']> N) L V A).
Proof using.
  intros [HN HL HV HA] Hi Hn' Hterm Hkeep. cbn in *.
  assert (∀ j x, N !! j = Some x -> ∃ x', <[i := n']> N !! j = Some x' /\ n_term x <= n_term x') as Hnode.
  { intros j x Hj. destruct (decide (i = j)) as [->|Hne]; [rewrite lookup_insert_eq; rewrite Hi in Hj; injection Hj as <-; by exists n'|].
    rewrite lookup_insert_ne by done. by exists x. }
  split; cbn.
  - intros j x Hj. destruct (decide (i = j)) as [->|Hne]; [rewrite lookup_insert_eq in Hj; by injection Hj as <-|].
    rewrite lookup_insert_ne in Hj by done. by apply (HN j).
  - intros T ld HT. destruct (HL T ld HT) as [? ? ? ? ? ? (x & Hx & ?) ?]. split; try done. destruct (Hnode _ _ Hx) as (x' & ? & ?). exists x'. split; [done|lia].
  - intros v Hv. destruct (HV v Hv) as [(x & Hx & ?) ? ? ? ?]. split; try done. destruct (Hnode _ _ Hx) as (x' & ? & ?). exists x'. split; [done|lia].
  - intros u T k Hin. destruct (HA u T k Hin) as (ld & x & HT & Hx & Hk & HTx & Hc). cbn in *. destruct (decide (i = u)) as [->|Hne].
    + rewrite Hi in Hx. injection Hx as <-. exists ld, n'. cbn. rewrite lookup_insert_eq. split; [done|]. split; [done|]. split; [done|]. split; [lia|].
      intros j Hj. destruct (Hc j Hj) as [Hcj|Hl]; [apply Hkeep; (done || lia)|right; by eapply lost_le].
    + exists ld, x. cbn. rewrite lookup_insert_ne by done. done.
Qed.

(** The log of a leader grows, or a term gets its leader. *)
Lemma leaders_change_ok N L V A T ld :
  protocol_ok (mkProtocol N L V A) -> leaders_grow L (<[T := ld]> L) -> leadership_ok (mkProtocol N (<[T := ld]> L) V A) T ld ->
  protocol_ok (mkProtocol N (<[T := ld]> L) V A).
Proof using.
  intros [HN HL HV HA] Hg Hld. cbn in *. split; cbn.
  - intros i n Hi. destruct (HN i n Hi) as [? ? ? ? ?]. split; try done. by eapply from_leaders_grow.
  - intros T' ld' HT'. destruct (decide (T = T')) as [->|Hne]; [rewrite lookup_insert_eq in HT'; by injection HT' as <-|].
    rewrite lookup_insert_ne in HT' by done. destruct (HL T' ld' HT'). split; try done. by eapply from_leaders_grow.
  - intros v Hv. destruct (HV v Hv) as [? ? ? ? Hacks]. split; try done; [by eapply from_leaders_grow|]. cbn in *. intros T' k ld' Hak HT' Hl.
    destruct (L !! T') as [ld0|] eqn:E.
    + destruct (Hg _ _ E) as (ld1 & E1 & _ & Hp). rewrite Hl in E1. injection E1 as <-. destruct Hak as (k' & Hk' & Hin).
      destruct (HA _ _ _ Hin) as (ld1 & ? & E1 & _ & Hlen & _). cbn in E1. rewrite E in E1. injection E1 as <-.
      destruct (Hacks T' k ld0) as [Hc|Hlost]; [by exists k'|done|done| |].
      * left. by apply (contains_grow _ (l_log ld0)); [lia|..].
      * right. apply (lost_grow L _ _ _ (l_log ld0)); try done. lia.
    + destruct Hak as (k' & _ & Hin). destruct (HA _ _ _ Hin) as (ld1 & ? & E1 & _). cbn in E1. congruence.
  - intros u T' k Hin. destruct (HA u T' k Hin) as (ld0 & n & HT & Hn & Hk & HTn & Hc). cbn in *. destruct (Hg _ _ HT) as (ld1 & E1 & _ & Hp).
    exists ld1, n. cbn. split; [done|]. split; [done|]. split; [apply prefix_length in Hp; lia|]. split; [done|]. intros j Hj.
    destruct (Hc j Hj) as [Hcj|Hl]; [left; by apply (contains_grow _ (l_log ld0)); [lia|..]|right].
    apply (lost_grow L _ _ _ (l_log ld0)); try done. lia.
Qed.

Lemma elect_ok N L V A i n Q :
  protocol_ok (mkProtocol N L V A) -> N !! i = Some n -> L !! n_term n = None -> is_quorum Q ->
  (∀ u, u ∈ Q -> ∃ v, v ∈ V /\ v_voter v = u /\ v_term v = n_term n /\ v_candidate v = i /\ v_last v = last_op_id (n_mem n)) ->
  protocol_ok (mkProtocol N (<[n_term n := mkLeadership i (n_mem n) (n_mem n)]> L) V A).
Proof using.
  intros Hok Hi Hn HQ Hv. destruct (po_nodes _ Hok i n Hi) as [Hpos Hmem Hlog Hfrom Hterms]. cbn in *.
  assert (leaders_grow L (<[n_term n := mkLeadership i (n_mem n) (n_mem n)]> L)) as Hg.
  { intros T ld Hl. exists ld. rewrite lookup_insert_ne by congruence. done. }
  assert (∀ e, e ∈ n_mem n -> term (op_id_of e) < n_term n) as Hlt.
  { intros e [k Hk]%list_elem_of_lookup_1. pose proof (prefix_lookup_Some _ _ _ _ Hk Hmem) as Hk'.
    destruct (Hfrom k e Hk') as (ld & HL & _). assert (term (op_id_of e) ≠ n_term n) by congruence.
    specialize (Hterms e (list_elem_of_lookup_2 _ _ _ Hk')). lia. }
  apply leaders_change_ok; [done|done|]. split; cbn; try done.
  - by eapply log_ok_prefix.
  - intros k e Hk He%lookup_lt_Some. lia.
  - eapply from_leaders_grow; [exact Hg|]. by eapply from_leaders_prefix.
  - by exists n.
  - exists Q. split; [done|]. intros u Hu. destruct (Hv u Hu) as (v & ? & ? & ? & _ & ?). by exists v.
Qed.

Lemma append_ok N L V A n ld e :
  protocol_ok (mkProtocol N L V A) -> N !! l_node ld = Some n -> L !! n_term n = Some ld -> n_mem n = l_log ld ->
  op_id_of e = mkOpId (n_term n) (Z.of_nat (length (l_log ld)) + 1) ->
  protocol_ok (mkProtocol (<[l_node ld := with_logs (n_mem n ++ [e]) n]> N)
    (<[n_term n := mkLeadership (l_node ld) (l_start ld) (l_log ld ++ [e])]> L) V A).
Proof using.
  intros Hok Hi Hld Em Ee. destruct (po_nodes _ Hok _ n Hi) as [Hpos Hmem Hlog Hfrom Hterms]. destruct (po_leaders _ Hok _ _ Hld) as [Ht Hst Hll Hbef Hnew Hlf Hnode Hel].
  cbn in *. set (ld' := mkLeadership _ _ (l_log ld ++ [e])). set (L' := <[_ := ld']> L).
  assert (leaders_grow L L') as Hg.
  { intros T x Hx. destruct (decide (n_term n = T)) as [<-|Hne].
    - rewrite Hld in Hx. injection Hx as <-. exists ld'. unfold L'. rewrite lookup_insert_eq. split; [done|]. split; [done|]. by exists [e].
    - exists x. unfold L'. rewrite lookup_insert_ne by done. done. }
  assert (∀ a, a ∈ l_log ld -> term (op_id_of a) <= n_term n) as Hle.
  { intros a Ha. apply Hterms. rewrite <- Em in Ha. destruct Hmem as [x ->]. set_solver. }
  assert (log_ok (l_log ld ++ [e])) as Hll' by (apply log_ok_snoc; [done|by rewrite Ee|intros a Ha; rewrite Ee; by apply Hle]).
  assert (from_leaders L' (l_log ld ++ [e])) as Hlf'.
  { intros k x [Hk|[Hk Hx]]%lookup_app_Some.
    - destruct (from_leaders_grow L L' _ Hg Hlf k x Hk) as (y & Hy & Hlt & Hc). exists y. split; [done|]. split; [done|]. eapply contains_prefix; [done|by exists [e]].
    - apply list_lookup_singleton_Some in Hx as [Hz <-]. exists ld'. rewrite Ee. cbn [term]. unfold L'. rewrite lookup_insert_eq. split; [done|].
      cbn [l_log ld']. split; [rewrite length_app; cbn; lia|apply contains_self]. }
  apply (node_change_ok N L' V A _ n); [|done|split; cbn|done|].
  - apply leaders_change_ok; [done|done|]. split; cbn; try done; [by apply prefix_app_r|].
    intros k x Hk [Hx|[? Hx]]%lookup_app_Some; [by apply (Hnew k)|]. apply list_lookup_singleton_Some in Hx as [_ <-]. by rewrite Ee.
  - done.
  - done.
  - by rewrite Em.
  - by rewrite Em.
  - rewrite Em. intros a [Ha| ->%list_elem_of_singleton]%elem_of_app; [by apply Hle|by rewrite Ee].
  - intros T x j HT HTn Hj Hc. left. cbn. eapply contains_prefix; [exact Hc|by exists [e]].
Qed.

Lemma take_from L l k : from_leaders L l -> from_leaders L (take k l).
Proof using. apply from_leaders_prefix, prefix_take. Qed.

(** What a follower loses by taking over the log of a leader, that leader does
    not have. *)
Lemma overwritten_lost L n T0 T ld0 ld j k :
  L !! T0 = Some ld0 -> L !! T = Some ld -> l_start ld `prefix_of` l_log ld -> T0 <= T -> (k <= length (l_log ld0))%nat ->
  contains (n_mem n) (l_log ld0) k -> conflict (n_mem n) (l_log ld) j -> (j < k)%nat -> T = n_term n -> lost L T0 (n_term n) (l_log ld0) k.
Proof using.
  intros Hl0 Hl1 Hst HT Hk Hc Hconf Hj ->. assert (¬ contains (l_log ld) (l_log ld0) k) as Hn by (intros Hc'; by eapply conflict_contains).
  destruct (decide (T0 = n_term n)) as [->|Hne]; [rewrite Hl0 in Hl1; injection Hl1 as <-; exfalso; apply Hn, contains_self|].
  exists (n_term n), ld. split; [lia|]. split; [done|]. intros Hc'. apply Hn. by eapply contains_prefix.
Qed.

Lemma accept_ok N L V A i n ld j m :
  protocol_ok (mkProtocol N L V A) -> N !! i = Some n -> L !! n_term n = Some ld -> (j <= m <= length (l_log ld))%nat ->
  take j (n_mem n) = take j (l_log ld) -> (length (n_mem n) = j \/ conflict (n_mem n) (l_log ld) j) ->
  protocol_ok (mkProtocol (<[i := with_logs (take m (l_log ld)) n]> N) L V A).
Proof using.
  intros Hok Hi Hld Hm Hsame Hend. destruct (po_nodes _ Hok i n Hi) as [Hpos Hmem Hlog Hfrom Hterms]. destruct (po_leaders _ Hok _ _ Hld) as [Ht Hst Hll Hbef Hnew Hlf Hnode Hel].
  cbn in *. apply (node_change_ok N L V A i n); [done|done|split; cbn|done|]; try done.
  - by apply log_ok_take.
  - by apply take_from.
  - intros e [k Hk]%list_elem_of_lookup_1. apply (prefix_lookup_Some _ (l_log ld)) in Hk; [|apply prefix_take].
    destruct (decide (length (l_start ld) <= k)%nat) as [Hge|Hlt]; [by rewrite (Hnew k e Hge Hk)|].
    rewrite (prefix_same_lookup (l_start ld)) in Hk by (done || lia). apply list_elem_of_lookup_2, Hbef in Hk. lia.
  - intros T ld0 k HT HTn Hk Hc. cbn. destruct (decide (k <= j)%nat) as [Hkj|Hkj].
    + left. unfold contains in *. assert (take k (l_log ld0) = take k (take j (n_mem n))) as ->.
      { apply contains_take in Hc; [|done]. rewrite take_take, <- Hc. f_equal. lia. }
      rewrite Hsame, take_take. apply prefix_take_le. lia.
    + right. destruct Hend as [Hend|Hconf]; [apply contains_length in Hc; lia|].
      apply (overwritten_lost L n T (n_term n) ld0 ld j k); try done. lia.
Qed.

Lemma truncate_ok N L V A i n ld j :
  protocol_ok (mkProtocol N L V A) -> N !! i = Some n -> L !! n_term n = Some ld -> conflict (n_mem n) (l_log ld) j ->
  protocol_ok (mkProtocol (<[i := with_mem (take j (n_mem n)) n]> N) L V A).
Proof using.
  intros Hok Hi Hld Hconf. destruct (po_nodes _ Hok i n Hi) as [Hpos Hmem Hlog Hfrom Hterms]. pose proof (ld_start _ _ _ (po_leaders _ Hok _ _ Hld)) as Hst.
  cbn in *. apply (node_change_ok N L V A i n); [done|done|split; cbn|done|]; try done.
  - etrans; [apply prefix_take|done].
  - intros T ld0 k HT HTn Hk Hc. cbn. destruct (decide (k <= j)%nat) as [Hkj|Hkj].
    + left. apply contains_take; [done|]. rewrite take_take. apply contains_take in Hc; [|done]. rewrite <- Hc. f_equal. lia.
    + right. apply (overwritten_lost L n T (n_term n) ld0 ld j k); try done. lia.
Qed.

Lemma vote_step_ok N L V A n v :
  protocol_ok (mkProtocol N L V A) -> N !! v_voter v = Some n -> v_term v = n_term n -> L !! v_term v = None ->
  n_mem n `prefix_of` v_log v -> v_log v `prefix_of` n_disk n -> OpIdLessThan (v_last v) (last_op_id (v_log v)) = false ->
  protocol_ok (mkProtocol N L (V ++ [v]) A).
Proof using.
  intros [HN HL HV HA] Hi Et Hnone Hmem Hdisk Hle. cbn in *. destruct (HN _ n Hi) as [Hpos Hmd Hlog Hfrom Hterms]. split; cbn; try done.
  - intros T ld HT. destruct (HL T ld HT) as [? ? ? ? ? ? ? (Q & HQ & Hv)]. split; try done. exists Q. split; [done|]. intros u Hu.
    destruct (Hv u Hu) as (w & Hw & ?). exists w. split; [apply elem_of_app; by left|done].
  - intros w [Hw| ->%list_elem_of_singleton]%elem_of_app; [destruct (HV w Hw); by split|]. split; cbn; try done.
    + exists n. split; [done|lia].
    + by eapply log_ok_prefix.
    + by eapply from_leaders_prefix.
    + intros T k ld (k' & Hk' & Hin) HT Hld. destruct (HA _ _ _ Hin) as (ld' & n' & Hld' & Hn' & _ & _ & Hc). cbn in *.
      rewrite Hld in Hld'. injection Hld' as <-. rewrite Hi in Hn'. injection Hn' as <-. destruct (Hc k Hk') as [Hck|(T1 & ld1 & HT1 & Hl1 & Hn)].
      * left. by eapply contains_prefix.
      * right. exists T1, ld1. split; [|done]. assert (T1 ≠ v_term v) by congruence. lia.
Qed.

Lemma ack_step_ok N L V A i n ld k :
  protocol_ok (mkProtocol N L V A) -> N !! i = Some n -> L !! n_term n = Some ld -> (k <= length (l_log ld))%nat -> contains (n_mem n) (l_log ld) k ->
  protocol_ok (mkProtocol N L V (A ++ [(i, n_term n, k)])).
Proof using.
  intros [HN HL HV HA] Hi Hld Hk Hc. cbn in *. split; cbn; try done.
  - intros T x HT. destruct (HL T x HT). by split.
  - intros v Hv. destruct (HV v Hv) as [Hnode ? ? ? Hacks]. split; try done. cbn. intros T j x (j' & Hj & [Hin|E%list_elem_of_singleton]%elem_of_app) HT Hx.
    + apply Hacks; [by exists j'|done|done].
    + injection E as Ev -> ->. destruct Hnode as (n' & Hn' & Hle). cbn in Hn'. rewrite Ev, Hi in Hn'. injection Hn' as <-. lia.
  - intros u T j [Hin|[= -> -> ->]%list_elem_of_singleton]%elem_of_app; [by apply HA|]. exists ld, n. cbn. split; [done|]. split; [done|]. split; [done|]. split; [done|].
    intros j Hj. left. by eapply contains_le.
Qed.

Lemma protocol_step_ok p p' : protocol_ok p -> protocol_step p p' -> protocol_ok p'.
Proof using.
  intros Hok Hs. destruct Hs as [N L V A i n t Hi Ht|N L V A n v Hi Et Hn Hm Hd Hle|N L V A i n Q Hi Hn HQ Hv|N L V A n ld e Hi Hld Em Ee|N L V A i n ld j m Hi Hld Hm Hsame Hend
    |N L V A i n ld j Hi Hld Hc|N L V A i n ld k Hi Hld Hk Hc|N L V A i n Hi].
  - destruct (po_nodes _ Hok i n Hi) as [? ? ? ? Hterms]. apply (node_change_ok N L V A i n); [done|done| |done|by left]. split; cbn; try done; [lia|].
    intros e He%Hterms. lia.
  - by eapply vote_step_ok.
  - by eapply elect_ok.
  - by eapply append_ok.
  - by eapply accept_ok.
  - by eapply truncate_ok.
  - by eapply ack_step_ok.
  - destruct (po_nodes _ Hok i n Hi) as [? ? ? ? ?]. apply (node_change_ok N L V A i n); [done|done|by split|done|]. intros T ld j _ _ _ Hc. left. by eapply contains_prefix.
Qed.

Lemma protocol_steps_ok p p' : protocol_ok p -> rtc protocol_step p p' -> protocol_ok p'.
Proof using. intros Hok Hs. induction Hs as [|p1 p2 p3 Hs _ IH]; [done|]. by eapply IH, protocol_step_ok. Qed.

(** What is committed stays so. *)
Lemma committed_mono N L V A N' L' V' A' T k :
  leaders_grow L L' -> (∀ a, a ∈ A -> a ∈ A') -> committed (mkProtocol N L V A) T k -> committed (mkProtocol N' L' V' A') T k.
Proof using.
  intros Hg HA (ld & e & Q & Hld & He & Et & HQ & Hk). destruct (Hg _ _ Hld) as (ld' & Hld' & _ & Hp). exists ld', e, Q. split; [done|].
  split; [by eapply prefix_lookup_Some|]. split; [done|]. split; [done|]. intros u Hu. destruct (Hk u Hu) as (j & Hj & Hin). exists j. auto.
Qed.

Lemma chosen_mono N L V A N' L' V' A' T l :
  leaders_grow L L' -> (∀ a, a ∈ A -> a ∈ A') -> chosen (mkProtocol N L V A) T l -> chosen (mkProtocol N' L' V' A') T l.
Proof using.
  intros Hg HA [->|(T0 & ld & k & HT & Hld & Hc & Hl)]; [by left|right]. destruct (Hg _ _ Hld) as (ld' & Hld' & _ & Hp).
  exists T0, ld', k. split; [done|]. split; [done|]. split; [by eapply committed_mono|]. etrans; [exact Hl|].
  destruct Hc as (ld1 & e & Q & Hld1 & He & _). cbn in *. rewrite Hld in Hld1. injection Hld1 as <-. apply lookup_lt_Some in He.
  destruct Hp as [x ->]. rewrite take_app_le by lia. done.
Qed.

Lemma step_leaders_grow p p' : protocol_step p p' -> leaders_grow (p_leaders p) (p_leaders p') /\ ∀ a, a ∈ p_acks p -> a ∈ p_acks p'.
Proof using.
  intros Hs. destruct Hs as [N L V A i n t Hi Ht|N L V A n v Hi Et Hn Hm Hd Hle|N L V A i n Q Hi Hn HQ Hv|N L V A n ld e Hi Hld Em Ee|N L V A i n ld j m Hi Hld Hm Hsame Hend
    |N L V A i n ld j Hi Hld Hc|N L V A i n ld k Hi Hld Hk Hc|N L V A i n Hi]; cbn; try done.
  - split; [|done]. intros T ld HT. exists ld. rewrite lookup_insert_ne by congruence. done.
  - split; [|done]. intros T x HT. destruct (decide (n_term n = T)) as [<-|Hne].
    + rewrite Hld in HT. injection HT as <-. rewrite lookup_insert_eq. eexists. split; [done|]. split; [done|]. by exists [e].
    + rewrite lookup_insert_ne by done. by exists x.
  - split; [done|]. set_solver.
Qed.

Lemma chosen_step p p' T l : protocol_step p p' -> chosen p T l -> chosen p' T l.
Proof using.
  intros Hs. destruct (step_leaders_grow _ _ Hs) as [Hg HA]. destruct p, p'. by apply chosen_mono.
Qed.

Lemma chosen_le p T T' l : T <= T' -> chosen p T l -> chosen p T' l.
Proof using. intros HT [->|(T0 & ld & k & HT0 & Hr)]; [by left|right]. exists T0, ld, k. split; [lia|done]. Qed.

Lemma chosen_prefix p T l l' : l `prefix_of` l' -> chosen p T l' -> chosen p T l.
Proof using.
  intros Hp [->|(T0 & ld & k & HT0 & Hld & Hc & Hl)]; [apply prefix_nil_inv in Hp as ->; by left|right].
  exists T0, ld, k. split; [done|]. split; [done|]. split; [done|]. by etrans.
Qed.

End protocol.
