(* ===== verification/ReplicaLog.v ===== *)
(** * The log of a replica ([src/yb/consensus/replica_state.cc],
    [raft_consensus.cc], [log_cache.cc])

    The operations that a replica has received and not yet committed, how a
    leader adds to them, how a follower takes them over from a leader, and how
    they are committed or aborted. *)

From S2P Require Import Prelude MonoTime HybridTime Quorum RetryableRequests LeaderElection ConsensusMeta RaftElection ConsensusQueue LeaderLease RaftProtocol.
Local Open Scope Z_scope.

(** ** Data *)

Inductive OperationType : Type :=
| UNKNOWN_OP | NO_OP | WRITE_OP | CHANGE_METADATA_OP | CHANGE_CONFIG_OP | UPDATE_TRANSACTION_OP | SNAPSHOT_OP | TRUNCATE_OP.

#[export] Instance OperationType_eq_dec : EqDecision OperationType.
Proof. solve_decision. Defined.

Record ChangeConfigRecordPB : Type := mkChangeConfigRecordPB {
  old_config : RaftConfigPB;
  new_config : RaftConfigPB
}.

(** A [ReplicateMsg]: its id and write request are those of
    [RetryableRequests]; the requests of other types are bytes. *)
Record Operation : Type := mkOperation {
  op_msg : ReplicateMsg;
  op_type : OperationType;
  op_hybrid_time : Z;
  op_change_config : option ChangeConfigRecordPB;
  op_committed : OpId;
  op_payload : list Z
}.

Definition op_id (op : Operation) : OpId := msg_id (op_msg op).
#[export] Instance Operation_id : HasOpId Operation := op_id.

Definition with_op_id (id : OpId) (op : Operation) : Operation :=
  mkOperation (mkReplicateMsg id (write_request (op_msg op))) (op_type op) (op_hybrid_time op) (op_change_config op) (op_committed op)
    (op_payload op).

(** A [ConsensusRound]. *)
Record Round : Type := mkRound {
  round_num : nat;
  round_op : Operation;
  round_bound : Z
}.

Definition kUnboundTerm : Z := -1.
Definition round_id (r : Round) : OpId := op_id (round_op r).
Definition to_round (r : Round) : ConsensusRound := mkConsensusRound (round_num r) (op_msg (round_op r)) (round_bound r).

(** The part of [ReplicaState] about the log. [log_] is what the log cache and
    the log hold, by index from 1; [applied] is the history of the operations
    that were finished with success. *)
Record LogState : Type := mkLogState {
  next_index_ : Z;
  last_committed_op_id_ : OpId;
  pending_operations_ : list Round;
  leader_no_op_committed_ : bool;
  shutting_down : bool;
  retryable_requests_ : RetryableRequests.Impl;
  log_ : list Operation;
  applied : list Operation
}.

Record Replica : Type := mkReplica { consensus : RaftConsensus; rlog : LogState }.

Definition with_consensus (c : RaftConsensus) (s : Replica) : Replica := mkReplica c (rlog s).
Definition with_rlog (l : LogState) (s : Replica) : Replica := mkReplica (consensus s) l.
Definition with_next_index (i : Z) (s : Replica) : Replica :=
  let l := rlog s in
  with_rlog (mkLogState i (last_committed_op_id_ l) (pending_operations_ l) (leader_no_op_committed_ l) (shutting_down l)
    (retryable_requests_ l) (log_ l) (applied l)) s.
Definition with_last_committed (id : OpId) (s : Replica) : Replica :=
  let l := rlog s in
  with_rlog (mkLogState (next_index_ l) id (pending_operations_ l) (leader_no_op_committed_ l) (shutting_down l)
    (retryable_requests_ l) (log_ l) (applied l)) s.
Definition with_pending (p : list Round) (s : Replica) : Replica :=
  let l := rlog s in
  with_rlog (mkLogState (next_index_ l) (last_committed_op_id_ l) p (leader_no_op_committed_ l) (shutting_down l)
    (retryable_requests_ l) (log_ l) (applied l)) s.
Definition with_no_op_committed (b : bool) (s : Replica) : Replica :=
  let l := rlog s in
  with_rlog (mkLogState (next_index_ l) (last_committed_op_id_ l) (pending_operations_ l) b (shutting_down l)
    (retryable_requests_ l) (log_ l) (applied l)) s.
Definition with_retryable (m : RetryableRequests.Impl) (s : Replica) : Replica :=
  let l := rlog s in
  with_rlog (mkLogState (next_index_ l) (last_committed_op_id_ l) (pending_operations_ l) (leader_no_op_committed_ l) (shutting_down l)
    m (log_ l) (applied l)) s.
Definition with_log (ops : list Operation) (s : Replica) : Replica :=
  let l := rlog s in
  with_rlog (mkLogState (next_index_ l) (last_committed_op_id_ l) (pending_operations_ l) (leader_no_op_committed_ l) (shutting_down l)
    (retryable_requests_ l) ops (applied l)) s.
Definition with_applied (ops : list Operation) (s : Replica) : Replica :=
  let l := rlog s in
  with_rlog (mkLogState (next_index_ l) (last_committed_op_id_ l) (pending_operations_ l) (leader_no_op_committed_ l) (shutting_down l)
    (retryable_requests_ l) (log_ l) ops) s.

(** [last_received_op_id_] and [last_received_op_id_current_leader_]. *)
Definition with_received (id current_leader : OpId) (s : Replica) : Replica :=
  let c := consensus s in
  with_consensus (mkRaftConsensus (cmeta_ c) (RaftElection.running c) id current_leader (pending_election_opid_ c)
    (old_leader_lease_ c) (old_leader_ht_lease_ c) (majority_replicated_lease_expiration_ c)
    (majority_replicated_ht_lease_expiration_ c) (withhold_votes_until_ c) (failed_elections_since_stable_leader_ c)
    (disable_pre_elections_until_ c)) s.

Definition GetLastReceivedOpIdUnlocked (s : Replica) : OpId := last_received_op_id_ (consensus s).
Definition GetLastReceivedOpIdCurLeaderUnlocked (s : Replica) : OpId := last_received_op_id_current_leader_ (consensus s).
Definition GetCommittedOpIdUnlocked (s : Replica) : OpId := last_committed_op_id_ (rlog s).
Definition pending (s : Replica) : list Round := pending_operations_ (rlog s).
Definition current_term_of (s : Replica) : Z := GetCurrentTermUnlocked (consensus s).
Definition role_of (s : Replica) : Role := GetActiveRoleUnlocked (consensus s).

Definition GetLastPendingOperationOpIdUnlocked (s : Replica) : OpId :=
  match last (pending s) with Some r => round_id r | None => MinimumOpId end.

(** What a call finds around it: the environment of elections, the clock of the
    retryable requests, flags, the tablet ([StartReplicaOperation],
    [ShouldApplyWrite], first for the early commit, and
    [HandleConsensusAppend], which sets the time and the contents of an
    operation), [SafeOpIdWaiter], which is a pointer, and the outcome of
    [Log::AsyncAppendReplicates]. *)
Record LogEnv : Type := mkLogEnv {
  raft_env : Env;
  log_now : Z;
  FLAGS_log_ht_lease_duration_ms : Z;
  FLAGS_follower_fail_all_prepare : bool;
  StartReplicaOperation : Operation -> Result unit;
  ShouldApplyWrite : bool -> Operation -> bool;
  HandleConsensusAppend : Operation -> Z * list Z;
  safe_op_id_waiter_ : option (OpId -> OpId);
  AsyncAppendReplicates : Result unit
}.

(** An operation on a replica that may fail; what it changed before stays. *)
Abbreviation LogOp A := (Outcome (Replica * Result A)).

Definition log_bind {A B : Type} (m : LogOp A) (k : A -> Replica -> LogOp B) : LogOp B :=
  match m with
  | Done (s, Ok a) => k a s
  | Done (s, Error c) => Done (s, Error c)
  | Fatal => Fatal
  | Undefined => Undefined
  end.

Definition lift_op {A : Type} (f : RaftConsensus -> Op A) (s : Replica) : LogOp A :=
  '(c, r) ← f (consensus s);
  Done (with_consensus c s, r).

(** [Result<bool>] may hold a status that is OK and no value. *)
Inductive ResultBool : Type := BoolValue (b : bool) | BoolFailed (status : Result unit).

Definition ResultToStatus (r : ResultBool) : Result unit := match r with BoolValue _ => Ok tt | BoolFailed s => s end.

Section replica_log.
Context (release : bool) (RangeTimeLimit : Z) (env : LogEnv).

(** ** Configurations *)

Definition RefreshLeaderStateCacheUnlocked (s : Replica) : Outcome Replica :=
  '(c, _) ← GetLeaderStateUnlocked release (raft_env env) (leader_no_op_committed_ (rlog s)) true (consensus s);
  Done (with_consensus c s).

Definition SetLeaderNoOpCommittedUnlocked (value : bool) (s : Replica) : Outcome Replica :=
  RefreshLeaderStateCacheUnlocked (with_no_op_committed value s).

Definition change_cmeta (f : ConsensusMetadata -> ConsensusMetadata) (s : Replica) : Replica :=
  with_consensus (with_cmeta (f (cmeta_ (consensus s))) (consensus s)) s.

Definition IsConfigChangePendingUnlocked (s : Replica) : bool := bool_decide (is_Some (pending_config_ (cmeta_ (consensus s)))).

Definition CheckNoConfigChangePendingUnlocked (s : Replica) : Result unit :=
  if IsConfigChangePendingUnlocked s then Error IllegalState else Ok tt.

Definition SetPendingConfigUnlocked (config : RaftConfigPB) (s : Replica) : LogOp unit :=
  match VerifyRaftConfig config UNCOMMITTED_QUORUM with
  | Error c => Done (s, Error c)
  | Ok _ =>
      _ ← CHECK (negb (IsConfigChangePendingUnlocked s));
      s ← RefreshLeaderStateCacheUnlocked (change_cmeta (set_pending_config config) s);
      Done (s, Ok tt)
  end.

Definition ClearPendingConfigUnlocked (s : Replica) : LogOp unit :=
  if negb (IsConfigChangePendingUnlocked s) then Done (s, Error IllegalState)
  else
    s ← RefreshLeaderStateCacheUnlocked (change_cmeta clear_pending_config s);
    Done (s, Ok tt).

Definition clear_opid_index (config : RaftConfigPB) : RaftConfigPB := mkRaftConfigPB None (peers config).

Definition SetCommittedConfigUnlocked (config : RaftConfigPB) (s : Replica) : LogOp unit :=
  match VerifyRaftConfig config COMMITTED_QUORUM with
  | Error c => Done (s, Error c)
  | Ok _ =>
      match pending_config_ (cmeta_ (consensus s)) with
      | None => Fatal
      | Some pending_config =>
          _ ← CHECK (bool_decide (opid_index pending_config = None /\ peers pending_config = peers (clear_opid_index config)));
          s ← RefreshLeaderStateCacheUnlocked (change_cmeta (λ m, clear_pending_config (set_committed_config config m)) s);
          m ← CHECK_OK (Flush (cmeta_ (consensus s)));
          Done (with_consensus (with_cmeta m (consensus s)) s, Ok tt)
      end
  end.

Definition change_config_record (op : Operation) : ChangeConfigRecordPB :=
  default (mkChangeConfigRecordPB (mkRaftConfigPB None []) (mkRaftConfigPB None [])) (op_change_config op).

Definition committed_opid_index (s : Replica) : Z := default 0 (opid_index (committed_config (cmeta_ (consensus s)))).

Definition ApplyConfigChangeUnlocked (round : Round) (s : Replica) : Outcome Replica :=
  let record := change_config_record (round_op round) in
  _ ← DCHECK release (bool_decide (is_Some (opid_index (old_config record))));
  _ ← DCHECK release (bool_decide (opid_index (new_config record) = None));
  if committed_opid_index s <? index (round_id round) then
    '(s, r) ← SetCommittedConfigUnlocked (mkRaftConfigPB (Some (index (round_id round))) (peers (new_config record))) s;
    _ ← CHECK_OK r;
    Done s
  else Done s.

(** ** The end of a round *)

Definition IsConsensusOnlyOperation (type : OperationType) : bool := bool_decide (type = NO_OP) || bool_decide (type = CHANGE_CONFIG_OP).

(** The callback of a round that is not an operation of the tablet. *)
Definition NonTxRoundReplicationFinished (round : Round) (status : Result unit) (s : Replica) : Outcome Replica :=
  let type := op_type (round_op round) in
  s ← (match status with
       | Error _ => if bool_decide (type = CHANGE_CONFIG_OP) then '(s, _) ← ClearPendingConfigUnlocked s; Done s else Done s
       | Ok _ => Done s
       end);
  if bool_decide (type = NO_OP) && (term (round_id round) =? current_term_of s) then SetLeaderNoOpCommittedUnlocked true s else Done s.

Definition NotifyReplicationFinishedUnlocked (round : Round) (status : Result unit) (leader_term : Z) (s : Replica) : Outcome Replica :=
  s ← (if IsConsensusOnlyOperation (op_type (round_op round)) then NonTxRoundReplicationFinished round status s else Done s);
  let s := match status with Ok _ => with_applied (applied (rlog s) ++ [round_op round]) s | Error _ => s end in
  '(m, _) ← ReplicationFinished release RangeTimeLimit (op_msg (round_op round)) status leader_term (retryable_requests_ (rlog s));
  Done (with_retryable m s).

Fixpoint notify_all (rounds : list Round) (status : Result unit) (leader_term : Z) (s : Replica) : Outcome Replica :=
  match rounds with
  | [] => Done s
  | r :: rounds => s ← NotifyReplicationFinishedUnlocked r status leader_term s; notify_all rounds status leader_term s
  end.

Definition CancelPendingOperations (s : Replica) : LogOp unit :=
  if negb (shutting_down (rlog s)) then Done (s, Error IllegalState)
  else s ← notify_all (pending s) (Error Aborted) kUnknownTerm s; Done (s, Ok tt).

(** ** Pending operations *)

(** The offset of the operation; the difference is taken as a [size_t]. *)
Definition FindPendingOperation (i : Z) (s : Replica) : Outcome (option nat) :=
  match pending s with
  | [] => Done None
  | front :: _ =>
      let offset := u64 (i - index (round_id front)) in
      if Z.of_nat (length (pending s)) <=? offset then Done None
      else
        match pending s !! Z.to_nat offset with
        | Some r => _ ← DCHECK release (index (round_id r) =? i); Done (Some (Z.to_nat offset))
        | None => Undefined
        end
  end.

Definition GetPendingOpByIndexOrNullUnlocked (i : Z) (s : Replica) : Outcome (option Round) :=
  it ← FindPendingOperation i s;
  Done (match it with Some k => pending s !! k | None => None end).

(** Whether the operation is known, and whether another term is in its place. *)
Definition IsOpCommittedOrPending (id : OpId) (s : Replica) : Outcome (bool * bool) :=
  if index id <=? index (GetCommittedOpIdUnlocked s) then Done (true, false)
  else if index (GetLastReceivedOpIdUnlocked s) <? index id then Done (false, false)
  else
    round ← GetPendingOpByIndexOrNullUnlocked (index id) s;
    match round with
    | None => Fatal
    | Some r => if negb (term (round_id r) =? term id) then Done (false, true) else Done (true, false)
    end.

Definition AbortOpsAfterUnlocked (new_preceding_idx : Z) (s : Replica) : LogOp unit :=
  _ ← DCHECK release (0 <=? new_preceding_idx);
  it ← FindPendingOperation new_preceding_idx s;
  '(new_preceding, keep) ←
    (match it with
     | Some k => match pending s !! k with Some r => Done (round_id r, S k) | None => Undefined end
     | None =>
         _ ← CHECK (new_preceding_idx =? index (GetCommittedOpIdUnlocked s));
         Done (GetCommittedOpIdUnlocked s,
           match pending s with
           | front :: _ => if new_preceding_idx <? index (round_id front) then 0%nat else length (pending s)
           | [] => 0%nat
           end)
     end);
  let s := with_next_index (index new_preceding + 1) (with_received new_preceding new_preceding s) in
  s ← notify_all (drop keep (pending s)) (Error Aborted) kUnknownTerm s;
  Done (with_pending (take keep (pending s)) s, Ok tt).

Definition AddPendingOperation (round : Round) (s : Replica) : LogOp unit :=
  let op := round_op round in
  if negb (RaftElection.running (consensus s)) && negb (bool_decide (op_type op = NO_OP)) then Done (s, Error IllegalState)
  else
    log_bind
      (if bool_decide (role_of s = LEADER) && negb (bool_decide (op_type op = NO_OP)) && negb (bool_decide (op_type op = CHANGE_CONFIG_OP)) then
         ht_status ← GetHybridTimeLeaseStatusAtUnlocked release (FLAGS_log_ht_lease_duration_ms env)
                       (GetPhysicalValueMicros (op_hybrid_time op)) (consensus s);
         if bool_decide (ht_status = OLD_LEADER_MAY_HAVE_LEASE) then Done (s, Error LeaderHasNoLease)
         else
           '(c, status, _) ← GetLeaderLeaseStatusUnlocked release (raft_env env) (consensus s);
           Done (with_consensus c s, if bool_decide (status = OLD_LEADER_MAY_HAVE_LEASE) then Error LeaderHasNoLease else Ok tt)
       else Done (s, Ok tt)) (λ _ s,
    log_bind
      (if bool_decide (op_type op = CHANGE_CONFIG_OP) then
         let record := change_config_record op in
         _ ← DCHECK release (bool_decide (is_Some (opid_index (old_config record))));
         _ ← DCHECK release (bool_decide (opid_index (new_config record) = None));
         if negb (bool_decide (role_of s = LEADER)) then
           match CheckNoConfigChangePendingUnlocked s with
           | Error c => Done (s, Error c)
           | Ok _ =>
               if committed_opid_index s <? index (op_id op) then
                 '(s, r) ← SetPendingConfigUnlocked (new_config record) s;
                 _ ← CHECK_OK r;
                 Done (s, Ok tt)
               else Done (s, Ok tt)
           end
         else Done (s, Ok tt)
       else if bool_decide (op_type op = WRITE_OP) then
         let '(m, registered, _) := Register_round (log_now env) (to_round round) 0 (retryable_requests_ (rlog s)) in
         Done (with_retryable m s, if registered then Ok tt else Error AlreadyPresent)
       else Done (s, Ok tt)) (λ _ s,
    Done (with_pending (pending s ++ [round]) s, Ok tt))).

(** ** Committing *)

Definition CheckOpInSequence (previous current : OpId) : Result unit :=
  if term current <? term previous then Error Corruption
  else if negb (index current =? index previous + 1) then Error Corruption
  else Ok tt.

Definition SetLastCommittedIndexUnlocked (id : OpId) (s : Replica) : Outcome Replica :=
  _ ← CHECK (index id <=? index (GetLastReceivedOpIdUnlocked s));
  Done (with_last_committed id s).

(** [explicit operator bool]. *)
Definition OpId_bool (id : OpId) : bool := negb ((term id =? 0) && (index id =? 0)).

(** The loop, for the rounds from the front; the replica and the id of the last
    operation that was applied. *)
Fixpoint apply_pending (could_stop : option (Operation -> bool)) (leader_term : Z) (committed : OpId) (rounds : list Round)
    (prev max_allowed : OpId) (s : Replica) : Outcome (Replica * OpId) :=
  match rounds with
  | [] => Done (s, prev)
  | round :: rounds =>
      let current := round_id round in
      let op := round_op round in
      if index committed <? index current then Done (s, prev)
      else
        _ ← (if OpId_bool prev then CHECK_OK (CheckOpInSequence prev current) else Done tt);
        if bool_decide (op_type op = WRITE_OP) && match could_stop with Some should_apply => negb (should_apply op) | None => false end
        then Done (s, prev)
        else
          max_allowed ←
            (if negb (bool_decide (op_type op = WRITE_OP)) && ((index max_allowed <? index current) || (term max_allowed <? term current)) then
               match safe_op_id_waiter_ env with
               | Some wait =>
                   _ ← DCHECK release (index current <=? index (wait current));
                   _ ← DCHECK release (term current <=? term (wait current));
                   Done (wait current)
               | None => Undefined
               end
             else Done max_allowed);
          let s := with_pending rounds s in
          s ← (if bool_decide (op_type op = CHANGE_CONFIG_OP) then ApplyConfigChangeUnlocked round s else Done s);
          s ← NotifyReplicationFinishedUnlocked round (Ok tt) leader_term s;
          apply_pending could_stop leader_term committed rounds current max_allowed s
  end.

(** [could_stop] is [ShouldApplyWrite] if the caller lets the tablet stop. *)
Definition ApplyPendingOperationsUnlocked (committed : OpId) (could_stop : option (Operation -> bool)) (s : Replica) : LogOp unit :=
  let max_allowed := match safe_op_id_waiter_ env with Some _ => mkOpId 0 0 | None => mkOpId 0 (2 ^ 63 - 1) end in
  '(c, leader_state) ← GetLeaderStateUnlocked release (raft_env env) (leader_no_op_committed_ (rlog s)) true (consensus s);
  let s := with_consensus c s in
  '(s, prev) ← apply_pending could_stop (leader_state_term leader_state) committed (pending s) (GetCommittedOpIdUnlocked s) max_allowed s;
  s ← SetLastCommittedIndexUnlocked prev s;
  Done (s, Ok tt).

Definition InitCommittedOpIdUnlocked (committed : OpId) (s : Replica) : LogOp unit :=
  if OpId_bool (GetCommittedOpIdUnlocked s) then Done (s, Error IllegalState)
  else
    log_bind
      (match pending s with
       | front :: _ => if index (round_id front) <=? index committed then ApplyPendingOperationsUnlocked committed None s else Done (s, Ok tt)
       | [] => Done (s, Ok tt)
       end) (λ _ s,
    s ← SetLastCommittedIndexUnlocked committed s;
    Done (s, Ok tt)).

Definition AdvanceCommittedOpIdUnlocked (committed : OpId) (could_stop : option (Operation -> bool)) (s : Replica)
    : Outcome (Replica * ResultBool) :=
  if index committed <=? index (GetCommittedOpIdUnlocked s) then Done (s, BoolFailed (Ok tt))
  else match pending s with
  | [] => Done (s, BoolFailed (Error NotFound))
  | front :: _ =>
      _ ← CHECK (index (round_id front) =? index (GetCommittedOpIdUnlocked s) + 1);
      let old_index := index (GetCommittedOpIdUnlocked s) in
      '(s, r) ← ApplyPendingOperationsUnlocked committed could_stop s;
      Done (s, match r with
               | Error c => BoolFailed (Error c)
               | Ok _ => BoolValue (negb (index (GetCommittedOpIdUnlocked s) =? old_index))
               end)
  end.

(** The committed id, which is not given when the status of
    [AdvanceCommittedOpIdUnlocked] is returned, and whether it changed. *)
Definition UpdateMajorityReplicatedUnlocked (majority_replicated : OpId) (s : Replica) : LogOp (option OpId * bool) :=
  if shutting_down (rlog s) then Done (s, Error ServiceUnavailable)
  else if negb (RaftElection.running (consensus s)) then Done (s, Error IllegalState)
  else if (term (GetCommittedOpIdUnlocked s) =? current_term_of s) || (term majority_replicated =? current_term_of s) then
    '(s, r) ← AdvanceCommittedOpIdUnlocked majority_replicated None s;
    Done (s, match r with
             | BoolValue changed => Ok (Some (GetCommittedOpIdUnlocked s), changed)
             | BoolFailed (Ok _) => Ok (None, false)
             | BoolFailed (Error c) => Error c
             end)
  else Done (s, Ok (Some (GetCommittedOpIdUnlocked s), false)).

Definition AreCommittedAndCurrentTermsSameUnlocked (s : Replica) : bool := term (GetCommittedOpIdUnlocked s) =? current_term_of s.

(** ** Ids of operations *)

Definition UpdateLastReceivedOpIdUnlocked (id : OpId) (s : Replica) : Outcome Replica :=
  _ ← DCHECK release ((term (GetLastReceivedOpIdUnlocked s) <=? term id) && (index (GetLastReceivedOpIdUnlocked s) <=? index id));
  Done (with_next_index (index id + 1) (with_received id id s)).

Definition NewIdUnlocked (s : Replica) : Replica * OpId :=
  (with_next_index (next_index_ (rlog s) + 1) s, mkOpId (current_term_of s) (next_index_ (rlog s))).

Definition CancelPendingOperation (id : OpId) (should_exist : bool) (s : Replica) : Outcome Replica :=
  let previous := mkOpId (term id) (index id - 1) in
  _ ← CHECK (current_term_of s =? term id);
  _ ← CHECK (next_index_ (rlog s) =? index id + 1);
  let s := with_received previous (GetLastReceivedOpIdCurLeaderUnlocked s) (with_next_index (index id) s) in
  let back_is_id := match last (pending s) with Some r => OpIdEquals (round_id r) id | None => false end in
  if should_exist then
    _ ← DCHECK release back_is_id;
    match pending s with
    | [] => Undefined
    | _ => Done (with_pending (take (length (pending s) - 1) (pending s)) s)
    end
  else _ ← DCHECK release (negb back_is_id); Done s.

(** ** The log

    [LogCache::AppendOperations]: operations from the first index on are
    overwritten, also when the log refuses them. *)
Definition LogCache_AppendOperations (msgs : list Operation) (s : Replica) : LogOp unit :=
  match msgs with
  | [] => Done (s, AsyncAppendReplicates env)
  | m :: _ =>
      _ ← CHECK (index (op_id m) <=? Z.of_nat (length (log_ (rlog s))) + 1);
      Done (with_log (take (Z.to_nat (index (op_id m) - 1)) (log_ (rlog s)) ++ msgs) s, AsyncAppendReplicates env)
  end.

(** ** Operations of a leader *)

(** The rounds are added in turn; those that were added are returned. When one
    is refused, the ids of those before it are released, unless it is a
    repeated request. *)
Fixpoint rollback (ids : list OpId) (s : Replica) : Outcome Replica :=
  match ids with
  | [] => Done s
  | id :: ids => s ← CancelPendingOperation id true s; rollback ids s
  end.

Fixpoint add_new_rounds (rounds : list Round) (added : list Operation) (s : Replica) : LogOp (list Operation) :=
  match rounds with
  | [] => Done (s, Ok added)
  | round :: rounds =>
      let '(s, id) := NewIdUnlocked s in
      let op := with_op_id id (round_op round) in
      let op := mkOperation (op_msg op) (op_type op) (op_hybrid_time op) (op_change_config op) (GetCommittedOpIdUnlocked s) (op_payload op) in
      let '(time, payload) := HandleConsensusAppend env op in
      let op := mkOperation (op_msg op) (op_type op) time (op_change_config op) (op_committed op) payload in
      '(s, r) ← AddPendingOperation (mkRound (round_num round) op (round_bound round)) s;
      match r with
      | Ok _ => add_new_rounds rounds (added ++ [op]) s
      | Error c =>
          s ← CancelPendingOperation id false s;
          if bool_decide (c = AlreadyPresent) then add_new_rounds rounds added s
          else s ← rollback (reverse (op_id <$> added)) s; Done (s, Error c)
      end
  end.

Definition AppendNewRoundsToQueueUnlocked (rounds : list Round) (s : Replica) : LogOp (list Operation) :=
  log_bind (add_new_rounds rounds [] s) (λ added s,
  match last added with
  | None => Done (s, Ok [])
  | Some back =>
      '(s, r) ← LogCache_AppendOperations added s;
      match r with
      | Ok _ => s ← UpdateLastReceivedOpIdUnlocked (op_id back) s; Done (s, Ok added)
      | Error c =>
          s ← (if bool_decide (c = ServiceUnavailable) then rollback (reverse (op_id <$> added)) s else Done s);
          Done (s, Error c)
      end
  end).

Definition CheckBoundTerm (current_term : Z) (round : Round) : Result unit :=
  if negb (round_bound round =? kUnboundTerm) && negb (round_bound round =? current_term) then Error Aborted else Ok tt.

Definition ReplicateBatch (rounds : list Round) (s : Replica) : LogOp (list Operation) :=
  if negb (RaftElection.running (consensus s)) then Done (s, Error IllegalState)
  else if forallb (λ r, match CheckBoundTerm (current_term_of s) r with Ok _ => true | Error _ => false end) rounds
  then AppendNewRoundsToQueueUnlocked rounds s
  else Done (s, Error Aborted).

(** The part of [BecomeLeaderUnlocked] about the log. *)
Definition append_no_op (hybrid_time : Z) (s : Replica) : LogOp (list Operation) :=
  s ← SetLeaderNoOpCommittedUnlocked false s;
  AppendNewRoundsToQueueUnlocked
    [mkRound 0 (mkOperation (mkReplicateMsg (mkOpId 0 0) None) NO_OP hybrid_time None (GetCommittedOpIdUnlocked s) []) kUnboundTerm] s.

(** [UpdateMajorityReplicated], with [q] the queue: the committed id for the
    queue, if it is given. *)
Definition UpdateMajorityReplicated (enable_lease_revocation : bool) (q : PeerMessageQueue) (d : MajorityReplicatedData) (s : Replica)
    : Outcome (Replica * option OpId) :=
  if negb (RaftElection.running (consensus s)) || negb (bool_decide (role_of s = LEADER)) then Done (s, None)
  else
    c ← LeaderLease.UpdateMajorityReplicated release (raft_env env) enable_lease_revocation (leader_no_op_committed_ (rlog s)) q d (consensus s);
    '(s, r) ← UpdateMajorityReplicatedUnlocked (majority_op_id d) (with_consensus c s);
    Done (s, match r with Ok (id, _) => id | Error _ => None end).

(** ** Operations of a follower *)

Definition StartReplicaOperationUnlocked (op : Operation) (s : Replica) : LogOp unit :=
  let round := mkRound (Z.to_nat (index (op_id op))) op kUnboundTerm in
  if IsConsensusOnlyOperation (op_type op) then AddPendingOperation round s
  else if FLAGS_follower_fail_all_prepare env then Done (s, Error IllegalState)
  else match StartReplicaOperation env op with
       | Error c => Done (s, Error c)
       | Ok _ => AddPendingOperation round s
       end.

(** A request of a leader with its operations. *)
Record UpdateRequest : Type := mkUpdateRequest {
  header : ConsensusRequestPB;
  preceding_id : OpId;
  request_ops : list Operation;
  request_committed : OpId
}.

Record LeaderRequest : Type := mkLeaderRequest {
  preceding_opid : OpId;
  messages : list Operation
}.

(** The loop over the operations, with the index up to which they may be known,
    the last one that is, and the ones that are new. *)
Fixpoint deduplicate (ops : list Operation) (dedup_up_to_index : Z) (preceding : OpId) (new_messages : list Operation) (s : Replica)
    : Outcome LeaderRequest :=
  match ops with
  | [] => Done (mkLeaderRequest preceding new_messages)
  | msg :: ops =>
      if index (op_id msg) <=? index (GetCommittedOpIdUnlocked s) then deduplicate ops dedup_up_to_index (op_id msg) new_messages s
      else if index (op_id msg) <=? dedup_up_to_index then
        round ← GetPendingOpByIndexOrNullUnlocked (index (op_id msg)) s;
        match round with
        | None => if release then Undefined else Fatal
        | Some r =>
            if OpIdEquals (round_id r) (op_id msg) then deduplicate ops dedup_up_to_index (op_id msg) new_messages s
            else deduplicate ops (index (op_id msg)) preceding (new_messages ++ [msg]) s
        end
      else deduplicate ops dedup_up_to_index preceding (new_messages ++ [msg]) s
  end.

Definition DeduplicateLeaderRequestUnlocked (request : UpdateRequest) (s : Replica) : Outcome LeaderRequest :=
  deduplicate (request_ops request) (index (GetLastReceivedOpIdUnlocked s)) (preceding_id request) [] s.

Fixpoint CheckLeaderRequestOpIdSequence (prev : OpId) (msgs : list Operation) : Result unit :=
  match msgs with
  | [] => Ok tt
  | m :: msgs => match CheckOpInSequence prev (op_id m) with Ok _ => CheckLeaderRequestOpIdSequence (op_id m) msgs | Error c => Error c end
  end.

(** Whether the response has an error. *)
Definition EnforceLogMatchingPropertyMatchesUnlocked (req : LeaderRequest) (s : Replica) : LogOp bool :=
  '(known, term_mismatch) ← IsOpCommittedOrPending (preceding_opid req) s;
  if (known : bool) then Done (s, Ok false)
  else if (term_mismatch : bool) then
    log_bind (AbortOpsAfterUnlocked (index (preceding_opid req) - 1) s) (λ _ s, Done (s, Ok true))
  else Done (s, Ok true).

(** The error of the response, and the request without what is known. *)
Definition CheckLeaderRequestUnlocked (request : UpdateRequest) (s : Replica) : LogOp (option PeerErrorCode * LeaderRequest) :=
  req ← DeduplicateLeaderRequestUnlocked request s;
  log_bind (Done (s, CheckLeaderRequestOpIdSequence (preceding_opid req) (messages req))) (λ _ s,
  log_bind (lift_op (HandleLeaderRequestTermUnlocked release (raft_env env) (header request)) s) (λ has_error s,
  if has_error : bool then Done (s, Ok (Some INVALID_TERM_RESPONSE, req))
  else
    log_bind (EnforceLogMatchingPropertyMatchesUnlocked req s) (λ has_error s,
    if has_error : bool then Done (s, Ok (Some PRECEDING_ENTRY_DIDNT_MATCH, req))
    else
      log_bind
        (match messages req with
         | [] => Done (s, Ok tt)
         | m :: _ =>
             '(known, term_mismatch) ← IsOpCommittedOrPending (op_id m) s;
             if (known : bool) then Done (s, Error IllegalState)
             else if (term_mismatch : bool) then AbortOpsAfterUnlocked (index (preceding_opid req)) s
             else Done (s, Ok tt)
         end) (λ _ s,
      if HasLeaderUnlocked (consensus s) && negb (bool_decide (GetLeaderUuidUnlocked (consensus s) = caller_uuid (header request))) then Fatal
      else
        let c := if HasLeaderUnlocked (consensus s) then consensus s else SetLeaderUuidUnlocked (caller_uuid (header request)) (consensus s) in
        Done (with_consensus c s, Ok (None, req)))))).

Definition EarlyCommitUnlocked (request : UpdateRequest) (req : LeaderRequest) (s : Replica) : LogOp unit :=
  let up_to := GetLastPendingOperationOpIdUnlocked s in
  let up_to := if index (preceding_opid req) <? index up_to then preceding_opid req else up_to in
  let up_to := if index (request_committed request) <? index up_to then request_committed request else up_to in
  '(s, r) ← AdvanceCommittedOpIdUnlocked up_to (Some (ShouldApplyWrite env true)) s;
  Done (s, ResultToStatus r).

(** The messages that could be prepared. *)
Fixpoint EnqueuePreparesUnlocked (msgs : list Operation) (s : Replica) : Outcome (Replica * list Operation) :=
  match msgs with
  | [] => Done (s, [])
  | m :: msgs =>
      '(s, r) ← StartReplicaOperationUnlocked m s;
      match r with
      | Ok _ => '(s, prepared) ← EnqueuePreparesUnlocked msgs s; Done (s, m :: prepared)
      | Error _ => Done (s, [])
      end
  end.

(** The last operation from the leader. A log that refuses operations is
    fatal. *)
Definition EnqueueWritesUnlocked (req : LeaderRequest) (write_empty : bool) (s : Replica) : Outcome (Replica * OpId) :=
  s ← (if negb (bool_decide (length (messages req) = 0%nat)) || write_empty
       then '(s, r) ← LogCache_AppendOperations (messages req) s; _ ← CHECK_OK r; Done s else Done s);
  Done (s, match last (messages req) with Some m => op_id m | None => preceding_opid req end).

Definition MarkOperationsAsCommittedUnlocked (request : UpdateRequest) (req : LeaderRequest) (last_from_leader : OpId) (s : Replica) : LogOp unit :=
  let apply_up_to := if index last_from_leader <? index (request_committed request) then last_from_leader else request_committed request in
  log_bind
    (match last (messages req) with
     | Some m => s ← UpdateLastReceivedOpIdUnlocked (op_id m) s; Done (s, Ok tt)
     | None => if index (GetLastReceivedOpIdUnlocked s) <? index (preceding_opid req) then Done (s, Error InvalidArgument) else Done (s, Ok tt)
     end) (λ _ s,
  '(s, r) ← AdvanceCommittedOpIdUnlocked apply_up_to (Some (ShouldApplyWrite env false)) s;
  Done (s, ResultToStatus r)).

Definition FillConsensusResponseOKUnlocked (error : option PeerErrorCode) (s : Replica) : ConsensusResponsePB :=
  mkConsensusResponsePB None (Some (current_term_of s)) (GetLastReceivedOpIdUnlocked s) (GetLastReceivedOpIdCurLeaderUnlocked s)
    (index (GetCommittedOpIdUnlocked s)) error.

(** The response, and the operation whose write is waited for. Whether an
    election follows is not part of the result. *)
Definition UpdateReplica (MinimumElectionTimeout : MonoDelta.t) (request : UpdateRequest) (s : Replica)
    : LogOp (ConsensusResponsePB * option OpId) :=
  if negb (RaftElection.running (consensus s)) then Done (s, Error IllegalState)
  else
    let prev_committed := GetCommittedOpIdUnlocked s in
    log_bind (CheckLeaderRequestUnlocked request s) (λ '(error, req) s,
    match error with
    | Some _ => Done (s, Ok (FillConsensusResponseOKUnlocked error s, None))
    | None =>
        c ← accept_request release (raft_env env) MinimumElectionTimeout (header request) (consensus s);
        log_bind (EarlyCommitUnlocked request req (with_consensus c s)) (λ _ s,
        '(s, prepared) ← EnqueuePreparesUnlocked (messages req) s;
        if bool_decide (length prepared = 0%nat) && negb (bool_decide (length (messages req) = 0%nat))
        then Done (s, Ok (FillConsensusResponseOKUnlocked (Some OTHER_CONSENSUS_ERROR) s, None))
        else
          let req := mkLeaderRequest (preceding_opid req) prepared in
          '(s, last_from_leader) ← EnqueueWritesUnlocked req (negb (bool_decide (prev_committed = request_committed request))) s;
          log_bind (MarkOperationsAsCommittedUnlocked request req last_from_leader s) (λ _ s,
          Done (s, Ok (FillConsensusResponseOKUnlocked None s,
                       if bool_decide (length prepared = 0%nat) then None else Some (GetLastReceivedOpIdUnlocked s)))))
    end).

(** ** Starting *)

Definition StartUnlocked (last_id_in_wal : OpId) (s : Replica) : Outcome Replica :=
  _ ← CHECK (term last_id_in_wal <=? current_term_of s);
  let s := with_next_index (index last_id_in_wal + 1) (with_received last_id_in_wal (GetLastReceivedOpIdCurLeaderUnlocked s) s) in
  let c := consensus s in
  Done (with_consensus (mkRaftConsensus (cmeta_ c) true (last_received_op_id_ c) (last_received_op_id_current_leader_ c) (pending_election_opid_ c)
    (old_leader_lease_ c) (old_leader_ht_lease_ c) (majority_replicated_lease_expiration_ c)
    (majority_replicated_ht_lease_expiration_ c) (withhold_votes_until_ c) (failed_elections_since_stable_leader_ c)
    (disable_pre_elections_until_ c)) s).

Record ConsensusBootstrapInfo : Type := mkConsensusBootstrapInfo {
  last_id : OpId;
  last_committed_id : OpId;
  orphaned_replicates : list Operation
}.

Fixpoint start_operations (ops : list Operation) (s : Replica) : LogOp unit :=
  match ops with
  | [] => Done (s, Ok tt)
  | op :: ops => log_bind (StartReplicaOperationUnlocked op s) (λ _ s, start_operations ops s)
  end.

(** The part of [Start] under the lock. *)
Definition Start (info : ConsensusBootstrapInfo) (s : Replica) : LogOp unit :=
  s ← StartUnlocked (last_id info) (with_consensus (ClearLeaderUnlocked (consensus s)) s);
  log_bind (start_operations (orphaned_replicates info) s) (λ _ s,
  log_bind (InitCommittedOpIdUnlocked (last_committed_id info) s) (λ _ s,
  lift_op (BecomeReplicaUnlocked (raft_env env)) s)).

(** [DoStartElection]: a pending election first commits what it waits for. *)
Definition DoStartElection (data : LeaderElectionData) (preelected : bool) (s : Replica) : LogOp (option LeaderElection) :=
  let starts := match role_of s with FOLLOWER | UNKNOWN_ROLE => RaftElection.running (consensus s) | _ => false end in
  let required_id := match must_be_committed_opid data with Some id => id | None => default (mkOpId 0 0) (pending_election_opid_ (consensus s)) end in
  '(s, _) ← (if starts && pending_commit data then AdvanceCommittedOpIdUnlocked required_id None s else Done (s, BoolValue false));
  let e := raft_env env in
  lift_op (RaftElection.DoStartElection release
    (mkEnv (env_now e) (env_coarse_now e) (env_latest_op_id e) (env_update_lock_busy e) (index (GetCommittedOpIdUnlocked s)) (env_unregister_observer e)
       (env_become_leader e) (FLAGS_enable_leader_failure_detection e) (FLAGS_use_preelection e) (FLAGS_temporary_disable_preelections_timeout_ms e))
    data preelected) s.

End replica_log.

(** ** What is kept *)

(** The operations that a replica goes on from. *)
Definition mem (s : Replica) : list Operation := applied (rlog s) ++ (round_op <$> pending s).

(** Of the consensus state only old leases are forgotten. *)
Definition forgets (c c' : RaftConsensus) : Prop := c' = c \/ ∃ l h, c' = with_old_leases l h c.

(** The log is kept, but for what is pending and applied. *)
Record kept (s s' : Replica) : Prop := {
  kp_next : next_index_ (rlog s') = next_index_ (rlog s);
  kp_committed : GetCommittedOpIdUnlocked s' = GetCommittedOpIdUnlocked s;
  kp_log : log_ (rlog s') = log_ (rlog s);
  kp_received : GetLastReceivedOpIdUnlocked s' = GetLastReceivedOpIdUnlocked s;
  kp_current : GetLastReceivedOpIdCurLeaderUnlocked s' = GetLastReceivedOpIdCurLeaderUnlocked s;
  kp_term : current_term_of s' = current_term_of s
}.

#[export] Instance kept_preorder : PreOrder kept.
Proof.
  split; [by intros s|]. intros s1 s2 s3 [] []. split; congruence.
Qed.

(** The votes, the configuration and the role are kept. *)
Record quiet (c c' : RaftConsensus) : Prop := {
  qt_vote : same_vote c c';
  qt_role : active_role_ (cmeta_ c') = active_role_ (cmeta_ c);
  qt_running : RaftElection.running c' = RaftElection.running c
}.

#[export] Instance quiet_preorder : PreOrder quiet.
Proof.
  split; [by intros c|]. intros c1 c2 c3 [(? & ? & ? & ?) ? ?] [(? & ? & ? & ?) ? ?]. split; [split_and!|..]; congruence.
Qed.

Lemma quiet_term c c' : quiet c c' -> GetCurrentTermUnlocked c' = GetCurrentTermUnlocked c.
Proof. intros [(_ & E & _) _ _]. unfold GetCurrentTermUnlocked, current_term. by rewrite E. Qed.

Lemma forgets_quiet c c' : forgets c c' -> quiet c c' /\ last_received_op_id_ c' = last_received_op_id_ c /\
  last_received_op_id_current_leader_ c' = last_received_op_id_current_leader_ c.
Proof. by intros [->|(l & h & ->)]. Qed.

Lemma forgets_kept c s : forgets (consensus s) c -> kept s (with_consensus c s) /\ quiet (consensus s) (consensus (with_consensus c s)).
Proof. by intros [->|(l & h & ->)]; split. Qed.

Lemma RemainingOldLeaderLease_forgets e c : forgets c (RemainingOldLeaderLeaseDuration e c).1.
Proof. unfold RemainingOldLeaderLeaseDuration. destruct (_ =? _); [by left|]. destruct (_ <? _); [right; by eexists _, _|by left]. Qed.

Lemma GetLeaderLeaseStatus_forgets release e c c' st r : GetLeaderLeaseStatusUnlocked release e c = Done (c', st, r) -> forgets c c'.
Proof.
  unfold GetLeaderLeaseStatusUnlocked. pose proof (RemainingOldLeaderLease_forgets e c) as Hf.
  destruct (negb _); [destruct (RemainingOldLeaderLeaseDuration e c) as [c1 x]|]; intros E; apply outcome_bind_Done in E as (y & _ & [= <- _ _]); [done|by left].
Qed.

Lemma GetLeaderState_forgets release e no_op need c c' st : GetLeaderStateUnlocked release e no_op need c = Done (c', st) -> forgets c c'.
Proof.
  unfold GetLeaderStateUnlocked. destruct (negb _); [intros [= <- _]; by left|]. destruct (negb no_op); [intros [= <- _]; by left|]. intros E.
  apply outcome_bind_Done in E as ([[c1 x] y] & E1 & [= <- _]). destruct need; [by eapply GetLeaderLeaseStatus_forgets|]. injection E1 as <- _ _. by left.
Qed.

Section kept.
Context (release : bool) (RangeTimeLimit : Z) (env : LogEnv).

Lemma Refresh_kept s s' : RefreshLeaderStateCacheUnlocked release env s = Done s' ->
  kept s s' /\ pending s' = pending s /\ applied (rlog s') = applied (rlog s) /\ quiet (consensus s) (consensus s').
Proof using.
  unfold RefreshLeaderStateCacheUnlocked. intros E. apply outcome_bind_Done in E as ([c st] & E & [= <-]). apply GetLeaderState_forgets in E.
  destruct (forgets_kept c s E). done.
Qed.

Lemma SetLeaderNoOp_kept b s s' : SetLeaderNoOpCommittedUnlocked release env b s = Done s' ->
  kept s s' /\ pending s' = pending s /\ applied (rlog s') = applied (rlog s) /\ quiet (consensus s) (consensus s').
Proof using. intros (Hk & Hp & Ha & Hq)%Refresh_kept. split; [|done]. etrans; [|exact Hk]. done. Qed.

(** A change of the configuration keeps the term and the log. *)
Lemma change_cmeta_kept f s : current_term (f (cmeta_ (consensus s))) = current_term (cmeta_ (consensus s)) -> kept s (change_cmeta f s).
Proof using. intros E. by split. Qed.

Lemma SetPendingConfig_kept config s s' r : SetPendingConfigUnlocked release env config s = Done (s', r) ->
  kept s s' /\ pending s' = pending s /\ applied (rlog s') = applied (rlog s).
Proof using.
  unfold SetPendingConfigUnlocked. destruct (VerifyRaftConfig _ _); [|by intros [= <- _]]. intros E. apply outcome_bind_Done in E as (_ & _ & E).
  apply outcome_bind_Done in E as (s1 & E & [= <- _]). apply Refresh_kept in E as (Hk & Hp & Ha & _). split; [|done]. etrans; [|exact Hk].
  by apply change_cmeta_kept.
Qed.

Lemma ClearPendingConfig_kept s s' r : ClearPendingConfigUnlocked release env s = Done (s', r) ->
  kept s s' /\ pending s' = pending s /\ applied (rlog s') = applied (rlog s).
Proof using.
  unfold ClearPendingConfigUnlocked. destruct (negb _); [by intros [= <- _]|]. intros E. apply outcome_bind_Done in E as (s1 & E & [= <- _]).
  apply Refresh_kept in E as (Hk & Hp & Ha & _). split; [|done]. etrans; [|exact Hk]. by apply change_cmeta_kept.
Qed.

Lemma ApplyConfigChange_kept round s s' : ApplyConfigChangeUnlocked release env round s = Done s' ->
  kept s s' /\ pending s' = pending s /\ applied (rlog s') = applied (rlog s).
Proof using.
  unfold ApplyConfigChangeUnlocked. intros E. apply outcome_bind_Done in E as (_ & _ & E). apply outcome_bind_Done in E as (_ & _ & E).
  destruct (_ <? _); [|by injection E as <-]. apply outcome_bind_Done in E as ([s1 r] & E & E'). apply outcome_bind_Done in E' as (_ & _ & [= <-]).
  unfold SetCommittedConfigUnlocked in E. destruct (VerifyRaftConfig _ _); [|by injection E as <- _]. destruct (pending_config_ _); [|done].
  apply outcome_bind_Done in E as (_ & _ & E). apply outcome_bind_Done in E as (s2 & E2 & E). apply outcome_bind_Done in E as (m & Em & [= <- _]).
  apply Refresh_kept in E2 as (Hk & Hp & Ha & _). destruct (Flush _) as [m1|] eqn:Ef; [|done]. injection Em as <-. apply Flush_Ok in Ef as (_ & Ep & _).
  split; [|done]. transitivity s2.
  - etrans; [|exact Hk]. apply change_cmeta_kept. unfold set_committed_config. by destruct (pending_config_ _).
  - split; try done. unfold current_term_of, GetCurrentTermUnlocked, current_term. cbn. by rewrite Ep.
Qed.

(** The end of a round. *)
Lemma Notify_kept round status t s s' : NotifyReplicationFinishedUnlocked release RangeTimeLimit env round status t s = Done s' ->
  kept s s' /\ pending s' = pending s /\ applied (rlog s') = applied (rlog s) ++ (match status with Ok _ => [round_op round] | Error _ => [] end) /\
  (op_type (round_op round) ≠ CHANGE_CONFIG_OP -> quiet (consensus s) (consensus s')).
Proof using.
  unfold NotifyReplicationFinishedUnlocked. intros E. apply outcome_bind_Done in E as (s1 & E1 & E). apply outcome_bind_Done in E as ([m n] & _ & [= <-]).
  assert (kept s s1 /\ pending s1 = pending s /\ applied (rlog s1) = applied (rlog s) /\ (op_type (round_op round) ≠ CHANGE_CONFIG_OP -> quiet (consensus s) (consensus s1))) as (Hk & Hp & Ha & Hq).
  { destruct (IsConsensusOnlyOperation _); [|by injection E1 as <-]. unfold NonTxRoundReplicationFinished in E1. apply outcome_bind_Done in E1 as (s2 & E2 & E1).
    assert (kept s s2 /\ pending s2 = pending s /\ applied (rlog s2) = applied (rlog s) /\ (op_type (round_op round) ≠ CHANGE_CONFIG_OP -> quiet (consensus s) (consensus s2))) as (Hk2 & Hp2 & Ha2 & Hq2).
    { destruct status; [by injection E2 as <-|]. destruct (decide (op_type (round_op round) = CHANGE_CONFIG_OP)) as [Ht|Ht].
      - rewrite bool_decide_eq_true_2 in E2 by done. apply outcome_bind_Done in E2 as ([s3 r] & E2 & [= <-]). apply ClearPendingConfig_kept in E2 as (? & ? & ?). done.
      - rewrite bool_decide_eq_false_2 in E2 by done. by injection E2 as <-. }
    destruct (_ && _); [|by injection E1 as <-]. apply SetLeaderNoOp_kept in E1 as (Hk3 & Hp3 & Ha3 & Hq3). split; [by etrans|]. split; [congruence|]. split; [congruence|]. intros Hne. etrans; [by apply Hq2|done]. }
  destruct status; cbn; [rewrite Ha|rewrite app_nil_r; rewrite Ha].
  all: split; [destruct Hk; by split|]; done.
Qed.

Lemma notify_all_kept rounds c t s s' : notify_all release RangeTimeLimit env rounds (Error c) t s = Done s' ->
  kept s s' /\ pending s' = pending s /\ applied (rlog s') = applied (rlog s) /\
  (Forall (λ r, op_type (round_op r) ≠ CHANGE_CONFIG_OP) rounds -> quiet (consensus s) (consensus s')).
Proof using.
  revert s. induction rounds as [|r rounds IH]; intros s; cbn [notify_all]; [by intros [= <-]|]. intros E. apply outcome_bind_Done in E as (s1 & E1 & E).
  apply Notify_kept in E1 as (Hk1 & Hp1 & Ha1 & Hq1). rewrite app_nil_r in Ha1. destruct (IH s1 E) as (Hk & Hp & Ha & Hq). split; [by etrans|]. split; [congruence|].
  split; [congruence|].
  intros [Hr Hrs]%Forall_cons. etrans; [by apply Hq1|by apply Hq].
Qed.

End kept.

(** ** Well-formed logs *)

(** Indexes are positions, the committed operations come first, and indexes fit
    into 64 bits. *)
Record core_ok (s : Replica) : Prop := {
  co_mem : log_ok (mem s);
  co_committed : GetCommittedOpIdUnlocked s = last_op_id (applied (rlog s));
  co_fits : Z.of_nat (length (mem s)) < 2 ^ 63
}.

(** What holds between calls: the last operation is the last one received, and
    the log has all the operations, perhaps with some that were aborted. *)
Record replica_ok (s : Replica) : Prop := {
  ro_core : core_ok s;
  ro_received : GetLastReceivedOpIdUnlocked s = last_op_id (mem s);
  ro_current : GetLastReceivedOpIdCurLeaderUnlocked s = MinimumOpId \/ GetLastReceivedOpIdCurLeaderUnlocked s = last_op_id (mem s);
  ro_next : next_index_ (rlog s) = Z.of_nat (length (mem s)) + 1;
  ro_log : mem s `prefix_of` log_ (rlog s);
  ro_log_ok : log_ok (log_ (rlog s))
}.

(** No operation that is pending changes the configuration. *)
Definition no_config (l : list Round) : Prop := Forall (λ r, op_type (round_op r) ≠ CHANGE_CONFIG_OP) l.

Lemma mem_length s : length (mem s) = (length (applied (rlog s)) + length (pending s))%nat.
Proof. unfold mem. by rewrite length_app, length_fmap. Qed.

Lemma mem_pending s k : mem s !! (length (applied (rlog s)) + k)%nat = round_op <$> (pending s !! k).
Proof. unfold mem. rewrite lookup_app_r by lia. rewrite list_lookup_fmap. by replace (_ + k - _)%nat with k by lia. Qed.

Lemma applied_mem s : applied (rlog s) = take (length (applied (rlog s))) (mem s).
Proof. unfold mem. by rewrite take_app_length. Qed.

Lemma core_same s s' : core_ok s -> applied (rlog s') = applied (rlog s) -> pending s' = pending s -> GetCommittedOpIdUnlocked s' = GetCommittedOpIdUnlocked s -> core_ok s'.
Proof. intros [] Ea Ep Ec. assert (mem s' = mem s) as Em by (unfold mem; by rewrite Ea, Ep). split; rewrite ?Em, ?Ec, ?Ea; done. Qed.

Section core.
Context (s : Replica) (Hs : core_ok s).

Lemma applied_ok : log_ok (applied (rlog s)).
Proof using Hs. rewrite applied_mem. apply log_ok_take, Hs. Qed.

Lemma committed_index_length : index (GetCommittedOpIdUnlocked s) = Z.of_nat (length (applied (rlog s))).
Proof using Hs. rewrite (co_committed s Hs). apply last_op_id_index, applied_ok. Qed.

Lemma pending_index k r : pending s !! k = Some r -> index (round_id r) = Z.of_nat (length (applied (rlog s)) + k) + 1.
Proof using Hs. intros Hr. apply (lg_index _ (co_mem s Hs) (length (applied (rlog s)) + k) (round_op r)). by rewrite mem_pending, Hr. Qed.

(** The operation with an index is found where it is. *)
Lemma FindPendingOperation_spec release i :
  0 <= i <= Z.of_nat (length (mem s)) ->
  FindPendingOperation release i s =
    Done (if decide (Z.of_nat (length (applied (rlog s))) < i) then Some (Z.to_nat i - length (applied (rlog s)) - 1)%nat else None).
Proof using Hs.
  intros Hi. unfold FindPendingOperation. pose proof (co_fits s Hs) as Hf. rewrite mem_length in *. destruct (pending s) as [|front rest] eqn:Ep.
  - cbn in Hi. rewrite decide_False by lia. done.
  - rewrite <- Ep in *. assert (pending s !! 0%nat = Some front) as H0 by (by rewrite Ep). pose proof (pending_index 0 front H0) as Hfront.
    set (a := length (applied (rlog s))) in *. set (n := length (pending s)) in *. rewrite Hfront. unfold u64, wrap. destruct (decide (Z.of_nat a < i)) as [Hlt|Hge].
    + rewrite Z.mod_small by lia. replace (_ <=? _) with false by (symmetry; apply Z.leb_gt; lia). replace (Z.to_nat (i - _)) with (Z.to_nat i - a - 1)%nat by lia.
      destruct (lookup_lt_is_Some_2 (pending s) (Z.to_nat i - a - 1)%nat) as [r Hr]; [lia|]. rewrite Hr. rewrite (pending_index _ _ Hr).
      replace (_ =? i) with true by (symmetry; apply Z.eqb_eq; lia). unfold DCHECK. by destruct release.
    + rewrite <- (Z.mod_add _ 1) by lia. rewrite Z.mod_small by lia. replace (_ <=? _) with true; [done|]. symmetry. apply Z.leb_le. lia.
Qed.

(** What the replica knows of an operation. *)
Lemma IsOpCommittedOrPending_spec release id :
  0 <= index id -> index (GetLastReceivedOpIdUnlocked s) = Z.of_nat (length (mem s)) ->
  IsOpCommittedOrPending release id s =
    Done (if decide (index id <= Z.of_nat (length (applied (rlog s)))) then (true, false)
          else match mem s !! Z.to_nat (index id - 1) with
               | None => (false, false)
               | Some op => if decide (term (op_id op) = term id) then (true, false) else (false, true)
               end).
Proof using Hs.
  intros H0 Hr. unfold IsOpCommittedOrPending. rewrite committed_index_length, Hr. destruct (Z.leb_spec (index id) (Z.of_nat (length (applied (rlog s))))) as [Hle|Hgt].
  { by rewrite decide_True by done. }
  rewrite decide_False by lia. destruct (Z.ltb_spec (Z.of_nat (length (mem s))) (index id)) as [Hlt|Hge].
  { by rewrite lookup_ge_None_2 by lia. }
  unfold GetPendingOpByIndexOrNullUnlocked. rewrite FindPendingOperation_spec by lia. rewrite decide_True by lia. cbn [mbind outcome_bind].
  replace (Z.to_nat (index id - 1)) with (length (applied (rlog s)) + (Z.to_nat (index id) - length (applied (rlog s)) - 1))%nat by lia. rewrite mem_pending.
  destruct (lookup_lt_is_Some_2 (pending s) (Z.to_nat (index id) - length (applied (rlog s)) - 1)%nat) as [r Er]; [rewrite mem_length in Hge; lia|]. rewrite Er. cbn.
  unfold round_id. destruct (Z.eqb_spec (term (op_id (round_op r))) (term id)) as [E|E]; [by rewrite decide_True by done|by rewrite decide_False by done].
Qed.

End core.

(** ** Aborting *)

Section abort.
Context (release : bool) (RangeTimeLimit : Z) (env : LogEnv).

Lemma take_mem s k : (k <= length (pending s))%nat ->
  applied (rlog s) ++ (round_op <$> take k (pending s)) = take (length (applied (rlog s)) + k) (mem s).
Proof using. intros Hk. unfold mem. rewrite take_app_ge by lia. rewrite <- fmap_take. by replace (_ + k - _)%nat with k by lia. Qed.

(** What is aborted are the pending operations after an index; what is
    committed is never aborted. *)
Lemma AbortOps_spec i s s' r :
  core_ok s -> 0 <= i <= Z.of_nat (length (mem s)) -> AbortOpsAfterUnlocked release RangeTimeLimit env i s = Done (s', r) ->
  Z.of_nat (length (applied (rlog s))) <= i /\ r = Ok tt /\
  mem s' = take (Z.to_nat i) (mem s) /\ applied (rlog s') = applied (rlog s) /\ log_ (rlog s') = log_ (rlog s) /\
  GetCommittedOpIdUnlocked s' = GetCommittedOpIdUnlocked s /\ current_term_of s' = current_term_of s /\
  GetLastReceivedOpIdUnlocked s' = last_op_id (take (Z.to_nat i) (mem s)) /\
  GetLastReceivedOpIdCurLeaderUnlocked s' = last_op_id (take (Z.to_nat i) (mem s)) /\ next_index_ (rlog s') = i + 1 /\
  (no_config (pending s) -> no_config (pending s') /\ quiet (consensus s) (consensus s')).
Proof using.
  intros Hs Hi E. unfold AbortOpsAfterUnlocked in E. apply outcome_bind_Done in E as (_ & _ & E). rewrite (FindPendingOperation_spec s Hs release i Hi) in E.
  set (a := length (applied (rlog s))) in *. pose proof (mem_length s) as Hlen. fold a in Hlen. cbn [mbind outcome_bind] in E.
  apply outcome_bind_Done in E as ([np keep] & Enp & E).
  assert (Z.of_nat a <= i /\ keep = (Z.to_nat i - a)%nat /\ np = last_op_id (take (Z.to_nat i) (mem s)) /\ index np = i) as (Hai & Ek & -> & Eidx).
  { destruct (decide (Z.of_nat a < i)) as [Hlt|Hge].
    - destruct (pending s !! _) as [rd|] eqn:Er; [|done]. injection Enp as <- <-. split; [lia|]. split; [lia|].
      assert (mem s !! (Z.to_nat i - 1)%nat = Some (round_op rd)) as Hm.
      { pose proof (mem_pending s (Z.to_nat i - a - 1)) as Hm. rewrite Er in Hm. fold a in Hm. by replace (Z.to_nat i - 1)%nat with (a + (Z.to_nat i - a - 1))%nat by lia. }
      split; [|rewrite (pending_index s Hs _ _ Er); fold a; lia]. change (round_id rd) with (op_id_of (round_op rd)). symmetry. apply (last_op_id_lookup _ _ (Z.to_nat i - 1)); [by rewrite lookup_take_lt by lia|].
      rewrite length_take. lia.
    - apply outcome_bind_Done in Enp as ([] & Ec & [= <- <-]). unfold CHECK in Ec. destruct (Z.eqb_spec i (index (GetCommittedOpIdUnlocked s))) as [Ei|]; [|done].
      rewrite (committed_index_length s Hs) in Ei. fold a in Ei. split; [lia|]. split.
      + destruct (pending s) as [|front rest] eqn:Ep; [lia|]. replace (_ <? _) with true; [lia|]. symmetry. apply Z.ltb_lt.
        rewrite (pending_index s Hs 0 front) by (by rewrite Ep). fold a. lia.
      + rewrite (co_committed s Hs). replace (Z.to_nat i) with a by lia. unfold a. rewrite <- applied_mem. split; [done|]. by rewrite <- (co_committed s Hs), (committed_index_length s Hs). }
  set (s1 := with_next_index _ _) in E. apply outcome_bind_Done in E as (s2 & E & [= <- <-]). apply notify_all_kept in E as ([] & Hp & Ha & Hq). change (pending s1) with (pending s) in *.
  assert (mem (with_pending (take keep (pending s2)) s2) = take (Z.to_nat i) (mem s)) as Em.
  { unfold mem at 1. cbn [with_pending with_rlog rlog applied]. change (pending (with_pending _ s2)) with (take keep (pending s2)). rewrite Ha, Hp. change (applied (rlog s1)) with (applied (rlog s)).
    rewrite take_mem by lia. fold a. f_equal. lia. }
  split; [done|]. split; [done|]. split; [done|]. split; [exact Ha|]. split; [exact kp_log0|]. split; [exact kp_committed0|]. split; [exact kp_term0|].
  split; [exact kp_received0|]. split; [exact kp_current0|]. split; [etrans; [exact kp_next0|]; cbn; by rewrite Eidx|].
  intros Hn. split; [change (pending (with_pending _ s2)) with (take keep (pending s2)); rewrite Hp; by apply Forall_take|].
  transitivity (consensus s1); [by split|]. apply Hq. by apply Forall_drop.
Qed.

Lemma AbortOps_ok i s s' r :
  replica_ok s -> 0 <= i <= Z.of_nat (length (mem s)) -> AbortOpsAfterUnlocked release RangeTimeLimit env i s = Done (s', r) -> replica_ok s'.
Proof using.
  intros [Hc Hr Hcu Hn Hl Hlo] Hi E. destruct (AbortOps_spec i s s' r Hc Hi E) as (Ha & _ & Em & Ea & El & Ec & _ & Er & Ecu & En & _).
  assert (length (take (Z.to_nat i) (mem s)) = Z.to_nat i) as Hlen by (rewrite length_take; lia). split; [split|..]; rewrite ?Em, ?Ec, ?Ea, ?El.
  - apply log_ok_take, Hc.
  - apply Hc.
  - pose proof (co_fits s Hc). rewrite Hlen. lia.
  - done.
  - by right.
  - rewrite En, Hlen. lia.
  - etrans; [apply prefix_take|done].
  - done.
Qed.

End abort.

(** ** Committing *)

(** Operations were applied in the order of the log, at most up to [c]. *)
Record advanced (c : Z) (s s' : Replica) : Prop := {
  ad_core : core_ok s';
  ad_mem : mem s' = mem s;
  ad_applied : applied (rlog s) `prefix_of` applied (rlog s');
  ad_bound : Z.of_nat (length (applied (rlog s'))) <= Z.max (Z.of_nat (length (applied (rlog s)))) c;
  ad_log : log_ (rlog s') = log_ (rlog s);
  ad_received : GetLastReceivedOpIdUnlocked s' = GetLastReceivedOpIdUnlocked s;
  ad_current : GetLastReceivedOpIdCurLeaderUnlocked s' = GetLastReceivedOpIdCurLeaderUnlocked s;
  ad_next : next_index_ (rlog s') = next_index_ (rlog s);
  ad_term : current_term_of s' = current_term_of s;
  ad_quiet : no_config (pending s) -> no_config (pending s') /\ quiet (consensus s) (consensus s')
}.

Lemma advanced_refl c s : core_ok s -> advanced c s s.
Proof. intros Hs. split; try done. lia. Qed.

Lemma advanced_ok c s s' : replica_ok s -> advanced c s s' -> replica_ok s'.
Proof. intros [] []. split; [done|congruence|rewrite ad_current0, ad_mem0; done|congruence|congruence|congruence]. Qed.

Section commit.
Context (release : bool) (RangeTimeLimit : Z) (env : LogEnv).

Lemma apply_pending_spec stop t c rounds prev mx s s' prev' :
  log_ok (mem s) -> pending s = rounds -> prev = last_op_id (applied (rlog s)) ->
  apply_pending release RangeTimeLimit env stop t c rounds prev mx s = Done (s', prev') ->
  kept s s' /\ mem s' = mem s /\ applied (rlog s) `prefix_of` applied (rlog s') /\ prev' = last_op_id (applied (rlog s')) /\
  Z.of_nat (length (applied (rlog s'))) <= Z.max (Z.of_nat (length (applied (rlog s)))) (index c) /\
  (stop = None -> Z.min (Z.of_nat (length (mem s))) (index c) <= Z.of_nat (length (applied (rlog s')))) /\
  (no_config rounds -> no_config (pending s') /\ quiet (consensus s) (consensus s')).
Proof using.
  revert prev mx s. induction rounds as [|round rounds IH]; intros prev mx s Hlog Hp -> E.
  { injection E as <- <-. do 4 (split; [done|]). split; [lia|]. split; [|by rewrite Hp]. intros _. rewrite mem_length, Hp. cbn. lia. }
  assert (index (round_id round) = Z.of_nat (length (applied (rlog s))) + 1) as Hidx.
  { change (round_id round) with (op_id_of (round_op round)). rewrite (lg_index _ Hlog (length (applied (rlog s)) + 0) (round_op round)); [lia|]. by rewrite mem_pending, Hp. }
  cbn [apply_pending] in E. destruct (Z.ltb_spec (index c) (index (round_id round))) as [Hlt|Hge].
  { injection E as <- <-. do 4 (split; [done|]). split; [lia|]. split; [lia|by rewrite Hp]. }
  apply outcome_bind_Done in E as (_ & _ & E). destruct (bool_decide (op_type _ = WRITE_OP) && _) eqn:Estop.
  { injection E as <- <-. do 4 (split; [done|]). split; [lia|]. split; [|by rewrite Hp]. intros ->. by rewrite andb_false_r in Estop. }
  apply outcome_bind_Done in E as (mx' & _ & E). apply outcome_bind_Done in E as (s1 & E1 & E). apply outcome_bind_Done in E as (s2 & E2 & E).
  assert (kept s s1 /\ pending s1 = rounds /\ applied (rlog s1) = applied (rlog s) /\ (op_type (round_op round) ≠ CHANGE_CONFIG_OP -> quiet (consensus s) (consensus s1))) as (Hk1 & Hp1 & Ha1 & Hq1).
  { destruct (decide (op_type (round_op round) = CHANGE_CONFIG_OP)) as [Ht|Ht]; [rewrite bool_decide_eq_true_2 in E1 by done|rewrite bool_decide_eq_false_2 in E1 by done].
    - apply ApplyConfigChange_kept in E1 as (Hk1 & Hp1 & Ha1). split; [destruct Hk1; by split|done].
    - by injection E1 as <-. }
  apply Notify_kept in E2 as (Hk2 & Hp2 & Ha2 & Hq2).
  assert (mem s2 = mem s) as Em by (unfold mem; by rewrite Ha2, Ha1, Hp2, Hp1, Hp, <- app_assoc).
  assert (round_id round = last_op_id (applied (rlog s2))) as El by (rewrite Ha2; by rewrite last_op_id_snoc).
  apply IH in E as (Hk & Hm & Ha & Hpr & Hb & Hst & Hq); [|by rewrite Em|congruence|done].
  split; [etrans; [exact Hk1|]; by etrans|]. split; [congruence|]. split; [etrans; [|exact Ha]; rewrite Ha2, Ha1; by apply prefix_app_r|]. split; [done|].
  rewrite Ha2, Ha1, length_app in Hb. cbn in Hb. split; [lia|]. split; [rewrite <- Em; done|].
  intros [Hr Hrs]%Forall_cons. destruct (Hq Hrs) as [? ?]. split; [done|]. etrans; [by apply Hq1|]. etrans; [by apply Hq2|done].
Qed.

Lemma ApplyPending_spec c stop s s' r :
  core_ok s -> ApplyPendingOperationsUnlocked release RangeTimeLimit env c stop s = Done (s', r) ->
  r = Ok tt /\ advanced (index c) s s' /\
  (stop = None -> Z.min (Z.of_nat (length (mem s))) (index c) <= Z.of_nat (length (applied (rlog s')))).
Proof using.
  intros Hs E. unfold ApplyPendingOperationsUnlocked in E. apply outcome_bind_Done in E as ([c1 st] & E1 & E).
  apply GetLeaderState_forgets in E1. destruct (forgets_kept c1 s E1) as [Hk1 Hq1]. apply outcome_bind_Done in E as ([s2 prev] & E2 & E).
  apply outcome_bind_Done in E as (s3 & E3 & [= <- <-]). unfold SetLastCommittedIndexUnlocked in E3. apply outcome_bind_Done in E3 as (_ & _ & [= <-]).
  apply apply_pending_spec in E2 as (Hk2 & Hm & Ha & Hpr & Hb & Hst & Hq); [|apply Hs|done|apply Hs].
  split; [done|]. split; [|done]. assert (kept s s2) as [] by (by etrans). split; try done.
  - destruct Hs. split; [change (log_ok (mem s2)); by rewrite Hm|done|change (Z.of_nat (length (mem s2)) < 2 ^ 63); by rewrite Hm].
  - intros Hn. destruct (Hq Hn) as [? ?]. split; [done|]. by etrans.
Qed.

Lemma AdvanceCommitted_spec c stop s s' r :
  core_ok s -> AdvanceCommittedOpIdUnlocked release RangeTimeLimit env c stop s = Done (s', r) ->
  advanced (index c) s s' /\
  (stop = None -> ResultToStatus r = Ok tt -> Z.min (Z.of_nat (length (mem s))) (index c) <= Z.of_nat (length (applied (rlog s')))).
Proof using.
  intros Hs E. unfold AdvanceCommittedOpIdUnlocked in E. destruct (Z.leb_spec (index c) (index (GetCommittedOpIdUnlocked s))) as [Hle|Hgt].
  { injection E as <- <-. split; [by apply advanced_refl|]. intros _ _. rewrite (committed_index_length s Hs) in Hle. lia. }
  destruct (pending s) as [|front rest] eqn:Ep; [injection E as <- <-; split; [by apply advanced_refl|done]|].
  apply outcome_bind_Done in E as (_ & _ & E). apply outcome_bind_Done in E as ([s1 r1] & E & [= <- <-]).
  destruct (ApplyPending_spec c stop s s1 r1 Hs E) as (-> & Ha & Hst). split; [done|]. intros Hn _. by apply Hst.
Qed.

End commit.

(** ** Adding operations *)

Section add.
Context (release : bool) (RangeTimeLimit : Z) (env : LogEnv).

Lemma log_bind_Done {A B : Type} (m : LogOp A) (k : A -> Replica -> LogOp B) s' r :
  log_bind m k = Done (s', r) -> (∃ s a, m = Done (s, Ok a) /\ k a s = Done (s', r)) \/ (∃ c, m = Done (s', Error c) /\ r = Error c).
Proof using. unfold log_bind. destruct m as [[s [a|c]]| |]; [|intros [= <- <-]|done..]; [left; by exists s, a|right; by exists c]. Qed.

Lemma lift_op_Done {A : Type} (f : RaftConsensus -> Op A) s s' r :
  lift_op f s = Done (s', r) -> ∃ c, f (consensus s) = Done (c, r) /\ s' = with_consensus c s.
Proof using. unfold lift_op. intros E. apply outcome_bind_Done in E as ([c r'] & E & [= <- <-]). by exists c. Qed.

(** The round is added, or nothing is. *)
Lemma AddPending_spec round s s' r :
  AddPendingOperation release env round s = Done (s', r) ->
  kept s s' /\ applied (rlog s') = applied (rlog s) /\ pending s' = pending s ++ (match r with Ok _ => [round] | Error _ => [] end) /\
  (op_type (round_op round) ≠ CHANGE_CONFIG_OP -> quiet (consensus s) (consensus s')).
Proof using.
  intros E. unfold AddPendingOperation in E. destruct (_ && _); [injection E as <- <-; by rewrite app_nil_r|].
  assert (∀ x c, kept s x -> applied (rlog x) = applied (rlog s) -> pending x = pending s -> (op_type (round_op round) ≠ CHANGE_CONFIG_OP -> quiet (consensus s) (consensus x)) ->
    x = s' -> r = Error c -> kept s s' /\ applied (rlog s') = applied (rlog s) /\ pending s' = pending s ++ (match r with Ok _ => [round] | Error _ => [] end) /\
    (op_type (round_op round) ≠ CHANGE_CONFIG_OP -> quiet (consensus s) (consensus s'))) as Hend.
  { intros x c ? ? ? ? <- ->. by rewrite app_nil_r. }
  apply log_bind_Done in E as [(s1 & [] & E1 & E)|(c & E1 & ->)].
  2: { apply (Hend s' c); [..|done|done]; destruct (_ && _); try done; apply outcome_bind_Done in E1 as (h & _ & E1); destruct (bool_decide _); try by injection E1 as <- _.
       all: apply outcome_bind_Done in E1 as ([[c1 st] rem] & E1 & [= <- _]); apply GetLeaderLeaseStatus_forgets in E1; by destruct (forgets_kept c1 s E1). }
  assert (kept s s1 /\ applied (rlog s1) = applied (rlog s) /\ pending s1 = pending s /\ quiet (consensus s) (consensus s1)) as (Hk1 & Ha1 & Hp1 & Hq1).
  { destruct (_ && _); [|by injection E1 as <-]. apply outcome_bind_Done in E1 as (h & _ & E1). destruct (bool_decide _); [done|].
    apply outcome_bind_Done in E1 as ([[c1 st] rem] & E1 & [= <- _]). apply GetLeaderLeaseStatus_forgets in E1. by destruct (forgets_kept c1 s E1). }
  clear E1. apply log_bind_Done in E as [(s2 & [] & E2 & [= <- <-])|(c & E2 & ->)].
  all: match type of E2 with _ = Done (?x, _) => assert (kept s1 x /\ applied (rlog x) = applied (rlog s1) /\ pending x = pending s1 /\
    (op_type (round_op round) ≠ CHANGE_CONFIG_OP -> quiet (consensus s1) (consensus x))) as (Hk2 & Ha2 & Hp2 & Hq2) end.
  1,3: destruct (decide (op_type (round_op round) = CHANGE_CONFIG_OP)) as [Ht|Ht]; [rewrite bool_decide_eq_true_2 in E2 by done|rewrite bool_decide_eq_false_2 in E2 by done].
  1,3: apply outcome_bind_Done in E2 as (_ & _ & E2); apply outcome_bind_Done in E2 as (_ & _ & E2); destruct (negb _); [|by injection E2 as <-];
    destruct (CheckNoConfigChangePendingUnlocked s1); [|by injection E2 as <-]; destruct (_ <? _); [|by injection E2 as <-];
    apply outcome_bind_Done in E2 as ([s3 r3] & E3 & E2); apply outcome_bind_Done in E2 as (_ & _ & [= <-]); apply SetPendingConfig_kept in E3 as (? & ? & ?); done.
  1,2: destruct (bool_decide _); [|by injection E2 as <-]; destruct (Register_round _ _ _ _) as [[m b] n]; injection E2 as <- _; by split.
  - split; [etrans; [exact Hk1|]; destruct Hk2; by split|]. split; [cbn; congruence|]. split; [change (pending (with_pending _ s2)) with (pending s2 ++ [round]); congruence|].
    intros Ht. etrans; [exact Hq1|]. by apply Hq2.
  - apply (Hend s' c); [by etrans|congruence|congruence| |done|done]. intros Ht. etrans; [exact Hq1|]. by apply Hq2.
Qed.

Lemma StartReplicaOperation_spec op s s' r :
  StartReplicaOperationUnlocked release env op s = Done (s', r) ->
  kept s s' /\ applied (rlog s') = applied (rlog s) /\
  (∃ round, round_op round = op /\ pending s' = pending s ++ (match r with Ok _ => [round] | Error _ => [] end)) /\
  (op_type op ≠ CHANGE_CONFIG_OP -> quiet (consensus s) (consensus s')).
Proof using.
  unfold StartReplicaOperationUnlocked. set (round := mkRound _ op _).
  assert (∀ x, AddPendingOperation release env round s = Done (x, r) -> kept s x /\ applied (rlog x) = applied (rlog s) /\
    (∃ round, round_op round = op /\ pending x = pending s ++ (match r with Ok _ => [round] | Error _ => [] end)) /\ (op_type op ≠ CHANGE_CONFIG_OP -> quiet (consensus s) (consensus x))) as Hadd.
  { intros x (Hk & Ha & Hp & Hq)%AddPending_spec. split; [done|]. split; [done|]. split; [by exists round|done]. }
  assert (∀ c, Done (s, Error c) = Done (s', r) -> kept s s' /\ applied (rlog s') = applied (rlog s) /\
    (∃ round, round_op round = op /\ pending s' = pending s ++ (match r with Ok _ => [round] | Error _ => [] end)) /\ (op_type op ≠ CHANGE_CONFIG_OP -> quiet (consensus s) (consensus s'))) as Herr.
  { intros c [= <- <-]. split; [done|]. split; [done|]. split; [exists round; by rewrite app_nil_r|done]. }
  destruct (IsConsensusOnlyOperation _); [apply Hadd|]. destruct (FLAGS_follower_fail_all_prepare env); [apply Herr|]. destruct (StartReplicaOperation env op); [apply Hadd|apply Herr].
Qed.

Definition ops_no_config (ops : list Operation) : Prop := Forall (λ op, op_type op ≠ CHANGE_CONFIG_OP) ops.

(** The messages up to the first that is refused are added. *)
Lemma EnqueuePrepares_spec msgs s s' prepared :
  EnqueuePreparesUnlocked release env msgs s = Done (s', prepared) ->
  kept s s' /\ applied (rlog s') = applied (rlog s) /\ prepared `prefix_of` msgs /\ (round_op <$> pending s') = (round_op <$> pending s) ++ prepared /\
  (ops_no_config msgs -> no_config (pending s) -> no_config (pending s') /\ quiet (consensus s) (consensus s')).
Proof using.
  revert s prepared. induction msgs as [|m msgs IH]; intros s prepared E; cbn [EnqueuePreparesUnlocked] in E.
  { injection E as <- <-. rewrite app_nil_r. done. }
  apply outcome_bind_Done in E as ([s1 r1] & E1 & E). apply StartReplicaOperation_spec in E1 as (Hk1 & Ha1 & (rd & Erd & Hp1) & Hq1). destruct r1 as [[]|c].
  - apply outcome_bind_Done in E as ([s2 p2] & E2 & [= <- <-]). destruct (IH _ _ E2) as (Hk2 & Ha2 & Hpre & Hp2 & Hq2). split; [by etrans|]. split; [congruence|].
    split; [by apply prefix_cons|]. split; [rewrite Hp2, Hp1, fmap_app, <- app_assoc; cbn; by rewrite Erd|]. intros [Hm Hms]%Forall_cons Hn.
    destruct Hq2 as [Hn2 Hq2]; [done|rewrite Hp1; apply Forall_app_2; [done|]; apply Forall_singleton; by rewrite Erd|]. split; [done|]. etrans; [by apply Hq1|done].
  - injection E as <- <-. rewrite app_nil_r in Hp1. split; [done|]. split; [done|]. split; [apply prefix_nil|]. split; [by rewrite Hp1, app_nil_r|].
    intros [Hm _]%Forall_cons Hn. split; [by rewrite Hp1|by apply Hq1].
Qed.

End add.

(** ** Taking over the operations of a leader *)

(** The operations follow the one with the index [p]. *)
Definition segment (p : Z) (ops : list Operation) : Prop := ∀ k op, ops !! k = Some op -> index (op_id op) = p + 1 + Z.of_nat k.

(** The replica has the operation, or has committed one in its place. *)
Definition known (s : Replica) (op : Operation) : Prop :=
  index (op_id op) <= Z.of_nat (length (applied (rlog s))) \/ ∃ a, mem s !! Z.to_nat (index (op_id op) - 1) = Some a /\ op_id a = op_id op.

Definition preceding_after (prev : OpId) (l : list Operation) : OpId := match last l with Some op => op_id op | None => prev end.

Section follower.
Context (release : bool) (RangeTimeLimit : Z) (env : LogEnv).

Lemma segment_tail p op ops : segment p (op :: ops) -> index (op_id op) = p + 1 /\ segment (p + 1) ops.
Proof using.
  intros Hs. split; [rewrite (Hs 0%nat op); [lia|done]|]. intros k x Hk. rewrite (Hs (S k) x Hk). lia.
Qed.

(** Operations after all that may be known are new. *)
Lemma deduplicate_rest p ops up prev acc s :
  core_ok s -> segment p ops -> Z.of_nat (length (applied (rlog s))) <= p -> up <= p -> deduplicate release ops up prev acc s = Done (mkLeaderRequest prev (acc ++ ops)).
Proof using.
  intros Hs. revert p acc. induction ops as [|op ops IH]; intros p acc Hseg Ha Hup; cbn; [by rewrite app_nil_r|].
  apply segment_tail in Hseg as [Ei Hseg]. rewrite (committed_index_length s Hs), Ei.
  replace (_ <=? _) with false by (symmetry; apply Z.leb_gt; lia). replace (_ <=? up) with false by (symmetry; apply Z.leb_gt; lia).
  rewrite (IH (p + 1)) by (done || lia). by rewrite <- app_assoc.
Qed.

Lemma deduplicate_spec p ops prev s req :
  replica_ok s -> segment p ops -> 0 <= p -> deduplicate release ops (Z.of_nat (length (mem s))) prev [] s = Done req ->
  ∃ j, (j <= length ops)%nat /\ messages req = drop j ops /\ preceding_opid req = preceding_after prev (take j ops) /\
    (∀ op, op ∈ take j ops -> known s op) /\ (∀ op, ops !! j = Some op -> ¬ known s op).
Proof using.
  intros [Hs _ _ _ _ _]. revert p prev. induction ops as [|op ops IH]; intros p prev Hseg Hp E.
  { injection E as <-. exists 0%nat. cbn. split; [lia|]. split; [done|]. split; [done|]. split; [by intros ? ?%elem_of_nil|done]. }
  apply segment_tail in Hseg as [Ei Hseg]. cbn [deduplicate] in E. rewrite (committed_index_length s Hs) in E.
  assert (known s op -> deduplicate release ops (Z.of_nat (length (mem s))) (op_id op) [] s = Done req ->
    ∃ j, (j <= length (op :: ops))%nat /\ messages req = drop j (op :: ops) /\ preceding_opid req = preceding_after prev (take j (op :: ops)) /\
    (∀ x, x ∈ take j (op :: ops) -> known s x) /\ (∀ x, (op :: ops) !! j = Some x -> ¬ known s x)) as Hdup.
  { intros Hk E'. destruct (IH (p + 1) (op_id op) Hseg ltac:(lia) E') as (j & Hj & Em & Epr & Hkn & Hnk). exists (S j). cbn [length take drop]. split; [lia|]. split; [done|].
    split; [rewrite Epr; unfold preceding_after; rewrite last_cons; by destruct (last (take j ops))|]. split; [|done].
    intros x [->|Hx]%elem_of_cons; [done|by apply Hkn]. }
  assert (¬ known s op -> Done (mkLeaderRequest prev ([op] ++ ops)) = Done req ->
    ∃ j, (j <= length (op :: ops))%nat /\ messages req = drop j (op :: ops) /\ preceding_opid req = preceding_after prev (take j (op :: ops)) /\
    (∀ x, x ∈ take j (op :: ops) -> known s x) /\ (∀ x, (op :: ops) !! j = Some x -> ¬ known s x)) as Hnew.
  { intros Hk [= <-]. exists 0%nat. cbn. split; [lia|]. split; [done|]. split; [done|]. split; [by intros ? ?%elem_of_nil|]. by intros x [= <-]. }
  destruct (Z.leb_spec (index (op_id op)) (Z.of_nat (length (applied (rlog s))))) as [Hle|Hgt]; [apply Hdup; [by left|done]|].
  destruct (Z.leb_spec (index (op_id op)) (Z.of_nat (length (mem s)))) as [Hle2|Hgt2].
  - unfold GetPendingOpByIndexOrNullUnlocked in E. rewrite (FindPendingOperation_spec s Hs) in E by lia. rewrite decide_True in E by lia. cbn [mbind outcome_bind] in E.
    pose proof (mem_pending s (Z.to_nat (index (op_id op)) - length (applied (rlog s)) - 1)) as Hm. destruct (pending s !! _) as [rd|]; [|by destruct release].
    cbn in Hm. replace (_ + _)%nat with (Z.to_nat (index (op_id op) - 1)) in Hm by lia. destruct (OpIdEquals (round_id rd) (op_id op)) eqn:Eq.
    + apply Hdup; [|done]. right. exists (round_op rd). split; [done|]. unfold OpIdEquals in Eq. apply andb_true_iff in Eq as [E1%Z.eqb_eq E2%Z.eqb_eq].
      unfold round_id in *. destruct (op_id (round_op rd)), (op_id op). cbn in *. congruence.
    + rewrite (deduplicate_rest (p + 1)) in E by (done || lia). apply Hnew; [|done]. intros [?|(a & Ha & Eid)]; [lia|]. rewrite Hm in Ha. injection Ha as <-.
      unfold round_id in Eq. rewrite Eid in Eq. unfold OpIdEquals in Eq. by rewrite !Z.eqb_refl in Eq.
  - rewrite (deduplicate_rest (p + 1)) in E by (done || lia). apply Hnew; [|done]. intros [?|(a & Ha & _)]; [lia|]. apply lookup_lt_Some in Ha. lia.
Qed.

Lemma preceding_after_index p ops prev j :
  segment p ops -> index prev = p -> (j <= length ops)%nat -> index (preceding_after prev (take j ops)) = p + Z.of_nat j.
Proof using.
  intros Hseg Hp Hj. unfold preceding_after. destruct (last (take j ops)) as [op|] eqn:El.
  - rewrite last_lookup, length_take in El. assert (0 < j)%nat by (destruct j; [done|lia]). rewrite lookup_take_lt in El by lia. rewrite (Hseg _ _ El). lia.
  - apply last_None in El. assert (length (take j ops) = 0%nat) as E0 by (by rewrite El). rewrite length_take in E0. lia.
Qed.

End follower.

(** ** The votes of a follower *)

(** No vote is cast. *)
Definition no_vote (c c' : RaftConsensus) : Prop := ∀ x, vote_of c' = Some x -> vote_of c = Some x /\ GetCurrentTermUnlocked c' = GetCurrentTermUnlocked c.

#[export] Instance no_vote_preorder : PreOrder no_vote.
Proof. split; [by intros c x|]. intros c1 c2 c3 H12 H23 x [Hx Et]%H23. apply H12 in Hx as [? ?]. split; [done|congruence]. Qed.

Lemma same_vote_no_vote c c' : same_vote c c' -> no_vote c c'.
Proof. intros (_ & E & _) x. unfold vote_of, GetCurrentTermUnlocked, current_term. by rewrite E. Qed.

(** The votes are kept, and the replica does not become leader. *)
Definition follows (config : RaftConfigPB) (i : uuid) (c c' : RaftConsensus) : Prop :=
  node_ok config i c -> node_ok config i c' /\ votes_kept c c' /\ no_vote c c' /\
    (GetActiveRoleUnlocked c' = LEADER -> GetActiveRoleUnlocked c = LEADER /\ GetCurrentTermUnlocked c' = GetCurrentTermUnlocked c).

#[export] Instance follows_preorder config i : PreOrder (follows config i).
Proof.
  split; [intros c Hc; by split_and!|]. intros c1 c2 c3 H12 H23 (H2 & V2 & W2 & R2)%H12. apply H23 in H2 as (H3 & V3 & W3 & R3).
  split; [done|]. split; [by etrans|]. split; [by etrans|]. intros [HR ->]%R3. by apply R2.
Qed.

Lemma same_vote_follows config i c c' : same_vote c c' -> (GetActiveRoleUnlocked c' = LEADER -> GetActiveRoleUnlocked c = LEADER) -> follows config i c c'.
Proof.
  intros Hv Hr Hc. destruct (same_vote_ok config i c c' Hv Hc) as (? & ? & _ & Et). split; [done|]. split; [done|]. split; [by apply same_vote_no_vote|]. intros HL%Hr. done.
Qed.

Lemma quiet_follows config i c c' : quiet c c' -> follows config i c c'.
Proof. intros [Hv Hr _]. apply same_vote_follows; [done|]. unfold GetActiveRoleUnlocked. by rewrite Hr. Qed.

(** The last operation is kept; what came from the current leader is forgotten
    with a new term. *)
Definition received_kept (c c' : RaftConsensus) : Prop :=
  last_received_op_id_ c' = last_received_op_id_ c /\
  ((last_received_op_id_current_leader_ c' = last_received_op_id_current_leader_ c /\ GetCurrentTermUnlocked c' = GetCurrentTermUnlocked c) \/
   (last_received_op_id_current_leader_ c' = MinimumOpId /\ GetCurrentTermUnlocked c < GetCurrentTermUnlocked c')).

#[export] Instance received_kept_preorder : PreOrder received_kept.
Proof.
  split; [intros c; split; auto|]. intros c1 c2 c3 [E1 H1] [E2 H2]. split; [congruence|].
  destruct H1 as [[? ?]|[? ?]], H2 as [[? ?]|[? ?]]; [left; split; congruence|right; split; [congruence|lia]..].
Qed.

Section votes.
Context (release : bool) (e : Env) (config : RaftConfigPB) (i : uuid) (Hi : i ≠ EmptyString).

Lemma SetCurrentTerm_received t c c' r : SetCurrentTermUnlocked release t c = Done (c', r) ->
  received_kept c c' /\ no_vote c c' /\ (r = Ok tt -> GetCurrentTermUnlocked c' = t).
Proof using.
  unfold SetCurrentTermUnlocked. destruct (Z.leb_spec t (GetCurrentTermUnlocked c)) as [Hle|Hlt]; [intros [= <- <-]; done|].
  intros E. apply outcome_bind_Done in E as (m & Em & E). apply outcome_bind_Done in E as (m' & Em' & [= <- <-]).
  set (c1 := with_last_received_current_leader (mkOpId 0 0) (ClearLeaderUnlocked (with_cmeta m' c))).
  assert (GetCurrentTermUnlocked c1 = t /\ vote_of c1 = None) as [Et Ev].
  { unfold set_current_term in Em. apply outcome_bind_Done in Em as (_ & _ & [= <-]).
    destruct (Flush _) as [m2|] eqn:Ef; [|done]. injection Em' as <-. apply Flush_Ok in Ef as (_ & Ep & _). unfold GetCurrentTermUnlocked, current_term, vote_of. cbn. by rewrite Ep. }
  split; [split; [done|]; right; split; [done|lia]|]. split; [intros x; by rewrite Ev|done].
Qed.

Lemma HandleTermAdvance_received t c c' r : HandleTermAdvanceUnlocked release e t c = Done (c', r) ->
  received_kept c c' /\ no_vote c c' /\ (r = Ok tt -> GetCurrentTermUnlocked c' = t).
Proof using.
  unfold HandleTermAdvanceUnlocked. destruct (_ <=? _); [by intros [= <- <-]|].
  case_bool_decide; [|apply SetCurrentTerm_received]. unfold BecomeReplicaUnlocked. set (c1 := with_withhold_votes _ _).
  assert (received_kept c c1 /\ no_vote c c1) as [H1 V1] by (split; [split; [done|by left]|by apply same_vote_no_vote]).
  destruct (match env_unregister_observer e with Ok _ => _ | _ => _ end) as [[]|cd]; cbn [op_bind].
  - intros (H2 & V2 & H3)%SetCurrentTerm_received. split; [by etrans|]. split; [by etrans|done].
  - by intros [= <- <-].
Qed.

Lemma HandleTermAdvance_follows t c c' r : HandleTermAdvanceUnlocked release e t c = Done (c', r) -> follows config i c c'.
Proof using Hi.
  intros E Hc. destruct (HandleTermAdvance_ok release e config i _ _ _ _ Hc E) as (? & ? & _). split; [done|]. split; [done|].
  split; [by apply HandleTermAdvance_received in E as (_ & ? & _)|]. apply (lk_role _ _ (HandleTermAdvance_lease release e config i Hi t c c' r Hc E)).
Qed.

Lemma HandleLeaderRequestTerm_spec request c c' r :
  HandleLeaderRequestTermUnlocked release e request c = Done (c', r) ->
  received_kept c c' /\ follows config i c c' /\
  (r = Ok false -> GetCurrentTermUnlocked c' = caller_term request) /\ (r = Ok true -> caller_term request < GetCurrentTermUnlocked c').
Proof using Hi.
  unfold HandleLeaderRequestTermUnlocked. destruct (Z.eqb_spec (caller_term request) (GetCurrentTermUnlocked c)) as [E|Hne]; cbn [negb].
  { intros [= <- <-]. done. }
  destruct (Z.ltb_spec (caller_term request) (GetCurrentTermUnlocked c)).
  { intros [= <- <-]. done. }
  intros E. destruct (HandleTermAdvanceUnlocked release e (caller_term request) c) as [[c1 r1]| |] eqn:E1; [|done..].
  destruct (HandleTermAdvance_received _ _ _ _ E1) as (Hr & _ & Ht). pose proof (HandleTermAdvance_follows _ _ _ _ E1) as Hf.
  destruct r1 as [[]|cd]; cbn [op_bind] in E; injection E as <- <-; (split; [done|]); (split; [done|]); [|done]. split; [intros _; by apply Ht|done].
Qed.

Lemma SetLeaderUuid_follows u c : u ≠ i -> follows config i c (SetLeaderUuidUnlocked u c).
Proof using Hi.
  intros Hne Hc. destruct (same_vote_ok config i c (SetLeaderUuidUnlocked u c)) as (? & ? & _ & _); [done..|]. split; [done|]. split; [done|]. split; [by apply same_vote_no_vote|]. intros Hrole. exfalso. revert Hrole.
  unfold GetActiveRoleUnlocked. cbn. unfold GetConsensusRole, leader_uuid_of. cbn. rewrite (nd_uuid _ _ _ Hc), bool_decide_eq_false_2 by done.
  destruct (find_peer _ _) as [p|]; [|done]. unfold role_of_member. by destruct (member_type p).
Qed.

Lemma accept_request_spec timeout request c c' :
  accept_request release e timeout request c = Done c' ->
  quiet c c' /\ last_received_op_id_ c' = last_received_op_id_ c /\ last_received_op_id_current_leader_ c' = last_received_op_id_current_leader_ c.
Proof using.
  unfold accept_request. intros E. apply outcome_bind_Done in E as (w & _ & [= <-]). by destruct (leader_lease_duration_ms request).
Qed.

(** *** Elections and votes *)

Lemma SetVotedFor_received u c c' r : SetVotedForCurrentTermUnlocked release u c = Done (c', r) ->
  received_kept c c' /\ r = Ok tt /\ vote_of c' = Some u.
Proof using.
  unfold SetVotedForCurrentTermUnlocked. intros E. apply outcome_bind_Done in E as (m & Em & E). apply outcome_bind_Done in E as (m' & Em' & [= <- <-]).
  unfold set_voted_for in Em. apply outcome_bind_Done in Em as (_ & _ & [= <-]). destruct (Flush _) as [m2|] eqn:Ef; [|done]. injection Em' as <-.
  apply Flush_Ok in Ef as (_ & Ep & _). unfold received_kept, vote_of, GetCurrentTermUnlocked, current_term. cbn. rewrite Ep. split; [|done]. split; [done|by left].
Qed.

Lemma IncrementTerm_uuid c c' r : IncrementTermUnlocked release e c = Done (c', r) -> peer_uuid c' = peer_uuid c.
Proof using.
  assert (∀ t x, SetCurrentTermUnlocked release t x = Done (c', r) -> peer_uuid c' = peer_uuid x) as Hset.
  { intros t x. unfold SetCurrentTermUnlocked. destruct (_ <=? _); [by intros [= <- _]|]. intros E. apply outcome_bind_Done in E as (m & Em & E).
    apply outcome_bind_Done in E as (m' & Em' & [= <- _]). unfold set_current_term in Em. apply outcome_bind_Done in Em as (_ & _ & [= <-]).
    destruct (Flush _) as [m2|] eqn:Ef; [|done]. injection Em' as <-. by apply Flush_Ok in Ef as (_ & _ & ? & _). }
  unfold IncrementTermUnlocked, HandleTermAdvanceUnlocked. destruct (_ <=? _); [by intros [= <- _]|]. destruct (bool_decide _); [|apply Hset]. unfold BecomeReplicaUnlocked.
  destruct (match env_unregister_observer e with Ok _ => _ | _ => _ end) as [[]|d]; cbn [op_bind]; [by intros ->%Hset|by intros [= <- _]].
Qed.

Lemma op_bind_Done {A B : Type} (m : Op A) (k : A -> RaftConsensus -> Op B) c' r :
  op_bind m k = Done (c', r) -> (∃ c a, m = Done (c, Ok a) /\ k a c = Done (c', r)) \/ (∃ d, m = Done (c', Error d) /\ r = Error d).
Proof using. unfold op_bind. destruct m as [[c [a|d]]| |]; [|intros [= <- <-]|done..]; [left; by exists c, a|right; by exists d]. Qed.

Lemma Remaining_received c : received_kept c (RemainingOldLeaderLeaseDuration e c).1.
Proof using. unfold RemainingOldLeaderLeaseDuration. repeat case_match; (split; [done|by left]). Qed.

(** A vote that is granted was granted before, or the candidate has a log that is
    as good as what [env_latest_op_id] tells; a new vote is told. *)
Definition granted_for (request : VoteRequestPB) (r : Result VoteResponsePB) : Prop :=
  ∃ resp, r = Ok resp /\ vote_granted resp = true /\ request_preelection request = false.

Lemma vote_for_candidate_received request c c' r :
  vote_for_candidate release e request c = Done (c', r) ->
  received_kept c c' /\ (∀ x, vote_of c' = Some x -> x = candidate_uuid request /\ granted_for request r \/ vote_of c = Some x /\ GetCurrentTermUnlocked c' = GetCurrentTermUnlocked c) /\
  (∀ resp, r = Ok resp -> vote_granted resp = true -> OpIdLessThan (candidate_last_received request) (env_latest_op_id e) = false).
Proof using.
  intros E. unfold vote_for_candidate in E. destruct (OpIdLessThan _ _); [injection E as <- <-; split; [done|]; split; [by right|]; by intros resp [= <-]|].
  set (c1 := if request_preelection request then c else with_pending_election None c) in E.
  assert (received_kept c c1 /\ no_vote c c1) as [H1 V1].
  { unfold c1. destruct (request_preelection request); [done|]. split; [split; [done|by left]|by apply same_vote_no_vote]. }
  pose proof (Remaining_received c1) as H2. pose proof (same_vote_no_vote _ _ (RemainingOldLeaderLease_same e c1)) as V2. clearbody c1.
  destruct (RemainingOldLeaderLeaseDuration e c1) as [c2 rest]. cbn [fst] in H2, V2. assert (no_vote c c2) as V by (by etrans).
  assert (received_kept c c2) as H by (by etrans). destruct (request_preelection request) eqn:Hpre; apply outcome_bind_Done in E as (rr & Err & E).
  - injection E as <- <-. split; [done|]. split; [|done]. intros x Hx. right. by apply V.
  - apply op_bind_Done in E as [(c3 & [] & E3 & [= <- <-])|(d & E3 & _)]; apply SetVotedFor_received in E3 as (H3 & ? & V3); [|done]. split; [by etrans|]. split; [|done].
    intros x Hx. left. rewrite V3 in Hx. injection Hx as <-. split; [done|]. exists rr. split; [done|]. split; [|done].
    unfold with_leases in Err. by apply outcome_bind_Done in Err as (? & _ & [= <-]).
Qed.

Lemma RequestVote_received request c c' r :
  RequestVote release e request c = Done (c', r) ->
  received_kept c c' /\ (∀ x, vote_of c' = Some x -> x = candidate_uuid request /\ granted_for request r \/ vote_of c = Some x /\ GetCurrentTermUnlocked c' = GetCurrentTermUnlocked c) /\
  (∀ resp, r = Ok resp -> vote_granted resp = true -> request_preelection request = false ->
     (vote_of c = Some (candidate_uuid request) /\ GetCurrentTermUnlocked c = candidate_term request) \/
     OpIdLessThan (candidate_last_received request) (env_latest_op_id e) = false).
Proof using.
  intros E. unfold RequestVote in E. assert (∀ code, Done (c, Ok (FillVoteResponseVoteDenied c request code)) = Done (c', r) ->
    received_kept c c' /\ (∀ x, vote_of c' = Some x -> x = candidate_uuid request /\ granted_for request r \/ vote_of c = Some x /\ GetCurrentTermUnlocked c' = GetCurrentTermUnlocked c) /\
    (∀ resp, r = Ok resp -> vote_granted resp = true -> request_preelection request = false ->
     (vote_of c = Some (candidate_uuid request) /\ GetCurrentTermUnlocked c = candidate_term request) \/
     OpIdLessThan (candidate_last_received request) (env_latest_op_id e) = false)) as Hden.
  { intros code [= <- <-]. split; [done|]. split; [by right|]. by intros resp [= <-]. }
  destruct (negb _); [injection E as <- <-; split; [done|]; split; [by right|done]|]. destruct (_ && _); [by eapply Hden|].
  apply outcome_bind_Done in E as (alive & _ & E). destruct alive; [by eapply Hden|].
  destruct (_ <? _); [by eapply Hden|]. destruct ((candidate_term request =? GetCurrentTermUnlocked c) && HasVotedCurrentTermUnlocked c) eqn:Hv.
  - apply outcome_bind_Done in E as (v & Ev & E). case_bool_decide as Hc; [|by eapply Hden]. injection E as <- <-. split; [done|]. split; [by right|]. intros _ _ _ _. left.
    apply andb_true_iff in Hv as [Ht%Z.eqb_eq Hv]. split; [|done]. unfold voted_for in Ev. apply outcome_bind_Done in Ev as (_ & _ & [= <-]).
    unfold HasVotedCurrentTermUnlocked, has_voted_for in Hv. apply bool_decide_eq_true in Hv as [w Hw]. unfold vote_of. rewrite Hw in *. cbn in Hc. congruence.
  - clear Hv Hden. apply op_bind_Done in E as [(c1 & [] & E1 & E)|(d & E1 & ->)].
    + assert (received_kept c c1 /\ no_vote c c1) as [H1 V1] by (destruct (_ && _); [by apply HandleTermAdvance_received in E1 as (? & ? & _)|by injection E1 as <-]).
      apply vote_for_candidate_received in E as (H2 & V2 & Hr). split; [by etrans|]. split; [|intros resp Hresp Hg _; right; by eapply Hr].
      intros x [?|[[? Et]%V1 Et']]%V2; [by left|right]. split; [done|congruence].
    + assert (received_kept c c' /\ no_vote c c') as [H1 V1] by (destruct (_ && _); [by apply HandleTermAdvance_received in E1 as (? & ? & _)|by injection E1 as <-]).
      split; [done|]. split; [|done]. intros x Hx. right. by apply V1.
Qed.

Lemma CreateElection_received ignore pre c c' r :
  CreateElectionUnlocked release e ignore pre c = Done (c', r) ->
  received_kept c c' /\ (∀ x, vote_of c' = Some x -> x = peer_uuid c \/ vote_of c = Some x /\ GetCurrentTermUnlocked c' = GetCurrentTermUnlocked c) /\
  (∀ el, r = Ok el -> candidate_last_received (request_ el) = last_received_op_id_ c /\
    (request_preelection (request_ el) = false -> GetCurrentTermUnlocked c < candidate_term (request_ el))).
Proof using.
  intros E. unfold CreateElectionUnlocked in E. apply op_bind_Done in E as [(c1 & [] & E1 & E)|(d & E1 & ->)].
  2: { assert (received_kept c c' /\ no_vote c c') as [? V] by (destruct pre; [done|by apply HandleTermAdvance_received in E1 as (? & ? & _)]).
       split; [done|]. split; [|done]. intros x Hx. right. by apply V. }
  assert (received_kept c c1 /\ no_vote c c1 /\ (pre = false -> GetCurrentTermUnlocked c < GetCurrentTermUnlocked c1) /\ peer_uuid c1 = peer_uuid c) as (H1 & V1 & Hlt & Eu).
  { destruct pre; [by injection E1 as <-|]. pose proof E1 as (? & ? & Ht)%HandleTermAdvance_received. split; [done|]. split; [done|]. split; [intros _; rewrite Ht by done; lia|].
    by apply IncrementTerm_uuid in E1. }
  apply outcome_bind_Done in E as (mj & _ & E). apply op_bind_Done in E as [(c2 & [] & E2 & E)|(d & E2 & ->)].
  2: { destruct pre; [done|]. by apply SetVotedFor_received in E2 as (_ & ? & _). }
  assert (received_kept c1 c2 /\ (∀ x, vote_of c2 = Some x -> x = peer_uuid c \/ vote_of c1 = Some x /\ GetCurrentTermUnlocked c2 = GetCurrentTermUnlocked c1)) as [H2 V2].
  { destruct pre; [injection E2 as <-; split; [done|by right]|]. apply SetVotedFor_received in E2 as (? & _ & V2). split; [done|]. intros x Hx. left. congruence. }
  assert (received_kept c c2) as H by (by etrans).
  assert (∀ x, vote_of c2 = Some x -> x = peer_uuid c \/ vote_of c = Some x /\ GetCurrentTermUnlocked c2 = GetCurrentTermUnlocked c) as V.
  { intros x [?|[[? Et]%V1 Et']]%V2; [by left|right]. split; [done|congruence]. }
  apply outcome_bind_Done in E as (counter & _ & E). destruct counter as [counter|d]; [|injection E as <- <-; by split_and!].
  apply outcome_bind_Done in E as (el & Ee & [= <- <-]). split; [etrans; [exact H|]; destruct pre; [done|split; [done|by left]]|]. split; [by destruct pre|].
  intros el' [= <-]. unfold new_LeaderElection in Ee. apply outcome_bind_Done in Ee as (x & _ & Ee).
  apply outcome_bind_Done in Ee as (_ & _ & Ee). apply outcome_bind_Done in Ee as (_ & _ & [= <-]). cbn. split; [by destruct H|].
  intros ->. specialize (Hlt eq_refl). destruct H2 as [_ [[_ ?]|[_ ?]]]; lia.
Qed.

Lemma DoStartElection_received data preelected c c' r :
  RaftElection.DoStartElection release e data preelected c = Done (c', r) ->
  received_kept c c' /\ (∀ x, vote_of c' = Some x -> x = peer_uuid c \/ vote_of c = Some x /\ GetCurrentTermUnlocked c' = GetCurrentTermUnlocked c) /\
  (∀ el, r = Ok (Some el) -> candidate_last_received (request_ el) = last_received_op_id_ c /\
    (request_preelection (request_ el) = false -> GetCurrentTermUnlocked c < candidate_term (request_ el))).
Proof using.
  intros E. unfold RaftElection.DoStartElection in E. assert (∀ r0 : Result (option LeaderElection), (∀ el, r0 ≠ Ok (Some el)) -> Done (c, r0) = Done (c', r) ->
    received_kept c c' /\ (∀ x, vote_of c' = Some x -> x = peer_uuid c \/ vote_of c = Some x /\ GetCurrentTermUnlocked c' = GetCurrentTermUnlocked c) /\
    (∀ el, r = Ok (Some el) -> candidate_last_received (request_ el) = last_received_op_id_ c /\
      (request_preelection (request_ el) = false -> GetCurrentTermUnlocked c < candidate_term (request_ el)))) as Hno.
  { intros r0 Hr0 [= <- <-]. split; [done|]. split; [by right|]. intros el Hel. by apply Hr0 in Hel. }
  destruct (negb _); [by (eapply Hno; [|exact E])|]. destruct (GetActiveRoleUnlocked c); try by (eapply Hno; [|exact E]).
  all: destruct (_ || _).
  1,3: apply op_bind_Done in E as [(c1 & el & E1 & [= <- <-])|(d & E1 & ->)]; apply CreateElection_received in E1 as (H1 & V1 & H2); (split; [done|]); (split; [done|]); [|done]; intros el' [= <-]; by apply H2.
  all: injection E as <- <-; destruct (must_be_committed_opid data); (split; [|split; [by right|done]]); [split; [done|by left]|done].
Qed.

Lemma DoElectionCallback_received result c c' became again :
  DoElectionCallback release e result c = Done (c', became, again) ->
  received_kept c c' /\ no_vote c c' /\ (became = true -> GetCurrentTermUnlocked c' = GetCurrentTermUnlocked c).
Proof using.
  intros E. unfold DoElectionCallback in E. set (c1 := if bool_decide (preelections_not_supported_by_uuid result = EmptyString) then c else _) in E.
  assert (received_kept c c1 /\ no_vote c c1 /\ GetCurrentTermUnlocked c1 = GetCurrentTermUnlocked c) as (H1 & V1 & Ht1).
  { unfold c1. destruct (bool_decide _); [done|]. split; [split; [done|by left]|]. split; [by apply same_vote_no_vote|done]. }
  clearbody c1. destruct (bool_decide _).
  - set (c2 := with_failed_elections _ c1) in E. assert (received_kept c c2 /\ no_vote c c2) as [H2 V2].
    { split; [etrans; [exact H1|]; split; [done|by left]|etrans; [exact V1|]; by apply same_vote_no_vote]. }
    destruct (higher_term result); [|by injection E as <- <- _]. destruct (RaftElection.running c2); [|by injection E as <- <- _].
    apply outcome_bind_Done in E as ([c3 r3] & E3 & [= <- <- _]). apply HandleTermAdvance_received in E3 as (? & ? & _). split; [by etrans|]. split; [by etrans|done].
  - destruct (negb _); [by injection E as <- <- _|]. destruct (negb _); [by injection E as <- <- _|]. destruct (negb _); [by injection E as <- <- _|].
    destruct (preelection result); [by injection E as <- <- _|]. destruct (bool_decide _). { apply outcome_bind_Done in E as (_ & _ & [= <- <- _]). done. }
    apply outcome_bind_Done in E as ([c3 r3] & E3 & E). apply outcome_bind_Done in E as (_ & _ & [= <- <- _]). injection E3 as <- _.
    split; [etrans; [exact H1|]; split; [done|by left]|]. split; [etrans; [exact V1|]; by apply same_vote_no_vote|done].
Qed.

End votes.

(** ** What a request does to the log *)

Definition log_same (s s' : Replica) : Prop := rlog s' = rlog s /\ received_kept (consensus s) (consensus s').

Lemma log_same_mem s s' : log_same s s' -> mem s' = mem s.
Proof. intros [E _]. unfold mem, pending. by rewrite E. Qed.

Lemma log_same_ok s s' : log_same s s' -> replica_ok s -> replica_ok s'.
Proof.
  intros Hl [[Hm Hc Hf] Hr Hcu Hn Hp Hlo]. pose proof (log_same_mem s s' Hl) as Em. destruct Hl as [E [Er Ecu]].
  unfold GetLastReceivedOpIdUnlocked, GetLastReceivedOpIdCurLeaderUnlocked, GetCommittedOpIdUnlocked in *.
  split; [split|..]; unfold GetLastReceivedOpIdUnlocked, GetLastReceivedOpIdCurLeaderUnlocked, GetCommittedOpIdUnlocked; rewrite ?Em, ?E, ?Er; try done.
  destruct Ecu as [[-> _]|[-> _]]; auto.
Qed.

(** The operation before those of a request is one that the replica has. *)
Definition prev_matches (s : Replica) (prev : OpId) : Prop :=
  index prev <= Z.of_nat (length (applied (rlog s))) \/ ∃ a, mem s !! Z.to_nat (index prev - 1) = Some a /\ term (op_id a) = term prev.

(** What [CheckLeaderRequestUnlocked] did: nothing to the log; or it took back
    operations from the one on that is not the leader's; or it took back those
    that the first new operation replaces. *)
Inductive check_effect (request : UpdateRequest) (s s' : Replica) : Result (option PeerErrorCode * LeaderRequest) -> Prop :=
| ce_error c : log_same s s' -> check_effect request s s' (Error c)
| ce_refused code req :
    log_same s s' ->
    (code = INVALID_TERM_RESPONSE /\ caller_term (header request) < current_term_of s' \/
     code = PRECEDING_ENTRY_DIDNT_MATCH /\ current_term_of s' = caller_term (header request) /\ Z.of_nat (length (mem s)) < index (preceding_id request)) ->
    check_effect request s s' (Ok (Some code, req))
| ce_mismatch a req :
    current_term_of s <= caller_term (header request) -> current_term_of s' = caller_term (header request) -> 1 <= index (preceding_id request) ->
    mem s !! Z.to_nat (index (preceding_id request) - 1) = Some a -> term (op_id a) ≠ term (preceding_id request) ->
    mem s' = take (Z.to_nat (index (preceding_id request) - 1)) (mem s) -> applied (rlog s') = applied (rlog s) -> log_ (rlog s') = log_ (rlog s) ->
    GetLastReceivedOpIdCurLeaderUnlocked s' = last_op_id (mem s') ->
    check_effect request s s' (Ok (Some PRECEDING_ENTRY_DIDNT_MATCH, req))
| ce_accepted j :
    current_term_of s <= caller_term (header request) -> current_term_of s' = caller_term (header request) ->
    prev_matches s (preceding_after (preceding_id request) (take j (request_ops request))) -> (j <= length (request_ops request))%nat ->
    (∀ op, op ∈ take j (request_ops request) -> known s op) ->
    applied (rlog s') = applied (rlog s) -> log_ (rlog s') = log_ (rlog s) ->
    (match request_ops request !! j with
     | None => mem s' = mem s /\ received_kept (consensus s) (consensus s')
     | Some op => mem s' = take (Z.to_nat (index (preceding_id request)) + j) (mem s) /\
         (length (mem s) = (Z.to_nat (index (preceding_id request)) + j)%nat \/
          ∃ a, mem s !! (Z.to_nat (index (preceding_id request)) + j)%nat = Some a /\ term (op_id a) ≠ term (op_id op))
     end) ->
    check_effect request s s'
      (Ok (None, mkLeaderRequest (preceding_after (preceding_id request) (take j (request_ops request))) (drop j (request_ops request)))).

Section update.
Context (release : bool) (RangeTimeLimit : Z) (env : LogEnv) (config : RaftConfigPB) (i : uuid) (Hi : i ≠ EmptyString).
Context (request : UpdateRequest) (Hprev : 0 <= index (preceding_id request)) (Hseg : segment (index (preceding_id request)) (request_ops request)).
Context (Hcaller : caller_uuid (header request) ≠ i).

Lemma known_preceding s j op :
  replica_ok s -> (∀ op, op ∈ take j (request_ops request) -> known s op) -> last (take j (request_ops request)) = Some op ->
  prev_matches s (op_id op).
Proof using.
  intros Hs Hk Hl. destruct (Hk op) as [Hle|(a & Ha & E)]; [|by left|right; exists a; by rewrite E].
  rewrite last_lookup in Hl. by apply list_elem_of_lookup_2 in Hl.
Qed.

(** The place of the operation before those that are new. *)
Lemma matches_length s prev : replica_ok s -> prev_matches s prev -> index prev <= Z.of_nat (length (mem s)).
Proof using.
  intros Hs [Hle|(a & Ha & _)]; [rewrite mem_length; lia|]. apply lookup_lt_Some in Ha. lia.
Qed.

Lemma Enforce_spec req s s' r :
  replica_ok s -> 0 <= index (preceding_opid req) -> EnforceLogMatchingPropertyMatchesUnlocked release RangeTimeLimit env req s = Done (s', r) ->
  replica_ok s' /\ (no_config (pending s) -> no_config (pending s') /\ quiet (consensus s) (consensus s')) /\ current_term_of s' = current_term_of s /\
  ((s' = s /\ r = Ok false /\ prev_matches s (preceding_opid req)) \/ (s' = s /\ r = Ok true /\ Z.of_nat (length (mem s)) < index (preceding_opid req) /\ ¬ prev_matches s (preceding_opid req)) \/
   (r = Ok true /\ 1 <= index (preceding_opid req) /\ (∃ a, mem s !! Z.to_nat (index (preceding_opid req) - 1) = Some a /\ term (op_id a) ≠ term (preceding_opid req)) /\
    mem s' = take (Z.to_nat (index (preceding_opid req) - 1)) (mem s) /\ applied (rlog s') = applied (rlog s) /\ log_ (rlog s') = log_ (rlog s) /\
    GetLastReceivedOpIdCurLeaderUnlocked s' = last_op_id (mem s') /\ ¬ prev_matches s (preceding_opid req))).
Proof using.
  intros Hs Hp E. unfold EnforceLogMatchingPropertyMatchesUnlocked in E. pose proof Hs as [Hc Hr _ _ _ _].
  rewrite (IsOpCommittedOrPending_spec s Hc) in E; [|done|rewrite Hr; apply last_op_id_index, Hc]. cbn [mbind outcome_bind] in E.
  destruct (decide (index (preceding_opid req) <= _)) as [Hle|Hgt].
  { injection E as <- <-. split; [done|]. split; [done|]. split; [done|]. left. split; [done|]. split; [done|by left]. }
  destruct (mem s !! Z.to_nat (index (preceding_opid req) - 1)) as [a|] eqn:Ea.
  2: { injection E as <- <-. split; [done|]. split; [done|]. split; [done|]. right. left. split; [done|]. split; [done|]. apply lookup_ge_None in Ea as Hl.
       split; [lia|]. intros [?|(a & Ha & _)]; [lia|congruence]. }
  destruct (decide (term (op_id a) = term (preceding_opid req))) as [Et|Et].
  { injection E as <- <-. split; [done|]. split; [done|]. split; [done|]. left. split; [done|]. split; [done|]. right. by exists a. }
  assert (0 <= index (preceding_opid req) - 1 <= Z.of_nat (length (mem s))) as Hrange by (apply lookup_lt_Some in Ea; lia).
  apply log_bind_Done in E as [(s1 & [] & E1 & [= <- <-])|(c & E1 & _)].
  - pose proof (AbortOps_ok _ _ _ _ _ _ _ Hs Hrange E1) as Hs1. destruct (AbortOps_spec _ _ _ _ _ _ _ Hc Hrange E1) as (_ & _ & Em & Eap & El & _ & Et1 & _ & Ecu & _ & Hq).
    split; [done|]. split; [done|]. split; [done|]. right. right. split; [done|]. split; [lia|]. split; [by exists a|]. split; [done|]. split; [done|]. split; [done|].
    split; [by rewrite Em|]. intros [?|(b & Hb & Etb)]; [lia|congruence].
  - destruct (AbortOps_spec _ _ _ _ _ _ _ Hc Hrange E1) as (_ & ? & _). done.
Qed.

Lemma replaced_spec op j s s' r :
  replica_ok s -> request_ops request !! j = Some op -> ¬ known s op -> (Z.to_nat (index (preceding_id request)) + j <= length (mem s))%nat ->
  ('(known, term_mismatch) ← IsOpCommittedOrPending release (op_id op) s;
   if (known : bool) then Done (s, Error IllegalState)
   else if (term_mismatch : bool) then AbortOpsAfterUnlocked release RangeTimeLimit env (index (preceding_id request) + Z.of_nat j) s
   else Done (s, Ok tt)) = Done (s', r) ->
  r = Ok tt /\ replica_ok s' /\ applied (rlog s') = applied (rlog s) /\ log_ (rlog s') = log_ (rlog s) /\ current_term_of s' = current_term_of s /\
  mem s' = take (Z.to_nat (index (preceding_id request)) + j) (mem s) /\
  (length (mem s) = (Z.to_nat (index (preceding_id request)) + j)%nat \/
   ∃ a, mem s !! (Z.to_nat (index (preceding_id request)) + j)%nat = Some a /\ term (op_id a) ≠ term (op_id op)) /\
  (no_config (pending s) -> no_config (pending s') /\ quiet (consensus s) (consensus s')).
Proof using Hprev Hseg.
  intros Hs Hop Hnk Hlen E. pose proof Hs as [Hc Hr _ _ _ _]. pose proof (Hseg _ _ Hop) as Hidx.
  rewrite (IsOpCommittedOrPending_spec s Hc) in E; [|lia|rewrite Hr; apply last_op_id_index, Hc]. cbn [mbind outcome_bind] in E.
  destruct (decide (index (op_id op) <= _)) as [Hle|Hgt]; [exfalso; apply Hnk; by left|].
  replace (Z.to_nat (index (op_id op) - 1)) with (Z.to_nat (index (preceding_id request)) + j)%nat in E by lia.
  destruct (mem s !! _) as [a|] eqn:Ea.
  2: { injection E as <- <-. apply lookup_ge_None in Ea. assert (length (mem s) = (Z.to_nat (index (preceding_id request)) + j)%nat) as El by lia.
       split; [done|]. split; [done|]. split; [done|]. split; [done|]. split; [done|]. split; [by rewrite take_ge by lia|]. split; [by left|done]. }
  destruct (decide (term (op_id a) = term (op_id op))) as [Et|Et].
  { exfalso. apply Hnk. right. exists a. replace (Z.to_nat (index (op_id op) - 1)) with (Z.to_nat (index (preceding_id request)) + j)%nat by lia. split; [done|].
    pose proof (lg_index _ (co_mem s Hc) _ _ Ea) as Eia. change (op_id_of a) with (op_id a) in Eia. destruct (op_id a), (op_id op). cbn in *. f_equal; [done|lia]. }
  assert (0 <= index (preceding_id request) + Z.of_nat j <= Z.of_nat (length (mem s))) as Hrange by lia.
  pose proof (AbortOps_ok _ _ _ _ _ _ _ Hs Hrange E) as Hs1. destruct (AbortOps_spec _ _ _ _ _ _ _ Hc Hrange E) as (_ & -> & Em & Eap & El & _ & Et1 & _ & Ecu & _ & Hq).
  replace (Z.to_nat (_ + _)) with (Z.to_nat (index (preceding_id request)) + j)%nat in Em by lia.
  split; [done|]. split; [done|]. split; [done|]. split; [done|]. split; [done|]. split; [done|]. split; [right; by exists a|done].
Qed.

(** The rest of the check, once the operation before those that are new is
    known to match; [s] is the replica before and [s1] after its term changed. *)
Lemma accepted_spec req j s s1 s' r :
  replica_ok s1 -> log_same s s1 -> current_term_of s1 = caller_term (header request) -> follows config i (consensus s) (consensus s1) ->
  current_term_of s <= caller_term (header request) ->
  (j <= length (request_ops request))%nat -> req = mkLeaderRequest (preceding_after (preceding_id request) (take j (request_ops request))) (drop j (request_ops request)) ->
  (∀ op, op ∈ take j (request_ops request) -> known s op) -> (∀ op, request_ops request !! j = Some op -> ¬ known s op) ->
  prev_matches s1 (preceding_after (preceding_id request) (take j (request_ops request))) ->
  log_bind
    (match messages req with
     | [] => Done (s1, Ok tt)
     | m :: _ =>
         '(known, term_mismatch) ← IsOpCommittedOrPending release (op_id m) s1;
         if (known : bool) then Done (s1, Error IllegalState)
         else if (term_mismatch : bool) then AbortOpsAfterUnlocked release RangeTimeLimit env (index (preceding_opid req)) s1
         else Done (s1, Ok tt)
     end) (λ _ s,
  if HasLeaderUnlocked (consensus s) && negb (bool_decide (GetLeaderUuidUnlocked (consensus s) = caller_uuid (header request))) then Fatal
  else
    let c := if HasLeaderUnlocked (consensus s) then consensus s else SetLeaderUuidUnlocked (caller_uuid (header request)) (consensus s) in
    Done (with_consensus c s, Ok (None, req))) = Done (s', r) ->
  replica_ok s' /\ check_effect request s s' r /\ (no_config (pending s) -> no_config (pending s') /\ follows config i (consensus s) (consensus s')).
Proof using Hi Hprev Hseg Hcaller.
  intros Hs1 Hsame Hterm Hf Hle Hj -> Hkn Hnk Hmat E. cbn [messages preceding_opid] in E. pose proof (log_same_mem _ _ Hsame) as Em1. pose proof Hsame as [El1 Hrk1].
  rewrite (preceding_after_index (index (preceding_id request))) in E by done.
  assert (∀ s2, let c := if HasLeaderUnlocked (consensus s2) then consensus s2 else SetLeaderUuidUnlocked (caller_uuid (header request)) (consensus s2) in
    log_same s2 (with_consensus c s2) /\ current_term_of (with_consensus c s2) = current_term_of s2 /\ follows config i (consensus s2) c) as Hlead.
  { intros s2 c. unfold c. destruct (HasLeaderUnlocked (consensus s2)).
    - split; [split; [done|done]|]. split; [done|reflexivity].
    - split; [split; [done|split; [done|by left]]|]. split; [done|]. by apply SetLeaderUuid_follows. }
  assert (prev_matches s (preceding_after (preceding_id request) (take j (request_ops request)))) as Hmat0.
  { unfold prev_matches in *. by rewrite Em1, El1 in Hmat. }
  destruct (drop j (request_ops request)) as [|m msgs] eqn:Ed.
  - cbn [log_bind] in E. destruct (_ && _); [done|]. injection E as <- <-. destruct (Hlead s1) as (Hl & Ht & Hfl). split; [by apply (log_same_ok s1)|].
    assert (request_ops request !! j = None) as Hnone.
    { apply (f_equal length) in Ed. rewrite length_drop in Ed. apply lookup_ge_None. cbn in Ed. lia. }
    split; [|intros Hn; split; [unfold pending in *; cbn; by rewrite El1|by etrans]]. rewrite <- Ed at 1. apply ce_accepted; [done|by rewrite Ht|done|done|done|cbn; by rewrite El1..|].
    rewrite Hnone. split; [by rewrite (log_same_mem _ _ Hl)|]. destruct (HasLeaderUnlocked (consensus s1)); done.
  - assert (request_ops request !! j = Some m) as Hm.
    { rewrite <- (Nat.add_0_r j), <- lookup_drop, Ed. done. }
    pose proof (matches_length s1 _ Hs1 Hmat) as Hml. rewrite (preceding_after_index (index (preceding_id request))) in Hml by done.
    assert (¬ known s1 m) as Hnk1. { intros Hk. apply (Hnk m Hm). unfold known in *. by rewrite Em1, El1 in Hk. }
    apply log_bind_Done in E as [(s2 & [] & E2 & E)|(c & E2 & ->)]; apply (replaced_spec m j) in E2 as (Hr & Hs2 & Eap2 & Elo2 & Et2 & Em2 & Hend & Hq2); try done; [|lia..].
    destruct (_ && _); [done|]. injection E as <- <-. destruct (Hlead s2) as (Hl & Ht & Hfl). split; [by apply (log_same_ok s2)|].
    split; [|intros Hn; unfold pending in *; rewrite El1 in Hq2; destruct (Hq2 Hn) as [? ?]; split; [done|]; etrans; [exact Hf|]; etrans; [by apply quiet_follows|done]].
    rewrite <- Ed. apply ce_accepted; try done; [by rewrite Ht, Et2|cbn; by rewrite Eap2, El1|cbn; by rewrite Elo2, El1|].
    rewrite Hm, (log_same_mem _ _ Hl), Em2, <- Em1. done.
Qed.

Lemma CheckLeaderRequest_spec s s' r :
  replica_ok s -> CheckLeaderRequestUnlocked release RangeTimeLimit env request s = Done (s', r) ->
  replica_ok s' /\ check_effect request s s' r /\ (no_config (pending s) -> no_config (pending s') /\ follows config i (consensus s) (consensus s')).
Proof using Hi Hprev Hseg Hcaller.
  intros Hs E. unfold CheckLeaderRequestUnlocked in E. apply outcome_bind_Done in E as (req & Ereq & E).
  unfold DeduplicateLeaderRequestUnlocked in Ereq. rewrite (ro_received s Hs), last_op_id_index in Ereq by apply Hs.
  destruct (deduplicate_spec release _ _ _ _ _ Hs Hseg Hprev Ereq) as (j & Hj & Em & Epr & Hkn & Hnk).
  assert (∀ x, log_same s x -> no_config (pending s) -> no_config (pending x)) as Hnc by (intros x [Ex _]; unfold pending; by rewrite Ex).
  assert (log_same s s) as Hrefl by (split; [done|done]).
  apply log_bind_Done in E as [(s0 & [] & E0 & E)|(c & E0 & ->)]; injection E0 as -> ?; [|split; [done|]; split; [by apply ce_error|done]].
  apply log_bind_Done in E as [(s1 & has_error & E1 & E)|(c & E1 & ->)].
  all: apply lift_op_Done in E1 as (c1 & E1 & ->); apply (HandleLeaderRequestTerm_spec release (raft_env env) config i Hi) in E1 as (Hrk & Hf & Hterm & Hinv).
  all: assert (log_same s0 (with_consensus c1 s0)) as Hsame by done; pose proof (log_same_ok _ _ Hsame Hs) as Hs1.
  2: { split; [done|]. split; [by apply ce_error|]. intros Hn. split; [by apply (Hnc _ Hsame)|done]. }
  destruct has_error.
  { injection E as <- <-. split; [done|]. split; [apply ce_refused; [done|left; split; [done|by apply Hinv]]|]. intros Hn. split; [by apply (Hnc _ Hsame)|done]. }
  specialize (Hterm eq_refl). set (s1 := with_consensus c1 s0) in *. assert (mem s1 = mem s0) as Em1 by (by apply log_same_mem).
  pose proof (preceding_after_index (index (preceding_id request)) (request_ops request) (preceding_id request) j Hseg eq_refl Hj) as Hpi. rewrite <- Epr in Hpi.
  assert (0 <= index (preceding_opid req)) as Hpi0 by lia.
  apply log_bind_Done in E as [(s2 & has_error & E2 & E)|(c & E2 & ->)]; destruct (Enforce_spec _ _ _ _ Hs1 Hpi0 E2) as (Hs2 & Hq2 & Et2 & Hcase).
  2: { exfalso. destruct Hcase as [(_ & ? & _)|[(_ & ? & _)|(? & _)]]; done. }
  assert (no_config (pending s0) -> no_config (pending s2) /\ follows config i (consensus s0) (consensus s2)) as Hn2.
  { intros Hn. destruct (Hq2 Hn) as [? ?]. split; [done|]. etrans; [exact Hf|by apply quiet_follows]. }
  assert (¬ prev_matches s1 (preceding_opid req) -> preceding_opid req = preceding_id request) as Hpid.
  { intros Hnm. rewrite Epr. unfold preceding_after. destruct (last (take j (request_ops request))) as [op|] eqn:El; [|done].
    exfalso. apply Hnm. rewrite Epr. unfold preceding_after. rewrite El. by apply (known_preceding s1 j). }
  assert (current_term_of s0 <= caller_term (header request)) as Hle by (destruct Hrk as [_ [[_ Ht]|[_ Ht]]]; unfold current_term_of; lia).
  destruct Hcase as [(-> & [= ->] & Hmat)|[(-> & [= ->] & Hlen & Hnm)|([= ->] & Hge & (a & Ha & Hta) & Em2 & Eap2 & El2 & Ecu2 & Hnm)]].
  - apply (accepted_spec req j s0 s1 s' r); try done; [|by rewrite <- Epr].
    destruct req. cbn in *. by subst.
  - injection E as <- <-. split; [done|]. split; [apply ce_refused; [done|right; split; [done|]; split; [done|]; by rewrite <- (Hpid Hnm), <- Em1]|done].
  - injection E as <- <-. split; [done|]. split; [|done]. rewrite (Hpid Hnm), Em1 in *. apply (ce_mismatch _ _ _ a); try done. by rewrite Et2.
Qed.

End update.

(** *** A request of a leader

    [L] is the log of the leader, of which the request has a part. What the
    replica has of it, by what it checks, agrees with it. *)

Record request_of (L : list Operation) (request : UpdateRequest) : Prop := {
  rq_prev : 0 <= index (preceding_id request) <= Z.of_nat (length L);
  rq_ops : request_ops request `prefix_of` drop (Z.to_nat (index (preceding_id request))) L
}.

Definition agrees (L : list Operation) (request : UpdateRequest) (s : Replica) : Prop :=
  current_term_of s <= caller_term (header request) -> ∀ j, (j <= length (request_ops request))%nat ->
    prev_matches s (preceding_after (preceding_id request) (take j (request_ops request))) ->
    (∀ op, op ∈ take j (request_ops request) -> known s op) ->
    take (Z.to_nat (index (preceding_id request)) + j) (mem s) = take (Z.to_nat (index (preceding_id request)) + j) L.

(** What [UpdateReplica] did: nothing to the log; or it took back operations; or
    it found [j] operations known and took over [n] that are new. *)
Inductive update_effect (L : list Operation) (request : UpdateRequest) (s s' : Replica) : Result (ConsensusResponsePB * option OpId) -> Prop :=
| ue_refused r :
    log_same s s' ->
    (∀ resp w, r = Ok (resp, w) -> status_error resp = Some INVALID_TERM_RESPONSE /\ caller_term (header request) < current_term_of s' \/
       status_error resp = Some PRECEDING_ENTRY_DIDNT_MATCH /\ current_term_of s' = caller_term (header request) /\
       Z.of_nat (length (mem s)) < index (preceding_id request)) ->
    update_effect L request s s' r
| ue_mismatch a w :
    current_term_of s <= caller_term (header request) -> current_term_of s' = caller_term (header request) -> 1 <= index (preceding_id request) ->
    mem s !! Z.to_nat (index (preceding_id request) - 1) = Some a -> term (op_id a) ≠ term (preceding_id request) ->
    mem s' = take (Z.to_nat (index (preceding_id request) - 1)) (mem s) -> applied (rlog s') = applied (rlog s) -> log_ (rlog s') = log_ (rlog s) ->
    GetLastReceivedOpIdCurLeaderUnlocked s' = last_op_id (mem s') ->
    update_effect L request s s' (Ok (FillConsensusResponseOKUnlocked (Some PRECEDING_ENTRY_DIDNT_MATCH) s', w))
| ue_accepted r j n :
    current_term_of s <= caller_term (header request) -> current_term_of s' = caller_term (header request) ->
    prev_matches s (preceding_after (preceding_id request) (take j (request_ops request))) ->
    (j + n <= length (request_ops request))%nat ->
    (∀ op, op ∈ take j (request_ops request) -> known s op) ->
    (match request_ops request !! j with
     | None => mem s' = mem s /\ log_ (rlog s') = log_ (rlog s) /\ received_kept (consensus s) (consensus s')
     | Some op => mem s' = take (Z.to_nat (index (preceding_id request)) + j + n) L /\
         (length (mem s) = (Z.to_nat (index (preceding_id request)) + j)%nat \/
          ∃ a, mem s !! (Z.to_nat (index (preceding_id request)) + j)%nat = Some a /\ term (op_id a) ≠ term (op_id op)) /\
         (n = 0%nat -> log_ (rlog s') = log_ (rlog s) /\ ∀ resp w, r = Ok (resp, w) -> status_error resp = Some OTHER_CONSENSUS_ERROR) /\
         ((0 < n)%nat -> log_ (rlog s') = mem s' /\ GetLastReceivedOpIdCurLeaderUnlocked s' = last_op_id (mem s'))
     end) ->
    applied (rlog s) `prefix_of` applied (rlog s') ->
    Z.of_nat (length (applied (rlog s'))) <=
      Z.max (Z.of_nat (length (applied (rlog s)))) (Z.min (index (request_committed request)) (index (preceding_id request) + Z.of_nat (j + n))) ->
    (∀ resp w, r = Ok (resp, w) -> status_error resp = None \/ status_error resp = Some OTHER_CONSENSUS_ERROR) ->
    update_effect L request s s' r.

Section commit_part.
Context (release : bool) (RangeTimeLimit : Z) (env : LogEnv).

Lemma EarlyCommit_spec request req s s' r :
  core_ok s -> EarlyCommitUnlocked release RangeTimeLimit env request req s = Done (s', r) ->
  advanced (Z.min (index (request_committed request)) (index (preceding_opid req))) s s'.
Proof using.
  intros Hs E. unfold EarlyCommitUnlocked in E. apply outcome_bind_Done in E as ([s1 r1] & E & [= <- _]). apply AdvanceCommitted_spec in E as [Ha _]; [|done].
  set (u := if index (request_committed request) <? _ then _ else _) in *. destruct Ha. split; try done.
  assert (index u <= Z.min (index (request_committed request)) (index (preceding_opid req))); [|lia].
  unfold u. clear. destruct (Z.ltb_spec (index (preceding_opid req)) (index (GetLastPendingOperationOpIdUnlocked s))) as [H|H];
    match goal with |- context[?a <? ?b] => destruct (Z.ltb_spec a b) end; lia.
Qed.

Lemma advanced_trans c c' s1 s2 s3 : advanced c s1 s2 -> advanced c' s2 s3 -> c <= c' -> advanced c' s1 s3.
Proof using.
  intros [] [] Hc. split; try congruence; [by etrans|lia|]. intros Hn. destruct (ad_quiet0 Hn) as [Hn2 ?]. destruct (ad_quiet1 Hn2) as [? ?]. split; [done|by etrans].
Qed.

Lemma Mark_spec request req last_from_leader s s' r :
  core_ok s ->
  (∀ m, last (messages req) = Some m -> op_id m = last_op_id (mem s)) -> log_ok (log_ (rlog s)) -> mem s `prefix_of` log_ (rlog s) ->
  (messages req = [] -> replica_ok s) ->
  MarkOperationsAsCommittedUnlocked release RangeTimeLimit env request req last_from_leader s = Done (s', r) ->
  replica_ok s' /\ applied (rlog s) `prefix_of` applied (rlog s') /\ mem s' = mem s /\ log_ (rlog s') = log_ (rlog s) /\ current_term_of s' = current_term_of s /\
  Z.of_nat (length (applied (rlog s'))) <= Z.max (Z.of_nat (length (applied (rlog s)))) (Z.min (index (request_committed request)) (index last_from_leader)) /\
  (messages req = [] -> GetLastReceivedOpIdUnlocked s' = GetLastReceivedOpIdUnlocked s /\ GetLastReceivedOpIdCurLeaderUnlocked s' = GetLastReceivedOpIdCurLeaderUnlocked s) /\
  (messages req ≠ [] -> GetLastReceivedOpIdCurLeaderUnlocked s' = last_op_id (mem s')) /\
  (no_config (pending s) -> no_config (pending s') /\ quiet (consensus s) (consensus s')).
Proof using.
  intros Hs Hlast Hlo Hpre Hemp E. unfold MarkOperationsAsCommittedUnlocked in E. set (u := if index last_from_leader <? _ then _ else _) in E.
  assert (index u <= Z.min (index (request_committed request)) (index last_from_leader)) as Hu by (unfold u; destruct (Z.ltb_spec (index last_from_leader) (index (request_committed request))); lia).
  clearbody u. apply log_bind_Done in E as [(s1 & [] & E1 & E)|(c & E1 & ->)].
  - apply outcome_bind_Done in E as ([s2 r2] & E & [= <- _]). destruct (messages req) as [|m0 ms] eqn:Em.
    + cbn in E1. destruct (_ <? _); [done|]. injection E1 as <-. apply AdvanceCommitted_spec in E as [Ha _]; [|done].
      pose proof (advanced_ok _ _ _ (Hemp eq_refl) Ha) as Hok. destruct Ha. split; [done|]. split; [done|]. split; [done|]. split; [done|]. split; [done|]. split; [lia|]. done.
    + destruct (last (m0 :: ms)) as [m|] eqn:El; [|by rewrite last_None in El]. pose proof (Hlast _ eq_refl) as Eid. apply outcome_bind_Done in E1 as (s1' & E1 & [= ->]).
      unfold UpdateLastReceivedOpIdUnlocked in E1. apply outcome_bind_Done in E1 as (_ & _ & [= E1]). apply (f_equal Some) in E1.
      assert (replica_ok s1) as Hs1.
      { injection E1 as <-. split; [by apply (core_same s)|cbn; by rewrite Eid|right; cbn; by rewrite Eid| |done|done]. cbn. rewrite Eid, last_op_id_index by apply Hs. done. }
      assert (mem s1 = mem s /\ log_ (rlog s1) = log_ (rlog s) /\ applied (rlog s1) = applied (rlog s) /\ current_term_of s1 = current_term_of s /\ pending s1 = pending s /\
        GetLastReceivedOpIdCurLeaderUnlocked s1 = op_id m /\ quiet (consensus s) (consensus s1)) as (Em1 & El1 & Ea1 & Et1 & Ep1 & Ec1 & Hq1) by (injection E1 as <-; done).
      apply AdvanceCommitted_spec in E as [Ha _]; [|apply Hs1]. pose proof (advanced_ok _ _ _ Hs1 Ha) as Hok. destruct Ha. split; [done|]. split; [by rewrite <- Ea1|].
      split; [congruence|]. split; [congruence|]. split; [congruence|]. split; [rewrite Ea1 in *; lia|]. split; [done|]. split; [intros _; rewrite ad_current0, ad_mem0, Em1; congruence|].
      intros Hn. rewrite <- Ep1 in Hn. destruct (ad_quiet0 Hn) as [? ?]. split; [done|by etrans].
  - destruct (messages req) as [|m0 ms] eqn:Em.
    + cbn in E1. destruct (_ <? _); [|done]. injection E1 as <- _. split; [by apply Hemp|]. repeat (split; [done||lia|]). done.
    + destruct (last (m0 :: ms)) as [m|] eqn:El; [|by rewrite last_None in El]. by apply outcome_bind_Done in E1 as (s1' & E1 & [=]).
Qed.

End commit_part.

Section take_over.
Context (release : bool) (RangeTimeLimit : Z) (env : LogEnv) (config : RaftConfigPB) (i : uuid) (Hi : i ≠ EmptyString).
Context (L : list Operation) (HL : log_ok L) (Hfits : Z.of_nat (length L) < 2 ^ 63).
Context (request : UpdateRequest) (Hreq : request_of L request) (Hcaller : caller_uuid (header request) ≠ i).

Abbreviation P := (Z.to_nat (index (preceding_id request))).

Lemma request_segment : segment (index (preceding_id request)) (request_ops request).
Proof using HL Hreq.
  intros k op Hk. destruct Hreq as [Hp [x Hx]]. assert (drop P L !! k = Some op) as Hd by (rewrite Hx; by apply lookup_app_l_Some).
  rewrite lookup_drop in Hd. pose proof (lg_index _ HL _ _ Hd) as E. change (op_id_of op) with (op_id op) in E. lia.
Qed.

Lemma request_lookup k op : request_ops request !! k = Some op -> L !! (P + k)%nat = Some op.
Proof using Hreq. intros Hk. destruct Hreq as [_ [x Hx]]. rewrite <- lookup_drop, Hx. by apply lookup_app_l_Some. Qed.

(** Operations of the request that follow [j] known ones. *)
Lemma join_ops j n : (j + n <= length (request_ops request))%nat ->
  take (P + j) L ++ take n (drop j (request_ops request)) = take (P + j + n) L /\ (P + j + n <= length L)%nat.
Proof using Hreq.
  intros Hn. destruct Hreq as [Hp [x Hx]]. assert (length (drop P L) = length (request_ops request ++ x)) as El by (by rewrite Hx).
  rewrite length_drop, length_app in El. split; [|lia].
  assert (take n (drop j (request_ops request)) = take n (drop (P + j) L)) as ->.
  { rewrite <- drop_drop, Hx. rewrite drop_app_le by lia. rewrite take_app_le by (rewrite length_drop; lia). done. }
  rewrite <- (take_drop (P + j) (take (P + j + n) L)). rewrite take_take, skipn_firstn_comm. f_equal; f_equal; lia.
Qed.

Record taken_over (j n : nat) (s s' : Replica) : Prop := {
  to_ok : replica_ok s';
  to_term : current_term_of s' = current_term_of s;
  to_len : (j + n <= length (request_ops request))%nat;
  to_none : request_ops request !! j = None -> mem s' = mem s /\ log_ (rlog s') = log_ (rlog s) /\ received_kept (consensus s) (consensus s');
  to_some op : request_ops request !! j = Some op -> mem s' = take (P + j + n) L /\ (n = 0%nat -> log_ (rlog s') = log_ (rlog s)) /\
    ((0 < n)%nat -> log_ (rlog s') = mem s' /\ GetLastReceivedOpIdCurLeaderUnlocked s' = last_op_id (mem s'));
  to_applied : applied (rlog s) `prefix_of` applied (rlog s');
  to_bound : Z.of_nat (length (applied (rlog s'))) <=
    Z.max (Z.of_nat (length (applied (rlog s)))) (Z.min (index (request_committed request)) (index (preceding_id request) + Z.of_nat (j + n)));
  to_quiet : ops_no_config (request_ops request) -> no_config (pending s) -> no_config (pending s') /\ quiet (consensus s) (consensus s')
}.

(** Only operations that are in the log already were committed. *)
Lemma advanced_taken_over j s s' :
  replica_ok s -> (j <= length (request_ops request))%nat -> (request_ops request !! j ≠ None -> mem s = take (P + j) L) ->
  advanced (Z.min (index (request_committed request)) (index (preceding_id request) + Z.of_nat j)) s s' -> taken_over j 0 s s'.
Proof using.
  intros Hs Hj Hm Ha. pose proof (advanced_ok _ _ _ Hs Ha) as Hok. destruct Ha. split; try done; [lia|..].
  - intros _. split; [done|]. split; [done|]. split; [done|]. by left.
  - intros op Ho. rewrite Nat.add_0_r. split; [rewrite ad_mem0; apply Hm; by rewrite Ho|]. split; [done|lia].
  - by rewrite Nat.add_0_r.
Qed.

(** Writing what was prepared, [n] operations after the first [P + j]. *)
Lemma EnqueueWrites_spec j n write_empty req lastid s s4 s' :
  replica_ok s -> (j + n <= length (request_ops request))%nat -> messages req = take n (drop j (request_ops request)) ->
  (0 < n)%nat -> mem s = take (P + j) L -> kept s s4 -> applied (rlog s4) = applied (rlog s) -> mem s4 = mem s ++ messages req ->
  EnqueueWritesUnlocked env req write_empty s4 = Done (s', lastid) ->
  core_ok s' /\ mem s' = take (P + j + n) L /\ log_ (rlog s') = mem s' /\ applied (rlog s') = applied (rlog s) /\ consensus s' = consensus s4 /\ pending s' = pending s4 /\
  (∃ m, last (messages req) = Some m /\ op_id m = last_op_id (mem s')) /\ index lastid = index (preceding_id request) + Z.of_nat (j + n).
Proof using HL Hfits Hreq.
  intros Hs Hn Em Hpos Hmem Hk Hap Hmem4 E. destruct (join_ops j n Hn) as [Ejoin Hlen]. rewrite <- Em, <- Hmem, <- Hmem4 in Ejoin.
  assert (length (messages req) = n) as Eln by (rewrite Em, length_take, length_drop; lia).
  unfold EnqueueWritesUnlocked in E. apply outcome_bind_Done in E as (s5 & E & [= <- <-]).
  rewrite bool_decide_eq_false_2 in E by lia. cbn [negb orb] in E. apply outcome_bind_Done in E as ([s6 r6] & E & E6). apply outcome_bind_Done in E6 as (_ & _ & [= <-]).
  destruct (messages req) as [|m ms] eqn:Ereq; [cbn in Eln; lia|]. unfold LogCache_AppendOperations in E. apply outcome_bind_Done in E as (_ & _ & [= <- _]).
  destruct Hreq as [Hp _]. assert (index (op_id m) = index (preceding_id request) + 1 + Z.of_nat j) as Hidx.
  { apply (request_segment j m). assert (take n (drop j (request_ops request)) !! 0%nat = Some m) as E0 by (by rewrite <- Em).
    rewrite lookup_take_lt in E0 by lia. rewrite lookup_drop, Nat.add_0_r in E0. done. }
  assert (log_ (rlog s4) = log_ (rlog s)) as Elog by apply Hk.
  assert (take (Z.to_nat (index (op_id m) - 1)) (log_ (rlog s4)) = mem s) as Et.
  { rewrite Elog. pose proof (ro_log s Hs) as [x Hx]. rewrite Hx. rewrite take_app_length'; [done|]. rewrite Hmem, length_take. lia. }
  assert (∃ m', last (m :: ms) = Some m' /\ op_id m' = last_op_id (mem s4)) as (m' & Hl & Hm').
  { destruct (last (m :: ms)) as [m'|] eqn:El; [|by rewrite last_None in El]. exists m'. split; [done|]. unfold last_op_id. rewrite Hmem4, last_app, El. done. }
  assert (log_ok (mem s4)) as Hlo by (rewrite Ejoin; by apply log_ok_take).
  split; [split; [done| |]|].
  - cbn. rewrite Hap. unfold with_log. transitivity (GetCommittedOpIdUnlocked s4); [done|]. rewrite (kp_committed _ _ Hk). apply Hs.
  - change (mem (with_log _ s4)) with (mem s4). rewrite Ejoin, length_take. lia.
  - split; [done|]. split; [cbn; rewrite Et; by rewrite <- Hmem4|]. split; [done|]. split; [done|]. split; [done|]. split; [by exists m'|].
    rewrite Hl, Hm', last_op_id_index by done. rewrite Ejoin, length_take. lia.
Qed.

Lemma preceding_after_request j : (j <= length (request_ops request))%nat ->
  index (preceding_after (preceding_id request) (take j (request_ops request))) = index (preceding_id request) + Z.of_nat j.
Proof using HL Hreq. intros Hj. apply preceding_after_index; [apply request_segment|done|done]. Qed.

(** The operations that were prepared are written and committed. *)
Lemma write_spec j prepared lastid write_empty req s s4 s5 s' r :
  replica_ok s -> (j <= length (request_ops request))%nat ->
  req = mkLeaderRequest (preceding_after (preceding_id request) (take j (request_ops request))) prepared ->
  prepared `prefix_of` drop j (request_ops request) -> (prepared = [] -> drop j (request_ops request) = []) ->
  (request_ops request !! j ≠ None -> mem s = take (P + j) L) ->
  kept s s4 -> applied (rlog s4) = applied (rlog s) -> mem s4 = mem s ++ prepared -> 
  (ops_no_config (request_ops request) -> no_config (pending s) -> no_config (pending s4) /\ quiet (consensus s) (consensus s4)) ->
  (prepared = [] -> s4 = s) ->
  EnqueueWritesUnlocked env req write_empty s4 = Done (s5, lastid) ->
  MarkOperationsAsCommittedUnlocked release RangeTimeLimit env request req lastid s5 = Done (s', r) ->
  taken_over j (length prepared) s s'.
Proof using HL Hfits Hreq.
  intros Hs Hj -> Hpre Hnil Hmem Hk Hap Hmem4 Hq Hemp Ew Em. destruct (decide (prepared = [])) as [->|Hne].
  - specialize (Hemp eq_refl) as ->. assert (s5 = s /\ lastid = preceding_after (preceding_id request) (take j (request_ops request))) as [-> ->].
    { unfold EnqueueWritesUnlocked in Ew. cbn in Ew. destruct write_empty; [|by injection Ew as <- <-].
      apply outcome_bind_Done in Ew as (x & Ew & [= <- <-]). apply outcome_bind_Done in Ew as (y & _ & [= <-]). done. }
    unfold MarkOperationsAsCommittedUnlocked in Em. cbn [messages last] in Em. apply advanced_taken_over; [done..|].
    apply log_bind_Done in Em as [(s1 & [] & E1 & E)|(c & E1 & ->)].
    2: { destruct (_ <? _); [|done]. injection E1 as <- _. by apply advanced_refl, Hs. }
    destruct (_ <? _) eqn:Hlt in E1; [done|]. injection E1 as <-. apply outcome_bind_Done in E as ([s2 r2] & E & [= <- _]).
    apply AdvanceCommitted_spec in E as [Ha _]; [|apply Hs]. rewrite <- preceding_after_request by done. destruct Ha. split; try done.
    destruct (Z.ltb_spec (index (preceding_after (preceding_id request) (take j (request_ops request)))) (index (request_committed request))); lia.
  - pose proof (prefix_length _ _ Hpre) as Hlen. rewrite length_drop in Hlen.
    assert (0 < length prepared)%nat as Hpos by (destruct prepared; [done|cbn; lia]).
    assert (∃ op, request_ops request !! j = Some op) as [op Hop] by (apply lookup_lt_is_Some; lia).
    assert (prepared = take (length prepared) (drop j (request_ops request))) as Ep by (destruct Hpre as [x ->]; by rewrite take_app_length).
    edestruct (EnqueueWrites_spec j (length prepared) write_empty (mkLeaderRequest (preceding_after (preceding_id request) (take j (request_ops request))) prepared)) as (Hco5 & Hm5 & Hl5 & Ha5 & Hc5 & Hp5 & (m & Hlm & Hidm) & Hidl); [exact Hs|lia|exact Ep|done|apply Hmem; by rewrite Hop|exact Hk|done|done|exact Ew|].
    edestruct (Mark_spec release RangeTimeLimit env) as (Hok & Hap' & Hm' & Hl' & Ht' & Hb' & _ & Hc' & Hq'); [exact Hco5|..|exact Em|].
    { intros m'. rewrite Hlm. by intros [= <-]. } { rewrite Hl5. apply Hco5. } { by rewrite Hl5. } { done. }
    split; [done|..|]; try done; [|lia|..].
    + transitivity (current_term_of s5); [done|]. transitivity (current_term_of s4); [unfold current_term_of; by rewrite Hc5|apply Hk].
    + by rewrite Hop.
    + intros op' _. rewrite Hm', Hl', Hl5. split; [done|]. split; [lia|]. intros _. split; [done|]. rewrite <- Hm'. by apply Hc'.
    + by rewrite <- Ha5.
    + rewrite Ha5, Hidl in Hb'. done.
    + intros Hnc Hno. destruct (Hq Hnc Hno) as [Hn4 Hq4]. rewrite <- Hp5 in Hn4. destruct (Hq' Hn4) as [Hn' Hqq]. split; [done|]. rewrite Hc5 in Hqq. by etrans.
Qed.

Lemma taken_over_advanced c j n s s1 s' :
  (request_ops request !! j = None -> n = 0%nat) ->
  advanced c s s1 -> c <= Z.min (index (request_committed request)) (index (preceding_id request) + Z.of_nat j) -> taken_over j n s1 s' -> taken_over j n s s'.
Proof using.
  intros Hn [] Hc []. split; try done; [congruence|..].
  - intros Ho. destruct (to_none0 Ho) as (? & ? & ?). split; [congruence|]. split; [congruence|].
    unfold received_kept in *. unfold GetLastReceivedOpIdUnlocked, GetLastReceivedOpIdCurLeaderUnlocked, current_term_of in *. by rewrite <- ad_received0, <- ad_current0, <- ad_term0.
  - intros op Ho. rewrite <- ad_log0. by apply (to_some0 op).
  - by etrans.
  - lia.
  - intros Hc1 Hno. destruct (ad_quiet0 Hno) as [Hn1 ?]. destruct (to_quiet0 Hc1 Hn1) as [? ?]. split; [done|by etrans].
Qed.

(** From the early commit on, with [j] operations known. *)
Lemma finish_spec j req prev_committed s s' r :
  replica_ok s -> (j <= length (request_ops request))%nat ->
  req = mkLeaderRequest (preceding_after (preceding_id request) (take j (request_ops request))) (drop j (request_ops request)) ->
  (request_ops request !! j ≠ None -> mem s = take (P + j) L) ->
  log_bind (EarlyCommitUnlocked release RangeTimeLimit env request req s) (λ _ s,
    '(s, prepared) ← EnqueuePreparesUnlocked release env (messages req) s;
    if bool_decide (length prepared = 0%nat) && negb (bool_decide (length (messages req) = 0%nat))
    then Done (s, Ok (FillConsensusResponseOKUnlocked (Some OTHER_CONSENSUS_ERROR) s, None))
    else
      let req := mkLeaderRequest (preceding_opid req) prepared in
      '(s, last_from_leader) ← EnqueueWritesUnlocked env req (negb (bool_decide (prev_committed = request_committed request))) s;
      log_bind (MarkOperationsAsCommittedUnlocked release RangeTimeLimit env request req last_from_leader s) (λ _ s,
      Done (s, Ok (FillConsensusResponseOKUnlocked None s,
                   if bool_decide (length prepared = 0%nat) then None else Some (GetLastReceivedOpIdUnlocked s))))) = Done (s', r) ->
  ∃ n, taken_over j n s s' /\
    (∀ resp w, r = Ok (resp, w) -> (n = 0%nat -> request_ops request !! j ≠ None -> status_error resp = Some OTHER_CONSENSUS_ERROR) /\
       resp = FillConsensusResponseOKUnlocked (status_error resp) s' /\ (status_error resp = None \/ status_error resp = Some OTHER_CONSENSUS_ERROR)).
Proof using HL Hfits Hreq.
  intros Hs Hj -> Hmem E. assert (drop j (request_ops request) = [] <-> request_ops request !! j = None) as Hdrop.
  { rewrite lookup_ge_None. split; intros H; [apply (f_equal length) in H; rewrite length_drop in H; cbn in H; lia|by apply drop_ge]. }
  cbn [messages preceding_opid] in E. apply log_bind_Done in E as [(s2 & [] & E2 & E)|(c & E2 & ->)].
  all: apply EarlyCommit_spec in E2; [|apply Hs]; cbn [preceding_opid] in E2; rewrite preceding_after_request in E2 by done.
  2: { exists 0%nat. split; [by apply advanced_taken_over|done]. }
  pose proof (advanced_ok _ _ _ Hs E2) as Hs2. assert (request_ops request !! j ≠ None -> mem s2 = take (P + j) L) as Hmem2 by (intros H; rewrite (ad_mem _ _ _ E2); by apply Hmem).
  apply outcome_bind_Done in E as ([s4 prepared] & E4 & E). apply EnqueuePrepares_spec in E4 as Hpr. destruct Hpr as (Hk & Hap & Hpre & Hpend & Hq).
  assert (mem s4 = mem s2 ++ prepared) as Hmem4 by (unfold mem; rewrite Hap, Hpend; by rewrite app_assoc).
  assert (ops_no_config (request_ops request) -> no_config (pending s2) -> no_config (pending s4) /\ quiet (consensus s2) (consensus s4)) as Hq'.
  { intros Hc. apply Hq. unfold ops_no_config in *. by apply Forall_drop. }
  destruct (decide (length prepared = 0%nat)) as [H0|H0]; [rewrite (bool_decide_eq_true_2 _ H0) in E|rewrite (bool_decide_eq_false_2 _ H0) in E].
  - destruct prepared; [|done]. destruct (decide (length (drop j (request_ops request)) = 0%nat)) as [Hd|Hd].
    + rewrite (bool_decide_eq_true_2 _ Hd) in E. cbn [andb negb] in E. apply outcome_bind_Done in E as ([s5 lastid] & Ew & E).
      apply length_zero_iff_nil in Hd. rewrite Hd in E4. injection E4 as <-.
      assert (∃ r0, MarkOperationsAsCommittedUnlocked release RangeTimeLimit env request
        (mkLeaderRequest (preceding_after (preceding_id request) (take j (request_ops request))) []) lastid s5 = Done (s', r0)) as [r0 Em].
      { apply log_bind_Done in E as [(s6 & [] & E6 & [= <- _])|(c & E6 & _)]; eauto. }
      exists 0%nat. split.
      * apply (taken_over_advanced _ j 0 s s2 s' (λ _, eq_refl) E2); [lia|]. by eapply (write_spec j []); [..|exact Ew|exact Em].
      * intros resp w ->. split; [intros _ Hc; exfalso; by apply Hc, Hdrop|]. apply log_bind_Done in E as [(s6 & [] & E6 & E)|(c & E6 & [=])]. injection E as <- <- <-. split; [done|by left].
    + rewrite (bool_decide_eq_false_2 _ Hd) in E. cbn [andb negb] in E. injection E as <- <-. exists 0%nat.
      split; [|intros resp w [= <- <-]; split; [done|]; split; [done|by right]]. apply (taken_over_advanced _ j 0 s s2 s4 (λ _, eq_refl) E2); [lia|]. rewrite app_nil_r in Hmem4.
      assert (request_ops request !! j ≠ None) as Hj' by (intros H%Hdrop; by rewrite H in Hd).
      split; [|apply Hk|lia|done|..]; [| |by rewrite Hap|rewrite Hap; lia|exact Hq'].
      * destruct Hs2 as [[Hm Hc Hf] Hr Hcu Hn Hp Hlo]. destruct Hk as [Kn Kc Kl Kr Kcu Kt].
        split; [split|..]; rewrite ?Hmem4, ?Kn, ?Kc, ?Kl, ?Kr, ?Kcu, ?Hap; done.
      * intros op Hop. rewrite Hmem4, Nat.add_0_r. split; [by apply Hmem2|]. split; [intros _; apply Hk|lia].
  - cbn [andb] in E. apply outcome_bind_Done in E as ([s5 lastid] & Ew & E).
    assert (∃ r0, MarkOperationsAsCommittedUnlocked release RangeTimeLimit env request
      (mkLeaderRequest (preceding_after (preceding_id request) (take j (request_ops request))) prepared) lastid s5 = Done (s', r0)) as [r0 Em].
    { apply log_bind_Done in E as [(s6 & [] & E6 & [= <- _])|(c & E6 & _)]; eauto. }
    assert (request_ops request !! j = None -> length prepared = 0%nat) as Hj0 by (intros H%Hdrop; rewrite H in Hpre; by apply prefix_nil_inv in Hpre as ->).
    exists (length prepared). split.
    + apply (taken_over_advanced _ j _ s s2 s' Hj0 E2); [lia|]. by eapply (write_spec j prepared); [..|exact Ew|exact Em]; try done; intros ->.
    + intros resp w ->. split; [done|]. apply log_bind_Done in E as [(s6 & [] & E6 & E)|(c & E6 & [=])]. injection E as <- <- <-. split; [done|by left].
Qed.

Theorem UpdateReplica_spec timeout s s' r :
  replica_ok s -> agrees L request s -> UpdateReplica release RangeTimeLimit env timeout request s = Done (s', r) ->
  replica_ok s' /\ update_effect L request s s' r /\
  (∀ resp w, r = Ok (resp, w) -> resp = FillConsensusResponseOKUnlocked (status_error resp) s') /\
  (ops_no_config (request_ops request) -> no_config (pending s) -> no_config (pending s') /\ follows config i (consensus s) (consensus s')).
Proof using HL Hfits Hreq Hcaller Hi.
  intros Hs Hag E. unfold UpdateReplica in E. destruct (negb _).
  { injection E as <- <-. split; [done|]. split; [apply ue_refused; [split; [done|done]|done]|]. done. }
  apply log_bind_Done in E as [(s1 & [error req] & E1 & E)|(c & E1 & ->)].
  all: apply (CheckLeaderRequest_spec release RangeTimeLimit env config i Hi request (proj1 (rq_prev _ _ Hreq)) request_segment Hcaller) in E1 as (Hs1 & Hce & Hf); [|done].
  2: { inversion Hce; subst. split; [done|]. split; [by apply ue_refused|]. done. }
  destruct error as [code|].
  { injection E as <- <-. split; [done|]. split; [|split; [intros resp w [= <- <-]; done|auto]]. inversion Hce; subst.
    - apply ue_refused; [done|]. intros resp w [= <- <-]. cbn. destruct H2 as [[-> ?]|[-> ?]]; auto.
    - by eapply ue_mismatch. }
  inversion Hce as [| | |j Hle Ht Hpm Hj Hkn Hap Hlo Hm]; subst. apply outcome_bind_Done in E as (c & Ec & E). apply accept_request_spec in Ec as (Hq & Er & Ecu).
  set (s1' := with_consensus c s1) in E. assert (replica_ok s1') as Hs1'.
  { eapply log_same_ok; [|exact Hs1]. split; [done|]. split; [done|]. left. split; [done|]. by apply quiet_term. }
  assert (request_ops request !! j ≠ None -> mem s1' = take (P + j) L) as Hmem.
  { intros Hne. change (mem s1') with (mem s1). destruct (request_ops request !! j); [|done]. destruct Hm as [-> _]. by apply Hag. }
  destruct (finish_spec j _ _ _ _ _ Hs1' Hj eq_refl Hmem E) as (n & Hto & Hresp). split; [apply Hto|]. split; [|split].
  - eapply (ue_accepted _ _ _ _ _ j n); [done| |done|apply Hto|done|..].
    + rewrite (to_term _ _ _ _ Hto). etrans; [|exact Ht]. by apply quiet_term.
    + destruct (request_ops request !! j) as [op|] eqn:Eop.
      * destruct (to_some _ _ _ _ Hto op Eop) as (Em & H0 & Hn). destruct Hm as [Em1 Hend]. split; [done|]. split; [done|]. split; [|done].
        intros ->. split; [rewrite H0 by done; done|]. intros resp w ->. by apply (Hresp resp w).
      * destruct (to_none _ _ _ _ Hto Eop) as (Em & El & Hr). destruct Hm as [Em1 Hr1]. split; [by rewrite Em|]. split; [by rewrite El|].
        change (consensus s1') with c in Hr. etrans; [exact Hr1|]. etrans; [|exact Hr]. split; [done|]. left. split; [done|]. by apply quiet_term.
    + rewrite <- Hap. apply Hto.
    + rewrite <- Hap. apply Hto.
    + intros resp w ->. by apply (Hresp resp w).
  - intros resp w ->. by apply (Hresp resp w).
  - intros Hc Hno. destruct (Hf Hno) as [Hn1 Hf1]. destruct (to_quiet _ _ _ _ Hto Hc Hn1) as [Hn' Hq']. split; [done|]. etrans; [exact Hf1|]. apply quiet_follows. by etrans.
Qed.

End take_over.

(** ** The operations of a leader *)

(** The operations [added] were added, with new ids in the current term. *)
Record adding (s0 : Replica) (added : list Operation) (s : Replica) : Prop := {
  an_mem : mem s = mem s0 ++ added;
  an_applied : applied (rlog s) = applied (rlog s0);
  an_log : log_ (rlog s) = log_ (rlog s0);
  an_committed : GetCommittedOpIdUnlocked s = GetCommittedOpIdUnlocked s0;
  an_current : GetLastReceivedOpIdCurLeaderUnlocked s = GetLastReceivedOpIdCurLeaderUnlocked s0;
  an_term : current_term_of s = current_term_of s0;
  an_next : next_index_ (rlog s) = Z.of_nat (length (mem s0) + length added) + 1;
  an_ids k op : added !! k = Some op -> op_id op = mkOpId (current_term_of s0) (Z.of_nat (length (mem s0) + k) + 1);
  an_quiet : quiet (consensus s0) (consensus s);
  an_config : no_config (pending s0) -> no_config (pending s);
  an_received : added = [] -> GetLastReceivedOpIdUnlocked s = GetLastReceivedOpIdUnlocked s0 \/
    GetLastReceivedOpIdUnlocked s = mkOpId (current_term_of s0) (Z.of_nat (length (mem s0)))
}.

Section lead.
Context (release : bool) (RangeTimeLimit : Z) (env : LogEnv).

Lemma adding_refl s : next_index_ (rlog s) = Z.of_nat (length (mem s)) + 1 -> adding s [] s.
Proof using. intros Hn. split; try done; [by rewrite app_nil_r|rewrite Hn; cbn; lia|by left]. Qed.

(** The last id is released. *)
Lemma Cancel_last s0 added op s s' :
  adding s0 (added ++ [op]) s -> CancelPendingOperation release (op_id op) true s = Done s' -> adding s0 added s' /\
  GetLastReceivedOpIdUnlocked s' = mkOpId (current_term_of s0) (Z.of_nat (length (mem s0) + length added)).
Proof using.
  intros [] E. assert (op_id op = mkOpId (current_term_of s0) (Z.of_nat (length (mem s0) + length added) + 1)) as Eid by (by apply an_ids0, list_lookup_middle).
  unfold CancelPendingOperation in E. apply outcome_bind_Done in E as (_ & _ & E). apply outcome_bind_Done in E as (_ & _ & E). apply outcome_bind_Done in E as (_ & _ & E).
  rewrite Eid in E. cbn [term index] in E. set (s1 := with_received _ _ _) in E. change (pending s1) with (pending s) in E.
  assert (s' = with_pending (take (length (pending s) - 1) (pending s)) s1) as Es'.
  { change (pending s1) with (pending s) in E. clear -E. destruct (pending s); [done|]. by injection E. }
  clear E. assert (mem s' = mem s0 ++ added) as Em.
  { assert (mem s = mem s' ++ [op]) as Es; [|rewrite Es, app_assoc in an_mem0; by apply app_inj_tail in an_mem0 as [-> _]].
    rewrite Es'. unfold mem in an_mem0 |- *. change (applied (rlog (with_pending _ s1))) with (applied (rlog s)). change (pending (with_pending ?x s1)) with x.
    rewrite <- app_assoc. f_equal. rewrite an_applied0 in an_mem0. rewrite <- app_assoc in an_mem0. apply app_inv_head in an_mem0.
    rewrite fmap_take. assert (length (pending s) = length ((round_op <$> pending s0) ++ added ++ [op])) as -> by (by rewrite <- an_mem0, length_fmap).
    rewrite an_mem0, app_assoc, length_app. cbn [length]. rewrite Nat.add_sub. by rewrite take_app_length. }
  split; [|subst s'; change (GetLastReceivedOpIdUnlocked _) with (mkOpId (current_term_of s0) (Z.of_nat (length (mem s0) + length added) + 1 - 1)); f_equal; lia].
  split; try done; try (by subst s'; cbn; first [done|rewrite <- an_next0]).
  - intros k x Hk. apply an_ids0. by apply lookup_app_l_Some.
  - etrans; [exact an_quiet0|]. subst s'. by split.
  - intros Hn. subst s'. unfold no_config. apply Forall_take. by apply an_config0.
  - intros ->. right. subst s'. change (GetLastReceivedOpIdUnlocked _) with (mkOpId (current_term_of s0) (Z.of_nat (length (mem s0) + length (@nil Operation)) + 1 - 1)). f_equal. cbn. lia.
Qed.

Lemma rollback_spec s0 added s s' :
  adding s0 added s -> rollback release (reverse (op_id <$> added)) s = Done s' -> adding s0 [] s'.
Proof using.
  revert s. induction added as [|op added IH] using rev_ind; intros s Ha E; [by injection E as <-|].
  rewrite fmap_app, reverse_app in E. cbn in E. apply outcome_bind_Done in E as (s1 & E1 & E). destruct (Cancel_last s0 added op s s1 Ha E1) as [Ha1 _]. by apply (IH s1).
Qed.

(** An id that was not used. *)
Lemma Cancel_unused s0 added id s s1 s' :
  adding s0 added s -> kept (NewIdUnlocked s).1 s1 -> id = (NewIdUnlocked s).2 -> applied (rlog s1) = applied (rlog s) -> pending s1 = pending s -> quiet (consensus s) (consensus s1) ->
  CancelPendingOperation release id false s1 = Done s' -> adding s0 added s'.
Proof using.
  intros Ha [Kn Kc Kl Kr Kcu Kt] -> Eap Ep Hq E. destruct Ha.
  unfold CancelPendingOperation in E. apply outcome_bind_Done in E as (_ & _ & E). apply outcome_bind_Done in E as (_ & _ & E). apply outcome_bind_Done in E as (_ & _ & [= <-]).
  assert (mem s1 = mem s) as Em by (unfold mem; by rewrite Eap, Ep).
  split.
  - change (mem (with_received _ _ (with_next_index _ s1))) with (mem s1). congruence.
  - cbn. congruence.
  - cbn. cbn in Kl. congruence.
  - change (GetCommittedOpIdUnlocked (with_received _ _ (with_next_index _ s1))) with (GetCommittedOpIdUnlocked s1). rewrite Kc. done.
  - change (GetLastReceivedOpIdCurLeaderUnlocked (with_received _ _ (with_next_index _ s1))) with (GetLastReceivedOpIdCurLeaderUnlocked s1). rewrite Kcu. done.
  - change (current_term_of (with_received _ _ (with_next_index _ s1))) with (current_term_of s1). rewrite Kt. done.
  - cbn. done.
  - done.
  - etrans; [exact an_quiet0|]. etrans; [exact Hq|]. by split.
  - intros Hn. change (pending (with_received _ _ (with_next_index _ s1))) with (pending s1). rewrite Ep. by apply an_config0.
  - intros ->. right. cbn. rewrite an_next0, an_term0. f_equal. cbn. lia.
Qed.

Lemma adding_kept s0 added op s s1 :
  adding s0 added s -> kept (NewIdUnlocked s).1 s1 -> op_id op = (NewIdUnlocked s).2 -> applied (rlog s1) = applied (rlog s) ->
  (∃ rd, round_op rd = op /\ op_type op ≠ CHANGE_CONFIG_OP /\ pending s1 = pending s ++ [rd]) -> quiet (consensus s) (consensus s1) ->
  adding s0 (added ++ [op]) s1.
Proof using.
  intros [] [Kn Kc Kl Kr Kcu Kt] Hid Eap (rd & Erd & Hop & Ep) Hq. split.
  - unfold mem in *. rewrite Eap, Ep, fmap_app. cbn. rewrite Erd, app_assoc, an_mem0. by rewrite app_assoc.
  - congruence.
  - cbn in Kl. congruence.
  - rewrite Kc. done.
  - rewrite Kcu. done.
  - rewrite Kt. done.
  - rewrite Kn. cbn. rewrite an_next0, length_app. cbn. lia.
  - intros k x Hk. apply lookup_app_Some in Hk as [Hk|[Hk Hx]]; [by apply an_ids0|]. apply list_lookup_singleton_Some in Hx as [Hk0 <-].
    rewrite Hid. cbn. rewrite an_next0, an_term0. f_equal. lia.
  - by etrans.
  - intros Hn. rewrite Ep. apply Forall_app_2; [by apply an_config0|]. apply Forall_singleton. by rewrite Erd.
  - intros []%app_eq_nil. done.
Qed.

Lemma add_new_rounds_spec s0 rounds added s s' r :
  no_config rounds -> adding s0 added s -> add_new_rounds release env rounds added s = Done (s', r) ->
  match r with Ok l => added `prefix_of` l /\ (length l <= length added + length rounds)%nat /\ adding s0 l s' | Error _ => adding s0 [] s' end.
Proof using.
  intros Hno. revert added s. induction Hno as [|round rounds Hr Hno IH]; intros added s Ha E; [injection E as <- <-; split; [done|]; split; [lia|done]|].
  cbn [add_new_rounds] in E. destruct (NewIdUnlocked s) as [s1 id] eqn:Eid. destruct (HandleConsensusAppend env _) as [time payload].
  set (op := mkOperation _ _ time _ _ payload) in E. apply outcome_bind_Done in E as ([s2 r2] & E2 & E).
  apply AddPending_spec in E2 as (Hk & Hap & Hp & Hq). cbn [round_op] in Hq. specialize (Hq Hr).
  assert (applied (rlog s1) = applied (rlog s) /\ pending s1 = pending s /\ quiet (consensus s) (consensus s1)) as (Ea1 & Ep1 & Hq1) by (by injection Eid as <- <-).
  rewrite Ea1 in Hap. rewrite Ep1 in Hp. assert (quiet (consensus s) (consensus s2)) as Hq2 by (by etrans). destruct r2 as [[]|c].
  - apply IH in E. 
    + destruct r as [l|c]; [|done]. destruct E as (Hpre & Hlen & Hl). split; [etrans; [by apply prefix_app_r|done]|]. rewrite length_app in Hlen. cbn in *. split; [lia|done].
    + apply (adding_kept s0 added op s s2 Ha); [by rewrite Eid|by rewrite Eid|done| |done]. by exists (mkRound (round_num round) op (round_bound round)).
  - apply outcome_bind_Done in E as (s3 & E3 & E). rewrite app_nil_r in Hp.
    apply (Cancel_unused s0 added id s s2) in E3; [|done|by rewrite Eid|by rewrite Eid|done|done|done]. case_bool_decide.
    + apply IH in E; [|done]. destruct r as [l|c']; [|done]. destruct E as (Hpre & Hlen & Hl). cbn. split; [done|]. split; [lia|done].
    + apply outcome_bind_Done in E as (s4 & E4 & [= <- <-]). by apply (rollback_spec s0) in E4.
Qed.

(** Operations in the current term follow. *)
Lemma adding_log_ok s0 added s : log_ok (mem s0) -> adding s0 added s -> term (last_op_id (mem s0)) <= current_term_of s0 -> log_ok (mem s).
Proof using.
  intros Hlo [] Ht. rewrite an_mem0. clear - Hlo an_ids0 Ht. induction added as [|op added IH] using rev_ind; [by rewrite app_nil_r|].
  rewrite app_assoc. assert (op_id op = mkOpId (current_term_of s0) (Z.of_nat (length (mem s0) + length added) + 1)) as Eid by (by apply an_ids0, list_lookup_middle).
  assert (∀ k x, added !! k = Some x -> op_id x = mkOpId (current_term_of s0) (Z.of_nat (length (mem s0) + k) + 1)) as Hids by (intros k x Hk; apply an_ids0; by apply lookup_app_l_Some).
  apply log_ok_snoc; [by apply IH|change (op_id_of op) with (op_id op); rewrite Eid; cbn; rewrite length_app; lia|]. change (op_id_of op) with (op_id op). rewrite Eid. cbn.
  intros a [[k Hk]%list_elem_of_lookup|[k Hk]%list_elem_of_lookup]%elem_of_app; [|change (op_id_of a) with (op_id a); by rewrite (Hids k)].
  destruct (last_exists _ _ _ Hk) as (b & Hb & Hl). rewrite (last_op_id_lookup _ b _ Hb Hl) in Ht. etrans; [|exact Ht]. eapply (lg_terms _ Hlo); [|done|done]. apply lookup_lt_Some in Hk. lia.
Qed.

(** A leader added operations. *)
Record appended_ops (added : list Operation) (s s' : Replica) : Prop := {
  ap_ok : replica_ok s';
  ap_mem : mem s' = mem s ++ added;
  ap_applied : applied (rlog s') = applied (rlog s);
  ap_term : current_term_of s' = current_term_of s;
  ap_terms op : op ∈ added -> term (op_id op) = current_term_of s;
  ap_none : added = [] -> log_ (rlog s') = log_ (rlog s) /\ GetLastReceivedOpIdCurLeaderUnlocked s' = GetLastReceivedOpIdCurLeaderUnlocked s;
  ap_some : added ≠ [] -> log_ (rlog s') = mem s' /\ GetLastReceivedOpIdCurLeaderUnlocked s' = last_op_id (mem s');
  ap_quiet : quiet (consensus s) (consensus s');
  ap_config : no_config (pending s) -> no_config (pending s')
}.

Lemma adding_none s s' :
  replica_ok s -> adding s [] s' -> term (last_op_id (mem s)) = current_term_of s -> appended_ops [] s s'.
Proof using.
  intros Hs Ha Ht. pose proof (an_received _ _ _ Ha eq_refl) as Hr. destruct Ha. rewrite app_nil_r in an_mem0. destruct Hs as [[Hm Hc Hf] Hrc Hcu Hn Hp Hlo].
  assert (GetLastReceivedOpIdUnlocked s' = last_op_id (mem s)) as Hr'.
  { destruct Hr as [->| ->]; [done|]. rewrite <- Ht, <- (last_op_id_index _ Hm). by destruct (last_op_id (mem s)). }
  split; try done; [|by rewrite app_nil_r|by intros op H%not_elem_of_nil].
  split; [split|..]; rewrite ?an_mem0, ?an_log0, ?an_committed0, ?an_applied0, ?an_current0; try done. rewrite an_next0. cbn. lia.
Qed.

Lemma adding_appended added back s s1 s2 s' :
  replica_ok s -> adding s added s1 -> last added = Some back -> term (last_op_id (mem s)) <= current_term_of s -> Z.of_nat (length (mem s) + length added) < 2 ^ 63 ->
  LogCache_AppendOperations env added s1 = Done (s2, Ok tt) -> UpdateLastReceivedOpIdUnlocked release (op_id back) s2 = Done s' -> appended_ops added s s'.
Proof using.
  intros Hs Ha Hlast Ht Hf E2 E. pose proof (adding_log_ok _ _ _ (co_mem _ (ro_core _ Hs)) Ha Ht) as Hlo. destruct Ha.
  destruct added as [|op added]; [done|]. unfold LogCache_AppendOperations in E2. apply outcome_bind_Done in E2 as (_ & _ & [= <- _]).
  unfold UpdateLastReceivedOpIdUnlocked in E. apply outcome_bind_Done in E as (_ & _ & [= <-]).
  rewrite (an_ids0 0%nat op eq_refl). cbn [index].
  assert (take (Z.to_nat (Z.of_nat (length (mem s) + 0) + 1 - 1)) (log_ (rlog s1)) ++ op :: added = mem s1) as El.
  { rewrite an_log0, an_mem0. f_equal. destruct (ro_log _ Hs) as [x ->]. rewrite take_app_length'; [done|lia]. }
  rewrite El. assert (op_id back = last_op_id (mem s1)) as Eb by (unfold last_op_id; rewrite an_mem0, last_app, Hlast; done).
  set (s' := with_next_index _ _). assert (mem s' = mem s1) as Em' by done.
  assert (core_ok s') as Hco.
  { split; rewrite ?Em'; [done| |rewrite an_mem0, length_app; lia]. change (GetCommittedOpIdUnlocked s') with (GetCommittedOpIdUnlocked s1).
    change (applied (rlog s')) with (applied (rlog s1)). rewrite an_committed0, an_applied0. apply Hs. }
  split; try done.
  - split; rewrite ?Em'; try done; [by right|]. change (next_index_ (rlog s')) with (index (op_id back) + 1). by rewrite Eb, last_op_id_index.
  - intros x [k Hk]%list_elem_of_lookup. by rewrite (an_ids0 k x Hk).
  - etrans; [exact an_quiet0|]. by split.
Qed.

Definition added_ops (r : Result (list Operation)) : list Operation := match r with Ok l => l | Error _ => [] end.

Lemma AppendNewRounds_spec rounds s s' r :
  replica_ok s -> no_config rounds -> AsyncAppendReplicates env = Ok tt -> term (last_op_id (mem s)) <= current_term_of s ->
  (term (last_op_id (mem s)) = current_term_of s \/ ∃ op l, r = Ok (op :: l)) -> Z.of_nat (length (mem s) + length rounds) < 2 ^ 63 ->
  AppendNewRoundsToQueueUnlocked release env rounds s = Done (s', r) -> appended_ops (added_ops r) s s'.
Proof using.
  intros Hs Hno Hok Ht Hr Hf E. unfold AppendNewRoundsToQueueUnlocked in E. apply log_bind_Done in E as [(s1 & added & E1 & E)|(c & E1 & ->)].
  all: apply (add_new_rounds_spec s) in E1; [|done|apply adding_refl, Hs].
  2: { destruct Hr as [Hr|(? & ? & ?)]; [|done]. by apply adding_none. }
  destruct E1 as (_ & Hlen & Ha). cbn in Hlen. destruct (last added) as [back|] eqn:Hl.
  - apply outcome_bind_Done in E as ([s2 r2] & E2 & E). assert (r2 = Ok tt) as ->.
    { destruct added; [done|]. cbn in E2. apply outcome_bind_Done in E2 as (_ & _ & [= _ <-]). done. }
    apply outcome_bind_Done in E as (s3 & E3 & [= <- <-]). cbn [added_ops]. eapply adding_appended; try done. lia.
  - apply last_None in Hl as ->. injection E as <- <-. destruct Hr as [Hr|(? & ? & ?)]; [|done]. by apply adding_none.
Qed.

Lemma ReplicateBatch_spec rounds s s' r :
  replica_ok s -> no_config rounds -> AsyncAppendReplicates env = Ok tt -> term (last_op_id (mem s)) = current_term_of s ->
  Z.of_nat (length (mem s) + length rounds) < 2 ^ 63 ->
  ReplicateBatch release env rounds s = Done (s', r) -> appended_ops (added_ops r) s s'.
Proof using.
  intros Hs Hno Hok Ht Hf E. unfold ReplicateBatch in E. assert (∀ c, Done (s, Error c) = Done (s', r) -> appended_ops (added_ops r) s s') as Herr.
  { intros c [= <- <-]. apply adding_none; [done| |done]. apply adding_refl, Hs. }
  destruct (negb _); [by eapply Herr|]. destruct (forallb _ _); [|by eapply Herr]. apply AppendNewRounds_spec in E; try done; [lia|by left].
Qed.

(** The first operation of a leader is never refused. *)
Lemma AddPending_no_op round s : op_type (round_op round) = NO_OP ->
  AddPendingOperation release env round s = Done (with_pending (pending s ++ [round]) s, Ok tt).
Proof using.
  intros Ht. unfold AddPendingOperation. rewrite Ht. rewrite !andb_false_r. cbn [andb log_bind]. rewrite !bool_decide_eq_false_2 by done. done.
Qed.

Lemma append_no_op_spec hybrid_time s s' r :
  replica_ok s -> AsyncAppendReplicates env = Ok tt -> term (last_op_id (mem s)) <= current_term_of s -> Z.of_nat (length (mem s)) + 1 < 2 ^ 63 ->
  append_no_op release env hybrid_time s = Done (s', r) -> ∃ op, r = Ok [op] /\ op_type op ≠ CHANGE_CONFIG_OP /\ appended_ops [op] s s'.
Proof using.
  intros Hs Hok Ht Hf E. unfold append_no_op in E. apply outcome_bind_Done in E as (s1 & E1 & E). apply SetLeaderNoOp_kept in E1 as (Hk & Hp & Ha & Hq).
  assert (mem s1 = mem s) as Em by (unfold mem; by rewrite Hp, Ha).
  assert (replica_ok s1) as Hs1.
  { destruct Hs as [[Hm Hc Hfi] Hr Hcu Hn Hpr Hlo]. destruct Hk as [Kn Kc Kl Kr Kcu Kt].
    split; [split|..]; rewrite ?Em, ?Kn, ?Kc, ?Kl, ?Kr, ?Kcu, ?Ha; done. }
  assert (∃ op, r = Ok [op] /\ op_type op = NO_OP) as (op & -> & Hop).
  { unfold AppendNewRoundsToQueueUnlocked in E. cbn [add_new_rounds] in E. destruct (NewIdUnlocked s1) as [s2 id]. destruct (HandleConsensusAppend env _) as [time payload].
    rewrite AddPending_no_op in E by done. cbn [mbind outcome_bind log_bind] in E. cbn [app last] in E. apply outcome_bind_Done in E as ([s3 r3] & E3 & E).
    unfold LogCache_AppendOperations in E3. apply outcome_bind_Done in E3 as (_ & _ & [= _ <-]). rewrite Hok in E. apply outcome_bind_Done in E as (s4 & _ & [= _ <-]). by eexists. }
  exists op. split; [done|]. split; [by rewrite Hop|].
  apply AppendNewRounds_spec in E as Hadd; try done.
  - cbn [added_ops] in Hadd. destruct Hadd. split; try done; try congruence; [by rewrite ap_term0, (kp_term _ _ Hk)|by rewrite <- (kp_term _ _ Hk)|by etrans|by rewrite <- Hp].
  - by apply Forall_singleton.
  - rewrite Em. by rewrite (kp_term _ _ Hk).
  - right. by exists op, [].
  - rewrite Em. cbn. lia.
Qed.

(** What a majority has is committed only with an operation of the term. *)
Lemma UpdateMajorityReplicated_spec revocation q d s s' id :
  replica_ok s -> UpdateMajorityReplicated release RangeTimeLimit env revocation q d s = Done (s', id) ->
  advanced (index (majority_op_id d)) s s' /\ (∀ x, id = Some x -> x = GetCommittedOpIdUnlocked s') /\
  (applied (rlog s') = applied (rlog s) \/ term (GetCommittedOpIdUnlocked s) = current_term_of s \/ term (majority_op_id d) = current_term_of s).
Proof using.
  intros Hs E. unfold UpdateMajorityReplicated in E. destruct (_ || _); [injection E as <- <-; split; [by apply advanced_refl, Hs|]; split; [done|by left]|].
  apply outcome_bind_Done in E as (c & Ec & E). apply outcome_bind_Done in E as ([s1 r1] & E & [= <- <-]).
  assert (quiet (consensus s) c /\ last_received_op_id_ c = last_received_op_id_ (consensus s) /\
    last_received_op_id_current_leader_ c = last_received_op_id_current_leader_ (consensus s)) as (Hq & Er & Ecu).
  { unfold LeaderLease.UpdateMajorityReplicated in Ec. destruct (_ || _); [by injection Ec as <-|]. unfold SetMajorityReplicatedLeaseExpirationUnlocked in Ec.
    apply outcome_bind_Done in Ec as ([c1 st] & E1 & [= <-]). apply GetLeaderState_forgets, forgets_quiet in E1 as (Hq & Er & Ecu). split; [|done]. etrans; [|exact Hq]. by split. }
  set (s0 := with_consensus c s) in E. assert (advanced (index (majority_op_id d)) s s0) as H0.
  { split; try done; [by apply (core_same s); [apply Hs|..]|change (applied (rlog s0)) with (applied (rlog s)); lia|by apply quiet_term]. }
  pose proof (quiet_term _ _ Hq) as Et. unfold UpdateMajorityReplicatedUnlocked in E. destruct (shutting_down (rlog s0)); [injection E as <- <-; split; [done|]; split; [done|by left]|].
  destruct (negb _); [injection E as <- <-; split; [done|]; split; [done|by left]|].
  destruct ((term (GetCommittedOpIdUnlocked s0) =? current_term_of s0) || (term (majority_op_id d) =? current_term_of s0)) eqn:Hterm.
  - apply outcome_bind_Done in E as ([s2 r2] & E2 & [= <- <-]). apply AdvanceCommitted_spec in E2 as [Ha _]; [|apply H0].
    split; [by apply (advanced_trans _ _ _ _ _ H0 Ha)|]. split; [destruct r2 as [b|[[]|c2]]; by intros x [= <-]|right].
    unfold current_term_of in *. change (GetCurrentTermUnlocked (consensus s0)) with (GetCurrentTermUnlocked c) in Hterm. rewrite Et in Hterm.
    apply orb_true_iff in Hterm as [H%Z.eqb_eq|H%Z.eqb_eq]; [by left|by right].
  - injection E as <- <-. split; [done|]. split; [by intros x [= <-]|by left].
Qed.

(** *** Starting *)

(** What the tablet makes of the log when it starts: the first [k] operations
    are known to be committed and are applied again. *)
Definition bootstrap_info (l : list Operation) (k : nat) : ConsensusBootstrapInfo :=
  mkConsensusBootstrapInfo (last_op_id l) (last_op_id (take k l)) (drop k l).

Record bootstrapped (l : list Operation) (k : nat) (s : Replica) : Prop := {
  bs_log : log_ (rlog s) = l;
  bs_applied : applied (rlog s) = take k l;
  bs_pending : pending s = [];
  bs_committed : GetCommittedOpIdUnlocked s = MinimumOpId;
  bs_current : GetLastReceivedOpIdCurLeaderUnlocked s = MinimumOpId
}.

Lemma start_operations_spec ops s s' r :
  start_operations release env ops s = Done (s', r) ->
  kept s s' /\ applied (rlog s') = applied (rlog s) /\ (r = Ok tt -> (round_op <$> pending s') = (round_op <$> pending s) ++ ops) /\
  (ops_no_config ops -> quiet (consensus s) (consensus s')).
Proof using.
  revert s. induction ops as [|op ops IH]; intros s E; cbn [start_operations] in E; [injection E as <- <-; by rewrite app_nil_r|].
  apply log_bind_Done in E as [(s1 & [] & E1 & E)|(c & E1 & ->)]; apply StartReplicaOperation_spec in E1 as (Hk & Ha & (rd & Erd & Hp) & Hq).
  - apply IH in E as (Hk' & Ha' & Hp' & Hq'). split; [by etrans|]. split; [congruence|]. split.
    + intros Hr. rewrite Hp' by done. rewrite Hp, fmap_app, <- app_assoc. cbn. by rewrite Erd.
    + intros [Ho Hos]%Forall_cons. etrans; [by apply Hq|by apply Hq'].
  - split; [done|]. split; [done|]. split; [done|]. intros [Ho Hos]%Forall_cons. by apply Hq.
Qed.

Lemma Start_spec l k s s' :
  log_ok l -> Z.of_nat (length l) < 2 ^ 63 -> (k <= length l)%nat -> ops_no_config l -> bootstrapped l k s ->
  Start release RangeTimeLimit env (bootstrap_info l k) s = Done (s', Ok tt) ->
  replica_ok s' /\ mem s' = l /\ applied (rlog s') = take k l /\ log_ (rlog s') = l /\ GetLastReceivedOpIdCurLeaderUnlocked s' = MinimumOpId /\
  same_vote (consensus s) (consensus s').
Proof using.
  intros Hlo Hf Hk Hno [Bl Ba Bp Bc Bcu] E. unfold Start in E. apply outcome_bind_Done in E as (s1 & E1 & E). unfold StartUnlocked in E1.
  apply outcome_bind_Done in E1 as (_ & _ & [= <-]). set (s1 := with_consensus _ _) in E.
  assert (same_vote (consensus s) (consensus s1)) as Hv1 by done.
  apply log_bind_Done in E as [(s2 & [] & E2 & E)|(c & _ & ?)]; [|done]. apply start_operations_spec in E2 as (Hk2 & Ha2 & Hp2 & Hq2). cbn [bootstrap_info orphaned_replicates] in *.
  specialize (Hp2 eq_refl). specialize (Hq2 (Forall_drop _ k _ Hno)). change (pending s1) with (pending s) in Hp2. rewrite Bp in Hp2. cbn in Hp2.
  change (applied (rlog s1)) with (applied (rlog s)) in Ha2. rewrite Ba in Ha2.
  assert (mem s2 = l) as Em2 by (unfold mem; rewrite Ha2, Hp2; apply take_drop).
  assert (GetLastReceivedOpIdUnlocked s2 = last_op_id l) as Er2 by (rewrite (kp_received _ _ Hk2); done).
  apply log_bind_Done in E as [(s3 & [] & E3 & E)|(c & _ & ?)]; [|done]. apply lift_op_Done in E as (c4 & E4 & ->).
  unfold InitCommittedOpIdUnlocked in E3. assert (GetCommittedOpIdUnlocked s2 = MinimumOpId) as Ec2 by (rewrite (kp_committed _ _ Hk2); exact Bc). rewrite Ec2 in E3. cbn [OpId_bool MinimumOpId term index] in E3.
  change (negb ((0 =? 0) && (0 =? 0))) with false in E3. cbv iota in E3.
  assert (log_bind (match pending s2 with
       | front :: _ => if index (round_id front) <=? index (last_op_id (take k l)) then ApplyPendingOperationsUnlocked release RangeTimeLimit env (last_op_id (take k l)) None s2 else Done (s2, Ok tt)
       | [] => Done (s2, Ok tt) end) (λ _ s, s ← SetLastCommittedIndexUnlocked (last_op_id (take k l)) s; Done (s, Ok tt)) = Done (with_last_committed (last_op_id (take k l)) s2, Ok tt)) as E5.
  { assert (SetLastCommittedIndexUnlocked (last_op_id (take k l)) s2 = Done (with_last_committed (last_op_id (take k l)) s2)) as Es.
    { unfold SetLastCommittedIndexUnlocked. rewrite Er2, !last_op_id_index by (try apply log_ok_take; done). rewrite length_take, (proj2 (Z.leb_le _ _)) by lia. done. }
    destruct (pending s2) as [|front rest] eqn:Ep2; [cbn [log_bind]; by rewrite Es|]. rewrite (proj2 (Z.leb_gt _ _)); [cbn [log_bind]; by rewrite Es|].
    assert (l !! k = Some (round_op front)) as Hfr.
    { rewrite <- (Nat.add_0_r k), <- lookup_drop, <- Hp2. done. }
    unfold round_id. pose proof (lg_index _ Hlo _ _ Hfr) as Hi. change (op_id_of (round_op front)) with (op_id (round_op front)) in Hi. rewrite Hi.
    rewrite last_op_id_index by (by apply log_ok_take). rewrite length_take. lia. }
  cbn [bootstrap_info last_committed_id] in E3. rewrite E5 in E3. injection E3 as <-. unfold BecomeReplicaUnlocked in E4. injection E4 as <- _.
  set (s4 := with_consensus _ _). assert (mem s4 = l) as Em4 by done.
  split; [split; [split|..]|].
  - by rewrite Em4.
  - change (last_op_id (take k l) = last_op_id (applied (rlog s2))). by rewrite Ha2.
  - by rewrite Em4.
  - rewrite Em4. exact Er2.
  - left. change (GetLastReceivedOpIdCurLeaderUnlocked s2 = MinimumOpId). rewrite (kp_current _ _ Hk2). exact Bcu.
  - rewrite Em4. change (next_index_ (rlog s2) = Z.of_nat (length l) + 1). rewrite (kp_next _ _ Hk2). cbn. by rewrite last_op_id_index.
  - rewrite Em4. change (l `prefix_of` log_ (rlog s2)). rewrite (kp_log _ _ Hk2). change (l `prefix_of` log_ (rlog s)). by rewrite Bl.
  - change (log_ok (log_ (rlog s2))). rewrite (kp_log _ _ Hk2). change (log_ok (log_ (rlog s))). by rewrite Bl.
  - split; [done|]. split; [exact Ha2|]. split; [change (log_ (rlog s2) = l); rewrite (kp_log _ _ Hk2); exact Bl|].
    split; [change (GetLastReceivedOpIdCurLeaderUnlocked s2 = MinimumOpId); rewrite (kp_current _ _ Hk2); exact Bcu|].
    destruct Hq2 as [(? & ? & ? & ?) _ _]. split_and!; cbn; done.
Qed.

End lead.

(** ** Logs that match

    What Raft promises of the logs of a leader and of a follower: where they have
    operations of the same term at an index, they are the same up to it. *)
Definition logs_match (L M : list Operation) : Prop :=
  ∀ k a b, M !! k = Some a -> L !! k = Some b -> term (op_id a) = term (op_id b) -> take (S k) M = take (S k) L.

Lemma preceding_lookup (L : list Operation) prev :
  log_ok L -> 1 <= index prev <= Z.of_nat (length L) -> prev = last_op_id (take (Z.to_nat (index prev)) L) ->
  ∃ b, L !! Z.to_nat (index prev - 1) = Some b /\ op_id b = prev.
Proof.
  intros HL Hp E. destruct (lookup_lt_is_Some_2 L (Z.to_nat (index prev - 1))) as [b Hb]; [lia|]. exists b. split; [done|]. rewrite E. symmetry.
  apply (last_op_id_lookup _ b (Z.to_nat (index prev - 1))); [rewrite lookup_take_lt by lia; done|rewrite length_take; lia].
Qed.

(** The operation before a request and its operations are those of the leader. *)
Lemma preceding_after_lookup L request j :
  log_ok L -> request_of L request -> preceding_id request = last_op_id (take (Z.to_nat (index (preceding_id request))) L) ->
  (j <= length (request_ops request))%nat -> (0 < Z.to_nat (index (preceding_id request)) + j)%nat ->
  ∃ b, L !! (Z.to_nat (index (preceding_id request)) + j - 1)%nat = Some b /\ op_id b = preceding_after (preceding_id request) (take j (request_ops request)).
Proof.
  intros HL Hr Hid Hj Hpos. pose proof (rq_prev _ _ Hr) as Hp. unfold preceding_after. destruct (last (take j (request_ops request))) as [op|] eqn:El.
  - rewrite last_lookup, length_take in El. assert (0 < j)%nat by (destruct j; [done|lia]). rewrite lookup_take_lt in El by lia. exists op. split; [|done].
    apply (request_lookup L request Hr) in El. by replace (Z.to_nat (index (preceding_id request)) + j - 1)%nat with (Z.to_nat (index (preceding_id request)) + pred (j `min` length (request_ops request)))%nat by lia.
  - apply last_None in El. apply (f_equal length) in El. rewrite length_take in El. cbn in El. assert (j = 0%nat) as -> by lia.
    destruct (preceding_lookup L (preceding_id request) HL) as (b & Hb & Eb); [lia|done|]. exists b. split; [|done].
    by replace (Z.to_nat (index (preceding_id request)) + 0 - 1)%nat with (Z.to_nat (index (preceding_id request) - 1)) by lia.
Qed.

(** Then what the follower checks is enough. *)
Lemma logs_match_agrees L request s :
  log_ok L -> logs_match L (mem s) -> request_of L request -> preceding_id request = last_op_id (take (Z.to_nat (index (preceding_id request))) L) ->
  (current_term_of s <= caller_term (header request) -> applied (rlog s) `prefix_of` L) -> agrees L request s.
Proof.
  intros HL Hm Hr Hid Hap Hle j Hj Hpm _. specialize (Hap Hle). pose proof (preceding_after_request L HL request Hr j Hj) as Hi. pose proof (rq_prev _ _ Hr) as Hp.
  set (k := (Z.to_nat (index (preceding_id request)) + j)%nat) in *. assert (index (preceding_after (preceding_id request) (take j (request_ops request))) = Z.of_nat k) as Hik by lia.
  destruct Hpm as [Hlen|(a & Ha & Et)]; rewrite Hik in *.
  - unfold mem. rewrite take_app_le by lia. destruct Hap as [x ->]. by rewrite take_app_le by lia.
  - destruct (decide (k = 0%nat)) as [->|Hk]; [done|]. replace (Z.to_nat (Z.of_nat k - 1)) with (k - 1)%nat in Ha by lia.
    destruct (preceding_after_lookup L request j HL Hr Hid Hj) as (b & Hb & Eb); [fold k; lia|]. fold k in Hb.
    replace k with (S (k - 1)) by lia. apply (Hm _ a b); [done..|]. by rewrite Et, Eb.
Qed.

(** A request that is answered without an error was taken over. *)
Lemma update_accepted L request s s' resp w :
  log_ok L -> request_of L request -> agrees L request s -> update_effect L request s s' (Ok (resp, w)) -> status_error resp = None ->
  current_term_of s' = caller_term (header request) /\
  ∃ k, (Z.to_nat (index (preceding_id request)) <= k)%nat /\ (request_ops request ≠ [] -> Z.to_nat (index (preceding_id request)) < k)%nat /\
    (k <= length L)%nat /\ take k (mem s') = take k L.
Proof.
  intros HL Hreq Hag Heff Hn. pose proof (rq_prev _ _ Hreq) as Hp. pose proof (prefix_length _ _ (rq_ops _ _ Hreq)) as Hlen. rewrite length_drop in Hlen.
  inversion Heff as [r Hsame Hr Er|a w' _ _ _ _ _ _ _ _ _ Er|r j n Hle Ht Hpm Hjn Hkn Hcase _ _ _ Er]; subst.
  - destruct (Hr resp w eq_refl) as [[He _]|[He _]]; congruence.
  - done.
  - split; [done|]. exists (Z.to_nat (index (preceding_id request)) + j + n)%nat. split; [lia|]. destruct (request_ops request !! j) as [op|] eqn:Eop.
    + destruct Hcase as (-> & _ & H0 & _). split; [|split; [lia|by rewrite take_take, Nat.min_id]]. intros _. destruct n; [|lia].
      destruct (H0 eq_refl) as [_ Hoth]. specialize (Hoth resp w eq_refl). congruence.
    + apply lookup_ge_None in Eop. assert (n = 0%nat) as -> by lia. destruct Hcase as (-> & _). split; [intros Hne; destruct (request_ops request); [done|cbn in Eop; lia]|].
      split; [lia|]. rewrite Nat.add_0_r. apply Hag; [done|lia|done|done].
Qed.

(** Nothing that a follower has in common with the leader is taken back. *)
Lemma update_keeps_common L request s s' r k :
  log_ok L -> request_of L request -> preceding_id request = last_op_id (take (Z.to_nat (index (preceding_id request))) L) ->
  update_effect L request s s' r -> (k <= length (mem s))%nat -> take k (mem s) = take k L -> take k (mem s') = take k L.
Proof.
  intros HL Hreq Hid Heff Hk Hc. pose proof (rq_prev _ _ Hreq) as Hp.
  assert (∀ i a b, (i < k)%nat -> mem s !! i = Some a -> L !! i = Some b -> a = b) as Hsame.
  { intros i a b Hi Ha Hb. rewrite <- (lookup_take_lt (mem s) k) in Ha by done. rewrite <- (lookup_take_lt L k) in Hb by done. rewrite Hc in Ha. congruence. }
  destruct Heff as [r [El _] _|a w _ _ H1 Ha Hne Em _ _ _|r j n _ _ _ Hjn _ Hcase _ _ _].
  - unfold mem, pending in *. by rewrite El.
  - rewrite Em, take_take. destruct (decide (k <= Z.to_nat (index (preceding_id request) - 1))%nat); [by rewrite Nat.min_l|exfalso].
    destruct (preceding_lookup L (preceding_id request) HL) as (b & Hb & Eb); [lia|done|]. apply Hne. rewrite <- Eb.
    by rewrite (Hsame (Z.to_nat (index (preceding_id request) - 1)) a b) by (done || lia).
  - destruct (request_ops request !! j) as [op|] eqn:Eop; [|by destruct Hcase as [-> _]]. destruct Hcase as (Em & Hend & _).
    assert (k <= Z.to_nat (index (preceding_id request)) + j)%nat as Hkj.
    { destruct Hend as [E|(a & Ha & Hne)]; [lia|]. destruct (decide (k <= Z.to_nat (index (preceding_id request)) + j)%nat) as [|Hgt]; [done|exfalso].
      apply (request_lookup L request Hreq) in Eop. apply Hne. by rewrite (Hsame (Z.to_nat (index (preceding_id request)) + j)%nat a op) by (done || lia). }
    rewrite Em, take_take. by rewrite Nat.min_l by lia.
Qed.

(** ** Properties *)

(** C13: a follower handles a request of a leader, where the logs of the two
    match and the follower, unless its term is later, has applied only operations
    of the log of the leader. It keeps its log in order, takes back nothing that
    it has applied and nothing that it has in common with the leader, and applies
    at most what the leader says is committed. Its response tells of the log as
    it is. If the response has no error, the follower is in the term of the
    leader and its log is that of the leader up to the place of the request, and
    past it if the request has operations. *)
Theorem update_replica_correct release RangeTimeLimit env L request timeout u s s' r :
  u ≠ EmptyString -> caller_uuid (header request) ≠ u -> log_ok L -> Z.of_nat (length L) < 2 ^ 63 -> request_of L request ->
  preceding_id request = last_op_id (take (Z.to_nat (index (preceding_id request))) L) -> replica_ok s -> logs_match L (mem s) ->
  (current_term_of s <= caller_term (header request) -> applied (rlog s) `prefix_of` L) ->
  UpdateReplica release RangeTimeLimit env timeout request s = Done (s', r) ->
  replica_ok s' /\ applied (rlog s) `prefix_of` applied (rlog s') /\
  Z.of_nat (length (applied (rlog s'))) <= Z.max (Z.of_nat (length (applied (rlog s)))) (index (request_committed request)) /\
  (∀ k, (k <= length (mem s))%nat -> take k (mem s) = take k L -> take k (mem s') = take k L) /\
  ∀ resp w, r = Ok (resp, w) -> resp = FillConsensusResponseOKUnlocked (status_error resp) s' /\
    (status_error resp = None -> current_term_of s' = caller_term (header request) /\
     ∃ k, (Z.to_nat (index (preceding_id request)) <= k)%nat /\ (request_ops request ≠ [] -> Z.to_nat (index (preceding_id request)) < k)%nat /\
       (k <= length L)%nat /\ take k (mem s') = take k L).
Proof.
  intros Hu Hcaller HL Hf Hreq Hid Hs Hm Hap E. pose proof (logs_match_agrees L request s HL Hm Hreq Hid Hap) as Hag.
  destruct (UpdateReplica_spec release RangeTimeLimit env (committed_config (cmeta_ (consensus s))) u Hu L HL Hf request Hreq Hcaller timeout s s' r Hs Hag E) as (Hs' & Heff & Hfill & _).
  assert (applied (rlog s) `prefix_of` applied (rlog s') /\
    Z.of_nat (length (applied (rlog s'))) <= Z.max (Z.of_nat (length (applied (rlog s)))) (index (request_committed request))) as [Hpre Hb].
  { destruct Heff as [r [El _] _|a w _ _ _ _ _ _ Ea _ _|r j n _ _ _ _ _ _ Hpre Hb _]; [rewrite El|rewrite Ea|]; split; (done || lia). }
  split; [done|]. split; [done|]. split; [done|]. split; [intros k; by apply (update_keeps_common L request s s' r)|].
  intros resp w ->. split; [by eapply Hfill|]. by apply (update_accepted L request s s' resp w).
Qed.

Definition sample_entry (t i : Z) : Operation := mkOperation (mkReplicateMsg (mkOpId t i) None) NO_OP 0 None MinimumOpId [].
Definition sample_replica : Replica := mkReplica (sample_voted "b") (mkLogState 1 MinimumOpId [] false false (mkImpl ∅) [] []).
Definition sample_update_request : UpdateRequest := mkUpdateRequest (mkConsensusRequestPB "a" 1 (Some 2000) 2001000) MinimumOpId [sample_entry 1 1] (mkOpId 1 1).
Definition sample_update_env : LogEnv :=
  mkLogEnv sample_env 0 2000 false (λ _, Ok tt) (λ _ _, true) (λ op, (op_hybrid_time op, op_payload op)) (Some (λ id, id)) (Ok tt).

Lemma update_replica_correct_witness :
  ∃ s' resp w, UpdateReplica false 1000 sample_update_env 1 sample_update_request sample_replica = Done (s', Ok (resp, w)) /\ status_error resp = None /\
    replica_ok s' /\ applied (rlog s') = [sample_entry 1 1].
Proof.
  assert (∃ s' resp w, UpdateReplica false 1000 sample_update_env 1 sample_update_request sample_replica = Done (s', Ok (resp, w)) /\ status_error resp = None /\
    applied (rlog s') = [sample_entry 1 1]) as (s' & resp & w & E & Hn & Happ) by (eexists _, _, _; split; [vm_compute; reflexivity|]; split; reflexivity).
  exists s', resp, w. split; [exact E|]. split; [exact Hn|]. split; [|exact Happ].
  refine (proj1 (update_replica_correct false 1000 sample_update_env [sample_entry 1 1] sample_update_request 1 "b" sample_replica s' _ _ _ _ _ _ _ _ _ _ E)); try done.
  - split; [intros [|k] e Hk; [by injection Hk as <-|done]|]. intros [|j] [|k] a b _ Ha Hb; try done. injection Ha as <-. by injection Hb as <-.
  - split; [split|..]; try done. by left.
  - intros _. apply prefix_nil.
Defined.

(** ** What the code allows

    Replicas in a term with operations that they have applied or that are
    pending. *)

Definition sample_holding (t : Z) (done waiting : list Operation) : Replica :=
  let last := last_op_id (done ++ waiting) in
  with_received last MinimumOpId
    (mkReplica (sample_node "b" EmptyString FOLLOWER t None MonoTime.Min)
       (mkLogState (index last + 1) (last_op_id done) ((λ op, mkRound 0 op kUnboundTerm) <$> waiting) false false (mkImpl ∅) (done ++ waiting) done)).

(** Without a [SafeOpIdWaiter], an operation that is not a write is compared with
    the term 0, and the waiter that does not exist is called. *)
Lemma apply_without_waiter :
  let env := mkLogEnv sample_env 0 2000 false (λ _, Ok tt) (λ _ _, true) (λ op, (op_hybrid_time op, op_payload op)) None (Ok tt) in
  AdvanceCommittedOpIdUnlocked false 1000 env (mkOpId 1 1) None (sample_holding 1 [] [sample_entry 1 1]) = Undefined.
Proof. vm_compute. reflexivity. Qed.

(** A pending election commits what is at an index, whatever its term. *)
Lemma pending_commit_other_term :
  ∃ s' r, DoStartElection false 1000 sample_update_env (mkLeaderElectionData true true (Some (mkOpId 2 1))) false (sample_holding 2 [] [sample_entry 1 1]) = Done (s', r) /\
    applied (rlog s') = [sample_entry 1 1].
Proof. eexists _, _. split; [vm_compute; reflexivity|reflexivity]. Qed.

(** So does a leader that hears late of a majority in an earlier term. *)
Lemma majority_of_other_term :
  ∃ s' r, UpdateMajorityReplicatedUnlocked false 1000 sample_update_env (mkOpId 1 2) (sample_holding 2 [sample_entry 2 1] [sample_entry 2 2]) = Done (s', r) /\
    applied (rlog s') = [sample_entry 2 1; sample_entry 2 2].
Proof. eexists _, _. split; [vm_compute; reflexivity|reflexivity]. Qed.

(** A request that is repeated is answered without waiting for the writes of the
    first one. *)
Lemma repeated_request_not_waited :
  ∃ s1 resp1 s2 resp2, UpdateReplica false 1000 sample_update_env 1 sample_update_request sample_replica = Done (s1, Ok (resp1, Some (mkOpId 1 1))) /\
    UpdateReplica false 1000 sample_update_env 1 sample_update_request s1 = Done (s2, Ok (resp2, None)) /\
    status_error resp2 = None /\ status_last_received_current_leader resp2 = mkOpId 1 1.
Proof. eexists _, _, _, _. split; [vm_compute; reflexivity|]. split; [vm_compute; reflexivity|]. split; reflexivity. Qed.

(** After operations were aborted, the last one that is left counts as received
    from the current leader. *)
Lemma aborted_as_received :
  ∃ s' req, CheckLeaderRequestUnlocked false 1000 sample_update_env (mkUpdateRequest (mkConsensusRequestPB "a" 2 None 0) (mkOpId 2 2) [] MinimumOpId)
      (sample_holding 2 [] [sample_entry 1 1; sample_entry 1 2]) = Done (s', Ok (Some PRECEDING_ENTRY_DIDNT_MATCH, req)) /\
    GetLastReceivedOpIdCurLeaderUnlocked s' = mkOpId 1 1.
Proof. eexists _, _. split; [vm_compute; reflexivity|reflexivity]. Qed.

(** A leader that takes back its first operation goes on from an id that is in no
    log. *)
Lemma cancelled_id_made_up :
  let '(s, id) := NewIdUnlocked (sample_holding 2 [] [sample_entry 1 1]) in
  ∃ s', CancelPendingOperation false id false s = Done s' /\ mem s' = [sample_entry 1 1] /\ GetLastReceivedOpIdUnlocked s' = mkOpId 2 1.
Proof. eexists. split; [vm_compute; reflexivity|]. split; reflexivity. Qed.

(** A first operation that was aborted in its term counts as committed. *)
Lemma aborted_no_op_ready :
  ∃ s', NonTxRoundReplicationFinished false sample_update_env (mkRound 0 (sample_entry 1 1) kUnboundTerm) (Error Aborted) (sample_holding 1 [] []) = Done s' /\
    leader_no_op_committed_ (rlog s') = true.
Proof. eexists. split; [vm_compute; reflexivity|reflexivity]. Qed.
