(* ===== verification/RaftLog.v ===== *)
(** * The log of Raft ([src/yb/consensus/raft_consensus.cc],
    [replica_state.cc], [consensus_queue.cc], [log_cache.cc])

    The replicas of a tablet with their logs, the queues of their leaders and
    the messages between them, and that all replicas apply the same operations
    in the same order. *)

From S2P Require Import Prelude MonoTime HybridTime Quorum RetryableRequests LeaderElection ConsensusMeta RaftElection ConsensusQueue LeaderLease RaftProtocol ReplicaLog.
Local Open Scope Z_scope.

(** ** Reading the log

    [LogCache::LookupOpId] and [LogCache::ReadOps] on a log [l], all of which is
    in the cache; [size] is [TotalByteSizeForMessage]. *)

Definition LogCache_LookupOpId (l : list Operation) (op_index : Z) : Result OpId :=
  if Z.of_nat (length l) + 1 <=? op_index then Error Incomplete
  else if op_index =? 0 then Ok MinimumOpId
  else match l !! Z.to_nat (op_index - 1) with
       | Some op => if 0 <? op_index then Ok (op_id op) else Error NotFound
       | None => Error NotFound
       end.

Fixpoint read_messages (size : Operation -> Z) (remaining_space : Z) (msgs acc : list Operation) : list Operation * bool :=
  match msgs with
  | [] => (acc, false)
  | m :: msgs =>
      let remaining_space := remaining_space - size m in
      if (remaining_space <? 0) && negb (bool_decide (length acc = 0%nat)) then (acc, true)
      else read_messages size remaining_space msgs (acc ++ [m])
  end.

(** The messages, the id of the operation before them, and whether there are
    more. *)
Definition LogCache_ReadOps (size : Operation -> Z) (after_op_index max_size_bytes : Z) (l : list Operation)
    : Result (list Operation * OpId * bool) :=
  match LogCache_LookupOpId l after_op_index with
  | Error c => Error c
  | Ok preceding_op =>
      let '(messages, more) :=
        if 0 <? max_size_bytes then read_messages size max_size_bytes (drop (Z.to_nat after_op_index) l) [] else ([], false) in
      Ok (messages, preceding_op, more)
  end.

(** The part of [RequestForPeer] that reads the log, for a peer that is new or
    not. *)
Definition read_request (size : Operation -> Z) (max_batch_size : Z) (caller : uuid) (is_new : bool) (r : peer_request) (l : list Operation)
    : Result UpdateRequest :=
  let header := mkConsensusRequestPB caller (request_caller_term r) (request_leader_lease_duration_ms r) (default 0 (request_ht_lease_expiration r)) in
  if is_new then Ok (mkUpdateRequest header (request_preceding_id r) [] (request_committed_index r))
  else match LogCache_ReadOps size (request_next_index r - 1) max_batch_size l with
       | Error c => Error c
       | Ok (messages, preceding_id, _) => Ok (mkUpdateRequest header preceding_id messages (request_committed_index r))
       end.

(** ** A leader and a follower

    What a leader with the log [L] in the term [T] knows of a follower, and what
    is on the way between them. *)

#[export] Instance PeerErrorCode_eq_dec : EqDecision PeerErrorCode.
Proof. solve_decision. Defined.

Inductive message : Type :=
| Request (r : UpdateRequest)
| Response (a : ConsensusResponsePB).

(** The operation with the id is in the log. *)
Definition has_id (l : list Operation) (id : OpId) : Prop := LogCache_LookupOpId l (index id) = Ok id.

(** What matters of a follower: its term, its log, the log on its disk, and the
    last operation from its leader. *)
Record follower : Type := mkFollower {
  f_term : Z;
  f_mem : list Operation;
  f_disk : list Operation;
  f_current : OpId
}.

(** What matters of a tracked peer. *)
Record peer_view : Type := mkPeerView {
  v_new : bool;
  v_next : Z;
  v_received : OpId;
  v_successful : bool
}.
Definition view (p : TrackedPeer) : peer_view := mkPeerView (is_new p) (next_index p) (last_received p) (is_last_exchange_successful p).

(** The follower has operations of this leader's term, or thinks so, that are not
    the leader's. *)
Definition unmatched (T : Z) (L : list Operation) (f : follower) : Prop :=
  f_term f = T /\ f_current f ≠ MinimumOpId /\ ¬ f_mem f `prefix_of` L.

Section exchange.
Context (T : Z) (L : list Operation) (acks : nat -> Prop).

(** What a response says is so. *)
Record response_ok (f : follower) (a : ConsensusResponsePB) : Prop := {
  rs_found : response_error_is_tablet_not_found a = None;
  rs_term : T <= f_term f;
  rs_bound : term (status_last_received a) = T -> index (status_last_received a) <= Z.of_nat (length L);
  rs_refused : status_error a = Some INVALID_TERM_RESPONSE -> T < f_term f;
  rs_acked : status_error a ≠ Some INVALID_TERM_RESPONSE -> has_id L (status_last_received a) -> acks (Z.to_nat (index (status_last_received a)));
  rs_current : status_error a ≠ Some INVALID_TERM_RESPONSE ->
    status_last_received_current_leader a = MinimumOpId \/ status_last_received_current_leader a = status_last_received a;
  rs_success : status_error a = None -> status_last_received_current_leader a ≠ MinimumOpId -> has_id L (status_last_received a);
  rs_conflict : status_error a ≠ Some INVALID_TERM_RESPONSE -> status_last_received_current_leader a ≠ MinimumOpId ->
    ¬ has_id L (status_last_received a) -> T < f_term f \/
    (1 <= index (status_last_received a) /\ conflict (f_disk f) L (Z.to_nat (index (status_last_received a) - 1)) /\
     (f_current f = MinimumOpId -> index (status_last_received a) <= Z.of_nat (length (f_mem f)) \/ f_mem f = []));
  rs_unmatched : unmatched T L f -> status_error a ≠ None /\ status_last_received_current_leader a = f_current f /\
    status_last_received a = f_current f /\ ¬ has_id L (f_current f) /\ index (f_current f) = Z.of_nat (length (f_mem f))
}.

(** What is counted for a peer is what it has acknowledged. *)
Definition good (p : peer_view) : Prop :=
  v_received p = MinimumOpId \/ (has_id L (v_received p) /\ acks (Z.to_nat (index (v_received p)))).

(** Of a peer whose last response had an error, it may be an operation that
    differs from the leader's. Then the peer is asked about it next, and cannot
    agree. *)
Record differs (f : follower) (p : peer_view) (w : option message) : Prop := {
  df_old : v_new p = false;
  df_next : v_next p = index (v_received p) + 1;
  df_index : 1 <= index (v_received p);
  df_conflict : conflict (f_disk f) L (Z.to_nat (index (v_received p) - 1));
  df_response : ∀ a, w = Some (Response a) -> status_error a ≠ Some INVALID_TERM_RESPONSE ->
    status_last_received_current_leader a ≠ MinimumOpId \/ status_last_received a = MinimumOpId;
  df_current : f_current f = MinimumOpId -> index (v_received p) <= Z.of_nat (length (f_mem f)) \/ f_mem f = []
}.

Record bad (f : follower) (p : peer_view) (w : option message) : Prop := {
  bd_failed : v_successful p = false;
  bd_term : T <= f_term f;
  bd_response : ∀ a, w = Some (Response a) -> status_error a ≠ None;
  bd_differs : T < f_term f \/ differs f p w
}.

Record exchange_ok (f : follower) (p : option peer_view) (w : option message) : Prop := {
  ex_log : f_mem f `prefix_of` f_disk f;
  ex_current : f_term f = T -> f_current f ≠ MinimumOpId -> f_mem f `prefix_of` L \/ (length (f_mem f) < length L)%nat;
  ex_next : ∀ v, p = Some v -> unmatched T L f -> v_new v = true \/ Z.of_nat (length (f_mem f)) + 1 <= v_next v;
  ex_request : ∀ r, w = Some (Request r) -> request_of L r /\ preceding_id r = last_op_id (take (Z.to_nat (index (preceding_id r))) L) /\
    caller_term (header r) = T /\ (unmatched T L f -> Z.of_nat (length (f_mem f)) <= index (preceding_id r)) /\
    ∀ v, p = Some v -> v_new v = true \/ v_next v = index (preceding_id r) + 1;
  ex_response : ∀ a, w = Some (Response a) -> response_ok f a;
  ex_peer : ∀ v, p = Some v -> good v \/ bad f v w
}.

End exchange.

(** *** Ids in a log *)

Lemma has_id_spec l id :
  has_id l id <-> id = MinimumOpId \/ (1 <= index id /\ ∃ op, l !! Z.to_nat (index id - 1) = Some op /\ op_id op = id).
Proof.
  unfold has_id, LogCache_LookupOpId. destruct (Z.leb_spec (Z.of_nat (length l) + 1) (index id)) as [Hge|Hlt].
  { split; [done|]. intros [->|(Hi & op & Hop%lookup_lt_Some & _)]; [cbn in Hge; lia|lia]. }
  destruct (Z.eqb_spec (index id) 0) as [H0|H0]; [split; [by intros [= <-]; left|intros [->|(? & _)]; [done|lia]]|].
  destruct (l !! Z.to_nat (index id - 1)) as [op|] eqn:Hop.
  - destruct (Z.ltb_spec 0 (index id)); [|split; [done|intros [->|(? & _)]; [done|lia]]]. split.
    + intros [= Hid]. right. split; [lia|]. by exists op.
    + intros [->|(_ & op' & [= <-] & ->)]; done.
  - split; [done|]. intros [->|(_ & op & ? & _)]; done.
Qed.

#[export] Instance has_id_dec l id : Decision (has_id l id).
Proof.
  unfold has_id. destruct (LogCache_LookupOpId l (index id)) as [x|c]; [|by right].
  destruct (decide (x = id)) as [->|Hne]; [by left|right; by intros [= ?]].
Defined.

Lemma has_id_min l : has_id l MinimumOpId.
Proof. apply has_id_spec. by left. Qed.

Lemma has_id_grow l l' id : l `prefix_of` l' -> has_id l id -> has_id l' id.
Proof. intros Hp. rewrite !has_id_spec. intros [?|(? & op & Hop & ?)]; [by left|right]. split; [done|]. exists op. split; [by eapply prefix_lookup_Some|done]. Qed.

Lemma has_id_index l id : has_id l id -> 0 <= index id <= Z.of_nat (length l).
Proof. rewrite has_id_spec. intros [->|(? & op & Hop%lookup_lt_Some & _)]; [cbn; lia|lia]. Qed.

(** The first operations with more are new. *)
Lemma has_id_grown l l' id :
  l `prefix_of` l' -> (∀ k op, (length l <= k)%nat -> l' !! k = Some op -> term (op_id op) = term id -> index id <= Z.of_nat (length l)) -> has_id l' id -> has_id l id.
Proof.
  intros Hp Hnew. rewrite !has_id_spec. intros [?|(Hi & op & Hop & Hid)]; [by left|right]. split; [done|]. exists op. split; [|done].
  destruct (decide (length l <= Z.to_nat (index id - 1))%nat) as [Hge|Hlt].
  - assert (index id <= Z.of_nat (length l)) by (apply (Hnew _ op Hge Hop); by rewrite Hid). lia.
  - rewrite <- Hop. symmetry. apply prefix_same_lookup; [done|lia].
Qed.

Lemma last_op_id_term_le (m : list Operation) T : 0 <= T -> (∀ e, e ∈ m -> term (op_id e) <= T) -> term (last_op_id m) <= T.
Proof. intros H0 Hm. unfold last_op_id. destruct (last m) as [e|] eqn:E; [|done]. by apply Hm, last_Some_elem_of. Qed.

Lemma last_op_id_min (m : list Operation) : log_ok m -> last_op_id m = MinimumOpId -> m = [].
Proof. intros Hm E. apply (f_equal index) in E. rewrite last_op_id_index in E by done. cbn in E. destruct m; [done|cbn in E; lia]. Qed.

Lemma prefix_has_last (m l : list Operation) : log_ok l -> m `prefix_of` l -> has_id l (last_op_id m).
Proof.
  intros Hl Hp. apply has_id_spec. destruct (last m) as [op|] eqn:E; [|left; unfold last_op_id; by rewrite E]. right.
  apply last_lookup_pred in E as Hop. pose proof (log_ok_prefix _ _ Hp Hl) as Hm. rewrite last_op_id_index by done.
  assert (0 < length m)%nat by (apply lookup_lt_Some in Hop; lia). split; [lia|]. exists op. split.
  - replace (Z.to_nat (Z.of_nat (length m) - 1)) with (length m - 1)%nat by lia. by eapply prefix_lookup_Some.
  - unfold last_op_id. by rewrite E.
Qed.

Lemma last_conflict (m l : list Operation) :
  log_ok m -> log_ok l -> (length m <= length l)%nat -> ¬ has_id l (last_op_id m) -> conflict m l (length m - 1) /\ m ≠ [].
Proof.
  intros Hm Hl Hle Hno. destruct (last m) as [a|] eqn:E; [|exfalso; apply Hno; unfold last_op_id; rewrite E; apply has_id_min].
  apply last_lookup_pred in E as Ha. assert (0 < length m)%nat as Hpos by (apply lookup_lt_Some in Ha; lia).
  destruct (lookup_lt_is_Some_2 l (length m - 1)%nat) as [b Hb]; [lia|]. split; [|by intros ->]. exists a, b. split; [done|]. split; [done|]. intros Et. apply Hno.
  apply has_id_spec. right. rewrite last_op_id_index by done. split; [lia|]. exists b. split; [by replace (Z.to_nat (Z.of_nat (length m) - 1)) with (length m - 1)%nat by lia|].
  unfold last_op_id. rewrite E. pose proof (lg_index _ Hm _ _ Ha) as Hia. pose proof (lg_index _ Hl _ _ Hb) as Hib.
  change (op_id_of a) with (op_id a) in *. change (op_id_of b) with (op_id b) in *. destruct (op_id a), (op_id b). cbn in *. congruence.
Qed.

(** *** Steps that keep what is known *)

Section exchange_steps.
Context (T : Z).

Lemma exchange_lose L acks f p w : exchange_ok T L acks f p w -> exchange_ok T L acks f p None.
Proof using.
  intros []. split; try done. intros v Hv. destruct (ex_peer0 v Hv) as [?|[Hs Ht _ Hd]]; [by left|right]. split; try done.
  destruct Hd as [?|[]]; [by left|right]. by split.
Qed.

Lemma exchange_untrack L acks f p w : exchange_ok T L acks f p w -> exchange_ok T L acks f None w.
Proof using. intros []. split; try done. intros r Hr. destruct (ex_request0 r Hr) as (? & ? & ? & ? & _). done. Qed.

Lemma exchange_track L acks f p w v :
  exchange_ok T L acks f p w -> v_new v = true -> v_received v = MinimumOpId -> exchange_ok T L acks f (Some v) w.
Proof using.
  intros [] Hn Hr. split; try done.
  - intros v' [= <-] _. by left.
  - intros r Hw. destruct (ex_request0 r Hw) as (? & ? & ? & ? & _). split; [done|]. split; [done|]. split; [done|]. split; [done|]. intros v' [= <-]. by left.
  - intros v' [= <-]. left. by left.
Qed.

(** The follower went on in another term. *)
Lemma exchange_other L acks f f' p w :
  exchange_ok T L acks f p w -> f_term f <= f_term f' -> f_term f' ≠ T -> f_mem f' `prefix_of` f_disk f' -> exchange_ok T L acks f' p w.
Proof using.
  intros [] Hle Hne Hp. assert (¬ unmatched T L f') as Hnu by (intros (? & _); done). split; try done.
  - intros r Hw. destruct (ex_request0 r Hw) as (? & ? & ? & _ & ?). done.
  - intros a Hw. destruct (ex_response0 a Hw). split; try done; [lia|intros; lia|]. intros _ _ _. left. lia.
  - intros v Hv. destruct (ex_peer0 v Hv) as [?|[Hs Ht Hr _]]; [by left|right]. split; try done; [lia|left; lia].
Qed.

(** The log of the follower is kept; it may have a new term. *)
Lemma exchange_silent L acks f f' p w :
  exchange_ok T L acks f p w -> f_mem f' = f_mem f -> f_disk f' = f_disk f ->
  (f_term f' = f_term f /\ f_current f' = f_current f \/ f_term f < f_term f' /\ f_current f' = MinimumOpId) -> exchange_ok T L acks f' p w.
Proof using.
  intros Hok Em Ed [[Et Ec]|[Ht Ec]].
  { destruct f, f'. cbn in *. by subst. }
  destruct (decide (f_term f' = T)) as [HT|HT]; [|eapply (exchange_other L acks f); [done|lia|done|rewrite Em, Ed; apply Hok]].
  assert (¬ unmatched T L f') as Hnu by (intros (_ & ? & _); done). destruct Hok. split; try done.
  - by rewrite Em, Ed.
  - intros r Hw. destruct (ex_request0 r Hw) as (? & ? & ? & _ & ?). done.
  - intros a Hw. destruct (ex_response0 a Hw). lia.
  - intros v Hv. destruct (ex_peer0 v Hv) as [?|[]]; [by left|lia].
Qed.

Lemma exchange_restart L acks f f' p w :
  exchange_ok T L acks f p w -> f_term f' = f_term f -> f_mem f' = f_disk f -> f_disk f' = f_disk f -> f_current f' = MinimumOpId -> exchange_ok T L acks f' p w.
Proof using.
  intros [] Et Em Ed Ec. assert (¬ unmatched T L f') as Hnu by (intros (_ & ? & _); done).
  assert (∀ k, conflict (f_disk f) L (Z.to_nat (k - 1)) -> 1 <= k -> k <= Z.of_nat (length (f_mem f'))) as Hlen.
  { intros k (a & b & Ha%lookup_lt_Some & _) Hk. rewrite Em. lia. }
  split; try done.
  - by rewrite Em, Ed.
  - intros r Hw. destruct (ex_request0 r Hw) as (? & ? & ? & _ & ?). done.
  - intros a Hw. destruct (ex_response0 a Hw). split; try done; rewrite ?Et; try done. intros H1 H2 H3. destruct (rs_conflict0 H1 H2 H3) as [?|(Hi & Hc & _)]; [by left|right].
    split; [done|]. rewrite Ed. split; [done|]. intros _. left. by apply Hlen.
  - intros v Hv. destruct (ex_peer0 v Hv) as [?|[Hs Ht Hr Hd]]; [by left|right]. split; try done; rewrite ?Et; try done. destruct Hd as [?|[]]; [by left|right].
    split; try done; rewrite ?Ed; try done. intros _. left. by apply Hlen.
Qed.

Lemma exchange_acks L (acks acks' : nat -> Prop) f p w : (∀ k, acks k -> acks' k) -> exchange_ok T L acks f p w -> exchange_ok T L acks' f p w.
Proof using.
  intros Hsub []. split; try done.
  - intros a Hw. destruct (ex_response0 a Hw). split; try done. intros H1 H2. by apply Hsub, rs_acked0.
  - intros v Hv. destruct (ex_peer0 v Hv) as [[?|[? ?]]|Hb]; [left; by left|left; right; split; [done|by apply Hsub]|by right].
Qed.

Lemma exchange_grow L L' acks f p w :
  L `prefix_of` L' -> (∀ k op, (length L <= k)%nat -> L' !! k = Some op -> term (op_id op) = T) -> exchange_ok T L acks f p w -> exchange_ok T L' acks f p w.
Proof using.
  intros Hp Hnew []. assert (∀ k l, conflict l L k -> conflict l L' k) as Hcon.
  { intros k l (a & b & Ha & Hb & Hne). exists a, b. split; [done|]. split; [by eapply prefix_lookup_Some|done]. }
  assert (unmatched T L' f -> unmatched T L f) as Hun. { intros (? & ? & Hn). split; [done|]. split; [done|]. intros Hm. apply Hn. by etrans. }
  pose proof (prefix_length _ _ Hp) as Hlen. split; try done.
  - intros Ht Hc. destruct (ex_current0 Ht Hc) as [?|?]; [left; by etrans|right; lia].
  - intros v Hv Hu. by apply (ex_next0 v Hv), Hun.
  - intros r Hw. destruct (ex_request0 r Hw) as ([Hpr Ho] & Hid & Ht & Hu & Hv). split; [split; [lia|]|].
    + destruct Hp as [x ->]. rewrite drop_app_le by lia. by apply prefix_app_r.
    + split; [|split; [done|]; split; [|done]].
      * rewrite Hid at 1. f_equal. destruct Hp as [x ->]. rewrite take_app_le by lia. done.
      * intros Hu'. by apply Hu, Hun.
  - intros a Hw. destruct (ex_response0 a Hw).
    assert (has_id L' (status_last_received a) -> has_id L (status_last_received a)) as Hback.
    { apply has_id_grown; [done|]. intros k op Hk Hop Ht. apply rs_bound0. rewrite <- Ht. by eapply Hnew. }
    split; try done.
    + intros Ht. specialize (rs_bound0 Ht). lia.
    + intros H1 H2. by apply rs_acked0, Hback.
    + intros H1 H2. by eapply has_id_grow, rs_success0.
    + intros H1 H2 H3. destruct (rs_conflict0 H1 H2) as [?|(? & ? & ?)]; [intros H4; by apply H3, (has_id_grow L)|by left|right]. split; [done|]. split; [by apply Hcon|done].
    + intros Hu. destruct (rs_unmatched0 (Hun Hu)) as (? & ? & E & Hno & ?). split; [done|]. split; [done|]. split; [done|]. split; [|done]. intros H4. apply Hno. rewrite <- E. apply Hback. by rewrite E.
  - intros v Hv. destruct (ex_peer0 v Hv) as [[?|[? ?]]|[Hs Ht Hr Hd]]; [left; by left|left; right; split; [by apply (has_id_grow L)|done]|right].
    split; try done. destruct Hd as [?|[]]; [by left|right]. split; try done. by apply Hcon.
Qed.

End exchange_steps.

(** *** Requests and responses *)

Lemma exchange_answer T L acks f p a :
  exchange_ok T L acks f p None -> response_ok T L acks f a ->
  (∀ v, p = Some v -> good L acks v \/ (bad T L f v None -> status_error a ≠ None /\
     (T < f_term f \/ status_last_received_current_leader a ≠ MinimumOpId \/ status_last_received a = MinimumOpId))) ->
  exchange_ok T L acks f p (Some (Response a)).
Proof.
  intros [] Ha Hbad. split; try done; [by intros x [= <-]|]. intros v Hv. destruct (ex_peer0 v Hv) as [?|Hb]; [by left|]. destruct (Hbad v Hv) as [?|[He Hc]%(λ H, H Hb)]; [by left|right].
  destruct Hb as [? ? _ Hd]. split; try done; [by intros x [= <-]|]. destruct Hd as [?|[]]; [by left|]. destruct Hc as [?|Hc]; [by left|right]. split; try done. by intros x [= <-].
Qed.

Lemma exchange_send T L acks f v w r :
  exchange_ok T L acks f (Some v) w -> request_of L r -> preceding_id r = last_op_id (take (Z.to_nat (index (preceding_id r))) L) ->
  caller_term (header r) = T -> (v_new v = true /\ index (preceding_id r) = Z.of_nat (length L) \/ v_new v = false /\ v_next v = index (preceding_id r) + 1) ->
  exchange_ok T L acks f (Some v) (Some (Request r)).
Proof.
  intros Hok Hr Hid Ht Hv. apply exchange_lose in Hok. destruct Hok. split; try done.
  - intros r' [= <-]. split; [done|]. split; [done|]. split; [done|]. split.
    + intros Hu. destruct Hv as [[_ ->]|[Hn Hv]].
      * destruct Hu as (Hft & Hc & Hm). destruct (ex_current0 Hft Hc); [done|lia].
      * destruct (ex_next0 v eq_refl Hu); [congruence|lia].
    + intros v' [= <-]. destruct Hv as [[? _]|[_ ?]]; auto.
  - intros v' [= <-]. destruct (ex_peer0 v eq_refl) as [?|[Hs Hft _ Hd]]; [by left|right]. split; try done. destruct Hd as [?|[]]; [by left|right]. by split.
Qed.

(** A tracked peer after a response, without a lease. *)
Definition answered (L : list Operation) (a : ConsensusResponsePB) (v v' : peer_view) : Prop :=
  v_new v' = false /\ v_successful v' = bool_decide (status_error a = None) /\
  (has_id L (status_last_received a) /\ v_received v' = status_last_received a /\ v_next v' = index (v_received v') + 1 \/
   ¬ has_id L (status_last_received a) /\ status_last_received_current_leader a ≠ MinimumOpId /\
     v_received v' = status_last_received_current_leader a /\ v_next v' = index (v_received v') + 1 \/
   ¬ has_id L (status_last_received a) /\ status_last_received_current_leader a = MinimumOpId /\ v_received v' = v_received v).

Lemma exchange_respond T L acks f v v' a :
  exchange_ok T L acks f (Some v) (Some (Response a)) -> answered L a v v' -> exchange_ok T L acks f (Some v') None.
Proof.
  intros [Hlog Hcur Hnext _ Hres Hpeer] (Hnew & Hsuc & Hcase). destruct (Hres a eq_refl). split; try done.
  - intros x [= <-] Hu. right. destruct (rs_unmatched0 Hu) as (He & Ec & El & Hno & Hi). rewrite El in Hcase.
    destruct Hcase as [(? & _)|[(_ & _ & E1 & E2)|(_ & E1 & _)]]; [done| |].
    + rewrite E2, E1, Ec, Hi. lia.
    + destruct Hu as (_ & Hc & _). congruence.
  - intros x [= <-]. destruct (decide (status_error a = Some INVALID_TERM_RESPONSE)) as [Hinv|Hinv].
    { right. rewrite Hinv in Hsuc. split; [done|done|done|left; auto]. }
    destruct Hcase as [(Hid & E1 & E2)|[(Hno & Hc & E1 & E2)|(Hno & Hc & E1)]].
    + left. right. rewrite E1. split; [done|]. by apply rs_acked0.
    + destruct (rs_current0 Hinv) as [?|Ecl]; [done|]. right. destruct (decide (status_error a = None)) as [Hn|Hn].
      { exfalso. by apply Hno, rs_success0. }
      rewrite bool_decide_eq_false_2 in Hsuc by done. split; try done. destruct (rs_conflict0 Hinv Hc Hno) as [?|(Hi & Hcf & Hcm)]; [by left|right].
      split; rewrite ?E1, ?Ecl; try done. by rewrite E2, E1, Ecl.
    + destruct (Hpeer v eq_refl) as [Hg|[Hs Ht Hr Hd]]; [left; unfold good in *; by rewrite E1|]. right.
      assert (status_error a ≠ None) as Hn by (by apply (Hr a)). rewrite bool_decide_eq_false_2 in Hsuc by done. split; try done. left.
      destruct Hd as [?|[]]; [done|]. destruct (df_response0 a eq_refl Hinv) as [?|Hm]; [done|]. exfalso. apply Hno. rewrite Hm. apply has_id_min.
Qed.

(** What a follower does with a request, and its response. *)
Definition silent (f f' : follower) : Prop :=
  f_mem f' = f_mem f /\ f_disk f' = f_disk f /\
  (f_term f' = f_term f /\ f_current f' = f_current f \/ f_term f < f_term f' /\ f_current f' = MinimumOpId).

Abbreviation preceding_index r := (Z.to_nat (index (preceding_id r))).

Inductive handled (T : Z) (L : list Operation) (r : UpdateRequest) (f f' : follower) : option ConsensusResponsePB -> Prop :=
| hd_failed : silent f f' -> handled T L r f f' None
| hd_invalid a : silent f f' -> T < f_term f' -> status_error a = Some INVALID_TERM_RESPONSE -> handled T L r f f' (Some a)
| hd_behind a :
    silent f f' -> f_term f' = T -> Z.of_nat (length (f_mem f)) < index (preceding_id r) -> status_error a = Some PRECEDING_ENTRY_DIDNT_MATCH ->
    handled T L r f f' (Some a)
| hd_mismatch a :
    f_term f <= T -> f_term f' = T -> 1 <= index (preceding_id r) -> conflict (f_mem f) L (preceding_index r - 1) ->
    f_mem f' = take (preceding_index r - 1) (f_mem f) -> f_disk f' = f_disk f -> f_current f' = last_op_id (f_mem f') ->
    status_error a = Some PRECEDING_ENTRY_DIDNT_MATCH -> handled T L r f f' (Some a)
| hd_accepted a :
    f_term f <= T -> f_term f' = T -> take (preceding_index r) (f_mem f) = take (preceding_index r) L -> f_mem f' `prefix_of` L ->
    (∀ x, a = Some x -> status_error x ≠ Some INVALID_TERM_RESPONSE) -> handled T L r f f' a
| hd_known a :
    f_term f <= T -> f_term f' = T -> silent f f' -> take (preceding_index r) (f_mem f) = take (preceding_index r) L ->
    (length (f_mem f) <= preceding_index r -> f_mem f `prefix_of` L)%nat ->
    (∀ x, a = Some x -> status_error x ≠ Some INVALID_TERM_RESPONSE) -> handled T L r f f' a.

Section handle.
Context (T : Z) (L : list Operation) (acks acks' : nat -> Prop) (f f' : follower) (p : option peer_view) (r : UpdateRequest).
Context (HL : log_ok L) (Hex : exchange_ok T L acks f p (Some (Request r))) (Hacks : ∀ k, acks k -> acks' k).
Context (Hm' : log_ok (f_mem f')) (Hp' : f_mem f' `prefix_of` f_disk f') (Hterm' : term (last_op_id (f_mem f')) = T -> (length (f_mem f') <= length L)%nat).
Context (Hack' : f_term f' = T -> has_id L (last_op_id (f_mem f')) -> acks' (length (f_mem f'))).
Context (Hmatch : f_mem f' `prefix_of` L <-> has_id L (last_op_id (f_mem f'))).
Context (Hcur' : f_current f' = MinimumOpId \/ f_current f' = last_op_id (f_mem f')).

(** The response tells of the follower as it is. *)
Definition fills (a : ConsensusResponsePB) : Prop :=
  response_error_is_tablet_not_found a = None /\ status_last_received a = last_op_id (f_mem f') /\ status_last_received_current_leader a = f_current f'.

Lemma fills_ok a :
  fills a -> T <= f_term f' -> (status_error a = Some INVALID_TERM_RESPONSE -> T < f_term f') ->
  (status_error a ≠ Some INVALID_TERM_RESPONSE -> f_term f' = T) ->
  (status_error a = None -> f_current f' ≠ MinimumOpId -> f_mem f' `prefix_of` L) ->
  (f_term f' = T -> f_current f' ≠ MinimumOpId -> f_mem f' `prefix_of` L \/ (length (f_mem f') < length L)%nat) ->
  response_ok T L acks' f' a.
Proof using HL Hm' Hp' Hterm' Hack' Hmatch Hcur'.
  intros (Ef & El & Ec) Ht Hinv Hnin Hsuc Hlen. pose proof (last_op_id_index _ Hm') as Hi. split; rewrite ?El, ?Ec; try done.
  - intros Htt. rewrite Hi. specialize (Hterm' Htt). lia.
  - intros H1 H2. rewrite Hi, Nat2Z.id. auto.
  - intros H1 H2. apply Hmatch. by apply Hsuc.
  - intros H1 H2 H3. right. destruct (Hlen (Hnin H1) H2) as [Hpre|Hlt]; [by apply Hmatch in Hpre|].
    destruct (last_conflict _ _ Hm' HL) as [Hc Hne]; [lia|done|]. rewrite Hi. assert (0 < length (f_mem f'))%nat by (destruct (f_mem f'); [done|cbn; lia]).
    split; [lia|]. split; [|done]. replace (Z.to_nat (Z.of_nat (length (f_mem f')) - 1)) with (length (f_mem f') - 1)%nat by lia.
    by eapply conflict_prefix.
  - intros (Htt & Hc & Hnp). destruct Hcur' as [?|E]; [done|]. split; [intros Hn; apply Hnp; by apply Hsuc|]. split; [done|]. split; [done|].
    rewrite E. split; [by rewrite <- Hmatch|]. by rewrite Hi.
Qed.

(** A peer that differs at the operation before the request does not accept. *)
Lemma accepted_good v :
  p = Some v -> f_term f <= T -> take (preceding_index r) (f_mem f) = take (preceding_index r) L -> good L acks' v.
Proof using Hex Hacks.
  clear Hm' Hp' Hterm' Hack' Hmatch Hcur'. intros Hv Hle Htake. destruct Hex as [Hlog _ _ Hreq _ Hpeer]. destruct (Hpeer v Hv) as [[?|[? ?]]|[_ Ht _ Hd]]; [by left|right; split; [done|by apply Hacks]|exfalso].
  destruct Hd as [?|[Hnew Hnext Hi (a & b & Ha & Hb & Hne) _ _]]; [lia|]. destruct (Hreq r eq_refl) as ([Hpr _] & _ & _ & _ & Hv'). destruct (Hv' v Hv) as [?|E]; [congruence|].
  assert (index (v_received v) = index (preceding_id r)) as Ei by lia. rewrite Ei in *. set (k := Z.to_nat (index (preceding_id r) - 1)) in *.
  assert (f_mem f !! k = L !! k) as Ek.
  { rewrite <- (lookup_take_lt (f_mem f) (preceding_index r)) by (unfold k; lia). rewrite Htake. apply lookup_take_lt. unfold k. lia. }
  rewrite Hb in Ek. pose proof (prefix_lookup_Some _ _ _ _ Ek Hlog). congruence.
Qed.

Lemma exchange_update a :
  handled T L r f f' a -> (∀ x, a = Some x -> fills x) -> exchange_ok T L acks' f' p (Response <$> a).
Proof using Hex Hacks HL Hm' Hp' Hterm' Hack' Hmatch Hcur'.
  intros Hh Hfill. pose proof Hex as [_ Hcur Hnext Hreq _ Hpeer]. destruct (Hreq r eq_refl) as ([Hpr _] & _ & _ & Hu & Hv).
  assert (silent f f' -> exchange_ok T L acks' f' p None) as Hsil.
  { intros (Em & Ed & Hc). eapply exchange_acks; [done|]. eapply (exchange_silent T L acks f); [eapply exchange_lose, Hex|done..]. }
  assert (f_term f <= T -> take (preceding_index r) (f_mem f) = take (preceding_index r) L -> f_term f' = T -> exchange_ok T L acks' f' p None ->
    (f_current f' ≠ MinimumOpId -> f_mem f' `prefix_of` L) -> (∀ x, a = Some x -> status_error x ≠ Some INVALID_TERM_RESPONSE) ->
    exchange_ok T L acks' f' p (Response <$> a)) as Hgood.
  { intros Hle Htake Ht Hok Hcp Hni. destruct a as [x|]; [|done]. apply exchange_answer; [done| |intros v Hpv; left; by apply accepted_good].
    apply fills_ok; auto; [lia|]. intros He. by apply Hni in He. }
  destruct Hh as [Hs|x Hs Ht He|x Hs Ht Hlen He|x Hle Ht H1 Hc Em Ed Ec He|a Hle Ht Htake Hp He|a Hle Ht Hs Htake Hshort He].
  - by apply Hsil.
  - apply exchange_answer; [by apply Hsil| |].
    + apply fills_ok; auto; rewrite ?He; try done; [lia|intros; lia].
    + intros v Hpv. right. intros _. split; [by rewrite He|by left].
  - pose proof (Hsil Hs) as Hok. apply exchange_answer; [done| |].
    + apply fills_ok; auto; rewrite ?He; try done; [lia|]. apply Hok.
    + intros v Hpv. right. intros [_ _ _ [?|[Hvn Hvx Hvi _ _ Hvc]]]; [lia|]. split; [by rewrite He|]. right. destruct (Hfill x eq_refl) as (_ & -> & ->).
      destruct (decide (f_current f' = MinimumOpId)) as [E|E]; [|by left]. right. destruct (Hv v Hpv) as [?|E']; [congruence|]. destruct Hs as (Em & _ & _).
      destruct (Hvc E) as [?| ->]; [rewrite Em in *; lia|done].
  - apply exchange_answer; [|apply fills_ok; auto; rewrite ?He; try done; [lia|]; intros _ _; right; rewrite Em, length_take; lia|].
    + split; try done.
      * intros _ _. right. rewrite Em, length_take. lia.
      * intros v Hpv _. destruct (Hv v Hpv) as [?|E]; [by left|right]. rewrite E, Em, length_take. lia.
      * intros v Hpv. destruct (Hpeer v Hpv) as [[?|[? ?]]|[Hb1 Hb2 _ Hd]]; [left; by left|left; right; auto|right]. split; try done; [lia|]. destruct Hd as [?|[]]; [lia|right].
        split; try done; [by rewrite Ed|]. intros E. right. rewrite Ec in E. by apply last_op_id_min.
    + intros v Hpv. right. intros _. split; [by rewrite He|]. right. destruct (Hfill x eq_refl) as (_ & -> & ->). rewrite Ec.
      destruct (decide (last_op_id (f_mem f') = MinimumOpId)); auto.
  - apply Hgood; auto. split; try done.
    + auto.
    + by intros v _ (_ & _ & ?).
    + intros v Hpv. left. by apply accepted_good.
  - pose proof (Hsil Hs) as Hok. apply Hgood; auto. intros Hc'. apply Hmatch. destruct (decide (has_id L (last_op_id (f_mem f')))) as [|Hno]; [done|exfalso].
    destruct Hs as (Em & _ & [[Et Ec]|[_ ?]]); [|done]. rewrite Em in *. apply Hno, Hmatch, Hshort.
    assert (Z.of_nat (length (f_mem f)) <= index (preceding_id r)); [|lia]. apply Hu. split; [congruence|]. split; [congruence|]. by rewrite Hmatch.
Qed.

End handle.

(** *** From the code of a follower *)

Definition follower_of (s : Replica) : follower := mkFollower (current_term_of s) (mem s) (log_ (rlog s)) (GetLastReceivedOpIdCurLeaderUnlocked s).
Definition response_of (r : Result (ConsensusResponsePB * option OpId)) : option ConsensusResponsePB :=
  match r with Ok (resp, _) => Some resp | Error _ => None end.

Lemma log_same_silent s s' : log_same s s' -> silent (follower_of s) (follower_of s').
Proof.
  intros Hl. pose proof (log_same_mem _ _ Hl) as Em. destruct Hl as [El [_ Hc]]. split; [done|]. split; [cbn; by rewrite El|]. cbn.
  destruct Hc as [[? ?]|[? ?]]; [by left|by right].
Qed.

Lemma update_handled L r s s' res :
  log_ok L -> request_of L r -> preceding_id r = last_op_id (take (preceding_index r) L) -> agrees L r s -> update_effect L r s s' res ->
  handled (caller_term (header r)) L r (follower_of s) (follower_of s') (response_of res).
Proof.
  intros HL [Hp Ho] Hid Hag Hu. destruct Hu as [res Hl Hr|a w Hle Ht Hge Ha Hta Em Eap Elo Ec|res j n Hle Ht Hpm Hjn Hkn Hcase _ _ Hst].
  - apply log_same_silent in Hl. destruct res as [[resp w]|c]; [|by apply hd_failed]. destruct (Hr resp w eq_refl) as [[He Ht]|(He & Ht & Hlen)]; [by apply hd_invalid|by apply hd_behind].
  - replace (Z.to_nat (index (preceding_id r) - 1)) with (preceding_index r - 1)%nat in * by lia. apply hd_mismatch; try done.
    destruct (preceding_lookup L (preceding_id r)) as (b & Hb & Eb); [done|lia|done|]. exists a, b. split; [done|].
    split; [by replace (preceding_index r - 1)%nat with (Z.to_nat (index (preceding_id r) - 1)) by lia|]. change (term (op_id a) ≠ term (op_id b)). by rewrite Eb.
  - assert (take (preceding_index r + j) (mem s) = take (preceding_index r + j) L) as Htake by (apply Hag; [done|lia|done|done]).
    assert (take (preceding_index r) (mem s) = take (preceding_index r) L) as Htake0.
    { assert (∀ l : list Operation, take (preceding_index r) (take (preceding_index r + j) l) = take (preceding_index r) l) as Htt by (intros l; rewrite take_take; f_equal; lia).
      by rewrite <- (Htt (mem s)), Htake, Htt. }
    assert (∀ x, response_of res = Some x -> status_error x ≠ Some INVALID_TERM_RESPONSE) as Hni.
    { intros x Hx. destruct res as [[resp w]|c]; [|done]. injection Hx as <-. destruct (Hst resp w eq_refl) as [->| ->]; done. }
    destruct (request_ops r !! j) as [op|] eqn:Eop.
    + destruct Hcase as (Em & _). apply hd_accepted; try done. cbn. rewrite Em. apply prefix_take.
    + destruct Hcase as (Em & El & [_ Hr]). apply hd_known; try done.
      * split; [done|]. split; [done|]. cbn. destruct Hr as [[? ?]|[? ?]]; [by left|by right].
      * cbn. intros Hlen. rewrite take_ge in Htake0 by done. rewrite Htake0. apply prefix_take.
Qed.

(** What a replica has agrees with a leader where it has an operation of the
    leader, since each operation came with all before it. *)
Lemma agrees_intro (PL : gmap Z (leadership Operation)) L r s :
  log_ok L -> from_leaders PL L -> from_leaders PL (mem s) -> request_of L r -> preceding_id r = last_op_id (take (preceding_index r) L) ->
  (current_term_of s <= caller_term (header r) -> applied (rlog s) `prefix_of` L) -> agrees L r s.
Proof.
  intros HL HfL Hfm Hr Hid Hap. apply logs_match_agrees; try done. intros k a b Ha Hb E. by apply (log_matching PL _ _ _ a b).
Qed.

(** ** Responses and the queue of a leader *)

Section queue.
Context (release : bool).

(** The queue looks ids up in the log of the leader. *)
Definition reads_log (env : QueueEnv) (l : list Operation) : Prop := ∀ i, LookupOpId env i = LogCache_LookupOpId l i.

Lemma IsOpInLog_has_id env l id b : reads_log env l -> IsOpInLog env id = Done b -> (b = true <-> has_id l id).
Proof using.
  intros Hr. unfold IsOpInLog, has_id. rewrite Hr. destruct (LogCache_LookupOpId l (index id)) as [x|[]]; try done; intros [= <-]; [|split; done..].
  split.
  - intros E. f_equal. unfold OpIdEquals in E. destruct id, x. cbn in E. apply andb_true_iff in E as [->%Z.eqb_eq ->%Z.eqb_eq]. done.
  - intros [= ->]. unfold OpIdEquals. by rewrite !Z.eqb_refl.
Qed.

Lemma peer_status_answered env l a type p p' :
  reads_log env l -> peer_status release env a type p = Done p' ->
  v_new (view p') = false /\ v_successful (view p') = is_last_exchange_successful p /\ ∀ ok, ok = bool_decide (status_error a = None) -> answered l a (view p) (view (with_exchange ok p')).
Proof using.
  intros Hr E. unfold peer_status in E. apply outcome_bind_Done in E as (b & Eb & E). apply (IsOpInLog_has_id env l) in Eb; [|done].
  apply outcome_bind_Done in E as ([received next] & E1 & [= <-]). split; [done|]. split; [done|]. intros ok ->. split; [done|]. split; [done|]. cbn. destruct b.
  - injection E1 as <- <-. left. split; [by apply Eb|done].
  - assert (¬ has_id l (status_last_received a)) as Hno by (intros H%Eb; done). destruct (OpIdEquals (status_last_received_current_leader a) MinimumOpId) eqn:Em; cbn [negb] in E1.
    + apply outcome_bind_Done in E1 as (_ & _ & [= <- <-]). right. right. split; [done|]. split; [|done].
      unfold OpIdEquals in Em. destruct (status_last_received_current_leader a). cbn in Em. apply andb_true_iff in Em as [->%Z.eqb_eq ->%Z.eqb_eq]. done.
    + injection E1 as <- <-. right. left. split; [done|]. split; [|done]. intros Ec. by rewrite Ec in Em.
Qed.

(** The parts of the queue that are not about one peer. *)
Definition same_state (q q' : PeerMessageQueue) : Prop :=
  last_appended (queue_state_ q') = last_appended (queue_state_ q) /\ queue_current_term (queue_state_ q') = queue_current_term (queue_state_ q) /\
  committed_index (queue_state_ q') = committed_index (queue_state_ q).

Definition view_of (q : PeerMessageQueue) (u : uuid) : option peer_view := view <$> peers_map_ q !! u.

Lemma view_insert q u p w : view_of (with_peer u p q) w = if decide (w = u) then Some (view p) else view_of q w.
Proof using. unfold view_of, with_peer, with_peers. cbn. destruct (decide (w = u)) as [->|Hne]; [by rewrite lookup_insert_eq|by rewrite lookup_insert_ne]. Qed.

Lemma watermark_value {V} (policy : Policy V) q w :
  GetWatermark release policy q = Done w -> w = Policy_Min policy \/ w = Policy_Max policy \/
  ∃ u p, peers_map_ q !! u = Some p /\ is_last_exchange_successful p = true /\ w = ExtractValue policy p.
Proof using.
  intros E. unfold GetWatermark in E. destruct (_ =? _); [injection E as <-; by left|]. apply outcome_bind_Done in E as (_ & _ & E).
  destruct (_ <? _); [injection E as <-; by left|]. destruct (_ =? _); [injection E as <-; right; by left|].
  destruct (queue_active_config (queue_state_ q)) as [config|]; [|done]. destruct (_ <? _); [injection E as <-; by left|].
  apply outcome_bind_Done in E as (_ & _ & E). destruct (merge_sort _ _ !! _) as [v|] eqn:Ev; [|done]. injection E as <-. right. right.
  apply list_elem_of_lookup_2 in Ev. rewrite merge_sort_Permutation in Ev. apply list_elem_of_fmap in Ev as (p & -> & Hp).
  apply elem_of_List_filter in Hp as [Hp Hc]. apply list_elem_of_fmap in Hp as ([u p'] & -> & Hp%elem_of_map_to_list). exists u, p'. split; [done|]. split; [|done].
  unfold counts in Hc. by apply andb_true_iff in Hc as [_ ?].
Qed.

(** What is replicated by a majority is what it was, or what a peer has. *)
Lemma update_majority_view u p q q' d :
  peers_map_ q !! u = Some p -> update_majority_replicated release u p q = Done (q', d) ->
  (∀ w, view_of q' w = view_of q w) /\ same_state q q' /\
  (majority_op_id d = majority_replicated_opid (queue_state_ q) \/
   ∃ w v, view_of q' w = Some v /\ (v_successful v = true \/ w = local_peer_uuid_ q) /\ majority_op_id d = v_received v).
Proof using.
  intros Hp E. unfold update_majority_replicated in E. apply outcome_bind_Done in E as (new & En & E). apply outcome_bind_Done in E as (q1 & E1 & E).
  apply outcome_bind_Done in E as (lease & _ & E). apply outcome_bind_Done in E as (ht & _ & [= <- <-]).
  assert (peers_map_ q1 = peers_map_ q /\ same_state q q1) as [P1 S1].
  { destruct (OpIdEquals _ _); [by injection E1 as <-|]. destruct (_ =? _); [|by injection E1 as <-]. destruct (peers_map_ q !! local_peer_uuid_ q); [|done]. by injection E1 as <-. }
  assert (∀ w, view_of (with_peer u (leases_received p) q1) w = view_of q w) as Hview.
  { intros w. rewrite view_insert. unfold view_of. rewrite P1. destruct (decide (w = u)) as [->|]; [by rewrite Hp|done]. }
  split; [done|]. split; [done|]. cbn [majority_op_id with_peer with_peers queue_state_].
  destruct (OpIdEquals new MinimumOpId) eqn:Emin; [injection E1 as <-; by left|right].
  destruct (Z.eqb_spec (index new) (index MaximumOpId)) as [Emax|Emax].
  - destruct (peers_map_ q !! local_peer_uuid_ q) as [local|] eqn:El; [|done]. injection E1 as <-. exists (local_peer_uuid_ q), (view local).
    split; [rewrite Hview; unfold view_of; by rewrite El|]. split; [by right|done].
  - injection E1 as <-. apply watermark_value in En as [->|[->|(w & x & Hx & Hs & ->)]]; [done|done|]. exists w, (view x).
    split; [rewrite Hview; unfold view_of; by rewrite Hx|]. split; [by left|done].
Qed.

Lemma ResponseFromPeer_view env l u a q q' more notes :
  reads_log env l -> response_error_is_tablet_not_found a = None -> ResponseFromPeer release env u a q = Done (q', more, notes) ->
  same_state q q' /\ (∀ w, w ≠ u -> view_of q' w = view_of q w) /\
  (view_of q' u = view_of q u \/ ∃ v v', view_of q u = Some v /\ view_of q' u = Some v' /\ answered l a v v') /\
  (majority_replicated_opid (queue_state_ q') = majority_replicated_opid (queue_state_ q) /\ (∀ d, MajorityReplOpChange d ∉ notes) \/
   ∃ d, notes = [MajorityReplOpChange d] /\
     (majority_op_id d = majority_replicated_opid (queue_state_ q) \/
      ∃ w v, view_of q' w = Some v /\ (v_successful v = true \/ w = local_peer_uuid_ q) /\ majority_op_id d = v_received v)).
Proof using.
  intros Hr Hf E. unfold ResponseFromPeer in E. apply outcome_bind_Done in E as (_ & _ & E).
  assert (∀ d, MajorityReplOpChange d ∉ []) as Hnil by (intros d; apply not_elem_of_nil).
  destruct (bool_decide (state (queue_state_ q) = kQueueOpen)), (peers_map_ q !! u) as [p|] eqn:Hp; try (injection E as <- _ <-; split; [done|]; split; [done|]; split; [by left|by left]).
  rewrite Hf in E. apply outcome_bind_Done in E as (type & _ & E). apply outcome_bind_Done in E as (p1 & Ep1 & E).
  apply (peer_status_answered env l) in Ep1 as (_ & _ & Hans); [|done]. assert (view_of q u = Some (view p)) as Hvu by (unfold view_of; by rewrite Hp).
  assert (∀ x, view_of (with_peer u x q) u = Some (view x) /\ ∀ w, w ≠ u -> view_of (with_peer u x q) w = view_of q w) as Hins.
  { intros x. split; [|intros w Hw]; rewrite view_insert; [by rewrite decide_True|by rewrite decide_False]. }
  destruct (status_error a) as [[]|] eqn:He; [| |done|].
  1: injection E as <- _ <-. 2: destruct (response_responder_term a); [injection E as <- _ <-|done].
  1,2: destruct (Hins (with_exchange false p1)) as [H1 H2]; split; [done|]; split; [done|]; split;
    [right; eexists _, _; split; [done|]; split; [exact H1|]; by apply Hans|left; split; [done|]; first [done|by intros d ?%list_elem_of_singleton]].
  apply outcome_bind_Done in E as (p2 & Ep2 & E). assert (view p2 = view (with_exchange true p1)) as Ev2.
  { destruct (response_responder_term a); [|by injection Ep2 as <-]. apply outcome_bind_Done in Ep2 as (_ & _ & Ep2). apply outcome_bind_Done in Ep2 as (_ & _ & [= <-]). done. }
  set (q2 := with_peer u p2 q) in E. destruct (Hins p2) as [H1 H2]. fold q2 in H1, H2.
  apply outcome_bind_Done in E as ([q3 n3] & E3 & E). apply outcome_bind_Done in E as (q4 & E4 & [= <- _ <-]).
  assert (peers_map_ q4 = peers_map_ q3 /\ same_state q3 q4 /\ majority_replicated_opid (queue_state_ q4) = majority_replicated_opid (queue_state_ q3)) as (P4 & S4 & M4).
  { unfold UpdateAllReplicatedOpId in E4. destruct (least_received _ _); [|by injection E4 as <-]. by apply outcome_bind_Done in E4 as (_ & _ & [= <-]). }
  assert (∀ w, view_of q4 w = view_of q3 w) as V4 by (intros w; unfold view_of; by rewrite P4).
  assert (answered l a (view p) (view p2)) as Ha2 by (rewrite Ev2; by apply Hans).
  change (mode (queue_state_ q2)) with (mode (queue_state_ q)) in E3. destruct (mode (queue_state_ q)).
  - apply outcome_bind_Done in E3 as ([q5 d] & E5 & [= <- <-]). destruct (update_majority_view u p2 q2 q5 d) as (V5 & S5 & Hmaj); [apply lookup_insert_eq|done|].
    split; [destruct S4 as (? & ? & ?), S5 as (? & ? & ?); split; [|split]; cbn in *; congruence|]. split; [intros w Hw; rewrite V4, V5; by apply H2|].
    split; [right; exists (view p), (view p2); split; [done|]; split; [by rewrite V4, V5|done]|]. right. exists d. split; [done|].
    destruct Hmaj as [?|(w & v & Hw & ?)]; [by left|right]. exists w, v. by rewrite V4.
  - injection E3 as <- <-. split; [done|]. split; [intros w Hw; rewrite V4; by apply H2|]. split; [right; exists (view p), (view p2); split; [done|]; split; [by rewrite V4|done]|]. by left.
Qed.

Lemma TrackPeer_view now u q q' :
  TrackPeerUnlocked release now u q = Done q' -> peers_map_ q !! u = None /\ local_peer_uuid_ q' = local_peer_uuid_ q /\ same_state q q' /\
  majority_replicated_opid (queue_state_ q') = majority_replicated_opid (queue_state_ q) /\
  queue_active_config (queue_state_ q') = queue_active_config (queue_state_ q) /\ queue_majority_size_ (queue_state_ q') = queue_majority_size_ (queue_state_ q) /\
  mode (queue_state_ q') = mode (queue_state_ q) /\
  ∀ w, view_of q' w = if decide (w = u) then Some (mkPeerView true (index (last_appended (queue_state_ q)) + 1) MinimumOpId false) else view_of q w.
Proof using.
  intros E. unfold TrackPeerUnlocked in E. apply outcome_bind_Done in E as (_ & _ & E). apply outcome_bind_Done in E as (_ & _ & E).
  apply outcome_bind_Done in E as ([] & Hn & E). destruct (bool_decide (peers_map_ q !! u = None)) eqn:Hnew; [|done]. apply bool_decide_eq_true in Hnew. clear Hn.
  cbv zeta in E. apply outcome_bind_Done in E as (_ & _ & E). injection E as <-. split; [done|]. do 6 (split; [done|]). intros w. apply (view_insert q u).
Qed.

Lemma SetLeaderMode_view now committed T config q q' :
  config_ok config -> SetLeaderMode release now committed T config q = Done q' -> leader_ok release q' config /\ mode (queue_state_ q') = LEADER_MODE /\ local_peer_uuid_ q' = local_peer_uuid_ q /\
  last_appended (queue_state_ q') = last_appended (queue_state_ q) /\ queue_current_term (queue_state_ q') = T /\ committed_index (queue_state_ q') = committed /\
  majority_replicated_opid (queue_state_ q') = committed /\ ∀ w, view_of q' w = view_of q w.
Proof using.
  intros Hc E. unfold SetLeaderMode in E. apply outcome_bind_Done in E as ([] & Hv & E).
  apply outcome_bind_Done in E as (m & Em & E). cbv zeta in E. apply outcome_bind_Done in E as ([] & Hch & E). injection E as <-.
  destruct (IsRaftConfigVoter (local_peer_uuid_ q) config) eqn:Hvot; [|done]. clear Hv. apply IsRaftConfigVoter_voters in Hvot; [|done].
  split; [split; try done|do 6 (split; [done|])].
  - intros u p. cbn. rewrite lookup_fmap. destruct (peers_map_ q !! u) as [x|] eqn:Ex; [|done]. intros _. by eapply (CheckPeers_ok _ config); [| |exact Hch|cbn; exact Ex].
  - intros w. unfold view_of. cbn. rewrite lookup_fmap. by destruct (peers_map_ q !! w).
Qed.

Lemma Append_view id q :
  let q' := (AppendOperations (Some id) (Ok tt) q).1 in
  same_shape q q' /\ last_appended (queue_state_ q') = id /\ queue_current_term (queue_state_ q') = Z.max (queue_current_term (queue_state_ q)) (term id) /\
  committed_index (queue_state_ q') = committed_index (queue_state_ q) /\ majority_replicated_opid (queue_state_ q') = majority_replicated_opid (queue_state_ q) /\
  peers_map_ q' = peers_map_ q.
Proof using. unfold AppendOperations. cbn. destruct (Z.ltb_spec (queue_current_term (queue_state_ q)) (term id)); cbn; (split; [by repeat split|]); (split; [done|]); (split; [lia|done]). Qed.

(** The queue of a new leader. *)
Lemma lead_queue config now last committed T i id q0 q1 :
  VerifyRaftConfig config COMMITTED_QUORUM = Ok tt ->
  Init release now last (new_queue i) = Done q0 -> SetLeaderMode release now committed T config q0 = Done q1 -> term id = T ->
  let q := (AppendOperations (Some id) (Ok tt) q1).1 in
  queue_ok release q /\ leader_ok release q config /\ mode (queue_state_ q) = LEADER_MODE /\ local_peer_uuid_ q = i /\ last_appended (queue_state_ q) = id /\ queue_current_term (queue_state_ q) = T /\
  committed_index (queue_state_ q) = committed /\ majority_replicated_opid (queue_state_ q) = committed /\
  (∀ u, u ≠ i -> view_of q u = None) /\ (∀ v, view_of q i = Some v -> v_received v = MinimumOpId).
Proof using.
  intros HV E0 E1 Et q. pose proof HV as [Hc _]%VerifyRaftConfig_ok.
  assert (queue_ok release q) as Hq.
  { eapply queue_step_ok; [|apply step_append]. eapply queue_step_ok; [|by eapply step_leader]. eapply queue_step_ok; [apply new_queue_ok|by eapply step_init]. }
  unfold Init in E0. apply outcome_bind_Done in E0 as (_ & _ & E0). apply TrackPeer_view in E0 as (_ & El0 & _ & _ & _ & _ & _ & V0).
  apply SetLeaderMode_view in E1 as (Hl1 & Emo & El1 & _ & ET1 & Ec1 & Em1 & V1); [|done].
  destruct (Append_view id q1) as (Hs & Ea & ET & Ec & Em & Ep). fold q in Hs, Ea, ET, Ec, Em, Ep.
  assert (∀ w, view_of q w = view_of q1 w) as V by (intros w; unfold view_of; by rewrite Ep).
  split; [done|]. split; [by apply (leader_ok_shape release q1)|]. split; [by destruct Hs as (_ & _ & -> & _)|]. split; [destruct Hs as (-> & _); by rewrite El1, El0|].
  split; [done|]. split; [rewrite ET, ET1; lia|]. split; [congruence|]. split; [congruence|]. split.
  - intros u Hu. by rewrite V, V1, V0, decide_False.
  - intros v. rewrite V, V1, V0, decide_True by done. by intros [= <-].
Qed.

End queue.

(** ** All replicas

    The replicas of a tablet, which take part in elections as in [RaftElection];
    the elections that have told their result; the queues of the leaders of the
    terms; what is on the way between the leader of a term and a follower, at
    most one message; and what the queues told of a majority. *)
Record log_system : Type := mkLogSystem {
  base : system;
  logs : gmap uuid LogState;
  called : list nat;
  queues : gmap Z PeerMessageQueue;
  wire : gmap (Z * uuid) message;
  told : list (Z * MajorityReplicatedData)
}.

Definition replica_in (N : gmap uuid RaftConsensus) (G : gmap uuid LogState) (u : uuid) : option Replica :=
  match N !! u, G !! u with Some c, Some l => Some (mkReplica c l) | _, _ => None end.
Definition replica (sys : log_system) (u : uuid) : option Replica := replica_in (nodes (base sys)) (logs sys) u.

Definition told_by (T : Z) (notes : list queue_notification) : list (Z * MajorityReplicatedData) :=
  omap (λ n, match n with MajorityReplOpChange d => Some (T, d) | TermChange _ => None end) notes.

Definition put_response (k : Z * uuid) (a : option ConsensusResponsePB) (W : gmap (Z * uuid) message) : gmap (Z * uuid) message :=
  match a with Some a => <[k := Response a]> W | None => delete k W end.

(** The queue of a replica that becomes leader, and the first operation. *)
Definition lead (release : bool) (env : LogEnv) (now : MonoTime.t) (hybrid_time : Z) (i : uuid) (s : Replica)
    : Outcome (Replica * Result (list Operation) * PeerMessageQueue) :=
  q ← Init release now (GetLastReceivedOpIdUnlocked s) (new_queue i);
  q ← SetLeaderMode release now (GetCommittedOpIdUnlocked s) (current_term_of s) (GetActiveConfigUnlocked (consensus s)) q;
  '(s, r) ← append_no_op release env hybrid_time s;
  Done (s, r, match r with Ok added => (AppendOperations (op_id <$> last added) (Ok tt) q).1 | Error _ => q end).

Section steps.
Context (release : bool) (RangeTimeLimit : Z).

(** Elections, as in [RaftElection]. Voters compare the last operation of the
    candidate with the last one in their log. An election tells its result
    once. *)
Inductive election_step : log_system -> log_system -> Prop :=
| ls_start N E R A C Ld G K Q W D env data preelected i n s s' e :
    replica_in N G i = Some s -> R !! n = None -> pending_commit data = false ->
    DoStartElection release RangeTimeLimit env data preelected s = Done (s', Ok (Some e)) ->
    election_step (mkLogSystem (mkSystem N E R A C Ld) G K Q W D)
      (mkLogSystem (mkSystem (<[i := consensus s']> N) (<[n := run_of e]> E) (<[n := request_ e]> R) A (C ++ cast_by_start i e) Ld)
         (<[i := rlog s']> G) K Q W D)
| ls_no_start N E R A C Ld G K Q W D env data preelected i s s' r :
    replica_in N G i = Some s -> pending_commit data = false ->
    DoStartElection release RangeTimeLimit env data preelected s = Done (s', r) -> (∀ e, r ≠ Ok (Some e)) ->
    election_step (mkLogSystem (mkSystem N E R A C Ld) G K Q W D)
      (mkLogSystem (mkSystem (<[i := consensus s']> N) E R A C Ld) (<[i := rlog s']> G) K Q W D)
| ls_vote N E R A C Ld G K Q W D env n request u s s' resp :
    replica_in N G u = Some s -> R !! n = Some request -> env_latest_op_id env = last_op_id (log_ (rlog s)) ->
    lift_op (RequestVote release env request) s = Done (s', Ok resp) ->
    election_step (mkLogSystem (mkSystem N E R A C Ld) G K Q W D)
      (mkLogSystem (mkSystem (<[u := consensus s']> N) E R (A ++ [(n, u, resp)]) (C ++ cast_by_answer u request resp) Ld)
         (<[u := rlog s']> G) K Q W D)
| ls_no_vote N E R A C Ld G K Q W D env n request u s s' c :
    replica_in N G u = Some s -> R !! n = Some request -> lift_op (RequestVote release env request) s = Done (s', Error c) ->
    election_step (mkLogSystem (mkSystem N E R A C Ld) G K Q W D)
      (mkLogSystem (mkSystem (<[u := consensus s']> N) E R A C Ld) (<[u := rlog s']> G) K Q W D)
| ls_run N E R A C Ld G K Q W D n r r' :
    E !! n = Some r -> run_step release Internal r r' ->
    election_step (mkLogSystem (mkSystem N E R A C Ld) G K Q W D) (mkLogSystem (mkSystem N (<[n := r']> E) R A C Ld) G K Q W D)
| ls_answer N E R A C Ld G K Q W D n r u rpc r' :
    E !! n = Some r -> run_step release (Answer u rpc) r r' -> may_arrive (mkSystem N E R A C Ld) n u rpc ->
    election_step (mkLogSystem (mkSystem N E R A C Ld) G K Q W D) (mkLogSystem (mkSystem N (<[n := r']> E) R A C Ld) G K Q W D)
| ls_callback N E R A C Ld G K Q W D env n r result s c' again :
    E !! n = Some r -> result ∈ calls r -> n ∉ K -> replica_in N G (candidate_uuid (request_ (election r))) = Some s ->
    DoElectionCallback release env result (consensus s) = Done (c', false, again) ->
    election_step (mkLogSystem (mkSystem N E R A C Ld) G K Q W D)
      (mkLogSystem (mkSystem (<[candidate_uuid (request_ (election r)) := c']> N) E R A C Ld) G (K ++ [n]) Q W D)
| ls_lead N E R A C Ld G K Q W D env now hybrid_time n r result i s c' again s' added q :
    E !! n = Some r -> result ∈ calls r -> n ∉ K -> i = candidate_uuid (request_ (election r)) -> replica_in N G i = Some s ->
    env_become_leader (raft_env env) = Ok tt -> AsyncAppendReplicates env = Ok tt -> Z.of_nat (length (mem s)) + 1 < 2 ^ 63 ->
    DoElectionCallback release (raft_env env) result (consensus s) = Done (c', true, again) ->
    lead release env now hybrid_time i (with_consensus c' s) = Done (s', Ok added, q) ->
    election_step (mkLogSystem (mkSystem N E R A C Ld) G K Q W D)
      (mkLogSystem (mkSystem (<[i := consensus s']> N) E R A C (Ld ++ [(current_term_of s', i)])) (<[i := rlog s']> G) (K ++ [n])
         (<[current_term_of s' := q]> Q) W D)
| ls_term N E R A C Ld G K Q W D env i t s s' r :
    replica_in N G i = Some s -> lift_op (HandleTermAdvanceUnlocked release env t) s = Done (s', r) ->
    election_step (mkLogSystem (mkSystem N E R A C Ld) G K Q W D)
      (mkLogSystem (mkSystem (<[i := consensus s']> N) E R A C Ld) (<[i := rlog s']> G) K Q W D).

(** Leaders append, send to followers and hear from them; followers take over
    what they are sent. A queue works in the term of its leader, and what it
    tells of a majority is taken up in that term. *)
Inductive replication_step : log_system -> log_system -> Prop :=
| ls_replicate N E R A C Ld G K Q W D env T i s rounds s' r q :
    (T, i) ∈ Ld -> replica_in N G i = Some s -> current_term_of s = T -> Q !! T = Some q ->
    no_config rounds -> AsyncAppendReplicates env = Ok tt -> Z.of_nat (length (mem s) + length rounds) < 2 ^ 63 ->
    ReplicateBatch release env rounds s = Done (s', r) ->
    replication_step (mkLogSystem (mkSystem N E R A C Ld) G K Q W D)
      (mkLogSystem (mkSystem (<[i := consensus s']> N) E R A C Ld) (<[i := rlog s']> G) K
         (<[T := match r with Ok added => (AppendOperations (op_id <$> last added) (Ok tt) q).1 | Error _ => q end]> Q) W D)
| ls_send N E R A C Ld G K Q W D env size max T i s u p q q' pr r :
    (T, i) ∈ Ld -> replica_in N G i = Some s -> current_term_of s = T -> Q !! T = Some q -> u ≠ i -> peers_map_ q !! u = Some p ->
    RequestForPeer release env u q = Done (Ok (q', pr)) -> request_needs_remote_bootstrap pr = false ->
    read_request size max i (is_new p) pr (log_ (rlog s)) = Ok r ->
    replication_step (mkLogSystem (mkSystem N E R A C Ld) G K Q W D)
      (mkLogSystem (mkSystem N E R A C Ld) G K (<[T := q']> Q) (<[(T, u) := Request r]> W) D)
| ls_update N E R A C Ld G K Q W D env timeout T u r s s' res :
    W !! (T, u) = Some (Request r) -> replica_in N G u = Some s ->
    UpdateReplica release RangeTimeLimit env timeout r s = Done (s', res) ->
    replication_step (mkLogSystem (mkSystem N E R A C Ld) G K Q W D)
      (mkLogSystem (mkSystem (<[u := consensus s']> N) E R A C Ld) (<[u := rlog s']> G) K Q (put_response (T, u) (response_of res) W) D)
| ls_respond N E R A C Ld G K Q W D env T i s u a q q' more notes :
    (T, i) ∈ Ld -> replica_in N G i = Some s -> current_term_of s = T -> Q !! T = Some q -> W !! (T, u) = Some (Response a) ->
    reads_log env (log_ (rlog s)) -> ResponseFromPeer release env u a q = Done (q', more, notes) ->
    replication_step (mkLogSystem (mkSystem N E R A C Ld) G K Q W D)
      (mkLogSystem (mkSystem N E R A C Ld) G K (<[T := q']> Q) (delete (T, u) W) (D ++ told_by T notes))
| ls_written N E R A C Ld G K Q W D env T i s op q q' more notes :
    (T, i) ∈ Ld -> replica_in N G i = Some s -> current_term_of s = T -> Q !! T = Some q -> op ∈ log_ (rlog s) ->
    reads_log env (log_ (rlog s)) -> LocalPeerAppendFinished release env (op_id op) (Ok tt) q = Done (q', more, notes) ->
    replication_step (mkLogSystem (mkSystem N E R A C Ld) G K Q W D)
      (mkLogSystem (mkSystem N E R A C Ld) G K (<[T := q']> Q) W (D ++ told_by T notes))
| ls_majority N E R A C Ld G K Q W D env revocation T i s d q s' id :
    (T, i) ∈ Ld -> replica_in N G i = Some s -> current_term_of s = T -> Q !! T = Some q -> (T, d) ∈ D ->
    UpdateMajorityReplicated release RangeTimeLimit env revocation q d s = Done (s', id) ->
    replication_step (mkLogSystem (mkSystem N E R A C Ld) G K Q W D)
      (mkLogSystem (mkSystem (<[i := consensus s']> N) E R A C Ld) (<[i := rlog s']> G) K (<[T := set_committed_index id q]> Q) W D)
| ls_track N E R A C Ld G K Q W D now T i u q q' :
    (T, i) ∈ Ld -> Q !! T = Some q -> u ≠ i -> TrackPeerUnlocked release now u q = Done q' ->
    replication_step (mkLogSystem (mkSystem N E R A C Ld) G K Q W D) (mkLogSystem (mkSystem N E R A C Ld) G K (<[T := q']> Q) W D)
| ls_untrack N E R A C Ld G K Q W D T i u q :
    (T, i) ∈ Ld -> Q !! T = Some q -> u ≠ i ->
    replication_step (mkLogSystem (mkSystem N E R A C Ld) G K Q W D) (mkLogSystem (mkSystem N E R A C Ld) G K (<[T := UntrackPeer u q]> Q) W D).

(** Messages are lost. A replica may stop at any time and is started again with
    the votes on its disk and the operations in its log, of which those are
    applied again that it knows to be committed. What is part of neither the
    vote nor the log changes freely. *)
Inductive fault_step : log_system -> log_system -> Prop :=
| ls_lost N E R A C Ld G K Q W D k :
    fault_step (mkLogSystem (mkSystem N E R A C Ld) G K Q W D) (mkLogSystem (mkSystem N E R A C Ld) G K Q (delete k W) D)
| ls_other N E R A C Ld G K Q W D i s c' :
    replica_in N G i = Some s -> same_vote (consensus s) c' -> last_received_op_id_ c' = last_received_op_id_ (consensus s) ->
    last_received_op_id_current_leader_ c' = last_received_op_id_current_leader_ (consensus s) ->
    fault_step (mkLogSystem (mkSystem N E R A C Ld) G K Q W D) (mkLogSystem (mkSystem (<[i := c']> N) E R A C Ld) G K Q W D)
| ls_restart N E R A C Ld G K Q W D env i s k s0 s' :
    replica_in N G i = Some s -> cmeta_ (consensus s0) = Load i (on_disk (cmeta_ (consensus s))) ->
    (k <= length (applied (rlog s)))%nat -> bootstrapped (log_ (rlog s)) k s0 ->
    Start release RangeTimeLimit env (bootstrap_info (log_ (rlog s)) k) s0 = Done (s', Ok tt) ->
    fault_step (mkLogSystem (mkSystem N E R A C Ld) G K Q W D)
      (mkLogSystem (mkSystem (<[i := consensus s']> N) (filter (λ nr, candidate_uuid (request_ (election nr.2)) ≠ i) E) R A C Ld)
         (<[i := rlog s']> G) K Q W D).

Definition log_step (sys sys' : log_system) : Prop := election_step sys sys' \/ replication_step sys sys' \/ fault_step sys sys'.

End steps.

(** Replicas without votes and operations. *)
Record log_initial (config : RaftConfigPB) (sys : log_system) : Prop := {
  in_base : initial config (base sys);
  in_present : ∀ u, u ∈ permanent_uuid <$> peers config -> is_Some (replica sys u);
  in_replicas : ∀ u c l, nodes (base sys) !! u = Some c -> logs sys !! u = Some l ->
    u ≠ EmptyString /\ 0 <= GetCurrentTermUnlocked c /\ vote_of c = None /\
    last_received_op_id_ c = MinimumOpId /\ last_received_op_id_current_leader_ c = MinimumOpId /\
    next_index_ l = 1 /\ last_committed_op_id_ l = MinimumOpId /\ pending_operations_ l = [] /\ log_ l = [] /\ applied l = [];
  in_called : called sys = [];
  in_queues : queues sys = ∅;
  in_wire : wire sys = ∅;
  in_told : told sys = []
}.

(** ** The invariant *)

(** The majorities of a configuration. *)
Definition config_quorums (release : bool) (config : RaftConfigPB) (Hc : config_ok config) : QuorumSystem.
Proof.
  refine {| is_quorum Q := ∃ m, MajoritySize release (CountVoters config) = Done m /\ quorum config m Q |}.
  intros Q Q' (m & Em & HQ) (m' & Em' & HQ'). rewrite Em in Em'. injection Em' as <-. by apply (quorums_share release config m).
Defined.

Definition pnode_of (s : Replica) : pnode Operation := mkPnode (current_term_of s) (mem s) (log_ (rlog s)).

Section invariant.
Context (release : bool) (config : RaftConfigPB) `{QuorumSystem}.
Implicit Types (p : protocol Operation) (L : list Operation) (q : PeerMessageQueue).

(** The first operations up to an id are committed; or a majority has them. *)
Definition chosen_id p (T : Z) L (id : OpId) : Prop := index id <= Z.of_nat (length L) /\ chosen p T (take (Z.to_nat (index id)) L).
Definition supported_id p (T : Z) L (id : OpId) : Prop :=
  chosen_id p T L id \/ (has_id L id /\ ∃ Q, is_quorum Q /\ ∀ u, u ∈ Q -> acked (p_acks p) u T (Z.to_nat (index id))).

Record node_inv p (u : uuid) (s : Replica) : Prop := {
  ni_name : u ≠ EmptyString;
  ni_ok : replica_ok s;
  ni_chosen : chosen p (current_term_of s) (applied (rlog s));
  ni_current : GetLastReceivedOpIdCurLeaderUnlocked s ≠ MinimumOpId -> is_Some (p_leaders p !! current_term_of s)
}.

(** The leader of a term has, while the term lasts, the log of the term. *)
Record leader_inv p (rep : uuid -> option Replica) (T : Z) (ld : leadership Operation) : Prop := {
  le_config : ops_no_config (l_log ld);
  le_fits : Z.of_nat (length (l_log ld)) < 2 ^ 63;
  le_last : term (last_op_id (l_log ld)) = T;
  le_acked : acked (p_acks p) (l_node ld) T (length (l_log ld));
  le_mem : ∀ s, rep (l_node ld) = Some s -> current_term_of s = T -> mem s = l_log ld /\ log_ (rlog s) = l_log ld
}.

Record queue_inv p (T : Z) (ld : leadership Operation) q : Prop := {
  qi_ok : queue_ok release q;
  qi_leader : leader_ok release q config;
  qi_mode : mode (queue_state_ q) = LEADER_MODE;
  qi_local : local_peer_uuid_ q = l_node ld;
  qi_last : last_appended (queue_state_ q) = last_op_id (l_log ld);
  qi_term : queue_current_term (queue_state_ q) = T;
  qi_committed : chosen_id p T (l_log ld) (committed_index (queue_state_ q));
  qi_majority : supported_id p T (l_log ld) (majority_replicated_opid (queue_state_ q));
  qi_self : ∀ v, view_of q (l_node ld) = Some v -> good (l_log ld) (acked (p_acks p) (l_node ld) T) v
}.

Definition tracked (Q : gmap Z PeerMessageQueue) (T : Z) (u : uuid) : option peer_view :=
  match Q !! T with Some q => view_of q u | None => None end.

Record log_part p (rep : uuid -> option Replica) (Ld : list (Z * uuid)) (Q : gmap Z PeerMessageQueue) (W : gmap (Z * uuid) message)
    (D : list (Z * MajorityReplicatedData)) : Prop := {
  lp_nodes : ∀ u, p_nodes p !! u = pnode_of <$> rep u;
  lp_replicas : ∀ u s, rep u = Some s -> node_inv p u s;
  lp_leaders : ∀ T i, (T, i) ∈ Ld <-> ∃ ld, p_leaders p !! T = Some ld /\ l_node ld = i;
  lp_leading : ∀ T ld, p_leaders p !! T = Some ld -> leader_inv p rep T ld;
  lp_exchange : ∀ T ld u s, p_leaders p !! T = Some ld -> u ≠ l_node ld -> rep u = Some s ->
    exchange_ok T (l_log ld) (acked (p_acks p) u T) (follower_of s) (tracked Q T u) (W !! (T, u));
  lp_requested : ∀ T u r, W !! (T, u) = Some (Request r) -> ∃ ld, p_leaders p !! T = Some ld /\ u ≠ l_node ld /\ caller_uuid (header r) = l_node ld /\
    chosen_id p T (l_log ld) (request_committed r);
  lp_wired : ∀ T u m, W !! (T, u) = Some m -> ∃ ld, p_leaders p !! T = Some ld /\ u ≠ l_node ld;
  lp_queues : ∀ T q, Q !! T = Some q -> ∃ ld, p_leaders p !! T = Some ld /\ queue_inv p T ld q;
  lp_told : ∀ T d, (T, d) ∈ D -> ∃ ld, p_leaders p !! T = Some ld /\ supported_id p T (l_log ld) (majority_op_id d);
  lp_present : ∀ u, u ∈ permanent_uuid <$> peers config -> is_Some (rep u)
}.

(** Each vote was for the log that the candidate still has, until there is a
    leader. *)
Definition asked (R : gmap nat VoteRequestPB) (n : nat) (c : uuid) (T : Z) (last : OpId) : Prop :=
  ∃ request, R !! n = Some request /\ request_preelection request = false /\ candidate_uuid request = c /\ candidate_term request = T /\
    candidate_last_received request = last.

Record voting_part p (rep : uuid -> option Replica) (b : system) (K : list nat) : Prop := {
  vp_voted : ∀ u s c, rep u = Some s -> vote_of (consensus s) = Some c -> (u, current_term_of s, c) ∈ cast b \/ c = u;
  vp_self : ∀ n c T last, asked (requests b) n c T last -> (c, T, c) ∈ cast b;
  vp_votes : ∀ u T c, (u, T, c) ∈ cast b -> p_leaders p !! T = None -> ∃ v n, v ∈ p_votes p /\ v_voter v = u /\ v_term v = T /\ v_candidate v = c /\
    asked (requests b) n c T (v_last v);
  vp_one : ∀ n n' c T last last', asked (requests b) n c T last -> asked (requests b) n' c T last' -> n = n';
  vp_started : ∀ n c T last, asked (requests b) n c T last -> ∃ s, rep c = Some s /\ T <= current_term_of s;
  vp_last : ∀ n r c T last s, elections b !! n = Some r -> asked (requests b) n c T last -> rep c = Some s -> current_term_of s = T ->
    p_leaders p !! T = None -> last = last_op_id (mem s);
  vp_called : ∀ T i, (T, i) ∈ leaders b -> ∃ n last, n ∈ K /\ asked (requests b) n i T last
}.

Record log_inv (sys : log_system) p : Prop := {
  li_base : system_ok release config (base sys);
  li_protocol : protocol_ok p;
  li_log : log_part p (replica sys) (leaders (base sys)) (queues sys) (wire sys) (told sys);
  li_voting : voting_part p (replica sys) (base sys) (called sys)
}.

End invariant.

(** ** Steps of one replica *)

Section mono.
Context (release : bool) (config : RaftConfigPB) `{QuorumSystem}.
Implicit Types (p : protocol Operation) (L : list Operation) (q : PeerMessageQueue).

(** Leaders append and acknowledgements are kept. *)
Definition grown p p' : Prop := leaders_grow (p_leaders p) (p_leaders p') /\ ∀ a, a ∈ p_acks p -> a ∈ p_acks p'.

Lemma grown_same N N' PL V V' A A' : (∀ a, a ∈ A -> a ∈ A') -> grown (mkProtocol N PL V A) (mkProtocol N' PL V' A').
Proof using. intros HA. split; [|done]. intros T ld HT. by exists ld. Qed.

Lemma chosen_grown p p' T l : grown p p' -> chosen p T l -> chosen p' T l.
Proof using. intros [Hg HA]. destruct p, p'. by apply chosen_mono. Qed.

Lemma acked_grown p p' u T k : grown p p' -> acked (p_acks p) u T k -> acked (p_acks p') u T k.
Proof using. intros [_ HA] (k' & Hk & Hin). exists k'. auto. Qed.

Lemma chosen_id_grown p p' T L L' id : grown p p' -> L `prefix_of` L' -> chosen_id p T L id -> chosen_id p' T L' id.
Proof using.
  intros Hg Hp [Hi Hc]. pose proof (prefix_length _ _ Hp). split; [lia|]. apply (chosen_grown p); [done|]. destruct Hp as [x ->]. by rewrite take_app_le by lia.
Qed.

Lemma supported_id_grown p p' T L L' id : grown p p' -> L `prefix_of` L' -> supported_id p T L id -> supported_id p' T L' id.
Proof using.
  intros Hg Hp [Hc|(Hi & Q & HQ & Hk)]; [left; by eapply chosen_id_grown|right]. split; [by eapply has_id_grow|]. exists Q. split; [done|]. intros u Hu. by eapply acked_grown, Hk.
Qed.

Lemma good_grown p p' L L' u T v : grown p p' -> L `prefix_of` L' -> good L (acked (p_acks p) u T) v -> good L' (acked (p_acks p') u T) v.
Proof using. intros Hg Hp [?|[? ?]]; [by left|right]. split; [by eapply has_id_grow|by eapply acked_grown]. Qed.

Lemma node_inv_grown p p' u s : grown p p' -> node_inv p u s -> node_inv p' u s.
Proof using.
  intros Hg []. split; try done; [by eapply chosen_grown|]. intros Hc. destruct (ni_current0 Hc) as [ld Hld]. destruct Hg as [Hg _]. destruct (Hg _ _ Hld) as (ld' & ? & _). by exists ld'.
Qed.

Lemma queue_inv_grown p p' T ld q : grown p p' -> queue_inv release config p T ld q -> queue_inv release config p' T ld q.
Proof using.
  intros Hg []. split; try done; [by eapply chosen_id_grown|by eapply supported_id_grown|]. intros v Hv. by eapply good_grown, qi_self0.
Qed.

(** A replica, with the messages to it, changes while the leaders stay as they
    are. *)
Lemma log_part_node PN PL PV PV' PA PA' rep rep' Ld Q W W' D u s s' :
  let p := mkProtocol PN PL PV PA in
  let p' := mkProtocol (<[u := pnode_of s']> PN) PL PV' PA' in
  log_part release config p rep Ld Q W D -> (∀ a, a ∈ PA -> a ∈ PA') -> rep u = Some s -> (∀ w, rep' w = if decide (w = u) then Some s' else rep w) ->
  node_inv p' u s' -> (∀ T ld, PL !! T = Some ld -> l_node ld = u -> current_term_of s' = T -> mem s' = l_log ld /\ log_ (rlog s') = l_log ld) ->
  (∀ T w, w ≠ u -> W' !! (T, w) = W !! (T, w)) -> (∀ T r, W' !! (T, u) = Some (Request r) -> W !! (T, u) = Some (Request r)) ->
  (∀ T m, W' !! (T, u) = Some m -> is_Some (W !! (T, u))) ->
  (∀ T ld, PL !! T = Some ld -> u ≠ l_node ld -> exchange_ok T (l_log ld) (acked PA u T) (follower_of s) (tracked Q T u) (W !! (T, u)) ->
     exchange_ok T (l_log ld) (acked PA' u T) (follower_of s') (tracked Q T u) (W' !! (T, u))) ->
  log_part release config p' rep' Ld Q W' D.
Proof using.
  intros p p' [] HA Hu Hrep Hn Hmem HW HWr HWs Hex. assert (grown p p') as Hg by (by apply grown_same). cbn in *.
  assert (∀ w x, rep' w = Some x -> w = u /\ x = s' \/ w ≠ u /\ rep w = Some x) as Hcase.
  { intros w x. rewrite Hrep. destruct (decide (w = u)) as [->|]; [intros [= <-]; by left|by right]. }
  split; cbn.
  - intros w. rewrite Hrep. destruct (decide (w = u)) as [->|Hne]; [by rewrite lookup_insert_eq|by rewrite lookup_insert_ne].
  - intros w x [[-> ->]|[_ Hx]]%Hcase; [done|]. by eapply node_inv_grown, lp_replicas0.
  - done.
  - intros T ld HT. destruct (lp_leading0 T ld HT). split; try done; [by eapply acked_grown|]. intros x [[Hw ->]|[_ Hx]]%Hcase; [by apply Hmem|by apply le_mem0].
  - intros T ld w x HT Hw [[-> ->]|[Hne Hx]]%Hcase; [by eapply Hex, lp_exchange0|]. rewrite HW by done. eapply exchange_acks; [|by apply lp_exchange0]. intros k. by apply (acked_grown p p').
  - intros T w r. destruct (decide (w = u)) as [->|Hne]; [intros Hr%HWr|rewrite HW by done; intros Hr]; destruct (lp_requested0 T _ r Hr) as (ld & ? & ? & ? & ?);
      exists ld; (split; [done|]); (split; [done|]); (split; [done|]); by eapply chosen_id_grown.
  - intros T w m. destruct (decide (w = u)) as [->|Hne]; [intros [x Hx]%HWs; by eapply lp_wired0|rewrite HW by done; by apply lp_wired0].
  - intros T q Hq. destruct (lp_queues0 T q Hq) as (ld & ? & ?). exists ld. split; [done|]. by eapply queue_inv_grown.
  - intros T d Hd. destruct (lp_told0 T d Hd) as (ld & ? & ?). exists ld. split; [done|]. by eapply supported_id_grown.
  - intros w Hw. rewrite Hrep. destruct (decide (w = u)); [by eexists|by apply lp_present0].
Qed.

(** The same for elections, which may be fewer. *)
Lemma voting_part_node p p' rep rep' b b' K K' u s s' :
  voting_part p rep b K -> rep u = Some s -> (∀ w, rep' w = if decide (w = u) then Some s' else rep w) -> current_term_of s <= current_term_of s' ->
  requests b' = requests b -> leaders b' = leaders b -> (∀ n r, elections b' !! n = Some r -> is_Some (elections b !! n)) ->
  (∀ x, x ∈ cast b -> x ∈ cast b') -> (∀ n, n ∈ K -> n ∈ K') -> (∀ v, v ∈ p_votes p -> v ∈ p_votes p') -> (∀ T, p_leaders p' !! T = None -> p_leaders p !! T = None) ->
  (∀ c, vote_of (consensus s') = Some c -> (u, current_term_of s', c) ∈ cast b' \/ c = u) ->
  (∀ w T c, (w, T, c) ∈ cast b' -> (w, T, c) ∈ cast b \/ (p_leaders p' !! T = None -> ∃ v n, v ∈ p_votes p' /\ v_voter v = w /\ v_term v = T /\ v_candidate v = c /\
     asked (requests b) n c T (v_last v))) ->
  (∀ n r T last, elections b' !! n = Some r -> asked (requests b) n u T last -> current_term_of s' = T -> p_leaders p' !! T = None ->
     last = last_op_id (mem s')) ->
  voting_part p' rep' b' K'.
Proof using.
  intros [] Hu Hrep Ht ER EL HE HC HK HV HP Hvote Hcast Hlast.
  assert (∀ w x, rep' w = Some x -> w = u /\ x = s' \/ w ≠ u /\ rep w = Some x) as Hcase.
  { intros w x. rewrite Hrep. destruct (decide (w = u)) as [->|]; [intros [= <-]; by left|by right]. }
  split; rewrite ?ER, ?EL; try done.
  - intros w x c [[-> ->]|[_ Hx]]%Hcase Hv; [by apply Hvote|]. destruct (vp_voted0 w x c Hx Hv) as [?|?]; [left; by apply HC|by right].
  - intros n c T last Ha. by eapply HC, vp_self0.
  - intros w T c Hin Hno. destruct (Hcast w T c Hin) as [Hin'|Hnew]; [|by apply Hnew]. destruct (vp_votes0 w T c Hin' (HP T Hno)) as (v & n & Hv & ?). exists v, n. split; [by apply HV|done].
  - intros n c T last Ha. destruct (vp_started0 n c T last Ha) as (x & Hx & Hle). rewrite Hrep. destruct (decide (c = u)) as [->|]; [|by exists x].
    exists s'. split; [done|]. rewrite Hu in Hx. injection Hx as <-. lia.
  - intros n r c T last x Hr Ha [[-> ->]|[_ Hx]]%Hcase HT Hno; [by eapply Hlast|]. destruct (HE n r Hr) as [r0 Hr0]. by eapply vp_last0; [..|apply HP].
  - intros T i Hin. destruct (vp_called0 T i Hin) as (n & last & Hn & Ha). exists n, last. split; [by apply HK|done].
Qed.

(** The candidate keeps its log. *)
Lemma voting_last_kept p p' rep b K u s s' (E' : gmap nat run_state) :
  voting_part p rep b K -> rep u = Some s -> current_term_of s <= current_term_of s' -> (∀ n r, E' !! n = Some r -> is_Some (elections b !! n)) ->
  (∀ T, p_leaders p' !! T = None -> p_leaders p !! T = None) -> (mem s' = mem s \/ is_Some (p_leaders p' !! current_term_of s')) ->
  ∀ n r T last, E' !! n = Some r -> asked (requests b) n u T last -> current_term_of s' = T -> p_leaders p' !! T = None -> last = last_op_id (mem s').
Proof using.
  intros [] Hu Ht HE HP Hm n r T last Hr Ha HT Hno. destruct Hm as [->|[ld Hld]]; [|congruence]. destruct (HE n r Hr) as [r0 Hr0]. destruct (vp_started0 n u T last Ha) as (x & Hx & Hle).
  rewrite Hu in Hx. injection Hx as <-. eapply vp_last0; [done|done|done|lia|by apply HP].
Qed.

(** A replica that keeps its log, perhaps with a new term. *)
Lemma log_part_silent PN PL PV PV' PA rep rep' Ld Q W D u s s' :
  let p := mkProtocol PN PL PV PA in
  let p' := mkProtocol (<[u := pnode_of s']> PN) PL PV' PA in
  protocol_ok p -> log_part release config p rep Ld Q W D -> rep u = Some s -> (∀ w, rep' w = if decide (w = u) then Some s' else rep w) -> log_same s s' ->
  log_part release config p' rep' Ld Q W D.
Proof using.
  intros p p' Hp Hlog Hu Hrep Hl. pose proof (lp_replicas _ _ _ _ _ _ _ _ Hlog u s Hu) as [Hname Hok Hch Hcu].
  pose proof (log_same_mem _ _ Hl) as Em. pose proof Hl as [El [_ Hrec]].
  assert (current_term_of s <= current_term_of s') as Ht by (unfold current_term_of; destruct Hrec as [[_ ?]|[_ ?]]; lia).
  eapply (log_part_node PN PL PV PV' PA PA rep rep' Ld Q W W D u s s'); try done.
  - split; [done|by eapply log_same_ok|..].
    + rewrite El. eapply chosen_le; [exact Ht|]. eapply chosen_grown; [by apply grown_same|exact Hch].
    + intros Hc. destruct Hrec as [[E1 E2]|[E1 _]]; [|done]. unfold current_term_of, GetLastReceivedOpIdCurLeaderUnlocked in *. cbn. rewrite E2. apply Hcu. by rewrite <- E1.
  - intros T ld HT Hnode HT'. destruct (po_leaders _ Hp T ld HT) as [_ _ _ _ _ _ (n & Hn & Hle) _]. rewrite Hnode in Hn.
    rewrite (lp_nodes _ _ _ _ _ _ _ _ Hlog u), Hu in Hn. injection Hn as <-. cbn in Hle. rewrite Em, El.
    apply (lp_leading _ _ _ _ _ _ _ _ Hlog T ld HT); [by rewrite Hnode|lia].
  - intros T ld HT Hne Hex. apply (exchange_silent T _ _ (follower_of s)); [done|done|cbn; by rewrite El|]. cbn. destruct Hrec as [[? ?]|[? ?]]; [by left|by right].
Qed.

Lemma silent_step PN PL PV PA u s s' :
  PN !! u = Some (pnode_of s) -> log_same s s' ->
  rtc protocol_step (mkProtocol PN PL PV PA) (mkProtocol (<[u := pnode_of s']> PN) PL PV PA).
Proof using.
  intros Hu Hl. pose proof (log_same_mem _ _ Hl) as Em. pose proof Hl as [El [_ Hrec]]. apply rtc_once.
  assert (pnode_of s' = mkPnode (current_term_of s') (n_mem (pnode_of s)) (n_disk (pnode_of s))) as -> by (unfold pnode_of; cbn; by rewrite Em, El).
  apply p_term; [done|]. cbn. unfold current_term_of. destruct Hrec as [[_ ?]|[_ ?]]; lia.
Qed.

End mono.

(** ** Elections *)

Lemma replica_in_Some N G u s : replica_in N G u = Some s <-> N !! u = Some (consensus s) /\ G !! u = Some (rlog s).
Proof.
  unfold replica_in. destruct (N !! u) as [c|], (G !! u) as [l|]; try (split; [done|by intros [? ?]]).
  split; [by intros [= <-]|]. intros [[= ->] [= ->]]. by destruct s.
Qed.

Lemma replica_in_insert N G u s' w : replica_in (<[u := consensus s']> N) (<[u := rlog s']> G) w = if decide (w = u) then Some s' else replica_in N G w.
Proof.
  unfold replica_in. destruct (decide (w = u)) as [->|Hne]; [rewrite !lookup_insert_eq; by destruct s'|by rewrite !lookup_insert_ne].
Qed.

Lemma replica_in_consensus N G u s c' w :
  replica_in N G u = Some s -> replica_in (<[u := c']> N) G w = if decide (w = u) then Some (with_consensus c' s) else replica_in N G w.
Proof.
  intros [_ Hg]%replica_in_Some. unfold replica_in. destruct (decide (w = u)) as [->|Hne]; [by rewrite lookup_insert_eq, Hg|by rewrite !lookup_insert_ne].
Qed.

Section elections.
Context (release : bool) (RangeTimeLimit : Z) (config : RaftConfigPB) (Hc : config_ok config) (HQ : QuorumSystem).
Implicit Types (p : protocol Operation).

Lemma lift_silent {A : Type} (f : RaftConsensus -> Op A) s s' r :
  (∀ c r, f (consensus s) = Done (c, r) -> received_kept (consensus s) c) -> lift_op f s = Done (s', r) ->
  f (consensus s) = Done (consensus s', r) /\ log_same s s'.
Proof using. intros Hf E. apply lift_op_Done in E as (c & E & ->). split; [done|]. split; [done|]. by eapply Hf. Qed.

(** A replica that keeps its log and casts no vote. *)
Lemma silent_inv N E R A C Ld G K Q W D p u s s' N' G' K' :
  log_inv release config (mkLogSystem (mkSystem N E R A C Ld) G K Q W D) p ->
  replica_in N G u = Some s -> (∀ w, replica_in N' G' w = if decide (w = u) then Some s' else replica_in N G w) ->
  log_same s s' -> (∀ x, vote_of (consensus s') = Some x -> x = u \/ vote_of (consensus s) = Some x /\ current_term_of s' = current_term_of s) ->
  (∀ n, n ∈ K -> n ∈ K') -> system_ok release config (mkSystem N' E R A C Ld) ->
  ∃ p', rtc protocol_step p p' /\ log_inv release config (mkLogSystem (mkSystem N' E R A C Ld) G' K' Q W D) p' /\
    p_leaders p' = p_leaders p /\ p_votes p' = p_votes p /\ p_nodes p' !! u = Some (pnode_of s').
Proof using.
  intros [Hb Hp Hl Hv] Hu Hrep Hs Hvote HK Hb'. destruct p as [PN PL PV PA]. unfold replica in *. cbn in *.
  assert (PN !! u = Some (pnode_of s)) as Hn by (etrans; [apply (lp_nodes _ _ _ _ _ _ _ _ Hl u)|by rewrite Hu]).
  pose proof (silent_step PN PL PV PA u s s' Hn Hs) as Hstep. eexists. split; [exact Hstep|]. split; [|split; [done|]; split; [done|apply lookup_insert_eq]].
  assert (current_term_of s <= current_term_of s') as Ht by (destruct Hs as [_ [_ [[_ ?]|[_ ?]]]]; unfold current_term_of; lia).
  split; [done|by eapply protocol_steps_ok|..].
  - by eapply (log_part_silent release config PN PL PV PV PA).
  - cbn. eapply (voting_part_node _ _ _ _ _ _ K K' u s s'); try done.
    + intros c [->|[Hv' ->]]%Hvote; [by right|]. by apply (vp_voted _ _ _ _ Hv).
    + by left.
    + eapply (voting_last_kept _ _ _ _ _ u s s' E Hv); try done. left. by apply log_same_mem.
Qed.

Lemma log_part_votes PN PL PV PV' PA rep Ld Q W D :
  log_part release config (mkProtocol PN PL PV PA) rep Ld Q W D -> log_part release config (mkProtocol PN PL PV' PA) rep Ld Q W D.
Proof using.
  intros []. assert (grown (mkProtocol PN PL PV PA) (mkProtocol PN PL PV' PA)) as Hg by (by apply grown_same). split; try done.
  - intros u s Hu. by eapply node_inv_grown, lp_replicas0.
  - intros T ld HT. destruct (lp_leading0 T ld HT). by split.
  - intros T q Hq. destruct (lp_queues0 T q Hq) as (ld & ? & ?). exists ld. split; [done|]. by eapply queue_inv_grown.
Qed.

(** A vote of a replica in its term, for a candidate whose log is as good as its
    own. *)
Lemma cast_vote PN PL PV PA rep Ld Q W D u s T c last l :
  protocol_ok (mkProtocol PN PL PV PA) -> log_part release config (mkProtocol PN PL PV PA) rep Ld Q W D -> rep u = Some s -> current_term_of s = T -> PL !! T = None ->
  mem s `prefix_of` l -> l `prefix_of` log_ (rlog s) -> OpIdLessThan last (last_op_id l) = false ->
  ∃ PV', rtc protocol_step (mkProtocol PN PL PV PA) (mkProtocol PN PL PV' PA) /\ (∀ v, v ∈ PV -> v ∈ PV') /\
    ∃ v, v ∈ PV' /\ v_voter v = u /\ v_term v = T /\ v_candidate v = c /\ v_last v = last.
Proof using.
  intros Hp Hl Hu Ht HT Hm Hd Hle. set (v := mkPvote u T c last l). exists (PV ++ [v]). split; [|split; [intros x Hx; apply elem_of_app; by left|exists v; split; [apply elem_of_app; right; by left|done]]].
  apply rtc_once, (p_vote PN PL PV PA (pnode_of s) v); try done. etrans; [apply (lp_nodes _ _ _ _ _ _ _ _ Hl u)|by rewrite Hu].
Qed.

Lemma vote_recorded PN PL PV PA rep (R : gmap nat VoteRequestPB) (C C' : list (uuid * Z * uuid)) Ld Q W D n u s request :
  protocol_ok (mkProtocol PN PL PV PA) -> log_part release config (mkProtocol PN PL PV PA) rep Ld Q W D -> rep u = Some s -> R !! n = Some request ->
  (∀ x, x ∈ C' -> x ∈ C \/ (request_preelection request = false /\ current_term_of s = candidate_term request /\ x = (u, candidate_term request, candidate_uuid request) /\
     (x ∈ C \/ OpIdLessThan (candidate_last_received request) (last_op_id (log_ (rlog s))) = false))) ->
  ∃ PV', rtc protocol_step (mkProtocol PN PL PV PA) (mkProtocol PN PL PV' PA) /\ (∀ v, v ∈ PV -> v ∈ PV') /\
    ∀ w T c, (w, T, c) ∈ C' -> (w, T, c) ∈ C \/ (PL !! T = None -> ∃ v n, v ∈ PV' /\ v_voter v = w /\ v_term v = T /\ v_candidate v = c /\ asked R n c T (v_last v)).
Proof using.
  intros Hp Hl Hu HR HC. destruct (decide ((u, candidate_term request, candidate_uuid request) ∈ C)) as [Hin|Hnin].
  { exists PV. split; [done|]. split; [done|]. intros w T c [?|(_ & _ & -> & _)]%HC; by left. }
  destruct (PL !! candidate_term request) as [ld|] eqn:HT.
  { exists PV. split; [done|]. split; [done|]. intros w T c [?|(_ & _ & [= -> -> ->] & _)]%HC; [by left|right]. congruence. }
  destruct (decide (request_preelection request = false /\ current_term_of s = candidate_term request /\
    OpIdLessThan (candidate_last_received request) (last_op_id (log_ (rlog s))) = false)) as [(Hpre & Hterm & Hle)|Hno].
  - destruct (cast_vote PN PL PV PA _ _ _ _ _ u s (candidate_term request) (candidate_uuid request) (candidate_last_received request) (log_ (rlog s)) Hp Hl Hu Hterm HT)
      as (PV' & Hs & HV & v & Hin & E1 & E2 & E3 & E4); [apply (lp_replicas _ _ _ _ _ _ _ _ Hl u s Hu)|done|done|].
    exists PV'. split; [done|]. split; [done|]. intros w T c [?|(_ & _ & [= -> -> ->] & _)]%HC; [by left|right]. intros _. exists v, n. split; [done|]. split; [done|]. split; [done|].
    split; [done|]. exists request. by rewrite E4.
  - exists PV. split; [done|]. split; [done|]. intros w T c [?|(Hpre & Hterm & -> & [?|Hle])]%HC; [by left|by left|]. by destruct Hno.
Qed.

Lemma start_inv N E R A C Ld G K Q W D p i s n e :
  log_inv release config (mkLogSystem (mkSystem N E R A C Ld) G K Q W D) p -> replica_in N G i = Some s -> R !! n = None ->
  system_ok release config (mkSystem N (<[n := run_of e]> E) (<[n := request_ e]> R) A (C ++ cast_by_start i e) Ld) ->
  (request_preelection (request_ e) = false -> candidate_uuid (request_ e) = i /\ candidate_term (request_ e) = current_term_of s /\
     candidate_last_received (request_ e) = last_op_id (mem s) /\ ∀ k last, ¬ asked R k i (current_term_of s) last) ->
  ∃ p', rtc protocol_step p p' /\
    log_inv release config (mkLogSystem (mkSystem N (<[n := run_of e]> E) (<[n := request_ e]> R) A (C ++ cast_by_start i e) Ld) G K Q W D) p'.
Proof using.
  intros [Hb Hp Hl Hv] Hi HR Hb' Hreq. destruct p as [PN PL PV PA]. unfold replica in *. cbn in *. set (request := request_ e) in *.
  assert (∀ k c T last, asked R k c T last -> asked (<[n := request]> R) k c T last) as Hmono.
  { intros k c T last (x & Hx & ?). exists x. split; [|done]. rewrite lookup_insert_ne by congruence. done. }
  assert (∀ k c T last, asked (<[n := request]> R) k c T last -> asked R k c T last \/
    (k = n /\ request_preelection request = false /\ c = i /\ T = current_term_of s /\ last = last_op_id (mem s))) as Hcase.
  { intros k c T last (x & Hx & Hpre & <- & <- & <-). destruct (decide (k = n)) as [->|Hne]; [|left; exists x; by rewrite lookup_insert_ne in Hx by done].
    rewrite lookup_insert_eq in Hx. injection Hx as <-. right. destruct (Hreq Hpre) as (? & ? & ? & _). done. }
  assert (∀ x, x ∈ cast_by_start i e <-> request_preelection request = false /\ x = (i, current_term_of s, i)) as Hcast.
  { intros x. unfold cast_by_start. fold request. destruct (request_preelection request) eqn:Hpre; [split; [by intros ?%elem_of_nil|by intros [? _]]|].
    rewrite list_elem_of_singleton. destruct (Hreq eq_refl) as (_ & -> & _). split; [by intros ->|by intros [_ ->]]. }
  assert (∃ PV', rtc protocol_step (mkProtocol PN PL PV PA) (mkProtocol PN PL PV' PA) /\ (∀ v, v ∈ PV -> v ∈ PV') /\
    (request_preelection request = false -> PL !! current_term_of s = None -> ∃ v, v ∈ PV' /\ v_voter v = i /\ v_term v = current_term_of s /\ v_candidate v = i /\ v_last v = last_op_id (mem s)))
    as (PV' & Hstep & HV & Hself).
  { destruct (request_preelection request); [by exists PV|]. destruct (PL !! current_term_of s) eqn:HT; [by exists PV|].
    destruct (cast_vote PN PL PV PA _ _ _ _ _ i s (current_term_of s) i (last_op_id (mem s)) (mem s) Hp Hl Hi eq_refl HT) as (PV' & Hs & HV & Hx);
      [done|apply (lp_replicas _ _ _ _ _ _ _ _ Hl i s Hi)|unfold OpIdLessThan; rewrite !Z.ltb_irrefl; done|]. exists PV'. done. }
  eexists. split; [exact Hstep|]. split; [done|by eapply protocol_steps_ok|by eapply log_part_votes|]. destruct Hv. split; cbn in *.
  - intros u x c Hu Hx. destruct (vp_voted0 u x c Hu Hx); [left; apply elem_of_app; by left|by right].
  - intros k c T last [Ha|(-> & Hpre & -> & -> & _)]%Hcase; apply elem_of_app; [left; by eapply vp_self0|right; by apply Hcast].
  - intros u T c [Hin|[Hpre [= -> -> ->]]%Hcast]%elem_of_app Hno.
    + destruct (vp_votes0 u T c Hin Hno) as (v & k & ? & ? & ? & ? & ?). exists v, k. split; [by apply HV|]. split; [done|]. split; [done|]. split; [done|]. by apply Hmono.
    + destruct (Hself Hpre Hno) as (v & ? & ? & ? & ? & ?). exists v, n. split; [done|]. split; [done|]. split; [done|]. split; [done|]. exists request. rewrite lookup_insert_eq.
      destruct (Hreq Hpre) as (? & ? & ? & _). split; [done|]. split; [done|]. split; [done|]. split; [done|congruence].
  - intros k k' c T last last' [Ha|(-> & Hpre & -> & -> & _)]%Hcase [Ha'|(-> & Hpre' & Hc' & HT' & _)]%Hcase; [by eapply vp_one0| | |done].
    + subst. destruct (Hreq Hpre') as (_ & _ & _ & Hx). by destruct (Hx _ _ Ha).
    + destruct (Hreq Hpre) as (_ & _ & _ & Hx). by destruct (Hx _ _ Ha').
  - intros k c T last [Ha|(-> & _ & -> & -> & _)]%Hcase; [by eapply vp_started0|]. by exists s.
  - intros k r c T last x Hr [Ha|(-> & _ & -> & -> & ->)]%Hcase Hx HT Hno.
    + destruct (decide (k = n)) as [->|Hne]; [destruct Ha as (? & ? & _); congruence|]. rewrite lookup_insert_ne in Hr by done. by eapply vp_last0.
    + change (replica_in N G i = Some x) in Hx. by assert (x = s) as -> by congruence.
  - intros T j Hin. destruct (vp_called0 T j Hin) as (k & last & ? & ?). exists k, last. split; [done|]. by apply Hmono.
Qed.

Lemma start_lift env data preelected s :
  pending_commit data = false -> ∃ e, DoStartElection release RangeTimeLimit env data preelected s = lift_op (RaftElection.DoStartElection release e data preelected) s.
Proof using. intros Hp. unfold DoStartElection. rewrite Hp, andb_false_r. cbn [mbind outcome_bind]. by eexists. Qed.

(** The elections that run, with the same requests. *)
Lemma elections_inv N E E' R A C Ld G K Q W D p :
  log_inv release config (mkLogSystem (mkSystem N E R A C Ld) G K Q W D) p -> system_ok release config (mkSystem N E' R A C Ld) ->
  (∀ n r, E' !! n = Some r -> is_Some (E !! n)) -> log_inv release config (mkLogSystem (mkSystem N E' R A C Ld) G K Q W D) p.
Proof using.
  intros [Hb Hp Hl Hv] Hb' HE. split; [done|done|done|]. destruct Hv. split; try done. intros n r c T last s Hr. cbn in Hr. destruct (HE n r Hr) as [r0 Hr0]. by eapply vp_last0.
Qed.

Lemma node_of sys p u s : log_inv release config sys p -> replica sys u = Some s -> node_ok config u (consensus s).
Proof using. intros [Hb _ _ _] [Hn _]%replica_in_Some. by apply (proj1 (sy_nodes _ _ _ Hb) u _ Hn). Qed.

Lemma start_step N E R A C Ld G K Q W D p env data pe i n s s' e :
  log_inv release config (mkLogSystem (mkSystem N E R A C Ld) G K Q W D) p -> replica_in N G i = Some s -> R !! n = None -> pending_commit data = false ->
  DoStartElection release RangeTimeLimit env data pe s = Done (s', Ok (Some e)) ->
  ∃ p', rtc protocol_step p p' /\ log_inv release config
    (mkLogSystem (mkSystem (<[i := consensus s']> N) (<[n := run_of e]> E) (<[n := request_ e]> R) A (C ++ cast_by_start i e) Ld) (<[i := rlog s']> G) K Q W D) p'.
Proof using Hc.
  intros Hinv Hi Hn Hpc Es. pose proof Hinv as [Hb Hp Hl Hv]. cbn in Hb.
  destruct (start_lift env data pe s Hpc) as [ev Eq]. rewrite Eq in Es. clear Eq. apply lift_silent in Es as [Es Hsame]; [|intros c r Ex; by apply DoStartElection_received in Ex as [? _]].
  pose proof (DoStartElection_received _ _ _ _ _ _ _ Es) as (_ & Hvote & Hlast). destruct (Hlast e eq_refl) as [Elast Hlt].
  pose proof (node_of _ _ i s Hinv Hi) as Hnode. destruct (DoStartElection_ok release ev config i _ _ _ _ _ Hc Hnode Es) as (Hs' & Hk & He). destruct (He e eq_refl) as (pre & Hne & Hpre).
  pose proof Hi as [HNi HGi]%replica_in_Some.
  destruct (silent_inv N E R A C Ld G K Q W D p i s s' (<[i := consensus s']> N) (<[i := rlog s']> G) K Hinv Hi (replica_in_insert N G i s') Hsame) as (p1 & Hs1 & Hinv1 & _); [|done| |].
  { intros x [->|?]%Hvote; [left; apply (nd_uuid _ _ _ Hnode)|by right]. } { by apply (node_step_silent release config N E R A C Ld i (consensus s)). }
  destruct (start_inv _ _ _ _ _ _ _ _ _ _ _ p1 i s' n e Hinv1) as (p2 & Hs2 & Hinv2); [by rewrite replica_in_insert, decide_True|done| | |exists p2; split; [by etrans|done]].
  - apply (system_step_ok release config (mkSystem N E R A C Ld)); [done|done|]. left. by apply (step_start release N E R A C Ld ev data pe i n (consensus s)).
  - intros Hnp. destruct Hne as [_ _ Ecand [Epr _] _ _]. assert (pre = false) as -> by congruence. destruct (Hpre eq_refl) as [Eterm _]. split; [done|]. split; [done|].
    split; [|intros k last Ha; destruct (vp_started _ _ _ _ Hv k i _ last Ha) as (x & Hx & Hle); change (replica_in N G i = Some x) in Hx; rewrite Hi in Hx; injection Hx as <-;
      specialize (Hlt Hnp); unfold current_term_of in *; lia].
    rewrite Elast, (log_same_mem _ _ Hsame). apply (lp_replicas _ _ _ _ _ _ _ _ Hl i s Hi).
Qed.

Lemma vote_step N E R A C Ld G K Q W D p env n request u s s' resp :
  log_inv release config (mkLogSystem (mkSystem N E R A C Ld) G K Q W D) p -> replica_in N G u = Some s -> R !! n = Some request ->
  env_latest_op_id env = last_op_id (log_ (rlog s)) -> lift_op (RequestVote release env request) s = Done (s', Ok resp) ->
  ∃ p', rtc protocol_step p p' /\ log_inv release config
    (mkLogSystem (mkSystem (<[u := consensus s']> N) E R (A ++ [(n, u, resp)]) (C ++ cast_by_answer u request resp) Ld) (<[u := rlog s']> G) K Q W D) p'.
Proof using Hc.
  intros Hinv Hu HR Henv Ev. pose proof Hinv as [Hb Hp Hl Hv]. cbn in Hb. apply lift_silent in Ev as [Ev Hsame]; [|intros c r Ex; by apply RequestVote_received in Ex as [? _]].
  pose proof (RequestVote_received _ _ _ _ _ _ Ev) as (_ & Hvote & Hgr). pose proof (node_of _ _ u s Hinv Hu) as Hnode.
  destruct (RequestVote_ok release env config u _ _ _ _ Hnode Ev) as (Hs' & Hk & Hg). destruct (Hg resp eq_refl) as (_ & _ & Hgt). pose proof Hu as [HNu HGu]%replica_in_Some.
  destruct p as [PN PL PV PA]. unfold replica in *. cbn in *.
  assert (PN !! u = Some (pnode_of s)) as Hn by (etrans; [apply (lp_nodes _ _ _ _ _ _ _ _ Hl u)|by rewrite Hu]).
  pose proof (silent_step PN PL PV PA u s s' Hn Hsame) as Hstep1. set (rep' := replica_in (<[u := consensus s']> N) (<[u := rlog s']> G)).
  pose proof (log_part_silent release config PN PL PV PV PA _ rep' Ld Q W D u s s' Hp Hl Hu (replica_in_insert N G u s') Hsame) as Hl1. pose proof (protocol_steps_ok _ _ Hp Hstep1) as Hp1.
  assert (rep' u = Some s') as Hu' by (unfold rep'; by rewrite replica_in_insert, decide_True).
  assert (∀ x, x ∈ cast_by_answer u request resp -> vote_granted resp = true /\ request_preelection request = false /\ x = (u, candidate_term request, candidate_uuid request)) as Hcast.
  { intros x. unfold cast_by_answer. destruct (vote_granted resp), (request_preelection request); cbn; try by intros ?%elem_of_nil. by intros ->%list_elem_of_singleton. }
  destruct (vote_recorded _ _ _ _ rep' R C (C ++ cast_by_answer u request resp) _ _ _ _ n u s' request Hp1 Hl1 Hu' HR) as (PV' & Hstep2 & HV & Hnew).
  { intros x [Hin|Hin]%elem_of_app; [by left|right]. apply Hcast in Hin as (Hg' & Hpre & ->). destruct (Hgt Hg' Hpre) as [Ht _]. split; [done|]. split; [done|]. split; [done|].
    rewrite (proj1 Hsame), <- Henv. destruct (Hgr resp eq_refl Hg' Hpre) as [[Hvo Hvt]|?]; [left|by right].
    destruct (vp_voted _ _ _ _ Hv u s _ Hu Hvo) as [Hin|Ec]; [unfold current_term_of in Hin; by rewrite Hvt in Hin|]. rewrite <- Ec at 1. apply (vp_self _ _ _ _ Hv n _ _ (candidate_last_received request)). by exists request. }
  exists (mkProtocol (<[u := pnode_of s']> PN) PL PV' PA). split; [by etrans|]. split.
  - apply (system_step_ok release config (mkSystem N E R A C Ld)); [done|done|]. left. by apply (RaftElection.step_vote release N E R A C Ld env n request u (consensus s)).
  - by eapply protocol_steps_ok.
  - by eapply log_part_votes.
  - cbn. eapply (voting_part_node _ _ _ _ _ _ K K u s s'); try done.
    + apply replica_in_insert.
    + destruct Hsame as [_ [_ [[_ ?]|[_ ?]]]]; unfold current_term_of; lia.
    + intros x Hx. apply elem_of_app. by left.
    + intros c [[-> (resp' & [= <-] & Hg' & Hpre)]|[Hvo Et]]%Hvote.
      * left. apply elem_of_app. right. destruct (Hgt Hg' Hpre) as [Ht _]. unfold current_term_of, cast_by_answer. rewrite Hg', Hpre, Ht. by apply list_elem_of_singleton.
      * destruct (vp_voted _ _ _ _ Hv u s c Hu Hvo) as [Hin|?]; [left|by right]. apply elem_of_app. left. unfold current_term_of in *. by rewrite Et.
    + eapply (voting_last_kept _ _ _ _ _ u s s' E Hv); try done; [|left; by apply log_same_mem]. destruct Hsame as [_ [_ [[_ ?]|[_ ?]]]]; unfold current_term_of; lia.
Qed.

(** Steps of the replica alone, with a step of the elections. *)
Lemma silent_step_inv N E R A C Ld G K Q W D p u s s' N' G' K' :
  log_inv release config (mkLogSystem (mkSystem N E R A C Ld) G K Q W D) p -> replica_in N G u = Some s ->
  (∀ w, replica_in N' G' w = if decide (w = u) then Some s' else replica_in N G w) -> log_same s s' ->
  (∀ x, vote_of (consensus s') = Some x -> x = u \/ vote_of (consensus s) = Some x /\ current_term_of s' = current_term_of s) ->
  (∀ n, n ∈ K -> n ∈ K') -> system_step release (mkSystem N E R A C Ld) (mkSystem N' E R A C Ld) ->
  ∃ p', rtc protocol_step p p' /\ log_inv release config (mkLogSystem (mkSystem N' E R A C Ld) G' K' Q W D) p'.
Proof using Hc.
  intros Hinv Hu Hrep Hs Hv HK Hb. destruct (silent_inv N E R A C Ld G K Q W D p u s s' N' G' K' Hinv Hu Hrep Hs Hv HK) as (p' & ? & ? & _); [|by exists p'].
  by eapply system_step_ok; [..|exact Hb]; [|apply Hinv].
Qed.

Lemma no_vote_or u c c' : no_vote c c' -> ∀ x, vote_of c' = Some x -> x = u \/ vote_of c = Some x /\ GetCurrentTermUnlocked c' = GetCurrentTermUnlocked c.
Proof using. intros H x Hx. right. by apply H. Qed.

Definition leads (N : gmap uuid RaftConsensus) (E : gmap nat run_state) (R : gmap nat VoteRequestPB) (A : list (nat * uuid * VoteResponsePB)) (C : list (uuid * Z * uuid))
    (Ld : list (Z * uuid)) (G : gmap uuid LogState) (K : list nat) (Q : gmap Z PeerMessageQueue) (W : gmap (Z * uuid) message) (D : list (Z * MajorityReplicatedData)) (sys' : log_system) : Prop :=
  ∃ env now hybrid_time n r result i s c' again s' added q, E !! n = Some r /\ result ∈ calls r /\ n ∉ K /\ i = candidate_uuid (request_ (election r)) /\ replica_in N G i = Some s /\
    AsyncAppendReplicates env = Ok tt /\ Z.of_nat (length (mem s)) + 1 < 2 ^ 63 /\
    DoElectionCallback release (raft_env env) result (consensus s) = Done (c', true, again) /\ lead release env now hybrid_time i (with_consensus c' s) = Done (s', Ok added, q) /\
    sys' = mkLogSystem (mkSystem (<[i := consensus s']> N) E R A C (Ld ++ [(current_term_of s', i)])) (<[i := rlog s']> G) (K ++ [n]) (<[current_term_of s' := q]> Q) W D.

Lemma election_silent_inv N E R A C Ld G K Q W D p sys' :
  log_inv release config (mkLogSystem (mkSystem N E R A C Ld) G K Q W D) p ->
  election_step release RangeTimeLimit (mkLogSystem (mkSystem N E R A C Ld) G K Q W D) sys' ->
  (∃ p', rtc protocol_step p p' /\ log_inv release config sys' p') \/ leads N E R A C Ld G K Q W D sys'.
Proof using Hc.
  intros Hinv Hstep. pose proof Hinv as [Hb Hp Hl Hv]. cbn in Hb.
  inversion Hstep as [? ? ? ? ? ? ? ? ? ? ? env data pe i n s s' e Hi Hn Hpc Es|? ? ? ? ? ? ? ? ? ? ? env data pe i s s' r Hi Hpc Es Hr|? ? ? ? ? ? ? ? ? ? ? env n request u s s' resp Hu HR Henv Ev
    |? ? ? ? ? ? ? ? ? ? ? env n request u s s' c Hu HR Ev|? ? ? ? ? ? ? ? ? ? ? n r r' Hn Hr|? ? ? ? ? ? ? ? ? ? ? n r u rpc r' Hn Hr Harr
    |? ? ? ? ? ? ? ? ? ? ? env n r result s c' again Hn Hres HK Hs Ecb|? ? ? ? ? ? ? ? ? ? ? env now ht n r result i s c' again s' added q Hn Hres HK Hi Hs He1 He2 He3 Ecb El
    |? ? ? ? ? ? ? ? ? ? ? env i t s s' r Hi Et]; subst; [left|left|left|left|left|left|left|right|left].
  - by eapply start_step.
  - destruct (start_lift env data pe s Hpc) as [ev Eq]. rewrite Eq in Es. clear Eq. apply lift_silent in Es as [Es Hsame]; [|intros c x Ex; by apply DoStartElection_received in Ex as [? _]].
    pose proof (node_of _ _ i s Hinv Hi) as Hnode. pose proof Hi as [HNi _]%replica_in_Some. pose proof (DoStartElection_received _ _ _ _ _ _ _ Es) as (_ & Hvote & _).
    eapply (silent_step_inv N E R A C Ld G K Q W D p i s s' _ _ K Hinv Hi (replica_in_insert N G i s') Hsame); [|done|].
    + intros x [->|?]%Hvote; [left; apply (nd_uuid _ _ _ Hnode)|by right].
    + left. by eapply (step_no_start release N E R A C Ld ev data pe i (consensus s)).
  - by eapply vote_step.
  - apply lift_silent in Ev as [Ev Hsame]; [|intros x y Ex; by apply RequestVote_received in Ex as [? _]]. pose proof Hu as [HNu _]%replica_in_Some.
    pose proof (RequestVote_received _ _ _ _ _ _ Ev) as (_ & Hvote & _). eapply (silent_step_inv N E R A C Ld G K Q W D p u s s' _ _ K Hinv Hu (replica_in_insert N G u s') Hsame); [|done|].
    + intros x [[_ (? & ? & _)]|?]%Hvote; [done|by right].
    + left. by eapply (step_no_vote release N E R A C Ld env n request u (consensus s)).
  - exists p. split; [done|]. eapply (elections_inv N E); [done| |intros k x Hk; destruct (decide (k = n)) as [->|Hne]; [by exists r|rewrite lookup_insert_ne in Hk by done; by exists x]].
    eapply system_step_ok; [done|exact Hb|]. left. by eapply step_run.
  - exists p. split; [done|]. eapply (elections_inv N E); [done| |intros k x Hk; destruct (decide (k = n)) as [->|Hne]; [by exists r|rewrite lookup_insert_ne in Hk by done; by exists x]].
    eapply system_step_ok; [done|exact Hb|]. left. by eapply step_answer.
  - pose proof (DoElectionCallback_received _ _ _ _ _ _ _ Ecb) as (Hrec & Hvote & _). pose proof Hs as [HNs _]%replica_in_Some.
    eapply (silent_step_inv N E R A C Ld G K Q W D p _ s (with_consensus c' s) _ _ (K ++ [n]) Hinv Hs (λ w, replica_in_consensus N G _ s c' w Hs)); [done|by apply no_vote_or|..].
    + intros k Hk. apply elem_of_app. by left.
    + left. rewrite <- (app_nil_r Ld) at 2. by eapply (step_callback release N E R A C Ld env n r result (consensus s) c' false again).
  - exists env, now, ht, n, r, result, (candidate_uuid (request_ (election r))), s, c', again, s', added, q. done.
  - apply lift_silent in Et as [Et Hsame]; [|intros x y Ex; by apply HandleTermAdvance_received in Ex as [? _]]. pose proof Hi as [HNi _]%replica_in_Some.
    pose proof (HandleTermAdvance_received _ _ _ _ _ _ Et) as (_ & Hvote & _).
    eapply (silent_step_inv N E R A C Ld G K Q W D p i s s' _ _ K Hinv Hi (replica_in_insert N G i s') Hsame); [by apply no_vote_or|done|]. left. by eapply (RaftElection.step_term release N E R A C Ld env i t (consensus s)).
Qed.

End elections.

(** ** Leaders *)

Section leaders.
Context (release : bool) (RangeTimeLimit : Z) (config : RaftConfigPB) (Hc : config_ok config) (HQ : QuorumSystem).
Implicit Types (p : protocol Operation).

(** The log of a term begins, or grows. *)
Lemma log_part_lead PN PL PV PA PA' rep rep' Ld Ld' Q Q' W D T i ld' s s' q' :
  let p := mkProtocol PN PL PV PA in
  let p' := mkProtocol (<[i := pnode_of s']> PN) (<[T := ld']> PL) PV PA' in
  log_part release config p rep Ld Q W D -> (∀ a, a ∈ PA -> a ∈ PA') -> rep i = Some s -> (∀ w, rep' w = if decide (w = i) then Some s' else rep w) ->
  l_node ld' = i -> (∀ ld, PL !! T = Some ld -> l_node ld = i /\ l_start ld' = l_start ld /\ l_log ld `prefix_of` l_log ld') ->
  (∀ x, x ∈ Ld' <-> x ∈ Ld \/ x = (T, i)) -> current_term_of s <= T -> current_term_of s' = T -> node_inv p' i s' -> leader_inv p' rep' T ld' ->
  Q' !! T = Some q' -> (∀ T1, T1 ≠ T -> Q' !! T1 = Q !! T1) -> queue_inv release config p' T ld' q' -> (∀ u, u ≠ i -> view_of q' u = tracked Q T u) ->
  (∀ u x, u ≠ i -> rep u = Some x -> exchange_ok T (l_log ld') (acked PA' u T) (follower_of x) (tracked Q T u) (W !! (T, u))) ->
  log_part release config p' rep' Ld' Q' W D.
Proof using.
  intros p p' Hl HA Hi Hrep Hnode Hgrow HLd Hts Hts' Hni Hle HQT HQne Hqi Hview Hex. pose proof Hl as []. 
  assert (grown p p') as Hg.
  { split; [|done]. intros T1 ld1 H1. cbn. destruct (decide (T1 = T)) as [->|Hne]; [|exists ld1; by rewrite lookup_insert_ne]. rewrite lookup_insert_eq. destruct (Hgrow ld1 H1) as (_ & ? & ?). by exists ld'. }
  assert (∀ w x, rep' w = Some x -> w = i /\ x = s' \/ w ≠ i /\ rep w = Some x) as Hcase.
  { intros w x. rewrite Hrep. destruct (decide (w = i)) as [->|]; [intros [= <-]; by left|by right]. }
  assert (∀ T1 ld1, p_leaders p' !! T1 = Some ld1 -> T1 = T /\ ld1 = ld' \/ T1 ≠ T /\ PL !! T1 = Some ld1) as HPL.
  { intros T1 ld1 H1. cbn in H1. destruct (decide (T1 = T)) as [->|Hne]; [rewrite lookup_insert_eq in H1; injection H1 as <-; by left|rewrite lookup_insert_ne in H1 by done; by right]. }
  assert (∀ T1 ld1, PL !! T1 = Some ld1 -> ∃ ld2, p_leaders p' !! T1 = Some ld2 /\ l_node ld2 = l_node ld1 /\ l_log ld1 `prefix_of` l_log ld2) as Hup.
  { intros T1 ld1 H1. cbn. destruct (decide (T1 = T)) as [->|Hne]; [|exists ld1; by rewrite lookup_insert_ne]. rewrite lookup_insert_eq. exists ld'. destruct (Hgrow ld1 H1) as (-> & _ & ?). done. }
  split.
  - intros u. cbn. rewrite Hrep. destruct (decide (u = i)) as [->|Hne]; [by rewrite lookup_insert_eq|rewrite lookup_insert_ne by done; apply lp_nodes0].
  - intros u x [[-> ->]|[_ Hx]]%Hcase; [done|]. by eapply node_inv_grown, lp_replicas0.
  - intros T1 j. rewrite HLd, lp_leaders0. split.
    + intros [(ld1 & H1 & <-)|[= -> ->]]; [destruct (Hup T1 ld1 H1) as (ld2 & ? & ? & _); by exists ld2|]. exists ld'. cbn. by rewrite lookup_insert_eq.
    + intros (ld1 & [[-> ->]|[_ H1]]%HPL & <-); [right; by rewrite Hnode|left; by exists ld1].
  - intros T1 ld1 [[-> ->]|[Hne H1]]%HPL; [done|]. destruct (lp_leading0 T1 ld1 H1). split; try done; [by eapply acked_grown|].
    intros x [[E ->]|[_ Hx]]%Hcase Hx1; [congruence|]. by apply le_mem0.
  - intros T1 ld1 u x [[-> ->]|[Hne H1]]%HPL Hu [[-> ->]|[Hne' Hx]]%Hcase; unfold tracked; rewrite ?HQT, ?HQne by done.
    + by rewrite Hnode in Hu.
    + rewrite Hview by done. by apply Hex.
    + eapply exchange_acks; [intros k; by apply (acked_grown p p')|]. eapply (exchange_other T1 _ _ (follower_of s)); [by apply lp_exchange0|cbn; lia|cbn; congruence|].
      cbn. apply (ni_ok _ _ _ Hni).
    + eapply exchange_acks; [intros k; by apply (acked_grown p p')|]. by apply lp_exchange0.
  - intros T1 u r Hr. destruct (lp_requested0 T1 u r Hr) as (ld1 & H1 & ? & ? & ?). destruct (Hup T1 ld1 H1) as (ld2 & ? & En & ?). exists ld2. rewrite En.
    split; [done|]. split; [done|]. split; [done|]. by eapply chosen_id_grown.
  - intros T1 u m Hm. destruct (lp_wired0 T1 u m Hm) as (ld1 & H1 & ?). destruct (Hup T1 ld1 H1) as (ld2 & ? & En & ?). exists ld2. by rewrite En.
  - intros T1 q Hq. destruct (decide (T1 = T)) as [->|Hne].
    + rewrite HQT in Hq. injection Hq as <-. exists ld'. split; [cbn; by rewrite lookup_insert_eq|done].
    + rewrite HQne in Hq by done. destruct (lp_queues0 T1 q Hq) as (ld1 & ? & ?). exists ld1. split; [cbn; by rewrite lookup_insert_ne|]. by eapply queue_inv_grown.
  - intros T1 d Hd. destruct (lp_told0 T1 d Hd) as (ld1 & H1 & ?). destruct (Hup T1 ld1 H1) as (ld2 & ? & _ & ?). exists ld2. split; [done|]. by eapply supported_id_grown.
  - intros w Hw. rewrite Hrep. destruct (decide (w = i)); [by eexists|by apply lp_present0].
Qed.

(** A leader appends operations and acknowledges them. *)
Lemma append_steps PN PL PV PA i T n ld added :
  PN !! i = Some n -> n_term n = T -> PL !! T = Some ld -> l_node ld = i -> n_mem n = l_log ld ->
  (∀ k op, added !! k = Some op -> op_id op = mkOpId T (Z.of_nat (length (l_log ld) + k) + 1)) -> added ≠ [] ->
  rtc protocol_step (mkProtocol PN PL PV PA)
    (mkProtocol (<[i := mkPnode T (l_log ld ++ added) (l_log ld ++ added)]> PN) (<[T := mkLeadership i (l_start ld) (l_log ld ++ added)]> PL) PV
       (PA ++ [(i, T, length (l_log ld ++ added))])).
Proof using.
  intros Hi Ht HT Hn Em Hids Hne. 
  assert (∀ k, (k < length added)%nat -> rtc protocol_step (mkProtocol PN PL PV PA) (mkProtocol (<[i := mkPnode T (l_log ld ++ take (S k) added) (l_log ld ++ take (S k) added)]> PN)
    (<[T := mkLeadership i (l_start ld) (l_log ld ++ take (S k) added)]> PL) PV PA)) as Hk.
  { intros k Hk. induction k as [|k IH].
    - destruct (lookup_lt_is_Some_2 added 0%nat) as [e He]; [lia|]. apply rtc_once. assert (take 1 added = [e]) as -> by (destruct added; [done|]; by injection He as ->).
      pose proof (p_append PN PL PV PA n ld e) as Hp. rewrite Hn, Ht in Hp. unfold with_logs in Hp. rewrite Ht, Em in Hp. apply Hp; try done.
      change (op_id_of e) with (op_id e). rewrite (Hids 0%nat e He). f_equal. lia.
    - destruct (lookup_lt_is_Some_2 added (S k)) as [e He]; [lia|]. etrans; [apply IH; lia|]. apply rtc_once. rewrite (take_S_r added (S k) e) by done. rewrite !app_assoc.
      set (l := l_log ld ++ take (S k) added). set (n1 := mkPnode T l l). set (ld1 := mkLeadership i (l_start ld) l).
      pose proof (p_append (<[i := n1]> PN) (<[T := ld1]> PL) PV PA n1 ld1 e) as Hp. cbn in Hp. unfold with_logs in Hp. cbn in Hp. rewrite !insert_insert_eq in Hp. apply Hp.
      + apply lookup_insert_eq.
      + apply lookup_insert_eq.
      + done.
      + change (op_id_of e) with (op_id e). rewrite (Hids (S k) e He). f_equal. unfold l. rewrite length_app, length_take. lia. }
  assert (0 < length added)%nat as Hpos by (destruct added; [done|cbn; lia]). specialize (Hk (length added - 1)%nat). rewrite take_ge in Hk by lia.
  etrans; [apply Hk; lia|]. apply rtc_once. set (l := l_log ld ++ added).
  apply (p_ack (<[i := mkPnode T l l]> PN) (<[T := mkLeadership i (l_start ld) l]> PL) PV PA i (mkPnode T l l) (mkLeadership i (l_start ld) l) (length l)).
  - apply lookup_insert_eq.
  - apply lookup_insert_eq.
  - done.
  - cbn. unfold contains. by rewrite take_ge.
Qed.

(** The operations that a leader has appended. *)
Lemma appended_ids added s s' k op : appended_ops added s s' -> added !! k = Some op -> op_id op = mkOpId (current_term_of s) (Z.of_nat (length (mem s) + k) + 1).
Proof using.
  intros [Hok Em _ _ Ht _ _ _ _] Hk. pose proof (lg_index _ (co_mem _ (ro_core _ Hok)) (length (mem s) + k)%nat op) as Hi.
  rewrite Em, lookup_app_r in Hi by lia. replace (_ + k - _)%nat with k in Hi by lia. specialize (Hi Hk). specialize (Ht op (list_elem_of_lookup_2 _ _ _ Hk)).
  change (index (op_id op) = Z.of_nat (length (mem s) + k) + 1) in Hi. destruct (op_id op) as [t x]. cbn in *. congruence.
Qed.

Lemma appended_config added s s' : appended_ops added s s' -> ops_no_config (mem s) -> ops_no_config (mem s').
Proof using.
  intros [_ _ Ea _ _ _ _ _ Hcf] Hm. unfold ops_no_config, mem in *. rewrite Ea. apply Forall_app in Hm as [Ha Hp]. apply Forall_app. split; [done|].
  unfold no_config in Hcf. rewrite Forall_fmap in *. by apply Hcf.
Qed.

Lemma appended_node p p' added i s s' :
  appended_ops added s s' -> grown p p' -> node_inv p i s -> is_Some (p_leaders p' !! current_term_of s') -> node_inv p' i s'.
Proof using.
  intros Ha Hg [] HT. split; [done|apply Ha| |done]. rewrite (ap_applied _ _ _ Ha), (ap_term _ _ _ Ha). by eapply chosen_grown.
Qed.

Lemma appended_leading PN PL PV PA rep added T i start s s' :
  appended_ops added s s' -> added ≠ [] -> ops_no_config (mem s) -> current_term_of s = T -> rep i = Some s' ->
  leader_inv (mkProtocol PN PL PV (PA ++ [(i, T, length (mem s ++ added))])) rep T (mkLeadership i start (mem s ++ added)).
Proof using.
  intros Ha Hne Hno HT Hrep. pose proof (ap_mem _ _ _ Ha) as Em. rewrite <- Em. split; cbn.
  - by eapply appended_config.
  - apply (co_fits _ (ro_core _ (ap_ok _ _ _ Ha))).
  - destruct (exists_last Hne) as (l & op & El). rewrite Em, El, app_assoc, last_op_id_snoc. rewrite <- HT. apply (ap_terms _ _ _ Ha). rewrite El. apply elem_of_app. right. by left.
  - exists (length (mem s')). split; [done|]. apply elem_of_app. right. by left.
  - intros x Hx _. rewrite Hrep in Hx. injection Hx as <-. split; [done|]. by apply (ap_some _ _ _ Ha).
Qed.

(** *** A new leader *)

Context (HV : VerifyRaftConfig config COMMITTED_QUORUM = Ok tt).
Context (Hquorum : ∀ m Q, MajoritySize release (CountVoters config) = Done m -> quorum config m Q -> is_quorum Q).

Lemma no_leader_yet N E R A C Ld G K Q W D p n r i T last :
  log_inv release config (mkLogSystem (mkSystem N E R A C Ld) G K Q W D) p -> elected release config C T i ->
  E !! n = Some r -> n ∉ K -> asked R n i T last -> p_leaders p !! T = None.
Proof using Hc.
  intros [Hb _ Hl Hv] Hel Hn HK Hask. destruct (p_leaders p !! T) as [ld|] eqn:HT; [|done]. exfalso.
  assert ((T, l_node ld) ∈ Ld) as Hin by (apply (lp_leaders _ _ _ _ _ _ _ _ Hl); by exists ld).
  assert (l_node ld = i) as Hi.
  { apply (one_leader release config (mkSystem N E R A C (Ld ++ [(T, i)])) T); [done| |cbn; apply elem_of_app; by left|cbn; apply elem_of_app; right; by left].
    destruct Hb as [? ? ? HL]. split; try done. cbn. intros T1 j [?|[= -> ->]%list_elem_of_singleton]%elem_of_app; [by apply HL|done]. }
  rewrite Hi in Hin. destruct (vp_called _ _ _ _ Hv T i Hin) as (n' & last' & HK' & Hask'). by rewrite (vp_one _ _ _ _ Hv _ _ _ _ _ _ Hask Hask') in HK.
Qed.

Lemma elect_step N E R A C Ld G K Q W D PN PL PV PA n r i T last s :
  let p := mkProtocol PN PL PV PA in
  log_inv release config (mkLogSystem (mkSystem N E R A C Ld) G K Q W D) p -> elected release config C T i ->
  E !! n = Some r -> asked R n i T last -> replica_in N G i = Some s -> current_term_of s = T -> PL !! T = None ->
  protocol_step p (mkProtocol PN (<[T := mkLeadership i (mem s) (mem s)]> PL) PV PA).
Proof using Hquorum.
  intros p [_ _ Hl Hv] (m & Qv & Em & HQv & Hcast) Hn Hask Hs HT Hno. assert (PN !! i = Some (pnode_of s)) as Hi by (etrans; [apply (lp_nodes _ _ _ _ _ _ _ _ Hl i)|by unfold replica; cbn; rewrite Hs]).
  pose proof (p_elect PN PL PV PA i (pnode_of s) Qv Hi) as Hp. cbn in Hp. rewrite HT in Hp. apply Hp; [done|by eapply Hquorum|].
  intros u Hu. destruct (vp_votes _ _ _ _ Hv u T i (Hcast u Hu) Hno) as (v & n' & Hin & Evu & Evt & Evc & Hask').
  exists v. do 4 (split; [done|]). rewrite (vp_one _ _ _ _ Hv _ _ _ _ _ _ Hask' Hask) in Hask'. by apply (vp_last _ _ _ _ Hv n r i T _ s).
Qed.

Lemma lead_spec env now hybrid_time i s s' added q :
  replica_ok s -> node_ok config i (consensus s) -> AsyncAppendReplicates env = Ok tt -> term (last_op_id (mem s)) <= current_term_of s -> Z.of_nat (length (mem s)) + 1 < 2 ^ 63 ->
  lead release env now hybrid_time i s = Done (s', Ok added, q) ->
  ∃ op, added = [op] /\ appended_ops [op] s s' /\ queue_ok release q /\ leader_ok release q config /\ mode (queue_state_ q) = LEADER_MODE /\ local_peer_uuid_ q = i /\
    last_appended (queue_state_ q) = op_id op /\ queue_current_term (queue_state_ q) = current_term_of s /\
    committed_index (queue_state_ q) = GetCommittedOpIdUnlocked s /\ majority_replicated_opid (queue_state_ q) = GetCommittedOpIdUnlocked s /\
    (∀ u, u ≠ i -> view_of q u = None) /\ (∀ v, view_of q i = Some v -> v_received v = MinimumOpId).
Proof using HV.
  intros Hs [_ _ Hcf Hpend] He Ht Hf E. assert (GetActiveConfigUnlocked (consensus s) = config) as Econf by (unfold GetActiveConfigUnlocked, active_config; by rewrite Hpend).
  unfold lead in E. rewrite Econf in E. apply outcome_bind_Done in E as (q0 & E0 & E). apply outcome_bind_Done in E as (q1 & E1 & E).
  apply outcome_bind_Done in E as ([s2 r2] & E2 & E). injection E as <- -> Eq. destruct (append_no_op_spec _ _ hybrid_time s s2 _ Hs He Ht Hf E2) as (op & [= ->] & Hop & Ha).
  exists op. split; [done|]. split; [done|]. subst q. cbn [last fmap option_fmap option_map]. eapply lead_queue; [done|done|done|]. apply (ap_terms _ _ _ Ha). by left.
Qed.

Lemma from_leaders_config p l rep Ld Q W D : log_part release config p rep Ld Q W D -> from_leaders (p_leaders p) l -> ops_no_config l.
Proof using.
  intros Hl Hf. apply Forall_lookup. intros k op Hk. destruct (Hf k op Hk) as (ld & HT & Hlt & [x Hx]).
  pose proof (le_config _ _ _ _ (lp_leading _ _ _ _ _ _ _ _ Hl _ ld HT)) as Hno. assert (l_log ld !! k = Some op) as Hk'.
  { subst l. rewrite lookup_app_l in Hk by (rewrite length_take; lia). by rewrite lookup_take_lt in Hk by lia. }
  unfold ops_no_config in Hno. rewrite Forall_lookup in Hno. by apply Hno in Hk'.
Qed.

Lemma log_part_new_leader N G PN PL PV PA Ld Q W D T i s s' op q :
  let p := mkProtocol PN PL PV PA in
  let L := mem s ++ [op] in
  let p' := mkProtocol (<[i := pnode_of s']> PN) (<[T := mkLeadership i (mem s) L]> PL) PV (PA ++ [(i, T, length L)]) in
  protocol_ok p -> log_part release config p (replica_in N G) Ld Q W D -> PL !! T = None -> replica_in N G i = Some s -> current_term_of s = T -> appended_ops [op] s s' ->
  queue_ok release q -> leader_ok release q config -> mode (queue_state_ q) = LEADER_MODE -> local_peer_uuid_ q = i -> last_appended (queue_state_ q) = op_id op -> queue_current_term (queue_state_ q) = T ->
  committed_index (queue_state_ q) = GetCommittedOpIdUnlocked s -> majority_replicated_opid (queue_state_ q) = GetCommittedOpIdUnlocked s ->
  (∀ u, u ≠ i -> view_of q u = None) -> (∀ v, view_of q i = Some v -> v_received v = MinimumOpId) ->
  log_part release config p' (replica_in (<[i := consensus s']> N) (<[i := rlog s']> G)) (Ld ++ [(T, i)]) (<[T := q]> Q) W D.
Proof using.
  intros p L p' Hp Hl Hno Hi HT Ha Hq Hlead Emode Eloc Elast Eterm Ecom Emaj Vn Vi. pose proof (lp_replicas _ _ _ _ _ _ _ _ Hl i s Hi) as Hni.
  assert (grown p p') as Hg.
  { split; [|intros a Ha'; apply elem_of_app; by left]. intros T1 ld1 H1. cbn. destruct (decide (T1 = T)) as [->|Hne]; [cbn in H1; congruence|exists ld1; by rewrite lookup_insert_ne]. }
  assert (PN !! i = Some (pnode_of s)) as HPN by (etrans; [apply (lp_nodes _ _ _ _ _ _ _ _ Hl i)|by rewrite Hi]).
  assert (ops_no_config (mem s)) as Hcf.
  { eapply from_leaders_config; [exact Hl|]. destruct (po_nodes _ Hp i _ HPN) as [_ Hpre _ Hfrom _]. by eapply from_leaders_prefix. }
  assert (Q !! T = None) as HQT by (destruct (Q !! T) as [x|] eqn:Ex; [|done]; destruct (lp_queues _ _ _ _ _ _ _ _ Hl T x Ex) as (ld & H1 & _); cbn in H1; congruence).
  assert (chosen_id p' T L (GetCommittedOpIdUnlocked s)) as Hch.
  { destruct Hni as [_ [[Hm Hcm _] _ _ _ _ _] Hch _]. rewrite Hcm. assert (log_ok (applied (rlog s))) as Hla by (rewrite applied_mem; by apply log_ok_take).
    unfold chosen_id. rewrite last_op_id_index by done. pose proof (mem_length s). rewrite Nat2Z.id. unfold L. rewrite length_app. split; [lia|].
    rewrite take_app_le by lia. rewrite <- applied_mem. rewrite <- HT. by eapply chosen_grown. }
  eapply (log_part_lead PN PL PV PA _ _ _ Ld _ Q _ W D T i (mkLeadership i (mem s) L) s s' q Hl); try done.
  - intros a Ha'. apply elem_of_app. by left.
  - apply replica_in_insert.
  - intros ld H1. congruence.
  - intros x. rewrite elem_of_app, list_elem_of_singleton. done.
  - lia.
  - by rewrite (ap_term _ _ _ Ha).
  - eapply appended_node; [done|exact Hg|done|]. rewrite (ap_term _ _ _ Ha), HT. cbn. by rewrite lookup_insert_eq.
  - apply (appended_leading _ _ _ _ _ [op] T i (mem s) s s'); try done. by rewrite replica_in_insert, decide_True.
  - apply lookup_insert_eq.
  - intros T1 Hne. by apply lookup_insert_ne.
  - split; try done; cbn.
    + unfold L. by rewrite Elast, last_op_id_snoc.
    + by rewrite Ecom.
    + left. by rewrite Emaj.
    + intros v Hv. left. by apply Vi.
  - intros u Hu. unfold tracked. rewrite HQT. by apply Vn.
  - intros u x Hu Hx. unfold tracked. rewrite HQT. destruct (lp_replicas _ _ _ _ _ _ _ _ Hl u x Hx) as [_ Hok _ Hcu].
    destruct (W !! (T, u)) as [m|] eqn:Em; [destruct (lp_wired _ _ _ _ _ _ _ _ Hl T u m Em) as (ld & H1 & _); cbn in H1; congruence|].
    split; try done; [apply Hok|]. cbn. intros Hx1 Hx2. destruct (Hcu Hx2) as [ld H1]. cbn in H1. congruence.
Qed.

Lemma voting_part_called p rep N N' E R A C Ld K n i T last :
  voting_part p rep (mkSystem N E R A C Ld) K -> n ∈ K -> asked R n i T last -> voting_part p rep (mkSystem N' E R A C (Ld ++ [(T, i)])) K.
Proof using. intros [] HK Hask. split; try done. cbn. intros T1 j [?|[= -> ->]%list_elem_of_singleton]%elem_of_app; [by apply vp_called0|by exists n, last]. Qed.

Lemma lead_step_inv N E R A C Ld G K Q W D p env now hybrid_time n r i s s' added q last :
  log_inv release config (mkLogSystem (mkSystem N E R A C Ld) G K Q W D) p -> E !! n = Some r -> n ∉ K -> replica_in N G i = Some s ->
  asked R n i (current_term_of s) last -> elected release config C (current_term_of s) i ->
  AsyncAppendReplicates env = Ok tt -> Z.of_nat (length (mem s)) + 1 < 2 ^ 63 -> lead release env now hybrid_time i s = Done (s', Ok added, q) ->
  ∃ p', rtc protocol_step p p' /\ log_inv release config (mkLogSystem (mkSystem (<[i := consensus s']> N) E R A C (Ld ++ [(current_term_of s', i)])) (<[i := rlog s']> G) (K ++ [n])
    (<[current_term_of s' := q]> Q) W D) p'.
Proof using Hc HV Hquorum.
  intros Hinv Hn HK Hi Hask Hel He Hfits El. pose proof Hinv as [Hb Hp Hl Hv]. cbn in Hb. pose proof (lp_replicas _ _ _ _ _ _ _ _ Hl i s Hi) as Hni. destruct p as [PN PL PV PA].
  assert (node_ok config i (consensus s)) as Hnode by (eapply node_of; [exact Hinv|exact Hi]). pose proof Hi as [HNi _]%replica_in_Some. remember (current_term_of s) as T eqn:HT.
  assert (PL !! T = None) as Hno by (by apply (no_leader_yet N E R A C Ld G K Q W D (mkProtocol PN PL PV PA) n r i T last)).
  assert (PN !! i = Some (pnode_of s)) as HPN by (etrans; [apply (lp_nodes _ _ _ _ _ _ _ _ Hl i)|unfold replica; cbn; by rewrite Hi]).
  destruct (lead_spec env now hybrid_time i s s' added q) as (op & -> & Ha & Hq & Hlead & Emode & Eloc & Elast & Eterm & Ecom & Emaj & Vn & Vi); try done; [apply Hni| |].
  { destruct (po_nodes _ Hp i _ HPN) as [H0 Hpre _ _ Hts]. apply last_op_id_term_le; [done|]. intros e Hin. eapply Hts, elem_of_prefix; [exact Hin|done]. }
  assert (current_term_of s' = T) as HT' by (by rewrite (ap_term _ _ _ Ha)). rewrite HT'. set (L := mem s ++ [op]). set (ld := mkLeadership i (mem s) (mem s)).
  assert (rtc protocol_step (mkProtocol PN PL PV PA) (mkProtocol (<[i := pnode_of s']> PN) (<[T := mkLeadership i (mem s) L]> PL) PV (PA ++ [(i, T, length L)]))) as Hsteps.
  { eapply rtc_l; [by eapply (elect_step N E R A C Ld G K Q W D PN PL PV PA n r i T last s)|]. fold ld.
    pose proof (append_steps PN (<[T := ld]> PL) PV PA i T (pnode_of s) ld [op] HPN) as Hap. rewrite insert_insert_eq in Hap.
    assert (pnode_of s' = mkPnode T L L) as -> by (unfold pnode_of; destruct (ap_some _ _ _ Ha) as [-> _]; [done|]; by rewrite HT', (ap_mem _ _ _ Ha)).
    apply Hap; [done|apply lookup_insert_eq|done|done| |done]. intros k e Hk. rewrite HT. by apply (appended_ids [op] s s'). }
  eexists. split; [exact Hsteps|]. destruct (ap_quiet _ _ _ Ha) as [Hsv _ _]. destruct (same_vote_ok config i _ _ Hsv Hnode) as (Hnode' & Hkept & Ev & Etv).
  split; [| |by eapply log_part_new_leader; try done; congruence|].
  - cbn. pose proof (node_step_silent release config N E R A C Ld i (consensus s) (consensus s') Hb HNi Hnode' Hkept) as [? ? ? HL]. split; try done.
    cbn. intros T1 j [?|[= -> ->]%list_elem_of_singleton]%elem_of_app; [by apply HL|done].
  - by eapply protocol_steps_ok.
  - apply (voting_part_called _ _ (<[i := consensus s']> N) _ E R A C Ld (K ++ [n]) n i T last); [|apply elem_of_app; right; by left|done].
    eapply (voting_part_node _ _ _ _ (mkSystem N E R A C Ld) _ K _ i s s' Hv Hi); try done.
    + apply replica_in_insert.
    + lia.
    + intros k Hk. apply elem_of_app. by left.
    + cbn. intros T1. destruct (decide (T1 = T)) as [->|Hne]; [by rewrite lookup_insert_eq|by rewrite lookup_insert_ne].
    + intros c Hcv. rewrite HT', HT. apply (vp_voted _ _ _ _ Hv i s c Hi). by rewrite <- Ev.
    + intros w T1 c Hin. by left.
    + intros k x T1 la _ _ <- HnT. cbn in HnT. rewrite HT', lookup_insert_eq in HnT. done.
Qed.

Lemma lead_inv N E R A C Ld G K Q W D p sys' :
  log_inv release config (mkLogSystem (mkSystem N E R A C Ld) G K Q W D) p -> leads release N E R A C Ld G K Q W D sys' ->
  ∃ p', rtc protocol_step p p' /\ log_inv release config sys' p'.
Proof using Hc HV Hquorum.
  intros Hinv (env & now & ht & n & r & result & i & s & c' & again & s' & added & q & Hn & Hres & HK & Hcand & Hi & He & Hfits & Ecb & El & ->).
  pose proof Hinv as [Hb _ _ _]. cbn in Hb. assert (node_ok config i (consensus s)) as Hnode by (eapply node_of; [exact Hinv|exact Hi]).
  pose proof Hi as [HNi HGi]%replica_in_Some. pose proof (DoElectionCallback_received _ _ _ _ _ _ _ Ecb) as (Hrec & Hnv & Ht1).
  pose proof (DoElectionCallback_ok _ _ _ _ _ _ _ _ _ Hnode Ecb) as (Hnode' & Hkept & Hwon). destruct (Hwon eq_refl) as (Hnd & Hnp & Et). specialize (Ht1 eq_refl).
  destruct (sy_elections _ _ _ Hb n r Hn) as (request & HR & Hei). pose proof (won_elected _ _ _ _ _ _ Hc Hei Hres Hnd Hnp) as Hel. rewrite <- Hcand, Et in Hel.
  set (s1 := with_consensus c' s) in *. assert (asked R n i (current_term_of s1) (candidate_last_received request)) as Hask.
  { destruct Hei as [Ereq _ Hrun Epre _ _]. rewrite (rn_calls _ _ _ Hrun) in Hres. destruct (has_responded_ (election r)); [|by apply elem_of_nil in Hres]. apply list_elem_of_singleton in Hres as ->.
    exists request. split; [done|]. split; [congruence|]. split; [congruence|]. split; [|done]. rewrite <- Ereq, <- (el_term _ _ _ (rn_election _ _ _ Hrun)). done. }
  destruct (silent_inv release config HQ N E R A C Ld G K Q W D p i s s1 (<[i := c']> N) G K Hinv Hi) as (p1 & Hs1 & Hinv1 & _).
  - intros w. by apply replica_in_consensus.
  - by split.
  - by apply no_vote_or.
  - done.
  - by apply (node_step_silent release config N E R A C Ld i (consensus s)).
  - destruct (lead_step_inv (<[i := c']> N) E R A C Ld G K Q W D p1 env now ht n r i s1 s' added q (candidate_last_received request)) as (p2 & Hs2 & Hinv2); try done.
    + by rewrite (replica_in_consensus N G i s), decide_True.
    + exists p2. split; [by etrans|]. rewrite insert_insert_eq in Hinv2. done.
Qed.

End leaders.

(** ** Queues *)

(** *** Requests *)

Lemma read_messages_prefix size msgs : ∀ space acc, (read_messages size space msgs acc).1 `prefix_of` acc ++ msgs.
Proof.
  induction msgs as [|m msgs IH]; intros space acc; cbn; [by rewrite app_nil_r|]. destruct (_ && _); [by apply prefix_app_r|].
  specialize (IH (space - size m) (acc ++ [m])). by rewrite <- app_assoc in IH.
Qed.

Lemma LookupOpId_spec (l : list Operation) k id : log_ok l -> LogCache_LookupOpId l k = Ok id -> index id = k /\ has_id l id.
Proof.
  intros Hl E. assert (index id = k) as Hk; [|split; [done|]; unfold has_id; by rewrite Hk]. unfold LogCache_LookupOpId in E. destruct (_ <=? _); [done|].
  destruct (Z.eqb_spec k 0) as [->|]; [by injection E as <-|]. destruct (l !! Z.to_nat (k - 1)) as [op|] eqn:Hop; [|done].
  destruct (Z.ltb_spec 0 k); [|done]. injection E as <-. pose proof (lg_index _ Hl _ _ Hop) as Hi. change (op_id_of op) with (op_id op) in Hi. lia.
Qed.

Lemma has_id_preceding (l : list Operation) id : log_ok l -> has_id l id -> id = last_op_id (take (Z.to_nat (index id)) l).
Proof.
  intros Hl [->|(Hi & op & Hop & Hid)]%has_id_spec; [done|]. rewrite <- Hid at 1. symmetry. apply lookup_lt_Some in Hop as Hlt.
  apply (last_op_id_lookup _ op (Z.to_nat (index id - 1))); [rewrite lookup_take_lt by lia; done|rewrite length_take; lia].
Qed.

Lemma read_request_spec size max caller (is_new : bool) pr (l : list Operation) r :
  log_ok l -> request_preceding_id pr = last_op_id l -> read_request size max caller is_new pr l = Ok r ->
  request_of l r /\ preceding_id r = last_op_id (take (Z.to_nat (index (preceding_id r))) l) /\ caller_term (header r) = request_caller_term pr /\
  caller_uuid (header r) = caller /\ request_committed r = request_committed_index pr /\
  (is_new = true /\ index (preceding_id r) = Z.of_nat (length l) \/ is_new = false /\ request_next_index pr = index (preceding_id r) + 1).
Proof.
  intros Hl Hp E. unfold read_request in E. destruct is_new.
  - injection E as <-. cbn. rewrite Hp, last_op_id_index by done. split; [split; cbn; [rewrite ?Hp, ?last_op_id_index by done; lia|apply prefix_nil]|].
    rewrite Nat2Z.id, take_ge by done. do 4 (split; [done|]). by left.
  - unfold LogCache_ReadOps in E. destruct (LogCache_LookupOpId l (request_next_index pr - 1)) as [id|] eqn:Eid; [|done]. apply LookupOpId_spec in Eid as [Hi Hid]; [|done].
    destruct (if 0 <? max then _ else _) as [messages more] eqn:Em. injection E as <-. pose proof (has_id_index _ _ Hid) as Hb. cbn. split; [split; cbn; [done|]|].
    + destruct (0 <? max); [|injection Em as <- _; apply prefix_nil]. pose proof (read_messages_prefix size (drop (Z.to_nat (request_next_index pr - 1)) l) max []) as Hpre.
      rewrite Em in Hpre. cbn in Hpre. by rewrite Hi.
    + split; [by apply has_id_preceding|]. do 3 (split; [done|]). right. split; [done|lia].
Qed.

(** *** Steps of a queue *)

Section queues.
Context (release : bool) (config : RaftConfigPB) (HQ : QuorumSystem).
Context (Hquorum : ∀ m Q, MajoritySize release (CountVoters config) = Done m -> quorum config m Q -> is_quorum Q).
Implicit Types (p : protocol Operation).

Lemma log_part_queue p rep Ld Q W W' D D' T ld q' :
  log_part release config p rep Ld Q W D -> p_leaders p !! T = Some ld -> queue_inv release config p T ld q' ->
  (∀ T1 w, T1 ≠ T -> W' !! (T1, w) = W !! (T1, w)) -> (∀ w m, W' !! (T, w) = Some m -> w ≠ l_node ld) ->
  (∀ w r, W' !! (T, w) = Some (Request r) -> caller_uuid (header r) = l_node ld /\ chosen_id p T (l_log ld) (request_committed r)) ->
  (∀ T1 d, (T1, d) ∈ D' -> (T1, d) ∈ D \/ T1 = T /\ supported_id p T (l_log ld) (majority_op_id d)) ->
  (∀ w s, w ≠ l_node ld -> rep w = Some s -> exchange_ok T (l_log ld) (acked (p_acks p) w T) (follower_of s) (view_of q' w) (W' !! (T, w))) ->
  log_part release config p rep Ld (<[T := q']> Q) W' D'.
Proof using.
  intros [] HT Hq HW HWn HWr HD Hex. split; try done.
  - intros T1 ld1 w s H1 Hw Hs. unfold tracked. destruct (decide (T1 = T)) as [->|Hne].
    + rewrite lookup_insert_eq. rewrite HT in H1. injection H1 as <-. by apply Hex.
    + rewrite lookup_insert_ne by done. rewrite HW by done. by apply lp_exchange0.
  - intros T1 w r. destruct (decide (T1 = T)) as [->|Hne]; [|rewrite HW by done; apply lp_requested0]. intros Hr. exists ld. split; [done|]. split; [by eapply HWn|]. by eapply HWr.
  - intros T1 w m. destruct (decide (T1 = T)) as [->|Hne]; [|rewrite HW by done; apply lp_wired0]. intros Hm. exists ld. split; [done|]. by eapply HWn.
  - intros T1 q. destruct (decide (T1 = T)) as [->|Hne]; [rewrite lookup_insert_eq; intros [= <-]; by exists ld|rewrite lookup_insert_ne by done; apply lp_queues0].
  - intros T1 d [?|[-> ?]]%HD; [by apply lp_told0|by exists ld].
Qed.

(** The leader of a queue, while its term lasts. *)
Lemma leading_queue p rep Ld Q W D T i q :
  log_part release config p rep Ld Q W D -> (T, i) ∈ Ld -> Q !! T = Some q ->
  ∃ ld, p_leaders p !! T = Some ld /\ l_node ld = i /\ queue_inv release config p T ld q /\
    ∀ s, rep i = Some s -> current_term_of s = T -> mem s = l_log ld /\ log_ (rlog s) = l_log ld.
Proof using.
  intros [] [ld [HT Hi]]%lp_leaders0 Hq. destruct (lp_queues0 T q Hq) as (ld' & HT' & Hqi). rewrite HT in HT'. injection HT' as <-. exists ld. split; [done|]. split; [done|]. split; [done|].
  intros s Hs Hts. rewrite <- Hi in Hs. by apply (lp_leading0 T ld HT).
Qed.

Lemma send_part p rep Ld Q W D env size max T i s u x q q' pr r :
  protocol_ok p -> log_part release config p rep Ld Q W D -> (T, i) ∈ Ld -> rep i = Some s -> current_term_of s = T -> Q !! T = Some q -> u ≠ i -> peers_map_ q !! u = Some x ->
  RequestForPeer release env u q = Done (Ok (q', pr)) -> read_request size max i (is_new x) pr (log_ (rlog s)) = Ok r ->
  log_part release config p rep Ld (<[T := q']> Q) (<[(T, u) := Request r]> W) D.
Proof using.
  intros Hp Hl HLd Hs Hts HQT Hne Hx E Er. destruct (leading_queue _ _ _ _ _ _ _ _ _ Hl HLd HQT) as (ld & HT & <- & Hqi & Hmem). destruct (Hmem s Hs Hts) as [_ Edisk].
  pose proof (queue_step_ok release q q' (qi_ok _ _ _ _ _ _ Hqi) (step_request release q env u q' pr E)) as Hok'.
  unfold RequestForPeer in E. apply outcome_bind_Done in E as (_ & _ & E). apply outcome_bind_Done in E as (_ & _ & E). rewrite Hx, (qi_mode _ _ _ _ _ _ Hqi) in E. injection E as <- <-.
  set (x' := (if is_new x then with_leases_sent _ _ _ _ else _) : TrackedPeer) in *. assert (view x' = view x /\ tracked_uuid x' = tracked_uuid x) as [Ev Eu] by (unfold x'; by destruct (is_new x)).
  assert (∀ w, view_of (with_peer u x' q) w = view_of q w) as Hview.
  { intros w. rewrite view_insert. destruct (decide (w = u)) as [->|]; [unfold view_of; by rewrite Hx, Ev|done]. }
  rewrite Edisk in Er. apply read_request_spec in Er as (Hreq & Hprev & Hterm & Hcaller & Hcom & Hnew); [|apply (po_leaders _ Hp T ld HT)|apply Hqi].
  cbn in Hterm, Hcom, Hnew. rewrite (qi_term _ _ _ _ _ _ Hqi) in Hterm.
  eapply (log_part_queue p rep Ld Q W _ D D T ld _ Hl HT).
  - destruct Hqi. split; try done; [eapply leader_ok_shape; [by apply (with_peer_shape u x)|done]|]. intros v. rewrite Hview. apply qi_self0.
  - intros T1 w HT1. by rewrite lookup_insert_ne by congruence.
  - intros w m. destruct (decide (w = u)) as [->|Hwu]; [done|rewrite lookup_insert_ne by congruence]. intros Hm. destruct (lp_wired _ _ _ _ _ _ _ _ Hl T w m Hm) as (ld' & HT' & ?). congruence.
  - intros w r'. destruct (decide (w = u)) as [->|Hwu]; [rewrite lookup_insert_eq; intros [= <-]; split; [done|]; rewrite Hcom; apply Hqi|rewrite lookup_insert_ne by congruence].
    intros Hm. destruct (lp_requested _ _ _ _ _ _ _ _ Hl T w r' Hm) as (ld' & HT' & _ & ? & ?). rewrite HT in HT'. by injection HT' as <-.
  - by left.
  - intros w y Hw Hy. rewrite Hview. pose proof (lp_exchange _ _ _ _ _ _ _ _ Hl T ld w y HT Hw Hy) as Hex. unfold tracked in Hex. rewrite HQT in Hex.
    destruct (decide (w = u)) as [->|Hwu]; [rewrite lookup_insert_eq|by rewrite lookup_insert_ne by congruence]. unfold view_of in *. rewrite Hx in *. cbn in *. by eapply exchange_send.
Qed.

(** *** Responses *)

Lemma acked_le (A : list (uuid * Z * nat)) u T k k' : (k <= k')%nat -> acked A u T k' -> acked A u T k.
Proof using. intros Hk (n & Hn & Hin). exists n. split; [lia|done]. Qed.

Lemma supported_min p T L : supported_id p T L MinimumOpId.
Proof using. left. split; [cbn; lia|]. by left. Qed.

(** What is told of a majority is what a majority has acknowledged. *)
Lemma majority_supported p T L old q d :
  leader_ok release q config -> Z.of_nat (length L) < 2 ^ 63 -> supported_id p T L old -> told_ok release old q d ->
  (∀ w v, view_of q w = Some v -> v_successful v = true \/ w = local_peer_uuid_ q -> good L (acked (p_acks p) w T) v) ->
  (majority_op_id d = old \/ ∃ w v, view_of q w = Some v /\ (v_successful v = true \/ w = local_peer_uuid_ q) /\ majority_op_id d = v_received v) ->
  supported_id p T L (majority_op_id d).
Proof using Hquorum.
  intros Hl Hfits Hold (config' & Hl' & _ & Htold) Hviews Hval. assert (config' = config) as -> by (pose proof (lq_active _ _ _ Hl); pose proof (lq_active _ _ _ Hl'); congruence). clear Hl'.
  destruct Hval as [->|(w0 & v0 & Hv0 & Hs0 & Eid)]; [done|]. destruct (Hviews w0 v0 Hv0 Hs0) as [Hmin|[Hid _]]; [rewrite Eid, Hmin; apply supported_min|]. rewrite <- Eid in Hid. clear w0 v0 Hv0 Hs0 Eid.
  destruct (decide (majority_op_id d = MinimumOpId)) as [->|Hnm]; [apply supported_min|]. pose proof (has_id_index _ _ Hid) as Hib.
  assert (1 <= index (majority_op_id d)) as Hpos by (apply has_id_spec in Hid as [?|[? _]]; done).
  assert (∀ x Qs, index (majority_op_id d) <= x -> quorum config (queue_majority_size_ (queue_state_ q)) Qs -> (∀ u, u ∈ Qs -> reached OpIdPolicy q x u) -> supported_id p T L (majority_op_id d)) as Hsup.
  { intros x Qs Hx HQs Hr. right. split; [done|]. exists Qs. split; [eapply Hquorum; [apply Hl|done]|]. intros u [[_ ?]|(y & Hy & Hsy & Hky)]%Hr; [done|].
    assert (view_of q u = Some (view y)) as Hvy by (unfold view_of; by rewrite Hy). cbn in Hky. destruct (Hviews u (view y) Hvy) as [Hm|[_ Hack]]; [by left|cbn in Hm; rewrite Hm in Hky; cbn in Hky; lia|].
    eapply acked_le; [|exact Hack]. cbn. lia. }
  destruct Htold as [->|[(Qs & HQs & Hr)|([H1|(Qs & HQs & Hr)] & local & Hlocal & Eid)]]; [done|by eapply (Hsup (index (majority_op_id d)) Qs)| |].
  - right. split; [done|]. exists [local_peer_uuid_ q]. split.
    + apply (Hquorum 1); [rewrite <- H1; apply Hl|]. split; [apply NoDup_singleton|]. split; [|cbn; lia]. intros u ->%list_elem_of_singleton.
      apply IsRaftConfigVoter_voters; apply Hl.
    + intros u ->%list_elem_of_singleton. assert (view_of q (local_peer_uuid_ q) = Some (view local)) as Hv by (unfold view_of; by rewrite Hlocal).
      destruct (Hviews _ _ Hv (or_intror eq_refl)) as [Hm|[_ Hack]]; [cbn in Hm; congruence|]. by rewrite Eid.
  - eapply (Hsup (index MaximumOpId) Qs); [change (index MaximumOpId) with (2 ^ 63 - 1); lia|done|done].
Qed.

Lemma told_by_notes T notes T1 d : (T1, d) ∈ told_by T notes <-> T1 = T /\ MajorityReplOpChange d ∈ notes.
Proof using.
  unfold told_by. rewrite list_elem_of_omap. split.
  - intros (x & Hx & E). destruct x; cbn in E; by simplify_eq.
  - intros [-> Hd]. by exists (MajorityReplOpChange d).
Qed.

Lemma response_queue p T ld q q' env u a more notes :
  queue_inv release config p T ld q -> reads_log env (l_log ld) -> response_error_is_tablet_not_found a = None -> ResponseFromPeer release env u a q = Done (q', more, notes) ->
  Z.of_nat (length (l_log ld)) < 2 ^ 63 ->
  (∀ w v, view_of q' w = Some v -> v_successful v = true \/ w = l_node ld -> good (l_log ld) (acked (p_acks p) w T) v) ->
  queue_inv release config p T ld q' /\ ∀ d, MajorityReplOpChange d ∈ notes -> supported_id p T (l_log ld) (majority_op_id d).
Proof using Hquorum.
  intros [] Hr Hf E Hfits Hviews. pose proof (ResponseFromPeer_ok release env u a q q' more notes qi_ok0 E) as [Hs Htold].
  pose proof (ResponseFromPeer_view release env _ u a q q' more notes Hr Hf E) as ((El & Et & Ec) & _ & _ & Hmaj). pose proof Hs as (Eloc & _ & Emo & _).
  pose proof (leader_ok_shape release q q' config Hs qi_leader0) as Hl'.
  assert (∀ d, MajorityReplOpChange d ∈ notes -> supported_id p T (l_log ld) (majority_op_id d)) as Hsup.
  { intros d Hd. destruct Hmaj as [[_ Hno]|(d' & -> & Hval)]; [by destruct (Hno d)|]. pose proof (Htold d Hd) as Hd'. apply list_elem_of_singleton in Hd as [= ->].
    eapply (majority_supported p T _ _ q'); try done; [by rewrite Eloc, qi_local0|by rewrite Eloc]. }
  split; [|done]. split; [by eapply same_shape_ok|done|congruence|congruence|congruence|congruence|by rewrite Ec| |].
  - destruct Hmaj as [[-> _]|(d & -> & _)]; [done|]. specialize (Hsup d). specialize (Htold d). destruct Htold as (config' & _ & [<- _ _] & _); [by left|]. apply Hsup. by left.
  - intros v Hv. apply Hviews; [done|by right].
Qed.

Lemma respond_part p rep Ld Q W W' D env T ld q q' u a more notes :
  log_part release config p rep Ld Q W D -> p_leaders p !! T = Some ld -> queue_inv release config p T ld q -> reads_log env (l_log ld) ->
  response_error_is_tablet_not_found a = None -> ResponseFromPeer release env u a q = Done (q', more, notes) ->
  (∀ T1 w, T1 ≠ T -> W' !! (T1, w) = W !! (T1, w)) -> (∀ w m, W' !! (T, w) = Some m -> W !! (T, w) = Some m) ->
  (∀ w x, w ≠ l_node ld -> rep w = Some x -> exchange_ok T (l_log ld) (acked (p_acks p) w T) (follower_of x) (view_of q' w) (W' !! (T, w))) ->
  (∀ v, view_of q' (l_node ld) = Some v -> good (l_log ld) (acked (p_acks p) (l_node ld) T) v) ->
  log_part release config p rep Ld (<[T := q']> Q) W' (D ++ told_by T notes).
Proof using Hquorum.
  intros Hl HT Hqi Hr Hf E HW HW' Hex Hself. pose proof (ResponseFromPeer_ok release env u a q q' more notes (qi_ok _ _ _ _ _ _ Hqi) E) as [Hs _].
  pose proof (leader_ok_shape release q q' config Hs (qi_leader _ _ _ _ _ _ Hqi)) as Hl'.
  destruct (response_queue p T ld q q' env u a more notes Hqi Hr Hf E) as [Hqi' Hsup].
  - apply (lp_leading _ _ _ _ _ _ _ _ Hl T ld HT).
  - intros w v Hv Hor. destruct (decide (w = l_node ld)) as [->|Hw]; [by apply Hself|]. destruct Hor as [Hsuc|]; [|done].
    assert (is_Some (rep w)) as [x Hx].
    { apply (lp_present _ _ _ _ _ _ _ _ Hl). unfold view_of in Hv. destruct (peers_map_ q' !! w) eqn:Ew; [|done]. by eapply (lq_tracked _ _ _ Hl'). }
    destruct (ex_peer _ _ _ _ _ _ (Hex w x Hw Hx) v Hv) as [?|[Hb _ _ _]]; [done|congruence].
  - eapply (log_part_queue p rep Ld Q W W' D); try done.
    + intros w m Hm%HW'. destruct (lp_wired _ _ _ _ _ _ _ _ Hl T w m Hm) as (ld' & HT' & ?). congruence.
    + intros w r Hm%HW'. destruct (lp_requested _ _ _ _ _ _ _ _ Hl T w r Hm) as (ld' & HT' & _ & ? & ?). rewrite HT in HT'. by injection HT' as <-.
    + intros T1 d [?|[-> ?]%told_by_notes]%elem_of_app; [by left|right]. split; [done|]. by apply Hsup.
Qed.

Lemma ls_respond_part p rep Ld Q W D env T i s u a q q' more notes :
  log_part release config p rep Ld Q W D -> (T, i) ∈ Ld -> rep i = Some s -> current_term_of s = T -> Q !! T = Some q -> W !! (T, u) = Some (Response a) ->
  reads_log env (log_ (rlog s)) -> ResponseFromPeer release env u a q = Done (q', more, notes) ->
  log_part release config p rep Ld (<[T := q']> Q) (delete (T, u) W) (D ++ told_by T notes).
Proof using Hquorum.
  intros Hl HLd Hs Hts HQT HWu Hr E. destruct (leading_queue _ _ _ _ _ _ _ _ _ Hl HLd HQT) as (ld & HT & Hi & Hqi & Hmem). destruct (Hmem s Hs Hts) as [_ Edisk]. rewrite Edisk in Hr.
  destruct (lp_wired _ _ _ _ _ _ _ _ Hl T u _ HWu) as (ld' & HT' & Hu). rewrite HT in HT'. injection HT' as <-.
  assert (∀ T1 w, T1 ≠ T -> delete (T, u) W !! (T1, w) = W !! (T1, w)) as HW by (intros T1 w HT1; by rewrite lookup_delete_ne by congruence).
  assert (∀ w m, delete (T, u) W !! (T, w) = Some m -> W !! (T, w) = Some m) as HW' by (intros w m [_ ?]%lookup_delete_Some; done).
  assert (∀ w x, w ≠ l_node ld -> rep w = Some x -> exchange_ok T (l_log ld) (acked (p_acks p) w T) (follower_of x) (view_of q w) (W !! (T, w))) as Hex.
  { intros w x Hw Hx. pose proof (lp_exchange _ _ _ _ _ _ _ _ Hl T ld w x HT Hw Hx) as He. unfold tracked in He. by rewrite HQT in He. }
  destruct (peers_map_ q !! u) as [y|] eqn:Hy.
  - assert (is_Some (rep u)) as [xu Hxu] by (by eapply (lp_present _ _ _ _ _ _ _ _ Hl), (lq_tracked _ _ _ (qi_leader _ _ _ _ _ _ Hqi))).
    pose proof (Hex u xu Hu Hxu) as Heu. rewrite HWu in Heu. pose proof (ex_response _ _ _ _ _ _ Heu a eq_refl) as Ha.
    pose proof (ResponseFromPeer_view release env _ u a q q' more notes Hr (rs_found _ _ _ _ _ Ha) E) as (_ & Hother & Hview & _).
    eapply (respond_part p rep Ld Q W _ D env T ld q q' u a more notes Hl HT Hqi Hr); try done; [apply Ha| |].
    + intros w x Hw Hx. destruct (decide (w = u)) as [->|Hwu]; [|rewrite lookup_delete_ne by congruence; rewrite Hother by done; by apply Hex].
      rewrite lookup_delete_eq. rewrite Hxu in Hx. injection Hx as <-. destruct Hview as [->|(v & v' & Hv & -> & Hans)]; [by eapply exchange_lose|].
      rewrite Hv in Heu. by eapply exchange_respond.
    + intros v. rewrite Hother by done. apply Hqi.
  - assert (q' = q /\ notes = []) as [-> ->].
    { unfold ResponseFromPeer in E. apply outcome_bind_Done in E as (_ & _ & E). rewrite Hy in E. destruct (bool_decide _); by injection E as <- _ <-. }
    cbn. rewrite app_nil_r. eapply (log_part_queue p rep Ld Q W _ D); try done; [..|by left|].
    + intros w m Hm%HW'. destruct (lp_wired _ _ _ _ _ _ _ _ Hl T w m Hm) as (ld' & HT' & ?). congruence.
    + intros w r Hm%HW'. destruct (lp_requested _ _ _ _ _ _ _ _ Hl T w r Hm) as (ld' & HT' & _ & ? & ?). rewrite HT in HT'. by injection HT' as <-.
    + intros w x Hw Hx. destruct (decide (w = u)) as [->|Hwu]; [|rewrite lookup_delete_ne by congruence; by apply Hex]. rewrite lookup_delete_eq. by eapply exchange_lose, Hex.
Qed.

(** The leader's own log is written. *)
Lemma ls_written_part p rep Ld Q W D env T i s op q q' more notes :
  protocol_ok p -> log_part release config p rep Ld Q W D -> (T, i) ∈ Ld -> rep i = Some s -> current_term_of s = T -> Q !! T = Some q -> op ∈ log_ (rlog s) ->
  reads_log env (log_ (rlog s)) -> LocalPeerAppendFinished release env (op_id op) (Ok tt) q = Done (q', more, notes) ->
  log_part release config p rep Ld (<[T := q']> Q) W (D ++ told_by T notes).
Proof using Hquorum.
  intros Hp Hl HLd Hs Hts HQT Hop Hr E. destruct (leading_queue _ _ _ _ _ _ _ _ _ Hl HLd HQT) as (ld & HT & Hi & Hqi & Hmem). destruct (Hmem s Hs Hts) as [_ Edisk]. rewrite Edisk in Hr, Hop.
  pose proof (ld_log _ _ _ (po_leaders _ Hp T ld HT)) as HL. pose proof Hop as [k Hk]%list_elem_of_lookup. pose proof (lg_index _ HL k op Hk) as Hidx. change (op_id_of op) with (op_id op) in Hidx.
  pose proof (lookup_lt_Some _ _ _ Hk) as Hlt. assert (has_id (l_log ld) (op_id op)) as Hid.
  { apply has_id_spec. right. split; [lia|]. exists op. split; [|done]. rewrite Hidx. by replace (Z.to_nat (Z.of_nat k + 1 - 1)) with k by lia. }
  unfold LocalPeerAppendFinished in E. apply outcome_bind_Done in E as (_ & _ & E). rewrite (qi_last _ _ _ _ _ _ Hqi), last_op_id_index, (proj2 (Z.ltb_ge _ _)) in E by (try done; lia).
  rewrite (qi_local _ _ _ _ _ _ Hqi) in E. set (a := mkConsensusResponsePB _ _ _ _ _ _) in E.
  pose proof (ResponseFromPeer_view release env _ _ a q q' more notes Hr eq_refl E) as (_ & Hother & Hview & _).
  eapply (respond_part p rep Ld Q W W D env T ld q q' _ a more notes Hl HT Hqi Hr); try done.
  - intros w x Hw Hx. rewrite Hother by done. pose proof (lp_exchange _ _ _ _ _ _ _ _ Hl T ld w x HT Hw Hx) as He. unfold tracked in He. by rewrite HQT in He.
  - intros v Hv. destruct Hview as [Hsame|(v0 & v' & _ & Hv' & Hans)]; [rewrite Hsame in Hv; by apply Hqi|]. rewrite Hv in Hv'. injection Hv' as <-.
    destruct Hans as (_ & _ & [(_ & Er & _)|[(Hno & _)|(Hno & _)]]); [|done|done]. right. rewrite Er. split; [done|].
    eapply acked_le; [|apply (lp_leading _ _ _ _ _ _ _ _ Hl T ld HT)]. cbn. lia.
Qed.

Lemma queue_part p rep Ld Q W D T i q q' :
  log_part release config p rep Ld Q W D -> (T, i) ∈ Ld -> Q !! T = Some q -> (∀ ld, p_leaders p !! T = Some ld -> l_node ld = i -> queue_inv release config p T ld q -> queue_inv release config p T ld q') ->
  (∀ ld w x, p_leaders p !! T = Some ld -> w ≠ i -> rep w = Some x -> exchange_ok T (l_log ld) (acked (p_acks p) w T) (follower_of x) (view_of q w) (W !! (T, w)) ->
     exchange_ok T (l_log ld) (acked (p_acks p) w T) (follower_of x) (view_of q' w) (W !! (T, w))) ->
  log_part release config p rep Ld (<[T := q']> Q) W D.
Proof using.
  intros Hl HLd HQT Hqi Hex. destruct (leading_queue _ _ _ _ _ _ _ _ _ Hl HLd HQT) as (ld & HT & Hi & Hqi0 & _). eapply (log_part_queue p rep Ld Q W W D); try done; [by apply Hqi|..|by left|].
  - intros w m Hm. destruct (lp_wired _ _ _ _ _ _ _ _ Hl T w m Hm) as (ld' & HT' & ?). congruence.
  - intros w r Hm. destruct (lp_requested _ _ _ _ _ _ _ _ Hl T w r Hm) as (ld' & HT' & _ & ? & ?). rewrite HT in HT'. by injection HT' as <-.
  - intros w x Hw Hx. pose proof (lp_exchange _ _ _ _ _ _ _ _ Hl T ld w x HT Hw Hx) as He. unfold tracked in He. rewrite HQT in He. apply Hex; try done. congruence.
Qed.

Lemma leader_config q q' :
  queue_ok release q' -> mode (queue_state_ q') = LEADER_MODE -> leader_ok release q config -> queue_active_config (queue_state_ q') = queue_active_config (queue_state_ q) -> leader_ok release q' config.
Proof using. intros Hq Hm Hl E. destruct (qu_leader _ _ Hq Hm) as [c Hl']. pose proof (lq_active _ _ _ Hl). pose proof (lq_active _ _ _ Hl'). by assert (c = config) as -> by congruence. Qed.

Lemma track_part p rep Ld Q W D now T i u q q' :
  log_part release config p rep Ld Q W D -> (T, i) ∈ Ld -> Q !! T = Some q -> u ≠ i -> TrackPeerUnlocked release now u q = Done q' ->
  log_part release config p rep Ld (<[T := q']> Q) W D.
Proof using.
  intros Hl HLd HQT Hne E. pose proof (TrackPeer_view release now u q q' E) as (Hnone & Eloc & (El & Et & Ec) & Em & Eco & Es & Emo & Hv). apply (queue_part p rep Ld Q W D T i q q'); try done.
  - intros ld HT Hi []. pose proof (queue_step_ok release q q' qi_ok0 (step_track _ _ _ _ _ E)) as Hq'.
    split; [done|eapply (leader_config q); try done; congruence|congruence|congruence|congruence|congruence|by rewrite Ec|by rewrite Em|].
    intros v. rewrite Hv, decide_False by congruence. apply qi_self0.
  - intros ld w x HT Hw Hx Hex. rewrite Hv. destruct (decide (w = u)) as [->|]; [|done]. by eapply exchange_track.
Qed.

Lemma untrack_part p rep Ld Q W D T i u q :
  log_part release config p rep Ld Q W D -> (T, i) ∈ Ld -> Q !! T = Some q -> u ≠ i -> log_part release config p rep Ld (<[T := UntrackPeer u q]> Q) W D.
Proof using.
  intros Hl HLd HQT Hne. assert (∀ w, view_of (UntrackPeer u q) w = if decide (w = u) then None else view_of q w) as Hv.
  { intros w. unfold view_of, UntrackPeer, with_peers. cbn. destruct (decide (w = u)) as [->|]; [by rewrite lookup_delete_eq|by rewrite lookup_delete_ne]. }
  apply (queue_part p rep Ld Q W D T i q); try done.
  - intros ld HT Hi []. assert (queue_ok release (UntrackPeer u q)) as Hq' by (apply (queue_step_ok release q); [done|apply step_untrack; congruence]).
    split; try done; [by eapply (leader_config q)|]. intros v. rewrite Hv, decide_False by congruence. apply qi_self0.
  - intros ld w x HT Hw Hx Hex. rewrite Hv. destruct (decide (w = u)) as [->|]; [|done]. by eapply exchange_untrack.
Qed.

End queues.

(** ** Replicas with a new log *)

Section replication.
Context (release : bool) (RangeTimeLimit : Z) (config : RaftConfigPB) (HQ : QuorumSystem).
Implicit Types (p : protocol Operation).

(** A replica that casts no vote. *)
Lemma replica_inv N E E' R A C Ld G K Q Q' W W' D p p' u s s' :
  log_inv release config (mkLogSystem (mkSystem N E R A C Ld) G K Q W D) p -> replica_in N G u = Some s -> protocol_ok p' ->
  system_ok release config (mkSystem (<[u := consensus s']> N) E' R A C Ld) -> (∀ n r, E' !! n = Some r -> is_Some (E !! n)) ->
  current_term_of s <= current_term_of s' -> no_vote (consensus s) (consensus s') -> p_votes p' = p_votes p ->
  (∀ T, p_leaders p' !! T = None -> p_leaders p !! T = None) ->
  (∀ n r T last, E' !! n = Some r -> asked R n u T last -> current_term_of s' = T -> p_leaders p' !! T = None -> last = last_op_id (mem s')) ->
  log_part release config p' (replica_in (<[u := consensus s']> N) (<[u := rlog s']> G)) Ld Q' W' D ->
  log_inv release config (mkLogSystem (mkSystem (<[u := consensus s']> N) E' R A C Ld) (<[u := rlog s']> G) K Q' W' D) p'.
Proof using.
  intros [_ _ _ Hv] Hu Hp' Hb' HE Ht Hnv HPV HPL Hlast Hl'. split; [done|done|done|]. cbn in *.
  eapply (voting_part_node _ _ _ _ (mkSystem N E R A C Ld) _ K K u s s' Hv Hu); try done.
  - apply replica_in_insert.
  - intros v. by rewrite HPV.
  - intros c Hcv. apply Hnv in Hcv as [Hcv Et]. change (current_term_of s' = current_term_of s) in Et. rewrite Et. by apply (vp_voted _ _ _ _ Hv u s c Hu).
  - intros w T c Hin. by left.
Qed.

Lemma quiet_inv N E R A C Ld G K Q Q' W W' D p p' u s s' :
  log_inv release config (mkLogSystem (mkSystem N E R A C Ld) G K Q W D) p -> replica_in N G u = Some s -> protocol_ok p' ->
  follows config u (consensus s) (consensus s') -> p_votes p' = p_votes p -> (∀ T, p_leaders p' !! T = None -> p_leaders p !! T = None) ->
  (mem s' = mem s \/ is_Some (p_leaders p' !! current_term_of s')) ->
  log_part release config p' (replica_in (<[u := consensus s']> N) (<[u := rlog s']> G)) Ld Q' W' D ->
  log_inv release config (mkLogSystem (mkSystem (<[u := consensus s']> N) E R A C Ld) (<[u := rlog s']> G) K Q' W' D) p'.
Proof using.
  intros Hinv Hu Hp' Hf HPV HPL Hmem Hl'. assert (node_ok config u (consensus s)) as Hnode by (eapply node_of; [exact Hinv|exact Hu]).
  destruct (Hf Hnode) as (Hnode' & Hkept & Hnv & _). pose proof Hu as [HNu _]%replica_in_Some. pose proof Hinv as [Hb _ _ Hv]. cbn in Hb, Hv.
  assert (current_term_of s <= current_term_of s') as Ht by apply Hkept. eapply (replica_inv N E E R A C Ld G K Q Q' W W' D p p' u s s'); try done.
  - by eapply (node_step_silent release config N E R A C Ld u (consensus s)).
  - by eapply (voting_last_kept p p' _ (mkSystem N E R A C Ld) K u s s' E Hv Hu).
Qed.

(** *** Appending *)

Lemma append_queue p p' T ld ld' q op :
  queue_inv release config p T ld q -> grown p p' -> l_node ld' = l_node ld -> l_log ld `prefix_of` l_log ld' -> last_op_id (l_log ld') = op_id op -> term (op_id op) = T ->
  queue_inv release config p' T ld' (AppendOperations (Some (op_id op)) (Ok tt) q).1.
Proof using.
  intros [] Hg Hn Hpre Hlast Ht. destruct (Append_view (op_id op) q) as (Hs & Ea & ET & Ec & Em & Ep). pose proof Hs as (Eloc & _ & Emo & _).
  split; [by eapply same_shape_ok|by eapply leader_ok_shape|congruence|congruence|congruence|rewrite ET; lia|rewrite Ec; by eapply chosen_id_grown|rewrite Em; by eapply supported_id_grown|].
  intros v. rewrite Hn. unfold view_of. rewrite Ep. intros Hv. eapply good_grown; [done|done|]. by apply qi_self0.
Qed.

Lemma append_part PN PL PV PA rep rep' Ld Q W D T i ld q s s' added op :
  let L' := l_log ld ++ added in
  let p := mkProtocol PN PL PV PA in
  let p' := mkProtocol (<[i := pnode_of s']> PN) (<[T := mkLeadership i (l_start ld) L']> PL) PV (PA ++ [(i, T, length L')]) in
  log_part release config p rep Ld Q W D -> (T, i) ∈ Ld -> PL !! T = Some ld -> l_node ld = i -> Q !! T = Some q -> queue_inv release config p T ld q ->
  rep i = Some s -> (∀ w, rep' w = if decide (w = i) then Some s' else rep w) -> current_term_of s = T -> mem s = l_log ld -> appended_ops added s s' -> last added = Some op ->
  log_part release config p' rep' Ld (<[T := (AppendOperations (Some (op_id op)) (Ok tt) q).1]> Q) W D.
Proof using.
  intros L' p p' Hl HLd HT Hi HQT Hqi Hs Hrep Hts Hmem Ha Hlast. assert (added ≠ []) as Hne by (by intros ->). pose proof (lp_leading _ _ _ _ _ _ _ _ Hl T ld HT) as Hle.
  assert (∀ a, a ∈ PA -> a ∈ PA ++ [(i, T, length L')]) as HA by (intros a Hin; apply elem_of_app; by left). assert (l_log ld `prefix_of` L') as Hpre by (by apply prefix_app_r).
  assert (grown p p') as Hg.
  { split; [|done]. intros T1 ld1 H1. cbn in *. destruct (decide (T1 = T)) as [->|Hne1]; [|exists ld1; by rewrite lookup_insert_ne]. rewrite lookup_insert_eq. rewrite HT in H1. injection H1 as <-. by eexists. }
  assert (last_op_id L' = op_id op /\ term (op_id op) = T) as [Elast Eterm].
  { apply last_Some in Hlast as [l ->]. unfold L'. rewrite app_assoc, last_op_id_snoc. split; [done|]. rewrite <- Hts. apply (ap_terms _ _ _ Ha). apply elem_of_app. right. by left. }
  eapply (log_part_lead release config HQ PN PL PV PA _ rep rep' Ld Ld Q _ W D T i (mkLeadership i (l_start ld) L') s s'); try done.
  - intros ld1 H1. rewrite HT in H1. by injection H1 as <-.
  - intros x. split; [by left|]. by intros [?| ->].
  - lia.
  - by rewrite (ap_term _ _ _ Ha).
  - eapply appended_node; [done|exact Hg|by apply (lp_replicas _ _ _ _ _ _ _ _ Hl)|]. rewrite (ap_term _ _ _ Ha), Hts. cbn. by rewrite lookup_insert_eq.
  - unfold p', L'. rewrite <- Hmem. eapply (appended_leading) with (s' := s'); try done; [rewrite Hmem; apply Hle|by rewrite Hrep, decide_True].
  - apply lookup_insert_eq.
  - intros T1 HT1. by apply lookup_insert_ne.
  - eapply append_queue; try done.
  - intros u Hu. unfold tracked. rewrite HQT. unfold view_of. by rewrite (proj2 (proj2 (proj2 (proj2 (proj2 (Append_view (op_id op) q)))))).
  - intros u x Hu Hx. cbn. eapply exchange_acks; [intros k; by apply (acked_grown p p')|]. eapply (exchange_grow T (l_log ld)); [done| |by apply (lp_exchange _ _ _ _ _ _ _ _ Hl T ld u x HT); [congruence|]].
    intros k e Hk He. unfold L' in He. rewrite lookup_app_r in He by done. rewrite <- Hts. apply (ap_terms _ _ _ Ha). by eapply list_elem_of_lookup_2.
Qed.

(** The log is kept, though perhaps not all of its state. *)
Lemma kept_part PN PL PV PA rep rep' Ld Q W D i s s' :
  let p := mkProtocol PN PL PV PA in
  let p' := mkProtocol (<[i := pnode_of s']> PN) PL PV PA in
  log_part release config p rep Ld Q W D -> rep i = Some s -> (∀ w, rep' w = if decide (w = i) then Some s' else rep w) ->
  follower_of s' = follower_of s -> replica_ok s' -> chosen p (current_term_of s') (applied (rlog s')) -> log_part release config p' rep' Ld Q W D.
Proof using.
  intros p p' Hl Hs Hrep Hf Hok Hch. pose proof (lp_replicas _ _ _ _ _ _ _ _ Hl i s Hs) as []. injection Hf as Et Em Ed Ec.
  eapply (log_part_node release config PN PL PV PV PA PA rep rep' Ld Q W W D i s s'); try done.
  - split; [done|done| |].
    + eapply chosen_grown; [by apply grown_same|exact Hch].
    + rewrite Ec, Et. apply ni_current0.
  - intros T ld HT Hi HT'. rewrite Em, Ed. apply (lp_leading _ _ _ _ _ _ _ _ Hl T ld HT); [by rewrite Hi|congruence].
  - intros T ld HT Hi Hex. assert (follower_of s' = follower_of s) as -> by (unfold follower_of; congruence). done.
Qed.

Lemma replicate_inv N E R A C Ld G K Q W D p env T i s rounds s' r q :
  log_inv release config (mkLogSystem (mkSystem N E R A C Ld) G K Q W D) p ->
  (T, i) ∈ Ld -> replica_in N G i = Some s -> current_term_of s = T -> Q !! T = Some q ->
  no_config rounds -> AsyncAppendReplicates env = Ok tt -> Z.of_nat (length (mem s) + length rounds) < 2 ^ 63 ->
  ReplicateBatch release env rounds s = Done (s', r) ->
  ∃ p', rtc protocol_step p p' /\ log_inv release config (mkLogSystem (mkSystem (<[i := consensus s']> N) E R A C Ld) (<[i := rlog s']> G) K
    (<[T := match r with Ok added => (AppendOperations (op_id <$> last added) (Ok tt) q).1 | Error _ => q end]> Q) W D) p'.
Proof using.
  intros Hinv HLd Hi Hts HQT Hno He Hfits E1. pose proof Hinv as [_ Hp Hl _]. destruct p as [PN PL PV PA]. cbn [base leaders queues wire told] in Hl.
  destruct (leading_queue _ _ _ _ _ _ _ _ _ _ _ _ Hl HLd HQT) as (ld & HT & Hn & Hqi & Hmem). destruct (Hmem s Hi Hts) as [Em Ed]. pose proof (lp_replicas _ _ _ _ _ _ _ _ Hl i s Hi) as Hni.
  pose proof (lp_leading _ _ _ _ _ _ _ _ Hl T ld HT) as Hle. assert (PN !! i = Some (pnode_of s)) as HPN by (etrans; [apply (lp_nodes _ _ _ _ _ _ _ _ Hl i)|unfold replica; cbn; by rewrite Hi]).
  assert (appended_ops (added_ops r) s s') as Ha by (eapply ReplicateBatch_spec; try done; [apply Hni|by rewrite Em, (le_last _ _ _ _ Hle)]).
  assert (follows config i (consensus s) (consensus s')) as Hf by apply quiet_follows, Ha. destruct (last (added_ops r)) as [op|] eqn:Hlast.
  - assert (match r with Ok added => (AppendOperations (op_id <$> last added) (Ok tt) q).1 | Error _ => q end = (AppendOperations (Some (op_id op)) (Ok tt) q).1) as ->
      by (destruct r; cbn in Hlast; [by rewrite Hlast|done]).
    assert (added_ops r ≠ []) as Hne by (by intros E0; rewrite E0 in Hlast). set (L' := l_log ld ++ added_ops r).
    assert (rtc protocol_step (mkProtocol PN PL PV PA) (mkProtocol (<[i := pnode_of s']> PN) (<[T := mkLeadership i (l_start ld) L']> PL) PV (PA ++ [(i, T, length L')]))) as Hst.
    { assert (pnode_of s' = mkPnode T L' L') as ->.
      { unfold pnode_of. destruct (ap_some _ _ _ Ha Hne) as [-> _]. by rewrite (ap_term _ _ _ Ha), Hts, (ap_mem _ _ _ Ha), Em. }
      eapply append_steps; try done. intros k x Hk. rewrite <- Em, <- Hts. by eapply appended_ids. }
    eexists. split; [exact Hst|]. eapply (quiet_inv N E R A C Ld G K Q _ W W D _ _ i s s' Hinv Hi); try done; [by eapply protocol_steps_ok| | |].
    + cbn. intros T1. destruct (decide (T1 = T)) as [->|Hne1]; [by rewrite lookup_insert_eq|by rewrite lookup_insert_ne].
    + right. cbn. rewrite (ap_term _ _ _ Ha), Hts. by rewrite lookup_insert_eq.
    + by eapply (append_part PN PL PV PA _ _ Ld Q W D T i ld q s s' (added_ops r) op Hl); try done; apply replica_in_insert.
  - apply last_None in Hlast. destruct (ap_none _ _ _ Ha Hlast) as [Ed' Ec']. pose proof (ap_mem _ _ _ Ha) as Em'. rewrite Hlast, app_nil_r in Em'.
    assert (<[T := match r with Ok added => (AppendOperations (op_id <$> last added) (Ok tt) q).1 | Error _ => q end]> Q = Q) as ->.
    { rewrite <- (insert_id Q T q) at 2 by done. f_equal. destruct r as [l|]; [|done]. cbn in Hlast. by rewrite Hlast. }
    assert (follower_of s' = follower_of s) as Hfo by (unfold follower_of; by rewrite (ap_term _ _ _ Ha), Em', Ed', Ec').
    exists (mkProtocol (<[i := pnode_of s']> PN) PL PV PA). assert (<[i := pnode_of s']> PN = PN) as EPN.
    { apply insert_id. rewrite HPN. f_equal. unfold pnode_of. by rewrite (ap_term _ _ _ Ha), Em', Ed'. }
    split; [by rewrite EPN|]. eapply (quiet_inv N E R A C Ld G K Q Q W W D _ _ i s s' Hinv Hi); try done; [by rewrite EPN|by left|].
    eapply (kept_part PN PL PV PA _ _ Ld Q W D i s s' Hl); try done; [apply replica_in_insert|apply Ha|]. rewrite (ap_applied _ _ _ Ha), (ap_term _ _ _ Ha). apply Hni.
Qed.

(** *** Committing *)

Lemma pending_no_config s : ops_no_config (mem s) -> no_config (pending s).
Proof using. unfold ops_no_config, no_config, mem. rewrite Forall_app, Forall_fmap. by intros [_ ?]. Qed.

Lemma supported_chosen p T ld id :
  p_leaders p !! T = Some ld -> supported_id p T (l_log ld) id -> (1 <= index id -> term id = T) -> chosen_id p T (l_log ld) id.
Proof using.
  intros HT [?|(Hid & Qs & HQs & Hack)] Ht; [done|]. pose proof (has_id_index _ _ Hid) as Hb. split; [lia|]. apply has_id_spec in Hid as [->|(Hi & op & Hop & Eop)]; [by left|].
  right. exists T, ld, (Z.to_nat (index id - 1)). replace (S (Z.to_nat (index id - 1))) with (Z.to_nat (index id)) by lia. split; [done|]. split; [done|]. split; [|done].
  exists ld, op, Qs. replace (S (Z.to_nat (index id - 1))) with (Z.to_nat (index id)) by lia. split; [done|]. split; [done|]. split; [|done].
  change (term (op_id op) = T). rewrite Eop. by apply Ht.
Qed.

(** An operation after one of the term of the leader is of that term. *)
Lemma later_term p T ld id (l : list Operation) :
  protocol_ok p -> p_leaders p !! T = Some ld -> term (last_op_id (l_log ld)) = T -> has_id (l_log ld) id -> l `prefix_of` l_log ld ->
  Z.of_nat (length l) < index id -> term (last_op_id l) = T -> term id = T.
Proof using.
  intros Hp HT Hlast Hid Hpre Hlt Ht. destruct (po_leaders _ Hp T ld HT) as [_ _ HL _ _ Hfrom _ _]. apply has_id_spec in Hid as [->|(Hi & op & Hop & Eop)]; [cbn in Hlt; lia|].
  assert (term id <= T) as Hle.
  { pose proof (lookup_lt_Some _ _ _ Hop). destruct (lookup_lt_is_Some_2 (l_log ld) (length (l_log ld) - 1)) as [e He]; [lia|].
    rewrite (last_op_id_lookup _ e _ He) in Hlast by lia. rewrite <- Eop, <- Hlast. eapply (lg_terms _ HL); [|exact Hop|exact He]. lia. }
  assert (T <= term id); [|lia]. destruct (last l) as [a|] eqn:Ea.
  - rewrite <- Ht, <- Eop. unfold last_op_id. rewrite Ea. apply last_lookup_pred in Ea. pose proof (lookup_lt_Some _ _ _ Ea).
    apply (lg_terms _ HL (length l - 1)%nat (Z.to_nat (index id - 1)) a op); [lia|by eapply prefix_lookup_Some|done].
  - unfold last_op_id in Ht. rewrite Ea in Ht. cbn in Ht. rewrite <- Ht. destruct (Hfrom _ op Hop) as (ld' & HT' & _). change (op_id_of op) with (op_id op) in HT'. rewrite Eop in HT'.
    apply (ld_term _ _ _ (po_leaders _ Hp _ _ HT')).
Qed.

Lemma majority_chosen p T ld s s' id :
  protocol_ok p -> p_leaders p !! T = Some ld -> term (last_op_id (l_log ld)) = T -> supported_id p T (l_log ld) id -> replica_ok s -> mem s = l_log ld ->
  chosen p T (applied (rlog s)) -> advanced (index id) s s' ->
  (applied (rlog s') = applied (rlog s) \/ term (GetCommittedOpIdUnlocked s) = T \/ term id = T) -> chosen p T (applied (rlog s')).
Proof using.
  intros Hp HT Hlast Hsup Hok Hm Hch Had Hor. destruct (decide (length (applied (rlog s')) <= length (applied (rlog s)))%nat) as [Hle|Hgt].
  { assert (applied (rlog s') = applied (rlog s)) as ->; [|done]. symmetry. apply prefix_length_eq; [apply Had|done]. }
  pose proof (ad_bound _ _ _ Had) as Hb. destruct Hor as [E|Hor]; [rewrite E in Hgt; lia|].
  assert (chosen_id p T (l_log ld) id) as [Hid Hchid].
  { destruct Hsup as [?|Hs]; [done|]. apply (supported_chosen p T ld id HT); [by right|]. intros H1. destruct Hor as [Hor|]; [|done]. destruct Hs as [Hid _].
    apply (later_term p T ld id (applied (rlog s)) Hp HT Hlast Hid); [rewrite <- Hm, applied_mem; apply prefix_take|lia|]. by rewrite <- (co_committed _ (ro_core _ Hok)). }
  eapply chosen_prefix; [|exact Hchid]. rewrite applied_mem, (ad_mem _ _ _ Had), Hm. apply prefix_take_le. lia.
Qed.

Lemma commit_queue p T ld q s id :
  queue_inv release config p T ld q -> replica_ok s -> mem s = l_log ld -> chosen p T (applied (rlog s)) -> (∀ x, id = Some x -> x = GetCommittedOpIdUnlocked s) ->
  queue_inv release config p T ld (set_committed_index id q).
Proof using.
  intros [] Hok Hm Hch Hid. unfold set_committed_index. destruct id as [id|]; [|done]. destruct (_ <? _); [|done]. rewrite (Hid id eq_refl).
  split; try done; [by eapply same_shape_ok; [apply with_state_shape|]|by eapply leader_ok_shape; [apply with_state_shape|]|]. cbn.
  rewrite (co_committed _ (ro_core _ Hok)). assert (log_ok (applied (rlog s))) as Hla by (rewrite applied_mem; apply log_ok_take, Hok).
  pose proof (mem_length s). rewrite Hm in *. split; rewrite last_op_id_index by done; [lia|]. rewrite Nat2Z.id, <- Hm, <- applied_mem. done.
Qed.

Lemma majority_inv N E R A C Ld G K Q W D p env revocation T i s d q s' id :
  log_inv release config (mkLogSystem (mkSystem N E R A C Ld) G K Q W D) p ->
  (T, i) ∈ Ld -> replica_in N G i = Some s -> current_term_of s = T -> Q !! T = Some q -> (T, d) ∈ D ->
  UpdateMajorityReplicated release RangeTimeLimit env revocation q d s = Done (s', id) ->
  ∃ p', rtc protocol_step p p' /\ log_inv release config (mkLogSystem (mkSystem (<[i := consensus s']> N) E R A C Ld) (<[i := rlog s']> G) K (<[T := set_committed_index id q]> Q) W D) p'.
Proof using.
  intros Hinv HLd Hi Hts HQT Hd E1. pose proof Hinv as [_ Hp Hl _]. destruct p as [PN PL PV PA]. cbn [base leaders queues wire told] in Hl.
  destruct (leading_queue _ _ _ _ _ _ _ _ _ _ _ _ Hl HLd HQT) as (ld & HT & Hn & Hqi & Hmem). destruct (Hmem s Hi Hts) as [Em Ed]. pose proof (lp_replicas _ _ _ _ _ _ _ _ Hl i s Hi) as Hni.
  pose proof (lp_leading _ _ _ _ _ _ _ _ Hl T ld HT) as Hle. assert (PN !! i = Some (pnode_of s)) as HPN by (etrans; [apply (lp_nodes _ _ _ _ _ _ _ _ Hl i)|unfold replica; cbn; by rewrite Hi]).
  destruct (lp_told _ _ _ _ _ _ _ _ Hl T d Hd) as (ld' & HT' & Hsup). rewrite HT in HT'. injection HT' as <-. pose proof (ni_ok _ _ _ Hni) as Hok.
  pose proof (UpdateMajorityReplicated_spec _ _ _ _ _ _ _ _ _ Hok E1) as (Had & Hid & Hor). pose proof (advanced_ok _ _ _ Hok Had) as Hok'.
  pose proof (ni_chosen _ _ _ Hni) as Hch. rewrite Hts in Hch, Hor.
  pose proof (majority_chosen _ T ld s s' (majority_op_id d) Hp HT (le_last _ _ _ _ Hle) Hsup Hok Em Hch Had Hor) as Hch'.
  assert (follower_of s' = follower_of s) as Hfo by (unfold follower_of; destruct Had; congruence).
  assert (<[i := pnode_of s']> PN = PN) as EPN by (apply insert_id; rewrite HPN; f_equal; unfold pnode_of; destruct Had; congruence).
  assert (quiet (consensus s) (consensus s')) as Hq by (apply (ad_quiet _ _ _ Had), pending_no_config; rewrite Em; apply Hle).
  exists (mkProtocol (<[i := pnode_of s']> PN) PL PV PA). split; [by rewrite EPN|].
  eapply (quiet_inv N E R A C Ld G K Q _ W W D _ _ i s s' Hinv Hi); try done; [by rewrite EPN|by apply quiet_follows|left; apply Had|].
  pose proof (kept_part PN PL PV PA _ _ Ld Q W D i s s' Hl Hi (replica_in_insert N G i s') Hfo Hok') as Hl'. rewrite (ad_term _ _ _ Had), Hts in Hl'. specialize (Hl' Hch').
  eapply (queue_part release config HQ _ _ Ld Q W D T i q); try done.
  - intros ld1 HT1 _ Hqi1. cbn in HT, HT1. rewrite HT in HT1. injection HT1 as <-. eapply (commit_queue _ T ld q s'); try done. by rewrite (ad_mem _ _ _ Had).
  - intros ld1 w x HT1 Hw Hx Hex. unfold set_committed_index. by destruct id as [id|]; [destruct (_ <? _)|].
Qed.

(** *** Followers *)

Section update.
Context (T : Z) (L : list Operation) (r : UpdateRequest) (s s' : Replica) (res : Result (ConsensusResponsePB * option OpId)).
Context (HL : log_ok L) (Hreq : request_of L r) (Hprev : preceding_id r = last_op_id (take (preceding_index r) L)) (Hcaller : caller_term (header r) = T).
Context (Hag : agrees L r s) (Hu : update_effect L r s s' res).

Lemma update_cases : log_same s s' \/ (current_term_of s <= T /\ current_term_of s' = T).
Proof using Hcaller Hu. rewrite <- Hcaller. inversion Hu; auto. Qed.

Lemma update_term : current_term_of s <= current_term_of s'.
Proof using Hcaller Hu. destruct update_cases as [[_ [_ [[_ ?]|[_ ?]]]]|[? ?]]; unfold current_term_of in *; lia. Qed.

(** Each is a step of the protocol. *)
Lemma update_steps PN PL PV PA u ld :
  PN !! u = Some (pnode_of s) -> PL !! T = Some ld -> l_log ld = L ->
  rtc protocol_step (mkProtocol PN PL PV PA) (mkProtocol (<[u := pnode_of s']> PN) PL PV PA).
Proof using HL Hreq Hprev Hcaller Hag Hu.
  intros HPN HT EL. assert (current_term_of s <= T -> rtc protocol_step (mkProtocol PN PL PV PA) (mkProtocol (<[u := mkPnode T (mem s) (log_ (rlog s))]> PN) PL PV PA)) as Hstep.
  { intros Hle. apply rtc_once. by apply (p_term PN PL PV PA u (pnode_of s) T). }
  set (n := mkPnode T (mem s) (log_ (rlog s))) in *. assert (∀ j, conflict (mem s) L j -> protocol_step (mkProtocol (<[u := n]> PN) PL PV PA) (mkProtocol (<[u := with_mem (take j (mem s)) n]> PN) PL PV PA)) as Htrunc.
  { intros j Hj. rewrite <- (insert_insert_eq PN u (with_mem (take j (mem s)) n) n). apply (p_truncate (<[u := n]> PN) PL PV PA u n ld j); [apply lookup_insert_eq|done|by rewrite EL]. }
  destruct Hu as [res' Hs _|a w Hle Ht Hge Ha Hta Em Eap Elo Ec|res' j m Hle Ht Hpm Hjn Hkn Hcase _ _ _]; [by eapply silent_step|rewrite Hcaller in *..].
  - etrans; [by apply Hstep|]. apply rtc_once. assert (pnode_of s' = with_mem (take (Z.to_nat (index (preceding_id r) - 1)) (mem s)) n) as -> by (unfold pnode_of, with_mem; cbn; congruence).
    apply Htrunc. pose proof (rq_prev _ _ Hreq). destruct (preceding_lookup L (preceding_id r)) as (b & Hb & Eb); [done|lia|done|]. exists a, b. split; [done|]. split; [done|].
    change (term (op_id a) ≠ term (op_id b)). by rewrite Eb.
  - destruct (request_ops r !! j) as [op|] eqn:Eop.
    2: { destruct Hcase as (Em & Elo & _). assert (pnode_of s' = n) as -> by (unfold pnode_of; by rewrite Ht, Em, Elo). by apply Hstep. }
    destruct Hcase as (Em & Hend & H0 & Hn). assert (take (preceding_index r + j) (mem s) = take (preceding_index r + j) L) as Htake by (apply Hag; [by rewrite Hcaller|lia|done|done]).
    pose proof (request_lookup L r Hreq j op Eop) as HLop.
    assert (length (mem s) = (preceding_index r + j)%nat \/ conflict (mem s) L (preceding_index r + j)) as Hend'.
    { destruct Hend as [?|(a & Ha & Hta)]; [by left|right]. exists a, op. by split_and!. }
    etrans; [by apply Hstep|]. destruct (decide (m = 0%nat)) as [->|Hm].
    + destruct (H0 eq_refl) as [Elo _]. rewrite Nat.add_0_r, <- Htake in Em. destruct Hend' as [Hlen|Hcf].
      * assert (pnode_of s' = n) as ->; [|done]. unfold pnode_of. by rewrite Ht, Elo, Em, take_ge by lia.
      * apply rtc_once. assert (pnode_of s' = with_mem (take (preceding_index r + j) (mem s)) n) as -> by (unfold pnode_of, with_mem; cbn; congruence). by apply Htrunc.
    + destruct (Hn ltac:(lia)) as [Elo _]. apply rtc_once. assert (pnode_of s' = with_logs (take (preceding_index r + j + m) (l_log ld)) n) as -> by (unfold pnode_of, with_logs; cbn; by rewrite Elo, Ht, Em, EL).
      rewrite <- (insert_insert_eq PN u (with_logs (take (preceding_index r + j + m) (l_log ld)) n) n). apply (p_accept (<[u := n]> PN) PL PV PA u n ld (preceding_index r + j)); [apply lookup_insert_eq|done| |by rewrite EL|by rewrite EL].
      rewrite EL. destruct Hreq as [Hp Ho]. apply prefix_length in Ho. rewrite length_drop in Ho. lia.
Qed.

(** What is applied is committed. *)
Lemma update_chosen p : replica_ok s' -> chosen p (current_term_of s) (applied (rlog s)) -> chosen_id p T L (request_committed r) -> chosen p (current_term_of s') (applied (rlog s')).
Proof using HL Hreq Hcaller Hag Hu.
  intros Hok' Hch [Hci Hcc]. pose proof update_term as Hterm. destruct Hu as [res' [El _] _|a w Hle Ht Hge Ha Hta Em Eap Elo Ec|res' j m Hle Ht Hpm Hjn Hkn Hcase Hpre Hb _].
  - rewrite El. by eapply chosen_le.
  - rewrite Eap. by eapply chosen_le.
  - destruct (decide (length (applied (rlog s')) <= length (applied (rlog s)))%nat) as [Hshort|Hlong].
    { rewrite <- (prefix_length_eq _ _ Hpre Hshort). by eapply chosen_le. }
    rewrite Ht, Hcaller. eapply chosen_prefix; [|exact Hcc]. assert (take (preceding_index r + j + m) (mem s') = take (preceding_index r + j + m) L) as Htake.
    { destruct (request_ops r !! j) as [op|] eqn:Eop; [destruct Hcase as (-> & _); by rewrite take_take, Nat.min_id|]. destruct Hcase as (-> & _).
      apply lookup_ge_None in Eop. assert (m = 0%nat) as -> by lia. rewrite Nat.add_0_r. apply Hag; [done|lia|done|done]. }
    rewrite applied_mem. pose proof (rq_prev _ _ Hreq). assert (∀ l : list Operation, take (length (applied (rlog s'))) l = take (length (applied (rlog s'))) (take (preceding_index r + j + m) l)) as Htt.
    { intros l. rewrite take_take. f_equal. lia. }
    rewrite Htt, Htake, <- Htt. apply prefix_take_le. lia.
Qed.

End update.

(** A log is the start of another when the other has its last operation. *)
Lemma match_last (PL : gmap Z (leadership Operation)) (m L : list Operation) :
  log_ok m -> log_ok L -> from_leaders PL m -> from_leaders PL L -> m `prefix_of` L <-> has_id L (last_op_id m).
Proof using.
  intros Hm HL Hfm HfL. split; [by apply prefix_has_last|]. intros Hid. destruct (last m) as [a|] eqn:Ea; [|apply last_None in Ea as ->; apply prefix_nil].
  assert (last_op_id m = op_id a) as El by (unfold last_op_id; by rewrite Ea). apply last_lookup_pred in Ea as Ha. pose proof (lookup_lt_Some _ _ _ Ha).
  pose proof (last_op_id_index m Hm) as Hi. apply has_id_spec in Hid as [E|(_ & b & Hb & Eb)]; [rewrite E in Hi; cbn in Hi; lia|].
  rewrite Hi in Hb. replace (Z.to_nat (Z.of_nat (length m) - 1)) with (length m - 1)%nat in Hb by lia.
  assert (take (S (length m - 1)) m = take (S (length m - 1)) L) as Et.
  { apply (log_matching PL _ _ _ a b); try done. change (term (op_id a) = term (op_id b)). by rewrite Eb, El. }
  replace (S (length m - 1)) with (length m) in Et by lia. rewrite take_ge in Et by done. rewrite Et. apply prefix_take.
Qed.

(** The acknowledgement of a follower that agrees with the leader. *)
Definition ack_of (T : Z) (L : list Operation) (u : uuid) (s : Replica) : list (uuid * Z * nat) :=
  if decide (current_term_of s = T /\ has_id L (last_op_id (mem s))) then [(u, T, length (mem s))] else [].

Lemma ack_steps PN PL PV PA u s T ld :
  protocol_ok (mkProtocol PN PL PV PA) -> PN !! u = Some (pnode_of s) -> PL !! T = Some ld ->
  rtc protocol_step (mkProtocol PN PL PV PA) (mkProtocol PN PL PV (PA ++ ack_of T (l_log ld) u s)).
Proof using.
  intros Hp HPN HT. destruct (po_leaders _ Hp T ld HT) as [_ _ HL _ _ HfL _ _]. destruct (po_nodes _ Hp u _ HPN) as [_ Hd Hld Hfrom _].
  unfold ack_of. destruct (decide _) as [[Ht Hpre]|_]; [|by rewrite app_nil_r]. apply (match_last PL) in Hpre; [|by eapply log_ok_prefix|done|by eapply from_leaders_prefix|done]. apply rtc_once. rewrite <- Ht. apply (p_ack PN PL PV PA u (pnode_of s) ld); [done|cbn; by rewrite Ht|by apply prefix_length|].
  cbn. destruct Hpre as [x ->]. unfold contains. by rewrite take_app_length.
Qed.

Lemma put_response_ne (k k' : Z * uuid) (a : option ConsensusResponsePB) (W : gmap (Z * uuid) message) : k' ≠ k -> put_response k a W !! k' = W !! k'.
Proof using. intros Hne. destruct a; cbn; [by rewrite lookup_insert_ne|by rewrite lookup_delete_ne]. Qed.

Lemma put_response_eq (k : Z * uuid) (a : option ConsensusResponsePB) (W : gmap (Z * uuid) message) : put_response k a W !! k = Response <$> a.
Proof using. destruct a; cbn; [by rewrite lookup_insert_eq|by rewrite lookup_delete_eq]. Qed.

Section follower.
Context (PN : gmap uuid (pnode Operation)) (PL : gmap Z (leadership Operation)) (PV : list (pvote Operation)) (PA : list (uuid * Z * nat)).
Context (rep rep' : uuid -> option Replica) (Ld : list (Z * uuid)) (Q : gmap Z PeerMessageQueue) (W : gmap (Z * uuid) message) (D : list (Z * MajorityReplicatedData)).
Context (T : Z) (u : uuid) (r : UpdateRequest) (s s' : Replica) (res : Result (ConsensusResponsePB * option OpId)) (ld : leadership Operation).
Abbreviation p := (mkProtocol PN PL PV PA).
Abbreviation PA' := (PA ++ ack_of T (l_log ld) u s').
Abbreviation p' := (mkProtocol (<[u := pnode_of s']> PN) PL PV PA').
Context (Hp : protocol_ok p) (Hp' : protocol_ok p') (Hl : log_part release config p rep Ld Q W D) (HWu : W !! (T, u) = Some (Request r)) (Hs : rep u = Some s).
Context (HT : PL !! T = Some ld) (Hne : u ≠ l_node ld) (Hok' : replica_ok s') (Hu : update_effect (l_log ld) r s s' res) (Hcaller : caller_term (header r) = T).
Context (Hreq : request_of (l_log ld) r) (Hprev : preceding_id r = last_op_id (take (preceding_index r) (l_log ld))) (Hag : agrees (l_log ld) r s).
Context (Hfill : ∀ resp w, res = Ok (resp, w) -> resp = FillConsensusResponseOKUnlocked (status_error resp) s').

Lemma update_exchange : exchange_ok T (l_log ld) (acked PA u T) (follower_of s) (tracked Q T u) (W !! (T, u)) ->
  exchange_ok T (l_log ld) (acked PA' u T) (follower_of s') (tracked Q T u) (Response <$> response_of res).
Proof using Hp' HWu HT Hok' Hu Hcaller Hreq Hprev Hag Hfill.
  intros Hex. rewrite HWu in Hex. destruct (po_leaders _ Hp' T ld HT) as [_ _ HL _ _ HfL _ _].
  destruct (po_nodes _ Hp' u (pnode_of s')) as [_ Hpre Hld Hfrom _]; [cbn; apply lookup_insert_eq|]. cbn in Hpre, Hld, Hfrom. pose proof (from_leaders_prefix _ _ _ Hpre Hfrom) as Hfm.
  pose proof (log_ok_prefix _ _ Hpre Hld) as Hlm. pose proof (match_last PL (mem s') (l_log ld) Hlm HL Hfm HfL) as Hmatch.
  eapply (exchange_update T (l_log ld) (acked PA u T) _ (follower_of s)); cbn; try done.
  - intros k (k' & Hk & Hin). exists k'. split; [done|]. apply elem_of_app. by left.
  - intros Ht. destruct (last (mem s')) as [a|] eqn:Ea; [|apply last_None in Ea; rewrite Ea; cbn; lia]. unfold last_op_id in Ht. rewrite Ea in Ht.
    apply last_lookup_pred in Ea. destruct (Hfm _ a Ea) as (ld' & HT' & Hlt & _). cbn in HT'. change (op_id_of a) with (op_id a) in *. rewrite Ht, HT in HT'. injection HT' as <-.
    pose proof (lookup_lt_Some _ _ _ Ea). lia.
  - intros Ht Hid. exists (length (mem s')). split; [done|]. apply elem_of_app. right. unfold ack_of. rewrite decide_True by done. by left.
  - apply Hok'.
  - rewrite <- Hcaller. by apply update_handled.
  - intros x Hx. destruct res as [[resp w]|c]; [|done]. injection Hx as <-. rewrite (Hfill resp w eq_refl). split; [done|]. split; [|done]. cbn. apply Hok'.
Qed.

Lemma update_part (Hrep : ∀ w, rep' w = if decide (w = u) then Some s' else rep w) :
  log_part release config p' rep' Ld Q (put_response (T, u) (response_of res) W) D.
Proof using Hp Hp' Hl HWu Hs HT Hne Hok' Hu Hcaller Hreq Hprev Hag Hfill.
  pose proof (lp_replicas _ _ _ _ _ _ _ _ Hl u s Hs) as [Hname Hok Hch Hcu]. assert (grown p p') as Hg by (apply grown_same; intros a Ha; apply elem_of_app; by left).
  pose proof (update_cases _ _ _ _ _ _ Hcaller Hu) as Hcase. pose proof (update_term _ _ _ _ _ _ Hcaller Hu) as Hterm.
  assert (chosen_id p T (l_log ld) (request_committed r)) as Hcom.
  { destruct (lp_requested _ _ _ _ _ _ _ _ Hl T u r HWu) as (ld' & HT' & _ & _ & ?). cbn in HT'. rewrite HT in HT'. by injection HT' as <-. }
  eapply (log_part_node release config PN PL PV PV PA PA' rep rep' Ld Q W _ D u s s' Hl); try done.
  - intros a Ha. apply elem_of_app. by left.
  - split; [done|done| |].
    + eapply chosen_grown; [exact Hg|]. eapply update_chosen; try done. apply (po_leaders _ Hp T ld HT).
    + intros Hc. destruct Hcase as [[_ [_ [[E1 E2]|[E1 _]]]]|[_ ->]]; [|done|by exists ld]. unfold current_term_of, GetLastReceivedOpIdCurLeaderUnlocked in *. cbn. rewrite E2. apply Hcu. by rewrite <- E1.
  - intros T1 ld1 H1 Hn1 Ht1. destruct Hcase as [Hsame|[_ Ht]]; [|congruence]. destruct (po_leaders _ Hp T1 ld1 H1) as [_ _ _ _ _ _ (n & Hn & Hle) _]. rewrite Hn1 in Hn.
    rewrite (lp_nodes _ _ _ _ _ _ _ _ Hl u), Hs in Hn. injection Hn as <-. cbn in Hle. rewrite (log_same_mem _ _ Hsame). destruct Hsame as [-> _].
    apply (lp_leading _ _ _ _ _ _ _ _ Hl T1 ld1 H1); [by rewrite Hn1|lia].
  - intros T1 w Hw. apply put_response_ne. congruence.
  - intros T1 r1. destruct (decide (T1 = T)) as [->|HT1]; [rewrite put_response_eq; by destruct (response_of res)|by rewrite put_response_ne by congruence].
  - intros T1 m. destruct (decide (T1 = T)) as [->|HT1]; [by rewrite HWu|rewrite put_response_ne by congruence; by intros ->].
  - intros T1 ld1 H1 Hn1 Hex. destruct (decide (T1 = T)) as [->|HT1].
    + rewrite put_response_eq. rewrite HT in H1. injection H1 as <-. by apply update_exchange.
    + rewrite put_response_ne by congruence. eapply exchange_acks; [intros k; by apply (acked_grown p p')|]. destruct Hcase as [Hsame|[Hle Ht]].
      * pose proof (log_same_silent _ _ Hsame) as (? & ? & ?). by eapply (exchange_silent T1 _ _ (follower_of s)).
      * eapply (exchange_other T1 _ _ (follower_of s)); [done|done|cbn; congruence|]. cbn. apply Hok'.
Qed.

End follower.

Lemma update_inv N E R A C Ld G K Q W D p env timeout T u r s s' res :
  log_inv release config (mkLogSystem (mkSystem N E R A C Ld) G K Q W D) p ->
  W !! (T, u) = Some (Request r) -> replica_in N G u = Some s -> UpdateReplica release RangeTimeLimit env timeout r s = Done (s', res) ->
  ∃ p', rtc protocol_step p p' /\ log_inv release config (mkLogSystem (mkSystem (<[u := consensus s']> N) E R A C Ld) (<[u := rlog s']> G) K Q (put_response (T, u) (response_of res) W) D) p'.
Proof using.
  intros Hinv HWu Hu E1. pose proof Hinv as [_ Hp Hl _]. destruct p as [PN PL PV PA]. cbn [base leaders queues wire told] in Hl.
  destruct (lp_requested _ _ _ _ _ _ _ _ Hl T u r HWu) as (ld & HT & Hne & Hcall & _). cbn in HT. pose proof (lp_replicas _ _ _ _ _ _ _ _ Hl u s Hu) as [Hname Hok Hch _].
  pose proof (lp_exchange _ _ _ _ _ _ _ _ Hl T ld u s HT Hne Hu) as Hex. destruct (ex_request _ _ _ _ _ _ Hex r HWu) as (Hreq & Hprev & Hcaller & _). clear Hex.
  pose proof (lp_leading _ _ _ _ _ _ _ _ Hl T ld HT) as Hle. destruct (po_leaders _ Hp T ld HT) as [_ _ HL _ _ HfL _ _].
  assert (PN !! u = Some (pnode_of s)) as HPN by (etrans; [apply (lp_nodes _ _ _ _ _ _ _ _ Hl u)|unfold replica; cbn; by rewrite Hu]). destruct (po_nodes _ Hp u _ HPN) as [_ Hpre _ Hfrom _].
  pose proof (from_leaders_prefix _ _ _ Hpre Hfrom) as Hfm. cbn in HfL, Hfm.
  assert (agrees (l_log ld) r s) as Hag by (apply (agrees_intro PL); try done; rewrite Hcaller; intros Hts; by eapply chosen_leader).
  destruct (UpdateReplica_spec release RangeTimeLimit env config u Hname (l_log ld) HL (le_fits _ _ _ _ Hle) r Hreq) with (timeout := timeout) (s := s) (s' := s') (r := res)
    as (Hok' & Heff & Hfill & Hcf); try done; [by rewrite Hcall|].
  assert (no_config (pending s)) as Hno by (by eapply pending_no_config, from_leaders_config). assert (ops_no_config (request_ops r)) as Hnor.
  { pose proof (le_config _ _ _ _ Hle) as Hc. destruct Hreq as [_ [x Hx]]. apply (Forall_drop _ (preceding_index r)) in Hc. rewrite Hx in Hc. by apply Forall_app in Hc as [? _]. }
  destruct (Hcf Hnor Hno) as [_ Hfo]. set (PN' := <[u := pnode_of s']> PN).
  assert (rtc protocol_step (mkProtocol PN PL PV PA) (mkProtocol PN' PL PV PA)) as Hst by (by eapply (update_steps T (l_log ld) r s s' res)).
  assert (protocol_ok (mkProtocol PN' PL PV PA)) as Hp1 by (by eapply protocol_steps_ok).
  assert (rtc protocol_step (mkProtocol PN' PL PV PA) (mkProtocol PN' PL PV (PA ++ ack_of T (l_log ld) u s'))) as Hst' by (apply ack_steps; [done|apply lookup_insert_eq|done]).
  pose proof (protocol_steps_ok _ _ Hp1 Hst') as Hp2. eexists. split; [etrans; [exact Hst|exact Hst']|].
  eapply (quiet_inv N E R A C Ld G K Q Q W _ D _ _ u s s' Hinv Hu); try done.
  - destruct (update_cases T (l_log ld) r s s' res Hcaller Heff) as [Hsame|[_ Ht]]; [left; by apply log_same_mem|right]. rewrite Ht. by exists ld.
  - eapply update_part; try done. apply replica_in_insert.
Qed.

(** *** Faults *)

Lemma lost_part p rep Ld Q W D k : log_part release config p rep Ld Q W D -> log_part release config p rep Ld Q (delete k W) D.
Proof using.
  intros []. assert (∀ k' m, delete k W !! k' = Some m -> W !! k' = Some m) as Hsub by (intros k' m [_ ?]%lookup_delete_Some; done). split; try done.
  - intros T ld u s HT Hu Hs. specialize (lp_exchange0 T ld u s HT Hu Hs). destruct (decide (k = (T, u))) as [->|Hne]; [rewrite lookup_delete_eq; by eapply exchange_lose|by rewrite lookup_delete_ne].
  - intros T u r Hr%Hsub. by apply lp_requested0.
  - intros T u m Hm%Hsub. by eapply lp_wired0.
Qed.

Lemma from_leaders_fits p rep Ld Q W D l : log_part release config p rep Ld Q W D -> from_leaders (p_leaders p) l -> Z.of_nat (length l) < 2 ^ 63.
Proof using.
  intros Hl Hf. destruct (last l) as [e|] eqn:Ee; [|apply last_None in Ee as ->; done]. apply last_lookup_pred in Ee. destruct (Hf _ e Ee) as (ld & HT & Hlt & _).
  pose proof (le_fits _ _ _ _ (lp_leading _ _ _ _ _ _ _ _ Hl _ ld HT)). pose proof (lookup_lt_Some _ _ _ Ee). lia.
Qed.

Lemma restart_inv N E R A C Ld G K Q W D p env i s k s0 s' (Hc : config_ok config) :
  log_inv release config (mkLogSystem (mkSystem N E R A C Ld) G K Q W D) p -> replica_in N G i = Some s -> cmeta_ (consensus s0) = Load i (on_disk (cmeta_ (consensus s))) ->
  (k <= length (applied (rlog s)))%nat -> bootstrapped (log_ (rlog s)) k s0 -> Start release RangeTimeLimit env (bootstrap_info (log_ (rlog s)) k) s0 = Done (s', Ok tt) ->
  ∃ p', rtc protocol_step p p' /\ log_inv release config (mkLogSystem (mkSystem (<[i := consensus s']> N) (filter (λ nr, candidate_uuid (request_ (election nr.2)) ≠ i) E) R A C Ld) (<[i := rlog s']> G) K Q W D) p'.
Proof using.
  intros Hinv Hi Hload Hk Hboot Hst. pose proof Hinv as [Hb Hp Hl Hv]. destruct p as [PN PL PV PA]. cbn [base leaders queues wire told] in Hl, Hb.
  assert (node_ok config i (consensus s)) as Hnode by (eapply node_of; [exact Hinv|exact Hi]). pose proof Hi as [HNi _]%replica_in_Some.
  pose proof (lp_replicas _ _ _ _ _ _ _ _ Hl i s Hi) as [Hname Hok Hch _]. assert (PN !! i = Some (pnode_of s)) as HPN by (etrans; [apply (lp_nodes _ _ _ _ _ _ _ _ Hl i)|unfold replica; cbn; by rewrite Hi]).
  destruct (po_nodes _ Hp i _ HPN) as [_ Hpre Hlo Hfrom _]. cbn in Hpre, Hlo, Hfrom. pose proof (prefix_length _ _ Hpre) as Hlen. pose proof (mem_length s) as Hml.
  destruct (Start_spec release RangeTimeLimit env (log_ (rlog s)) k s0 s') as (Hok' & Em & Ea & Ed & Ec & Hsv); try done; [by eapply from_leaders_fits|lia|by eapply from_leaders_config|].
  assert (vote_of (consensus s') = vote_of (consensus s) /\ current_term_of s' = current_term_of s) as [Ev Et].
  { destruct Hsv as (_ & E1 & _). unfold vote_of, current_term_of, GetCurrentTermUnlocked, current_term. rewrite E1, Hload. cbn. by rewrite (nd_disk _ _ _ Hnode). }
  assert (pnode_of s' = with_mem (n_disk (pnode_of s)) (pnode_of s)) as Epn by (unfold pnode_of, with_mem; cbn; by rewrite Et, Em, Ed).
  assert (protocol_step (mkProtocol PN PL PV PA) (mkProtocol (<[i := pnode_of s']> PN) PL PV PA)) as Hstep by (rewrite Epn; by apply p_crash).
  eexists. split; [by apply rtc_once|]. eapply (replica_inv N E _ R A C Ld G K Q Q W W D _ _ i s s' Hinv Hi); try done.
  - by eapply protocol_step_ok.
  - pose proof (system_step_ok release config _ _ Hc Hb (or_intror (step_crash N E R A C Ld i _ (consensus s0) HNi Hload))) as Hb0.
    pose proof (system_step_ok release config _ _ Hc Hb0 (or_intror (step_other _ _ R A C Ld i _ (consensus s') (lookup_insert_eq _ _ _) Hsv))) as Hb1. by rewrite insert_insert_eq in Hb1.
  - intros n r [Hr _]%map_lookup_filter_Some. by exists r.
  - lia.
  - intros x Hx. split; [by rewrite <- Ev|exact Et].
  - intros n r T last [Hr Hcand]%map_lookup_filter_Some (request & HR & _ & Hci & _). cbn in Hcand. destruct (sy_elections _ _ _ Hb n r Hr) as (request' & HR' & Hei). cbn in HR'.
    rewrite HR in HR'. injection HR' as <-. by rewrite (ei_request _ _ _ _ _ Hei) in Hcand.
  - eapply (log_part_node release config PN PL PV PV PA PA _ _ Ld Q W W D i s s' Hl); try done; [apply replica_in_insert|..].
    + split; [done|done| |by rewrite Ec]. rewrite Et, Ea. eapply chosen_grown; [by apply grown_same|]. eapply chosen_prefix; [|exact Hch].
      destruct Hpre as [x Hx]. rewrite Hx, take_app_le by lia. rewrite applied_mem. apply prefix_take_le. lia.
    + intros T ld HT Hn HT'. rewrite Em, Ed. split; apply (lp_leading _ _ _ _ _ _ _ _ Hl T ld HT); try by rewrite Hn. all: congruence.
    + intros T ld HT Hn Hex. by eapply (exchange_restart T _ _ (follower_of s)).
Qed.

End replication.

(** ** All steps *)

Section reachable.
Context (release : bool) (RangeTimeLimit : Z) (config : RaftConfigPB) (Hc : config_ok config) (HV : VerifyRaftConfig config COMMITTED_QUORUM = Ok tt).

#[local] Instance quorums : QuorumSystem := config_quorums release config Hc.

Lemma quorums_majority m Q : MajoritySize release (CountVoters config) = Done m -> quorum config m Q -> is_quorum Q.
Proof using. intros Em HQ. by exists m. Qed.

Lemma replication_step_inv sys sys' p :
  log_inv release config sys p -> replication_step release RangeTimeLimit sys sys' -> ∃ p', rtc protocol_step p p' /\ log_inv release config sys' p'.
Proof using.
  intros Hinv Hstep. assert (∀ N E R A C Ld G K Q W D Q' W' D', log_inv release config (mkLogSystem (mkSystem N E R A C Ld) G K Q W D) p ->
    log_part release config p (replica_in N G) Ld Q' W' D' -> ∃ p', rtc protocol_step p p' /\ log_inv release config (mkLogSystem (mkSystem N E R A C Ld) G K Q' W' D') p') as Hqueue.
  { intros N E R A C Ld G K Q W D Q' W' D' [Hb Hp _ Hv] Hl'. exists p. split; [done|]. by split. }
  pose proof (li_log _ _ _ _ Hinv) as Hl. pose proof (li_protocol _ _ _ _ Hinv) as Hp. pose proof quorums_majority as Hm.
  destruct Hstep as [N E R A C Ld G K Q W D env T i s rounds s' r q HLd Hs Ht Hq Hno He Hf E1|N E R A C Ld G K Q W D env size max T i s u x q q' pr r HLd Hs Ht Hq Hne Hx E1 _ E2
    |N E R A C Ld G K Q W D env timeout T u r s s' res HWu Hs E1|N E R A C Ld G K Q W D env T i s u a q q' more notes HLd Hs Ht Hq HWu Hr E1
    |N E R A C Ld G K Q W D env T i s op q q' more notes HLd Hs Ht Hq Hop Hr E1|N E R A C Ld G K Q W D env rv T i s d q s' id HLd Hs Ht Hq Hd E1
    |N E R A C Ld G K Q W D now T i u q q' HLd Hq Hne E1|N E R A C Ld G K Q W D T i u q HLd Hq Hne].
  - by eapply replicate_inv.
  - eapply Hqueue; [done|]. by eapply send_part.
  - by eapply update_inv.
  - eapply Hqueue; [done|]. by eapply ls_respond_part.
  - eapply Hqueue; [done|]. by eapply ls_written_part.
  - by eapply majority_inv.
  - eapply Hqueue; [done|]. by eapply track_part.
  - eapply Hqueue; [done|]. by eapply untrack_part.
Qed.

Lemma fault_step_inv sys sys' p :
  log_inv release config sys p -> fault_step release RangeTimeLimit sys sys' -> ∃ p', rtc protocol_step p p' /\ log_inv release config sys' p'.
Proof using.
  intros Hinv Hstep. destruct Hstep as [N E R A C Ld G K Q W D k|N E R A C Ld G K Q W D i s c' Hs Hv Hr Hcu|N E R A C Ld G K Q W D env i s k s0 s' Hs Hload Hk Hb Hst].
  - exists p. split; [done|]. destruct Hinv as [? ? Hl ?]. split; try done. by apply lost_part.
  - pose proof Hs as [HNs _]%replica_in_Some. eapply (silent_step_inv release config Hc _ N E R A C Ld G K Q W D p i s (with_consensus c' s)); try done.
    + intros w. by apply replica_in_consensus.
    + split; [done|]. split; [done|]. left. split; [done|]. destruct Hv as (_ & E1 & _). unfold GetCurrentTermUnlocked, current_term. cbn. by rewrite E1.
    + apply no_vote_or. by apply same_vote_no_vote.
    + right. by eapply step_other.
  - by eapply restart_inv.
Qed.

Lemma log_step_inv sys sys' p :
  log_inv release config sys p -> log_step release RangeTimeLimit sys sys' -> ∃ p', rtc protocol_step p p' /\ log_inv release config sys' p'.
Proof using HV.
  intros Hinv [Hstep|[Hstep|Hstep]]; [|by eapply replication_step_inv|by eapply fault_step_inv]. destruct sys as [[N E R A C Ld] G K Q W D].
  destruct (election_silent_inv release RangeTimeLimit config Hc _ N E R A C Ld G K Q W D p sys' Hinv Hstep) as [?|Hlead]; [done|]. eapply lead_inv; [exact Hc|exact HV|exact quorums_majority|exact Hinv|exact Hlead].
Qed.

Lemma log_steps_inv sys sys' p :
  log_inv release config sys p -> rtc (log_step release RangeTimeLimit) sys sys' -> ∃ p', rtc protocol_step p p' /\ log_inv release config sys' p'.
Proof using HV.
  intros Hinv Hr. revert p Hinv. induction Hr as [sys|sys1 sys2 sys3 H12 _ IH]; intros p Hinv; [by exists p|].
  destruct (log_step_inv sys1 sys2 p Hinv H12) as (p1 & Hs1 & H1). destruct (IH p1 H1) as (p2 & Hs2 & H2). exists p2. split; [by etrans|done].
Qed.

(** Nothing has happened. *)
Definition initial_protocol (sys : log_system) : protocol Operation :=
  mkProtocol (map_imap (λ u _, pnode_of <$> replica sys u) (nodes (base sys))) ∅ [] [].

Lemma initial_nodes sys u : p_nodes (initial_protocol sys) !! u = pnode_of <$> replica sys u.
Proof using. cbn. rewrite map_lookup_imap. unfold replica, replica_in. by destruct (nodes (base sys) !! u). Qed.

Lemma initial_replica sys u s :
  log_initial config sys -> replica sys u = Some s -> u ≠ EmptyString /\ 0 <= current_term_of s /\ vote_of (consensus s) = None /\ replica_ok s /\
  mem s = [] /\ applied (rlog s) = [] /\ log_ (rlog s) = [] /\ GetLastReceivedOpIdCurLeaderUnlocked s = MinimumOpId.
Proof using.
  intros Hin [HN HG]%replica_in_Some. destruct (in_replicas _ _ Hin u _ _ HN HG) as (Hn & Ht & Hvo & Hr & Hcu & Hnx & Hco & Hpe & Hlo & Hap).
  assert (mem s = []) as Em by (unfold mem, pending; by rewrite Hap, Hpe). split_and!; try done. split; [split|..].
  - rewrite Em. apply log_ok_nil.
  - rewrite Hap. done.
  - by rewrite Em.
  - by rewrite Em.
  - by left.
  - by rewrite Em.
  - rewrite Em. apply prefix_nil.
  - rewrite Hlo. apply log_ok_nil.
Qed.

Lemma log_initial_inv sys : log_initial config sys -> log_inv release config sys (initial_protocol sys).
Proof using.
  intros Hin. pose proof (initial_replica sys) as Hrep. pose proof Hin as [Hb Hpr _ EK EQ EW ED]. pose proof Hb as (_ & EE & ER & EA & EC & EL).
  split; [by apply system_initial_ok|split|split|split]; rewrite ?EQ, ?EW, ?ED, ?EL, ?EC, ?ER, ?EE, ?EK.
  - intros u n Hn. rewrite initial_nodes in Hn. apply fmap_Some in Hn as (s & Hs & ->). destruct (Hrep u s Hin Hs) as (_ & Ht & _ & Hok & Em & _ & El & _).
    split; cbn; rewrite ?Em, ?El; try done. by intros e ?%elem_of_nil.
  - intros T ld. cbn. by rewrite lookup_empty.
  - intros v Hv. by apply elem_of_nil in Hv.
  - intros u T k Hk. by apply elem_of_nil in Hk.
  - apply initial_nodes.
  - intros u s Hs. destruct (Hrep u s Hin Hs) as (Hn & _ & _ & Hok & _ & Ea & _ & Ecu). split; [done|done| |by rewrite Ecu]. rewrite Ea. by left.
  - intros T i. split; [by intros ?%elem_of_nil|]. cbn. intros (ld & Hld & _). by rewrite lookup_empty in Hld.
  - intros T ld. cbn. by rewrite lookup_empty.
  - intros T ld u s. cbn. by rewrite lookup_empty.
  - intros T u r. by rewrite lookup_empty.
  - intros T u m. by rewrite lookup_empty.
  - intros T q. by rewrite lookup_empty.
  - intros T d ?%elem_of_nil. done.
  - done.
  - intros u s c Hs. destruct (Hrep u s Hin Hs) as (_ & _ & -> & _). done.
  - intros n c T last (request & HR & _). by rewrite lookup_empty in HR.
  - intros u T c ?%elem_of_nil. done.
  - intros n n' c T last last' (request & HR & _). by rewrite lookup_empty in HR.
  - intros n c T last (request & HR & _). by rewrite lookup_empty in HR.
  - intros n r c T last s. by rewrite lookup_empty.
  - intros T i ?%elem_of_nil. done.
Qed.

(** At any two times, all that is applied is committed. *)
Lemma applied_chosen sys sys1 sys2 :
  log_initial config sys -> rtc (log_step release RangeTimeLimit) sys sys1 -> rtc (log_step release RangeTimeLimit) sys1 sys2 ->
  ∃ p, protocol_ok p /\ log_part release config p (replica sys2) (leaders (base sys2)) (queues sys2) (wire sys2) (told sys2) /\
    (∀ i s, replica sys1 i = Some s -> chosen p (current_term_of s) (applied (rlog s))) /\
    (∀ i s, replica sys2 i = Some s -> chosen p (current_term_of s) (applied (rlog s))) /\ rtc protocol_step (initial_protocol sys) p.
Proof using HV.
  intros Hin H1 H2. destruct (log_steps_inv sys sys1 _ (log_initial_inv sys Hin) H1) as (p1 & Hs1 & Hi1). destruct (log_steps_inv sys1 sys2 p1 Hi1 H2) as (p2 & Hs2 & Hi2).
  exists p2. split; [apply Hi2|]. split; [apply Hi2|]. assert (∀ T l, chosen p1 T l -> chosen p2 T l) as Hmono.
  { clear -Hs2. induction Hs2 as [|x y z Hxy _ IH]; [done|]. intros T l Hch. by eapply IH, chosen_step. }
  split; [|split; [|by etrans]].
  - intros i s Hs. apply Hmono. apply (lp_replicas _ _ _ _ _ _ _ _ (li_log _ _ _ _ Hi1) i s Hs).
  - intros i s Hs. apply (lp_replicas _ _ _ _ _ _ _ _ (li_log _ _ _ _ Hi2) i s Hs).
Qed.

End reachable.

(** ** Properties *)

(** The applied operations of a replica, by name. *)
Definition applied_by (sys : log_system) (u : uuid) : list Operation := match replica sys u with Some s => applied (rlog s) | None => [] end.

(** A replica becomes leader, a follower takes over its first operation, and both
    apply it. *)
Definition sample_log : LogState := mkLogState 1 MinimumOpId [] false false (mkImpl ∅) [] [].
Definition sample_read_env (l : list Operation) : QueueEnv := mkQueueEnv 1 1000000000 1000 (LogCache_LookupOpId l) (λ _, false) 2000 2000.
Definition sample_log_system : log_system :=
  mkLogSystem (mkSystem {["a" := sample_start "a"; "b" := sample_start "b"; "c" := sample_start "c"; "d" := sample_node "d" EmptyString READ_REPLICA 0 None MonoTime.Min]} ∅ ∅ [] [] [])
    {["a" := sample_log; "b" := sample_log; "c" := sample_log; "d" := sample_log]} [] ∅ ∅ [].

Record sample_pair : Type := mkSamplePair {
  sp_leader : Replica;
  sp_follower : Replica;
  sp_queue : PeerMessageQueue;
  sp_read : peer_request;
  sp_request : UpdateRequest;
  sp_response : ConsensusResponsePB;
  sp_told : list queue_notification;
  sp_committed : option OpId
}.

Definition sample_led : sample_pair :=
  let start := mkReplica sample_leader sample_log in
  let '(s, _, q) := ConsensusQueue.result (lead false sample_update_env 0 0 "a" start) (start, Error NotFound, new_queue "a") in
  mkSamplePair s (mkReplica (sample_voted "b") sample_log) q (mkPeerRequest None None MinimumOpId MinimumOpId 0 false 0)
    (mkUpdateRequest (mkConsensusRequestPB "a" 0 None 0) MinimumOpId [] MinimumOpId) (mkConsensusResponsePB None None MinimumOpId MinimumOpId 0 None) [] None.
Definition sample_track (x : sample_pair) : sample_pair :=
  mkSamplePair (sp_leader x) (sp_follower x) (ConsensusQueue.result (TrackPeerUnlocked false 0 "b" (sp_queue x)) (sp_queue x)) (sp_read x) (sp_request x) (sp_response x) (sp_told x) (sp_committed x).
Definition sample_send (x : sample_pair) : sample_pair :=
  let l := log_ (rlog (sp_leader x)) in
  match RequestForPeer false (sample_read_env l) "b" (sp_queue x) with
  | Done (Ok (q, pr)) =>
      let new := match peers_map_ (sp_queue x) !! "b" with Some p => is_new p | None => true end in
      match read_request (λ _, 1) 100 "a" new pr l with
      | Ok r => mkSamplePair (sp_leader x) (sp_follower x) q pr r (sp_response x) (sp_told x) (sp_committed x)
      | Error _ => x
      end
  | _ => x
  end.
Definition sample_update (x : sample_pair) : sample_pair :=
  match UpdateReplica false 1000 sample_update_env 1 (sp_request x) (sp_follower x) with
  | Done (s, r) => mkSamplePair (sp_leader x) s (sp_queue x) (sp_read x) (sp_request x) (default (sp_response x) (response_of r)) (sp_told x) (sp_committed x)
  | _ => x
  end.
Definition sample_notify (o : Outcome (PeerMessageQueue * bool * list queue_notification)) (x : sample_pair) : sample_pair :=
  match o with
  | Done (q, _, notes) => mkSamplePair (sp_leader x) (sp_follower x) q (sp_read x) (sp_request x) (sp_response x) notes (sp_committed x)
  | _ => x
  end.
Definition sample_respond (x : sample_pair) : sample_pair :=
  sample_notify (ResponseFromPeer false (sample_read_env (log_ (rlog (sp_leader x)))) "b" (sp_response x) (sp_queue x)) x.
Definition sample_written (x : sample_pair) : sample_pair :=
  sample_notify (LocalPeerAppendFinished false (sample_read_env (log_ (rlog (sp_leader x)))) (mkOpId 1 1) (Ok tt) (sp_queue x)) x.
Definition sample_told (x : sample_pair) : MajorityReplicatedData :=
  match sp_told x with [MajorityReplOpChange d] => d | _ => mkMajorityReplicatedData MinimumOpId 0 0 end.
Definition sample_commit (x : sample_pair) : sample_pair :=
  match UpdateMajorityReplicated false 1000 sample_update_env false (sp_queue x) (sample_told x) (sp_leader x) with
  | Done (s, id) => mkSamplePair s (sp_follower x) (set_committed_index id (sp_queue x)) (sp_read x) (sp_request x) (sp_response x) (sp_told x) id
  | _ => x
  end.
Definition sample_at (n : nat) : sample_pair :=
  foldl (λ x f, f x) sample_led
    (take n [sample_track; sample_send; sample_update; sample_respond; sample_send; sample_update; sample_respond; sample_written; sample_commit; sample_send; sample_update]).

Ltac step_election c := eapply rtc_l; [left; c|].
Ltac step_replication c := eapply rtc_l; [right; left; c|].
Ltac by_computation := solve [vm_compute; reflexivity | apply list_elem_of_In; vm_compute; auto | done].

Definition sample_peer_at (n : nat) : TrackedPeer := default (new_TrackedPeer 0 "b" 0) (peers_map_ (sp_queue (sample_at n)) !! "b").

Lemma sample_log_run : ∃ sys, rtc (log_step false 1000) sample_log_system sys /\ length (applied_by sys "a") = 1%nat /\ length (applied_by sys "b") = 1%nat /\ leaders (base sys) = [(1, "a")] /\
  ∃ s s', replica sys "b" = Some s /\ replica sys "a" = Some s' /\ current_term_of s = 1 /\ current_term_of s' = 1.
Proof.
  set (e0 := sample_votes {["a" := kGranted]} 1 kUnknown false).
  set (e1 := sample_votes {["a" := kGranted; "b" := kGranted]} 2 kUnknown false).
  set (e2 := sample_votes {["a" := kGranted; "b" := kGranted]} 2 kGranted true).
  eexists. split.
  - step_election ltac:(apply (ls_start _ _ _ _ _ _ _ _ _ _ _ _ _ sample_update_env (mkLeaderElectionData false false None) false "a" 0%nat
        (mkReplica (sample_start "a") sample_log) (mkReplica (sample_voted "a") sample_log) e0); vm_compute; reflexivity).
    step_election ltac:(apply (ls_run _ _ _ _ _ _ _ _ _ _ _ _ _ 0%nat (run_of e0) (mkRun e0 (Some ["b"; "c"]) [] 0 [])); [done|]; by apply (run_start _ e0 e0 None)).
    step_election ltac:(apply (ls_run _ _ _ _ _ _ _ _ _ _ _ _ _ 0%nat (mkRun e0 (Some ["b"; "c"]) [] 0 []) (mkRun e0 (Some ["c"]) ["b"] 0 [])); [done|]; by apply run_send).
    step_election ltac:(apply (ls_vote _ _ _ _ _ _ _ _ _ _ _ _ _ sample_env 0%nat (request_ e0) "b" (mkReplica (sample_start "b") sample_log) (mkReplica (sample_voted "b") sample_log) sample_answer);
      vm_compute; reflexivity).
    step_election ltac:(apply (ls_answer _ _ _ _ _ _ _ _ _ _ _ _ _ 0%nat (mkRun e0 (Some ["c"]) ["b"] 0 []) "b" (RpcResponse sample_answer) (mkRun e1 (Some ["c"]) [] 1 [])); [done| |by left; left];
      apply (run_respond _ e0 e1 ["c"] [] "b" [] 0 [] 0 _ true); vm_compute; reflexivity).
    step_election ltac:(apply (ls_run _ _ _ _ _ _ _ _ _ _ _ _ _ 0%nat (mkRun e1 (Some ["c"]) [] 1 []) (mkRun e2 (Some ["c"]) [] 0 [result_ e2])); [done|];
      by apply (run_check _ e1 e2 _ _ _ [] (Some (result_ e2)))).
    step_election ltac:(apply (ls_lead _ _ _ _ _ _ _ _ _ _ _ _ _ sample_update_env 0 0 0%nat (mkRun e2 (Some ["c"]) [] 0 [result_ e2]) (result_ e2) "a" (mkReplica (sample_voted "a") sample_log)
      sample_leader false (sp_leader sample_led) (log_ (rlog (sp_leader sample_led))) (sp_queue sample_led)); [done|by left|apply not_elem_of_nil|by_computation..]).
    step_replication ltac:(apply (ls_track _ _ _ _ _ _ _ _ _ _ _ _ _ 0 1 "a" "b" (sp_queue sample_led) (sp_queue (sample_at 1))); by_computation).
    step_replication ltac:(apply (ls_send _ _ _ _ _ _ _ _ _ _ _ _ _ (sample_read_env (log_ (rlog (sp_leader (sample_at 1))))) (λ _, 1) 100 1 "a" (sp_leader (sample_at 1)) "b"
      (sample_peer_at 1) (sp_queue (sample_at 1)) (sp_queue (sample_at 2)) (sp_read (sample_at 2)) (sp_request (sample_at 2))); by_computation).
    step_replication ltac:(apply (ls_update _ _ _ _ _ _ _ _ _ _ _ _ _ sample_update_env 1 1 "b" (sp_request (sample_at 2)) (sp_follower (sample_at 2)) (sp_follower (sample_at 3))
      (Ok (sp_response (sample_at 3), None))); by_computation).
    step_replication ltac:(apply (ls_respond _ _ _ _ _ _ _ _ _ _ _ _ _ (sample_read_env (log_ (rlog (sp_leader (sample_at 3))))) 1 "a" (sp_leader (sample_at 3)) "b" (sp_response (sample_at 3))
      (sp_queue (sample_at 3)) (sp_queue (sample_at 4)) true []); first [by intros ?|by_computation]).
    step_replication ltac:(apply (ls_send _ _ _ _ _ _ _ _ _ _ _ _ _ (sample_read_env (log_ (rlog (sp_leader (sample_at 4))))) (λ _, 1) 100 1 "a" (sp_leader (sample_at 4)) "b"
      (sample_peer_at 4) (sp_queue (sample_at 4)) (sp_queue (sample_at 5)) (sp_read (sample_at 5)) (sp_request (sample_at 5))); by_computation).
    step_replication ltac:(apply (ls_update _ _ _ _ _ _ _ _ _ _ _ _ _ sample_update_env 1 1 "b" (sp_request (sample_at 5)) (sp_follower (sample_at 5)) (sp_follower (sample_at 6))
      (Ok (sp_response (sample_at 6), Some (mkOpId 1 1)))); by_computation).
    step_replication ltac:(apply (ls_respond _ _ _ _ _ _ _ _ _ _ _ _ _ (sample_read_env (log_ (rlog (sp_leader (sample_at 6))))) 1 "a" (sp_leader (sample_at 6)) "b" (sp_response (sample_at 6))
      (sp_queue (sample_at 6)) (sp_queue (sample_at 7)) false (sp_told (sample_at 7))); first [by intros ?|by_computation]).
    step_replication ltac:(apply (ls_written _ _ _ _ _ _ _ _ _ _ _ _ _ (sample_read_env (log_ (rlog (sp_leader (sample_at 7))))) 1 "a" (sp_leader (sample_at 7)) (sample_entry 1 1)
      (sp_queue (sample_at 7)) (sp_queue (sample_at 8)) false (sp_told (sample_at 8))); first [by intros ?|by_computation]).
    step_replication ltac:(apply (ls_majority _ _ _ _ _ _ _ _ _ _ _ _ _ sample_update_env false 1 "a" (sp_leader (sample_at 8)) (sample_told (sample_at 8)) (sp_queue (sample_at 8))
      (sp_leader (sample_at 9)) (sp_committed (sample_at 9))); by_computation).
    step_replication ltac:(apply (ls_send _ _ _ _ _ _ _ _ _ _ _ _ _ (sample_read_env (log_ (rlog (sp_leader (sample_at 9))))) (λ _, 1) 100 1 "a" (sp_leader (sample_at 9)) "b"
      (sample_peer_at 9) (sp_queue (sample_at 9)) (sp_queue (sample_at 10)) (sp_read (sample_at 10)) (sp_request (sample_at 10))); by_computation).
    step_replication ltac:(apply (ls_update _ _ _ _ _ _ _ _ _ _ _ _ _ sample_update_env 1 1 "b" (sp_request (sample_at 10)) (sp_follower (sample_at 10)) (sp_follower (sample_at 11))
      (Ok (sp_response (sample_at 11), None))); by_computation).
    apply rtc_refl.
  - vm_compute. do 3 (split; [done|]). eexists _, _. by split_and!.
Qed.

Lemma sample_log_initial : log_initial sample_config sample_log_system.
Proof.
  assert (∀ u c, nodes (base sample_log_system) !! u = Some c -> u ≠ EmptyString /\ cmeta_ c = Load u (mkConsensusMetadataPB sample_config 0 None) /\
    last_received_op_id_ c = MinimumOpId /\ last_received_op_id_current_leader_ c = MinimumOpId) as HN.
  { intros u c Hu. cbn [base nodes sample_log_system] in Hu. repeat (apply lookup_insert_Some in Hu as [[<- <-]|[_ Hu]]; [done|]). by apply lookup_singleton_Some in Hu as [<- <-]. }
  assert (∀ u l, logs sample_log_system !! u = Some l -> l = sample_log) as HG.
  { intros u l Hu. cbn [logs sample_log_system] in Hu. repeat (apply lookup_insert_Some in Hu as [[_ <-]|[_ Hu]]; [done|]). by apply lookup_singleton_Some in Hu as [_ <-]. }
  split; try done.
  - split; [|done]. intros i s (_ & E & _)%HN. by exists (mkConsensusMetadataPB sample_config 0 None).
  - intros u Hu. vm_compute in Hu. repeat (apply elem_of_cons in Hu as [->|Hu]; [vm_compute; by eexists|]). by apply elem_of_nil in Hu.
  - intros u c l (Hu & E & ? & ?)%HN ->%HG. unfold GetCurrentTermUnlocked, vote_of. by rewrite E.
Qed.

(** C1: the replicas of a tablet apply the same operations in the same order.
    Whatever requests, answers and responses are lost or repeated, whichever
    replicas stop and start again with what is on their disks, and however
    leaders follow each other, what a replica has applied at one time and what
    any replica has applied at a later time is one the start of the other. This
    is for runs of [log_step]: the configuration does not change, no election
    waits for a commit ([pending_commit], see [pending_commit_other_term]), a
    leader and a follower have one message between them at a time, writes to the
    log are done when the call is, and a leader works with a new queue and takes
    up what it is told of majorities in the term of that queue. *)
Theorem raft_state_machine_safety release RangeTimeLimit config sys sys1 sys2 :
  VerifyRaftConfig config COMMITTED_QUORUM = Ok tt -> log_initial config sys ->
  rtc (log_step release RangeTimeLimit) sys sys1 -> rtc (log_step release RangeTimeLimit) sys1 sys2 ->
  ∀ i j, applied_by sys1 i `prefix_of` applied_by sys2 j \/ applied_by sys2 j `prefix_of` applied_by sys1 i.
Proof.
  intros HV Hin H1 H2 i j. pose proof HV as [Hc _]%VerifyRaftConfig_ok. unfold applied_by.
  destruct (applied_chosen release RangeTimeLimit config Hc HV sys sys1 sys2 Hin H1 H2) as (p & Hp & Hl & Hch & Hch' & _).
  destruct (replica sys1 i) as [s|] eqn:Hi; [|left; apply prefix_nil]. destruct (replica sys2 j) as [s'|] eqn:Hj; [|right; apply prefix_nil].
  eapply chosen_comparable; [exact Hp|by eapply Hch|by eapply Hch'].
Qed.

Lemma raft_state_machine_safety_witness :
  ∃ sys, rtc (log_step false 1000) sample_log_system sys /\ length (applied_by sys "a") = 1%nat /\ applied_by sys "a" = applied_by sys "b".
Proof.
  destruct sample_log_run as (sys & Hr & Ha & Hb & _). exists sys. split; [exact Hr|]. split; [exact Ha|].
  destruct (raft_state_machine_safety false 1000 sample_config sample_log_system sys sys eq_refl sample_log_initial Hr (rtc_refl _ _) "a" "b") as [Hp|Hp].
  - apply prefix_length_eq; [exact Hp|]. rewrite Ha, Hb. done.
  - symmetry. apply prefix_length_eq; [exact Hp|]. rewrite Ha, Hb. done.
Defined.

(** C5: a leader has all that was applied. While its term lasts, the log of a
    leader starts with whatever any replica, in that term or before, had ever
    applied; in runs of [log_step], with its assumptions: a fixed configuration,
    no elections that wait for a commit, one message at a time between a leader
    and a follower, writes to the log that are done when the call is, and a new
    queue for each leadership. *)
Theorem raft_leader_completeness release RangeTimeLimit config sys sys1 sys2 i s T j s' :
  VerifyRaftConfig config COMMITTED_QUORUM = Ok tt -> log_initial config sys ->
  rtc (log_step release RangeTimeLimit) sys sys1 -> rtc (log_step release RangeTimeLimit) sys1 sys2 ->
  replica sys1 i = Some s -> (T, j) ∈ leaders (base sys2) -> replica sys2 j = Some s' -> current_term_of s <= T -> current_term_of s' = T ->
  applied (rlog s) `prefix_of` mem s'.
Proof.
  intros HV Hin H1 H2 Hi Hj Hs' Hle HT. pose proof HV as [Hc _]%VerifyRaftConfig_ok.
  destruct (applied_chosen release RangeTimeLimit config Hc HV sys sys1 sys2 Hin H1 H2) as (p & Hp & Hl & Hch & _ & _).
  apply (lp_leaders _ _ _ _ _ _ _ _ Hl) in Hj as (ld & HTl & <-). destruct (le_mem _ _ _ _ (lp_leading _ _ _ _ _ _ _ _ Hl T ld HTl) s' Hs' HT) as [-> _].
  eapply chosen_leader; [exact Hp|by eapply Hch|exact Hle|exact HTl].
Qed.

Lemma raft_leader_completeness_witness :
  ∃ sys s s', rtc (log_step false 1000) sample_log_system sys /\ replica sys "b" = Some s /\ replica sys "a" = Some s' /\ applied (rlog s) ≠ [] /\ applied (rlog s) `prefix_of` mem s'.
Proof.
  destruct sample_log_run as (sys & Hr & Ha & Hb & HL & s & s' & Hs & Hs' & Ht & Ht'). exists sys, s, s'. split; [exact Hr|]. split; [exact Hs|]. split; [exact Hs'|].
  split; [unfold applied_by in Hb; rewrite Hs in Hb; by intros E; rewrite E in Hb|].
  apply (raft_leader_completeness false 1000 sample_config sample_log_system sys sys "b" s 1 "a" s' eq_refl sample_log_initial Hr (rtc_refl _ _) Hs); [rewrite HL; by left|exact Hs'|lia|exact Ht'].
Defined.

(** C6: the replicas with their queues and messages do what the protocol of
    Raft allows: each step of the system is some steps of the protocol, which
    keep a log and a term for each node, a log for each term that has a leader,
    and the votes and acknowledgements; and what replicas apply is committed in
    it. *)
Theorem raft_log_refines release RangeTimeLimit config (Hc : config_ok config) sys sys' :
  VerifyRaftConfig config COMMITTED_QUORUM = Ok tt -> log_initial config sys -> rtc (log_step release RangeTimeLimit) sys sys' ->
  let HQ := config_quorums release config Hc in
  ∃ p', rtc protocol_step (initial_protocol sys) p' /\ (∀ u, p_nodes p' !! u = pnode_of <$> replica sys' u) /\
    (∀ T i, (T, i) ∈ leaders (base sys') <-> ∃ ld, p_leaders p' !! T = Some ld /\ l_node ld = i) /\
    ∀ u s, replica sys' u = Some s -> chosen p' (current_term_of s) (applied (rlog s)).
Proof.
  intros HV Hin Hr HQ. destruct (log_steps_inv release RangeTimeLimit config Hc HV sys sys' _ (log_initial_inv release config Hc sys Hin) Hr) as (p' & Hs & [_ _ Hl _]).
  exists p'. split; [exact Hs|]. split; [apply Hl|]. split; [apply Hl|]. intros u s Hu. apply (lp_replicas _ _ _ _ _ _ _ _ Hl u s Hu).
Qed.

Lemma raft_log_refines_witness :
  ∃ (Hc : config_ok sample_config) sys (p' : protocol Operation), rtc (log_step false 1000) sample_log_system sys /\ length (applied_by sys "b") = 1%nat /\
    rtc (protocol_step (H0 := config_quorums false sample_config Hc)) (initial_protocol sample_log_system) p' /\ ∃ ld, p_leaders p' !! 1 = Some ld /\ l_node ld = "a".
Proof.
  destruct (proj1 (VerifyRaftConfig_ok sample_config COMMITTED_QUORUM) eq_refl) as [Hc _]. destruct sample_log_run as (sys & Hr & _ & Hb & HL & _).
  destruct (raft_log_refines false 1000 sample_config Hc sample_log_system sys eq_refl sample_log_initial Hr) as (p' & Hs & _ & Hlead & _).
  exists Hc, sys, p'. split; [exact Hr|]. split; [exact Hb|]. split; [exact Hs|]. apply Hlead. rewrite HL. by left.
Defined.
